(* ===== verification/_CoqProject ===== *)
-Q . S2P
Prelude.v
Cstd.v
Bloom.v
QueueList.v
Msg.v
Util.v
Config.v
LevelDb.v
Db.v
Redis.v
RedisSpec.v
Cmem.v
Sds.v
SdsSpec.v
Read.v
ReadSpec.v
ReadValue.v
ReadStream.v
Hiredis.v
HiredisSpec.v
Dict.v
DictSpec.v
Linenoise.v
LinenoiseSpec.v
Connect.v
ConnectSpec.v
RedisConnect.v
RepFile.v
Repl.v
ReplSpec.v
ReplSystem.v
RepMgr.v
RepMgrSpec.v
AppMgr.v
AppMgrSpec.v
Server.v
ServerSpec.v
Level.v
LevelSpec.v
Async.v
AsyncCommand.v
AsyncSpec.v
AsyncFree.v
AsyncSub.v
Coding.v
Status.v
DbFormat.v
Iter.v
Comparator.v
Filter.v
Block.v
BlockSpec.v
FilterBlock.v
TwoLevel.v
Merger.v
SkipList.v
SkipListSpec.v
MemTable.v
DbIter.v
DbIterSpec.v
WriteBatch.v
Crc32c.v
Env.v
FileSystem.v
VersionEdit.v
Version.v
Table.v
TableBuildSpec.v
LruCache.v
TableReadSpec.v
DbRead.v
Log.v
LogSpec.v
VersionSet.v
Arena.v
DbWrite.v
DbWriteSpec.v
PosixEnv.v
