(* ===== verification/Prelude.v ===== *)
(** * riser: a verification library

    [riser] is a key-value server that speaks the Redis protocol (and a second
    text protocol) and keeps its data in LevelDB. It replicates to slaves. Its
    command-line client is built on the bundled hiredis and linenoise. This
    library translates the server's own code, the parts of hiredis and
    linenoise that the client is made of, and the storage engine of the bundled
    LevelDB into executable definitions, and proves what makes them correct.

    ** The program and how its parts interact

    The main thread accepts clients and hands each to a worker thread over a
    queue and a pipe ([gent_thread], [gent_event]). The worker takes a
    connection object from a pool ([gent_app_mgr]) and lets libevent call it
    when the socket is ready. A connection ([gent_connect]) collects the bytes
    of a request, calls its command object ([gent_redis] or [gent_level]) to
    parse it, reads on while a value is incomplete, and sends the reply. The
    command object reads and writes the store ([gent_db]), which keeps values
    and expiry times in LevelDB, and tells the replication manager
    ([gent_repl]) about every changed key. The manager keeps one log of
    changed keys per slave ([gent_list]) and the slaves it knows in a file
    ([gent_file]); a slave asks for changes over an ordinary connection, and
    the answers are commands that its own command object carries out.

    On the client's side a command is formatted, sent and answered by
    [hiredis.c] (blocking) or [async.c] (with callbacks), over the dynamic
    strings of [sds.c], the reply parser [read.c] and the hash table [dict.c].
    [riser-cli] reads its lines with [linenoise.c].

    LevelDB keeps what is written in a memtable, a skip list of encoded
    entries, and in a log. Writers queue, and the first writes a group of their
    batches. A full memtable is written to a table, a file of sorted blocks
    with an index and a filter. A version is the set of tables by level; edits
    lead from one version to the next and are logged in the manifest, which
    the file CURRENT names. A lookup asks the memtables and then the tables of
    the version, an iterator merges them all.

    ** Files

    Shared
    - [Prelude]: byte strings, machine integers, results with exceptions,
      general lemmas, the tactics and hint databases of the library.
    - [Cstd]: the functions of the C and C++ libraries that the code calls
      (strtol, atoi, find, substr, snprintf of numbers, ...).
    - [Cmem]: blocks of memory with checked access.

    The server (sources in src/)
    - [Bloom], [QueueList]: the counting Bloom filter and the linked queue of
      gent_list.h and gent_list.cpp.
    - [Msg]: the ring buffer between threads, gent_msg.h.
    - [Util], [Config]: gent_util.cpp and gent_config.cpp.
    - [LevelDb], [Db]: what is assumed of LevelDB, and gent_db.cpp over it.
    - [Redis], [RedisSpec]: gent_redis.cpp.
    - [Level], [LevelSpec]: gent_level.cpp.
    - [Connect], [ConnectSpec], [RedisConnect]: gent_connect.cpp, and its
      composition with the Redis commands.
    - [RepFile]: gent_file.h and the records of gent_repl.h.
    - [Repl], [ReplSpec], [ReplSystem]: the log of a slave
      (GentReplication), and the system of a master and a slave.
    - [RepMgr], [RepMgrSpec]: GentRepMgr, the two sides of replication.
    - [AppMgr], [AppMgrSpec]: the pool of connections, gent_app_mgr.cpp.
    - [Server], [ServerSpec]: the threads, gent_thread.cpp and the handlers of
      gent_event.cpp.

    The client (sources in src/pack/hiredis and src/pack/linenoise)
    - [Sds], [SdsSpec]: sds.c.
    - [Read], [ReadSpec], [ReadValue], [ReadStream]: read.c, and the reply
      objects of hiredis.c.
    - [Hiredis], [HiredisSpec]: hiredis.c.
    - [Dict], [DictSpec]: dict.c.
    - [Async], [AsyncCommand], [AsyncSpec], [AsyncFree], [AsyncSub]: async.c
      with adapters/libevent.h.
    - [Linenoise], [LinenoiseSpec]: linenoise.c.

    The storage engine (sources in src/pack/leveldb)
    - [Coding], [Status], [DbFormat], [Comparator]: util/coding.cc,
      util/status.cc, db/dbformat.cc and util/comparator.cc.
    - [Iter]: the interface of iterators and its laws.
    - [Arena], [SkipList], [SkipListSpec], [MemTable]: util/arena.cc,
      db/skiplist.h, db/memtable.cc.
    - [Env], [FileSystem]: the interfaces of env.h; util/env.cc,
      util/logging.cc, db/filename.cc.
    - [PosixEnv]: the files of util/env_posix.cc.
    - [Crc32c], [Log], [LogSpec]: util/crc32c.cc, db/log_writer.cc,
      db/log_reader.cc.
    - [WriteBatch], [DbWrite], [DbWriteSpec]: db/write_batch.cc, and writing
      and recovery of db/db_impl.cc.
    - [Filter], [FilterBlock]: util/bloom.cc, util/hash.cc,
      table/filter_block.cc.
    - [Block], [BlockSpec]: table/block_builder.cc, table/block.cc.
    - [Table], [TableBuildSpec], [TableReadSpec]: table/format.cc,
      table/table_builder.cc, table/table.cc.
    - [LruCache]: util/cache.cc.
    - [TwoLevel], [Merger]: table/iterator_wrapper.h,
      table/two_level_iterator.cc, table/merger.cc.
    - [DbIter], [DbIterSpec]: db/db_iter.cc.
    - [VersionEdit], [Version], [VersionSet]: db/version_edit.cc,
      db/version_set.cc and [NewDB] of db/db_impl.cc.
    - [DbRead]: [Get] of db/db_impl.cc, and the theorems about [Version].

    A file with the name of a component has its data and operations; the
    [Spec] files and their companions have the theorems. A file without a
    companion has its theorems behind the definitions.

    ** How the code is translated

    - A struct or class is a [Record] with the source's fields, a method a
      function from the record to the record and the result. Definitions keep
      the source's names.
    - An integer is the integer it denotes. Where the code narrows a value
      ([int] to [uint8_t], [size_t] to [int]) the conversion is written out
      with [u8], [u32], [u64], [i32], [i64].
    - A C++ exception, and undefined behaviour that a theorem has to exclude
      (an access outside a block or through a freed pointer), is a value of
      the result type, so a theorem that gives a result also says that none
      of these happens.
    - Pointers that are shared (queue nodes, reply objects, logged items,
      connections, callback cells) are addresses of a heap.
    - A socket, a terminal or a file is the list of what its calls return,
      chosen by the environment: bytes in pieces, short writes, interruptions,
      EAGAIN, end of file, failure. A call behind the end of the list waits.
    - The time is an argument of what calls [time].
    - A mutex makes its critical section one step; threads are a step relation
      over such steps, and theorems hold for every interleaving.
    - The program's callbacks on an asynchronous context are a function from
      the history of calls to the actions a callback takes.

    Interfaces are classes. [LevelDb] states what the store relies on from
    LevelDB, with a finite map as an instance. A connection is proved against
    the class of command objects, which [RedisConnect] and [LevelSpec]
    instantiate. The commands are written against a class of replication
    managers, which [RepMgrSpec] instantiates. The log of a slave is written
    against a queue, which [QueueList] implements.

    The storage engine has an interface wherever the code has one, with the
    laws that its clients use: iterators over a sorted list ([Iter],
    [IterLaws]), comparators ([Comparator], [ComparatorLaws]; [KeyOrder] is a
    total order given by a function to the integers), filter policies
    ([FilterPolicy], [FilterLaws]), caches ([Cache], [CacheLaws], which
    [LruCache] implements), compression ([Snappy], [SnappyLaws]), the three
    kinds of files ([WritableFile], [SequentialFile], [RandomAccessFile] with
    their laws), the file system ([Env], [EnvLaws], whose laws also say what
    holds when an operation fails; an instance is a disk in memory that fails
    as it is told), and the tables of a version ([Tables], [TablesLaws]).
    Blocks, tables, merges and memtables are instances of the laws of
    iterators, so that what stands above them does not look inside.

    ** What the theorems show

    - End to end: a SET whose value the network cuts anywhere, and a GET
      behind it, over a socket ([set_get_over_socket],
      [level_set_get_over_socket]); a connection carries out the conversation
      of its command object ([connection_serves]) within its buffer
      ([InitRead_bounds]).
    - Requests: parsing and completing them ([set_then_get],
      [mset_any_chunks], [Process_requires_auth], [level_request_answered]).
    - Store: values and expiry ([Put_then_Get]), the sweep
      ([ClearExpireKey_exact]), the key counter ([key_num_counts]), listing
      ([Keys_exact]).
    - Replication: in every interleaving a key that does not wait in the log
      is up to date on the slave ([replication_safe]), and the slave converges
      ([replication_converges]); a change reaches every log
      ([set_reaches_every_log]); the exchange of acknowledgements
      ([acknowledgement_parsed], [slave_asks_again]); the file of slaves
      ([slave_survives_restart]).
    - Threads: handing over and closing connections never faults with one
      worker, or while no descriptor is reused during a close
      ([server_serves]); the books of the pool ([pool_books]); the ring buffer
      ([msg_fifo], [msg_no_lost_wakeup]).
    - Storage engine, writing: in every interleaving the committed batches are
      those of the calls, each once and in order ([group_commit]); a log cut at
      any byte recovers a prefix of the committed groups ([crash_recovery]);
      the log by itself ([log_roundtrip], [log_survives_cut],
      [log_damage_caught], [mapped_log_survives]) and its checksum
      ([crc32c_reference]).
    - Storage engine, reading: a lookup gives the last write to a key at a
      snapshot, wherever it is kept ([get_remembers], [memtable_remembers]);
      an iterator shows the newest visible value of each key
      ([iterator_shows_newest], [memtable_scan]) and a merge one sorted list
      ([merge_shows]).
    - Storage engine, tables: blocks and tables give back what was added
      ([block_roundtrip], [table_roundtrip], [table_lookup]); the cache frees
      nothing that is in use ([lru_cache_sound]); the regions of an arena do
      not overlap ([arena_regions]).
    - Storage engine, versions: whatever edits are logged, recovery gives the
      version, the pointers and the numbers back ([manifest_recovers],
      [edit_roundtrip]); setting CURRENT is atomic ([current_file_atomic]);
      names of files are recognised ([file_names_parse]).
    - Data structures: [queue_refines_list], [dict_refines_map],
      [sds_refines_bytes], [Save_no_false_negative], [Load_exact].
    - Blocking client: the ways of formatting agree ([formats_agree]), the
      server splits what the client formats ([client_command_splits]), replies
      are read back from any pieces ([reply_any_chunks]), errors are latched
      ([protocol_error_latched]), and a command makes its round trip
      ([command_roundtrip]).
    - Asynchronous client: replies reach the callbacks of their commands in
      order ([async_delivers]), no callback is forgotten when a context ends
      ([no_callback_forgotten]), subscriptions ([subscription_roundtrip]).
    - Line editor: [typed_line], [history_refines], [history_file_roundtrip].
    - Quoting and formatting of strings: [repr_splitargs_roundtrip],
      [sdscatfmt_spec].

    Where the code does not do what it means to, a lemma shows it on an
    input: for instance [Clear_false_negative], [BatchPut_overcounts],
    [set_cut_in_line_end_throws], [broken_send_spins], [resend_loses_key],
    [destroy_spins], [closing_race_exits], [missing_key_has_value],
    [monitor_drops_reply], [stale_callback_gets_message],
    [next_after_prev_repeats], [failed_sync_survives], [restart_count_wraps],
    [merge_loses_duplicate], [cut_manifest_refused]. The theorems above
    have the hypotheses that exclude these inputs.

    ** Fuel and bounds

    Loops whose recursion is not structural take fuel; the theorems give the
    result, and so show that the fuel is enough.
    - Splitting loops take one round more than the string has bytes; each
      round consumes at least one.
    - Reading a request takes at most six rounds, since the buffer is doubled
      at most four times.
    - The reply parser takes a round per unread byte; the callback loops of
      the asynchronous client one per queued callback or unread byte.
    - An acknowledgement drops at most as many log items as a reply carries.
    - The parser accepts eight levels of arrays (its stack has nine tasks),
      so freeing a reply recurses at most ten deep.
    - Callbacks of the program that call the library again, which calls them
      again, are followed to a depth of three: a callback is called from an
      event, and a callback called while freeing can free only once more.
    - Lengths are below 2^31 - 2^21 where [sds.c] computes with [int] and
      preallocates a mebibyte. Hash tables have fewer than 2^30 entries, since
      [dict.c] doubles the table when it is full and takes an index as an
      [int].
    - Loops over a block of a table take a round per byte; a two-level
      iterator skips at most all blocks, which takes two rounds more than
      there are; the cache evicts at most all entries of its list, and its
      hash table doubles at most 33 times; the binary search over the files of
      a level takes at most one round more than there are files.
    - Reading a log takes a round per fragment, so that a number above the
      bytes of the file is enough; the same number bounds the records.
    - Keys are shorter than 2^31 - 8 bytes and file numbers below 2^64, the
      widths of the fields that hold them.

    ** Not modelled

    - Setting up libevent, listening sockets, pipes, threads, signals and the
      daemon (gent_event.cpp, gent_frame.cpp, riser.cpp), and client sockets
      (net.c): they only make system calls, whose results are the inputs of
      what is modelled.
    - The main loop of riser-cli.cpp and the log files: output only.
    - The text of INFO, BytesToHuman and TimeToStr: process figures, floating
      point and local time; INFO is a parameter of the commands.
    - Raw mode and the size of the terminal in linenoise.c (the size is a
      parameter).
    - The bundled libevent, of which the server only uses the documented
      interface. The adapters of hiredis to event libraries other than
      libevent, which differ only in the library they call.
    - Of LevelDB: picking and running compactions and the score of a level (in
      floating point), the list of old versions and their reference counts,
      the cache of open tables (an interface of the versions), repair, the C
      interface, texts for debugging, and changing the options of a table
      while it is built.

    ** Plan

    What could follow, in this order: the cache of open tables and the
    iterators over a version, which connect [TableReadSpec], [Merger] and
    [DbIterSpec]; compactions, as steps that keep what [get_remembers] assumes
    of the levels; the loop of riser-cli over the models of the line editor
    and of the blocking client. *)

From Stdlib Require Ascii String.
From Stdlib Require Export ZArith Lia.
From stdpp Require Export prelude strings gmap list.

#[global] Open Scope Z_scope.

(** ** Byte strings *)

(** A C [char] buffer or a C++ [std::string]: the list of its bytes, each a
    value of [0 .. 255]. *)
Abbreviation bytes := (list Z).

(** The bytes of a string literal. *)
Definition str (s : string) : bytes :=
  (λ c, Z.of_N (Ascii.N_of_ascii c)) <$> String.list_ascii_of_string s.

Definition CR : Z := 13.
Definition LF : Z := 10.
Definition crlf : bytes := [CR; LF].

(** The length of a string as a [size_t]. *)
Definition zlen {A} (s : list A) : Z := Z.of_nat (length s).

(** ** Machine integers

    A value of a C integer type is the integer it denotes; every conversion
    to a narrower type is written out with one of the functions below. *)
Definition u8 (z : Z) : Z := z `mod` 2 ^ 8.
Definition u32 (z : Z) : Z := z `mod` 2 ^ 32.
Definition u64 (z : Z) : Z := z `mod` 2 ^ 64.
Definition i32 (z : Z) : Z := (z + 2 ^ 31) `mod` 2 ^ 32 - 2 ^ 31.
Definition i64 (z : Z) : Z := (z + 2 ^ 63) `mod` 2 ^ 64 - 2 ^ 63.

(** The value of a (signed) [char] that holds the byte [b]. *)
Definition schar (b : Z) : Z := if b <? 128 then b else b - 256.

Definition is_byte (b : Z) : Prop := 0 ≤ b < 256.

Ltac unfold_int := unfold u8, u32, u64, i32, i64 in *.

Lemma u8_range z : 0 ≤ u8 z < 2 ^ 8.
Proof. unfold_int. apply Z.mod_pos_bound. lia. Qed.
Lemma u32_range z : 0 ≤ u32 z < 2 ^ 32.
Proof. unfold_int. apply Z.mod_pos_bound. lia. Qed.
Lemma u64_range z : 0 ≤ u64 z < 2 ^ 64.
Proof. unfold_int. apply Z.mod_pos_bound. lia. Qed.
Lemma i32_range z : - 2 ^ 31 ≤ i32 z < 2 ^ 31.
Proof. unfold_int. pose proof (Z.mod_pos_bound (z + 2 ^ 31) (2 ^ 32)). lia. Qed.
Lemma i64_range z : - 2 ^ 63 ≤ i64 z < 2 ^ 63.
Proof. unfold_int. pose proof (Z.mod_pos_bound (z + 2 ^ 63) (2 ^ 64)). lia. Qed.

Lemma u8_small z : 0 ≤ z < 2 ^ 8 → u8 z = z.
Proof. intros. by apply Z.mod_small. Qed.
Lemma u32_small z : 0 ≤ z < 2 ^ 32 → u32 z = z.
Proof. intros. by apply Z.mod_small. Qed.
Lemma u64_small z : 0 ≤ z < 2 ^ 64 → u64 z = z.
Proof. intros. by apply Z.mod_small. Qed.
Lemma i32_small z : - 2 ^ 31 ≤ z < 2 ^ 31 → i32 z = z.
Proof. intros. unfold i32. rewrite Z.mod_small; lia. Qed.
Lemma i64_small z : - 2 ^ 63 ≤ z < 2 ^ 63 → i64 z = z.
Proof. intros. unfold i64. rewrite Z.mod_small; lia. Qed.

(** ** Results of operations that can fail

    [OutOfRange] is the [std::out_of_range] exception, which no code of the
    server catches, so it ends the process; [OutOfBounds] is an access
    outside an object (or through NULL) and [IntOverflow] an overflow of
    signed arithmetic, which C and C++ leave undefined; [AssertFailed] is a
    failed [assert], which ends the process. *)
Inductive fault := OutOfRange | OutOfBounds | IntOverflow | AssertFailed.

Inductive result (A : Type) :=
  | Ok (a : A)
  | Fault (f : fault).
Arguments Ok {_} _.
Arguments Fault {_} _.

#[global] Instance fault_eq_dec : EqDecision fault.
Proof. solve_decision. Defined.
#[global] Instance result_eq_dec `{EqDecision A} : EqDecision (result A).
Proof. solve_decision. Defined.

#[global] Instance result_ret : MRet result := @Ok.
#[global] Instance result_bind : MBind result :=
  λ A B f r, match r with Ok a => f a | Fault e => Fault e end.
#[global] Instance result_fmap : FMap result :=
  λ A B f r, match r with Ok a => Ok (f a) | Fault e => Fault e end.

Lemma result_bind_Ok {A B} (m : result A) (f : A → result B) b :
  (m ≫= f) = Ok b → ∃ a, m = Ok a ∧ f a = Ok b.
Proof. destruct m; naive_solver. Qed.

(** Inverts a chain of binds in the hypotheses. *)
Ltac inv_result :=
  repeat match goal with
  | H : (_ ≫= _) = Ok _ |- _ =>
      let x := fresh "x" in let E := fresh "E" in
      apply result_bind_Ok in H as (x & E & H)
  | H : Ok _ = Ok _ |- _ => injection H as H
  | H : mret _ = Ok _ |- _ => injection H as H
  | H : Fault _ = Ok _ |- _ => discriminate H
  end; try subst.

(** Computes binds of known results, and nothing else. *)
Ltac rbind := cbn [mbind result_bind mret result_ret fmap result_fmap].

(** [v[i]] on a [std::vector]: undefined outside the vector. *)
Definition vec_at {A} (v : list A) (i : Z) : result A :=
  if (0 <=? i) && (i <? zlen v) then
    match v !! Z.to_nat i with Some a => Ok a | None => Fault OutOfBounds end
  else Fault OutOfBounds.

(** ** Bits *)
Lemma testbit_above x n i : 0 ≤ x < 2 ^ n → n ≤ i → Z.testbit x i = false.
Proof.
  intros Hx Hi. destruct (Z.eq_dec x 0) as [->|]; [apply Z.bits_0|].
  apply Z.bits_above_log2; [lia|]. apply Z.lt_le_trans with n; [|done].
  apply Z.log2_lt_pow2; lia.
Qed.

Lemma bits_lt_pow2 x n :
  0 ≤ n → 0 ≤ x → (∀ i, n ≤ i → Z.testbit x i = false) → x < 2 ^ n.
Proof.
  intros Hn Hx Hbits. destruct (Z.lt_ge_cases x (2 ^ n)) as [|Hge]; [done|].
  assert (n ≤ Z.log2 x) by (apply Z.log2_le_pow2; [pose proof (Z.pow_pos_nonneg 2 n); lia|done]).
  pose proof (Hbits (Z.log2 x) ltac:(done)) as Hf.
  rewrite Z.bit_log2 in Hf; [done|]. pose proof (Z.pow_pos_nonneg 2 n). lia.
Qed.
