(* ===== verification/Cstd.v ===== *)
(** * The parts of the C and C++ standard libraries the sources use

    [std::string] searching and slicing with [size_t] positions, character
    classes, [strtol]/[strtoull]/[atoi], decimal printing and [snprintf]
    truncation, each with the lemmas the components share. *)

From S2P Require Import Prelude.

(** ** [std::string] *)

(** [std::string::npos]. *)
Definition npos : Z := 2 ^ 64 - 1.

(** Is the character [c] one of the characters of [set]? *)
Definition mem (set : bytes) (c : Z) : bool := existsb (Z.eqb c) set.

(** The index of the first character that satisfies [p]; [i] is the index of
    the head of [s]. *)
Fixpoint find_from (p : Z → bool) (s : bytes) (i : Z) : Z :=
  match s with
  | [] => npos
  | c :: s' => if p c then i else find_from p s' (i + 1)
  end.

Definition find_if (p : Z → bool) (s : bytes) (pos : Z) : Z :=
  if zlen s <=? pos then npos else find_from p (drop (Z.to_nat pos) s) pos.

Definition find_first_of (s set : bytes) (pos : Z) : Z := find_if (mem set) s pos.
Definition find_first_not_of (s set : bytes) (pos : Z) : Z :=
  find_if (λ c, negb (mem set c)) s pos.

(** The index of the last character that satisfies [p]; [last] is the index
    of the one found so far. *)
Fixpoint find_last_from (p : Z → bool) (s : bytes) (i last : Z) : Z :=
  match s with
  | [] => last
  | c :: s' => find_last_from p s' (i + 1) (if p c then i else last)
  end.

Definition find_last_not_of (s set : bytes) : Z :=
  find_last_from (λ c, negb (mem set c)) s 0 npos.

(** [s.substr(pos, n)] throws when [pos] is past the end. *)
Definition substr (s : bytes) (pos n : Z) : result bytes :=
  if zlen s <? pos then Fault OutOfRange
  else Ok (take (Z.to_nat (Z.min n (zlen s - pos))) (drop (Z.to_nat pos) s)).

(** [s.substr(pos)]. *)
Definition substr_from (s : bytes) (pos : Z) : result bytes := substr s pos npos.

(** The characters before the first NUL: what a C string function sees. *)
Fixpoint cstr (s : bytes) : bytes :=
  match s with
  | [] => []
  | c :: s' => if c =? 0 then [] else c :: cstr s'
  end.

(** ** Character classes ([isspace], [isdigit], ... in the C locale) *)
Definition isspace (c : Z) : bool := (c =? 32) || ((9 <=? c) && (c <=? 13)).
Definition isdigit (c : Z) : bool := (48 <=? c) && (c <=? 57).
Definition isprint (c : Z) : bool := (32 <=? c) && (c <=? 126).
Definition tolower (c : Z) : Z := if (65 <=? c) && (c <=? 90) then c + 32 else c.
Definition toupper (c : Z) : Z := if (97 <=? c) && (c <=? 122) then c - 32 else c.

(** ** Reading numbers *)
Fixpoint skip_spaces (s : bytes) : bytes :=
  match s with
  | c :: s' => if isspace c then skip_spaces s' else s
  | [] => []
  end.

(** The value of the leading decimal digits, how many there are, and the rest. *)
Fixpoint read_digits (s : bytes) (acc n : Z) : Z * Z * bytes :=
  match s with
  | c :: s' => if isdigit c then read_digits s' (10 * acc + (c - 48)) (n + 1)
               else (acc, n, s)
  | [] => (acc, n, [])
  end.

(** The optional sign. *)
Definition read_sign (s : bytes) : bool * bytes :=
  match s with
  | c :: s' => if c =? 45 then (true, s') else if c =? 43 then (false, s') else (false, s)
  | [] => (false, [])
  end.

(** What [strtol] and its family parse in base 10: the sign, the magnitude,
    the number of digits and the text after them. *)
Definition scan_int (s : bytes) : bool * Z * Z * bytes :=
  let '(neg, s1) := read_sign (skip_spaces s) in
  let '(v, n, rest) := read_digits s1 0 0 in (neg, v, n, rest).

(** [strtol(s, &endptr, 10)] with a 64-bit [long]: the saturated value,
    whether [errno] is [ERANGE], and [endptr] ([None] when it equals [s]). *)
Definition strtol (s : bytes) : Z * bool * option bytes :=
  let '(neg, v, n, rest) := scan_int s in
  if n =? 0 then (0, false, None) else
  let z := if neg then - v else v in
  if 2 ^ 63 - 1 <? z then (2 ^ 63 - 1, true, Some rest)
  else if z <? - 2 ^ 63 then (- 2 ^ 63, true, Some rest)
  else (z, false, Some rest).

(** [strtoull(s, NULL, 10)]: a minus sign negates modulo 2^64. *)
Definition strtoull (s : bytes) : Z :=
  let '(neg, v, n, rest) := scan_int s in
  if n =? 0 then 0 else
  if 2 ^ 64 - 1 <? v then 2 ^ 64 - 1 else if neg then u64 (- v) else v.

Definition atoll (s : bytes) : Z := (strtol s).1.1.
Definition atoi (s : bytes) : Z := i32 (atoll s).

(** ** Printing numbers *)
Fixpoint digits_fuel (fuel : nat) (n : Z) (acc : bytes) : bytes :=
  match fuel with
  | O => acc
  | S f => let acc := (48 + n `mod` 10) :: acc in
           if n <? 10 then acc else digits_fuel f (n `div` 10) acc
  end.

(** The decimal digits of a nonnegative number: [%u], [%lu], [%llu]. The
    number of binary digits bounds the number of decimal ones. *)
Definition udec (n : Z) : bytes := digits_fuel (S (Z.to_nat (Z.log2 n))) n [].

(** [%d], [%ld], [%lld]. *)
Definition sdec (z : Z) : bytes := if z <? 0 then 45 :: udec (- z) else udec z.

(** What [snprintf(buf, size, ...)] leaves in [buf] of the formatted text. *)
Definition snprintf (size : Z) (s : bytes) : bytes := take (Z.to_nat (size - 1)) s.

(** ** Lemmas on searching and slicing *)

Lemma zlen_nonneg {A} (s : list A) : 0 ≤ zlen s.
Proof. unfold zlen. lia. Qed.
Lemma zlen_app {A} (s t : list A) : zlen (s ++ t) = zlen s + zlen t.
Proof. unfold zlen. rewrite length_app. lia. Qed.
Lemma zlen_cons {A} (a : A) s : zlen (a :: s) = 1 + zlen s.
Proof. unfold zlen. simpl. lia. Qed.
Lemma zlen_nil {A} : zlen (@nil A) = 0.
Proof. done. Qed.
Lemma zlen_0_inv {A} (s : list A) : zlen s = 0 → s = [].
Proof. destruct s; [done|]. rewrite zlen_cons. pose proof (zlen_nonneg s). lia. Qed.
Lemma to_nat_zlen {A} (s : list A) : Z.to_nat (zlen s) = length s.
Proof. unfold zlen. lia. Qed.

Create Rewrite HintDb zlen.
#[export] Hint Rewrite @zlen_app @zlen_cons @zlen_nil @to_nat_zlen : zlen.

(** Normalises lengths, then calls [lia] with the lengths' signs. *)
Ltac zlia :=
  autorewrite with zlen in *;
  repeat match goal with
  | |- context [zlen ?s] =>
      lazymatch goal with H : 0 ≤ zlen s |- _ => fail | _ => pose proof (zlen_nonneg s) end
  | _ : context [zlen ?s] |- _ =>
      lazymatch goal with H : 0 ≤ zlen s |- _ => fail | _ => pose proof (zlen_nonneg s) end
  end; first [lia | unfold zlen in *; lia].

Lemma mem_true set c : mem set c = true ↔ c ∈ set.
Proof.
  unfold mem. rewrite existsb_exists, list_elem_of_In. setoid_rewrite Z.eqb_eq.
  split; [by intros (x & ? & ->)|by exists c].
Qed.
Lemma mem_false set c : mem set c = false ↔ c ∉ set.
Proof. rewrite <- mem_true. by destruct (mem set c). Qed.

Lemma find_from_skip p s t i :
  Forall (λ c, p c = false) s → find_from p (s ++ t) i = find_from p t (i + zlen s).
Proof.
  intros H. revert i. induction H as [|c s Hc _ IH]; intros i; simpl.
  - f_equal. zlia.
  - rewrite Hc, IH. f_equal. zlia.
Qed.

Lemma find_from_none p s i : Forall (λ c, p c = false) s → find_from p s i = npos.
Proof. intros H. rewrite <- (app_nil_r s), find_from_skip by done. done. Qed.

(** A search that starts at the end of [a] and meets [b] without a hit. *)
Lemma find_if_hit p a b c d pos :
  pos = zlen a → Forall (λ c, p c = false) b → p c = true →
  find_if p (a ++ b ++ c :: d) pos = zlen a + zlen b.
Proof.
  intros -> Hb Hc. unfold find_if.
  destruct (Z.leb_spec (zlen (a ++ b ++ c :: d)) (zlen a)); [zlia|].
  rewrite to_nat_zlen, drop_app_length, find_from_skip by done.
  simpl. by rewrite Hc.
Qed.

Lemma find_if_none p a b pos :
  pos = zlen a → Forall (λ c, p c = false) b → find_if p (a ++ b) pos = npos.
Proof.
  intros -> Hb. unfold find_if. case_match; [done|].
  rewrite to_nat_zlen, drop_app_length. by apply find_from_none.
Qed.

Lemma find_if_past p s pos : zlen s ≤ pos → find_if p s pos = npos.
Proof. intros H. unfold find_if. destruct (Z.leb_spec (zlen s) pos); [done|lia]. Qed.

Lemma find_from_bounds p s i :
  find_from p s i = npos ∨ i ≤ find_from p s i < i + zlen s.
Proof.
  revert i. induction s as [|c s IH]; intros i; simpl; [by left|].
  case_match; [right; zlia|].
  destruct (IH (i + 1)) as [H1|H1]; [by left|right; zlia].
Qed.

Lemma find_if_bounds p s pos :
  0 ≤ pos → find_if p s pos = npos ∨ pos ≤ find_if p s pos < zlen s.
Proof.
  intros Hp. unfold find_if. case_match eqn:E; [by left|]. apply Z.leb_gt in E.
  destruct (find_from_bounds p (drop (Z.to_nat pos) s) pos) as [H|H]; [by left|right].
  unfold zlen in *. rewrite length_drop in H. lia.
Qed.

Lemma substr_app a b c pos n :
  pos = zlen a → n = zlen b → substr (a ++ b ++ c) pos n = Ok b.
Proof.
  intros -> ->. unfold substr.
  destruct (Z.ltb_spec (zlen (a ++ b ++ c)) (zlen a)); [zlia|].
  rewrite to_nat_zlen, drop_app_length. f_equal.
  rewrite Z.min_l by zlia. rewrite to_nat_zlen. apply take_app_length.
Qed.

Lemma substr_prefix b c : substr (b ++ c) 0 (zlen b) = Ok b.
Proof. exact (substr_app [] b c 0 (zlen b) eq_refl eq_refl). Qed.

Lemma substr_app_end a b pos n :
  pos = zlen a → zlen b ≤ n → substr (a ++ b) pos n = Ok b.
Proof.
  intros -> Hn. unfold substr.
  destruct (Z.ltb_spec (zlen (a ++ b)) (zlen a)); [zlia|].
  rewrite to_nat_zlen, drop_app_length. f_equal.
  rewrite Z.min_r by zlia. apply take_ge. zlia.
Qed.

(** [s.substr(0, n)] never throws and clips [n] at the end. *)
Lemma substr_0 s n : 0 ≤ n → substr s 0 n = Ok (take (Z.to_nat n) s).
Proof.
  intros Hn. unfold substr. destruct (Z.ltb_spec (zlen s) 0); [zlia|].
  rewrite drop_0. f_equal. destruct (Z.min_spec n (zlen s - 0)) as [[? ->]|[? ->]]; [done|].
  rewrite !take_ge; [done| |]; unfold zlen in *; lia.
Qed.

Lemma substr_0_all s n : zlen s ≤ n → substr s 0 n = Ok s.
Proof.
  intros Hn. rewrite substr_0 by zlia. f_equal. apply take_ge. unfold zlen in *. lia.
Qed.

Lemma substr_ok_iff s pos n : (∃ r, substr s pos n = Ok r) ↔ pos ≤ zlen s.
Proof.
  unfold substr. destruct (Z.ltb_spec (zlen s) pos); split.
  - intros [r ?]. done.
  - lia.
  - done.
  - eauto.
Qed.

(** ** Lemmas on numbers *)

Lemma digits_fuel_app fuel n acc : digits_fuel fuel n acc = digits_fuel fuel n [] ++ acc.
Proof.
  revert n acc. induction fuel as [|f IH]; intros n acc; simpl; [done|].
  case_match; [done|]. rewrite (IH _ (_ :: acc)), (IH _ [_]).
  by rewrite <- app_assoc.
Qed.

Lemma digits_fuel_digits fuel n acc :
  0 ≤ n → Forall (λ c, isdigit c = true) acc →
  Forall (λ c, isdigit c = true) (digits_fuel fuel n acc).
Proof.
  revert n acc. induction fuel as [|f IH]; intros n acc Hn Hacc; simpl; [done|].
  assert (isdigit (48 + n `mod` 10) = true) as Hd.
  { pose proof (Z.mod_pos_bound n 10). unfold isdigit. lia. }
  case_match; [by constructor|]. apply IH; [|by constructor].
  apply Z.div_pos; lia.
Qed.

Lemma udec_digits n : 0 ≤ n → Forall (λ c, isdigit c = true) (udec n).
Proof. intros. by apply digits_fuel_digits. Qed.

Lemma udec_nonempty n : ∃ c s, udec n = c :: s.
Proof.
  unfold udec. simpl. case_match; [eauto|]. rewrite digits_fuel_app.
  destruct (digits_fuel _ _ []); simpl; eauto.
Qed.

(** The number a digit string denotes. *)
Definition digits_value (s : bytes) (acc : Z) : Z := fold_left (λ a c, 10 * a + (c - 48)) s acc.

Lemma read_digits_app s t acc n :
  Forall (λ c, isdigit c = true) s →
  read_digits (s ++ t) acc n =
    read_digits t (digits_value s acc) (n + zlen s).
Proof.
  unfold digits_value. intros H. revert acc n. induction H as [|c s Hc _ IH]; intros acc n; simpl.
  - f_equal. zlia.
  - rewrite Hc, IH. f_equal. zlia.
Qed.

Lemma digits_fuel_value fuel n :
  0 ≤ n < 2 ^ Z.of_nat fuel → digits_value (digits_fuel fuel n []) 0 = n.
Proof.
  revert n. induction fuel as [|f IH]; intros n Hn; [simpl in *; lia|].
  cbn [digits_fuel]. case_match eqn:E.
  - unfold digits_value. simpl. apply Z.ltb_lt in E. rewrite Z.mod_small by lia. lia.
  - apply Z.ltb_ge in E. rewrite digits_fuel_app. unfold digits_value in *.
    rewrite fold_left_app, IH; simpl.
    + pose proof (Z.div_mod n 10). lia.
    + rewrite Nat2Z.inj_succ, Z.pow_succ_r in Hn by lia.
      split; [apply Z.div_pos; lia|]. apply Z.div_lt_upper_bound; lia.
Qed.

Lemma udec_value n : 0 ≤ n → digits_value (udec n) 0 = n.
Proof.
  intros Hn. unfold udec. apply digits_fuel_value.
  destruct (Z.eq_dec n 0) as [->|Hz]; [simpl; lia|].
  rewrite Nat2Z.inj_succ, Z2Nat.id by apply Z.log2_nonneg.
  pose proof (Z.log2_spec n). lia.
Qed.

Lemma isdigit_not_space c : isdigit c = true → isspace c = false.
Proof. unfold isdigit, isspace. lia. Qed.

(** The text after a number: nothing, or a character that is not a digit. *)
Definition not_digit_first (t : bytes) : Prop :=
  match t with [] => True | c :: _ => isdigit c = false end.

Lemma scan_int_digits s t :
  Forall (λ c, isdigit c = true) s → s ≠ [] → not_digit_first t →
  scan_int (s ++ t) = (false, digits_value s 0, zlen s, t).
Proof.
  intros Hd Hne Ht. unfold scan_int. destruct s as [|c s]; [done|].
  pose proof (Forall_inv Hd) as Hc. simpl in Hc.
  assert (skip_spaces ((c :: s) ++ t) = (c :: s) ++ t) as ->.
  { simpl. by rewrite isdigit_not_space. }
  assert (read_sign ((c :: s) ++ t) = (false, (c :: s) ++ t)) as ->.
  { simpl. unfold isdigit in Hc. repeat case_match; try done; lia. }
  rewrite read_digits_app by done.
  destruct t as [|x t]; simpl in *; [done|]. by rewrite Ht.
Qed.

Lemma scan_int_udec n t :
  0 ≤ n → not_digit_first t →
  scan_int (udec n ++ t) = (false, n, zlen (udec n), t).
Proof.
  intros Hn Ht. pose proof (udec_value n Hn) as Hv. rewrite scan_int_digits; [by rewrite Hv|by apply udec_digits| |done].
  destruct (udec_nonempty n) as (c & s & ->). done.
Qed.

Lemma zlen_udec_pos n : 0 < zlen (udec n).
Proof. destruct (udec_nonempty n) as (c & s & ->). zlia. Qed.

Lemma strtol_udec n t :
  0 ≤ n < 2 ^ 63 → not_digit_first t → strtol (udec n ++ t) = (n, false, Some t).
Proof.
  intros Hn Ht. unfold strtol. rewrite scan_int_udec by (done || lia).
  pose proof (zlen_udec_pos n).
  repeat case_match; try done; lia.
Qed.

Lemma atoi_udec n t : 0 ≤ n < 2 ^ 31 → not_digit_first t → atoi (udec n ++ t) = n.
Proof.
  intros Hn Ht. unfold atoi, atoll. rewrite strtol_udec by (done || lia).
  apply i32_small. simpl. lia.
Qed.

Lemma atoi_digits s t :
  Forall (λ c, isdigit c = true) s → s ≠ [] → not_digit_first t → digits_value s 0 < 2 ^ 31 → atoi (s ++ t) = digits_value s 0.
Proof.
  intros Hd Hne Ht Hb. unfold atoi, atoll, strtol. rewrite scan_int_digits by done.
  assert (0 < zlen s) by (destruct s; [done|]; zlia).
  assert (0 ≤ digits_value s 0).
  { clear -Hd. unfold digits_value. assert (∀ a, 0 ≤ a → 0 ≤ fold_left (λ a c, 10 * a + (c - 48)) s a) as Hall; [|by apply Hall].
    induction Hd as [|c s Hc _ IH]; intros a Ha; [done|]. simpl. apply IH. unfold isdigit in Hc. lia. }
  repeat case_match; try lia; simpl; apply i32_small; lia.
Qed.

Lemma strtoull_udec n t : 0 ≤ n < 2 ^ 64 → not_digit_first t → strtoull (udec n ++ t) = n.
Proof.
  intros Hn Ht. unfold strtoull. rewrite scan_int_udec by (done || lia).
  pose proof (zlen_udec_pos n). repeat case_match; try done; lia.
Qed.

(** The number of decimal digits. *)
Lemma digits_fuel_len fuel n (k : nat) :
  0 ≤ n < 10 ^ Z.of_nat k → (0 < k)%nat → (length (digits_fuel fuel n []) ≤ k)%nat.
Proof.
  revert n k. induction fuel as [|f IH]; intros n k Hn Hk; cbn [digits_fuel]; [simpl; lia|].
  case_match eqn:E; [simpl; lia|]. apply Z.ltb_ge in E.
  rewrite digits_fuel_app, length_app. simpl.
  destruct k as [|[|k]]; [lia|simpl in Hn; lia|].
  rewrite (Nat2Z.inj_succ (S k)), Z.pow_succ_r in Hn by lia.
  assert (length (digits_fuel f (n `div` 10) []) ≤ S k)%nat; [|lia].
  apply IH; [|lia]. split; [apply Z.div_pos; lia|]. apply Z.div_lt_upper_bound; lia.
Qed.

Lemma udec_len_le n (k : nat) : 0 ≤ n < 10 ^ Z.of_nat k → (0 < k)%nat → (length (udec n) ≤ k)%nat.
Proof. apply digits_fuel_len. Qed.

Lemma digits_value_bounds s acc :
  Forall (λ c, isdigit c = true) s → 0 ≤ acc →
  0 ≤ digits_value s acc < (acc + 1) * 10 ^ zlen s.
Proof.
  intros H. revert acc. induction H as [|c s Hc _ IH]; intros acc Hacc.
  - unfold digits_value, zlen. simpl. lia.
  - unfold digits_value in *. simpl. unfold isdigit in Hc.
    specialize (IH (10 * acc + (c - 48))). rewrite zlen_cons, Z.pow_add_r by zlia.
    assert (0 < 10 ^ zlen s) by (apply Z.pow_pos_nonneg; zlia). nia.
Qed.

Lemma udec_len_ge n (k : nat) : 10 ^ Z.of_nat k ≤ n → (k < length (udec n))%nat.
Proof.
  intros Hn. assert (0 < 10 ^ Z.of_nat k) by (apply Z.pow_pos_nonneg; lia).
  pose proof (udec_value n) as Hv.
  pose proof (digits_value_bounds (udec n) 0 (udec_digits n ltac:(lia)) ltac:(lia)) as Hb.
  rewrite Hv in Hb by lia.
  destruct (Nat.le_gt_cases (length (udec n)) k) as [Hle|]; [|done]. exfalso.
  assert (10 ^ zlen (udec n) ≤ 10 ^ Z.of_nat k); [|lia].
  apply Z.pow_le_mono_r; unfold zlen; lia.
Qed.
