(* ===== verification/Bloom.v ===== *)
(** * The counting Bloom filter (gent_list.h, gent_list.cpp)

    [HashInter] objects form a chain (SDBM, RS, JS); each owns a table of
    2^16 cells of eight bits and eight counters, mapped from a file. [Save],
    [Load] and [Clear] of [GentList] walk the chain. *)

From S2P Require Import Prelude Cstd.

Module Bloom.

Definition posnum : Z := 16.
Definition hashsize (n : Z) : Z := u64 (Z.shiftl 1 n).
Definition hashmask (n : Z) : Z := hashsize (n + 3) - 1.

(** One cell: a byte of eight flags and a counter for each of them. *)
Record hashTables := HashTables { table : Z; rel_count : list Z }.

Definition zero_cell : hashTables := HashTables 0 (replicate 8 0).

(** The bits of a cell and the masks that [Del] uses to clear them. *)
Definition posval : list Z := [0x01; 0x02; 0x04; 0x08; 0x10; 0x20; 0x40; 0x80].
Definition posvalrev : list Z := [0xFE; 0xFD; 0xFC; 0xFB; 0xEF; 0xDF; 0xCF; 0xBF].

(** The three subclasses of [HashInter]. *)
Inductive hash_kind := SDBMHash | RSHash | JSHash.

(** A loop until the NUL that folds the characters of a C string, each
    promoted from [char] to 64 bits. *)
Fixpoint SDBM_loop (s : bytes) (hash : Z) : Z :=
  match s with
  | [] => hash
  | c :: s' => SDBM_loop s' (u64 (schar c + Z.shiftl hash 6 + Z.shiftl hash 16 - hash))
  end.

Definition SDBM_Hash (s : bytes) : Z :=
  Z.land (Z.land (SDBM_loop (cstr s) 0) 0x7FFFFFFF) (hashmask posnum).

Fixpoint RS_loop (s : bytes) (a hash : Z) : Z :=
  match s with
  | [] => hash
  | c :: s' => RS_loop s' (u64 (a * 378551)) (u64 (hash * a + schar c))
  end.

Definition RS_Hash (s : bytes) : Z :=
  Z.land (Z.land (RS_loop (cstr s) 63689 0) 0x7FFFFFFF) (hashmask posnum).

Fixpoint JS_loop (s : bytes) (hash : Z) : Z :=
  match s with
  | [] => hash
  | c :: s' =>
      JS_loop s' (Z.lxor hash (u64 (u64 (Z.shiftl hash 5) + schar c + Z.shiftr hash 2)))
  end.

Definition JS_Hash (s : bytes) : Z :=
  Z.land (Z.land (JS_loop (cstr s) 1315423911) 0x7FFFFFFF) (hashmask posnum).

Definition Hash (k : hash_kind) (s : bytes) : Z :=
  match k with SDBMHash => SDBM_Hash s | RSHash => RS_Hash s | JSHash => JS_Hash s end.

(** One object of the chain; the mapped array as a finite map in which an
    absent cell is a zero one. *)
Record HashInter := { kind : hash_kind; tables : gmap Z hashTables }.

Definition cell (t : gmap Z hashTables) (pos : Z) : hashTables := default zero_cell (t !! pos).

(** The counter and the mask at offset [off], which is below 8. *)
Definition count_at (c : hashTables) (off : Z) : Z := default 0 (rel_count c !! Z.to_nat off).
Definition mask_at (m : list Z) (off : Z) : Z := default 0 (m !! Z.to_nat off).
Definition set_count (c : hashTables) (off v : Z) : list Z := <[Z.to_nat off := v]> (rel_count c).

(** [Position(key, isget)]: the value it returns and the table after it. *)
Definition Position (h : HashInter) (key : bytes) (isget : Z) : Z * HashInter :=
  let v := Hash (kind h) key in
  let pos := v `div` 8 in
  let off := v `mod` 8 in
  let c := cell (tables h) pos in
  let upd c' := {| kind := kind h; tables := <[pos := c']> (tables h) |} in
  if isget =? 1 then (Z.land (table c) (mask_at posval off), h)
  else if isget =? -1 then
    let n := u8 (count_at c off + 1) in
    (n, upd (HashTables (Z.lor (table c) (mask_at posval off)) (set_count c off n)))
  else if 0 <? count_at c off then
    let n := u8 (count_at c off - 1) in
    if 0 <? n then (1, upd (HashTables (table c) (set_count c off n)))
    else let t := Z.land (table c) (mask_at posvalrev off) in
         (t, upd (HashTables t (set_count c off n)))
  else (1, h).

(** [Set], [Get] and [Del] call themselves on the successor. *)
Fixpoint Set_ (hs : list HashInter) (key : bytes) : list HashInter :=
  match hs with
  | [] => []
  | h :: succ => (Position h key (-1)).2 :: Set_ succ key
  end.

Fixpoint Get (hs : list HashInter) (key : bytes) (parent : Z) : Z :=
  match hs with
  | [] => parent
  | h :: succ =>
      let a := (Position h key 1).1 in
      let parent := if parent =? -1 then a
                    else if negb (parent =? 0) && negb (a =? 0) then 1 else 0 in
      Get succ key parent
  end.

Fixpoint Del (hs : list HashInter) (key : bytes) : list HashInter :=
  match hs with
  | [] => []
  | h :: succ => (Position h key (-2)).2 :: Del succ key
  end.

(** [GentList]: the chain h1 -> h2 -> h3 over the three mapped files. A file
    that does not exist is created with zero cells. *)
Definition HashInter_Init (k : hash_kind) (file : option (gmap Z hashTables)) : HashInter :=
  {| kind := k; tables := default ∅ file |}.

Definition GentList_Init (f1 f2 f3 : option (gmap Z hashTables)) : list HashInter :=
  [HashInter_Init SDBMHash f1; HashInter_Init RSHash f2; HashInter_Init JSHash f3].

Definition Save (l : list HashInter) (k : bytes) : list HashInter := Set_ l k.
Definition Clear (l : list HashInter) (k : bytes) : list HashInter := Del l k.
Definition Load (l : list HashInter) (k : bytes) : Z := Get l k (-1).

(** ** Where a key's bit is *)

Lemma hashmask_ones : hashmask posnum = Z.ones 19.
Proof. reflexivity. Qed.

Lemma Hash_range k s : 0 ≤ Hash k s < 2 ^ 19.
Proof.
  assert (∀ x, 0 ≤ Z.land x (hashmask posnum) < 2 ^ 19) as H.
  { intros x. rewrite hashmask_ones, Z.land_ones by lia. apply Z.mod_pos_bound. lia. }
  destruct k; apply H.
Qed.

Lemma off_range k s : 0 ≤ Hash k s `mod` 8 < 8.
Proof. apply Z.mod_pos_bound. lia. Qed.

(** Case analysis on an offset below 8. *)
Ltac case_off off H :=
  let Hoff := fresh "Hoff" in
  assert (off = 0 ∨ off = 1 ∨ off = 2 ∨ off = 3 ∨ off = 4 ∨ off = 5 ∨ off = 6 ∨ off = 7)
    as [Hoff|[Hoff|[Hoff|[Hoff|[Hoff|[Hoff|[Hoff|Hoff]]]]]]] by (revert H; lia); rewrite Hoff in *.

Lemma mask_posval off : 0 ≤ off < 8 → mask_at posval off = 2 ^ off.
Proof. intros H. by case_off off H. Qed.

(** The flag of [key] at one stage of the chain. *)
Definition flag (h : HashInter) (key : bytes) : bool :=
  let v := Hash (kind h) key in Z.testbit (table (cell (tables h) (v `div` 8))) (v `mod` 8).

Lemma land_pow2_zero x off : 0 ≤ off → (Z.land x (2 ^ off) =? 0) = negb (Z.testbit x off).
Proof.
  intros Hoff. destruct (Z.testbit x off) eqn:E; simpl.
  - apply Z.eqb_neq. intros H0.
    assert (Z.testbit (Z.land x (2 ^ off)) off = false) as Hf by (by rewrite H0, Z.bits_0).
    rewrite Z.land_spec, E, Z.pow2_bits_true in Hf by done. done.
  - apply Z.eqb_eq. apply Z.bits_inj'. intros n Hn. rewrite Z.land_spec, Z.bits_0.
    destruct (decide (n = off)) as [->|Hne]; [by rewrite E|].
    rewrite Z.pow2_bits_false by lia. apply andb_false_r.
Qed.

Lemma Position_get h key : ((Position h key 1).1 =? 0) = negb (flag h key).
Proof.
  unfold Position, flag. simpl. pose proof (off_range (kind h) key).
  rewrite mask_posval by done. apply land_pow2_zero. lia.
Qed.

Lemma Position_get_nonneg h key :
  0 ≤ table (cell (tables h) (Hash (kind h) key `div` 8)) → 0 ≤ (Position h key 1).1.
Proof.
  intros H. unfold Position. simpl. apply Z.land_nonneg. auto.
Qed.

(** [Get] is the conjunction of the flags. *)
Lemma Get_acc hs key parent :
  parent ≠ -1 →
  (Get hs key parent =? 0) = (parent =? 0) || negb (forallb (λ h, flag h key) hs).
Proof.
  revert parent. induction hs as [|h hs IH]; intros parent Hp; cbn [Get forallb].
  - by rewrite orb_false_r.
  - destruct (Z.eqb_spec parent (-1)); [done|].
    rewrite IH by (case_match; lia). rewrite Position_get, negb_involutive.
    by destruct (Z.eqb_spec parent 0), (flag h key).
Qed.

(** Cells hold bytes. *)
Definition wf (h : HashInter) : Prop := ∀ pos, is_byte (table (cell (tables h) pos)).

Lemma Load_flags h hs key :
  wf h → (Load (h :: hs) key =? 0) = negb (forallb (λ h, flag h key) (h :: hs)).
Proof.
  intros Hwf. unfold Load. cbn [Get]. change (-1 =? -1) with true. cbv iota.
  rewrite Get_acc.
  - rewrite Position_get. simpl. by destruct (flag h key).
  - pose proof (Position_get_nonneg h key). unfold wf, is_byte in Hwf.
    specialize (Hwf (Hash (kind h) key `div` 8)). lia.
Qed.

Lemma cell_insert t p q c : cell (<[p := c]> t) q = if decide (p = q) then c else cell t q.
Proof. unfold cell. rewrite lookup_insert. by case_decide. Qed.

Lemma flag_set h key key' :
  flag (Position h key (-1)).2 key' =
    flag h key' || bool_decide (Hash (kind h) key = Hash (kind h) key').
Proof.
  pose proof (off_range (kind h) key) as H1. pose proof (off_range (kind h) key') as H2.
  unfold Position, flag. cbn -[Z.div Z.modulo]. set (v := Hash (kind h) key) in *.
  set (v' := Hash (kind h) key') in *. rewrite cell_insert.
  rewrite mask_posval by done.
  pose proof (Z.div_mod v 8 ltac:(lia)). pose proof (Z.div_mod v' 8 ltac:(lia)).
  case_decide as Hd; simpl.
  - rewrite Z.lor_spec, Hd. f_equal. case_bool_decide as He.
    + rewrite He. apply Z.pow2_bits_true. lia.
    + apply Z.pow2_bits_false. lia.
  - rewrite bool_decide_eq_false_2; [by rewrite orb_false_r|congruence].
Qed.

Lemma wf_set h key : wf h → wf (Position h key (-1)).2.
Proof.
  intros Hwf pos. pose proof (off_range (kind h) key) as Ho.
  unfold Position. cbn -[Z.div Z.modulo Z.lor mask_at]. rewrite cell_insert.
  case_decide; [|apply Hwf]. cbn -[Z.lor mask_at Z.modulo].
  set (off := Hash (kind h) key `mod` 8) in *. clearbody off.
  specialize (Hwf (Hash (kind h) key `div` 8)). unfold is_byte in *.
  set (x := table _) in *. clearbody x.
  assert (0 ≤ Z.lor x (mask_at posval off)).
  { apply Z.lor_nonneg. rewrite mask_posval by done. split; [lia|]. apply Z.pow_nonneg. lia. }
  split; [done|]. apply (bits_lt_pow2 _ 8); [lia|done|]. intros n Hn.
  rewrite Z.lor_spec, mask_posval, Z.pow2_bits_false, orb_false_r by lia.
  apply (testbit_above x 8); lia.
Qed.

Lemma kind_set h key : kind (Position h key (-1)).2 = kind h.
Proof. done. Qed.

Lemma flag_saves h ks k :
  flag (fold_left (λ h k, (Position h k (-1)).2) ks h) k =
    flag h k || existsb (λ k', bool_decide (Hash (kind h) k' = Hash (kind h) k)) ks.
Proof.
  revert h. induction ks as [|k1 ks IH]; intros h; cbn [fold_left existsb].
  - by rewrite orb_false_r.
  - by rewrite IH, flag_set, kind_set, orb_assoc.
Qed.

Lemma fold_Save ks l :
  fold_left Save ks l = (λ h, fold_left (λ h k, (Position h k (-1)).2) ks h) <$> l.
Proof.
  revert l. induction ks as [|k ks IH]; intros l; cbn [fold_left].
  - symmetry. apply list_fmap_id.
  - rewrite IH. unfold Save. clear IH. induction l as [|h l IH]; [done|].
    cbn [Set_]. rewrite !fmap_cons. by f_equal.
Qed.

Lemma wf_saves ks h : wf h → wf (fold_left (λ h k, (Position h k (-1)).2) ks h).
Proof. revert h. induction ks as [|k ks IH]; intros h Hh; [done|]. by apply IH, wf_set. Qed.

(** A chain as [GentList::Init] builds it, from files whose cells hold bytes. *)
Definition chain_ok (l : list HashInter) : Prop := l ≠ [] ∧ Forall wf l.

Lemma wf_Init k f : (∀ t pos c, f = Some t → t !! pos = Some c → is_byte (table c)) →
  wf (HashInter_Init k f).
Proof.
  intros H pos. unfold HashInter_Init, cell. simpl. destruct f as [t|]; simpl.
  - destruct (t !! pos) as [c|] eqn:E; simpl; [by eapply H|]. unfold is_byte. lia.
  - rewrite lookup_empty. unfold is_byte. simpl. lia.
Qed.

Lemma Load_saves l ks k :
  chain_ok l →
  (Load (fold_left Save ks l) k =? 0) =
    negb (forallb (λ h, flag h k ||
            existsb (λ k', bool_decide (Hash (kind h) k' = Hash (kind h) k)) ks) l).
Proof.
  intros [Hne Hwf]. rewrite fold_Save. destruct l as [|h l]; [done|].
  apply Forall_cons in Hwf as [Hh _]. rewrite fmap_cons, Load_flags by by apply wf_saves.
  rewrite <- fmap_cons. f_equal. generalize (h :: l). clear. intros l.
  induction l as [|h l IH]; [done|]. rewrite fmap_cons. cbn [forallb]. by rewrite IH, flag_saves.
Qed.

(** a key that was saved, and not cleared since, is always found: whatever
    the tables held before and whatever else was saved. *)
Theorem Save_no_false_negative l ks k :
  chain_ok l → k ∈ ks → Load (fold_left Save ks l) k ≠ 0.
Proof.
  intros Hl Hk. apply Z.eqb_neq. rewrite Load_saves by done.
  apply negb_false_iff, forallb_forall. intros h _. apply orb_true_iff. right.
  apply existsb_exists. exists k. split; [by apply list_elem_of_In|].
  by apply bool_decide_eq_true_2.
Qed.

Lemma Save_no_false_negative_witness :
  Load (fold_left Save [str "k1"; str "k2"] (GentList_Init None None None)) (str "k1") ≠ 0.
Proof.
  apply Save_no_false_negative.
  - split; [done|]. repeat constructor; apply wf_Init; done.
  - apply list_elem_of_here.
Defined.

(** starting from empty files, a key is reported exactly when each of the
    three hash functions maps it to the bit of some saved key. *)
Theorem Load_exact ks k :
  Load (fold_left Save ks (GentList_Init None None None)) k ≠ 0 ↔
  ∀ hk, ∃ k', k' ∈ ks ∧ Hash hk k' = Hash hk k.
Proof.
  assert (chain_ok (GentList_Init None None None)) as Hok.
  { split; [done|]. repeat constructor; apply wf_Init; done. }
  rewrite <- Z.eqb_neq, Load_saves, negb_false_iff, forallb_forall by done.
  assert (∀ hk, existsb (λ k', bool_decide (Hash hk k' = Hash hk k)) ks = true ↔
            ∃ k', k' ∈ ks ∧ Hash hk k' = Hash hk k) as Hex.
  { intros hk. rewrite existsb_exists. setoid_rewrite bool_decide_eq_true.
    by setoid_rewrite list_elem_of_In. }
  assert (∀ hk, flag (HashInter_Init hk None) k = false) as Hf.
  { intros hk. unfold flag, HashInter_Init. simpl. unfold cell. rewrite lookup_empty. apply Z.bits_0. }
  setoid_rewrite <- Hex. split.
  - intros H hk. specialize (H (HashInter_Init hk None)). rewrite Hf in H. apply H.
    destruct hk; simpl; auto.
  - intros H h Hh. simpl in Hh. destruct Hh as [<-|[<-|[<-|[]]]]; rewrite Hf; apply H.
Qed.

(** every access of [Position] is inside the 2^16 cells that [Init] maps,
    and its offset inside the eight counters of a cell. *)
Theorem Position_in_bounds hk key :
  0 ≤ Hash hk key `div` 8 < hashsize posnum ∧ 0 ≤ Hash hk key `mod` 8 < 8.
Proof.
  split; [|apply off_range]. pose proof (Hash_range hk key).
  change (hashsize posnum) with (2 ^ 16).
  split; [apply Z.div_pos; lia|]. apply Z.div_lt_upper_bound; lia.
Qed.

(** ** Clearing *)

Definition offset (h : HashInter) (key : bytes) : Z := Hash (kind h) key `mod` 8.

(** The counter of the key's bit. *)
Definition count (h : HashInter) (key : bytes) : Z :=
  count_at (cell (tables h) (Hash (kind h) key `div` 8)) (offset h key).

(** The offsets at which [posvalrev] is the complement of [posval]. *)
Definition good_offset (off : Z) : bool := mem [0; 1; 4; 5] off.

Lemma mask_rev_good off i :
  0 ≤ off < 8 → 0 ≤ i < 8 → good_offset off = true →
  Z.testbit (mask_at posvalrev off) i = negb (i =? off).
Proof. intros H Hi. case_off off H; try done; intros _; by case_off i Hi. Qed.

Lemma mask_rev_bad off :
  0 ≤ off < 8 → good_offset off = false → Z.testbit (mask_at posvalrev off) off = true.
Proof. intros H. by case_off off H. Qed.

(** What [Del] does to the flag of any key. *)
Lemma flag_del h key key' :
  flag (Position h key (-2)).2 key' =
    flag h key' &&
    negb ((0 <? count h key) && negb (0 <? u8 (count h key - 1)) &&
          bool_decide (Hash (kind h) key `div` 8 = Hash (kind h) key' `div` 8) &&
          negb (Z.testbit (mask_at posvalrev (offset h key)) (Hash (kind h) key' `mod` 8))).
Proof.
  unfold Position, flag, count, offset. cbn -[Z.div Z.modulo mask_at posvalrev].
  set (v := Hash (kind h) key). set (v' := Hash (kind h) key').
  set (n := count_at _ _). clearbody n.
  destruct (0 <? n); cbn -[Z.div Z.modulo mask_at posvalrev]; [|by rewrite andb_true_r].
  destruct (0 <? u8 (n - 1)); cbn -[Z.div Z.modulo mask_at posvalrev];
    rewrite cell_insert; case_decide as Hd; cbn -[Z.div Z.modulo mask_at posvalrev].
  - by rewrite Hd, andb_true_r.
  - by rewrite andb_true_r.
  - rewrite Hd, bool_decide_eq_true_2, Z.land_spec by done. cbn [andb]. by rewrite negb_involutive.
  - rewrite bool_decide_eq_false_2 by done. by rewrite andb_true_r.
Qed.

Lemma flag_del_keep h key key' :
  good_offset (offset h key) = true → Hash (kind h) key ≠ Hash (kind h) key' →
  flag (Position h key (-2)).2 key' = flag h key'.
Proof.
  intros Hg Hne. rewrite flag_del.
  pose proof (off_range (kind h) key) as H1. pose proof (off_range (kind h) key') as H2.
  rewrite mask_rev_good, negb_involutive by done. unfold offset in *.
  case_bool_decide as Hd; [|by rewrite andb_false_r, andb_true_r].
  destruct (Z.eqb_spec (Hash (kind h) key' `mod` 8) (Hash (kind h) key `mod` 8)).
  - destruct Hne. rewrite (Z.div_mod (Hash _ key) 8), (Z.div_mod (Hash _ key') 8) by lia. congruence.
  - by rewrite andb_false_r, andb_true_r.
Qed.

Lemma wf_del h key : wf h → wf (Position h key (-2)).2.
Proof.
  intros Hwf pos. unfold Position. cbn -[Z.div Z.modulo mask_at posvalrev].
  pose proof (Hwf (Hash (kind h) key `div` 8)) as Hc.
  repeat case_match; cbn -[Z.div Z.modulo mask_at posvalrev]; rewrite ?cell_insert;
    repeat case_decide; cbn -[Z.div Z.modulo mask_at posvalrev]; try apply Hwf; try done.
  unfold is_byte in *. set (x := table _) in *. clearbody x.
  assert (0 ≤ Z.land x (mask_at posvalrev (Hash (kind h) key `mod` 8))).
  { apply Z.land_nonneg. left. lia. }
  split; [done|]. apply (bits_lt_pow2 _ 8); [lia|done|]. intros i Hi.
  by rewrite Z.land_spec, (testbit_above x 8).
Qed.

(** clearing a key whose bits lie at the offsets 0, 1, 4 and 5 leaves every
    key that shares no bit with it as it was. *)
Theorem Clear_keeps_others l k k' :
  chain_ok l →
  Forall (λ h, good_offset (offset h k) = true ∧ Hash (kind h) k ≠ Hash (kind h) k') l →
  Load (Clear l k) k' = 0 ↔ Load l k' = 0.
Proof.
  intros [Hne Hwf] Hk. rewrite <- !Z.eqb_eq. destruct l as [|h l]; [done|].
  apply Forall_cons in Hwf as [Hh _]. unfold Clear. cbn [Del].
  rewrite !Load_flags by auto using wf_del.
  assert (forallb (λ h, flag h k') (Del (h :: l) k) = forallb (λ h, flag h k') (h :: l)) as He.
  { clear Hne Hh. induction Hk as [|g l' [Hg Hn] _ IH]; [done|].
    cbn [Del forallb]. by rewrite IH, flag_del_keep. }
  cbn [Del] in He. by rewrite He.
Qed.

Lemma Clear_keeps_others_witness :
  let l := fold_left Save [str "a"; str "e"] (GentList_Init None None None) in
  Load (Clear l (str "a")) (str "e") = 0 ↔ Load l (str "e") = 0.
Proof.
  apply Clear_keeps_others.
  - unfold fold_left, Save, GentList_Init. split; [done|].
    repeat constructor; repeat apply wf_set; by apply wf_Init.
  - repeat (apply Forall_cons; split; [split; by vm_compute|]). by apply Forall_nil.
Defined.

(** at the offsets 2, 3, 6 and 7 the mask is not the complement of the bit:
    clearing a key never clears its own flag there. *)
Theorem Clear_leaves_own_bit h k :
  good_offset (offset h k) = false → flag (Position h k (-2)).2 k = flag h k.
Proof.
  intros Hb. pose proof (off_range (kind h) k) as Ho. rewrite flag_del.
  change (Hash (kind h) k `mod` 8) with (offset h k).
  rewrite mask_rev_bad by done. by rewrite !andb_false_r, andb_true_r.
Qed.

Lemma Clear_leaves_own_bit_witness :
  let h := (Position (HashInter_Init SDBMHash None) (str "b") (-1)).2 in
  good_offset (offset h (str "b")) = false ∧ flag h (str "b") = true ∧
  flag (Position h (str "b") (-2)).2 (str "b") = flag h (str "b").
Proof.
  split; [by vm_compute|]. split; [by vm_compute|].
  apply Clear_leaves_own_bit. by vm_compute.
Defined.

(** and it clears the flag of another key instead: after [Save("a")],
    [Save("b")] and [Clear("b")] the filter denies ["a"], which is stored. *)
Theorem Clear_false_negative :
  Load (Clear (fold_left Save [str "a"; str "b"] (GentList_Init None None None)) (str "b"))
    (str "a") = 0.
Proof. vm_compute. reflexivity. Qed.

End Bloom.
