(* ===== verification/QueueList.v ===== *)
(** * The linked queue of the replication log (gent_queue_list.h)

    [GentListQueue] is a singly linked list with a dummy head node: [front]
    points to the dummy, [rear] to the last node. Nodes live in a heap; an
    access through a dangling pointer is a fault. The queue refines a list
    of its elements. *)

From S2P Require Import Prelude Cstd.

(** What the replication log expects of a queue: an abstraction to the list
    of the waiting elements, oldest first, and the effect of each operation
    on it. [None] is the NULL that an empty queue returns. *)
Class FifoQueue (T Q : Type) := {
  fq_repr : Q → list T → Prop;
  fq_new : Q;
  fq_push : T → Q → result Q;
  fq_pop : Q → result (option T * Q);
  fq_front_element : Q → result (option T);
  fq_front_nums_element : Z → Q → result (bool * list T);
  fq_new_repr : fq_repr fq_new [];
  fq_push_ok : ∀ q xs e, fq_repr q xs → ∃ q', fq_push e q = Ok q' ∧ fq_repr q' (xs ++ [e]);
  fq_pop_ok : ∀ q xs, fq_repr q xs → ∃ q', fq_pop q = Ok (head xs, q') ∧ fq_repr q' (tail xs);
  fq_front_ok : ∀ q xs, fq_repr q xs → fq_front_element q = Ok (head xs);
  fq_front_nums_ok : ∀ q xs num, fq_repr q xs →
    fq_front_nums_element num q =
      Ok (negb (bool_decide (xs = [])), take (Z.to_nat num) xs)
}.

Module QueueList.
Section queue.
Context {T : Type}.

(** A pointer that is not NULL. *)
Abbreviation loc := Z.

Record NODE := Node { next : option loc; data : option T }.

Record GentListQueue := {
  heap : gmap loc NODE;
  front : loc;
  rear : loc;
  qlength : Z
}.

(** [p->next], [p->data] and the assignment [p->next = n]. *)
Definition deref (h : gmap loc NODE) (p : loc) : result NODE :=
  match h !! p with Some n => Ok n | None => Fault OutOfBounds end.

Definition set_next (h : gmap loc NODE) (p : loc) (n : option loc) : result (gmap loc NODE) :=
  nd ← deref h p; mret (<[p := Node n (data nd)]> h).

(** [new NODE<T>] returns an address that is not in use. *)
Definition alloc (h : gmap loc NODE) : loc := fresh (dom h : gset loc).

Definition GentListQueue_new : GentListQueue :=
  let p := alloc ∅ in
  {| heap := {[p := Node None None]}; front := p; rear := p; qlength := 0 |}.

Definition push (e : T) (q : GentListQueue) : result GentListQueue :=
  let p := alloc (heap q) in
  let h := <[p := Node None (Some e)]> (heap q) in
  h ← set_next h (rear q) (Some p);
  mret {| heap := h; front := front q; rear := p; qlength := u64 (qlength q + 1) |}.

Definition pop (q : GentListQueue) : result (option T * GentListQueue) :=
  if bool_decide (front q = rear q) then mret (None, q)
  else
    hd ← deref (heap q) (front q);
    match next hd with
    | None => Fault OutOfBounds
    | Some p =>
        nd ← deref (heap q) p;
        h ← set_next (heap q) (front q) (next nd);
        let r := if bool_decide (rear q = p) then front q else rear q in
        mret (data nd, {| heap := delete p h; front := front q; rear := r;
                          qlength := u64 (qlength q - 1) |})
    end.

Definition front_element (q : GentListQueue) : result (option T) :=
  if bool_decide (front q = rear q) then mret None
  else
    hd ← deref (heap q) (front q);
    match next hd with
    | None => Fault OutOfBounds
    | Some p => nd ← deref (heap q) p; mret (data nd)
    end.

(** The loop of [front_nums_element]: [num] iterations at most, [p] the node
    to copy next. Elements are never NULL. *)
Fixpoint front_nums_loop (h : gmap loc NODE) (p : loc) (num : nat) (dat : list T)
    : result (list T) :=
  match num with
  | O => mret dat
  | S num =>
      nd ← deref h p;
      match data nd with
      | None => Fault OutOfBounds
      | Some e =>
          let dat := dat ++ [e] in
          match next nd with
          | None => mret dat
          | Some p' => front_nums_loop h p' num dat
          end
      end
  end.

Definition front_nums_element (num : Z) (q : GentListQueue) : result (bool * list T) :=
  if bool_decide (front q = rear q) then mret (false, [])
  else
    hd ← deref (heap q) (front q);
    match next hd with
    | None => if 0 <? num then Fault OutOfBounds else mret (true, [])
    | Some p => dat ← front_nums_loop (heap q) p (Z.to_nat num) []; mret (true, dat)
    end.

Definition back_element (q : GentListQueue) : result (option T) :=
  if bool_decide (front q = rear q) then mret None
  else nd ← deref (heap q) (rear q); mret (data nd).

(** The loops [while (p != rear)] of [size] and [search]; every iteration
    moves to another node, so the number of nodes is fuel enough. *)
Fixpoint size_loop (h : gmap loc NODE) (r p : loc) (fuel : nat) (count : Z) : result Z :=
  if bool_decide (p = r) then mret count
  else match fuel with
       | O => Fault OutOfBounds
       | S fuel =>
           nd ← deref h p;
           match next nd with
           | None => Fault OutOfBounds
           | Some p' => size_loop h r p' fuel (i32 (count + 1))
           end
       end.

Definition qsize (q : GentListQueue) : result Z :=
  size_loop (heap q) (rear q) (front q) (size (heap q)) 0.

Fixpoint search_loop (time : T → Z) (runid : Z) (h : gmap loc NODE) (r p : loc) (fuel : nat)
    : result (option loc) :=
  if bool_decide (p = r) then mret None
  else match fuel with
       | O => Fault OutOfBounds
       | S fuel =>
           nd ← deref h p;
           match next nd with
           | None => Fault OutOfBounds
           | Some p' =>
               nd' ← deref h p';
               match data nd' with
               | None => Fault OutOfBounds
               | Some e => if time e <? runid then search_loop time runid h r p' fuel
                           else mret (Some p')
               end
           end
       end.

Definition search (time : T → Z) (runid : Z) (q : GentListQueue) : result (option loc) :=
  if bool_decide (front q = rear q) then mret None
  else search_loop time runid (heap q) (rear q) (front q) (size (heap q)).

Definition empty (q : GentListQueue) : bool := bool_decide (front q = rear q).

(** ** Representation *)

(** From the node [p] the [next] pointers lead through the nodes [ls], which
    hold the elements, and end at [last]. *)
Fixpoint chain (h : gmap loc NODE) (p : loc) (ls : list (loc * T)) (last : loc) : Prop :=
  match ls with
  | [] => p = last ∧ (∃ d, h !! p = Some (Node None d))
  | (l, x) :: ls' =>
      (∃ d, h !! p = Some (Node (Some l) d)) ∧
      (∃ n, h !! l = Some (Node n (Some x))) ∧ chain h l ls' last
  end.

Definition repr (q : GentListQueue) (xs : list T) : Prop :=
  ∃ ls, ls.*2 = xs ∧ chain (heap q) (front q) ls (rear q) ∧
        NoDup (front q :: ls.*1) ∧ qlength q = u64 (zlen xs).

(** A chain depends only on its own nodes. *)
Lemma chain_insert_ne h p ls last l n :
  l ∉ p :: ls.*1 → chain h p ls last → chain (<[l := n]> h) p ls last.
Proof.
  revert p. induction ls as [|[l' x] ls IH]; intros p Hl; simpl.
  - intros [-> [d Hd]]. split; [done|]. exists d.
    rewrite lookup_insert_ne; [done|]. set_solver.
  - intros ([d Hd] & [n' Hn] & Hc). simpl in Hl.
    split; [exists d; rewrite lookup_insert_ne; [done|set_solver]|].
    split; [exists n'; rewrite lookup_insert_ne; [done|set_solver]|].
    apply IH; [set_solver|done].
Qed.

Lemma chain_delete_ne h p ls last l :
  l ∉ p :: ls.*1 → chain h p ls last → chain (delete l h) p ls last.
Proof.
  revert p. induction ls as [|[l' x] ls IH]; intros p Hl; simpl.
  - intros [-> [d Hd]]. split; [done|]. exists d.
    rewrite lookup_delete_ne; [done|]. set_solver.
  - intros ([d Hd] & [n' Hn] & Hc). simpl in Hl.
    split; [exists d; rewrite lookup_delete_ne; [done|set_solver]|].
    split; [exists n'; rewrite lookup_delete_ne; [done|set_solver]|].
    apply IH; [set_solver|done].
Qed.

Lemma chain_last_lookup h p ls last :
  chain h p ls last → ∃ d, h !! last = Some (Node None d).
Proof.
  revert p. induction ls as [|[l x] ls IH]; intros p; simpl.
  - intros [-> ?]. done.
  - intros (_ & _ & Hc). eauto.
Qed.

Lemma chain_last_in h p ls last : chain h p ls last → last ∈ p :: ls.*1.
Proof.
  revert p. induction ls as [|[l x] ls IH]; intros p; simpl.
  - intros [-> _]. apply list_elem_of_here.
  - intros (_ & _ & Hc). apply list_elem_of_further. by apply IH.
Qed.

Lemma chain_dom h p ls last l : chain h p ls last → l ∈ p :: ls.*1 → is_Some (h !! l).
Proof.
  revert p. induction ls as [|[l' x] ls IH]; intros p; simpl.
  - intros [-> [d Hd]] Hl. assert (l = last) as -> by set_solver. eauto.
  - intros ([d Hd] & [n Hn] & Hc) Hl.
    apply elem_of_cons in Hl as [->|Hl]; [eauto|]. by eapply IH.
Qed.

(** Writing the [next] of the last node extends the chain. *)
Lemma chain_snoc h p ls last l x d :
  chain h p ls last → NoDup (p :: ls.*1) → l ∉ p :: ls.*1 →
  h !! last = Some (Node None d) →
  chain (<[last := Node (Some l) d]> (<[l := Node None (Some x)]> h)) p (ls ++ [(l, x)]) l.
Proof.
  revert p. induction ls as [|[l' x'] ls IH]; intros p Hc Hnd Hl Hd; simpl in *.
  - destruct Hc as [-> _]. assert (last ≠ l) by set_solver.
    split; [exists d; by rewrite lookup_insert_eq|].
    rewrite lookup_insert_ne, lookup_insert_eq by done.
    eauto.
  - destruct Hc as ([d' Hd'] & [n Hn] & Hc).
    apply NoDup_cons in Hnd as [Hp Hnd].
    pose proof (chain_last_in _ _ _ _ Hc) as Hin.
    assert (last ≠ p) by set_solver.
    split; [exists d'; rewrite !lookup_insert_ne; [done|set_solver|done]|].
    split; [|apply IH; [done|done|set_solver|done]].
    destruct (decide (last = l')) as [->|].
    + rewrite lookup_insert_eq. rewrite Hd in Hn. injection Hn as <- <-. eauto.
    + rewrite !lookup_insert_ne by set_solver. eauto.
Qed.

(** ** Refinement of each operation *)

Lemma new_repr : repr GentListQueue_new [].
Proof.
  exists []. split; [done|]. simpl. split; [|split; [|done]].
  - split; [done|]. exists None. by rewrite lookup_singleton_eq.
  - apply NoDup_singleton.
Qed.

Lemma alloc_fresh h : h !! alloc h = None.
Proof. apply not_elem_of_dom. exact (is_fresh (dom h : gset loc)). Qed.

Lemma push_repr e q xs : repr q xs → ∃ q', push e q = Ok q' ∧ repr q' (xs ++ [e]).
Proof.
  intros (ls & <- & Hc & Hnd & Hlen). set (p := alloc (heap q)).
  pose proof (alloc_fresh (heap q)) as Hfresh. fold p in Hfresh.
  assert (p ∉ front q :: ls.*1) as Hp.
  { intros Hin. destruct (chain_dom _ _ _ _ _ Hc Hin) as [n Hn]. congruence. }
  destruct (chain_last_lookup _ _ _ _ Hc) as [d Hd].
  assert (p ≠ rear q) as Hpr by congruence.
  unfold push, set_next, deref. fold p. rewrite lookup_insert_ne, Hd by done. simpl.
  eexists. split; [done|]. exists (ls ++ [(p, e)]). simpl.
  rewrite !fmap_app. split; [done|]. split; [by apply chain_snoc|]. split.
  - simpl. rewrite app_comm_cons. apply NoDup_app. split; [done|]. split; [|apply NoDup_singleton].
    intros x Hx Hx'. assert (x = p) by set_solver. by subst.
  - rewrite Hlen, zlen_app. unfold u64. rewrite Zplus_mod_idemp_l. done.
Qed.

(** In a nonempty queue [front] and [rear] differ; in an empty one they agree. *)
Lemma repr_nil_iff q ls :
  chain (heap q) (front q) ls (rear q) → NoDup (front q :: ls.*1) →
  front q = rear q ↔ ls = [].
Proof.
  intros Hc Hnd. split; [|intros ->; by destruct Hc].
  destruct ls as [|[l x] ls]; [done|]. intros He. destruct Hc as (_ & _ & Hc).
  apply chain_last_in in Hc. apply NoDup_cons in Hnd as [Hn _]. simpl in Hn. by rewrite He in Hn.
Qed.

Lemma repr_empty q xs : repr q xs → bool_decide (front q = rear q) = bool_decide (xs = []).
Proof.
  intros (ls & <- & Hc & Hnd & _). apply bool_decide_ext. rewrite repr_nil_iff by done.
  split; [by intros ->|]. by destruct ls.
Qed.

Lemma u64_pred n : 0 < n → u64 (u64 n - 1) = u64 (n - 1).
Proof. intros. unfold u64. by rewrite Zminus_mod_idemp_l. Qed.

(** Cutting the first node out of the chain. *)
Lemma chain_cut h p l x ls last d n :
  NoDup (p :: l :: ls.*1) → chain h l ls last → h !! l = Some (Node n (Some x)) →
  chain (delete l (<[p := Node n d]> h)) p ls (if bool_decide (last = l) then p else last).
Proof.
  intros Hnd Hc Hl. assert (l ≠ p) by (inversion_clear Hnd; set_solver).
  destruct ls as [|[l' x'] ls]; simpl in *.
  - destruct Hc as [<- [d' Hd']]. rewrite bool_decide_eq_true_2 by done. split; [done|].
    rewrite lookup_delete_ne, lookup_insert_eq by done. exists d. congruence.
  - destruct Hc as ([d' Hd'] & [n' Hn'] & Hc).
    apply NoDup_cons in Hnd as [Hp Hnd]. apply NoDup_cons in Hnd as [Hl' Hnd].
    assert (last ≠ l) as Hne by (apply chain_last_in in Hc; intros ->; done).
    rewrite bool_decide_eq_false_2 by done.
    rewrite !lookup_delete_ne, lookup_insert_eq, lookup_insert_ne by set_solver.
    split; [exists d; congruence|]. split; [eauto|].
    apply chain_delete_ne; [done|]. apply chain_insert_ne; [set_solver|done].
Qed.

Lemma pop_repr q xs : repr q xs → ∃ q', pop q = Ok (head xs, q') ∧ repr q' (tail xs).
Proof.
  intros Hr. pose proof (repr_empty _ _ Hr) as Hemp. unfold pop. rewrite Hemp.
  destruct Hr as (ls & <- & Hc & Hnd & Hlen). destruct ls as [|[l x] ls].
  - exists q. split; [done|]. exists []. done.
  - rewrite bool_decide_eq_false_2 by done. simpl in *.
    destruct Hc as ([d Hd] & [n Hn] & Hc).
    unfold set_next, deref. rewrite Hd. simpl. rewrite Hn. simpl.
    eexists. split; [done|]. exists ls. simpl. split; [done|]. split; [|split].
    + by eapply chain_cut.
    + apply NoDup_cons in Hnd as [Hp Hnd]. apply NoDup_cons in Hnd as [_ Hnd].
      apply NoDup_cons. set_solver.
    + rewrite Hlen, zlen_cons, u64_pred by zlia. f_equal. lia.
Qed.

Lemma front_element_repr q xs : repr q xs → front_element q = Ok (head xs).
Proof.
  intros Hr. unfold front_element. rewrite (repr_empty _ _ Hr).
  destruct Hr as (ls & <- & Hc & _). destruct ls as [|[l x] ls]; [done|].
  rewrite bool_decide_eq_false_2 by done. destruct Hc as ([d Hd] & [n Hn] & _).
  unfold deref. rewrite Hd. simpl. by rewrite Hn.
Qed.

Lemma front_nums_loop_repr h l x ls last n num dat :
  chain h l ls last → h !! l = Some (Node n (Some x)) →
  front_nums_loop h l num dat = Ok (dat ++ take num (x :: ls.*2)).
Proof.
  revert l x ls n dat. induction num as [|num IH]; intros l x ls n dat Hc Hl; simpl.
  - by rewrite app_nil_r.
  - unfold deref. rewrite Hl. simpl. destruct ls as [|[l' x'] ls].
    + destruct Hc as [-> [d Hd]]. rewrite Hd in Hl. injection Hl as <- _.
      simpl. by destruct num.
    + destruct Hc as ([d Hd] & [n' Hn'] & Hc). rewrite Hd in Hl. injection Hl as <- _.
      erewrite IH by done. by rewrite <- app_assoc.
Qed.

Lemma front_nums_repr q xs num :
  repr q xs →
  front_nums_element num q = Ok (negb (bool_decide (xs = [])), take (Z.to_nat num) xs).
Proof.
  intros Hr. unfold front_nums_element. rewrite (repr_empty _ _ Hr).
  destruct Hr as (ls & <- & Hc & _). destruct ls as [|[l x] ls].
  - rewrite bool_decide_eq_true_2 by done. simpl. by destruct (Z.to_nat num).
  - rewrite !bool_decide_eq_false_2 by done. destruct Hc as ([d Hd] & [n Hn] & Hc).
    unfold deref. rewrite Hd. simpl. by erewrite front_nums_loop_repr.
Qed.

Lemma chain_last_data h p ls last l x :
  chain h p (ls ++ [(l, x)]) last → ∃ n, h !! last = Some (Node n (Some x)).
Proof.
  revert p. induction ls as [|[l' x'] ls IH]; intros p; simpl.
  - intros (_ & Hl & <- & _). done.
  - intros (_ & _ & Hc). eauto.
Qed.

Lemma back_element_repr q xs : repr q xs → back_element q = Ok (last xs).
Proof.
  intros Hr. unfold back_element. rewrite (repr_empty _ _ Hr).
  destruct Hr as (ls & <- & Hc & _). destruct ls as [|[l x] ls _] using rev_ind; [done|].
  destruct (chain_last_data _ _ _ _ _ _ Hc) as [n Hn].
  rewrite bool_decide_eq_false_2 by (by destruct ls).
  unfold deref. rewrite Hn. simpl. rewrite fmap_app. simpl. by rewrite last_snoc.
Qed.

Lemma size_loop_repr h r p ls fuel count :
  chain h p ls r → NoDup (p :: ls.*1) → (length ls ≤ fuel)%nat →
  0 ≤ count → count + zlen ls < 2 ^ 31 →
  size_loop h r p fuel count = Ok (count + zlen ls).
Proof.
  revert p fuel count. induction ls as [|[l x] ls IH]; intros p fuel count Hc Hnd Hf H0 Hb.
  - destruct Hc as [-> _]. destruct fuel; simpl; rewrite bool_decide_eq_true_2 by done;
      f_equal; zlia.
  - destruct Hc as ([d Hd] & _ & Hc). destruct fuel as [|fuel]; simpl in Hf; [lia|].
    apply NoDup_cons in Hnd as [Hp Hnd]. pose proof (chain_last_in _ _ _ _ Hc).
    simpl. rewrite bool_decide_eq_false_2 by (intros ->; done).
    unfold deref. rewrite Hd. simpl. rewrite i32_small by zlia.
    rewrite IH; [f_equal; zlia|done|done|lia|lia|zlia].
Qed.

Lemma chain_length h p ls last :
  chain h p ls last → NoDup (p :: ls.*1) → (length ls ≤ size h)%nat.
Proof.
  intros Hc Hnd. transitivity (length (p :: ls.*1)); [simpl; rewrite length_fmap; lia|].
  rewrite <- size_dom, <- (size_list_to_set (C := gset Z) (p :: ls.*1)) by done.
  apply subseteq_size. intros l Hl. apply elem_of_list_to_set in Hl.
  apply elem_of_dom. by eapply chain_dom.
Qed.

Lemma qsize_repr q xs : repr q xs → zlen xs < 2 ^ 31 → qsize q = Ok (zlen xs).
Proof.
  intros (ls & <- & Hc & Hnd & _) Hb. unfold qsize.
  assert (zlen ls.*2 = zlen ls) as He by (unfold zlen; by rewrite length_fmap).
  rewrite He in *. rewrite (size_loop_repr _ _ _ ls);
    [f_equal; lia|done|done|by eapply chain_length|lia|zlia].
Qed.

(** ** The queue as an implementation of a list *)

Inductive qop := OpPush (e : T) | OpPop | OpFront | OpFrontNums (num : Z) | OpBack | OpEmpty.
Inductive qout := OutUnit | OutElem (e : option T) | OutVec (ok : bool) (v : list T) | OutBool (b : bool).

(** One call on the linked queue. *)
Definition impl_step (o : qop) (q : GentListQueue) : result (qout * GentListQueue) :=
  match o with
  | OpPush e => q ← push e q; mret (OutUnit, q)
  | OpPop => r ← pop q; mret (OutElem r.1, r.2)
  | OpFront => e ← front_element q; mret (OutElem e, q)
  | OpFrontNums num => r ← front_nums_element num q; mret (OutVec r.1 r.2, q)
  | OpBack => e ← back_element q; mret (OutElem e, q)
  | OpEmpty => mret (OutBool (empty q), q)
  end.

(** The same call on the list of the waiting elements. *)
Definition spec_step (o : qop) (xs : list T) : qout * list T :=
  match o with
  | OpPush e => (OutUnit, xs ++ [e])
  | OpPop => (OutElem (head xs), tail xs)
  | OpFront => (OutElem (head xs), xs)
  | OpFrontNums num => (OutVec (negb (bool_decide (xs = []))) (take (Z.to_nat num) xs), xs)
  | OpBack => (OutElem (last xs), xs)
  | OpEmpty => (OutBool (bool_decide (xs = [])), xs)
  end.

Fixpoint impl_run (ops : list qop) (q : GentListQueue) : result (list qout * GentListQueue) :=
  match ops with
  | [] => mret ([], q)
  | o :: ops => r ← impl_step o q; r' ← impl_run ops r.2; mret (r.1 :: r'.1, r'.2)
  end.

Fixpoint spec_run (ops : list qop) (xs : list T) : list qout * list T :=
  match ops with
  | [] => ([], xs)
  | o :: ops => let r := spec_step o xs in let r' := spec_run ops r.2 in (r.1 :: r'.1, r'.2)
  end.

Lemma step_refines o q xs :
  repr q xs →
  ∃ q', impl_step o q = Ok ((spec_step o xs).1, q') ∧ repr q' (spec_step o xs).2.
Proof.
  intros Hr. destruct o as [e| | |num| |]; simpl.
  - destruct (push_repr e _ _ Hr) as (q' & -> & Hq'). by exists q'.
  - destruct (pop_repr _ _ Hr) as (q' & -> & Hq'). by exists q'.
  - rewrite (front_element_repr _ _ Hr). by exists q.
  - rewrite (front_nums_repr _ _ _ Hr). by exists q.
  - rewrite (back_element_repr _ _ Hr). by exists q.
  - unfold empty. rewrite (repr_empty _ _ Hr). by exists q.
Qed.

Lemma run_refines ops q xs :
  repr q xs →
  ∃ q', impl_run ops q = Ok ((spec_run ops xs).1, q') ∧ repr q' (spec_run ops xs).2.
Proof.
  revert q xs. induction ops as [|o ops IH]; intros q xs Hr; simpl.
  - by exists q.
  - destruct (step_refines o _ _ Hr) as (q1 & -> & Hr1). simpl.
    destruct (IH _ _ Hr1) as (q2 & -> & Hr2). simpl. by exists q2.
Qed.

(** C29: from a new queue, every sequence of calls runs without touching a freed
    or missing node, and returns what the same calls on a first-in first-out
    list return; afterwards the nodes hold exactly that list, and [length] is
    the number of its elements. *)
Theorem queue_refines_list ops :
  ∃ q, impl_run ops GentListQueue_new = Ok ((spec_run ops []).1, q) ∧
       repr q (spec_run ops []).2 ∧ qlength q = u64 (zlen (spec_run ops []).2).
Proof.
  destruct (run_refines ops _ _ new_repr) as (q & Hrun & Hr). exists q.
  split; [done|]. split; [done|]. by destruct Hr as (? & ? & ? & ? & ?).
Qed.

(** [size] counts the waiting elements, its [int] not overflowing. *)
Theorem size_counts ops q outs :
  impl_run ops GentListQueue_new = Ok (outs, q) →
  zlen (spec_run ops []).2 < 2 ^ 31 →
  qsize q = Ok (zlen (spec_run ops []).2).
Proof.
  intros Hrun. destruct (run_refines ops _ _ new_repr) as (q' & Hrun' & Hr).
  rewrite Hrun' in Hrun. injection Hrun as <- <-. by apply qsize_repr.
Qed.
End queue.

Lemma size_counts_witness :
  match impl_run [OpPush 1; OpPush 2; OpPop] GentListQueue_new with
  | Ok (_, q) => qsize q = Ok 1
  | Fault _ => False
  end.
Proof.
  exact (size_counts [OpPush 1; OpPush 2; OpPop] _ _ eq_refl ltac:(vm_compute; done)).
Defined.

Arguments NODE : clear implicits.
Arguments GentListQueue : clear implicits.

#[global] Instance GentListQueue_fifo T : FifoQueue T (GentListQueue T) := {
  fq_repr := repr;
  fq_new := GentListQueue_new;
  fq_push := push;
  fq_pop := pop;
  fq_front_element := front_element;
  fq_front_nums_element := front_nums_element;
  fq_new_repr := new_repr;
  fq_push_ok := λ q xs e, push_repr e q xs;
  fq_pop_ok := pop_repr;
  fq_front_ok := front_element_repr;
  fq_front_nums_ok := front_nums_repr
}.
End QueueList.
