(* ===== verification/Msg.v ===== *)
(** * The bounded message queue between threads (gent_msg.h)

    [GentMsg] is a ring buffer under a mutex with two condition variables.
    [Push] and [Pop] are modelled as the critical sections the mutex makes
    atomic, and their threads as a transition system: a thread that finds
    the ring full (empty) waits, a completed [Pop] ([Push]) signals one
    waiter, and a waiter can also wake up spuriously. *)

From S2P Require Import Prelude Cstd.

Module Msg.
Section msg.
Context {T : Type}.

(** [app_cq_] holds pointers; [Resize] fills it with NULLs. *)
Record GentMsg := { app_cq_ : list (option T); size_ : Z; start_ : Z }.

Definition GentMsg_new : GentMsg := {| app_cq_ := []; size_ := 0; start_ := 0 |}.

Definition Getsize (m : GentMsg) : Z := u32 (zlen (app_cq_ m)).
Definition Cursize (m : GentMsg) : Z := size_ m.

Definition Resize (size : Z) (m : GentMsg) : GentMsg :=
  {| app_cq_ := resize (Z.to_nat size) None (app_cq_ m); size_ := size_ m; start_ := start_ m |}.

(** [Push] once it holds the lock: [None] when the loop condition makes it
    wait on [empt_cond_]. *)
Definition Push (x : T) (m : GentMsg) : option GentMsg :=
  if zlen (app_cq_ m) <=? size_ m then None
  else
    let index := i32 (u32 (start_ m + size_ m) `mod` zlen (app_cq_ m)) in
    Some {| app_cq_ := <[Z.to_nat index := Some x]> (app_cq_ m);
            size_ := u32 (size_ m + 1); start_ := start_ m |}.

(** [Pop] once it holds the lock: [None] when it waits on [full_cond_]. *)
Definition Pop (m : GentMsg) : option (option T * GentMsg) :=
  if size_ m <=? 0 then None
  else
    Some (default None (app_cq_ m !! Z.to_nat (start_ m)),
          {| app_cq_ := app_cq_ m; size_ := u32 (size_ m - 1);
             start_ := u32 (start_ m + 1) `mod` zlen (app_cq_ m) |}).

(** ** The ring as a list *)

Definition capacity (m : GentMsg) : Z := zlen (app_cq_ m).

(** The ring holds the messages [xs], oldest first. The 32-bit sums do not
    overflow for capacities below 2^31 (the server uses 10000). *)
Definition holds (m : GentMsg) (xs : list T) : Prop :=
  capacity m < 2 ^ 31 ∧ size_ m = zlen xs ∧ zlen xs ≤ capacity m ∧
  (0 ≤ start_ m ∧ (capacity m = 0 → start_ m = 0) ∧ (0 < capacity m → start_ m < capacity m)) ∧
  ∀ (k : nat) x, xs !! k = Some x →
    app_cq_ m !! Z.to_nat ((start_ m + Z.of_nat k) `mod` capacity m) = Some (Some x).

Lemma mod_inj a n i j :
  0 ≤ i < n → 0 ≤ j < n → (a + i) `mod` n = (a + j) `mod` n → i = j.
Proof.
  intros Hi Hj H.
  assert ((i - j) `mod` n = 0) as Hd.
  { replace (i - j) with ((a + i) - (a + j)) by lia. rewrite Zminus_mod, H, Z.sub_diag.
    apply Z.mod_0_l. lia. }
  apply Z.mod_divide in Hd as [q Hq]; [|lia]. assert (q = 0) by nia. lia.
Qed.

Lemma Push_full m xs x : holds m xs → zlen xs = capacity m ↔ Push x m = None.
Proof.
  intros (_ & Hs & Hle & _). unfold Push, capacity in *. rewrite Hs.
  destruct (Z.leb_spec (zlen (app_cq_ m)) (zlen xs)); split; done || lia.
Qed.

Lemma Push_holds m m' xs x : holds m xs → Push x m = Some m' → holds m' (xs ++ [x]) ∧ capacity m' = capacity m.
Proof.
  intros (Hcap & Hs & Hle & (Hst0 & _ & Hst) & Hel). unfold Push.
  destruct (Z.leb_spec (zlen (app_cq_ m)) (size_ m)) as [|Hlt]; [done|].
  fold (capacity m) in *. intros [= <-]. pose proof (zlen_nonneg xs).
  specialize (Hst ltac:(lia)). set (n := capacity m) in *.
  assert (capacity {| app_cq_ := <[Z.to_nat (i32 (u32 (start_ m + size_ m) `mod` n)) := Some x]>
      (app_cq_ m); size_ := u32 (size_ m + 1); start_ := start_ m |} = n) as Hc.
  { unfold capacity, zlen. simpl. by rewrite length_insert. }
  assert (u32 (start_ m + size_ m) = start_ m + size_ m) as Hu by (apply u32_small; lia).
  pose proof (Z.mod_pos_bound (start_ m + size_ m) n ltac:(lia)) as Hm.
  rewrite Hu in *. rewrite (i32_small (_ `mod` _)) in * by lia.
  split; [|done]. unfold holds. rewrite Hc. simpl. split; [done|].
  split; [rewrite u32_small; zlia|]. split; [zlia|]. split; [lia|].
  intros k y Hk. destruct (decide (k = length xs)) as [->|Hne].
  - rewrite lookup_app_r, Nat.sub_diag in Hk by lia. simpl in Hk. injection Hk as <-.
    replace (Z.of_nat (length xs)) with (size_ m) by done.
    rewrite list_lookup_insert_eq; [done|]. unfold n, capacity, zlen in *. lia.
  - rewrite lookup_app_l in Hk by (apply lookup_lt_Some in Hk; rewrite length_app in Hk; simpl in Hk; lia).
    pose proof (lookup_lt_Some _ _ _ Hk) as Hlt2.
    rewrite list_lookup_insert_ne; [by apply Hel|].
    pose proof (Z.mod_pos_bound (start_ m + Z.of_nat k) n ltac:(lia)) as Hm2.
    intros He. apply Z2Nat.inj in He; [|lia|lia].
    apply mod_inj in He; unfold zlen in *; lia.
Qed.

Lemma Pop_empty m xs : holds m xs → xs = [] ↔ Pop m = None.
Proof.
  intros (_ & Hs & _). unfold Pop. rewrite Hs.
  destruct (Z.leb_spec (zlen xs) 0); split; try done.
  - intros _. apply zlen_0_inv. zlia.
  - intros ->. zlia.
Qed.

Lemma Pop_holds m xs r m' :
  holds m xs → Pop m = Some (r, m') →
  ∃ x xs', xs = x :: xs' ∧ r = Some x ∧ holds m' xs' ∧ capacity m' = capacity m.
Proof.
  intros (Hcap & Hs & Hle & (Hst0 & _ & Hst) & Hel). unfold Pop.
  destruct (Z.leb_spec (size_ m) 0) as [|Hlt]; [done|]. intros [= <- <-].
  destruct xs as [|x xs]; [zlia|]. exists x, xs.
  fold (capacity m). set (n := capacity m) in *. rewrite zlen_cons in *. pose proof (zlen_nonneg xs).
  specialize (Hst ltac:(lia)).
  split; [done|]. split; [|split; [|done]].
  - specialize (Hel 0%nat x eq_refl). rewrite Z.add_0_r, Z.mod_small in Hel by lia. by rewrite Hel.
  - unfold holds. change (capacity {| app_cq_ := _; size_ := _; start_ := _ |}) with n. simpl.
    rewrite (u32_small (start_ m + 1)) by lia.
    pose proof (Z.mod_pos_bound (start_ m + 1) n ltac:(lia)) as Hm.
    split; [done|]. split; [rewrite u32_small; lia|]. split; [lia|]. split; [lia|].
    intros k y Hk. specialize (Hel (S k) y Hk). rewrite Zplus_mod_idemp_l.
    replace (start_ m + 1 + Z.of_nat k) with (start_ m + Z.of_nat (S k)) by lia. done.
Qed.

(** ** Threads *)

(** Where a thread is: about to take the lock in [Push] or [Pop], waiting on
    a condition variable, or done (with what [Pop] returned). *)
Inductive pc :=
  | PushTry (x : T) | PushWait (x : T)
  | PopTry | PopWait
  | Done (r : option T).

(** The shared queue, the threads, and two history variables: the messages
    pushed and popped so far, in the order of the critical sections. *)
Record config := Config {
  msg : GentMsg;
  threads : list pc;
  pushed : list T;
  popped : list T
}.

(** [pthread_cond_signal(&full_cond_)]: wakes one thread that waits in [Pop],
    if there is one. *)
Inductive signal_full : list pc → list pc → Prop :=
  | signal_full_one ts j : ts !! j = Some PopWait → signal_full ts (<[j := PopTry]> ts)
  | signal_full_none ts : PopWait ∉ ts → signal_full ts ts.

Inductive signal_empt : list pc → list pc → Prop :=
  | signal_empt_one ts j x : ts !! j = Some (PushWait x) → signal_empt ts (<[j := PushTry x]> ts)
  | signal_empt_none ts : (∀ x, PushWait x ∉ ts) → signal_empt ts ts.

Inductive step : config → config → Prop :=
  | step_call_push m ts ps qs x :
      step (Config m ts ps qs) (Config m (ts ++ [PushTry x]) ps qs)
  | step_call_pop m ts ps qs :
      step (Config m ts ps qs) (Config m (ts ++ [PopTry]) ps qs)
  | step_push_wait m ts ps qs i x :
      ts !! i = Some (PushTry x) → Push x m = None →
      step (Config m ts ps qs) (Config m (<[i := PushWait x]> ts) ps qs)
  | step_push m m' ts ts' ps qs i x :
      ts !! i = Some (PushTry x) → Push x m = Some m' →
      signal_full (<[i := Done None]> ts) ts' →
      step (Config m ts ps qs) (Config m' ts' (ps ++ [x]) qs)
  | step_pop_wait m ts ps qs i :
      ts !! i = Some PopTry → Pop m = None →
      step (Config m ts ps qs) (Config m (<[i := PopWait]> ts) ps qs)
  | step_pop m m' ts ts' ps qs i x :
      ts !! i = Some PopTry → Pop m = Some (Some x, m') →
      signal_empt (<[i := Done (Some x)]> ts) ts' →
      step (Config m ts ps qs) (Config m' ts' ps (qs ++ [x]))
  | step_push_spurious m ts ps qs i x :
      ts !! i = Some (PushWait x) →
      step (Config m ts ps qs) (Config m (<[i := PushTry x]> ts) ps qs)
  | step_pop_spurious m ts ps qs i :
      ts !! i = Some PopWait →
      step (Config m ts ps qs) (Config m (<[i := PopTry]> ts) ps qs).

(** The queue as [GentFrame] sets it up: constructed, then resized to [n]. *)
Definition init (n : Z) : config := Config (Resize n GentMsg_new) [] [] [].

Definition reachable (n : Z) (c : config) : Prop := rtc step (init n) c.

(** The number of threads in a state. *)
Definition is_push_try (t : pc) : bool := match t with PushTry _ => true | _ => false end.
Definition is_push_wait (t : pc) : bool := match t with PushWait _ => true | _ => false end.
Definition is_pop_try (t : pc) : bool := match t with PopTry => true | _ => false end.
Definition is_pop_wait (t : pc) : bool := match t with PopWait => true | _ => false end.

Fixpoint cnt (p : pc → bool) (ts : list pc) : Z :=
  match ts with
  | [] => 0
  | t :: ts => (if p t then 1 else 0) + cnt p ts
  end.

Lemma cnt_nonneg p ts : 0 ≤ cnt p ts.
Proof. induction ts; simpl; [lia|]. case_match; lia. Qed.
Lemma cnt_app p ts ts' : cnt p (ts ++ ts') = cnt p ts + cnt p ts'.
Proof. induction ts as [|t ts IH]; simpl; [done|]. rewrite IH. lia. Qed.
Lemma cnt_insert p ts i t t' :
  ts !! i = Some t →
  cnt p (<[i := t']> ts) = cnt p ts - (if p t then 1 else 0) + (if p t' then 1 else 0).
Proof.
  revert i. induction ts as [|a ts IH]; intros [|i] H; simpl in *; [done|done| |].
  - injection H as ->. lia.
  - rewrite (IH i) by done. lia.
Qed.
Lemma cnt_zero p ts : (∀ t, t ∈ ts → p t = false) → cnt p ts = 0.
Proof.
  induction ts as [|t ts IH]; intros H; simpl; [done|].
  rewrite H by apply list_elem_of_here. rewrite IH; [done|]. intros. apply H. by apply list_elem_of_further.
Qed.
Lemma cnt_pos p ts i t : ts !! i = Some t → p t = true → 0 < cnt p ts.
Proof.
  revert i. induction ts as [|a ts IH]; intros [|i] H Hp; simpl in *; [done|done| |].
  - injection H as ->. rewrite Hp. pose proof (cnt_nonneg p ts). lia.
  - specialize (IH _ H Hp). case_match; lia.
Qed.

(** What holds in every reachable state: the ring holds the messages pushed
    and not yet popped; and while a thread waits in [Pop] ([Push]), there are
    at least as many threads on their way into [Pop] ([Push]) as there are
    messages (free slots). *)
Definition inv (n : Z) (c : config) : Prop :=
  capacity (msg c) = n ∧
  (∃ xs, holds (msg c) xs ∧ pushed c = popped c ++ xs) ∧
  (0 < cnt is_pop_wait (threads c) → size_ (msg c) ≤ cnt is_pop_try (threads c)) ∧
  (0 < cnt is_push_wait (threads c) → n - size_ (msg c) ≤ cnt is_push_try (threads c)).

(** The effect of a signal on the four counts. *)
Lemma signal_full_cnt ts ts' :
  signal_full ts ts' →
  cnt is_push_try ts' = cnt is_push_try ts ∧ cnt is_push_wait ts' = cnt is_push_wait ts ∧
  ((cnt is_pop_wait ts' = cnt is_pop_wait ts - 1 ∧ cnt is_pop_try ts' = cnt is_pop_try ts + 1) ∨
   (cnt is_pop_wait ts' = 0 ∧ cnt is_pop_try ts' = cnt is_pop_try ts)).
Proof.
  intros [ts0 j Hj|ts0 Hn].
  - rewrite !(cnt_insert _ _ _ _ _ Hj). simpl. lia.
  - rewrite (cnt_zero is_pop_wait); [lia|]. intros [] Ht; done.
Qed.

Lemma signal_empt_cnt ts ts' :
  signal_empt ts ts' →
  cnt is_pop_try ts' = cnt is_pop_try ts ∧ cnt is_pop_wait ts' = cnt is_pop_wait ts ∧
  ((cnt is_push_wait ts' = cnt is_push_wait ts - 1 ∧ cnt is_push_try ts' = cnt is_push_try ts + 1) ∨
   (cnt is_push_wait ts' = 0 ∧ cnt is_push_try ts' = cnt is_push_try ts)).
Proof.
  intros [ts0 j x Hj|ts0 Hn].
  - rewrite !(cnt_insert _ _ _ _ _ Hj). simpl. lia.
  - rewrite (cnt_zero is_push_wait); [lia|]. intros [] Ht; try done. by apply Hn in Ht.
Qed.

Ltac cnt_solve :=
  repeat match goal with
  | |- context [cnt ?p ?ts] =>
      lazymatch goal with H : 0 ≤ cnt p ts |- _ => fail | _ => pose proof (cnt_nonneg p ts) end
  end;
  repeat match goal with
  | H : _ !! _ = Some _, H' : context [cnt _ (<[_ := _]> _)] |- _ =>
      rewrite (cnt_insert _ _ _ _ _ H) in H'
  | H : _ !! _ = Some _ |- context [cnt _ (<[_ := _]> _)] => rewrite !(cnt_insert _ _ _ _ _ H)
  end;
  rewrite ?cnt_app in *; simpl in *; lia.

Lemma inv_step n c c' : inv n c → step c c' → inv n c'.
Proof.
  intros (Hc & (xs & Hh & Hlog) & Hpop & Hpush) Hstep. pose proof (proj1 (proj2 Hh)) as Hsz.
  unfold inv. destruct Hstep as
    [m ts ps qs x|m ts ps qs|m ts ps qs i x Hi Hp|m m' ts ts' ps qs i x Hi Hp Hsig
    |m ts ps qs i Hi Hp|m m' ts ts' ps qs i x Hi Hp Hsig|m ts ps qs i x Hi|m ts ps qs i Hi];
    simpl in *.
  - split; [done|]. split; [eauto|]. cnt_solve.
  - split; [done|]. split; [eauto|]. cnt_solve.
  - apply (Push_full _ _ x Hh) in Hp. split; [done|]. split; [eauto|]. cnt_solve.
  - destruct (Push_holds _ _ _ _ Hh Hp) as [Hh' Hc']. pose proof (proj1 (proj2 Hh')) as Hsz'.
    rewrite zlen_app in Hsz'. change (zlen [x]) with 1 in Hsz'.
    apply signal_full_cnt in Hsig. rewrite !(cnt_insert _ _ _ _ _ Hi) in Hsig. simpl in Hsig.
    split; [lia|]. split; [|lia].
    exists (xs ++ [x]). split; [done|]. by rewrite Hlog, app_assoc.
  - apply (Pop_empty _ _ Hh) in Hp as ->. split; [done|]. split; [eauto|]. rewrite Hsz in *.
    change (zlen []) with 0 in *. cnt_solve.
  - destruct (Pop_holds _ _ _ _ Hh Hp) as (y & xs' & -> & [= ->] & Hh' & Hc').
    pose proof (proj1 (proj2 Hh')) as Hsz'. rewrite zlen_cons in Hsz.
    apply signal_empt_cnt in Hsig. rewrite !(cnt_insert _ _ _ _ _ Hi) in Hsig. simpl in Hsig.
    split; [lia|]. split; [|lia].
    exists xs'. split; [done|]. by rewrite Hlog, <- app_assoc.
  - split; [done|]. split; [eauto|]. cnt_solve.
  - split; [done|]. split; [eauto|]. cnt_solve.
Qed.

Lemma inv_init n : 0 ≤ n < 2 ^ 31 → inv n (init n).
Proof.
  intros Hn. assert (capacity (msg (init n)) = n) as Hc.
  { unfold capacity, zlen. simpl. rewrite length_resize. lia. }
  split; [done|]. split; [|simpl; lia]. exists []. split; [|done].
  unfold holds. rewrite Hc. simpl. change (zlen []) with 0.
  split; [lia|]. split; [done|]. split; [lia|]. split; [lia|]. done.
Qed.

Lemma reachable_inv n c : 0 ≤ n < 2 ^ 31 → reachable n c → inv n c.
Proof.
  intros Hn Hr. unfold reachable in Hr. assert (inv n (init n)) as Hi by by apply inv_init.
  revert Hi. induction Hr; eauto using inv_step.
Qed.

(** C28: however the threads interleave, the messages come out in the order in
    which they went in, each once: the popped ones are a prefix of the pushed
    ones, the rest is in the ring, and the ring never exceeds its capacity. *)
Theorem msg_fifo n c :
  0 ≤ n < 2 ^ 31 → reachable n c →
  ∃ xs, pushed c = popped c ++ xs ∧ holds (msg c) xs ∧ zlen xs ≤ n.
Proof.
  intros Hn Hr. destruct (reachable_inv _ _ Hn Hr) as (Hc & (xs & Hh & Hlog) & _).
  exists xs. split; [done|]. split; [done|]. destruct Hh as (_ & _ & Hle & _). lia.
Qed.

(** C27: no wake-up is lost, although each operation signals only one waiter:
    while messages are queued and a thread waits in [Pop], some thread is
    on its way into [Pop], and its next critical section takes a message;
    likewise for [Push] while there is room. *)
Theorem msg_no_lost_wakeup n c :
  0 ≤ n < 2 ^ 31 → reachable n c →
  (PopWait ∈ threads c → 0 < Cursize (msg c) →
     ∃ i, threads c !! i = Some PopTry ∧ ∃ x m', Pop (msg c) = Some (Some x, m')) ∧
  (∀ x, PushWait x ∈ threads c → Cursize (msg c) < n →
     ∃ i y, threads c !! i = Some (PushTry y) ∧ ∃ m', Push y (msg c) = Some m').
Proof.
  intros Hn Hr. destruct (reachable_inv _ _ Hn Hr) as (Hc & (xs & Hh & _) & Hpop & Hpush).
  assert (∀ p ts, 0 < cnt p ts → ∃ i t, ts !! i = Some t ∧ p t = true) as Hex.
  { intros p ts. induction ts as [|t ts IH]; simpl; [lia|]. destruct (p t) eqn:E.
    - intros _. by exists 0%nat, t.
    - intros H. destruct IH as (i & t' & ? & ?); [lia|]. by exists (S i), t'. }
  unfold Cursize. split.
  - intros Hw Hs. apply list_elem_of_lookup in Hw as [j Hj].
    pose proof (cnt_pos is_pop_wait _ _ _ Hj eq_refl).
    destruct (Hex is_pop_try (threads c)) as (i & t & Hi & Ht); [lia|].
    exists i. destruct t; try done. split; [done|].
    destruct (Pop (msg c)) as [[r m']|] eqn:E.
    + destruct (Pop_holds _ _ _ _ Hh E) as (x & ? & _ & -> & _). eauto.
    + apply (Pop_empty _ _ Hh) in E as ->. destruct Hh as (_ & Hz & _).
      change (zlen []) with 0 in Hz. lia.
  - intros x Hw Hs. apply list_elem_of_lookup in Hw as [j Hj].
    pose proof (cnt_pos is_push_wait _ _ _ Hj eq_refl).
    destruct (Hex is_push_try (threads c)) as (i & t & Hi & Ht); [lia|].
    destruct t as [y| | | |]; try done. exists i, y. split; [done|].
    destruct (Push y (msg c)) as [m'|] eqn:E; [eauto|].
    apply (Push_full _ _ y Hh) in E. destruct Hh as (_ & Hz & _). lia.
Qed.
End msg.
Arguments GentMsg : clear implicits.
Arguments config : clear implicits.

(** Two consumers wait; a producer pushes and wakes one of them. *)
Definition demo : config Z :=
  Config {| app_cq_ := [Some 7]; size_ := 1; start_ := 0 |} [PopTry; PopWait; Done None] [7] [].

Lemma demo_reachable : reachable 1 demo.
Proof.
  unfold reachable, init, demo.
  eapply rtc_l; [apply step_call_pop|]. eapply rtc_l; [apply step_call_pop|].
  eapply rtc_l; [by eapply (step_pop_wait _ _ _ _ 0)|].
  eapply rtc_l; [by eapply (step_pop_wait _ _ _ _ 1)|].
  eapply rtc_l; [apply (step_call_push _ _ _ _ 7)|].
  eapply rtc_l; [eapply (step_push _ _ _ _ _ _ 2 7); [done|by vm_compute|]|].
  { by apply (signal_full_one _ 0). }
  apply rtc_refl.
Qed.

Lemma msg_fifo_witness :
  ∃ xs, pushed demo = popped demo ++ xs ∧ holds (msg demo) xs ∧ zlen xs ≤ 1.
Proof. exact (msg_fifo 1 _ ltac:(lia) demo_reachable). Defined.

Lemma msg_no_lost_wakeup_witness :
  PopWait ∈ threads demo ∧ 0 < Cursize (msg demo) ∧
  ∃ i, threads demo !! i = Some PopTry ∧ ∃ x m', Pop (msg demo) = Some (Some x, m').
Proof.
  assert (PopWait ∈ threads demo) as Hw.
  { apply list_elem_of_further, list_elem_of_here. }
  assert (0 < Cursize (msg demo)) as Hs by (vm_compute; done).
  split; [done|]. split; [done|].
  exact (proj1 (msg_no_lost_wakeup 1 _ ltac:(lia) demo_reachable) Hw Hs).
Defined.
End Msg.
