(* ===== verification/Util.v ===== *)
(** * String utilities and the configuration file (gent_util.cpp, gent_config.cpp) *)

From S2P Require Import Prelude Cstd.

Module Util.

(** [SafeStrtol(str, &out)]: the returned flag and the value stored in [out]. *)
Definition SafeStrtol (s : bytes) : bool * Z :=
  match strtol (cstr s) with
  | (l, erange, endptr) =>
      match endptr with
      | None => (false, 0)
      | Some rest =>
          if erange then (false, 0)
          else match rest with
               | [] => (true, i32 l)
               | c :: _ => if isspace c then (true, i32 l) else (false, 0)
               end
      end
  end.

(** [AssignVal(str, outstr, len)]; a negative [len] becomes a huge [size_t]. *)
Definition AssignVal (s : bytes) (len : Z) : result bytes := substr (cstr s) 0 (u64 len).

Definition blanks : bytes := [32; 10; 13; 9].

Definition LTrim (s : bytes) : result bytes :=
  let p := find_first_not_of s blanks 0 in substr_from s p.

Definition RTrim (s : bytes) : result bytes :=
  substr s 0 (u64 (find_last_not_of s blanks + 1)).

Definition Trim (s : bytes) : result bytes := r ← RTrim s; LTrim r.

(** The loop of [Split]: [pos] grows in every iteration, so the length of the
    string bounds their number. *)
Fixpoint Split_loop (fuel : nat) (s delimit : bytes) (pos : Z) (v : list bytes)
    : result (Z * list bytes) :=
  let rpos := find_first_of s delimit pos in
  match fuel with
  | O => mret (pos, v)
  | S fuel =>
      if rpos =? npos then mret (pos, v)
      else if rpos =? pos then Split_loop fuel s delimit (pos + 1) v
      else
        seg ← substr s pos (rpos - pos);
        t ← Trim seg;
        Split_loop fuel s delimit (rpos + 1) (if bool_decide (t = []) then v else v ++ [t])
  end.

Definition Split (s delimit : bytes) (v : list bytes) : result (list bytes) :=
  r ← Split_loop (S (length s)) s delimit 0 v;
  seg ← substr_from s r.1;
  t ← Trim seg;
  mret (if bool_decide (t = []) then r.2 else r.2 ++ [t]).

(** ** Trimming *)

(** The reference: drop the leading characters of [set], then the trailing. *)
Fixpoint lstrip (set s : bytes) : bytes :=
  match s with
  | c :: s' => if mem set c then lstrip set s' else s
  | [] => []
  end.
Definition rstrip (set s : bytes) : bytes := reverse (lstrip set (reverse s)).
Definition strip (set s : bytes) : bytes := lstrip set (rstrip set s).

Lemma lstrip_split set s :
  ∃ a, s = a ++ lstrip set s ∧ Forall (λ c, mem set c = true) a ∧
       match lstrip set s with [] => True | c :: _ => mem set c = false end.
Proof.
  induction s as [|c s (a & He & Ha & Hh)]; simpl; [by exists []|].
  destruct (mem set c) eqn:E.
  - exists (c :: a). simpl. rewrite <- He. split; [done|]. by split; [constructor|].
  - by exists [].
Qed.

Lemma rstrip_split set s :
  ∃ b, s = rstrip set s ++ b ∧ Forall (λ c, mem set c = true) b ∧
       match last (rstrip set s) with None => True | Some c => mem set c = false end.
Proof.
  destruct (lstrip_split set (reverse s)) as (a & He & Ha & Hh). exists (reverse a).
  unfold rstrip. split; [|split].
  - rewrite <- reverse_app, <- He. by rewrite reverse_involutive.
  - by apply Forall_reverse.
  - rewrite last_reverse. by destruct (lstrip set (reverse s)).
Qed.

(** The last match: in the string before it, all after it fail. *)
Lemma find_last_from_skip p s t i l :
  Forall (λ c, p c = false) t → find_last_from p (s ++ t) i l = find_last_from p s i l.
Proof.
  intros Ht. revert i l. induction s as [|c s IH]; intros i l; simpl; [|apply IH].
  revert i. induction Ht as [|c t Hc _ IH]; intros i; simpl; [done|]. by rewrite Hc, IH.
Qed.

Lemma find_last_from_snoc p s c i l :
  p c = true → find_last_from p (s ++ [c]) i l = i + zlen s.
Proof.
  intros Hc. revert i l. induction s as [|a s IH]; intros i l; simpl.
  - rewrite Hc. zlia.
  - rewrite IH. zlia.
Qed.

Lemma find_last_not_of_rstrip set s :
  zlen s < npos → u64 (find_last_not_of s set + 1) = zlen (rstrip set s).
Proof.
  intros Hlen. destruct (rstrip_split set s) as (b & He & Hb & Hl).
  set (r := rstrip set s) in *. clearbody r. subst s. unfold find_last_not_of.
  rewrite find_last_from_skip.
  2:{ eapply Forall_impl; [done|]. simpl. intros c ->. done. }
  destruct r as [|c r _] using rev_ind; [done|].
  rewrite last_snoc in Hl. rewrite find_last_from_snoc by (by rewrite Hl).
  unfold npos in *. rewrite u64_small; zlia.
Qed.

Lemma RTrim_rstrip s : zlen s < npos → RTrim s = Ok (rstrip blanks s).
Proof.
  intros Hs. unfold RTrim. rewrite find_last_not_of_rstrip by done.
  destruct (rstrip_split blanks s) as (b & He & _). set (r := rstrip blanks s) in *.
  clearbody r. subst s. rewrite substr_0 by zlia. f_equal. rewrite to_nat_zlen. apply take_app_length.
Qed.

Lemma find_first_not_of_lstrip set s :
  find_first_not_of s set 0 =
    if bool_decide (lstrip set s = []) then npos else zlen s - zlen (lstrip set s).
Proof.
  destruct (lstrip_split set s) as (a & He & Ha & Hh). unfold find_first_not_of.
  assert (Forall (λ c, negb (mem set c) = false) a) as Ha'.
  { eapply Forall_impl; [done|]. simpl. by intros c ->. }
  set (r := lstrip set s) in *. clearbody r. subst s. destruct r as [|c r].
  - rewrite bool_decide_eq_true_2 by done. rewrite app_nil_r. by apply (find_if_none _ []).
  - rewrite bool_decide_eq_false_2 by done.
    rewrite (find_if_hit _ [] a c r 0); [zlia|done|done|by rewrite Hh].
Qed.

Lemma LTrim_lstrip s :
  zlen s < npos →
  LTrim s = if bool_decide (lstrip blanks s = []) then Fault OutOfRange else Ok (lstrip blanks s).
Proof.
  intros Hs. unfold LTrim, substr_from. rewrite find_first_not_of_lstrip.
  destruct (lstrip_split blanks s) as (a & He & _). set (r := lstrip blanks s) in *. clearbody r.
  case_bool_decide as Hd.
  - unfold substr. destruct (Z.ltb_spec (zlen s) npos); [done|lia].
  - subst s. apply substr_app_end; zlia.
Qed.

(** [Trim] removes exactly the surrounding blanks when something is left,
    and throws [std::out_of_range] on an empty or blank string. *)
Theorem Trim_spec s :
  zlen s < npos →
  Trim s = if bool_decide (strip blanks s = []) then Fault OutOfRange else Ok (strip blanks s).
Proof.
  intros Hs. unfold Trim. rewrite RTrim_rstrip by done. simpl. apply LTrim_lstrip.
  destruct (rstrip_split blanks s) as (b & He & _). rewrite He in Hs. zlia.
Qed.

Lemma Trim_spec_witness :
  Trim (str " get k " ++ crlf) = Ok (str "get k") ∧ Trim (str "  ") = Fault OutOfRange.
Proof.
  split.
  - rewrite (Trim_spec (str " get k " ++ crlf)); [by vm_compute|vm_compute; done].
  - rewrite (Trim_spec (str "  ")); [by vm_compute|vm_compute; done].
Defined.

Lemma skip_spaces_all s : Forall (λ c, isspace c = true) s → skip_spaces s = [].
Proof. induction 1 as [|c s Hc _ IH]; simpl; [done|]. by rewrite Hc. Qed.

(** [SafeStrtol] accepts the decimal text of every 32-bit length, followed
    by nothing or white space, and returns its value. *)
Theorem SafeStrtol_udec n t :
  0 ≤ n < 2 ^ 31 → match t with [] => True | c :: _ => isspace c = true end →
  SafeStrtol (udec n ++ t) = (true, n).
Proof.
  intros Hn Ht. unfold SafeStrtol.
  assert (∃ t', cstr (udec n ++ t) = udec n ++ t' ∧
            match t' with [] => True | c :: _ => isspace c = true end) as (t' & -> & Ht').
  { exists (cstr t). pose proof (udec_digits n ltac:(lia)) as Hd. split.
    - induction Hd as [|c s Hc _ IH]; [done|]. simpl. unfold isdigit in Hc.
      destruct (Z.eqb_spec c 0); [lia|]. by rewrite IH.
    - destruct t as [|c t]; [done|]. simpl. by destruct (c =? 0). }
  rewrite strtol_udec; [|lia|].
  - destruct t' as [|c t']; [by rewrite i32_small by lia|]. by rewrite Ht', i32_small by lia.
  - destruct t' as [|c t']; [done|]. simpl. unfold isspace, isdigit in *. lia.
Qed.

Lemma SafeStrtol_udec_witness : SafeStrtol (udec 1024 ++ [CR]) = (true, 1024).
Proof. apply SafeStrtol_udec; [lia|done]. Defined.
End Util.
