(* ===== verification/Config.v ===== *)
(** * The configuration file (gent_config.h, gent_config.cpp) *)

From S2P Require Import Prelude Cstd Util.
Import Util.

Module Config.

(** [conf_]; the second member, [noexist], is always the empty string. *)
Abbreviation conf := (gmap bytes bytes).

Definition GentConfig_new : conf :=
  <[str "thread" := str "10"]> (<[str "port" := str "3535"]> ∅).

Definition set (c : conf) (key val : bytes) : conf := <[key := val]> c.

(** [operator[]]: a key that is not configured reads as [noexist]. *)
Definition get (c : conf) (key : bytes) : bytes := default [] (c !! key).

Definition key_blanks : bytes := [32; 12; 9; 11].
Definition val_blanks : bytes := [32; 12; 10; 13; 9; 11].

(** One iteration of the loop of [Parse]. *)
Definition Parse_line (c : conf) (s : bytes) : result conf :=
  let begin := find_first_not_of s key_blanks 0 in
  if begin =? npos then mret c else
  ch ← vec_at s begin;
  if mem (str "#;") ch then mret c else
  let end_ := find_if (Z.eqb 61) s begin in
  key ← substr s begin (u64 (end_ - begin));
  let key := take (Z.to_nat (u64 (find_last_not_of key key_blanks + 1))) key in
  if bool_decide (key = []) then mret c else
  let begin := find_first_not_of s val_blanks (u64 (end_ + 1)) in
  let end_ := u64 (find_last_not_of s val_blanks + 1) in
  value ← substr s begin (u64 (end_ - begin));
  mret (<[key := value]> c).

(** [std::getline] until the stream ends: the text before each newline, and
    the text after the last one when there is any. *)
Fixpoint lines (s cur : bytes) : list bytes :=
  match s with
  | [] => if bool_decide (cur = []) then [] else [cur]
  | c :: s' => if c =? LF then cur :: lines s' [] else lines s' (cur ++ [c])
  end.

Fixpoint Parse_loop (c : conf) (ls : list bytes) : result conf :=
  match ls with
  | [] => mret c
  | l :: ls => c ← Parse_line c l; Parse_loop c ls
  end.

Definition Parse (c : conf) (file : bytes) : result conf := Parse_loop c (lines file []).

(** ** What a line means *)

(** A text with no surrounding characters of [set]. *)
Definition trimmed (set s : bytes) : Prop :=
  match s with [] => False | c :: _ => mem set c = false end ∧
  match last s with None => False | Some c => mem set c = false end.

Lemma rstrip_trimmed set a c : mem set c = false → rstrip set (a ++ [c]) = a ++ [c].
Proof.
  intros Hc. unfold rstrip. rewrite reverse_snoc. simpl. rewrite Hc.
  by rewrite reverse_cons, reverse_involutive.
Qed.

Lemma find_last_not_of_snoc set a c :
  mem set c = false → zlen (a ++ [c]) < npos →
  u64 (find_last_not_of (a ++ [c]) set + 1) = zlen (a ++ [c]).
Proof. intros. by rewrite find_last_not_of_rstrip, rstrip_trimmed. Qed.

Lemma trimmed_snoc set s : trimmed set s → ∃ a c, s = a ++ [c] ∧ mem set c = false.
Proof.
  intros [_ Hl]. destruct s as [|c s _] using rev_ind; [done|]. rewrite last_snoc in Hl. eauto.
Qed.

(** The characters that [Parse] keeps out of keys: blanks and the equal sign. *)
Definition key_ok (key : bytes) : Prop :=
  trimmed key_blanks key ∧ Forall (λ c, (61 =? c) = false) key ∧
  match key with [] => False | c :: _ => mem (str "#;") c = false end.

(** The first half of an iteration: everything up to the value. *)
Lemma Parse_line_key c key rest :
  key_ok key → zlen (key ++ [61] ++ rest) < npos →
  Parse_line c (key ++ [61] ++ rest) =
    (let s := key ++ [61] ++ rest in
     let begin := find_first_not_of s val_blanks (zlen key + 1) in
     value ← substr s begin (u64 (u64 (find_last_not_of s val_blanks + 1) - begin));
     mret (<[key := value]> c)).
Proof.
  intros (Hk & Heq & Hc) Hlen. unfold Parse_line.
  assert (∃ k0 key0, key = k0 :: key0 ∧ mem (str "#;") k0 = false ∧ mem key_blanks k0 = false)
    as (k0 & key0 & Ek & Hc0 & Hk0) by (destruct key, Hk; naive_solver).
  assert (find_first_not_of (key ++ [61] ++ rest) key_blanks 0 = 0) as ->.
  { rewrite Ek. apply (find_if_hit _ [] [] k0 (key0 ++ [61] ++ rest)); [done|by apply Forall_nil|].
    by rewrite Hk0. }
  assert (vec_at (key ++ [61] ++ rest) 0 = Ok k0) as ->.
  { rewrite Ek. unfold vec_at.
    destruct (Z.ltb_spec 0 (zlen ((k0 :: key0) ++ [61] ++ rest))); [done|zlia]. }
  change (0 =? npos) with false. cbn [mbind result_bind]. rewrite Hc0.
  assert (find_if (Z.eqb 61) (key ++ [61] ++ rest) 0 = zlen key) as ->.
  { apply (find_if_hit _ [] key 61 rest 0); done. }
  rewrite Z.sub_0_r, (u64_small (zlen key)) by (unfold npos in *; zlia).
  rewrite substr_prefix. cbn [mbind result_bind].
  destruct (trimmed_snoc _ _ Hk) as (ka & kc & Hka & Hkc).
  assert (u64 (find_last_not_of key key_blanks + 1) = zlen key) as ->.
  { rewrite Hka. apply find_last_not_of_snoc; [done|]. rewrite <- Hka. unfold npos in *; zlia. }
  rewrite to_nat_zlen, take_ge by lia.
  rewrite bool_decide_eq_false_2 by (by rewrite Ek).
  by rewrite (u64_small (zlen key + 1)) by (unfold npos in *; zlia).
Qed.

Lemma Parse_line_pair c key value :
  key_ok key → trimmed val_blanks value → zlen (key ++ [61] ++ value) < npos →
  Parse_line c (key ++ [61] ++ value) = Ok (<[key := value]> c).
Proof.
  intros Hk Hv Hlen. rewrite Parse_line_key by done. cbv zeta.
  destruct value as [|v0 value0] eqn:Ev; [by destruct Hv|].
  assert (find_first_not_of (key ++ [61] ++ v0 :: value0) val_blanks (zlen key + 1) = zlen key + 1) as ->.
  { rewrite app_assoc. unfold find_first_not_of.
    rewrite (find_if_hit _ (key ++ [61]) [] v0 value0); [zlia|zlia|by apply Forall_nil|].
    by destruct Hv as [-> _]. }
  rewrite <- Ev in *. destruct (trimmed_snoc _ _ Hv) as (va & vc & Hva & Hvc).
  assert (u64 (find_last_not_of (key ++ [61] ++ value) val_blanks + 1) = zlen (key ++ [61] ++ value)) as ->.
  { rewrite Hva, !app_assoc in *. by apply find_last_not_of_snoc. }
  rewrite app_assoc, (substr_app_end (key ++ [61]) value); [done|zlia|].
  rewrite u64_small; unfold npos in *; zlia.
Qed.

(** a line [key=value], with no blanks around the two parts, sets the key,
    and reading the key back gives the value. *)
Theorem Parse_line_sets c key value :
  key_ok key → trimmed val_blanks value → zlen (key ++ [61] ++ value) < npos →
  ∃ c', Parse_line c (key ++ [61] ++ value) = Ok c' ∧ get c' key = value ∧
        ∀ k, k ≠ key → get c' k = get c k.
Proof.
  intros Hk Hv Hlen. exists (<[key := value]> c). rewrite Parse_line_pair by done.
  split; [done|]. unfold get. split; [by rewrite lookup_insert_eq|].
  intros k Hne. by rewrite lookup_insert_ne.
Qed.

Lemma Parse_line_sets_witness :
  ∃ c', Parse_line GentConfig_new (str "port" ++ [61] ++ str "3555") = Ok c' ∧
        get c' (str "port") = str "3555" ∧ ∀ k, k ≠ str "port" → get c' k = get GentConfig_new k.
Proof.
  apply Parse_line_sets.
  - split; [by vm_compute|]. split; [|by vm_compute].
    repeat (apply Forall_cons; split; [by vm_compute|]). by apply Forall_nil.
  - by vm_compute.
  - by vm_compute.
Defined.

(** a line [key=] with nothing after the equal sign ends the server: the
    search for the value finds nothing and [substr] throws. *)
Theorem Parse_line_empty_value c key blank :
  key_ok key → Forall (λ b, mem val_blanks b = true) blank →
  zlen (key ++ [61] ++ blank) < npos →
  Parse_line c (key ++ [61] ++ blank) = Fault OutOfRange.
Proof.
  intros Hk Hb Hlen. rewrite Parse_line_key by done. cbv zeta.
  assert (find_first_not_of (key ++ [61] ++ blank) val_blanks (zlen key + 1) = npos) as ->.
  { rewrite app_assoc. unfold find_first_not_of. apply find_if_none; [zlia|].
    eapply Forall_impl; [done|]. by intros b ->. }
  unfold substr. destruct (Z.ltb_spec (zlen (key ++ [61] ++ blank)) npos); [done|lia].
Qed.

Lemma Parse_line_empty_value_witness :
  Parse_line GentConfig_new (str "auth" ++ [61] ++ []) = Fault OutOfRange.
Proof.
  apply Parse_line_empty_value.
  - split; [by vm_compute|]. split; [|by vm_compute].
    repeat (apply Forall_cons; split; [by vm_compute|]). by apply Forall_nil.
  - by apply Forall_nil.
  - by vm_compute.
Defined.

(** Comments, blank lines and the two defaults. *)
Example Parse_conf :
  let file := str "### config file" ++ [LF; LF] ++ str "port=3555" ++ [LF] ++ str "  log_file = /tmp/r.log " in
  match Parse GentConfig_new file with
  | Ok c => get c (str "port") = str "3555" ∧ get c (str "log_file") = str "/tmp/r.log" ∧
            get c (str "thread") = str "10" ∧ get c (str "auth") = []
  | Fault _ => False
  end.
Proof. vm_compute. done. Qed.
End Config.
