(* ===== verification/LevelDb.v ===== *)
(** * What the server relies on from LevelDB

    LevelDB is a library the server links; its operations are the fields of
    a class, and the documented behaviour the proofs use the fields of
    another. Keys are ordered bytewise, an iterator runs over a snapshot in
    key order, and a successful write is seen by later reads. A finite map
    is an instance. *)

From stdpp Require Import sorting.
From S2P Require Import Prelude Cstd.

(** The default comparator: bytewise, a proper prefix first. *)
Fixpoint bytes_leb (a b : bytes) : bool :=
  match a, b with
  | [], _ => true
  | _ :: _, [] => false
  | x :: a, y :: b => (x <? y) || ((x =? y) && bytes_leb a b)
  end.
Definition bytes_le (a b : bytes) : Prop := bytes_leb a b = true.

#[global] Instance bytes_le_dec : RelDecision bytes_le.
Proof. intros a b. unfold bytes_le. apply _. Defined.

Class LevelDB (D : Type) := {
  (** [Get]: the value when the status is ok. *)
  ldb_Get : D → bytes → option bytes;
  (** [Put], [Delete] and [Write] of a batch of puts: is the status ok? *)
  ldb_Put : D → bytes → bytes → bool * D;
  ldb_Delete : D → bytes → bool * D;
  ldb_Write : D → list (bytes * bytes) → bool * D;
  (** The pairs an iterator over a snapshot visits, first to last. *)
  ldb_iter : D → list (bytes * bytes);
  (** [GetApproximateSizes] of one range. *)
  ldb_approx_size : D → bytes → bytes → Z
}.

Class LevelDBLaws (D : Type) `{LevelDB D} := {
  ldb_Put_Get d k v d' : ldb_Put d k v = (true, d') →
    ∀ k', ldb_Get d' k' = if decide (k = k') then Some v else ldb_Get d k';
  ldb_Delete_Get d k d' : ldb_Delete d k = (true, d') →
    ∀ k', ldb_Get d' k' = if decide (k = k') then None else ldb_Get d k';
  ldb_Write_Get d ps d' : ldb_Write d ps = (true, d') → NoDup ps.*1 →
    ∀ k', ldb_Get d' k' = match (list_to_map ps : gmap bytes bytes) !! k' with
                          | Some v => Some v | None => ldb_Get d k' end;
  ldb_iter_Get d k v : (k, v) ∈ ldb_iter d ↔ ldb_Get d k = Some v;
  ldb_iter_sorted d : StronglySorted bytes_le (ldb_iter d).*1;
  ldb_iter_nodup d : NoDup (ldb_iter d).*1
}.

(** ** The order *)

Lemma bytes_leb_refl a : bytes_leb a a = true.
Proof. induction a as [|x a IH]; simpl; [done|]. rewrite IH. lia. Qed.

Lemma bytes_leb_trans a b c : bytes_leb a b = true → bytes_leb b c = true → bytes_leb a c = true.
Proof.
  revert b c. induction a as [|x a IH]; intros [|y b] [|z c]; simpl; try done.
  intros H1 H2. apply orb_true_iff in H1, H2. apply orb_true_iff.
  destruct H1 as [H1|H1], H2 as [H2|H2]; [left; lia|left; lia|left; lia|].
  right. apply andb_true_iff in H1 as [H1 H1'], H2 as [H2 H2']. rewrite (IH b c) by done. lia.
Qed.

Lemma bytes_leb_total a b : bytes_leb a b = true ∨ bytes_leb b a = true.
Proof.
  revert b. induction a as [|x a IH]; intros [|y b]; simpl; auto.
  destruct (Z.lt_trichotomy x y) as [|[->|]]; [left; lia| |right; lia].
  rewrite Z.eqb_refl. destruct (IH b) as [-> | ->]; [left|right]; lia.
Qed.

Lemma bytes_leb_antisym a b : bytes_leb a b = true → bytes_leb b a = true → a = b.
Proof.
  revert b. induction a as [|x a IH]; intros [|y b]; simpl; try done.
  intros H1 H2. apply orb_true_iff in H1, H2.
  assert (x = y) as -> by (rewrite !andb_true_iff in *; lia).
  f_equal. apply IH; rewrite !andb_true_iff in *; [destruct H1; lia || tauto|destruct H2; lia || tauto].
Qed.

(** [curkey.substr(0, pre.size()) == pre]. *)
Definition has_prefix (pre k : bytes) : bool := bool_decide (take (length pre) k = pre).

Lemma has_prefix_iff pre k : has_prefix pre k = true ↔ ∃ s, k = pre ++ s.
Proof.
  unfold has_prefix. rewrite bool_decide_eq_true. split.
  - intros H. exists (drop (length pre) k). rewrite <- H at 1. by rewrite take_drop.
  - intros [s ->]. apply take_app_length.
Qed.

(** Keys between two keys with a prefix have it too. *)
Lemma prefix_convex pre a b c :
  bytes_leb a b = true → bytes_leb b c = true →
  has_prefix pre a = true → has_prefix pre c = true → has_prefix pre b = true.
Proof.
  rewrite !has_prefix_iff. intros Hab Hbc [s ->] [t ->].
  revert b Hab Hbc. induction pre as [|x pre IH]; intros b Hab Hbc; [by exists b|].
  destruct b as [|y b]; simpl in *; [done|].
  apply orb_true_iff in Hab, Hbc.
  assert (x = y) as -> by (rewrite !andb_true_iff in *; lia).
  destruct (IH b) as [u ->]; [| |by exists u]; rewrite andb_true_iff in *.
  - destruct Hab; [lia|tauto].
  - destruct Hbc; [lia|tauto].
Qed.

(** ** A finite map as a database *)
Section map_db.
#[local] Instance bytes_le_trans : Transitive bytes_le.
Proof. intros a b c. apply bytes_leb_trans. Qed.
#[local] Instance bytes_le_total : Total bytes_le.
Proof. intros a b. apply bytes_leb_total. Qed.

Definition pair_le (p q : bytes * bytes) : Prop := bytes_le p.1 q.1.
#[local] Instance pair_le_dec : RelDecision pair_le.
Proof. intros p q. unfold pair_le. apply _. Defined.
#[local] Instance pair_le_total : Total pair_le.
Proof. intros p q. apply bytes_leb_total. Qed.
#[local] Instance pair_le_trans : Transitive pair_le.
Proof. intros p q r. apply bytes_leb_trans. Qed.

(** A [std::map] in iteration order: the pairs by increasing key. *)
Definition map_items (m : gmap bytes bytes) : list (bytes * bytes) := merge_sort pair_le (map_to_list m).

#[global] Instance map_LevelDB : LevelDB (gmap bytes bytes) := {
  ldb_Get d k := d !! k;
  ldb_Put d k v := (true, <[k := v]> d);
  ldb_Delete d k := (true, delete k d);
  ldb_Write d ps := (true, list_to_map ps ∪ d);
  ldb_iter d := map_items d;
  ldb_approx_size d a b := 0
}.

#[global] Instance map_LevelDBLaws : LevelDBLaws (gmap bytes bytes).
Proof.
  split; simpl.
  - intros d k v d' [= <-] k'. rewrite lookup_insert. by case_decide.
  - intros d k d' [= <-] k'. rewrite lookup_delete. by case_decide.
  - intros d ps d' [= <-] _ k'. rewrite lookup_union. by destruct (_ !! k'), (d !! k').
  - intros d k v. unfold map_items. rewrite merge_sort_Permutation. apply elem_of_map_to_list.
  - intros d. unfold map_items. pose proof (StronglySorted_merge_sort pair_le (map_to_list d)) as H.
    induction H as [|p l Hl IH Hp]; simpl; constructor; [done|].
    by apply Forall_fmap.
  - intros d. unfold map_items. rewrite merge_sort_Permutation. apply NoDup_fst_map_to_list.
Qed.
End map_db.

(** ** Consequences of the laws *)
Section laws.
Context `{LevelDBLaws D}.

Lemma iter_dom d k : k ∈ (ldb_iter d).*1 ↔ is_Some (ldb_Get d k).
Proof.
  rewrite list_elem_of_fmap. split.
  - intros ([k' v] & -> & Hin). apply ldb_iter_Get in Hin. eauto.
  - intros [v Hv]. exists (k, v). by rewrite ldb_iter_Get.
Qed.

(** Equal domains have equally many keys. *)
Lemma iter_length_ext d d' :
  (∀ k, is_Some (ldb_Get d k) ↔ is_Some (ldb_Get d' k)) → zlen (ldb_iter d) = zlen (ldb_iter d').
Proof.
  intros Hk. assert ((ldb_iter d).*1 ≡ₚ (ldb_iter d').*1) as Hp.
  { apply NoDup_Permutation; [apply ldb_iter_nodup|apply ldb_iter_nodup|].
    intros k. by rewrite !iter_dom. }
  apply Permutation_length in Hp. rewrite !length_fmap in Hp. unfold zlen. lia.
Qed.

Lemma iter_length_add d d' k :
  ldb_Get d k = None → (∀ k', is_Some (ldb_Get d' k') ↔ k' = k ∨ is_Some (ldb_Get d k')) →
  zlen (ldb_iter d') = zlen (ldb_iter d) + 1.
Proof.
  intros Hn Hk. assert ((ldb_iter d').*1 ≡ₚ k :: (ldb_iter d).*1) as Hp.
  { apply NoDup_Permutation; [apply ldb_iter_nodup| |].
    - apply NoDup_cons. split; [|apply ldb_iter_nodup]. rewrite iter_dom, Hn. by intros [].
    - intros k'. by rewrite elem_of_cons, !iter_dom. }
  apply Permutation_length in Hp. simpl in Hp. rewrite !length_fmap in Hp. unfold zlen. lia.
Qed.
End laws.
