(* ===== verification/Db.v ===== *)
(** * The store (gent_db.h, gent_db.cpp)

    [GentDb] keeps the values in one LevelDB database and a text record
    (type, expiry time, store time) for each key in a second one, counts the
    keys and saves the count to a file now and then. The current time is an
    argument of the operations that call [time]. *)

From stdpp Require Import sorting.
From S2P Require Import Prelude Cstd LevelDb.

Module Db.

Definition MAX_WRITE_CLEAR : Z := 50000.
(** [LONG_MAX] *)
Definition REDIS_EXPIRE_TIME : Z := 2 ^ 63 - 1.
Definition TY_STRING : Z := 1.

Record metaData := { datatype : Z; expire : Z; store_time : Z }.

(** ** The text record of a key *)

Definition MetaSerialize (datatype expire now : Z) : bytes :=
  if (expire =? 0) || (REDIS_EXPIRE_TIME <? expire)
  then snprintf 100 (sdec datatype ++ str "*0000000000" ++ udec now)
  else snprintf 100 (sdec datatype ++ str "+" ++ udec expire ++ udec now).

Definition MetaUnserialize (s : bytes) : result metaData :=
  d ← substr s 0 1;
  m ← substr s 1 1;
  e ← (if bool_decide (m = str "*") then mret 0 else x ← substr s 2 10; mret (strtoull x));
  t ← substr s 12 10;
  mret {| datatype := atoi d; expire := e; store_time := strtoull t |}.

Section db.
Context `{LevelDB D}.
(** Can the file NUMBER be written? *)
Context (file_ok : bool).

Record GentDb := {
  db : D;
  meta_db : D;
  key_num : Z;
  write_num : Z;
  trigger_num_save : Z;
  is_clear : bool;
  (** the contents of the file NUMBER *)
  num_file : option bytes;
  (** how many clearing threads [StartClear] has started *)
  clear_started : Z
}.

Definition SetNum (num : Z) (d : GentDb) : GentDb :=
  if trigger_num_save d <? 100 then d
  else if negb file_ok then d
  else
    let buf := snprintf 100 (udec num) in
    {| db := db d; meta_db := meta_db d; key_num := key_num d; write_num := write_num d;
       trigger_num_save := 0; is_clear := is_clear d;
       num_file := Some (buf ++ replicate (100 - length buf) 0); clear_started := clear_started d |}.

Definition LoadNum (d : GentDb) : GentDb :=
  match num_file d with
  | Some f =>
      if 100 <=? zlen f then
        {| db := db d; meta_db := meta_db d; key_num := u64 (atoll (take 100 f));
           write_num := write_num d; trigger_num_save := trigger_num_save d;
           is_clear := is_clear d; num_file := num_file d; clear_started := clear_started d |}
      else d
  | None => d
  end.

(** [Get(key, value)]: a key past its expiry time is not found. *)
Definition Get (now : Z) (key : bytes) (d : GentDb) : result (option bytes) :=
  match ldb_Get (meta_db d) key with
  | Some m =>
      dat ← MetaUnserialize m;
      if negb (expire dat =? 0) && (expire dat <? now) then mret None
      else mret (ldb_Get (db d) key)
  | None => mret (ldb_Get (db d) key)
  end.

(** [Get(key, value, expire)], which the replication uses: no expiry check. *)
Definition Get_expire (key : bytes) (d : GentDb) : result (option bytes * Z) :=
  e ← match ldb_Get (meta_db d) key with
      | Some m => dat ← MetaUnserialize m; mret (expire dat)
      | None => mret 0
      end;
  mret (ldb_Get (db d) key, e).

(** The common part of the two [Put]s, after the lock. *)
Definition Put_value (now : Z) (key value : bytes) (expire datatype : Z) (d : GentDb) : bool * GentDb :=
  let keyStatus := ldb_Get (meta_db d) key in
  let '(ok, db') := ldb_Put (db d) key value in
  let d1 := {| db := db'; meta_db := meta_db d; key_num := key_num d; write_num := write_num d;
               trigger_num_save := trigger_num_save d; is_clear := is_clear d;
               num_file := num_file d; clear_started := clear_started d |} in
  let d2 :=
    match keyStatus with
    | Some _ => d1
    | None =>
        let n := u64 (key_num d1 + 1) in
        SetNum n {| db := db d1; meta_db := meta_db d1; key_num := n; write_num := write_num d1;
                    trigger_num_save := trigger_num_save d1; is_clear := is_clear d1;
                    num_file := num_file d1; clear_started := clear_started d1 |}
    end in
  let meta' := if ok then (ldb_Put (meta_db d2) key (MetaSerialize datatype expire now)).2
               else meta_db d2 in
  (ok, {| db := db d2; meta_db := meta'; key_num := key_num d2;
          write_num := u64 (write_num d2 + 1);
          trigger_num_save := i32 (trigger_num_save d2 + 1); is_clear := is_clear d2;
          num_file := num_file d2; clear_started := clear_started d2 |}).

(** [Put(key, value, expire, datatype)]. *)
Definition Put_string (now : Z) (key value : bytes) (expire datatype : Z) (d : GentDb) : bool * GentDb :=
  Put_value now key value expire datatype d.

(** [Put(key, val, len, expire, datatype)]: the [len] bytes at [val], the
    [c_str()] of a string, so a NUL follows them; after many writes it starts a thread that clears expired keys. *)
Definition Put (now : Z) (key val : bytes) (len expire datatype : Z) (d : GentDb) : result (bool * GentDb) :=
  let d0 :=
    if (MAX_WRITE_CLEAR <? write_num d) && negb (is_clear d) then
      {| db := db d; meta_db := meta_db d; key_num := key_num d; write_num := 0;
         trigger_num_save := trigger_num_save d; is_clear := is_clear d;
         num_file := num_file d; clear_started := clear_started d + 1 |}
    else d in
  if zlen val + 1 <? len then Fault OutOfBounds
  else mret (Put_value now key (take (Z.to_nat len) (val ++ [0])) expire datatype d0).

(** [BatchPut(data)] of a [std::map], in key order. *)
Fixpoint BatchPut_meta (now : Z) (data : list (bytes * bytes)) (d : GentDb) : GentDb :=
  match data with
  | [] => d
  | (k, _) :: data =>
      BatchPut_meta now data
        {| db := db d; meta_db := (ldb_Put (meta_db d) k (MetaSerialize 0 0 now)).2;
           key_num := key_num d; write_num := u64 (write_num d + 1);
           trigger_num_save := i32 (trigger_num_save d + 1); is_clear := is_clear d;
           num_file := num_file d; clear_started := clear_started d |}
  end.

Definition BatchPut (now : Z) (data : list (bytes * bytes)) (d : GentDb) : bool * GentDb :=
  let '(ok, db') := ldb_Write (db d) data in
  let d1 := {| db := db'; meta_db := meta_db d; key_num := key_num d; write_num := write_num d;
               trigger_num_save := trigger_num_save d; is_clear := is_clear d;
               num_file := num_file d; clear_started := clear_started d |} in
  if ok then
    let d2 := BatchPut_meta now data d1 in
    let n := u64 (key_num d2 + zlen data) in
    (ok, SetNum n {| db := db d2; meta_db := meta_db d2; key_num := n; write_num := write_num d2;
                     trigger_num_save := trigger_num_save d2; is_clear := is_clear d2;
                     num_file := num_file d2; clear_started := clear_started d2 |})
  else (ok, d1).

Definition Del (key : bytes) (d : GentDb) : bool * GentDb :=
  let '(ok, db') := ldb_Delete (db d) key in
  let d1 := {| db := db'; meta_db := meta_db d; key_num := key_num d; write_num := write_num d;
               trigger_num_save := trigger_num_save d; is_clear := is_clear d;
               num_file := num_file d; clear_started := clear_started d |} in
  let d2 :=
    if (0 <? key_num d1) && ok then
      let n := u64 (key_num d1 - 1) in
      SetNum n {| db := db d1; meta_db := meta_db d1; key_num := n; write_num := write_num d1;
                  trigger_num_save := trigger_num_save d1; is_clear := is_clear d1;
                  num_file := num_file d1; clear_started := clear_started d1 |}
    else d1 in
  if ok then
    (ok, {| db := db d2; meta_db := (ldb_Delete (meta_db d2) key).2; key_num := key_num d2;
            write_num := write_num d2; trigger_num_save := trigger_num_save d2;
            is_clear := is_clear d2; num_file := num_file d2; clear_started := clear_started d2 |})
  else (ok, d2).

(** [Ttl(key, expire)]: the returned flag and the expiry time. *)
Definition Ttl (key : bytes) (d : GentDb) : result (bool * Z) :=
  match ldb_Get (meta_db d) key with
  | Some m => dat ← MetaUnserialize m; mret (true, expire dat)
  | None => mret (bool_decide (is_Some (ldb_Get (db d) key)), 0)
  end.

Definition TotalSize (d : GentDb) : Z :=
  match head (ldb_iter (db d)), last (ldb_iter (db d)) with
  | Some first, Some end_ => ldb_approx_size (db d) first.1 end_.1
  | _, _ => 0
  end.

(** [Random]: [rnd] is what [rand()] returns. The loop stops at the first
    index that is at least [ni]. *)
Fixpoint Random_loop (l : list (bytes * bytes)) (i ni : Z) : bytes :=
  match l with
  | [] => []
  | kv :: l => if ni <=? i then kv.1 else Random_loop l (i + 1) ni
  end.

Definition Random (rnd : Z) (d : GentDb) : bool * bytes :=
  if key_num d =? 0 then (false, [])
  else
    let max := if key_num d <? 1000 then key_num d else 1000 in
    (true, Random_loop (ldb_iter (meta_db d)) 1 (rnd `mod` max)).

(** The loop of [Count]: [first] is set once a key with the prefix was seen. *)
Fixpoint Count_loop (pre : bytes) (l : list (bytes * bytes)) (first : bool) (num : Z) : Z :=
  match l with
  | [] => num
  | kv :: l =>
      if negb (bool_decide (pre = [])) then
        if negb (has_prefix pre kv.1) then
          if first then num else Count_loop pre l first num
        else Count_loop pre l true (u64 (num + 1))
      else Count_loop pre l first (u64 (num + 1))
  end.

Definition Count (pre : bytes) (d : GentDb) : Z * GentDb :=
  if bool_decide (pre = []) && (0 <? key_num d) then (key_num d, d)
  else
    let num := Count_loop pre (ldb_iter (meta_db d)) false 0 in
    if bool_decide (pre = []) && (key_num d =? 0) then
      (num, SetNum num {| db := db d; meta_db := meta_db d; key_num := num; write_num := write_num d;
                          trigger_num_save := trigger_num_save d; is_clear := is_clear d;
                          num_file := num_file d; clear_started := clear_started d |})
    else (num, d).

(** The loop of [Keys]: the keys it appends to [outvec]. *)
Fixpoint Keys_loop (pre : bytes) (l : list (bytes * bytes)) (first : bool) : list bytes :=
  match l with
  | [] => []
  | kv :: l =>
      if negb (bool_decide (pre = str "*")) then
        if negb (has_prefix pre kv.1) then
          if negb first then [] else Keys_loop pre l first
        else kv.1 :: Keys_loop pre l false
      else kv.1 :: Keys_loop pre l first
  end.

Definition Keys (pre : bytes) (d : GentDb) : list bytes := Keys_loop pre (ldb_iter (meta_db d)) true.

(** [ClearExpireKey] walks a snapshot of the records while it deletes. *)
Fixpoint ClearExpire_loop (now : Z) (l : list (bytes * bytes)) (num : Z) (d : GentDb) : result (Z * GentDb) :=
  match l with
  | [] => mret (num, d)
  | (k, m) :: l =>
      dat ← MetaUnserialize m;
      if expire dat =? 0 then ClearExpire_loop now l num d
      else if now <? expire dat then ClearExpire_loop now l num d
      else ClearExpire_loop now l (u64 (num + 1)) (Del k d).2
  end.

Definition set_is_clear (b : bool) (d : GentDb) : GentDb :=
  {| db := db d; meta_db := meta_db d; key_num := key_num d; write_num := write_num d;
     trigger_num_save := trigger_num_save d; is_clear := b;
     num_file := num_file d; clear_started := clear_started d |}.

Definition ClearExpireKey (now : Z) (d : GentDb) : result (Z * GentDb) :=
  let d1 := set_is_clear true d in
  r ← ClearExpire_loop now (ldb_iter (meta_db d1)) 0 d1;
  mret (r.1, set_is_clear false r.2).

(** The constructor, over two open databases. *)
Definition GentDb_new (d m : D) : GentDb :=
  {| db := d; meta_db := m; key_num := 0; write_num := 0; trigger_num_save := 0;
     is_clear := false; num_file := None; clear_started := 0 |}.

(** ** The text record *)

Lemma substr_cut a b c (s : bytes) pos n :
  s = a ++ b ++ c → pos = zlen a → n = zlen b → substr s pos n = Ok b.
Proof. intros ->. apply substr_app. Qed.

Lemma udec_len n (k : nat) :
  (0 < k)%nat → 10 ^ Z.of_nat k ≤ n < 10 ^ Z.of_nat (S k) → length (udec n) = S k.
Proof.
  intros Hk [Hl Hu]. pose proof (udec_len_ge n k Hl). pose proof (udec_len_le n (S k)).
  assert (0 < 10 ^ Z.of_nat k) by (apply Z.pow_pos_nonneg; lia). lia.
Qed.

Lemma udec_len10 n : 10 ^ 9 ≤ n < 10 ^ 10 → zlen (udec n) = 10.
Proof. intros Hn. unfold zlen. rewrite (udec_len n 9); [done|lia|]. simpl. lia. Qed.

Lemma udec_digit n : 0 ≤ n < 10 → udec n = [48 + n].
Proof.
  intros Hn. unfold udec. cbn [digits_fuel]. destruct (Z.ltb_spec n 10); [|lia].
  by rewrite Z.mod_small by lia.
Qed.

Lemma atoi_udec_whole n : 0 ≤ n < 2 ^ 31 → atoi (udec n) = n.
Proof. intros. rewrite <- (app_nil_r (udec n)). by apply atoi_udec. Qed.
Lemma strtoull_udec_whole n : 0 ≤ n < 2 ^ 64 → strtoull (udec n) = n.
Proof. intros. rewrite <- (app_nil_r (udec n)). by apply strtoull_udec. Qed.

(** A time with ten decimal digits: 2001-09-09 to 2286-11-20. *)
Definition ten_digits (t : Z) : Prop := 10 ^ 9 ≤ t < 10 ^ 10.

Lemma record_unserialize dt mark e t :
  0 ≤ dt < 10 → zlen e = 10 → ten_digits t →
  MetaUnserialize (snprintf 100 (sdec dt ++ [mark] ++ e ++ udec t)) =
    Ok {| datatype := dt; expire := if mark =? 42 then 0 else strtoull e; store_time := t |}.
Proof.
  intros Hdt He Ht. pose proof (udec_len10 t Ht) as Hl. unfold ten_digits in Ht.
  assert (sdec dt = [48 + dt]) as Hd.
  { unfold sdec. destruct (Z.ltb_spec dt 0); [lia|]. by apply udec_digit. }
  assert (snprintf 100 (sdec dt ++ [mark] ++ e ++ udec t) = sdec dt ++ [mark] ++ e ++ udec t) as ->.
  { unfold snprintf. rewrite Hd. apply take_ge. unfold zlen in *. rewrite !length_app. simpl. lia. }
  unfold MetaUnserialize. rewrite Hd.
  rewrite (substr_cut [] [48 + dt] ([mark] ++ e ++ udec t) _ 0 1) by done. cbn [mbind result_bind].
  rewrite (substr_cut [48 + dt] [mark] (e ++ udec t) _ 1 1) by done. cbn [mbind result_bind].
  rewrite (substr_cut ([48 + dt] ++ [mark]) e (udec t) _ 2 10) by done.
  rewrite (substr_cut ([48 + dt] ++ [mark] ++ e) (udec t) [] _ 12 10);
    [|by rewrite app_nil_r, <- !app_assoc|rewrite !zlen_app, He; done|done].
  cbn [mbind result_bind].
  assert (atoi [48 + dt] = dt) as Ha.
  { rewrite <- udec_digit by done. apply atoi_udec_whole. lia. }
  assert (strtoull (udec t) = t) as Hst by (apply strtoull_udec_whole; lia).
  destruct (Z.eqb_spec mark 42) as [->|Hm].
  - rewrite bool_decide_eq_true_2 by done. cbn [mbind result_bind mret result_ret].
    by rewrite Ha, Hst.
  - rewrite bool_decide_eq_false_2 by (change (str "*") with [42]; congruence).
    cbn [mbind result_bind mret result_ret]. by rewrite Ha, Hst.
Qed.

(** The expiry times the store accepts: none, or a time with ten digits. *)
Definition expire_ok (e : Z) : Prop := e = 0 ∨ ten_digits e.

Lemma Meta_read_back dt e now :
  0 ≤ dt < 10 → expire_ok e → ten_digits now →
  MetaUnserialize (MetaSerialize dt e now) = Ok {| datatype := dt; expire := e; store_time := now |}.
Proof.
  intros Hdt He Hnow. unfold MetaSerialize, REDIS_EXPIRE_TIME. destruct He as [->|He].
  - simpl orb. cbv iota. change (str "*0000000000") with ([42] ++ replicate 10 48).
    rewrite <- app_assoc. by apply record_unserialize.
  - pose proof (udec_len10 e He). unfold ten_digits in He.
    destruct (Z.eqb_spec e 0); [lia|]. destruct (Z.ltb_spec (2 ^ 63 - 1) e); [lia|]. simpl orb. cbv iota.
    change (str "+") with [43]. rewrite record_unserialize by done.
    simpl. by rewrite strtoull_udec_whole by lia.
Qed.

(** reading back the record that was written gives the type, the expiry
    time and the store time, for one-digit types and ten-digit times. *)
Theorem Meta_roundtrip dt e now :
  0 ≤ dt < 10 → expire_ok e → ten_digits now →
  MetaUnserialize (MetaSerialize dt e now) = Ok {| datatype := dt; expire := e; store_time := now |}.
Proof. apply Meta_read_back. Qed.

(** ** Reading what was written *)
Context `{!LevelDBLaws D}.

(** [SetNum] touches the file and its trigger only. *)
Lemma SetNum_fields n d :
  db (SetNum n d) = db d ∧ meta_db (SetNum n d) = meta_db d ∧ key_num (SetNum n d) = key_num d ∧
  is_clear (SetNum n d) = is_clear d.
Proof. unfold SetNum. by repeat case_match. Qed.

(** Both databases accept the write of [key]. *)
Definition put_ok (key value rec : bytes) (d : GentDb) : Prop :=
  (ldb_Put (db d) key value).1 = true ∧ (ldb_Put (meta_db d) key rec).1 = true.

Lemma Put_value_Get now key value e dt d :
  put_ok key value (MetaSerialize dt e now) d →
  let r := Put_value now key value e dt d in
  r.1 = true ∧
  (∀ k, ldb_Get (db r.2) k = if decide (key = k) then Some value else ldb_Get (db d) k) ∧
  (∀ k, ldb_Get (meta_db r.2) k =
          if decide (key = k) then Some (MetaSerialize dt e now) else ldb_Get (meta_db d) k) ∧
  key_num r.2 = match ldb_Get (meta_db d) key with Some _ => key_num d | None => u64 (key_num d + 1) end.
Proof.
  intros [H1 H2]. unfold Put_value.
  destruct (ldb_Put (db d) key value) as [ok db'] eqn:E1. simpl in H1. subst ok.
  destruct (ldb_Put (meta_db d) key (MetaSerialize dt e now)) as [ok' m'] eqn:E2.
  simpl in H2. subst ok'.
  pose proof (ldb_Put_Get _ _ _ _ E1) as G1. pose proof (ldb_Put_Get _ _ _ _ E2) as G2.
  destruct (ldb_Get (meta_db d) key) eqn:E3; simpl.
  - rewrite E2. simpl. auto.
  - destruct (SetNum_fields (u64 (key_num d + 1))
      {| db := db'; meta_db := meta_db d; key_num := u64 (key_num d + 1); write_num := write_num d;
         trigger_num_save := trigger_num_save d; is_clear := is_clear d;
         num_file := num_file d; clear_started := clear_started d |}) as (-> & -> & -> & _).
    simpl. rewrite E2. simpl. auto.
Qed.

Lemma Put_Get now now' key val len e dt d :
  0 ≤ len ≤ zlen val →
  put_ok key (take (Z.to_nat len) val) (MetaSerialize dt e now) d →
  0 ≤ dt < 10 → expire_ok e → ten_digits now →
  ∃ d', Put now key val len e dt d = Ok (true, d') ∧
        Get now' key d' = Ok (if negb (e =? 0) && (e <? now') then None
                              else Some (take (Z.to_nat len) val)) ∧
        ∀ k, k ≠ key → Get now' k d' = Get now' k d.
Proof.
  intros Hlen Hok Hdt He Hnow. unfold Put.
  destruct (Z.ltb_spec (zlen val + 1) len); [lia|].
  rewrite take_app_le by (unfold zlen in Hlen; lia).
  set (value := take _ val) in *. set (d0 := if _ && _ then _ else d).
  assert (db d0 = db d ∧ meta_db d0 = meta_db d ∧ key_num d0 = key_num d) as (Hd & Hm & Hk).
  { subst d0. by case_match. }
  assert (put_ok key value (MetaSerialize dt e now) d0) as Hok0.
  { unfold put_ok. by rewrite Hd, Hm. }
  destruct (Put_value_Get now key value e dt d0 Hok0) as (H1 & H2 & H3 & _).
  destruct (Put_value now key value e dt d0) as [ok d']. simpl in *. subst ok.
  exists d'. split; [done|]. split.
  - unfold Get. rewrite H2, H3, decide_True by done. rewrite Meta_read_back by done.
    cbn [mbind result_bind expire]. rewrite decide_True by done.
    by destruct (negb (e =? 0) && (e <? now')).
  - intros k Hne. unfold Get. rewrite H2, H3, Hd, Hm. by rewrite !decide_False by congruence.
Qed.

(** after a successful [Put] of the bytes of [value], [Get] returns them
    until the expiry time has passed (always, when there is none) and nothing
    afterwards; the other keys read as before. *)
Theorem Put_then_Get now now' key value e dt d :
  put_ok key value (MetaSerialize dt e now) d →
  0 ≤ dt < 10 → expire_ok e → ten_digits now →
  ∃ d', Put now key value (zlen value) e dt d = Ok (true, d') ∧
        Get now' key d' = Ok (if negb (e =? 0) && (e <? now') then None else Some value) ∧
        ∀ k, k ≠ key → Get now' k d' = Get now' k d.
Proof.
  intros Hok Hdt He Hnow. pose proof (Put_Get now now' key value (zlen value) e dt d) as P.
  rewrite to_nat_zlen, (take_ge value) in P by done. apply P; try done. zlia.
Qed.

(** ** The number of keys *)

(** Every value has a record and conversely, and [key_num] counts them. *)
Definition counted (d : GentDb) : Prop :=
  (∀ k, is_Some (ldb_Get (db d) k) ↔ is_Some (ldb_Get (meta_db d) k)) ∧
  key_num d = zlen (ldb_iter (meta_db d)) ∧ zlen (ldb_iter (meta_db d)) < 2 ^ 64 - 1.

Lemma Put_counted now key value len e dt d ok d' :
  put_ok key (take (Z.to_nat len) (value ++ [0])) (MetaSerialize dt e now) d →
  counted d → zlen (ldb_iter (meta_db d)) < 2 ^ 64 - 2 →
  Put now key value len e dt d = Ok (ok, d') → counted d'.
Proof.
  intros Hok (Hdom & Hnum & Hb) Hb' HP. unfold Put in HP. case_match; [done|].
  set (d0 := if _ && _ then _ else d) in HP.
  assert (db d0 = db d ∧ meta_db d0 = meta_db d ∧ key_num d0 = key_num d) as (Hd & Hm & Hk).
  { subst d0. by case_match. }
  set (v := take _ _) in *.
  destruct (Put_value_Get now key v e dt d0) as (H1 & H2 & H3 & H4).
  { unfold put_ok. by rewrite Hd, Hm. }
  injection HP as HP. rewrite HP in *. simpl in *. rewrite Hd, Hm, Hk in *.
  assert (∀ k, is_Some (ldb_Get (meta_db d') k) ↔ k = key ∨ is_Some (ldb_Get (meta_db d) k)) as Hmd.
  { intros k. rewrite H3. case_decide; naive_solver. }
  split.
  { intros k. rewrite H2, H3. case_decide; [naive_solver|apply Hdom]. }
  destruct (ldb_Get (meta_db d) key) as [m|] eqn:E.
  - assert (zlen (ldb_iter (meta_db d')) = zlen (ldb_iter (meta_db d))) as Hl.
    { symmetry. apply iter_length_ext. intros k. rewrite Hmd. naive_solver. }
    rewrite H4. lia.
  - rewrite (iter_length_add (meta_db d) _ key), H4 by done.
    rewrite Hnum. pose proof (zlen_nonneg (ldb_iter (meta_db d))). rewrite u64_small; lia.
Qed.

(** Both databases accept the deletion of [key]. *)
Definition del_ok (key : bytes) (d : GentDb) : Prop :=
  (ldb_Delete (db d) key).1 = true ∧ (ldb_Delete (meta_db d) key).1 = true.

Lemma Del_Get key d :
  del_ok key d →
  let r := Del key d in
  r.1 = true ∧
  (∀ k, ldb_Get (db r.2) k = if decide (key = k) then None else ldb_Get (db d) k) ∧
  (∀ k, ldb_Get (meta_db r.2) k = if decide (key = k) then None else ldb_Get (meta_db d) k) ∧
  key_num r.2 = if 0 <? key_num d then u64 (key_num d - 1) else key_num d.
Proof.
  intros [H1 H2]. unfold Del.
  destruct (ldb_Delete (db d) key) as [ok db'] eqn:E1. simpl in H1. subst ok.
  destruct (ldb_Delete (meta_db d) key) as [ok' m'] eqn:E2. simpl in H2. subst ok'.
  pose proof (ldb_Delete_Get _ _ _ E1) as G1. pose proof (ldb_Delete_Get _ _ _ E2) as G2.
  simpl. rewrite andb_true_r. destruct (0 <? key_num d); simpl.
  - destruct (SetNum_fields (u64 (key_num d - 1))
      {| db := db'; meta_db := meta_db d; key_num := u64 (key_num d - 1); write_num := write_num d;
         trigger_num_save := trigger_num_save d; is_clear := is_clear d;
         num_file := num_file d; clear_started := clear_started d |}) as (-> & -> & -> & _).
    simpl. rewrite E2. simpl. auto.
  - rewrite E2. simpl. auto.
Qed.

Lemma Del_counted key d :
  del_ok key d → is_Some (ldb_Get (meta_db d) key) → counted d → counted (Del key d).2.
Proof.
  intros Hok Hin (Hdom & Hnum & Hb). destruct (Del_Get key d Hok) as (_ & H2 & H3 & H4).
  set (d' := (Del key d).2) in *. clearbody d'. split.
  { intros k. rewrite H2, H3. case_decide; [|apply Hdom]. split; by intros []. }
  assert (zlen (ldb_iter (meta_db d)) = zlen (ldb_iter (meta_db d')) + 1) as Hl.
  { apply (iter_length_add _ _ key); [by rewrite H3, decide_True|].
    intros k. rewrite H3. case_decide; naive_solver. }
  pose proof (zlen_nonneg (ldb_iter (meta_db d'))). rewrite H4.
  destruct (Z.ltb_spec 0 (key_num d)); [|lia]. rewrite u64_small; lia.
Qed.

(** [key_num] counts the stored keys: a successful [Put], of a new or of an
    existing key, and a successful [Del] of a stored key preserve it, and
    every value keeps exactly one record. *)
Theorem key_num_counts now key value len e dt d :
  counted d → zlen (ldb_iter (meta_db d)) < 2 ^ 64 - 2 →
  (∀ ok d', put_ok key (take (Z.to_nat len) (value ++ [0])) (MetaSerialize dt e now) d →
     Put now key value len e dt d = Ok (ok, d') → counted d') ∧
  (del_ok key d → is_Some (ldb_Get (meta_db d) key) → counted (Del key d).2).
Proof.
  intros Hc Hb. split.
  - intros ok d' Hok. by apply Put_counted.
  - intros Hok Hin. by apply Del_counted.
Qed.

(** ** Listing keys *)

(** The loop in a sorted snapshot: once a key with the prefix was seen and one
    without it follows, no later key has it. *)
Lemma Keys_loop_filter pre l first :
  pre ≠ str "*" → StronglySorted bytes_le l.*1 →
  (first = false → ∃ a, has_prefix pre a = true ∧ Forall (bytes_le a) l.*1) →
  Keys_loop pre l first = filter (λ k, has_prefix pre k = true) l.*1.
Proof.
  intros Hpre. revert first. induction l as [|kv l IH]; intros first Hs Hf; simpl; [done|].
  rewrite (bool_decide_eq_false_2 (pre = str "*")) by done. cbn [negb].
  simpl in Hs. apply StronglySorted_inv in Hs as [Hs Hle].
  destruct (has_prefix pre kv.1) eqn:E; cbn [negb].
  - rewrite filter_cons_True by done. f_equal. apply IH; [done|]. intros _. by exists kv.1.
  - rewrite filter_cons_False by congruence. destruct first; cbn [negb].
    + by apply IH.
    + destruct (Hf eq_refl) as (a & Ha & Hal). simpl in Hal. apply Forall_cons in Hal as [Hak _].
      symmetry. clear IH Hs. induction Hle as [|c l' Hc _ IHl]; [done|].
      rewrite filter_cons_False; [done|]. intros Hpc.
      rewrite (prefix_convex pre a kv.1 c) in E; done.
Qed.

(** [Keys] lists exactly the stored keys that start with the argument, in
    order, each once, although its loop stops early; ["*"] lists all. *)
Theorem Keys_exact pre d :
  let all := (ldb_iter (meta_db d)).*1 in
  Keys pre d = (if bool_decide (pre = str "*") then all
                else filter (λ k, has_prefix pre k = true) all) ∧
  NoDup (Keys pre d) ∧ StronglySorted bytes_le (Keys pre d).
Proof.
  cbv zeta. assert (Keys pre d = if bool_decide (pre = str "*") then (ldb_iter (meta_db d)).*1
    else filter (λ k, has_prefix pre k = true) (ldb_iter (meta_db d)).*1) as ->.
  { unfold Keys. case_bool_decide as Hp.
    - subst pre. generalize (ldb_iter (meta_db d)). intros l. induction l; simpl; by f_equal.
    - apply Keys_loop_filter; [done|apply ldb_iter_sorted|done]. }
  pose proof (ldb_iter_nodup (meta_db d)) as Hn. pose proof (ldb_iter_sorted (meta_db d)) as Hs.
  split; [done|]. case_bool_decide; [done|]. split; [by apply NoDup_filter|].
  clear Hn. induction Hs as [|k l Hl IH Hk]; [constructor|].
  destruct (decide (has_prefix pre k = true)).
  - rewrite filter_cons_True by done. constructor; [done|].
    apply Forall_forall. intros x Hx. apply list_elem_of_filter in Hx as [_ Hx].
    by eapply Forall_forall in Hk.
  - by rewrite filter_cons_False.
Qed.

(** ** Clearing expired keys *)

Definition expired (now : Z) (m : bytes) : bool :=
  match MetaUnserialize m with
  | Ok dat => negb (expire dat =? 0) && (expire dat <=? now)
  | Fault _ => false
  end.

(** The keys a pass over [l] deletes. *)
Definition expired_keys (now : Z) (l : list (bytes * bytes)) : list bytes :=
  (filter (λ kv, expired now kv.2 = true) l).*1.

Lemma ClearExpire_loop_spec now l num d :
  (∀ k d', (ldb_Delete d' k).1 = true) →
  (∀ kv, kv ∈ l → ∃ dat, MetaUnserialize kv.2 = Ok dat) →
  NoDup l.*1 → (∀ kv, kv ∈ l → is_Some (ldb_Get (meta_db d) kv.1)) → counted d →
  0 ≤ num → num + zlen l < 2 ^ 64 →
  ∃ d', ClearExpire_loop now l num d = Ok (num + zlen (expired_keys now l), d') ∧ counted d' ∧
    ∀ k, (k ∈ expired_keys now l → ldb_Get (db d') k = None ∧ ldb_Get (meta_db d') k = None) ∧
         (k ∉ expired_keys now l →
            ldb_Get (db d') k = ldb_Get (db d) k ∧ ldb_Get (meta_db d') k = ldb_Get (meta_db d) k).
Proof.
  intros Hdel. revert num d. induction l as [|[k m] l IH]; intros num d Hp Hnd Hin Hc H0 Hb.
  - exists d. unfold expired_keys. simpl. change (zlen []) with 0. rewrite Z.add_0_r.
    split; [done|]. split; [done|]. intros k. split; [by intros ?%elem_of_nil|done].
  - destruct (Hp (k, m) (list_elem_of_here _ _)) as [dat Hdat]. simpl in Hdat.
    apply NoDup_cons in Hnd as [Hk Hnd]. rewrite zlen_cons in Hb.
    simpl. rewrite Hdat. cbn [mbind result_bind].
    assert (∀ kv, kv ∈ l → ∃ dat, MetaUnserialize kv.2 = Ok dat) as Hp'.
    { intros kv Hkv. apply Hp. by apply list_elem_of_further. }
    destruct (expired now m) eqn:Ex.
    + assert (expired_keys now ((k, m) :: l) = k :: expired_keys now l) as Hek.
      { unfold expired_keys. by rewrite filter_cons_True. }
      unfold expired in Ex. rewrite Hdat in Ex.
      destruct (Z.eqb_spec (expire dat) 0); [done|]. destruct (Z.ltb_spec now (expire dat)); [simpl in Ex; lia|].
      rewrite Hek, zlen_cons.
      assert (del_ok k d) as Hok by (split; apply Hdel).
      destruct (Del_Get k d Hok) as (_ & H2 & H3 & _).
      destruct (IH (u64 (num + 1)) (Del k d).2) as (d' & HR & Hc' & Hk').
      * done.
      * done.
      * intros kv Hkv. rewrite H3, decide_False; [apply Hin; by apply list_elem_of_further|].
        intros ->. destruct Hk. apply list_elem_of_fmap. by exists kv.
      * apply Del_counted; [done| |done]. apply (Hin (k, m)). apply list_elem_of_here.
      * rewrite u64_small; zlia.
      * rewrite u64_small; zlia.
      * exists d'. rewrite HR, u64_small by zlia. split; [do 2 f_equal; lia|]. split; [done|].
        intros k0. destruct (Hk' k0) as [Ha Hb']. rewrite elem_of_cons. split.
        -- intros [->|Hin']; [|by apply Ha]. destruct (decide (k ∈ expired_keys now l)) as [Hy|Hy]; [by apply Ha|].
           destruct (Hb' Hy) as [-> ->]. rewrite H2, H3. by rewrite !decide_True by done.
        -- intros Hn. destruct (Hb' ltac:(tauto)) as [-> ->].
           rewrite H2, H3. by rewrite !decide_False by (intros ->; tauto).
    + assert (expired_keys now ((k, m) :: l) = expired_keys now l) as Hek.
      { unfold expired_keys. rewrite filter_cons_False; [done|]. simpl. congruence. }
      unfold expired in Ex. rewrite Hdat in Ex. rewrite Hek.
      assert (∃ d', ClearExpire_loop now l num d = Ok (num + zlen (expired_keys now l), d') ∧ counted d' ∧
        ∀ k, (k ∈ expired_keys now l → ldb_Get (db d') k = None ∧ ldb_Get (meta_db d') k = None) ∧
             (k ∉ expired_keys now l → ldb_Get (db d') k = ldb_Get (db d) k ∧
                ldb_Get (meta_db d') k = ldb_Get (meta_db d) k)) as HI.
      { apply IH; try done; [|lia]. intros kv Hkv. apply Hin. by apply list_elem_of_further. }
      destruct (Z.eqb_spec (expire dat) 0); [done|]. destruct (Z.ltb_spec now (expire dat)); [done|].
      simpl in Ex. lia.
Qed.

(** C37: when no deletion fails, [ClearExpireKey] deletes exactly the keys whose
    expiry time has come, reports how many, leaves the other keys and their
    records as they are, and keeps the count of keys right. *)
Theorem ClearExpireKey_exact now d :
  (∀ k d', (ldb_Delete d' k).1 = true) →
  (∀ kv, kv ∈ ldb_iter (meta_db d) → ∃ dat, MetaUnserialize kv.2 = Ok dat) →
  counted d →
  ∃ d', ClearExpireKey now d = Ok (zlen (expired_keys now (ldb_iter (meta_db d))), d') ∧ counted d' ∧
    ∀ k m, ldb_Get (meta_db d) k = Some m →
      (expired now m = true → ldb_Get (db d') k = None ∧ ldb_Get (meta_db d') k = None) ∧
      (expired now m = false → ldb_Get (db d') k = ldb_Get (db d) k ∧ ldb_Get (meta_db d') k = Some m).
Proof.
  intros Hdel Hp Hc. unfold ClearExpireKey. simpl.
  destruct (ClearExpire_loop_spec now (ldb_iter (meta_db d)) 0 (set_is_clear true d))
    as (d' & -> & Hc' & Hk); try done.
  - apply ldb_iter_nodup.
  - intros [k m] Hin. apply ldb_iter_Get in Hin. simpl. rewrite Hin. eauto.
  - destruct Hc as (_ & _ & Hb). lia.
  - exists (set_is_clear false d'). split; [done|]. split; [done|].
    intros k m Hm. simpl. destruct (Hk k) as [Ha Hb].
    assert (k ∈ expired_keys now (ldb_iter (meta_db d)) ↔ expired now m = true) as Hiff.
    { unfold expired_keys. rewrite list_elem_of_fmap. split.
      - intros ([k' m'] & -> & Hin). apply list_elem_of_filter in Hin as [Hx Hin].
        apply ldb_iter_Get in Hin. simpl in *. congruence.
      - intros Hx. exists (k, m). split; [done|]. apply list_elem_of_filter. split; [done|].
        by apply ldb_iter_Get. }
    split; intros Hx.
    + by apply Ha, Hiff.
    + destruct Hb as [-> ->]; [by rewrite Hiff, Hx|]. done.
Qed.
End db.
Arguments GentDb : clear implicits.

Lemma Meta_roundtrip_witness :
  MetaUnserialize (MetaSerialize TY_STRING 1700000060 1700000000) =
    Ok {| datatype := 1; expire := 1700000060; store_time := 1700000000 |}.
Proof. apply Meta_roundtrip; [done|right|]; split; done. Defined.

(** An empty store over finite maps. *)
Definition empty_db : GentDb (gmap bytes bytes) := GentDb_new ∅ ∅.

Lemma empty_db_counted : counted empty_db.
Proof.
  split; [|split; by vm_compute]. intros k. simpl. rewrite lookup_empty. done.
Qed.

Lemma Put_then_Get_witness :
  ∃ d', Put true 1700000000 (str "k") (str "v") 1 1700000060 TY_STRING empty_db = Ok (true, d') ∧
        Get 1700000060 (str "k") d' = Ok (Some (str "v")) ∧
        ∀ k, k ≠ str "k" → Get 1700000060 k d' = Get 1700000060 k empty_db.
Proof.
  refine (Put_then_Get true 1700000000 1700000060 (str "k") (str "v") 1700000060 TY_STRING empty_db _ _ _ _).
  - split; done.
  - done.
  - right. split; done.
  - split; done.
Defined.

Lemma key_num_counts_witness :
  match Put true 1700000000 (str "k") (str "v") 1 0 TY_STRING empty_db with
  | Ok (_, d') => counted d'
  | Fault _ => False
  end.
Proof.
  refine (proj1 (key_num_counts true 1700000000 (str "k") (str "v") 1 0 TY_STRING empty_db
    empty_db_counted _) _ _ _ eq_refl).
  - by vm_compute.
  - split; done.
Defined.

(** A store with one key that has expired and one that has not. *)
Definition two_keys : GentDb (gmap bytes bytes) :=
  (Put_string true 1700000000 (str "b") (str "w") 0 TY_STRING
    (Put_string true 1700000000 (str "a") (str "v") 1700000060 TY_STRING empty_db).2).2.

Lemma two_keys_counted : counted two_keys.
Proof.
  split; [|split; by vm_compute]. intros k. unfold ldb_Get, map_LevelDB.
  rewrite <- !elem_of_dom. assert (dom (db two_keys) = dom (meta_db two_keys)) as -> by (vm_compute; reflexivity).
  done.
Qed.

Lemma ClearExpireKey_exact_witness :
  ∃ d', ClearExpireKey true 1700000099 two_keys = Ok (1, d') ∧ counted d' ∧
    ∀ k m, ldb_Get (meta_db two_keys) k = Some m →
      (expired 1700000099 m = true → ldb_Get (db d') k = None ∧ ldb_Get (meta_db d') k = None) ∧
      (expired 1700000099 m = false →
         ldb_Get (db d') k = ldb_Get (db two_keys) k ∧ ldb_Get (meta_db d') k = Some m).
Proof.
  refine (ClearExpireKey_exact true 1700000099 two_keys _ _ two_keys_counted).
  - done.
  - intros kv Hin.
    assert (ldb_iter (meta_db two_keys) =
      [(str "a", MetaSerialize 1 1700000060 1700000000); (str "b", MetaSerialize 1 0 1700000000)]) as He
      by (vm_compute; reflexivity).
    rewrite He in Hin. apply elem_of_cons in Hin as [->|Hin].
    + eexists. vm_compute. reflexivity.
    + apply list_elem_of_singleton in Hin as ->. eexists. vm_compute. reflexivity.
Defined.

Lemma Keys_exact_witness :
  Keys (str "a") two_keys = [str "a"] ∧ NoDup (Keys (str "a") two_keys) ∧ StronglySorted bytes_le (Keys (str "a") two_keys).
Proof. exact (Keys_exact (str "a") two_keys). Defined.

(** [BatchPut] adds the size of the batch to [key_num] without looking
    which keys are new: storing one key twice counts two keys. *)
Theorem BatchPut_overcounts :
  let d1 := (BatchPut true 1700000000 [(str "k", str "v")] empty_db).2 in
  let d2 := (BatchPut true 1700000001 [(str "k", str "w")] d1).2 in
  key_num d2 = 2 ∧ Keys (str "*") d2 = [str "k"] ∧ ~ counted d2.
Proof.
  cbv zeta. split; [by vm_compute|]. split; [by vm_compute|].
  intros (_ & Hn & _). vm_compute in Hn. done.
Qed.
End Db.
