(* ===== verification/Redis.v ===== *)
(** * The Redis protocol of the server (gent_redis.h, gent_redis.cpp)

    [GentRedis] holds the state of one connection's current command. A
    request goes through [Process] (split into tokens, find the command,
    run its [Parser]), possibly [ContinueProcess] for a long [mset], and
    [Complete], which accesses the store and the replication manager and
    writes the reply. *)

From S2P Require Import Prelude Cstd LevelDb Db Config.

Module Redis.

(** The states of a connection (class [Status], gent_connect.h). *)
Inductive connst :=
  | CONN_READ | CONN_NREAD | CONN_WRITE | CONN_WAIT | CONN_CLOSE | CONN_DATA | CONN_CONREAD.

#[global] Instance connst_eq_dec : EqDecision connst.
Proof. solve_decision. Defined.

Definition REDIS_INFO : bytes := str "+OK".
Definition REDIS_ERROR : bytes := str "-ERR".
Definition REDIS_AUTH_REQ : bytes := str "NOAUTH Authentication required.".
Definition REDIS_AUTH_FAIL : bytes := str "invalid password".
Definition AUTH_REQ_FAIL : Z := -4.
Definition AUTH_FAIL : Z := -5.
Definition MGET_REQ : Z := -6.

(** [itemData::ADD] and [itemData::DEL]. *)
Definition ADD : Z := 0.
Definition DEL : Z := 1.
(** [GentRepMgr::CONTINUE]. *)
Definition CONTINUE : Z := 3.

(** What the commands use of the replication manager: the log of changes of
    the master side, and the slave side's status and acknowledgement text. *)
Class RepManager (R : Type) := {
  rep_Push : Z → bytes → R → R;
  rep_SlaveReply : Z → R → bytes;
  rep_SlaveSetStatus : Z → R → R;
  rep_Logout : bytes → R → bool * R;
  (** [Get(name, is_sync_all)], then [SetConn] and [SendMasterMsg]: [None] when
      [Get] returns NULL, otherwise whether the message was sent. *)
  rep_Register : bytes → bool → R → option bool * R;
  (** the text of [GetSlaveInfo] and of [GetInfo] *)
  rep_GetSlaveInfo : R → bytes;
  rep_GetInfo : R → bytes
}.

(** The subclasses of [GentSubCommand]. *)
Inductive cmd :=
  | PGet | PSet | PSetex | PMset | PAuth | PTtl | PMget | PRandomkey | PDel
  | PQuit | PKeys | PExists | PPing | PInfo | PRep | PReply | PSlave.

#[global] Instance cmd_eq_dec : EqDecision cmd.
Proof. solve_decision. Defined.

(** [SetCommands]: the table of names. *)
Definition commands : gmap bytes cmd := list_to_map [
  (str "get", PGet); (str "GET", PGet); (str "set", PSet); (str "SET", PSet);
  (str "setex", PSetex); (str "SETEX", PSetex); (str "mset", PMset); (str "MSET", PMset);
  (str "auth", PAuth); (str "AUTH", PAuth); (str "ttl", PTtl); (str "TTL", PTtl);
  (str "mget", PMget); (str "MGET", PMget); (str "randomkey", PRandomkey); (str "RANDOMKEY", PRandomkey);
  (str "del", PDel); (str "DEL", PDel); (str "quit", PQuit); (str "QUIT", PQuit);
  (str "exit", PQuit); (str "EXIT", PQuit); (str "keys", PKeys); (str "KEYS", PKeys);
  (str "exists", PExists); (str "EXISTS", PExists); (str "ping", PPing); (str "PING", PPing);
  (str "info", PInfo); (str "INFO", PInfo); (str "rep", PRep); (str "REP", PRep);
  (str "reply", PReply); (str "REPLY", PReply); (str "slave", PSlave); (str "SLAVE", PSlave)].

(** The progress of an [mset] whose data arrives in pieces. *)
Record mset_data := {
  keys_values : gmap bytes bytes;
  mcontent : bytes;
  cur_key : bytes;
  cur_key_end : Z;
  cur_content_len : Z;
  cur_content_start : Z;
  totalSetNum : Z;
  setNum : Z
}.

(** [init()] leaves [keys_values] and [cur_key_end] alone. *)
Definition mset_init (m : mset_data) : mset_data :=
  {| keys_values := keys_values m; mcontent := []; cur_key := []; cur_key_end := cur_key_end m;
     cur_content_len := 0; cur_content_start := 0; totalSetNum := 0; setNum := 0 |}.

Definition mset_set (m : mset_data) : mset_data :=
  {| keys_values := keys_values m; mcontent := []; cur_key := []; cur_key_end := 0;
     cur_content_len := 0; cur_content_start := 0; totalSetNum := totalSetNum m;
     setNum := i32 (setNum m - 1) |}.

(** The fields of [GentRedis], with [auth] of [GentCommand] and the status
    and [is_slave] of the connection it points to. *)
Record GentRedis := {
  auth : Z;
  master_auth : Z;
  keystr : bytes;
  mdata : mset_data;
  keyvec : list bytes;
  content : bytes;
  repmsg : bytes;
  subc : option cmd;
  rlbytes : Z;
  rexpire : Z;
  is_sync_all : bool;
  conn_status : connst;
  is_slave : bool
}.

(** The constructor does not initialise [master_auth], [subc] and
    [cur_key_end]: their first values are arguments. *)
Definition GentRedis_new (ma : Z) (sc : option cmd) (cke : Z) (slave : bool) : GentRedis :=
  {| auth := 0; master_auth := ma; keystr := [];
     mdata := mset_init {| keys_values := ∅; mcontent := []; cur_key := []; cur_key_end := cke;
                           cur_content_len := 0; cur_content_start := 0; totalSetNum := 0; setNum := 0 |};
     keyvec := []; content := []; repmsg := []; subc := sc; rlbytes := 0; rexpire := 0;
     is_sync_all := true; conn_status := CONN_READ; is_slave := slave |}.

(** Assignments to single fields. *)
Definition SetAuth (a : Z) (r : GentRedis) : GentRedis :=
  {| auth := a; master_auth := master_auth r; keystr := keystr r; mdata := mdata r; keyvec := keyvec r;
     content := content r; repmsg := repmsg r; subc := subc r; rlbytes := rlbytes r; rexpire := rexpire r;
     is_sync_all := is_sync_all r; conn_status := conn_status r; is_slave := is_slave r |}.
Definition SetStatus (s : connst) (r : GentRedis) : GentRedis :=
  {| auth := auth r; master_auth := master_auth r; keystr := keystr r; mdata := mdata r; keyvec := keyvec r;
     content := content r; repmsg := repmsg r; subc := subc r; rlbytes := rlbytes r; rexpire := rexpire r;
     is_sync_all := is_sync_all r; conn_status := s; is_slave := is_slave r |}.
Definition set_keystr (k : bytes) (r : GentRedis) : GentRedis :=
  {| auth := auth r; master_auth := master_auth r; keystr := k; mdata := mdata r; keyvec := keyvec r;
     content := content r; repmsg := repmsg r; subc := subc r; rlbytes := rlbytes r; rexpire := rexpire r;
     is_sync_all := is_sync_all r; conn_status := conn_status r; is_slave := is_slave r |}.
Definition set_mdata (m : mset_data) (r : GentRedis) : GentRedis :=
  {| auth := auth r; master_auth := master_auth r; keystr := keystr r; mdata := m; keyvec := keyvec r;
     content := content r; repmsg := repmsg r; subc := subc r; rlbytes := rlbytes r; rexpire := rexpire r;
     is_sync_all := is_sync_all r; conn_status := conn_status r; is_slave := is_slave r |}.
Definition set_keyvec (v : list bytes) (r : GentRedis) : GentRedis :=
  {| auth := auth r; master_auth := master_auth r; keystr := keystr r; mdata := mdata r; keyvec := v;
     content := content r; repmsg := repmsg r; subc := subc r; rlbytes := rlbytes r; rexpire := rexpire r;
     is_sync_all := is_sync_all r; conn_status := conn_status r; is_slave := is_slave r |}.
Definition set_content (c : bytes) (n : Z) (r : GentRedis) : GentRedis :=
  {| auth := auth r; master_auth := master_auth r; keystr := keystr r; mdata := mdata r; keyvec := keyvec r;
     content := c; repmsg := repmsg r; subc := subc r; rlbytes := n; rexpire := rexpire r;
     is_sync_all := is_sync_all r; conn_status := conn_status r; is_slave := is_slave r |}.
Definition set_rexpire (e : Z) (r : GentRedis) : GentRedis :=
  {| auth := auth r; master_auth := master_auth r; keystr := keystr r; mdata := mdata r; keyvec := keyvec r;
     content := content r; repmsg := repmsg r; subc := subc r; rlbytes := rlbytes r; rexpire := e;
     is_sync_all := is_sync_all r; conn_status := conn_status r; is_slave := is_slave r |}.
Definition set_subc (c : option cmd) (r : GentRedis) : GentRedis :=
  {| auth := auth r; master_auth := master_auth r; keystr := keystr r; mdata := mdata r; keyvec := keyvec r;
     content := content r; repmsg := repmsg r; subc := c; rlbytes := rlbytes r; rexpire := rexpire r;
     is_sync_all := is_sync_all r; conn_status := conn_status r; is_slave := is_slave r |}.
Definition set_rep (ma : Z) (msg : bytes) (sync : bool) (r : GentRedis) : GentRedis :=
  {| auth := auth r; master_auth := ma; keystr := keystr r; mdata := mdata r; keyvec := keyvec r;
     content := content r; repmsg := msg; subc := subc r; rlbytes := rlbytes r; rexpire := rexpire r;
     is_sync_all := sync; conn_status := conn_status r; is_slave := is_slave r |}.

(** [GetLength]: the number after the first character; an [int] that becomes
    a [uint64_t]. *)
Definition GetLength (s : bytes) : result Z := t ← substr_from s 1; mret (u64 (atoi t)).

(** [Split(str, delimit, v)]; the position grows by at least two in every
    iteration, so the length is fuel enough. *)
Fixpoint Split_loop (fuel : nat) (s delimit : bytes) (last_pos : Z) (v : list bytes) : result (list bytes) :=
  match fuel with
  | O => mret v
  | S fuel =>
      let pos := find_first_of s delimit last_pos in
      if pos =? npos then mret v
      else
        r ← (if pos =? last_pos then mret (last_pos + 2, v)
             else seg ← substr s last_pos (pos - last_pos); mret (pos + 2, v ++ [seg]));
        if (zlen r.2 =? 10) &&
           (bool_decide (r.2 !! 2%nat = Some (str "mset")) || bool_decide (r.2 !! 2%nat = Some (str "MSET")))
        then mret r.2
        else Split_loop fuel s delimit r.1 r.2
  end.

Definition Split (s delimit : bytes) : result (list bytes) := Split_loop (S (length s)) s delimit 0 [].

(** The argument at [tokenList[i+1]], clipped to the length at [tokenList[i]]. *)
Definition token_arg (tokens : list bytes) (i : Z) : result bytes :=
  t ← vec_at tokens (i + 1);
  l ← vec_at tokens i;
  n ← GetLength l;
  substr t 0 n.

(** [n] line ends from [pos] on: the position after the last of them. *)
Fixpoint skip_lines (n : nat) (data : bytes) (pos : Z) : option Z :=
  match n with
  | O => Some pos
  | S n =>
      let p := find_first_of data crlf pos in
      if p =? npos then None else skip_lines n data (p + 2)
  end.

Section redis.
Context `{LevelDB D, RepManager R}.
(** The configuration, and whether the store's count file can be written. *)
Context (cfg : Config.conf) (file_ok : bool).

(** [IsAuth]: no password configured counts as authenticated. *)
Definition IsAuth (r : GentRedis) : bool * GentRedis :=
  if negb (auth r =? 0) then (true, r)
  else if bool_decide (Config.get cfg (str "auth") = []) then (true, SetAuth 1 r)
  else (false, r).

(** The result of a [Parser]: the [int] it returns and the state. *)
Abbreviation parsed := (result (Z * GentRedis)).

Definition with_auth (r : GentRedis) (k : GentRedis → parsed) : parsed :=
  let '(ok, r) := IsAuth r in if ok then k r else mret (AUTH_REQ_FAIL, r).

(** [Get], [Ttl], [Del] and [Exists] parse alike: one argument. *)
Definition Parser_key (tokens : list bytes) (r : GentRedis) : parsed :=
  with_auth r (λ r,
    if negb (zlen tokens =? 5) then mret (-1, r)
    else k ← token_arg tokens 3; mret (0, set_keystr k (SetStatus CONN_DATA r))).

Definition Parser_Keys (tokens : list bytes) (r : GentRedis) : parsed :=
  with_auth r (λ r,
    if negb (zlen tokens =? 5) then mret (-2, r)
    else k ← token_arg tokens 3; mret (0, SetStatus CONN_DATA (set_keystr k r))).

(** What follows the header of [set] and [setex] in [data] at [pos]. *)
Definition Parser_value (data : bytes) (pos len : Z) (r : GentRedis) : parsed :=
  c ← substr_from data pos;
  if len <? zlen c then
    c ← substr data pos len; mret (0, set_content c len r)
  else mret (i32 (u64 (len - zlen c)), set_content c len r).

Definition Parser_Set (tokens : list bytes) (data : bytes) (r : GentRedis) : parsed :=
  with_auth r (λ r,
    let r := SetStatus CONN_NREAD r in
    if zlen tokens <? 5 then mret (-1, r)
    else
      k ← token_arg tokens 3;
      let r := set_keystr k r in
      if 250 <=? zlen k then mret (-3, r)
      else
        let pos := find_first_of data (str "*3") 0 in
        if pos =? npos then mret (-1, r)
        else match skip_lines 6 data pos with
             | None => mret (-1, r)
             | Some pos =>
                 t ← vec_at tokens 5;
                 n ← GetLength t;
                 Parser_value data pos n r
             end).

Definition Parser_Setex (now : Z) (tokens : list bytes) (data : bytes) (r : GentRedis) : parsed :=
  with_auth r (λ r,
    let r := SetStatus CONN_NREAD r in
    if zlen tokens <? 7 then mret (-1, r)
    else
      k ← token_arg tokens 3;
      let r := set_keystr k r in
      if 250 <=? zlen k then mret (-3, r)
      else
        let pos := find_first_of data (str "*4") 0 in
        if pos =? npos then mret (-1, r)
        else match skip_lines 8 data pos with
             | None => mret (-1, r)
             | Some pos =>
                 e ← vec_at tokens 6;
                 let r := set_rexpire (u64 (u64 (atoi e) + now)) r in
                 t ← vec_at tokens 7;
                 n ← GetLength t;
                 Parser_value data pos n r
             end).

(** [ItemParser]: one [key value] pair per iteration while [setNum] is
    positive. Data that does not hold the rest of the pair is kept in
    [mcontent] and the parser asks for more. *)
Definition need_more (m : mset_data) (data : bytes) : Z * mset_data :=
  (MGET_REQ,
   {| keys_values := keys_values m; mcontent := data; cur_key := cur_key m; cur_key_end := cur_key_end m;
      cur_content_len := cur_content_len m; cur_content_start := cur_content_start m;
      totalSetNum := totalSetNum m; setNum := setNum m |}).

(** The key of the pair and the position after it: kept from an earlier call
    or parsed now. [None]: not all of it is there. *)
Definition item_key (data : bytes) (m : mset_data) : result (option (bytes * Z * mset_data)) :=
  if bool_decide (cur_key m = []) then
    let p := find_first_of data crlf 0 in
    if p =? npos then mret None
    else
      d ← substr data 0 p;
      keyLen ← GetLength d;
      if zlen data <? u64 (p + 2 + keyLen) then mret None
      else
        key ← substr data (p + 2) keyLen;
        let clpos := u64 (p + 2 + keyLen + 2) in
        mret (Some (key, clpos,
          {| keys_values := keys_values m; mcontent := mcontent m; cur_key := key; cur_key_end := clpos;
             cur_content_len := cur_content_len m; cur_content_start := cur_content_start m;
             totalSetNum := totalSetNum m; setNum := setNum m |}))
  else mret (Some (cur_key m, cur_key_end m, m)).

(** The length of the value and the position of its first byte. *)
Definition item_len (data : bytes) (clpos : Z) (m : mset_data) : result (option (Z * Z * mset_data)) :=
  if cur_content_len m <=? 0 then
    let cpos := find_first_of data crlf clpos in
    if cpos =? npos then mret None
    else
      d ← substr data clpos (cpos - clpos);
      cLen ← GetLength d;
      let cpos := cpos + 2 in
      mret (Some (cpos, cLen,
        {| keys_values := keys_values m; mcontent := mcontent m; cur_key := cur_key m;
           cur_key_end := cur_key_end m; cur_content_len := cLen; cur_content_start := cpos;
           totalSetNum := totalSetNum m; setNum := setNum m |}))
  else mret (Some (cur_content_start m, cur_content_len m, m)).

(** Every iteration that continues lowers [setNum]. *)
Fixpoint ItemParser_loop (fuel : nat) (data : bytes) (m : mset_data) : result (Z * mset_data) :=
  if setNum m <=? 0 then
    mret (if negb (setNum m =? 0) then need_more m data else (0, m))
  else match fuel with
  | O => mret (need_more m data)
  | S fuel =>
      ok ← item_key data m;
      match ok with
      | None => mret (need_more m data)
      | Some (key, clpos, m) =>
          ol ← item_len data clpos m;
          match ol with
          | None => mret (need_more m data)
          | Some (cpos, cLen, m) =>
              if zlen data <? u64 (cpos + cLen + 2) then mret (need_more m data)
              else
                v ← substr data cpos cLen;
                let m := mset_set
                  {| keys_values := <[key := v]> (keys_values m); mcontent := mcontent m;
                     cur_key := cur_key m; cur_key_end := cur_key_end m;
                     cur_content_len := cur_content_len m; cur_content_start := cur_content_start m;
                     totalSetNum := totalSetNum m; setNum := setNum m |} in
                rest ← substr_from data (u64 (cpos + cLen + 2));
                ItemParser_loop fuel rest m
          end
      end
  end.

Definition ItemParser (data : bytes) (m : mset_data) : result (Z * mset_data) :=
  ItemParser_loop (Z.to_nat (setNum m)) data m.

Definition Parser_Mset (tokens : list bytes) (data : bytes) (r : GentRedis) : parsed :=
  with_auth r (λ r,
    let r := SetStatus CONN_NREAD r in
    if zlen tokens <? 3 then mret (-1, r)
    else
      t0 ← vec_at tokens 0;
      t ← substr_from t0 1;
      let fieldNum := atoi t in
      if negb (Z.rem (i32 (fieldNum - 1)) 2 =? 0) then mret (-1, r)
      else
        let n := Z.quot (i32 (fieldNum - 1)) 2 in
        let m := mdata r in
        let r := set_mdata
          {| keys_values := keys_values m; mcontent := mcontent m; cur_key := cur_key m;
             cur_key_end := cur_key_end m; cur_content_len := cur_content_len m;
             cur_content_start := cur_content_start m; totalSetNum := n; setNum := n |} r in
        let pos := find_first_of data t0 0 in
        if pos =? npos then mret (-1, r)
        else match skip_lines 3 data pos with
             | None => mret (-1, r)
             | Some pos =>
                 dat ← substr_from data pos;
                 im ← ItemParser dat (mdata r);
                 let r := set_mdata im.2 r in
                 mret (im.1, if im.1 =? MGET_REQ then SetStatus CONN_CONREAD r else r)
             end).

(** The keys of [mget]: [tokenList[2i+2]] for [i] from 1 to [fieldNum-1]. *)
Fixpoint mget_keys (tokens : list bytes) (i : Z) (n : nat) : result (list bytes) :=
  match n with
  | O => mret []
  | S n => k ← token_arg tokens (i * 2 + 1); ks ← mget_keys tokens (i + 1) n; mret (k :: ks)
  end.

Definition Parser_Mget (tokens : list bytes) (r : GentRedis) : parsed :=
  with_auth r (λ r,
    t0 ← vec_at tokens 0;
    l ← GetLength t0;
    let fieldNum := i32 l in
    let len := i32 (fieldNum * 2 + 1) in
    if (zlen tokens <? 5) || negb (zlen tokens =? len) then mret (-1, r)
    else
      ks ← mget_keys tokens 1 (Z.to_nat (fieldNum - 1));
      mret (0, set_keyvec ks (SetStatus CONN_DATA (set_keyvec [] r)))).

Definition Parser_Slave (tokens : list bytes) (r : GentRedis) : parsed :=
  with_auth r (λ r,
    if negb (zlen tokens =? 7) then mret (-1, r)
    else
      act ← token_arg tokens 5;
      if negb (bool_decide (act = str "clear")) then mret (-1, r)
      else k ← token_arg tokens 3; mret (0, set_keystr k (SetStatus CONN_DATA r))).

Definition Parser_Info (tokens : list bytes) (r : GentRedis) : parsed :=
  with_auth r (λ r,
    let r := set_keystr [] r in
    r ← (if 5 <=? zlen tokens then k ← token_arg tokens 3; mret (set_keystr k r) else mret r);
    mret (0, SetStatus CONN_DATA r)).

(** [Ping] and [Randomkey] take no argument. *)
Definition Parser_none (r : GentRedis) : parsed := with_auth r (λ r, mret (0, SetStatus CONN_DATA r)).

Definition Parser_Quit (r : GentRedis) : parsed := mret (0, SetStatus CONN_CLOSE r).

(** [Rep] has a password of its own, [master_auth]. *)
Definition Parser_Rep (tokens : list bytes) (r : GentRedis) : parsed :=
  if zlen tokens <? 7 then mret (-1, r)
  else
    msg ← vec_at tokens 6;
    let r := set_rep (master_auth r) msg (is_sync_all r) r in
    r ← (if master_auth r =? 0 then
           let ma := Config.get cfg (str "master_auth") in
           if bool_decide (ma = []) then mret (set_rep 1 msg (is_sync_all r) r)
           else if negb (zlen tokens =? 11) || negb (bool_decide (msg = str "auth"))
           then mret (set_rep (master_auth r) (str "autherror") (is_sync_all r) r)
           else
             pw ← vec_at tokens 8;
             if negb (bool_decide (pw = ma))
             then mret (set_rep (master_auth r) (str "autherror") (is_sync_all r) r)
             else t ← vec_at tokens 10; mret (set_rep 1 msg (bool_decide (t = str "true")) r)
         else mret r);
    k ← token_arg tokens 3;
    mret (0, SetStatus CONN_DATA (set_keystr k r)).

(** [Reply] also changes the status of the slave side. *)
Definition Parser_Reply (tokens : list bytes) (r : GentRedis) (mgr : R) : result (Z * GentRedis * R) :=
  let '(ok, r) := IsAuth r in
  if negb ok then mret (AUTH_REQ_FAIL, r, mgr)
  else
    let t := tokens !! 4%nat in
    if (zlen tokens =? 5) && bool_decide (t = Some (str "close")) then mret (0, SetStatus CONN_CLOSE r, mgr)
    else if (zlen tokens =? 5) && bool_decide (t = Some (str "complete"))
    then mret (0, SetStatus CONN_WAIT r, rep_SlaveSetStatus CONTINUE mgr)
    else if (zlen tokens =? 5) && bool_decide (t = Some (str "authok"))
    then mret (0, SetStatus CONN_WAIT r, rep_SlaveSetStatus CONTINUE mgr)
    else if (zlen tokens =? 5) && bool_decide (t = Some (str "autherror"))
    then mret (0, SetStatus CONN_WAIT r, mgr)
    else mret (0, r, mgr).

Definition Parser_Auth (tokens : list bytes) (r : GentRedis) : parsed :=
  if negb (zlen tokens =? 5) then mret (-1, r)
  else
    s ← token_arg tokens 3;
    let a := Config.get cfg (str "auth") in
    if bool_decide (a = []) then mret (0, SetAuth 1 r)
    else if negb (bool_decide (s = a)) then mret (AUTH_FAIL, r)
    else mret (0, SetStatus CONN_DATA r).

(** The call through the virtual [Parser]. *)
Definition Parser (c : cmd) (now : Z) (tokens : list bytes) (data : bytes) (r : GentRedis) (mgr : R)
    : result (Z * GentRedis * R) :=
  let lift (p : parsed) := x ← p; mret (x, mgr) in
  match c with
  | PGet | PTtl | PDel | PExists => lift (Parser_key tokens r)
  | PKeys => lift (Parser_Keys tokens r)
  | PSet => lift (Parser_Set tokens data r)
  | PSetex => lift (Parser_Setex now tokens data r)
  | PMset => lift (Parser_Mset tokens data r)
  | PMget => lift (Parser_Mget tokens r)
  | PSlave => lift (Parser_Slave tokens r)
  | PInfo => lift (Parser_Info tokens r)
  | PPing | PRandomkey => lift (Parser_none r)
  | PQuit => lift (Parser_Quit r)
  | PRep => lift (Parser_Rep tokens r)
  | PReply => Parser_Reply tokens r mgr
  | PAuth => lift (Parser_Auth tokens r)
  end.

Definition ParseCommand (now : Z) (data : bytes) (r : GentRedis) (mgr : R) : result (Z * GentRedis * R) :=
  if bool_decide (data = []) then mret (0, r, mgr)
  else
    tokens ← Split data crlf;
    if zlen tokens =? 0 then mret (0, r, mgr)
    else if zlen tokens <? 3 then mret (-1, r, mgr)
    else
      name ← vec_at tokens 2;
      match commands !! name with
      | None => mret (-1, r, mgr)
      | Some c => Parser c now tokens data (set_subc (Some c) r) mgr
      end.

(** [Process]: the value it returns, the error reply if any, and the state. *)
Definition Process (now : Z) (data : bytes) (r : GentRedis) (mgr : R) : result (Z * bytes * GentRedis * R) :=
  x ← ParseCommand now data r mgr;
  let '(status, r, mgr) := x in
  if status =? -1 then mret (0, REDIS_ERROR ++ str " unknown command" ++ crlf, r, mgr)
  else if status =? -2 then
    mret (0, REDIS_ERROR ++ str " wrong number of arguments for 'keys' command" ++ crlf, r, mgr)
  else if status =? -3 then mret (0, REDIS_ERROR ++ str " key is very very long" ++ crlf, r, mgr)
  else if status =? AUTH_REQ_FAIL then mret (0, str "- " ++ REDIS_AUTH_REQ ++ crlf, r, mgr)
  else if status =? AUTH_FAIL then mret (0, REDIS_ERROR ++ str " " ++ REDIS_AUTH_FAIL ++ crlf, r, mgr)
  else mret (status, [], r, mgr).

(** [ContinueParser]: only [Mset] overrides the one that does nothing. *)
Definition ContinueProcess (data : bytes) (r : GentRedis) : parsed :=
  match subc r with
  | Some PMset =>
      im ← ItemParser (mcontent (mdata r) ++ data) (mdata r);
      let r := set_mdata im.2 r in
      let r := if im.1 =? MGET_REQ then SetStatus CONN_CONREAD r else r in
      mret (im.1, if im.1 =? 0 then SetStatus CONN_DATA r else r)
  | Some _ => mret (0, r)
  | None => Fault OutOfBounds
  end.

(** ** Completing a command *)

(** The store and the replication manager. *)
Record World := { gdb : Db.GentDb D; mgr : R }.

(** [Info(msg, outstr, type)]. *)
Definition Info (msg type : bytes) : bytes :=
  if bool_decide (msg = []) then type ++ crlf else type ++ str " " ++ msg ++ crlf.

(** A bulk reply: [snprintf("$%u\r\n", size)], the bytes, and CR LF. *)
Definition bulk_header (size : Z) (n : Z) : bytes := snprintf size (str "$" ++ udec (u32 n) ++ crlf).
Definition bulk_reply (size : Z) (v : bytes) : bytes := bulk_header size (zlen v) ++ v ++ crlf.

(** The buffer [s[260]] of [keys] and [randomkey]: cut at 259 characters, and
    the key printed with [%s]. *)
Definition key_line (k : bytes) : bytes :=
  snprintf 260 (str "$" ++ udec (u32 (zlen k)) ++ crlf ++ cstr k ++ crlf).

(** What a completed command leaves: the reply, the command and the world. *)
Abbreviation completed := (result (bytes * GentRedis * World)).

Definition Complete_Get (now : Z) (r : GentRedis) (w : World) : completed :=
  v ← Db.Get now (keystr r) (gdb w);
  match v with
  | None => mret (str "$-1" ++ crlf, r, w)
  | Some nr => mret (bulk_reply 50 nr, r, w)
  end.

(** The reply to a write: to a client, or the acknowledgement to a master. *)
Definition stored_reply (ok : bool) (r : GentRedis) (m : R) : bytes :=
  if ok then (if is_slave r then rep_SlaveReply 1 m else REDIS_INFO ++ crlf)
  else (if is_slave r then rep_SlaveReply 0 m else Info (str "NOT_STORED") REDIS_ERROR).

(** [Set] and [Setex] differ in the expiry time. *)
Definition Complete_store (now : Z) (recont : bytes) (e : Z) (r : GentRedis) (w : World) : completed :=
  let r := set_content (content r ++ recont) (rlbytes r) r in
  '(ok, g) ← Db.Put file_ok now (keystr r) (content r) (rlbytes r) e Db.TY_STRING (gdb w);
  let w := {| gdb := g; mgr := if (ok : bool) then rep_Push ADD (keystr r) (mgr w) else mgr w |} in
  mret (stored_reply ok r (mgr w), r, w).

Definition Complete_Set (now : Z) (recont : bytes) (r : GentRedis) (w : World) : completed :=
  Complete_store now recont 0 r w.
Definition Complete_Setex (now : Z) (recont : bytes) (r : GentRedis) (w : World) : completed :=
  Complete_store now recont (rexpire r) r w.

Definition clear_keys_values (m : mset_data) : mset_data :=
  {| keys_values := ∅; mcontent := mcontent m; cur_key := cur_key m; cur_key_end := cur_key_end m;
     cur_content_len := cur_content_len m; cur_content_start := cur_content_start m;
     totalSetNum := totalSetNum m; setNum := setNum m |}.

Definition Complete_Mset (now : Z) (r : GentRedis) (w : World) : completed :=
  let items := map_items (keys_values (mdata r)) in
  let '(ok, g) := Db.BatchPut file_ok now items (gdb w) in
  let m := if ok then fold_left (λ m kv, rep_Push ADD kv.1 m) items (mgr w) else mgr w in
  let w := {| gdb := g; mgr := m |} in
  mret (stored_reply ok r (mgr w), set_mdata (clear_keys_values (mdata r)) r, w).

Fixpoint mget_replies (now : Z) (ks : list bytes) (g : Db.GentDb D) : result bytes :=
  match ks with
  | [] => mret []
  | k :: ks =>
      v ← Db.Get now k g;
      rest ← mget_replies now ks g;
      mret (bulk_reply 20 (default [] v) ++ rest)
  end.

Definition Complete_Mget (now : Z) (r : GentRedis) (w : World) : completed :=
  body ← mget_replies now (keyvec r) (gdb w);
  mret (snprintf 20 (str "*" ++ sdec (i32 (zlen (keyvec r))) ++ crlf) ++ body, r, w).

Definition Complete_Ttl (now : Z) (r : GentRedis) (w : World) : completed :=
  t ← Db.Ttl (keystr r) (gdb w);
  let '(isTtl, e) := t in
  mret (if isTtl && (0 <? e) then
          if now <? e then snprintf 50 (str ":" ++ udec (u64 (e - now)) ++ crlf)
          else str ":-2" ++ crlf
        else if isTtl && (e =? 0) then str ":-1" ++ crlf
        else str ":-2" ++ crlf, r, w).

Definition Complete_Del (now : Z) (r : GentRedis) (w : World) : completed :=
  let reply (out : bytes) (suc : Z) (m : R) := if is_slave r then rep_SlaveReply suc m else out in
  v ← Db.Get now (keystr r) (gdb w);
  match v with
  | None => mret (reply (str ":0" ++ crlf) 1 (mgr w), r, w)
  | Some _ =>
      let '(ok, g) := Db.Del file_ok (keystr r) (gdb w) in
      if ok then
        let w := {| gdb := g; mgr := rep_Push DEL (keystr r) (mgr w) |} in
        mret (reply (str ":1" ++ crlf) 1 (mgr w), r, w)
      else
        let w := {| gdb := g; mgr := mgr w |} in
        mret (reply (str ":0" ++ crlf) 0 (mgr w), r, w)
  end.

(** The text of [info] other than [info rep] is an argument: it shows the
    process id, the port and figures of LevelDB. [Count("")] may set the
    number of keys. *)
Definition Complete_Info (server_info : bytes) (r : GentRedis) (w : World) : completed :=
  let '(out, w) :=
    if bool_decide (keystr r = str "rep")
    then (str "# Master" ++ crlf ++ rep_GetSlaveInfo (mgr w) ++ str "# Slave" ++ crlf ++
          rep_GetInfo (mgr w) ++ crlf, w)
    else (server_info, {| gdb := (Db.Count file_ok [] (gdb w)).2; mgr := mgr w |}) in
  mret (bulk_header 50 (u32 (zlen out) - 2) ++ out, r, w).

Definition Complete_Randomkey (rnd : Z) (r : GentRedis) (w : World) : completed :=
  let '(_, k) := Db.Random rnd (gdb w) in mret (key_line k, r, w).

Definition Complete_Keys (r : GentRedis) (w : World) : completed :=
  let ks := Db.Keys (keystr r) (gdb w) in
  mret (snprintf 20 (str "*" ++ udec (u32 (zlen ks)) ++ crlf) ++ concat (key_line <$> ks), r, w).

Definition Complete_Exists (now : Z) (r : GentRedis) (w : World) : completed :=
  v ← Db.Get now (keystr r) (gdb w);
  mret (match v with None => str ":0" ++ crlf | Some _ => str ":1" ++ crlf end, r, w).

Definition Complete_Rep (r : GentRedis) (w : World) : completed :=
  if master_auth r =? 0 then
    mret (if bool_decide (repmsg r = str "auth")
          then str "*2" ++ crlf ++ str "$5" ++ crlf ++ str "reply" ++ crlf ++ str "$6" ++ crlf ++ str "authok" ++ crlf
          else str "*2" ++ crlf ++ str "$5" ++ crlf ++ str "reply" ++ crlf ++ str "$9" ++ crlf ++
               str "autherror" ++ crlf, r, w)
  else
    match rep_Register (keystr r) (is_sync_all r) (mgr w) with
    | (None, m) =>
        mret (REDIS_ERROR ++ str " slave full,manual clear" ++ crlf, r, {| gdb := gdb w; mgr := m |})
    | (Some sent, m) =>
        mret (if sent then [] else REDIS_ERROR ++ str " send master message failed" ++ crlf,
              SetStatus CONN_WAIT r, {| gdb := gdb w; mgr := m |})
    end.

Definition Complete_Slave (r : GentRedis) (w : World) : completed :=
  let '(ok, m) := rep_Logout (keystr r) (mgr w) in
  let w := {| gdb := gdb w; mgr := m |} in
  mret (if ok then str "+OK" ++ crlf
        else Info (keystr r ++ str " is run,failed to stop") REDIS_ERROR, r, w).

Definition Complete_Auth (r : GentRedis) (w : World) : completed := mret (str "+OK" ++ crlf, SetAuth 1 r, w).

(** [Complete(outstr, recont, len)]: [recont] is what [NextRead] read. *)
Definition Complete (now rnd : Z) (server_info recont : bytes) (r : GentRedis) (w : World) : completed :=
  match subc r with
  | None => mret (Info (str "command") REDIS_ERROR, r, w)
  | Some c =>
      match c with
      | PGet => Complete_Get now r w
      | PSet => Complete_Set now recont r w
      | PSetex => Complete_Setex now recont r w
      | PMset => Complete_Mset now r w
      | PMget => Complete_Mget now r w
      | PTtl => Complete_Ttl now r w
      | PDel => Complete_Del now r w
      | PInfo => Complete_Info server_info r w
      | PQuit => mret ([], r, w)
      | PRandomkey => Complete_Randomkey rnd r w
      | PKeys => Complete_Keys r w
      | PExists => Complete_Exists now r w
      | PPing => mret (str "+PONG" ++ crlf, r, w)
      | PRep => Complete_Rep r w
      | PReply => mret ([], r, w)
      | PSlave => Complete_Slave r w
      | PAuth => Complete_Auth r w
      end
  end.
End redis.
Arguments World : clear implicits.
End Redis.
