(* ===== verification/RedisSpec.v ===== *)
(** * What the Redis protocol code guarantees (theorems about Redis.v)

    Requests are compared with the protocol's encoding [resp] of an argument
    list: a count line, then a length line and the bytes of each argument. *)

From S2P Require Import Prelude Cstd LevelDb Db Config Redis.
Import Db Redis.

(** ** The encoding of requests *)

(** [a] as a bulk argument: its length line and its bytes. *)
Definition bulk (a : bytes) : bytes := str "$" ++ udec (zlen a) ++ crlf ++ a ++ crlf.

(** A whole request. *)
Definition resp (args : list bytes) : bytes :=
  str "*" ++ udec (zlen args) ++ crlf ++ concat (bulk <$> args).

(** The lines of a request. *)
Definition resp_tokens (args : list bytes) : list bytes :=
  (str "*" ++ udec (zlen args)) ::
  concat ((λ a, [str "$" ++ udec (zlen a); a]) <$> args).

(** A text without CR or LF, and a non-empty one. *)
Definition plain (l : bytes) : Prop := Forall (λ c, mem crlf c = false) l.
Definition token (l : bytes) : Prop := l ≠ [] ∧ plain l.

Definition joined (ls : list bytes) : bytes := concat ((λ l, l ++ crlf) <$> ls).

Lemma joined_cons l ls : joined (l :: ls) = l ++ crlf ++ joined ls.
Proof. unfold joined. simpl. by rewrite <- app_assoc. Qed.

Lemma joined_app a b : joined (a ++ b) = joined a ++ joined b.
Proof. unfold joined. by rewrite fmap_app, concat_app. Qed.

Lemma resp_joined args : resp args = joined (resp_tokens args).
Proof.
  unfold resp, resp_tokens. rewrite joined_cons, <- !app_assoc. do 3 f_equal.
  induction args as [|a args IH]; [done|]. rewrite !fmap_cons. cbn [concat].
  rewrite joined_app, <- IH, !joined_cons. unfold bulk. change (joined []) with (@nil Z).
  by rewrite <- !app_assoc, app_nil_l.
Qed.

Lemma isdigit_plain c : isdigit c = true → mem crlf c = false.
Proof.
  unfold isdigit, crlf, CR, LF. cbn [mem existsb]. rewrite andb_true_iff, !Z.leb_le. intros.
  destruct (Z.eqb_spec c 13), (Z.eqb_spec c 10); try done; lia.
Qed.

Lemma udec_plain n : 0 ≤ n → plain (udec n).
Proof. intros. eapply Forall_impl; [by apply udec_digits|]. simpl. apply isdigit_plain. Qed.

Lemma token_header c n : mem crlf c = false → 0 ≤ n → token ([c] ++ udec n).
Proof. intros. split; [done|]. constructor; [done|]. by apply udec_plain. Qed.

Lemma resp_tokens_token args : Forall token args → Forall token (resp_tokens args).
Proof.
  intros Ha. constructor; [apply token_header; [done|zlia]|].
  induction Ha as [|a args Ht _ IH]; simpl; [constructor|].
  constructor; [apply token_header; [done|zlia]|]. by constructor.
Qed.

(** ** Tokens *)

(** The test that ends the splitting of an [mset] early. *)
Definition stops (v : list bytes) : bool :=
  (zlen v =? 10) && (bool_decide (v !! 2%nat = Some (str "mset")) || bool_decide (v !! 2%nat = Some (str "MSET"))).

Lemma Split_loop_token fuel pre l rest v :
  token l → zlen (pre ++ l ++ crlf ++ rest) < npos →
  Split_loop (S fuel) (pre ++ l ++ crlf ++ rest) crlf (zlen pre) v =
    if stops (v ++ [l]) then Ok (v ++ [l])
    else Split_loop fuel (pre ++ l ++ crlf ++ rest) crlf (zlen (pre ++ l ++ crlf)) (v ++ [l]).
Proof.
  intros [Hne Hp] Hlen. cbn [Split_loop].
  assert (find_first_of (pre ++ l ++ crlf ++ rest) crlf (zlen pre) = zlen pre + zlen l) as ->.
  { unfold find_first_of. apply (find_if_hit _ pre l CR (LF :: rest)); done. }
  rewrite !zlen_app in Hlen. change (zlen crlf) with 2 in Hlen.
  destruct (Z.eqb_spec (zlen pre + zlen l) npos); [zlia|].
  destruct (Z.eqb_spec (zlen pre + zlen l) (zlen pre)) as [E|_].
  { destruct Hne. apply zlen_0_inv. lia. }
  rewrite (substr_app pre l (crlf ++ rest) (zlen pre) (zlen pre + zlen l - zlen pre)) by (done || lia).
  rewrite !zlen_app. change (zlen crlf) with 2. cbn. unfold stops.
  rewrite <- Z.add_assoc. done.
Qed.

(** No proper prefix of the token list ends the splitting. *)
Definition no_stop (v ls : list bytes) : Prop := ∀ k, (k ≤ length ls)%nat → stops (v ++ take k ls) = false.

Lemma Split_loop_tokens fuel pre ls rest v :
  Forall token ls → zlen (pre ++ joined ls ++ rest) < npos → no_stop v ls →
  Split_loop (length ls + fuel) (pre ++ joined ls ++ rest) crlf (zlen pre) v =
    Split_loop fuel (pre ++ joined ls ++ rest) crlf (zlen (pre ++ joined ls)) (v ++ ls).
Proof.
  intros Hls. revert pre v. induction Hls as [|l ls Hl _ IH]; intros pre v Hlen Hst.
  { unfold joined. simpl. by rewrite !app_nil_r. }
  rewrite joined_cons, <- !app_assoc in *. cbn [length Nat.add].
  rewrite Split_loop_token by done.
  pose proof (Hst 1%nat ltac:(simpl; lia)) as H1. simpl in H1. rewrite take_0 in H1. rewrite H1.
  specialize (IH (pre ++ l ++ crlf) (v ++ [l])). rewrite <- !app_assoc in IH. apply IH; [done|].
  intros k Hk. specialize (Hst (S k) ltac:(simpl; lia)). simpl in Hst. by rewrite <- app_assoc.
Qed.

Lemma Split_loop_total fuel s last_pos v :
  0 ≤ last_pos → ∃ more, Split_loop fuel s crlf last_pos v = Ok (v ++ more).
Proof.
  revert last_pos v. induction fuel as [|fuel IH]; intros last_pos v Hp; cbn [Split_loop].
  { exists []. by rewrite app_nil_r. }
  case_match eqn:E. { exists []. by rewrite app_nil_r. }
  apply Z.eqb_neq in E. unfold find_first_of in *.
  destruct (find_if_bounds (mem crlf) s last_pos Hp) as [?|Hb]; [done|].
  destruct (Z.eqb_spec (find_if (mem crlf) s last_pos) last_pos) as [E1|E1]; cbn.
  - case_match; [exists []; by rewrite app_nil_r|]. apply IH. lia.
  - destruct (proj2 (substr_ok_iff s last_pos (find_if (mem crlf) s last_pos - last_pos))) as [seg ->];
      [lia|]. cbn. case_match; [by exists [seg]|].
    destruct (IH (find_if (mem crlf) s last_pos + 2) (v ++ [seg])) as [more ->]; [lia|].
    exists (seg :: more). by rewrite <- app_assoc.
Qed.

Lemma joined_length ls : (length ls ≤ length (joined ls))%nat.
Proof.
  induction ls as [|l ls IH]; [done|]. rewrite joined_cons, !length_app. simpl. lia.
Qed.

(** The lines at the head of a request are its first tokens, whatever bytes
    follow them. *)
Lemma Split_head ls rest :
  Forall token ls → zlen (joined ls ++ rest) < npos → no_stop [] ls →
  ∃ more, Split (joined ls ++ rest) crlf = Ok (ls ++ more).
Proof.
  intros Hls Hlen Hst. unfold Split. pose proof (joined_length ls).
  set (s := joined ls ++ rest) in *.
  assert (S (length s) = (length ls + (S (length s) - length ls))%nat) as ->
    by (unfold s; rewrite length_app; lia).
  pose proof (Split_loop_tokens (S (length s) - length ls) [] ls rest [] Hls Hlen Hst) as E.
  cbn [app] in E. change (zlen []) with 0 in E. unfold s at 2. rewrite E.
  apply Split_loop_total. zlia.
Qed.

Lemma Split_joined ls :
  Forall token ls → zlen (joined ls) < npos → no_stop [] ls → Split (joined ls) crlf = Ok ls.
Proof.
  intros Hls Hlen Hst. unfold Split. pose proof (joined_length ls).
  assert (S (length (joined ls)) = (length ls + S (length (joined ls) - length ls))%nat) as -> by lia.
  pose proof (Split_loop_tokens (S (length (joined ls) - length ls)) [] ls [] [] Hls) as E.
  cbn [app] in E. rewrite !app_nil_r in E. change (zlen []) with 0 in E. rewrite E by done. cbn [Split_loop].
  unfold find_first_of. by rewrite find_if_past by lia.
Qed.

(** ** Arguments *)

Lemma vec_at_lookup {A} (v : list A) i (a : A) : 0 ≤ i → v !! Z.to_nat i = Some a → vec_at v i = Ok a.
Proof.
  intros Hi Ha. unfold vec_at. apply lookup_lt_Some in Ha as Hl.
  rewrite (proj2 (Z.leb_le 0 i)) by done. rewrite (proj2 (Z.ltb_lt i (zlen v))) by (unfold zlen; lia).
  cbn. by rewrite Ha.
Qed.

Lemma GetLength_header c n : 0 ≤ n < 2 ^ 31 → GetLength ([c] ++ udec n) = Ok n.
Proof.
  intros Hn. unfold GetLength, substr_from.
  rewrite (substr_app_end [c] (udec n) 1 npos) by
    (done || (pose proof (udec_len_le n 10 ltac:(simpl; lia) ltac:(lia)); unfold zlen, npos; lia)).
  rbind. rewrite Db.atoi_udec_whole by done. rewrite u64_small by lia. done.
Qed.

(** The argument after its length line. *)
Lemma token_arg_lookup v i a :
  0 ≤ i → v !! Z.to_nat i = Some (str "$" ++ udec (zlen a)) → v !! Z.to_nat (i + 1) = Some a →
  zlen a < 2 ^ 31 → token_arg v i = Ok a.
Proof.
  intros Hi Hl Ha Hlen. unfold token_arg. rewrite (vec_at_lookup v (i + 1) a) by (done || lia).
  rbind. rewrite (vec_at_lookup v i _ Hi Hl). rbind. change (str "$") with [36].
  rewrite GetLength_header by zlia. rbind.
  by apply substr_0_all.
Qed.

(** Skipping the lines at the head of the data. *)
Lemma skip_lines_joined ls pre rest :
  Forall token ls → zlen (pre ++ joined ls ++ rest) < npos →
  skip_lines (length ls) (pre ++ joined ls ++ rest) (zlen pre) = Some (zlen (pre ++ joined ls)).
Proof.
  intros Hls. revert pre. induction Hls as [|l ls [_ Hl] _ IH]; intros pre Hlen.
  { unfold joined. simpl. by rewrite app_nil_r. }
  rewrite joined_cons, <- !app_assoc in *. cbn [length skip_lines].
  assert (find_first_of (pre ++ l ++ crlf ++ joined ls ++ rest) crlf (zlen pre) = zlen pre + zlen l) as ->.
  { unfold find_first_of. apply (find_if_hit _ pre l CR (LF :: joined ls ++ rest)); done. }
  rewrite !zlen_app in Hlen. change (zlen crlf) with 2 in Hlen.
  destruct (Z.eqb_spec (zlen pre + zlen l) npos); [zlia|].
  specialize (IH (pre ++ l ++ crlf)). rewrite <- !app_assoc in IH.
  replace (zlen pre + zlen l + 2) with (zlen (pre ++ l ++ crlf)); [apply IH|].
  - rewrite !zlen_app. change (zlen crlf) with 2. lia.
  - rewrite !zlen_app. change (zlen crlf) with 2. lia.
Qed.

Lemma no_stop_short ls : (length ls < 10)%nat → no_stop [] ls.
Proof.
  intros Hl k Hk. unfold stops. cbn [app].
  destruct (Z.eqb_spec (zlen (take k ls)) 10) as [E|]; [|done].
  unfold zlen in E. rewrite length_take in E. lia.
Qed.

Lemma no_stop_name ls name :
  ls !! 2%nat = Some name → name ≠ str "mset" → name ≠ str "MSET" → no_stop [] ls.
Proof.
  intros Hn H1 H2 k Hk. unfold stops. cbn [app].
  destruct (Z.eqb_spec (zlen (take k ls)) 10) as [E|]; [|done].
  rewrite lookup_take_lt, Hn by (unfold zlen in E; rewrite length_take in E; lia).
  by rewrite !bool_decide_eq_false_2 by congruence.
Qed.

Lemma resp_tokens_name name args : resp_tokens (name :: args) !! 2%nat = Some name.
Proof. done. Qed.

(** ** [mset] in pieces *)

(** The data of an [mset]: keys and values as bulk arguments. *)
Definition item (kv : bytes * bytes) : bytes := bulk kv.1 ++ bulk kv.2.
Definition items (kvs : list (bytes * bytes)) : bytes := concat (item <$> kvs).

Lemma prefix_long (d a b : bytes) :
  d `prefix_of` a ++ b → zlen a ≤ zlen d → ∃ d', d = a ++ d' ∧ d' `prefix_of` b.
Proof.
  intros [t E] Hl. apply app_eq_inv in E as [(x & -> & ->)|(x & -> & ->)].
  - assert (x = []) as -> by (apply zlen_0_inv; zlia). exists []. rewrite !app_nil_r.
    split; [done|apply prefix_nil].
  - exists x. split; [done|by exists t].
Qed.

Lemma prefix_short (d a b : bytes) : d `prefix_of` a ++ b → zlen d ≤ zlen a → d `prefix_of` a.
Proof.
  intros [t E] Hl. apply app_eq_inv in E as [(x & -> & ->)|(x & -> & ->)]; [by exists x|].
  assert (x = []) as -> by (apply zlen_0_inv; zlia). by rewrite app_nil_r.
Qed.

(** Searching in the part of a text that has arrived. *)
Lemma find_if_part p d a b c rest :
  d `prefix_of` a ++ b ++ c :: rest → Forall (λ c, p c = false) b → p c = true →
  find_if p d (zlen a) = if zlen d <=? zlen a + zlen b then npos else zlen a + zlen b.
Proof.
  intros Hd Hb Hc. destruct (Z.leb_spec (zlen d) (zlen a + zlen b)) as [Hle|Hgt].
  - destruct (Z.le_gt_cases (zlen d) (zlen a)); [by apply find_if_past|].
    apply prefix_long in Hd as (b1 & -> & Hd); [|lia]. apply prefix_short in Hd as [b2 ->]; [|zlia].
    apply find_if_none; [done|]. by apply Forall_app in Hb as [? _].
  - apply prefix_long in Hd as (d1 & -> & Hd); [|zlia]. apply prefix_long in Hd as (d2 & -> & Hd); [|zlia].
    rewrite !zlen_app in Hgt. destruct d2 as [|c' d2]; [rewrite zlen_nil in Hgt; lia|].
    apply prefix_cons_inv_1 in Hd as ->. by apply find_if_hit.
Qed.

Lemma substr_part d a b rest n :
  d `prefix_of` a ++ b ++ rest → n = zlen b → zlen a + zlen b ≤ zlen d → substr d (zlen a) n = Ok b.
Proof.
  intros Hd -> Hl. pose proof (zlen_nonneg b). apply prefix_long in Hd as (d1 & -> & Hd); [|lia].
  apply prefix_long in Hd as (d2 & -> & _); [by apply substr_app|zlia].
Qed.

(** The length line of a bulk argument. *)
Definition size_line (a : bytes) : bytes := [36] ++ udec (zlen a).

Lemma bulk_eq a : bulk a = size_line a ++ crlf ++ a ++ crlf.
Proof. unfold bulk, size_line. by rewrite <- app_assoc. Qed.

Lemma zlen_bulk a : zlen (bulk a) = zlen (size_line a) + zlen a + 4.
Proof. rewrite bulk_eq, !zlen_app. change (zlen crlf) with 2. lia. Qed.

Lemma size_line_plain a : plain (size_line a).
Proof. by apply token_header; [|zlia]. Qed.

Lemma GetLength_size_line a : zlen a < 2 ^ 31 → GetLength (size_line a) = Ok (zlen a).
Proof. intros. apply GetLength_header. zlia. Qed.

(** What the parser remembers of the pair [(k, v)] it is in. *)
Definition pending (k v : bytes) (m : mset_data) : Prop :=
  (cur_key m = [] ∨ cur_key m = k ∧ cur_key_end m = zlen (bulk k)) ∧
  (cur_content_len m = 0 ∨
   cur_content_len m = zlen v ∧ cur_content_start m = zlen (bulk k) + zlen (size_line v) + 2).

(** The parts of the state that [item_key] and [item_len] keep. *)
Definition same_progress (m m' : mset_data) : Prop :=
  keys_values m' = keys_values m ∧ setNum m' = setNum m ∧ mcontent m' = mcontent m.

Lemma item_key_spec k v rest d m :
  d `prefix_of` bulk k ++ bulk v ++ rest → zlen (bulk k ++ bulk v ++ rest) < npos → zlen k < 2 ^ 31 →
  pending k v m →
  (item_key d m = Ok None ∧ zlen d < zlen (bulk k)) ∨
  (∃ m', item_key d m = Ok (Some (k, zlen (bulk k), m')) ∧ pending k v m' ∧ same_progress m m').
Proof.
  intros Hd Hb Hk [Hkey Hc]. rewrite zlen_app, zlen_bulk in Hb. pose proof (zlen_nonneg k).
  pose proof (zlen_nonneg (size_line k)). pose proof (zlen_nonneg (bulk v ++ rest)).
  unfold item_key. case_bool_decide as Ec.
  2:{ right. exists m. split; [|by split; [split|]]. by destruct Hkey as [?|[-> ->]]. }
  rewrite bulk_eq, <- !app_assoc in Hd. unfold find_first_of.
  pose proof (find_if_part _ d [] (size_line k) CR (LF :: k ++ crlf ++ bulk v ++ rest) Hd
    (size_line_plain k) eq_refl) as Ef.
  change (zlen []) with 0 in Ef. rewrite Z.add_0_l in Ef. rewrite Ef. clear Ef. pose proof (zlen_bulk k) as Hbk.
  destruct (Z.leb_spec (zlen d) (zlen (size_line k))) as [Hle|Hgt]; [left; split; [done|lia]|].
  destruct (Z.eqb_spec (zlen (size_line k)) npos); [unfold npos in *; lia|].
  pose proof (substr_part d [] (size_line k) (crlf ++ k ++ crlf ++ bulk v ++ rest) _ Hd eq_refl) as Es.
  change (zlen []) with 0 in Es. rewrite Es by lia. clear Es. rbind. rewrite GetLength_size_line by lia. rbind.
  rewrite !u64_small by (unfold npos in *; lia).
  destruct (Z.ltb_spec (zlen d) (zlen (size_line k) + 2 + zlen k)); [left; split; [done|lia]|].
  right. rewrite (app_assoc (size_line k) crlf) in Hd.
  assert (zlen (size_line k ++ crlf) = zlen (size_line k) + 2) as Hl by (rewrite zlen_app; done).
  rewrite <- Hl. rewrite (substr_part d (size_line k ++ crlf) k (crlf ++ bulk v ++ rest) _ Hd) by lia. rbind.
  rewrite Hl. replace (zlen (size_line k) + 2 + zlen k + 2) with (zlen (bulk k)) by lia.
  eexists. split; [done|]. split; [|done]. split; [by right|exact Hc].
Qed.

Lemma item_len_spec k v rest d m :
  d `prefix_of` bulk k ++ bulk v ++ rest → zlen (bulk k ++ bulk v ++ rest) < npos → zlen v < 2 ^ 31 →
  pending k v m →
  let start := zlen (bulk k) + zlen (size_line v) + 2 in
  (item_len d (zlen (bulk k)) m = Ok None ∧ zlen d < start) ∨
  (∃ m', item_len d (zlen (bulk k)) m = Ok (Some (start, zlen v, m')) ∧ pending k v m' ∧ same_progress m m').
Proof.
  intros Hd Hb Hv [Hkey Hc] start. rewrite !zlen_app, zlen_bulk in Hb. pose proof (zlen_nonneg v).
  rewrite zlen_bulk in Hb. pose proof (zlen_nonneg (size_line v)). pose proof (zlen_nonneg rest).
  pose proof (zlen_nonneg (size_line k)). pose proof (zlen_nonneg k). pose proof (zlen_bulk k) as Hbk.
  unfold item_len. destruct (Z.leb_spec (cur_content_len m) 0) as [Hz|Hz].
  2:{ right. exists m. split; [|by split; [split|]]. destruct Hc as [?|[-> ->]]; [lia|done]. }
  rewrite (bulk_eq v), <- !app_assoc in Hd. unfold find_first_of.
  rewrite (find_if_part _ d (bulk k) (size_line v) CR (LF :: v ++ crlf ++ rest) Hd (size_line_plain v) eq_refl).
  destruct (Z.leb_spec (zlen d) (zlen (bulk k) + zlen (size_line v))); [left; split; [done|lia]|].
  destruct (Z.eqb_spec (zlen (bulk k) + zlen (size_line v)) npos); [unfold npos in *; lia|].
  rewrite (substr_part d (bulk k) (size_line v) (crlf ++ v ++ crlf ++ rest) _ Hd) by lia. rbind.
  rewrite GetLength_size_line by lia. rbind. right.
  eexists. split; [reflexivity|]. split; [|done]. split; [exact Hkey|by right].
Qed.

(** The pairs stored in order: a later value of a key replaces an earlier one. *)
Definition put_items (kvs : list (bytes * bytes)) (m : gmap bytes bytes) : gmap bytes bytes :=
  foldl (λ m kv, <[kv.1 := kv.2]> m) m kvs.

Definition small_item (kv : bytes * bytes) : Prop := zlen kv.1 < 2 ^ 31 ∧ zlen kv.2 < 2 ^ 31.

(** Between two calls: [mcontent] holds the data not yet consumed, and the
    parser is in the first of the pairs that are missing. *)
Definition mset_at (kvs : list (bytes * bytes)) (m : mset_data) : Prop :=
  setNum m = zlen kvs ∧ match kvs with [] => cur_key m = [] ∧ cur_content_len m = 0 | (k, v) :: _ => pending k v m end.

Lemma zlen_item kv : zlen (item kv) = zlen (bulk kv.1) + zlen (size_line kv.2) + 2 + zlen kv.2 + 2.
Proof. unfold item. rewrite zlen_app, (zlen_bulk kv.2). lia. Qed.

Lemma ItemParser_loop_item fuel k v rest d m :
  small_item (k, v) → zlen (item (k, v) ++ rest) < npos → d `prefix_of` item (k, v) ++ rest →
  pending k v m → 0 < setNum m →
  (zlen d < zlen (item (k, v)) ∧
   ∃ m', ItemParser_loop (S fuel) d m = Ok (MGET_REQ, m') ∧ pending k v m' ∧
         keys_values m' = keys_values m ∧ setNum m' = setNum m ∧ mcontent m' = d) ∨
  (∃ d' m', d = item (k, v) ++ d' ∧ ItemParser_loop (S fuel) d m = ItemParser_loop fuel d' m' ∧
     cur_key m' = [] ∧ cur_content_len m' = 0 ∧
     keys_values m' = <[k := v]> (keys_values m) ∧ setNum m' = i32 (setNum m - 1)).
Proof.
  intros [Hk Hv] Hb Hd Hp Hn. cbn [fst snd] in Hk, Hv. pose proof (zlen_item (k, v)) as Hi. cbn [fst snd] in Hi.
  pose proof Hb as Hb0. rewrite zlen_app in Hb0.
  pose proof (zlen_nonneg v). pose proof (zlen_nonneg rest). pose proof (zlen_nonneg d).
  pose proof (zlen_nonneg (size_line v)). pose proof (zlen_nonneg (bulk k)).
  pose proof Hd as Hd0. unfold item in Hd0, Hb. cbn [fst snd] in Hd0, Hb. rewrite <- app_assoc in Hd0, Hb.
  cbn [ItemParser_loop]. destruct (Z.leb_spec (setNum m) 0); [lia|].
  destruct (item_key_spec k v rest d m Hd0 Hb Hk Hp) as [[-> ?]|(m1 & -> & Hp1 & Hk1 & Hs1 & _)]; rbind.
  { left. split; [lia|]. by eexists. }
  destruct (item_len_spec k v rest d m1 Hd0 Hb Hv Hp1) as [[-> ?]|(m2 & -> & Hp2 & Hk2 & Hs2 & _)]; rbind.
  { left. split; [lia|]. eexists. split; [done|]. cbn. by rewrite Hk1, Hs1. }
  rewrite u64_small by (unfold npos in *; lia). rewrite <- Hi.
  destruct (Z.ltb_spec (zlen d) (zlen (item (k, v)))) as [|Hge].
  { left. split; [done|]. eexists. split; [done|]. cbn. by rewrite Hk2, Hs2, Hk1, Hs1. }
  right. apply prefix_long in Hd as (d' & -> & [t ->]); [|done]. rewrite zlen_app in Hb0. exists d'. eexists. split; [done|].
  pose proof (substr_part (item (k, v) ++ d') (bulk k ++ size_line v ++ crlf) v (crlf ++ d') (zlen v)) as Es.
  rewrite !(zlen_app (bulk k)), zlen_app in Es. change (zlen crlf) with 2 in Es. rewrite Z.add_assoc in Es.
  rewrite Es; [| |done|lia].
  2:{ unfold item. cbn [fst snd]. rewrite (bulk_eq v), <- !app_assoc. done. }
  rbind. unfold substr_from. rewrite (substr_app_end (item (k, v)) d' _ npos) by zlia. rbind.
  split; [reflexivity|]. cbn. by rewrite Hk2, Hk1, Hs2, Hs1.
Qed.

Lemma items_cons kv kvs : items (kv :: kvs) = item kv ++ items kvs.
Proof. done. Qed.

Lemma zlen_item_pos kv : 0 < zlen (item kv).
Proof. rewrite zlen_item. pose proof (zlen_bulk kv.1). zlia. Qed.

Lemma ItemParser_loop_items fuel kvs d m :
  Forall small_item kvs → zlen (items kvs) < npos → zlen kvs < 2 ^ 31 →
  d `prefix_of` items kvs → mset_at kvs m → zlen kvs ≤ Z.of_nat fuel →
  ∃ rest m', ItemParser_loop fuel d m = Ok (if rest is [] then 0 else MGET_REQ, m') ∧
    mset_at rest m' ∧ (rest = [] → d = items kvs) ∧
    (rest ≠ [] → ∃ don, kvs = don ++ rest ∧ d = items don ++ mcontent m' ∧
                 zlen d < zlen (items kvs)) ∧
    ∃ don, kvs = don ++ rest ∧ keys_values m' = put_items don (keys_values m).
Proof.
  intros Hs. revert fuel d m. induction Hs as [|[k v] kvs Hkv Hs IH]; intros fuel d m Hb Hc Hd [Hn Hp] Hf.
  { exists [], m. apply prefix_nil_inv in Hd as ->. split; [|split; [done|split; [done|split; [done|by exists []]]]].
    destruct fuel; cbn [ItemParser_loop]; rewrite Hn; done. }
  rewrite zlen_cons in *. pose proof (zlen_nonneg kvs). destruct fuel as [|fuel]; [lia|].
  rewrite items_cons in *.
  destruct (ItemParser_loop_item fuel k v (items kvs) d m Hkv Hb Hd Hp ltac:(lia))
    as [(Hl & m' & -> & Hp' & Hk' & Hn' & Hm')|(d' & m' & -> & -> & Hck & Hcl & Hk' & Hn')].
  - exists ((k, v) :: kvs), m'. split; [done|]. split; [split; [by rewrite Hn', Hn, zlen_cons|done]|].
    split; [done|]. split; [|by exists []]. intros _. exists [].
    split; [done|]. split; [done|]. rewrite zlen_app. zlia.
  - apply prefix_app_inv in Hd. rewrite zlen_app in Hb. pose proof (zlen_item_pos (k, v)).
    destruct (IH fuel d' m') as (rest & m2 & E & Hat & Hdone & Hmore & don & -> & Hkv2); try done; try lia.
    { split; [rewrite Hn', Hn, i32_small by lia; lia|]. destruct kvs as [|[k2 v2] ?]; [done|].
      split; [by left|by left]. }
    exists rest, m2. split; [done|]. split; [done|]. split; [intros Hr; by rewrite (Hdone Hr)|].
    split; [|exists ((k, v) :: don); split; [done|]; by rewrite Hkv2, Hk'].
    intros Hr. destruct (Hmore Hr) as (don2 & E2 & -> & ?). exists ((k, v) :: don2).
    split; [by rewrite E2|]. split; [by rewrite items_cons, app_assoc|]. rewrite !zlen_app in *. lia.
Qed.

Section redis_spec.
Context `{LevelDBLaws D, RepManager R}.
Context (cfg : Config.conf) (file_ok : bool).

(** the tokens of a request in the protocol's encoding are exactly its
    count line and the length line and bytes of each argument, for any number
    of non-empty arguments without CR or LF (an [mset] is cut at ten tokens). *)
Theorem Split_resp name args :
  Forall token (name :: args) → name ≠ str "mset" → name ≠ str "MSET" →
  zlen (resp (name :: args)) < npos →
  Split (resp (name :: args)) crlf = Ok (resp_tokens (name :: args)).
Proof.
  intros Ht Hm1 Hm2 Hlen. rewrite resp_joined in *. apply Split_joined; [|done|].
  - by apply resp_tokens_token.
  - by eapply no_stop_name.
Qed.

(** ** Authentication *)

(** A password is configured and the connection has not given it. *)
Definition locked (r : GentRedis) : Prop := auth r = 0 ∧ Config.get cfg (str "auth") ≠ [].

Lemma IsAuth_locked r : locked r → IsAuth cfg r = (false, r).
Proof.
  intros [Ha Hc]. unfold IsAuth. rewrite Ha. cbn. by rewrite bool_decide_eq_false_2.
Qed.

(** The commands that need no password of their own. *)
Definition open_command (c : cmd) : bool :=
  match c with PQuit | PRep | PAuth => true | _ => false end.

Lemma Parser_locked c now tokens data r m :
  locked r → open_command c = false → Parser cfg c now tokens data r m = Ok (AUTH_REQ_FAIL, r, m).
Proof.
  intros Hl Hc. pose proof (IsAuth_locked r Hl) as E.
  destruct c; try done; cbn;
    unfold Parser_key, Parser_Keys, Parser_Set, Parser_Setex, Parser_Mset, Parser_Mget,
      Parser_Slave, Parser_Info, Parser_none, Parser_Reply, with_auth; by rewrite E.
Qed.

(** C38: while a password is configured and not given, every request that names
    a command other than [quit], [rep] and [auth] is answered with the
    authentication error: the command's state, the connection's status and
    the replication manager are left as they were (but for the remembered
    command), and the password flag stays unset. *)
Theorem Process_requires_auth now data tokens name c r m :
  locked r → data ≠ [] → Split data crlf = Ok tokens → tokens !! 2%nat = Some name →
  commands !! name = Some c → open_command c = false →
  Process cfg now data r m = Ok (0, str "- " ++ REDIS_AUTH_REQ ++ crlf, set_subc (Some c) r, m) ∧
  conn_status (set_subc (Some c) r) = conn_status r ∧ locked (set_subc (Some c) r).
Proof.
  intros Hl Hd Hs Hn Hc Ho. split; [|split; [done|exact Hl]].
  unfold Process, ParseCommand. rewrite bool_decide_eq_false_2 by done. rewrite Hs. rbind.
  assert (2 < zlen tokens) by (apply lookup_lt_Some in Hn; unfold zlen; lia).
  destruct (Z.eqb_spec (zlen tokens) 0); [lia|]. destruct (Z.ltb_spec (zlen tokens) 3); [lia|].
  rewrite (vec_at_lookup tokens 2 name) by done. rbind. rewrite Hc.
  by rewrite Parser_locked.
Qed.

(** ** Requests of an authenticated connection *)

(** The password was given, or none is configured. *)
Definition unlocked (r : GentRedis) : Prop := auth r ≠ 0 ∨ Config.get cfg (str "auth") = [].

(** The command after its authentication check. *)
Definition authed (r : GentRedis) : GentRedis := (IsAuth cfg r).2.

Lemma IsAuth_unlocked r : unlocked r → IsAuth cfg r = (true, authed r).
Proof.
  intros Hu. unfold authed, IsAuth. destruct (Z.eqb_spec (auth r) 0) as [E|]; cbn; [|done].
  destruct Hu as [|Hc]; [done|]. by rewrite bool_decide_eq_true_2.
Qed.

Lemma ParseCommand_split now data tokens name c r m :
  data ≠ [] → Split data crlf = Ok tokens → tokens !! 2%nat = Some name → commands !! name = Some c →
  ParseCommand cfg now data r m = Parser cfg c now tokens data (set_subc (Some c) r) m.
Proof.
  intros Hd Hs Hn Hc. unfold ParseCommand. rewrite bool_decide_eq_false_2 by done. rewrite Hs. rbind.
  assert (2 < zlen tokens) by (apply lookup_lt_Some in Hn; unfold zlen; lia).
  destruct (Z.eqb_spec (zlen tokens) 0); [lia|]. destruct (Z.ltb_spec (zlen tokens) 3); [lia|].
  rewrite (vec_at_lookup tokens 2 name) by done. rbind. by rewrite Hc.
Qed.

Lemma Process_ok now data r m st r' m' :
  ParseCommand cfg now data r m = Ok (st, r', m') → 0 ≤ st → Process cfg now data r m = Ok (st, [], r', m').
Proof.
  intros E Hst. unfold Process. rewrite E. rbind. unfold AUTH_REQ_FAIL, AUTH_FAIL.
  repeat (rewrite (proj2 (Z.eqb_neq st _)) by lia). done.
Qed.

(** The commands with one argument, a key. *)
Definition key_command (c : cmd) : bool :=
  match c with PGet | PTtl | PDel | PExists => true | _ => false end.

Lemma command_name name c : commands !! name = Some c → key_command c = true →
  token name ∧ name ≠ str "mset" ∧ name ≠ str "MSET" ∧ zlen name < 10.
Proof.
  intros Hc Hk. unfold commands in Hc. apply elem_of_list_to_map_2 in Hc.
  repeat (apply elem_of_cons in Hc as [[= -> ->]|Hc]; [try discriminate Hk|]);
    try (by apply not_elem_of_nil in Hc);
    (split; [split; [done|repeat (constructor; [done|]); by constructor]|]; done).
Qed.

Lemma Process_key_command now name c k r m :
  commands !! name = Some c → key_command c = true → unlocked r → token k → zlen k < 2 ^ 31 →
  Process cfg now (resp [name; k]) r m =
    Ok (0, [], set_keystr k (SetStatus CONN_DATA (authed (set_subc (Some c) r))), m).
Proof.
  intros Hc Hk Hu Ht Hlen. destruct (command_name name c Hc Hk) as (Hnt & Hn1 & Hn2 & Hn3).
  assert (zlen (resp [name; k]) < npos) as Hb.
  { unfold resp, bulk. cbn [fmap list_fmap concat]. rewrite !zlen_app.
    pose proof (udec_len_le (zlen k) 10 ltac:(zlia) ltac:(lia)).
    pose proof (udec_len_le (zlen name) 10 ltac:(zlia) ltac:(lia)).
    change (zlen (udec (zlen [name; k]))) with 1. change (zlen (str "*")) with 1.
    change (zlen (str "$")) with 1. change (zlen crlf) with 2. change (zlen []) with 0.
    unfold npos. unfold zlen in *. lia. }
  assert (Split (resp [name; k]) crlf = Ok (resp_tokens [name; k])) as Hs.
  { rewrite resp_joined in *. apply Split_joined; [|done|].
    - apply resp_tokens_token. do 2 (apply Forall_cons; split; [done|]). by apply Forall_nil.
    - by eapply no_stop_name. }
  apply Process_ok; [|done]. rewrite (ParseCommand_split now _ _ name c) by done.
  assert (Parser_key cfg (resp_tokens [name; k]) (set_subc (Some c) r) =
    Ok (0, set_keystr k (SetStatus CONN_DATA (authed (set_subc (Some c) r))))) as E.
  { unfold Parser_key, with_auth. rewrite IsAuth_unlocked by done.
    change (zlen (resp_tokens [name; k]) =? 5) with true. cbn [negb].
    by rewrite (token_arg_lookup _ 3 k) by done. }
  destruct c; try discriminate Hk; cbn [Parser]; by rewrite E.
Qed.

(** ** [set]: the header, and a value in pieces *)

(** The lines before the value of [set k] with a value of [n] bytes. *)
Definition set_lines (name k : bytes) (n : Z) : list bytes :=
  [str "*3"; str "$3"; name; str "$" ++ udec (zlen k); k; str "$" ++ udec n].
Definition set_header (name k : bytes) (n : Z) : bytes := joined (set_lines name k n).

Lemma resp_set name k v : resp [name; k; v] = str "*3" ++ crlf ++ bulk name ++ bulk k ++ bulk v.
Proof. unfold resp. cbn [fmap list_fmap concat]. by rewrite app_nil_r. Qed.

Definition set_state (k chunk : bytes) (n : Z) (r : GentRedis) : GentRedis :=
  set_content (take (Z.to_nat n) chunk) n
    (set_keystr k (SetStatus CONN_NREAD (authed (set_subc (Some PSet) r)))).

Lemma Parser_value_spec pre chunk len r :
  0 ≤ len < 2 ^ 31 → zlen (pre ++ chunk) < npos →
  Parser_value (pre ++ chunk) (zlen pre) len r =
    Ok (Z.max 0 (len - zlen chunk), set_content (take (Z.to_nat len) chunk) len r).
Proof.
  intros Hl Hb. rewrite zlen_app in Hb. unfold Parser_value, substr_from.
  rewrite (substr_app_end pre chunk (zlen pre) npos) by zlia. rbind.
  destruct (Z.ltb_spec len (zlen chunk)) as [Hlt|Hge].
  - assert (chunk = take (Z.to_nat len) chunk ++ drop (Z.to_nat len) chunk) as E
      by (symmetry; apply take_drop).
    rewrite Z.max_l by lia. rewrite E at 1.
    rewrite (substr_app pre _ _ (zlen pre) len); [done|done|].
    unfold zlen in *. rewrite length_take. lia.
  - rewrite take_ge by (unfold zlen in *; lia). rewrite Z.max_r by lia.
    rewrite u64_small by zlia. rewrite i32_small by zlia. done.
Qed.

Lemma set_lines_token name k n :
  token name → token k → 0 ≤ n → Forall token (set_lines name k n).
Proof.
  intros. unfold set_lines. change (str "*3") with ([42] ++ udec 3). change (str "$3") with ([36] ++ udec 3).
  change (str "$") with [36]. repeat (apply Forall_cons; split); try done;
    try (by apply Forall_nil); apply token_header; done || zlia.
Qed.

Lemma Process_set now name k n chunk r m :
  name = str "set" ∨ name = str "SET" → unlocked r → token k → zlen k < 250 → 0 ≤ n < 2 ^ 31 →
  zlen (set_header name k n ++ chunk) < npos →
  Process cfg now (set_header name k n ++ chunk) r m =
    Ok (Z.max 0 (n - zlen chunk), [], set_state k chunk n r, m).
Proof.
  intros Hname Hu Ht Hk Hn Hb.
  assert (token name) as Hnt.
  { destruct Hname as [-> | ->]; (split; [done|]); repeat (apply Forall_cons; split; [done|]); by apply Forall_nil. }
  pose proof (set_lines_token name k n Hnt Ht ltac:(lia)) as Hls. unfold set_header in *.
  destruct (Split_head (set_lines name k n) chunk Hls Hb) as [more Hs].
  { apply no_stop_short. simpl. lia. }
  assert (joined (set_lines name k n) ++ chunk ≠ []) as Hne by (intros E; discriminate E).
  apply Process_ok; [|lia]. rewrite (ParseCommand_split now _ _ name PSet r m Hne Hs) by (done || by destruct Hname; subst).
  cbn [Parser]. unfold Parser_Set, with_auth. rewrite IsAuth_unlocked by done.
  destruct (Z.ltb_spec (zlen (set_lines name k n ++ more)) 5) as [Hlt|_].
  { rewrite zlen_app in Hlt. change (zlen (set_lines name k n)) with 6 in Hlt. zlia. }
  rewrite (token_arg_lookup _ 3 k) by (done || lia). rbind.
  destruct (Z.leb_spec 250 (zlen k)); [lia|].
  change (find_first_of (joined (set_lines name k n) ++ chunk) (str "*3") 0) with 0. cbn [Z.eqb npos Z.sub Z.pow].
  pose proof (skip_lines_joined (set_lines name k n) [] chunk Hls Hb) as E.
  cbn [app] in E. change (zlen []) with 0 in E. change (length (set_lines name k n)) with 6%nat in E.
  rewrite E. rewrite (vec_at_lookup _ 5 ([36] ++ udec n)) by done. rbind.
  rewrite GetLength_header by done. rbind. by rewrite Parser_value_spec by done.
Qed.

(** ** From request to reply *)

Lemma bulk_reply_bulk size v : zlen v < 2 ^ 31 → 14 ≤ size → bulk_reply size v = bulk v.
Proof.
  intros Hv Hs. pose proof (zlen_nonneg v). unfold bulk_reply, bulk_header, bulk, snprintf.
  rewrite u32_small by lia. rewrite take_ge; [by rewrite <- !app_assoc|].
  pose proof (udec_len_le (zlen v) 10 ltac:(lia) ltac:(lia)). rewrite !length_app. simpl. lia.
Qed.

(** The part of a value of [n] bytes that came with the request is kept. *)
Record value_begun (k chunk : bytes) (n : Z) (r : GentRedis) : Prop := {
  vb_key : keystr r = k;
  vb_content : content r = take (Z.to_nat n) chunk;
  vb_len : rlbytes r = n;
  vb_client : is_slave r = false
}.

Lemma set_state_begun k chunk n r : is_slave r = false → value_begun k chunk n (set_state k chunk n r).
Proof. intros Hsl. split; try done. unfold set_state, authed, IsAuth. cbn. by repeat case_match. Qed.

Lemma Complete_Set_ok now recont k chunk n r w :
  value_begun k chunk n r → 0 ≤ n ≤ zlen (chunk ++ recont) → ten_digits now →
  put_ok k (take (Z.to_nat n) (chunk ++ recont)) (MetaSerialize TY_STRING 0 now) (gdb w) →
  ∃ r1 g, conn_status r1 = conn_status r ∧ auth r1 = auth r ∧ Complete_Set file_ok now recont r w =
      Ok (str "+OK" ++ crlf, r1, {| gdb := g; mgr := rep_Push ADD k (mgr w) |}) ∧
    ∀ now', Db.Get now' k g = Ok (Some (take (Z.to_nat n) (chunk ++ recont))) ∧
            ∀ k', k' ≠ k → Db.Get now' k' g = Db.Get now' k' (gdb w).
Proof.
  intros [Hk Hcont Hlen Hs0] Hn Hnow Hok. unfold Complete_Set, Complete_store.
  cbn [keystr content rlbytes set_content]. rewrite Hk, Hcont, Hlen.
  set (val := take (Z.to_nat n) chunk ++ recont).
  assert (take (Z.to_nat n) val = take (Z.to_nat n) (chunk ++ recont)) as Hv.
  { subst val. destruct (decide (Z.to_nat n ≤ length chunk)%nat) as [Hle|Hgt].
    - rewrite !take_app_le by (rewrite ?length_take; lia). rewrite take_take. f_equal. lia.
    - by rewrite (take_ge chunk) by lia. }
  assert (n ≤ zlen val) as Hle.
  { rewrite zlen_app in Hn. subst val. unfold zlen in *. rewrite length_app, length_take. lia. }
  assert (∀ now', ∃ g, Db.Put file_ok now k val n 0 TY_STRING (gdb w) = Ok (true, g) ∧
            Db.Get now' k g = Ok (Some (take (Z.to_nat n) val)) ∧
            ∀ k', k' ≠ k → Db.Get now' k' g = Db.Get now' k' (gdb w)) as HP.
  { intros now'. rewrite <- Hv in Hok.
    destruct (Put_Get file_ok now now' k val n 0 TY_STRING (gdb w)) as (g & E1 & E2 & E3);
      try done; [lia|by left|]. by exists g. }
  destruct (HP 0) as (g & E & _). rewrite E. rbind.
  eexists _, g. split; [|split; [|split; [unfold stored_reply; cbn [is_slave set_content]; by rewrite Hs0|]]]; try done.
  intros now'. destruct (HP now') as (g' & E' & ? & ?). rewrite E in E'. injection E' as <-.
  by rewrite <- Hv.
Qed.

(** [set k v] followed by [get k], from the bytes of the requests to the
    bytes of the replies: whatever bytes [v] has, and wherever the data of
    the request is cut between the first read ([chunk]) and the second
    ([recont]), [Process] reports how many bytes of the value are missing,
    [Complete] answers [+OK] and logs the key for the slaves, and from then
    on [get] on any connection answers [v] as a bulk string. *)
Theorem set_then_get now now' rnd info k v chunk recont rest r r2 w :
  unlocked r → unlocked r2 → is_slave r = false → token k → zlen k < 250 → zlen v < 2 ^ 31 →
  chunk ++ recont = v ++ rest → zlen (set_header (str "set") k (zlen v) ++ chunk) < npos →
  ten_digits now → put_ok k v (MetaSerialize TY_STRING 0 now) (gdb w) →
  ∃ r1 r1' r3 w',
    Process cfg now (set_header (str "set") k (zlen v) ++ chunk) r (mgr w) =
      Ok (Z.max 0 (zlen v - zlen chunk), [], r1, mgr w) ∧
    Complete file_ok now rnd info recont r1 w = Ok (str "+OK" ++ crlf, r1', w') ∧
    mgr w' = rep_Push ADD k (mgr w) ∧
    Process cfg now' (resp [str "get"; k]) r2 (mgr w') = Ok (0, [], r3, mgr w') ∧
    Complete file_ok now' rnd info [] r3 w' = Ok (bulk v, r3, w').
Proof.
  intros Hu Hu2 Hsl Ht Hk Hv Hcut Hb Hnow Hok. pose proof (zlen_nonneg v).
  assert (take (Z.to_nat (zlen v)) (chunk ++ recont) = v) as Hval
    by (rewrite Hcut, to_nat_zlen; apply take_app_length).
  destruct (Complete_Set_ok now recont k chunk (zlen v) (set_state k chunk (zlen v) r) w) as (r1' & g & _ & _ & E & HG);
    [by apply set_state_begun|rewrite Hcut; zlia|done|by rewrite Hval|]. rewrite Hval in HG.
  assert (is_slave (set_state k chunk (zlen v) r) = false ∧
          subc (set_state k chunk (zlen v) r) = Some PSet) as [_ Hsub].
  { unfold set_state, authed, IsAuth. cbn. by repeat case_match. }
  eexists _, r1', _, _. split; [by apply Process_set; auto with lia|].
  split; [unfold Complete; rewrite Hsub; apply E|]. split; [done|].
  split; [apply (Process_key_command now' (str "get") PGet k); try done; lia|].
  unfold Complete. cbn [subc set_keystr SetStatus].
  assert (subc (authed (set_subc (Some PGet) r2)) = Some PGet) as ->
    by (unfold authed, IsAuth; by repeat case_match).
  unfold Complete_Get. cbn [keystr set_keystr gdb]. rewrite (proj1 (HG now')). rbind.
  by rewrite bulk_reply_bulk by lia.
Qed.

(** ** [mset] requests in any number of pieces *)

(** The pieces after the first one: [ContinueProcess] until it stops asking. *)
Fixpoint feed (chunks : list bytes) (r : GentRedis) : result (Z * GentRedis) :=
  match chunks with
  | [] => Ok (MGET_REQ, r)
  | c :: chunks =>
      x ← ContinueProcess c r;
      if x.1 =? MGET_REQ then feed chunks x.2 else Ok x
  end.

Definition mset_read (now : Z) (c : bytes) (chunks : list bytes) (r : GentRedis) (m : R) : result (Z * GentRedis) :=
  x ← Process cfg now c r m;
  let '(st, _, r, _) := x in
  if st =? MGET_REQ then feed chunks r else Ok (st, r).

Definition mset_header (name : bytes) (n : Z) : bytes := joined [str "*" ++ udec n; str "$4"; name].

(** No [mset] is in progress. *)
Definition mset_clean (m : mset_data) : Prop := cur_key m = [] ∧ cur_content_len m = 0.

Lemma ItemParser_items kvs d m :
  Forall small_item kvs → zlen (items kvs) < npos → zlen kvs < 2 ^ 31 →
  d `prefix_of` items kvs → mset_at kvs m →
  ∃ rest m' don, ItemParser d m = Ok (if rest is [] then 0 else MGET_REQ, m') ∧
    mset_at rest m' ∧ (rest = [] → d = items kvs) ∧
    (rest ≠ [] → d = items don ++ mcontent m' ∧ zlen d < zlen (items kvs)) ∧
    kvs = don ++ rest ∧ keys_values m' = put_items don (keys_values m).
Proof.
  intros Hs Hb Hc Hd Hat. pose proof (zlen_nonneg kvs).
  destruct (ItemParser_loop_items (Z.to_nat (setNum m)) kvs d m)
    as (rest & m' & E & Hat' & Hdone & Hmore & don & Hkvs & Hkv); try done.
  { rewrite (proj1 Hat). lia. }
  exists rest, m', don. split; [done|]. do 2 (split; [done|]). split; [|done].
  intros Hr. destruct (Hmore Hr) as (don2 & E2 & ? & ?). rewrite Hkvs in E2. by apply app_inv_tail in E2 as <-.
Qed.

Lemma feed_items kvs chunks r :
  Forall small_item kvs → zlen (items kvs) < npos → zlen kvs < 2 ^ 31 → subc r = Some PMset →
  mset_at kvs (mdata r) → Forall (λ c, c ≠ []) chunks →
  mcontent (mdata r) ++ concat chunks = items kvs → zlen (mcontent (mdata r)) < zlen (items kvs) →
  ∃ r', feed chunks r = Ok (0, r') ∧ mset_clean (mdata r') ∧ conn_status r' = CONN_DATA ∧
        keys_values (mdata r') = put_items kvs (keys_values (mdata r)).
Proof.
  intros Hs Hb Hc Hsub Hat Hne. revert kvs r Hs Hb Hc Hsub Hat.
  induction Hne as [|c chunks Hnc Hne IH]; intros kvs r Hs Hb Hc Hsub Hat Hcat Hlt.
  { cbn [concat] in Hcat. rewrite app_nil_r in Hcat. rewrite Hcat in Hlt. lia. }
  cbn [concat] in Hcat. rewrite app_assoc in Hcat.
  destruct (ItemParser_items kvs (mcontent (mdata r) ++ c) (mdata r))
    as (rest & m' & don & E & Hat' & Hdone & Hmore & -> & Hkv); try done.
  { rewrite <- Hcat. by apply prefix_app_r. }
  cbn [feed]. unfold ContinueProcess. rewrite Hsub, E. rbind. cbn [fst snd].
  destruct rest as [|kv rest]; cbn [Z.eqb MGET_REQ].
  - eexists. split; [reflexivity|]. rewrite app_nil_r in *. split; [by destruct Hat' as [? ?]|]. done.
  - destruct Hmore as [E1 Hlt1]; [done|].
    assert (items (don ++ kv :: rest) = items don ++ items (kv :: rest)) as Happ
      by (unfold items; by rewrite fmap_app, concat_app).
    rewrite E1, Happ, <- app_assoc in Hcat. apply app_inv_head in Hcat.
    rewrite E1, Happ in Hlt1. rewrite !zlen_app in Hlt1. rewrite Happ, zlen_app in Hb.
    destruct (IH (kv :: rest) (SetStatus CONN_CONREAD (set_mdata m' r))) as (r' & E2 & ? & ? & E3); try done.
    { by apply Forall_app in Hs as [_ ?]. }
    { zlia. }
    { rewrite zlen_app in Hc. zlia. }
    { cbn [mdata set_mdata SetStatus]. zlia. }
    exists r'. split; [exact E2|]. do 2 (split; [done|]). rewrite E3. cbn [mdata set_mdata SetStatus].
    unfold put_items in *. by rewrite Hkv, foldl_app.
Qed.

Lemma Process_mset now name (kvs : list (bytes * bytes)) d r m :
  name = str "mset" ∨ name = str "MSET" → unlocked r → 2 * zlen kvs + 1 < 2 ^ 31 →
  zlen (mset_header name (2 * zlen kvs + 1) ++ d) < npos → mset_clean (mdata r) →
  ∃ m0 r1, mset_clean m0 ∧ keys_values m0 = keys_values (mdata r) ∧ setNum m0 = zlen kvs ∧
    subc r1 = Some PMset ∧
    ∀ st m1, ItemParser d m0 = Ok (st, m1) → st = 0 ∨ st = MGET_REQ →
      Process cfg now (mset_header name (2 * zlen kvs + 1) ++ d) r m =
        Ok (st, [], (if st =? MGET_REQ then SetStatus CONN_CONREAD else id) (set_mdata m1 r1), m).
Proof.
  intros Hname Hu Hn Hb Hclean. unfold mset_header in *. pose proof (zlen_nonneg kvs).
  set (n := 2 * zlen kvs + 1) in *. set (ls := [str "*" ++ udec n; str "$4"; name]) in *.
  assert (token name) as Hnt.
  { destruct Hname as [-> | ->]; (split; [done|]); repeat (apply Forall_cons; split; [done|]); by apply Forall_nil. }
  assert (Forall token ls) as Hls.
  { subst ls. change (str "*") with [42]. change (str "$4") with ([36] ++ udec 4).
    repeat (apply Forall_cons; split); try done; try (by apply Forall_nil); apply token_header; done || lia. }
  destruct (Split_head ls d Hls Hb) as [more Hs]. { apply no_stop_short. simpl. lia. }
  assert (joined ls ++ d ≠ []) as Hne by (intros E; discriminate E).
  set (r1 := SetStatus CONN_NREAD (authed (set_subc (Some PMset) r))).
  assert (mdata r1 = mdata r ∧ subc r1 = Some PMset) as [Hm1 Hs1]
    by (subst r1; unfold authed, IsAuth; cbn; by repeat case_match).
  set (m0 := {| keys_values := keys_values (mdata r1); mcontent := mcontent (mdata r1);
     cur_key := cur_key (mdata r1); cur_key_end := cur_key_end (mdata r1);
     cur_content_len := cur_content_len (mdata r1); cur_content_start := cur_content_start (mdata r1);
     totalSetNum := zlen kvs; setNum := zlen kvs |}).
  exists m0, (set_mdata m0 r1). subst m0. split; [by rewrite Hm1|]. split; [by rewrite Hm1|].
  do 2 (split; [done|]). intros st m1 E Hst.
  assert (ParseCommand cfg now (joined ls ++ d) r m = Ok (st, (if st =? MGET_REQ then SetStatus CONN_CONREAD else id)
    (set_mdata m1 r1), m)) as HP.
  2:{ unfold Process. rewrite HP. rbind. by destruct Hst as [-> | ->]. }
  rewrite (ParseCommand_split now _ _ name PMset r m Hne Hs) by (done || by destruct Hname; subst).
  cbn [Parser]. unfold Parser_Mset, with_auth. rewrite IsAuth_unlocked by done.
  destruct (Z.ltb_spec (zlen (ls ++ more)) 3) as [Hlt|_].
  { rewrite zlen_app in Hlt. change (zlen ls) with 3 in Hlt. zlia. }
  rewrite (vec_at_lookup _ 0 ([42] ++ udec n)) by done. rbind. unfold substr_from.
  rewrite (substr_app_end [42] (udec n) 1 npos) by
    (done || (pose proof (udec_len_le n 10 ltac:(simpl; lia) ltac:(lia)); unfold zlen, npos; lia)).
  rbind. rewrite atoi_udec_whole by lia. rewrite (i32_small (n - 1)) by lia.
  replace (n - 1) with (zlen kvs * 2) by lia. rewrite Z.rem_mul, Z.quot_mul by done. cbn [Z.eqb negb].
  change (find_first_of (joined ls ++ d) ([42] ++ udec n) 0) with 0. cbn [Z.eqb npos Z.sub Z.pow].
  pose proof (skip_lines_joined ls [] d Hls Hb) as Ek.
  cbn [app] in Ek. change (zlen []) with 0 in Ek. change (length ls) with 3%nat in Ek.
  cbn [app]. rewrite Ek. unfold substr_from. rewrite (substr_app_end (joined ls) d (zlen (joined ls)) npos);
    [|done|rewrite zlen_app in Hb; zlia]. rbind. cbn [mdata set_mdata].
  fold r1. rewrite E. rbind. by destruct Hst as [-> | ->].
Qed.

(** C23: an [mset] whose data arrives cut into any non-empty pieces (the first
    one holding at least the command's name) is parsed as if it had arrived
    whole: the pieces are consumed to the last one, every pair is in
    [keys_values] with the later value of a repeated key, keys and values may
    hold any bytes, and the parser is ready for the next [mset]. *)
Theorem mset_any_chunks now name kvs d chunks r m :
  name = str "mset" ∨ name = str "MSET" → unlocked r → Forall small_item kvs →
  2 * zlen kvs + 1 < 2 ^ 31 → zlen (mset_header name (2 * zlen kvs + 1) ++ items kvs) < npos →
  mset_clean (mdata r) → Forall (λ c, c ≠ []) chunks → d ++ concat chunks = items kvs →
  ∃ r', mset_read now (mset_header name (2 * zlen kvs + 1) ++ d) chunks r m = Ok (0, r') ∧
        keys_values (mdata r') = put_items kvs (keys_values (mdata r)) ∧ mset_clean (mdata r').
Proof.
  intros Hname Hu Hs Hn Hb Hclean Hne Hcat. pose proof (zlen_nonneg kvs).
  rewrite zlen_app in Hb.
  destruct (Process_mset now name kvs d r m) as (m0 & r1 & Hc0 & Hk0 & Hs0 & Hsub & HP); try done.
  { rewrite <- Hcat, zlen_app in Hb. rewrite zlen_app. zlia. }
  destruct (ItemParser_items kvs d m0) as (rest & m1 & don & E & Hat & Hdone & Hmore & -> & Hkv);
    try done; try zlia.
  { rewrite <- Hcat. by apply prefix_app_r. }
  { split; [done|]. destruct kvs as [|[k v] ?]; [done|]. split; left; apply Hc0. }
  unfold mset_read. rewrite (HP _ _ E) by (destruct rest; auto). rbind.
  destruct rest as [|kv rest]; cbn [Z.eqb MGET_REQ id].
  { eexists. split; [done|]. cbn [mdata set_mdata]. rewrite Hkv, Hk0, app_nil_r.
    split; [done|]. by destruct Hat. }
  destruct Hmore as [E1 Hlt1]; [done|].
  assert (items (don ++ kv :: rest) = items don ++ items (kv :: rest)) as Happ
    by (unfold items; by rewrite fmap_app, concat_app).
  rewrite E1, Happ, <- app_assoc in Hcat. apply app_inv_head in Hcat.
  rewrite E1, Happ in Hlt1. rewrite !zlen_app in Hlt1. rewrite Happ, zlen_app in Hb.
  rewrite zlen_app in Hn.
  destruct (feed_items (kv :: rest) chunks (SetStatus CONN_CONREAD (set_mdata m1 r1)))
    as (r' & E2 & ? & ? & E3); try done; try zlia.
  { by apply Forall_app in Hs as [_ ?]. }
  { cbn [mdata set_mdata SetStatus]. zlia. }
  exists r'. split; [done|]. split; [|done]. rewrite E3. cbn [mdata set_mdata SetStatus].
  unfold put_items in *. by rewrite Hkv, foldl_app, Hk0.
Qed.
End redis_spec.

(** ** A concrete server

    The store over finite maps, and a replication manager that only keeps
    the log of changes. *)
Definition change_log : Type := list (Z * bytes).

#[global] Instance log_RepManager : RepManager change_log := {
  rep_Push t k l := l ++ [(t, k)];
  rep_SlaveReply s l := str "*3" ++ crlf;
  rep_SlaveSetStatus s l := l;
  rep_Logout k l := (true, l);
  rep_Register k all l := (None, l);
  rep_GetSlaveInfo l := str "no slave" ++ crlf;
  rep_GetInfo l := str "no master" ++ crlf
}.

Definition no_auth : Config.conf := ∅.
Definition with_password : Config.conf := {[ str "auth" := str "secret" ]}.
Definition fresh : GentRedis := GentRedis_new 0 None 0 false.
Definition empty_world : World (gmap bytes bytes) change_log := {| gdb := empty_db; mgr := [] |}.

Ltac token_solve := split; [done|repeat (apply Forall_cons; split; [done|]); by apply Forall_nil].

Lemma Split_resp_witness :
  Split (resp [str "keys"; str "u*"]) crlf = Ok [str "*2"; str "$4"; str "keys"; str "$2"; str "u*"].
Proof.
  refine (Split_resp (str "keys") [str "u*"] _ _ _ _); [|done..].
  do 2 (apply Forall_cons; split; [token_solve|]). by apply Forall_nil.
Defined.

Lemma Process_requires_auth_witness :
  Process with_password 0 (resp [str "get"; str "k"]) fresh ([] : change_log) =
    Ok (0, str "- NOAUTH Authentication required." ++ crlf, set_subc (Some PGet) fresh, []).
Proof.
  refine (proj1 (Process_requires_auth with_password 0 (resp [str "get"; str "k"])
    [str "*2"; str "$3"; str "get"; str "$1"; str "k"] (str "get") PGet fresh [] _ _ _ _ _ _));
    [split; by vm_compute|done|by vm_compute..].
Defined.

Lemma set_then_get_witness :
  ∃ r1 r1' r3 w',
    Process no_auth 1700000000 (set_header (str "set") (str "k") 4 ++ [CR; LF; 0]) fresh (mgr empty_world) =
      Ok (1, [], r1, mgr empty_world) ∧
    Complete true 1700000000 0 [] [255] r1 empty_world = Ok (str "+OK" ++ crlf, r1', w') ∧
    mgr w' = [(ADD, str "k")] ∧
    Process no_auth 1700000099 (resp [str "get"; str "k"]) fresh (mgr w') = Ok (0, [], r3, mgr w') ∧
    Complete true 1700000099 0 [] [] r3 w' = Ok (str "$4" ++ crlf ++ [CR; LF; 0; 255] ++ crlf, r3, w').
Proof.
  refine (set_then_get no_auth true 1700000000 1700000099 0 [] (str "k") [CR; LF; 0; 255] [CR; LF; 0] [255] []
    fresh fresh empty_world _ _ _ _ _ _ _ _ _ _);
    [by right|by right|done|token_solve|done|done|done|by vm_compute|by vm_compute|split; by vm_compute].
Defined.

Lemma mset_any_chunks_witness :
  ∃ r', mset_read no_auth 0 (mset_header (str "mset") 5 ++ str "$1" ++ [CR])
          [[LF; 97]; crlf ++ str "$2" ++ crlf ++ str "x"; str "y" ++ crlf ++ bulk (str "b") ++ bulk []]
          fresh ([] : change_log) = Ok (0, r') ∧
        keys_values (mdata r') = {[ str "a" := str "xy"; str "b" := [] ]} ∧ mset_clean (mdata r').
Proof.
  destruct (mset_any_chunks no_auth 0 (str "mset") [(str "a", str "xy"); (str "b", [])] (str "$1" ++ [CR])
    [[LF; 97]; crlf ++ str "$2" ++ crlf ++ str "x"; str "y" ++ crlf ++ bulk (str "b") ++ bulk []]
    fresh ([] : change_log)) as (r' & E1 & E2 & E3).
  - by left.
  - by right.
  - do 2 (apply Forall_cons; split; [split; done|]). by apply Forall_nil.
  - done.
  - done.
  - done.
  - do 3 (apply Forall_cons; split; [intros E; discriminate E|]). by apply Forall_nil.
  - by vm_compute.
  - exists r'. split; [exact E1|]. split; [|exact E3]. rewrite E2. by vm_compute.
Defined.

(** ** Requests that end the server *)

(** a [set] whose data stops between the CR and the LF of the value's
    length line makes [Process] call [substr] one past the end, which throws:
    one cut packet from a client ends the server. *)
Theorem set_cut_in_line_end_throws :
  Process no_auth 0 (joined [str "*3"; str "$3"; str "set"; str "$1"; str "k"] ++ str "$1" ++ [CR])
    fresh ([] : change_log) = Fault OutOfRange.
Proof. by vm_compute. Qed.

(** an [mset] whose first key has an empty length line makes the parser
    take the substring after the first character of an empty string, which
    throws. *)
Theorem mset_empty_length_throws :
  Process no_auth 0 (joined [str "*3"; str "$4"; str "mset"] ++ crlf) fresh ([] : change_log) = Fault OutOfRange.
Proof. by vm_compute. Qed.

(** [auth] on a server without a password is accepted, but the connection
    stays in its reading state with no reply to send: the client waits for
    an answer that never comes. *)
Theorem auth_without_password_is_silent :
  ∃ r, Process no_auth 0 (resp [str "auth"; str "x"]) fresh ([] : change_log) = Ok (0, [], r, []) ∧
       auth r = 1 ∧ conn_status r = CONN_READ.
Proof. eexists. split; [by vm_compute|]. done. Qed.
