(* ===== verification/Cmem.v ===== *)
(** * C memory blocks

    A block is the list of its bytes. Every access is checked: one that
    leaves the block is a fault, so a theorem that an operation returns also
    says that it stays inside its blocks. *)

From S2P Require Import Prelude Cstd.

Definition load (b : bytes) (i : Z) : result Z := vec_at b i.

Definition store (b : bytes) (i c : Z) : result bytes :=
  if (0 <=? i) && (i <? zlen b) then Ok (<[Z.to_nat i := c]> b) else Fault OutOfBounds.

(** [n] bytes at [off]. *)
Definition slice (b : bytes) (off n : Z) : result bytes :=
  if (0 <=? off) && (0 <=? n) && (off + n <=? zlen b) then Ok (take (Z.to_nat n) (drop (Z.to_nat off) b))
  else Fault OutOfBounds.

(** [memcpy(b + off, src, n)] where [src] is a block: [memmove] is the same
    function once the source bytes are read first. *)
Definition blit (b : bytes) (off : Z) (src : bytes) : result bytes :=
  if (0 <=? off) && (off + zlen src <=? zlen b)
  then Ok (take (Z.to_nat off) b ++ src ++ drop (Z.to_nat off + length src) b)
  else Fault OutOfBounds.

Definition memcpy (b : bytes) (off : Z) (src : bytes) (n : Z) : result bytes :=
  s ← slice src 0 n; blit b off s.

(** The sign of [memcmp] on two blocks of the same length. *)
Fixpoint memcmp (a b : bytes) : Z :=
  match a, b with
  | x :: a, y :: b => if x <? y then -1 else if y <? x then 1 else memcmp a b
  | _, _ => 0
  end.

(** The allocator: which requests (by size) it grants, and the bytes a fresh
    block happens to hold. *)
Class Malloc := {
  malloc_ok : Z → bool;
  junk : nat → bytes;
  junk_length : ∀ n, length (junk n) = n
}.

(** The block after [realloc] to [n] bytes: a prefix of the old one. *)
Definition resize `{Malloc} (b : bytes) (n : Z) : bytes :=
  take (Z.to_nat n) b ++ junk (Z.to_nat n - length b).

(** An allocator that grants everything and clears it. *)
Definition calloc_all : Malloc := {| malloc_ok n := true; junk n := replicate n 0; junk_length := λ n, length_replicate n 0 |}.

(** ** Lemmas *)

Lemma load_app a c b i : i = zlen a → load (a ++ c :: b) i = Ok c.
Proof.
  intros ->. unfold load, vec_at. rewrite zlen_app, zlen_cons.
  rewrite (proj2 (Z.leb_le 0 (zlen a))) by zlia. rewrite (proj2 (Z.ltb_lt _ _)) by zlia.
  cbn [andb]. rewrite to_nat_zlen, list_lookup_middle by done. done.
Qed.

Lemma store_app a c b i c' : i = zlen a → store (a ++ c :: b) i c' = Ok (a ++ c' :: b).
Proof.
  intros ->. unfold store. rewrite zlen_app, zlen_cons.
  rewrite (proj2 (Z.leb_le 0 (zlen a))) by zlia. rewrite (proj2 (Z.ltb_lt _ _)) by zlia.
  cbn [andb]. rewrite to_nat_zlen. f_equal.
  rewrite <- (Nat.add_0_r (length a)), insert_app_r. done.
Qed.

Lemma slice_app a b c off n : off = zlen a → n = zlen b → slice (a ++ b ++ c) off n = Ok b.
Proof.
  intros -> ->. unfold slice. rewrite !zlen_app.
  rewrite (proj2 (Z.leb_le 0 (zlen a))), (proj2 (Z.leb_le 0 (zlen b))) by zlia.
  rewrite (proj2 (Z.leb_le _ _)) by zlia. cbn [andb].
  by rewrite !to_nat_zlen, drop_app_length, take_app_length.
Qed.

Lemma slice_prefix b c n : n = zlen b → slice (b ++ c) 0 n = Ok b.
Proof. intros. by apply (slice_app []). Qed.

Lemma slice_all b n : n = zlen b → slice b 0 n = Ok b.
Proof. intros. rewrite <- (app_nil_r b) at 1. by apply slice_prefix. Qed.

Lemma blit_app a b c off src :
  off = zlen a → zlen src = zlen b → blit (a ++ b ++ c) off src = Ok (a ++ src ++ c).
Proof.
  intros -> Hl. unfold blit. rewrite !zlen_app.
  rewrite (proj2 (Z.leb_le 0 (zlen a))), (proj2 (Z.leb_le _ _)) by zlia. cbn [andb].
  rewrite to_nat_zlen, take_app_length. do 3 f_equal.
  replace (length src) with (length b) by (unfold zlen in Hl; lia).
  by rewrite app_assoc, <- length_app, drop_app_length.
Qed.

Lemma blit_prefix b c src : zlen src = zlen b → blit (b ++ c) 0 src = Ok (src ++ c).
Proof. intros. by apply (blit_app []). Qed.

Lemma memcpy_app a b c off src n :
  off = zlen a → n = zlen b → n = zlen src → memcpy (a ++ b ++ c) off src n = Ok (a ++ src ++ c).
Proof. intros -> -> Hl. unfold memcpy. rewrite slice_all by done. rbind. by apply blit_app. Qed.

Lemma memcpy_prefix b c src n :
  n = zlen b → n = zlen src → memcpy (b ++ c) 0 src n = Ok (src ++ c).
Proof. intros. by apply (memcpy_app []). Qed.

(** The byte at [n], what comes before and what comes after it. *)
Lemma block_split (b : bytes) n : 0 ≤ n < zlen b → ∃ a x c, b = a ++ x :: c ∧ zlen a = n.
Proof.
  intros Hn. destruct (lookup_lt_is_Some_2 b (Z.to_nat n)) as [x Hx]; [unfold zlen in Hn; lia|].
  exists (take (Z.to_nat n) b), x, (drop (S (Z.to_nat n)) b). split; [symmetry; by apply take_drop_middle|].
  unfold zlen in *. rewrite length_take. lia.
Qed.

Lemma slice_ok b off n :
  0 ≤ off → 0 ≤ n → off + n ≤ zlen b → slice b off n = Ok (take (Z.to_nat n) (drop (Z.to_nat off) b)).
Proof.
  intros. unfold slice. by rewrite (proj2 (Z.leb_le 0 off)), (proj2 (Z.leb_le 0 n)), (proj2 (Z.leb_le _ _)) by lia.
Qed.

Lemma blit_ok (b t : bytes) n : 0 ≤ n → n + zlen t ≤ zlen b → ∃ b', blit b n t = Ok b' ∧ zlen b' = zlen b.
Proof.
  intros Hn Hb. unfold blit. rewrite (proj2 (Z.leb_le _ _) Hn), (proj2 (Z.leb_le _ _) Hb). cbn [andb]. eexists. split; [done|].
  unfold zlen in *. rewrite !length_app, length_take, length_drop. lia.
Qed.

Lemma zlen_resize `{Malloc} b n : 0 ≤ n → zlen (resize b n) = n.
Proof.
  intros Hn. unfold resize, zlen. rewrite length_app, length_take, junk_length. lia.
Qed.

Lemma resize_prefix `{Malloc} a b n : zlen a ≤ n → ∃ t, resize (a ++ b) n = a ++ t.
Proof.
  intros Hn. unfold resize. rewrite take_app_ge by (unfold zlen in Hn; lia).
  rewrite <- app_assoc. eauto.
Qed.

Lemma memcmp_eq a b : length a = length b → memcmp a b = 0 ↔ a = b.
Proof.
  revert b. induction a as [|x a IH]; intros [|y b] Hl; simpl in *; try done.
  destruct (Z.ltb_spec x y); [split; [done|intros [= -> ?]; lia]|].
  destruct (Z.ltb_spec y x); [split; [done|intros [= -> ?]; lia]|].
  assert (x = y) as -> by lia. rewrite IH by lia. split; [by intros ->|by intros [= ->]].
Qed.

(** Writing at the end of a known part. *)
Lemma blit_at p q t : zlen t ≤ zlen q → blit (p ++ q) (zlen p) t = Ok (p ++ t ++ drop (length t) q).
Proof.
  intros Ht. rewrite <- (take_drop (length t) q) at 1. apply blit_app; [done|].
  unfold zlen in *. rewrite length_take. lia.
Qed.

Lemma memcpy_at p q t y : zlen t ≤ zlen q → memcpy (p ++ q) (zlen p) (t ++ y) (zlen t) = Ok (p ++ t ++ drop (length t) q).
Proof. intros Ht. unfold memcpy. rewrite slice_prefix by done. rbind. by apply blit_at. Qed.

Lemma zlen_drop {A} n (l : list A) : Z.of_nat n ≤ zlen l → zlen (drop n l) = zlen l - Z.of_nat n.
Proof. unfold zlen. rewrite length_drop. lia. Qed.

Lemma load_0 c b : load (c :: b) 0 = Ok c.
Proof. by apply (load_app [] c b). Qed.

Lemma load_1 a c b : load (a :: c :: b) 1 = Ok c.
Proof. by apply (load_app [a] c b). Qed.
