(* ===== verification/Sds.v ===== *)
(** * Dynamic strings (pack/hiredis/sds.h, pack/hiredis/sds.c)

    An [sds] is a header with the length and the free space, two [int]s, and
    the block behind it. [None] is the NULL that an operation returns when
    memory is short; an operation that goes on with such a NULL faults. *)

From S2P Require Import Prelude Cstd Cmem.

Module Sds.

(** [struct sdshdr]: [buf] is the whole block after the header. *)
Record sds := { len : Z; free : Z; buf : bytes }.

(** [sizeof(struct sdshdr)]. *)
Definition HDR : Z := 8.
Definition SDS_MAX_PREALLOC : Z := 1024 * 1024.

Definition sdslen (s : sds) : Z := u64 (len s).
Definition sdsavail (s : sds) : Z := u64 (free s).

(** The value of an [int] expression. *)
Definition int_of (z : Z) : result Z :=
  if (- 2 ^ 31 <=? z) && (z <? 2 ^ 31) then Ok z else Fault IntOverflow.

(** The use of a pointer that may be NULL. *)
Definition nn {A} (p : option A) : result A := match p with Some a => Ok a | None => Fault OutOfBounds end.

(** [strlen] of the string in a block. *)
Definition strlen (b : bytes) : result Z :=
  let n := zlen (cstr b) in if n <? zlen b then Ok n else Fault OutOfBounds.

Section sds.
Context `{Malloc}.

Definition sdsnewlen (init : option bytes) (initlen : Z) : result (option sds) :=
  let size := u64 (HDR + initlen + 1) in
  if negb (malloc_ok size) then Ok None
  else
    let n := Z.to_nat (size - HDR) in
    let b := match init with Some _ => junk n | None => replicate n 0 end in
    b ← match init with
        | Some t => if initlen =? 0 then Ok b else memcpy b 0 t initlen
        | None => Ok b
        end;
    b ← store b initlen 0;
    Ok (Some {| len := i32 initlen; free := 0; buf := b |}).

Definition sdsempty : result (option sds) := sdsnewlen (Some []) 0.

(** The argument is the C string, up to its NUL. *)
Definition sdsnew (init : option bytes) : result (option sds) :=
  let initlen := match init with None => 0 | Some t => zlen (cstr t) end in
  sdsnewlen init initlen.

Definition sdsdup (s : sds) : result (option sds) := sdsnewlen (Some (buf s)) (sdslen s).

Definition sdsupdatelen (s : sds) : result sds :=
  n ← strlen (buf s);
  let reallen := i32 n in
  d ← int_of (len s - reallen);
  f ← int_of (free s + d);
  Ok {| len := reallen; free := f; buf := buf s |}.

Definition sdsclear (s : sds) : result sds :=
  f ← int_of (free s + len s);
  b ← store (buf s) 0 0;
  Ok {| len := 0; free := f; buf := b |}.

Definition sdsMakeRoomFor (s : sds) (addlen : Z) : result (option sds) :=
  let free' := sdsavail s in
  if addlen <=? free' then Ok (Some s)
  else
    let len' := sdslen s in
    let newlen := u64 (len' + addlen) in
    let newlen := if newlen <? SDS_MAX_PREALLOC then u64 (newlen * 2) else u64 (newlen + SDS_MAX_PREALLOC) in
    let size := u64 (HDR + newlen + 1) in
    if negb (malloc_ok size) then Ok None
    else Ok (Some {| len := len s; free := i32 (u64 (newlen - len')); buf := resize (buf s) (size - HDR) |}).

Definition sdsRemoveFreeSpace (s : sds) : result sds :=
  let size := u64 (HDR + len s + 1) in
  if negb (malloc_ok size) then Fault OutOfBounds
  else Ok {| len := len s; free := 0; buf := resize (buf s) (size - HDR) |}.

Definition sdsAllocSize (s : sds) : Z := u64 (HDR + len s + free s + 1).

Definition sdsIncrLen (s : sds) (incr : Z) : result sds :=
  if free s <? incr then Fault AssertFailed
  else
    l ← int_of (len s + incr);
    f ← int_of (free s - incr);
    if f <? 0 then Fault AssertFailed
    else b ← store (buf s) l 0; Ok {| len := l; free := f; buf := b |}.

Definition sdsgrowzero (s : sds) (newlen : Z) : result (option sds) :=
  let curlen := u64 (len s) in
  if newlen <=? curlen then Ok (Some s)
  else
    o ← sdsMakeRoomFor s (newlen - curlen);
    match o with
    | None => Ok None
    | Some s =>
        b ← blit (buf s) curlen (replicate (Z.to_nat (newlen - curlen + 1)) 0);
        t ← int_of (len s + free s);
        let totlen := u64 t in
        let l := i32 newlen in
        Ok (Some {| len := l; free := i32 (u64 (totlen - l)); buf := b |})
    end.

Definition sdscatlen (s : sds) (t : bytes) (n : Z) : result (option sds) :=
  let curlen := sdslen s in
  o ← sdsMakeRoomFor s n;
  match o with
  | None => Ok None
  | Some s =>
      b ← memcpy (buf s) curlen t n;
      let l := i32 (u64 (curlen + n)) in
      let f := i32 (u64 (free s - n)) in
      b ← store b (u64 (curlen + n)) 0;
      Ok (Some {| len := l; free := f; buf := b |})
  end.

Definition sdscat (s : sds) (t : bytes) : result (option sds) := sdscatlen s (cstr t) (zlen (cstr t)).
Definition sdscatsds (s t : sds) : result (option sds) := sdscatlen s (buf t) (sdslen t).

Definition sdscpylen (s : sds) (t : bytes) (n : Z) : result (option sds) :=
  tot ← int_of (free s + len s);
  let totlen := u64 tot in
  o ← (if totlen <? n then
         o ← sdsMakeRoomFor s (u64 (n - len s));
         match o with
         | None => Ok None
         | Some s => tot ← int_of (free s + len s); Ok (Some (s, u64 tot))
         end
       else Ok (Some (s, totlen)));
  match o with
  | None => Ok None
  | Some (s, totlen) =>
      b ← memcpy (buf s) 0 t n;
      b ← store b n 0;
      Ok (Some {| len := i32 n; free := i32 (u64 (totlen - n)); buf := b |})
  end.

Definition sdscpy (s : sds) (t : bytes) : result (option sds) := sdscpylen s (cstr t) (zlen (cstr t)).

(** ** Numbers *)

Definition SDS_LLSTR_SIZE : Z := 21.

(** [do *p++ = '0'+(v%10); v /= 10; while(v)]: the characters in the order
    they are written. A 64-bit number has at most 20 digits. *)
Fixpoint ll_digits (fuel : nat) (v : Z) : bytes :=
  match fuel with
  | O => []
  | S fuel => (48 + v `mod` 10) :: (if v / 10 =? 0 then [] else ll_digits fuel (v / 10))
  end.

(** [while(s < p)]: swaps from both ends. *)
Fixpoint reverse_loop (fuel : nat) (b : bytes) (i j : Z) : result bytes :=
  match fuel with
  | O => Ok b
  | S fuel =>
      if i <? j then
        aux ← load b i;
        c ← load b j;
        b ← store b i c;
        b ← store b j aux;
        reverse_loop fuel b (i + 1) (j - 1)
      else Ok b
  end.

(** The characters and a NUL are written into [b], then reversed in place. *)
Definition write_reversed (b chars : bytes) : result (Z * bytes) :=
  let l := zlen chars in
  b ← blit b 0 (chars ++ [0]);
  b ← reverse_loop (length chars) b 0 (l - 1);
  Ok (l, b).

(** [-value] of the least [long long] overflows. *)
Definition ll_abs (value : Z) : result Z :=
  if value <? 0 then (if value =? - 2 ^ 63 then Fault IntOverflow else Ok (- value)) else Ok value.

Definition sdsll2str (b : bytes) (value : Z) : result (Z * bytes) :=
  v ← ll_abs value;
  write_reversed b (ll_digits 20 v ++ (if value <? 0 then [45] else [])).

Definition sdsull2str (b : bytes) (v : Z) : result (Z * bytes) := write_reversed b (ll_digits 20 v).

(** ** Formatted output *)

(** [sdscatvprintf]: [text] is the whole output of the format; the buffer is
    doubled until [vsnprintf] leaves its last but one byte alone. *)
Fixpoint vprintf_loop (fuel : nat) (buflen : Z) (text : bytes) : result (option bytes) :=
  match fuel with
  | O => Ok None
  | S fuel =>
      if negb (malloc_ok buflen) then Ok None
      else
        b ← store (junk (Z.to_nat buflen)) (buflen - 2) 0;
        b ← blit b 0 (snprintf buflen text ++ [0]);
        c ← load b (buflen - 2);
        if negb (c =? 0) then vprintf_loop fuel (u64 (buflen * 2)) text
        else Ok (Some b)
  end.

Definition sdscatvprintf (s : sds) (text : bytes) : result (option sds) :=
  o ← vprintf_loop (S (length text)) 16 text;
  match o with None => Ok None | Some b => sdscat s b end.

Definition sdscatprintf (s : sds) (text : bytes) : result (option sds) := sdscatvprintf s text.

(** The arguments of [sdscatfmt]. *)
Inductive fmtarg := FStr (t : bytes) | FSds (t : sds) | FInt (z : Z) | FLongLong (z : Z) | FUInt (z : Z) | FULongLong (z : Z).

(** Appends [l] bytes of [t] at position [i]. *)
Definition fmt_append (s : sds) (i : Z) (t : bytes) (l : Z) : result (sds * Z) :=
  s ← (if free s <? l then o ← sdsMakeRoomFor s (u64 l); nn o else Ok s);
  b ← memcpy (buf s) i t (u64 l);
  l' ← int_of (len s + l);
  f ← int_of (free s - l);
  i ← int_of (i + l);
  Ok ({| len := l'; free := f; buf := b |}, i).

Definition fmt_char (s : sds) (i c : Z) : result (sds * Z) :=
  b ← store (buf s) i c;
  i ← int_of (i + 1);
  l ← int_of (len s + 1);
  f ← int_of (free s - 1);
  Ok ({| len := l; free := f; buf := b |}, i).

(** [va_arg] with the type the conversion asks for. *)
Definition int_arg (next : Z) (a : fmtarg) : option Z :=
  match a with
  | FInt z => if next =? 105 then Some z else None
  | FLongLong z => if next =? 73 then Some z else None
  | _ => None
  end.
Definition uint_arg (next : Z) (a : fmtarg) : option Z :=
  match a with
  | FUInt z => if next =? 117 then Some z else None
  | FULongLong z => if (next =? 85) || (next =? 84) then Some z else None
  | _ => None
  end.

(** One [%] conversion [next]; the arguments are consumed in order. *)
Definition fmt_conv (next : Z) (args : list fmtarg) (s : sds) (i : Z) : result (sds * Z * list fmtarg) :=
  if next =? 115 (* s *) then
    match args with
    | FStr t :: args => x ← fmt_append s i (cstr t) (i32 (zlen (cstr t))); Ok (x, args)
    | _ => Fault OutOfBounds
    end
  else if next =? 83 (* S *) then
    match args with
    | FSds t :: args => x ← fmt_append s i (buf t) (i32 (sdslen t)); Ok (x, args)
    | _ => Fault OutOfBounds
    end
  else if (next =? 105) || (next =? 73) (* i I *) then
    match args with
    | a :: args =>
        z ← nn (int_arg next a);
        '(l, b) ← sdsll2str (junk (Z.to_nat SDS_LLSTR_SIZE)) z;
        x ← fmt_append s i b l; Ok (x, args)
    | [] => Fault OutOfBounds
    end
  else if (next =? 117) || (next =? 85) || (next =? 84) (* u U T *) then
    match args with
    | a :: args =>
        z ← nn (uint_arg next a);
        '(l, b) ← sdsull2str (junk (Z.to_nat SDS_LLSTR_SIZE)) z;
        x ← fmt_append s i b l; Ok (x, args)
    | [] => Fault OutOfBounds
    end
  else x ← fmt_char s i next; Ok (x, args).

(** A [%] at the end of the format makes the loop step over the terminator. *)
Fixpoint fmt_loop (f : bytes) (args : list fmtarg) (s : sds) (i : Z) : result (sds * Z) :=
  match f with
  | [] => Ok (s, i)
  | c :: f =>
      s ← (if free s =? 0 then o ← sdsMakeRoomFor s 1; nn o else Ok s);
      if c =? 37 then
        match f with
        | [] => Fault OutOfBounds
        | next :: f => '(s, i, args) ← fmt_conv next args s i; fmt_loop f args s i
        end
      else '(s, i) ← fmt_char s i c; fmt_loop f args s i
  end.

Definition sdscatfmt (s : sds) (fmt : bytes) (args : list fmtarg) : result sds :=
  '(s, i) ← fmt_loop (cstr fmt) args s (i32 (sdslen s));
  b ← store (buf s) i 0;
  Ok {| len := len s; free := free s; buf := b |}.

(** ** In-place changes *)

(** [strchr(cset, c)]: the terminator counts as a member. *)
Definition strchr (cset : bytes) (c : Z) : bool := (c =? 0) || mem (cstr cset) c.

Fixpoint trim_left (fuel : nat) (b cset : bytes) (sp last : Z) : result Z :=
  match fuel with
  | O => Ok sp
  | S fuel =>
      if sp <=? last then c ← load b sp; if strchr cset c then trim_left fuel b cset (sp + 1) last else Ok sp
      else Ok sp
  end.

Fixpoint trim_right (fuel : nat) (b cset : bytes) (ep : Z) : result Z :=
  match fuel with
  | O => Ok ep
  | S fuel =>
      if 0 <? ep then c ← load b ep; if strchr cset c then trim_right fuel b cset (ep - 1) else Ok ep
      else Ok ep
  end.

Definition sdstrim (s : sds) (cset : bytes) : result sds :=
  let last := sdslen s - 1 in
  let fuel := Z.to_nat (sdslen s) in
  sp ← trim_left fuel (buf s) cset 0 last;
  ep ← trim_right fuel (buf s) cset last;
  let n := if ep <? sp then 0 else ep - sp + 1 in
  b ← (if negb (sp =? 0) then t ← slice (buf s) sp n; blit (buf s) 0 t else Ok (buf s));
  b ← store b n 0;
  Ok {| len := i32 n; free := i32 (u64 (free s + (len s - n))); buf := b |}.

(** [(start > end) ? 0 : (end-start)+1], an [int] expression. *)
Definition range_len (start last : Z) : result Z :=
  if last <? start then Ok 0 else int_of (last - start + 1).

(** The bounds of [sdsrange]: the first index and the number of bytes. *)
Definition range_bounds (len' start last : Z) : result (Z * Z) :=
  let start := if start <? 0 then Z.max 0 (i32 (u64 (len' + start))) else start in
  let last := if last <? 0 then Z.max 0 (i32 (u64 (len' + last))) else last in
  newlen ← range_len start last;
  if negb (newlen =? 0) then
    if i32 len' <=? start then Ok (start, 0)
    else if i32 len' <=? last then
      newlen ← range_len start (i32 (u64 (len' - 1))); Ok (start, newlen)
    else Ok (start, newlen)
  else Ok (0, newlen).

Definition sdsrange (s : sds) (start last : Z) : result sds :=
  let len' := sdslen s in
  if len' =? 0 then Ok s
  else
    '(start, newlen) ← range_bounds len' start last;
    b ← (if negb (start =? 0) && negb (newlen =? 0) then t ← slice (buf s) start newlen; blit (buf s) 0 t
         else Ok (buf s));
    b ← store b newlen 0;
    Ok {| len := i32 newlen; free := i32 (u64 (free s + (len s - newlen))); buf := b |}.

(** [for (j = 0; j < len; j++) s[j] = f(s[j])]. *)
Fixpoint map_loop (fuel : nat) (f : Z → Z) (b : bytes) (j : Z) : result bytes :=
  match fuel with
  | O => Ok b
  | S fuel => c ← load b j; b ← store b j (f c); map_loop fuel f b (j + 1)
  end.

Definition map_chars (f : Z → Z) (s : sds) : result sds :=
  b ← map_loop (Z.to_nat (i32 (sdslen s))) f (buf s) 0;
  Ok {| len := len s; free := free s; buf := b |}.

Definition sdstolower (s : sds) : result sds := map_chars tolower s.
Definition sdstoupper (s : sds) : result sds := map_chars toupper s.

(** The replacement of one character: the first match in [from]. *)
Fixpoint mapchar (from to : bytes) (c : Z) : Z :=
  match from, to with
  | f :: from, t :: to => if c =? f then t else mapchar from to c
  | _, _ => c
  end.

(** [from] and [to] hold [setlen] characters each. *)
Definition sdsmapchars (s : sds) (from to : bytes) (setlen : Z) : result sds :=
  f ← slice from 0 setlen;
  t ← slice to 0 setlen;
  b ← map_loop (Z.to_nat (sdslen s)) (mapchar f t) (buf s) 0;
  Ok {| len := len s; free := free s; buf := b |}.

Definition sdscmp (s1 s2 : sds) : result Z :=
  let l1 := sdslen s1 in
  let l2 := sdslen s2 in
  let minlen := if l1 <? l2 then l1 else l2 in
  a ← slice (buf s1) 0 minlen;
  b ← slice (buf s2) 0 minlen;
  let cmp := memcmp a b in
  Ok (if cmp =? 0 then i32 (u64 (l1 - l2)) else cmp).

(** ** Splitting and joining *)

(** Is the separator at [j]? *)
Definition sep_at (s sep : bytes) (seplen j : Z) : result bool :=
  c ← load s j;
  d ← load sep 0;
  if (seplen =? 1) && (c =? d) then Ok true
  else a ← slice s j seplen; b ← slice sep 0 seplen; Ok (memcmp a b =? 0).

(** The loop of [sdssplitlen]: where the last element starts and the tokens
    so far; [None] when memory is short. *)
Fixpoint split_loop (fuel : nat) (s : bytes) (len' : Z) (sep : bytes) (seplen j start slots : Z) (tokens : list sds)
    : result (option (Z * list sds)) :=
  match fuel with
  | O => Ok (Some (start, tokens))
  | S fuel =>
      if j <? len' - (seplen - 1) then
        let grow := slots <? zlen tokens + 2 in
        let slots := if grow then slots * 2 else slots in
        if grow && negb (malloc_ok (8 * slots)) then Ok None
        else
          hit ← sep_at s sep seplen j;
          if (hit : bool) then
            t ← slice s start (j - start);
            o ← sdsnewlen (Some t) (j - start);
            match o with
            | None => Ok None
            | Some tok => split_loop fuel s len' sep seplen (j + seplen) (j + seplen) slots (tokens ++ [tok])
            end
          else split_loop fuel s len' sep seplen (j + 1) start slots tokens
      else Ok (Some (start, tokens))
  end.

Definition sdssplitlen (s : bytes) (len' : Z) (sep : bytes) (seplen : Z) : result (option (list sds)) :=
  if (seplen <? 1) || (len' <? 0) then Ok None
  else if negb (malloc_ok (8 * 5)) then Ok None
  else if len' =? 0 then Ok (Some [])
  else
    o ← split_loop (Z.to_nat len') s len' sep seplen 0 0 5 [];
    match o with
    | None => Ok None
    | Some (start, tokens) =>
        t ← slice s start (len' - start);
        o ← sdsnewlen (Some t) (len' - start);
        match o with None => Ok None | Some tok => Ok (Some (tokens ++ [tok])) end
    end.

(** The digits are written backwards from the end of [buf[32]], and the
    string starts at the last character written. *)
Definition sdsfromlonglong (value : Z) : result (option sds) :=
  v ← ll_abs value;
  let chars := ll_digits 20 v ++ (if value <? 0 then [45] else []) in
  let p := 32 - zlen chars in
  b ← blit (junk 32) p (rev chars);
  t ← slice b p (32 - p);
  sdsnewlen (Some t) (32 - p).

(** [%02x] of a byte. *)
Definition hex_char (d : Z) : Z := if d <? 10 then 48 + d else 87 + d.
Definition hex2 (c : Z) : bytes := [hex_char (c / 16); hex_char (c mod 16)].

Definition repr_char (s : sds) (c : Z) : result (option sds) :=
  if (c =? 92) || (c =? 34) then sdscatprintf s [92; c]
  else if c =? 10 then sdscatlen s (str "\n") 2
  else if c =? 13 then sdscatlen s (str "\r") 2
  else if c =? 9 then sdscatlen s (str "\t") 2
  else if c =? 7 then sdscatlen s (str "\a") 2
  else if c =? 8 then sdscatlen s (str "\b") 2
  else if isprint c then sdscatprintf s [c]
  else sdscatprintf s (str "\x" ++ hex2 c).

Fixpoint repr_loop (s : option sds) (p : bytes) : result (option sds) :=
  match p with
  | [] => Ok s
  | c :: p => s ← nn s; s ← repr_char s c; repr_loop s p
  end.

Definition sdscatrepr (s : sds) (p : bytes) (n : Z) : result (option sds) :=
  s ← sdscatlen s [34] 1;
  t ← slice p 0 n;
  s ← repr_loop s t;
  s ← nn s;
  sdscatlen s [34] 1.

Definition is_hex_digit (c : Z) : bool :=
  ((48 <=? c) && (c <=? 57)) || ((97 <=? c) && (c <=? 102)) || ((65 <=? c) && (c <=? 70)).

Definition hex_digit_to_int (c : Z) : Z :=
  if (48 <=? c) && (c <=? 57) then c - 48
  else if (97 <=? c) && (c <=? 102) then c - 87
  else if (65 <=? c) && (c <=? 70) then c - 55
  else 0.

(** The character after a backslash in double quotes. *)
Definition unescape (c : Z) : Z :=
  if c =? 110 then 10 else if c =? 114 then 13 else if c =? 116 then 9
  else if c =? 98 then 8 else if c =? 97 then 7 else c.

(** A closing quote must be followed by a space or by nothing. *)
Definition closes (p : bytes) : bool := match p with [] => true | c :: _ => isspace c end.

Definition cat1 (s : sds) (c : Z) : result sds := o ← sdscatlen s [c] 1; nn o.

(** The state of the token loop: outside quotes, [inq] and [insq]. *)
Inductive quoting := NoQuote | InQ | InSq.

(** Reads one token from [p]; the empty list is the terminator. [None] is
    [goto err]. *)
Fixpoint token_loop (q : quoting) (p : bytes) (current : sds) : result (option (sds * bytes)) :=
  match q with
  | InQ =>
      match p with
      | [] => Ok None
      | a :: p1 =>
          if a =? 92 then
            match p1 with
            | [] => current ← cat1 current a; token_loop InQ p1 current
            | c :: p2 =>
                match p2 with
                | h1 :: h2 :: p3 =>
                    if (c =? 120) && is_hex_digit h1 && is_hex_digit h2 then
                      current ← cat1 current (hex_digit_to_int h1 * 16 + hex_digit_to_int h2);
                      token_loop InQ p3 current
                    else current ← cat1 current (unescape c); token_loop InQ p2 current
                | _ => current ← cat1 current (unescape c); token_loop InQ p2 current
                end
            end
          else if a =? 34 then (if closes p1 then Ok (Some (current, p1)) else Ok None)
          else current ← cat1 current a; token_loop InQ p1 current
      end
  | InSq =>
      match p with
      | [] => Ok None
      | a :: p1 =>
          let plain :=
            if a =? 39 then (if closes p1 then Ok (Some (current, p1)) else Ok None)
            else current ← cat1 current a; token_loop InSq p1 current in
          match p1 with
          | c :: p2 =>
              if (a =? 92) && (c =? 39) then current ← cat1 current 39; token_loop InSq p2 current else plain
          | [] => plain
          end
      end
  | NoQuote =>
      match p with
      | [] => Ok (Some (current, []))
      | c :: p' =>
          if (c =? 32) || (c =? 10) || (c =? 13) || (c =? 9) then Ok (Some (current, p'))
          else if c =? 34 then token_loop InQ p' current
          else if c =? 39 then token_loop InSq p' current
          else current ← cat1 current c; token_loop NoQuote p' current
      end
  end.

Fixpoint args_loop (fuel : nat) (p : bytes) (vector : list sds) : result (option (list sds)) :=
  match fuel with
  | O => Ok None
  | S fuel =>
      match skip_spaces p with
      | [] => Ok (Some vector)
      | p =>
          e ← sdsempty;
          e ← nn e;
          o ← token_loop NoQuote p e;
          match o with
          | None => Ok None
          | Some (current, p) => args_loop fuel p (vector ++ [current])
          end
      end
  end.

Definition sdssplitargs (line : bytes) : result (option (list sds)) :=
  args_loop (S (length (cstr line))) (cstr line) [].

Fixpoint join_loop {A} (cat : sds → A → result (option sds)) (join : option sds) (argv : list A) (sep : bytes)
    (seplen : Z) : result (option sds) :=
  match argv with
  | [] => Ok join
  | a :: argv =>
      j ← nn join;
      join ← cat j a;
      join ← match argv with [] => Ok join | _ => j ← nn join; sdscatlen j sep seplen end;
      join_loop cat join argv sep seplen
  end.

Definition sdsjoin (argv : list bytes) (sep : bytes) (seplen : Z) : result (option sds) :=
  e ← sdsempty; join_loop sdscat e argv sep seplen.

Definition sdsjoinsds (argv : list sds) (sep : bytes) (seplen : Z) : result (option sds) :=
  e ← sdsempty; join_loop sdscatsds e argv sep seplen.
End sds.
End Sds.
