(* ===== verification/SdsSpec.v ===== *)
(** * What the dynamic strings guarantee (theorems about Sds.v)

    Every operation keeps the representation invariant [repr] and has the
    effect on the represented bytes that its comment in sds.c promises. *)

From S2P Require Import Prelude Cstd Cmem Sds.
Import Sds.

Section sds_spec.
Context `{Malloc}.

(** ** The strings that are represented *)

(** [s] holds the bytes [v]: they are followed by a NUL and by the free
    space, and the whole allocation fits an [int]. *)
Definition repr (s : sds) (v : bytes) : Prop :=
  ∃ spare, buf s = v ++ 0 :: spare ∧ len s = zlen v ∧ free s = zlen spare ∧ HDR + zlen (buf s) < 2 ^ 31.

(** A length that no preallocation takes over the range of an [int]. *)
Definition LIMIT : Z := 2 ^ 31 - 2 ^ 21.

(** An operation either returns a string that holds [v], or NULL because the
    allocator denied a request. It never faults. *)
Definition returns (r : result (option sds)) (v : bytes) : Prop :=
  (r = Ok None ∧ ∃ n, malloc_ok n = false) ∨ (∃ s, r = Ok (Some s) ∧ repr s v).

Lemma repr_bounds s v : repr s v → sdslen s = zlen v ∧ sdsavail s = free s ∧ 0 ≤ free s ∧
  HDR + zlen v + free s + 1 < 2 ^ 31 ∧ len s = zlen v.
Proof.
  intros (spare & Hb & Hl & Hf & Hs). rewrite Hb, zlen_app, zlen_cons in Hs. unfold sdslen, sdsavail, HDR in *.
  pose proof (zlen_nonneg v). pose proof (zlen_nonneg spare). rewrite Hl, Hf, !u64_small by lia.
  repeat split; lia.
Qed.

Lemma int_of_ok z : - 2 ^ 31 ≤ z < 2 ^ 31 → int_of z = Ok z.
Proof. intros. unfold int_of. by rewrite (proj2 (Z.leb_le _ _)), (proj2 (Z.ltb_lt _ _)) by lia. Qed.

(** The first [n] bytes of the block overwritten by [t], then a NUL. *)
Lemma repr_overwrite s v a t :
  repr s v → a `prefix_of` v → zlen a + zlen t ≤ zlen v + free s →
  ∃ b, memcpy (buf s) (zlen a) t (zlen t) = Ok b ∧
    ∃ b', store b (zlen a + zlen t) 0 = Ok b' ∧
      ∀ l f, l = zlen a + zlen t → f = zlen v + free s - l → repr {| len := l; free := f; buf := b' |} (a ++ t).
Proof.
  intros Hr [v2 ->] Hroom. pose proof (zlen_nonneg t). pose proof (zlen_nonneg a).
  destruct Hr as (spare & Eb & El & Ef & Es). rewrite Ef in *. rewrite zlen_app in *.
  destruct (block_split (v2 ++ 0 :: spare) (zlen t)) as (b & x & c & E & Hbl); [zlia|].
  assert (zlen (v2 ++ 0 :: spare) = zlen (b ++ x :: c)) as Hl by (by rewrite E).
  rewrite <- app_assoc, E in Eb. rewrite Eb in *. rewrite (memcpy_app a b (x :: c) (zlen a) t (zlen t)) by done.
  eexists. split; [done|]. rewrite app_assoc, (store_app (a ++ t) x c) by (by rewrite zlen_app).
  eexists. split; [done|]. intros l f -> ->. exists c. cbn [buf len free]. unfold HDR in *.
  split; [done|]. autorewrite with zlen in *. repeat split; lia.
Qed.

(** A block whose header is right, whether or not it is terminated. *)
Definition block_ok (s : sds) : Prop :=
  0 ≤ len s ∧ 0 ≤ free s ∧ zlen (buf s) = len s + free s + 1 ∧ HDR + zlen (buf s) < 2 ^ 31.

Lemma MakeRoom_block s p n :
  block_ok s → p `prefix_of` buf s → zlen p ≤ len s + 1 → 0 ≤ n → len s + n < LIMIT →
  (sdsMakeRoomFor s n = Ok None ∧ ∃ n, malloc_ok n = false) ∨
  (∃ s', sdsMakeRoomFor s n = Ok (Some s') ∧ block_ok s' ∧ p `prefix_of` buf s' ∧ len s' = len s ∧ n ≤ free s').
Proof.
  intros (Hl & Hf & Hz & Hb) [r Er] Hp Hn Hlim. unfold sdsMakeRoomFor, sdsavail, sdslen, HDR in *.
  rewrite !(u64_small (free s)), !(u64_small (len s)) by lia.
  destruct (Z.leb_spec n (free s)).
  { right. exists s. unfold block_ok, HDR. repeat split; try lia. by exists r. }
  rewrite (u64_small (len s + n)) by (unfold LIMIT in *; lia).
  set (newlen := if _ <? _ then _ else _).
  assert (len s + n ≤ newlen < 2 ^ 31 - 2 ^ 20) as Hnew.
  { subst newlen. unfold SDS_MAX_PREALLOC, LIMIT in *. case_match eqn:E; [apply Z.ltb_lt in E|apply Z.ltb_ge in E];
      rewrite u64_small; lia. }
  clearbody newlen. rewrite (u64_small (8 + newlen + 1)), (u64_small (newlen - len s)), i32_small by lia.
  destruct (malloc_ok (8 + newlen + 1)) eqn:Em; cbn [negb]; [right|left; eauto].
  eexists. split; [done|]. cbn [len free buf]. unfold block_ok, HDR. cbn [len free buf].
  rewrite zlen_resize by lia. split; [lia|]. split; [|split; [done|lia]].
  rewrite Er. destruct (resize_prefix p r (8 + newlen + 1 - 8)) as [t ->]; [lia|]. by exists t.
Qed.

Lemma repr_block s v : repr s v ↔ block_ok s ∧ (v ++ [0]) `prefix_of` buf s ∧ len s = zlen v.
Proof.
  unfold block_ok, HDR. split.
  - intros (spare & Eb & El & Ef & Es). unfold HDR in *. rewrite Eb in *. autorewrite with zlen in *.
    repeat split; try zlia. exists spare. by rewrite <- app_assoc.
  - intros ((Hl & Hf & Hz & Hb) & [t Et] & E). exists t. rewrite <- app_assoc in Et. rewrite Et in *.
    unfold HDR. autorewrite with zlen in *. repeat split; zlia.
Qed.

Lemma MakeRoom_repr s v n :
  repr s v → 0 ≤ n → zlen v + n < LIMIT →
  (sdsMakeRoomFor s n = Ok None ∧ ∃ n, malloc_ok n = false) ∨
  (∃ s', sdsMakeRoomFor s n = Ok (Some s') ∧ repr s' v ∧ n ≤ free s').
Proof.
  intros (Hb & Hp & Hl)%repr_block Hn Hlim.
  destruct (MakeRoom_block s (v ++ [0]) n Hb Hp) as [?|(s' & E & Hb' & Hp' & Hl' & Hf')]; [zlia|done|lia|by left|].
  right. exists s'. split; [done|]. split; [|done]. apply repr_block. by rewrite Hl'.
Qed.

Lemma sdscatlen_repr s v t n :
  repr s v → n = zlen t → zlen v + n < LIMIT → returns (sdscatlen s t n) (v ++ t).
Proof.
  intros Hr -> Hlim. pose proof (zlen_nonneg t). pose proof (zlen_nonneg v). unfold sdscatlen.
  destruct (MakeRoom_repr s v (zlen t) Hr ltac:(lia) Hlim) as [[-> ?]|(s' & -> & Hr' & Hf)]; [by left|right].
  rbind. destruct (repr_bounds s v Hr) as (-> & _). destruct (repr_bounds s' v Hr') as (_ & _ & _ & Hb' & _).
  destruct (repr_overwrite s' v v t Hr' ltac:(done) ltac:(lia)) as (b & -> & b' & E & Hout). rbind.
  unfold LIMIT, HDR in *. rewrite (u64_small (zlen v + zlen t)) by lia. rewrite E. rbind.
  eexists. split; [done|]. rewrite (u64_small (free s' - _)), !i32_small by lia. apply Hout; lia.
Qed.

Lemma sdsnewlen_repr t n : n = zlen t → n < LIMIT → returns (sdsnewlen (Some t) n) t.
Proof.
  intros -> Hlim. pose proof (zlen_nonneg t). unfold sdsnewlen, LIMIT, HDR in *.
  rewrite (u64_small (8 + zlen t + 1)), i32_small by lia.
  destruct (malloc_ok (8 + zlen t + 1)) eqn:Em; cbn [negb]; [right|left; eauto].
  set (j := junk _). assert (length j = S (length t)) as Hj by (subst j; rewrite junk_length; unfold zlen; lia).
  clearbody j. assert (∃ j1 x, j = j1 ++ [x] ∧ length j1 = length t) as (j1 & x & -> & Hj1).
  { destruct (exists_last (l := j)) as (j1 & x & ->); [by intros ->|]. exists j1, x.
    rewrite length_app in Hj. simpl in Hj. split; [done|lia]. }
  assert ((if zlen t =? 0 then Ok (j1 ++ [x]) else memcpy (j1 ++ [x]) 0 t (zlen t)) = Ok (t ++ [x])) as ->.
  { destruct (Z.eqb_spec (zlen t) 0) as [E|_].
    - apply zlen_0_inv in E as ->. by destruct j1.
    - apply (memcpy_app [] j1 [x] 0 t (zlen t)); [done| |done]. unfold zlen. lia. }
  rbind. rewrite (store_app t x []) by done. rbind. eexists. split; [done|].
  exists []. cbn [buf len free]. unfold HDR. repeat split; zlia.
Qed.

Lemma sdscpylen_repr s v t n :
  repr s v → n = zlen t → n < LIMIT → returns (sdscpylen s t n) t.
Proof.
  intros Hr -> Hlim. pose proof (zlen_nonneg t). pose proof (zlen_nonneg v).
  destruct (repr_bounds s v Hr) as (_ & _ & Hf & Hb & Hlen). unfold sdscpylen.
  assert (∀ s1, repr s1 v → zlen t ≤ free s1 + len s1 → ∃ s2,
      (b ← memcpy (buf s1) 0 t (zlen t); b ← store b (zlen t) 0;
       Ok (Some {| len := i32 (zlen t); free := i32 (u64 (u64 (free s1 + len s1) - zlen t)); buf := b |})) =
      Ok (Some s2) ∧ repr s2 t) as Hcopy.
  { intros s1 Hr1 Hroom. destruct (repr_bounds s1 v Hr1) as (_ & _ & ? & Hb1 & Hl1). unfold HDR, LIMIT in *.
    destruct (repr_overwrite s1 v [] t Hr1 ltac:(apply prefix_nil) ltac:(zlia)) as (b & E1 & b' & E2 & Hout).
    rewrite zlen_nil, Z.add_0_l in *. rewrite E1. rbind. rewrite E2. rbind. eexists. split; [done|].
    rewrite (u64_small (free s1 + len s1)), (u64_small (_ - _)), !i32_small by lia. apply Hout; lia. }
  unfold HDR, LIMIT in *. rewrite int_of_ok by lia. rbind.
  destruct (Z.ltb_spec (u64 (free s + len s)) (zlen t)) as [Hlt|Hge]; rewrite u64_small in * by lia.
  - rewrite (u64_small (zlen t - len s)) by lia.
    destruct (MakeRoom_repr s v (zlen t - len s) Hr ltac:(lia)) as [[-> ?]|(s' & -> & Hr' & Hf')];
      [unfold LIMIT; lia|by left|right]. rbind.
    destruct (repr_bounds s' v Hr') as (_ & _ & _ & Hb' & Hl'). unfold HDR in *.
    rewrite int_of_ok by lia. rbind. apply Hcopy; [done|lia].
  - rbind. right. destruct (Hcopy s Hr Hge) as (s2 & E & ?). exists s2. split; [|done].
    rewrite (u64_small (free s + len s)) in E by lia. exact E.
Qed.

(** ** Shrinking in place *)

(** [n] bytes of [v] from [off] on are moved to the front, when [mv] asks for
    it, and terminated. *)
Lemma repr_sub s v off n (mv : bool) :
  repr s v → 0 ≤ n ≤ zlen v → (mv = true → 0 ≤ off ∧ off + n ≤ zlen v) → (mv = false → off = 0 ∨ n = 0) →
  ∃ b, (if mv then t ← slice (buf s) off n; blit (buf s) 0 t else Ok (buf s)) = Ok b ∧
    ∃ b', store b n 0 = Ok b' ∧
      ∀ l f, l = n → f = free s + (zlen v - n) →
        repr {| len := l; free := f; buf := b' |} (take (Z.to_nat n) (drop (Z.to_nat off) v)).
Proof.
  intros Hr Hn Hmv Hst. destruct Hr as (spare & Eb & El & Ef & Es).
  set (w := take (Z.to_nat n) (drop (Z.to_nat off) v)).
  assert (zlen w = n) as Hw.
  { subst w. unfold zlen in *. rewrite length_take, length_drop. destruct mv; [specialize (Hmv eq_refl)|]; lia. }
  assert (∃ rest, (if mv then t ← slice (buf s) off n; blit (buf s) 0 t else Ok (buf s)) = Ok (w ++ rest) ∧
                  zlen (w ++ rest) = zlen (buf s)) as (rest & -> & Hl).
  { destruct mv.
    - destruct (Hmv eq_refl) as [Ho Hon]. assert (∃ a c, v = a ++ w ++ c ∧ zlen a = off) as (a & c & Ev & Ha).
      { exists (take (Z.to_nat off) v), (drop (Z.to_nat n) (drop (Z.to_nat off) v)). subst w.
        rewrite take_drop, take_drop. split; [done|]. unfold zlen in *. rewrite length_take. lia. }
      rewrite Eb, Ev, <- !app_assoc, (slice_app a w) by done. rbind.
      destruct (block_split (a ++ w ++ c ++ 0 :: spare) (zlen w)) as (x & y & z & E & Hx); [zlia|].
      rewrite E. exists (y :: z).
      rewrite (blit_prefix x (y :: z) w) by (by rewrite Hx). split; [done|]. rewrite !zlen_app. lia.
    - assert (v = w ++ drop (Z.to_nat n) v) as Ev.
      { subst w. destruct (Hst eq_refl) as [-> | ->]; [by rewrite drop_0, take_drop|done]. }
      exists (drop (Z.to_nat n) v ++ 0 :: spare). by rewrite app_assoc, <- Ev, <- Eb. }
  eexists. split; [done|]. rewrite Eb in *. unfold HDR in *. autorewrite with zlen in *.
  destruct rest as [|x rest]; [zlia|].
  rewrite (store_app w x rest) by done. eexists. split; [done|]. intros l f -> ->. exists rest.
  cbn [buf len free]. unfold HDR. split; [done|]. autorewrite with zlen in *. repeat split; lia.
Qed.

Lemma sdsclear_repr s v : repr s v → ∃ s', sdsclear s = Ok s' ∧ repr s' [].
Proof.
  intros Hr. destruct (repr_bounds s v Hr) as (_ & _ & Hf & Hb & Hl). pose proof (zlen_nonneg v).
  destruct (repr_sub s v 0 0 false Hr ltac:(lia) ltac:(done) ltac:(auto)) as (b & [= <-] & b' & E & Hout).
  unfold sdsclear, HDR in *. rewrite int_of_ok by lia. rbind. rewrite E. rbind. eexists. split; [done|].
  apply Hout; lia.
Qed.

Lemma cstr_app v t : Forall (λ c, c ≠ 0) v → cstr (v ++ 0 :: t) = v.
Proof. induction 1 as [|c v Hc _ IH]; simpl; [done|]. by rewrite (proj2 (Z.eqb_neq c 0)), IH. Qed.

Lemma strlen_ok v y : Forall (λ c, c ≠ 0) v → strlen (v ++ 0 :: y) = Ok (zlen v).
Proof.
  intros Hv. unfold strlen. rewrite cstr_app by done. rewrite (proj2 (Z.ltb_lt _ _)); [done|].
  rewrite zlen_app, zlen_cons. pose proof (zlen_nonneg y). lia.
Qed.

Lemma cstr_cases v : (Forall (λ c, c ≠ 0) v ∧ cstr v = v) ∨ (∃ t, v = cstr v ++ 0 :: t ∧ Forall (λ c, c ≠ 0) (cstr v)).
Proof.
  induction v as [|c v IH]; simpl; [by left|]. destruct (Z.eqb_spec c 0) as [->|Hc]; [right; by exists v|].
  destruct IH as [[? E]|(t & E & ?)].
  - left. rewrite E. split; [by constructor|done].
  - right. exists t. rewrite <- app_comm_cons, <- E. split; [done|]. by constructor.
Qed.

(** The bytes before the first NUL of the content, or all of it. *)
Lemma sdsupdatelen_repr s v : repr s v → ∃ s', sdsupdatelen s = Ok s' ∧ repr s' (cstr v).
Proof.
  intros Hr. destruct (repr_bounds s v Hr) as (_ & _ & Hf & Hb & Hl).
  destruct Hr as (spare & Eb & El & Ef & Es). unfold HDR in *.
  assert (∃ t, buf s = cstr v ++ 0 :: t ∧ Forall (λ c, c ≠ 0) (cstr v) ∧ zlen (cstr v) ≤ zlen v) as (t & Et & Hnz & Hle).
  { destruct (cstr_cases v) as [[Hv ->]|(t & E & Ht)]; [by exists spare|]. exists (t ++ 0 :: spare).
    rewrite Eb. rewrite E at 1. rewrite <- app_assoc. split; [done|]. split; [done|]. rewrite E at 2. zlia. }
  unfold sdsupdatelen, strlen. rewrite Et, cstr_app by done. pose proof (zlen_nonneg (cstr v)).
  assert (zlen (buf s) = zlen (cstr v) + 1 + zlen t) as Hz by (rewrite Et; zlia). rewrite Hz in Es.
  pose proof (zlen_nonneg t). rewrite Eb in Hz. autorewrite with zlen in *.
  rewrite (proj2 (Z.ltb_lt _ _)) by lia. rbind. rewrite (i32_small (zlen (cstr v))) by lia.
  rewrite !int_of_ok by lia. rbind. rewrite int_of_ok by lia. rbind. eexists. split; [done|]. exists t.
  cbn [buf len free]. unfold HDR. split; [done|]. autorewrite with zlen. repeat split; lia.
Qed.

Lemma sdsRemoveFreeSpace_repr s v :
  repr s v → (sdsRemoveFreeSpace s = Fault OutOfBounds ∧ ∃ n, malloc_ok n = false) ∨
             ∃ s', sdsRemoveFreeSpace s = Ok s' ∧ repr s' v ∧ free s' = 0.
Proof.
  intros Hr. destruct (repr_bounds s v Hr) as (_ & _ & Hf & Hb & Hl). pose proof (zlen_nonneg v).
  unfold sdsRemoveFreeSpace, HDR in *. rewrite u64_small by lia.
  destruct (malloc_ok _) eqn:Em; cbn [negb]; [right|left; eauto]. eexists. split; [done|].
  destruct Hr as (spare & Eb & El & Ef & Es). split; [|done]. exists [].
  cbn [buf len free]. unfold resize. rewrite Eb.
  replace (v ++ 0 :: spare) with ((v ++ [0]) ++ spare) by (by rewrite <- app_assoc).
  assert (length (v ++ [0]) = Z.to_nat (8 + len s + 1 - 8)) as Hn
    by (rewrite length_app; unfold zlen in *; simpl; lia).
  rewrite <- Hn, take_app_length. rewrite (proj2 (Nat.sub_0_le _ _)) by (rewrite (length_app _ spare); lia).
  assert (junk 0 = []) as -> by (apply nil_length_inv, junk_length).
  unfold HDR. rewrite app_nil_r. repeat split; zlia.
Qed.

(** After writing [t] into the free space, [sdsIncrLen] makes it content. *)
Lemma sdsIncrLen_repr s v t rest :
  buf s = v ++ t ++ rest → len s = zlen v → free s = zlen t + zlen rest - 1 → 0 < zlen rest →
  HDR + zlen (buf s) < 2 ^ 31 →
  ∃ s', sdsIncrLen s (zlen t) = Ok s' ∧ repr s' (v ++ t).
Proof.
  intros Eb El Ef Hrest Hs. unfold sdsIncrLen, HDR in *. rewrite Eb in *. autorewrite with zlen in *.
  pose proof (zlen_nonneg t). pose proof (zlen_nonneg v).
  rewrite (proj2 (Z.ltb_ge _ _)) by lia. rewrite !int_of_ok by lia. rbind.
  rewrite ?int_of_ok by lia. rbind. rewrite (proj2 (Z.ltb_ge _ _)) by lia.
  destruct rest as [|x rest]; [done|]. rewrite zlen_cons in *.
  rewrite app_assoc, (store_app (v ++ t) x rest) by (rewrite zlen_app; lia). rbind. eexists. split; [done|].
  exists rest. cbn [buf len free]. unfold HDR. split; [done|]. autorewrite with zlen. repeat split; lia.
Qed.

Lemma sdsgrowzero_repr s v n :
  repr s v → 0 ≤ n < LIMIT →
  returns (sdsgrowzero s n) (v ++ replicate (Z.to_nat (n - zlen v)) 0).
Proof.
  intros Hr Hn. destruct (repr_bounds s v Hr) as (Hl & _ & Hf & Hb & Hlen). pose proof (zlen_nonneg v).
  unfold sdsgrowzero. fold (sdslen s). rewrite Hl. destruct (Z.leb_spec n (zlen v)) as [Hle|Hgt].
  { replace (Z.to_nat (n - zlen v)) with 0%nat by lia. rewrite app_nil_r. right. by exists s. }
  destruct (MakeRoom_repr s v (n - zlen v) Hr ltac:(lia) ltac:(lia)) as [[-> ?]|(s' & -> & Hr' & Hf')]; [by left|right].
  rbind. destruct (repr_bounds s' v Hr') as (_ & _ & _ & Hb' & Hl'). destruct Hr' as (spare & Eb & _ & Ef & Es).
  destruct (block_split (0 :: spare) (n - zlen v)) as (b & x & c & E & Hbl); [zlia|].
  assert (1 + zlen spare = zlen b + (1 + zlen c)) as Hz
    by (pose proof (f_equal zlen E) as Hz; by autorewrite with zlen in Hz).
  rewrite Eb, E. replace (b ++ x :: c) with ((b ++ [x]) ++ c) by (by rewrite <- app_assoc).
  set (z := replicate (Z.to_nat (n - zlen v + 1)) 0).
  assert (z = replicate (Z.to_nat (n - zlen v)) 0 ++ [0]) as Ez.
  { subst z. replace (Z.to_nat (n - zlen v + 1)) with (Z.to_nat (n - zlen v) + 1)%nat by lia.
    by rewrite replicate_add. }
  rewrite (blit_app v (b ++ [x]) c (zlen v) z); [|done|].
  2:{ rewrite Ez. unfold zlen in *. rewrite !length_app, length_replicate. simpl. lia. }
  rbind. unfold HDR, LIMIT in *. rewrite int_of_ok by lia. rbind. rewrite (i32_small n), (u64_small (len s' + _)) by lia.
  rewrite u64_small, i32_small by lia. eexists. split; [done|]. exists c. cbn [buf len free].
  assert (zlen (replicate (Z.to_nat (n - zlen v)) 0) = n - zlen v) as Hrep
    by (unfold zlen in *; rewrite length_replicate; lia).
  split; [by rewrite Ez, <- !app_assoc|]. rewrite Ez. unfold HDR. autorewrite with zlen in *. rewrite Hrep.
  repeat split; lia.
Qed.

(** ** Trimming *)

Fixpoint drop_set (cset l : bytes) : bytes :=
  match l with c :: l' => if strchr cset c then drop_set cset l' else l | [] => [] end.

(** [l] without the characters of [cset] (and NULs) at its ends. *)
Definition trim_spec (cset l : bytes) : bytes := rev (drop_set cset (rev (drop_set cset l))).

Definition in_set (cset l : bytes) : Prop := Forall (λ c, strchr cset c = true) l.

Lemma drop_set_split cset l :
  ∃ a, l = a ++ drop_set cset l ∧ in_set cset a ∧
       match drop_set cset l with [] => True | c :: _ => strchr cset c = false end.
Proof.
  induction l as [|c l (a & E & Ha & Hc)]; simpl.
  { exists []. split; [done|]. split; [by apply Forall_nil|done]. }
  destruct (strchr cset c) eqn:Es.
  - exists (c :: a). split; [simpl; by f_equal|]. split; [by constructor|done].
  - exists []. split; [done|]. split; [by apply Forall_nil|done].
Qed.

Lemma trim_split cset l :
  ∃ a c, l = a ++ trim_spec cset l ++ c ∧ in_set cset a ∧ in_set cset c ∧
    (trim_spec cset l = [] → c = []) ∧
    (∀ x m, trim_spec cset l = x :: m → strchr cset x = false) ∧
    (∀ x m, trim_spec cset l = m ++ [x] → strchr cset x = false).
Proof.
  destruct (drop_set_split cset l) as (a & E & Ha & Hh). unfold trim_spec.
  set (d := drop_set cset l) in *. clearbody d.
  destruct (drop_set_split cset (rev d)) as (c & E2 & Hc & Hl). set (m := drop_set cset (rev d)) in *. clearbody m.
  assert (d = rev m ++ rev c) as Ed by (rewrite <- rev_app_distr, <- E2; symmetry; apply rev_involutive).
  assert (m = [] → d = []) as Hnil.
  { intros ->. destruct d as [|x d]; [done|]. exfalso. rewrite app_nil_r in E2.
    assert (x ∈ rev (x :: d)) as Hin by (rewrite list_elem_of_In, <- in_rev; by left).
    rewrite E2 in Hin. unfold in_set in Hc. rewrite Forall_forall in Hc. rewrite (Hc x Hin) in Hh. done. }
  exists a, (rev c). rewrite <- Ed. split; [done|]. split; [done|]. split.
  { by apply Forall_rev. }
  split; [|split].
  - intros Hm. assert (m = []) as Hm0 by (rewrite <- (rev_involutive m), Hm; done). rewrite (Hnil Hm0) in Ed.
    symmetry in Ed. by apply app_nil in Ed as [_ ?].
  - intros x m' Hm. rewrite Hm in Ed. rewrite Ed in Hh. done.
  - intros x m' Hm. assert (m = x :: rev m') as Em
      by (rewrite <- (rev_involutive m), Hm, rev_app_distr; done). by rewrite Em in Hl.
Qed.

Lemma trim_left_run cset l a c fuel last :
  in_set cset l → (length l ≤ fuel)%nat → zlen a + zlen l ≤ last + 1 →
  zlen a + zlen l = last + 1 ∨ (∃ x c', c = x :: c' ∧ strchr cset x = false) →
  trim_left fuel (a ++ l ++ c) cset (zlen a) last = Ok (zlen a + zlen l).
Proof.
  intros Hl. revert a fuel. induction Hl as [|x l Hx Hl IH]; intros a fuel Hfuel Hlast Hstop.
  - rewrite zlen_nil, Z.add_0_r in *. destruct fuel as [|fuel]; cbn [trim_left]; [done|].
    destruct (Z.leb_spec (zlen a) last); [|done]. destruct Hstop as [?|(y & c' & -> & Hy)]; [lia|].
    rewrite app_nil_l, (load_app a y c') by done. rbind. by rewrite Hy.
  - destruct fuel as [|fuel]; [simpl in Hfuel; lia|]. cbn [trim_left]. rewrite zlen_cons in *.
    pose proof (zlen_nonneg l). destruct (Z.leb_spec (zlen a) last); [|lia]. simpl app.
    rewrite (load_app a x (l ++ c)) by done. rbind. rewrite Hx.
    specialize (IH (a ++ [x]) fuel). rewrite zlen_app, zlen_cons, zlen_nil, <- app_assoc in IH.
    change (1 + 0) with 1 in IH. simpl app in IH. rewrite IH; [f_equal; lia|simpl in Hfuel; lia|lia|].
    destruct Hstop; [left; lia|by right].
Qed.

Lemma trim_right_run cset r a x c fuel :
  in_set cset r → (length r ≤ fuel)%nat → a = [] ∨ strchr cset x = false →
  trim_right fuel (a ++ [x] ++ r ++ c) cset (zlen a + zlen r) = Ok (zlen a).
Proof.
  intros Hr. revert c fuel. induction r as [|y r IH] using rev_ind; intros c fuel Hfuel Hstop.
  - rewrite zlen_nil, Z.add_0_r. destruct fuel as [|fuel]; cbn [trim_right]; [done|].
    destruct (Z.ltb_spec 0 (zlen a)); [|done]. destruct Hstop as [->|Hx]; [done|].
    simpl app. rewrite (load_app a x c) by done. rbind. by rewrite Hx.
  - unfold in_set in Hr. apply Forall_app in Hr as [Hr Hy]. apply Forall_cons_1 in Hy as [Hy _].
    rewrite length_app in Hfuel. simpl in Hfuel. destruct fuel as [|fuel]; [lia|]. cbn [trim_right].
    rewrite zlen_app. change (zlen [y]) with 1. pose proof (zlen_nonneg a). pose proof (zlen_nonneg r).
    destruct (Z.ltb_spec 0 (zlen a + (zlen r + 1))); [|lia].
    rewrite <- (app_assoc r [y] c). simpl app.
    replace (a ++ x :: r ++ y :: c) with ((a ++ x :: r) ++ y :: c) by (by rewrite <- app_assoc).
    rewrite load_app by zlia. rbind. rewrite Hy.
    replace (zlen a + (zlen r + 1) - 1) with (zlen a + zlen r) by lia.
    rewrite <- app_assoc. simpl app. apply (IH Hr (y :: c) fuel); [lia|done].
Qed.

Lemma sdstrim_repr s v cset : repr s v → ∃ s', sdstrim s cset = Ok s' ∧ repr s' (trim_spec cset v).
Proof.
  intros Hr. destruct (repr_bounds s v Hr) as (Hl & _ & Hf & Hb & Hlen). unfold sdstrim. rewrite Hl, to_nat_zlen.
  destruct (trim_split cset v) as (a & c & Ev & Ha & Hc & Hnil & Hhd & Htl).
  set (m := trim_spec cset v) in *. clearbody m. pose proof Hr as (spare & Eb & _ & Ef & Es).
  assert (buf s = a ++ m ++ c ++ 0 :: spare) as Eb' by (rewrite Eb, Ev at 1; by rewrite <- !app_assoc).
  assert (length v = length a + length m + length c)%nat as Hn by (rewrite Ev at 1; rewrite !length_app; lia).
  pose proof (f_equal zlen Ev) as Hz. autorewrite with zlen in Hz.
  pose proof (zlen_nonneg a). pose proof (zlen_nonneg c). pose proof (zlen_nonneg m).
  assert (trim_left (length v) (buf s) cset 0 (zlen v - 1) = Ok (zlen a)) as ->.
  { rewrite Eb'. apply (trim_left_run cset a []); [done|lia|zlia|].
    destruct m as [|x m]; [left; rewrite (Hnil eq_refl) in *; zlia|right]. exists x, (m ++ c ++ 0 :: spare). eauto. }
  rbind.
  assert (∃ ep, trim_right (length v) (buf s) cset (zlen v - 1) = Ok ep ∧
            zlen m = if ep <? zlen a then 0 else ep - zlen a + 1) as (ep & -> & Hep).
  { rewrite Eb'. destruct m as [|x m _] using rev_ind.
    - rewrite (Hnil eq_refl) in *. destruct a as [|x a].
      { exists (-1). split; [|done]. replace (zlen v - 1) with (-1) by zlia. by destruct (length v). }
      exists 0. assert (in_set cset a) as Ha' by (by inversion Ha).
      replace (zlen v - 1) with (zlen (@nil Z) + zlen a) by zlia. simpl app.
      split; [|by rewrite zlen_cons, (proj2 (Z.ltb_lt _ _)) by zlia].
      apply (trim_right_run cset a [] x (0 :: spare)); [done|simpl in Hn; lia|by left].
    - exists (zlen (a ++ m)). split.
      + replace (zlen v - 1) with (zlen (a ++ m) + zlen c) by zlia.
        rewrite <- (app_assoc m [x]), (app_assoc a m).
        apply trim_right_run; [done|lia|right; by eapply Htl].
      + rewrite (proj2 (Z.ltb_ge _ _)) by zlia. zlia. }
  rbind. rewrite <- Hep.
  destruct (repr_sub s v (zlen a) (zlen m) (negb (zlen a =? 0)) Hr) as (b & -> & b' & E & Hout).
  { lia. } { intros _. lia. } { rewrite negb_false_iff, Z.eqb_eq. auto. }
  rbind. rewrite E. rbind. unfold HDR in *. rewrite u64_small, !i32_small by lia. eexists. split; [done|].
  rewrite !to_nat_zlen in Hout.
  assert (take (length m) (drop (length a) v) = m) as Em by (by rewrite Ev, drop_app_length, take_app_length).
  rewrite Em in Hout. apply Hout; lia.
Qed.

(** ** Ranges and character maps *)

(** The bytes from [start] to [last], both included, where a negative index
    counts from the end. *)
Definition range_spec (start last : Z) (v : bytes) : bytes :=
  let n := zlen v in
  let a := if start <? 0 then Z.max 0 (n + start) else start in
  let b := Z.min (if last <? 0 then Z.max 0 (n + last) else last) (n - 1) in
  if b <? a then [] else take (Z.to_nat (b - a + 1)) (drop (Z.to_nat a) v).

(** The indices are [int]s; the largest one as the last index makes the
    length overflow. *)
Definition range_args (start last : Z) : Prop := - 2 ^ 31 ≤ start < 2 ^ 31 ∧ - 2 ^ 31 ≤ last < 2 ^ 31 - 1.

Lemma index_conv n i : 0 < n < 2 ^ 31 → - 2 ^ 31 ≤ i < 0 → Z.max 0 (i32 (u64 (n + i))) = Z.max 0 (n + i).
Proof.
  intros Hn Hi. f_equal. unfold u64, i32.
  destruct (Z.le_gt_cases 0 (n + i)).
  - rewrite (Z.mod_small (n + i)) by lia. rewrite Z.mod_small by lia. lia.
  - assert ((n + i) mod 2 ^ 64 = n + i + 2 ^ 64) as ->
      by (symmetry; apply Zmod_unique with (-1); lia).
    assert ((n + i + 2 ^ 64 + 2 ^ 31) mod 2 ^ 32 = n + i + 2 ^ 31) as ->
      by (symmetry; apply Zmod_unique with (2 ^ 32); lia). lia.
Qed.

Lemma range_len_ok a b : 0 ≤ a → - 2 ^ 31 ≤ b < 2 ^ 31 - 1 → range_len a b = Ok (Z.max 0 (b - a + 1)).
Proof.
  intros Ha Hb. unfold range_len. destruct (Z.ltb_spec b a); [f_equal; lia|].
  rewrite int_of_ok by lia. f_equal. lia.
Qed.

Lemma range_bounds_spec v start last :
  0 < zlen v < 2 ^ 31 - 1 → range_args start last →
  ∃ a n, range_bounds (zlen v) start last = Ok (a, n) ∧ 0 ≤ a ∧ 0 ≤ n ∧ (n = 0 ∨ a + n ≤ zlen v) ∧
         range_spec start last v = take (Z.to_nat n) (drop (Z.to_nat a) v).
Proof.
  intros Hv [Hs Hl]. unfold range_bounds, range_spec.
  assert ((if start <? 0 then Z.max 0 (i32 (u64 (zlen v + start))) else start) =
          if start <? 0 then Z.max 0 (zlen v + start) else start) as ->
    by (destruct (Z.ltb_spec start 0); [apply index_conv; lia|done]).
  assert ((if last <? 0 then Z.max 0 (i32 (u64 (zlen v + last))) else last) =
          if last <? 0 then Z.max 0 (zlen v + last) else last) as ->
    by (destruct (Z.ltb_spec last 0); [apply index_conv; lia|done]).
  set (a := if start <? 0 then _ else _). set (b := if last <? 0 then _ else _).
  assert (0 ≤ a < 2 ^ 31) as Ha by (subst a; case_match eqn:E; [apply Z.ltb_lt in E|apply Z.ltb_ge in E]; lia).
  assert (0 ≤ b < 2 ^ 31 - 1) as Hb by (subst b; case_match eqn:E; [apply Z.ltb_lt in E|apply Z.ltb_ge in E]; lia).
  clearbody a b. rewrite (range_len_ok a b) by lia. rbind. rewrite (u64_small (zlen v - 1)), !i32_small by lia.
  destruct (Z.eqb_spec (Z.max 0 (b - a + 1)) 0) as [E|E]; cbn [negb].
  { exists 0, 0. split; [by rewrite E|]. split; [lia|]. split; [lia|]. split; [by left|].
    by rewrite (proj2 (Z.ltb_lt _ _)) by lia. }
  destruct (Z.leb_spec (zlen v) a).
  { exists a, 0. split; [done|]. split; [lia|]. split; [lia|]. split; [by left|].
    by rewrite (proj2 (Z.ltb_lt _ _)) by lia. }
  destruct (Z.leb_spec (zlen v) b).
  - rewrite range_len_ok by lia. rbind. eexists _, _. split; [done|]. split; [lia|]. split; [lia|].
    split; [right; lia|]. rewrite (proj2 (Z.ltb_ge _ _)) by lia. do 2 f_equal. lia.
  - eexists _, _. split; [done|]. split; [lia|]. split; [lia|]. split; [right; lia|].
    rewrite (proj2 (Z.ltb_ge _ _)) by lia. do 2 f_equal. lia.
Qed.

Lemma sdsrange_repr s v start last :
  repr s v → range_args start last → ∃ s', sdsrange s start last = Ok s' ∧ repr s' (range_spec start last v).
Proof.
  intros Hr Hargs. destruct (repr_bounds s v Hr) as (Hl & _ & Hf & Hb & Hlen). pose proof (zlen_nonneg v).
  unfold sdsrange, HDR in *. rewrite Hl. destruct (Z.eqb_spec (zlen v) 0) as [E|E].
  { exists s. split; [done|]. apply zlen_0_inv in E as ->. unfold range_spec. change (zlen []) with 0.
    replace (if _ <? _ then _ else _) with (@nil Z) by (case_match; [done|by rewrite drop_nil, take_nil]). done. }
  destruct (range_bounds_spec v start last) as (a & n & -> & Ha & Hn & Han & ->); [lia|done|]. rbind.
  destruct (repr_sub s v a n (negb (a =? 0) && negb (n =? 0)) Hr) as (b & -> & b' & Es & Hout).
  { lia. }
  { rewrite andb_true_iff, !negb_true_iff, !Z.eqb_neq. lia. }
  { rewrite andb_false_iff, !negb_false_iff, !Z.eqb_eq. done. }
  rbind. rewrite Es. rbind. rewrite u64_small, !i32_small by lia. eexists. split; [done|]. apply Hout; lia.
Qed.

Lemma map_loop_spec f l a c : map_loop (length l) f (a ++ l ++ c) (zlen a) = Ok (a ++ (f <$> l) ++ c).
Proof.
  revert a. induction l as [|x l IH]; intros a; cbn [map_loop length]; [done|].
  simpl app. rewrite (load_app a x) by done. rbind. rewrite (store_app a x) by done. rbind.
  specialize (IH (a ++ [f x])). rewrite zlen_app, <- !app_assoc in IH. exact IH.
Qed.

Lemma map_loop_prefix f l c : map_loop (length l) f (l ++ c) 0 = Ok ((f <$> l) ++ c).
Proof. apply (map_loop_spec f l [] c). Qed.

Lemma map_chars_repr f s v :
  repr s v → ∃ s', map_chars f s = Ok s' ∧ repr s' (f <$> v).
Proof.
  intros Hr. destruct (repr_bounds s v Hr) as (Hl & _ & Hf & Hb & Hlen). pose proof (zlen_nonneg v).
  unfold map_chars, HDR in *. rewrite Hl, i32_small, to_nat_zlen by lia.
  destruct Hr as (spare & Eb & El & Ef & Es). rewrite Eb, map_loop_prefix. rbind.
  eexists. split; [done|]. exists spare. cbn [buf len free]. rewrite Eb in Es. unfold HDR in *.
  assert (zlen (f <$> v) = zlen v) as Hz by (unfold zlen; by rewrite length_fmap).
  split; [done|]. autorewrite with zlen in *. rewrite ?Hz. repeat split; lia.
Qed.

(** ** Numbers *)

Lemma ll_digits_udec fuel f v acc :
  0 ≤ v < 10 ^ Z.of_nat fuel → (0 < fuel)%nat → v < 2 ^ Z.of_nat f → (0 < f)%nat →
  digits_fuel f v acc = rev (ll_digits fuel v) ++ acc.
Proof.
  revert f v acc. induction fuel as [|fuel IH]; intros f v acc Hv Hf Hv2 Hf2; [lia|].
  destruct f as [|f]; [lia|]. cbn [digits_fuel ll_digits].
  destruct (Z.ltb_spec v 10) as [Hlt|Hge].
  - rewrite Z.div_small by lia. done.
  - assert (0 < v / 10) as Hq by (apply Z.div_str_pos; lia).
    rewrite (proj2 (Z.eqb_neq (v / 10) 0)) by lia. simpl rev. rewrite <- app_assoc.
    assert (v / 10 < 10 ^ Z.of_nat fuel) as H10.
    { apply Z.div_lt_upper_bound; [lia|]. rewrite <- Z.pow_succ_r by lia.
      replace (Z.succ (Z.of_nat fuel)) with (Z.of_nat (S fuel)) by lia. lia. }
    assert (v / 10 < 2 ^ Z.of_nat f) as H2.
    { apply Z.div_lt_upper_bound; [lia|]. replace (Z.of_nat (S f)) with (Z.succ (Z.of_nat f)) in Hv2 by lia.
      rewrite Z.pow_succ_r in Hv2 by lia. lia. }
    apply IH; [lia| |done|].
    + destruct fuel; [simpl in H10; lia|lia].
    + destruct f; [simpl in H2; lia|lia].
Qed.

Lemma ll_digits_rev v : 0 ≤ v < 2 ^ 64 → rev (ll_digits 20 v) = udec v.
Proof.
  intros Hv. unfold udec. rewrite (ll_digits_udec 20), app_nil_r; [done|lia|lia| |lia].
  destruct (Z.eq_dec v 0) as [->|]; [done|].
  pose proof (Z.log2_spec v ltac:(lia)). pose proof (Z.log2_nonneg v).
  replace (Z.of_nat (S (Z.to_nat (Z.log2 v)))) with (Z.succ (Z.log2 v)) by lia. lia.
Qed.

Lemma zlen_ll_digits v : 0 ≤ v < 2 ^ 64 → zlen (ll_digits 20 v) = zlen (udec v).
Proof. intros. rewrite <- ll_digits_rev by done. unfold zlen. by rewrite length_rev. Qed.

Lemma reverse_loop_spec fuel a l c :
  (length l ≤ 2 * fuel + 1)%nat →
  reverse_loop fuel (a ++ l ++ c) (zlen a) (zlen a + zlen l - 1) = Ok (a ++ rev l ++ c).
Proof.
  revert a l c. induction fuel as [|fuel IH]; intros a l c Hl.
  { destruct l as [|x [|y l]]; [done|done|simpl in Hl; lia]. }
  cbn [reverse_loop]. destruct l as [|x l].
  { rewrite (proj2 (Z.ltb_ge _ _)); [done|zlia]. }
  destruct l as [|y l _] using rev_ind.
  { rewrite (proj2 (Z.ltb_ge _ _)); [done|zlia]. }
  rewrite (proj2 (Z.ltb_lt _ _)) by zlia. simpl app. rewrite <- app_assoc. simpl app.
  rewrite (load_app a x _ (zlen a)) by done. rbind.
  replace (a ++ x :: l ++ y :: c) with ((a ++ x :: l) ++ y :: c) by (by rewrite <- app_assoc).
  rewrite (load_app (a ++ x :: l) y) by zlia. rbind. rewrite <- app_assoc. simpl app.
  rewrite (store_app a x _ (zlen a)) by done. rbind.
  replace (a ++ y :: l ++ y :: c) with ((a ++ y :: l) ++ y :: c) by (by rewrite <- app_assoc).
  rewrite (store_app (a ++ y :: l) y) by zlia. rbind. rewrite <- app_assoc. simpl app.
  specialize (IH (a ++ [y]) l (x :: c)). rewrite <- !app_assoc in IH. simpl app in IH.
  replace (zlen (a ++ [y])) with (zlen a + 1) in IH by (by rewrite zlen_app).
  replace (zlen a + zlen (x :: l ++ [y]) - 1 - 1) with (zlen a + 1 + zlen l - 1) by zlia.
  simpl in Hl. rewrite length_app in Hl. simpl in Hl. rewrite IH by lia.
  by rewrite rev_app_distr, <- !app_assoc.
Qed.

Lemma write_reversed_spec b chars :
  zlen chars < zlen b → ∃ rest, write_reversed b chars = Ok (zlen chars, rev chars ++ 0 :: rest) ∧
                               zlen rest = zlen b - zlen chars - 1.
Proof.
  intros Hl. pose proof (zlen_nonneg chars). unfold write_reversed.
  destruct (block_split b (zlen chars)) as (a & x & c & -> & Ha); [lia|].
  replace (a ++ x :: c) with ((a ++ [x]) ++ c) by (by rewrite <- app_assoc).
  rewrite (blit_prefix (a ++ [x]) c (chars ++ [0])) by zlia. rbind.
  pose proof (reverse_loop_spec (length chars) [] chars (0 :: c)) as E. rewrite <- app_assoc.
  simpl app in *. change (zlen []) with 0 in E. rewrite Z.add_0_l in E. rewrite E by lia. rbind.
  exists c. split; [done|]. zlia.
Qed.

(** The text of a [long long] in a buffer of [SDS_LLSTR_SIZE] bytes. *)
Lemma sdsll2str_spec b z :
  zlen b = SDS_LLSTR_SIZE → - 2 ^ 63 < z < 2 ^ 63 →
  ∃ rest, sdsll2str b z = Ok (zlen (sdec z), sdec z ++ 0 :: rest).
Proof.
  intros Hb Hz. unfold sdsll2str, ll_abs, sdec.
  assert (∀ v, 0 ≤ v < 2 ^ 63 → zlen (ll_digits 20 v) ≤ 19) as Hd.
  { intros v Hv. pose proof (udec_len_le v 19 ltac:(simpl; lia) ltac:(lia)) as Hu.
    rewrite <- ll_digits_rev, length_rev in Hu by lia. unfold zlen. lia. }
  destruct (Z.ltb_spec z 0) as [Hneg|Hpos].
  - rewrite (proj2 (Z.eqb_neq _ _)) by lia. rbind.
    destruct (write_reversed_spec b (ll_digits 20 (- z) ++ [45])) as (rest & -> & _).
    { specialize (Hd (- z) ltac:(lia)). unfold SDS_LLSTR_SIZE in Hb. zlia. }
    exists rest. rewrite rev_app_distr, ll_digits_rev, zlen_app, zlen_ll_digits by lia.
    simpl app. do 2 f_equal. zlia.
  - rbind. rewrite app_nil_r.
    destruct (write_reversed_spec b (ll_digits 20 z)) as (rest & -> & _).
    { specialize (Hd z ltac:(lia)). unfold SDS_LLSTR_SIZE in Hb. lia. }
    exists rest. by rewrite ll_digits_rev, zlen_ll_digits by lia.
Qed.

Lemma sdsull2str_spec b z :
  zlen b = SDS_LLSTR_SIZE → 0 ≤ z < 2 ^ 64 →
  ∃ rest, sdsull2str b z = Ok (zlen (udec z), udec z ++ 0 :: rest).
Proof.
  intros Hb Hz. unfold sdsull2str. rewrite <- !ll_digits_rev by lia.
  pose proof (udec_len_le z 20 ltac:(simpl; lia) ltac:(lia)) as Hu.
  rewrite <- ll_digits_rev, length_rev in Hu by lia.
  destruct (write_reversed_spec b (ll_digits 20 z)) as (rest & -> & _).
  { unfold SDS_LLSTR_SIZE, zlen in *. lia. }
  exists rest. unfold zlen. by rewrite length_rev.
Qed.

(** ** Formatted output *)

Lemma cstr_prefix a t : 0 ∈ a → cstr (a ++ t) = cstr a.
Proof.
  induction a as [|x a IH]; [by intros ?%not_elem_of_nil|]. intros Hin. simpl.
  destruct (Z.eqb_spec x 0); [done|]. apply elem_of_cons in Hin as [?|Hin]; [lia|]. by rewrite IH.
Qed.

Lemma cstr_terminated t c : cstr (t ++ 0 :: c) = cstr t.
Proof. induction t as [|x t IH]; simpl; [done|]. by rewrite IH. Qed.

(** One round: [vsnprintf] into a block of [buflen] bytes whose last but one
    byte is cleared. *)
Lemma vprintf_round j buflen text :
  zlen j = buflen → 2 ≤ buflen →
  ∃ b c, (b ← store j (buflen - 2) 0; blit b 0 (snprintf buflen text ++ [0])) = Ok b ∧ load b (buflen - 2) = Ok c ∧
    (c = 0 → cstr b = cstr text) ∧ (c ≠ 0 → buflen - 1 ≤ zlen text).
Proof.
  intros Hj Hb. destruct (block_split j (buflen - 2)) as (a & x & y & -> & Ha); [lia|].
  rewrite (store_app a x y) by lia. rbind. rewrite zlen_app, zlen_cons in Hj.
  unfold snprintf. set (w := take (Z.to_nat (buflen - 1)) text).
  assert (zlen w = Z.min (buflen - 1) (zlen text)) as Hw by (subst w; unfold zlen; rewrite length_take; lia).
  unfold blit. rewrite (proj2 (Z.leb_le (0 + zlen (w ++ [0])) _)) by zlia. cbn [andb Z.leb Z.compare]. rewrite take_0, app_nil_l.
  set (d := drop _ _). exists ((w ++ [0]) ++ d). assert (zlen ((w ++ [0]) ++ d) = buflen) as Hl.
  { subst d. unfold zlen in *. rewrite !length_app, length_drop, !length_app in *. simpl in *. lia. }
  destruct (Z.le_gt_cases (zlen text) (buflen - 2)) as [Hs|Hg].
  - assert (w = text) as Hwt by (apply take_ge; unfold zlen in *; lia). clearbody w. subst w.
    exists 0. split; [done|]. split; [|split; [|done]].
    2:{ intros _. rewrite <- app_assoc. apply cstr_terminated. }
    unfold load. unfold vec_at. rewrite Hl, (proj2 (Z.leb_le _ _)), (proj2 (Z.ltb_lt _ _)) by lia. cbn [andb].
    assert (((text ++ [0]) ++ d) !! Z.to_nat (buflen - 2) = Some 0) as ->; [|done].
    destruct (Z.eq_dec (zlen text) (buflen - 2)) as [E|E].
    + rewrite <- E, to_nat_zlen, <- app_assoc. by apply list_lookup_middle.
    + rewrite lookup_app_r by (rewrite length_app; unfold zlen in *; simpl; lia). subst d. rewrite lookup_drop.
      rewrite lookup_app_r by (rewrite length_app; unfold zlen in *; simpl; lia).
      replace (_ - _)%nat with 0%nat; [done|]. rewrite length_app. unfold zlen in *. simpl. lia.
  - assert (∃ c, text !! Z.to_nat (buflen - 2) = Some c) as [c Hc].
    { apply lookup_lt_is_Some_2. unfold zlen in *. lia. }
    assert (w !! Z.to_nat (buflen - 2) = Some c) as Hwc by (subst w; rewrite lookup_take_lt by lia; done).
    exists c. split; [done|]. split; [|split; [|lia]].
    + unfold load. apply lookup_lt_Some in Hwc as Hlt.
      unfold vec_at. rewrite Hl, (proj2 (Z.leb_le _ _)), (proj2 (Z.ltb_lt _ _)) by lia. cbn [andb].
      by rewrite lookup_app_l, lookup_app_l, Hwc by (rewrite ?length_app; lia).
    + intros ->. apply list_elem_of_lookup_2 in Hwc. rewrite <- app_assoc. change ([0] ++ d) with (0 :: d).
      rewrite cstr_terminated. rewrite <- (take_drop (Z.to_nat (buflen - 1)) text). fold w. by rewrite cstr_prefix.
Qed.

Lemma vprintf_loop_spec fuel buflen text :
  2 ≤ buflen → zlen text < 2 ^ 31 → zlen text + 3 ≤ buflen + Z.of_nat fuel → (0 < fuel)%nat →
  (vprintf_loop fuel buflen text = Ok None ∧ ∃ n, malloc_ok n = false) ∨
  (∃ b, vprintf_loop fuel buflen text = Ok (Some b) ∧ cstr b = cstr text).
Proof.
  revert buflen. induction fuel as [|fuel IH]; intros buflen Hb Ht Hf H0; [lia|]. cbn [vprintf_loop].
  destruct (malloc_ok buflen) eqn:Em; cbn [negb]; [|left; eauto].
  destruct (vprintf_round (junk (Z.to_nat buflen)) buflen text) as (b & c & E & Ec & Hz & Hnz); [|done|].
  { unfold zlen. rewrite junk_length. lia. }
  destruct (store _ _ _) as [j|]; [|done]. rbind. change (blit j 0 (snprintf buflen text ++ [0]) = Ok b) in E.
  rewrite E. rbind. rewrite Ec. rbind. destruct (Z.eqb_spec c 0) as [Hc|Hc]; cbn [negb].
  - right. eauto.
  - specialize (Hnz Hc). rewrite u64_small by lia. apply IH; lia.
Qed.

Lemma sdscatprintf_repr s v text :
  repr s v → zlen text < 2 ^ 31 → zlen v + zlen (cstr text) < LIMIT → returns (sdscatprintf s text) (v ++ cstr text).
Proof.
  intros Hr Ht Hlim. unfold sdscatprintf, sdscatvprintf.
  destruct (vprintf_loop_spec (S (length text)) 16 text) as [[-> ?]|(b & -> & Eb)];
    [lia|done|unfold zlen; lia|lia|by left|]. rbind.
  unfold sdscat. rewrite Eb. by apply sdscatlen_repr.
Qed.

(** ** The operations as functions on byte strings *)

Inductive sop :=
  | SCatlen (t : bytes) | SCat (t : bytes) | SCpylen (t : bytes) | SPrintf (text : bytes) | SGrowzero (n : Z)
  | SRange (start last : Z) | STrim (cset : bytes) | SClear | SUpdatelen | SToLower | SToUpper.

(** One call in C. *)
Definition sds_step (o : sop) (s : sds) : result (option sds) :=
  match o with
  | SCatlen t => sdscatlen s t (zlen t)
  | SCat t => sdscat s t
  | SCpylen t => sdscpylen s t (zlen t)
  | SPrintf text => sdscatprintf s text
  | SGrowzero n => sdsgrowzero s n
  | SRange a b => Some <$> sdsrange s a b
  | STrim cset => Some <$> sdstrim s cset
  | SClear => Some <$> sdsclear s
  | SUpdatelen => Some <$> sdsupdatelen s
  | SToLower => Some <$> sdstolower s
  | SToUpper => Some <$> sdstoupper s
  end.

(** Its effect on the bytes. *)
Definition bytes_step (o : sop) (v : bytes) : bytes :=
  match o with
  | SCatlen t => v ++ t
  | SCat t => v ++ cstr t
  | SCpylen t => t
  | SPrintf text => v ++ cstr text
  | SGrowzero n => v ++ replicate (Z.to_nat (n - zlen v)) 0
  | SRange a b => range_spec a b v
  | STrim cset => trim_spec cset v
  | SClear => []
  | SUpdatelen => cstr v
  | SToLower => tolower <$> v
  | SToUpper => toupper <$> v
  end.

(** The call keeps the string's length within [LIMIT], and its arguments are
    in range. *)
Definition sop_ok (o : sop) (v : bytes) : Prop :=
  match o with
  | SPrintf text => zlen text < 2 ^ 31
  | SGrowzero n => 0 ≤ n
  | SRange a b => range_args a b
  | _ => True
  end ∧ zlen (bytes_step o v) < LIMIT.

Fixpoint sds_run (ops : list sop) (s : sds) : result (option sds) :=
  match ops with
  | [] => Ok (Some s)
  | o :: ops => r ← sds_step o s; match r with None => Ok None | Some s => sds_run ops s end
  end.

Fixpoint ops_ok (ops : list sop) (v : bytes) : Prop :=
  match ops with [] => True | o :: ops => sop_ok o v ∧ ops_ok ops (bytes_step o v) end.

Lemma returns_pure (r : result sds) v : (∃ s, r = Ok s ∧ repr s v) → returns (Some <$> r) v.
Proof. intros (s & -> & Hs). right. by exists s. Qed.

Lemma sds_step_refines o s v : repr s v → sop_ok o v → returns (sds_step o s) (bytes_step o v).
Proof.
  intros Hr [Hok Hlim]. destruct o; cbn [sds_step bytes_step sop_ok] in *;
    try (rewrite zlen_app in Hlim).
  - by apply sdscatlen_repr.
  - by apply sdscatlen_repr.
  - by eapply sdscpylen_repr.
  - by apply sdscatprintf_repr.
  - apply sdsgrowzero_repr; [done|]. unfold zlen in Hlim. rewrite length_replicate in Hlim. unfold LIMIT in *. lia.
  - by apply returns_pure, sdsrange_repr.
  - by apply returns_pure, sdstrim_repr.
  - by eapply returns_pure, sdsclear_repr.
  - by apply returns_pure, sdsupdatelen_repr.
  - by apply returns_pure, map_chars_repr.
  - by apply returns_pure, map_chars_repr.
Qed.


Section granted.
(** Every allocation is granted. *)
Hypothesis granted : ∀ n, malloc_ok n = true.

Lemma returns_granted r v : returns r v → ∃ s, r = Ok (Some s) ∧ repr s v.
Proof. intros [[_ [n Hn]]|Hs]; [by rewrite granted in Hn|done]. Qed.

(** ** [sdscatfmt] *)

(** Inside [sdscatfmt]: [w] is written, and not yet terminated. *)
Definition written (s : sds) (w : bytes) : Prop := block_ok s ∧ w `prefix_of` buf s ∧ len s = zlen w.

Lemma fmt_room s w n :
  written s w → 0 ≤ n → zlen w + n < LIMIT →
  ∃ s', (if free s <? n then o ← sdsMakeRoomFor s (u64 n); nn o else Ok s) = Ok s' ∧ written s' w ∧ n ≤ free s'.
Proof.
  pose proof (zlen_nonneg w). intros (Hb & Hp & Hl) Hn Hlim. destruct (Z.ltb_spec (free s) n); [|by exists s].
  unfold LIMIT in *. rewrite u64_small by lia.
  destruct (MakeRoom_block s w n Hb Hp) as [[_ [k Hk]]|(s' & -> & Hb' & Hp' & Hl' & Hf')];
    [lia|done|unfold LIMIT; lia|by rewrite granted in Hk|].
  rbind. exists s'. split; [done|]. split; [|done]. split; [done|]. split; [done|]. by rewrite Hl'.
Qed.

Lemma written_extend s w t b :
  written s w → zlen t ≤ free s → (∀ c r, zlen c = zlen t → buf s = w ++ c ++ r → b = w ++ t ++ r) →
  written {| len := len s + zlen t; free := free s - zlen t; buf := b |} (w ++ t).
Proof.
  intros ((H0 & Hf & Hz & Hb) & [r Er] & El) Ht Hbuf. rewrite Er in Hz, Hb. autorewrite with zlen in *.
  destruct (decide (zlen t = zlen r)) as [E|E].
  { exfalso. lia. }
  destruct (block_split r (zlen t)) as (c & x & r' & -> & Hc); [zlia|].
  rewrite (Hbuf c (x :: r') Hc Er). unfold written, block_ok. cbn [len free buf]. autorewrite with zlen in *.
  repeat split; try zlia. exists (x :: r'). by rewrite <- app_assoc.
Qed.

Lemma fmt_append_written s w t rest l :
  written s w → l = zlen t → zlen w + l < LIMIT →
  ∃ s', fmt_append s (zlen w) (t ++ rest) l = Ok (s', zlen (w ++ t)) ∧ written s' (w ++ t).
Proof.
  intros Hw -> Hlim. pose proof (zlen_nonneg t). pose proof (zlen_nonneg w). unfold fmt_append.
  destruct (fmt_room s w (zlen t) Hw ltac:(lia) Hlim) as (s1 & -> & Hw1 & Hf1). rbind.
  unfold LIMIT in *. rewrite u64_small by lia.
  destruct Hw1 as ((Hl0 & Hf0 & Hz & Hb) & [r Er] & El). pose proof Hz as Hz'. rewrite Er, zlen_app in Hz'.
  destruct (block_split r (zlen t)) as (c & x & r' & -> & Hc); [lia|].
  unfold memcpy. rewrite slice_prefix by done. rbind. rewrite Er, (blit_app w c (x :: r')) by done. rbind.
  unfold HDR in *. rewrite !int_of_ok by lia. rbind. rewrite ?int_of_ok by lia. rbind. rewrite ?int_of_ok by lia. rbind.
  eexists. split; [by rewrite zlen_app|]. apply written_extend; [|lia|].
  - split; [done|]. split; [|done]. by exists (c ++ x :: r').
  - intros c1 r1 Hc1 E1. rewrite Er in E1. apply app_inv_head in E1.
    assert (length c = length c1) as Hlen by (unfold zlen in *; lia).
    by apply app_inj_1 in E1 as [_ <-].
Qed.

Lemma fmt_char_written s w c :
  written s w → 0 < free s → zlen w + 1 < LIMIT →
  ∃ s', fmt_char s (zlen w) c = Ok (s', zlen (w ++ [c])) ∧ written s' (w ++ [c]).
Proof.
  intros Hw Hf Hlim. pose proof Hw as ((Hl0 & Hf0 & Hz & Hb) & [r Er] & El). unfold fmt_char, LIMIT, HDR in *.
  pose proof (zlen_nonneg w). destruct r as [|x r]; [rewrite Er in Hz; zlia|].
  rewrite Er, (store_app w x r) by done. rbind. rewrite !int_of_ok by lia. rbind.
  rewrite ?int_of_ok by lia. rbind. rewrite ?int_of_ok by lia. rbind.
  eexists. split; [by rewrite zlen_app|]. apply (written_extend s w [c]); [done|change (zlen [c]) with 1; lia|].
  intros c1 r1 Hc1 E1. rewrite Er in E1. apply app_inv_head in E1. destruct c1 as [|y [|]]; [done| |zlia].
  by injection E1 as <- <-.
Qed.

(** The bytes of an [sds] argument. *)
Definition sds_val (t : sds) : bytes := take (Z.to_nat (len t)) (buf t).

(** The text of one conversion, and the arguments left. *)
Definition conv_spec (next : Z) (args : list fmtarg) : option (bytes * list fmtarg) :=
  if next =? 115 then match args with FStr t :: args => Some (cstr t, args) | _ => None end
  else if next =? 83 then match args with FSds t :: args => Some (sds_val t, args) | _ => None end
  else if (next =? 105) || (next =? 73) then
    match args with a :: args => z ← int_arg next a; Some (sdec z, args) | [] => None end
  else if (next =? 117) || (next =? 85) || (next =? 84) then
    match args with a :: args => z ← uint_arg next a; Some (udec z, args) | [] => None end
  else Some ([next], args).

(** The text of a format; [None] when an argument is missing or of another
    type, or when the format ends in a [%]. *)
Fixpoint fmt_spec (f : bytes) (args : list fmtarg) : option bytes :=
  match f with
  | [] => Some []
  | c :: f =>
      if c =? 37 then
        match f with
        | [] => None
        | next :: f => '(t, args) ← conv_spec next args; rest ← fmt_spec f args; Some (t ++ rest)
        end
      else rest ← fmt_spec f args; Some (c :: rest)
  end.

Definition arg_ok (a : fmtarg) : Prop :=
  match a with
  | FStr t => True
  | FSds t => ∃ v, repr t v
  | FInt z | FLongLong z => - 2 ^ 63 < z < 2 ^ 63
  | FUInt z | FULongLong z => 0 ≤ z < 2 ^ 64
  end.

Lemma conv_written s w next args t args' :
  written s w → 0 < free s → Forall arg_ok args → conv_spec next args = Some (t, args') →
  zlen w + zlen t + 1 < LIMIT →
  Forall arg_ok args' ∧
  ∃ s', fmt_conv next args s (zlen w) = Ok (s', zlen (w ++ t), args') ∧ written s' (w ++ t).
Proof.
  intros Hw Hf Hargs Hc Hlim. pose proof (zlen_nonneg w). pose proof (zlen_nonneg t).
  assert (LIMIT < 2 ^ 31) as HL by (unfold LIMIT; lia).
  assert (zlen (junk (Z.to_nat SDS_LLSTR_SIZE)) = SDS_LLSTR_SIZE) as Hj by (unfold zlen; by rewrite junk_length).
  unfold conv_spec, fmt_conv in *.
  destruct (next =? 115).
  { destruct args as [|[x|x|x|x|x|x] args]; try done. apply Forall_cons in Hargs as [_ Hargs]. injection Hc as <- <-.
    split; [done|]. rewrite i32_small by lia.
    destruct (fmt_append_written s w (cstr x) [] (zlen (cstr x)) Hw eq_refl ltac:(lia)) as (s' & E & ?).
    rewrite app_nil_r in E. rewrite E. rbind. by exists s'. }
  destruct (next =? 83).
  { destruct args as [|[x|x|x|x|x|x] args]; try done. apply Forall_cons in Hargs as [[v Hv] Hargs]. injection Hc as <- <-.
    split; [done|]. destruct (repr_bounds x v Hv) as (Hl & _ & _ & _ & Hl2). rewrite Hl in *.
    destruct Hv as (spare & Eb & El & _). unfold sds_val in *. rewrite El, Eb, to_nat_zlen, take_app_length in *.
    rewrite i32_small by lia.
    destruct (fmt_append_written s w v (0 :: spare) (zlen v) Hw eq_refl ltac:(lia)) as (s' & -> & ?). rbind.
    by exists s'. }
  destruct ((next =? 105) || (next =? 73)).
  { destruct args as [|a args]; [done|]. apply Forall_cons in Hargs as [Ha Hargs].
    destruct (int_arg next a) as [z|] eqn:Ez; [|done]. injection Hc as <- <-. split; [done|]. cbn [nn]. rbind.
    assert (- 2 ^ 63 < z < 2 ^ 63) as Hz by (destruct a; simpl in Ez; try done; case_match; by simplify_eq).
    destruct (sdsll2str_spec _ z Hj Hz) as (rest & ->). rbind.
    destruct (fmt_append_written s w (sdec z) (0 :: rest) (zlen (sdec z)) Hw eq_refl ltac:(lia)) as (s' & -> & ?). rbind.
    by exists s'. }
  destruct ((next =? 117) || (next =? 85) || (next =? 84)).
  { destruct args as [|a args]; [done|]. apply Forall_cons in Hargs as [Ha Hargs].
    destruct (uint_arg next a) as [z|] eqn:Ez; [|done]. injection Hc as <- <-. split; [done|]. cbn [nn]. rbind.
    assert (0 ≤ z < 2 ^ 64) as Hz by (destruct a; simpl in Ez; try done; case_match; by simplify_eq).
    destruct (sdsull2str_spec _ z Hj Hz) as (rest & ->). rbind.
    destruct (fmt_append_written s w (udec z) (0 :: rest) (zlen (udec z)) Hw eq_refl ltac:(lia)) as (s' & -> & ?). rbind.
    by exists s'. }
  injection Hc as <- <-. split; [done|].
  destruct (fmt_char_written s w next Hw Hf ltac:(zlia)) as (s' & -> & ?). rbind. by exists s'.
Qed.

Lemma fmt_loop_written n f args s w out :
  (length f ≤ n)%nat → written s w → Forall arg_ok args → fmt_spec f args = Some out → zlen w + zlen out + 1 < LIMIT →
  ∃ s', fmt_loop f args s (zlen w) = Ok (s', zlen (w ++ out)) ∧ written s' (w ++ out).
Proof.
  revert f args s w out. induction n as [|n IH]; intros f args s w out Hn Hw Hargs Hspec Hlim.
  all: destruct f as [|c f]; [injection Hspec as <-; exists s; by rewrite app_nil_r|simpl in Hn; try lia].
  cbn [fmt_loop]. pose proof (zlen_nonneg w). pose proof (zlen_nonneg out).
  assert (∃ s1, (if free s =? 0 then o ← sdsMakeRoomFor s 1; nn o else Ok s) = Ok s1 ∧ written s1 w ∧ 0 < free s1)
    as (s1 & -> & Hw1 & Hf1).
  { pose proof Hw as ((_ & Hf0 & _) & _). destruct (fmt_room s w 1 Hw ltac:(lia) ltac:(lia)) as (s1 & E & Hw1 & Hf1).
    destruct (Z.eqb_spec (free s) 0) as [E0|E0]; [|exists s; split; [done|]; split; [done|lia]].
    rewrite (proj2 (Z.ltb_lt _ _)) in E by lia. exists s1. split; [exact E|]. split; [done|lia]. }
  rbind. cbn [fmt_spec] in Hspec. destruct (c =? 37).
  - destruct f as [|next f]; [done|]. simpl in Hn.
    destruct (conv_spec next args) as [[t args']|] eqn:Ec; [|done].
    destruct (fmt_spec f args') as [rest|] eqn:Er; [|by rewrite ?Er in Hspec; simpl in Hspec; rewrite Er in Hspec].
    simpl in Hspec. rewrite Er in Hspec. injection Hspec as <-. rewrite zlen_app in Hlim. pose proof (zlen_nonneg rest).
    destruct (conv_written s1 w next args t args' Hw1 Hf1 Hargs Ec ltac:(lia)) as (Hargs' & s2 & -> & Hw2). rbind.
    destruct (IH f args' s2 (w ++ t) rest) as (s3 & -> & Hw3); try done; [lia|rewrite zlen_app; lia|].
    exists s3. by rewrite <- !app_assoc in *.
  - destruct (fmt_spec f args) as [rest|] eqn:Er; [|done]. injection Hspec as <-. rewrite zlen_cons in Hlim.
    pose proof (zlen_nonneg rest).
    destruct (fmt_char_written s1 w c Hw1 Hf1 ltac:(lia)) as (s2 & -> & Hw2). rbind.
    destruct (IH f args s2 (w ++ [c]) rest) as (s3 & -> & Hw3); try done; [lia|zlia|].
    exists s3. by rewrite <- !app_assoc in *.
Qed.

Lemma sdscatfmt_repr s v fmt args out :
  repr s v → Forall arg_ok args → fmt_spec (cstr fmt) args = Some out → zlen v + zlen out + 1 < LIMIT →
  ∃ s', sdscatfmt s fmt args = Ok s' ∧ repr s' (v ++ out).
Proof.
  intros Hr Hargs Hspec Hlim. unfold sdscatfmt. destruct (repr_bounds s v Hr) as (-> & _ & Hf & Hb & _). unfold HDR in *.
  pose proof (zlen_nonneg v). rewrite i32_small by lia.
  assert (written s v) as Hw.
  { apply repr_block in Hr as (H1 & [t H2] & H3). split; [done|]. split; [|done]. exists ([0] ++ t). by rewrite app_assoc. }
  destruct (fmt_loop_written (length (cstr fmt)) (cstr fmt) args s v out) as (s1 & -> & (Hl0 & Hf0 & Hz & Hbd) & [r Er] & El);
    try done. rbind. rewrite Er in *. destruct r as [|x r]; [zlia|]. rewrite (store_app (v ++ out) x r) by done. rbind.
  eexists. split; [done|]. exists r. cbn [buf len free]. split; [done|]. unfold HDR in *.
  autorewrite with zlen in *. repeat split; lia.
Qed.

(** [sdscatfmt] appends the text that the format and its arguments denote:
    the strings, the decimal form of the numbers (every [long long] but the
    least, every [unsigned long long]) and the other characters as they are. *)
Theorem sdscatfmt_spec s v fmt args out :
  repr s v → Forall arg_ok args → fmt_spec (cstr fmt) args = Some out → zlen v + zlen out + 1 < LIMIT →
  ∃ s', sdscatfmt s fmt args = Ok s' ∧ repr s' (v ++ out).
Proof. apply sdscatfmt_repr. Qed.

(** ** Quoting and splitting of command lines *)

(** What [sdscatrepr] writes for a byte and for a string. *)
Definition escape (c : Z) : bytes :=
  if (c =? 92) || (c =? 34) then [92; c]
  else if c =? 10 then str "\n" else if c =? 13 then str "\r" else if c =? 9 then str "\t"
  else if c =? 7 then str "\a" else if c =? 8 then str "\b"
  else if isprint c then [c] else str "\x" ++ hex2 c.

Definition quoted (p : bytes) : bytes := [34] ++ concat (escape <$> p) ++ [34].

Lemma hex_char_range d : 0 ≤ d < 16 → is_hex_digit (hex_char d) = true ∧ hex_digit_to_int (hex_char d) = d ∧
  isprint (hex_char d) = true ∧ hex_char d ≠ 0.
Proof.
  intros Hd. assert (d ∈ [0;1;2;3;4;5;6;7;8;9;10;11;12;13;14;15]) as Hin.
  { rewrite list_elem_of_In. simpl. lia. }
  repeat (apply elem_of_cons in Hin as [->|Hin]; [done|]). by apply not_elem_of_nil in Hin.
Qed.

Lemma escape_len c : 1 ≤ zlen (escape c) ≤ 4.
Proof. unfold escape. repeat case_match; done. Qed.

Lemma escape_nonzero c : is_byte c → Forall (λ x, x ≠ 0) (escape c).
Proof.
  intros Hc. unfold escape. destruct (Z.eqb_spec c 92), (Z.eqb_spec c 34); cbn [orb];
    repeat case_match; subst; repeat (apply Forall_cons; split); try done; try (by apply Forall_nil).
  - intros ->. done.
  - apply hex_char_range. unfold is_byte in Hc. split; [apply Z.div_pos|apply Z.div_lt_upper_bound]; lia.
  - apply hex_char_range, Z.mod_pos_bound. lia.
Qed.

Lemma cstr_nonzero l : Forall (λ c, c ≠ 0) l → cstr l = l.
Proof. induction 1 as [|c l Hc _ IH]; simpl; [done|]. by rewrite (proj2 (Z.eqb_neq c 0)), IH. Qed.

Lemma repr_char_repr s v c :
  is_byte c → repr s v → zlen v + 4 < LIMIT → returns (repr_char s c) (v ++ escape c).
Proof.
  intros Hc Hr Hlim. pose proof (escape_len c). pose proof (escape_nonzero c Hc) as Hnz.
  assert (∀ text, text = escape c → returns (sdscatprintf s text) (v ++ escape c)) as Hpr.
  { intros text ->. pose proof (sdscatprintf_repr s v (escape c) Hr) as P. rewrite cstr_nonzero in P by done.
    apply P; lia. }
  assert (∀ t n, t = escape c → n = zlen t → returns (sdscatlen s t n) (v ++ escape c)) as Hct.
  { intros t n -> ->. apply sdscatlen_repr; [done|done|lia]. }
  unfold repr_char, escape in *. repeat case_match; try (by apply Hpr); by apply Hct.
Qed.

Lemma repr_loop_repr p s v :
  Forall is_byte p → repr s v → zlen v + 4 * zlen p + 4 < LIMIT →
  ∃ s', repr_loop (Some s) p = Ok (Some s') ∧ repr s' (v ++ concat (escape <$> p)).
Proof.
  intros Hp. revert s v. induction Hp as [|c p Hc Hp IH]; intros s v Hr Hlim; cbn [repr_loop nn].
  { exists s. simpl. by rewrite app_nil_r. }
  rbind. rewrite zlen_cons in Hlim. pose proof (zlen_nonneg p).
  destruct (returns_granted _ _ (repr_char_repr s v c Hc Hr ltac:(lia))) as (s1 & -> & Hr1). rbind.
  pose proof (escape_len c). destruct (IH s1 _ Hr1) as (s2 & -> & Hr2); [rewrite zlen_app; lia|].
  exists s2. split; [done|]. simpl. by rewrite app_assoc.
Qed.

Lemma sdscatrepr_repr s v p :
  Forall is_byte p → repr s v → zlen v + 4 * zlen p + 8 < LIMIT →
  ∃ s', sdscatrepr s p (zlen p) = Ok (Some s') ∧ repr s' (v ++ quoted p).
Proof.
  intros Hp Hr Hlim. unfold sdscatrepr. pose proof (zlen_nonneg p). change 1 with (zlen [34]).
  destruct (returns_granted _ _ (sdscatlen_repr s v [34] _ Hr eq_refl ltac:(change (zlen [34]) with 1; lia)))
    as (s1 & -> & Hr1). rbind.
  rewrite slice_all by done. rbind.
  destruct (repr_loop_repr p s1 _ Hp Hr1) as (s2 & -> & Hr2); [zlia|]. rbind. cbn [nn]. rbind.
  assert (zlen (concat (escape <$> p)) ≤ 4 * zlen p) as Hl.
  { clear. induction p as [|c p IH]; [done|]. rewrite fmap_cons. cbn [concat]. pose proof (escape_len c).
    rewrite zlen_app, zlen_cons. lia. }
  destruct (returns_granted _ _ (sdscatlen_repr s2 _ [34] _ Hr2 eq_refl ltac:(zlia))) as (s3 & E & Hr3).
  exists s3. split; [exact E|]. unfold quoted. by rewrite <- !app_assoc in Hr3.
Qed.

Lemma cat1_repr s v c : repr s v → zlen v + 1 < LIMIT → ∃ s', cat1 s c = Ok s' ∧ repr s' (v ++ [c]).
Proof.
  intros Hr Hlim. unfold cat1. destruct (returns_granted _ _ (sdscatlen_repr s v [c] 1 Hr eq_refl Hlim)) as (s' & -> & ?).
  rbind. by exists s'.
Qed.

Lemma token_loop_backslash c p s :
  c ≠ 120 → token_loop InQ (92 :: c :: p) s = (s ← cat1 s (unescape c); token_loop InQ p s).
Proof.
  intros Hc. cbn [token_loop Z.eqb]. rewrite (proj2 (Z.eqb_neq c 120)) by done. cbn [andb].
  by destruct p as [|? [|??]].
Qed.

Lemma token_loop_escape c p s v :
  is_byte c → repr s v → zlen v + 1 < LIMIT →
  ∃ s', token_loop InQ (escape c ++ p) s = token_loop InQ p s' ∧ repr s' (v ++ [c]).
Proof.
  intros Hc Hr Hlim. destruct (cat1_repr s v c Hr Hlim) as (s' & Ec & Hr'). exists s'. split; [|done].
  assert (∀ x, x ≠ 120 → unescape x = c → token_loop InQ (92 :: x :: p) s = token_loop InQ p s') as Hb.
  { intros x Hx Hu. rewrite token_loop_backslash, Hu, Ec by done. done. }
  unfold escape. destruct (Z.eqb_spec c 92) as [->|H92]; [by apply Hb|].
  destruct (Z.eqb_spec c 34) as [->|H34]; [by apply Hb|]. cbn [orb].
  destruct (Z.eqb_spec c 10) as [->|]; [by apply Hb|].
  destruct (Z.eqb_spec c 13) as [->|]; [by apply Hb|].
  destruct (Z.eqb_spec c 9) as [->|]; [by apply Hb|].
  destruct (Z.eqb_spec c 7) as [->|]; [by apply Hb|].
  destruct (Z.eqb_spec c 8) as [->|]; [by apply Hb|].
  destruct (isprint c) eqn:Ep.
  - simpl app. cbn [token_loop]. rewrite (proj2 (Z.eqb_neq c 92)), (proj2 (Z.eqb_neq c 34)) by done.
    by rewrite Ec.
  - unfold is_byte in Hc. assert (0 ≤ c / 16 < 16) as H1
      by (split; [apply Z.div_pos|apply Z.div_lt_upper_bound]; lia).
    assert (0 ≤ c mod 16 < 16) as H2 by (apply Z.mod_pos_bound; lia).
    destruct (hex_char_range _ H1) as (Ha1 & Ha2 & _), (hex_char_range _ H2) as (Hb1 & Hb2 & _).
    change (str "\x" ++ hex2 c) with [92; 120; hex_char (c / 16); hex_char (c mod 16)]. simpl app.
    cbn [token_loop]. change (92 =? 92) with true. change (120 =? 120) with true. cbn [andb].
    rewrite Ha1, Hb1, Ha2, Hb2. cbn [andb]. replace (c / 16 * 16 + c mod 16) with c; [by rewrite Ec|].
    pose proof (Z.div_mod c 16). lia.
Qed.

Lemma token_loop_escaped q p s v :
  Forall is_byte q → repr s v → zlen v + zlen q < LIMIT →
  ∃ s', token_loop InQ (concat (escape <$> q) ++ p) s = token_loop InQ p s' ∧ repr s' (v ++ q).
Proof.
  intros Hq. revert s v. induction Hq as [|c q Hc Hq IH]; intros s v Hr Hlim.
  { exists s. by rewrite app_nil_r. }
  rewrite zlen_cons in Hlim. pose proof (zlen_nonneg q). rewrite fmap_cons. cbn [concat]. rewrite <- app_assoc.
  destruct (token_loop_escape c (concat (escape <$> q) ++ p) s v Hc Hr ltac:(lia)) as (s1 & -> & Hr1).
  destruct (IH s1 _ Hr1) as (s2 & -> & Hr2); [zlia|]. exists s2. by rewrite <- app_assoc in Hr2.
Qed.

(** A command line of quoted arguments with a space between them. *)
Fixpoint command_line (ps : list bytes) : bytes :=
  match ps with [] => [] | [p] => quoted p | p :: ps => quoted p ++ [32] ++ command_line ps end.

Lemma sdsempty_repr : ∃ s, sdsempty = Ok (Some s) ∧ repr s [].
Proof. apply returns_granted, sdsnewlen_repr; done. Qed.

Lemma args_loop_quoted fuel p rest vec :
  Forall is_byte p → zlen p < LIMIT → closes rest = true →
  ∃ tok, repr tok p ∧ args_loop (S fuel) (quoted p ++ rest) vec = args_loop fuel rest (vec ++ [tok]).
Proof.
  intros Hp Hlim Hc. cbn [args_loop]. unfold quoted. rewrite <- !app_assoc. simpl app.
  change (skip_spaces (34 :: ?x)) with (34 :: x). destruct sdsempty_repr as (e & -> & He). rbind. cbn [nn]. rbind.
  destruct (token_loop_escaped p (34 :: rest) e [] Hp He) as (tok & E & Hr); [zlia|].
  exists tok. split; [done|]. cbn [token_loop]. change (34 =? 34) with true.
  change ((34 =? 32) || (34 =? 10) || (34 =? 13) || (34 =? 9)) with false. cbv iota. rewrite E.
  cbn [token_loop]. change (34 =? 92) with false. change (34 =? 34) with true. cbv iota. rewrite Hc. rbind. done.
Qed.

Lemma command_line_nonzero ps : Forall (Forall is_byte) ps → Forall (λ c, c ≠ 0) (command_line ps).
Proof.
  assert (∀ p, Forall is_byte p → Forall (λ c, c ≠ 0) (quoted p)) as Hq.
  { intros p Hp. unfold quoted. repeat (apply Forall_app; split); try (apply Forall_cons; split; [done|by apply Forall_nil]).
    induction Hp as [|c p Hc _ IH]; [by apply Forall_nil|]. rewrite fmap_cons. cbn [concat].
    apply Forall_app; split; [by apply escape_nonzero|done]. }
  induction 1 as [|p [|p2 ps] Hp Hps IH]; [by apply Forall_nil|by apply Hq|].
  change (command_line (p :: p2 :: ps)) with (quoted p ++ [32] ++ command_line (p2 :: ps)).
  apply Forall_app; split; [by apply Hq|]. by apply Forall_app; split; [apply Forall_cons; split; [|apply Forall_nil]|].
Qed.

Lemma args_loop_line ps fuel vec :
  Forall (Forall is_byte) ps → Forall (λ p, zlen p < LIMIT) ps → (length ps < fuel)%nat →
  ∃ toks, args_loop fuel (command_line ps) vec = Ok (Some (vec ++ toks)) ∧ Forall2 repr toks ps.
Proof.
  intros Hb. revert fuel vec. induction Hb as [|p ps Hp Hps IH]; intros fuel vec Hl Hf.
  { destruct fuel as [|fuel]; [simpl in Hf; lia|]. exists []. by rewrite app_nil_r. }
  apply Forall_cons in Hl as [Hl1 Hl]. destruct fuel as [|fuel]; [simpl in Hf; lia|]. simpl in Hf.
  assert (∃ rest, command_line (p :: ps) = quoted p ++ rest ∧ closes rest = true ∧
            ∀ v, args_loop fuel rest v = args_loop fuel (command_line ps) v) as (rest & -> & Hc & Hskip).
  { destruct ps as [|p2 ps]; [exists []; by rewrite app_nil_r|].
    exists ([32] ++ command_line (p2 :: ps)). split; [done|]. split; [done|]. intros v. by destruct fuel. }
  destruct (args_loop_quoted fuel p rest vec Hp Hl1 Hc) as (tok & Ht & ->). rewrite Hskip.
  destruct (IH fuel (vec ++ [tok]) Hl ltac:(lia)) as (toks & -> & Htoks). exists (tok :: toks).
  rewrite <- app_assoc. split; [done|]. by constructor.
Qed.

Lemma command_line_length ps : (length ps ≤ length (command_line ps))%nat.
Proof.
  induction ps as [|p [|p2 ps] IH]; [done|simpl; lia|].
  change (command_line (p :: p2 :: ps)) with (quoted p ++ [32] ++ command_line (p2 :: ps)).
  rewrite !length_app. simpl in *. lia.
Qed.

(** quoting and splitting are inverse: [sdscatrepr] appends the quoted
    form of any bytes, and [sdssplitargs] on a line of such forms, whatever
    bytes they hold, returns exactly the strings that were quoted. *)
Theorem repr_splitargs_roundtrip ps s v p :
  Forall (Forall is_byte) (p :: ps) → Forall (λ p, zlen p < LIMIT) ps →
  repr s v → zlen v + 4 * zlen p + 8 < LIMIT →
  (∃ s', sdscatrepr s p (zlen p) = Ok (Some s') ∧ repr s' (v ++ quoted p)) ∧
  (∃ toks, sdssplitargs (command_line ps) = Ok (Some toks) ∧ Forall2 repr toks ps).
Proof.
  intros Hb Hl Hr Hlim. apply Forall_cons in Hb as [Hp Hb]. split; [by apply sdscatrepr_repr|].
  unfold sdssplitargs. rewrite cstr_nonzero by (by apply command_line_nonzero).
  pose proof (command_line_length ps).
  destruct (args_loop_line ps (S (length (command_line ps))) []) as (toks & -> & Ht); [done|done|lia|]. by exists toks.
Qed.

(** ** Splitting at a separator, and joining *)

Definition occurs (s sep : bytes) (j : Z) : Prop := take (length sep) (drop (Z.to_nat j) s) = sep.

#[local] Instance occurs_dec s sep j : Decision (occurs s sep j).
Proof. unfold occurs. apply _. Defined.

Definition no_occurrence (sep v : bytes) : Prop :=
  ∀ o, 0 ≤ o → o + zlen sep ≤ zlen v → ¬ occurs v sep o.

Lemma sep_at_spec s sep j :
  0 < zlen sep → 0 ≤ j → j + zlen sep ≤ zlen s →
  sep_at s sep (zlen sep) j = Ok (bool_decide (occurs s sep j)).
Proof.
  intros Hk Hj Hn. unfold sep_at. destruct sep as [|d sep]; [done|].
  destruct (block_split s j) as (a & c & t & -> & Ha); [zlia|].
  rewrite (load_app a c t) by done. rbind. rewrite (load_app [] d sep) by done. rbind.
  rewrite (slice_ok (a ++ c :: t)) by lia. rewrite (slice_all (d :: sep)) by done. rewrite to_nat_zlen.
  assert (drop (Z.to_nat j) (a ++ c :: t) = c :: t) as Hd by (rewrite <- Ha, to_nat_zlen; apply drop_app_length).
  assert (occurs (a ++ c :: t) (d :: sep) j ↔ take (length (d :: sep)) (c :: t) = d :: sep) as Hiff
    by (unfold occurs; by rewrite Hd).
  rewrite Hd, (bool_decide_ext _ _ Hiff). assert (length (take (length (d :: sep)) (c :: t)) = length (d :: sep)) as Hl
    by (rewrite length_take; autorewrite with zlen in Hn; unfold zlen in *; simpl; lia).
  rbind. destruct (Z.eqb_spec (zlen (d :: sep)) 1) as [E|E]; cbn [andb].
  - assert (sep = []) as -> by (apply zlen_0_inv; zlia). destruct (Z.eqb_spec c d) as [->|Hne].
    + by rewrite bool_decide_eq_true_2.
    + f_equal. rewrite bool_decide_eq_false_2 by (intros [= ?]; done).
      apply Z.eqb_neq. rewrite memcmp_eq by done. intros [= ?]; done.
  - f_equal. destruct (Z.eqb_spec (memcmp (take (length (d :: sep)) (c :: t)) (d :: sep)) 0) as [E2|E2].
    + apply memcmp_eq in E2; [|done]. by rewrite bool_decide_eq_true_2.
    + rewrite bool_decide_eq_false_2; [done|]. intros E3. by apply E2, memcmp_eq.
Qed.

(** The tokens and separators before the last token. *)
Definition pieces (sep : bytes) (vs : list bytes) : bytes := concat ((λ v, v ++ sep) <$> vs).

Lemma occurs_split s sep j :
  0 ≤ j → occurs s sep j → drop (Z.to_nat j) s = sep ++ drop (Z.to_nat (j + zlen sep)) s.
Proof.
  intros Hj Ho. unfold occurs in Ho. rewrite Z2Nat.inj_add, to_nat_zlen by zlia.
  rewrite <- drop_drop. rewrite <- Ho at 1. by rewrite take_drop.
Qed.

Lemma occurs_inside s sep start n o :
  0 ≤ start → 0 ≤ o → o + zlen sep ≤ n →
  occurs (take (Z.to_nat n) (drop (Z.to_nat start) s)) sep o → occurs s sep (start + o).
Proof.
  intros Hs Ho Hn Hocc. unfold occurs in *. rewrite skipn_firstn_comm, take_take in Hocc.
  rewrite Z2Nat.inj_add, <- drop_drop by lia. rewrite <- Hocc at 2. f_equal. unfold zlen in *. lia.
Qed.

Lemma split_loop_spec fuel s sep j start slots toks :
  0 < zlen sep → zlen s < LIMIT → 0 ≤ start ≤ j → start ≤ zlen s → zlen s - j ≤ Z.of_nat fuel →
  (∀ i, start ≤ i < j → i + zlen sep ≤ zlen s → ¬ occurs s sep i) →
  ∃ start' new vs, split_loop fuel s (zlen s) sep (zlen sep) j start slots toks = Ok (Some (start', toks ++ new)) ∧
    Forall2 repr new vs ∧ drop (Z.to_nat start) s = pieces sep vs ++ drop (Z.to_nat start') s ∧
    Forall (no_occurrence sep) vs ∧ no_occurrence sep (drop (Z.to_nat start') s) ∧ 0 ≤ start' ≤ zlen s.
Proof.
  intros Hk Hlim. revert j start slots toks. induction fuel as [|fuel IH]; intros j start slots toks Hj Hst Hf Hno.
  all: assert (zlen s - (zlen sep - 1) ≤ j → ∃ start' new vs,
    Ok (Some (start, toks)) = Ok (Some (start', toks ++ new)) ∧
    Forall2 repr new vs ∧ drop (Z.to_nat start) s = pieces sep vs ++ drop (Z.to_nat start') s ∧
    Forall (no_occurrence sep) vs ∧ no_occurrence sep (drop (Z.to_nat start') s) ∧ 0 ≤ start' ≤ zlen s) as Hend.
  1, 3: intros Hge; exists start, [], []; rewrite app_nil_r; split; [done|]; split; [by apply Forall2_nil|];
    split; [done|]; split; [by apply Forall_nil|]; split; [|lia];
    intros o Ho Hol Hocc; apply (Hno (start + o));
    [unfold zlen in *; rewrite length_drop in Hol; lia|unfold zlen in *; rewrite length_drop in Hol; lia|];
    unfold occurs in *; by rewrite drop_drop, <- Z2Nat.inj_add in Hocc by lia.
  { apply Hend. lia. }
  cbn [split_loop]. destruct (Z.ltb_spec j (zlen s - (zlen sep - 1))) as [Hlt|Hge]; [|by apply Hend].
  rewrite granted, andb_false_r. cbv iota. rewrite sep_at_spec by lia. rbind. case_bool_decide as Ho.
  - rewrite slice_ok by lia. rbind. set (v := take _ _).
    assert (zlen v = j - start) as Hv by (subst v; unfold zlen in *; rewrite length_take, length_drop; lia).
    destruct (returns_granted _ _ (sdsnewlen_repr v (j - start) ltac:(lia) ltac:(zlia))) as (tok & -> & Ht). rbind.
    destruct (IH (j + zlen sep) (j + zlen sep) (if slots <? zlen toks + 2 then slots * 2 else slots) (toks ++ [tok]))
      as (start' & new & vs & -> & Hr & Hd & Hn1 & Hn2 & Hb); [lia|lia|lia|lia|].
    exists start', (tok :: new), (v :: vs). rewrite <- app_assoc. split; [done|]. split; [by constructor|].
    split; [|split; [|done]].
    + unfold pieces in *. rewrite fmap_cons. cbn [concat]. rewrite <- !app_assoc, <- Hd, <- occurs_split by (done || lia).
      subst v. replace (drop (Z.to_nat j) s) with (drop (Z.to_nat (j - start)) (drop (Z.to_nat start) s)).
      * by rewrite take_drop.
      * rewrite drop_drop. f_equal. lia.
    + constructor; [|done]. intros o Ho1 Ho2 Hocc. rewrite Hv in Ho2.
      apply (Hno (start + o)); [lia|lia|]. apply (occurs_inside s sep start (j - start)); [lia..|done].
  - apply IH; [lia|done|lia|]. intros i Hi. destruct (Z.eq_dec i j) as [->|]; [done|]. apply Hno. lia.
Qed.

(** The strings with the separator between them. *)
Fixpoint intercalate (sep : bytes) (vs : list bytes) : bytes :=
  match vs with [] => [] | [v] => v | v :: vs => v ++ sep ++ intercalate sep vs end.

Lemma pieces_intercalate sep vs l : pieces sep vs ++ l = intercalate sep (vs ++ [l]).
Proof.
  induction vs as [|v vs IH]; [done|]. unfold pieces in *. rewrite fmap_cons. cbn [concat].
  rewrite <- !app_assoc, IH. simpl app. destruct (vs ++ [l]) eqn:E; [by destruct vs|]. done.
Qed.

Lemma sdscatsds_repr s v t w :
  repr s v → repr t w → zlen v + zlen w < LIMIT → ∃ s', sdscatsds s t = Ok (Some s') ∧ repr s' (v ++ w).
Proof.
  intros Hr Ht Hlim. unfold sdscatsds. destruct (repr_bounds t w Ht) as (-> & _). destruct Ht as (spare & -> & _).
  assert (sdscatlen s (w ++ 0 :: spare) (zlen w) = sdscatlen s w (zlen w)) as ->.
  { unfold sdscatlen. destruct (sdsMakeRoomFor s (zlen w)) as [[s1|]|]; [|done|done]. rbind.
    unfold memcpy. by rewrite slice_prefix, slice_all by done. }
  apply returns_granted, sdscatlen_repr; done.
Qed.

Lemma join_loop_spec {A} (cat : sds → A → result (option sds)) (val : A → bytes → Prop) sep argv vs j w :
  (∀ s v a x, repr s v → val a x → zlen v + zlen x < LIMIT → ∃ s', cat s a = Ok (Some s') ∧ repr s' (v ++ x)) →
  Forall2 val argv vs → repr j w → zlen w + zlen (intercalate sep vs) < LIMIT →
  ∃ j', join_loop cat (Some j) argv sep (zlen sep) = Ok (Some j') ∧ repr j' (w ++ intercalate sep vs).
Proof.
  intros Hcat Hvs. revert j w. induction Hvs as [|a x argv vs Ha Hvs IH]; intros j w Hj Hlim; cbn [join_loop].
  { exists j. by rewrite app_nil_r. }
  cbn [nn]. rbind. pose proof (zlen_nonneg w). pose proof (zlen_nonneg x). pose proof (zlen_nonneg sep).
  assert (zlen x ≤ zlen (intercalate sep (x :: vs))) as Hx by (destruct vs; simpl; zlia).
  destruct (Hcat j w a x Hj Ha ltac:(lia)) as (j1 & -> & Hj1). rbind.
  destruct argv as [|a2 argv].
  { inversion Hvs; subst. rbind. by exists j1. }
  destruct vs as [|x2 vs]; [by inversion Hvs|].
  change (intercalate sep (x :: x2 :: vs)) with (x ++ sep ++ intercalate sep (x2 :: vs)) in *.
  rewrite !zlen_app in Hlim. pose proof (zlen_nonneg (intercalate sep (x2 :: vs))). cbn [nn]. rbind.
  destruct (returns_granted _ _ (sdscatlen_repr j1 _ sep _ Hj1 eq_refl ltac:(rewrite zlen_app; lia))) as (j2 & -> & Hj2).
  rbind. destruct (IH j2 _ Hj2) as (j3 & E & Hj3); [rewrite !zlen_app; lia|].
  exists j3. split; [exact E|]. by rewrite <- !app_assoc in Hj3.
Qed.

(** splitting at a non-empty separator returns strings that do not contain
    it, and joining them with the separator gives back the input, whatever
    bytes it holds. *)
Theorem splitlen_join_roundtrip s sep :
  0 < zlen sep → 0 < zlen s → zlen s < LIMIT →
  ∃ toks vs, sdssplitlen s (zlen s) sep (zlen sep) = Ok (Some toks) ∧ Forall2 repr toks vs ∧
    Forall (no_occurrence sep) vs ∧ intercalate sep vs = s ∧
    ∃ j, sdsjoinsds toks sep (zlen sep) = Ok (Some j) ∧ repr j s.
Proof.
  intros Hk Hs Hlim. unfold sdssplitlen.
  rewrite (proj2 (Z.ltb_ge _ _)), (proj2 (Z.ltb_ge _ _)), granted, (proj2 (Z.eqb_neq _ _)) by lia. cbn [orb negb].
  destruct (split_loop_spec (Z.to_nat (zlen s)) s sep 0 0 5 []) as (st & new & vs & -> & Hr & Hd & Hn1 & Hn2 & Hb);
    [lia..|]. rbind.
  rewrite slice_ok by lia. rbind. set (l := take _ _).
  assert (l = drop (Z.to_nat st) s) as El by (apply take_ge; rewrite length_drop; unfold zlen in *; lia).
  clearbody l. subst l. rewrite drop_0 in Hd.
  destruct (returns_granted _ _ (sdsnewlen_repr (drop (Z.to_nat st) s) (zlen s - st)
    ltac:(unfold zlen in *; rewrite length_drop; lia) ltac:(lia))) as (tok & -> & Ht). rbind.
  set (vs' := vs ++ [drop (Z.to_nat st) s]). rewrite pieces_intercalate in Hd. fold vs' in Hd.
  assert (Forall2 repr (new ++ [tok]) vs') as Hall by (apply Forall2_app; [done|by repeat constructor]).
  exists (new ++ [tok]), vs'. split; [done|]. split; [done|]. split.
  { apply Forall_app. split; [done|]. apply Forall_cons. split; [done|by apply Forall_nil]. }
  split; [done|]. unfold sdsjoinsds. destruct sdsempty_repr as (e & -> & He). rbind.
  destruct (join_loop_spec sdscatsds repr sep (new ++ [tok]) vs' e []) as (j & E & Hj); [|done|done|rewrite <- Hd; zlia|].
  { intros. by apply sdscatsds_repr. }
  exists j. split; [done|]. rewrite <- Hd in Hj. done.
Qed.
End granted.
End sds_spec.

(** three documented uses have no defined result: the least [long long] as
    a number (its negation overflows), a [sdscatfmt] format that ends in a
    [%] (the loop runs past the terminator), and a range whose last index is
    [INT_MAX] (its length overflows an [int]). *)
Theorem sds_undefined_uses `{Malloc} s b :
  sdsfromlonglong (- 2 ^ 63) = Fault IntOverflow ∧ sdsll2str b (- 2 ^ 63) = Fault IntOverflow ∧
  (0 < free s → sdscatfmt s (str "%") [] = Fault OutOfBounds) ∧
  (0 < len s < 2 ^ 31 → sdsrange s 0 (2 ^ 31 - 1) = Fault IntOverflow).
Proof.
  split; [done|]. split; [done|]. split.
  - intros Hf. unfold sdscatfmt. change (cstr (str "%")) with [37]. cbn [fmt_loop].
    by rewrite (proj2 (Z.eqb_neq (free s) 0)) by lia.
  - intros Hl. unfold sdsrange, sdslen. rewrite u64_small by lia. rewrite (proj2 (Z.eqb_neq _ _)) by lia.
    unfold range_bounds, range_len. done.
Qed.

(** ** Instances *)

Definition abc : sds := {| len := 3; free := 2; buf := str "abc" ++ [0; 7; 7] |}.

Lemma abc_repr : repr abc (str "abc").
Proof. by exists [7; 7]. Qed.


Lemma sdscatfmt_spec_witness :
  ∃ s', @sdscatfmt calloc_all abc (str "$%T:%i%%%s") [FULongLong 12; FInt (-7); FStr (str "z")] = Ok s' ∧
        repr s' (str "abc$12:-7%z").
Proof.
  refine (@sdscatfmt_spec calloc_all (λ _, eq_refl) abc (str "abc") (str "$%T:%i%%%s")
    [FULongLong 12; FInt (-7); FStr (str "z")] (str "$12:-7%z") abc_repr _ _ _); [|by vm_compute..].
  repeat (apply Forall_cons; split; [done|]). by apply Forall_nil.
Defined.

Lemma repr_splitargs_roundtrip_witness :
  (∃ s', @sdscatrepr calloc_all abc [34; 0; 255] 3 = Ok (Some s') ∧ repr s' (str "abc" ++ quoted [34; 0; 255])) ∧
  (∃ toks, @sdssplitargs calloc_all (command_line [str "set"; [10; 32; 200]]) = Ok (Some toks) ∧
           Forall2 repr toks [str "set"; [10; 32; 200]]).
Proof.
  refine (@repr_splitargs_roundtrip calloc_all (λ _, eq_refl) [str "set"; [10; 32; 200]] abc (str "abc") [34; 0; 255]
    _ _ abc_repr _); [| |done].
  - repeat (apply Forall_cons; split; [repeat (apply Forall_cons; split; [done|]); by apply Forall_nil|]).
    by apply Forall_nil.
  - repeat (apply Forall_cons; split; [done|]). by apply Forall_nil.
Defined.

Lemma splitlen_join_roundtrip_witness :
  ∃ toks vs, @sdssplitlen calloc_all (str "a,,bc") 5 (str ",") 1 = Ok (Some toks) ∧ Forall2 repr toks vs ∧
    Forall (no_occurrence (str ",")) vs ∧ intercalate (str ",") vs = str "a,,bc" ∧
    ∃ j, @sdsjoinsds calloc_all toks (str ",") 1 = Ok (Some j) ∧ repr j (str "a,,bc").
Proof. refine (@splitlen_join_roundtrip calloc_all (λ _, eq_refl) (str "a,,bc") (str ",") _ _ _); done. Defined.

Lemma sds_undefined_uses_witness :
  @sdscatfmt calloc_all abc (str "%") [] = Fault OutOfBounds ∧
  sdsrange abc 0 (2 ^ 31 - 1) = Fault IntOverflow.
Proof.
  split; [apply (@sds_undefined_uses calloc_all abc []); done|apply (@sds_undefined_uses calloc_all abc []); done].
Defined.
