(* ===== verification/Read.v ===== *)
(** * The reply parser of the client (pack/hiredis/read.h, read.c, and the
    default reply objects of hiredis.c)

    A [redisReader] keeps the bytes received, a stack of read tasks for
    nested replies, and the reply under construction. Reply objects live in a
    heap, since an object is stored into its parent's element vector while
    the parent is still being read. *)

From S2P Require Import Prelude Cstd Cmem Sds.

Module Read.

Definition REDIS_ERR : Z := -1.
Definition REDIS_OK : Z := 0.
Definition REDIS_ERR_IO : Z := 1.
Definition REDIS_ERR_OTHER : Z := 2.
Definition REDIS_ERR_EOF : Z := 3.
Definition REDIS_ERR_PROTOCOL : Z := 4.
Definition REDIS_ERR_OOM : Z := 5.

Definition REDIS_REPLY_STRING : Z := 1.
Definition REDIS_REPLY_ARRAY : Z := 2.
Definition REDIS_REPLY_INTEGER : Z := 3.
Definition REDIS_REPLY_NIL : Z := 4.
Definition REDIS_REPLY_STATUS : Z := 5.
Definition REDIS_REPLY_ERROR : Z := 6.

Definition REDIS_READER_MAX_BUF : Z := 1024 * 16.

(** A pointer that is not NULL. *)
Abbreviation loc := Z.

(** [struct redisReply] after [calloc]: a NULL [str] or [element] is [None];
    [str] is the block with its terminator. *)
Record redisReply := {
  rtype : Z;
  integer : Z;
  rslen : Z;
  rstr : option bytes;
  relements : Z;
  relement : option (list (option loc))
}.

(** [struct redisReadTask]; [tparent] is the parent's index in the stack. *)
Record redisReadTask := {
  ttype : Z;
  telements : Z;
  tidx : Z;
  tobj : option loc;
  tparent : option Z
}.

(** [struct redisReader], with the heap of reply objects and the next free
    address. *)
Record redisReader := {
  rerr : Z;
  errstr : bytes;
  rbuf : option Sds.sds;
  rpos : Z;
  rlen : Z;
  maxbuf : Z;
  rstack : list redisReadTask;
  ridx : Z;
  rreply : option loc;
  rheap : gmap loc redisReply;
  rnext : loc
}.

Definition set_pos (p : Z) (r : redisReader) : redisReader :=
  {| rerr := rerr r; errstr := errstr r; rbuf := rbuf r; rpos := p; rlen := rlen r; maxbuf := maxbuf r;
     rstack := rstack r; ridx := ridx r; rreply := rreply r; rheap := rheap r; rnext := rnext r |}.
Definition set_stack (st : list redisReadTask) (i : Z) (r : redisReader) : redisReader :=
  {| rerr := rerr r; errstr := errstr r; rbuf := rbuf r; rpos := rpos r; rlen := rlen r; maxbuf := maxbuf r;
     rstack := st; ridx := i; rreply := rreply r; rheap := rheap r; rnext := rnext r |}.
Definition set_reply (o : option loc) (r : redisReader) : redisReader :=
  {| rerr := rerr r; errstr := errstr r; rbuf := rbuf r; rpos := rpos r; rlen := rlen r; maxbuf := maxbuf r;
     rstack := rstack r; ridx := ridx r; rreply := o; rheap := rheap r; rnext := rnext r |}.
Definition set_heap (h : gmap loc redisReply) (n : loc) (r : redisReader) : redisReader :=
  {| rerr := rerr r; errstr := errstr r; rbuf := rbuf r; rpos := rpos r; rlen := rlen r; maxbuf := maxbuf r;
     rstack := rstack r; ridx := ridx r; rreply := rreply r; rheap := h; rnext := n |}.
Definition set_buf (b : option Sds.sds) (p l : Z) (r : redisReader) : redisReader :=
  {| rerr := rerr r; errstr := errstr r; rbuf := b; rpos := p; rlen := l; maxbuf := maxbuf r;
     rstack := rstack r; ridx := ridx r; rreply := rreply r; rheap := rheap r; rnext := rnext r |}.

(** The block from [buf+pos] on: the unread bytes, the string's terminator
    and its free space. *)
Definition unread (r : redisReader) : result bytes :=
  s ← Sds.nn (rbuf r); slice (Sds.buf s) (rpos r) (zlen (Sds.buf s) - rpos r).

(** [__redisReaderSetError]: the buffer and the stack are dropped, and the
    message is cut to the size of [errstr]. *)
Definition SetError (type : Z) (msg : bytes) (r : redisReader) : redisReader :=
  {| rerr := type; errstr := take 127 msg; rbuf := None;
     rpos := match rbuf r with None => rpos r | Some _ => 0 end;
     rlen := match rbuf r with None => rlen r | Some _ => 0 end;
     maxbuf := maxbuf r; rstack := rstack r; ridx := -1; rreply := None; rheap := rheap r; rnext := rnext r |}.

(** What [chrtos] prints for a byte. *)
Definition chrtos (byte : Z) : bytes :=
  let q (t : bytes) := [34] ++ t ++ [34] in
  if (byte =? 92) || (byte =? 34) then q [92; byte]
  else if byte =? 10 then q (str "\n") else if byte =? 13 then q (str "\r") else if byte =? 9 then q (str "\t")
  else if byte =? 7 then q (str "\a") else if byte =? 8 then q (str "\b")
  else if isprint byte then q [byte] else q (str "\x" ++ Sds.hex2 byte).

Definition SetErrorProtocolByte (byte : Z) (r : redisReader) : redisReader :=
  let cbuf := snprintf 8 (chrtos byte) in
  SetError REDIS_ERR_PROTOCOL (snprintf 128 (str "Protocol error, got " ++ cbuf ++ str " as reply type byte")) r.

Definition SetErrorOOM (r : redisReader) : redisReader := SetError REDIS_ERR_OOM (str "Out of memory") r.

(** [readBytes(r, n)]. *)
Definition readBytes (r : redisReader) (n : Z) : result (option bytes * redisReader) :=
  if n <=? u64 (rlen r - rpos r) then
    u ← unread r; t ← slice u 0 n; Ok (Some t, set_pos (rpos r + n) r)
  else Ok (None, r).

(** The inner loop of [seekNewline]: the next CR before [last]. *)
Fixpoint skip_to_cr (fuel : nat) (s : bytes) (pos last : Z) : result Z :=
  match fuel with
  | O => Ok pos
  | S fuel =>
      if pos <? last then c ← load s pos; if c =? CR then Ok pos else skip_to_cr fuel s (pos + 1) last
      else Ok pos
  end.

Fixpoint seek_loop (fuel : nat) (s : bytes) (pos last : Z) : result (option Z) :=
  match fuel with
  | O => Ok None
  | S fuel =>
      if pos <? last then
        pos ← skip_to_cr (Z.to_nat last) s pos last;
        c ← load s pos;
        if negb (c =? CR) then Ok None
        else
          d ← load s (pos + 1);
          if d =? LF then Ok (Some pos) else seek_loop fuel s (pos + 1) last
      else Ok None
  end.

(** [seekNewline(s, len)]: the offset of the first CR LF. When the last of
    the [len] bytes is a CR, the byte after them is read too. *)
Definition seekNewline (s : bytes) (len : Z) : result (option Z) :=
  let last := i32 (u64 (len - 1)) in seek_loop (S (Z.to_nat last)) s 0 last.

(** [freeReplyObject]: the elements of an array and then the object itself.
    [depth] bounds the nesting, of which the reader allows eight levels. *)
Fixpoint free_reply (depth : nat) (h : gmap loc redisReply) (l : loc) : result (gmap loc redisReply) :=
  match depth with
  | O => Fault OutOfBounds
  | S depth =>
      r ← Sds.nn (h !! l);
      h ← (if rtype r =? REDIS_REPLY_ARRAY then
             match relement r with
             | None => Ok h
             | Some es =>
                 if zlen es <? relements r then Fault OutOfBounds
                 else
                   (fix free_elements es h :=
                      match es with
                      | [] => Ok h
                      | None :: es => free_elements es h
                      | Some e :: es => h ← free_reply depth h e; free_elements es h
                      end) (take (Z.to_nat (relements r)) es) h
             end
           else Ok h);
      Ok (delete l h)
  end.

Definition freeReplyObject (h : gmap loc redisReply) (reply : option loc) : result (gmap loc redisReply) :=
  match reply with None => Ok h | Some l => free_reply 10 h l end.

(** The value of a [long long] expression. *)
Definition llong_of (z : Z) : result Z :=
  if (- 2 ^ 63 <=? z) && (z <? 2 ^ 63) then Ok z else Fault IntOverflow.

(** Digits up to the CR; [None] at any other character. *)
Fixpoint digits_loop (s : bytes) (v : Z) : result (option Z) :=
  match s with
  | [] => Fault OutOfBounds
  | c :: s =>
      if c =? CR then Ok (Some v)
      else
        let dec := schar c - 48 in
        if (0 <=? dec) && (dec <? 10) then
          v ← llong_of (v * 10); v ← llong_of (v + dec); digits_loop s v
        else Ok None
  end.

Definition readLongLong (s : bytes) : result Z :=
  let '(mult, s) :=
    match s with
    | c :: s' => if c =? 45 then (-1, s') else if c =? 43 then (1, s') else (1, s)
    | [] => (1, [])
    end in
  o ← digits_loop s 0;
  match o with None => Ok (-1) | Some v => Ok (mult * v) end.

(** [readLine]: the line without its end, and the bytes from its start on. *)
Definition readLine (r : redisReader) : result (option (bytes * Z) * redisReader) :=
  u ← unread r;
  s ← seekNewline u (rlen r - rpos r);
  match s with
  | None => Ok (None, r)
  | Some len => Ok (Some (u, len), set_pos (rpos r + len + 2) r)
  end.

Definition task_at (r : redisReader) (i : Z) : result redisReadTask := vec_at (rstack r) i.

(** [rstack[i] = t]. *)
Definition put_task (r : redisReader) (i : Z) (t : redisReadTask) : redisReader :=
  set_stack (<[Z.to_nat i := t]> (rstack r)) (ridx r) r.

(** [moveToNextTask]: the stack has nine entries. *)
Fixpoint move_loop (fuel : nat) (r : redisReader) : result redisReader :=
  match fuel with
  | O => Ok r
  | S fuel =>
      if ridx r <? 0 then Ok r
      else if ridx r =? 0 then Ok (set_stack (rstack r) (-1) r)
      else
        cur ← task_at r (ridx r);
        prv ← task_at r (ridx r - 1);
        if negb (ttype prv =? REDIS_REPLY_ARRAY) then Fault AssertFailed
        else if tidx cur =? telements prv - 1 then move_loop fuel (set_stack (rstack r) (ridx r - 1) r)
        else if negb (tidx cur <? telements prv) then Fault AssertFailed
        else Ok (put_task r (ridx r)
                   {| ttype := -1; telements := -1; tidx := tidx cur + 1; tobj := tobj cur; tparent := tparent cur |})
  end.
Definition moveToNextTask (r : redisReader) : result redisReader := move_loop 10 r.

Section read.
Context `{Malloc}.

(** [sizeof(redisReply)]. *)
Definition REPLY_SIZE : Z := 48.

Definition createReplyObject (type : Z) : option redisReply :=
  if malloc_ok REPLY_SIZE
  then Some {| rtype := type; integer := 0; rslen := 0; rstr := None; relements := 0; relement := None |}
  else None.

(** The end of every create function: the object gets an address and is put
    into the element vector of the task's parent. *)
Definition link_object (task : redisReadTask) (o : redisReply) (r : redisReader) : result (option loc * redisReader) :=
  let l := rnext r in
  let h := <[l := o]> (rheap r) in
  match tparent task with
  | None => Ok (Some l, set_heap h (l + 1) r)
  | Some p =>
      pt ← task_at r p;
      pl ← Sds.nn (tobj pt);
      po ← Sds.nn (h !! pl);
      if negb (rtype po =? REDIS_REPLY_ARRAY) then Fault AssertFailed
      else
        es ← Sds.nn (relement po);
        if (0 <=? tidx task) && (tidx task <? zlen es) then
          let po' := {| rtype := rtype po; integer := integer po; rslen := rslen po; rstr := rstr po;
                        relements := relements po; relement := Some (<[Z.to_nat (tidx task) := Some l]> es) |} in
          Ok (Some l, set_heap (<[pl := po']> h) (l + 1) r)
        else Fault OutOfBounds
  end.

Definition createStringObject (task : redisReadTask) (s : bytes) (len : Z) (r : redisReader)
    : result (option loc * redisReader) :=
  match createReplyObject (ttype task) with
  | None => Ok (None, r)
  | Some o =>
      if negb (malloc_ok (u64 (len + 1))) then Ok (None, r)
      else if negb ((ttype task =? REDIS_REPLY_ERROR) || (ttype task =? REDIS_REPLY_STATUS) ||
                    (ttype task =? REDIS_REPLY_STRING)) then Fault AssertFailed
      else
        b ← memcpy (junk (Z.to_nat (u64 (len + 1)))) 0 s len;
        b ← store b len 0;
        link_object task {| rtype := rtype o; integer := 0; rslen := i32 len; rstr := Some b;
                            relements := 0; relement := None |} r
  end.

Definition createArrayObject (task : redisReadTask) (elements : Z) (r : redisReader)
    : result (option loc * redisReader) :=
  match createReplyObject REDIS_REPLY_ARRAY with
  | None => Ok (None, r)
  | Some o =>
      if (0 <? elements) && negb (malloc_ok (elements * 8)) then Ok (None, r)
      else
        link_object task
          {| rtype := rtype o; integer := 0; rslen := 0; rstr := None; relements := u64 elements;
             relement := if 0 <? elements then Some (replicate (Z.to_nat elements) None) else None |} r
  end.

Definition createIntegerObject (task : redisReadTask) (value : Z) (r : redisReader)
    : result (option loc * redisReader) :=
  match createReplyObject REDIS_REPLY_INTEGER with
  | None => Ok (None, r)
  | Some o =>
      link_object task {| rtype := rtype o; integer := value; rslen := 0; rstr := None; relements := 0;
                          relement := None |} r
  end.

Definition createNilObject (task : redisReadTask) (r : redisReader) : result (option loc * redisReader) :=
  match createReplyObject REDIS_REPLY_NIL with
  | None => Ok (None, r)
  | Some o => link_object task o r
  end.

(** The reply is set when the task is the root. *)
Definition set_root (obj : loc) (r : redisReader) : redisReader :=
  if ridx r =? 0 then set_reply (Some obj) r else r.

Definition processLineItem (r : redisReader) : result (Z * redisReader) :=
  cur ← task_at r (ridx r);
  '(line, r) ← readLine r;
  match line with
  | None => Ok (REDIS_ERR, r)
  | Some (p, len) =>
      '(obj, r) ← (if ttype cur =? REDIS_REPLY_INTEGER
                   then v ← readLongLong p; createIntegerObject cur v r
                   else createStringObject cur p len r);
      match obj with
      | None => Ok (REDIS_ERR, SetErrorOOM r)
      | Some obj => r ← moveToNextTask (set_root obj r); Ok (REDIS_OK, r)
      end
  end.

Definition processBulkItem (r : redisReader) : result (Z * redisReader) :=
  cur ← task_at r (ridx r);
  u ← unread r;
  s ← seekNewline u (rlen r - rpos r);
  match s with
  | None => Ok (REDIS_ERR, r)
  | Some s =>
      let bytelen := s + 2 in
      len ← readLongLong u;
      let finish (x : option loc * redisReader) (bytelen : Z) :=
        match x.1 with
        | None => Ok (REDIS_ERR, SetErrorOOM x.2)
        | Some obj =>
            r ← moveToNextTask (set_root obj (set_pos (u64 (rpos x.2 + bytelen)) x.2)); Ok (REDIS_OK, r)
        end in
      if len <? 0 then x ← createNilObject cur r; finish x bytelen
      else
        l2 ← llong_of (len + 2);
        let bytelen := u64 (bytelen + l2) in
        if u64 (rpos r + bytelen) <=? rlen r then
          t ← slice u (s + 2) (zlen u - (s + 2));
          x ← createStringObject cur t len r; finish x bytelen
        else Ok (REDIS_ERR, r)
  end.

Definition processMultiBulkItem (r : redisReader) : result (Z * redisReader) :=
  cur ← task_at r (ridx r);
  if ridx r =? 8 then
    Ok (REDIS_ERR, SetError REDIS_ERR_PROTOCOL (str "No support for nested multi bulk replies with depth > 7") r)
  else
    '(line, r) ← readLine r;
    match line with
    | None => Ok (REDIS_ERR, r)
    | Some (p, _) =>
        elements ← readLongLong p;
        let root := ridx r =? 0 in
        if elements =? -1 then
          '(obj, r) ← createNilObject cur r;
          match obj with
          | None => Ok (REDIS_ERR, SetErrorOOM r)
          | Some obj => r ← moveToNextTask r; Ok (REDIS_OK, if root then set_reply (Some obj) r else r)
          end
        else
          '(obj, r) ← createArrayObject cur (i32 elements) r;
          match obj with
          | None => Ok (REDIS_ERR, SetErrorOOM r)
          | Some obj =>
              r ← (if 0 <? elements then
                     let i := ridx r in
                     let r := put_task r i {| ttype := ttype cur; telements := i32 elements; tidx := tidx cur;
                                              tobj := Some obj; tparent := tparent cur |} in
                     let r := put_task r (i + 1) {| ttype := -1; telements := -1; tidx := 0; tobj := None;
                                                    tparent := Some i |} in
                     Ok (set_stack (rstack r) (i + 1) r)
                   else moveToNextTask r);
              Ok (REDIS_OK, if root then set_reply (Some obj) r else r)
          end
    end.

(** The type of the item from its first byte. *)
Definition reply_type (c : Z) : option Z :=
  if c =? 45 then Some REDIS_REPLY_ERROR else if c =? 43 then Some REDIS_REPLY_STATUS
  else if c =? 58 then Some REDIS_REPLY_INTEGER else if c =? 36 then Some REDIS_REPLY_STRING
  else if c =? 42 then Some REDIS_REPLY_ARRAY else None.

Definition set_type (t : Z) (cur : redisReadTask) : redisReadTask :=
  {| ttype := t; telements := telements cur; tidx := tidx cur; tobj := tobj cur; tparent := tparent cur |}.

Definition processItem (r : redisReader) : result (Z * redisReader) :=
  cur ← task_at r (ridx r);
  '(ok, r) ← (if ttype cur <? 0 then
                '(p, r) ← readBytes r 1;
                match p with
                | None => Ok (false, r)
                | Some p =>
                    c ← load p 0;
                    match reply_type c with
                    | None => Ok (false, SetErrorProtocolByte c r)
                    | Some t => Ok (true, put_task r (ridx r) (set_type t cur))
                    end
                end
              else Ok (true, r));
  if (negb ok : bool) then Ok (REDIS_ERR, r)
  else
    cur ← task_at r (ridx r);
    if (ttype cur =? REDIS_REPLY_ERROR) || (ttype cur =? REDIS_REPLY_STATUS) || (ttype cur =? REDIS_REPLY_INTEGER)
    then processLineItem r
    else if ttype cur =? REDIS_REPLY_STRING then processBulkItem r
    else if ttype cur =? REDIS_REPLY_ARRAY then processMultiBulkItem r
    else Fault AssertFailed.

Definition empty_task : redisReadTask := {| ttype := 0; telements := 0; tidx := 0; tobj := None; tparent := None |}.

(** [redisReaderCreateWithFunctions], with the default functions. *)
Definition redisReaderCreate : result (option redisReader) :=
  if negb (malloc_ok 592) then Ok None
  else
    s ← Sds.sdsempty;
    match s with
    | None => Ok None
    | Some s =>
        Ok (Some {| rerr := 0; errstr := []; rbuf := Some s; rpos := 0; rlen := 0; maxbuf := REDIS_READER_MAX_BUF;
                    rstack := replicate 9 empty_task; ridx := -1; rreply := None; rheap := ∅; rnext := 1 |})
    end.

Definition redisReaderFeed (r : redisReader) (b : bytes) (len : Z) : result (Z * redisReader) :=
  if negb (rerr r =? 0) then Ok (REDIS_ERR, r)
  else if 1 <=? len then
    s ← Sds.nn (rbuf r);
    r ← (if (rlen r =? 0) && negb (maxbuf r =? 0) && (maxbuf r <? Sds.sdsavail s) then
           e ← Sds.sdsempty;
           match e with None => Fault AssertFailed | Some e => Ok (set_buf (Some e) 0 (rlen r) r) end
         else Ok r);
    s ← Sds.nn (rbuf r);
    newbuf ← Sds.sdscatlen s b len;
    match newbuf with
    | None => Ok (REDIS_ERR, SetErrorOOM r)
    | Some s => Ok (REDIS_OK, set_buf (Some s) (rpos r) (Sds.sdslen s) r)
    end
  else Ok (REDIS_OK, r).

(** [while (r->ridx >= 0) if (processItem(r) != REDIS_OK) break]: an item
    that is processed uses up a byte. *)
Fixpoint items_loop (fuel : nat) (r : redisReader) : result redisReader :=
  match fuel with
  | O => Ok r
  | S fuel =>
      if ridx r <? 0 then Ok r
      else
        '(st, r) ← processItem r;
        if negb (st =? REDIS_OK) then Ok r else items_loop fuel r
  end.

Definition root_task : redisReadTask := {| ttype := -1; telements := -1; tidx := -1; tobj := None; tparent := None |}.

(** [redisReaderGetReply]: the status, the reply (NULL when there is none
    yet) and the reader. *)
Definition redisReaderGetReply (r : redisReader) : result (Z * option loc * redisReader) :=
  if negb (rerr r =? 0) then Ok (REDIS_ERR, None, r)
  else if rlen r =? 0 then Ok (REDIS_OK, None, r)
  else
    let r := if ridx r =? -1 then set_stack (<[0%nat := root_task]> (rstack r)) 0 r else r in
    r ← items_loop (S (Z.to_nat (rlen r - rpos r))) r;
    if negb (rerr r =? 0) then Ok (REDIS_ERR, None, r)
    else
      r ← (if 1024 <=? rpos r then
             s ← Sds.nn (rbuf r);
             s ← Sds.sdsrange s (i32 (rpos r)) (-1);
             Ok (set_buf (Some s) 0 (Sds.sdslen s) r)
           else Ok r);
      if ridx r =? -1 then Ok (REDIS_OK, rreply r, set_reply None r)
      else Ok (REDIS_OK, None, r).
End read.
End Read.
