(* ===== verification/ReadSpec.v ===== *)
(** * What the reply parser guarantees (theorems about Read.v)

    Any reply value, in the protocol's encoding and cut into any pieces, is
    read back exactly: the reader asks for more until the last piece is there
    and then returns an object that denotes the value. *)

From S2P Require Import Prelude Cstd Cmem Sds SdsSpec Read.
Import Sds Read.

(** ** Lines *)

(** The index of the first CR LF. *)
Fixpoint seek_ref (u : bytes) : option nat :=
  match u with
  | [] => None
  | c :: u' =>
      if (c =? CR) && bool_decide (head u' = Some LF) then Some 0%nat else S <$> seek_ref u'
  end.

Lemma seek_ref_app u x i : seek_ref u = Some i → seek_ref (u ++ x) = Some i.
Proof.
  revert i. induction u as [|c u IH]; intros i Hi; [done|]. cbn [seek_ref app] in *.
  destruct (c =? CR) eqn:Ec; cbn [andb] in *.
  - case_bool_decide as Eh.
    + rewrite bool_decide_eq_true_2; [done|]. by destruct u.
    + destruct (seek_ref u) as [j|] eqn:Ej; [|done]. rewrite bool_decide_eq_false_2 by (by destruct u).
      by rewrite (IH j eq_refl).
  - destruct (seek_ref u) as [j|] eqn:Ej; [|done]. by rewrite (IH j eq_refl).
Qed.

Definition no_cr (b : bytes) : Prop := Forall (λ c, c ≠ CR) b.

Lemma seek_ref_line b t : no_cr b → seek_ref (b ++ crlf ++ t) = Some (length b).
Proof.
  induction 1 as [|c b Hc _ IH]; [done|]. cbn [seek_ref app length].
  rewrite (proj2 (Z.eqb_neq c CR)) by done. cbn [andb]. change (b ++ crlf ++ t) with (b ++ crlf ++ t) in IH.
  by rewrite IH.
Qed.

Lemma seek_ref_bounds u i : seek_ref u = Some i → (i + 2 ≤ length u)%nat ∧ CR ∈ take (S i) u.
Proof.
  revert i. induction u as [|c u IH]; intros i Hi; [done|]. cbn [seek_ref] in Hi.
  destruct ((c =? CR) && bool_decide (head u = Some LF)) eqn:E.
  - injection Hi as <-. apply andb_true_iff in E as [Ec Eh]. apply Z.eqb_eq in Ec as ->.
    apply bool_decide_eq_true in Eh. destruct u; [done|]. simpl. split; [lia|]. left.
  - destruct (seek_ref u) as [j|] eqn:Ej; [|done]. injection Hi as <-. destruct (IH j eq_refl) as [Hl Hin].
    simpl. split; [lia|]. by right.
Qed.

Lemma skip_to_cr_spec b a t fuel last :
  no_cr b → (length b ≤ fuel)%nat → zlen a + zlen b ≤ last →
  zlen a + zlen b = last ∨ head t = Some CR →
  skip_to_cr fuel (a ++ b ++ t) (zlen a) last = Ok (zlen a + zlen b).
Proof.
  intros Hb. revert a fuel. induction Hb as [|c b Hc _ IH]; intros a fuel Hf Hl Hstop.
  - change (zlen []) with 0 in *. rewrite Z.add_0_r in *. destruct fuel as [|fuel]; [done|]. cbn [skip_to_cr].
    destruct (Z.ltb_spec (zlen a) last); [|done]. destruct Hstop as [|Ht]; [lia|].
    destruct t as [|x t]; [done|]. injection Ht as ->. by rewrite (load_app a CR t).
  - simpl in Hf. destruct fuel as [|fuel]; [lia|]. cbn [skip_to_cr]. rewrite zlen_cons in *. pose proof (zlen_nonneg b).
    destruct (Z.ltb_spec (zlen a) last); [|lia]. simpl app. rewrite (load_app a c) by done. rbind.
    rewrite (proj2 (Z.eqb_neq c CR)) by done. specialize (IH (a ++ [c]) fuel).
    rewrite zlen_app, <- app_assoc in IH. change (zlen [c]) with 1 in IH. simpl app in IH.
    rewrite IH; [f_equal; lia|lia|lia|]. destruct Hstop; [left; lia|by right].
Qed.

(** Up to the first CR, if there is one. *)
Lemma split_cr u : (no_cr u) ∨ ∃ b t, u = b ++ CR :: t ∧ no_cr b.
Proof.
  induction u as [|c u IH]; [left; by apply Forall_nil|].
  destruct (Z.eq_dec c CR) as [->|Hc]; [right; exists [], u; split; [done|by apply Forall_nil]|].
  destruct IH as [?|(b & t & -> & Hb)]; [left; by constructor|right]. exists (c :: b), t. split; [done|by constructor].
Qed.

Lemma seek_ref_no_cr u : no_cr u → seek_ref u = None.
Proof.
  induction 1 as [|c u Hc _ IH]; [done|]. cbn [seek_ref]. by rewrite (proj2 (Z.eqb_neq c CR)), IH.
Qed.

Lemma seek_ref_cr b t :
  no_cr b → seek_ref (b ++ CR :: t) =
    if bool_decide (head t = Some LF) then Some (length b) else Nat.add (S (length b)) <$> seek_ref t.
Proof.
  induction 1 as [|c b Hc _ IH]; cbn [app seek_ref length].
  - change (CR =? CR) with true. cbn [andb]. case_bool_decide; [done|]. by destruct (seek_ref t).
  - rewrite (proj2 (Z.eqb_neq c CR)) by done. cbn [andb]. rewrite IH. case_bool_decide; [done|].
    by destruct (seek_ref t).
Qed.

Lemma seek_loop_ref fuel a u z last :
  (length u ≤ fuel)%nat → last = zlen a + zlen u - 1 → (0 < fuel)%nat →
  seek_loop fuel (a ++ u ++ 0 :: z) (zlen a) last = Ok ((λ i, zlen a + Z.of_nat i) <$> seek_ref u).
Proof.
  revert a u. induction fuel as [|fuel IH]; intros a u Hf -> H0; [lia|]. cbn [seek_loop].
  pose proof (zlen_nonneg a).
  destruct (Z.ltb_spec (zlen a) (zlen a + zlen u - 1)) as [Hlt|Hge].
  2:{ destruct u as [|c [|d u]]; [done| |autorewrite with zlen in Hge; pose proof (zlen_nonneg u); lia].
      cbn [seek_ref head]. rewrite bool_decide_eq_false_2, andb_false_r by done. done. }
  assert (∃ b c t, u = b ++ c :: t ∧ no_cr b ∧ (t = [] ∨ c = CR)) as (b & c & t & -> & Hb & Hst).
  { destruct (split_cr u) as [Hno|(b & t & -> & Hb)]; [|exists b, CR, t; auto].
    destruct u as [|x u _] using rev_ind; [rewrite zlen_nil in Hlt; lia|]. exists u, x, [].
    apply Forall_app in Hno as [Hno _]. auto. }
  rewrite <- app_assoc. pose proof (zlen_nonneg b). pose proof (zlen_nonneg t). autorewrite with zlen in *.
  rewrite (skip_to_cr_spec b a); [|done|unfold zlen in *; lia|lia|].
  2:{ destruct Hst as [-> | ->]; [left; zlia|by right]. }
  rbind. rewrite app_assoc. simpl app. rewrite (load_app (a ++ b) c _ (zlen a + zlen b)) by (by rewrite zlen_app). rbind.
  destruct (Z.eqb_spec c CR) as [->|Hc]; cbn [negb].
  2:{ destruct Hst as [-> |?]; [|done]. rewrite seek_ref_no_cr; [done|].
      apply Forall_app. split; [done|]. apply Forall_cons. split; [done|by apply Forall_nil]. }
  rewrite seek_ref_cr by done.
  replace ((a ++ b) ++ CR :: t ++ 0 :: z) with ((a ++ b ++ [CR]) ++ t ++ 0 :: z) by (by rewrite <- !app_assoc).
  assert (zlen a + zlen b + 1 = zlen (a ++ b ++ [CR])) as -> by zlia.
  assert (∃ d rest, t ++ 0 :: z = d :: rest ∧ (head t = Some LF ↔ d = LF)) as (d & rest & E & Hd).
  { destruct t as [|d t].
    - exists 0, z. split; [done|]. split; done.
    - exists d, (t ++ 0 :: z). split; [done|]. cbn [head]. split; congruence. }
  rewrite E at 1. rewrite (load_app (a ++ b ++ [CR]) d rest) by done. rbind.
  destruct (Z.eqb_spec d LF) as [Hdl|Hdl].
  - rewrite bool_decide_eq_true_2 by (by apply Hd). done.
  - rewrite bool_decide_eq_false_2 by (by intros ?%Hd). rewrite length_app in Hf. simpl in Hf.
    destruct fuel as [|fuel].
    { exfalso. unfold zlen in *. lia. }
    rewrite IH; [|lia|autorewrite with zlen; lia|lia].
    destruct (seek_ref t) as [i|]; [|done]. cbn. do 2 f_equal. autorewrite with zlen. unfold zlen. lia.
Qed.

Lemma seekNewline_ref u z len :
  len = zlen u → zlen u < 2 ^ 31 → seekNewline (u ++ 0 :: z) len = Ok (Z.of_nat <$> seek_ref u).
Proof.
  intros -> Hu. pose proof (zlen_nonneg u). unfold seekNewline.
  destruct u as [|c u]; [done|]. rewrite zlen_cons in *. pose proof (zlen_nonneg u).
  rewrite (u64_small (1 + zlen u - 1)), i32_small by lia.
  apply (seek_loop_ref _ [] (c :: u)); [|change (zlen []) with 0; rewrite zlen_cons; lia|lia].
  simpl. unfold zlen. lia.
Qed.

(** ** Numbers *)

Lemma digits_loop_app u x v : CR ∈ u → digits_loop (u ++ x) v = digits_loop u v.
Proof.
  revert v. induction u as [|c u IH]; intros v Hin; [by apply not_elem_of_nil in Hin|]. cbn [digits_loop app].
  destruct (Z.eqb_spec c CR); [done|]. apply elem_of_cons in Hin as [?|Hin]; [done|].
  destruct ((0 <=? schar c - 48) && (schar c - 48 <? 10)); [|done].
  destruct (llong_of (v * 10)) as [v1|]; [|done]. rbind. destruct (llong_of (v1 + (schar c - 48))); [|done].
  rbind. by apply IH.
Qed.

Lemma readLongLong_app u x : CR ∈ u → readLongLong (u ++ x) = readLongLong u.
Proof.
  intros Hin. unfold readLongLong. destruct u as [|c u]; [by apply not_elem_of_nil in Hin|]. cbn [app].
  destruct (Z.eqb_spec c 45) as [->|].
  { apply elem_of_cons in Hin as [?|Hin]; [done|]. by rewrite digits_loop_app. }
  destruct (Z.eqb_spec c 43) as [->|].
  { apply elem_of_cons in Hin as [?|Hin]; [done|]. by rewrite digits_loop_app. }
  pose proof (digits_loop_app (c :: u) x 0 Hin) as E. cbn [app] in E. by rewrite E.
Qed.

Lemma llong_of_ok z : - 2 ^ 63 ≤ z < 2 ^ 63 → llong_of z = Ok z.
Proof. intros. unfold llong_of. by rewrite (proj2 (Z.leb_le _ _)), (proj2 (Z.ltb_lt _ _)) by lia. Qed.

Lemma digits_loop_digits l t acc :
  Forall (λ c, isdigit c = true) l → 0 ≤ acc → digits_value l acc < 2 ^ 63 →
  digits_loop (l ++ CR :: t) acc = Ok (Some (digits_value l acc)).
Proof.
  intros Hl. revert acc. induction Hl as [|c l Hc Hl IH]; intros acc Ha Hv; [done|].
  unfold isdigit in Hc. apply andb_true_iff in Hc as [H1 H2]. apply Z.leb_le in H1, H2.
  cbn [app digits_loop]. rewrite (proj2 (Z.eqb_neq c CR)) by (unfold CR; lia).
  unfold schar. rewrite (proj2 (Z.ltb_lt c 128)) by lia.
  rewrite (proj2 (Z.leb_le _ _)), (proj2 (Z.ltb_lt (c - 48) 10)) by lia. cbn [andb].
  change (digits_value (c :: l) acc) with (digits_value l (10 * acc + (c - 48))) in *.
  assert (10 * acc + (c - 48) < 2 ^ 63) as Hb.
  { eapply Z.le_lt_trans; [|exact Hv]. clear -Hl Ha H1 H2.
    assert (0 ≤ 10 * acc + (c - 48)) as Hp by lia. revert Hp. generalize (10 * acc + (c - 48)) as a.
    induction Hl as [|x l Hx _ IH]; intros a Hp; [done|].
    unfold isdigit in Hx. apply andb_true_iff in Hx as [Hx1 Hx2]. apply Z.leb_le in Hx1, Hx2.
    change (digits_value (x :: l) a) with (digits_value l (10 * a + (x - 48))).
    transitivity (10 * a + (x - 48)); [lia|]. apply IH. lia. }
  replace (acc * 10) with (10 * acc) by lia. rewrite llong_of_ok by lia. rbind. rewrite llong_of_ok by lia. rbind.
  apply IH; lia.
Qed.

Lemma readLongLong_sdec z t : - 2 ^ 63 < z < 2 ^ 63 → readLongLong (sdec z ++ crlf ++ t) = Ok z.
Proof.
  intros Hz. unfold sdec. destruct (Z.ltb_spec z 0) as [Hneg|Hpos].
  - simpl app. unfold readLongLong. cbv iota. change (45 =? 45) with true. cbv iota.
    rewrite (digits_loop_digits (udec (- z)) (LF :: t) 0); [|apply udec_digits; lia|lia|rewrite udec_value; lia].
    rbind. rewrite udec_value by lia. f_equal. lia.
  - pose proof (udec_digits z Hpos) as Hd. pose proof (udec_value z Hpos) as Hv.
    destruct (udec_nonempty z) as (c & s & E). rewrite E in *. apply Forall_cons in Hd as Hd'. destruct Hd' as [Hc _].
    unfold isdigit in Hc. apply andb_true_iff in Hc as [H1 H2]. apply Z.leb_le in H1, H2.
    unfold readLongLong. cbn [app]. rewrite (proj2 (Z.eqb_neq c 45)), (proj2 (Z.eqb_neq c 43)) by lia.
    pose proof (digits_loop_digits (c :: s) (LF :: t) 0 Hd ltac:(lia)) as P. rewrite Hv in P. cbn [app] in P.
    change (s ++ crlf ++ t) with (s ++ CR :: LF :: t). rewrite P by lia. rbind. f_equal. lia.
Qed.

(** ** The unread bytes *)

Section read_spec.
Context `{Malloc}.

(** The reader has no error and [u] is what it has not consumed. *)
Definition holds (r : redisReader) (u : bytes) : Prop :=
  rerr r = 0 ∧ ∃ s c, rbuf r = Some s ∧ repr s c ∧ rlen r = zlen c ∧ 0 ≤ rpos r ≤ zlen c ∧
    drop (Z.to_nat (rpos r)) c = u.

Lemma holds_unread r u : holds r u →
  ∃ z, unread r = Ok (u ++ 0 :: z) ∧ zlen u = rlen r - rpos r ∧ 0 ≤ rpos r ∧ rlen r < 2 ^ 31 - 8.
Proof.
  intros (_ & s & c & Hs & Hr & Hl & Hp & Hd). destruct Hr as (spare & Eb & El & Ef & Es). unfold HDR in Es.
  exists spare. unfold unread. rewrite Hs. cbn [nn]. rbind. rewrite Eb in *.
  autorewrite with zlen in *. pose proof (zlen_nonneg spare).
  rewrite slice_ok by zlia. split; [|split; [|lia]].
  - rewrite drop_app_le by (unfold zlen in *; lia). rewrite Hd. f_equal. apply take_ge.
    rewrite <- Hd, length_app, length_drop. unfold zlen in *. simpl. lia.
  - rewrite <- Hd. unfold zlen in *. rewrite length_drop. lia.
Qed.

Lemma holds_advance r a u n :
  holds r (a ++ u) → n = rpos r + zlen a → holds (set_pos n r) u.
Proof.
  intros (He & s & c & Hs & Hr & Hl & Hp & Hd) ->. split; [done|]. exists s, c. cbn [rbuf rpos rlen set_pos].
  pose proof (zlen_nonneg a). do 3 (split; [done|]).
  assert (length (a ++ u) = length c - Z.to_nat (rpos r))%nat as Hlen by (by rewrite <- Hd, length_drop).
  rewrite length_app in Hlen. split; [unfold zlen in *; lia|].
  rewrite Z2Nat.inj_add, <- drop_drop, Hd, to_nat_zlen by lia. apply drop_app_length.
Qed.

(** Everything but the buffer. *)
Definition core (r : redisReader) := (rstack r, ridx r, rreply r, rheap r, rnext r).

(** The buffer of [i] and the rest of [r]. *)
Definition put_io (i r : redisReader) : redisReader :=
  {| rerr := rerr i; errstr := errstr i; rbuf := rbuf i; rpos := rpos i; rlen := rlen i; maxbuf := maxbuf i;
     rstack := rstack r; ridx := ridx r; rreply := rreply r; rheap := rheap r; rnext := rnext r |}.

Lemma put_io_core i r : core i = core r → i = put_io i r.
Proof. destruct i, r. unfold core, put_io. simpl. by intros [= -> -> -> -> ->]. Qed.

Lemma holds_io i r u : holds i u → holds (put_io i r) u.
Proof. done. Qed.

Lemma core_io i r : core (put_io i r) = core r.
Proof. done. Qed.

Lemma move_loop_io fuel i r : move_loop fuel (put_io i r) = put_io i <$> move_loop fuel r.
Proof.
  revert r. induction fuel as [|fuel IH]; intros r; [done|]. cbn [move_loop]. unfold task_at.
  cbn [put_io rstack ridx]. destruct (ridx r <? 0); [done|]. destruct (ridx r =? 0); [done|].
  destruct (vec_at (rstack r) (ridx r)) as [cur|]; [|done]. rbind.
  destruct (vec_at (rstack r) (ridx r - 1)) as [prv|]; [|done]. rbind.
  destruct (negb (ttype prv =? REDIS_REPLY_ARRAY)); [done|].
  destruct (tidx cur =? telements prv - 1); [apply (IH (set_stack (rstack r) (ridx r - 1) r))|].
  by destruct (negb (tidx cur <? telements prv)).
Qed.

Lemma move_io i r : moveToNextTask (put_io i r) = put_io i <$> moveToNextTask r.
Proof. apply move_loop_io. Qed.

#[local] Opaque moveToNextTask.

Definition io_pair (i : redisReader) (x : option loc * redisReader) := (x.1, put_io i x.2).

Lemma link_io task o i r : link_object task o (put_io i r) = io_pair i <$> link_object task o r.
Proof.
  unfold link_object, task_at. cbn [put_io rstack rheap rnext]. destruct (tparent task) as [p|]; [|done].
  destruct (vec_at (rstack r) p) as [pt|]; [|done]. rbind.
  destruct (tobj pt) as [pl|]; [|done]. cbn [nn]. rbind.
  destruct (_ !! pl) as [po|]; [|done]. cbn [nn]. rbind. destruct (negb (rtype po =? REDIS_REPLY_ARRAY)); [done|].
  destruct (relement po) as [es|]; [|done]. cbn [nn]. rbind. by destruct ((0 <=? tidx task) && _).
Qed.

Lemma string_io task s len i r :
  createStringObject task s len (put_io i r) = io_pair i <$> createStringObject task s len r.
Proof.
  unfold createStringObject. destruct (createReplyObject _); [|done]. destruct (negb (malloc_ok _)); [done|].
  destruct (negb _); [done|]. destruct (memcpy _ _ _ _) as [b|]; [|done]. rbind.
  destruct (store b len 0); [|done]. rbind. apply link_io.
Qed.

Lemma array_io task n i r : createArrayObject task n (put_io i r) = io_pair i <$> createArrayObject task n r.
Proof.
  unfold createArrayObject. destruct (createReplyObject _); [|done]. destruct ((0 <? n) && _); [done|]. apply link_io.
Qed.

Lemma integer_io task v i r : createIntegerObject task v (put_io i r) = io_pair i <$> createIntegerObject task v r.
Proof. unfold createIntegerObject. destruct (createReplyObject _); [|done]. apply link_io. Qed.

Lemma nil_io task i r : createNilObject task (put_io i r) = io_pair i <$> createNilObject task r.
Proof. unfold createNilObject. destruct (createReplyObject _); [|done]. apply link_io. Qed.

(** ** Items, given their bytes *)

(** A computation that does not look at the buffer. *)
Definition io_free (f : redisReader → result (option loc * redisReader)) : Prop :=
  ∀ i r, f (put_io i r) = io_pair i <$> f r.
Definition io_free_ok (g : option loc * redisReader → result (Z * redisReader)) : Prop :=
  ∀ i x r', g x = Ok (REDIS_OK, r') → g (io_pair i x) = Ok (REDIS_OK, put_io i r').

Lemma io_free_sim f g i r2 r2' :
  io_free f → io_free_ok g → core i = core r2 → (x ← f r2; g x) = Ok (REDIS_OK, r2') →
  (x ← f i; g x) = Ok (REDIS_OK, put_io i r2') ∧ r2' = put_io r2 r2'.
Proof.
  intros Hf Hg Hc E. inv_result. split.
  - pose proof (Hf i r2) as E1. rewrite <- (put_io_core i r2 Hc), E0 in E1. rewrite E1. rbind. by apply Hg.
  - pose proof (Hf r2 r2) as E1. rewrite <- (put_io_core r2 r2 eq_refl), E0 in E1. injection E1 as E1.
    pose proof (Hg r2 x r2' E) as E2. rewrite <- E1, E in E2. by injection E2.
Qed.

(** The ends of the three kinds of item. *)
Definition fin (x : option loc * redisReader) : result (Z * redisReader) :=
  match x.1 with
  | None => Ok (REDIS_ERR, SetErrorOOM x.2)
  | Some obj => r ← moveToNextTask (set_root obj x.2); Ok (REDIS_OK, r)
  end.

Definition mfin (cur : redisReadTask) (root : bool) (elements : Z) (x : option loc * redisReader)
    : result (Z * redisReader) :=
  match x.1 with
  | None => Ok (REDIS_ERR, SetErrorOOM x.2)
  | Some obj =>
      r ← (if 0 <? elements then
             let r := put_task x.2 (ridx x.2) {| ttype := ttype cur; telements := i32 elements; tidx := tidx cur;
                                                 tobj := Some obj; tparent := tparent cur |} in
             let r := put_task r (ridx x.2 + 1) {| ttype := -1; telements := -1; tidx := 0; tobj := None;
                                                   tparent := Some (ridx x.2) |} in
             Ok (set_stack (rstack r) (ridx x.2 + 1) r)
           else moveToNextTask x.2);
      Ok (REDIS_OK, if root then set_reply (Some obj) r else r)
  end.

Lemma fin_io : io_free_ok fin.
Proof.
  intros i [[obj|] r] r' E; [|done]. unfold fin in *. cbn [io_pair fst snd] in *.
  assert (set_root obj (put_io i r) = put_io i (set_root obj r)) as ->
    by (unfold set_root; cbn [put_io ridx]; by destruct (ridx r =? 0)).
  rewrite move_io. inv_result. by rewrite E0.
Qed.

Lemma mfin_io cur root elements : io_free_ok (mfin cur root elements).
Proof.
  intros i [[obj|] r] r' E; [|done]. unfold mfin in *. cbn [io_pair fst snd] in *. destruct (0 <? elements).
  - inv_result. rbind. by destruct root.
  - rewrite move_io. inv_result. rewrite E0. rbind. by destruct root.
Qed.

(** The object of a line. *)
Definition line_object (cur : redisReadTask) (p : bytes) (len : Z) (r : redisReader) : result (option loc * redisReader) :=
  if ttype cur =? REDIS_REPLY_INTEGER then v ← readLongLong p; createIntegerObject cur v r
  else createStringObject cur p len r.

Lemma line_object_io cur p len : io_free (line_object cur p len).
Proof.
  intros i r. unfold line_object. destruct (ttype cur =? REDIS_REPLY_INTEGER); [|apply string_io].
  destruct (readLongLong p); [|done]. rbind. apply integer_io.
Qed.

Lemma processLineItem_eq r u z cur :
  holds r u → unread r = Ok (u ++ 0 :: z) → task_at r (ridx r) = Ok cur →
  processLineItem r =
    match seek_ref u with
    | None => Ok (REDIS_ERR, r)
    | Some n => x ← line_object cur (u ++ 0 :: z) (Z.of_nat n) (set_pos (rpos r + Z.of_nat n + 2) r); fin x
    end.
Proof.
  intros Hh Hu Ht. destruct (holds_unread r u Hh) as (z' & Hu' & Hl & Hp & Hb).
  unfold processLineItem, readLine. rewrite Ht. rbind. rewrite Hu. rbind.
  rewrite (seekNewline_ref u z) by lia. rbind. destruct (seek_ref u) as [n|]; [|done]. cbn [fmap option_fmap option_map].
  unfold line_object, fin. rbind. destruct (ttype cur =? REDIS_REPLY_INTEGER).
  - destruct (readLongLong _) as [v|]; [|done]. rbind. by destruct (createIntegerObject _ _ _) as [[[o|] r']|].
  - by destruct (createStringObject _ _ _ _) as [[[o|] r']|].
Qed.

Lemma memcpy_src b off s y n : 0 ≤ n ≤ zlen s → memcpy b off (s ++ y) n = memcpy b off s n.
Proof.
  intros Hn. unfold memcpy. rewrite !slice_ok by (autorewrite with zlen; pose proof (zlen_nonneg y); lia).
  rewrite !drop_0, take_app_le by (unfold zlen in *; lia). done.
Qed.

Lemma createString_src cur s y len r :
  0 ≤ len ≤ zlen s → createStringObject cur (s ++ y) len r = createStringObject cur s len r.
Proof. intros. unfold createStringObject. by rewrite memcpy_src. Qed.

Lemma line_object_src cur u y n r :
  seek_ref u = Some n → line_object cur (u ++ y) (Z.of_nat n) r = line_object cur u (Z.of_nat n) r.
Proof.
  intros Hn. destruct (seek_ref_bounds u n Hn) as [Hl Hin]. unfold line_object. rewrite readLongLong_app.
  - by rewrite createString_src by (unfold zlen; lia).
  - rewrite <- (take_drop (S n) u). apply elem_of_app. by left.
Qed.

(** The end of a bulk item moves the position after the object is created. *)
Definition bfin (bytelen : Z) (x : option loc * redisReader) : result (Z * redisReader) :=
  match x.1 with
  | None => Ok (REDIS_ERR, SetErrorOOM x.2)
  | Some obj => r ← moveToNextTask (set_root obj (set_pos (u64 (rpos x.2 + bytelen)) x.2)); Ok (REDIS_OK, r)
  end.

Lemma bfin_fin f bl r r' :
  io_free f → (x ← f r; bfin bl x) = Ok (REDIS_OK, r') ↔
              (x ← f (set_pos (u64 (rpos r + bl)) r); fin x) = Ok (REDIS_OK, r').
Proof.
  intros Hf. pose proof (Hf (set_pos (u64 (rpos r + bl)) r) r) as E1.
  change (put_io (set_pos (u64 (rpos r + bl)) r) r) with (set_pos (u64 (rpos r + bl)) r) in E1. rewrite E1.
  pose proof (Hf r r) as E2. rewrite <- (put_io_core r r eq_refl) in E2.
  destruct (f r) as [[o x]|]; [|done]. rbind. injection E2 as E2. rewrite E2.
  destruct o as [o|]; unfold bfin, fin; cbn [fst snd io_pair]; [done|].
  split; intros E; by inversion E.
Qed.

Lemma processBulkItem_eq r u cur :
  holds r u → task_at r (ridx r) = Ok cur →
  (∀ r', processBulkItem r = Ok (REDIS_OK, r') ↔
    ∃ n len, seek_ref u = Some n ∧ readLongLong u = Ok len ∧
      ((len < 0 ∧ (x ← createNilObject cur (set_pos (rpos r + Z.of_nat n + 2) r); fin x) = Ok (REDIS_OK, r')) ∨
       (0 ≤ len < 2 ^ 63 - 2 ∧ Z.of_nat n + 2 + len + 2 ≤ zlen u ∧
        (x ← createStringObject cur (drop (n + 2) u) len (set_pos (rpos r + Z.of_nat n + len + 4) r); fin x) =
          Ok (REDIS_OK, r')))) ∧
  (seek_ref u = None ∨
   (∃ n len, seek_ref u = Some n ∧ readLongLong u = Ok len ∧ 0 ≤ len < 2 ^ 63 - 2 ∧ zlen u < Z.of_nat n + 2 + len + 2) →
   processBulkItem r = Ok (REDIS_ERR, r)).
Proof.
  intros Hh Ht. destruct (holds_unread r u Hh) as (z & Hu & Hl & Hp & Hb). unfold processBulkItem.
  rewrite Ht. rbind. rewrite Hu. rbind. rewrite (seekNewline_ref u z) by lia. rbind.
  destruct (seek_ref u) as [n|] eqn:En; cbn [fmap option_fmap option_map].
  2:{ split; [|done]. intros r'. split; [done|]. by intros (n & len & ? & _). }
  destruct (seek_ref_bounds u n En) as [Hn Hin].
  rewrite readLongLong_app by (rewrite <- (take_drop (S n) u); apply elem_of_app; by left).
  destruct (readLongLong u) as [len|f] eqn:Er.
  2:{ split; [|intros [?|(n' & len & _ & ? & _)]; done]. intros r'. split; [done|]. by intros (n' & len & _ & ? & _). }
  rbind. assert (zlen u = Z.of_nat (length u)) as Hzu by done.
  destruct (Z.ltb_spec len 0) as [Hneg|Hpos].
  { split.
    - intros r'. pose proof (bfin_fin (createNilObject cur) (Z.of_nat n + 2) r r' (nil_io cur)) as P.
      rewrite u64_small, Z.add_assoc in P by lia. unfold bfin in P. split.
      + intros E. exists n, len. split; [done|]. split; [done|]. left. split; [done|]. by apply P.
      + intros (n' & len' & [= <-] & [= <-] & [[_ E]|[? _]]); [by apply P|lia].
    - intros [?|(n' & len' & _ & [= <-] & ? & _)]; [done|lia]. }
  unfold llong_of. rewrite (proj2 (Z.leb_le (- 2 ^ 63) _)) by lia. cbn [andb].
  destruct (Z.ltb_spec (len + 2) (2 ^ 63)) as [Hov|Hov]; rbind.
  2:{ split; [|intros [?|(n' & len' & _ & [= <-] & ? & _)]; [done|lia]]. intros r'. split; [done|].
      intros (n' & len' & _ & [= <-] & [[? _]|[? _]]); lia. }
  rewrite (u64_small (Z.of_nat n + 2 + (len + 2))), (u64_small (rpos r + _)) by lia.
  destruct (Z.leb_spec (rpos r + (Z.of_nat n + 2 + (len + 2))) (rlen r)) as [Hfit|Hfit].
  - split; [|intros [?|(n' & len' & [= <-] & [= <-] & ? & ?)]; [done|lia]].
    rewrite slice_ok by zlia. rbind. intros r'.
    assert (∃ y, take (Z.to_nat (zlen (u ++ 0 :: z) - (Z.of_nat n + 2)))
              (drop (Z.to_nat (Z.of_nat n + 2)) (u ++ 0 :: z)) = drop (n + 2) u ++ y) as [y Ey].
    { replace (Z.to_nat (Z.of_nat n + 2)) with (n + 2)%nat by lia. rewrite drop_app_le by lia. exists (0 :: z).
      apply take_ge. rewrite !length_app, length_drop. unfold zlen. rewrite length_app. lia. }
    rewrite Ey, createString_src by (unfold zlen; rewrite length_drop; lia).
    pose proof (bfin_fin (createStringObject cur (drop (n + 2) u) len) (Z.of_nat n + 2 + (len + 2)) r r'
      (string_io cur _ len)) as P.
    rewrite u64_small in P by lia. unfold bfin in P.
    replace (rpos r + (Z.of_nat n + 2 + (len + 2))) with (rpos r + Z.of_nat n + len + 4) in P by lia. split.
    + intros E. exists n, len. split; [done|]. split; [done|]. right. split; [lia|]. split; [lia|]. by apply P.
    + intros (n' & len' & [= <-] & [= <-] & [[? _]|(_ & _ & E)]); [lia|by apply P].
  - split; [|done]. intros r'. split; [done|]. intros (n' & len' & [= <-] & [= <-] & [[? _]|(_ & ? & _)]); lia.
Qed.

Definition multi_object (cur : redisReadTask) (elements : Z) (r : redisReader) : result (option loc * redisReader) :=
  if elements =? -1 then createNilObject cur r else createArrayObject cur (i32 elements) r.

Lemma multi_object_io cur elements : io_free (multi_object cur elements).
Proof. intros i r. unfold multi_object. destruct (elements =? -1); [apply nil_io|apply array_io]. Qed.

Lemma processMultiBulkItem_eq r u cur :
  holds r u → task_at r (ridx r) = Ok cur → ridx r ≠ 8 →
  processMultiBulkItem r =
    match seek_ref u with
    | None => Ok (REDIS_ERR, r)
    | Some n =>
        elements ← readLongLong u;
        x ← multi_object cur elements (set_pos (rpos r + Z.of_nat n + 2) r);
        mfin cur (ridx r =? 0) elements x
    end.
Proof.
  intros Hh Ht H8. destruct (holds_unread r u Hh) as (z & Hu & Hl & Hp & Hb). unfold processMultiBulkItem, readLine.
  rewrite Ht. rbind. rewrite (proj2 (Z.eqb_neq _ _)) by done. rewrite Hu. rbind.
  rewrite (seekNewline_ref u z) by lia. rbind. destruct (seek_ref u) as [n|] eqn:En; [|done].
  cbn [fmap option_fmap option_map]. destruct (seek_ref_bounds u n En) as [Hn Hin]. rbind.
  rewrite readLongLong_app by (rewrite <- (take_drop (S n) u); apply elem_of_app; by left).
  destruct (readLongLong u) as [el|]; [|done]. rbind. unfold multi_object, mfin. cbn [ridx set_pos].
  destruct (Z.eqb_spec el (-1)) as [->|].
  - destruct (createNilObject _ _) as [[[o|] r']|]; [|done|done]. rbind. cbn [fst snd Z.ltb Z.compare].
    done.
  - by destruct (createArrayObject _ _ _) as [[[o|] r']|].
Qed.

(** ** Data that arrives in two parts

    [r] has the first part [u] of the unread bytes of [r2] and is otherwise
    in the same state. When [r2] processes an item, [r] either processes the
    same item or waits for the rest. *)

Definition advanced (x : bytes) (r2' : redisReader) (u : bytes) (p : result (Z * redisReader)) : Prop :=
  ∃ r' u', p = Ok (REDIS_OK, r') ∧ core r' = core r2' ∧ holds r' u' ∧ holds r2' (u' ++ x) ∧ zlen u' < zlen u.

Definition advances (r : redisReader) (x : bytes) (r2' : redisReader) (u : bytes) (p : result (Z * redisReader)) : Prop :=
  advanced x r2' u p ∨ (x ≠ [] ∧ p = Ok (REDIS_ERR, r)).

Lemma advance_sim f g r r2 r2' n u x m m2 :
  io_free f → io_free_ok g → core r = core r2 → holds r u → holds r2 (u ++ x) → (0 < n ≤ length u)%nat →
  m = rpos r + Z.of_nat n → m2 = rpos r2 + Z.of_nat n →
  (y ← f (set_pos m2 r2); g y) = Ok (REDIS_OK, r2') →
  advanced x r2' u (y ← f (set_pos m r); g y).
Proof.
  intros Hf Hg Hc Hr Hr2 Hn -> -> E.
  destruct (io_free_sim f g (set_pos (rpos r + Z.of_nat n) r) (set_pos (rpos r2 + Z.of_nat n) r2) _ Hf Hg Hc E) as [E1 E2].
  assert (zlen (take n u) = Z.of_nat n) as Ht by (unfold zlen; rewrite length_take; lia).
  exists (put_io (set_pos (rpos r + Z.of_nat n) r) r2'), (drop n u). split; [done|]. split; [done|]. split.
  - apply holds_io, (holds_advance r (take n u) (drop n u)); [by rewrite take_drop|by rewrite Ht].
  - split; [|unfold zlen; rewrite length_drop; lia]. rewrite E2.
    apply holds_io, (holds_advance r2 (take n u) (drop n u ++ x)); [|by rewrite Ht].
    by rewrite app_assoc, take_drop.
Qed.

Lemma task_core r r2 : core r = core r2 → task_at r (ridx r) = task_at r2 (ridx r2).
Proof. intros Hc. injection Hc as Hs Hi _ _ _. unfold task_at. by rewrite Hs, Hi. Qed.

Lemma holds_end r u x : holds r u → holds r (u ++ x) → x = [].
Proof.
  intros H1 H2. destruct (holds_unread _ _ H1) as (_ & _ & L1 & _), (holds_unread _ _ H2) as (_ & _ & L2 & _).
  apply zlen_0_inv. rewrite zlen_app in L2. lia.
Qed.

Lemma line_split r r2 r2' u x cur :
  holds r u → holds r2 (u ++ x) → core r = core r2 → task_at r2 (ridx r2) = Ok cur →
  processLineItem r2 = Ok (REDIS_OK, r2') → advances r x r2' u (processLineItem r).
Proof.
  intros Hr Hr2 Hc Ht E. destruct (holds_unread r u Hr) as (z & Hu & _). destruct (holds_unread _ _ Hr2) as (z2 & Hu2 & _).
  rewrite (processLineItem_eq r u z cur) by (done || by rewrite (task_core r r2)).
  rewrite (processLineItem_eq r2 (u ++ x) z2 cur) in E by done.
  destruct (seek_ref u) as [n|] eqn:En.
  - rewrite (seek_ref_app u x n En) in E. rewrite <- app_assoc in E. destruct (seek_ref_bounds u n En) as [Hn _].
    assert (∀ y r, line_object cur (u ++ y) (Z.of_nat n) r = line_object cur u (Z.of_nat n) r) as Hsrc
      by (intros; by apply line_object_src). rewrite Hsrc in E |- *.
    left. apply (advance_sim _ _ r r2 r2' (n + 2) u x) with (m2 := rpos r2 + Z.of_nat n + 2);
      [apply line_object_io|apply fin_io|done|done|done|lia|lia|lia|done].
  - right. split; [|done]. intros ->. by rewrite app_nil_r, En in E.
Qed.

Lemma bulk_split r r2 r2' u x cur :
  holds r u → holds r2 (u ++ x) → core r = core r2 → task_at r2 (ridx r2) = Ok cur →
  processBulkItem r2 = Ok (REDIS_OK, r2') → advances r x r2' u (processBulkItem r).
Proof.
  intros Hr Hr2 Hc Ht E.
  assert (task_at r (ridx r) = Ok cur) as Ht1 by (by rewrite (task_core r r2)).
  destruct (processBulkItem_eq r u cur Hr Ht1) as [Hok Herr].
  destruct (processBulkItem_eq r2 (u ++ x) cur Hr2 Ht) as [Hok2 _].
  apply Hok2 in E as (n & len & En & El & Hcase).
  destruct (seek_ref u) as [n'|] eqn:En'.
  2:{ right. split; [|apply Herr; by left]. intros ->. by rewrite app_nil_r, En' in En. }
  rewrite (seek_ref_app u x n' En') in En. injection En as ->. destruct (seek_ref_bounds u n En') as [Hn Hin].
  rewrite readLongLong_app in El by (rewrite <- (take_drop (S n) u); apply elem_of_app; by left).
  assert (∀ p, advanced x r2' u p → (∀ r', p = Ok (REDIS_OK, r') → processBulkItem r = Ok (REDIS_OK, r')) →
            advances r x r2' u (processBulkItem r)) as Hdone.
  { intros p (r' & u' & Ep & ?) Hp. left. exists r', u'. split; [by apply Hp|done]. }
  destruct Hcase as [[Hneg E]|(Hlen & Hfit & E)].
  - eapply Hdone.
    + apply (advance_sim (createNilObject cur) fin r r2 r2' (n + 2) u x (rpos r + Z.of_nat n + 2)
        (rpos r2 + Z.of_nat n + 2)); [exact (nil_io cur)|apply fin_io|done|done|done|lia|lia|lia|done].
    + intros r' E'. apply Hok. exists n, len. split; [done|]. split; [done|]. left. by split.
  - assert (zlen u = Z.of_nat (length u)) as Hzu by done.
    destruct (Z.le_gt_cases (Z.of_nat n + 2 + len + 2) (zlen u)) as [Hf|Hf].
    2:{ right. split; [|apply Herr; right; by exists n, len]. intros ->. rewrite app_nil_r in Hfit. lia. }
    rewrite drop_app_le, createString_src in E by (rewrite ?length_drop; unfold zlen; rewrite ?length_drop; lia).
    eapply Hdone.
    + apply (advance_sim (createStringObject cur (drop (n + 2) u) len) fin r r2 r2' (n + 2 + Z.to_nat len + 2) u x
        (rpos r + Z.of_nat n + len + 4) (rpos r2 + Z.of_nat n + len + 4));
        [exact (string_io cur _ _)|apply fin_io|done|done|done|lia|lia|lia|done].
    + intros r' E'. apply Hok. exists n, len. split; [done|]. split; [done|]. right. by split.
Qed.

Lemma multi_split r r2 r2' u x cur :
  holds r u → holds r2 (u ++ x) → core r = core r2 → task_at r2 (ridx r2) = Ok cur →
  processMultiBulkItem r2 = Ok (REDIS_OK, r2') → advances r x r2' u (processMultiBulkItem r).
Proof.
  intros Hr Hr2 Hc Ht E. assert (ridx r = ridx r2) as Hi by (by injection Hc).
  destruct (decide (ridx r2 = 8)) as [H8|H8].
  { unfold processMultiBulkItem in E. rewrite Ht, H8 in E. done. }
  rewrite (processMultiBulkItem_eq r u cur) by (done || by rewrite ?(task_core r r2), ?Hi).
  rewrite (processMultiBulkItem_eq r2 (u ++ x) cur) in E by done.
  destruct (seek_ref u) as [n|] eqn:En.
  2:{ right. split; [|done]. intros ->. by rewrite app_nil_r, En in E. }
  rewrite (seek_ref_app u x n En) in E. destruct (seek_ref_bounds u n En) as [Hn Hin].
  rewrite readLongLong_app in E by (rewrite <- (take_drop (S n) u); apply elem_of_app; by left).
  destruct (readLongLong u) as [el|]; [|done]. rbind. left. rewrite Hi.
  apply (advance_sim _ _ r r2 r2' (n + 2) u x) with (m2 := rpos r2 + Z.of_nat n + 2);
    [apply multi_object_io|apply mfin_io|done|done|done|lia|lia|lia|done].
Qed.

(** An item whose type is known. *)
Definition processTyped (r : redisReader) : result (Z * redisReader) :=
  cur ← task_at r (ridx r);
  if (ttype cur =? REDIS_REPLY_ERROR) || (ttype cur =? REDIS_REPLY_STATUS) || (ttype cur =? REDIS_REPLY_INTEGER)
  then processLineItem r
  else if ttype cur =? REDIS_REPLY_STRING then processBulkItem r
  else if ttype cur =? REDIS_REPLY_ARRAY then processMultiBulkItem r
  else Fault AssertFailed.

Lemma typed_split r r2 r2' u x :
  holds r u → holds r2 (u ++ x) → core r = core r2 →
  processTyped r2 = Ok (REDIS_OK, r2') → advances r x r2' u (processTyped r).
Proof.
  intros Hr Hr2 Hc E. unfold processTyped in *. rewrite (task_core r r2) by done.
  apply result_bind_Ok in E as (cur & Ht & E). rewrite Ht. rbind.
  destruct (_ || _); [by eapply line_split|]. destruct (_ =? _); [by eapply bulk_split|].
  destruct (_ =? _); [by eapply multi_split|done].
Qed.

(** The reader after the type byte. *)
Definition type_read (r : redisReader) (cur : redisReadTask) (t : Z) : redisReader :=
  put_task (set_pos (rpos r + 1) r) (ridx r) (set_type t cur).

Lemma type_read_holds r cur t c u : holds r (c :: u) → holds (type_read r cur t) u.
Proof. intros Hr. by apply (holds_advance r [c] u). Qed.

Lemma task_at_bounds r i cur : task_at r i = Ok cur → (Z.to_nat i < length (rstack r))%nat ∧ 0 ≤ i.
Proof.
  unfold task_at, vec_at. intros E. destruct ((0 <=? i) && (i <? zlen (rstack r))) eqn:Eb; [|done].
  apply andb_true_iff in Eb as [Hb1 Hb2]. apply Z.leb_le in Hb1. apply Z.ltb_lt in Hb2. unfold zlen in *. lia.
Qed.

Lemma task_at_put r i cur t : task_at r i = Ok cur → task_at (put_task r i t) i = Ok t.
Proof.
  intros E. destruct (task_at_bounds r i cur E) as [Hl Hi]. unfold task_at, put_task. cbn [rstack set_stack].
  unfold vec_at. rewrite (proj2 (Z.leb_le 0 i)) by done.
  rewrite (proj2 (Z.ltb_lt i _)) by (unfold zlen; rewrite length_insert; lia). cbn [andb].
  by rewrite list_lookup_insert_eq.
Qed.

Lemma reply_type_nonneg c t : reply_type c = Some t → 0 ≤ t.
Proof. unfold reply_type. repeat case_match; intros [= <-]; done. Qed.

Lemma processItem_typed r cur : task_at r (ridx r) = Ok cur → 0 ≤ ttype cur → processItem r = processTyped r.
Proof.
  intros Ht Hty. unfold processItem, processTyped. rewrite Ht. rbind.
  rewrite (proj2 (Z.ltb_ge _ _)) by done. rbind. cbn [negb]. by rewrite Ht.
Qed.

Lemma processItem_untyped r u cur :
  holds r u → task_at r (ridx r) = Ok cur → ttype cur < 0 →
  processItem r =
    match u with
    | [] => Ok (REDIS_ERR, r)
    | c :: _ =>
        match reply_type c with
        | None => Ok (REDIS_ERR, SetErrorProtocolByte c (set_pos (rpos r + 1) r))
        | Some t => processTyped (type_read r cur t)
        end
    end.
Proof.
  intros Hr Ht Hty. destruct (holds_unread r u Hr) as (z & Hu & Hl & Hp & Hb). unfold processItem. rewrite Ht. rbind.
  rewrite (proj2 (Z.ltb_lt _ _)) by done. unfold readBytes. pose proof (zlen_nonneg u).
  rewrite <- Hl, u64_small by lia. destruct u as [|c u].
  { done. }
  rewrite zlen_cons. pose proof (zlen_nonneg u). rewrite (proj2 (Z.leb_le _ _)) by lia. rewrite Hu. rbind.
  change ((c :: u) ++ 0 :: z) with ([c] ++ (u ++ 0 :: z)). rewrite slice_prefix by done. rbind.
  rewrite (load_app [] c []) by done. rbind. destruct (reply_type c) as [t|] eqn:Ec; rbind; [|done].
  cbn [negb]. done.
Qed.

Lemma type_read_typed r cur t c :
  task_at r (ridx r) = Ok cur → reply_type c = Some t → processItem (type_read r cur t) = processTyped (type_read r cur t).
Proof.
  intros Ht Hc. apply (processItem_typed _ (set_type t cur)).
  - apply (task_at_put (set_pos (rpos r + 1) r) (ridx r) cur). exact Ht.
  - by apply reply_type_nonneg in Hc.
Qed.

Lemma type_read_core r r2 cur t : core r = core r2 → core (type_read r cur t) = core (type_read r2 cur t).
Proof. intros Hc. injection Hc as Hs Hi Hy Hh Hn. unfold core, type_read. cbn. by rewrite Hs, Hi, Hy, Hh, Hn. Qed.

Lemma item_same r r2 r2' u :
  holds r u → holds r2 u → core r = core r2 →
  processItem r2 = Ok (REDIS_OK, r2') → advanced [] r2' u (processItem r).
Proof.
  intros Hr Hr2 Hc E.
  assert (∃ cur, task_at r2 (ridx r2) = Ok cur) as [cur Ht2]
    by (unfold processItem in E; apply result_bind_Ok in E as (cur & ? & _); by exists cur).
  assert (task_at r (ridx r) = Ok cur) as Ht by (by rewrite (task_core r r2)).
  destruct (Z.lt_ge_cases (ttype cur) 0) as [Hty|Hty].
  - rewrite (processItem_untyped r u cur) by done. rewrite (processItem_untyped r2 u cur) in E by done.
    destruct u as [|c u]; [done|]. destruct (reply_type c) as [t|] eqn:Ec; [|done].
    destruct (typed_split (type_read r cur t) (type_read r2 cur t) r2' u []) as [(r' & u' & ? & ? & ? & ? & ?)|[? _]]; try done.
    + by apply type_read_holds with c.
    + rewrite app_nil_r. by apply type_read_holds with c.
    + by apply type_read_core.
    + exists r', u'. do 4 (split; [done|]). rewrite zlen_cons. lia.
  - rewrite (processItem_typed r cur) by done. rewrite (processItem_typed r2 cur) in E by done.
    destruct (typed_split r r2 r2' u []) as [?|[? _]]; try done. by rewrite app_nil_r.
Qed.

Lemma item_split r r2 r2' u x :
  holds r u → holds r2 (u ++ x) → core r = core r2 → x ≠ [] →
  processItem r2 = Ok (REDIS_OK, r2') →
  advanced x r2' u (processItem r) ∨
  (∃ r' u', processItem r = Ok (REDIS_ERR, r') ∧ holds r' u' ∧ zlen u' ≤ zlen u ∧ ridx r' = ridx r ∧
     ∀ r3, holds r3 (u' ++ x) → core r3 = core r' → advanced [] r2' (u' ++ x) (processItem r3)).
Proof.
  intros Hr Hr2 Hc Hx E.
  assert (∃ cur, task_at r2 (ridx r2) = Ok cur) as [cur Ht2]
    by (unfold processItem in E; apply result_bind_Ok in E as (cur & ? & _); by exists cur).
  assert (task_at r (ridx r) = Ok cur) as Ht by (by rewrite (task_core r r2)).
  destruct (Z.lt_ge_cases (ttype cur) 0) as [Hty|Hty].
  - rewrite (processItem_untyped r u cur) by done. destruct u as [|c u].
    { right. exists r, []. do 4 (split; [done|]). intros r3 H3 Hc3.
      apply (item_same r3 r2 r2' x); try done. by rewrite Hc3. }
    rewrite (processItem_untyped r2 ((c :: u) ++ x) cur) in E by done. cbn [app] in E.
    destruct (reply_type c) as [t|] eqn:Ec; [|done].
    pose proof (type_read_holds r cur t c u Hr) as Hr'. pose proof (type_read_holds r2 cur t c (u ++ x) Hr2) as Hr2'.
    pose proof (type_read_core r r2 cur t Hc) as Hct.
    destruct (typed_split (type_read r cur t) (type_read r2 cur t) r2' u x Hr' Hr2' Hct E) as [(r' & u' & ? & ? & ? & ? & ?)|[_ Ew]].
    + left. exists r', u'. do 4 (split; [done|]). rewrite zlen_cons. lia.
    + right. exists (type_read r cur t), u. do 2 (split; [done|]). split; [rewrite zlen_cons; lia|]. split; [done|].
      intros r3 H3 Hc3. apply (item_same r3 (type_read r2 cur t) r2'); try done; [by rewrite Hc3|].
      by rewrite (type_read_typed r2 cur t c).
  - rewrite (processItem_typed r cur) by done. rewrite (processItem_typed r2 cur) in E by done.
    destruct (typed_split r r2 r2' u x) as [?|[_ Ew]]; try done; [by left|right].
    exists r, u. do 4 (split; [done|]). intros r3 H3 Hc3.
    apply (item_same r3 r2 r2'); try done; [by rewrite Hc3|]. by rewrite (processItem_typed r2 cur).
Qed.

(** ** Runs *)

(** All items of a reply are processed. *)
Inductive steps : redisReader → redisReader → Prop :=
  | steps_done r : ridx r < 0 → steps r r
  | steps_item r r' rf : 0 ≤ ridx r → processItem r = Ok (REDIS_OK, r') → steps r' rf → steps r rf.

(** The run [r2] ends in is reached by [r] too. *)
Definition reaches (r rf : redisReader) : Prop :=
  ∃ rf3 v, steps r rf3 ∧ core rf3 = core rf ∧ holds rf3 v ∧ holds rf v.

Lemma steps_same r2 rf : steps r2 rf → ∀ r u, holds r u → holds r2 u → core r = core r2 → reaches r rf.
Proof.
  induction 1 as [r2 Hi|r2 r2' rf Hi E Hs IH]; intros r u Hr Hr2 Hc; assert (ridx r = ridx r2) as Hix by (by injection Hc).
  - exists r, u. split; [constructor; lia|]. done.
  - destruct (item_same r r2 r2' u Hr Hr2 Hc E) as (r' & u' & E' & Hc' & Hr' & Hr2' & _). rewrite app_nil_r in Hr2'.
    destruct (IH r' u' Hr' Hr2' Hc') as (rf3 & v & ? & ? & ? & ?). exists rf3, v. split; [|done].
    eapply steps_item; [lia|done|done].
Qed.

Lemma loop_run r2 rf : steps r2 rf → ∀ r u x fuel,
  holds r u → holds r2 (u ++ x) → core r = core r2 → zlen u < Z.of_nat fuel →
  ∃ r', items_loop fuel r = Ok r' ∧
    ((ridx r' < 0 ∧ core r' = core rf ∧ ∃ u', holds r' u' ∧ holds rf (u' ++ x) ∧ zlen u' ≤ zlen u ∧ (0 ≤ ridx r → zlen u' < zlen u)) ∨
     (x ≠ [] ∧ 0 ≤ ridx r' ∧ ∃ u', holds r' u' ∧ zlen u' ≤ zlen u ∧
        ∀ r3, holds r3 (u' ++ x) → core r3 = core r' → reaches r3 rf)).
Proof.
  induction 1 as [r2 Hi|r2 r2' rf Hi E Hs IH]; intros r u x fuel Hr Hr2 Hc Hf;
    assert (ridx r = ridx r2) as Hix by (by injection Hc); pose proof (zlen_nonneg u);
    (destruct fuel as [|fuel]; [lia|]); cbn [items_loop].
  - rewrite (proj2 (Z.ltb_lt _ _)) by lia. exists r. split; [done|]. left. split; [lia|]. split; [done|]. exists u. split_and!; done || lia.
  - rewrite (proj2 (Z.ltb_ge _ _)) by lia.
    assert (advanced x r2' u (processItem r) ∨ (x ≠ [] ∧
      ∃ r' u', processItem r = Ok (REDIS_ERR, r') ∧ holds r' u' ∧ zlen u' ≤ zlen u ∧ ridx r' = ridx r ∧
        ∀ r3, holds r3 (u' ++ x) → core r3 = core r' → advanced [] r2' (u' ++ x) (processItem r3)))
      as [(r' & u' & E' & Hc' & Hr' & Hr2' & Hl)|(Hx & r' & u' & E' & Hr' & Hlu & Hi' & H3)].
    { destruct (decide (x = [])) as [->|Hx].
      - left. rewrite app_nil_r in Hr2. by apply (item_same r r2).
      - destruct (item_split r r2 r2' u x Hr Hr2 Hc Hx E); [by left|by right]. }
    + rewrite E'. rbind. change (negb (REDIS_OK =? REDIS_OK)) with false. cbv iota.
      destruct (IH r' u' x fuel) as (rl & Erl & Hcase); try done; [lia|]. exists rl. split; [done|].
      destruct Hcase as [(? & ? & u1 & ? & ? & ? & ?)|(? & ? & u1 & ? & ? & ?)]; [left|right]; do 2 (split; [done|]); exists u1.
      * split_and!; done || lia.
      * split_and!; done || lia.
    + rewrite E'. rbind. change (negb (REDIS_ERR =? REDIS_OK)) with true. cbv iota.
      exists r'. split; [done|]. right. split; [done|]. split; [lia|]. exists u'. do 2 (split; [done|]).
      intros r3 Hr3 Hc3. destruct (H3 r3 Hr3 Hc3) as (r4 & u4 & E4 & Hc4 & Hr4 & Hr24 & _). rewrite app_nil_r in Hr24.
      destruct (steps_same r2' rf Hs r4 u4 Hr4 Hr24 Hc4) as (rf3 & v & ? & ? & ? & ?). exists rf3, v. split; [|done].
      eapply steps_item; [|done|done]. injection Hc3 as _ Hc3 _ _ _. lia.
Qed.

(** ** Feeding *)

Hypothesis granted : ∀ n, malloc_ok n = true.

Lemma feed_holds r u b :
  holds r u → 0 < zlen b → rlen r + zlen b < LIMIT →
  ∃ r', redisReaderFeed r b (zlen b) = Ok (REDIS_OK, r') ∧ holds r' (u ++ b) ∧ core r' = core r ∧
        rlen r' ≤ rlen r + zlen b.
Proof.
  intros Hr Hb Hlim. pose proof Hr as (He & s & c & Hs & Hrep & Hl & Hp & Hd). unfold redisReaderFeed.
  rewrite He. cbn [Z.eqb negb]. rewrite (proj2 (Z.leb_le 1 _)) by lia. rewrite Hs. cbn [nn]. rbind.
  assert (∀ s c p, repr s c → zlen c = rlen r → 0 ≤ p ≤ zlen c → drop (Z.to_nat p) c = u →
    ∃ r', (newbuf ← sdscatlen s b (zlen b);
           match newbuf with
           | None => Ok (REDIS_ERR, SetErrorOOM (set_buf (Some s) p (rlen r) r))
           | Some s => Ok (REDIS_OK, set_buf (Some s) p (sdslen s) r)
           end) = Ok (REDIS_OK, r') ∧ holds r' (u ++ b) ∧ core r' = core r ∧ rlen r' ≤ rlen r + zlen b) as Hcat.
  { intros s1 c1 p Hr1 Hl1 Hp1 Hd1.
    destruct (returns_granted granted _ _ (sdscatlen_repr s1 c1 b (zlen b) Hr1 eq_refl ltac:(lia))) as (s2 & -> & Hr2).
    rbind. eexists. split; [done|]. destruct (repr_bounds s2 _ Hr2) as (Hl2 & _). rewrite Hl2, zlen_app.
    split; [|split; [done|cbn; lia]]. split; [done|]. exists s2, (c1 ++ b). cbn [rbuf rlen rpos set_buf].
    split; [done|]. split; [done|]. split; [by rewrite zlen_app|]. split; [zlia|].
    rewrite drop_app_le by (unfold zlen in *; lia). by rewrite Hd1. }
  destruct ((rlen r =? 0) && negb (maxbuf r =? 0) && (maxbuf r <? sdsavail s)) eqn:Ebig.
  - apply andb_true_iff in Ebig as [[E0 _]%andb_true_iff _]. apply Z.eqb_eq in E0.
    destruct (sdsempty_repr granted) as (e & -> & Hre). rbind. cbn [rbuf set_buf nn]. rbind.
    apply (Hcat e [] 0); [done|by rewrite E0|zlia|]. rewrite <- Hd.
    assert (c = []) as -> by (apply zlen_0_inv; lia). by rewrite !drop_nil.
  - rbind. rewrite Hs. cbn [nn]. rbind. destruct (Hcat s c (rpos r)) as (r' & E & ?); [done|lia|lia|done|].
    exists r'. split; [|done]. rewrite <- E. destruct (sdscatlen s b (zlen b)) as [[s'|]|]; done.
Qed.

(** [redisReaderGetReply] drops what is consumed when it is at least 1k. *)
Lemma discard_holds r u :
  holds r u →
  ∃ r', (if 1024 <=? rpos r then s ← nn (rbuf r); s ← sdsrange s (i32 (rpos r)) (-1);
           Ok (set_buf (Some s) 0 (sdslen s) r) else Ok r) = Ok r' ∧
        holds r' u ∧ core r' = core r ∧ rlen r' ≤ 1024 + zlen u.
Proof.
  intros Hr. pose proof Hr as (He & s & c & Hs & Hrep & Hl & Hp & Hd).
  assert (zlen u = zlen c - rpos r) as Hu by (rewrite <- Hd; unfold zlen in *; rewrite length_drop; lia).
  destruct (Z.leb_spec 1024 (rpos r)) as [Hbig|Hsmall]; [|exists r; split; [done|]; split; [done|]; split; [done|lia]].
  destruct (repr_bounds s c Hrep) as (_ & _ & Hf & Hb & _). unfold HDR in Hb.
  rewrite Hs. cbn [nn]. rbind. rewrite i32_small by lia.
  destruct (sdsrange_repr s c (rpos r) (-1) Hrep) as (s' & -> & Hr'); [split; lia|]. rbind.
  assert (range_spec (rpos r) (-1) c = u) as Eu.
  { unfold range_spec. rewrite (proj2 (Z.ltb_ge (rpos r) 0)) by lia. change (-1 <? 0) with true. cbv iota.
    rewrite Z.max_r, Z.min_l by lia. rewrite Hd. destruct (Z.ltb_spec (zlen c + -1) (rpos r)).
    - symmetry. apply zlen_0_inv. lia.
    - apply take_ge. unfold zlen in *. lia. }
  rewrite Eu in Hr'. destruct (repr_bounds s' u Hr') as (El & _). eexists. split; [done|].
  split; [|split; [done|cbn; rewrite El; lia]]. split; [done|]. exists s', u. cbn [rbuf rlen rpos set_buf].
  split; [done|]. split; [done|]. split; [done|]. split; [zlia|]. by rewrite drop_0.
Qed.

(** The first step of [redisReaderGetReply]. *)
Definition start (r : redisReader) : redisReader :=
  if ridx r =? -1 then set_stack (<[0%nat := root_task]> (rstack r)) 0 r else r.

Lemma holds_fun r u u' : holds r u → holds r u' → u = u'.
Proof.
  intros (_ & s & c & Hs & Hr & _ & _ & Hd) (_ & s' & c' & Hs' & Hr' & _ & _ & Hd').
  assert (s' = s) as -> by congruence. rewrite <- Hd, <- Hd'. f_equal.
  destruct Hr as (sp & Eb & El & _). destruct Hr' as (sp' & Eb' & El' & _). rewrite Eb in Eb'.
  apply app_inj_1 in Eb' as [? _]; [done|]. unfold zlen in *. lia.
Qed.

Lemma reaches_core r rf rf' t : core rf = core rf' → holds rf t → holds rf' t → reaches r rf → reaches r rf'.
Proof.
  intros Hc Hh Hh' (r3 & v & ? & ? & ? & Hv). assert (v = t) as -> by (by apply (holds_fun rf)).
  exists r3, t. split; [done|]. split; [congruence|done].
Qed.

(** A call with part of the data of a run that ends in [rf] with [t] unread:
    the reply is complete and the rest of [t] is left for the next one, or
    more data is needed. *)
Lemma get_reply_step r u x rf t :
  holds r u → 0 < rlen r → ridx rf = -1 → holds rf t →
  (∀ r3, holds r3 (u ++ x) → core r3 = core (start r) → reaches r3 rf) →
  (∃ r3, holds r3 (u ++ x) ∧ core r3 = core (start r)) →
  ∃ o r', redisReaderGetReply r = Ok (REDIS_OK, o, r') ∧
    ((o = rreply rf ∧ core r' = core (set_reply None rf) ∧
        ∃ u', holds r' u' ∧ t = u' ++ x ∧ rlen r' ≤ 1024 + zlen u' ∧ (0 ≤ ridx (start r) → zlen u' < zlen u)) ∨
     (x ≠ [] ∧ o = None ∧ 0 ≤ ridx r' ∧ ∃ u', holds r' u' ∧ rlen r' ≤ 1024 + zlen u' ∧ zlen u' ≤ zlen u ∧
        ∀ r3, holds r3 (u' ++ x) → core r3 = core r' → reaches r3 rf)).
Proof.
  intros Hr Hlen Hi Hrf Hall (r3 & Hr3 & Hc3). destruct (Hall r3 Hr3 Hc3) as (rf3 & v & Hsteps & Hcf & Hf3 & Hfv).
  assert (v = t) as -> by (by apply (holds_fun rf)).
  destruct (holds_unread r u Hr) as (z & _ & Hu & Hp & Hb). pose proof (zlen_nonneg u).
  assert (holds (start r) u) as Hrs by (unfold start; destruct (ridx r =? -1); exact Hr).
  destruct (loop_run r3 rf3 Hsteps (start r) u x (S (Z.to_nat (rlen r - rpos r))) Hrs Hr3 (eq_sym Hc3))
    as (r' & El & Hcase); [lia|].
  unfold redisReaderGetReply. rewrite (proj1 Hr). cbn [Z.eqb negb].
  rewrite (proj2 (Z.eqb_neq (rlen r) 0)) by lia. fold (start r).
  replace (rlen (start r) - rpos (start r)) with (rlen r - rpos r) by (unfold start; by destruct (ridx r =? -1)).
  rewrite El. rbind. destruct Hcase as [(_ & Hc' & u' & Hr' & Hrx & _ & Hlu)|(Hx & Hi' & u' & Hr' & Hlu & Hgo)].
  - pose proof (holds_fun rf3 _ _ Hrx Hf3) as Ex.
    destruct (discard_holds r' u' Hr') as (rd & Ed & Hrd & Hcd & Hld). rewrite (proj1 Hr'). cbn [Z.eqb negb].
    rewrite Ed. rbind. assert (core rd = core rf) as Hcr by congruence. injection Hcr as Hst Hix Hre Hhe Hne.
    rewrite Hix, Hi. change (-1 =? -1) with true. cbv iota. exists (rreply rd), (set_reply None rd). split; [done|].
    left. split; [done|]. split; [unfold core; cbn; by rewrite Hst, Hix, Hhe, Hne|]. by exists u'.
  - destruct (discard_holds r' u' Hr') as (rd & Ed & Hrd & Hcd & Hld). rewrite (proj1 Hr'). cbn [Z.eqb negb].
    rewrite Ed. rbind. assert (ridx rd = ridx r') as Hid by (by injection Hcd).
    rewrite (proj2 (Z.eqb_neq _ _)) by lia. exists None, rd. split; [done|]. right. do 2 (split; [done|]).
    split; [lia|]. exists u'. split; [done|]. split; [lia|]. split; [done|]. intros r4 Hr4 Hc4.
    apply (reaches_core r4 rf3 rf t); try done. apply Hgo; [done|]. congruence.
Qed.

(** The same for a run that uses up the data. *)
Lemma get_reply_run r u x rf :
  holds r u → 0 < rlen r → ridx rf = -1 → holds rf [] →
  (∀ r3, holds r3 (u ++ x) → core r3 = core (start r) → reaches r3 rf) →
  (∃ r3, holds r3 (u ++ x) ∧ core r3 = core (start r)) →
  ∃ o r', redisReaderGetReply r = Ok (REDIS_OK, o, r') ∧
    ((x = [] ∧ o = rreply rf ∧ core r' = core (set_reply None rf) ∧ holds r' [] ∧ rlen r' ≤ 1024) ∨
     (x ≠ [] ∧ o = None ∧ 0 ≤ ridx r' ∧ ∃ u', holds r' u' ∧ rlen r' ≤ 1024 + zlen u' ∧ zlen u' ≤ zlen u ∧
        ∀ r3, holds r3 (u' ++ x) → core r3 = core r' → reaches r3 rf)).
Proof.
  intros Hr Hlen Hi Hrf Hall Hex. destruct (get_reply_step r u x rf [] Hr Hlen Hi Hrf Hall Hex) as (o & r' & E & Hcase).
  exists o, r'. split; [done|]. destruct Hcase as [(-> & Hc & u' & Hu' & Et & Hl & _)|?]; [left|by right].
  symmetry in Et. apply app_nil in Et as [-> ->]. change (zlen []) with 0 in Hl. split_and!; done || lia.
Qed.
End read_spec.
