(* ===== verification/ReadValue.v ===== *)
(** * Reply values read back (theorems about Read.v)

    The values of the protocol, their encoding, and how the reader lays them
    out in its heap. A value is read back exactly, however its encoding is
    cut into pieces. *)

From S2P Require Import Prelude Cstd Cmem Sds SdsSpec Read ReadSpec.
Import Sds Read.

(** ** Values *)

Inductive rval :=
  | VStatus (b : bytes)
  | VErr (b : bytes)
  | VInt (z : Z)
  | VStr (b : bytes)
  | VNil
  | VArr (vs : list rval).

(** Induction that reaches the elements of arrays. *)
Section rval_ind.
Context (P : rval → Prop).
Hypothesis scalar_case : ∀ v, (∀ vs, v ≠ VArr vs) → P v.
Hypothesis array_case : ∀ vs, Forall P vs → P (VArr vs).
Fixpoint rval_nested (v : rval) : P v :=
  match v with
  | VArr vs =>
      array_case vs ((fix go vs : Forall P vs :=
        match vs with
        | [] => Forall_nil_2 P
        | v :: vs => Forall_cons_2 P v vs (rval_nested v) (go vs)
        end) vs)
  | VStatus b => scalar_case (VStatus b) (λ _, ltac:(discriminate))
  | VErr b => scalar_case (VErr b) (λ _, ltac:(discriminate))
  | VInt z => scalar_case (VInt z) (λ _, ltac:(discriminate))
  | VStr b => scalar_case (VStr b) (λ _, ltac:(discriminate))
  | VNil => scalar_case (VNil) (λ _, ltac:(discriminate))
  end.
End rval_ind.

(** The bytes of a value. *)
Fixpoint enc (v : rval) : bytes :=
  match v with
  | VStatus b => [43] ++ b ++ crlf
  | VErr b => [45] ++ b ++ crlf
  | VInt z => [58] ++ sdec z ++ crlf
  | VStr b => [36] ++ sdec (zlen b) ++ crlf ++ b ++ crlf
  | VNil => [36] ++ sdec (-1) ++ crlf
  | VArr vs => [42] ++ sdec (zlen vs) ++ crlf ++ concat (map enc vs)
  end.

(** What the protocol can say, with [d] more levels of arrays. *)
Fixpoint valid (d : nat) (v : rval) {struct v} : Prop :=
  match v with
  | VStatus b | VErr b => no_cr b ∧ zlen b < LIMIT
  | VInt z => - 2 ^ 63 < z < 2 ^ 63
  | VStr b => zlen b < LIMIT
  | VNil => True
  | VArr vs =>
      match d with
      | O => False
      | S d => zlen vs < 2 ^ 31 ∧ Forall id (map (λ v, valid d v) vs)
      end
  end.

(** The number of reply objects. *)
Fixpoint size (v : rval) : Z :=
  match v with
  | VArr vs => 1 + foldr Z.add 0 (map size vs)
  | _ => 1
  end.
Definition sizes (vs : list rval) : Z := foldr Z.add 0 (map size vs).

Lemma size_pos v : 0 < size v.
Proof.
  induction v as [v Hv|vs IH] using rval_nested; [by destruct v; try done; destruct (Hv vs)|]. cbn [size].
  assert (0 ≤ foldr Z.add 0 (map size vs)); [|lia]. induction IH; simpl; lia.
Qed.

Lemma sizes_nonneg vs : 0 ≤ sizes vs.
Proof. unfold sizes. induction vs as [|v vs IH]; simpl; [done|]. pose proof (size_pos v). lia. Qed.

(** ** Reply objects *)

Definition string_obj (t : Z) (b : bytes) : redisReply :=
  {| rtype := t; integer := 0; rslen := zlen b; rstr := Some (b ++ [0]); relements := 0; relement := None |}.
Definition int_obj (z : Z) : redisReply :=
  {| rtype := REDIS_REPLY_INTEGER; integer := z; rslen := 0; rstr := None; relements := 0; relement := None |}.
Definition nil_obj : redisReply :=
  {| rtype := REDIS_REPLY_NIL; integer := 0; rslen := 0; rstr := None; relements := 0; relement := None |}.
Definition array_obj (es : list (option loc)) : redisReply :=
  {| rtype := REDIS_REPLY_ARRAY; integer := 0; rslen := 0; rstr := None; relements := zlen es;
     relement := match es with [] => None | _ => Some es end |}.

(** The object at [l] stands for the value. *)
Inductive denotes (h : gmap loc redisReply) : rval → loc → Prop :=
  | den_status b l : h !! l = Some (string_obj REDIS_REPLY_STATUS b) → denotes h (VStatus b) l
  | den_err b l : h !! l = Some (string_obj REDIS_REPLY_ERROR b) → denotes h (VErr b) l
  | den_str b l : h !! l = Some (string_obj REDIS_REPLY_STRING b) → denotes h (VStr b) l
  | den_int z l : h !! l = Some (int_obj z) → denotes h (VInt z) l
  | den_nil l : h !! l = Some nil_obj → denotes h VNil l
  | den_arr vs ls l : h !! l = Some (array_obj (map Some ls)) → Forall2 (denotes h) vs ls → denotes h (VArr vs) l.

(** The object of a value at [l] whose elements, if any, follow it. *)
Fixpoint places (vs : list rval) (l : loc) : list loc :=
  match vs with
  | [] => []
  | v :: vs => l :: places vs (l + size v)
  end.

Definition root_obj (v : rval) (l : loc) : redisReply :=
  match v with
  | VStatus b => string_obj REDIS_REPLY_STATUS b
  | VErr b => string_obj REDIS_REPLY_ERROR b
  | VStr b => string_obj REDIS_REPLY_STRING b
  | VInt z => int_obj z
  | VNil => nil_obj
  | VArr vs => array_obj (map Some (places vs (l + 1)))
  end.

Section laid.
Context (h : gmap loc redisReply).

(** The objects of a value, in the order they are created. *)
Fixpoint laid (v : rval) (l : loc) : Prop :=
  h !! l = Some (root_obj v l) ∧
  match v with
  | VArr vs =>
      (fix go vs l :=
         match vs with
         | [] => True
         | v :: vs => laid v l ∧ go vs (l + size v)
         end) vs (l + 1)
  | _ => True
  end.

Fixpoint laid_all (vs : list rval) (l : loc) : Prop :=
  match vs with
  | [] => True
  | v :: vs => laid v l ∧ laid_all vs (l + size v)
  end.

Lemma laid_eq v l :
  laid v l ↔ h !! l = Some (root_obj v l) ∧ match v with VArr vs => laid_all vs (l + 1) | _ => True end.
Proof.
  by destruct v.
Qed.

Lemma laid_denotes v l : laid v l → denotes h v l.
Proof.
  revert l. induction v as [v Hv|vs IH] using rval_nested; intros l [Hl Hvs]%laid_eq.
  - destruct v; (by constructor) || (by destruct (Hv vs)).
  - apply (den_arr h vs (places vs (l + 1)) l Hl). clear Hl. revert Hvs. generalize (l + 1) as k.
    induction IH as [|v vs Hv _ IH]; intros k; [constructor|]. cbn [laid_all places]. intros [? ?].
    constructor; [by apply Hv|by apply IH].
Qed.
End laid.

Lemma laid_frame h h' v l :
  laid h v l → (∀ k, l ≤ k < l + size v → h' !! k = h !! k) → laid h' v l.
Proof.
  revert l. induction v as [v Hv|vs IH] using rval_nested; intros l [Hl Hvs]%laid_eq Hf; apply laid_eq.
  - split; [rewrite Hf; [done|pose proof (size_pos v); lia]|]. by destruct v; try done; destruct (Hv vs).
  - cbn [size] in Hf. fold (sizes vs) in Hf. pose proof (sizes_nonneg vs). split; [rewrite Hf; [done|lia]|].
    assert (∀ k, l + 1 ≤ k < l + 1 + sizes vs → h' !! k = h !! k) as Hf' by (intros; apply Hf; lia).
    clear Hl Hf H. revert Hvs Hf'. generalize (l + 1) as k.
    induction IH as [|v vs Hv _ IH]; intros k; [done|]. cbn [laid_all]. intros [? ?] Hf.
    change (sizes (v :: vs)) with (size v + sizes vs) in Hf. pose proof (size_pos v). pose proof (sizes_nonneg vs).
    split; [apply Hv; [done|intros; apply Hf; lia]|apply IH; [done|intros; apply Hf; lia]].
Qed.

Lemma laid_all_frame h h' vs l :
  laid_all h vs l → (∀ k, l ≤ k < l + sizes vs → h' !! k = h !! k) → laid_all h' vs l.
Proof.
  revert l. induction vs as [|v vs IH]; intros l; [done|]. cbn [laid_all]. intros [? ?] Hf.
  change (sizes (v :: vs)) with (size v + sizes vs) in Hf. pose proof (size_pos v). pose proof (sizes_nonneg vs).
  split; [eapply laid_frame; [done|intros; apply Hf; lia]|apply IH; [done|intros; apply Hf; lia]].
Qed.

(** ** Moving to the next task *)

#[local] Opaque repr.

Lemma move_loop_reply fuel o r : move_loop fuel (set_reply o r) = set_reply o <$> move_loop fuel r.
Proof.
  revert r. induction fuel as [|fuel IH]; intros r; [done|]. cbn [move_loop]. unfold task_at.
  cbn [set_reply rstack ridx]. destruct (ridx r <? 0); [done|]. destruct (ridx r =? 0); [done|].
  destruct (vec_at (rstack r) (ridx r)) as [cur|]; [|done]. rbind.
  destruct (vec_at (rstack r) (ridx r - 1)) as [prv|]; [|done]. rbind.
  destruct (negb (ttype prv =? REDIS_REPLY_ARRAY)); [done|].
  destruct (tidx cur =? telements prv - 1); [apply (IH (set_stack (rstack r) (ridx r - 1) r))|].
  by destruct (negb (tidx cur <? telements prv)).
Qed.

(** More than [ridx + 1] steps are not needed. *)
Lemma move_loop_fuel fuel fuel' r :
  ridx r + 1 < Z.of_nat fuel → ridx r + 1 < Z.of_nat fuel' → (0 < fuel)%nat → (0 < fuel')%nat →
  move_loop fuel r = move_loop fuel' r.
Proof.
  revert fuel' r. induction fuel as [|fuel IH]; intros fuel' r Hf Hf' H0 H0'; [lia|].
  destruct fuel' as [|fuel']; [lia|]. cbn [move_loop]. destruct (Z.ltb_spec (ridx r) 0) as [|Hr]; [done|].
  destruct (Z.eqb_spec (ridx r) 0) as [|Hr0]; [done|].
  destruct (task_at r (ridx r)) as [cur|]; [|done]. rbind. destruct (task_at r (ridx r - 1)) as [prv|]; [|done]. rbind.
  destruct (negb _); [done|]. destruct (_ =? _); [|done]. apply IH; cbn [ridx set_stack]; lia.
Qed.

Lemma task_at_lookup r i t : 0 ≤ i → task_at r i = Ok t ↔ rstack r !! Z.to_nat i = Some t.
Proof.
  intros Hi. unfold task_at, vec_at. rewrite (proj2 (Z.leb_le 0 i)) by done. cbn [andb].
  destruct (Z.ltb_spec i (zlen (rstack r))) as [Hl|Hl]; unfold zlen in Hl.
  - destruct (rstack r !! Z.to_nat i); split; by intros [= ->].
  - rewrite lookup_ge_None_2 by lia. done.
Qed.

Lemma move_loop_S fuel r :
  move_loop (S fuel) r =
    if ridx r <? 0 then Ok r
    else if ridx r =? 0 then Ok (set_stack (rstack r) (-1) r)
    else
      cur ← task_at r (ridx r);
      prv ← task_at r (ridx r - 1);
      if negb (ttype prv =? REDIS_REPLY_ARRAY) then Fault AssertFailed
      else if tidx cur =? telements prv - 1 then move_loop fuel (set_stack (rstack r) (ridx r - 1) r)
      else if negb (tidx cur <? telements prv) then Fault AssertFailed
      else Ok (put_task r (ridx r)
                 {| ttype := -1; telements := -1; tidx := tidx cur + 1; tobj := tobj cur; tparent := tparent cur |}).
Proof. done. Qed.

(** The last element of an array: the array's own task is next. *)
Lemma move_up r d cur prv :
  ridx r = d + 1 → 0 ≤ d < 8 → task_at r (d + 1) = Ok cur → task_at r d = Ok prv →
  ttype prv = REDIS_REPLY_ARRAY → tidx cur = telements prv - 1 →
  moveToNextTask r = moveToNextTask (set_stack (rstack r) d r).
Proof.
  intros Hr Hd Hc Hp Ht Hi. unfold moveToNextTask. rewrite (move_loop_S 9 r).
  rewrite (proj2 (Z.ltb_ge _ _)), (proj2 (Z.eqb_neq _ _)) by lia. rewrite Hr.
  replace (d + 1 - 1) with d by lia. rewrite Hc, Hp. rbind.
  rewrite Ht. cbn [Z.eqb REDIS_REPLY_ARRAY Pos.eqb negb]. rewrite (proj2 (Z.eqb_eq _ _)) by done.
  apply move_loop_fuel; cbn [ridx set_stack]; lia.
Qed.

(** The next element of an array. *)
Lemma move_on r d cur prv :
  ridx r = d + 1 → 0 ≤ d → task_at r (d + 1) = Ok cur → task_at r d = Ok prv →
  ttype prv = REDIS_REPLY_ARRAY → tidx cur < telements prv - 1 →
  moveToNextTask r = Ok (put_task r (d + 1)
    {| ttype := -1; telements := -1; tidx := tidx cur + 1; tobj := tobj cur; tparent := tparent cur |}).
Proof.
  intros Hr Hd Hc Hp Ht Hi. unfold moveToNextTask. rewrite (move_loop_S 9 r).
  rewrite (proj2 (Z.ltb_ge _ _)), (proj2 (Z.eqb_neq _ _)) by lia. rewrite Hr.
  replace (d + 1 - 1) with d by lia. rewrite Hc, Hp. rbind.
  rewrite Ht. cbn [Z.eqb REDIS_REPLY_ARRAY Pos.eqb negb]. rewrite (proj2 (Z.eqb_neq _ _)) by lia.
  by rewrite (proj2 (Z.ltb_lt _ _)) by lia.
Qed.

Lemma move_reply o r : moveToNextTask (set_reply o r) = set_reply o <$> moveToNextTask r.
Proof. apply move_loop_reply. Qed.

#[local] Opaque moveToNextTask.

(** ** One value *)

Section read_value.
Context `{Malloc}.
Hypothesis granted : ∀ n, malloc_ok n = true.

(** Where a task's object is linked: nowhere, or into the array at [pl],
    whose elements are [es]. *)
Definition linkable (r : redisReader) (cur : redisReadTask) (q : option (loc * list (option loc))) : Prop :=
  match q with
  | None => tparent cur = None
  | Some (pl, es) =>
      ∃ p pt, tparent cur = Some p ∧ task_at r p = Ok pt ∧ tobj pt = Some pl ∧ pl < rnext r ∧
        rheap r !! pl = Some (array_obj es) ∧ 0 ≤ tidx cur < zlen es
  end.

Definition patched (q : option (loc * list (option loc))) (i : Z) (l : loc) (h : gmap loc redisReply) :=
  match q with
  | None => h
  | Some (pl, es) => <[pl := array_obj (<[Z.to_nat i := Some l]> es)]> h
  end.

Lemma link_ok r cur q o :
  linkable r cur q →
  link_object cur o r =
    Ok (Some (rnext r), set_heap (patched q (tidx cur) (rnext r) (<[rnext r := o]> (rheap r))) (rnext r + 1) r).
Proof.
  intros Hq. unfold link_object. destruct q as [[pl es]|]; [|by rewrite Hq].
  destruct Hq as (p & pt & -> & -> & Ho & Hlt & Hh & Hi). rbind. rewrite Ho. cbn [nn]. rbind.
  rewrite lookup_insert_ne, Hh by lia. cbn [nn]. rbind. cbn [rtype array_obj Z.eqb REDIS_REPLY_ARRAY Pos.eqb negb].
  destruct es as [|e es]; [change (zlen []) with 0 in Hi; lia|]. cbn [relement array_obj nn]. rbind.
  rewrite (proj2 (Z.leb_le _ _)), (proj2 (Z.ltb_lt _ _)) by lia. cbn [andb patched integer rslen rstr relements array_obj].
  do 3 f_equal. unfold array_obj. f_equal.
  assert (∃ e' es', <[Z.to_nat (tidx cur) := Some (rnext r)]> (e :: es) = e' :: es' ∧ length es' = length es) as (e' & es' & E & El).
  { destruct (Z.to_nat (tidx cur)) as [|k]; simpl; eexists _, _; (split; [done|]); [done|by rewrite length_insert]. }
  rewrite E. f_equal. unfold zlen. simpl. lia.
Qed.

(** The reader when the value of the task is read and the next task is not
    yet set. *)
Record item_done (r : redisReader) (cur : redisReadTask) (q : option (loc * list (option loc))) (v : rval)
    (r1 : redisReader) : Prop := {
  d_ridx : ridx r1 = ridx r;
  d_len : length (rstack r1) = length (rstack r);
  d_below : ∀ j, (j < Z.to_nat (ridx r))%nat → rstack r1 !! j = rstack r !! j;
  d_cur : ∃ cur', task_at r1 (ridx r) = Ok cur' ∧ tidx cur' = tidx cur ∧ tparent cur' = tparent cur;
  d_next : rnext r1 = rnext r + size v;
  d_laid : laid (rheap r1) v (rnext r);
  d_heap : ∀ l, l < rnext r → rheap r1 !! l = patched q (tidx cur) (rnext r) (rheap r) !! l;
  d_reply : rreply r1 = if ridx r =? 0 then Some (rnext r) else rreply r
}.

(** Items processed one after the other. *)
Inductive star : redisReader → redisReader → Prop :=
  | star_refl r : star r r
  | star_item r r' rf : 0 ≤ ridx r → processItem r = Ok (REDIS_OK, r') → star r' rf → star r rf.

Lemma star_trans a b c : star a b → star b c → star a c.
Proof. induction 1; [done|]. intros. eapply star_item; eauto. Qed.

Lemma star_steps r rf : star r rf → ridx rf < 0 → steps r rf.
Proof. induction 1; intros; [by constructor|]. eapply steps_item; eauto. Qed.

Lemma patched_other q i l h k o : (∀ pl es, q = Some (pl, es) → pl < l) → l ≤ k →
  patched q i l (<[k := o]> h) !! k = Some o.
Proof.
  intros Hq Hk. destruct q as [[pl es]|]; cbn [patched]; [|by rewrite lookup_insert_eq].
  specialize (Hq pl es eq_refl). rewrite lookup_insert_ne by lia. by rewrite lookup_insert_eq.
Qed.

Lemma patched_below q i l h k o l' : l' < k → patched q i l (<[k := o]> h) !! l' = patched q i l h !! l'.
Proof.
  intros Hk. destruct q as [[pl es]|]; cbn [patched]; [|by rewrite lookup_insert_ne by lia].
  destruct (decide (pl = l')) as [->|]; [by rewrite !lookup_insert_eq|].
  by rewrite !(lookup_insert_ne _ pl), lookup_insert_ne by lia.
Qed.

Lemma linkable_lt r cur q pl es : linkable r cur q → q = Some (pl, es) → pl < rnext r.
Proof. intros Hq ->. by destruct Hq as (p & pt & _ & _ & _ & ? & _). Qed.

(** The reader with the object [o] of the current task linked; [rp] is the
    reader moved past the item's bytes. *)
Definition linked (q : option (loc * list (option loc))) (i : Z) (o : redisReply) (rp : redisReader) : redisReader :=
  set_heap (patched q i (rnext rp) (<[rnext rp := o]> (rheap rp))) (rnext rp + 1) rp.

Lemma linked_done r cur t q v rp :
  task_at r (ridx r) = Ok cur → 0 ≤ ridx r → linkable r cur q → size v = 1 →
  (∀ l, match v with VArr vs => vs = [] | _ => True end ∧ root_obj v l = root_obj v 0) →
  core rp = core (type_read r cur t) →
  item_done r cur q v (set_root (rnext r) (linked q (tidx cur) (root_obj v 0) rp)).
Proof.
  intros Ht Hi Hq Hs Hv Hc. injection Hc as Hst Hix Hre Hhe Hne. cbn in Hst, Hix, Hre, Hhe, Hne.
  destruct (task_at_bounds r _ _ Ht) as [Hlt _].
  assert (∀ r1, core r1 = core (linked q (tidx cur) (root_obj v 0) rp) ∨
    core r1 = core (set_reply (Some (rnext r)) (linked q (tidx cur) (root_obj v 0) rp)) →
    rreply r1 = (if ridx r =? 0 then Some (rnext r) else rreply r) → item_done r cur q v r1) as Hall.
  { intros r1 Hc1 Hre1.
    assert (rstack r1 = rstack rp ∧ ridx r1 = ridx rp ∧ rnext r1 = rnext rp + 1 ∧
      rheap r1 = patched q (tidx cur) (rnext rp) (<[rnext rp := root_obj v 0]> (rheap rp))) as (E1 & E2 & E3 & E4)
      by (by destruct Hc1 as [Hc1|Hc1]; injection Hc1).
    rewrite Hst in E1. rewrite Hne, Hhe in E4. constructor; try congruence.
    - by rewrite E1, length_insert.
    - intros j Hj. rewrite E1, list_lookup_insert_ne by lia. done.
    - exists (set_type t cur). split; [|done]. apply task_at_lookup; [done|]. rewrite E1.
      by rewrite list_lookup_insert_eq.
    - apply laid_eq. rewrite E4, patched_other; [|intros pl es Hpl; by apply (linkable_lt r cur q pl es)|done]. destruct (Hv (rnext r)) as [Hvs ->].
      split; [done|]. by destruct v as [| | | | |vs]; try done; subst vs.
    - intros l Hl. rewrite E4. by apply patched_below. }
  unfold set_root. cbn [linked ridx set_heap]. rewrite Hix. destruct (Z.eqb_spec (ridx r) 0) as [E|E].
  - apply Hall; [by right|done].
  - apply Hall; [by left|exact Hre].
Qed.

(** The bytes of a string object. *)
Lemma string_object cur s b r q :
  (ttype cur =? REDIS_REPLY_ERROR) || (ttype cur =? REDIS_REPLY_STATUS) || (ttype cur =? REDIS_REPLY_STRING) = true →
  (∃ y, s = b ++ y) → zlen b < LIMIT → linkable r cur q →
  createStringObject cur s (zlen b) r = Ok (Some (rnext r), linked q (tidx cur) (string_obj (ttype cur) b) r).
Proof.
  intros Hty [y ->] Hb Hq. unfold LIMIT in Hb. pose proof (zlen_nonneg b).
  unfold createStringObject, createReplyObject. rewrite !granted. cbn [negb]. rewrite Hty. cbn [negb].
  rewrite memcpy_src by lia. rewrite u64_small by lia.
  pose proof (junk_length (Z.to_nat (zlen b + 1))) as Hj.
  destruct (junk (Z.to_nat (zlen b + 1))) as [|x j _] using rev_ind; [simpl in Hj; lia|].
  rewrite length_app in Hj. simpl in Hj. rewrite (memcpy_prefix j [x] b) by (unfold zlen in *; lia). rbind.
  rewrite (store_app b x []) by done. rbind. rewrite (link_ok _ _ q) by done. rbind. rewrite i32_small by lia. done.
Qed.

Lemma linkable_core r r' cur cur' q :
  rstack r' = rstack r → rheap r' = rheap r → rnext r' = rnext r → tparent cur' = tparent cur → tidx cur' = tidx cur →
  linkable r cur q → linkable r' cur' q.
Proof.
  intros E1 E2 E3 E4 E5. unfold linkable, task_at. rewrite E1, E2, E3, E4, E5. done.
Qed.

(** The type byte is read before the object is linked; it is written into the
    task's own entry. *)
Lemma linkable_type r cur t q i :
  task_at r (ridx r) = Ok cur → 0 ≤ ridx r → linkable r cur q → (∀ p, tparent cur = Some p → 0 ≤ p < ridx r) →
  linkable (set_pos i (type_read r cur t)) (set_type t cur) q.
Proof.
  intros Ht Hi Hq Hp. destruct q as [[pl es]|]; [|exact Hq].
  destruct Hq as (p & pt & Hpar & Hpt & ?). exists p, pt. split; [exact Hpar|]. split; [|done].
  destruct (Hp p Hpar). apply task_at_lookup in Hpt; [|lia]. apply task_at_lookup; [lia|]. cbn.
  rewrite list_lookup_insert_ne by lia. done.
Qed.

Lemma task_type_read r cur t i :
  task_at r (ridx r) = Ok cur → task_at (set_pos i (type_read r cur t)) (ridx r) = Ok (set_type t cur).
Proof. intros Ht. apply (task_at_put (set_pos (rpos r + 1) r) (ridx r) cur). exact Ht. Qed.

(** What an item gives: the bytes after it are left, and moving to the next
    task completes it. *)
Definition item_read (r : redisReader) (cur : redisReadTask) (q : option (loc * list (option loc))) (v : rval)
    (t : bytes) : Prop :=
  ∃ r1, holds r1 t ∧ item_done r cur q v r1 ∧ ∀ rm, moveToNextTask r1 = Ok rm → star r rm.

Lemma item_once r cur q v t r1 :
  0 ≤ ridx r → holds r1 t → item_done r cur q v r1 →
  (∀ rm, moveToNextTask r1 = Ok rm → processItem r = Ok (REDIS_OK, rm)) → item_read r cur q v t.
Proof.
  intros Hi Ht Hd Hm. exists r1. split; [done|]. split; [done|]. intros rm E.
  eapply star_item; [done|by apply Hm|constructor].
Qed.

Lemma set_root_holds o r u : holds r u → holds (set_root o r) u.
Proof. intros Hr. unfold set_root. by destruct (ridx r =? 0). Qed.

Lemma sdec_no_cr z : no_cr (sdec z).
Proof.
  assert (∀ n, 0 ≤ n → no_cr (udec n)) as Hu.
  { intros n Hn. eapply Forall_impl; [by apply udec_digits|]. intros c Hc ->. done. }
  unfold sdec. destruct (Z.ltb_spec z 0); [|by apply Hu]. apply Forall_cons. split; [done|]. apply Hu. lia.
Qed.

(** Status, error and integer replies. *)
Lemma line_read r cur q v c ty b t :
  holds r (c :: b ++ crlf ++ t) → task_at r (ridx r) = Ok cur → ttype cur < 0 → 0 ≤ ridx r →
  linkable r cur q → (∀ p, tparent cur = Some p → 0 ≤ p < ridx r) →
  no_cr b → reply_type c = Some ty →
  (ty =? REDIS_REPLY_ERROR) || (ty =? REDIS_REPLY_STATUS) || (ty =? REDIS_REPLY_INTEGER) = true →
  (∀ vs, v ≠ VArr vs) →
  (∀ rp y, linkable rp (set_type ty cur) q →
     line_object (set_type ty cur) (b ++ crlf ++ y) (zlen b) rp =
       Ok (Some (rnext rp), linked q (tidx cur) (root_obj v 0) rp)) →
  item_read r cur q v t.
Proof.
  intros Hr Ht Hneg Hi Hq Hp Hb Hc Hty Hv Hobj.
  pose proof (type_read_holds r cur ty c _ Hr) as Hr'.
  destruct (holds_unread _ _ Hr') as (z & Hu & _).
  set (rp := set_pos (rpos (type_read r cur ty) + Z.of_nat (length b) + 2) (type_read r cur ty)).
  assert (processItem r = fin (Some (rnext rp), linked q (tidx cur) (root_obj v 0) rp)) as E.
  { rewrite (processItem_untyped r _ cur Hr Ht Hneg). rewrite Hc. unfold processTyped.
    pose proof (task_type_read r cur ty (rpos r + 1) Ht) as Ht'.
    change (task_at (type_read r cur ty) (ridx (type_read r cur ty)) = Ok (set_type ty cur)) in Ht'.
    rewrite Ht'. rbind. cbn [ttype set_type]. rewrite Hty.
    rewrite (processLineItem_eq _ _ z (set_type ty cur)) by done. rewrite seek_ref_line by done.
    rewrite <- !app_assoc. fold rp. change (Z.of_nat (length b)) with (zlen b). rewrite Hobj; [done|].
    by apply linkable_type. }
  apply (item_once r cur q v t (set_root (rnext r) (linked q (tidx cur) (root_obj v 0) rp))); [done| | |].
  - apply set_root_holds.
    change (holds rp t). apply (holds_advance (type_read r cur ty) (b ++ crlf) t).
    + by rewrite <- app_assoc.
    + rewrite zlen_app. change (zlen crlf) with 2. unfold zlen. lia.
  - apply (linked_done r cur ty); try done; [by destruct v; try done; destruct (Hv vs)|].
    intros l. destruct v; try done. by destruct (Hv vs).
  - intros rm Em. rewrite E. unfold fin. cbn [fst snd]. change (rnext rp) with (rnext r). by rewrite Em.
Qed.

Lemma type_read_task r cur ty :
  task_at r (ridx r) = Ok cur → task_at (type_read r cur ty) (ridx (type_read r cur ty)) = Ok (set_type ty cur).
Proof. apply (task_type_read r cur ty (rpos r + 1)). Qed.

(** An item that links one object and moves on. *)
Lemma linked_read r cur q v ty i a t :
  task_at r (ridx r) = Ok cur → 0 ≤ ridx r → linkable r cur q → size v = 1 →
  (∀ l, match v with VArr vs => vs = [] | _ => True end ∧ root_obj v l = root_obj v 0) →
  holds (type_read r cur ty) (a ++ t) → i = rpos (type_read r cur ty) + zlen a →
  (∀ rm, moveToNextTask (set_root (rnext r) (linked q (tidx cur) (root_obj v 0) (set_pos i (type_read r cur ty)))) = Ok rm →
     processItem r = Ok (REDIS_OK, rm)) →
  item_read r cur q v t.
Proof.
  intros Ht Hi Hq Hs Hv Hr Hpos Hm. eapply item_once; [done| | |exact Hm].
  - apply set_root_holds. change (holds (set_pos i (type_read r cur ty)) t). by apply (holds_advance _ a t).
  - by apply (linked_done r cur ty).
Qed.

Lemma bulk_read r cur q b t :
  holds r (enc (VStr b) ++ t) → task_at r (ridx r) = Ok cur → ttype cur < 0 → 0 ≤ ridx r →
  linkable r cur q → (∀ p, tparent cur = Some p → 0 ≤ p < ridx r) → zlen b < LIMIT →
  item_read r cur q (VStr b) t.
Proof.
  intros Hr Ht Hneg Hi Hq Hp Hb. unfold LIMIT in Hb. pose proof (zlen_nonneg b).
  cbn [enc] in Hr. rewrite <- !app_assoc in Hr. cbn [app] in Hr. set (d := sdec (zlen b)) in *.
  assert (36 :: d ++ crlf ++ b ++ crlf ++ t = 36 :: (d ++ crlf ++ b ++ crlf) ++ t) as Ea by (by rewrite <- !app_assoc).
  pose proof (type_read_holds r cur REDIS_REPLY_STRING 36 _ Hr) as Hr'. set (rt := type_read r cur REDIS_REPLY_STRING) in *.
  apply (linked_read r cur q (VStr b) REDIS_REPLY_STRING (rpos rt + Z.of_nat (length d) + zlen b + 4) (d ++ crlf ++ b ++ crlf) t);
    try done.
  { by rewrite <- !app_assoc. }
  { rewrite !zlen_app. change (zlen crlf) with 2. unfold zlen. fold rt. lia. }
  intros rm Em. rewrite (processItem_untyped r _ cur Hr Ht Hneg). cbn [reply_type Z.eqb Pos.eqb]. fold rt.
  unfold processTyped. pose proof (type_read_task r cur REDIS_REPLY_STRING Ht) as Ht'. fold rt in Ht'.
  rewrite Ht'. rbind. cbn [ttype set_type]. cbn [Z.eqb REDIS_REPLY_ERROR REDIS_REPLY_STATUS REDIS_REPLY_INTEGER
    REDIS_REPLY_STRING Pos.eqb orb].
  apply (processBulkItem_eq rt _ (set_type REDIS_REPLY_STRING cur) Hr' Ht').
  exists (length d), (zlen b). split; [apply seek_ref_line, sdec_no_cr|].
  split; [apply readLongLong_sdec; lia|]. right. split; [lia|]. split.
  { rewrite !zlen_app. change (zlen crlf) with 2. pose proof (zlen_nonneg t). unfold zlen in *. lia. }
  replace (length d + 2)%nat with (length (d ++ crlf)) by (rewrite length_app; done).
  rewrite app_assoc, drop_app_length.
  rewrite (string_object _ _ b _ q); [|done|eauto|done|by apply linkable_type].
  rbind. unfold fin. cbn [fst snd]. change (rnext (set_pos _ rt)) with (rnext r).
  change (tidx (set_type REDIS_REPLY_STRING cur)) with (tidx cur). cbn [root_obj] in Em.
  change (ttype (set_type REDIS_REPLY_STRING cur)) with REDIS_REPLY_STRING. fold rt in Em. by rewrite Em.
Qed.

Lemma nil_read r cur q t :
  holds r (enc VNil ++ t) → task_at r (ridx r) = Ok cur → ttype cur < 0 → 0 ≤ ridx r →
  linkable r cur q → (∀ p, tparent cur = Some p → 0 ≤ p < ridx r) →
  item_read r cur q VNil t.
Proof.
  intros Hr Ht Hneg Hi Hq Hp. cbn [enc] in Hr. rewrite <- !app_assoc in Hr. cbn [app] in Hr. set (d := sdec (-1)) in *.
  pose proof (type_read_holds r cur REDIS_REPLY_STRING 36 _ Hr) as Hr'. set (rt := type_read r cur REDIS_REPLY_STRING) in *.
  apply (linked_read r cur q VNil REDIS_REPLY_STRING (rpos rt + Z.of_nat (length d) + 2) (d ++ crlf) t); try done.
  { rewrite zlen_app. change (zlen crlf) with 2. fold rt. unfold zlen. lia. }
  intros rm Em. rewrite (processItem_untyped r _ cur Hr Ht Hneg). cbn [reply_type Z.eqb Pos.eqb]. fold rt.
  unfold processTyped. pose proof (type_read_task r cur REDIS_REPLY_STRING Ht) as Ht'. fold rt in Ht'.
  rewrite Ht'. rbind. cbn [ttype set_type]. cbn [Z.eqb REDIS_REPLY_ERROR REDIS_REPLY_STATUS REDIS_REPLY_INTEGER
    REDIS_REPLY_STRING Pos.eqb orb].
  apply (processBulkItem_eq rt _ (set_type REDIS_REPLY_STRING cur) Hr' Ht').
  exists (length d), (-1). split; [apply seek_ref_line, sdec_no_cr|].
  split; [apply readLongLong_sdec; lia|]. left. split; [done|].
  unfold createNilObject, createReplyObject. rewrite granted. rewrite (link_ok _ _ q) by (by apply linkable_type).
  rbind. unfold fin. cbn [fst snd]. change (rnext (set_pos _ rt)) with (rnext r).
  change (tidx (set_type REDIS_REPLY_STRING cur)) with (tidx cur). cbn [root_obj] in Em. fold rt in Em.
  exact (f_equal (λ m, r ← m; Ok (REDIS_OK, r)) Em).
Qed.

(** What holds of every value the stack has room for. *)
Definition readable (v : rval) : Prop :=
  ∀ r cur q t (d : nat),
    valid d v → ridx r + Z.of_nat d ≤ 8 → length (rstack r) = 9%nat →
    holds r (enc v ++ t) → task_at r (ridx r) = Ok cur → ttype cur < 0 → 0 ≤ ridx r →
    linkable r cur q → (∀ p, tparent cur = Some p → 0 ≤ p < ridx r) → item_read r cur q v t.

Lemma scalar_readable v : (∀ vs, v ≠ VArr vs) → readable v.
Proof.
  intros Hv r cur q t d Hd _ _ Hr Ht Hneg Hi Hq Hp. destruct v as [b|b|z|b| |vs]; cbn [valid enc] in *.
  - apply (line_read r cur q _ 43 REDIS_REPLY_STATUS b); try done; [by rewrite <- !app_assoc in Hr|apply Hd|].
    intros rp y Hl. unfold line_object. cbn [ttype set_type]. cbn [Z.eqb REDIS_REPLY_STATUS REDIS_REPLY_INTEGER Pos.eqb].
    rewrite (string_object _ _ b _ q); [done|done|eauto|apply Hd|done].
  - apply (line_read r cur q _ 45 REDIS_REPLY_ERROR b); try done; [by rewrite <- !app_assoc in Hr|apply Hd|].
    intros rp y Hl. unfold line_object. cbn [ttype set_type]. cbn [Z.eqb REDIS_REPLY_ERROR REDIS_REPLY_INTEGER Pos.eqb].
    rewrite (string_object _ _ b _ q); [done|done|eauto|apply Hd|done].
  - apply (line_read r cur q _ 58 REDIS_REPLY_INTEGER (sdec z)); try done; [by rewrite <- !app_assoc in Hr|apply sdec_no_cr|].
    intros rp y Hl. unfold line_object. cbn [ttype set_type]. cbn [Z.eqb REDIS_REPLY_INTEGER Pos.eqb].
    rewrite readLongLong_sdec by done. rbind. unfold createIntegerObject, createReplyObject. rewrite granted.
    by rewrite (link_ok _ _ q) by done.
  - by apply bulk_read.
  - by apply nil_read.
  - by destruct (Hv vs).
Qed.

(** The reader is at element [i] of the array at [P], whose task is at [d]. *)
Record at_element (r : redisReader) (d i : Z) (P : loc) (es : list (option loc)) : Prop := {
  a_ridx : ridx r = d + 1;
  a_depth : 0 ≤ d < 8;
  a_len : length (rstack r) = 9%nat;
  a_cur : ∃ cur, task_at r (d + 1) = Ok cur ∧ ttype cur = -1 ∧ tidx cur = i ∧ tparent cur = Some d;
  a_arr : ∃ prv, task_at r d = Ok prv ∧ ttype prv = REDIS_REPLY_ARRAY ∧ telements prv = zlen es ∧ tobj prv = Some P;
  a_obj : P < rnext r ∧ rheap r !! P = Some (array_obj es);
  a_idx : 0 ≤ i < zlen es
}.

Lemma at_element_linkable r d i P es cur :
  at_element r d i P es → tparent cur = Some d → tidx cur = i → linkable r cur (Some (P, es)).
Proof.
  intros [] Hp Hi. destruct a_arr0 as (prv & ? & ? & ? & ?). exists d, prv. rewrite Hi. by destruct a_obj0.
Qed.

(** The reader after an element is at the next one, or back at the array. *)
Record elements_done (r : redisReader) (d i : Z) (P : loc) (es : list (option loc)) (vs : list rval)
    (r1 : redisReader) : Prop := {
  e_ridx : ridx r1 = d;
  e_len : length (rstack r1) = 9%nat;
  e_below : ∀ j, (j ≤ Z.to_nat d)%nat → rstack r1 !! j = rstack r !! j;
  e_next : rnext r1 = rnext r + sizes vs;
  e_laid : laid_all (rheap r1) vs (rnext r);
  e_obj : rheap r1 !! P = Some (array_obj (take (Z.to_nat i) es ++ map Some (places vs (rnext r))));
  e_heap : ∀ l, l < rnext r → l ≠ P → rheap r1 !! l = rheap r !! l;
  e_reply : rreply r1 = rreply r
}.

Lemma task_at_same r r' i : rstack r' !! Z.to_nat i = rstack r !! Z.to_nat i → 0 ≤ i → task_at r i = task_at r' i.
Proof.
  intros E Hi. destruct (task_at r i) as [t|f] eqn:E1.
  - symmetry. apply task_at_lookup in E1; [|done]. apply task_at_lookup; [done|]. congruence.
  - destruct (task_at r' i) as [t|f'] eqn:E2.
    + apply task_at_lookup in E2; [|done]. rewrite E in E2. apply task_at_lookup in E2; [|done]. congruence.
    + unfold task_at, vec_at in E1, E2. f_equal. repeat case_match; congruence.
Qed.

(** After the last element. *)
Lemma last_element r d i P es v cur rv :
  at_element r d i P es → i = zlen es - 1 → task_at r (d + 1) = Ok cur → tidx cur = i → tparent cur = Some d →
  item_done r cur (Some (P, es)) v rv →
  elements_done r d i P es [v] (set_stack (rstack rv) d rv) ∧
  moveToNextTask rv = moveToNextTask (set_stack (rstack rv) d rv).
Proof.
  intros Ha Hi Ht Hti Htp Hd. destruct (a_arr _ _ _ _ _ Ha) as (prv & Hprv & Hty & Htel & Hob).
  pose proof (a_ridx _ _ _ _ _ Ha) as Hr. pose proof (a_depth _ _ _ _ _ Ha) as Hdep.
  destruct (a_obj _ _ _ _ _ Ha) as [HP HhP]. pose proof (a_idx _ _ _ _ _ Ha) as Hix.
  destruct Hd as [D1 D2 D3 (cur' & D4 & D4' & D4'') D5 D6 D7 D8]. rewrite Hr in *. split.
  - constructor; cbn [ridx rstack rnext rheap rreply set_stack].
    + done.
    + by rewrite D2, (a_len _ _ _ _ _ Ha).
    + intros j Hj. apply D3. lia.
    + unfold sizes. simpl. lia.
    + done.
    + rewrite D7 by done. cbn [patched]. rewrite lookup_insert_eq. do 2 f_equal. cbn [places map].
      rewrite Hti, Hi. unfold zlen in *. rewrite insert_take_drop by lia. f_equal.
      rewrite drop_ge by lia. done.
    + intros l Hl HlP. rewrite D7 by done. cbn [patched]. by rewrite lookup_insert_ne.
    + rewrite D8. by rewrite (proj2 (Z.eqb_neq _ _)) by lia.
  - apply (move_up rv d cur' prv); try done; [|lia].
    rewrite <- Hprv. symmetry. apply task_at_same; [|lia]. apply D3. lia.
Qed.

(** Before another element. *)
Lemma next_element r d i P es v cur rv :
  at_element r d i P es → i < zlen es - 1 → task_at r (d + 1) = Ok cur → tidx cur = i → tparent cur = Some d →
  item_done r cur (Some (P, es)) v rv →
  ∃ cur', moveToNextTask rv = Ok (put_task rv (d + 1) cur') ∧
          at_element (put_task rv (d + 1) cur') d (i + 1) P (<[Z.to_nat i := Some (rnext r)]> es).
Proof.
  intros Ha Hi Ht Hti Htp Hd. destruct (a_arr _ _ _ _ _ Ha) as (prv & Hprv & Hty & Htel & Hob).
  pose proof (a_ridx _ _ _ _ _ Ha) as Hr. pose proof (a_depth _ _ _ _ _ Ha) as Hdep.
  destruct (a_obj _ _ _ _ _ Ha) as [HP HhP]. pose proof (a_idx _ _ _ _ _ Ha) as Hix.
  destruct Hd as [D1 D2 D3 (cur' & D4 & D4' & D4'') D5 D6 D7 D8]. rewrite Hr in *.
  assert (task_at rv d = Ok prv) as Hpv.
  { rewrite <- Hprv. symmetry. apply task_at_same; [|lia]. apply D3. lia. }
  eexists. split; [apply (move_on rv d cur' prv); try done; lia|]. constructor; cbn [ridx rnext rheap put_task set_stack].
  - done.
  - done.
  - cbn. by rewrite length_insert, D2, (a_len _ _ _ _ _ Ha).
  - eexists. split; [by eapply task_at_put|]. cbn. split; [done|]. split; [lia|congruence].
  - exists prv. split; [|unfold zlen; rewrite length_insert; done]. rewrite <- Hpv. symmetry.
    apply task_at_same; [|lia]. cbn. by rewrite list_lookup_insert_ne by lia.
  - pose proof (size_pos v). split; [lia|]. rewrite D7 by done. cbn [patched]. by rewrite lookup_insert_eq, Hti.
  - unfold zlen in *. rewrite length_insert. lia.
Qed.

Lemma elements_read vs :
  Forall readable vs → ∀ r d i P es t (k : nat),
  vs ≠ [] → at_element r d i P es → i + zlen vs = zlen es → d + 1 + Z.of_nat k ≤ 8 →
  Forall id (map (λ v, valid k v) vs) → holds r (concat (map enc vs) ++ t) →
  ∃ r1, holds r1 t ∧ elements_done r d i P es vs r1 ∧ ∀ rm, moveToNextTask r1 = Ok rm → star r rm.
Proof.
  induction 1 as [|v vs Hv _ IH]; intros r d i P es t k Hne Ha Hlen Hk Hval Hr; [done|].
  destruct (a_cur _ _ _ _ _ Ha) as (cur & Ht & Hty & Hti & Htp). pose proof (a_ridx _ _ _ _ _ Ha) as Hri.
  pose proof (a_depth _ _ _ _ _ Ha) as Hdep. cbn [map] in Hval. apply Forall_cons in Hval as [Hval1 Hval2].
  cbn [map concat] in Hr. rewrite <- app_assoc in Hr. rewrite zlen_cons in Hlen.
  destruct (Hv r cur (Some (P, es)) (concat (map enc vs) ++ t) k Hval1) as (rv & Hrv & Hd & Hm); try done.
  { lia. } { apply (a_len _ _ _ _ _ Ha). } { by rewrite Hri. } { lia. } { lia. }
  { by apply (at_element_linkable r d i P es). } { intros p E. assert (p = d) as -> by congruence. lia. }
  destruct vs as [|v' vs].
  { change (zlen []) with 0 in Hlen. destruct (last_element r d i P es v cur rv Ha ltac:(lia) Ht Hti Htp Hd) as [He Em].
    eexists. split; [|split; [exact He|]]; [exact Hrv|]. intros rm E. apply Hm. congruence. }
  rewrite zlen_cons in Hlen. pose proof (zlen_nonneg vs).
  destruct (next_element r d i P es v cur rv Ha ltac:(lia) Ht Hti Htp Hd) as (cur' & Em & Ha').
  pose proof (a_idx _ _ _ _ _ Ha) as Hix. destruct (a_obj _ _ _ _ _ Ha) as [HP _].
  destruct (IH (put_task rv (d + 1) cur') d (i + 1) P (<[Z.to_nat i := Some (rnext r)]> es) t k) as (r1 & Hr1 & He & Hm1);
    try done; [unfold zlen in *; rewrite length_insert; simpl in *; lia|].
  exists r1. split; [done|]. split; [|intros rm E; eapply star_trans; [by apply Hm|by apply Hm1]].
  destruct He as [E1 E2 E3 E4 E5 E6 E7 E8]. cbn [rnext rheap rreply put_task set_stack] in *.
  destruct Hd as [D1 D2 D3 D4 D5 D6 D7 D8]. pose proof (size_pos v). rewrite D5 in *.
  constructor; try done.
  - intros j Hj. rewrite E3 by done. cbn. rewrite list_lookup_insert_ne, D3 by lia. done.
  - rewrite E4. change (sizes (v :: v' :: vs)) with (size v + sizes (v' :: vs)). lia.
  - cbn [laid_all]. split; [|exact E5]. eapply laid_frame; [exact D6|]. intros l Hl. apply E7; lia.
  - rewrite E6. do 2 f_equal. change (places (v :: v' :: vs) (rnext r)) with (rnext r :: places (v' :: vs) (rnext r + size v)).
    replace (Z.to_nat (i + 1)) with (S (Z.to_nat i)) by lia. unfold zlen in Hix.
    erewrite take_S_r by (apply list_lookup_insert_eq; lia). rewrite take_insert_ge by lia. by rewrite <- app_assoc.
  - intros l Hl HlP. rewrite E7, D7 by (done || lia). cbn [patched]. by rewrite lookup_insert_ne.
  - rewrite E8, D8. rewrite (proj2 (Z.eqb_neq _ _)) by lia. done.
Qed.

(** The header of an array. *)
Lemma array_header r cur q vs t :
  holds r (enc (VArr vs) ++ t) → task_at r (ridx r) = Ok cur → ttype cur < 0 → 0 ≤ ridx r < 8 →
  linkable r cur q → (∀ p, tparent cur = Some p → 0 ≤ p < ridx r) → zlen vs < 2 ^ 31 →
  let rt := type_read r cur REDIS_REPLY_ARRAY in
  ∃ i, holds (set_pos i rt) (concat (map enc vs) ++ t) ∧
    processItem r =
      mfin (set_type REDIS_REPLY_ARRAY cur) (ridx r =? 0) (zlen vs)
        (Some (rnext r), linked q (tidx cur) (array_obj (replicate (length vs) None)) (set_pos i rt)).
Proof.
  intros Hr Ht Hneg Hi Hq Hp Hlen rt. pose proof (zlen_nonneg vs).
  cbn [enc] in Hr. rewrite <- !app_assoc in Hr. cbn [app] in Hr. set (d := sdec (zlen vs)) in *.
  pose proof (type_read_holds r cur REDIS_REPLY_ARRAY 42 _ Hr) as Hr'. fold rt in Hr'.
  exists (rpos rt + Z.of_nat (length d) + 2). split.
  { apply (holds_advance rt (d ++ crlf)); [by rewrite <- app_assoc|]. rewrite zlen_app. change (zlen crlf) with 2.
    unfold zlen. lia. }
  rewrite (processItem_untyped r _ cur Hr Ht Hneg). cbn [reply_type Z.eqb Pos.eqb]. fold rt.
  unfold processTyped. pose proof (type_read_task r cur REDIS_REPLY_ARRAY Ht) as Ht'. fold rt in Ht'.
  rewrite Ht'. rbind. cbn [ttype set_type]. cbn [Z.eqb REDIS_REPLY_ERROR REDIS_REPLY_STATUS REDIS_REPLY_INTEGER
    REDIS_REPLY_STRING REDIS_REPLY_ARRAY Pos.eqb orb].
  rewrite (processMultiBulkItem_eq rt _ (set_type REDIS_REPLY_ARRAY cur) Hr' Ht') by (cbn; lia).
  rewrite seek_ref_line by (apply sdec_no_cr). 
  assert (readLongLong (d ++ crlf ++ concat (map enc vs) ++ t) = Ok (zlen vs)) as -> by (apply readLongLong_sdec; lia). rbind.
  unfold multi_object. rewrite (proj2 (Z.eqb_neq (zlen vs) (-1))) by lia. rewrite i32_small by lia.
  unfold createArrayObject, createReplyObject. rewrite !granted, andb_false_r.
  rewrite (link_ok _ _ q) by (apply linkable_type; done || lia). rbind. do 4 f_equal. unfold array_obj.
  rewrite u64_small by lia. unfold zlen. rewrite Nat2Z.id, length_replicate. by destruct vs.
Qed.

Lemma empty_array_read r cur q t :
  holds r (enc (VArr []) ++ t) → task_at r (ridx r) = Ok cur → ttype cur < 0 → 0 ≤ ridx r < 8 →
  linkable r cur q → (∀ p, tparent cur = Some p → 0 ≤ p < ridx r) → item_read r cur q (VArr []) t.
Proof.
  intros Hr Ht Hneg Hi Hq Hp. destruct (array_header r cur q [] t) as (i & Hr' & E); try done.
  apply (item_once r cur q (VArr []) t (set_root (rnext r) (linked q (tidx cur) (root_obj (VArr []) 0)
    (set_pos i (type_read r cur REDIS_REPLY_ARRAY)))));
    [lia|apply set_root_holds; exact Hr'|apply (linked_done r cur REDIS_REPLY_ARRAY); done || lia|].
  intros rm Em. rewrite E. unfold mfin. cbn [fst snd]. change (0 <? zlen []) with false. cbv iota.
  unfold set_root in Em. cbn [linked set_heap ridx set_pos type_read put_task set_stack] in Em.
  change (array_obj (replicate (length []) None)) with (array_obj []). cbn [root_obj places map] in Em.
  destruct (ridx r =? 0); [|exact (f_equal (λ m, r ← m; Ok (REDIS_OK, r)) Em)].
  rewrite move_reply in Em. destruct (moveToNextTask _) as [r'|]; [|done]. rbind. by injection Em as <-.
Qed.

Lemma array_readable vs : Forall readable vs → readable (VArr vs).
Proof.
  intros Hvs r cur q t d Hd Hdep Hlen Hr Ht Hneg Hi Hq Hp.
  destruct d as [|k]; [done|]. destruct Hd as [Hn Hval].
  destruct vs as [|v vs]; [apply empty_array_read; done || lia|].
  destruct (array_header r cur q (v :: vs) t) as (i & Hr' & E); try done; [lia|].
  unfold mfin in E. cbn [fst snd] in E. set (n := zlen (v :: vs)) in *.
  assert (0 < n) as Hn0 by (subst n; rewrite zlen_cons; pose proof (zlen_nonneg vs); lia).
  rewrite (proj2 (Z.ltb_lt 0 n)) in E by done. cbn [mbind result_bind] in E. rewrite i32_small in E by lia.
  set (es := replicate (length (v :: vs)) None) in *.
  match type of E with _ = Ok (_, ?x) => set (r0 := x) in * end.
  assert (ridx r0 = ridx r + 1 ∧ rnext r0 = rnext r + 1 ∧
    rheap r0 = patched q (tidx cur) (rnext r) (<[rnext r := array_obj es]> (rheap r)) ∧
    rreply r0 = (if ridx r =? 0 then Some (rnext r) else rreply r) ∧
    rstack r0 = <[Z.to_nat (ridx r + 1) := {| ttype := -1; telements := -1; tidx := 0; tobj := None; tparent := Some (ridx r) |}]>
      (<[Z.to_nat (ridx r) := {| ttype := REDIS_REPLY_ARRAY; telements := n; tidx := tidx cur; tobj := Some (rnext r);
                                tparent := tparent cur |}]>
      (<[Z.to_nat (ridx r) := set_type REDIS_REPLY_ARRAY cur]> (rstack r))) ∧
    holds r0 (concat (map enc (v :: vs)) ++ t)) as (F1 & F2 & F3 & F4 & F5 & F6)
    by (subst r0; destruct (ridx r =? 0); split_and!; done).
  assert (at_element r0 (ridx r) 0 (rnext r) es) as Ha.
  { constructor; try lia.
    - by rewrite F5, !length_insert.
    - eexists. split; [apply task_at_lookup; [lia|]; rewrite F5; apply list_lookup_insert_eq; rewrite !length_insert; lia|done].
    - eexists. split.
      { apply task_at_lookup; [lia|]. rewrite F5, list_lookup_insert_ne by lia.
        apply list_lookup_insert_eq. rewrite length_insert. lia. }
      split; [done|]. split; [change (n = zlen es)|done]. unfold es, n, zlen. by rewrite length_replicate.
    - split; [lia|]. rewrite F3. apply patched_other; [|done]. intros pl es' Hpl. by apply (linkable_lt r cur q pl es').
    - subst es. unfold zlen. rewrite length_replicate. simpl. lia. }
  destruct (elements_read (v :: vs) Hvs r0 (ridx r) 0 (rnext r) es t k) as (r1 & Hr1 & He & Hm); try done; [|lia|].
  { subst es. unfold zlen. by rewrite length_replicate. }
  exists r1. split; [done|]. split; [|intros rm Em; eapply star_item; [done|exact E|by apply Hm]].
  destruct He as [E1 E2 E3 E4 E5 E6 E7 E8]. rewrite F2 in *. constructor.
  - done.
  - by rewrite E2, Hlen.
  - intros j Hj. rewrite E3, F5 by lia. by rewrite !list_lookup_insert_ne by lia.
  - eexists. split; [apply task_at_lookup; [lia|]; rewrite E3, F5, list_lookup_insert_ne by lia;
      apply list_lookup_insert_eq; rewrite length_insert; lia|done].
  - rewrite E4. cbn [size]. fold (sizes (v :: vs)). lia.
  - apply laid_eq. split; [by rewrite E6|done].
  - intros l Hl. rewrite E7, F3 by lia. by apply patched_below.
  - by rewrite E8.
Qed.

Lemma value_read v : readable v.
Proof. induction v as [v Hv|vs IH] using rval_nested; [by apply scalar_readable|by apply array_readable]. Qed.

(** ** Whole replies *)

(** A reader between two replies; a call that found no data leaves a fresh
    root task on the stack. *)
Definition ready (r : redisReader) : Prop :=
  holds r [] ∧ (ridx r = -1 ∨ ridx r = 0 ∧ task_at r 0 = Ok root_task) ∧ length (rstack r) = 9%nat ∧ rlen r ≤ 1024.

Lemma ready_start r :
  ready r → ridx (start r) = 0 ∧ task_at (start r) 0 = Ok root_task ∧ length (rstack (start r)) = 9%nat ∧
            rheap (start r) = rheap r ∧ rnext (start r) = rnext r ∧ rlen (start r) = rlen r ∧ holds (start r) [].
Proof.
  intros (Hr & Hi & Hlen & Hl). unfold start. destruct Hi as [E|[E Ht]]; rewrite E.
  - change (-1 =? -1) with true. cbv iota. split_and!; try done; [|cbn; by rewrite length_insert].
    apply task_at_lookup; [done|]. cbn. apply list_lookup_insert_eq. lia.
  - change (0 =? -1) with false. cbv iota. by split_and!.
Qed.

(** Without data there is no reply, and nothing changes. *)
Lemma get_reply_idle r :
  ready r → ∃ r', redisReaderGetReply r = Ok (REDIS_OK, None, r') ∧ ready r' ∧ rheap r' = rheap r ∧ rnext r' = rnext r.
Proof.
  intros Hready. pose proof Hready as (Hr & Hi & Hlen & Hl). destruct (ready_start r Hready) as (S1 & S2 & S3 & S4 & S5 & S6 & S7).
  unfold redisReaderGetReply. rewrite (proj1 Hr). cbn [Z.eqb negb].
  destruct (Z.eqb_spec (rlen r) 0) as [|Hne]; [by exists r|]. fold (start r). cbn [items_loop].
  rewrite S1. change (0 <? 0) with false. cbv iota.
  rewrite (processItem_untyped (start r) [] root_task S7); [|by rewrite S1|done]. rbind.
  change (negb (REDIS_ERR =? REDIS_OK)) with true. cbv iota. rbind. rewrite (proj1 S7). cbn [Z.eqb negb].
  destruct (discard_holds (start r) [] S7) as (rd & -> & Hrd & Hcd & Hld). rbind.
  injection Hcd as C1 C2 C3 C4 C5. rewrite C2, S1. change (0 =? -1) with false. cbv iota. exists rd. split; [done|].
  split; [|by rewrite C4, C5]. split; [done|]. split; [right; split; [by rewrite C2|]|].
  - unfold task_at in *. by rewrite C1.
  - rewrite C1. split; [done|]. change (zlen []) with 0 in Hld. lia.
Qed.

(** The pieces are fed one by one and the reply is asked for after each: the
    statuses of both calls and the reply. *)
Fixpoint feed_all (r : redisReader) (chunks : list bytes) : result (list (Z * Z * option loc) * redisReader) :=
  match chunks with
  | [] => Ok ([], r)
  | b :: chunks =>
      '(st, r) ← redisReaderFeed r b (zlen b);
      '(st', o, r) ← redisReaderGetReply r;
      '(os, r) ← feed_all r chunks;
      Ok ((st, st', o) :: os, r)
  end.

Definition answers (n : nat) (o : option loc) : list (Z * Z * option loc) :=
  replicate n (REDIS_OK, REDIS_OK, None) ++ [(REDIS_OK, REDIS_OK, o)].

Lemma start_core r r' : core r = core r' → core (start r) = core (start r').
Proof.
  intros Hc. injection Hc as E1 E2 E3 E4 E5. unfold start. rewrite E2.
  destruct (ridx r' =? -1); unfold core; cbn; by rewrite ?E1, ?E2, ?E3, ?E4, ?E5.
Qed.

Lemma feed_run chunks : ∀ r u rf,
  chunks ≠ [] → Forall (λ b, b ≠ []) chunks →
  holds r u → rlen r ≤ 1024 + zlen u → ridx rf = -1 → holds rf [] →
  1024 + zlen u + zlen (concat chunks) < LIMIT →
  (∀ r3, holds r3 (u ++ concat chunks) → core r3 = core (start r) → reaches r3 rf) →
  ∃ r', feed_all r chunks = Ok (answers (length chunks - 1) (rreply rf), r') ∧
        core r' = core (set_reply None rf) ∧ holds r' [] ∧ rlen r' ≤ 1024.
Proof.
  induction chunks as [|b bs IH]; intros r u rf Hne Hall Hr Hl Hi Hrf Hlim Hreach; [done|].
  apply Forall_cons in Hall as [Hb Hbs]. cbn [concat] in Hlim, Hreach. rewrite zlen_app in Hlim.
  pose proof (zlen_nonneg u). pose proof (zlen_nonneg (concat bs)).
  assert (0 < zlen b) as Hb0 by (destruct b; [done|rewrite zlen_cons; pose proof (zlen_nonneg b); lia]).
  destruct (feed_holds granted r u b Hr Hb0) as (r1 & E1 & Hr1 & Hc1 & Hl1); [lia|]. rewrite app_assoc in Hreach.
  assert (core (start r1) = core (start r)) as Hs by (by apply start_core).
  assert (0 < rlen r1) as Hpos.
  { destruct (holds_unread r1 _ Hr1) as (z & _ & Hu1 & Hp1 & _). rewrite zlen_app in Hu1. lia. }
  destruct (get_reply_run r1 (u ++ b) (concat bs) rf) as (o & r2 & E2 & Hcase); try done.
  { intros r3 H3 Hc3. apply Hreach; [done|]. congruence. }
  { assert (holds (start r1) (u ++ b)) as Hs1 by (unfold start; destruct (ridx r1 =? -1); exact Hr1).
    assert (rlen (start r1) = rlen r1) as Hls by (unfold start; by destruct (ridx r1 =? -1)).
    destruct (decide (concat bs = [])) as [E0|Hx].
    - exists (start r1). by rewrite E0, app_nil_r.
    - assert (0 < zlen (concat bs)) as Hx0.
      { destruct (concat bs) as [|c l]; [done|]. rewrite zlen_cons. pose proof (zlen_nonneg l). lia. }
      destruct (feed_holds granted (start r1) (u ++ b) (concat bs) Hs1 Hx0) as (r3 & _ & H3 & Hc3 & _); [lia|].
      by exists r3. }
  cbn [feed_all]. rewrite E1. rbind. rewrite E2. rbind.
  destruct Hcase as [(Ebs & -> & Hc2 & Hr2 & Hl2)|(Hx & -> & Hi2 & u' & Hr2 & Hl2 & Hu & Hgo)].
  - assert (bs = []) as -> by (destruct bs as [|[|c b'] bs]; [done|by apply Forall_cons in Hbs as []|done]).
    exists r2. by split.
  - assert (bs ≠ []) as Hbs0 by (by intros ->). rewrite zlen_app in Hu.
    destruct (IH r2 u' rf Hbs0 Hbs Hr2 Hl2 Hi Hrf) as (r' & E & Hrest); [lia| |].
    { intros r3 H3 Hc3. apply Hgo; [done|]. rewrite Hc3. unfold start. by rewrite (proj2 (Z.eqb_neq _ _)) by lia. }
    exists r'. split; [|done]. rewrite E. rbind. destruct bs as [|b' bs']; [done|]. cbn [length Nat.sub].
    by rewrite Nat.sub_0_r.
Qed.

(** The run that reads a value and leaves [t]. *)
Record value_end (r : redisReader) (v : rval) (t : bytes) (rf : redisReader) : Prop := {
  ve_holds : holds rf t;
  ve_ridx : ridx rf = -1;
  ve_stack : length (rstack rf) = 9%nat;
  ve_reply : rreply rf = Some (rnext r);
  ve_laid : laid (rheap rf) v (rnext r);
  ve_old : ∀ l, l < rnext r → rheap rf !! l = rheap r !! l;
  ve_next : rnext rf = rnext r + size v
}.

Lemma value_reaches r v t :
  holds r (enc v ++ t) → ridx r = 0 → length (rstack r) = 9%nat → task_at r 0 = Ok root_task → valid 8 v →
  ∃ rf, steps r rf ∧ value_end r v t rf.
Proof.
  intros Hr Hi Hlen Ht Hv.
  destruct (value_read v r root_task None t 8%nat Hv) as (r1 & Hr1 & Hd & Hm); try done; try lia.
  { by rewrite Hi. }
  destruct Hd as [D1 D2 D3 _ D5 D6 D7 D8]. exists (set_stack (rstack r1) (-1) r1). split.
  - apply star_steps; [|done]. apply Hm. with_strategy transparent [moveToNextTask] unfold moveToNextTask.
    rewrite move_loop_S, D1, Hi. done.
  - constructor; try done; cbn; [congruence|]. by rewrite D8, Hi.
Qed.

(** A reply read in pieces, without the bound that makes it a claim of its
    own: the shared lemma behind the theorems below. *)
Lemma reply_read r v chunks :
  ready r → valid 8 v → concat chunks = enc v → Forall (λ b, b ≠ []) chunks → 1024 + zlen (enc v) < LIMIT →
  ∃ r', feed_all r chunks = Ok (answers (length chunks - 1) (Some (rnext r)), r') ∧
        denotes (rheap r') v (rnext r) ∧ ready r' ∧ (∀ l, l < rnext r → rheap r' !! l = rheap r !! l) ∧
        rnext r' = rnext r + size v.
Proof.
  intros Hready Hv Hc Hne Hlim. pose proof Hready as (Hr & Hi & Hlen & Hl).
  destruct (ready_start r Hready) as (S1 & S2 & S3 & S4 & S5 & S6 & S7).
  assert (enc v ≠ []) as Hev by (by destruct v).
  assert (0 < zlen (enc v)) as Hpos by (destruct (enc v) as [|c l]; [done|rewrite zlen_cons; pose proof (zlen_nonneg l); lia]).
  destruct (feed_holds granted (start r) [] (enc v) S7 Hpos) as (r3 & _ & H3 & Hc3 & _); [lia|].
  cbn [app] in H3. pose proof Hc3 as Hcore. injection Hc3 as C1 C2 C3 C4 C5.
  destruct (value_reaches r3 v []) as (rf & Hst & [Hrf Hif Hlf Hre Hden%laid_denotes Hold Hnx]); try done.
  { by rewrite app_nil_r. } { by rewrite C2. } { by rewrite C1. } { unfold task_at in *. by rewrite C1. }
  rewrite C5, C4, S4, S5 in *. destruct (feed_run chunks r [] rf) as (r' & E & Hc' & Hr' & Hl'); try done.
  { intros ->. by apply Hev. } { by rewrite Hc. }
  { intros r4 H4 Hc4. apply (steps_same r3 rf Hst r4 (enc v)); [by rewrite <- Hc|done|]. by rewrite Hc4. }
  injection Hc' as G1 G2 G3 G4 G5. cbn in G1, G2, G3, G4, G5. exists r'. rewrite E, Hre, G4, G5.
  split; [done|]. split; [done|]. split; [|done]. split; [done|]. split; [left; congruence|]. by rewrite G1.
Qed.

(** C22: a reply value of up to eight nested arrays, encoded by the protocol and received
    in any non-empty pieces, is read back exactly: [redisReaderFeed] and [redisReaderGetReply]
    succeed on every piece, no reply is returned before the last piece, the one returned
    then denotes the value, the objects of earlier replies are unchanged, and the reader is
    ready for the next reply. *)
Theorem reply_any_chunks r v chunks :
  ready r → valid 8 v → concat chunks = enc v → Forall (λ b, b ≠ []) chunks → 1024 + zlen (enc v) < LIMIT →
  ∃ l r', feed_all r chunks = Ok (answers (length chunks - 1) (Some l), r') ∧ denotes (rheap r') v l ∧ ready r' ∧
          ∀ l', l' < rnext r → rheap r' !! l' = rheap r !! l'.
Proof.
  intros. destruct (reply_read r v chunks) as (r' & ? & ? & ? & ? & _); try done. eauto 10.
Qed.
End read_value.

#[local] Existing Instance calloc_all.

Lemma created_ready : ∃ r, redisReaderCreate = Ok (Some r) ∧ ridx r = -1 ∧ ready r.
Proof.
  destruct (@sdsempty_repr calloc_all (λ _, eq_refl)) as (s & E & Hs). unfold redisReaderCreate. cbn [malloc_ok calloc_all negb].
  rewrite E. rbind. eexists. split; [done|]. split; [done|]. split; [|split_and!; by try left]. split; [done|]. exists s, []. by split_and!.
Qed.

Lemma reply_any_chunks_witness :
  let v := VArr [VInt 7; VArr [VStr (str "ab"); VNil]] in
  let chunks := [str "*2"; crlf ++ str ":7" ++ [CR]; [LF] ++ str "*2" ++ crlf ++ str "$2" ++ crlf ++ str "a";
                 str "b" ++ crlf ++ str "$-1" ++ crlf] in
  ∃ r l r', redisReaderCreate = Ok (Some r) ∧
    feed_all r chunks = Ok (answers 3 (Some l), r') ∧ denotes (rheap r') v l.
Proof.
  intros v chunks. destruct created_ready as (r & Er & _ & Hr).
  destruct (@reply_any_chunks calloc_all (λ _, eq_refl) r v chunks) as (l & r' & E & Hd & _).
  - exact Hr.
  - vm_compute. repeat constructor; done.
  - vm_compute. reflexivity.
  - subst chunks. repeat (apply Forall_cons; split; [done|]). by apply Forall_nil.
  - vm_compute. reflexivity.
  - exists r, l, r'. split; [exact Er|]. split; [exact E|exact Hd].
Defined.

(** ** Replies of a server that does not follow the protocol *)

(** What one call of each gives for the bytes, with a new reader: the two
    statuses, the object at the reply, and the error. *)
Definition read_once (b : bytes) : result (Z * Z * option redisReply * Z * bytes) :=
  r ← redisReaderCreate;
  match r with
  | None => Fault AssertFailed
  | Some r =>
      '(st, r) ← redisReaderFeed r b (zlen b);
      '(st', o, r) ← redisReaderGetReply r;
      Ok (st, st', l ← o; rheap r !! l, rerr r, errstr r)
  end.

(** array lengths and bulk lengths are not checked. An array length of 2^32 wraps to
    an array of no elements, the element that follows is then stored through its NULL
    vector; a length of -2 gives an array object that claims 2^64 - 2 elements and has no
    vector; a bulk length of 2^63 - 1 overflows [len+2]. *)
Theorem hostile_lengths :
  read_once (str "*4294967296" ++ crlf ++ str ":1" ++ crlf) = Fault OutOfBounds ∧
  (∃ o, read_once (str "*-2" ++ crlf) = Ok (REDIS_OK, REDIS_OK, Some o, 0, []) ∧
        rtype o = REDIS_REPLY_ARRAY ∧ relements o = 2 ^ 64 - 2 ∧ relement o = None) ∧
  read_once (str "$9223372036854775807" ++ crlf) = Fault IntOverflow.
Proof. split; [by vm_compute|]. split; [|by vm_compute]. eexists. split_and!; by vm_compute. Qed.

(** errors are latched. After a byte that starts no reply type, the reader reports
    REDIS_ERR_PROTOCOL and names the byte, drops its buffer, and refuses further data
    and further calls with the same error. *)
Theorem protocol_error_latched `{Malloc} r c u :
  holds r (c :: u) → ridx r = -1 → (0 < length (rstack r))%nat → reply_type c = None →
  ∃ r', redisReaderGetReply r = Ok (REDIS_ERR, None, r') ∧ rerr r' = REDIS_ERR_PROTOCOL ∧ rbuf r' = None ∧
        errstr r' = str "Protocol error, got " ++ snprintf 8 (chrtos c) ++ str " as reply type byte" ∧
        (∀ b n, redisReaderFeed r' b n = Ok (REDIS_ERR, r')) ∧ redisReaderGetReply r' = Ok (REDIS_ERR, None, r').
Proof.
  intros Hr Hi Hlen Hc. destruct (holds_unread r _ Hr) as (z & _ & Hl & Hp & _). rewrite zlen_cons in Hl.
  pose proof (zlen_nonneg u). unfold redisReaderGetReply at 1. rewrite (proj1 Hr). cbn [Z.eqb negb].
  rewrite (proj2 (Z.eqb_neq (rlen r) 0)) by lia. rewrite Hi. change (-1 =? -1) with true. cbv iota.
  set (r0 := set_stack _ 0 r). assert (holds r0 (c :: u)) as Hr0 by exact Hr.
  cbn [items_loop]. change (ridx r0 <? 0) with false. cbv iota.
  rewrite (processItem_untyped r0 (c :: u) root_task Hr0); [|apply task_at_lookup; [done|]; by apply list_lookup_insert_eq|done].
  rewrite Hc. rbind. change (negb (REDIS_ERR =? REDIS_OK)) with true. cbv iota. rbind.
  eexists. split; [done|]. split; [done|]. split; [done|]. split; [|done].
  unfold SetErrorProtocolByte, SetError. cbn [errstr]. unfold snprintf.
  assert (length (take (Z.to_nat (8 - 1)) (chrtos c)) ≤ 7)%nat by (rewrite length_take; lia).
  set (w := take _ (chrtos c)) in *. assert (∀ n : nat, (61 ≤ n)%nat → take n (str "Protocol error, got " ++ w ++ str " as reply type byte")
    = str "Protocol error, got " ++ w ++ str " as reply type byte") as Ht.
  { intros n Hn. apply take_ge. rewrite !length_app. change (length (str "Protocol error, got ")) with 20%nat.
    change (length (str " as reply type byte")) with 19%nat. lia. }
  rewrite !Ht by (simpl; lia). done.
Qed.

Lemma protocol_error_latched_witness :
  ∃ r r', holds r (str "hello") ∧ redisReaderGetReply r = Ok (REDIS_ERR, None, r') ∧
    rerr r' = REDIS_ERR_PROTOCOL ∧
    errstr r' = str "Protocol error, got " ++ [34; 104; 34] ++ str " as reply type byte".
Proof.
  destruct created_ready as (r0 & _ & Hi & Hr0 & _ & Hlen & Hl).
  destruct (@feed_holds calloc_all (λ _, eq_refl) r0 [] (str "hello") Hr0) as (r & _ & Hr & Hc & _).
  { reflexivity. }
  { change (zlen (str "hello")) with 5. change LIMIT with 2145386496. lia. }
  injection Hc as E1 E2 E3 E4 E5.
  destruct (protocol_error_latched r 104 (str "ello")) as (r' & E & He & _ & Hm & _).
  - exact Hr.
  - rewrite E2. exact Hi.
  - rewrite E1, Hlen. lia.
  - reflexivity.
  - exists r, r'. split; [exact Hr|]. split; [exact E|]. split; [exact He|]. rewrite Hm. reflexivity.
Defined.
