(* ===== verification/ReadStream.v ===== *)
(** * Pipelined replies (theorems about Read.v)

    A stream of encoded values arrives in pieces that need not end where a
    value ends. The reader returns the values in order, each as soon as its
    bytes are there, and a reply can be freed once it was used. *)

From S2P Require Import Prelude Cstd Cmem Sds SdsSpec Read ReadSpec ReadValue.
Import Sds Read.

(** ** Freeing a reply *)

Definition free_elements (depth : nat) : list (option loc) → gmap loc redisReply → result (gmap loc redisReply) :=
  fix go es h :=
    match es with
    | [] => Ok h
    | None :: es => go es h
    | Some e :: es => h ← free_reply depth h e; go es h
    end.

Lemma free_reply_S depth h l :
  free_reply (S depth) h l =
    (r ← nn (h !! l);
     h ← (if rtype r =? REDIS_REPLY_ARRAY then
            match relement r with
            | None => Ok h
            | Some es =>
                if zlen es <? relements r then Fault OutOfBounds
                else free_elements depth (take (Z.to_nat (relements r)) es) h
            end
          else Ok h);
     Ok (delete l h)).
Proof. done. Qed.

(** Freeing touches only the objects of the reply. *)
Definition frees (f : result (gmap loc redisReply)) (h : gmap loc redisReply) (l n : Z) : Prop :=
  ∃ h', f = Ok h' ∧ ∀ k, ¬ (l ≤ k < l + n) → h' !! k = h !! k.

Lemma free_laid_all depth vs :
  Forall (λ v, ∀ h l, laid h v l → frees (free_reply depth h l) h l (size v)) vs →
  ∀ h l, laid_all h vs l → frees (free_elements depth (map Some (places vs l)) h) h l (sizes vs).
Proof.
  induction 1 as [|v vs Hv _ IH]; intros h l Hl; [by exists h|]. destruct Hl as [Hl Hls].
  cbn [places map free_elements]. destruct (Hv h l Hl) as (h1 & -> & H1). rbind.
  pose proof (size_pos v). pose proof (sizes_nonneg vs). change (sizes (v :: vs)) with (size v + sizes vs).
  destruct (IH h1 (l + size v)) as (h2 & E & H2).
  { eapply laid_all_frame; [exact Hls|]. intros k Hk. apply H1. lia. }
  exists h2. split; [exact E|]. intros k Hk. rewrite H2, H1; [done|lia|lia].
Qed.

Lemma places_length vs l : length (places vs l) = length vs.
Proof. revert l. induction vs as [|v vs IH]; intros l; simpl; [done|]. by rewrite IH. Qed.

Lemma free_laid v : ∀ d depth h l, valid d v → (d < depth)%nat → laid h v l → frees (free_reply depth h l) h l (size v).
Proof.
  induction v as [v Hv|vs IH] using rval_nested; intros d depth h l Hval Hd Hl;
    (destruct depth as [|depth]; [lia|]); rewrite free_reply_S; apply laid_eq in Hl as [Hl Hvs]; rewrite Hl; cbn [nn]; rbind.
  - assert ((rtype (root_obj v l) =? REDIS_REPLY_ARRAY) = false) as -> by (destruct v; try done; by destruct (Hv vs)). rbind.
    exists (delete l h). split; [done|]. intros k Hk. pose proof (size_pos v). apply lookup_delete_ne. lia.
  - destruct d as [|d]; [done|]. destruct Hval as [_ Hval].
    change (rtype (root_obj (VArr vs) l) =? REDIS_REPLY_ARRAY) with true. cbv iota.
    assert (frees (free_elements depth (map Some (places vs (l + 1))) h) h (l + 1) (sizes vs)) as (h1 & E & H1).
    { apply free_laid_all; [|done]. clear Hl Hvs. induction IH as [|v vs Hv _ IH]; constructor.
      - cbn [map] in Hval. apply Forall_cons in Hval as [Hval _]. intros h' l'. apply (Hv d); [done|lia].
      - apply IH. cbn [map] in Hval. by apply Forall_cons in Hval as []. }
    assert (match relement (root_obj (VArr vs) l) with
            | None => Ok h
            | Some es => if zlen es <? relements (root_obj (VArr vs) l) then Fault OutOfBounds
                         else free_elements depth (take (Z.to_nat (relements (root_obj (VArr vs) l))) es) h
            end = Ok h1) as ->.
    { cbn [root_obj relement relements array_obj]. destruct (map Some (places vs (l + 1))) as [|e es] eqn:Ees; [done|].
      rewrite Z.ltb_irrefl, to_nat_zlen, take_ge by lia. exact E. }
    rbind. exists (delete l h1). split; [done|]. cbn [size]. fold (sizes vs). pose proof (sizes_nonneg vs). intros k Hk.
    rewrite lookup_delete_ne by lia. apply H1. lia.
Qed.

Lemma free_read h v l : valid 8 v → laid h v l → ∃ h', freeReplyObject h (Some l) = Ok h'.
Proof. intros Hv Hl. destruct (free_laid v 8 10 h l Hv) as (h' & E & _); [lia|done|]. by exists h'. Qed.

(** ** Streams *)

Lemma start_ridx r r' : core r = core r' → ridx (start r) = ridx (start r').
Proof. intros Hc%start_core. by injection Hc. Qed.

Definition encs (vs : list rval) : bytes := concat (map enc vs).

Section stream.
Context `{Malloc}.
Hypothesis granted : ∀ n, malloc_ok n = true.

Lemma extend r u x :
  holds r u → rlen r ≤ 1024 + zlen u → 1024 + zlen u + zlen x < LIMIT → ∃ r3, holds r3 (u ++ x) ∧ core r3 = core r.
Proof.
  intros Hr Hl Hlim. pose proof (zlen_nonneg x). destruct (decide (x = [])) as [->|Hx]; [exists r; by rewrite app_nil_r|].
  assert (0 < zlen x) by (destruct x as [|c l]; [done|rewrite zlen_cons; pose proof (zlen_nonneg l); lia]).
  destruct (feed_holds granted r u x Hr) as (r3 & _ & ? & ? & _); [done|lia|]. by exists r3.
Qed.

(** A reader that expects the first byte of a reply. *)
Definition boundary (r : redisReader) : Prop :=
  (ridx r = -1 ∨ ridx r = 0 ∧ task_at r 0 = Ok root_task) ∧ length (rstack r) = 9%nat.

(** The value [v] is on its way: some of its bytes are in the buffer, [x] is
    still to arrive, and behind the value there is [t]. *)
Definition coming (r : redisReader) (v : rval) (t x : bytes) : Prop :=
  ∃ u r0 rf, 0 ≤ ridx (start r) ∧ u ++ x ≠ [] ∧ holds r u ∧ rlen r ≤ 1024 + zlen u ∧ 1024 + zlen u + zlen x < LIMIT ∧ value_end r0 v t rf ∧
    ∀ r3, holds r3 (u ++ x) → core r3 = core (start r) → reaches r3 rf.

(** What is in the buffer and the bytes [x] to come are the rest of the
    encodings of [vs]. *)
Definition streams (r : redisReader) (vs : list rval) (x : bytes) : Prop :=
  match vs with
  | [] => x = [] ∧ ready r
  | v :: vs => coming r v (encs vs) x ∧ Forall (valid 8) (v :: vs) ∧ 1024 + zlen (encs vs) < LIMIT
  end.

Lemma boundary_start r :
  boundary r → ridx (start r) = 0 ∧ task_at (start r) 0 = Ok root_task ∧ length (rstack (start r)) = 9%nat.
Proof.
  intros [Hi Hlen]. unfold start. destruct Hi as [E|[E Ht]]; rewrite E.
  - change (-1 =? -1) with true. cbv iota. split_and!; try done; [|cbn; by rewrite length_insert].
    apply task_at_lookup; [done|]. cbn. apply list_lookup_insert_eq. lia.
  - change (0 =? -1) with false. cbv iota. by split_and!.
Qed.

Lemma coming_start r u v t x :
  boundary r → holds r u → rlen r ≤ 1024 + zlen u → u ++ x = enc v ++ t → valid 8 v →
  1024 + zlen u + zlen x < LIMIT → coming r v t x.
Proof.
  intros Hb Hr Hl Eux Hv Hlim. destruct (boundary_start r Hb) as (S1 & S2 & S3).
  assert (holds (start r) u) as Hrs by (unfold start; destruct (ridx r =? -1); exact Hr).
  destruct (extend (start r) u x Hrs) as (r3 & H3 & Hc3); [unfold start; by destruct (ridx r =? -1)|done|].
  pose proof Hc3 as Hc. injection Hc as C1 C2 C3 C4 C5.
  destruct (value_reaches granted r3 v t) as (rf & Hst & Hend); try done; [by rewrite <- Eux|congruence|congruence| |].
  { unfold task_at in *. by rewrite C1. }
  exists u, r3, rf. split; [lia|]. split; [rewrite Eux; by destruct v|]. do 4 (split; [done|]). intros r4 H4 Hc4. apply (steps_same r3 rf Hst r4 (u ++ x)); try done. congruence.
Qed.

(** A reader between replies whose unread bytes and the rest [x] are [vs]. *)
Lemma streams_start r u vs x :
  boundary r → holds r u → rlen r ≤ 1024 + zlen u → u ++ x = encs vs → Forall (valid 8) vs →
  1024 + zlen (encs vs) < LIMIT → streams r vs x.
Proof.
  intros Hb Hr Hl Eux Hv Hlim. destruct vs as [|v vs].
  - apply app_nil in Eux as [-> ->]. split; [done|]. destruct Hb. change (zlen []) with 0 in Hl. split_and!; done || lia.
  - assert (zlen (encs (v :: vs)) = zlen u + zlen x) as Hz by (by rewrite <- Eux, zlen_app).
    change (encs (v :: vs)) with (enc v ++ encs vs) in *. rewrite zlen_app in Hz, Hlim. pose proof (zlen_nonneg (enc v)).
    split; [|split; [done|lia]]. apply Forall_cons in Hv as [Hv _]. apply (coming_start r u); try done. lia.
Qed.

Lemma streams_feed r vs b x :
  b ≠ [] → streams r vs (b ++ x) →
  ∃ r', redisReaderFeed r b (zlen b) = Ok (REDIS_OK, r') ∧ streams r' vs x.
Proof.
  intros Hb Hs. destruct vs as [|v vs]; [by destruct Hs as [[]%app_nil _]|].
  destruct Hs as ((u & r0 & rf & Hix & Hne & Hr & Hl & Hlim & Hend & Hgo) & Hv & Ht). rewrite zlen_app in Hlim.
  assert (0 < zlen b) as Hb0 by (destruct b as [|c b]; [done|rewrite zlen_cons; pose proof (zlen_nonneg b); lia]).
  pose proof (zlen_nonneg x). pose proof (zlen_nonneg u).
  destruct (feed_holds granted r u b Hr Hb0) as (r' & E & Hr' & Hc' & Hl'); [lia|].
  exists r'. split; [done|]. split; [|done]. exists (u ++ b), r0, rf. rewrite zlen_app, <- app_assoc.
  split; [by rewrite (start_ridx r' r)|]. do 2 (split; [done|]).
  split; [lia|]. split; [lia|]. split; [done|]. intros r3 H3 Hc3. apply Hgo; [done|].
  rewrite Hc3. by apply start_core.
Qed.

(** The number of bytes in the buffer that are not yet read. *)
Definition waiting (r : redisReader) : nat := Z.to_nat (rlen r - rpos r).

Lemma holds_waiting r u : holds r u → waiting r = length u.
Proof. intros Hr. destruct (holds_unread r u Hr) as (_ & _ & E & _). unfold waiting, zlen in *. lia. Qed.

(** Asking for a reply gives the next value, whose objects are in the heap
    and which may be freed, or says that more data is needed. *)
Lemma streams_get r vs x :
  streams r vs x →
  ∃ o r', redisReaderGetReply r = Ok (REDIS_OK, o, r') ∧
    match o with
    | Some l =>
        ∃ v vs', vs = v :: vs' ∧ valid 8 v ∧ laid (rheap r') v l ∧ (waiting r' < waiting r)%nat ∧
          ∀ h, streams (set_heap h (rnext r') r') vs' x
    | None => streams r' vs x ∧ (x = [] → vs = [])
    end.
Proof.
  intros Hs. destruct vs as [|v vs].
  { destruct Hs as [-> Hready]. destruct (get_reply_idle r Hready) as (r' & E & Hr' & _). exists None, r'. by split_and!. }
  destruct Hs as ((u & r0 & rf & Hix & Hne & Hr & Hl & Hlim & Hend & Hgo) & Hv & Ht).
  pose proof (zlen_nonneg u). pose proof (zlen_nonneg x).
  destruct (Z.eq_dec (rlen r) 0) as [E0|E0].
  { exists None, r. split; [unfold redisReaderGetReply; by rewrite (proj1 Hr), E0|].
    destruct (holds_unread r u Hr) as (z & _ & Eu & Hp & _). assert (u = []) as -> by (apply zlen_0_inv; lia).
    split; [|done]. split; [|done]. by exists [], r0, rf. }
  assert (holds (start r) u) as Hrs by (unfold start; destruct (ridx r =? -1); exact Hr).
  destruct (extend (start r) u x Hrs) as (r3 & H3 & Hc3); [unfold start; by destruct (ridx r =? -1)|done|].
  destruct (holds_unread r u Hr) as (z & _ & Eu & Hp & _).
  destruct (get_reply_step r u x rf (encs vs) Hr ltac:(lia) (ve_ridx _ _ _ _ Hend) (ve_holds _ _ _ _ Hend) Hgo)
    as (o & r' & E & Hcase); [by exists r3|]. exists o, r'. split; [done|].
  destruct Hcase as [(-> & Hc & u' & Hu' & Et & Hl' & Hle)|(Hx & -> & Hi & u' & Hu' & Hl' & Hle & Hgo')].
  - rewrite (ve_reply _ _ _ _ Hend). injection Hc as C1 C2 C3 C4 C5. cbn in C1, C2, C3, C4, C5.
    apply Forall_cons in Hv as [Hv Hvs]. exists v, vs. split; [done|]. split; [done|].
    split; [rewrite C4; apply Hend|]. split; [rewrite (holds_waiting r u), (holds_waiting r' u') by done; specialize (Hle Hix); unfold zlen in Hle; lia|].
    intros h. apply (streams_start _ u'); try done. split; [left; rewrite <- (ve_ridx _ _ _ _ Hend)|rewrite <- (ve_stack _ _ _ _ Hend)];
      done || by f_equal.
  - split; [|done]. split; [|done]. exists u', r0, rf.
    split; [unfold start; by rewrite (proj2 (Z.eqb_neq _ _)) by lia|]. split; [by intros [_ ?]%app_nil|]. do 2 (split; [done|]).
    split; [lia|]. split; [done|]. intros r4 H4 Hc4. apply Hgo'; [done|]. rewrite Hc4. unfold start.
    by rewrite (proj2 (Z.eqb_neq _ _)) by lia.
Qed.

End stream.
