(* ===== verification/Hiredis.v ===== *)
(** * The blocking client (pack/hiredis/hiredis.c, hiredis.h)

    Commands are formatted into the protocol's array of bulk strings, appended
    to the output buffer of a context, written to the socket and answered by
    the reply parser. The socket is a script of what its calls return; a call
    that is still waiting when the script ends is [None]. *)

From S2P Require Import Prelude Cstd Cmem Sds Read.

Module Hiredis.
Import Sds Read.

(** ** Formatting commands *)

(** [countDigits]: a 64-bit number has at most 20 digits, five rounds. *)
Fixpoint digits_rounds (fuel : nat) (v result : Z) : Z :=
  match fuel with
  | O => result
  | S fuel =>
      if v <? 10 then result
      else if v <? 100 then u32 (result + 1)
      else if v <? 1000 then u32 (result + 2)
      else if v <? 10000 then u32 (result + 3)
      else digits_rounds fuel (v / 10000) (u32 (result + 4))
  end.
Definition countDigits (v : Z) : Z := digits_rounds 6 v 1.

Definition bulklen (len : Z) : Z := u64 (u32 (u32 (1 + countDigits len) + 2) + len + 2).

(** The variable arguments of a command: a pointer to a block, or a number. *)
Inductive va := VaPtr (b : bytes) | VaInt (z : Z) | VaLong (z : Z) | VaLongLong (z : Z) | VaSize (z : Z) | VaDouble (bits : Z).

(** What [vsnprintf] prints for one conversion, and the text of [errno]. *)
Class Libc := {
  printf_conv : bytes → list va → bytes;
  strerror : Z → bytes
}.

Definition intfmts : bytes := str "diouxX".
Definition fltfmts : bytes := str "eEfFgGaA".
Definition fmtflags : bytes := str "#0-+ ".

(** Skips characters that satisfy [f], but not the terminator. *)
Fixpoint skip_while (f : Z → bool) (p : bytes) : result bytes :=
  match p with
  | [] => Fault OutOfBounds
  | c :: p' => if negb (c =? 0) && f c then skip_while f p' else Ok p
  end.

(** The type of the argument a conversion takes. *)
Inductive va_kind := KInt | KLong | KLongLong | KDouble.

Definition skip_spec (p : bytes) : result bytes :=
  p ← skip_while (strchr fmtflags) p;
  p ← skip_while isdigit p;
  c ← load p 0;
  if c =? 46 then skip_while isdigit (drop 1 p) else Ok p.

(** The character after a size modifier. *)
Definition sized (k : va_kind) (p : bytes) : result (option (va_kind * bytes)) :=
  c ← load p 0;
  Ok (if negb (c =? 0) && strchr intfmts c then Some (k, p) else None).

(** The conversion at [p]; the terminator is found in both lists of
    conversion characters. *)
Definition classify (p : bytes) : result (option (va_kind * bytes)) :=
  c ← load p 0;
  if strchr intfmts c then Ok (Some (KInt, p))
  else if strchr fltfmts c then Ok (Some (KDouble, p))
  else
    d ← load p 1;
    if (c =? 104) && (d =? 104) then sized KInt (drop 2 p)
    else if c =? 104 then sized KInt (drop 1 p)
    else if (c =? 108) && (d =? 108) then sized KLongLong (drop 2 p)
    else if c =? 108 then sized KLong (drop 1 p)
    else Ok None.

(** [va_arg] of the kind. *)
Definition va_take (k : va_kind) (ap : list va) : result (list va) :=
  match k, ap with
  | KInt, VaInt _ :: ap | KLong, VaLong _ :: ap | KLongLong, VaLongLong _ :: ap | KDouble, VaDouble _ :: ap => Ok ap
  | _, _ => Fault OutOfBounds
  end.

Section hiredis.
Context `{Malloc} `{Libc}.

(** The outcome of one conversion: the string ([None] when memory is short),
    the arguments left, and the format from [c+2] on, or a format error. *)
Definition conversion (curarg : sds) (c : bytes) (ap : list va) : result (option (option sds * list va * bytes)) :=
  next ← load c 1;
  if next =? 115 (* s *) then
    match ap with
    | VaPtr arg :: ap =>
        size ← strlen arg;
        n ← (if 0 <? size then sdscatlen curarg arg size else Ok (Some curarg));
        Ok (Some (n, ap, drop 2 c))
    | _ => Fault OutOfBounds
    end
  else if next =? 98 (* b *) then
    match ap with
    | VaPtr arg :: VaSize size :: ap =>
        n ← (if 0 <? size then sdscatlen curarg arg size else Ok (Some curarg));
        Ok (Some (n, ap, drop 2 c))
    | _ => Fault OutOfBounds
    end
  else if next =? 37 then n ← sdscat curarg (str "%"); Ok (Some (n, ap, drop 2 c))
  else
    p ← skip_spec (drop 1 c);
    k ← classify p;
    match k with
    | None => Ok None
    | Some (k, p) =>
        ap' ← va_take k ap;
        let l := zlen c - zlen p + 1 in
        if l <? 14 then
          fmt ← slice c 0 l;
          n ← sdscatvprintf curarg (printf_conv (cstr fmt) ap);
          Ok (Some (n, ap', drop 1 p))
        else Ok (Some (Some curarg, ap', drop 2 c))
    end.

(** The arguments finished so far and their total length on the wire. *)
Record fmt_state := { fargv : list sds; ftotlen : Z; fcur : sds; ftouched : bool }.

(** [realloc(curargv,...)], [curargv[argc++] = curarg] and [totlen += ...]. *)
Definition push_arg (st : fmt_state) : result (option (list sds * Z)) :=
  let argc := zlen (fargv st) in
  if negb (malloc_ok (8 * (argc + 1))) then Ok None
  else Ok (Some (fargv st ++ [fcur st], i32 (u64 (ftotlen st + bulklen (sdslen (fcur st)))))).

Inductive fmt_end := FmtOk (st : fmt_state) | FmtErr (e : Z).

(** The loop over the format, which ends in its terminator. *)
Fixpoint format_loop (fuel : nat) (c : bytes) (ap : list va) (st : fmt_state) : result fmt_end :=
  match fuel with
  | O => Fault OutOfBounds
  | S fuel =>
      x ← load c 0;
      if x =? 0 then Ok (FmtOk st)
      else
        y ← load c 1;
        if negb (x =? 37) || (y =? 0) then
          if x =? 32 then
            if ftouched st then
              p ← push_arg st;
              match p with
              | None => Ok (FmtErr (-1))
              | Some (argv, totlen) =>
                  e ← sdsempty;
                  match e with
                  | None => Ok (FmtErr (-1))
                  | Some e =>
                      format_loop fuel (drop 1 c) ap
                        {| fargv := argv; ftotlen := totlen; fcur := e; ftouched := false |}
                  end
              end
            else format_loop fuel (drop 1 c) ap st
          else
            n ← sdscatlen (fcur st) c 1;
            match n with
            | None => Ok (FmtErr (-1))
            | Some n =>
                format_loop fuel (drop 1 c) ap
                  {| fargv := fargv st; ftotlen := ftotlen st; fcur := n; ftouched := true |}
            end
        else
          r ← conversion (fcur st) c ap;
          match r with
          | None => Ok (FmtErr (-2))
          | Some (None, _, _) => Ok (FmtErr (-1))
          | Some (Some n, ap, c) =>
              format_loop fuel c ap {| fargv := fargv st; ftotlen := ftotlen st; fcur := n; ftouched := true |}
          end
  end.

(** [sprintf(cmd+pos, ...)]: the text and its terminator. *)
Definition sprintf (cmd : bytes) (pos : Z) (text : bytes) : result (bytes * Z) :=
  b ← blit cmd pos (text ++ [0]); Ok (b, zlen text).

(** One argument [len] bytes long, as a bulk string. *)
Definition emit_arg (cmd : bytes) (pos : Z) (arg : bytes) (len : Z) : result (bytes * Z) :=
  '(cmd, n) ← sprintf cmd pos (str "$" ++ udec len ++ crlf);
  pos ← int_of (pos + n);
  cmd ← memcpy cmd pos arg len;
  let pos := i32 (u64 (pos + len)) in
  cmd ← store cmd pos CR;
  pos ← int_of (pos + 1);
  cmd ← store cmd pos LF;
  pos ← int_of (pos + 1);
  Ok (cmd, pos).

Fixpoint emit_args (cmd : bytes) (pos : Z) (args : list (bytes * Z)) : result (bytes * Z) :=
  match args with
  | [] => Ok (cmd, pos)
  | (arg, len) :: args => '(cmd, pos) ← emit_arg cmd pos arg len; emit_args cmd pos args
  end.

(** The command at protocol level: the end of [redisvFormatCommand] and of
    [redisFormatCommandArgv]. *)
Definition build_command (argc totlen : Z) (args : list (bytes * Z)) : result (Z * option bytes) :=
  size ← int_of (totlen + 1);
  if negb (malloc_ok (u64 size)) then Ok (-1, None)
  else
    '(cmd, pos) ← sprintf (junk (Z.to_nat (u64 size))) 0 (str "*" ++ sdec argc ++ crlf);
    '(cmd, pos) ← emit_args cmd pos args;
    if negb (pos =? totlen) then Fault AssertFailed
    else cmd ← store cmd pos 0; Ok (totlen, Some cmd).

(** [redisvFormatCommand]: the length and the command, or -1 when memory is
    short and -2 for a bad format. [format] has its terminator. *)
Definition redisvFormatCommand (format : bytes) (ap : list va) : result (Z * option bytes) :=
  e ← sdsempty;
  match e with
  | None => Ok (-1, None)
  | Some e =>
      r ← format_loop (length format) format ap {| fargv := []; ftotlen := 0; fcur := e; ftouched := false |};
      match r with
      | FmtErr e => Ok (e, None)
      | FmtOk st =>
          p ← (if ftouched st then push_arg st else Ok (Some (fargv st, ftotlen st)));
          match p with
          | None => Ok (-1, None)
          | Some (argv, totlen) =>
              let argc := zlen argv in
              let totlen := i32 (u32 (totlen + u32 (u32 (1 + countDigits argc) + 2))) in
              build_command argc totlen (map (λ s, (buf s, sdslen s)) argv)
          end
      end
  end.

Definition redisFormatCommand (format : bytes) (ap : list va) : result (Z * option bytes) :=
  '(len, cmd) ← redisvFormatCommand format ap;
  Ok (if len <? 0 then -1 else len, cmd).

(** The arguments with their lengths: the ones given, or [strlen]. *)
Fixpoint arg_lens (argv : list bytes) (argvlen : option (list Z)) : result (list (bytes * Z)) :=
  match argv with
  | [] => Ok []
  | a :: argv =>
      '(n, rest) ← match argvlen with
                   | None => n ← strlen a; Ok (n, None)
                   | Some (n :: ns) => Ok (n, Some ns)
                   | Some [] => Fault OutOfBounds
                   end;
      l ← arg_lens argv rest;
      Ok ((a, n) :: l)
  end.

Definition redisFormatCommandArgv (argv : list bytes) (argvlen : option (list Z)) : result (Z * option bytes) :=
  let argc := zlen argv in
  args ← arg_lens argv argvlen;
  let totlen := foldl (λ t a, i32 (u64 (t + bulklen a.2))) (i32 (u32 (u32 (1 + countDigits argc) + 2))) args in
  build_command argc totlen args.

(** The calls that append an argument; none of the results is checked. *)
Fixpoint sds_args (cmd : sds) (args : list (bytes * Z)) : result sds :=
  match args with
  | [] => Ok cmd
  | (arg, len) :: args =>
      cmd ← sdscatfmt cmd (str "$%T" ++ crlf) [FULongLong len];
      o ← sdscatlen cmd arg len;
      cmd ← nn o;
      o ← sdscatlen cmd crlf 2;
      cmd ← nn o;
      sds_args cmd args
  end.

Definition redisFormatSdsCommandArgv (argv : list bytes) (argvlen : option (list Z)) : result (Z * option sds) :=
  let argc := zlen argv in
  args ← arg_lens argv argvlen;
  let totlen := foldl (λ t a, u64 (t + bulklen a.2)) (u32 (u32 (1 + countDigits argc) + 2)) args in
  e ← sdsempty;
  match e with
  | None => Ok (-1, None)
  | Some e =>
      o ← sdsMakeRoomFor e totlen;
      match o with
      | None => Ok (-1, None)
      | Some cmd =>
          cmd ← sdscatfmt cmd (str "*%i" ++ crlf) [FInt argc];
          cmd ← sds_args cmd args;
          if negb (sdslen cmd =? totlen) then Fault AssertFailed else Ok (i32 totlen, Some cmd)
      end
  end.

(** ** The context *)

Definition REDIS_BLOCK : Z := 1.
Definition REDIS_CONNECTED : Z := 2.
Definition EINTR : Z := 4.
Definition EAGAIN : Z := 11.

(** [struct redisContext], without the addresses that reconnecting uses. *)
Record redisContext := {
  cerr : Z;
  cerrstr : bytes;
  cfd : Z;
  cflags : Z;
  obuf : sds;
  reader : redisReader
}.

Definition set_obuf (o : sds) (c : redisContext) : redisContext :=
  {| cerr := cerr c; cerrstr := cerrstr c; cfd := cfd c; cflags := cflags c; obuf := o; reader := reader c |}.
Definition set_reader (r : redisReader) (c : redisContext) : redisContext :=
  {| cerr := cerr c; cerrstr := cerrstr c; cfd := cfd c; cflags := cflags c; obuf := obuf c; reader := r |}.

(** [__redisSetError] with a message; [errno]'s text is given by the caller. *)
Definition redisSetError (type : Z) (msg : bytes) (c : redisContext) : redisContext :=
  {| cerr := type; cerrstr := take 127 (cstr msg); cfd := cfd c; cflags := cflags c; obuf := obuf c; reader := reader c |}.

(** [redisContextInit] and [redisConnectFd]. *)
Definition redisContextInit : result (option redisContext) :=
  if negb (malloc_ok 216) then Ok None
  else
    o ← sdsempty;
    r ← redisReaderCreate;
    match o, r with
    | Some o, Some r => Ok (Some {| cerr := 0; cerrstr := []; cfd := 0; cflags := 0; obuf := o; reader := r |})
    | _, _ => Ok None
    end.

Definition redisConnectFd (fd : Z) : result (option redisContext) :=
  o ← redisContextInit;
  match o with
  | None => Ok None
  | Some c =>
      Ok (Some {| cerr := cerr c; cerrstr := cerrstr c; cfd := fd;
                  cflags := Z.lor (cflags c) (Z.lor REDIS_BLOCK REDIS_CONNECTED);
                  obuf := obuf c; reader := reader c |})
  end.

Definition blocking (c : redisContext) : bool := negb (Z.land (cflags c) REDIS_BLOCK =? 0).

(** What the calls of [read] and [write] return: an [errno], or the bytes
    read (none at the end of the stream) and the number of bytes written. *)
Inductive rd := RdErr (errno : Z) | RdData (b : bytes).
Inductive wr := WrErr (errno : Z) | WrOk (n : Z).

(** The calls still to come, and the bytes written so far. *)
Record sock := { reads : list rd; writes : list wr; sent : bytes }.

Definition retry (c : redisContext) (errno : Z) : bool :=
  ((errno =? EAGAIN) && negb (blocking c)) || (errno =? EINTR).

(** [redisBufferRead]. *)
Definition redisBufferRead (c : redisContext) (w : sock) : result (option (Z * redisContext * sock)) :=
  if negb (cerr c =? 0) then Ok (Some (REDIS_ERR, c, w))
  else
    match reads w with
    | [] => Ok None
    | e :: rest =>
        let w := {| reads := rest; writes := writes w; sent := sent w |} in
        match e with
        | RdErr errno =>
            Ok (Some (if retry c errno then (REDIS_OK, c, w)
                      else (REDIS_ERR, redisSetError REDIS_ERR_IO (strerror errno) c, w)))
        | RdData [] => Ok (Some (REDIS_ERR, redisSetError REDIS_ERR_EOF (str "Server closed the connection") c, w))
        | RdData b =>
            '(st, r) ← redisReaderFeed (reader c) b (zlen b);
            Ok (Some (if negb (st =? REDIS_OK)
                      then (REDIS_ERR, redisSetError (rerr r) (errstr r) (set_reader r c), w)
                      else (REDIS_OK, set_reader r c, w)))
        end
    end.

(** [redisBufferWrite]: the status, whether the buffer is empty afterwards,
    the context and the socket. *)
Definition redisBufferWrite (c : redisContext) (w : sock) : result (option (Z * bool * redisContext * sock)) :=
  let finish (c : redisContext) (w : sock) := Ok (Some (REDIS_OK, sdslen (obuf c) =? 0, c, w)) in
  if negb (cerr c =? 0) then Ok (Some (REDIS_ERR, false, c, w))
  else if 0 <? sdslen (obuf c) then
    match writes w with
    | [] => Ok None
    | e :: rest =>
        match e with
        | WrErr errno =>
            let w := {| reads := reads w; writes := rest; sent := sent w |} in
            if retry c errno then finish c w
            else Ok (Some (REDIS_ERR, false, redisSetError REDIS_ERR_IO (strerror errno) c, w))
        | WrOk n =>
            t ← slice (buf (obuf c)) 0 n;
            let w := {| reads := reads w; writes := rest; sent := sent w ++ t |} in
            if 0 <? n then
              if n =? i32 (sdslen (obuf c)) then
                e ← sdsempty; e ← nn e; finish (set_obuf e c) w
              else
                o ← sdsrange (obuf c) n (-1); finish (set_obuf o c) w
            else finish c w
        end
    end
  else finish c w.

Definition redisGetReplyFromReader (c : redisContext) : result (Z * option loc * redisContext) :=
  '(st, o, r) ← redisReaderGetReply (reader c);
  Ok (if st =? REDIS_ERR then (REDIS_ERR, None, redisSetError (rerr r) (errstr r) (set_reader r c))
      else (REDIS_OK, o, set_reader r c)).

(** [do ... while (!wdone)]: every round but the last takes an event. *)
Fixpoint write_loop (fuel : nat) (c : redisContext) (w : sock) : result (option (Z * redisContext * sock)) :=
  match fuel with
  | O => Ok None
  | S fuel =>
      x ← redisBufferWrite c w;
      match x with
      | None => Ok None
      | Some (st, wdone, c, w) =>
          if st =? REDIS_ERR then Ok (Some (REDIS_ERR, c, w))
          else if (wdone : bool) then Ok (Some (REDIS_OK, c, w)) else write_loop fuel c w
      end
  end.

(** [do ... while (aux == NULL)]. *)
Fixpoint read_loop (fuel : nat) (c : redisContext) (w : sock) : result (option (Z * option loc * redisContext * sock)) :=
  match fuel with
  | O => Ok None
  | S fuel =>
      x ← redisBufferRead c w;
      match x with
      | None => Ok None
      | Some (st, c, w) =>
          if st =? REDIS_ERR then Ok (Some (REDIS_ERR, None, c, w))
          else
            '(st, aux, c) ← redisGetReplyFromReader c;
            if st =? REDIS_ERR then Ok (Some (REDIS_ERR, None, c, w))
            else match aux with Some _ => Ok (Some (REDIS_OK, aux, c, w)) | None => read_loop fuel c w end
      end
  end.

(** [redisGetReply]: the status and the reply. *)
Definition redisGetReply (c : redisContext) (w : sock) : result (option (Z * option loc * redisContext * sock)) :=
  '(st, aux, c) ← redisGetReplyFromReader c;
  if st =? REDIS_ERR then Ok (Some (REDIS_ERR, None, c, w))
  else
    match aux with
    | Some _ => Ok (Some (REDIS_OK, aux, c, w))
    | None =>
        if blocking c then
          x ← write_loop (S (length (writes w))) c w;
          match x with
          | None => Ok None
          | Some (st, c, w) =>
              if st =? REDIS_ERR then Ok (Some (REDIS_ERR, None, c, w))
              else read_loop (S (length (reads w))) c w
          end
        else Ok (Some (REDIS_OK, None, c, w))
    end.

(** [__redisAppendCommand], which [redisAppendFormattedCommand] only calls. *)
Definition redisAppendFormattedCommand (c : redisContext) (cmd : bytes) (len : Z) : result (Z * redisContext) :=
  n ← sdscatlen (obuf c) cmd len;
  Ok (match n with
      | None => (REDIS_ERR, redisSetError REDIS_ERR_OOM (str "Out of memory") c)
      | Some n => (REDIS_OK, set_obuf n c)
      end).

Definition redisvAppendCommand (c : redisContext) (format : bytes) (ap : list va) : result (Z * redisContext) :=
  '(len, cmd) ← redisvFormatCommand format ap;
  if len =? -1 then Ok (REDIS_ERR, redisSetError REDIS_ERR_OOM (str "Out of memory") c)
  else if len =? -2 then Ok (REDIS_ERR, redisSetError REDIS_ERR_OTHER (str "Invalid format string") c)
  else cmd ← nn cmd; redisAppendFormattedCommand c cmd (u64 len).

Definition redisAppendCommandArgv (c : redisContext) (argv : list bytes) (argvlen : option (list Z))
    : result (Z * redisContext) :=
  '(len, cmd) ← redisFormatSdsCommandArgv argv argvlen;
  if len =? -1 then Ok (REDIS_ERR, redisSetError REDIS_ERR_OOM (str "Out of memory") c)
  else cmd ← nn cmd; redisAppendFormattedCommand c (buf cmd) (u64 len).

(** [__redisBlockForReply]: the reply pointer. *)
Definition redisBlockForReply (c : redisContext) (w : sock) : result (option (option loc * redisContext * sock)) :=
  if blocking c then
    x ← redisGetReply c w;
    match x with
    | None => Ok None
    | Some (st, reply, c, w) => Ok (Some (if negb (st =? REDIS_OK) then None else reply, c, w))
    end
  else Ok (Some (None, c, w)).

(** [redisvCommand] and [redisCommandArgv]. *)
Definition redisCommand (c : redisContext) (w : sock) (format : bytes) (ap : list va)
    : result (option (option loc * redisContext * sock)) :=
  '(st, c) ← redisvAppendCommand c format ap;
  if negb (st =? REDIS_OK) then Ok (Some (None, c, w)) else redisBlockForReply c w.

Definition redisCommandArgv (c : redisContext) (w : sock) (argv : list bytes) (argvlen : option (list Z))
    : result (option (option loc * redisContext * sock)) :=
  '(st, c) ← redisAppendCommandArgv c argv argvlen;
  if negb (st =? REDIS_OK) then Ok (Some (None, c, w)) else redisBlockForReply c w.
End hiredis.
End Hiredis.
