(* ===== verification/HiredisSpec.v ===== *)
(** * What the blocking client guarantees (theorems about Hiredis.v)

    Every way of formatting a command gives the same bytes, the ones the
    server's parser splits back into the arguments; a command is sent whole
    and its reply read back, however the socket splits both. *)

From S2P Require Import Prelude Cstd Cmem Sds SdsSpec Read ReadSpec ReadValue Redis RedisSpec Hiredis.
Import Sds Read Hiredis.

(** ** Lengths *)

Lemma zlen_ll_digits_S fuel v :
  zlen (ll_digits (S fuel) v) = 1 + (if v / 10 =? 0 then 0 else zlen (ll_digits fuel (v / 10))).
Proof. cbn [ll_digits]. rewrite zlen_cons. by destruct (v / 10 =? 0). Qed.

Lemma digits_rounds_spec fuel v r :
  0 ≤ v < 10 ^ (4 * Z.of_nat fuel) → 1 ≤ r → r + 4 * Z.of_nat fuel < 2 ^ 32 →
  digits_rounds fuel v r = r + (zlen (ll_digits (4 * fuel) v) - 1) ∨ fuel = 0%nat.
Proof.
  revert v r. induction fuel as [|fuel IH]; intros v r Hv Hr Hf; [by right|left]. cbn [digits_rounds].
  replace (4 * S fuel)%nat with (S (S (S (S (4 * fuel))))) by lia. rewrite !zlen_ll_digits_S.
  rewrite !Z.div_div by lia. change (10 * 10) with 100. change (10 * (100)) with 1000. change (100 * 10) with 1000.
  change (1000 * 10) with 10000.
  assert (∀ k, 0 < k → (v <? k) = (v / k =? 0)) as Hk.
  { intros k Hk. destruct (Z.ltb_spec v k), (Z.eqb_spec (v / k) 0) as [E|E]; try done.
    - rewrite Z.div_small in E; lia.
    - assert (1 ≤ v / k) by (apply Z.div_le_lower_bound; lia). lia. }
  rewrite !Hk by lia. destruct (v / 10 =? 0); [lia|]. destruct (v / 100 =? 0); [rewrite u32_small; lia|].
  destruct (v / 1000 =? 0); [rewrite u32_small; lia|]. destruct (Z.eqb_spec (v / 10000) 0) as [E|E]; [rewrite u32_small; lia|].
  rewrite u32_small by lia.
  assert (0 ≤ v / 10000 < 10 ^ (4 * Z.of_nat fuel)) as Hq.
  { split; [apply Z.div_pos; lia|]. apply Z.div_lt_upper_bound; [lia|].
    replace (4 * Z.of_nat (S fuel)) with (4 + 4 * Z.of_nat fuel) in Hv by lia. rewrite Z.pow_add_r in Hv by lia. lia. }
  destruct (IH (v / 10000) (r + 4)) as [->| ->]; [done|lia|lia|lia|].
  simpl in Hq. lia.
Qed.

(** [countDigits] is the number of characters [%zu] prints. *)
Lemma countDigits_len v : 0 ≤ v < 2 ^ 64 → countDigits v = zlen (udec v).
Proof.
  intros Hv. destruct (digits_rounds_spec 6 v 1) as [E|]; [lia|lia|lia| |done].
  unfold countDigits. rewrite E. change (4 * 6)%nat with 24%nat.
  assert (udec v = rev (ll_digits 24 v)) as ->; [|unfold zlen; rewrite length_rev; lia].
  unfold udec. rewrite (ll_digits_udec 24), app_nil_r; [done|lia|lia| |lia].
  destruct (Z.eq_dec v 0) as [->|]; [done|].
  pose proof (Z.log2_spec v ltac:(lia)). pose proof (Z.log2_nonneg v).
  replace (Z.of_nat (S (Z.to_nat (Z.log2 v)))) with (Z.succ (Z.log2 v)) by lia. lia.
Qed.

Lemma udec_short v : 0 ≤ v < 2 ^ 64 → zlen (udec v) ≤ 20.
Proof.
  intros Hv. assert (length (udec v) ≤ 20)%nat; [|unfold zlen; lia].
  apply udec_len_le; [change (10 ^ Z.of_nat 20) with 100000000000000000000|]; lia.
Qed.

Lemma bulklen_bulk v : zlen v < 2 ^ 63 → bulklen (zlen v) = zlen (bulk v).
Proof.
  intros Hv. pose proof (zlen_nonneg v). unfold bulklen. rewrite countDigits_len by lia.
  pose proof (udec_short (zlen v) ltac:(lia)). pose proof (zlen_nonneg (udec (zlen v))).
  rewrite (u32_small (1 + _)), u32_small, u64_small by lia. unfold bulk. rewrite !zlen_app. change (zlen crlf) with 2.
  change (zlen (str "$")) with 1. lia.
Qed.

Lemma header_len n : 0 ≤ n < 2 ^ 64 → u32 (u32 (1 + countDigits n) + 2) = zlen (str "*" ++ udec n ++ crlf).
Proof.
  intros Hn. rewrite countDigits_len by done. pose proof (udec_short n Hn). pose proof (zlen_nonneg (udec n)).
  rewrite (u32_small (1 + _)), u32_small by lia. rewrite !zlen_app. change (zlen crlf) with 2. change (zlen (str "*")) with 1. lia.
Qed.

(** ** The command at protocol level *)

Definition bulks (vs : list bytes) : bytes := concat (bulk <$> vs).

Lemma zlen_bulk_pos v : 0 < zlen (bulk v).
Proof. unfold bulk. rewrite !zlen_app. pose proof (zlen_nonneg v). pose proof (zlen_nonneg (udec (zlen v))). change (zlen crlf) with 2. change (zlen (str "$")) with 1. lia. Qed.

Lemma zlen_bulk_ge v : zlen v ≤ zlen (bulk v).
Proof.
  unfold bulk. rewrite !zlen_app. pose proof (zlen_nonneg (udec (zlen v))). change (zlen crlf) with 2.
  change (zlen (str "$")) with 1. lia.
Qed.

Lemma bulks_count vs : zlen vs ≤ zlen (bulks vs).
Proof.
  unfold bulks. induction vs as [|v vs IH]; [done|]. rewrite fmap_cons. cbn [concat].
  rewrite zlen_cons, zlen_app. pose proof (zlen_bulk_pos v). lia.
Qed.

(** [p] is an argument and its length: the first [p.2] bytes are the value. *)
Definition arg_means (p : bytes * Z) (v : bytes) : Prop := v `prefix_of` p.1 ∧ p.2 = zlen v.

Lemma emit_arg_spec p q arg n v :
  arg_means (arg, n) v → zlen (bulk v) ≤ zlen q → zlen p + zlen (bulk v) < 2 ^ 31 →
  ∃ q', emit_arg (p ++ q) (zlen p) arg n = Ok ((p ++ bulk v) ++ q', zlen (p ++ bulk v)) ∧
        zlen q' = zlen q - zlen (bulk v).
Proof.
  intros [[y Hy] Hn] Hq Hp. cbn in Hy, Hn. subst arg n. unfold emit_arg, sprintf.
  set (h := str "$" ++ udec (zlen v) ++ crlf). pose proof (zlen_nonneg p). pose proof (zlen_nonneg v).
  assert (zlen (bulk v) = zlen h + zlen v + 2) as Hl
    by (unfold bulk, h; rewrite !zlen_app; change (zlen crlf) with 2; lia).
  assert (bulk v = h ++ v ++ crlf) as Eb by (unfold bulk, h; by rewrite <- !app_assoc).
  clearbody h. pose proof (zlen_nonneg h). rewrite blit_at by (rewrite zlen_app; change (zlen [0]) with 1; lia). rbind.
  set (q1 := drop _ q). assert (zlen q1 = zlen q - zlen h - 1) as Hq1.
  { subst q1. rewrite zlen_drop; rewrite length_app; change (length [0]) with 1%nat; unfold zlen in *; lia. }
  rewrite int_of_ok by lia. rbind.
  replace (p ++ (h ++ [0]) ++ q1) with ((p ++ h) ++ 0 :: q1) by (by rewrite <- !app_assoc).
  replace (zlen p + zlen h) with (zlen (p ++ h)) by (by rewrite zlen_app).
  rewrite memcpy_at by (rewrite zlen_cons; lia). rbind.
  set (q2 := drop _ (0 :: q1)). assert (zlen q2 = zlen q - zlen h - zlen v) as Hq2.
  { subst q2. rewrite zlen_drop; rewrite zlen_cons; unfold zlen in *; lia. }
  rewrite zlen_app, u64_small, i32_small by lia. destruct q2 as [|x [|x' q2]]; [zlia|zlia|].
  rewrite !app_assoc. rewrite (store_app ((p ++ h) ++ v) x) by (by rewrite !zlen_app). rbind.
  rewrite int_of_ok by lia. rbind.
  change (((p ++ h) ++ v) ++ CR :: x' :: q2) with (((p ++ h) ++ v) ++ [CR] ++ x' :: q2). rewrite app_assoc.
  rewrite (store_app _ x') by (rewrite !zlen_app; change (zlen [CR]) with 1; lia). rbind.
  rewrite int_of_ok by lia. rbind. exists q2. rewrite !zlen_cons in Hq2. split; [|lia]. do 2 f_equal.
  - rewrite Eb. change crlf with [CR; LF]. by rewrite <- !app_assoc.
  - rewrite zlen_app. lia.
Qed.

Lemma emit_args_spec args vs : Forall2 arg_means args vs → ∀ p q,
  zlen (bulks vs) ≤ zlen q → zlen p + zlen (bulks vs) < 2 ^ 31 →
  ∃ q', emit_args (p ++ q) (zlen p) args = Ok ((p ++ bulks vs) ++ q', zlen (p ++ bulks vs)) ∧
        zlen q' = zlen q - zlen (bulks vs).
Proof.
  induction 1 as [|[arg n] v args vs Ha _ IH]; intros p q Hq Hp.
  - exists q. unfold bulks. cbn. rewrite app_nil_r. split; [done|zlia].
  - unfold bulks in *. rewrite fmap_cons in *. cbn [concat emit_args] in *. rewrite zlen_app in Hq, Hp.
    pose proof (zlen_nonneg (concat (bulk <$> vs))).
    destruct (emit_arg_spec p q arg n v Ha) as (q1 & -> & Hq1); [lia|lia|]. rbind.
    destruct (IH (p ++ bulk v) q1) as (q' & -> & Hq'); [lia|rewrite zlen_app; lia|].
    exists q'. rewrite !app_assoc in *. split; [done|]. rewrite zlen_app. lia.
Qed.

Lemma resp_bulks vs : resp vs = (str "*" ++ udec (zlen vs) ++ crlf) ++ bulks vs.
Proof. unfold resp, bulks. by rewrite <- !app_assoc. Qed.

Lemma sdec_udec n : 0 ≤ n → sdec n = udec n.
Proof. intros. unfold sdec. by rewrite (proj2 (Z.ltb_ge _ _)). Qed.

Section hiredis_spec.
Context `{Malloc} `{Libc}.

Lemma build_command_spec args vs argc totlen :
  Forall2 arg_means args vs → argc = zlen vs → totlen = zlen (resp vs) → zlen (resp vs) + 1 < 2 ^ 31 →
  build_command argc totlen args =
    Ok (if malloc_ok (zlen (resp vs) + 1) then (zlen (resp vs), Some (resp vs ++ [0])) else (-1, None)).
Proof.
  intros Ha -> -> Hlim. pose proof (zlen_nonneg (resp vs)). pose proof (zlen_nonneg vs). unfold build_command.
  rewrite int_of_ok by lia. rbind. rewrite u64_small by lia. destruct (malloc_ok _); cbn [negb]; [|done].
  unfold sprintf. rewrite sdec_udec by lia. set (h := str "*" ++ udec (zlen vs) ++ crlf).
  assert (resp vs = h ++ bulks vs) as Er by apply resp_bulks. pose proof (zlen_nonneg (bulks vs)).
  assert (zlen (junk (Z.to_nat (zlen (resp vs) + 1))) = zlen (resp vs) + 1) as Hj by (unfold zlen at 1; rewrite junk_length; lia).
  rewrite Er, zlen_app in *. clearbody h. pose proof (zlen_nonneg h).
  change (blit ?j 0 (h ++ [0])) with (blit ([] ++ j) (zlen (@nil Z)) (h ++ [0])).
  rewrite blit_at by (rewrite zlen_app; change (zlen [0]) with 1; lia). rbind. rewrite app_nil_l, <- app_assoc.
  set (q := [0] ++ drop _ _). assert (zlen q = zlen (bulks vs) + 1) as Hq.
  { subst q. rewrite zlen_app, zlen_drop; rewrite Hj, length_app; change (zlen [0]) with 1; change (length [0]) with 1%nat; unfold zlen; lia. }
  destruct (emit_args_spec args vs Ha h q) as (q' & -> & Hq'); [lia|lia|]. rbind.
  rewrite zlen_app, Z.eqb_refl. cbn [negb]. destruct q' as [|x [|x' q']]; [zlia| |zlia].
  rewrite (store_app (h ++ bulks vs) x []) by (by rewrite zlen_app). done.
Qed.

(** ** Argument vectors *)

(** The arguments of a call: blocks that start with the values, whose lengths
    are given, or C strings. *)
Definition argv_means (argv : list bytes) (argvlen : option (list Z)) (vs : list bytes) : Prop :=
  match argvlen with
  | Some ns => ns = map zlen vs ∧ Forall2 (λ b v, v `prefix_of` b) argv vs
  | None => Forall2 (λ b v, ∃ y, b = v ++ 0 :: y ∧ Forall (λ c, c ≠ 0) v) argv vs
  end.

Lemma arg_lens_spec argv argvlen vs :
  argv_means argv argvlen vs → ∃ args, arg_lens argv argvlen = Ok args ∧ Forall2 arg_means args vs.
Proof.
  destruct argvlen as [ns|]; cbn [argv_means].
  - intros [-> Hv]. induction Hv as [|b v argv vs Hb _ IH]; [by exists []|]. cbn [arg_lens map]. rbind.
    destruct IH as (args & -> & Ha). rbind. eexists. split; [done|]. by constructor.
  - intros Hv. induction Hv as [|b v argv vs (y & -> & Hz) _ IH]; [by exists []|]. cbn [arg_lens].
    rewrite strlen_ok by done. rbind. destruct IH as (args & -> & Ha). rbind. eexists. split; [done|].
    constructor; [|done]. split; [by exists (0 :: y)|done].
Qed.

Lemma argv_length argv argvlen vs : argv_means argv argvlen vs → zlen argv = zlen vs.
Proof.
  unfold zlen. destruct argvlen as [ns|]; cbn [argv_means]; [intros [_ Hv]|intros Hv];
    by rewrite (Forall2_length _ _ _ Hv).
Qed.

(** The sum of the lengths, as an [int] and as an [unsigned long long]. *)
Lemma totlen_fold (f : Z → Z) M args vs t :
  Forall2 arg_means args vs → 0 ≤ t → t + zlen (bulks vs) < M → M ≤ 2 ^ 63 → (∀ x, 0 ≤ x < M → f x = x) →
  foldl (λ t a, f (t + bulklen a.2)) t args = t + zlen (bulks vs).
Proof.
  intros Ha. revert t. induction Ha as [|[b n] v args vs [_ Hn] _ IH]; intros t Ht Hlim HM Hf.
  { change (zlen (bulks [])) with 0. cbn [foldl]. lia. }
  cbn in Hn. subst n. cbn [foldl snd]. unfold bulks in *. rewrite fmap_cons in *. cbn [concat] in *.
  rewrite zlen_app in *. pose proof (zlen_nonneg (concat (bulk <$> vs))). pose proof (zlen_bulk_pos v).
  pose proof (zlen_bulk_ge v). rewrite bulklen_bulk by lia. rewrite (Hf (t + zlen (bulk v))) by lia.
  rewrite IH by (done || lia). lia.
Qed.

Lemma redisFormatCommandArgv_resp argv argvlen vs :
  argv_means argv argvlen vs → zlen (resp vs) + 1 < 2 ^ 31 →
  redisFormatCommandArgv argv argvlen =
    Ok (if malloc_ok (zlen (resp vs) + 1) then (zlen (resp vs), Some (resp vs ++ [0])) else (-1, None)).
Proof.
  intros Hv Hlim. unfold redisFormatCommandArgv. destruct (arg_lens_spec _ _ _ Hv) as (args & -> & Ha). rbind.
  rewrite (argv_length _ _ _ Hv). pose proof (zlen_nonneg vs) as Hvs. pose proof (zlen_nonneg (bulks vs)) as Hb.
  pose proof (bulks_count vs) as Hle.
  rewrite resp_bulks, zlen_app in *. pose proof (zlen_nonneg (str "*" ++ udec (zlen vs) ++ crlf)) as Hh.
  rewrite header_len, i32_small by lia.
  rewrite (totlen_fold (λ x, i32 (u64 x)) (2 ^ 31) args vs) by
    (done || lia || (intros x Hx; rewrite u64_small, i32_small; lia)).
  rewrite <- zlen_app, <- resp_bulks. apply build_command_spec; try done. rewrite resp_bulks, zlen_app. done.
Qed.

Hypothesis granted : ∀ n, malloc_ok n = true.

Lemma sdscatlen_prefix s w b n v :
  repr s w → arg_means (b, n) v → zlen w + zlen v < LIMIT → ∃ s', sdscatlen s b n = Ok (Some s') ∧ repr s' (w ++ v).
Proof.
  intros Hr [[y Hy] Hn] Hl. cbn in Hy, Hn. subst b n.
  destruct (returns_granted granted _ _ (sdscatlen_repr s w v (zlen v) Hr eq_refl Hl)) as (s' & E & ?).
  exists s'. split; [|done]. rewrite <- E. unfold sdscatlen.
  destruct (sdsMakeRoomFor s (zlen v)) as [[s1|]|]; try done. rbind. by rewrite memcpy_src by (pose proof (zlen_nonneg v); lia).
Qed.

Lemma sds_args_spec args vs : Forall2 arg_means args vs → ∀ s w,
  repr s w → zlen w + zlen (bulks vs) + 1 < LIMIT → ∃ s', sds_args s args = Ok s' ∧ repr s' (w ++ bulks vs).
Proof.
  induction 1 as [|[b n] v args vs Ha _ IH]; intros s w Hr Hlim.
  { exists s. split; [done|]. unfold bulks. cbn. by rewrite app_nil_r. }
  cbn [sds_args]. unfold bulks in *. rewrite fmap_cons in *. cbn [concat] in *. rewrite zlen_app in Hlim.
  pose proof Ha as [_ Hn]. cbn in Hn. pose proof (zlen_nonneg (concat (bulk <$> vs))). pose proof (zlen_nonneg v).
  assert (zlen (bulk v) = zlen (str "$" ++ udec n ++ crlf) + zlen v + 2) as Hl
    by (unfold bulk; rewrite Hn, !zlen_app; change (zlen crlf) with 2; lia).
  unfold LIMIT in Hlim. pose proof (zlen_nonneg (str "$" ++ udec n ++ crlf)). pose proof (zlen_nonneg w).
  destruct (sdscatfmt_repr granted s w (str "$%T" ++ crlf) [FULongLong n] (str "$" ++ udec n ++ crlf) Hr)
    as (s1 & -> & Hr1); [apply Forall_cons; split; [cbn; lia|by apply Forall_nil]|done|unfold LIMIT; lia|]. rbind.
  destruct (sdscatlen_prefix s1 _ b n v Hr1 Ha) as (s2 & -> & Hr2); [rewrite zlen_app; unfold LIMIT; lia|]. rbind. cbn [nn]. rbind.
  destruct (returns_granted granted _ _ (sdscatlen_repr s2 _ crlf 2 Hr2 eq_refl ltac:(rewrite !(zlen_app _ v), (zlen_app w); unfold LIMIT; lia)))
    as (s3 & -> & Hr3). rbind. cbn [nn]. rbind.
  assert ((((w ++ str "$" ++ udec n ++ crlf) ++ v) ++ crlf) = w ++ bulk v) as E
    by (unfold bulk; rewrite Hn, <- !app_assoc; done).
  rewrite E in Hr3. destruct (IH s3 (w ++ bulk v) Hr3) as (s' & -> & Hr'); [rewrite zlen_app; unfold LIMIT; lia|].
  exists s'. by rewrite app_assoc.
Qed.

Lemma redisFormatSdsCommandArgv_resp argv argvlen vs :
  argv_means argv argvlen vs → zlen (resp vs) + 1 < LIMIT →
  ∃ s, redisFormatSdsCommandArgv argv argvlen = Ok (zlen (resp vs), Some s) ∧ repr s (resp vs).
Proof.
  intros Hv Hlim. unfold redisFormatSdsCommandArgv. destruct (arg_lens_spec _ _ _ Hv) as (args & -> & Ha). rbind.
  rewrite (argv_length _ _ _ Hv). pose proof (zlen_nonneg vs) as Hvs. pose proof (zlen_nonneg (bulks vs)) as Hb.
  pose proof (bulks_count vs) as Hle.
  rewrite resp_bulks, zlen_app in *. unfold LIMIT in Hlim.
  set (h := str "*" ++ udec (zlen vs) ++ crlf) in *. pose proof (zlen_nonneg h) as Hh. rewrite header_len by lia. fold h.
  rewrite (totlen_fold u64 (2 ^ 31) args vs) by (done || lia || (intros x Hx; rewrite u64_small; lia)).
  destruct (sdsempty_repr granted) as (e & -> & He). rbind.
  destruct (MakeRoom_repr e [] (zlen h + zlen (bulks vs)) He) as [[_ (n & Hn)]|(s1 & -> & Hr1 & _)];
    [lia|change (zlen []) with 0; unfold LIMIT; lia|by rewrite granted in Hn|]. rbind.
  destruct (sdscatfmt_repr granted s1 [] (str "*%i" ++ crlf) [FInt (zlen vs)] h Hr1) as (s2 & -> & Hr2);
    [apply Forall_cons; split; [cbn; lia|by apply Forall_nil]| |change (zlen []) with 0; unfold LIMIT; lia|].
  { unfold h. rewrite <- sdec_udec by lia. done. }
  rbind. cbn [app] in Hr2. destruct (sds_args_spec args vs Ha s2 h Hr2) as (s3 & -> & Hr3); [unfold LIMIT; lia|]. rbind.
  destruct (repr_bounds s3 _ Hr3) as (-> & _). rewrite zlen_app, Z.eqb_refl, i32_small by lia. by exists s3.
Qed.

(** ** Format strings *)

(** What a format is made of: spaces, characters, [%%], [%s] with a C string,
    [%b] with a block and a length, and [%d] with a number. *)
Inductive ftok := TSpace | TChar (c : Z) | TPct | TStr (b y : bytes) | TBin (b y : bytes) | TInt (z : Z).

#[global] Instance ftok_eq_dec : EqDecision ftok.
Proof. solve_decision. Defined.

Definition tok_fmt (t : ftok) : bytes :=
  match t with
  | TSpace => [32] | TChar c => [c] | TPct => [37; 37] | TStr _ _ => [37; 115] | TBin _ _ => [37; 98] | TInt _ => [37; 100]
  end.
Definition tok_args (t : ftok) : list va :=
  match t with
  | TStr b y => [VaPtr (b ++ 0 :: y)]
  | TBin b y => [VaPtr (b ++ y); VaSize (zlen b)]
  | TInt z => [VaInt z]
  | _ => []
  end.
Definition tok_val (t : ftok) : bytes :=
  match t with TSpace => [] | TChar c => [c] | TPct => [37] | TStr b _ | TBin b _ => b | TInt z => sdec z end.
Definition tok_ok (t : ftok) : Prop :=
  match t with
  | TChar c => c ≠ 0 ∧ c ≠ 32 ∧ c ≠ 37
  | TStr b _ => Forall (λ c, c ≠ 0) b
  | TInt z => - 2 ^ 31 ≤ z < 2 ^ 31
  | _ => True
  end.

(** The arguments a format denotes: what is between spaces, empty
    interpolations included. *)
Fixpoint words (ts : list ftok) (cur : option bytes) : list bytes :=
  match ts with
  | [] => match cur with Some w => [w] | None => [] end
  | TSpace :: ts => match cur with Some w => w :: words ts None | None => words ts None end
  | t :: ts => words ts (Some (default [] cur ++ tok_val t))
  end.

(** [%d] prints in decimal. *)
Class LibcLaws := printf_d : ∀ z ap, printf_conv (str "%d") (VaInt z :: ap) = sdec z.
Context `{LibcLaws}.

Definition format_of (ts : list ftok) : bytes := concat (map tok_fmt ts).
Definition args_of (ts : list ftok) : list va := concat (map tok_args ts).

Lemma sdscatlen_ok s w t : repr s w → zlen w + zlen t < LIMIT → ∃ s', sdscatlen s t (zlen t) = Ok (Some s') ∧ repr s' (w ++ t).
Proof. intros Hr Hl. apply (sdscatlen_prefix s w t (zlen t) t Hr); [|done]. by split; [exists []; rewrite app_nil_r|]. Qed.

Lemma cat_nonempty s w b y :
  repr s w → zlen w + zlen b < LIMIT →
  ∃ s', (if 0 <? zlen b then sdscatlen s (b ++ y) (zlen b) else Ok (Some s)) = Ok (Some s') ∧ repr s' (w ++ b).
Proof.
  intros Hr Hl. destruct (Z.ltb_spec 0 (zlen b)) as [Hb|Hb].
  - apply (sdscatlen_prefix s w (b ++ y) (zlen b) b Hr); [|done]. split; [by exists y|done].
  - assert (b = []) as -> by (apply zlen_0_inv; pose proof (zlen_nonneg b); lia). exists s. by rewrite app_nil_r.
Qed.

Lemma sdec_nonzero z : Forall (λ c, c ≠ 0) (sdec z).
Proof.
  assert (∀ n, 0 ≤ n → Forall (λ c, c ≠ 0) (udec n)) as Hu.
  { intros n Hn. eapply Forall_impl; [by apply udec_digits|]. intros c Hc ->. done. }
  unfold sdec. destruct (Z.ltb_spec z 0); [|by apply Hu]. apply Forall_cons. split; [done|]. apply Hu. lia.
Qed.

Lemma conversion_spec t s w rest ap :
  repr s w → tok_ok t → zlen w + zlen (tok_val t) < LIMIT → match t with TSpace | TChar _ => False | _ => True end →
  ∃ s', conversion s (tok_fmt t ++ rest) (tok_args t ++ ap) = Ok (Some (Some s', ap, rest)) ∧ repr s' (w ++ tok_val t).
Proof.
  intros Hr Hok Hl Ht. unfold LIMIT in *. pose proof (zlen_nonneg w). destruct t as [|c| |b y|b y|z]; try done; unfold conversion; cbn [tok_fmt tok_args tok_val tok_ok app] in *.
  - rewrite load_1. rbind. cbn [Z.eqb Pos.eqb]. unfold sdscat.
    destruct (sdscatlen_ok s w (str "%") Hr Hl) as (s' & E & Hr'). change (cstr (str "%")) with (str "%"). rewrite E. rbind. by exists s'.
  - rewrite load_1. rbind. cbn [Z.eqb Pos.eqb]. rewrite strlen_ok by done. rbind.
    destruct (cat_nonempty s w b (0 :: y) Hr Hl) as (s' & -> & Hr'). rbind. by exists s'.
  - rewrite load_1. rbind. cbn [Z.eqb Pos.eqb].
    destruct (cat_nonempty s w b y Hr Hl) as (s' & -> & Hr'). rbind. by exists s'.
  - rewrite load_1. rbind. cbn [Z.eqb Pos.eqb].
    assert (skip_spec (drop 1 (37 :: 100 :: rest)) = Ok (100 :: rest)) as ->
      by (unfold skip_spec; cbn [drop]; change (skip_while ?f (100 :: rest)) with (@Ok bytes (100 :: rest)); rbind;
          change (skip_while ?f (100 :: rest)) with (@Ok bytes (100 :: rest)); rbind; by rewrite load_0). rbind.
    assert (classify (100 :: rest) = Ok (Some (KInt, 100 :: rest))) as ->
      by (unfold classify; by rewrite load_0). rbind. cbn [va_take]. rbind.
    rewrite !zlen_cons. replace (1 + (1 + zlen rest) - (1 + zlen rest) + 1) with 2 by lia. cbn [Z.ltb Z.compare Pos.compare Pos.compare_cont].
    change (37 :: 100 :: rest) with ([37; 100] ++ rest). rewrite slice_prefix by done. rbind.
    change (cstr [37; 100]) with (str "%d"). rewrite printf_d.
    assert (zlen (sdec z) < 2 ^ 31) by (pose proof (zlen_nonneg (sdec z)); lia).
    destruct (returns_granted granted _ _ (sdscatprintf_repr s w (sdec z) Hr ltac:(done)
      ltac:(rewrite cstr_nonzero by apply sdec_nonzero; unfold LIMIT; lia))) as (s' & E & Hr').
    unfold sdscatprintf in E. rewrite E. rbind. exists s'. split; [done|].
    by rewrite cstr_nonzero in Hr' by apply sdec_nonzero.
Qed.

(** The state of the loop: the arguments done, and the current one. *)
Definition fmt_inv (st : fmt_state) (ws : list bytes) (cur : option bytes) : Prop :=
  Forall2 repr (fargv st) ws ∧ repr (fcur st) (default [] cur) ∧ ftotlen st = zlen (bulks ws) ∧
  ftouched st = bool_decide (is_Some cur).

Lemma bulks_app a b : bulks (a ++ b) = bulks a ++ bulks b.
Proof. unfold bulks. by rewrite fmap_app, concat_app. Qed.

Lemma bulks_one v : bulks [v] = bulk v.
Proof. unfold bulks. cbn [fmap list_fmap concat]. by rewrite app_nil_r. Qed.

Lemma push_arg_spec st ws w :
  fmt_inv st ws (Some w) → zlen (bulks (ws ++ [w])) < 2 ^ 31 →
  ∃ argv, push_arg st = Ok (Some (argv, zlen (bulks (ws ++ [w])))) ∧ Forall2 repr argv (ws ++ [w]).
Proof.
  intros (Ha & Hc & Ht & _) Hl. unfold push_arg. rewrite granted. cbn [negb from_option id] in *.
  destruct (repr_bounds _ _ Hc) as (-> & _). rewrite bulks_app, bulks_one, zlen_app in *.
  pose proof (zlen_bulk_ge w). pose proof (zlen_nonneg (bulks ws)). rewrite bulklen_bulk by lia.
  rewrite Ht, u64_small, i32_small by (pose proof (zlen_bulk_pos w); lia).
  eexists. split; [done|]. apply Forall2_app; [done|]. by constructor.
Qed.

Lemma words_cons t ts cur : t ≠ TSpace → words (t :: ts) cur = words ts (Some (default [] cur ++ tok_val t)).
Proof. by destruct t. Qed.

Lemma words_bound ts cur :
  zlen (default [] cur) + zlen (concat (map tok_val ts)) ≤ zlen (bulks (words ts cur)).
Proof.
  revert cur. induction ts as [|t ts IH]; intros cur; cbn [map concat].
  - cbn [words]. change (zlen []) with 0. destruct cur as [w|]; cbn [from_option id]; [|done]. rewrite bulks_one.
    pose proof (zlen_bulk_ge w). lia.
  - destruct (decide (t = TSpace)) as [->|Ht].
    + specialize (IH None). cbn [tok_val words app from_option id] in *. change (zlen []) with 0 in IH.
      destruct cur as [w|]; cbn [from_option id]; [|change (zlen []) with 0; lia].
      change (w :: words ts None) with ([w] ++ words ts None). rewrite bulks_app, bulks_one, zlen_app.
      pose proof (zlen_bulk_ge w). lia.
    + rewrite words_cons by done. specialize (IH (Some (default [] cur ++ tok_val t))). cbn [from_option id] in IH.
      rewrite zlen_app in *. lia.
Qed.

Lemma format_loop_spec ts : ∀ fuel st ws cur y ap,
  Forall tok_ok ts → (length ts < fuel)%nat → fmt_inv st ws cur → zlen (bulks (ws ++ words ts cur)) < LIMIT →
  ∃ st' ws' cur', format_loop fuel (format_of ts ++ 0 :: y) (args_of ts ++ ap) st = Ok (FmtOk st') ∧
    fmt_inv st' ws' cur' ∧ ws' ++ words [] cur' = ws ++ words ts cur.
Proof.
  induction ts as [|t ts IH]; intros fuel st ws cur y ap Hok Hf Hinv Hlim; (destruct fuel as [|fuel]; [simpl in Hf; lia|]).
  { cbn [format_loop format_of map concat app]. rewrite load_0. rbind. by exists st, ws, cur. }
  apply Forall_cons in Hok as [Ht Hok]. simpl in Hf. unfold format_of, args_of in *. cbn [map concat]. rewrite <- !app_assoc.
  pose proof (words_bound (t :: ts) cur) as Hb. cbn [map concat] in Hb. rewrite zlen_app in Hb.
  pose proof (zlen_nonneg (concat (map tok_val ts))). rewrite bulks_app, zlen_app in Hlim.
  pose proof (zlen_nonneg (bulks ws)). unfold LIMIT in Hlim.
  assert (∃ d rest', concat (map tok_fmt ts) ++ 0 :: y = d :: rest') as (d & rest' & Erest)
    by (destruct (concat (map tok_fmt ts)); cbn [app]; eauto).
  assert (∀ s', repr s' (default [] cur ++ tok_val t) →
    fmt_inv {| fargv := fargv st; ftotlen := ftotlen st; fcur := s'; ftouched := true |} ws (Some (default [] cur ++ tok_val t))) as Hnext.
  { intros s' Hs'. destruct Hinv as (Ha & _ & Hto & _). by split_and!. }
  destruct (decide (t = TSpace)) as [->|Hsp].
  { cbn [tok_fmt tok_args app format_loop words]. rewrite Erest, load_0. rbind. rewrite load_1. rbind.
    cbn [Z.eqb Pos.eqb negb orb drop]. rewrite <- Erest. pose proof Hinv as (_ & _ & _ & Htou). rewrite Htou.
    destruct cur as [w|]; cbn [words] in *.
    - rewrite bool_decide_eq_true_2 by done. change (w :: words ts None) with ([w] ++ words ts None) in *.
      rewrite bulks_app, zlen_app in Hlim. pose proof (zlen_nonneg (bulks (words ts None))).
      destruct (push_arg_spec st ws w Hinv) as (argv & -> & Ha); [rewrite bulks_app, zlen_app; lia|]. rbind.
      destruct (sdsempty_repr granted) as (e & -> & He). rbind.
      destruct (IH fuel {| fargv := argv; ftotlen := zlen (bulks (ws ++ [w])); fcur := e; ftouched := false |} (ws ++ [w]) None y ap)
        as (st' & ws' & cur' & -> & Hi & E); [done|lia|by split_and!|rewrite !bulks_app, !zlen_app; unfold LIMIT; lia|].
      exists st', ws', cur'. split; [done|]. split; [done|]. by rewrite E, <- app_assoc.
    - rewrite bool_decide_eq_false_2 by (by intros []).
      destruct (IH fuel st ws None y ap) as (st' & ws' & cur' & -> & Hi & E); [done|lia|done|rewrite bulks_app, zlen_app; unfold LIMIT; lia|].
      by exists st', ws', cur'. }
  rewrite words_cons in * by done.
  destruct (match t with TChar c => true | _ => false end) eqn:Ech.
  { destruct t as [|c| | | |]; try done. destruct Ht as (Hc0 & Hc1 & Hc2). cbn [tok_fmt tok_args app format_loop].
    rewrite Erest, load_0. rbind. rewrite (proj2 (Z.eqb_neq c 0)) by done. rewrite load_1. rbind.
    rewrite (proj2 (Z.eqb_neq c 37)) by done. cbn [negb orb drop]. rewrite (proj2 (Z.eqb_neq c 32)) by done.
    destruct (sdscatlen_prefix (fcur st) (default [] cur) (c :: d :: rest') 1 [c]) as (s' & -> & Hs');
      [apply Hinv|split; [by exists (d :: rest')|done]|change (zlen [c]) with (zlen (tok_val (TChar c))); unfold LIMIT; lia|]. rbind. rewrite <- Erest.
    destruct (IH fuel _ ws _ y ap Hok ltac:(lia) (Hnext s' Hs')) as (st' & ws' & cur' & -> & Hi & E);
      [rewrite bulks_app, zlen_app; unfold LIMIT; lia|]. by exists st', ws', cur'. }
  destruct (conversion_spec t (fcur st) (default [] cur) (concat (map tok_fmt ts) ++ 0 :: y) (concat (map tok_args ts) ++ ap))
    as (s' & Ec & Hs'); [apply Hinv|done|unfold LIMIT; lia|by destruct t|].
  assert (∃ k r, tok_fmt t = [37; k] ∧ k ≠ 0 ∧ r = 0) as (k & _ & Ek & Hk & _) by (destruct t; try done; by eexists _, 0).
  cbn [format_loop]. rewrite Ek in *. cbn [app] in *. rewrite load_0. rbind. cbn [Z.eqb Pos.eqb]. rewrite load_1. rbind.
  rewrite (proj2 (Z.eqb_neq k 0)) by done. cbn [negb orb]. rewrite Ec. rbind.
  destruct (IH fuel _ ws _ y ap Hok ltac:(lia) (Hnext s' Hs')) as (st' & ws' & cur' & -> & Hi & E);
    [rewrite bulks_app, zlen_app; unfold LIMIT; lia|]. by exists st', ws', cur'.
Qed.

Lemma redisvFormatCommand_resp ts y ap :
  let ws := words ts None in
  Forall tok_ok ts → zlen (resp ws) + 1 < LIMIT →
  redisvFormatCommand (format_of ts ++ 0 :: y) (args_of ts ++ ap) = Ok (zlen (resp ws), Some (resp ws ++ [0])).
Proof.
  intros ws Hok Hlim. rewrite resp_bulks, zlen_app in Hlim. unfold LIMIT in Hlim.
  set (h := str "*" ++ udec (zlen ws) ++ crlf) in *. pose proof (zlen_nonneg h). pose proof (zlen_nonneg (bulks ws)).
  pose proof (bulks_count ws). pose proof (zlen_nonneg ws).
  unfold redisvFormatCommand. destruct (sdsempty_repr granted) as (e & -> & He). rbind.
  assert (length ts < length (format_of ts ++ 0%Z :: y))%nat as Hf.
  { rewrite length_app. simpl. unfold format_of. assert (length ts ≤ length (concat (map tok_fmt ts)))%nat; [|lia].
    clear. induction ts as [|t ts IH]; [done|]. cbn [map concat]. rewrite length_app. simpl.
    assert (1 ≤ length (tok_fmt t))%nat by (destruct t; simpl; lia). lia. }
  destruct (format_loop_spec ts _ {| fargv := []; ftotlen := 0; fcur := e; ftouched := false |} [] None y ap Hok Hf)
    as (st & ws' & cur & -> & Hinv & E); [split_and!; [constructor|done|done|done]|cbn [app]; fold ws; unfold LIMIT; lia|].
  rbind. cbn [app] in E. fold ws in E.
  assert (∃ argv, (if ftouched st then push_arg st else Ok (Some (fargv st, ftotlen st))) = Ok (Some (argv, zlen (bulks ws))) ∧
    Forall2 repr argv ws) as (argv & -> & Ha).
  { pose proof Hinv as (Hargs & _ & Htot & ->). destruct cur as [w|]; cbn [words] in E.
    - rewrite bool_decide_eq_true_2 by done. rewrite <- E. apply (push_arg_spec st ws' w Hinv). rewrite E. lia.
    - rewrite bool_decide_eq_false_2 by (by intros []). rewrite app_nil_r in E. rewrite <- E.
      exists (fargv st). by rewrite Htot. }
  rbind. assert (zlen argv = zlen ws) as -> by (unfold zlen; by rewrite (Forall2_length _ _ _ Ha)).
  rewrite header_len by lia. fold h. rewrite u32_small, i32_small by lia.
  rewrite (build_command_spec _ ws); [by rewrite granted| |done|rewrite resp_bulks, zlen_app; fold h; lia|rewrite resp_bulks, zlen_app; fold h; lia].
  clear -Ha. induction Ha as [|s v argv ws Hs _ IH]; [constructor|]. cbn [map]. constructor; [|done].
  destruct (repr_bounds s v Hs) as (-> & _). destruct Hs as (spare & Eb & _). split; [|done]. cbn. rewrite Eb. by exists (0 :: spare).
Qed.

(** the three ways of formatting a command agree. From an argument vector, with given
    lengths or as C strings, and from a format whose words are those arguments,
    [redisFormatCommandArgv], [redisFormatSdsCommandArgv] and [redisvFormatCommand] return the
    protocol's request for the arguments and its exact length; the internal length assertions hold. *)
Theorem formats_agree argv argvlen vs ts y ap :
  argv_means argv argvlen vs → Forall tok_ok ts → words ts None = vs → zlen (resp vs) + 1 < LIMIT →
  redisFormatCommandArgv argv argvlen = Ok (zlen (resp vs), Some (resp vs ++ [0])) ∧
  (∃ s, redisFormatSdsCommandArgv argv argvlen = Ok (zlen (resp vs), Some s) ∧ repr s (resp vs)) ∧
  redisvFormatCommand (format_of ts ++ 0 :: y) (args_of ts ++ ap) = Ok (zlen (resp vs), Some (resp vs ++ [0])).
Proof.
  intros Hv Hts Hw Hlim. split_and!.
  - rewrite (redisFormatCommandArgv_resp argv argvlen vs Hv) by (unfold LIMIT in Hlim; lia). by rewrite granted.
  - by apply redisFormatSdsCommandArgv_resp.
  - rewrite <- Hw in *. by apply redisvFormatCommand_resp.
Qed.

(** what the client sends for a command is what the server's [Split] takes apart: the
    count line, and the length line and bytes of each argument. *)
Theorem client_command_splits argv argvlen name args :
  argv_means argv argvlen (name :: args) → Forall token (name :: args) → name ≠ str "mset" → name ≠ str "MSET" →
  zlen (resp (name :: args)) + 1 < LIMIT →
  ∃ s cmd, redisFormatSdsCommandArgv argv argvlen = Ok (zlen cmd, Some s) ∧ repr s cmd ∧
           Redis.Split cmd crlf = Ok (resp_tokens (name :: args)).
Proof.
  intros Hv Ht Hm1 Hm2 Hlim. destruct (redisFormatSdsCommandArgv_resp argv argvlen _ Hv Hlim) as (s & E & Hs).
  exists s, (resp (name :: args)). split; [done|]. split; [done|].
  rewrite resp_joined in *. apply Split_joined; [by apply resp_tokens_token| |by eapply no_stop_name].
  unfold LIMIT, npos in *. lia.
Qed.

(** ** Writing and reading *)

(** The calls of [write] on a blocking socket that take [n] bytes: some write
    part of what is left, some are interrupted. *)
Fixpoint drains (ws : list wr) (n : Z) : Prop :=
  match ws with
  | [] => n = 0
  | WrErr e :: ws => e = EINTR ∧ 0 < n ∧ drains ws n
  | WrOk k :: ws => 0 ≤ k ≤ n ∧ 0 < n ∧ drains ws (n - k)
  end.

(** What one call of [write] may do: fail so that it is tried again, or take
    some of the bytes. *)
Definition writes_some (c : redisContext) (e : wr) (n : Z) : Prop :=
  match e with WrErr e => retry c e = true | WrOk k => 0 ≤ k ≤ n end.
Definition written (e : wr) : Z := match e with WrErr _ => 0 | WrOk k => k end.

Lemma write_once c w o e ws :
  cerr c = 0 → repr (obuf c) o → writes w = e :: ws → 0 < zlen o → writes_some c e (zlen o) →
  ∃ c' t o', redisBufferWrite c w =
      Ok (Some (REDIS_OK, zlen o' =? 0, c', {| reads := reads w; writes := ws; sent := sent w ++ t |})) ∧
    o = t ++ o' ∧ repr (obuf c') o' ∧ zlen o' = zlen o - written e ∧
    cerr c' = 0 ∧ cflags c' = cflags c ∧ reader c' = reader c.
Proof.
  intros He Hr Hw Hpos Hd. unfold redisBufferWrite. rewrite He. cbn [Z.eqb negb].
  destruct (repr_bounds _ _ Hr) as (Hl & _ & Hf & Hb & Hb2). rewrite Hl, Hw. unfold HDR in *.
  destruct e as [errno|n]; cbn [writes_some written] in *; rewrite (proj2 (Z.ltb_lt _ _)) by done.
  - rewrite Hd. exists c, [], o. rewrite app_nil_r, Z.sub_0_r. by split_and!.
  - rename Hd into Hn. assert (slice (buf (obuf c)) 0 n = Ok (take (Z.to_nat n) o)) as ->.
    { destruct Hr as (spare & Eb & _). rewrite Eb, slice_ok by (rewrite ?zlen_app; pose proof (zlen_nonneg (0 :: spare)); lia).
      rewrite drop_0, take_app_le by (unfold zlen in *; lia). done. }
    rbind. rewrite i32_small by lia. pose proof (take_drop (Z.to_nat n) o) as Eo.
    assert (zlen (drop (Z.to_nat n) o) = zlen o - n) as Hdl by (rewrite zlen_drop; lia).
    destruct (Z.ltb_spec 0 n) as [Hn0|Hn0].
    + destruct (Z.eqb_spec n (zlen o)) as [->|Hne].
      * destruct (sdsempty_repr granted) as (e & -> & Hre). rbind. cbn [nn]. rbind. cbn [set_obuf obuf].
        destruct (repr_bounds e [] Hre) as (-> & _). rewrite to_nat_zlen, take_ge by lia.
        exists (set_obuf e c), o, []. rewrite app_nil_r, Z.sub_diag in *. by split_and!.
      * destruct (sdsrange_repr (obuf c) o n (-1) Hr) as (s' & -> & Hr'); [split; lia|]. rbind. cbn [set_obuf obuf].
        assert (range_spec n (-1) o = drop (Z.to_nat n) o) as Er.
        { unfold range_spec. rewrite (proj2 (Z.ltb_ge n 0)) by lia. change (-1 <? 0) with true. cbv iota.
          rewrite Z.max_r, Z.min_l by lia. rewrite (proj2 (Z.ltb_ge _ _)) by lia. apply take_ge.
          rewrite length_drop. unfold zlen in *. lia. }
        rewrite Er in Hr'. destruct (repr_bounds s' _ Hr') as (-> & _).
        exists (set_obuf s' c), (take (Z.to_nat n) o), (drop (Z.to_nat n) o). rewrite Hdl. by split_and!.
    + assert (n = 0) as -> by lia. rewrite Z.sub_0_r in *. change (Z.to_nat 0) with 0%nat. rewrite take_0.
      exists c, [], o. by split_and!.
Qed.

Lemma write_round c w o e ws :
  cerr c = 0 → repr (obuf c) o → writes w = e :: ws → drains (e :: ws) (zlen o) →
  ∃ c' t o', redisBufferWrite c w =
      Ok (Some (REDIS_OK, zlen o' =? 0, c', {| reads := reads w; writes := ws; sent := sent w ++ t |})) ∧
    o = t ++ o' ∧ repr (obuf c') o' ∧ drains ws (zlen o') ∧
    cerr c' = 0 ∧ cflags c' = cflags c ∧ reader c' = reader c.
Proof.
  intros He Hr Hw Hd.
  assert (0 < zlen o ∧ writes_some c e (zlen o) ∧ drains ws (zlen o - written e)) as (Hpos & Hs & Hd').
  { destruct e as [errno|n]; cbn [drains] in Hd.
    - destruct Hd as (-> & ? & ?). cbn [writes_some written]. unfold retry. by rewrite Z.sub_0_r, orb_true_r.
    - by destruct Hd as (? & ? & ?). }
  destruct (write_once c w o e ws He Hr Hw Hpos Hs) as (c' & t & o' & ? & ? & ? & Hz & ?). exists c', t, o'. rewrite Hz.
  by rewrite Hz in *.
Qed.

Lemma write_all ws : ∀ c w o,
  cerr c = 0 → repr (obuf c) o → writes w = ws → drains ws (zlen o) →
  ∃ c', write_loop (S (length ws)) c w =
      Ok (Some (REDIS_OK, c', {| reads := reads w; writes := []; sent := sent w ++ o |})) ∧
    repr (obuf c') [] ∧ cerr c' = 0 ∧ cflags c' = cflags c ∧ reader c' = reader c.
Proof.
  induction ws as [|e ws IH]; intros c w o He Hr Hw Hd.
  - cbn [drains] in Hd. apply zlen_0_inv in Hd as ->. cbn [write_loop length]. unfold redisBufferWrite. rewrite He.
    cbn [Z.eqb negb]. destruct (repr_bounds _ _ Hr) as (-> & _). cbn. exists c. rewrite app_nil_r.
    destruct w as [rs ws' st]. cbn in *. rewrite Hw. by split_and!.
  - destruct (write_round c w o e ws He Hr Hw Hd) as (c1 & t & o' & E & -> & Hr1 & Hd1 & He1 & Hf1 & Hrd1).
    assert (∀ f, write_loop (S f) c w = if zlen o' =? 0 then Ok (Some (REDIS_OK, c1, {| reads := reads w; writes := ws; sent := sent w ++ t |}))
      else write_loop f c1 {| reads := reads w; writes := ws; sent := sent w ++ t |}) as Estep.
    { intros f. cbn [write_loop]. rewrite E. rbind. change (REDIS_OK =? REDIS_ERR) with false. done. }
    cbn [length]. rewrite Estep. destruct (Z.eqb_spec (zlen o') 0) as [E0|E0].
    + apply zlen_0_inv in E0 as ->. assert (ws = []) as ->.
      { destruct ws as [|[e'|k] ws]; [done| |]; cbn [drains] in Hd1; change (zlen []) with 0 in Hd1; lia. }
      exists c1. rewrite app_nil_r. by split_and!.
    + destruct (IH c1 {| reads := reads w; writes := ws; sent := sent w ++ t |} o' He1 Hr1 eq_refl Hd1)
        as (c' & -> & ? & ? & ? & ?).
      exists c'. cbn [reads sent]. rewrite <- app_assoc. split_and!; congruence.
Qed.

Lemma read_chunks chunks : ∀ c w r' l,
  chunks ≠ [] → Forall (λ b, b ≠ []) chunks → cerr c = 0 → reads w = map RdData chunks →
  feed_all (reader c) chunks = Ok (answers (length chunks - 1) (Some l), r') →
  read_loop (S (length chunks)) c w =
    Ok (Some (REDIS_OK, Some l, set_reader r' c, {| reads := []; writes := writes w; sent := sent w |})).
Proof.
  induction chunks as [|b bs IH]; intros c w r' l Hne Hall He Hw E; [done|].
  apply Forall_cons in Hall as [Hb Hbs]. cbn [length]. remember (S (length bs)) as fuel eqn:Ef.
  cbn [read_loop]. unfold redisBufferRead. rewrite He, Hw. cbn [map Z.eqb negb].
  destruct b as [|x b]; [done|]. cbn [feed_all] in E.
  destruct (redisReaderFeed _ _ _) as [[st1 r1]|] eqn:E1; [|done]. cbn [mbind result_bind] in E. rbind.
  destruct (redisReaderGetReply r1) as [[[st2 o] r2]|] eqn:E2; [|done]. cbn [mbind result_bind] in E.
  destruct (feed_all r2 bs) as [[os r3]|] eqn:E3; [|done]. cbn [mbind result_bind] in E. injection E as Eans Er. subst r3.
  destruct bs as [|b' bs].
  - cbn [length Nat.sub answers replicate app] in Eans. injection Eans as -> -> -> _.
    cbn [feed_all] in E3. injection E3 as _ <-. change (negb (REDIS_OK =? REDIS_OK)) with false. cbv iota. rbind.
    change (REDIS_OK =? REDIS_ERR) with false. cbv iota. unfold redisGetReplyFromReader. cbn [reader set_reader].
    rewrite E2. rbind. change (REDIS_OK =? REDIS_ERR) with false. done.
  - cbn [length Nat.sub answers replicate app] in Eans. injection Eans as -> -> -> Eos.
    change (negb (REDIS_OK =? REDIS_OK)) with false. cbv iota. rbind.
    change (REDIS_OK =? REDIS_ERR) with false. cbv iota. unfold redisGetReplyFromReader. cbn [reader set_reader].
    rewrite E2. rbind. change (REDIS_OK =? REDIS_ERR) with false. cbv iota. rbind. subst fuel.
    rewrite (IH (set_reader r2 (set_reader r1 c)) _ r' l); try done.
    cbn [reader set_reader]. rewrite E3. do 2 f_equal. rewrite Eos. cbn [length Nat.sub]. by rewrite Nat.sub_0_r.
Qed.

(** A blocking context without an error, with [o] still to be sent, between
    two replies. *)
Definition connected (c : redisContext) (o : bytes) : Prop :=
  cerr c = 0 ∧ blocking c = true ∧ repr (obuf c) o ∧ ready (reader c).

Lemma get_reply_sends c w o v chunks :
  connected c o → drains (writes w) (zlen o) → reads w = map RdData chunks →
  concat chunks = enc v → Forall (λ b, b ≠ []) chunks → valid 8 v → 1024 + zlen (enc v) < LIMIT →
  ∃ l c', redisGetReply c w = Ok (Some (REDIS_OK, Some l, c', {| reads := []; writes := []; sent := sent w ++ o |})) ∧
    connected c' [] ∧ denotes (rheap (reader c')) v l.
Proof.
  intros (He & Hbl & Ho & Hr) Hd Hrd Hc Hne Hv Hlim. unfold redisGetReply, redisGetReplyFromReader.
  destruct (get_reply_idle (reader c) Hr) as (r1 & -> & Hr1 & _ & _). rbind.
  change (REDIS_OK =? REDIS_ERR) with false. cbv iota. rbind. change (blocking (set_reader r1 c)) with (blocking c). rewrite Hbl.
  destruct (write_all (writes w) (set_reader r1 c) w o) as (c1 & -> & Ho1 & He1 & Hf1 & Hrd1); try done. rbind.
  change (REDIS_OK =? REDIS_ERR) with false. cbv iota. cbn [reader set_reader] in Hrd1. rewrite <- Hrd1 in Hr1.
  destruct (reply_read granted (reader c1) v chunks Hr1) as (r' & Ef & Hden & Hr' & _); try done.
  cbn [reads]. rewrite Hrd, length_map.
  rewrite (read_chunks chunks c1 _ r' (rnext (reader c1))); try done; [|by intros ->; destruct v].
  exists (rnext (reader c1)), (set_reader r' c1). split; [done|]. split; [|done].
  split; [done|]. split; [|done]. rewrite <- Hbl. unfold blocking. cbn. by rewrite Hf1.
Qed.

End hiredis_spec.

(** ** Examples *)

#[local] Existing Instance calloc_all.
#[local] Instance libc_example : Libc :=
  {| printf_conv fmt ap := match ap with VaInt z :: _ => sdec z | _ => [] end; strerror e := str "error" |}.
#[local] Instance libc_example_laws : LibcLaws.
Proof. done. Qed.

(** a format that ends within a conversion, as [SET k %5] does, is not rejected: the
    terminator passes for a conversion character, the argument is consumed, and the loop goes
    on behind the end of the format string. *)
Theorem format_end_overread :
  redisvFormatCommand (str "SET k %5" ++ [0]) [VaInt 1] = Fault OutOfBounds ∧
  redisvFormatCommand (str "SET k %y" ++ [0]) [VaInt 1] = Ok (-2, None).
Proof. split; by vm_compute. Qed.

Lemma formats_agree_witness :
  redisFormatCommandArgv [str "SET" ++ [0]; str "k" ++ [0; 9]] None = Ok (20, Some (resp [str "SET"; str "k"] ++ [0])) ∧
  redisvFormatCommand (str "SET %s" ++ [0]) [VaPtr (str "k" ++ [0])] = Ok (20, Some (resp [str "SET"; str "k"] ++ [0])).
Proof.
  destruct (@formats_agree calloc_all libc_example (λ _, eq_refl) libc_example_laws
    [str "SET" ++ [0]; str "k" ++ [0; 9]] None [str "SET"; str "k"]
    [TChar 83; TChar 69; TChar 84; TSpace; TStr (str "k") []] [] []) as (E1 & _ & E2).
  - repeat constructor; [exists []|exists [9]]; (split; [reflexivity|repeat constructor; done]).
  - repeat constructor; done.
  - reflexivity.
  - vm_compute. reflexivity.
  - split; [exact E1|exact E2].
Defined.

Lemma client_command_splits_witness :
  ∃ s, redisFormatSdsCommandArgv [str "get"; str "key"] (Some [3; 3]) = Ok (zlen (resp [str "get"; str "key"]), Some s) ∧
    repr s (resp [str "get"; str "key"]) ∧
    Redis.Split (resp [str "get"; str "key"]) crlf = Ok [str "*2"; str "$3"; str "get"; str "$3"; str "key"].
Proof.
  destruct (@client_command_splits calloc_all (λ _, eq_refl) [str "get"; str "key"] (Some [3; 3]) (str "get") [str "key"])
    as (s & cmd & E & Hs & Hsp).
  - split; [reflexivity|]. repeat constructor; by exists [].
  - repeat constructor; done.
  - discriminate.
  - discriminate.
  - vm_compute. reflexivity.
  - destruct (@redisFormatSdsCommandArgv_resp calloc_all (λ _, eq_refl) [str "get"; str "key"] (Some [3; 3])
      [str "get"; str "key"]) as (s' & E' & Hs').
    + split; [reflexivity|]. repeat constructor; by exists [].
    + vm_compute. reflexivity.
    + rewrite E' in E. injection E as El Es. exists s'. split; [exact E'|]. split; [exact Hs'|].
      vm_compute. reflexivity.
Defined.

Lemma connected_example : ∃ c, redisConnectFd 3 = Ok (Some c) ∧ connected c [].
Proof.
  destruct (@sdsempty_repr calloc_all (λ _, eq_refl)) as (s & E & Hs). destruct created_ready as (r & Er & _ & Hr).
  unfold redisConnectFd, redisContextInit. cbn [malloc_ok calloc_all negb]. rewrite E. rbind. rewrite Er. rbind.
  eexists. split; [done|]. by split_and!.
Qed.

