(* ===== verification/Dict.v ===== *)
(** * The hash table of the asynchronous client (pack/hiredis/dict.h, dict.c)

    Chained buckets, a power of two of them, doubled when there are as many
    entries as buckets. A chain is the list of its entries from its head; the
    calls of the destructors are logged. The table refines a finite map. *)

From S2P Require Import Prelude Cstd Cmem Sds.

Module Dict.

Definition DICT_OK : Z := 0.
Definition DICT_ERR : Z := 1.
Definition DICT_HT_INITIAL_SIZE : Z := 4.
Definition LONG_MAX : Z := 2 ^ 63 - 1.

(** [struct dictType]; a NULL [keyDup] or [valDup] is the identity, a NULL
    [keyCompare] is equality. *)
Class dictType (K V : Type) := {
  hashFunction : K → Z;
  keyDup : K → K;
  valDup : V → V;
  keyCompare : K → K → bool
}.

(** [dictGenHashFunction]: a 32-bit hash, with the [+] after the shift. *)
Fixpoint gen_hash (hash : Z) (buf : bytes) : Z :=
  match buf with
  | [] => hash
  | c :: buf => gen_hash (u32 (u32 (u32 (Z.shiftl hash 5) + hash) + c)) buf
  end.
Definition dictGenHashFunction (buf : bytes) : Z := gen_hash 5381 buf.

(** [_dictNextPower]: from 4, at most 62 doublings. *)
Fixpoint next_power (fuel : nat) (i size : Z) : Z :=
  match fuel with
  | O => i
  | S fuel => if size <=? i then i else next_power fuel (u64 (i * 2)) size
  end.
Definition dictNextPower (size : Z) : Z :=
  if LONG_MAX <=? size then LONG_MAX else next_power 63 DICT_HT_INITIAL_SIZE size.

Section dict.
Context {K V : Type} `{Malloc} `{dictType K V}.

Abbreviation chain := (list (K * V)).

(** [struct dict] and the keys and values destroyed so far. *)
Record dict := {
  table : list chain;
  size : Z;
  sizemask : Z;
  used : Z;
  destroyed : list (K + V)
}.

Definition set_used (u : Z) (ht : dict) : dict :=
  {| table := table ht; size := size ht; sizemask := sizemask ht; used := u; destroyed := destroyed ht |}.
Definition set_table (t : list chain) (u : Z) (ht : dict) : dict :=
  {| table := t; size := size ht; sizemask := sizemask ht; used := u; destroyed := destroyed ht |}.
Definition destroy (l : list (K + V)) (ht : dict) : dict :=
  {| table := table ht; size := size ht; sizemask := sizemask ht; used := used ht; destroyed := destroyed ht ++ l |}.

Definition dictReset (ht : dict) : dict :=
  {| table := []; size := 0; sizemask := 0; used := 0; destroyed := destroyed ht |}.

Definition dictCreate : result dict :=
  if malloc_ok 48 then Ok {| table := []; size := 0; sizemask := 0; used := 0; destroyed := [] |} else Fault OutOfBounds.

(** [ht->table[i]] for an [unsigned long] or an [int] index. *)
Definition bucket (t : list chain) (i : Z) : result chain := vec_at t i.

(** [dictHashKey(ht, key) & mask], an [unsigned int]. *)
Definition slot (k : K) (mask : Z) : Z := u32 (Z.land (u32 (hashFunction k)) mask).

(** One chain moved into the new table, entry by entry. *)
Fixpoint rehash_chain (he : chain) (mask : Z) (t : list chain) (u : Z) : result (list chain * Z) :=
  match he with
  | [] => Ok (t, u)
  | (k, v) :: he =>
      let h := slot k mask in
      c ← bucket t h;
      rehash_chain he mask (<[Z.to_nat h := (k, v) :: c]> t) (u64 (u - 1))
  end.

(** [for (i = 0; i < ht->size && ht->used > 0; i++)]. *)
Fixpoint rehash_loop (old : list chain) (mask : Z) (t : list chain) (u : Z) : result (list chain * Z) :=
  match old with
  | [] => Ok (t, u)
  | c :: old => if 0 <? u then '(t, u) ← rehash_chain c mask t u; rehash_loop old mask t u else Ok (t, u)
  end.

Definition dictExpand (ht : dict) (sz : Z) : result (Z * dict) :=
  let realsize := dictNextPower sz in
  if sz <? used ht then Ok (DICT_ERR, ht)
  else
    let mask := u64 (realsize - 1) in
    if negb (malloc_ok (u64 (realsize * 8))) then
      (* the NULL table is written when there is an entry to move *)
      if 0 <? used ht then Fault OutOfBounds
      else Ok (DICT_OK, {| table := []; size := realsize; sizemask := mask; used := 0; destroyed := destroyed ht |})
    else
      '(t, u) ← rehash_loop (table ht) mask (replicate (Z.to_nat realsize) []) (used ht);
      if negb (u =? 0) then Fault AssertFailed
      else Ok (DICT_OK, {| table := t; size := realsize; sizemask := mask; used := used ht; destroyed := destroyed ht |}).

Definition dictExpandIfNeeded (ht : dict) : result (Z * dict) :=
  if size ht =? 0 then dictExpand ht DICT_HT_INITIAL_SIZE
  else if used ht =? size ht then dictExpand ht (u64 (size ht * 2))
  else Ok (DICT_OK, ht).

(** The first entry of a chain with the key. *)
Fixpoint chain_find (key : K) (he : chain) : option V :=
  match he with
  | [] => None
  | (k, v) :: he => if keyCompare key k then Some v else chain_find key he
  end.

(** [_dictKeyIndex]: the index, or -1. *)
Definition dictKeyIndex (ht : dict) (key : K) : result (Z * dict) :=
  '(st, ht) ← dictExpandIfNeeded ht;
  if st =? DICT_ERR then Ok (-1, ht)
  else
    let h := slot key (sizemask ht) in
    c ← bucket (table ht) h;
    match chain_find key c with Some _ => Ok (-1, ht) | None => Ok (i32 h, ht) end.

Definition dictAdd (ht : dict) (key : K) (val : V) : result (Z * dict) :=
  '(index, ht) ← dictKeyIndex ht key;
  if index =? -1 then Ok (DICT_ERR, ht)
  else if negb (malloc_ok 24) then Fault OutOfBounds
  else
    c ← bucket (table ht) index;
    Ok (DICT_OK, set_table (<[Z.to_nat index := (keyDup key, valDup val) :: c]> (table ht)) (u64 (used ht + 1)) ht).

Definition dictFind (ht : dict) (key : K) : result (option V) :=
  if size ht =? 0 then Ok None
  else c ← bucket (table ht) (slot key (sizemask ht)); Ok (chain_find key c).

(** The value of the found entry is set. *)
Fixpoint chain_set (key : K) (val : V) (he : chain) : chain :=
  match he with
  | [] => []
  | (k, v) :: he => if keyCompare key k then (k, val) :: he else (k, v) :: chain_set key val he
  end.

(** [dictReplace]: the entry [dictFind] returns is written through. *)
Definition dictReplace (ht : dict) (key : K) (val : V) : result (Z * dict) :=
  '(st, ht) ← dictAdd ht key val;
  if st =? DICT_OK then Ok (1, ht)
  else
    o ← dictFind ht key;
    old ← Sds.nn o;
    let h := slot key (sizemask ht) in
    c ← bucket (table ht) h;
    Ok (0, destroy [inr old] (set_table (<[Z.to_nat h := chain_set key (valDup val) c]> (table ht)) (used ht) ht)).

(** The chain without the first entry with the key, and that entry. *)
Fixpoint chain_unlink (key : K) (he : chain) : option (K * V * chain) :=
  match he with
  | [] => None
  | (k, v) :: he =>
      if keyCompare key k then Some (k, v, he)
      else match chain_unlink key he with Some (k', v', he') => Some (k', v', (k, v) :: he') | None => None end
  end.

Definition dictDelete (ht : dict) (key : K) : result (Z * dict) :=
  if size ht =? 0 then Ok (DICT_ERR, ht)
  else
    let h := slot key (sizemask ht) in
    c ← bucket (table ht) h;
    match chain_unlink key c with
    | None => Ok (DICT_ERR, ht)
    | Some (k, v, c) =>
        Ok (DICT_OK, destroy [inl k; inr v] (set_table (<[Z.to_nat h := c]> (table ht)) (u64 (used ht - 1)) ht))
    end.

(** The destructor calls of a chain. *)
Definition chain_parts (he : chain) : list (K + V) := concat (map (λ p, [inl p.1; inr p.2]) he).

(** [for (i = 0; i < ht->size && ht->used > 0; i++)] of [_dictClear]. *)
Fixpoint clear_loop (t : list chain) (u : Z) : list (K + V) :=
  match t with
  | [] => []
  | c :: t => if 0 <? u then chain_parts c ++ clear_loop t (u64 (u - zlen c)) else []
  end.

Definition dictClear (ht : dict) : Z * dict :=
  (DICT_OK, dictReset (destroy (clear_loop (table ht) (used ht)) ht)).

(** [struct dictIterator]: [entry] and [nextEntry] are the chain from the
    entry on, empty for NULL. *)
Record dictIterator := { index : Z; entry : chain; nextEntry : chain }.

Definition dictGetIterator : dictIterator := {| index := -1; entry := []; nextEntry := [] |}.

Fixpoint next_loop (fuel : nat) (ht : dict) (it : dictIterator) : result (option (K * V) * dictIterator) :=
  match fuel with
  | O => Ok (None, it)
  | S fuel =>
      '(stop, it) ← (match entry it with
                     | [] =>
                         i ← Sds.int_of (index it + 1);
                         if i32 (size ht) <=? i then Ok (true, {| index := i; entry := []; nextEntry := nextEntry it |})
                         else c ← bucket (table ht) i; Ok (false, {| index := i; entry := c; nextEntry := nextEntry it |})
                     | _ => Ok (false, {| index := index it; entry := nextEntry it; nextEntry := nextEntry it |})
                     end);
      if (stop : bool) then Ok (None, it)
      else match entry it with
           | [] => next_loop fuel ht it
           | e :: rest => Ok (Some e, {| index := index it; entry := entry it; nextEntry := rest |})
           end
  end.

(** [dictNext]: each round without an entry moves to the next bucket. *)
Definition dictNext (ht : dict) (it : dictIterator) : result (option (K * V) * dictIterator) :=
  next_loop (length (table ht) + 3) ht it.
End dict.
End Dict.
