(* ===== verification/DictSpec.v ===== *)
(** * The hash table is a finite map (theorems about Dict.v) *)

From S2P Require Import Prelude Cstd Cmem Sds SdsSpec Dict.
Import Dict.

(** ** Buckets *)

#[global] Instance zlen_Permutation {A} : Proper (Permutation ==> eq) (@zlen A).
Proof. intros l l' E. unfold zlen. by rewrite E. Qed.

(** Replacing one list of a list of lists. *)
Lemma concat_insert {A} (t : list (list A)) i c :
  t !! i = Some c → ∃ rest, concat t ≡ₚ c ++ rest ∧ ∀ c', concat (<[i := c']> t) ≡ₚ c' ++ rest.
Proof.
  revert i. induction t as [|x t IH]; intros [|i] Hi; try done.
  - injection Hi as ->. by exists (concat t).
  - destruct (IH i Hi) as (rest & E & E'). exists (x ++ rest). cbn [concat]. split.
    + rewrite E, !app_assoc. by rewrite (Permutation_app_comm x c).
    + intros c'. cbn. rewrite (E' c'), !app_assoc. by rewrite (Permutation_app_comm x c').
Qed.

Lemma next_power_spec fuel k n :
  0 ≤ k → n ≤ 2 ^ (k + Z.of_nat fuel) → k + Z.of_nat fuel ≤ 63 → ∃ k', next_power fuel (2 ^ k) n = 2 ^ k' ∧ k ≤ k' ∧ n ≤ 2 ^ k' ∧
  (k' = k ∨ 2 ^ (k' - 1) < n).
Proof.
  revert k. induction fuel as [|fuel IH]; intros k Hk Hn Hf; cbn [next_power].
  - exists k. rewrite Z.add_0_r in Hn. split_and!; try done. by left.
  - destruct (Z.leb_spec n (2 ^ k)) as [Hle|Hlt]; [exists k; split_and!; try done; by left|].
    assert (2 ^ k < 2 ^ 63) by (apply Z.pow_lt_mono_r; lia). assert (0 < 2 ^ k) by (apply Z.pow_pos_nonneg; lia).
    rewrite u64_small by lia. replace (2 ^ k * 2) with (2 ^ (k + 1)) by (rewrite Z.pow_add_r; lia).
    destruct (IH (k + 1)) as (k' & -> & Hk' & Hn' & Hor); [lia| |lia|].
    { replace (k + 1 + Z.of_nat fuel) with (k + Z.of_nat (S fuel)) by lia. done. }
    exists k'. split_and!; try done; [lia|]. right. destruct Hor as [->|]; [|done].
    by replace (k + 1 - 1) with k by lia.
Qed.

Section dict_spec.
Context {K V : Type} `{Countable K} `{Malloc} `{dictType K V}.

(** What the callbacks of a [dictType] do: keys are compared for equality
    and a duplicated key is the same key. *)
Class dictLaws := {
  keyCompare_eq : ∀ a b : K, keyCompare a b = bool_decide (a = b);
  keyDup_eq : ∀ k : K, keyDup k = k
}.
Context `{dictLaws}.
Hypothesis granted : ∀ n, malloc_ok n = true.

Abbreviation chain := (list (K * V)).
Abbreviation dict := (@Dict.dict K V).

(** Every entry is in the bucket its key hashes to. *)
Definition placed (t : list chain) (mask : Z) : Prop :=
  ∀ i c k v, t !! i = Some c → (k, v) ∈ c → slot k mask = Z.of_nat i.

(** The buckets: none yet, or a power of two of them. *)
Definition shaped (t : list chain) (n mask : Z) : Prop :=
  (n = 0 ∧ t = []) ∨
  (∃ k, 2 ≤ k ≤ 31 ∧ n = 2 ^ k ∧ mask = n - 1 ∧ length t = Z.to_nat n ∧ placed t mask).

Definition entries (ht : dict) : chain := concat (table ht).

Record wf (ht : dict) : Prop := {
  wf_shape : shaped (table ht) (size ht) (sizemask ht);
  wf_nodup : NoDup (entries ht).*1;
  wf_used : used ht = zlen (entries ht)
}.

(** The map the table stands for. *)
Definition repr (ht : dict) (m : gmap K V) : Prop := wf ht ∧ list_to_map (entries ht) = m.

Lemma slot_range k n x : 0 ≤ k ≤ 31 → n = 2 ^ k → 0 ≤ slot x (n - 1) < n.
Proof.
  intros Hk ->. unfold slot. replace (2 ^ k - 1) with (Z.ones k) by (rewrite Z.ones_equiv; lia).
  rewrite Z.land_ones by lia. pose proof (Z.mod_pos_bound (u32 (hashFunction x)) (2 ^ k) ltac:(apply Z.pow_pos_nonneg; lia)).
  assert (2 ^ k ≤ 2 ^ 31) by (apply Z.pow_le_mono_r; lia). rewrite u32_small by lia. done.
Qed.

Lemma bucket_ok (t : list chain) i c : 0 ≤ i → t !! Z.to_nat i = Some c → bucket t i = Ok c.
Proof.
  intros Hi Hc. unfold bucket, vec_at. apply lookup_lt_Some in Hc as Hl.
  rewrite (proj2 (Z.leb_le 0 i)), (proj2 (Z.ltb_lt _ _)) by (unfold zlen; lia). cbn [andb]. by rewrite Hc.
Qed.

(** The bucket of a key, and where the key can be. *)
Lemma key_bucket (t : list chain) n mask k :
  2 ≤ k ≤ 31 → n = 2 ^ k → mask = n - 1 → length t = Z.to_nat n → placed t mask → ∀ x,
  ∃ c, bucket t (slot x mask) = Ok c ∧ t !! Z.to_nat (slot x mask) = Some c ∧
       ∀ v, (x, v) ∈ concat t ↔ (x, v) ∈ c.
Proof.
  intros Hk Hn -> Hlen Hp x. destruct (slot_range k n x ltac:(lia) Hn) as [Hs1 Hs2].
  destruct (lookup_lt_is_Some_2 t (Z.to_nat (slot x (n - 1)))) as [c Hc]; [lia|].
  exists c. split; [by apply bucket_ok|]. split; [done|]. intros v. split.
  - intros Hin. apply list_elem_of_In, in_concat in Hin as (c' & Hc' & Hin). apply list_elem_of_In in Hc', Hin.
    apply list_elem_of_lookup in Hc' as [i Hi]. pose proof (Hp i c' x v Hi Hin) as E.
    rewrite E, Nat2Z.id in Hc. congruence.
  - intros Hin. apply list_elem_of_In, in_concat. exists c. split; apply list_elem_of_In; [|done].
    by apply list_elem_of_lookup_2 in Hc.
Qed.

Lemma chain_find_spec x (c : chain) :
  match chain_find x c with Some v => (x, v) ∈ c | None => ∀ v, (x, v) ∉ c end.
Proof.
  induction c as [|[k v] c IH]; cbn [chain_find]; [intros v; apply not_elem_of_nil|].
  rewrite keyCompare_eq. case_bool_decide as E; [subst; left|].
  destruct (chain_find x c) as [w|]; [by right|]. intros w [?|Hin]%elem_of_cons; [by simplify_eq|by apply (IH w)].
Qed.

Lemma find_in_map ht x c :
  wf ht → (∀ v, (x, v) ∈ entries ht ↔ (x, v) ∈ c) → chain_find x c = (list_to_map (entries ht) : gmap K V) !! x.
Proof.
  intros Hwf Hin. pose proof (chain_find_spec x c) as Hf. destruct (chain_find x c) as [v|].
  - symmetry. apply elem_of_list_to_map; [apply Hwf|]. by apply Hin.
  - symmetry. apply not_elem_of_list_to_map_1. intros Hx. apply list_elem_of_fmap in Hx as ([k v] & E & Hx). cbn in E. subst k.
    by apply (Hf v), Hin.
Qed.

Lemma empty_entries ht : wf ht → size ht = 0 → entries ht = [].
Proof.
  intros Hwf Hs. destruct (wf_shape _ Hwf) as [[_ Ht]|(k & Hk & Hn & _)]; [unfold entries; by rewrite Ht|].
  assert (0 < 2 ^ k) by (apply Z.pow_pos_nonneg; lia). lia.
Qed.

Lemma dictFind_spec ht m x : repr ht m → dictFind ht x = Ok (m !! x).
Proof.
  intros [Hwf <-]. unfold dictFind. destruct (Z.eqb_spec (size ht) 0) as [E|E].
  - by rewrite empty_entries.
  - destruct (wf_shape _ Hwf) as [[? _]|(k & Hk & Hn & Hm & Hl & Hp)]; [done|].
    destruct (key_bucket _ _ _ k Hk Hn Hm Hl Hp x) as (c & -> & _ & Hin). rbind. f_equal. by apply find_in_map.
Qed.

(** ** Growing *)

Lemma placed_cons t n mask k x v c :
  2 ≤ k ≤ 31 → n = 2 ^ k → mask = n - 1 → length t = Z.to_nat n → placed t mask → t !! Z.to_nat (slot x mask) = Some c →
  placed (<[Z.to_nat (slot x mask) := (x, v) :: c]> t) mask.
Proof.
  intros Hk Hn -> Hlen Hp Hc i c' k' v' Hi Hin. destruct (slot_range k n x ltac:(lia) Hn) as [Hs _].
  apply list_lookup_insert_Some in Hi as [(<- & <- & _)|(_ & Hi)]; [|by eapply Hp].
  apply elem_of_cons in Hin as [E|Hin]; [injection E as -> _; lia|by eapply Hp].
Qed.

Lemma rehash_chain_spec n mask k he : 2 ≤ k ≤ 31 → n = 2 ^ k → mask = n - 1 → ∀ (t : list chain) u,
  length t = Z.to_nat n → placed t mask → zlen he ≤ u < 2 ^ 64 →
  ∃ t', rehash_chain he mask t u = Ok (t', u - zlen he) ∧ length t' = Z.to_nat n ∧ placed t' mask ∧
        concat t' ≡ₚ he ++ concat t.
Proof.
  intros Hk Hn Hm. induction he as [|[x v] he IH]; intros t u Hl Hp Hu; cbn [rehash_chain].
  { exists t. rewrite Z.sub_0_r. by split_and!. }
  rewrite zlen_cons in Hu. pose proof (zlen_nonneg he).
  destruct (key_bucket t n mask k Hk Hn Hm Hl Hp x) as (c & -> & Hc & _). rbind. rewrite u64_small by lia.
  destruct (IH (<[Z.to_nat (slot x mask) := (x, v) :: c]> t) (u - 1)) as (t' & E & Hl' & Hp' & Hc').
  { by rewrite length_insert. } { by eapply placed_cons. } { lia. }
  exists t'. split; [rewrite E; do 2 f_equal; zlia|]. split; [done|]. split; [done|]. rewrite Hc'.
  destruct (concat_insert t _ c Hc) as (rest & E1 & E2). rewrite E2, E1. cbn. by rewrite <- Permutation_middle.
Qed.

Lemma rehash_loop_spec n mask k old : 2 ≤ k ≤ 31 → n = 2 ^ k → mask = n - 1 → ∀ (t : list chain),
  length t = Z.to_nat n → placed t mask → zlen (concat old) < 2 ^ 64 →
  ∃ t', rehash_loop old mask t (zlen (concat old)) = Ok (t', 0) ∧ length t' = Z.to_nat n ∧ placed t' mask ∧
        concat t' ≡ₚ concat old ++ concat t.
Proof.
  intros Hk Hn Hm. induction old as [|c old IH]; intros t Hl Hp Hu; cbn [rehash_loop concat] in *; [by exists t|].
  pose proof (zlen_nonneg c). pose proof (zlen_nonneg (concat old)). rewrite zlen_app in *.
  destruct (Z.ltb_spec 0 (zlen c + zlen (concat old))) as [Hpos|Hz].
  - destruct (rehash_chain_spec n mask k c Hk Hn Hm t _ Hl Hp ltac:(split; [|exact Hu]; lia)) as (t1 & -> & Hl1 & Hp1 & Hc1). rbind.
    replace (zlen c + zlen (concat old) - zlen c) with (zlen (concat old)) by lia.
    destruct (IH t1 Hl1 Hp1 ltac:(lia)) as (t' & -> & ? & ? & E). exists t'. split_and!; try done.
    rewrite E, Hc1, !app_assoc. by rewrite (Permutation_app_comm c).
  - assert (c = []) as -> by (apply zlen_0_inv; lia). assert (concat old = []) as E by (apply zlen_0_inv; lia).
    rewrite E in *. exists t. by split_and!.
Qed.

Lemma repr_permute ht ht' m :
  repr ht m → shaped (table ht') (size ht') (sizemask ht') → entries ht' ≡ₚ entries ht → used ht' = used ht → repr ht' m.
Proof.
  intros [Hwf <-] Hs Hp Hu. assert (NoDup (entries ht').*1) as Hnd by (rewrite Hp; apply Hwf).
  split; [|by apply list_to_map_proper]. split; [done|done|]. rewrite Hu, (wf_used _ Hwf). unfold zlen. by rewrite Hp.
Qed.

Lemma dictExpand_spec ht m n :
  repr ht m → zlen (entries ht) ≤ n ≤ 2 ^ 31 →
  ∃ ht', dictExpand ht n = Ok (DICT_OK, ht') ∧ repr ht' m ∧ n ≤ size ht' ∧ size ht' ≠ 0 ∧ size ht' ≤ Z.max 4 (2 * n).
Proof.
  intros Hr Hn. pose proof Hr as [Hwf _]. unfold dictExpand. rewrite (wf_used _ Hwf). pose proof (zlen_nonneg (entries ht)).
  rewrite (proj2 (Z.ltb_ge _ _)) by lia. rewrite granted. cbn [negb].
  unfold dictNextPower. rewrite (proj2 (Z.leb_gt _ _)) by (unfold LONG_MAX; lia).
  destruct (next_power_spec 61 2 n) as (k & E & Hk & Hnk & Hor); [lia|change (2 + Z.of_nat 61) with 63; lia|lia|].
  assert (next_power 63 DICT_HT_INITIAL_SIZE n = 2 ^ k ∧ k ≤ 31) as [-> Hk31].
  { assert (k ≤ 31) as Hk31.
    { destruct Hor as [->|Hlt]; [lia|]. destruct (Z.le_gt_cases k 31) as [|Hgt]; [done|].
      assert (2 ^ 31 ≤ 2 ^ (k - 1)) by (apply Z.pow_le_mono_r; lia). lia. }
    split; [|done]. rewrite <- E. clear -Hnk E Hk Hk31.
    assert (∀ f j, (f ≤ 61)%nat → next_power f (2 ^ 2) n = 2 ^ k → n ≤ 2 ^ k → j = (f + 2)%nat → next_power j DICT_HT_INITIAL_SIZE n = 2 ^ k) as Hgen.
    { change (2 ^ 2) with DICT_HT_INITIAL_SIZE. generalize DICT_HT_INITIAL_SIZE as i. intros i f. revert i.
      induction f as [|f IH]; intros i j Hf Hi Hn ->.
      - cbn in Hi. subst i. cbn. by rewrite (proj2 (Z.leb_le _ _)).
      - cbn [next_power Nat.add] in *. destruct (n <=? i); [done|]. apply (IH _ (f + 2)%nat); try done. lia. }
    rewrite E. by apply (Hgen 61%nat 63%nat). }
  assert (2 ^ 2 ≤ 2 ^ k) as Hk4 by (apply Z.pow_le_mono_r; lia). assert (2 ^ k ≤ 2 ^ 31) by (apply Z.pow_le_mono_r; lia).
  rewrite u64_small by lia. set (t0 := replicate _ []).
  assert (concat t0 = []) as Ht0 by (subst t0; clear; induction (Z.to_nat (2 ^ k)); done).
  destruct (rehash_loop_spec (2 ^ k) (2 ^ k - 1) k (table ht) ltac:(lia) eq_refl eq_refl t0) as (t' & Et & Hl & Hp & Hc).
  { subst t0. by rewrite length_replicate. }
  { intros i c x v Hi Hin. subst t0. apply lookup_replicate in Hi as [-> _]. by apply not_elem_of_nil in Hin. }
  { change (zlen (entries ht) < 2 ^ 64). lia. }
  change (concat (table ht)) with (entries ht) in Et. rewrite Et. rbind. cbn [Z.eqb negb]. eexists. split; [done|]. cbn [size]. split_and!; [|done|lia|].
  - eapply repr_permute; [exact Hr| | |by rewrite <- (wf_used _ Hwf)].
    + right. exists k. by split_and!.
    + unfold entries. cbn [table]. by rewrite Hc, Ht0, app_nil_r.
  - destruct Hor as [->|Hlt]; [lia|]. replace (2 ^ k) with (2 * 2 ^ (k - 1)); [lia|].
    rewrite <- Z.pow_succ_r by lia. f_equal. lia.
Qed.

Lemma dictExpandIfNeeded_spec ht m :
  repr ht m → zlen (entries ht) < 2 ^ 30 →
  ∃ ht', dictExpandIfNeeded ht = Ok (DICT_OK, ht') ∧ repr ht' m ∧ size ht' ≠ 0.
Proof.
  intros Hr Hb. pose proof Hr as [Hwf _]. unfold dictExpandIfNeeded. rewrite (wf_used _ Hwf).
  destruct (Z.eqb_spec (size ht) 0) as [E|E].
  - destruct (dictExpand_spec ht m DICT_HT_INITIAL_SIZE Hr) as (ht' & ? & ? & _ & ? & _); [|by exists ht'].
    rewrite empty_entries by done. done.
  - destruct (Z.eqb_spec (zlen (entries ht)) (size ht)) as [E'|E']; [|by exists ht].
    pose proof (zlen_nonneg (entries ht)). rewrite u64_small by lia.
    destruct (dictExpand_spec ht m (size ht * 2) Hr) as (ht' & ? & ? & _ & ? & _); [lia|by exists ht'].
Qed.

(** A well-formed table with one bucket changed. *)
Lemma repr_bucket ht m x c c' u d l m' :
  repr ht m → size ht ≠ 0 → table ht !! Z.to_nat (slot x (sizemask ht)) = Some c →
  (∀ k v, (k, v) ∈ c' → slot k (sizemask ht) = slot x (sizemask ht)) →
  entries ht ≡ₚ c ++ l → NoDup (c' ++ l).*1 → u = zlen (c' ++ l) → list_to_map (c' ++ l) = m' →
  (∀ rest, entries ht ≡ₚ c ++ rest → rest ≡ₚ l) →
  repr {| table := <[Z.to_nat (slot x (sizemask ht)) := c']> (table ht); size := size ht; sizemask := sizemask ht;
          used := u; destroyed := d |} m'.
Proof.
  intros [Hwf _] Hs Hc Hsl He Hnd -> <- Hrest.
  destruct (concat_insert (table ht) _ c Hc) as (rest & E1 & E2). pose proof (Hrest rest E1) as Er.
  assert (concat (<[Z.to_nat (slot x (sizemask ht)) := c']> (table ht)) ≡ₚ c' ++ l) as E by (by rewrite E2, Er).
  split.
  - split; unfold entries; cbn [table size sizemask used].
    + destruct (wf_shape _ Hwf) as [[? _]|(k & Hk & Hn & Hm & Hl & Hp)]; [done|]. right. exists k. do 3 (split; [done|]). split.
      { by rewrite length_insert. }
      intros i c1 k1 v1 Hi Hin. destruct (slot_range k (size ht) x ltac:(lia) Hn) as [Hs1 _]. rewrite <- Hm in Hs1.
      apply list_lookup_insert_Some in Hi as [(<- & <- & _)|(_ & Hi)]; [|by eapply Hp].
      rewrite (Hsl k1 v1 Hin). lia.
    + by rewrite E.
    + unfold zlen. by rewrite E.
  - unfold entries. cbn [table]. apply list_to_map_proper; [|done]. by rewrite E.
Qed.

Lemma slots_equal ht k x c v :
  wf ht → table ht !! Z.to_nat (slot x (sizemask ht)) = Some c → size ht ≠ 0 → (k, v) ∈ c →
  slot k (sizemask ht) = slot x (sizemask ht).
Proof.
  intros Hwf Hc Hs Hin. destruct (wf_shape _ Hwf) as [[? _]|(j & Hk & Hn & Hm & Hl & Hp)]; [done|].
  rewrite (Hp _ c k v Hc Hin). destruct (slot_range j (size ht) x ltac:(lia) Hn) as [Hs1 _]. rewrite <- Hm in Hs1. lia.
Qed.

Lemma perm_cancel {A} (a l rest : list A) : a ++ l ≡ₚ a ++ rest → rest ≡ₚ l.
Proof. intros E. symmetry. by apply Permutation_app_inv_l in E. Qed.

Lemma dictAdd_spec ht m x v :
  repr ht m → zlen (entries ht) < 2 ^ 30 →
  ∃ ht', dictAdd ht x v = Ok (match m !! x with Some _ => DICT_ERR | None => DICT_OK end, ht') ∧
    repr ht' (match m !! x with Some _ => m | None => <[x := valDup v]> m end).
Proof.
  intros Hr Hb. unfold dictAdd, dictKeyIndex. destruct (dictExpandIfNeeded_spec ht m Hr Hb) as (h1 & -> & Hr1 & Hs1). rbind.
  change (DICT_OK =? DICT_ERR) with false. cbv iota. pose proof Hr1 as [Hwf1 Hm1].
  destruct (wf_shape _ Hwf1) as [[? _]|(k & Hk & Hn & Hm & Hl & Hp)]; [done|].
  destruct (key_bucket _ _ _ k Hk Hn Hm Hl Hp x) as (c & Eb & Hc & Hin). rewrite Eb. rbind.
  rewrite (find_in_map h1 x c Hwf1 Hin), Hm1. destruct (m !! x) as [w|] eqn:Ex; [exists h1; by split|].
  assert (2 ^ k ≤ 2 ^ 31) by (apply Z.pow_le_mono_r; lia).
  destruct (slot_range k (size h1) x ltac:(lia) Hn) as [H1s H2s]. rewrite <- Hm in H1s, H2s. rewrite i32_small by lia. rbind.
  rewrite (proj2 (Z.eqb_neq _ _)) by lia. rewrite granted. cbn [negb]. rewrite Eb. rbind. rewrite keyDup_eq.
  destruct (concat_insert (table h1) _ c Hc) as (l & El & _). change (entries h1 ≡ₚ c ++ l) in El.
  pose proof (wf_used _ Hwf1) as Hu. assert (zlen (entries h1) = zlen (entries ht)) as Hsame.
  { destruct Hr as [Hwf Hmm]. rewrite <- Hm1 in Hmm. unfold zlen. f_equal.
    rewrite <- (length_fmap fst (entries h1)), <- (length_fmap fst (entries ht)).
    rewrite <- (map_to_list_to_map (M := gmap K) (entries h1)), <- Hmm, map_to_list_to_map; [done|apply Hwf|apply Hwf1]. }
  assert (list_to_map (((x, valDup v) :: c) ++ l) = <[x := valDup v]> m) as Hmap.
  { cbn [app]. rewrite list_to_map_cons. rewrite <- (list_to_map_proper (M := gmap K) (entries h1) (c ++ l)); [|apply Hwf1|done]. by rewrite Hm1. }
  eexists. split; [done|]. unfold set_table.
  eapply (repr_bucket h1 m x c _ _ _ l _ Hr1 Hs1 Hc); [|exact El| | |exact Hmap|].
  - intros k' v' [E|Hin']%elem_of_cons; [by injection E as -> _|]. by eapply slots_equal.
  - cbn [app fmap list_fmap fst]. apply NoDup_cons. split; [|rewrite <- El; apply Hwf1].
    rewrite <- El. apply not_elem_of_list_to_map. by rewrite Hm1.
  - rewrite u64_small by (pose proof (zlen_nonneg (entries ht)); lia). rewrite Hu, El. cbn [app]. rewrite zlen_cons. lia.
  - intros rest Hrest. rewrite El in Hrest. by eapply perm_cancel.
Qed.

Lemma chain_unlink_spec x (c : chain) :
  match chain_unlink x c with
  | Some (k, v, c') => k = x ∧ c ≡ₚ (x, v) :: c' ∧ chain_find x c = Some v
  | None => chain_find x c = None
  end.
Proof.
  induction c as [|[k v] c IH]; cbn [chain_unlink chain_find]; [done|]. rewrite keyCompare_eq.
  case_bool_decide as E; [by subst|]. destruct (chain_unlink x c) as [[[k' v'] c']|]; [|done].
  destruct IH as (-> & E1 & E2). split_and!; try done. rewrite E1. by constructor.
Qed.

Lemma chain_set_spec x v w (c : chain) :
  chain_find x c = Some w → ∃ c', c ≡ₚ (x, w) :: c' ∧ chain_set x v c ≡ₚ (x, v) :: c'.
Proof.
  induction c as [|[k u] c IH]; cbn [chain_set chain_find]; [done|]. rewrite keyCompare_eq.
  case_bool_decide as E; [intros [= ->]; subst; by exists c|]. intros Hw. destruct (IH Hw) as (c' & E1 & E2).
  exists ((k, u) :: c'). split; [rewrite E1|rewrite E2]; constructor.
Qed.

Lemma dictDelete_spec ht m x :
  repr ht m → zlen (entries ht) < 2 ^ 30 →
  ∃ ht', dictDelete ht x = Ok (match m !! x with Some _ => DICT_OK | None => DICT_ERR end, ht') ∧ repr ht' (delete x m) ∧
    destroyed ht' = destroyed ht ++ match m !! x with Some v => [inl x; inr v] | None => [] end.
Proof.
  intros Hr Hb. pose proof Hr as [Hwf Hmm]. unfold dictDelete. destruct (Z.eqb_spec (size ht) 0) as [E|Hs].
  { rewrite empty_entries in Hmm by done. cbn in Hmm. subst m. rewrite lookup_empty, delete_empty, app_nil_r.
    exists ht. by split_and!. }
  destruct (wf_shape _ Hwf) as [[? _]|(k & Hk & Hn & Hm & Hl & Hp)]; [done|].
  destruct (key_bucket _ _ _ k Hk Hn Hm Hl Hp x) as (c & -> & Hc & Hin). rbind.
  pose proof (find_in_map ht x c Hwf Hin) as Hfind. rewrite Hmm in Hfind.
  pose proof (chain_unlink_spec x c) as Hu. destruct (chain_unlink x c) as [[[k' v] c']|].
  2:{ rewrite Hu in Hfind. rewrite <- Hfind, app_nil_r, delete_id by done. exists ht. by split_and!. }
  destruct Hu as (-> & Ec & Ef). rewrite Ef in Hfind. rewrite <- Hfind. eexists. split; [done|].
  destruct (concat_insert (table ht) _ c Hc) as (l & El & _). change (entries ht ≡ₚ c ++ l) in El.
  assert (NoDup ((x, v) :: c' ++ l).*1) as Hnd by (rewrite (app_comm_cons c' l), <- Ec, <- El; apply Hwf).
  split; [|done]. unfold destroy, set_table. cbn [table size sizemask used destroyed].
  pose proof (wf_used _ Hwf) as Hus. apply NoDup_cons in Hnd as [Hnotin Hnd].
  eapply (repr_bucket ht m x c c' _ _ l _ Hr Hs Hc); [|exact El|done| | |].
  - intros k1 v1 Hin1. eapply slots_equal; try done. rewrite Ec. right. exact Hin1.
  - rewrite Hus, El, Ec. cbn [app]. rewrite zlen_cons. pose proof (zlen_nonneg (c' ++ l)).
    rewrite El, Ec in Hb. cbn [app] in Hb. rewrite zlen_cons in Hb. rewrite u64_small by lia. lia.
  - rewrite <- Hmm. rewrite (list_to_map_proper (M := gmap K) (entries ht) ((x, v) :: c' ++ l)); [|apply Hwf|by rewrite El, Ec].
    rewrite list_to_map_cons, delete_insert_id; [done|]. by apply not_elem_of_list_to_map.
  - intros rest Hrest. rewrite El in Hrest. by eapply perm_cancel.
Qed.

Lemma dictReplace_spec ht m x v :
  repr ht m → zlen (entries ht) < 2 ^ 30 →
  ∃ ht', dictReplace ht x v = Ok (match m !! x with Some _ => 0 | None => 1 end, ht') ∧ repr ht' (<[x := valDup v]> m).
Proof.
  intros Hr Hb. unfold dictReplace. destruct (dictAdd_spec ht m x v Hr Hb) as (h1 & -> & Hr1). rbind.
  destruct (m !! x) as [w|] eqn:Ex; [|by exists h1]. change (DICT_ERR =? DICT_OK) with false. cbv iota.
  rewrite (dictFind_spec h1 m x Hr1), Ex. rbind. cbn [Sds.nn]. rbind. pose proof Hr1 as [Hwf Hmm].
  destruct (wf_shape _ Hwf) as [[_ Ht]|(k & Hk & Hn & Hm & Hl & Hp)].
  { unfold entries in Hmm. rewrite Ht in Hmm. cbn in Hmm. subst m. by rewrite lookup_empty in Ex. }
  assert (size h1 ≠ 0) as Hs by (assert (0 < 2 ^ k) by (apply Z.pow_pos_nonneg; lia); lia).
  destruct (key_bucket _ _ _ k Hk Hn Hm Hl Hp x) as (c & -> & Hc & Hin). rbind.
  pose proof (find_in_map h1 x c Hwf Hin) as Hfind. rewrite Hmm, Ex in Hfind.
  destruct (chain_set_spec x (valDup v) w c Hfind) as (c' & E1 & E2).
  destruct (concat_insert (table h1) _ c Hc) as (l & El & _). change (entries h1 ≡ₚ c ++ l) in El.
  assert (NoDup ((x, w) :: c' ++ l).*1) as Hnd by (rewrite (app_comm_cons c' l), <- E1, <- El; apply Hwf).
  assert (list_to_map (chain_set x (valDup v) c ++ l) = <[x := valDup v]> m) as Hmap.
  { rewrite (list_to_map_proper (M := gmap K) _ ((x, valDup v) :: c' ++ l)); [|by rewrite E2|by rewrite E2].
    rewrite list_to_map_cons, <- Hmm.
    rewrite (list_to_map_proper (M := gmap K) (entries h1) ((x, w) :: c' ++ l)); [|apply Hwf|by rewrite El, E1].
    by rewrite list_to_map_cons, insert_insert_eq. }
  eexists. split; [done|]. unfold destroy, set_table. cbn [table size sizemask used destroyed].
  eapply (repr_bucket h1 m x c _ _ _ l _ Hr1 Hs Hc); [|exact El|by rewrite E2| |exact Hmap|].
  - intros k1 v1 Hin1. rewrite E2 in Hin1. apply elem_of_cons in Hin1 as [E|Hin1]; [by injection E as -> _|].
    eapply slots_equal; try done. rewrite E1. right. exact Hin1.
  - rewrite (wf_used _ Hwf), El, E2, E1. cbn [app]. by rewrite !zlen_cons.
  - intros rest Hrest. rewrite El in Hrest. by eapply perm_cancel.
Qed.

Lemma clear_loop_spec (t : list chain) : zlen (concat t) < 2 ^ 64 → clear_loop t (zlen (concat t)) = chain_parts (concat t).
Proof.
  induction t as [|c t IH]; intros Hb; cbn [clear_loop concat] in *; [done|]. rewrite zlen_app in *.
  pose proof (zlen_nonneg c). pose proof (zlen_nonneg (concat t)). destruct (Z.ltb_spec 0 (zlen c + zlen (concat t))).
  - replace (zlen c + zlen (concat t) - zlen c) with (zlen (concat t)) by lia. rewrite u64_small, IH by lia.
    unfold chain_parts. by rewrite map_app, concat_app.
  - assert (c = []) as -> by (apply zlen_0_inv; lia). assert (concat t = []) as -> by (apply zlen_0_inv; lia). done.
Qed.

Lemma dictClear_spec ht m :
  repr ht m → zlen (entries ht) < 2 ^ 64 →
  ∃ ht', dictClear ht = (DICT_OK, ht') ∧ repr ht' ∅ ∧ destroyed ht' = destroyed ht ++ chain_parts (entries ht).
Proof.
  intros [Hwf _] Hb. eexists. split; [done|]. cbn. rewrite (wf_used _ Hwf). unfold entries in *.
  rewrite clear_loop_spec by done. split; [|done]. split; [|done]. split; [by left|constructor|done].
Qed.

(** ** The operations as functions on finite maps *)

Inductive dop := DAdd (k : K) (v : V) | DReplace (k : K) (v : V) | DDelete (k : K) | DFind (k : K) | DClear.
Inductive dout := DStatus (st : Z) | DValue (v : option V).

Definition dict_step (o : dop) (ht : dict) : result (dout * dict) :=
  match o with
  | DAdd k v => '(st, ht) ← dictAdd ht k v; Ok (DStatus st, ht)
  | DReplace k v => '(st, ht) ← dictReplace ht k v; Ok (DStatus st, ht)
  | DDelete k => '(st, ht) ← dictDelete ht k; Ok (DStatus st, ht)
  | DFind k => v ← dictFind ht k; Ok (DValue v, ht)
  | DClear => let '(st, ht) := dictClear ht in Ok (DStatus st, ht)
  end.

Definition map_step (o : dop) (m : gmap K V) : dout * gmap K V :=
  match o with
  | DAdd k v => match m !! k with Some _ => (DStatus DICT_ERR, m) | None => (DStatus DICT_OK, <[k := valDup v]> m) end
  | DReplace k v => (DStatus (match m !! k with Some _ => 0 | None => 1 end), <[k := valDup v]> m)
  | DDelete k => (DStatus (match m !! k with Some _ => DICT_OK | None => DICT_ERR end), delete k m)
  | DFind k => (DValue (m !! k), m)
  | DClear => (DStatus DICT_OK, ∅)
  end.

Fixpoint dict_run (ops : list dop) (ht : dict) : result (list dout * dict) :=
  match ops with
  | [] => Ok ([], ht)
  | o :: ops => '(x, ht) ← dict_step o ht; '(xs, ht) ← dict_run ops ht; Ok (x :: xs, ht)
  end.
Fixpoint map_run (ops : list dop) (m : gmap K V) : list dout * gmap K V :=
  match ops with
  | [] => ([], m)
  | o :: ops => let '(x, m) := map_step o m in let '(xs, m) := map_run ops m in (x :: xs, m)
  end.

(** The number of entries is the size of the map. *)
Lemma repr_count ht m : repr ht m → zlen (entries ht) = Z.of_nat (length (map_to_list m)).
Proof.
  intros [Hwf <-]. unfold zlen. f_equal. by rewrite map_to_list_to_map by apply Hwf.
Qed.

Lemma insert_count (m : gmap K V) k v : (length (map_to_list (<[k := v]> m)) ≤ S (length (map_to_list m)))%nat.
Proof.
  destruct (m !! k) as [w|] eqn:E; [|by rewrite map_to_list_insert].
  rewrite <- (insert_delete_id m k w E) at 2. rewrite <- insert_delete_eq.
  rewrite !map_to_list_insert by (apply lookup_delete_eq). simpl. lia.
Qed.

Lemma dict_step_refines o ht m :
  repr ht m → Z.of_nat (length (map_to_list m)) < 2 ^ 30 →
  ∃ ht', dict_step o ht = Ok ((map_step o m).1, ht') ∧ repr ht' (map_step o m).2 ∧
         (length (map_to_list (map_step o m).2) ≤ S (length (map_to_list m)))%nat.
Proof.
  intros Hr Hb. pose proof (repr_count ht m Hr) as Hc. destruct o as [k v|k v|k|k|]; cbn [dict_step map_step].
  - destruct (dictAdd_spec ht m k v Hr ltac:(lia)) as (ht' & -> & Hr'). rbind. exists ht'.
    destruct (m !! k); split_and!; try done; [simpl; lia|apply insert_count].
  - destruct (dictReplace_spec ht m k v Hr ltac:(lia)) as (ht' & -> & Hr'). rbind. exists ht'.
    split_and!; try done. apply insert_count.
  - destruct (dictDelete_spec ht m k Hr ltac:(lia)) as (ht' & -> & Hr' & _). rbind. exists ht'. split_and!; try done.
    cbn. destruct (m !! k) as [w|] eqn:E; [|rewrite delete_id by done; lia].
    pose proof (map_to_list_delete m k w E) as P. rewrite <- P. simpl. lia.
  - rewrite (dictFind_spec ht m k Hr). rbind. exists ht. split_and!; try done. simpl. lia.
  - destruct (dictClear_spec ht m Hr ltac:(lia)) as (ht' & -> & Hr' & _). exists ht'. split_and!; try done.
    simpl. rewrite map_to_list_empty. simpl. lia.
Qed.

(** C26: the hash table implements a finite map. Any sequence of [dictAdd], [dictReplace],
    [dictDelete], [dictFind] and [_dictClear], with fewer than 2^30 entries, succeeds without an
    assertion or access outside the table, returns what the map operations return, and leaves
    the table representing the resulting map, through every growth and rehash. *)
Theorem dict_refines_map ops ht m :
  repr ht m → Z.of_nat (length (map_to_list m)) + zlen ops < 2 ^ 30 →
  ∃ ht', dict_run ops ht = Ok ((map_run ops m).1, ht') ∧ repr ht' (map_run ops m).2.
Proof.
  revert ht m. induction ops as [|o ops IH]; intros ht m Hr Hb; cbn [dict_run map_run]; [by exists ht|].
  rewrite zlen_cons in Hb. pose proof (zlen_nonneg ops).
  destruct (dict_step_refines o ht m Hr ltac:(lia)) as (h1 & -> & Hr1 & Hl1). rbind.
  destruct (map_step o m) as [x m1]. cbn [fst snd] in *.
  destruct (IH h1 m1 Hr1 ltac:(lia)) as (ht' & -> & Hr'). rbind. exists ht'. by destruct (map_run ops m1).
Qed.

(** ** Iteration *)

(** What an iterator has still to return. *)
Definition remaining (ht : dict) (it : @dictIterator K V) : chain :=
  (match entry it with [] => [] | _ => nextEntry it end) ++ concat (drop (Z.to_nat (index it + 1)) (table ht)).

Definition rounds (ht : dict) (it : @dictIterator K V) : Z :=
  zlen (table ht) - index it + match entry it with [] => 0 | _ => 1 end.

Lemma next_loop_spec (ht : dict) : size ht = zlen (table ht) → size ht < 2 ^ 31 → ∀ fuel (it : @dictIterator K V),
  -1 ≤ index it < Z.max 0 (size ht) → rounds ht it ≤ Z.of_nat fuel →
  match remaining ht it with
  | [] => ∃ it', next_loop fuel ht it = Ok (None, it')
  | e :: rest => ∃ it', next_loop fuel ht it = Ok (Some e, it') ∧ remaining ht it' = rest ∧ -1 ≤ index it' < size ht
  end.
Proof.
  intros Hs Hb. induction fuel as [|fuel IH]; intros it Hi Hf; unfold rounds in Hf; pose proof (zlen_nonneg (table ht)).
  { exfalso. destruct (entry it); lia. }
  cbn [next_loop]. destruct (entry it) as [|e0 c0] eqn:Ee.
  - unfold remaining. rewrite Ee. cbn [app]. rewrite int_of_ok by lia. rbind. rewrite i32_small by lia.
    destruct (Z.leb_spec (size ht) (index it + 1)) as [Hend|Hmore].
    + rbind. rewrite drop_ge by (unfold zlen in *; lia). cbn [concat]. eauto.
    + destruct (lookup_lt_is_Some_2 (table ht) (Z.to_nat (index it + 1))) as [c Hc]; [unfold zlen in *; lia|].
      rewrite (bucket_ok _ _ c) by (done || lia). rbind. cbn [entry].
      rewrite (drop_S _ _ _ Hc). replace (S (Z.to_nat (index it + 1))) with (Z.to_nat (index it + 1 + 1)) by lia. cbn [concat].
      destruct c as [|e c]; cbn [app].
      * specialize (IH {| index := index it + 1; entry := []; nextEntry := nextEntry it |}). apply IH; cbn; [lia|].
        unfold rounds. cbn. lia.
      * eexists. split; [done|]. split; [done|cbn; lia].
  - rbind. cbn [entry]. unfold remaining. rewrite Ee. destruct (nextEntry it) as [|e c] eqn:En; cbn [app].
    + specialize (IH {| index := index it; entry := []; nextEntry := [] |}). apply IH; cbn; [lia|].
      unfold rounds. cbn. lia.
    + eexists. split; [done|]. split; [done|]. cbn. lia.
Qed.

(** [while ((de = dictNext(it)) != NULL)]: the entries returned. *)
Fixpoint iterate (fuel : nat) (ht : dict) (it : @dictIterator K V) : result chain :=
  match fuel with
  | O => Ok []
  | S fuel =>
      '(e, it) ← dictNext ht it;
      match e with None => Ok [] | Some e => l ← iterate fuel ht it; Ok (e :: l) end
  end.

Lemma iterate_spec (ht : dict) : size ht = zlen (table ht) → size ht < 2 ^ 31 → ∀ fuel it,
  -1 ≤ index it < Z.max 0 (size ht) → (length (remaining ht it) < fuel)%nat → iterate fuel ht it = Ok (remaining ht it).
Proof.
  intros Hs Hb. induction fuel as [|fuel IH]; intros it Hi Hf; [lia|]. cbn [iterate]. unfold dictNext.
  pose proof (next_loop_spec ht Hs Hb (length (table ht) + 3) it Hi) as P.
  destruct (remaining ht it) as [|e rest] eqn:Er.
  - destruct P as (it' & ->); [unfold rounds, zlen; destruct (entry it); lia|]. done.
  - destruct P as (it' & -> & Hrest & Hi'); [unfold rounds, zlen; destruct (entry it); lia|]. rbind.
    rewrite IH; [by rewrite Hrest|lia|rewrite Hrest; simpl in Hf; lia].
Qed.

(** an iterator returns every entry of the table exactly once, then NULL: the entries it
    returns are a permutation of the bindings of the map. *)
Theorem iterator_visits_all ht m fuel :
  repr ht m → size ht < 2 ^ 31 → (length (map_to_list m) < fuel)%nat →
  ∃ l, iterate fuel ht dictGetIterator = Ok l ∧ l ≡ₚ map_to_list m.
Proof.
  intros Hr Hb Hf. pose proof Hr as [Hwf Hm]. pose proof (repr_count ht m Hr) as Hc.
  assert (size ht = zlen (table ht)) as Hs.
  { destruct (wf_shape _ Hwf) as [[-> ->]|(k & Hk & Hn & _ & Hl & _)]; [done|]. unfold zlen.
    assert (0 < 2 ^ k) by (apply Z.pow_pos_nonneg; lia). lia. }
  exists (entries ht). split.
  - apply (iterate_spec ht Hs Hb); [cbn; lia|]. unfold remaining, entries, zlen in *. cbn. rewrite drop_0. lia.
  - rewrite <- Hm. symmetry. apply map_to_list_to_map, Hwf.
Qed.
End dict_spec.

(** ** Examples *)

#[local] Existing Instance calloc_all.
#[local] Instance bytes_dict : dictType bytes Z :=
  {| hashFunction := dictGenHashFunction; keyDup k := k; valDup v := v; keyCompare a b := bool_decide (a = b) |}.
#[local] Instance bytes_dict_laws : dictLaws (K := bytes) (V := Z).
Proof. by split. Qed.

Definition empty_dict : @Dict.dict bytes Z := {| table := []; size := 0; sizemask := 0; used := 0; destroyed := [] |}.

Lemma empty_dict_repr : repr empty_dict ∅.
Proof. split; [|done]. split; [by left|constructor|done]. Qed.

Definition sample_ops : list (@dop bytes Z) :=
  [DAdd (str "a") 1; DAdd (str "b") 2; DAdd (str "c") 3; DAdd (str "d") 4; DAdd (str "e") 5; DAdd (str "a") 6;
   DReplace (str "b") 7; DDelete (str "c"); DFind (str "b"); DFind (str "c")].

Lemma dict_refines_map_witness :
  ∃ ht', dict_run sample_ops empty_dict =
    Ok ([DStatus 0; DStatus 0; DStatus 0; DStatus 0; DStatus 0; DStatus 1; DStatus 0; DStatus 0;
         DValue (Some 7); DValue None], ht') ∧ size ht' = 8.
Proof.
  destruct (@dict_refines_map bytes Z _ _ calloc_all bytes_dict bytes_dict_laws (λ _, eq_refl) sample_ops empty_dict ∅)
    as (ht' & E & Hr).
  - exact empty_dict_repr.
  - vm_compute. reflexivity.
  - exists ht'. split; [rewrite E; vm_compute; reflexivity|].
    vm_compute in E. injection E as <-. reflexivity.
Defined.

Lemma iterator_visits_all_witness :
  ∃ ht l, dict_run sample_ops empty_dict = Ok ((map_run sample_ops ∅).1, ht) ∧
    iterate 10 ht dictGetIterator = Ok l ∧ l ≡ₚ map_to_list (map_run sample_ops ∅).2.
Proof.
  destruct (dict_run sample_ops empty_dict) as [[os ht]|] eqn:E; [|vm_compute in E; discriminate].
  assert (os = (map_run sample_ops ∅).1 ∧ repr ht (map_run sample_ops ∅).2) as [-> Hr].
  { clear -E. vm_compute in E. injection E as <- <-. split; [vm_compute; reflexivity|].
    split; [|vm_compute; reflexivity]. split.
    - right. exists 3. split; [lia|]. split; [reflexivity|]. split; [reflexivity|]. split; [reflexivity|].
      intros i c k v Hi Hin. cbn [table sizemask] in *.
      do 8 (destruct i as [|i]; [injection Hi as <-;
        repeat (apply elem_of_cons in Hin as [Hin|Hin]; [injection Hin as -> ->; vm_compute; reflexivity|]);
        by apply not_elem_of_nil in Hin|]). discriminate.
    - apply (bool_decide_eq_true (NoDup _)). vm_compute. reflexivity.
    - vm_compute. reflexivity. }
  destruct (@iterator_visits_all bytes Z _ _ bytes_dict ht (map_run sample_ops ∅).2 10 Hr) as (l & El & Hl).
  - vm_compute in E. injection E as <- . vm_compute. reflexivity.
  - vm_compute. lia.
  - exists ht, l. split; [exact eq_refl|]. split; [exact El|exact Hl].
Defined.
