(* ===== verification/Linenoise.v ===== *)
(** * The line editor of riser-cli (pack/linenoise/linenoise.h, linenoise.c)

    One line is edited in a fixed buffer, key by key; the history is an array
    of lines whose last entry is the line being edited. The terminal is the
    list of what [read] returns and the bytes written. *)

From S2P Require Import Prelude Cstd Cmem Sds.

Module Linenoise.

Definition LINENOISE_DEFAULT_HISTORY_MAX_LEN : Z := 100.
Definition LINENOISE_MAX_LINE : Z := 4096.

(** [enum KEY_ACTION]. *)
Definition KEY_NULL : Z := 0.
Definition CTRL_A : Z := 1.
Definition CTRL_B : Z := 2.
Definition CTRL_C : Z := 3.
Definition CTRL_D : Z := 4.
Definition CTRL_E : Z := 5.
Definition CTRL_F : Z := 6.
Definition CTRL_H : Z := 8.
Definition TAB : Z := 9.
Definition CTRL_K : Z := 11.
Definition CTRL_L : Z := 12.
Definition ENTER : Z := 13.
Definition CTRL_N : Z := 14.
Definition CTRL_P : Z := 16.
Definition CTRL_T : Z := 20.
Definition CTRL_U : Z := 21.
Definition CTRL_W : Z := 23.
Definition ESC : Z := 27.
Definition BACKSPACE : Z := 127.

(** What a [read] of one byte gives; behind the end of the script the stream
    has ended. *)
Inductive key := Key (c : Z) | ReadErr | Eof.

(** The global variables, with the terminal: [history] is NULL until the
    first line is added, then [history_max_len] slots. *)
Record env := {
  mlmode : bool;
  history_max_len : Z;
  history_len : Z;
  history : option (list (option bytes));
  tin : list key;
  tout : bytes
}.

Definition set_history (h : option (list (option bytes))) (n : Z) (g : env) : env :=
  {| mlmode := mlmode g; history_max_len := history_max_len g; history_len := n; history := h;
     tin := tin g; tout := tout g |}.
Definition set_tin (i : list key) (g : env) : env :=
  {| mlmode := mlmode g; history_max_len := history_max_len g; history_len := history_len g; history := history g;
     tin := i; tout := tout g |}.
Definition emit (o : bytes) (g : env) : env :=
  {| mlmode := mlmode g; history_max_len := history_max_len g; history_len := history_len g; history := history g;
     tin := tin g; tout := tout g ++ o |}.

(** [struct linenoiseState] without the descriptors. *)
Record linenoiseState := {
  buf : bytes;
  buflen : Z;
  prompt : bytes;
  plen : Z;
  pos : Z;
  oldpos : Z;
  len : Z;
  cols : Z;
  maxrows : Z;
  history_index : Z
}.

Definition set_line (b : bytes) (p n : Z) (l : linenoiseState) : linenoiseState :=
  {| buf := b; buflen := buflen l; prompt := prompt l; plen := plen l; pos := p; oldpos := oldpos l; len := n;
     cols := cols l; maxrows := maxrows l; history_index := history_index l |}.
Definition set_pos (p : Z) (l : linenoiseState) : linenoiseState := set_line (buf l) p (len l) l.
Definition set_index (i : Z) (l : linenoiseState) : linenoiseState :=
  {| buf := buf l; buflen := buflen l; prompt := prompt l; plen := plen l; pos := pos l; oldpos := oldpos l; len := len l;
     cols := cols l; maxrows := maxrows l; history_index := i |}.
Definition set_rows (o m : Z) (l : linenoiseState) : linenoiseState :=
  {| buf := buf l; buflen := buflen l; prompt := prompt l; plen := plen l; pos := pos l; oldpos := o; len := len l;
     cols := cols l; maxrows := m; history_index := history_index l |}.

Definition linenoiseSetMultiLine (ml : bool) (g : env) : env :=
  {| mlmode := ml; history_max_len := history_max_len g; history_len := history_len g; history := history g;
     tin := tin g; tout := tout g |}.

(** [read(fd, &c, 1)]. *)
Definition read_key (g : env) : key * env :=
  match tin g with [] => (Eof, g) | k :: ks => (k, set_tin ks g) end.

Section linenoise.
Context `{Malloc}.

(** [strdup] of the string at the start of a block. *)
Definition strdup (b : bytes) : result (option bytes) :=
  n ← Sds.strlen b; Ok (if malloc_ok (n + 1) then Some (take (Z.to_nat n) b) else None).

(** ** Refreshing *)

(** [abAppend]: [n] is an [int]. *)
Definition abAppend (ab s : bytes) (n : Z) : result bytes :=
  m ← Sds.int_of (zlen ab + n);
  if negb (malloc_ok (u64 m)) then Ok ab else t ← slice s 0 (u64 n); Ok (ab ++ t).

(** A sequence whose length is taken with [strlen]. *)
Definition abSeq (ab seq : bytes) : result bytes := abAppend ab seq (zlen seq).

(** [ESC [ n c]. *)
Definition esc (n c : Z) : bytes := [ESC; 91] ++ sdec n ++ [c].

(** [while((plen+pos) >= l->cols)]: the offset into the buffer, the length
    and the position, all of [size_t]. *)
Fixpoint scroll (fuel : nat) (plen cols off len pos : Z) : Z * Z * Z :=
  match fuel with
  | O => (off, len, pos)
  | S fuel =>
      if cols <=? u64 (plen + pos) then scroll fuel plen cols (off + 1) (u64 (len - 1)) (u64 (pos - 1))
      else (off, len, pos)
  end.

(** [while (plen+len > l->cols) len--]. *)
Fixpoint cut (fuel : nat) (plen cols len : Z) : Z :=
  match fuel with
  | O => len
  | S fuel => if cols <? u64 (plen + len) then cut fuel plen cols (u64 (len - 1)) else len
  end.

(** [refreshSingleLine]: the bytes written. *)
Definition refreshSingleLine (l : linenoiseState) : result bytes :=
  let plen := zlen (prompt l) in
  let '(off, len, pos) := scroll (S (Z.to_nat (u64 (plen + pos l)))) plen (cols l) 0 (len l) (pos l) in
  let len := cut (S (Z.to_nat (u64 (plen + len)))) plen (cols l) len in
  ab ← abSeq [] [CR];
  ab ← abSeq ab (prompt l);
  t ← slice (buf l) off (zlen (buf l) - off);
  ab ← abAppend ab t (i32 len);
  ab ← abSeq ab ([ESC] ++ str "[0K");
  abSeq ab ([CR] ++ esc (i32 (u64 (pos + plen))) 67).

(** [for (j = 0; j < old_rows-1; j++)]. *)
Fixpoint clear_rows (n : nat) (ab : bytes) : result bytes :=
  match n with
  | O => Ok ab
  | S n => ab ← abSeq ab ([CR; ESC] ++ str "[0K" ++ [ESC] ++ str "[1A"); clear_rows n ab
  end.

(** [x / cols] of [size_t] numbers. *)
Definition udiv (x c : Z) : result Z := if c =? 0 then Fault AssertFailed else Ok (x / c).

(** [refreshMultiLine]: the bytes written, and the state with the cursor and
    the rows of this refresh. *)
Definition refreshMultiLine (l : linenoiseState) : result (bytes * linenoiseState) :=
  let plen := i32 (zlen (prompt l)) in
  q ← udiv (u64 (plen + len l + cols l - 1)) (cols l);
  let rows := i32 q in
  q ← udiv (u64 (plen + oldpos l + cols l)) (cols l);
  let rpos := i32 q in
  let old_rows := i32 (maxrows l) in
  let l := if i32 (maxrows l) <? rows then set_rows (oldpos l) (u64 rows) l else l in
  down ← Sds.int_of (old_rows - rpos);
  ab ← (if 0 <? down then abSeq [] (esc down 66) else Ok []);
  up ← Sds.int_of (old_rows - 1);
  ab ← clear_rows (Z.to_nat up) ab;
  ab ← abSeq ab ([CR; ESC] ++ str "[0K");
  ab ← abSeq ab (prompt l);
  ab ← abAppend ab (buf l) (i32 (len l));
  '(ab, rows, l) ← (if negb (pos l =? 0) && (pos l =? len l) && (u64 (pos l + plen) mod cols l =? 0) then
                      ab ← abAppend ab [LF] 1;
                      ab ← abSeq ab [CR];
                      rows ← Sds.int_of (rows + 1);
                      Ok (ab, rows, if i32 (maxrows l) <? rows then set_rows (oldpos l) (u64 rows) l else l)
                    else Ok (ab, rows, l));
  q ← udiv (u64 (plen + pos l + cols l)) (cols l);
  let rpos2 := i32 q in
  d ← Sds.int_of (rows - rpos2);
  ab ← (if 0 <? d then abSeq ab (esc d 65) else Ok ab);
  c ← Sds.int_of (plen + i32 (pos l));
  if i32 (cols l) =? 0 then Fault AssertFailed
  else
    let col := Z.rem c (i32 (cols l)) in
    ab ← abSeq ab (if negb (col =? 0) then [CR] ++ esc col 67 else [CR]);
    Ok (ab, set_rows (pos l) (maxrows l) l).

Abbreviation edited := (result (linenoiseState * env)).

Definition refreshLine (l : linenoiseState) (g : env) : edited :=
  if mlmode g then '(o, l) ← refreshMultiLine l; Ok (l, emit o g)
  else o ← refreshSingleLine l; Ok (l, emit o g).

(** ** Editing *)

(** [linenoiseEditInsert]; a failing [write] of one character is left out. *)
Definition linenoiseEditInsert (c : Z) (l : linenoiseState) (g : env) : edited :=
  if len l <? buflen l then
    if len l =? pos l then
      b ← store (buf l) (pos l) c;
      b ← store b (len l + 1) 0;
      let l := set_line b (pos l + 1) (len l + 1) l in
      if negb (mlmode g) && (u64 (plen l + len l) <? cols l) then Ok (l, emit [c] g)
      else refreshLine l g
    else
      t ← slice (buf l) (pos l) (u64 (len l - pos l));
      b ← blit (buf l) (pos l + 1) t;
      b ← store b (pos l) c;
      b ← store b (len l + 1) 0;
      refreshLine (set_line b (pos l + 1) (len l + 1) l) g
  else Ok (l, g).

Definition linenoiseEditMoveLeft (l : linenoiseState) (g : env) : edited :=
  if 0 <? pos l then refreshLine (set_pos (pos l - 1) l) g else Ok (l, g).
Definition linenoiseEditMoveRight (l : linenoiseState) (g : env) : edited :=
  if negb (pos l =? len l) then refreshLine (set_pos (pos l + 1) l) g else Ok (l, g).
Definition linenoiseEditMoveHome (l : linenoiseState) (g : env) : edited :=
  if negb (pos l =? 0) then refreshLine (set_pos 0 l) g else Ok (l, g).
Definition linenoiseEditMoveEnd (l : linenoiseState) (g : env) : edited :=
  if negb (pos l =? len l) then refreshLine (set_pos (len l) l) g else Ok (l, g).

(** [history[i]]. *)
Definition hist_slots (g : env) : result (list (option bytes)) := Sds.nn (history g).
Definition hist_at (g : env) (i : Z) : result (option bytes) := h ← hist_slots g; vec_at h i.
Definition hist_put (i : Z) (s : option bytes) (g : env) : result env :=
  h ← hist_slots g;
  if (0 <=? i) && (i <? zlen h) then Ok (set_history (Some (<[Z.to_nat i := s]> h)) (history_len g) g)
  else Fault OutOfBounds.

(** [strncpy(dst, s, n)]: the string and NULs up to [n] bytes. *)
Definition strncpy (dst s : bytes) (n : Z) : result bytes :=
  blit dst 0 (take (Z.to_nat n) s ++ replicate (Z.to_nat n - length s) 0).

Definition LINENOISE_HISTORY_NEXT : Z := 0.
Definition LINENOISE_HISTORY_PREV : Z := 1.

Definition linenoiseEditHistoryNext (dir : Z) (l : linenoiseState) (g : env) : edited :=
  if 1 <? history_len g then
    s ← strdup (buf l);
    g ← hist_put (history_len g - 1 - history_index l) s g;
    let i := history_index l + (if dir =? LINENOISE_HISTORY_PREV then 1 else -1) in
    if i <? 0 then Ok (set_index 0 l, g)
    else if history_len g <=? i then Ok (set_index (history_len g - 1) l, g)
    else
      o ← hist_at g (history_len g - 1 - i);
      s ← Sds.nn o;
      b ← strncpy (buf l) s (buflen l);
      b ← store b (buflen l - 1) 0;
      n ← Sds.strlen b;
      refreshLine (set_line b n n (set_index i l)) g
  else Ok (l, g).

Definition linenoiseEditDelete (l : linenoiseState) (g : env) : edited :=
  if (0 <? len l) && (pos l <? len l) then
    t ← slice (buf l) (pos l + 1) (len l - pos l - 1);
    b ← blit (buf l) (pos l) t;
    b ← store b (len l - 1) 0;
    refreshLine (set_line b (pos l) (len l - 1) l) g
  else Ok (l, g).

Definition linenoiseEditBackspace (l : linenoiseState) (g : env) : edited :=
  if (0 <? pos l) && (0 <? len l) then
    t ← slice (buf l) (pos l) (u64 (len l - pos l));
    b ← blit (buf l) (pos l - 1) t;
    b ← store b (len l - 1) 0;
    refreshLine (set_line b (pos l - 1) (len l - 1) l) g
  else Ok (l, g).

(** [while (l->pos > 0 && f(l->buf[l->pos-1])) l->pos--]. *)
Fixpoint back_while (fuel : nat) (f : Z → bool) (b : bytes) (p : Z) : result Z :=
  match fuel with
  | O => Ok p
  | S fuel => if 0 <? p then c ← load b (p - 1); if f c then back_while fuel f b (p - 1) else Ok p else Ok p
  end.

Definition linenoiseEditDeletePrevWord (l : linenoiseState) (g : env) : edited :=
  p ← back_while (Z.to_nat (pos l)) (λ c, c =? 32) (buf l) (pos l);
  p ← back_while (Z.to_nat p) (λ c, negb (c =? 32)) (buf l) p;
  t ← slice (buf l) (pos l) (u64 (len l - pos l + 1));
  b ← blit (buf l) p t;
  refreshLine (set_line b p (u64 (len l - (pos l - p))) l) g.

(** Ctrl-t: swaps the character under the cursor with the previous one. *)
Definition edit_swap (l : linenoiseState) (g : env) : edited :=
  if (0 <? pos l) && (pos l <? len l) then
    aux ← load (buf l) (pos l - 1);
    c ← load (buf l) (pos l);
    b ← store (buf l) (pos l - 1) c;
    b ← store b (pos l) aux;
    refreshLine (set_line b (if negb (pos l =? len l - 1) then pos l + 1 else pos l) (len l) l) g
  else Ok (l, g).

(** Ctrl-u and Ctrl-k. *)
Definition edit_kill_all (l : linenoiseState) (g : env) : edited :=
  b ← store (buf l) 0 0; refreshLine (set_line b 0 0 l) g.
Definition edit_kill_end (l : linenoiseState) (g : env) : edited :=
  b ← store (buf l) (pos l) 0; refreshLine (set_line b (pos l) (pos l) l) g.

Definition clear_screen : bytes := [ESC] ++ str "[H" ++ [ESC] ++ str "[2J".
Definition edit_clear_screen (l : linenoiseState) (g : env) : edited := refreshLine l (emit clear_screen g).

(** What follows an ESC; a byte that is not read is indeterminate. *)
Definition edit_escape (l : linenoiseState) (g : env) : edited :=
  let '(k0, g) := read_key g in
  match k0 with
  | ReadErr => Ok (l, g)
  | _ =>
      let '(k1, g) := read_key g in
      match k0, k1 with
      | _, ReadErr => Ok (l, g)
      | Key s0, Key s1 =>
          if s0 =? 91 then
            if isdigit s1 then
              let '(k2, g) := read_key g in
              match k2 with
              | ReadErr => Ok (l, g)
              | Eof => Fault OutOfBounds
              | Key s2 => if (s2 =? 126) && (s1 =? 51) then linenoiseEditDelete l g else Ok (l, g)
              end
            else if s1 =? 65 then linenoiseEditHistoryNext LINENOISE_HISTORY_PREV l g
            else if s1 =? 66 then linenoiseEditHistoryNext LINENOISE_HISTORY_NEXT l g
            else if s1 =? 67 then linenoiseEditMoveRight l g
            else if s1 =? 68 then linenoiseEditMoveLeft l g
            else if s1 =? 72 then linenoiseEditMoveHome l g
            else if s1 =? 70 then linenoiseEditMoveEnd l g
            else Ok (l, g)
          else if s0 =? 79 then
            if s1 =? 72 then linenoiseEditMoveHome l g
            else if s1 =? 70 then linenoiseEditMoveEnd l g
            else Ok (l, g)
          else Ok (l, g)
      | _, _ => Fault OutOfBounds
      end
  end.

(** ** Completion *)

(** The callback: the completions of the text in the buffer, if there is one. *)
Context (completionCallback : option (bytes → list bytes)).

(** [linenoiseAddCompletion]. *)
Definition linenoiseAddCompletion (lc : list bytes) (s : bytes) : list bytes :=
  if malloc_ok (zlen s + 1) && malloc_ok (8 * (zlen lc + 1)) then lc ++ [s] else lc.

(** Shows a candidate, or the buffer itself. *)
Definition show_completion (cand : option bytes) (l : linenoiseState) (g : env) : edited :=
  match cand with
  | None => refreshLine l g
  | Some s =>
      '(l', g) ← refreshLine (set_line (s ++ [0]) (zlen s) (zlen s) l) g;
      Ok (set_line (buf l) (pos l) (len l) l', g)
  end.

(** The loop of [completeLine] with the candidate [i]; the last key. *)
Fixpoint complete_loop (fuel : nat) (lc : list bytes) (i : Z) (l : linenoiseState) (g : env)
    : result (Z * linenoiseState * env) :=
  match fuel with
  | O => Ok (-1, l, g)
  | S fuel =>
      let cand := lc !! Z.to_nat i in
      '(l, g) ← show_completion cand l g;
      let '(k, g) := read_key g in
      match k with
      | Key c =>
          if c =? TAB then complete_loop fuel lc ((i + 1) mod (zlen lc + 1)) l g
          else if c =? ESC then
            '(l, g) ← (match cand with Some _ => refreshLine l g | None => Ok (l, g) end); Ok (schar c, l, g)
          else
            match cand with
            | None => Ok (schar c, l, g)
            | Some s =>
                b ← blit (buf l) 0 (snprintf (buflen l) s ++ [0]);
                Ok (schar c, set_line b (zlen s) (zlen s) l, g)
            end
      | _ => Ok (-1, l, g)
      end
  end.

Definition completeLine (callback : bytes → list bytes) (l : linenoiseState) (g : env)
    : result (Z * linenoiseState * env) :=
  n ← Sds.strlen (buf l);
  match callback (take (Z.to_nat n) (buf l)) with
  | [] => Ok (0, l, g)
  | lc => complete_loop (S (length (tin g))) lc 0 l g
  end.

(** ** History *)

(** [linenoiseHistoryAdd]: 1 when the line was added. *)
Definition linenoiseHistoryAdd (line : bytes) (g : env) : result (Z * env) :=
  if history_max_len g =? 0 then Ok (0, g)
  else
    let h := match history g with
             | None => if malloc_ok (8 * history_max_len g) then Some (replicate (Z.to_nat (history_max_len g)) None) else None
             | Some h => Some h
             end in
    match h with
    | None => Ok (0, g)
    | Some h =>
        let g := set_history (Some h) (history_len g) g in
        dup ← (if negb (history_len g =? 0) then
                 o ← hist_at g (history_len g - 1); s ← Sds.nn o; Ok (bool_decide (s = line))
               else Ok false);
        if (dup : bool) then Ok (0, g)
        else if negb (malloc_ok (zlen line + 1)) then Ok (0, g)
        else
          let '(h, n) := if history_len g =? history_max_len g
                         then (drop 1 h ++ drop (length h - 1) h, history_len g - 1) else (h, history_len g) in
          g ← hist_put n (Some line) (set_history (Some h) n g);
          Ok (1, set_history (history g) (n + 1) g)
    end.

(** [history_len--; free(history[history_len])]. *)
Definition history_pop (g : env) : result env :=
  let n := history_len g - 1 in
  g ← hist_put n None g; Ok (set_history (history g) n g).

Definition linenoiseHistorySetMaxLen (n : Z) (g : env) : Z * env :=
  if n <? 1 then (0, g)
  else
    match history g with
    | Some h =>
        if negb (malloc_ok (8 * n)) then (0, g)
        else
          let tocopy := Z.min n (history_len g) in
          let kept := take (Z.to_nat tocopy) (drop (Z.to_nat (history_len g - tocopy)) h) in
          (1, {| mlmode := mlmode g; history_max_len := n; history_len := Z.min n (history_len g);
                 history := Some (kept ++ replicate (Z.to_nat n - length kept) None); tin := tin g; tout := tout g |})
    | None =>
        (1, {| mlmode := mlmode g; history_max_len := n; history_len := Z.min n (history_len g);
               history := None; tin := tin g; tout := tout g |})
    end.

(** [linenoiseHistorySave]: the contents of the file. *)
Fixpoint save_loop (h : list (option bytes)) (n : nat) : result bytes :=
  match n, h with
  | O, _ => Ok []
  | S n, Some s :: h => t ← save_loop h n; Ok (s ++ [LF] ++ t)
  | S _, _ => Fault OutOfBounds
  end.
Definition linenoiseHistorySave (g : env) : result bytes :=
  match history g with
  | None => if history_len g =? 0 then Ok [] else Fault OutOfBounds
  | Some h => save_loop h (Z.to_nat (history_len g))
  end.

(** [fgets(buf, n, fp)]: at most [n] bytes, up to a line feed; what is left. *)
Fixpoint fgets_loop (n : nat) (file : bytes) : bytes * bytes :=
  match n, file with
  | O, _ => ([], file)
  | _, [] => ([], [])
  | S n, c :: file => if c =? LF then ([c], file) else let '(t, rest) := fgets_loop n file in (c :: t, rest)
  end.
Definition fgets (n : Z) (file : bytes) : option (bytes * bytes) :=
  match file with [] => None | _ => Some (fgets_loop (Z.to_nat (n - 1)) file) end.

(** The line up to its first CR, or else its first LF. *)
Fixpoint upto (c : Z) (b : bytes) : bytes :=
  match b with [] => [] | x :: b => if x =? c then [] else x :: upto c b end.
Definition line_of (b : bytes) : bytes := if existsb (Z.eqb CR) b then upto CR b else upto LF b.

Fixpoint load_loop (fuel : nat) (file : bytes) (g : env) : result env :=
  match fuel with
  | O => Ok g
  | S fuel =>
      match fgets LINENOISE_MAX_LINE file with
      | None => Ok g
      | Some (b, rest) =>
          '(_, g) ← linenoiseHistoryAdd (line_of (cstr b)) g;
          load_loop fuel rest g
      end
  end.
Definition linenoiseHistoryLoad (file : bytes) (g : env) : result env := load_loop (S (length file)) file g.

(** ** The editing loop *)

(** What a key does: the loop goes on, or the function returns. *)
Inductive outcome := Continue (l : linenoiseState) (g : env) | Return (n : Z) (l : linenoiseState) (g : env).

Definition continue (r : edited) : result outcome := '(l, g) ← r; Ok (Continue l g).

(** The [switch] over the key. *)
Definition edit_key (c : Z) (l : linenoiseState) (g : env) : result outcome :=
  if c =? ENTER then
    g ← history_pop g;
    '(l, g) ← (if mlmode g then linenoiseEditMoveEnd l g else Ok (l, g));
    Ok (Return (i32 (len l)) l g)
  else if c =? CTRL_C then Ok (Return (-1) l g)
  else if (c =? BACKSPACE) || (c =? CTRL_H) then continue (linenoiseEditBackspace l g)
  else if c =? CTRL_D then
    if 0 <? len l then continue (linenoiseEditDelete l g)
    else g ← history_pop g; Ok (Return (-1) l g)
  else if c =? CTRL_T then continue (edit_swap l g)
  else if c =? CTRL_B then continue (linenoiseEditMoveLeft l g)
  else if c =? CTRL_F then continue (linenoiseEditMoveRight l g)
  else if c =? CTRL_P then continue (linenoiseEditHistoryNext LINENOISE_HISTORY_PREV l g)
  else if c =? CTRL_N then continue (linenoiseEditHistoryNext LINENOISE_HISTORY_NEXT l g)
  else if c =? ESC then continue (edit_escape l g)
  else if c =? CTRL_U then continue (edit_kill_all l g)
  else if c =? CTRL_K then continue (edit_kill_end l g)
  else if c =? CTRL_A then continue (linenoiseEditMoveHome l g)
  else if c =? CTRL_E then continue (linenoiseEditMoveEnd l g)
  else if c =? CTRL_L then continue (edit_clear_screen l g)
  else if c =? CTRL_W then continue (linenoiseEditDeletePrevWord l g)
  else continue (linenoiseEditInsert c l g).

(** [while(1)]: every round reads a key. *)
Fixpoint edit_loop (fuel : nat) (l : linenoiseState) (g : env) : result (Z * linenoiseState * env) :=
  match fuel with
  | O => Ok (i32 (len l), l, g)
  | S fuel =>
      let '(k, g) := read_key g in
      match k with
      | Key c =>
          '(o, l, g) ← (match completionCallback with
                        | Some f =>
                            if c =? TAB then
                              '(c, l, g) ← completeLine f l g;
                              Ok (if c <? 0 then Some None else if c =? 0 then None else Some (Some (u8 c)), l, g)
                            else Ok (Some (Some c), l, g)
                        | None => Ok (Some (Some c), l, g)
                        end);
          match o with
          | None => edit_loop fuel l g
          | Some None => Ok (i32 (len l), l, g)
          | Some (Some c) =>
              x ← edit_key c l g;
              match x with
              | Continue l g => edit_loop fuel l g
              | Return n l g => Ok (n, l, g)
              end
          end
      | _ => Ok (i32 (len l), l, g)
      end
  end.

(** [linenoiseEdit] with a buffer block, its length and the columns of the
    terminal. *)
Definition linenoiseEdit (b : bytes) (size : Z) (prm : bytes) (columns : Z) (g : env) : result (Z * linenoiseState * env) :=
  b ← store b 0 0;
  let l := {| buf := b; buflen := u64 (size - 1); prompt := prm; plen := zlen prm; pos := 0; oldpos := 0; len := 0;
              cols := columns; maxrows := 0; history_index := 0 |} in
  '(_, g) ← linenoiseHistoryAdd [] g;
  edit_loop (S (length (tin g))) l (emit prm g).

(** [fgets(buf, n + 1, stdin)]: at most [n] bytes, up to a line feed. It
    gives NULL on a read error, or where the input has ended before it. *)
Fixpoint gets_loop (n : nat) (ks : list key) : option bytes * list key :=
  match n, ks with
  | S n, Key c :: ks =>
      if c =? LF then (Some [c], ks)
      else let '(o, ks) := gets_loop n ks in (option_map (cons c) o, ks)
  | S _, ReadErr :: ks => (None, ks)
  | _, _ => (Some [], ks)
  end.
Definition stdin_gets (size : Z) (g : env) : option bytes * env :=
  match gets_loop (Z.to_nat (size - 1)) (tin g) with
  | (Some [], ks) => (None, set_tin ks g)
  | (o, ks) => (o, set_tin ks g)
  end.

(** [while(len && f(buf[len-1])) buf[--len] = 0], for a reversed text. *)
Fixpoint chop (f : Z → bool) (r : bytes) : bytes :=
  match r with c :: r' => if f c then chop f r' else r | [] => [] end.

(** [linenoiseRaw] with the buffer of [linenoise]: what is in the buffer, or
    -1. Without a terminal it reads a line and drops one line feed. *)
Definition linenoiseRaw (isatty : bool) (prm : bytes) (columns : Z) (g : env) : result (option bytes * env) :=
  if isatty then
    '(count, l, g) ← linenoiseEdit (junk (Z.to_nat LINENOISE_MAX_LINE)) LINENOISE_MAX_LINE prm columns g;
    Ok (if count =? -1 then None else Some (buf l), emit [LF] g)
  else
    let '(o, g) := stdin_gets LINENOISE_MAX_LINE g in
    Ok (option_map (λ b, (match rev (cstr b) with 10 :: r => rev r | _ => cstr b end) ++ [0]) o, g).

(** [linenoise]: the line, or NULL. [unsupported] is [isUnsupportedTerm()]. *)
Definition linenoise (unsupported isatty : bool) (prm : bytes) (columns : Z) (g : env) : result (option bytes * env) :=
  if unsupported then
    let '(o, g) := stdin_gets LINENOISE_MAX_LINE (emit prm g) in
    match o with
    | None => Ok (None, g)
    | Some b => s ← strdup (rev (chop (λ c, (c =? LF) || (c =? CR)) (rev (cstr b))) ++ [0]); Ok (s, g)
    end
  else
    '(o, g) ← linenoiseRaw isatty prm columns g;
    match o with
    | None => Ok (None, g)
    | Some b => s ← strdup b; Ok (s, g)
    end.
End linenoise.
End Linenoise.
