(* ===== verification/LinenoiseSpec.v ===== *)
(** * What the line editor guarantees (theorems about Linenoise.v)

    The editor is a zipper: the text before the cursor (reversed) and the
    text after it. Every key acts on the buffer as the zipper operation it
    names, within the buffer, and the screen shows a window that contains the
    cursor. *)

From S2P Require Import Prelude Cstd Cmem Sds SdsSpec Linenoise.
Import Linenoise.

(** ** Refreshing one line *)

(** The part of the line that is left out on the left so that the cursor is
    within the columns. *)
Definition scrolled (plen cols pos : Z) : Z := Z.max 0 (plen + pos - cols + 1).

Lemma scroll_spec fuel plen cols off len pos :
  0 ≤ plen < cols → 0 ≤ pos ≤ len → plen + len < 2 ^ 31 → plen + pos < Z.of_nat fuel + cols →
  let k := scrolled plen cols pos in
  scroll fuel plen cols off len pos = (off + k, len - k, pos - k).
Proof.
  revert off len pos. induction fuel as [|fuel IH]; intros off len pos Hp Hpos Hl Hf k; subst k; unfold scrolled in *; cbn [scroll].
  - rewrite Z.max_l by lia. by rewrite Z.add_0_r, !Z.sub_0_r.
  - rewrite (u64_small (plen + pos)) by lia. destruct (Z.leb_spec cols (plen + pos)) as [Hle|Hgt].
    + rewrite !u64_small by lia. rewrite IH by lia. f_equal; [f_equal|]; lia.
    + rewrite Z.max_l by lia. by rewrite Z.add_0_r, !Z.sub_0_r.
Qed.

Lemma cut_spec fuel plen cols len :
  0 ≤ plen < cols → 0 ≤ len → plen + len < 2 ^ 31 → plen + len < Z.of_nat fuel + cols →
  cut fuel plen cols len = Z.min len (cols - plen).
Proof.
  revert len. induction fuel as [|fuel IH]; intros len Hp Hlen Hl Hf; cbn [cut]; [lia|].
  rewrite (u64_small (plen + len)) by lia. destruct (Z.ltb_spec cols (plen + len)); [|lia].
  rewrite u64_small by lia. rewrite IH by lia. lia.
Qed.

Section linenoise_spec.
Context `{Malloc}.
Hypothesis granted : ∀ n, malloc_ok n = true.

Lemma abAppend_ok ab s n : 0 ≤ n ≤ zlen s → zlen ab + n < 2 ^ 31 → abAppend ab s n = Ok (ab ++ take (Z.to_nat n) s).
Proof.
  intros Hn Hb. unfold abAppend. pose proof (zlen_nonneg ab). rewrite int_of_ok by lia. rbind. rewrite granted. cbn [negb].
  rewrite u64_small by lia. rewrite slice_ok by lia. rbind. by rewrite drop_0.
Qed.

Lemma abSeq_ok ab s : zlen ab + zlen s < 2 ^ 31 → abSeq ab s = Ok (ab ++ s).
Proof.
  intros Hb. unfold abSeq. pose proof (zlen_nonneg s). rewrite abAppend_ok by lia. rewrite take_ge; [done|].
  unfold zlen. lia.
Qed.

(** The buffer holds [a ++ b] with the cursor between them, and the sizes are
    those of a terminal whose prompt leaves at least a column. *)
Record at_line (l : linenoiseState) (a b : bytes) : Prop := {
  al_buf : ∃ rest, buf l = a ++ b ++ 0 :: rest;
  al_pos : pos l = zlen a;
  al_len : len l = zlen a + zlen b;
  al_size : zlen (buf l) = buflen l + 1;
  al_fit : zlen a + zlen b ≤ buflen l;
  al_max : buflen l < 2 ^ 20;
  al_prompt : plen l = zlen (prompt l);
  al_cols : plen l < cols l;
  al_cmax : cols l < 2 ^ 20
}.

(** The text of the line that is shown. *)
Definition visible (l : linenoiseState) (a b : bytes) : bytes :=
  let k := scrolled (plen l) (cols l) (zlen a) in
  take (Z.to_nat (cols l - plen l)) (drop (Z.to_nat k) (a ++ b)).

Definition screen (l : linenoiseState) (a b : bytes) : bytes :=
  [CR] ++ prompt l ++ visible l a b ++ [ESC] ++ str "[0K" ++ [CR] ++
  esc (plen l + zlen a - scrolled (plen l) (cols l) (zlen a)) 67.

Lemma esc_short n c : 0 ≤ n < 2 ^ 31 → zlen (esc n c) ≤ 20.
Proof.
  intros Hn. unfold esc. rewrite !zlen_app. unfold sdec. rewrite (proj2 (Z.ltb_ge n 0)) by lia.
  assert (length (udec n) ≤ 10)%nat; [apply udec_len_le; [change (10 ^ Z.of_nat 10) with 10000000000|]; lia|].
  change (zlen [ESC; 91]) with 2. change (zlen [c]) with 1. unfold zlen. lia.
Qed.

Lemma refreshSingle_ok l a b : at_line l a b → refreshSingleLine l = Ok (screen l a b).
Proof.
  intros [[rest Hb] Hp Hl Hs Hf Hm Hpr Hc Hcm]. unfold refreshSingleLine. rewrite <- Hpr, Hp, Hl.
  pose proof (zlen_nonneg a). pose proof (zlen_nonneg b). pose proof (zlen_nonneg (prompt l)).
  rewrite (u64_small (plen l + zlen a)) by lia. rewrite scroll_spec by lia. set (k := scrolled _ _ _).
  assert (0 ≤ k ≤ zlen a) as Hk by (subst k; unfold scrolled; lia). rewrite (u64_small (plen l + _)) by lia.
  rewrite cut_spec by lia. set (n := Z.min _ _). assert (0 ≤ n ≤ cols l) by (subst n; lia).
  rewrite Z.add_0_l. rewrite (abSeq_ok [] [CR]) by done. rbind. cbn [app]. rewrite (abSeq_ok [CR] (prompt l)) by (change (zlen [CR]) with 1; lia). rbind.
  rewrite slice_ok by lia. rbind.
  assert (take (Z.to_nat n) (take (Z.to_nat (zlen (buf l) - k)) (drop (Z.to_nat k) (buf l))) = visible l a b ∧
    zlen (visible l a b) = n ∧ n ≤ zlen (take (Z.to_nat (zlen (buf l) - k)) (drop (Z.to_nat k) (buf l)))) as (Ev & Hv & Hle).
  { rewrite Hb in *. rewrite (take_ge (drop _ _)) by (rewrite length_drop; unfold zlen; lia).
    rewrite (app_assoc a b). rewrite drop_app_le by (rewrite length_app; unfold zlen in *; lia).
    assert (zlen (drop (Z.to_nat k) (a ++ b)) = zlen a + zlen b - k) as Hd by (unfold zlen in *; rewrite length_drop, length_app; lia).
    rewrite take_app_le by (unfold zlen in *; lia). unfold visible. fold k. split_and!.
    - subst n. destruct (Z.min_spec (zlen a + zlen b - k) (cols l - plen l)) as [[? ->]|[? ->]]; [|done].
      rewrite !take_ge by (unfold zlen in *; lia). done.
    - unfold zlen in *. rewrite length_take. lia.
    - rewrite zlen_app, Hd. pose proof (zlen_nonneg (0 :: rest)). lia. }
  rewrite (i32_small n) by lia. rewrite abAppend_ok by (rewrite ?zlen_app; change (zlen [CR]) with 1; lia). rewrite Ev. rbind.
  rewrite abSeq_ok by (autorewrite with zlen; change (zlen (str "[0K")) with 3; lia). rbind.
  assert (0 ≤ zlen a - k + plen l < 2 ^ 31) as Hcur by lia. rewrite (u64_small (zlen a - k + plen l)), i32_small by lia.
  pose proof (esc_short (zlen a - k + plen l) 67 Hcur).
  rewrite abSeq_ok by (autorewrite with zlen; change (zlen (str "[0K")) with 3; lia).
  unfold screen. fold k. replace (plen l + zlen a - k) with (zlen a - k + plen l) by lia. by rewrite <- !app_assoc.
Qed.

Lemma refresh_ok l a b g : at_line l a b → mlmode g = false → refreshLine l g = Ok (l, emit (screen l a b) g).
Proof. intros Hl Hm. unfold refreshLine. rewrite Hm, (refreshSingle_ok l a b Hl). done. Qed.

(** ** Editing operations *)

(** The operation leaves the buffer with [a ++ b] and only writes to the
    terminal. *)
Definition edits (l : linenoiseState) (g : env) (a b : bytes) (r : result (linenoiseState * env)) : Prop :=
  ∃ l' o, r = Ok (l', emit o g) ∧ at_line l' a b ∧ buflen l' = buflen l.

Lemma at_line_set l a b a' b' rest p n :
  at_line l a b → zlen (a' ++ b' ++ 0 :: rest) = zlen (buf l) → p = zlen a' → n = zlen a' + zlen b' →
  zlen a' + zlen b' ≤ buflen l → at_line (set_line (a' ++ b' ++ 0 :: rest) p n l) a' b'.
Proof. intros [] Hz -> -> Hf. split; cbn; try done; [by exists rest|]. by rewrite Hz. Qed.

Lemma refresh_edits l g a b a' b' rest p n :
  at_line l a b → mlmode g = false → zlen (a' ++ b' ++ 0 :: rest) = zlen (buf l) → p = zlen a' → n = zlen a' + zlen b' →
  zlen a' + zlen b' ≤ buflen l → edits l g a' b' (refreshLine (set_line (a' ++ b' ++ 0 :: rest) p n l) g).
Proof.
  intros Hl Hm Hz Hp Hn Hf. pose proof (at_line_set l a b a' b' rest p n Hl Hz Hp Hn Hf) as Hl'.
  eexists _, _. split; [by apply refresh_ok|]. by split.
Qed.

Lemma no_edit l g a b : at_line l a b → edits l g a b (Ok (l, g)).
Proof. intros Hl. exists l, []. split; [|done]. unfold emit. rewrite app_nil_r. by destruct g. Qed.

(** The cursor moves. *)
Lemma move_edits l g a b a' b' p :
  at_line l a b → mlmode g = false → a' ++ b' = a ++ b → p = zlen a' → edits l g a' b' (refreshLine (set_pos p l) g).
Proof.
  intros Hl Hm E Hp. destruct (al_buf _ _ _ Hl) as [rest Hb]. unfold set_pos. rewrite Hb, app_assoc, <- E, <- app_assoc.
  assert (zlen a' + zlen b' = zlen a + zlen b) as Hz by (by rewrite <- !zlen_app, E).
  apply (refresh_edits l g a b); try done; [by rewrite Hb, app_assoc, E, <- app_assoc| |].
  - rewrite (al_len _ _ _ Hl). lia.
  - pose proof (al_fit _ _ _ Hl). lia.
Qed.

(** Writing [t] behind [p] and a NUL behind it. *)
Lemma overwrite_end (p q t : bytes) n :
  zlen t < zlen q → n = zlen p + zlen t →
  ∃ rest, (b ← blit (p ++ q) (zlen p) t; store b n 0) = Ok (p ++ t ++ 0 :: rest) ∧
          zlen (p ++ t ++ 0 :: rest) = zlen (p ++ q).
Proof.
  intros Ht ->. rewrite blit_at by lia. rbind.
  assert (zlen (drop (length t) q) = zlen q - zlen t) as Hd by (rewrite zlen_drop; [done|unfold zlen in *; lia]).
  destruct (drop (length t) q) as [|x rest]; [zlia|]. exists rest. rewrite app_assoc.
  rewrite (store_app (p ++ t) x rest) by (by rewrite zlen_app). rewrite <- app_assoc. split; [done|].
  autorewrite with zlen in *. lia.
Qed.

Ltac line_facts Hl :=
  destruct (al_buf _ _ _ Hl) as [rest Hb]; pose proof (al_pos _ _ _ Hl) as Hpos; pose proof (al_len _ _ _ Hl) as Hlen;
  pose proof (al_size _ _ _ Hl) as Hsize; pose proof (al_fit _ _ _ Hl) as Hfit; pose proof (al_max _ _ _ Hl) as Hmax.

Lemma insert_edits l g a b c :
  at_line l a b → mlmode g = false →
  edits l g (if zlen a + zlen b <? buflen l then a ++ [c] else a) b (linenoiseEditInsert c l g).
Proof.
  intros Hl Hm. line_facts Hl. unfold linenoiseEditInsert. pose proof (zlen_nonneg a). pose proof (zlen_nonneg b).
  rewrite Hlen. destruct (Z.ltb_spec (zlen a + zlen b) (buflen l)) as [Hroom|Hfull]; [|by apply no_edit].
  rewrite Hb in Hsize. autorewrite with zlen in Hsize. destruct rest as [|x rest]; [zlia|]. rewrite zlen_cons in Hsize.
  rewrite Hpos. destruct (Z.eqb_spec (zlen a + zlen b) (zlen a)) as [E|E].
  - assert (b = []) as -> by (apply zlen_0_inv; lia). change (zlen []) with 0 in *. rewrite Hb. cbn [app].
    rewrite (store_app a 0) by done. rbind. change (a ++ c :: x :: rest) with (a ++ [c] ++ x :: rest). rewrite app_assoc.
    rewrite (store_app (a ++ [c]) x) by (autorewrite with zlen; lia). rbind. rewrite Hm. cbn [negb andb].
    assert (at_line (set_line ((a ++ [c]) ++ 0 :: rest) (zlen a + 1) (zlen a + 0 + 1) l) (a ++ [c]) []) as Hl'.
    { apply (at_line_set l a [] (a ++ [c]) [] rest); [done| | | |]; autorewrite with zlen; try lia.
      rewrite Hb. autorewrite with zlen. lia. }
    destruct (_ <? _).
    + eexists _, [c]. by split.
    + eexists _, _. split; [by apply refresh_ok|]. by split.
  - destruct b as [|y b]; [change (zlen []) with 0 in E; lia|].
    rewrite Hb at 1. rewrite slice_app by (rewrite ?u64_small; lia). rbind. rewrite Hb.
    change (a ++ (y :: b) ++ 0 :: x :: rest) with (a ++ [y] ++ b ++ 0 :: x :: rest). rewrite app_assoc.
    replace (zlen a + 1) with (zlen (a ++ [y])) by (autorewrite with zlen; lia).
    rewrite blit_at by (autorewrite with zlen; pose proof (zlen_nonneg rest); lia). rbind.
    assert (drop (length (y :: b)) (b ++ 0 :: x :: rest) = x :: rest) as ->.
    { replace (length (y :: b)) with (length (b ++ [0])) by (rewrite length_app; simpl; lia).
      replace (b ++ 0 :: x :: rest) with ((b ++ [0]) ++ x :: rest) by (by rewrite <- app_assoc). by rewrite drop_app_length. }
    rewrite <- app_assoc. cbn [app]. rewrite (store_app a y) by done. rbind.
    replace (a ++ c :: y :: b ++ x :: rest) with ((a ++ [c] ++ y :: b) ++ x :: rest) by (by rewrite <- !app_assoc).
    rewrite (store_app (a ++ [c] ++ y :: b) x) by (autorewrite with zlen; lia). rbind.
    replace ((a ++ [c] ++ y :: b) ++ 0 :: rest) with ((a ++ [c]) ++ (y :: b) ++ 0 :: rest) by (by rewrite <- !app_assoc).
    apply (refresh_edits l g a (y :: b)); try done; rewrite ?Hb; autorewrite with zlen in *; lia.
Qed.

Lemma backspace_edits l g a b x :
  at_line l (a ++ [x]) b → mlmode g = false → edits l g a b (linenoiseEditBackspace l g).
Proof.
  intros Hl Hm. line_facts Hl. unfold linenoiseEditBackspace. pose proof (zlen_nonneg a). pose proof (zlen_nonneg b).
  autorewrite with zlen in *. rewrite Hpos, Hlen. rewrite !(proj2 (Z.ltb_lt _ _)) by lia. cbn [andb].
  rewrite Hb at 1. rewrite slice_app by (rewrite ?u64_small; autorewrite with zlen; lia). rbind.
  replace (buf l) with (a ++ [x] ++ b ++ 0 :: rest) by (by rewrite Hb, <- !app_assoc).
  replace (zlen a + (1 + 0) - 1) with (zlen a) by lia.
  destruct (overwrite_end a ([x] ++ b ++ 0 :: rest) b (zlen a + (1 + 0) + zlen b - 1)) as (rest' & E & Hz);
    [autorewrite with zlen; pose proof (zlen_nonneg rest); lia|lia|].
  apply result_bind_Ok in E as (b1 & -> & E). rbind. rewrite E. rbind.
  apply (refresh_edits l g (a ++ [x]) b); try done; [rewrite Hz, Hb; by rewrite <- app_assoc|lia|lia].
Qed.

Lemma delete_edits l g a b x :
  at_line l a (x :: b) → mlmode g = false → edits l g a b (linenoiseEditDelete l g).
Proof.
  intros Hl Hm. line_facts Hl. unfold linenoiseEditDelete. pose proof (zlen_nonneg a). pose proof (zlen_nonneg b).
  autorewrite with zlen in *. rewrite Hpos, Hlen. rewrite !(proj2 (Z.ltb_lt _ _)) by lia. cbn [andb].
  replace (slice (buf l) (zlen a + 1) (zlen a + (1 + zlen b) - zlen a - 1)) with (@Ok bytes b).
  2:{ rewrite Hb. symmetry. replace (a ++ (x :: b) ++ 0 :: rest) with ((a ++ [x]) ++ b ++ 0 :: rest) by (by rewrite <- app_assoc).
      apply slice_app; autorewrite with zlen; lia. }
  rbind. rewrite Hb.
  destruct (overwrite_end a ((x :: b) ++ 0 :: rest) b (zlen a + (1 + zlen b) - 1)) as (rest' & E & Hz);
    [autorewrite with zlen; pose proof (zlen_nonneg rest); lia|lia|].
  apply result_bind_Ok in E as (b1 & -> & E). rbind. rewrite E. rbind.
  apply (refresh_edits l g a (x :: b)); try done; [by rewrite Hz, Hb|lia|lia].
Qed.

Lemma swap_edits l g a b x y :
  at_line l (a ++ [x]) (y :: b) → mlmode g = false →
  edits l g (match b with [] => a ++ [y] | _ => a ++ [y; x] end) (match b with [] => [x] | _ => b end) (edit_swap l g).
Proof.
  intros Hl Hm. line_facts Hl. unfold edit_swap. pose proof (zlen_nonneg a). pose proof (zlen_nonneg b).
  autorewrite with zlen in *. rewrite Hpos, Hlen. rewrite !(proj2 (Z.ltb_lt _ _)) by lia. cbn [andb].
  replace (zlen a + (1 + 0) - 1) with (zlen a) by lia. rewrite <- app_assoc in Hb. cbn [app] in Hb. rewrite Hb.
  rewrite (load_app a x _ (zlen a)) by done. rbind.
  replace (load (a ++ x :: y :: b ++ 0 :: rest) (zlen a + (1 + 0))) with (@Ok Z y).
  2:{ change (a ++ x :: y :: b ++ 0 :: rest) with (a ++ [x] ++ y :: b ++ 0 :: rest). rewrite app_assoc. symmetry.
      apply load_app. autorewrite with zlen. lia. }
  rbind. rewrite (store_app a x) by done. rbind.
  change (a ++ y :: y :: b ++ 0 :: rest) with (a ++ [y] ++ y :: b ++ 0 :: rest). rewrite app_assoc.
  rewrite (store_app (a ++ [y]) y) by (autorewrite with zlen; lia). rbind.
  destruct b as [|z b].
  - change (zlen []) with 0 in *. rewrite (proj2 (Z.eqb_eq _ _)) by lia. cbn [negb].
    apply (refresh_edits l g (a ++ [x]) [y] (a ++ [y]) [x]); try done; rewrite ?Hb; autorewrite with zlen; lia.
  - autorewrite with zlen in *. pose proof (zlen_nonneg b). rewrite (proj2 (Z.eqb_neq _ _)) by lia. cbn [negb].
    replace ((a ++ [y]) ++ x :: (z :: b) ++ 0 :: rest) with ((a ++ [y; x]) ++ (z :: b) ++ 0 :: rest) by (by rewrite <- !app_assoc).
    apply (refresh_edits l g (a ++ [x]) (y :: z :: b)); try done; rewrite ?Hb; autorewrite with zlen; lia.
Qed.

Lemma kill_all_edits l g a b : at_line l a b → mlmode g = false → edits l g [] [] (edit_kill_all l g).
Proof.
  intros Hl Hm. line_facts Hl. unfold edit_kill_all. destruct (buf l) as [|x t] eqn:Eb; [destruct a; [destruct b|]; done|].
  rewrite (store_app [] x t) by done. rbind. apply (refresh_edits l g a b [] [] t); try done; [by rewrite Eb|].
  pose proof (zlen_nonneg a). pose proof (zlen_nonneg b). change (zlen []) with 0. lia.
Qed.

Lemma kill_end_edits l g a b : at_line l a b → mlmode g = false → edits l g a [] (edit_kill_end l g).
Proof.
  intros Hl Hm. line_facts Hl. unfold edit_kill_end. rewrite Hb, Hpos.
  assert (∃ x t, b ++ 0 :: rest = x :: t) as (x & t & E) by (destruct b; cbn; eauto).
  rewrite E, (store_app a x) by done. rbind. pose proof (zlen_nonneg b).
  apply (refresh_edits l g a b a [] t); try done; [rewrite Hb, E; autorewrite with zlen; lia|change (zlen []) with 0; lia|].
  change (zlen []) with 0. lia.
Qed.

Fixpoint drop_while (f : Z → bool) (l : bytes) : bytes :=
  match l with [] => [] | c :: l' => if f c then drop_while f l' else l end.

Lemma back_while_spec f r : ∀ fuel t,
  (length r ≤ fuel)%nat → back_while fuel f (rev r ++ t) (zlen (rev r)) = Ok (zlen (rev (drop_while f r))).
Proof.
  induction r as [|c r IH]; intros fuel t Hf; cbn [rev drop_while].
  - by destruct fuel.
  - simpl in Hf. destruct fuel as [|fuel]; [lia|]. cbn [back_while]. rewrite zlen_app. change (zlen [c]) with 1.
    pose proof (zlen_nonneg (rev r)). rewrite (proj2 (Z.ltb_lt _ _)) by lia.
    replace (zlen (rev r) + 1 - 1) with (zlen (rev r)) by lia. rewrite <- app_assoc. cbn [app].
    rewrite (load_app (rev r) c t) by done. rbind. destruct (f c).
    + apply IH. lia.
    + cbn [rev]. f_equal. rewrite zlen_app. done.
Qed.

Lemma drop_while_suffix f r : ∃ w, r = w ++ drop_while f r.
Proof.
  induction r as [|c r [w IH]]; [by exists []|]. cbn [drop_while]. destruct (f c); [|by exists []].
  exists (c :: w). cbn. by rewrite <- IH.
Qed.

Definition prev_word (r : bytes) : bytes := drop_while (λ c, negb (c =? 32)) (drop_while (λ c, c =? 32) r).

Lemma word_edits l g r b :
  at_line l (rev r) b → mlmode g = false → edits l g (rev (prev_word r)) b (linenoiseEditDeletePrevWord l g).
Proof.
  intros Hl Hm. line_facts Hl. unfold linenoiseEditDeletePrevWord. pose proof (zlen_nonneg (rev r)). pose proof (zlen_nonneg b).
  rewrite Hpos. rewrite Hb at 1. rewrite back_while_spec by (unfold zlen; rewrite length_rev; lia). rbind.
  set (r1 := drop_while (λ c, c =? 32) r). destruct (drop_while_suffix (λ c, c =? 32) r) as [w1 E1]. fold r1 in E1.
  assert (rev r = rev r1 ++ rev w1) as Er by (rewrite E1 at 1; by rewrite rev_app_distr).
  rewrite Hb at 1. rewrite Er at 1. rewrite <- app_assoc.
  rewrite back_while_spec by (unfold zlen; rewrite length_rev; lia). rbind. change (drop_while (λ c, negb (c =? 32)) r1) with (prev_word r).
  destruct (drop_while_suffix (λ c, negb (c =? 32)) r1) as [w2 E2]. change (r1 = w2 ++ prev_word r) in E2.
  assert (rev r = rev (prev_word r) ++ rev w2 ++ rev w1) as Er2 by (rewrite Er, E2 at 1; by rewrite rev_app_distr, <- app_assoc).
  assert (zlen (rev r) = zlen (rev (prev_word r)) + zlen (rev w2 ++ rev w1)) as Hzr by (by rewrite Er2 at 1; rewrite zlen_app).
  pose proof (zlen_nonneg (rev w2 ++ rev w1)). pose proof (zlen_nonneg (rev (prev_word r))).
  rewrite Hb at 1. replace (rev r ++ b ++ 0 :: rest) with (rev r ++ (b ++ [0]) ++ rest) by (by rewrite <- !app_assoc).
  rewrite slice_app by (rewrite ?u64_small; rewrite ?zlen_app; change (zlen [0]) with 1; lia). rbind.
  replace (buf l) with (rev (prev_word r) ++ (rev w2 ++ rev w1) ++ b ++ 0 :: rest)
    by (rewrite Hb, Er2, <- !app_assoc; done).
  rewrite blit_at by (autorewrite with zlen; pose proof (zlen_nonneg rest); pose proof (zlen_nonneg (rev w1)); pose proof (zlen_nonneg (rev w2)); lia).
  rbind. rewrite <- app_assoc. cbn [app]. set (q := drop _ _).
  assert (zlen q = zlen (rev w2 ++ rev w1) + zlen rest) as Hq.
  { subst q. rewrite zlen_drop; unfold zlen in *; rewrite ?length_app in *; simpl in *; lia. }
  apply (refresh_edits l g (rev r) b (rev (prev_word r)) b q); try done.
  - rewrite Hb. autorewrite with zlen in *. lia.
  - rewrite Hlen, u64_small by lia. lia.
  - lia.
Qed.

(** ** Keys *)

(** What the user can ask for. *)
Inductive act :=
  | AInsert (c : Z) | ABackspace | ADelete | ASwap | ALeft | ARight | AHome | AEnd | AKillAll | AKillEnd | AWord | AClear.

(** A zipper: the text before the cursor, last character first, and the text
    after it. *)
Definition zipper : Type := bytes * bytes.
Definition content (z : zipper) : bytes := rev z.1 ++ z.2.

Definition act_step (cap : Z) (x : act) (z : zipper) : zipper :=
  let '(r, b) := z in
  match x with
  | AInsert c => if zlen r + zlen b <? cap then (c :: r, b) else (r, b)
  | ABackspace => (tail r, b)
  | ADelete => (r, tail b)
  | ASwap => match r, b with x :: r, [y] => (y :: r, [x]) | x :: r, y :: b => (x :: y :: r, b) | _, _ => (r, b) end
  | ALeft => match r with x :: r => (r, x :: b) | [] => (r, b) end
  | ARight => match b with y :: b => (y :: r, b) | [] => (r, b) end
  | AHome => ([], rev r ++ b)
  | AEnd => (rev b ++ r, [])
  | AKillAll => ([], [])
  | AKillEnd => (r, [])
  | AWord => (prev_word r, b)
  | AClear => (r, b)
  end.

(** The keys for an action. *)
Inductive keyed : act → list Z → Prop :=
  | k_insert c : 32 ≤ c < 256 → c ≠ BACKSPACE → keyed (AInsert c) [c]
  | k_backspace c : c = BACKSPACE ∨ c = CTRL_H → keyed ABackspace [c]
  | k_delete : keyed ADelete [ESC; 91; 51; 126]
  | k_swap : keyed ASwap [CTRL_T]
  | k_left : keyed ALeft [CTRL_B]
  | k_left_arrow : keyed ALeft [ESC; 91; 68]
  | k_right : keyed ARight [CTRL_F]
  | k_right_arrow : keyed ARight [ESC; 91; 67]
  | k_home : keyed AHome [CTRL_A]
  | k_home_key c : c = 91 ∨ c = 79 → keyed AHome [ESC; c; 72]
  | k_end : keyed AEnd [CTRL_E]
  | k_end_key c : c = 91 ∨ c = 79 → keyed AEnd [ESC; c; 70]
  | k_kill_all : keyed AKillAll [CTRL_U]
  | k_kill_end : keyed AKillEnd [CTRL_K]
  | k_word : keyed AWord [CTRL_W]
  | k_clear : keyed AClear [CTRL_L].

Definition at_zipper (l : linenoiseState) (z : zipper) : Prop := at_line l (rev z.1) z.2.

Definition edits_to (l : linenoiseState) (g : env) (z : zipper) (r : result (linenoiseState * env)) : Prop :=
  edits l g (rev z.1) z.2 r.

Lemma left_edits l g r b : at_zipper l (r, b) → mlmode g = false → edits_to l g (act_step (buflen l) ALeft (r, b)) (linenoiseEditMoveLeft l g).
Proof.
  intros Hl Hm. unfold at_zipper, edits_to in *. cbn [fst snd act_step] in *. unfold linenoiseEditMoveLeft.
  rewrite (al_pos _ _ _ Hl). destruct r as [|x r]; cbn [rev fst snd] in *.
  - by apply no_edit.
  - rewrite zlen_app. change (zlen [x]) with 1. pose proof (zlen_nonneg (rev r)). rewrite (proj2 (Z.ltb_lt _ _)) by lia.
    apply (move_edits l g (rev r ++ [x]) b); try done; [by rewrite <- app_assoc|lia].
Qed.

Lemma right_edits l g r b : at_zipper l (r, b) → mlmode g = false → edits_to l g (act_step (buflen l) ARight (r, b)) (linenoiseEditMoveRight l g).
Proof.
  intros Hl Hm. unfold at_zipper, edits_to in *. cbn [fst snd act_step] in *. unfold linenoiseEditMoveRight.
  rewrite (al_pos _ _ _ Hl), (al_len _ _ _ Hl). destruct b as [|y b]; cbn [rev fst snd] in *.
  - change (zlen []) with 0. rewrite (proj2 (Z.eqb_eq _ _)) by lia. by apply no_edit.
  - rewrite zlen_cons. pose proof (zlen_nonneg b). rewrite (proj2 (Z.eqb_neq _ _)) by lia. cbn [negb].
    apply (move_edits l g (rev r) (y :: b)); try done; [by rewrite <- app_assoc|by rewrite zlen_app].
Qed.

Lemma home_edits l g r b : at_zipper l (r, b) → mlmode g = false → edits_to l g (act_step (buflen l) AHome (r, b)) (linenoiseEditMoveHome l g).
Proof.
  intros Hl Hm. unfold at_zipper, edits_to in *. cbn [fst snd act_step rev] in *. unfold linenoiseEditMoveHome.
  rewrite (al_pos _ _ _ Hl). destruct (Z.eqb_spec (zlen (rev r)) 0) as [E|E]; cbn [negb].
  - apply zlen_0_inv in E. rewrite E in *. by apply no_edit.
  - by apply (move_edits l g (rev r) b).
Qed.

Lemma end_edits l g r b : at_zipper l (r, b) → mlmode g = false → edits_to l g (act_step (buflen l) AEnd (r, b)) (linenoiseEditMoveEnd l g).
Proof.
  intros Hl Hm. unfold at_zipper, edits_to in *. cbn [fst snd act_step] in *. unfold linenoiseEditMoveEnd.
  rewrite rev_app_distr, rev_involutive. rewrite (al_pos _ _ _ Hl), (al_len _ _ _ Hl).
  destruct (Z.eqb_spec (zlen (rev r)) (zlen (rev r) + zlen b)) as [E|E]; cbn [negb].
  - assert (b = []) as -> by (apply zlen_0_inv; lia). rewrite app_nil_r. by apply no_edit.
  - apply (move_edits l g (rev r) b); try done; [by rewrite app_nil_r|by rewrite zlen_app].
Qed.

(** One step of each action, whatever key asks for it. *)
Definition act_op (x : act) : linenoiseState → env → result (linenoiseState * env) :=
  match x with
  | AInsert c => linenoiseEditInsert c
  | ABackspace => linenoiseEditBackspace
  | ADelete => linenoiseEditDelete
  | ASwap => edit_swap
  | ALeft => linenoiseEditMoveLeft
  | ARight => linenoiseEditMoveRight
  | AHome => linenoiseEditMoveHome
  | AEnd => linenoiseEditMoveEnd
  | AKillAll => edit_kill_all
  | AKillEnd => edit_kill_end
  | AWord => linenoiseEditDeletePrevWord
  | AClear => edit_clear_screen
  end.

Lemma act_edits x l g z :
  at_zipper l z → mlmode g = false → edits_to l g (act_step (buflen l) x z) (act_op x l g).
Proof.
  destruct z as [r b]. intros Hl Hm. unfold at_zipper, edits_to in *. cbn [fst snd] in Hl.
  destruct x; cbn [act_op].
  - pose proof (insert_edits l g (rev r) b c Hl Hm) as E. cbn [act_step].
    assert (zlen (rev r) = zlen r) as Hz by (unfold zlen; by rewrite length_rev). rewrite Hz in E.
    by destruct (zlen r + zlen b <? buflen l).
  - destruct r as [|x r]; cbn [act_step tail rev fst snd] in *; [|by apply (backspace_edits l g (rev r) b x)].
    unfold linenoiseEditBackspace. rewrite (al_pos _ _ _ Hl). by apply no_edit.
  - destruct b as [|y b]; cbn [act_step tail rev fst snd] in *; [|by apply (delete_edits l g (rev r) b y)].
    unfold linenoiseEditDelete. rewrite (al_pos _ _ _ Hl), (al_len _ _ _ Hl). change (zlen []) with 0.
    rewrite (proj2 (Z.ltb_ge (zlen (rev r)) _)) by lia. rewrite andb_false_r. by apply no_edit.
  - destruct r as [|x r]; cbn [act_step] in *.
    { unfold edit_swap. rewrite (al_pos _ _ _ Hl). by apply no_edit. }
    destruct b as [|y b]; cbn [rev fst snd] in *.
    { unfold edit_swap. rewrite (al_pos _ _ _ Hl), (al_len _ _ _ Hl). change (zlen []) with 0.
      rewrite (proj2 (Z.ltb_ge (zlen (rev r ++ [x])) _)) by lia. rewrite andb_false_r. by apply no_edit. }
    pose proof (swap_edits l g (rev r) b x y Hl Hm) as E. destruct b as [|z b]; cbn [rev fst snd]; [done|].
    by rewrite <- app_assoc.
  - by apply left_edits.
  - by apply right_edits.
  - by apply home_edits.
  - by apply end_edits.
  - by apply (kill_all_edits l g (rev r) b).
  - by apply (kill_end_edits l g (rev r) b).
  - by apply word_edits.
  - unfold edit_clear_screen. cbn [act_step fst snd]. rewrite (refresh_ok l (rev r) b) by done.
    exists l, (clear_screen ++ screen l (rev r) b). split; [|done]. unfold emit. cbn. by rewrite <- app_assoc.
Qed.

Lemma key_step x ks l g z rest :
  keyed x ks → at_zipper l z → mlmode g = false → tin g = map Key ks ++ rest →
  ∃ l' o, at_zipper l' (act_step (buflen l) x z) ∧ buflen l' = buflen l ∧
    ∀ fuel, edit_loop None (S fuel) l g = edit_loop None fuel l' (emit o (set_tin rest g)).
Proof.
  intros Hk Hl Hm Hin. destruct (act_edits x l (set_tin rest g) z Hl Hm) as (l' & o & E & Hl' & Hbl).
  exists l', o. split; [done|]. split; [done|]. intros fuel. cbn [edit_loop]. unfold read_key. rewrite Hin.
  assert (∀ c, edit_key c l (set_tin (map Key (tail ks) ++ rest) g) = continue (act_op x l (set_tin rest g)) →
    ks = c :: tail ks → match map Key ks ++ rest with [] => (Eof, g) | k :: ks => (k, set_tin ks g) end =
      (Key c, set_tin (map Key (tail ks) ++ rest) g) ∧
      (x0 ← edit_key c l (set_tin (map Key (tail ks) ++ rest) g);
       match x0 with Continue l g => edit_loop None fuel l g | Return n l g => Ok (n, l, g) end) =
      edit_loop None fuel l' (emit o (set_tin rest g))) as Hgo.
  { intros c Ec Eks. split; [by rewrite Eks at 1|]. rewrite Ec, E. done. }
  assert (∃ c, ks = c :: tail ks ∧ edit_key c l (set_tin (map Key (tail ks) ++ rest) g) = continue (act_op x l (set_tin rest g)))
    as (c & Eks & Ec).
  { destruct Hk as [c Hc1 Hc2|c [-> | ->]| | | | | | | |c [-> | ->]| |c [-> | ->]| | | |]; eexists; (split; [reflexivity|]); try reflexivity.
    unfold edit_key. cbn [tail map app act_op]. unfold ENTER, CTRL_C, BACKSPACE, CTRL_H, CTRL_D, CTRL_T, CTRL_B, CTRL_F, CTRL_P,
      CTRL_N, ESC, CTRL_U, CTRL_K, CTRL_A, CTRL_E, CTRL_L, CTRL_W in *.
    rewrite !(proj2 (Z.eqb_neq c _)) by lia. done. }
  destruct (Hgo c Ec Eks) as [-> Hx]. rbind. exact Hx.
Qed.

(** ** History *)

(** The history holds the lines [hs], the oldest first. *)
Definition hist_holds (g : env) (hs : list bytes) : Prop :=
  1 ≤ history_max_len g < 2 ^ 31 ∧ history_len g = zlen hs ∧ zlen hs ≤ history_max_len g ∧
  match history g with
  | None => hs = []
  | Some h => zlen h = history_max_len g ∧ ∃ rest, h = map Some hs ++ rest
  end.

(** The last [n] lines. *)
Definition lastn (n : Z) (hs : list bytes) : list bytes := drop (length hs - Z.to_nat n) hs.

(** A line is added unless it repeats the last one. *)
Definition hist_add (n : Z) (line : bytes) (hs : list bytes) : list bytes :=
  if bool_decide (last hs = Some line) then hs else lastn n (hs ++ [line]).

Lemma zlen_map {A B} (f : A → B) l : zlen (map f l) = zlen l.
Proof. unfold zlen. by rewrite length_map. Qed.

Lemma hist_put_app g h rest hs o i :
  history g = Some (map Some hs ++ h :: rest) → i = zlen hs →
  hist_put i o g = Ok (set_history (Some (map Some hs ++ o :: rest)) (history_len g) g).
Proof.
  intros Hh ->. unfold hist_put, hist_slots. rewrite Hh. cbn [Sds.nn]. rbind.
  pose proof (zlen_nonneg hs). pose proof (zlen_nonneg rest).
  rewrite (proj2 (Z.leb_le _ _)), (proj2 (Z.ltb_lt _ _)) by (autorewrite with zlen; rewrite ?zlen_map; lia). cbn [andb].
  do 3 f_equal. rewrite to_nat_zlen, <- (length_map Some hs), <- (Nat.add_0_r (length (map Some hs))), insert_app_r. done.
Qed.

Lemma hist_last g hs x h :
  history g = Some h → (∃ rest, h = map Some (hs ++ [x]) ++ rest) → history_len g = zlen (hs ++ [x]) →
  hist_at g (history_len g - 1) = Ok (Some x).
Proof.
  intros Hh [rest ->] Hl. unfold hist_at, hist_slots. rewrite Hh. cbn [Sds.nn]. rbind. rewrite Hl, zlen_app.
  change (zlen [x]) with 1. replace (zlen hs + 1 - 1) with (zlen hs) by lia.
  rewrite map_app, <- app_assoc. cbn [map app]. unfold vec_at. pose proof (zlen_nonneg hs). pose proof (zlen_nonneg rest).
  rewrite (proj2 (Z.leb_le _ _)), (proj2 (Z.ltb_lt _ _)) by (autorewrite with zlen; rewrite ?zlen_map; lia). cbn [andb].
  rewrite to_nat_zlen, <- (length_map Some hs). by rewrite list_lookup_middle.
Qed.

(** The array after the first call has allocated it. *)
Lemma hist_alloc g hs :
  hist_holds g hs →
  ∃ h rest, match history g with
       | None => if malloc_ok (8 * history_max_len g) then Some (replicate (Z.to_nat (history_max_len g)) None) else None
       | Some h => Some h
       end = Some h ∧ h = map Some hs ++ rest ∧ zlen h = history_max_len g.
Proof.
  intros (Hm & Hl & Hle & Hh). rewrite granted. destruct (history g) as [h|].
  - destruct Hh as (Hz & rest & ->). by eexists _, rest.
  - subst hs. eexists _, _. split; [done|]. split; [done|]. unfold zlen. rewrite length_replicate. lia.
Qed.

Lemma last_cases (hs : list bytes) : hs = [] ∨ ∃ l x, hs = l ++ [x].
Proof. destruct hs as [|x l _] using rev_ind; [by left|right; eauto]. Qed.

Lemma historyAdd_spec g hs line :
  hist_holds g hs →
  ∃ r g', linenoiseHistoryAdd line g = Ok (r, g') ∧ hist_holds g' (hist_add (history_max_len g) line hs) ∧
    (r = 1 ↔ last hs ≠ Some line) ∧
    history_max_len g' = history_max_len g ∧ mlmode g' = mlmode g ∧ tin g' = tin g ∧ tout g' = tout g.
Proof.
  intros Hg. pose proof Hg as (Hm & Hl & Hle & _). destruct (hist_alloc g hs Hg) as (h & rest & Eh & Er & Hz).
  unfold linenoiseHistoryAdd, hist_add. rewrite (proj2 (Z.eqb_neq _ _)) by lia. rewrite Eh. set (g1 := set_history _ _ g).
  assert ((if negb (history_len g1 =? 0) then o ← hist_at g1 (history_len g1 - 1); s ← Sds.nn o; Ok (bool_decide (s = line))
    else Ok false) = Ok (bool_decide (last hs = Some line))) as ->.
  { change (history_len g1) with (history_len g). rewrite Hl. destruct (last_cases hs) as [->|(l & x & ->)]; [done|].
    rewrite (proj2 (Z.eqb_neq _ _)) by (rewrite zlen_app; change (zlen [x]) with 1; pose proof (zlen_nonneg l); lia).
    cbn [negb]. pose proof (hist_last g1 l x h eq_refl (ex_intro _ rest Er) Hl) as E.
    change (history_len g1) with (history_len g) in E. rewrite Hl in E. rewrite E. rbind. cbn [Sds.nn]. rbind.
    rewrite last_snoc. f_equal. apply bool_decide_ext. split; [by intros ->|by intros [= ->]]. }
  rbind. case_bool_decide as Hdup.
  { exists 0, g1. split; [done|]. split; [|done]. split; [done|]. split; [done|]. split; [done|]. cbn. split; [done|]. by exists rest. }
  rewrite granted. cbn [negb]. change (history_len g1) with (history_len g). change (history_max_len g1) with (history_max_len g).
  rewrite Hl. pose proof (zlen_nonneg hs) as Hhs.
  assert (∃ hs' x rest', (if zlen hs =? history_max_len g then (drop 1 h ++ drop (length h - 1) h, zlen hs - 1) else (h, zlen hs)) =
    (map Some hs' ++ x :: rest', zlen hs') ∧ lastn (history_max_len g) (hs ++ [line]) = hs' ++ [line] ∧
    zlen (map Some hs' ++ x :: rest') = history_max_len g) as (hs' & x & rest' & -> & Elast & Hz').
  { destruct (Z.eqb_spec (zlen hs) (history_max_len g)) as [Efull|Efull].
    - destruct hs as [|y hs]; [change (zlen []) with 0 in Efull; lia|]. rewrite zlen_cons in *. subst h.
      rewrite zlen_app, zlen_map, zlen_cons in Hz. assert (rest = []) as -> by (apply zlen_0_inv; lia).
      rewrite app_nil_r. cbn [map drop].
      assert (∃ z, drop (length (Some y :: map Some hs) - 1) (Some y :: map Some hs) = [z]) as [z Ez].
      { assert (length (drop (length (Some y :: map Some hs) - 1) (Some y :: map Some hs)) = 1%nat) as E1
          by (rewrite length_drop; simpl; lia).
        destruct (drop _ _) as [|z [|]]; try done. by exists z. }
      rewrite Ez. exists hs, z, []. split; [f_equal; lia|]. split.
      + unfold lastn. replace (length ((y :: hs) ++ [line]) - Z.to_nat (history_max_len g))%nat with 1%nat; [done|].
        rewrite <- Efull, length_app. unfold zlen. simpl. lia.
      + rewrite zlen_app, zlen_map. change (zlen [z]) with 1. lia.
    - subst h. rewrite zlen_app, zlen_map in Hz. destruct rest as [|x rest]; [change (zlen []) with 0 in Hz; lia|].
      exists hs, x, rest. split; [done|]. split.
      + unfold lastn. replace (length (hs ++ [line]) - Z.to_nat (history_max_len g))%nat with 0%nat; [done|].
        rewrite length_app. unfold zlen in *. simpl. lia.
      + by rewrite zlen_app, zlen_map. }
  rewrite (hist_put_app (set_history (Some (map Some hs' ++ x :: rest')) (zlen hs') g1) x rest' hs') by done. rbind.
  eexists 1, _. split; [done|]. cbn [history history_len history_max_len set_history].
  rewrite zlen_app, zlen_map, zlen_cons in Hz'. pose proof (zlen_nonneg rest'). rewrite Elast.
  split; [|done]. split; [done|]. split; [cbn; by rewrite zlen_app|]. split; [cbn; rewrite zlen_app; change (zlen [line]) with 1; lia|].
  cbn. split; [by rewrite zlen_app, zlen_map, zlen_cons|]. exists rest'. by rewrite map_app, <- app_assoc.
Qed.

Lemma history_pop_spec g hs x :
  hist_holds g (hs ++ [x]) → ∃ g', history_pop g = Ok g' ∧ hist_holds g' hs ∧ history_max_len g' = history_max_len g ∧
    mlmode g' = mlmode g ∧ tin g' = tin g ∧ tout g' = tout g.
Proof.
  intros (Hm & Hl & Hle & Hh). destruct (history g) as [h|] eqn:Eh; [|by destruct hs]. destruct Hh as (Hz & rest & Er).
  rewrite zlen_app in Hl, Hle. change (zlen [x]) with 1 in *. rewrite map_app, <- app_assoc in Er. cbn [map app] in Er. subst h.
  unfold history_pop. rewrite Hl. replace (zlen hs + 1 - 1) with (zlen hs) by lia.
  rewrite (hist_put_app g (Some x) rest hs) by done. rbind. eexists. split; [done|]. split; [|done].
  cbn. split; [done|]. split; [done|]. split; [cbn; lia|]. split; [|by eexists].
  cbn [history_max_len set_history]. rewrite <- Hz. by rewrite !zlen_app, !zlen_cons.
Qed.

(** ** A whole line *)

(** Keys that stand for actions do what the actions do to the line. *)
Lemma keys_run xs : ∀ kss l g z rest,
  Forall2 keyed xs kss → at_zipper l z → mlmode g = false → tin g = map Key (concat kss) ++ rest →
  ∃ l' o, at_zipper l' (foldl (λ z x, act_step (buflen l) x z) z xs) ∧ buflen l' = buflen l ∧
    ∀ fuel, edit_loop None (length xs + fuel) l g = edit_loop None fuel l' (emit o (set_tin rest g)).
Proof.
  induction xs as [|x xs IH]; intros kss l g z rest Hk Hl Hm Hin; inversion Hk as [|? ks ? kss' Hx Hxs]; subst.
  - exists l, []. split; [done|]. split; [done|]. intros fuel. cbn [length Nat.add]. f_equal. unfold emit, set_tin.
    cbn. rewrite app_nil_r. cbn in Hin. subst rest. by destruct g.
  - cbn [concat] in Hin. rewrite map_app, <- app_assoc in Hin.
    destruct (key_step x ks l g z _ Hx Hl Hm Hin) as (l1 & o1 & Hl1 & Hb1 & E1).
    destruct (IH kss' l1 (emit o1 (set_tin (map Key (concat kss') ++ rest) g)) _ rest Hxs Hl1 Hm eq_refl)
      as (l2 & o2 & Hl2 & Hb2 & E2).
    rewrite Hb1 in Hl2. exists l2, (o1 ++ o2). split; [done|]. split; [lia|]. intros fuel. cbn [length Nat.add].
    rewrite E1, E2. f_equal. unfold emit, set_tin. cbn. by rewrite <- app_assoc.
Qed.

Definition no_nul (z : zipper) : Prop := Forall (λ c, c ≠ 0) z.1 ∧ Forall (λ c, c ≠ 0) z.2.

Lemma drop_while_Forall (P : Z → Prop) f r : Forall P r → Forall P (drop_while f r).
Proof. intros Hr. destruct (drop_while_suffix f r) as [w E]. rewrite E in Hr. by apply Forall_app in Hr as [_ ?]. Qed.

Lemma act_no_nul cap x ks z : keyed x ks → no_nul z → no_nul (act_step cap x z).
Proof.
  intros Hk. destruct z as [r b]. intros [Hr Hb]. cbn [fst snd] in *. unfold no_nul.
  destruct Hk; cbn [act_step]; try (split; by repeat constructor).
  - destruct (_ <? _); split; try done. constructor; [lia|done].
  - split; [|done]. by destruct Hr.
  - split; [done|]. by destruct Hb.
  - destruct r as [|x r]; [done|]. destruct b as [|y [|y' b]]; [done| |]; decompose_Forall_hyps; split; cbn; eauto.
  - destruct r as [|x r]; decompose_Forall_hyps; split; cbn; eauto.
  - destruct r as [|x r]; decompose_Forall_hyps; split; cbn; eauto.
  - destruct b as [|y b]; decompose_Forall_hyps; split; cbn; eauto.
  - destruct b as [|y b]; decompose_Forall_hyps; split; cbn; eauto.
  - split; [done|]. cbn. apply Forall_app. split; [by apply Forall_rev|done].
  - split; [done|]. cbn. apply Forall_app. split; [by apply Forall_rev|done].
  - split; [|done]. cbn. apply Forall_app. split; [by apply Forall_rev|done].
  - split; [|done]. cbn. apply Forall_app. split; [by apply Forall_rev|done].
  - split; [|done]. cbn. by do 2 apply drop_while_Forall.
Qed.

Lemma acts_no_nul cap xs kss : Forall2 keyed xs kss → ∀ z, no_nul z → no_nul (foldl (λ z x, act_step cap x z) z xs).
Proof. induction 1; intros z Hz; cbn [foldl]; [done|]. eauto using act_no_nul. Qed.

Lemma keyed_length xs kss : Forall2 keyed xs kss → (length xs ≤ length (concat kss))%nat.
Proof. induction 1 as [|x ks xs kss Hk _ IH]; cbn; [lia|]. rewrite length_app. assert (1 ≤ length ks)%nat by (by destruct Hk; cbn; lia). lia. Qed.

(** The text of the zipper is what [strdup] copies out of the buffer. *)
Lemma strdup_line l z : at_zipper l z → no_nul z → strdup (buf l) = Ok (Some (content z)).
Proof.
  intros Hl [Hr Hb]. destruct (al_buf _ _ _ Hl) as [rest E]. unfold strdup. rewrite E, app_assoc.
  rewrite strlen_ok by (apply Forall_app; split; [by apply Forall_rev|done]). rbind. rewrite granted.
  unfold content. rewrite to_nat_zlen. by rewrite take_app_length.
Qed.

Lemma hist_add_snoc n line hs : 1 ≤ n → ∃ l, hist_add n line hs = l ++ [line].
Proof.
  intros Hn. unfold hist_add. case_bool_decide as Hd.
  - destruct (last_cases hs) as [->|(l & x & ->)]; [done|]. rewrite last_snoc in Hd. injection Hd as ->. by exists l.
  - unfold lastn. rewrite drop_app_le by (rewrite length_app; simpl; lia). by eexists.
Qed.

(** The Enter key leaves the loop with the line, and takes the entry of the
    line being edited out of the history. *)
Lemma enter_returns fuel l g z hs x rest :
  at_zipper l z → mlmode g = false → hist_holds g (hs ++ [x]) → tin g = Key ENTER :: rest →
  ∃ g', edit_loop None (S fuel) l g = Ok (i32 (len l), l, g') ∧ hist_holds g' hs ∧ tin g' = rest ∧
    history_max_len g' = history_max_len g.
Proof.
  intros Hl Hm Hh Hin. destruct (history_pop_spec (set_tin rest g) hs x Hh) as (g' & Ep & Hh' & Hmax & Hm' & Ht' & _).
  exists g'. split; [|done]. cbn [edit_loop]. unfold read_key. rewrite Hin. rbind. unfold edit_key.
  cbn [Z.eqb ENTER Pos.eqb]. rewrite Ep. rbind. rewrite Hm'. cbn [mlmode set_tin]. rewrite Hm. done.
Qed.

Lemma zlen_junk n z : Z.of_nat n = z → zlen (junk n) = z.
Proof. intros <-. unfold zlen. by rewrite junk_length. Qed.

Lemma start_at_zipper prm columns b :
  zlen b = LINENOISE_MAX_LINE → zlen prm < columns < 2 ^ 20 →
  ∃ b', store b 0 0 = Ok b' ∧
  at_zipper {| buf := b'; buflen := u64 (LINENOISE_MAX_LINE - 1); prompt := prm; plen := zlen prm; pos := 0; oldpos := 0; len := 0;
      cols := columns; maxrows := 0; history_index := 0 |} ([], []).
Proof.
  intros Hb Hc. destruct b as [|x b]; [done|]. exists (0 :: b). rewrite (store_app [] x b) by done. split; [done|].
  rewrite zlen_cons in Hb. split; cbn [buf buflen prompt plen pos oldpos len cols maxrows history_index rev fst snd]; try done; try lia.
  - by exists b.
  - rewrite zlen_cons. change (u64 (LINENOISE_MAX_LINE - 1)) with 4095. unfold LINENOISE_MAX_LINE in *. lia.
Qed.


(** Without a terminal the line comes as it is, up to its line feed. *)
Lemma gets_line n s rest :
  Forall (λ c, c ≠ LF) s → (length s < n)%nat → gets_loop n (map Key (s ++ [LF]) ++ rest) = (Some (s ++ [LF]), rest).
Proof.
  intros Hs. revert n. induction Hs as [|c s Hc Hs IH]; intros n Hn; (destruct n as [|n]; [simpl in Hn; lia|]); cbn [app map gets_loop].
  - done.
  - rewrite (proj2 (Z.eqb_neq _ _) Hc). rewrite IH by (simpl in Hn; lia). done.
Qed.

Lemma piped_line prm columns g s rest :
  Forall (λ c, c ≠ 0 ∧ c ≠ LF) s → zlen s + 1 < LINENOISE_MAX_LINE → tin g = map Key (s ++ [LF]) ++ rest →
  linenoise None false false prm columns g = Ok (Some s, set_tin rest g).
Proof.
  intros Hs Hz Hin. unfold linenoise, linenoiseRaw, stdin_gets. rewrite Hin.
  rewrite gets_line by ((eapply Forall_impl; [exact Hs|]; naive_solver) || (unfold zlen, LINENOISE_MAX_LINE in *; lia)).
  assert ((match s ++ [LF] with [] => (None, set_tin rest g) | _ :: _ => (Some (s ++ [LF]), set_tin rest g) end) =
    (Some (s ++ [LF]), set_tin rest g)) as -> by (by destruct s).
  cbn [option_map]. rbind.
  assert (cstr (s ++ [LF]) = s ++ [LF]) as ->.
  { clear -Hs. induction Hs as [|c s (Hc & _) Hs IH]; [done|]. cbn. rewrite (proj2 (Z.eqb_neq c 0) Hc). f_equal. exact IH. }
  rewrite rev_app_distr. cbn [rev app]. change LF with 10. rewrite rev_involutive. unfold strdup.
  rewrite strlen_ok by (eapply Forall_impl; [exact Hs|]; naive_solver). rbind. rewrite granted, to_nat_zlen.
  by rewrite take_app_length.
Qed.

(** Where the screen is wider than the prompt, [refreshSingleLine] writes
    the prompt, a window of the line that fills the columns behind the prompt
    at most, and a cursor column that is behind the prompt and within the
    screen; the cursor stands on the character of the window that it is on in
    the line. *)
Theorem refresh_shows_cursor l a b :
  at_line l a b →
  ∃ k v col, refreshSingleLine l = Ok ([CR] ++ prompt l ++ v ++ [ESC] ++ str "[0K" ++ [CR] ++ esc col 67) ∧
    0 ≤ k ≤ zlen a ∧ v = take (Z.to_nat (cols l - plen l)) (drop (Z.to_nat k) (a ++ b)) ∧
    plen l ≤ col < cols l ∧ v !! Z.to_nat (col - plen l) = head b.
Proof.
  intros Hl. pose proof (al_cols _ _ _ Hl). pose proof (al_prompt _ _ _ Hl). pose proof (zlen_nonneg (prompt l)).
  pose proof (zlen_nonneg a). set (k := scrolled (plen l) (cols l) (zlen a)).
  assert (0 ≤ k ≤ zlen a ∧ plen l + zlen a - k < cols l) as [Hk Hcol] by (subst k; unfold scrolled; lia).
  exists k, (visible l a b), (plen l + zlen a - k). split; [by apply refreshSingle_ok|]. split; [done|]. split; [done|].
  split; [lia|]. unfold visible. fold k. rewrite lookup_take_lt by lia. rewrite lookup_drop.
  replace (Z.to_nat k + Z.to_nat (plen l + zlen a - k - plen l))%nat with (length a) by (unfold zlen in *; lia).
  rewrite lookup_app_r by lia. rewrite Nat.sub_diag. by destruct b.
Qed.

(** ** The history as a list *)

(** The calls that change the history. *)
Inductive hop := HAdd (line : bytes) | HMax (n : Z).

Fixpoint run_hist (ops : list hop) (g : env) : result env :=
  match ops with
  | [] => Ok g
  | HAdd line :: ops => '(_, g) ← linenoiseHistoryAdd line g; run_hist ops g
  | HMax n :: ops => run_hist ops (linenoiseHistorySetMaxLen n g).2
  end.

(** The limit and the lines. *)
Definition hop_step (s : Z * list bytes) (op : hop) : Z * list bytes :=
  match op with
  | HAdd line => (s.1, hist_add s.1 line s.2)
  | HMax n => if n <? 1 then s else (n, lastn n s.2)
  end.

Lemma lastn_all n hs : zlen hs ≤ n → lastn n hs = hs.
Proof. intros Hn. unfold lastn. replace (length hs - Z.to_nat n)%nat with 0%nat; [done|]. unfold zlen in *. lia. Qed.

Lemma zlen_lastn n hs : 0 ≤ n → zlen (lastn n hs) = Z.min n (zlen hs).
Proof. intros Hn. unfold lastn, zlen. rewrite length_drop. lia. Qed.

Lemma setMaxLen_spec n g hs :
  hist_holds g hs → n < 2 ^ 31 →
  let '(n', hs') := hop_step (history_max_len g, hs) (HMax n) in
  hist_holds (linenoiseHistorySetMaxLen n g).2 hs' ∧ history_max_len (linenoiseHistorySetMaxLen n g).2 = n' ∧
  (linenoiseHistorySetMaxLen n g).1 = (if n <? 1 then 0 else 1).
Proof.
  intros Hg Hn. pose proof Hg as (Hm & Hl & Hle & Hh). unfold hop_step, linenoiseHistorySetMaxLen. cbn [fst snd].
  destruct (Z.ltb_spec n 1) as [H1|H1]; [done|]. pose proof (zlen_nonneg hs) as Hz0. pose proof (zlen_lastn n hs ltac:(lia)) as Hzl.
  destruct (history g) as [h|]; cbn [fst snd].
  - destruct Hh as (Hz & rest & ->). rewrite granted. cbn [negb fst snd]. rewrite Hl. split; [|done].
    assert (take (Z.to_nat (Z.min n (zlen hs))) (drop (Z.to_nat (zlen hs - Z.min n (zlen hs))) (map Some hs ++ rest)) =
      map Some (lastn n hs)) as ->.
    { rewrite drop_app_le by (rewrite length_map; unfold zlen; lia). unfold lastn. rewrite <- skipn_map.
      replace (Z.to_nat (zlen hs - Z.min n (zlen hs))) with (length hs - Z.to_nat n)%nat by (unfold zlen; lia).
      apply take_app_length'. rewrite length_drop, length_map. unfold zlen. lia. }
    split; [cbn; lia|]. split; [cbn; lia|]. split; [cbn; lia|]. cbn. split; [|by eexists].
    rewrite zlen_app, zlen_map, length_map. unfold zlen in *. rewrite length_replicate. lia.
  - subst hs. split; [|done]. unfold lastn. rewrite drop_nil. change (zlen []) with 0 in *.
    split; [cbn; lia|]. rewrite Hl. cbn. change (zlen []) with 0. split; [lia|]. split; [lia|]. done.
Qed.

(** The history is the list its callers see: after any sequence of
    [linenoiseHistoryAdd] and [linenoiseHistorySetMaxLen] calls it holds,
    oldest first, the lines that the list specification gives. A line is
    appended unless it repeats the newest one, and only the newest
    [history_max_len] lines are kept. No call reads or writes outside the
    array. *)
Theorem history_refines ops : ∀ g hs,
  hist_holds g hs → Forall (λ op, match op with HMax n => n < 2 ^ 31 | _ => True end) ops →
  ∃ g', run_hist ops g = Ok g' ∧
    let '(n, hs') := foldl hop_step (history_max_len g, hs) ops in hist_holds g' hs' ∧ history_max_len g' = n.
Proof.
  induction ops as [|op ops IH]; intros g hs Hg Hops.
  { exists g. by cbn. }
  inversion Hops as [|? ? Hop Hrest]; subst. destruct op as [line|n]; cbn [run_hist foldl].
  - destruct (historyAdd_spec g hs line Hg) as (r & g1 & -> & Hg1 & _ & Hm & _). rbind.
    cbn [hop_step fst snd]. rewrite <- Hm. apply IH; [by rewrite Hm|done].
  - pose proof (setMaxLen_spec n g hs Hg Hop) as Hs. destruct (hop_step (history_max_len g, hs) (HMax n)) as [n' hs'] eqn:E.
    destruct Hs as (Hg1 & Hm & _). rewrite <- Hm. by apply IH.
Qed.

(** ** The history file *)

(** A line that a text file can hold. *)
Definition file_line (s : bytes) : Prop := Forall (λ c, c ≠ 0 ∧ c ≠ CR ∧ c ≠ LF) s ∧ zlen s + 1 < LINENOISE_MAX_LINE.

Lemma save_spec g hs : hist_holds g hs → linenoiseHistorySave g = Ok (concat (map (λ s, s ++ [LF]) hs)).
Proof.
  intros (_ & Hl & _ & Hh). unfold linenoiseHistorySave. rewrite Hl. destruct (history g) as [h|]; [|by subst].
  destruct Hh as (_ & rest & ->). rewrite to_nat_zlen. clear Hl. induction hs as [|s hs IH]; [by destruct rest|].
  cbn [map app length save_loop concat]. rewrite IH. rbind. by rewrite <- app_assoc.
Qed.

Lemma fgets_line n s rest :
  Forall (λ c, c ≠ LF) s → (length s < n)%nat → fgets_loop n (s ++ LF :: rest) = (s ++ [LF], rest).
Proof.
  intros Hs. revert n. induction Hs as [|c s Hc Hs IH]; intros n Hn; (destruct n as [|n]; [simpl in Hn; lia|]); cbn [app fgets_loop].
  - done.
  - rewrite (proj2 (Z.eqb_neq _ _) Hc). rewrite IH by (simpl in Hn; lia). done.
Qed.

Lemma upto_end c s : Forall (λ x, x ≠ c) s → upto c (s ++ [c]) = s.
Proof.
  induction 1 as [|x s Hx Hs IH]; cbn [app upto]; [by rewrite Z.eqb_refl|]. by rewrite (proj2 (Z.eqb_neq _ _) Hx), IH.
Qed.

Lemma line_of_file s : file_line s → line_of (cstr (s ++ [LF])) = s.
Proof.
  intros [Hs _].
  assert (cstr (s ++ [LF]) = s ++ [LF]) as ->.
  { clear -Hs. induction Hs as [|c s (Hc & _ & _) Hs IH]; [done|]. cbn. rewrite (proj2 (Z.eqb_neq c 0) Hc). f_equal. exact IH. }
  unfold line_of. assert (existsb (Z.eqb CR) (s ++ [LF]) = false) as ->.
  { clear -Hs. induction Hs as [|c s (_ & Hc & _) Hs IH]; [done|]. cbn [app existsb].
    rewrite (proj2 (Z.eqb_neq CR c)) by done. done. }
  apply upto_end. eapply Forall_impl; [exact Hs|]. by intros ? (_ & _ & ?).
Qed.

(** Loading a file adds its lines in their order. *)
Lemma load_spec hs : ∀ fuel g hs0,
  Forall file_line hs → hist_holds g hs0 → (length (concat (map (λ s, s ++ [LF]) hs)) < fuel)%nat →
  ∃ g', load_loop fuel (concat (map (λ s, s ++ [LF]) hs)) g = Ok g' ∧
    hist_holds g' (foldl (λ l s, hist_add (history_max_len g) s l) hs0 hs) ∧ history_max_len g' = history_max_len g.
Proof.
  induction hs as [|s hs IH]; intros fuel g hs0 Hs Hg Hf; (destruct fuel as [|fuel]; [lia|]).
  { by exists g. }
  inversion Hs as [|? ? Hs1 Hs2]; subst. cbn [map concat foldl load_loop] in *.
  assert (fgets LINENOISE_MAX_LINE ((s ++ [LF]) ++ concat (map (λ s, s ++ [LF]) hs)) =
    Some (s ++ [LF], concat (map (λ s, s ++ [LF]) hs))) as ->.
  { rewrite <- app_assoc. unfold fgets. cbn [app].
    destruct (s ++ LF :: concat (map (λ s, s ++ [LF]) hs)) as [|c t] eqn:E; [by destruct s|]. rewrite <- E. f_equal.
    destruct Hs1 as [Hc Hz]. apply fgets_line; [eapply Forall_impl; [exact Hc|]; by intros ? (_ & _ & ?)|].
    unfold zlen, LINENOISE_MAX_LINE in *. lia. }
  rewrite line_of_file by done. destruct (historyAdd_spec g hs0 s Hg) as (r & g1 & -> & Hg1 & _ & Hm & _). rbind.
  rewrite <- Hm in Hg1 |- *. apply IH; [done|done|]. rewrite !length_app in Hf. simpl in Hf. lia.
Qed.

(** No line repeats the one before it. *)
Fixpoint no_repeat (hs : list bytes) : Prop :=
  match hs with x :: (y :: _) as t => x ≠ y ∧ no_repeat t | _ => True end.

Lemma no_repeat_snoc hs x : no_repeat (hs ++ [x]) → no_repeat hs ∧ last hs ≠ Some x.
Proof.
  induction hs as [|y [|z hs] IH]; [done| |].
  - cbn. intros [Hn _]. split; [done|]. congruence.
  - cbn [app no_repeat]. intros [Hn Hr]. destruct (IH Hr) as [H1 H2]. split; [done|]. by rewrite last_cons_cons.
Qed.

Lemma add_all n hs : no_repeat hs → zlen hs ≤ n → foldl (λ l s, hist_add n s l) [] hs = hs.
Proof.
  induction hs as [|x hs IH] using rev_ind; [done|]. intros Hr Hn. destruct (no_repeat_snoc hs x Hr) as [Hr' Hl].
  rewrite zlen_app in Hn. change (zlen [x]) with 1 in Hn. rewrite foldl_app, IH by (done || lia). cbn [foldl].
  unfold hist_add. rewrite bool_decide_eq_false_2 by done. apply lastn_all. rewrite zlen_app. change (zlen [x]) with 1. lia.
Qed.

(** What [linenoiseHistorySave] writes, [linenoiseHistoryLoad] reads back
    into an empty history of at least that size: the same lines in the same
    order, where no line has a CR, LF or NUL, is longer than the buffer that
    reads it, or repeats its predecessor. *)
Theorem history_file_roundtrip g hs g0 :
  hist_holds g hs → Forall file_line hs → no_repeat hs → hist_holds g0 [] → zlen hs ≤ history_max_len g0 →
  ∃ file g', linenoiseHistorySave g = Ok file ∧ linenoiseHistoryLoad file g0 = Ok g' ∧ hist_holds g' hs.
Proof.
  intros Hg Hs Hr Hg0 Hn. eexists. rewrite (save_spec g hs Hg). unfold linenoiseHistoryLoad.
  destruct (load_spec hs (S (length (concat (map (λ s, s ++ [LF]) hs)))) g0 [] Hs Hg0) as (g' & E & Hg' & _); [lia|].
  exists g'. split; [done|]. split; [done|]. by rewrite add_all in Hg'.
Qed.
End linenoise_spec.

(** ** Witnesses *)

(** A fresh editor with some keys waiting. *)
Definition fresh (ks : list Z) : env :=
  {| mlmode := false; history_max_len := LINENOISE_DEFAULT_HISTORY_MAX_LEN; history_len := 0; history := None;
     tin := map Key ks; tout := [] |}.


Definition shown : linenoiseState :=
  {| buf := str "abcdef" ++ [0; 0]; buflen := 7; prompt := str "> "; plen := 2; pos := 4; oldpos := 0; len := 6; cols := 5;
     maxrows := 0; history_index := 0 |}.

Lemma refresh_shows_cursor_witness :
  ∃ k v col, refreshSingleLine (H := calloc_all) shown =
      Ok ([CR] ++ prompt shown ++ v ++ [ESC] ++ str "[0K" ++ [CR] ++ esc col 67) ∧
    0 ≤ k ≤ 4 ∧ v = take 3 (drop (Z.to_nat k) (str "abcdef")) ∧ 2 ≤ col < 5 ∧ v !! Z.to_nat (col - 2) = Some 101.
Proof.
  apply (@refresh_shows_cursor calloc_all (λ _, eq_refl) shown (str "abcd") (str "ef")).
  split; try (vm_compute; congruence). by exists [0].
Defined.

Lemma history_refines_witness :
  ∃ g', run_hist (H := calloc_all) [HMax 2; HAdd (str "a"); HAdd (str "b"); HAdd (str "b"); HAdd (str "c")] (fresh []) = Ok g' ∧
    hist_holds g' [str "b"; str "c"] ∧ history_max_len g' = 2.
Proof.
  apply (@history_refines calloc_all (λ _, eq_refl) [HMax 2; HAdd (str "a"); HAdd (str "b"); HAdd (str "b"); HAdd (str "c")] (fresh []) []).
  - repeat split; vm_compute; done.
  - by repeat constructor.
Defined.

Definition saved : env :=
  {| mlmode := false; history_max_len := 2; history_len := 2; history := Some [Some (str "get a"); Some (str "get b")];
     tin := []; tout := [] |}.

Lemma history_file_roundtrip_witness :
  ∃ file g', linenoiseHistorySave saved = Ok file ∧ linenoiseHistoryLoad (H := calloc_all) file (fresh []) = Ok g' ∧
    hist_holds g' [str "get a"; str "get b"].
Proof.
  apply (@history_file_roundtrip calloc_all (λ _, eq_refl) saved [str "get a"; str "get b"] (fresh [])).
  - repeat split; try (vm_compute; congruence). by exists [].
  - repeat constructor; vm_compute; congruence.
  - split; [|done]. vm_compute. congruence.
  - repeat split; vm_compute; done.
  - vm_compute. congruence.
Defined.

(** ** Where the editor leaves its buffer *)

(** On a terminal narrower than the prompt (10 columns, a prompt of 16)
    [refreshSingleLine] takes the length of an empty line below zero and
    copies with a negative length. *)
Theorem narrow_terminal_faults :
  refreshSingleLine (H := calloc_all)
    {| buf := replicate 4096 0; buflen := 4095; prompt := str "127.0.0.1:6379> "; plen := 16; pos := 0; oldpos := 0; len := 0;
       cols := 10; maxrows := 0; history_index := 0 |} = Fault OutOfBounds.
Proof. vm_compute. reflexivity. Qed.

(** A completion longer than the buffer is cut by [snprintf], but the length
    of the line is the one [snprintf] would have written: the next key writes
    outside the buffer. *)
Lemma long_completion_faults :
  linenoise (H := calloc_all) (Some (λ _, [replicate 5000 97])) false true (str "> ") 80 (fresh [TAB; BACKSPACE]) = Fault OutOfBounds.
Proof. vm_compute. reflexivity. Qed.
