(* ===== verification/Connect.v ===== *)
(** * A connection of the server (gent_connect.h, gent_connect.cpp, the
    handlers of gent_event.cpp)

    A connection is a state machine driven by libevent: each readiness event
    runs [TryRunning], which reads requests into a buffer, hands them to the
    command object, reads the rest of a value or of a long [mset], and sends
    the reply. The command object is an interface ([Command]), which the
    Redis commands implement; the status of the connection is a field of the
    command's model, since the commands set it through their back pointer. *)

From S2P Require Import Prelude Cstd Cmem Sds LevelDb Db Config Redis.

Module Connect.
Import Redis.

(** [class GentCommand]: [E] is what the calls read of the outside (the time,
    a random number), [W] the shared objects they change. *)
Class Command (E C W : Type) := {
  cmd_status : C → connst;
  cmd_SetStatus : connst → C → C;
  (** the value returned and the text put into [outstr] *)
  cmd_Process : E → bytes → C → W → result (Z * bytes * C * W);
  cmd_ContinueProcess : E → bytes → C → W → result (Z * C * W);
  cmd_Complete : E → bytes → C → W → result (bytes * C * W)
}.

Class CommandLaws (E C W : Type) `{Command E C W} := {
  status_set s c : cmd_status (cmd_SetStatus s c) = s;
  set_set s s' c : cmd_SetStatus s (cmd_SetStatus s' c) = cmd_SetStatus s c;
  set_same c : cmd_SetStatus (cmd_status c) c = c
}.

Definition READ_BUFFER_SIZE : Z := 4096.

(** What a [read] finds: data (none at the end of the stream), nothing yet,
    or an error; and what a [send] does: it takes some bytes, none for now,
    or fails, from then on for good. Behind the end of the first list
    nothing has arrived; behind the end of the second everything is taken. *)
Inductive rd := RdData (b : bytes) | RdAgain | RdErr.
Inductive sd := SdTake (n : Z) | SdAgain | SdErr.

Record sock := { inq : list rd; outq : list sd; sent : bytes }.

Definition set_inq (q : list rd) (s : sock) : sock := {| inq := q; outq := outq s; sent := sent s |}.

(** [read(fd, p, n)]. *)
Definition sock_read (n : Z) (s : sock) : rd * sock :=
  match inq s with
  | [] => (RdAgain, s)
  | RdData b :: q =>
      if zlen b <=? n then (RdData b, set_inq q s)
      else (RdData (take (Z.to_nat n) b), set_inq (RdData (drop (Z.to_nat n) b) :: q) s)
  | r :: q => (r, set_inq q s)
  end.

(** [send(fd, b, zlen b, 0)]: the number of bytes taken. *)
Definition sock_send (b : bytes) (s : sock) : sd * sock :=
  match outq s with
  | [] => (SdTake (zlen b), {| inq := inq s; outq := []; sent := sent s ++ b |})
  | SdTake n :: q =>
      let n := Z.max 0 (Z.min n (zlen b)) in
      (SdTake n, {| inq := inq s; outq := q; sent := sent s ++ take (Z.to_nat n) b |})
  | SdAgain :: q => (SdAgain, {| inq := inq s; outq := q; sent := sent s |})
  | SdErr :: _ => (SdErr, s)
  end.

(** [eventRead] and [eventWrite]. *)
Inductive evst := EvRead | EvWrite.

#[global] Instance evst_eq_dec : EqDecision evst.
Proof. solve_decision. Defined.

(** The buffers and counters of [GentConnect]. [rcont] is the offset into
    [content]. *)
Record GentConnect := {
  fd : Z;
  rbuf : option bytes;
  rsize : Z;
  content : option bytes;
  rcont : Z;
  cbuf : option bytes;
  csize : Z;
  cbytes : Z;
  outstr : bytes;
  sendsize : Z;
  cursendsize : Z;
  remainsize : Z;
  actualsize : Z;
  ev_flags : evst
}.

(** Assignments to groups of fields. *)
Definition set_rbuf (b : option bytes) (n : Z) (c : GentConnect) : GentConnect :=
  {| fd := fd c; rbuf := b; rsize := n; content := content c; rcont := rcont c; cbuf := cbuf c; csize := csize c;
     cbytes := cbytes c; outstr := outstr c; sendsize := sendsize c; cursendsize := cursendsize c;
     remainsize := remainsize c; actualsize := actualsize c; ev_flags := ev_flags c |}.
Definition set_content (b : option bytes) (off act : Z) (c : GentConnect) : GentConnect :=
  {| fd := fd c; rbuf := rbuf c; rsize := rsize c; content := b; rcont := off; cbuf := cbuf c; csize := csize c;
     cbytes := cbytes c; outstr := outstr c; sendsize := sendsize c; cursendsize := cursendsize c;
     remainsize := remainsize c; actualsize := act; ev_flags := ev_flags c |}.
Definition set_cbuf (b : option bytes) (n k : Z) (c : GentConnect) : GentConnect :=
  {| fd := fd c; rbuf := rbuf c; rsize := rsize c; content := content c; rcont := rcont c; cbuf := b; csize := n;
     cbytes := k; outstr := outstr c; sendsize := sendsize c; cursendsize := cursendsize c;
     remainsize := remainsize c; actualsize := actualsize c; ev_flags := ev_flags c |}.
Definition set_out (o : bytes) (c : GentConnect) : GentConnect :=
  {| fd := fd c; rbuf := rbuf c; rsize := rsize c; content := content c; rcont := rcont c; cbuf := cbuf c; csize := csize c;
     cbytes := cbytes c; outstr := o; sendsize := sendsize c; cursendsize := cursendsize c;
     remainsize := remainsize c; actualsize := actualsize c; ev_flags := ev_flags c |}.
Definition set_sending (n k : Z) (c : GentConnect) : GentConnect :=
  {| fd := fd c; rbuf := rbuf c; rsize := rsize c; content := content c; rcont := rcont c; cbuf := cbuf c; csize := csize c;
     cbytes := cbytes c; outstr := outstr c; sendsize := n; cursendsize := k;
     remainsize := remainsize c; actualsize := actualsize c; ev_flags := ev_flags c |}.
Definition set_remain (n : Z) (c : GentConnect) : GentConnect :=
  {| fd := fd c; rbuf := rbuf c; rsize := rsize c; content := content c; rcont := rcont c; cbuf := cbuf c; csize := csize c;
     cbytes := cbytes c; outstr := outstr c; sendsize := sendsize c; cursendsize := cursendsize c;
     remainsize := n; actualsize := actualsize c; ev_flags := ev_flags c |}.
Definition set_flags (f : evst) (c : GentConnect) : GentConnect :=
  {| fd := fd c; rbuf := rbuf c; rsize := rsize c; content := content c; rcont := rcont c; cbuf := cbuf c; csize := csize c;
     cbytes := cbytes c; outstr := outstr c; sendsize := sendsize c; cursendsize := cursendsize c;
     remainsize := remainsize c; actualsize := actualsize c; ev_flags := f |}.

Section connect.
Context `{Malloc} `{Command E C W}.
(** Do [event_del] and [event_add] succeed? *)
Context (event_del_ok event_add_ok : bool).

(** The connection, its command object, its socket and what the commands
    share. *)
Record state := { conn : GentConnect; comm : C; net : sock; world : W }.

Definition with_conn (f : GentConnect → GentConnect) (st : state) : state :=
  {| conn := f (conn st); comm := comm st; net := net st; world := world st |}.
Definition with_net (s : sock) (st : state) : state :=
  {| conn := conn st; comm := comm st; net := s; world := world st |}.
Definition with_comm (c : C) (w : W) (st : state) : state :=
  {| conn := conn st; comm := c; net := net st; world := w |}.

Definition SetStatus (s : connst) (st : state) : state := with_comm (cmd_SetStatus s (comm st)) (world st) st.
Definition status (st : state) : connst := cmd_status (comm st).

(** [GetStatus]: the name of the status. *)
Definition GetStatus (st : state) : bytes :=
  match status st with
  | CONN_READ | CONN_NREAD => str "read"
  | CONN_WRITE => str "send"
  | CONN_WAIT => str "wait"
  | CONN_CLOSE => str "close"
  | CONN_DATA => str "parse"
  | CONN_CONREAD => str "continue_read"
  end.

(** [GentEvent::UpdateEvent]. *)
Definition UpdateEvent (f : evst) (c : GentConnect) : Z * GentConnect :=
  if bool_decide (ev_flags c = f) then (0, c)
  else if negb event_del_ok then (-1, c)
  else if negb event_add_ok then (-1, set_flags f c)
  else (0, set_flags f c).

(** [malloc(n)] and [memset]: writing through NULL faults. *)
Definition zalloc (n : Z) : result bytes :=
  if malloc_ok (u64 n) then Ok (replicate (Z.to_nat (u64 n)) 0) else Fault OutOfBounds.

Definition ReAllocation (c : GentConnect) : result GentConnect :=
  let c := set_content None (rcont c) 0 c in
  match rbuf c with
  | None => b ← zalloc READ_BUFFER_SIZE; Ok (set_rbuf (Some b) READ_BUFFER_SIZE c)
  | Some b => b ← blit b 0 (replicate (Z.to_nat (rsize c)) 0); Ok (set_rbuf (Some b) (rsize c) c)
  end.

Definition Reset (c : GentConnect) : result GentConnect :=
  ReAllocation (set_cbuf None (csize c) (cbytes c) (set_content None (rcont c) (actualsize c) c)).

(** [Init(sfd)] with the buffer the connection already has. *)
Definition Init (sfd : Z) (c : GentConnect) : result GentConnect :=
  ReAllocation {| fd := sfd; rbuf := rbuf c; rsize := rsize c; content := content c; rcont := rcont c;
                  cbuf := None; csize := 0; cbytes := 0; outstr := outstr c; sendsize := 0; cursendsize := 0;
                  remainsize := 0; actualsize := actualsize c; ev_flags := EvRead |}.

(** The reading loop of [InitRead] and [ContinueRead]: fills the buffer from
    [n] on, doubling it at most four times. *)
Record fill := { code : Z; fbuf : bytes; fsize : Z; fbytes : Z; again : bool; fnet : sock }.

Fixpoint fill_loop (fuel : nat) (b : bytes) (size n got allocs : Z) (s : sock) : result fill :=
  match fuel with
  | O => Fault AssertFailed
  | S fuel =>
      let go (b : bytes) (size allocs : Z) :=
        let avail := size - n in
        match sock_read avail s with
        | (RdData t, s) =>
            if zlen t =? 0 then Ok {| code := -3; fbuf := b; fsize := size; fbytes := n; again := false; fnet := s |}
            else
              b ← blit b n t;
              let n := n + zlen t in
              if zlen t =? avail then fill_loop fuel b size n 1 allocs s
              else Ok {| code := 1; fbuf := b; fsize := size; fbytes := n; again := false; fnet := s |}
        | (RdAgain, s) => Ok {| code := got; fbuf := b; fsize := size; fbytes := n; again := true; fnet := s |}
        | (RdErr, s) => Ok {| code := -1; fbuf := b; fsize := size; fbytes := n; again := false; fnet := s |}
        end in
      if size <=? n then
        if allocs =? 4 then Ok {| code := got; fbuf := b; fsize := size; fbytes := n; again := false; fnet := s |}
        else
          size2 ← Sds.int_of (size * 2);
          if malloc_ok (u64 size2) then go (resize b size2) size2 (allocs + 1)
          else Ok {| code := -2; fbuf := b; fsize := size; fbytes := n; again := false; fnet := s |}
      else go b size allocs
  end.

(** A round that goes on has filled the buffer, so that the next one doubles
    it: six rounds are enough. *)
Definition FILL_ROUNDS : nat := 6.

(** [InitRead(rbytes)]. *)
Definition InitRead (rbytes : Z) (st : state) : result (Z * Z * state) :=
  b ← Sds.nn (rbuf (conn st));
  f ← fill_loop FILL_ROUNDS b (rsize (conn st)) rbytes 0 0 (net st);
  Ok (code f, if code f =? -2 then 0 else fbytes f,
      with_net (fnet f) (with_conn (set_rbuf (Some (fbuf f)) (fsize f)) st)).

(** [ContinueRead(cbytes)]: where the buffer cannot grow, the code resets
    another variable, and [cbytes] stays. *)
Definition ContinueRead (st : state) : result (Z * state) :=
  b ← Sds.nn (cbuf (conn st));
  f ← fill_loop FILL_ROUNDS b (csize (conn st)) (cbytes (conn st)) 0 0 (net st);
  let st := with_net (fnet f) (with_conn (set_cbuf (Some (fbuf f)) (fsize f) (fbytes f)) st) in
  Ok (code f, if again f then with_conn (λ c, (UpdateEvent EvRead c).2) st else st).

(** [NextRead]. *)
Definition NextRead (st : state) : result (Z * state) :=
  let c := conn st in
  if remainsize c <=? 0 then Ok (0, SetStatus CONN_DATA st)
  else
    match sock_read (remainsize c) (net st) with
    | (RdData t, s) =>
        if zlen t =? 0 then Ok (0, SetStatus CONN_CLOSE (with_net s st))
        else
          b ← Sds.nn (content c);
          b ← blit b (rcont c) t;
          Ok (0, with_net s (with_conn (λ c, set_remain (u64 (remainsize c - zlen t))
                               (set_content (Some b) (rcont c + zlen t) (u64 (actualsize c + zlen t)) c)) st))
    | (RdAgain, s) => Ok (-1, with_conn (λ c, (UpdateEvent EvRead c).2) (with_net s st))
    | (RdErr, s) => Ok (0, SetStatus CONN_CLOSE (with_net s st))
    end.

(** The loop of [OutString] over the text [o]: -1 on an error, 0 when the
    socket takes no more, 1 when all is sent. Every round takes an entry of
    the script, or sends everything. *)
Fixpoint send_loop (fuel : nat) (o : bytes) (c : GentConnect) (s : sock) : result (Z * GentConnect * sock) :=
  if 0 <? sendsize c then
    match fuel with
    | O => Fault AssertFailed
    | S fuel =>
        b ← slice o (cursendsize c) (sendsize c);
        match sock_send b s with
        | (SdTake n, s) => send_loop fuel o (set_sending (u64 (sendsize c - n)) (u64 (cursendsize c + n)) c) s
        | (SdAgain, s) => Ok (0, (UpdateEvent EvWrite c).2, s)
        | (SdErr, s) => Ok (-1, c, s)
        end
    end
  else Ok (1, c, s).

Definition OutString (o : bytes) (st : state) : result (Z * state) :=
  let c := conn st in
  let c := if sendsize c <=? 0 then set_sending (zlen o) 0 c else c in
  '(r, c, s) ← send_loop (S (length (outq (net st)))) o c (net st);
  let st := {| conn := c; comm := comm st; net := s; world := world st |} in
  if r =? 1 then Ok (i32 (cursendsize c), SetStatus CONN_WAIT st) else Ok (r, st).

(** [SetWrite]. *)
Definition SetWrite (o : bytes) (st : state) : state :=
  with_conn (λ c, (UpdateEvent EvWrite (set_out o c)).2) (SetStatus CONN_WRITE st).

(** One round of [TryRunning]: the loop goes on, with the local [rbytes], or
    the function returns. *)
Inductive round := Loop (rbytes : Z) (st : state) | Return (n : Z) (st : state).

(** [if(UpdateEvent(..) == -1) return -1; return 0;] *)
Definition update_and_return (f : evst) (st : state) : round :=
  let '(n, c) := UpdateEvent f (conn st) in
  Return n (with_conn (λ _, c) st).

Definition reset (st : state) : result state := c ← Reset (conn st); Ok (with_conn (λ _, c) st).

Definition round_read (e : E) (rbytes : Z) (st : state) : result round :=
  '(readNum, rbytes, st) ← InitRead rbytes (with_conn (set_out []) st);
  if readNum <? 0 then st ← reset st; Ok (Return readNum st)
  else if readNum =? 0 then Ok (Loop rbytes (SetStatus CONN_WAIT st))
  else
    b ← Sds.nn (rbuf (conn st));
    data ← slice b 0 rbytes;
    '(n, out, c, w) ← cmd_Process e data (comm st) (world st);
    let st := with_conn (λ c, set_out out (set_remain (u64 n) c)) (with_comm c w st) in
    if (u64 n =? 0) && negb (bool_decide (out = [])) then
      st ← reset (SetStatus CONN_WRITE st);
      Ok (update_and_return EvWrite st)
    else Ok (Loop rbytes st).

Definition round_nread (rbytes : Z) (st : state) : result round :=
  st ← (match content (conn st) with
        | None => b ← zalloc (remainsize (conn st)); Ok (with_conn (λ c, set_content (Some b) 0 (actualsize c) c) st)
        | Some _ => Ok st
        end);
  '(n, st) ← NextRead st;
  Ok (if n =? -1 then Return 1 st else Loop rbytes st).

(** The part of [content] that has been read; [string(NULL, 0)] is empty. *)
Definition received (c : GentConnect) : result bytes :=
  match content c with
  | None => if actualsize c =? 0 then Ok [] else Fault OutOfBounds
  | Some b => slice b 0 (actualsize c)
  end.

Definition round_data (e : E) (st : state) : result round :=
  t ← received (conn st);
  '(out, c, w) ← cmd_Complete e t (comm st) (world st);
  let st := with_conn (set_out out) (with_comm c w st) in
  if bool_decide (out = []) then Ok (Return 0 st)
  else Ok (update_and_return EvWrite (SetStatus CONN_WRITE st)).

Definition round_write (rbytes : Z) (st : state) : result round :=
  st ← reset st;
  '(_, st) ← OutString (outstr (conn st)) st;
  Ok (Loop rbytes st).

Definition round_wait (st : state) : result round :=
  st ← reset (with_conn (set_remain 0) st);
  Ok (update_and_return EvRead (SetStatus CONN_READ st)).

Definition round_conread (e : E) (rbytes : Z) (st : state) : result round :=
  st ← (match cbuf (conn st) with
        | None => b ← zalloc READ_BUFFER_SIZE;
                  Ok (with_conn (λ c, set_cbuf (Some b) READ_BUFFER_SIZE (cbytes c) c) st)
        | Some _ => Ok st
        end);
  '(readNum, st) ← ContinueRead st;
  if readNum <? 0 then st ← reset st; Ok (Return readNum st)
  else if readNum =? 0 then Ok (update_and_return EvRead st)
  else
    b ← Sds.nn (cbuf (conn st));
    data ← slice b 0 (cbytes (conn st));
    '(n, c, w) ← cmd_ContinueProcess e data (comm st) (world st);
    let st := with_comm c w st in
    if n =? 0 then Ok (Loop rbytes (with_conn (set_cbuf None 0 0) st))
    else
      let zeroed (c : GentConnect) := set_cbuf (Some (replicate (Z.to_nat (csize c)) 0)) (csize c) 0 c in
      Ok (Return 0 (with_conn (λ c, (UpdateEvent EvRead (zeroed c)).2) st)).

Definition one_round (e : E) (rbytes : Z) (st : state) : result round :=
  match status st with
  | CONN_READ => round_read e rbytes st
  | CONN_NREAD => round_nread rbytes st
  | CONN_DATA => round_data e st
  | CONN_WRITE => round_write rbytes st
  | CONN_WAIT => round_wait st
  | CONN_CONREAD => round_conread e rbytes st
  | CONN_CLOSE => Ok (Return (-1) st)
  end.

(** [TryRunning]: [None] while it is still running. *)
Fixpoint rounds (fuel : nat) (e : E) (rbytes : Z) (st : state) : result (option (Z * state)) :=
  match fuel with
  | O => Ok None
  | S fuel =>
      x ← one_round e rbytes st;
      match x with
      | Loop rbytes st => rounds fuel e rbytes st
      | Return n st => Ok (Some (n, st))
      end
  end.
Definition TryRunning (fuel : nat) (e : E) (st : state) : result (option (Z * state)) := rounds fuel e 0 st.

(** [Destruct]: the objects registered with [RegDestroy] and the command
    object are not part of this state. *)
Definition Destruct (st : state) : state :=
  let st := with_conn (λ c, set_content None (rcont c) (actualsize c) (set_rbuf None (rsize c) c)) st in
  if fd (conn st) <? 0 then st else SetStatus CONN_CLOSE st.

(** [GentEvent::Handle]: whether the connection goes on; otherwise it has
    been destructed and is given back to the pool. *)
Definition Handle (fuel : nat) (e : E) (sfd : Z) (st : state) : result (option (bool * state)) :=
  if negb (fd (conn st) =? sfd) then Ok (Some (false, Destruct st))
  else
    r ← TryRunning fuel e st;
    Ok (match r with
        | None => None
        | Some (n, st) => Some (if n <? 0 then (false, Destruct st) else (true, st))
        end).
End connect.
Arguments state : clear implicits.
End Connect.
