(* ===== verification/ConnectSpec.v ===== *)
(** * What a connection guarantees (theorems about Connect.v)

    However requests and values arrive in pieces, and however the socket
    takes the reply, the command object sees the bytes that were sent to it,
    and the client gets the reply exactly; reading stays within its buffer. *)

From S2P Require Import Prelude Cstd Cmem Sds SdsSpec LevelDb Db Config Redis RedisSpec Connect.
Import Redis Connect.

(** ** Reading into a growing buffer *)

(** All the bytes of an incoming queue. *)
Fixpoint data_of (q : list rd) : bytes :=
  match q with
  | [] => []
  | RdData b :: q => b ++ data_of q
  | _ :: q => data_of q
  end.

Lemma sock_read_data n s r s' :
  0 ≤ n → sock_read n s = (r, s') →
  match r with
  | RdData t => zlen t ≤ n ∧ data_of (inq s) = t ++ data_of (inq s')
  | _ => data_of (inq s) = data_of (inq s')
  end.
Proof.
  intros Hn. unfold sock_read. destruct (inq s) as [|[b| |] q] eqn:E; try (intros [= <- <-]; cbn; by rewrite ?E).
  destruct (Z.leb_spec (zlen b) n); intros [= <- <-]; cbn; [by split|].
  split; [unfold zlen in *; rewrite length_take; lia|]. by rewrite app_assoc, take_drop.
Qed.

Section fill.
Context `{Malloc}.

(** The buffer and its size agree, and what is in use extends what was. *)
Record filled (b : bytes) (size n max : Z) (s : sock) (f : fill) (d : bytes) : Prop := {
  fl_len : zlen (fbuf f) = fsize f;
  fl_bytes : fbytes f = n + zlen d;
  fl_fit : fbytes f ≤ fsize f;
  fl_max : size ≤ fsize f ≤ max;
  fl_data : take (Z.to_nat (fbytes f)) (fbuf f) = take (Z.to_nat n) b ++ d;
  fl_net : data_of (inq s) = d ++ data_of (inq (fnet f))
}.

Lemma take_blit (b t : bytes) n b' :
  0 ≤ n → blit b n t = Ok b' → zlen b' = zlen b ∧ n + zlen t ≤ zlen b ∧
  take (Z.to_nat (n + zlen t)) b' = take (Z.to_nat n) b ++ t.
Proof.
  intros Hn. unfold blit. destruct (Z.leb_spec 0 n); [|lia]. destruct (Z.leb_spec (n + zlen t) (zlen b)) as [Hb|]; [|done].
  cbn [andb]. intros [= <-]. assert (zlen (take (Z.to_nat n) b) = n) as Hz by (unfold zlen in *; rewrite length_take; lia).
  split; [|split; [done|]].
  - unfold zlen in *. rewrite !length_app, length_drop. lia.
  - rewrite app_assoc. apply take_app_length'. rewrite length_app. unfold zlen in *. lia.
Qed.

Lemma filled_nil b size n max s got a s' :
  zlen b = size → 0 ≤ n ≤ size → size ≤ max → data_of (inq s) = data_of (inq s') →
  filled b size n max s {| code := got; fbuf := b; fsize := size; fbytes := n; again := a; fnet := s' |} [].
Proof. intros Hb Hn Hm Hd. split; cbn; rewrite ?app_nil_r; change (zlen []) with 0; try done; lia. Qed.

Lemma resize_take b n size : zlen b ≤ size → n ≤ zlen b → take (Z.to_nat n) (resize b size) = take (Z.to_nat n) b.
Proof. intros Hs Hn. unfold resize. rewrite (take_ge b) by (unfold zlen in *; lia). apply take_app_le. unfold zlen in *; lia. Qed.

(** The loop ends within its rounds, and never leaves its buffer. *)
Lemma fill_loop_ok fuel : ∀ b size n got allocs s,
  zlen b = size → 0 ≤ n ≤ size → 0 < size → 0 ≤ allocs ≤ 4 → size * 2 ^ (4 - allocs) < 2 ^ 31 →
  (Z.to_nat (4 - allocs) + (if Z.ltb n size then 2 else 1) ≤ fuel)%nat →
  ∃ f d, fill_loop fuel b size n got allocs s = Ok f ∧ filled b size n (size * 2 ^ (4 - allocs)) s f d ∧
    (code f < 0 ∨ code f = got ∨ code f = 1).
Proof.
  induction fuel as [|fuel IH]; intros b size n got allocs s Hb Hn Hsz Ha Hmax Hf; [destruct (n <? size); lia|].
  set (k := 4 - allocs) in *. assert (1 ≤ 2 ^ k) as Hpow by (assert (0 < 2 ^ k) by (apply Z.pow_pos_nonneg; lia); lia).
  assert (∀ b' size' allocs', zlen b' = size' → n < size' → 0 ≤ allocs' ≤ 4 → size ≤ size' → size' * 2 ^ (4 - allocs') = size * 2 ^ k →
    take (Z.to_nat n) b' = take (Z.to_nat n) b → (Z.to_nat (4 - allocs') + 1 ≤ fuel)%nat →
    ∃ f d, (match sock_read (size' - n) s with
      | (RdData t, s) =>
          if zlen t =? 0 then Ok {| code := -3; fbuf := b'; fsize := size'; fbytes := n; again := false; fnet := s |}
          else b ← blit b' n t;
               if zlen t =? size' - n then fill_loop fuel b size' (n + zlen t) 1 allocs' s
               else Ok {| code := 1; fbuf := b; fsize := size'; fbytes := n + zlen t; again := false; fnet := s |}
      | (RdAgain, s) => Ok {| code := got; fbuf := b'; fsize := size'; fbytes := n; again := true; fnet := s |}
      | (RdErr, s) => Ok {| code := -1; fbuf := b'; fsize := size'; fbytes := n; again := false; fnet := s |}
      end) = Ok f ∧ filled b size n (size * 2 ^ k) s f d ∧ (code f < 0 ∨ code f = got ∨ code f = 1)) as Hgo.
  { intros b' size' allocs' Hb' Hn' Ha' Hle Hpow' Htake Hf'. assert (size' ≤ size * 2 ^ k) as Hmax'.
    { rewrite <- Hpow'. assert (0 < 2 ^ (4 - allocs')) by (apply Z.pow_pos_nonneg; lia). nia. }
    assert (∀ got' a s', data_of (inq s) = data_of (inq s') →
      filled b size n (size * 2 ^ k) s {| code := got'; fbuf := b'; fsize := size'; fbytes := n; again := a; fnet := s' |} []) as Hnil.
    { intros got' a s' Hd. split; cbn; rewrite ?app_nil_r; change (zlen []) with 0; try done; lia. }
    destruct (sock_read (size' - n) s) as [r s'] eqn:Er. pose proof (sock_read_data (size' - n) s r s' ltac:(lia) Er) as Hr.
    destruct r as [t| |].
    - destruct Hr as [Ht Hd]. destruct (Z.eqb_spec (zlen t) 0) as [E0|E0].
      { eexists _, []. split; [done|]. split; [|left; done]. apply Hnil. by rewrite Hd, (zlen_0_inv t E0). }
      destruct (blit_ok b' t n) as (b2 & E2 & _); [lia|lia|]. rewrite E2. rbind. pose proof (zlen_nonneg t).
      destruct (take_blit b' t n b2 ltac:(lia) E2) as (Hz2 & _ & Htk). rewrite Htake in Htk.
      destruct (Z.eqb_spec (zlen t) (size' - n)) as [Ef|Ef].
      + destruct (IH b2 size' (n + zlen t) 1 allocs' s') as (f & d & -> & Hfl & Hc);
          [lia|lia|lia|lia|rewrite Hpow'; lia|destruct (Z.ltb_spec (n + zlen t) size'); lia|].
        exists f, (t ++ d). split; [done|]. split; [|lia]. destruct Hfl as [f1 f2 f3 f4 f5 f6]. rewrite Hpow' in f4.
        split; [done|rewrite zlen_app; lia|done|lia| |]; [by rewrite f5, Htk, app_assoc|by rewrite Hd, f6, app_assoc].
      + eexists _, t. split; [done|]. split; [|by right; right]. split; cbn; try done; lia.
    - eexists _, []. split; [done|]. split; [by apply Hnil|by right; left].
    - eexists _, []. split; [done|]. split; [by apply Hnil|by left]. }
  cbn [fill_loop]. destruct (Z.leb_spec size n) as [Hfull|Hroom].
  - destruct (Z.eqb_spec allocs 4) as [E4|E4].
    { eexists _, []. split; [done|]. split; [|by right; left]. apply filled_nil; try done; nia. }
    assert (2 ^ k = 2 * 2 ^ (k - 1)) as Hp2 by (rewrite <- Z.pow_succ_r by lia; f_equal; lia).
    assert (0 < 2 ^ (k - 1)) by (apply Z.pow_pos_nonneg; lia). assert (size * 2 < 2 ^ 31) by nia.
    rewrite int_of_ok by lia. rbind. destruct (malloc_ok (u64 (size * 2))) eqn:Em.
    + apply (Hgo (resize b (size * 2)) (size * 2) (allocs + 1)); [apply zlen_resize; lia|lia|lia|lia| | |].
      * replace (4 - (allocs + 1)) with (k - 1) by lia. nia.
      * apply resize_take; lia.
      * rewrite (proj2 (Z.ltb_ge _ _)) in Hf by lia. lia.
    + eexists _, []. split; [done|]. split; [|by left]. apply filled_nil; try done; nia.
  - apply (Hgo b size allocs); try done; rewrite (proj2 (Z.ltb_lt _ _)) in Hf by lia; lia.
Qed.
End fill.

(** ** Rounds and calls *)

Section serve.
Context `{Malloc} `{CommandLaws E C W}.
Hypothesis granted : ∀ n, malloc_ok n = true.

Abbreviation one_round := (one_round true true).
Abbreviation TryRunning := (TryRunning true true).

(** Rounds in which the loop of [TryRunning] goes on. *)
Definition loops (e : E) (x y : Z * state C W) : Prop := one_round e x.1 x.2 = Ok (Loop y.1 y.2).

(** A call of [TryRunning] that keeps the connection. *)
Definition handled (e : E) (st st' : state C W) : Prop :=
  ∃ fuel n, TryRunning fuel e st = Ok (Some (n, st')) ∧ 0 ≤ n.

Lemma rounds_return e x y n st' :
  rtc (loops e) x y → one_round e y.1 y.2 = Ok (Return n st') →
  ∃ fuel, rounds true true fuel e x.1 x.2 = Ok (Some (n, st')).
Proof.
  intros Hl Hr. induction Hl as [x|x y z Hxy _ IH].
  - exists 1%nat. cbn [rounds]. by rewrite Hr.
  - destruct (IH Hr) as [fuel E']. exists (S fuel). cbn [rounds]. rewrite Hxy. rbind. done.
Qed.

Lemma handled_intro e st y n st' :
  rtc (loops e) (0, st) y → one_round e y.1 y.2 = Ok (Return n st') → 0 ≤ n → handled e st st'.
Proof. intros Hl Hr Hn. destruct (rounds_return e (0, st) y n st' Hl Hr) as [fuel E']. by exists fuel, n. Qed.

(** The events can always be changed. *)
Lemma UpdateEvent_ok f c : UpdateEvent true true f c = (0, set_flags f c).
Proof. unfold UpdateEvent. case_bool_decide as Hf; [|done]. rewrite <- Hf. by destruct c. Qed.

Lemma update_ok f (st : state C W) : update_and_return true true f st = Return 0 (with_conn (set_flags f) st).
Proof. unfold update_and_return. by rewrite UpdateEvent_ok. Qed.

Lemma flagged f (st : state C W) : with_conn (λ c, (UpdateEvent true true f c).2) st = with_conn (set_flags f) st.
Proof. unfold with_conn. by rewrite UpdateEvent_ok. Qed.

(** The request buffer is there, and nothing of a continued request is
    pending. *)
Record calm (c : GentConnect) : Prop := {
  cm_buf : ∃ b, rbuf c = Some b ∧ zlen b = rsize c;
  cm_size : READ_BUFFER_SIZE ≤ rsize c < 2 ^ 27;
  cm_cbuf : cbuf c = None;
  cm_cbytes : cbytes c = 0
}.

(** Ready for a request. *)
Record idle (st : state C W) : Prop := {
  id_status : status st = CONN_READ;
  id_calm : calm (conn st);
  id_content : content (conn st) = None;
  id_actual : actualsize (conn st) = 0;
  id_send : sendsize (conn st) = 0
}.

(** [Reset] clears the buffers and keeps the rest. *)
Definition cleared (c : GentConnect) : GentConnect :=
  set_rbuf (Some (replicate (Z.to_nat (rsize c)) 0)) (rsize c)
    (set_content None (rcont c) 0 (set_cbuf None (csize c) (cbytes c) c)).

Lemma Reset_ok c b : rbuf c = Some b → zlen b = rsize c → Reset c = Ok (cleared c).
Proof.
  intros Hb Hz. unfold Reset, ReAllocation. cbn [rbuf set_content set_cbuf]. rewrite Hb. cbn [rsize set_content set_cbuf].
  rewrite <- (app_nil_r b), blit_prefix; [rbind; by rewrite app_nil_r|].
  rewrite Hz. unfold zlen. rewrite length_replicate. pose proof (zlen_nonneg b). lia.
Qed.

Lemma reset_ok (st : state C W) :
  calm (conn st) → reset st = Ok (with_conn cleared st).
Proof. intros Hc. destruct (cm_buf _ Hc) as (b & Hb & Hz). unfold reset. by rewrite (Reset_ok _ b Hb Hz). Qed.

Lemma calm_cleared c : calm c → calm (cleared c).
Proof.
  intros [[b [Hb Hz]] Hs Hcb Hcy]. split; try done. eexists. split; [done|]. unfold zlen. rewrite length_replicate.
  pose proof (zlen_nonneg b). cbn. lia.
Qed.

(** ** Sending *)

Definition no_error (q : list sd) : Prop := Forall (λ x, x ≠ SdErr) q.

(** Some of the text [o] is sent: [cursendsize] bytes of it, and [sendsize]
    are left. *)
Definition sending (o : bytes) (c : GentConnect) : Prop :=
  0 ≤ cursendsize c ∧ 0 ≤ sendsize c ∧ cursendsize c + sendsize c = zlen o ∧ zlen o < 2 ^ 63.

Lemma send_loop_ok o fuel : ∀ c s,
  sending o c → no_error (outq s) → (length (outq s) < fuel)%nat →
  ∃ r c' s' m, send_loop true true fuel o c s = Ok (r, c', s') ∧ no_error (outq s') ∧ inq s' = inq s ∧
    sent s' = sent s ++ take m (drop (Z.to_nat (cursendsize c)) o) ∧
    sending o c' ∧ cursendsize c' = cursendsize c + Z.of_nat m ∧
    (∃ f k j, c' = set_sending k j (set_flags f c)) ∧
    ((r = 1 ∧ sendsize c' = 0) ∨ (r = 0 ∧ 0 < sendsize c' ∧ (length (outq s') < length (outq s))%nat)).
Proof.
  induction fuel as [|fuel IH]; intros c s Hs Hq Hf; [lia|]. destruct Hs as (Hcur & Hsz & Hsum & Ho). cbn [send_loop].
  destruct (Z.ltb_spec 0 (sendsize c)) as [Hpos|Hdone].
  2:{ exists 1, c, s, 0%nat. split; [done|]. split; [done|]. split; [done|]. split; [by rewrite app_nil_r|].
      split; [done|]. split; [lia|]. split; [by exists (ev_flags c), (sendsize c), (cursendsize c); destruct c|]. left. split; [done|lia]. }
  set (rest := drop (Z.to_nat (cursendsize c)) o).
  assert (slice o (cursendsize c) (sendsize c) = Ok rest ∧ zlen rest = sendsize c) as [Esl Hzr].
  { assert (zlen rest = sendsize c) as Hzr by (subst rest; rewrite zlen_drop; unfold zlen in *; lia). split; [|done].
    rewrite slice_ok by lia. fold rest. rewrite take_ge; [done|]. unfold zlen in *. lia. }
  rewrite Esl. rbind.
  assert (∀ n q, (length q < length (outq s))%nat ∨ outq s = [] ∧ q = [] ∧ n = zlen rest → no_error q → 0 ≤ n ≤ zlen rest →
    ∃ r c' s' m, send_loop true true fuel o (set_sending (u64 (sendsize c - n)) (u64 (cursendsize c + n)) c)
        {| inq := inq s; outq := q; sent := sent s ++ take (Z.to_nat n) rest |} = Ok (r, c', s') ∧ no_error (outq s') ∧ inq s' = inq s ∧
      sent s' = sent s ++ take m rest ∧ sending o c' ∧ cursendsize c' = cursendsize c + Z.of_nat m ∧
      (∃ f k j, c' = set_sending k j (set_flags f c)) ∧
      ((r = 1 ∧ sendsize c' = 0) ∨ (r = 0 ∧ 0 < sendsize c' ∧ (length (outq s') < length (outq s))%nat))) as Hgo.
  { intros n q Hlen Hq' Hn. rewrite !u64_small by lia. set (c1 := set_sending _ _ c).
    assert (sending o c1) as Hs1 by (subst c1; repeat split; cbn; lia).
    destruct Hlen as [Hlen|(Eq & -> & ->)].
    - destruct (IH c1 {| inq := inq s; outq := q; sent := sent s ++ take (Z.to_nat n) rest |}) as
        (r & c' & s' & m & E1 & Hq2 & Hi & Hsent & Hs2 & Hcs & (f & k & j & Hc') & Hr); [done|done|cbn; lia|].
      exists r, c', s', (Z.to_nat n + m)%nat. cbn [inq outq sent] in *. split; [done|]. split; [done|]. split; [done|].
      change (cursendsize c1) with (cursendsize c + n) in *. split.
      { rewrite Hsent. rewrite <- app_assoc. f_equal. subst rest. rewrite Z2Nat.inj_add, <- drop_drop by lia.
        apply take_take_drop. }
      split; [done|]. split; [lia|]. split; [by exists f, k, j; rewrite Hc'; destruct c|]. destruct Hr as [Hr|(-> & ? & ?)]; [by left|right].
      split; [done|]. split; [done|]. lia.
    - exists 1, c1, {| inq := inq s; outq := []; sent := sent s ++ take (Z.to_nat (zlen rest)) rest |}, (length rest).
      assert (sendsize c1 = 0) as Hz by (subst c1; cbn; lia).
      split; [destruct fuel; cbn [send_loop]; by rewrite (proj2 (Z.ltb_ge _ _)) by lia|]. split; [done|]. split; [done|].
      split; [by rewrite to_nat_zlen|]. split; [done|]. split; [subst c1; cbn; unfold zlen; lia|].
      split; [by exists (ev_flags c), (sendsize c1), (cursendsize c1); destruct c|]. by left. }
  unfold sock_send. destruct (outq s) as [|[n| |] q] eqn:Eq.
  - destruct (Hgo (zlen rest) []) as (r & c' & s' & m & E1 & Hrest); [by right|done|lia|].
    rewrite to_nat_zlen, take_ge in E1 by lia. exists r, c', s', m. by split.
  - inversion Hq as [|? ? _ Hq']; subst. apply (Hgo (Z.max 0 (Z.min n (zlen rest))) q); [left; cbn; lia|done|lia].
  - inversion Hq as [|? ? _ Hq']; subst. rewrite UpdateEvent_ok. cbn [snd].
    exists 0, (set_flags EvWrite c), {| inq := inq s; outq := q; sent := sent s |}, 0%nat.
    split; [done|]. split; [done|]. split; [done|]. split; [by rewrite app_nil_r|]. split; [done|]. split; [cbn; lia|].
    split; [by exists EvWrite, (sendsize c), (cursendsize c); destruct c|]. right. split; [done|]. split; [done|]. cbn. lia.
  - inversion Hq; subst. done.
Qed.

(** [CONN_WRITE]: the text that is left goes out, whatever the socket takes
    at a time, and the loop comes to [CONN_WAIT]. *)
Lemma write_rounds e rb o : ∀ st : state C W,
  status st = CONN_WRITE → calm (conn st) → outstr (conn st) = o →
  sending o (if sendsize (conn st) <=? 0 then set_sending (zlen o) 0 (conn st) else conn st) →
  no_error (outq (net st)) →
  ∃ st', rtc (loops e) (rb, st) (rb, st') ∧ comm st' = cmd_SetStatus CONN_WAIT (comm st) ∧ calm (conn st') ∧
    sendsize (conn st') = 0 ∧ world st' = world st ∧ inq (net st') = inq (net st) ∧ no_error (outq (net st')) ∧
    sent (net st') = sent (net st) ++
      (if sendsize (conn st) <=? 0 then o else drop (Z.to_nat (cursendsize (conn st))) o).
Proof.
  intros st. remember (length (outq (net st))) as len eqn:El. revert st El.
  induction (lt_wf len) as [len _ IH]. intros st El Hst Hc Ho Hs Hq.
  assert (one_round e rb st = round_write true true rb st) as E1 by (unfold Connect.one_round; by rewrite Hst).
  unfold round_write in E1. rewrite reset_ok in E1 by done. cbn [mbind result_bind] in E1.
  change (outstr (conn (with_conn cleared st))) with (outstr (conn st)) in E1. rewrite Ho in E1.
  unfold OutString in E1. set (c0 := conn (with_conn cleared st)) in E1.
  change (net (with_conn cleared st)) with (net st) in E1.
  set (c1 := if sendsize c0 <=? 0 then _ else _) in E1.
  assert (sending o c1) as Hs1.
  { subst c1. change (sendsize c0) with (sendsize (conn st)). destruct (sendsize (conn st) <=? 0); exact Hs. }
  assert (drop (Z.to_nat (cursendsize c1)) o = if sendsize (conn st) <=? 0 then o else drop (Z.to_nat (cursendsize (conn st))) o) as Hdrop.
  { subst c1. change (sendsize c0) with (sendsize (conn st)). by destruct (sendsize (conn st) <=? 0). }
  rewrite <- Hdrop.
  assert (calm c1) as Hcalm.
  { subst c1. pose proof (calm_cleared _ Hc) as [? ? ? ?]. by destruct (sendsize c0 <=? 0). }
  assert (outstr c1 = o) as Ho1 by (subst c1; by destruct (sendsize c0 <=? 0)).
  destruct (send_loop_ok o (S (length (outq (net st)))) c1 (net st)) as
    (r & c2 & s2 & m & E2 & Hq2 & Hi & Hsent & Hs2 & Hcur & (f & k & j & ->) & Hr); [done|done|lia|].
  rewrite E2 in E1. cbn [mbind result_bind] in E1. destruct Hcalm as [? ? ? ?].
  destruct Hr as [[-> Hz]|(-> & Hpos & Hlen)].
  - cbn [Z.eqb Pos.eqb mbind result_bind] in E1. eexists. split; [eapply rtc_once; exact E1|]. split; [done|]. split; [by split|].
    split; [exact Hz|]. split; [done|]. split; [done|]. split; [done|]. cbn [net SetStatus with_comm]. rewrite Hsent. f_equal.
    apply take_ge. destruct Hs2 as (? & ? & ? & ?). rewrite length_drop. unfold zlen in *. lia.
  - cbn [Z.eqb mbind result_bind] in E1. set (st2 := {| conn := _; comm := _; net := _; world := _ |}) in E1.
    assert ((sendsize (conn st2) <=? 0) = false) as Hpos2 by (apply Z.leb_gt; exact Hpos).
    destruct (IH (length (outq s2)) ltac:(lia) st2) as (st' & Hl & Hcm & Hc' & Hz' & Hw' & Hi' & Hq' & Hsent');
      [done|done|by split|done|by rewrite Hpos2|done|].
    exists st'. split; [by eapply (rtc_l _ _ (rb, st2))|]. split; [done|]. split; [done|]. split; [done|].
    split; [done|]. split; [by rewrite Hi'|]. split; [done|]. rewrite Hpos2 in Hsent'. rewrite Hsent'.
    change (net st2) with s2. rewrite Hsent, <- app_assoc. f_equal. change (cursendsize (conn st2)) with (cursendsize (set_sending k j (set_flags f c1))).
    rewrite Hcur. destruct Hs1 as (? & ? & ? & ?). rewrite Z2Nat.inj_add, <- drop_drop, Nat2Z.id by lia. apply take_drop.
Qed.

(** [CONN_WAIT]: the connection is ready again. *)
Lemma wait_round e rb (st : state C W) :
  status st = CONN_WAIT → calm (conn st) → sendsize (conn st) = 0 →
  ∃ st', one_round e rb st = Ok (Return 0 st') ∧ idle st' ∧ comm st' = cmd_SetStatus CONN_READ (comm st) ∧
    world st' = world st ∧ net st' = net st.
Proof.
  intros Hst Hc Hz. unfold Connect.one_round. rewrite Hst. unfold round_wait.
  assert (calm (conn (with_conn (set_remain 0) st))) as Hc' by (destruct Hc; by split).
  rewrite reset_ok by done. rbind. rewrite update_ok. eexists. split; [done|]. split; [|done].
  destruct (calm_cleared _ Hc') as [? ? ? ?]. split; try done. apply status_set.
Qed.

(** ** Sequences of events *)

(** Rounds, where a call that returns is followed by the next event. *)
Definition step (e : E) (x y : Z * state C W) : Prop :=
  loops e x y ∨ ∃ n, one_round e x.1 x.2 = Ok (Return n y.2) ∧ 0 ≤ n ∧ y.1 = 0.

Lemma steps_handled e x y n st' :
  rtc (step e) x y → one_round e y.1 y.2 = Ok (Return n st') → 0 ≤ n →
  ∃ st1 fuel k, rounds true true fuel e x.1 x.2 = Ok (Some (k, st1)) ∧ 0 ≤ k ∧ rtc (handled e) st1 st'.
Proof.
  intros Hs Hr Hn. induction Hs as [x|x y z Hxy _ IH].
  - exists st', 1%nat, n. cbn [rounds]. by rewrite Hr.
  - destruct (IH Hr) as (st1 & fuel & k & E' & Hk & Hh). destruct Hxy as [Hl|(m & E1 & Hm & E0)].
    + exists st1, (S fuel), k. cbn [rounds]. rewrite Hl. rbind. done.
    + exists y.2, 1%nat, m. cbn [rounds]. rewrite E1. split; [done|]. split; [done|]. eapply rtc_l; [|exact Hh].
      exists fuel, k. split; [|done]. unfold Connect.TryRunning. by rewrite <- E0.
Qed.

(** From [x] on, the connection comes to be idle again, with the command [c],
    the world [w] and the input [left], and has sent [out]. *)
Definition serves (e : E) (x : Z * state C W) (out : bytes) (c : C) (w : W) (left : list rd) : Prop :=
  ∃ y st', rtc (step e) x y ∧ one_round e y.1 y.2 = Ok (Return 0 st') ∧ idle st' ∧
    comm st' = cmd_SetStatus CONN_READ c ∧ world st' = w ∧ inq (net st') = left ∧
    sent (net st') = sent (net x.2) ++ out ∧ no_error (outq (net st')).

Lemma serves_step e x y out c w left :
  step e x y → sent (net y.2) = sent (net x.2) → serves e y out c w left → serves e x out c w left.
Proof. intros Hs E1 (z & st' & Hz & Hrest). rewrite E1 in Hrest. exists z, st'. split; [by eapply rtc_l|done]. Qed.

(** A text handed over for sending is sent. *)
Lemma serves_write e rb (st : state C W) out :
  status st = CONN_WRITE → calm (conn st) → outstr (conn st) = out → sendsize (conn st) = 0 → zlen out < 2 ^ 63 →
  no_error (outq (net st)) → serves e (rb, st) out (comm st) (world st) (inq (net st)).
Proof.
  intros Hst Hc Ho Hz Hl Hq. destruct (write_rounds e rb out st) as (st1 & Hls & Hcm & Hc1 & Hz1 & Hw & Hi & Hq1 & Hsent); try done.
  { rewrite Hz. cbn. pose proof (zlen_nonneg out). repeat split; cbn; lia. }
  destruct (wait_round e rb st1) as (st' & E1 & Hid & Hcm' & Hw' & Hn'); [unfold status; by rewrite Hcm, status_set|done|done|].
  exists (rb, st1), st'. split; [eapply rtc_subrel; [|exact Hls]; by left|]. split; [done|]. split; [done|].
  split; [by rewrite Hcm', Hcm, set_set|]. rewrite Hn'. split; [congruence|]. split; [done|]. split; [|done].
  by rewrite Hsent, Hz.
Qed.

(** [CONN_DATA] with the bytes received: [Complete] makes the reply. *)
Lemma serves_data e rb (st : state C W) t out c w :
  status st = CONN_DATA → calm (conn st) → sendsize (conn st) = 0 → received (conn st) = Ok t →
  cmd_Complete e t (comm st) (world st) = Ok (out, c, w) → out ≠ [] → zlen out < 2 ^ 63 →
  no_error (outq (net st)) → serves e (rb, st) out c w (inq (net st)).
Proof.
  intros Hst Hc Hz Ht Hcomp Ho Hl Hq.
  set (st1 := with_conn (set_flags EvWrite) (Connect.SetStatus CONN_WRITE (with_conn (set_out out) (with_comm c w st)))).
  assert (one_round e rb st = Ok (Return 0 st1)) as E1.
  { unfold Connect.one_round. rewrite Hst. unfold round_data. rewrite Ht. rbind. rewrite Hcomp. rbind.
    rewrite bool_decide_eq_false_2 by done. by rewrite update_ok. }
  apply (serves_step e _ (0, st1)); [right; by exists 0|done|].
  destruct (serves_write e 0 st1 out) as (y & st' & Hy & Er & Hid & Hcm & Hrest); try done.
  { apply status_set. }
  { destruct Hc. by split. }
  exists y, st'. split; [done|]. split; [done|]. split; [done|]. split; [|done]. by rewrite Hcm; cbn; rewrite set_set.
Qed.

Lemma serves_same e x y out c w left :
  one_round e x.1 x.2 = one_round e y.1 y.2 → sent (net y.2) = sent (net x.2) →
  serves e y out c w left → serves e x out c w left.
Proof.
  intros E1 E2 (z & st' & Hz & Hr & Hrest). rewrite E2 in Hrest.
  inversion Hz as [|? y1 ? Hy1 Hz1]; subst.
  - exists x, st'. split; [done|]. by rewrite E1.
  - exists z, st'. split; [|done]. eapply rtc_l; [|exact Hz1]. unfold step, loops in *. by rewrite E1.
Qed.

(** ** Values in pieces *)

(** [n] bytes arrive at the head of the input, in any number of pieces and
    with any pauses: the bytes, and what is left of the input. *)
Inductive arrives : Z → list rd → bytes → list rd → Prop :=
  | arrives_all q : arrives 0 q [] q
  | arrives_piece n b q d left :
      0 < zlen b ≤ n → arrives (n - zlen b) q d left → arrives n (RdData b :: q) (b ++ d) left
  | arrives_cut n b q :
      0 < n < zlen b → arrives n (RdData b :: q) (take (Z.to_nat n) b) (RdData (drop (Z.to_nat n) b) :: q)
  | arrives_pause n q d left : 0 < n → arrives n q d left → arrives n (RdAgain :: q) d left.

(** The value's buffer holds [got], with room for [n] bytes more. *)
Record partial (got : bytes) (n : Z) (c : GentConnect) : Prop := {
  pt_buf : ∃ b, content c = Some b ∧ zlen b = zlen got + n ∧ take (length got) b = got;
  pt_cont : rcont c = zlen got;
  pt_act : actualsize c = zlen got;
  pt_rem : remainsize c = n;
  pt_size : 0 ≤ n ∧ zlen got + n < 2 ^ 63
}.

Lemma partial_received got n c : partial got n c → received c = Ok got.
Proof.
  intros [(b & Hb & Hz & Ht) _ Ha _ [? ?]]. unfold received. rewrite Hb, Ha. pose proof (zlen_nonneg got).
  rewrite slice_ok by lia. by rewrite drop_0, to_nat_zlen, Ht.
Qed.

(** A piece goes behind what is there. *)
Lemma NextRead_piece got n t s' (st : state C W) :
  partial got n (conn st) → 0 < zlen t ≤ n → sock_read n (net st) = (RdData t, s') →
  ∃ st', NextRead true true st = Ok (0, st') ∧ partial (got ++ t) (n - zlen t) (conn st') ∧ net st' = s' ∧
    comm st' = comm st ∧ world st' = world st ∧ (calm (conn st) → calm (conn st')) ∧ sendsize (conn st') = sendsize (conn st).
Proof.
  intros [(b & Hb & Hz & Ht) Hrc Ha Hrem [Hn Hsz]] Hlen Hr. pose proof (zlen_nonneg got). unfold NextRead.
  rewrite Hrem, (proj2 (Z.leb_gt _ _)), Hr, (proj2 (Z.eqb_neq (zlen t) 0)), Hb by lia. cbn [Sds.nn]. rbind.
  destruct (blit_ok b t (rcont (conn st))) as (b2 & E2 & _); [lia|lia|]. rewrite E2. rbind.
  destruct (take_blit b t (rcont (conn st)) b2 ltac:(lia) E2) as (Hz2 & _ & Htk).
  eexists. split; [done|]. split; [|by split; [|split; [|split; [|split; [intros [? ? ? ?]; by split|]]]]].
  assert (zlen (got ++ t) = zlen got + zlen t) as Hgt by apply zlen_app.
  split; cbn; rewrite ?u64_small by lia; try lia. exists b2. split; [done|]. split; [lia|].
  rewrite Hrc, to_nat_zlen in Htk. rewrite Ht in Htk. rewrite <- Htk at 2. f_equal. unfold zlen. rewrite length_app. lia.
Qed.

Lemma nread_round e rb got n (st : state C W) :
  status st = CONN_NREAD → partial got n (conn st) →
  one_round e rb st = ('(k, st) ← NextRead true true st; Ok (if k =? -1 then Return 1 st else Loop rb st)).
Proof. intros Hst [(b & Hb & _) _ _ _ _]. unfold Connect.one_round. rewrite Hst. unfold round_nread. by rewrite Hb. Qed.

Lemma serves_nread_all e rb (st : state C W) got out c w :
  status st = CONN_NREAD → calm (conn st) → sendsize (conn st) = 0 → partial got 0 (conn st) → no_error (outq (net st)) →
  cmd_Complete e got (cmd_SetStatus CONN_DATA (comm st)) (world st) = Ok (out, c, w) → out ≠ [] → zlen out < 2 ^ 63 →
  serves e (rb, st) out c w (inq (net st)).
Proof.
  intros Hst Hc Hz Hp Hq Hcomp Ho Hl. apply (serves_step e _ (rb, Connect.SetStatus CONN_DATA st)); [|done|].
  - left. unfold loops. cbn [fst snd]. rewrite (nread_round e rb got 0) by done. unfold NextRead.
    rewrite (pt_rem _ _ _ Hp). done.
  - apply (serves_data e rb (Connect.SetStatus CONN_DATA st) got out c w); try done; [apply status_set|].
    exact (partial_received _ _ _ Hp).
Qed.

Lemma nread_piece e rb got n t s' (st : state C W) :
  status st = CONN_NREAD → partial got n (conn st) → 0 < zlen t ≤ n → sock_read n (net st) = (RdData t, s') →
  ∃ st', step e (rb, st) (rb, st') ∧ partial (got ++ t) (n - zlen t) (conn st') ∧ net st' = s' ∧ status st' = CONN_NREAD ∧
    comm st' = comm st ∧ world st' = world st ∧ (calm (conn st) → calm (conn st')) ∧ sendsize (conn st') = sendsize (conn st).
Proof.
  intros Hst Hp Hn Hr. destruct (NextRead_piece got n t s' st Hp Hn Hr) as (st' & E2 & Hp' & Hn' & Hcm & Hrest).
  exists st'. split; [|split; [done|]; split; [done|]; split; [unfold status; by rewrite Hcm|done]].
  left. unfold loops. cbn [fst snd]. rewrite (nread_round e rb got n) by done. by rewrite E2.
Qed.

Lemma serves_nread e n xs d left : arrives n xs d left → ∀ rb (st : state C W) got out c w,
  status st = CONN_NREAD → calm (conn st) → sendsize (conn st) = 0 → partial got n (conn st) → inq (net st) = xs →
  no_error (outq (net st)) → cmd_Complete e (got ++ d) (cmd_SetStatus CONN_DATA (comm st)) (world st) = Ok (out, c, w) →
  out ≠ [] → zlen out < 2 ^ 63 → serves e (rb, st) out c w left.
Proof.
  induction 1 as [q|n b q d left Hb Hd IH|n b q Hn|n q d left Hn Hd IH];
    intros rb st got out c w Hst Hc Hz Hp Hi Hq Hcomp Ho Hl.
  - rewrite app_nil_r in Hcomp. rewrite <- Hi. by apply (serves_nread_all e rb st got).
  - destruct (nread_piece e rb got n b (set_inq q (net st)) st) as (st' & Hs & Hp' & Hn' & Hst' & Hcm & Hw & Hc' & Hz'); try done.
    { unfold sock_read. rewrite Hi. by rewrite (proj2 (Z.leb_le _ _)) by lia. }
    apply (serves_step e _ (rb, st')); [done|cbn; by rewrite Hn'|].
    apply (IH rb st' (got ++ b)); try done; [by apply Hc'|congruence|by rewrite Hn'|by rewrite Hn'|by rewrite Hcm, Hw, <- app_assoc].
  - assert (zlen (take (Z.to_nat n) b) = n) as Hzt by (unfold zlen in *; rewrite length_take; lia).
    destruct (nread_piece e rb got n (take (Z.to_nat n) b) (set_inq (RdData (drop (Z.to_nat n) b) :: q) (net st)) st)
      as (st' & Hs & Hp' & Hn' & Hst' & Hcm & Hw & Hc' & Hz'); try done; [lia| |].
    { unfold sock_read. rewrite Hi. by rewrite (proj2 (Z.leb_gt _ _)) by lia. }
    apply (serves_step e _ (rb, st')); [done|cbn; by rewrite Hn'|].
    replace (RdData (drop (Z.to_nat n) b) :: q) with (inq (net st')) by (by rewrite Hn').
    replace (n - zlen (take (Z.to_nat n) b)) with 0 in Hp' by lia.
    apply (serves_nread_all e rb st' (got ++ take (Z.to_nat n) b)); try done; [by apply Hc'|congruence|by rewrite Hn'|by rewrite Hcm, Hw].
  - set (st1 := with_conn (set_flags EvRead) (with_net (set_inq q (net st)) st)).
    apply (serves_step e _ (0, st1)); [|done|].
    + right. exists 1. cbn [fst snd]. split; [|done]. rewrite (nread_round e rb got n) by done. unfold NextRead.
      rewrite (pt_rem _ _ _ Hp), (proj2 (Z.leb_gt _ _)) by lia. unfold sock_read. rewrite Hi. by rewrite flagged.
    + apply (IH 0 st1 got); try done; [destruct Hc; by split|destruct Hp; by split].
Qed.

(** ** Requests, and the rest of long ones *)

(** A read of less than the buffer's size. *)
Lemma fill_one b size t q s :
  zlen b = size → 0 < zlen t < size → inq s = RdData t :: q →
  ∃ b', fill_loop FILL_ROUNDS b size 0 0 0 s =
      Ok {| code := 1; fbuf := b'; fsize := size; fbytes := zlen t; again := false; fnet := set_inq q s |} ∧
    zlen b' = size ∧ slice b' 0 (zlen t) = Ok t.
Proof.
  intros Hb Ht Hi. destruct (blit_ok b t 0) as (b' & E' & _); [lia|lia|].
  destruct (take_blit b t 0 b' ltac:(lia) E') as (Hz & _ & Htk). exists b'. split; [|split; [lia|]].
  - cbn [fill_loop FILL_ROUNDS]. rewrite (proj2 (Z.leb_gt _ _)) by lia. unfold sock_read. rewrite Hi, Z.sub_0_r.
    rewrite (proj2 (Z.leb_le _ _)), (proj2 (Z.eqb_neq (zlen t) 0)) by lia. rewrite E'. rbind.
    rewrite (proj2 (Z.eqb_neq (zlen t) size)) by lia. done.
  - rewrite slice_ok by lia. rewrite drop_0. by rewrite Z.add_0_l in Htk; rewrite Htk.
Qed.

(** Nothing has arrived. *)
Definition quiet (q left : list rd) : Prop := q = RdAgain :: left ∨ q = [] ∧ left = [].

Lemma fill_none b size n left s :
  n < size → quiet (inq s) left →
  fill_loop FILL_ROUNDS b size n 0 0 s =
    Ok {| code := 0; fbuf := b; fsize := size; fbytes := n; again := true; fnet := set_inq left s |}.
Proof.
  intros Hn Hq. cbn [fill_loop FILL_ROUNDS]. rewrite (proj2 (Z.leb_gt _ _)) by lia. unfold sock_read.
  destruct Hq as [-> | [Hi ->]]; [done|]. rewrite Hi. destruct s. cbn in *. by subst.
Qed.

(** The pieces of a long request, each shorter than the buffer, until the
    command has enough. *)
Inductive continues (e : E) : C → W → list rd → C → W → list rd → Prop :=
  | continues_pause c w q c' w' left : continues e c w q c' w' left → continues e c w (RdAgain :: q) c' w' left
  | continues_more c w b q n c1 w1 c' w' left :
      0 < zlen b < READ_BUFFER_SIZE → cmd_ContinueProcess e b c w = Ok (n, c1, w1) → n ≠ 0 → cmd_status c1 = CONN_CONREAD →
      continues e c1 w1 q c' w' left → continues e c w (RdData b :: q) c' w' left
  | continues_last c w b q c' w' :
      0 < zlen b < READ_BUFFER_SIZE → cmd_ContinueProcess e b c w = Ok (0, c', w') →
      continues e c w (RdData b :: q) c' w' q.

(** Waiting for a piece. *)
Record more_wanted (st : state C W) : Prop := {
  mw_status : status st = CONN_CONREAD;
  mw_buf : ∃ b, rbuf (conn st) = Some b ∧ zlen b = rsize (conn st);
  mw_size : READ_BUFFER_SIZE ≤ rsize (conn st) < 2 ^ 27;
  mw_cbuf : cbuf (conn st) = None ∨ ∃ b, cbuf (conn st) = Some b ∧ zlen b = READ_BUFFER_SIZE ∧ csize (conn st) = READ_BUFFER_SIZE;
  mw_cbytes : cbytes (conn st) = 0;
  mw_content : content (conn st) = None;
  mw_actual : actualsize (conn st) = 0;
  mw_send : sendsize (conn st) = 0
}.

(** The buffer for the pieces is there when it is read into. *)
Lemma conread_buf e rb (st : state C W) : more_wanted st →
  ∃ st' b, one_round e rb st = one_round e rb st' ∧ more_wanted st' ∧ comm st' = comm st ∧ world st' = world st ∧ net st' = net st ∧
    cbuf (conn st') = Some b ∧ zlen b = READ_BUFFER_SIZE ∧ csize (conn st') = READ_BUFFER_SIZE.
Proof.
  intros Hm. destruct (mw_cbuf _ Hm) as [Hn|(b & Hcb & Hz & Hcs)]; [|by exists st, b]. destruct Hm as [Hst Hb Hs _ Hcy Hco Ha Hsd].
  assert (zalloc READ_BUFFER_SIZE = Ok (replicate (Z.to_nat READ_BUFFER_SIZE) 0)) as Ez by (unfold zalloc; by rewrite granted).
  set (st' := with_conn (λ c, set_cbuf (Some (replicate (Z.to_nat READ_BUFFER_SIZE) 0)) READ_BUFFER_SIZE (cbytes c) c) st).
  exists st', (replicate (Z.to_nat READ_BUFFER_SIZE) 0). split.
  { unfold Connect.one_round. change (status st') with (status st). rewrite Hst. unfold round_conread. rewrite Hn, Ez. done. }
  split; [|done]. split; try done. right. eexists. by split.
Qed.

Lemma continue_round e rb (st : state C W) b q n c w :
  more_wanted st → inq (net st) = RdData b :: q → 0 < zlen b < READ_BUFFER_SIZE →
  cmd_ContinueProcess e b (comm st) (world st) = Ok (n, c, w) →
  ∃ st', comm st' = c ∧ world st' = w ∧ net st' = set_inq q (net st) ∧
    (n = 0 → step e (rb, st) (rb, st') ∧ calm (conn st') ∧ content (conn st') = None ∧ actualsize (conn st') = 0 ∧ sendsize (conn st') = 0) ∧
    (n ≠ 0 → step e (rb, st) (0, st') ∧ (cmd_status c = CONN_CONREAD → more_wanted st')).
Proof.
  intros Hm Hi Hb Hp. destruct (conread_buf e rb st Hm) as (st1 & b1 & E1 & [Hst Hbuf Hs Hcb Hcy Hco Ha Hsd] & Hcm & Hw & Hnet & Hb1 & Hz1 & Hcs).
  destruct (fill_one b1 READ_BUFFER_SIZE b q (net st1)) as (b2 & Ef & Hz2 & Hsl); [done|done|by rewrite Hnet|].
  unfold Connect.one_round in E1 at 2. rewrite Hst in E1. unfold round_conread in E1. rewrite Hb1 in E1.
  cbn [mbind result_bind] in E1. unfold ContinueRead in E1. rewrite Hb1 in E1. cbn [Sds.nn mbind result_bind] in E1.
  rewrite Hcs, Hcy, Ef in E1. cbn [mbind result_bind code again fbuf fsize fbytes fnet Z.ltb Z.compare Z.eqb] in E1.
  cbn [conn with_net with_conn cbuf set_cbuf cbytes comm world Sds.nn mbind result_bind] in E1.
  rewrite Hsl in E1. cbn [mbind result_bind] in E1. rewrite Hcm, Hw, Hp in E1. cbn [mbind result_bind] in E1.
  destruct (Z.eqb_spec n 0) as [->|Hn].
  - eexists. split; [|split; [|split; [|split; [intros _; split; [left; exact E1|]|done]]]]; try done; by rewrite <- Hnet.
  - cbv zeta in E1. unfold with_conn at 1 in E1. rewrite UpdateEvent_ok in E1. cbn [snd] in E1.
    eexists. split; [|split; [|split; [|split; [done|intros _; split; [right; exists 0; split; [exact E1|done]|]]]]];
      try done; [by rewrite <- Hnet|].
    intros Hst'. split; try done. right. eexists. split; [done|]. split; [|done]. by vm_compute.
Qed.

Lemma received_nothing c : content c = None → actualsize c = 0 → received c = Ok [].
Proof. intros Hc Ha. unfold received. by rewrite Hc, Ha. Qed.

Lemma serves_conread e c0 w0 xs c1 w1 left : continues e c0 w0 xs c1 w1 left → ∀ rb (st : state C W) out c w,
  more_wanted st → comm st = c0 → world st = w0 → inq (net st) = xs → no_error (outq (net st)) →
  cmd_status c1 = CONN_DATA → cmd_Complete e [] c1 w1 = Ok (out, c, w) → out ≠ [] → zlen out < 2 ^ 63 →
  serves e (rb, st) out c w left.
Proof.
  induction 1 as [c0 w0 q c1 w1 left Hk IH|c0 w0 b q n c2 w2 c1 w1 left Hb Hp Hn Hst2 Hk IH|c0 w0 b q c1 w1 Hb Hp];
    intros rb st out c w Hm Hcm Hw Hi Hq Hst1 Hcomp Ho Hl.
  - destruct (conread_buf e rb st Hm) as (st1 & b1 & E1 & Hm1 & Hcm1 & Hw1 & Hnet & Hb1 & Hz1 & Hcs).
    apply (serves_same e _ (rb, st1)); [done|cbn; by rewrite Hnet|].
    pose proof (mw_status _ Hm1) as Hst'. pose proof (mw_cbytes _ Hm1) as Hcy.
    set (st2 := with_conn (set_flags EvRead) (with_conn (set_flags EvRead) (with_net (set_inq q (net st1))
      (with_conn (set_cbuf (Some b1) READ_BUFFER_SIZE 0) st1)))).
    apply (serves_step e _ (0, st2)); [|done|].
    + right. exists 0. cbn [fst snd]. split; [|done]. unfold Connect.one_round. rewrite Hst'. unfold round_conread.
      rewrite Hb1. rbind. unfold ContinueRead. rewrite Hb1. cbn [Sds.nn]. rbind. rewrite Hcs, Hcy.
      rewrite (fill_none b1 READ_BUFFER_SIZE 0 q) by (done || (rewrite Hnet; by left)). rbind.
      cbn [again code fbuf fsize fbytes fnet Z.ltb Z.compare Z.eqb]. by rewrite flagged, update_ok.
    + destruct Hm1. apply (IH 0 st2); try done; [|cbn; congruence|cbn; congruence|by cbn; rewrite Hnet]. split; try done. right. by exists b1.
  - subst c0 w0. destruct (continue_round e rb st b q n c2 w2 Hm Hi Hb Hp) as (st' & Hcm' & Hw' & Hnet & _ & Hmore).
    destruct (Hmore Hn) as [Hs Hm']. apply (serves_step e _ (0, st')); [done|cbn; by rewrite Hnet|].
    apply (IH 0 st'); try done; [by apply Hm'|by rewrite Hnet|by rewrite Hnet].
  - subst c0 w0. destruct (continue_round e rb st b q 0 c1 w1 Hm Hi Hb Hp) as (st' & Hcm' & Hw' & Hnet & Hlast & _).
    destruct (Hlast eq_refl) as (Hs & Hc' & Hco & Ha & Hz). apply (serves_step e _ (rb, st')); [done|cbn; by rewrite Hnet|].
    replace q with (inq (net st')) by (by rewrite Hnet).
    apply (serves_data e rb st' []); try done; [unfold status; congruence|by apply received_nothing|congruence|by rewrite Hnet].
Qed.

(** The course of a request whose first read is [data]: what the command
    answers, and how it and the world end, where [xs] arrives behind it. *)
Inductive dialogue (e : E) (data : bytes) (c : C) (w : W) : list rd → bytes → C → W → list rd → Prop :=
  (** refused while it is parsed *)
  | dialogue_error n xs out c' w' :
      cmd_Process e data c w = Ok (n, out, c', w') → u64 n = 0 → out ≠ [] → dialogue e data c w xs out c' w' xs
  (** complete with the first read *)
  | dialogue_data n xs c1 w1 out c' w' :
      cmd_Process e data c w = Ok (n, [], c1, w1) → cmd_status c1 = CONN_DATA →
      cmd_Complete e [] c1 w1 = Ok (out, c', w') → out ≠ [] → dialogue e data c w xs out c' w' xs
  (** with a value of which [n] bytes are missing *)
  | dialogue_value n xs d left c1 w1 out c' w' :
      cmd_Process e data c w = Ok (n, [], c1, w1) → cmd_status c1 = CONN_NREAD → 0 ≤ n < 2 ^ 31 → arrives n xs d left →
      cmd_Complete e d (cmd_SetStatus CONN_DATA c1) w1 = Ok (out, c', w') → out ≠ [] → dialogue e data c w xs out c' w' left
  (** continued piece by piece *)
  | dialogue_pieces n xs left c1 w1 c2 w2 out c' w' :
      cmd_Process e data c w = Ok (n, [], c1, w1) → cmd_status c1 = CONN_CONREAD → continues e c1 w1 xs c2 w2 left →
      cmd_status c2 = CONN_DATA → cmd_Complete e [] c2 w2 = Ok (out, c', w') → out ≠ [] → dialogue e data c w xs out c' w' left
  (** no request at all, such as the line end behind a value *)
  | dialogue_nothing n xs left c' w' :
      cmd_Process e data c w = Ok (n, [], c', w') → cmd_status c' = CONN_READ → quiet xs left → dialogue e data c w xs [] c' w' left.

(** The first read of a request. *)
Lemma first_read (st : state C W) data xs :
  idle st → inq (net st) = RdData data :: xs → 0 < zlen data < rsize (conn st) →
  ∃ st' b, InitRead 0 (with_conn (set_out []) st) = Ok (1, zlen data, st') ∧ rbuf (conn st') = Some b ∧
    slice b 0 (zlen data) = Ok data ∧ idle st' ∧ comm st' = comm st ∧ world st' = world st ∧ net st' = set_inq xs (net st).
Proof.
  intros [Hst [(b & Hb & Hz) Hs Hcb Hcy] Hco Ha Hsd] Hi Hd. unfold InitRead.
  change (rbuf (conn (with_conn (set_out []) st))) with (rbuf (conn st)). rewrite Hb. cbn [Sds.nn]. rbind.
  destruct (fill_one b (rsize (conn st)) data xs (net st)) as (b' & Ef & Hz' & Hsl); try done.
  change (rsize (conn (with_conn (set_out []) st))) with (rsize (conn st)).
  change (net (with_conn (set_out []) st)) with (net st). rewrite Ef. rbind. eexists _, b'. split; [done|]. split; [done|].
  split; [done|]. split; [|done]. split; try done. split; try done. by exists b'.
Qed.

(** What [Process] leaves, as the next round finds it. *)
Definition parsed_state (n : Z) (out : bytes) (c : C) (w : W) (st : state C W) : state C W :=
  with_conn (λ c, set_out out (set_remain (u64 n) c)) (with_comm c w st).

Definition parsed_calm (n : Z) (out : bytes) (c : C) (w : W) (st : state C W) : Prop :=
  let k := conn (parsed_state n out c w st) in calm k ∧ sendsize k = 0 ∧ content k = None ∧ actualsize k = 0.

Lemma request_round e (st : state C W) data xs n out c w :
  idle st → inq (net st) = RdData data :: xs → 0 < zlen data < rsize (conn st) →
  cmd_Process e data (comm st) (world st) = Ok (n, out, c, w) →
  ∃ st1, net st1 = set_inq xs (net st) ∧ zlen data < rsize (conn st1) ∧ parsed_calm n out c w st1 ∧
    one_round e 0 st =
      (if (u64 n =? 0) && negb (bool_decide (out = [])) then
         st ← reset (Connect.SetStatus CONN_WRITE (parsed_state n out c w st1)); Ok (update_and_return true true EvWrite st)
       else Ok (Loop (zlen data) (parsed_state n out c w st1))).
Proof.
  intros Hid Hi Hd Hp. destruct (first_read st data xs Hid Hi Hd) as (st1 & b & E1 & Hb & Hsl & Hid1 & Hcm & Hw & Hnet).
  exists st1. split; [done|]. split; [|split; [destruct Hid1 as [? [? ? ? ?] ? ? ?]; by split; [split|]|]].
  { destruct (cm_buf _ (id_calm _ Hid1)) as (b' & Hb' & Hz'). rewrite Hb in Hb'. injection Hb' as <-. rewrite <- Hz'.
    unfold InitRead in E1. change (rbuf (conn (with_conn (set_out []) st))) with (rbuf (conn st)) in E1.
    destruct (cm_buf _ (id_calm _ Hid)) as (b0 & Hb0 & Hz0). rewrite Hb0 in E1. cbn [Sds.nn mbind result_bind] in E1.
    destruct (fill_one b0 (rsize (conn st)) data xs (net st) Hz0 Hd Hi) as (b2 & Ef & Hz2 & _).
    change (rsize (conn (with_conn (set_out []) st))) with (rsize (conn st)) in E1.
    change (net (with_conn (set_out []) st)) with (net st) in E1. rewrite Ef in E1. injection E1 as <-. cbn in Hb.
    injection Hb as <-. lia. }
  unfold Connect.one_round. rewrite (id_status _ Hid). unfold round_read. rewrite E1. rbind. cbn [Z.ltb Z.compare Z.eqb].
  rewrite Hb. cbn [Sds.nn]. rbind. rewrite Hsl. rbind. by rewrite Hcm, Hw, Hp.
Qed.

(** A value is wanted: the buffer for it is allocated first. *)
Lemma nread_buf e rb n (st : state C W) :
  status st = CONN_NREAD → content (conn st) = None → actualsize (conn st) = 0 → remainsize (conn st) = n → 0 ≤ n < 2 ^ 31 →
  ∃ st', one_round e rb st = one_round e rb st' ∧ partial [] n (conn st') ∧ comm st' = comm st ∧ world st' = world st ∧
    net st' = net st ∧ (calm (conn st) → calm (conn st')) ∧ sendsize (conn st') = sendsize (conn st).
Proof.
  intros Hst Hco Ha Hrem Hn. assert (zalloc n = Ok (replicate (Z.to_nat n) 0)) as Ez.
  { unfold zalloc. rewrite granted. by rewrite u64_small by lia. }
  exists (with_conn (λ c, Connect.set_content (Some (replicate (Z.to_nat n) 0)) 0 (actualsize c) c) st). split.
  { unfold Connect.one_round. change (status (with_conn _ st)) with (status st). rewrite Hst. unfold round_nread.
    rewrite Hco, Hrem, Ez. done. }
  split; [|by split; [|split; [|split; [|split; [intros [? ? ? ?]; by split|]]]]].
  split; cbn; try done; [|change (zlen []) with 0; lia]. eexists. split; [done|]. split; [|done]. unfold zlen. rewrite length_replicate. cbn. lia.
Qed.

Lemma serves_request e (st : state C W) data xs out c w left :
  idle st → inq (net st) = RdData data :: xs → 0 < zlen data < rsize (conn st) → no_error (outq (net st)) → zlen out < 2 ^ 63 →
  dialogue e data (comm st) (world st) xs out c w left → serves e (0, st) out c w left.
Proof.
  intros Hid Hi Hd Hq Hl Hdlg.
  destruct Hdlg as [n xs out c w Hp Hn Ho|n xs c1 w1 out c w Hp Hst Hcomp Ho|n xs d left c1 w1 out c w Hp Hst Hn Har Hcomp Ho
    |n xs left c1 w1 c2 w2 out c w Hp Hst Hk Hst2 Hcomp Ho|n xs left c w Hp Hst Hqu];
    destruct (request_round e st data xs n _ _ _ Hid Hi Hd Hp) as (st1 & Hnet & Hsz & (Hc & Hz & Hco & Ha) & E1);
    rewrite ?bool_decide_eq_true_2, ?andb_false_r in E1 by done.
  - rewrite Hn, bool_decide_eq_false_2 in E1 by done. cbn [Z.eqb andb negb] in E1. rewrite reset_ok in E1 by done.
    cbn [mbind result_bind] in E1. rewrite update_ok in E1.
    set (st2 := with_conn (set_flags EvWrite) _) in E1. apply (serves_step e _ (0, st2)); [right; by exists 0|cbn; by rewrite Hnet|].
    destruct (serves_write e 0 st2 out) as (y & st' & Hy & Er & Hid' & Hcm & Hrest); try done.
    { apply status_set. }
    { destruct (calm_cleared _ Hc) as [? ? ? ?]. by split. }
    { cbn. by rewrite Hnet. }
    exists y, st'. split; [done|]. split; [done|]. split; [done|]. split; [by rewrite Hcm; cbn; rewrite set_set|].
    destruct Hrest as (-> & -> & ? & ?). split; [done|]. split; [cbn; by rewrite Hnet|done].
  - apply (serves_step e _ (zlen data, parsed_state n [] c1 w1 st1)); [by left|cbn; by rewrite Hnet|].
    replace xs with (inq (net (parsed_state n [] c1 w1 st1))) by (cbn; by rewrite Hnet).
    apply (serves_data e _ _ []); try done; [by apply received_nothing|cbn; by rewrite Hnet].
  - apply (serves_step e _ (zlen data, parsed_state n [] c1 w1 st1)); [by left|cbn; by rewrite Hnet|].
    destruct (nread_buf e (zlen data) n (parsed_state n [] c1 w1 st1)) as (st2 & E2 & Hp2 & Hcm2 & Hw2 & Hn2 & Hc2 & Hz2);
      try done; [cbn; apply u64_small; lia|].
    apply (serves_same e _ (zlen data, st2)); [done|cbn; by rewrite Hn2|].
    apply (serves_nread e n xs d left Har (zlen data) st2 [] out c w); try done; rewrite ?Hn2, ?Hz2; cbn; try (by rewrite Hnet); try done.
    + unfold status. by rewrite Hcm2.
    + by apply Hc2.
    + by rewrite Hcm2, Hw2.
  - apply (serves_step e _ (zlen data, parsed_state n [] c1 w1 st1)); [by left|cbn; by rewrite Hnet|].
    apply (serves_conread e c1 w1 xs c2 w2 left Hk); try done; [|cbn; by rewrite Hnet|cbn; by rewrite Hnet].
    destruct Hc as [? ? ? ?]. split; try done. by left.
  - apply (serves_step e _ (zlen data, parsed_state n [] c w st1)); [by left|cbn; by rewrite Hnet|].
    destruct (cm_buf _ Hc) as (b & Hb & Hbz). set (st2 := parsed_state n [] c w st1) in *.
    set (st3 := Connect.SetStatus CONN_WAIT (with_net (set_inq left (net st2)) (with_conn (set_rbuf (Some b) (rsize (conn st2)))
      (with_conn (set_out []) st2)))).
    apply (serves_step e _ (zlen data, st3)); [|done|].
    { left. unfold loops, Connect.one_round. cbn [fst snd]. change (status st2) with (cmd_status c). rewrite Hst.
      unfold round_read, InitRead. change (rbuf (conn (with_conn (set_out []) st2))) with (rbuf (conn st2)).
      rewrite Hb. cbn [Sds.nn]. rbind.
      rewrite (fill_none b (rsize (conn (with_conn (set_out []) st2))) (zlen data) left (net (with_conn (set_out []) st2)));
        [done|done|]. cbn. by rewrite Hnet. }
    destruct (wait_round e (zlen data) st3) as (st' & E3 & Hid' & Hcm' & Hw' & Hn');
      [apply status_set|destruct Hc as [? ? ? ?]; split; try done; by exists b|done|].
    exists (zlen data, st3), st'. split; [done|]. split; [done|]. split; [done|]. split; [by rewrite Hcm'; cbn; rewrite set_set|].
    rewrite Hn'. split; [done|]. split; [done|]. split; [by rewrite app_nil_r|]. cbn. by rewrite Hnet.
Qed.

(** What a client sees: requests one after the other, each answered in full
    before the next one is looked at; the time may change between them. *)
Inductive conversation : C → W → list rd → bytes → C → W → list rd → Prop :=
  | conversation_end c w xs : conversation c w xs [] c w xs
  | conversation_pause (e : E) c w xs outs c' w' left :
      conversation c w xs outs c' w' left → conversation c w (RdAgain :: xs) outs c' w' left
  | conversation_request e data c w xs out c1 w1 xs1 outs c' w' left :
      0 < zlen data < READ_BUFFER_SIZE → zlen out < 2 ^ 63 → dialogue e data c w xs out c1 w1 xs1 →
      conversation (cmd_SetStatus CONN_READ c1) w1 xs1 outs c' w' left →
      conversation c w (RdData data :: xs) (out ++ outs) c' w' left.

(** The connection at rest in a conversation. *)
Definition at_rest (c : C) (w : W) (xs : list rd) (out : bytes) (st : state C W) : Prop :=
  idle st ∧ comm st = c ∧ world st = w ∧ inq (net st) = xs ∧ sent (net st) = out ∧ no_error (outq (net st)).

(** An event that finds nothing to read. *)
Lemma idle_pause e (st : state C W) left :
  idle st → quiet (inq (net st)) left →
  ∃ st', handled e st st' ∧ idle st' ∧ comm st' = comm st ∧ world st' = world st ∧ net st' = set_inq left (net st).
Proof.
  intros [Hst [(b & Hb & Hz) Hs Hcb Hcy] Hco Ha Hsd] Hq. unfold READ_BUFFER_SIZE in Hs.
  set (st1 := Connect.SetStatus CONN_WAIT (with_net (set_inq left (net st)) (with_conn (set_rbuf (Some b) (rsize (conn st)))
    (with_conn (set_out []) st)))).
  destruct (wait_round e 0 st1) as (st' & E1 & Hid & Hcm & Hw & Hn); [apply status_set|split; try done; by exists b|done|].
  exists st'. split; [|split; [done|]; split; [|done]].
  - eapply (handled_intro e st (0, st1) 0); [|done|done]. apply rtc_once. unfold loops, Connect.one_round. cbn [fst snd].
    rewrite Hst. unfold round_read, InitRead. change (rbuf (conn (with_conn (set_out []) st))) with (rbuf (conn st)).
    rewrite Hb. cbn [Sds.nn]. rbind.
    by rewrite (fill_none b (rsize (conn (with_conn (set_out []) st))) 0 left (net (with_conn (set_out []) st))); [| cbn; lia|].
  - rewrite Hcm. cbn. rewrite set_set, <- Hst. apply set_same.
Qed.

(** An event on the connection's descriptor that [GentEvent::Handle] handles
    without closing the connection. *)
Definition kept (st st' : state C W) : Prop :=
  ∃ e fuel, Handle true true fuel e (fd (conn st)) st = Ok (Some (true, st')).

Lemma handled_kept e st st' : handled e st st' → kept st st'.
Proof.
  intros (fuel & n & E1 & Hn). exists e, fuel. unfold Handle. rewrite Z.eqb_refl. cbn [negb]. rewrite E1. rbind.
  by rewrite (proj2 (Z.ltb_ge _ _)).
Qed.

Lemma conversation_served c w xs outs c' w' left (st : state C W) out0 :
  conversation c w xs outs c' w' left → at_rest c w xs out0 st →
  ∃ st', rtc kept st st' ∧ at_rest c' w' left (out0 ++ outs) st'.
Proof.
  intros Hconv. revert st out0.
  induction Hconv as [c w xs|e c w xs outs c' w' left Hv IH|e data c w xs out c1 w1 xs1 outs c' w' left Hd Hl Hdlg Hv IH];
    intros st out0 Hr.
  - exists st. by rewrite app_nil_r.
  - destruct Hr as (Hid & Hc & Hw & Hi & Hs & Hq).
    destruct (idle_pause e st xs Hid) as (st1 & Hh & Hid1 & Hc1 & Hw1 & Hn1); [by left|].
    destruct (IH st1 out0) as (st' & Hrtc & Hrest); [by repeat split; rewrite ?Hn1, ?Hc1, ?Hw1; try done; apply Hid1|].
    exists st'. split; [|done]. eapply rtc_l; [by eapply handled_kept|done].
  - destruct Hr as (Hid & <- & <- & Hi & Hs & Hq).
    destruct (serves_request e st data xs out c1 w1 xs1) as (y & st1 & Hy & Hret & Hid1 & Hcm & Hw & Hi1 & Hs1 & Hq1); try done.
    { pose proof (cm_size _ (id_calm _ Hid)). lia. }
    destruct (steps_handled e (0, st) y 0 st1 Hy Hret) as (st2 & fuel & k & E2 & Hk & Hh); [done|].
    cbn [snd] in Hs1. rewrite Hs in Hs1. destruct (IH st1 (out0 ++ out)) as (st' & Hrtc & Hrest); [done|].
    exists st'. split; [|by rewrite app_assoc]. eapply rtc_l; [eapply (handled_kept e); by exists fuel, k|].
    etrans; [|exact Hrtc]. eapply rtc_subrel; [|exact Hh]. intros ? ?. apply handled_kept.
Qed.

(** C21: a connection implements the conversation of its command object: from
    rest, and whatever the socket takes of a reply at a time, a finite number
    of events, each of which the handler completes in finitely many rounds and
    without closing the connection, brings it to rest again, with exactly the replies of
    the conversation sent, the requests consumed, and the command and the
    shared objects as the conversation leaves them. Values may arrive in any
    number of pieces, and pauses may come anywhere. *)
Theorem connection_serves c w xs outs c' w' left (st : state C W) out0 :
  conversation c w xs outs c' w' left → at_rest c w xs out0 st →
  ∃ st', rtc kept st st' ∧ at_rest c' w' left (out0 ++ outs) st'.
Proof. apply conversation_served. Qed.
End serve.

(** ** Bounds of the request buffer *)

Section bounds.
Context `{Malloc} `{Command E C W}.

(** C35: [InitRead] stays within its buffer, whatever the socket delivers and
    whether or not the buffer can be enlarged: it returns after at most six
    reads, the buffer and [rsize] agree, the buffer never shrinks and grows
    to sixteen times its size at most, and what has been read in this call
    stands behind what was in the buffer, without a byte lost of what the
    socket delivered. Only when memory runs out is what was read given up,
    and the error returned. *)
Theorem InitRead_bounds rbytes (st : state C W) b :
  rbuf (conn st) = Some b → zlen b = rsize (conn st) → 0 ≤ rbytes ≤ rsize (conn st) → 0 < rsize (conn st) < 2 ^ 27 →
  ∃ n k st' b' d, InitRead rbytes st = Ok (n, k, st') ∧ rbuf (conn st') = Some b' ∧ zlen b' = rsize (conn st') ∧
    rsize (conn st) ≤ rsize (conn st') ≤ 16 * rsize (conn st) ∧
    data_of (inq (net st)) = d ++ data_of (inq (net st')) ∧
    take (Z.to_nat (rbytes + zlen d)) b' = take (Z.to_nat rbytes) b ++ d ∧
    (n < 0 ∨ n = 0 ∨ n = 1) ∧ k = (if n =? -2 then 0 else rbytes + zlen d) ∧ rbytes + zlen d ≤ rsize (conn st').
Proof.
  intros Hb Hz Hr Hs. destruct (fill_loop_ok FILL_ROUNDS b (rsize (conn st)) rbytes 0 0 (net st)) as (f & d & E1 & [f1 f2 f3 f4 f5 f6] & Hc);
    [done|done|lia|lia|change (2 ^ (4 - 0)) with 16; lia|unfold FILL_ROUNDS; change (Z.to_nat (4 - 0)) with 4%nat; destruct (Z.ltb rbytes (rsize (conn st))); lia|].
  unfold InitRead. rewrite Hb. cbn [Sds.nn]. rbind. rewrite E1. rbind. eexists (code f), _, _, (fbuf f), d.
  change (2 ^ (4 - 0)) with 16 in f4. split; [done|]. split; [done|]. split; [done|]. split; [cbn; lia|]. split; [done|].
  rewrite <- f2. done.
Qed.
End bounds.

(** ** A broken socket *)

Section broken.
Context `{Malloc} `{CommandLaws E C W}.
Hypothesis granted : ∀ n, malloc_ok n = true.

(** When [send] fails while a reply is to be written, the loop of
    [TryRunning] goes on for ever: the error of [OutString] is dropped and
    the status stays [CONN_WRITE]. *)
Lemma broken_send_spins fuel e rb (st : state C W) q :
  status st = CONN_WRITE → calm (conn st) → outq (net st) = SdErr :: q → outstr (conn st) ≠ [] →
  sending (outstr (conn st)) (if sendsize (conn st) <=? 0 then set_sending (zlen (outstr (conn st))) 0 (conn st) else conn st) →
  rounds true true fuel e rb st = Ok None.
Proof.
  revert st. induction fuel as [|fuel IH]; intros st Hst Hc Hq Ho Hs; [done|].
  cbn [rounds]. unfold Connect.one_round. rewrite Hst. unfold round_write. rewrite reset_ok by done. rbind.
  unfold OutString. set (c0 := conn (with_conn cleared st)). change (net (with_conn cleared st)) with (net st).
  set (o := outstr c0). set (c1 := if sendsize c0 <=? 0 then _ else _). change (outstr (conn st)) with o in *.
  change (sendsize (conn st)) with (sendsize c0) in *. pose proof (calm_cleared _ Hc) as Hcc.
  assert (0 < zlen o) as Hpos by (destruct o; [done|]; unfold zlen; cbn [length]; lia).
  assert (sending o c1 ∧ 0 < sendsize c1 ∧ calm c1 ∧ outstr c1 = o ∧ (sendsize c1 <=? 0) = false) as (Hs1 & Hz1 & Hc1 & Ho1 & Hb1).
  { subst c1. destruct (Z.leb_spec (sendsize c0) 0); cbn [sendsize set_sending].
    - split; [exact Hs|]. split; [done|]. split; [destruct Hcc; by split|]. split; [done|]. apply Z.leb_gt. done.
    - split; [exact Hs|]. split; [done|]. split; [done|]. split; [done|]. by apply Z.leb_gt. }
  cbn [send_loop]. rewrite (proj2 (Z.ltb_lt _ _)) by done. destruct Hs1 as (? & ? & ? & ?) eqn:Es.
  rewrite slice_ok by lia. rbind. unfold sock_send. rewrite Hq. rbind. cbn [Z.eqb]. rbind.
  apply IH; try done; cbn [conn outstr]; rewrite ?Ho1, ?Hb1; done.
Qed.
End broken.
