(* ===== verification/RedisConnect.v ===== *)
(** * The Redis commands over a connection

    [GentRedis] implements the interface of a connection's command object, so
    that what Connect.v guarantees about conversations and what Redis.v does
    with the bytes of a request compose: from the bytes that arrive on a
    socket to the bytes that are sent. *)

From S2P Require Import Prelude Cstd Cmem Sds SdsSpec LevelDb Db Config Redis RedisSpec Connect ConnectSpec.
Import Db Redis Connect.

(** What the commands read of the outside: the time, a random number and the
    text of [info]. *)
Record env := { now : Z; rnd : Z; info : bytes }.

Section redis_connect.
Context `{LevelDBLaws D, RepManager R, Malloc}.
Context (cfg : Config.conf) (file_ok : bool).

(** The virtual functions of [GentCommand], as [GentRedis] overrides them. *)
#[local] Instance redis_command : Command env GentRedis (World D R) := {
  cmd_status := conn_status;
  cmd_SetStatus := Redis.SetStatus;
  cmd_Process e data c w :=
    '(n, out, c, m) ← Process cfg (now e) data c (mgr w); Ok (n, out, c, {| gdb := gdb w; mgr := m |});
  cmd_ContinueProcess e data c w := '(n, c) ← ContinueProcess data c; Ok (n, c, w);
  cmd_Complete e recont c w := Complete file_ok (now e) (rnd e) (info e) recont c w
}.

#[local] Instance redis_command_laws : CommandLaws env GentRedis (World D R).
Proof. split; [done|done|by intros []]. Qed.

Lemma authed_fields r : subc (authed cfg r) = subc r ∧ is_slave (authed cfg r) = is_slave r ∧
  conn_status (authed cfg r) = conn_status r ∧ (unlocked cfg r → auth (authed cfg r) ≠ 0).
Proof.
  unfold authed, IsAuth. destruct (Z.eqb_spec (auth r) 0) as [E|]; cbn; [|done].
  destruct (bool_decide _) eqn:Hb; cbn; [done|]. apply bool_decide_eq_false in Hb. split; [done|]. split; [done|]. split; [done|].
  intros [|]; done.
Qed.

(** [set], the value in pieces: what the connection shows of it. *)
Lemma set_dialogue e k v chunk d xs left r (w : World D R) :
  unlocked cfg r → is_slave r = false → token k → zlen k < 250 → zlen v < 2 ^ 31 →
  zlen (set_header (str "set") k (zlen v) ++ chunk) < npos → ten_digits (now e) →
  put_ok k v (MetaSerialize TY_STRING 0 (now e)) (gdb w) →
  arrives (Z.max 0 (zlen v - zlen chunk)) xs d left → (∃ rest, chunk ++ d = v ++ rest) →
  ∃ r1 w1, dialogue e (set_header (str "set") k (zlen v) ++ chunk) r w xs (str "+OK" ++ crlf) r1 w1 left ∧
    unlocked cfg r1 ∧ mgr w1 = rep_Push ADD k (mgr w) ∧
    ∀ t, Db.Get t k (gdb w1) = Ok (Some v).
Proof.
  intros Hu Hsl Ht Hk Hv Hb Hnow Hok Har [rest Hcut]. pose proof (zlen_nonneg v). pose proof (zlen_nonneg chunk).
  assert (take (Z.to_nat (zlen v)) (chunk ++ d) = v) as Hval by (rewrite Hcut, to_nat_zlen; apply take_app_length).
  set (r0 := Redis.SetStatus CONN_DATA (set_state cfg k chunk (zlen v) r)).
  assert (value_begun k chunk (zlen v) r0) as Hvb by (destruct (set_state_begun cfg k chunk (zlen v) r Hsl); by split).
  destruct (Complete_Set_ok file_ok (now e) d k chunk (zlen v) r0 w) as (r1 & g & Hst & Hau & E & HG);
    [done|rewrite Hcut; zlia|done|by rewrite Hval|]. rewrite Hval in HG.
  exists r1, {| gdb := g; mgr := rep_Push ADD k (mgr w) |}. split; [|split; [|split; [done|apply HG]]].
  - eapply (dialogue_value e _ _ _ (Z.max 0 (zlen v - zlen chunk)) xs d left (set_state cfg k chunk (zlen v) r) w).
    + cbn [cmd_Process redis_command]. rewrite (Process_set cfg (now e) (str "set") k (zlen v) chunk r (mgr w)) by (auto with lia).
      by destruct w.
    + done.
    + lia.
    + done.
    + cbn [cmd_Complete cmd_SetStatus redis_command]. fold r0. unfold Complete.
      assert (subc r0 = Some PSet) as -> by (subst r0; cbn; by rewrite (proj1 (authed_fields _))). exact E.
    + done.
  - left. rewrite Hau. subst r0. cbn. by apply authed_fields.
Qed.

(** The line end behind a value is no request. *)
Lemma line_end_dialogue e xs r (w : World D R) :
  conn_status r = CONN_READ → dialogue e crlf r w (RdAgain :: xs) [] r w xs.
Proof. intros Hst. apply (dialogue_nothing e crlf r w 0); [by destruct w|done|by left]. Qed.

Lemma get_dialogue e k v xs r (w : World D R) :
  unlocked cfg r → token k → zlen k < 250 → zlen v < 2 ^ 31 → Db.Get (now e) k (gdb w) = Ok (Some v) →
  ∃ r1, dialogue e (resp [str "get"; k]) r w xs (bulk v) r1 w xs.
Proof.
  intros Hu Ht Hk Hv HG. eexists. eapply (dialogue_data e _ _ _ 0 xs).
  - cbn [cmd_Process redis_command]. rewrite (Process_key_command cfg (now e) (str "get") PGet k) by (done || lia). by destruct w.
  - done.
  - cbn [cmd_Complete redis_command]. unfold Complete. cbn [subc set_keystr Redis.SetStatus].
    rewrite (proj1 (authed_fields _)). cbn [subc set_subc]. unfold Complete_Get. cbn [keystr set_keystr]. rewrite HG. rbind.
    by rewrite bulk_reply_bulk by lia.
  - unfold bulk. intros E. discriminate E.
Qed.

(** A SET request whose value was cut after [chunk], with what follows it:
    the rest of the value in pieces and the line end, or nothing when all of
    it came at once. *)
Inductive set_arrives (v chunk : bytes) (q : list rd) : list rd → Prop :=
  | set_at_once : chunk = v ++ crlf → set_arrives v chunk q q
  | set_in_pieces d xs : v = chunk ++ d → arrives (zlen d) xs d (RdData crlf :: RdAgain :: q) → set_arrives v chunk q xs.

(** C1: [set] and then [get] over a socket. However the value of the [set] is
    cut into pieces by the network, with whatever pauses, and however little
    of a reply the socket takes at a time, the client receives [+OK] and then
    the value, byte for byte, as a bulk string; the connection ends at rest
    with nothing left unread, and the key has been handed to the
    replication. *)
Theorem set_get_over_socket e k v chunk xs left out0 r w (st : state GentRedis (World D R)) :
  (∀ n, malloc_ok n = true) → unlocked cfg r → is_slave r = false → conn_status r = CONN_READ →
  token k → zlen k < 250 → zlen v < 2 ^ 31 → zlen (set_header (str "set") k (zlen v) ++ chunk) < READ_BUFFER_SIZE →
  ten_digits (now e) → put_ok k v (MetaSerialize TY_STRING 0 (now e)) (gdb w) →
  set_arrives v chunk (RdData (resp [str "get"; k]) :: left) xs →
  at_rest r w (RdData (set_header (str "set") k (zlen v) ++ chunk) :: xs) out0 st →
  ∃ r' w' st', rtc kept st st' ∧
    at_rest r' w' left (out0 ++ (str "+OK" ++ crlf) ++ bulk v) st' ∧ mgr w' = rep_Push ADD k (mgr w).
Proof.
  intros Hall Hu Hsl Hst Ht Hk Hv Hb Hnow Hok Harr Hrest.
  assert (zlen (resp [str "get"; k]) < READ_BUFFER_SIZE) as Hget.
  { unfold resp, bulk. cbn [fmap list_fmap concat]. rewrite !zlen_app.
    pose proof (udec_len_le (zlen k) 10 ltac:(zlia) ltac:(lia)). change (zlen (udec (zlen [str "get"; k]))) with 1.
    change (zlen (udec (zlen (str "get")))) with 1. change (zlen (str "get")) with 3. change (zlen (str "*")) with 1.
    change (zlen (str "$")) with 1. change (zlen crlf) with 2. change (zlen []) with 0.
    unfold READ_BUFFER_SIZE. unfold zlen in *. lia. }
  assert (0 < zlen (resp [str "get"; k])) as Hget0 by (unfold resp; rewrite zlen_app; change (zlen (str "*" )) with 1; zlia).
  assert (0 < zlen (set_header (str "set") k (zlen v) ++ chunk)) as Hset0.
  { unfold set_header, set_lines. rewrite joined_cons, <- app_assoc, zlen_app. change (zlen (str "*3")) with 2. zlia. }
  assert (∃ d left1, arrives (Z.max 0 (zlen v - zlen chunk)) xs d left1 ∧ (∃ rest, chunk ++ d = v ++ rest) ∧
    (left1 = RdData crlf :: RdAgain :: RdData (resp [str "get"; k]) :: left ∨ left1 = RdData (resp [str "get"; k]) :: left))
    as (d & left1 & Har & Hrest' & Hleft).
  { destruct Harr as [->|d xs Hv' Har].
    - eexists [], _. split; [|split; [by exists crlf; rewrite app_nil_r|by right]].
      rewrite zlen_app, Z.max_l by zlia. constructor.
    - exists d, (RdData crlf :: RdAgain :: RdData (resp [str "get"; k]) :: left). subst v. split; [|split; [|by left]].
      + rewrite zlen_app, Z.max_r by zlia. by replace (zlen chunk + zlen d - zlen chunk) with (zlen d) by lia.
      + exists []. by rewrite app_nil_r. }
  destruct (set_dialogue e k v chunk d xs left1 r w) as (r1 & w1 & Hd1 & Hu1 & Hm1 & HG); try done; [unfold READ_BUFFER_SIZE, npos in *; lia|].
  set (r2 := Redis.SetStatus CONN_READ r1). assert (unlocked cfg r2) as Hu2 by exact Hu1.
  destruct (get_dialogue e k v left r2 w1) as (r3 & Hd3); try done.
  assert (conversation r2 w1 left1 (bulk v) (Redis.SetStatus CONN_READ r3) w1 left) as Hconv.
  { assert (conversation r2 w1 (RdData (resp [str "get"; k]) :: left) (bulk v) (Redis.SetStatus CONN_READ r3) w1 left) as Hg.
    { rewrite <- (app_nil_r (bulk v)). eapply conversation_request; [done| |exact Hd3|constructor].
      rewrite zlen_bulk. pose proof (udec_len_le (zlen v) 10 ltac:(zlia) ltac:(lia)). unfold size_line. rewrite zlen_app.
      change (zlen [36]) with 1. unfold zlen in *. lia. }
    destruct Hleft as [-> | ->]; [|done]. rewrite <- (app_nil_l (bulk v)).
    eapply (conversation_request e); [done|done|by apply line_end_dialogue|exact Hg]. }
  destruct (conversation_served Hall r w (RdData (set_header (str "set") k (zlen v) ++ chunk) :: xs) ((str "+OK" ++ crlf) ++ bulk v) (Redis.SetStatus CONN_READ r3) w1 left st out0) as (st' & Hrtc & Hend); [|exact Hrest|].
  - eapply conversation_request; [done|done|exact Hd1|exact Hconv].
  - by exists (Redis.SetStatus CONN_READ r3), w1, st'.
Qed.
End redis_connect.

(** ** Examples *)

#[local] Existing Instance calloc_all.
#[local] Instance open_command : Command env GentRedis (World (gmap bytes bytes) change_log) := redis_command no_auth true.
#[local] Instance open_command_laws : CommandLaws env GentRedis (World (gmap bytes bytes) change_log) := redis_command_laws no_auth true.

(** A connection just accepted, without a password configured, that has
    [inq] to read and takes three bytes of a reply, then none, then all. *)
Definition accepted (q : list rd) : state GentRedis (World (gmap bytes bytes) change_log) :=
  {| conn := {| fd := 7; rbuf := Some (replicate (Z.to_nat READ_BUFFER_SIZE) 0); rsize := READ_BUFFER_SIZE;
                Connect.content := None; rcont := 0; cbuf := None; csize := 0; cbytes := 0; outstr := []; sendsize := 0;
                cursendsize := 0; remainsize := 0; actualsize := 0; ev_flags := EvRead |};
     comm := fresh; net := {| inq := q; outq := [SdTake 3; SdAgain]; sent := [] |}; world := empty_world |}.

Definition noon : env := {| now := 1700000000; rnd := 0; info := [] |}.

Lemma accepted_at_rest q : at_rest fresh empty_world q [] (accepted q).
Proof.
  split; [|do 4 (split; [done|]); repeat (apply Forall_cons; split; [done|]); by apply Forall_nil].
  split; try done. split; try done. eexists. split; [done|]. by vm_compute.
Qed.

Lemma connection_serves_witness :
  ∃ c' st', rtc kept
              (accepted [RdAgain; RdData (resp [str "ping"])]) st' ∧
    at_rest c' empty_world [] (str "+PONG" ++ crlf) st'.
Proof.
  eexists.
  refine (connection_serves (λ _, eq_refl)
    fresh empty_world [RdAgain; RdData (resp [str "ping"])] (str "+PONG" ++ crlf) _ empty_world []
    (accepted [RdAgain; RdData (resp [str "ping"])]) [] _ (accepted_at_rest _)).
  apply (conversation_pause noon). rewrite <- (app_nil_r (str "+PONG" ++ crlf)).
  eapply (conversation_request noon); [done|done| |apply conversation_end].
  eapply (dialogue_data noon _ _ _ 0); [by vm_compute|done|by vm_compute|done].
Defined.

Lemma InitRead_bounds_witness :
  ∃ n k st' b' d, InitRead 0 (accepted [RdData (replicate 5000 1); RdAgain; RdErr]) = Ok (n, k, st') ∧ rbuf (conn st') = Some b' ∧
    zlen b' = rsize (conn st') ∧ READ_BUFFER_SIZE ≤ rsize (conn st') ≤ 16 * READ_BUFFER_SIZE ∧
    data_of [RdData (replicate 5000 1); RdAgain; RdErr] = d ++ data_of (inq (net st')) ∧
    take (Z.to_nat (0 + zlen d)) b' = [] ++ d ∧
    (n < 0 ∨ n = 0 ∨ n = 1) ∧ k = (if n =? -2 then 0 else 0 + zlen d) ∧ 0 + zlen d ≤ rsize (conn st').
Proof.
  refine (InitRead_bounds 0
    (accepted [RdData (replicate 5000 1); RdAgain; RdErr]) _ eq_refl _ _ _); [by vm_compute|done|done].
Defined.

Lemma set_get_over_socket_witness :
  ∃ r' w' st', rtc kept
      (accepted (RdData (set_header (str "set") (str "k") 4 ++ [CR]) ::
         [RdAgain; RdData [LF; 0]; RdAgain; RdData ([255] ++ crlf); RdAgain; RdData (resp [str "get"; str "k"])])) st' ∧
    at_rest r' w' []
      ([] ++ (str "+OK" ++ crlf) ++ bulk [CR; LF; 0; 255]) st' ∧ mgr w' = [(ADD, str "k")].
Proof.
  refine (@set_get_over_socket (gmap bytes bytes) _ _ change_log _ calloc_all no_auth true noon (str "k") [CR; LF; 0; 255] [CR]
    [RdAgain; RdData [LF; 0]; RdAgain; RdData ([255] ++ crlf); RdAgain; RdData (resp [str "get"; str "k"])] [] []
    fresh empty_world _ (λ _, eq_refl) _ _ _ _ _ _ _ _ _ _ (accepted_at_rest _));
    [by right|done|done|token_solve|done|done|by vm_compute|by vm_compute|split; by vm_compute|].
  eapply (set_in_pieces _ _ _ [LF; 0; 255]); [done|].
  apply arrives_pause; [done|]. apply (arrives_piece 3 [LF; 0] _ [255]); [done|]. apply arrives_pause; [done|].
  exact (arrives_cut 1 ([255] ++ crlf) _ ltac:(done)).
Defined.
