(* ===== verification/RepFile.v ===== *)
(** * The file of the known slaves (gent_file.h and repinfo of gent_repl.h)

    [REPLICATION_INFO] is a mapped file of 1024 slots of 71 bytes: a flag, two
    times of ten digits and a name. [GentFile] keeps a decoded [repinfo] per
    slot; the pointers to them that the replication holds are slot numbers
    here, since they all point into one vector. *)

From S2P Require Import Prelude Cstd Db Cmem.

Module RepFile.

Definition SLAVE_NAME_SIZE : Z := 50.
Definition SLAVE_NUM : Z := 1024.

(** [repinfo] with its [pageitem] part; [head] is an offset into the mapping. *)
Record repinfo := {
  head : Z;
  available : Z;
  name : bytes;
  rep_time : Z;
  ser_time : Z
}.

(** [size()]. *)
Definition item_size : Z := SLAVE_NAME_SIZE + 21.

(** [init(str)]. Ten of the eleven bytes of [tt] are set; [behind] is what
    happens to stand behind them. *)
Definition repinfo_init (page : bytes) (h : Z) (behind : bytes) : result repinfo :=
  t ← slice page h 1;
  tt ← slice page (h + 1) 10;
  tt' ← slice page (h + 11) 10;
  n ← slice page (h + 21) SLAVE_NAME_SIZE;
  Ok {| head := h; available := u32 (atoi t); ser_time := u32 (atoi (tt ++ behind));
        rep_time := u32 (atoi (tt' ++ behind)); name := n |}.

(** The array [name] read as a C string: one without a terminator is read
    past its end. *)
Definition name_str (r : repinfo) : result bytes :=
  if mem (name r) 0 then Ok (cstr (name r)) else Fault OutOfBounds.

Definition time_text (t : Z) : bytes := if t =? 0 then str "0000000000" else snprintf 12 (udec t).

Definition tostring (r : repinfo) : result bytes :=
  n ← name_str r;
  Ok (snprintf 100 (udec (available r) ++ time_text (ser_time r) ++ time_text (rep_time r) ++ n)).

(** [set(nstr)]: the padding adds empty strings, so that [memcpy] reads past
    the end of a short name; [behind] is what stands there. *)
Definition set_name (nstr behind : bytes) (r : repinfo) (page : bytes) : result (repinfo * bytes) :=
  n ← slice (nstr ++ 0 :: behind) 0 SLAVE_NAME_SIZE;
  let r := {| head := head r; available := 1; name := n; rep_time := 0; ser_time := 0 |} in
  w ← tostring r;
  page ← blit page (head r) w;
  Ok (r, page).

(** [buf], twelve zero bytes that [snprintf(buf, ln, "%llu", val)] writes
    into, of which [ln] are copied. *)
Definition num_field (ln val : Z) : bytes :=
  take (Z.to_nat ln) (snprintf ln (udec (u64 val)) ++ replicate 12 0).

(** [set(fieldname, val)]. *)
Definition set_ser_time (val : Z) (r : repinfo) (page : bytes) : result (repinfo * bytes) :=
  page ← blit page (head r + 1) (num_field 10 val);
  Ok ({| head := head r; available := available r; name := name r; rep_time := rep_time r; ser_time := u32 val |}, page).
Definition set_rep_time (val : Z) (r : repinfo) (page : bytes) : result (repinfo * bytes) :=
  page ← blit page (head r + 11) (num_field 10 val);
  Ok ({| head := head r; available := available r; name := name r; rep_time := u32 val; ser_time := ser_time r |}, page).
Definition set_available (val : Z) (r : repinfo) (page : bytes) : result (repinfo * bytes) :=
  page ← blit page (head r) (num_field 1 val);
  Ok ({| head := head r; available := u32 val; name := name r; rep_time := rep_time r; ser_time := ser_time r |}, page).

Definition set_field (field : bytes) (val : Z) (r : repinfo) (page : bytes) : result (repinfo * bytes) :=
  if bool_decide (field = str "ser_time") then set_ser_time val r page
  else if bool_decide (field = str "rep_time") then set_rep_time val r page
  else if bool_decide (field = str "available") then set_available val r page
  else Ok (r, page).

(** The mapping, the decoded slots, and the slots by name. *)
Record GentFile := {
  page : bytes;
  head_list : list repinfo;
  rep_map_list : gmap bytes nat
}.

(** The size of the mapping, where a page of memory has [page_size] bytes. *)
Definition file_size (page_size length : Z) : Z :=
  u32 (u32 (item_size * length / page_size + 1) * page_size).

Definition set_slot (i : nat) (r : repinfo) (pg : bytes) (f : GentFile) : GentFile :=
  {| page := pg; head_list := <[i := r]> (head_list f); rep_map_list := rep_map_list f |}.

(** The pointer dereferenced. *)
Definition slot (i : nat) (f : GentFile) : result repinfo :=
  match head_list f !! i with Some r => Ok r | None => Fault OutOfBounds end.

(** The loop of [Init] over [n] slots from number [i] on. *)
Fixpoint load_slots (n i : nat) (behind : bytes) (lead_rep : gmap bytes nat) (f : GentFile)
    : result (gmap bytes nat * GentFile) :=
  match n with
  | O => Ok (lead_rep, f)
  | S n =>
      c ← repinfo_init (page f) (item_size * Z.of_nat i) behind;
      let f := {| page := page f; head_list := head_list f ++ [c]; rep_map_list := rep_map_list f |} in
      if available c =? 0 then load_slots n (S i) behind lead_rep f
      else
        k ← name_str c;
        load_slots n (S i) behind (<[k := i]> lead_rep)
          {| page := page f; head_list := head_list f; rep_map_list := <[k := i]> (rep_map_list f) |}
  end.

(** [Init] with the file's contents, an empty file being extended with zeros;
    the calls on the file succeed. *)
Definition Init (page_size length : Z) (file behind : bytes) : result (gmap bytes nat * GentFile) :=
  let pg := if bool_decide (file = []) then replicate (Z.to_nat (file_size page_size length)) 0 else file in
  load_slots (Z.to_nat length) 0 behind ∅ {| page := pg; head_list := []; rep_map_list := ∅ |}.

(** The first slot that satisfies [p]. *)
Fixpoint find_slot (p : repinfo → result bool) (l : list repinfo) (i : nat) : result (option nat) :=
  match l with
  | [] => Ok None
  | r :: l => b ← p r; if (b : bool) then Ok (Some i) else find_slot p l (S i)
  end.

(** [AddItem(str)]: the slot that has the name, or a free one. *)
Definition AddItem (nm behind : bytes) (f : GentFile) : result (option nat * GentFile) :=
  match rep_map_list f !! nm with
  | Some i => Ok (Some i, f)
  | None =>
      o ← find_slot (λ r, Ok (available r =? 0)) (head_list f) 0;
      match o with
      | None => Ok (None, f)
      | Some i =>
          r ← slot i f;
          '(r, pg) ← set_name nm behind r (page f);
          let f := set_slot i r pg f in
          Ok (Some i, {| page := page f; head_list := head_list f; rep_map_list := <[nm := i]> (rep_map_list f) |})
      end
  end.

(** [DelItem(name)]. *)
Definition DelItem (nm : bytes) (f : GentFile) : result (bool * GentFile) :=
  o ← find_slot (λ r, n ← name_str r; Ok (bool_decide (n = nm))) (head_list f) 0;
  match o with
  | None => Ok (false, f)
  | Some i =>
      r ← slot i f;
      '(r, pg) ← set_available 0 r (page f);
      let f := set_slot i r pg f in
      Ok (true, {| page := page f; head_list := head_list f; rep_map_list := delete nm (rep_map_list f) |})
  end.

(** [rinfo_->set(fieldname, val)] through a pointer to slot [i]. *)
Definition set_info (i : nat) (field : bytes) (val : Z) (f : GentFile) : result GentFile :=
  r ← slot i f;
  '(r, pg) ← set_field field val r (page f);
  Ok (set_slot i r pg f).
End RepFile.

(** * What the file of the slaves keeps

    A slave that was added to an empty file is found again, under its name
    and in its slot, when the file is opened next; the times written are read
    back without their last digit. *)
Import RepFile Db.

Lemma slice_zeros (w : bytes) (k : nat) off n :
  zlen w ≤ off → 0 ≤ n → off + n ≤ zlen w + Z.of_nat k → slice (w ++ replicate k 0) off n = Ok (replicate (Z.to_nat n) 0).
Proof.
  intros Ho Hn Hk. pose proof (zlen_nonneg w). rewrite slice_ok by (rewrite ?zlen_app; unfold zlen in *; rewrite ?length_replicate; lia).
  f_equal. rewrite drop_app_ge by (unfold zlen in *; lia). rewrite drop_replicate, take_replicate. f_equal. unfold zlen in *. lia.
Qed.

(** A slot of zeros is free. *)
Lemma zero_slot w k h behind :
  zlen w ≤ h → h + item_size ≤ zlen w + Z.of_nat k → ∃ r, repinfo_init (w ++ replicate k 0) h behind = Ok r ∧ available r = 0 ∧ head r = h.
Proof.
  intros Hh Hk. unfold item_size, SLAVE_NAME_SIZE in Hk. unfold repinfo_init, SLAVE_NAME_SIZE.
  rewrite !slice_zeros by lia. rbind. by eexists.
Qed.

(** The slots from [i] on, all of zeros. *)
Lemma load_zeros w k behind : ∀ n i lead (f : GentFile),
  page f = w ++ replicate k 0 → zlen w ≤ item_size * Z.of_nat i → item_size * (Z.of_nat i + Z.of_nat n) ≤ zlen w + Z.of_nat k →
  ∃ l, load_slots n i behind lead f = Ok (lead, {| page := page f; head_list := head_list f ++ l; rep_map_list := rep_map_list f |}) ∧
    length l = n ∧ Forall (λ r, available r = 0) l ∧ ∀ r, hd_error l = Some r → head r = item_size * Z.of_nat i.
Proof.
  induction n as [|n IH]; intros i lead f Hp Hw Hk; cbn [load_slots].
  { exists []. rewrite app_nil_r. by destruct f. }
  destruct (zero_slot w k (item_size * Z.of_nat i) behind) as (r & E & Ha & Hh); [done|unfold item_size, SLAVE_NAME_SIZE in *; lia|].
  rewrite Hp, E. rbind. rewrite Ha. cbn [Z.eqb].
  destruct (IH (S i) lead {| page := page f; head_list := head_list f ++ [r]; rep_map_list := rep_map_list f |} Hp) as (l & E' & Hl & Hall & _); [unfold item_size, SLAVE_NAME_SIZE in *; lia..|].
  rewrite <- Hp, E'. exists (r :: l). cbn [page head_list rep_map_list length]. rewrite <- app_assoc. split; [done|]. split; [lia|].
  split; [by constructor|]. by intros ? [= <-].
Qed.

(** Names that fit a slot with their terminator. *)
Definition good_name (nm : bytes) : Prop := Forall (λ b, b ≠ 0) nm ∧ zlen nm < SLAVE_NAME_SIZE.

Lemma cstr_name nm t : Forall (λ b, b ≠ 0) nm → cstr (nm ++ 0 :: t) = nm.
Proof. induction 1 as [|b nm Hb _ IH]; [done|]. cbn. rewrite (proj2 (Z.eqb_neq b 0)) by done. by rewrite IH. Qed.

Lemma mem_terminated nm t : mem (nm ++ 0 :: t) 0 = true.
Proof. unfold mem. rewrite existsb_app. apply orb_true_r. Qed.

(** The text of a new slot. *)
Definition slot_text (nm : bytes) : bytes := str "1" ++ str "0000000000" ++ str "0000000000" ++ nm.

Lemma set_name_ok nm behind r pg :
  good_name nm → SLAVE_NAME_SIZE ≤ zlen behind → set_name nm behind r pg =
    (pg' ← blit pg (head r) (slot_text nm);
     Ok ({| head := head r; available := 1; name := take 50 (nm ++ 0 :: behind); rep_time := 0; ser_time := 0 |}, pg')).
Proof.
  intros [Hz Hl] Hb. unfold SLAVE_NAME_SIZE in *. pose proof (zlen_nonneg nm). unfold set_name, SLAVE_NAME_SIZE.
  rewrite slice_ok by (rewrite ?zlen_app, ?zlen_cons; lia). rewrite drop_0. rbind. change (Z.to_nat 50) with 50%nat.
  assert (take 50 (nm ++ 0 :: behind) = nm ++ 0 :: take (49 - length nm) behind) as ->.
  { rewrite take_app, (take_ge nm) by (unfold zlen in *; lia).
    by replace (50 - length nm)%nat with (S (49 - length nm)) by (unfold zlen in *; lia). }
  unfold tostring, name_str. cbn [name available ser_time rep_time head]. rewrite mem_terminated, (cstr_name nm _ Hz). rbind.
  unfold time_text. cbn [Z.eqb]. change (udec 1) with (str "1"). unfold snprintf. rewrite (take_ge (str "1" ++ _)); [by fold (slot_text nm)|].
  rewrite !length_app. change (length (str "1")) with 1%nat. change (length (str "0000000000")) with 10%nat. unfold zlen in *. lia.
Qed.

(** The first slot read back. *)
Lemma read_slot nm k behind :
  good_name nm → item_size ≤ zlen (slot_text nm) + Z.of_nat k →
  ∃ r, repinfo_init (slot_text nm ++ replicate k 0) 0 behind = Ok r ∧ available r = 1 ∧ head r = 0 ∧ name_str r = Ok nm.
Proof.
  intros [Hz Hl] Hk. unfold item_size, SLAVE_NAME_SIZE in *. pose proof (zlen_nonneg nm).
  assert (zlen (slot_text nm) = 21 + zlen nm) as Hlen by (unfold slot_text; rewrite !zlen_app; change (zlen (str "1")) with 1; change (zlen (str "0000000000")) with 10; lia).
  unfold repinfo_init, SLAVE_NAME_SIZE. rewrite !Z.add_0_l.
  assert (slot_text nm ++ replicate k 0 = str "1" ++ str "0000000000" ++ str "0000000000" ++ (nm ++ replicate k 0)) as Et by (unfold slot_text; by rewrite <- !app_assoc).
  assert (slice (slot_text nm ++ replicate k 0) 0 1 = Ok (str "1")) as -> by (rewrite Et; by apply slice_prefix). rbind.
  assert (slice (slot_text nm ++ replicate k 0) 1 10 = Ok (str "0000000000")) as -> by (rewrite Et; by apply slice_app). rbind.
  assert (slice (slot_text nm ++ replicate k 0) 11 10 = Ok (str "0000000000")) as ->.
  { rewrite Et, (app_assoc (str "1")). by apply slice_app. }
  rbind. assert (slice (slot_text nm ++ replicate k 0) 21 50 = Ok (nm ++ replicate (50 - length nm) 0)) as ->.
  { rewrite Et. rewrite (app_assoc (str "1")), (app_assoc (str "1" ++ _)).
    assert (replicate k 0 = replicate (50 - length nm) 0 ++ replicate (k - (50 - length nm)) 0) as ->
      by (rewrite <- replicate_add; f_equal; unfold zlen in *; lia).
    rewrite (app_assoc nm). apply slice_app; [done|]. unfold zlen in *. rewrite length_app, length_replicate. lia. }
  rbind. eexists. split; [done|]. split; [done|]. split; [done|]. unfold name_str. cbn [name].
  assert (replicate (50 - length nm) 0 = 0 :: replicate (49 - length nm) 0) as ->.
  { replace (50 - length nm)%nat with (S (49 - length nm)) by (unfold zlen in *; lia). done. }
  by rewrite mem_terminated, cstr_name.
Qed.

(** a slave survives a restart. When the file is made anew and a slave is
    added, it gets the first slot; and when the file is opened again, in a
    later run, exactly that slave is found, under its name and in the first
    slot, and all the other slots are free. *)
Theorem slave_survives_restart page_size n behind1 behind2 behind3 nm :
  0 < n → item_size * n ≤ file_size page_size n → good_name nm → SLAVE_NAME_SIZE ≤ zlen behind2 →
  ∃ f f1 f2, Init page_size n [] behind1 = Ok (∅, f) ∧ AddItem nm behind2 f = Ok (Some 0%nat, f1) ∧
    Init page_size n (page f1) behind3 = Ok ({[ nm := 0%nat ]}, f2) ∧ rep_map_list f2 !! nm = Some 0%nat ∧
    (∃ r, slot 0 f2 = Ok r ∧ available r = 1 ∧ name_str r = Ok nm) ∧ Forall (λ r, available r = 0) (tail (head_list f2)).
Proof.
  intros Hn Hsize Hnm Hb. pose proof Hnm as [Hnz Hnl]. set (size := Z.to_nat (file_size page_size n)).
  assert (0 ≤ file_size page_size n) by (apply u32_range). unfold item_size, SLAVE_NAME_SIZE in Hsize.
  assert (zlen (slot_text nm) = 21 + zlen nm) as Hlen by (unfold slot_text; rewrite !zlen_app; change (zlen (str "1")) with 1; change (zlen (str "0000000000")) with 10; lia).
  unfold SLAVE_NAME_SIZE in Hnl. pose proof (zlen_nonneg nm).
  destruct (load_zeros [] size behind1 (Z.to_nat n) 0 ∅ {| page := replicate size 0; head_list := []; rep_map_list := ∅ |}) as (l & E1 & Hl & Hfree & Hhd);
    [done|done|unfold item_size, SLAVE_NAME_SIZE; change (zlen []) with 0; lia|]. cbn [app page head_list rep_map_list] in E1.
  destruct l as [|r0 l]; [cbn in Hl; lia|]. apply Forall_cons in Hfree as [Hf0 Hfree]. specialize (Hhd r0 eq_refl). rewrite Z.mul_0_r in Hhd.
  set (f := {| page := replicate size 0; head_list := r0 :: l; rep_map_list := ∅ |}) in *. set (k := (size - length (slot_text nm))%nat).
  assert (blit (replicate size 0) 0 (slot_text nm) = Ok (slot_text nm ++ replicate k 0)) as Eb.
  { unfold blit. rewrite (proj2 (Z.leb_le 0 0)), (proj2 (Z.leb_le (0 + _) _)) by (unfold zlen in *; rewrite ?length_replicate; lia).
    cbn [andb Z.to_nat]. by rewrite take_0, drop_replicate. }
  assert (AddItem nm behind2 f = Ok (Some 0%nat, {| page := slot_text nm ++ replicate k 0;
    head_list := {| head := 0; available := 1; name := take 50 (nm ++ 0 :: behind2); rep_time := 0; ser_time := 0 |} :: l; rep_map_list := {[ nm := 0%nat ]} |})) as E2.
  { unfold AddItem. subst f. cbn [rep_map_list head_list page]. rewrite lookup_empty. cbn [find_slot]. rbind. rewrite Hf0. cbn [Z.eqb]. rbind.
    cbn [slot head_list lookup list_lookup]. rbind. rewrite set_name_ok by done. rewrite Hhd, Eb. rbind. done. }
  destruct (read_slot nm k behind3 Hnm) as (r & Er & Ha & Hh & Hname); [subst k; unfold item_size, SLAVE_NAME_SIZE, zlen in *; lia|].
  destruct (load_zeros (slot_text nm) k behind3 (Z.to_nat n - 1) 1 {[ nm := 0%nat ]}
    {| page := slot_text nm ++ replicate k 0; head_list := [r]; rep_map_list := {[ nm := 0%nat ]} |}) as (l2 & E3 & Hl2 & Hfree2 & _);
    [done|unfold item_size, SLAVE_NAME_SIZE; lia|subst k; unfold item_size, SLAVE_NAME_SIZE, zlen in *; lia|].
  exists f. eexists _, _. split; [unfold Init; rewrite bool_decide_eq_true_2 by done; exact E1|]. split; [exact E2|]. cbn [page].
  split; [|split; [|split]].
  - unfold Init. rewrite bool_decide_eq_false_2 by (by unfold slot_text). replace (Z.to_nat n) with (S (Z.to_nat n - 1)) by lia.
    cbn [load_slots page head_list rep_map_list]. rewrite Z.mul_0_r, Er. rbind. rewrite Ha. cbn [Z.eqb]. rewrite Hname. rbind. cbn [app]. exact E3.
  - cbn. by rewrite lookup_singleton_eq.
  - exists r. done.
  - done.
Qed.

Lemma slave_survives_restart_witness :
  ∃ f f1 f2, Init 4096 SLAVE_NUM [] [] = Ok (∅, f) ∧ AddItem (str "slave-1") (replicate 50 7) f = Ok (Some 0%nat, f1) ∧
    Init 4096 SLAVE_NUM (page f1) [] = Ok ({[ str "slave-1" := 0%nat ]}, f2) ∧ rep_map_list f2 !! str "slave-1" = Some 0%nat ∧
    (∃ r, slot 0 f2 = Ok r ∧ available r = 1 ∧ name_str r = Ok (str "slave-1")) ∧ Forall (λ r, available r = 0) (tail (head_list f2)).
Proof.
  refine (slave_survives_restart 4096 SLAVE_NUM [] (replicate 50 7) [] (str "slave-1") _ _ _ _); [done|by vm_compute|split; [by repeat constructor|done]|done].
Defined.

(** ** Defects *)

(** A time of ten digits is written with nine of them, and read back as a
    tenth of it. *)
Lemma time_loses_digit t behind : ten_digits t → num_field 10 t = take 9 (udec t) ++ [0] ∧ u32 (atoi (num_field 10 t ++ behind)) = t / 10.
Proof.
  intros Ht. unfold ten_digits in Ht. pose proof (udec_len10 t Ht) as Hl. pose proof (udec_digits t ltac:(lia)) as Hd.
  assert (num_field 10 t = take 9 (udec t) ++ [0]) as E.
  { unfold num_field, snprintf. rewrite u64_small by lia. change (Z.to_nat (10 - 1)) with 9%nat. change (Z.to_nat 10) with 10%nat.
    rewrite take_app, (take_ge (take 9 _)) by (rewrite length_take; lia). f_equal. rewrite length_take. unfold zlen in Hl.
    replace (10 - 9 `min` length (udec t))%nat with 1%nat by lia. done. }
  split; [done|]. rewrite E, <- app_assoc. cbn [app].
  assert (digits_value (take 9 (udec t)) 0 = t / 10) as Hv.
  { pose proof (udec_value t ltac:(lia)) as Hv. rewrite <- (take_drop 9 (udec t)) in Hv. unfold digits_value in *. rewrite fold_left_app in Hv.
    assert (Forall (λ c, isdigit c = true) (drop 9 (udec t))) as Hd9 by (by apply Forall_drop).
    destruct (drop 9 (udec t)) as [|c [|c' r]] eqn:Edrop; apply (f_equal length) in Edrop as Elen; rewrite length_drop in Elen; unfold zlen in Hl; cbn [length] in Elen; try lia.
    apply Forall_cons in Hd9 as [Hc _]. unfold isdigit in Hc. cbn [fold_left] in Hv. apply Z.div_unique with (c - 48); lia. }
  rewrite atoi_digits; [rewrite Hv, u32_small; [done|]|by apply Forall_take| |done|rewrite Hv].
  - split; [apply Z.div_pos; lia|apply Z.div_lt_upper_bound; lia].
  - intros E0. apply (f_equal length) in E0. rewrite length_take in E0. unfold zlen in Hl. cbn [length] in E0. lia.
  - apply Z.div_lt_upper_bound; lia.
Qed.

(** A slot that is taken over by a shorter name keeps the end of the old one
    in the file, and the next run knows the slave by another name. *)
Lemma reused_slot_mixes_names :
  (x ← Init 4096 1 [] []; '(_, f) ← AddItem (str "replica") (replicate 50 0) x.2; '(_, f) ← DelItem (str "replica") f;
   '(_, f) ← AddItem (str "s1") (replicate 50 0) f; y ← Init 4096 1 (page f) []; Ok y.1) = Ok {[ str "s1plica" := 0%nat ]}.
Proof. by vm_compute. Qed.
