(* ===== verification/Repl.v ===== *)
(** * Replication to the slaves (gent_repl.h, gent_repl.cpp)

    [GentReplication] is the master's log for one slave: the changed keys in
    the order of the changes, in a queue of pointers to [itemData]. A slave
    asks with [rep name ok]; [Start] drops what the previous reply covered,
    reads the current values of the next keys and answers with a command for
    the slave. [GentRepMgr] holds the logs by the name of the slave and, on a
    slave, the connection to the master. *)

From S2P Require Import Prelude Cstd Cmem LevelDb QueueList Config RepFile.

Module Repl.
Import RepFile.

(** [itemData::ADD] and [DEL]. *)
Definition ADD : Z := 0.
Definition DEL : Z := 1.
Definition SYNC_NUM : Z := 2.

(** [itemData], which lives behind a pointer: the queue and the vector of
    [Start] share it. *)
Record itemData := { iname : bytes; itype : Z; itm : Z; is_sync : bool }.
Definition setSync (d : itemData) : itemData := {| iname := iname d; itype := itype d; itm := itm d; is_sync := true |}.

Abbreviation loc := Z.

(** What the logs share: the items and the file of the slaves. *)
Record mem := { items : gmap loc itemData; rfile : GentFile }.

Definition get_item (p : loc) (m : mem) : result itemData :=
  match items m !! p with Some d => Ok d | None => Fault OutOfBounds end.
Definition put_item (p : loc) (d : itemData) (m : mem) : mem := {| items := <[p := d]> (items m); rfile := rfile m |}.

(** [new itemData(key, type)]. *)
Definition new_item (now : Z) (key : bytes) (type : Z) (m : mem) : loc * mem :=
  let p := fresh (dom (items m) : gset loc) in
  (p, put_item p {| iname := key; itype := type; itm := i32 now; is_sync := false |} m).

(** [delete it]. *)
Definition delete_item (p : loc) (m : mem) : result mem :=
  _ ← get_item p m; Ok {| items := delete p (items m); rfile := rfile m |}.

(** [it->setSync()]. *)
Definition mark_item (p : loc) (m : mem) : result mem := d ← get_item p m; Ok (put_item p (setSync d) m).

Definition set_rinfo (i : nat) (field : bytes) (val : Z) (m : mem) : result mem :=
  f ← set_info i field val (rfile m); Ok {| items := items m; rfile := f |}.

(** What the logs look up in a connection they point to. *)
Record conns := { fd_of : Z → Z; status_of : Z → bytes; ip_of : Z → bytes }.

(** ** The texts of the replies *)

(** [Reply]: the header goes through a buffer of 300 bytes. *)
Definition Reply (type : Z) (key nr : bytes) (expire : Z) : bytes :=
  if type =? ADD then
    if expire =? 0 then
      snprintf 300 (str "*3" ++ crlf ++ str "$3" ++ crlf ++ str "set" ++ crlf ++ str "$" ++ udec (zlen key) ++ crlf ++
                    cstr key ++ crlf ++ str "$" ++ udec (zlen nr) ++ crlf) ++ nr ++ crlf
    else
      let expstr := snprintf 20 (udec expire) in
      snprintf 300 (str "*4" ++ crlf ++ str "$5" ++ crlf ++ str "setex" ++ crlf ++ str "$" ++ udec (zlen key) ++ crlf ++
                    cstr key ++ crlf ++ str "$" ++ udec (zlen expstr) ++ crlf ++ expstr ++ crlf ++
                    str "$" ++ udec (zlen nr) ++ crlf) ++ nr ++ crlf
  else if type =? DEL then
    snprintf 300 (str "*2" ++ crlf ++ str "$3" ++ crlf ++ str "del" ++ crlf ++ str "$" ++ udec (zlen key) ++ crlf ++
                  cstr key ++ crlf)
  else [].

(** [ReplyItem]: here the buffer has 100 bytes. *)
Definition ReplyItem (key nr : bytes) : bytes :=
  snprintf 100 (str "$" ++ udec (zlen key) ++ crlf ++ cstr key ++ crlf ++ str "$" ++ udec (zlen nr) ++ crlf) ++ nr ++ crlf.

Definition MsetReply (outstr : bytes) (num : Z) : bytes :=
  snprintf 30 (str "*" ++ sdec (i32 (num * 2 + 1)) ++ crlf ++ str "$4" ++ crlf ++ str "mset" ++ crlf) ++ outstr.

Definition reply_authok : bytes :=
  str "*2" ++ crlf ++ str "$5" ++ crlf ++ str "reply" ++ crlf ++ str "$6" ++ crlf ++ str "authok" ++ crlf.
Definition reply_autherror : bytes :=
  str "*2" ++ crlf ++ str "$5" ++ crlf ++ str "reply" ++ crlf ++ str "$9" ++ crlf ++ str "autherror" ++ crlf.
Definition reply_close : bytes :=
  str "*2" ++ crlf ++ str "$5" ++ crlf ++ str "reply" ++ crlf ++ str "$5" ++ crlf ++ str "close" ++ crlf.

Section replication.
Context `{FifoQueue loc Q}.

Record GentReplication := {
  rep_name : bytes;
  is_run : bool;
  status : Z;
  is_update_que : bool;
  slave_ip : bytes;
  main_que : Q;
  que : Q;
  main_que_length : Z;
  rinfo : nat;
  slave_start_time : Z;
  slave_last_time : Z;
  conn_ : option Z
}.

Definition set_queues (upd : bool) (mq q : Q) (len : Z) (r : GentReplication) : GentReplication :=
  {| rep_name := rep_name r; is_run := is_run r; status := status r; is_update_que := upd; slave_ip := slave_ip r;
     main_que := mq; que := q; main_que_length := len; rinfo := rinfo r; slave_start_time := slave_start_time r;
     slave_last_time := slave_last_time r; conn_ := conn_ r |}.
Definition set_status (s : Z) (r : GentReplication) : GentReplication :=
  {| rep_name := rep_name r; is_run := is_run r; status := s; is_update_que := is_update_que r; slave_ip := slave_ip r;
     main_que := main_que r; que := que r; main_que_length := main_que_length r; rinfo := rinfo r;
     slave_start_time := slave_start_time r; slave_last_time := slave_last_time r; conn_ := conn_ r |}.
Definition set_conn (c : option Z) (ip : bytes) (last : Z) (r : GentReplication) : GentReplication :=
  {| rep_name := rep_name r; is_run := is_run r; status := status r; is_update_que := is_update_que r; slave_ip := ip;
     main_que := main_que r; que := que r; main_que_length := main_que_length r; rinfo := rinfo r;
     slave_start_time := slave_start_time r; slave_last_time := last; conn_ := c |}.

(** The keys of the store put into [que] by the constructor. *)
Fixpoint queue_keys (now : Z) (keys : list bytes) (q : Q) (len : Z) (m : mem) : result (Q * Z * mem) :=
  match keys with
  | [] => Ok (q, len, m)
  | k :: keys =>
      let '(p, m) := new_item now k ADD m in
      q ← fq_push p q;
      queue_keys now keys q (u64 (len + 1)) m
  end.

(** The constructor; [keys] are the keys of the store. It leaves
    [is_update_que], [slave_last_time] and [conn_] as they are in memory:
    [upd0], [last0] and [conn0]. *)
Definition GentReplication_new (now : Z) (nm : bytes) (info : nat) (is_sync_all : bool) (keys : list bytes)
    (upd0 : bool) (last0 : Z) (conn0 : option Z) (m : mem) : result (GentReplication * mem) :=
  let r := {| rep_name := nm; is_run := true; status := 0; is_update_que := upd0; slave_ip := []; main_que := fq_new;
              que := fq_new; main_que_length := 0; rinfo := info; slave_start_time := now; slave_last_time := last0;
              conn_ := conn0 |} in
  i ← slot info (rfile m);
  if ((ser_time i =? 0) || (rep_time i <? ser_time i)) && is_sync_all then
    '(q, len, m) ← queue_keys now keys (que r) 0 m;
    m ← (if ser_time i =? 0 then set_rinfo info (str "ser_time") now m else Ok m);
    Ok (set_queues true (main_que r) q len r, m)
  else Ok (r, m).

(** [Push]: the flag says that the master thread is notified. *)
Definition Push (now : Z) (cs : conns) (type : Z) (key : bytes) (r : GentReplication) (m : mem)
    : result (bool * GentReplication * mem) :=
  if negb (is_run r) then Ok (false, r, m)
  else
    let '(p, m) := new_item now key type m in
    mq ← fq_push p (main_que r);
    let notify := (main_que_length r =? 0) && match conn_ r with Some c => 0 <? fd_of cs c | None => false end in
    m ← set_rinfo (rinfo r) (str "ser_time") now m;
    Ok (notify, set_queues (is_update_que r) mq (que r) (u64 (main_que_length r + 1)) r, m).

(** The loop of [Pop] over [main_que], with [num] rounds left, and what [it]
    is at the end. *)
Fixpoint Pop_main (num : nat) (now : Z) (is_rep : bool) (r : GentReplication) (m : mem)
    : result (option loc * GentReplication * mem) :=
  match num with
  | O => Ok (None, r, m)
  | S num =>
      it ← fq_front_element (main_que r);
      match it with
      | None => Ok (None, r, m)
      | Some p =>
          d ← get_item p m;
          if negb (is_sync d) then Ok (Some p, r, m)
          else
            '(it, mq) ← fq_pop (main_que r);
            m ← (if is_rep then set_rinfo (rinfo r) (str "rep_time") now m else Ok m);
            m ← (match it with Some p => delete_item p m | None => Ok m end);
            Pop_main num now is_rep (set_queues (is_update_que r) mq (que r) (u64 (main_que_length r - 1)) r) m
      end
  end.

(** The loop over [que]. *)
Fixpoint Pop_que (num : nat) (now : Z) (is_rep : bool) (r : GentReplication) (m : mem)
    : result (option loc * GentReplication * mem) :=
  match num with
  | O => Ok (None, r, m)
  | S num =>
      it ← fq_front_element (que r);
      match it with
      | None => Ok (None, r, m)
      | Some p =>
          d ← get_item p m;
          if negb (is_sync d) then Ok (Some p, r, m)
          else
            '(it, q) ← fq_pop (que r);
            i ← slot (rinfo r) (rfile m);
            m ← (if bool_decide (it = None) && (rep_time i =? 0) && is_rep then set_rinfo (rinfo r) (str "rep_time") now m else Ok m);
            m ← (match it with Some p => delete_item p m | None => Ok m end);
            Pop_que num now is_rep (set_queues (is_update_que r) (main_que r) q (u64 (main_que_length r - 1)) r) m
      end
  end.

Definition Pop (now : Z) (is_rep : bool) (r : GentReplication) (m : mem) : result (GentReplication * mem) :=
  let num := Z.to_nat (SYNC_NUM * 2) in
  '(it, r, m) ← (if negb (is_update_que r) then Pop_main num now is_rep r m else Pop_que num now is_rep r m);
  m ← (match it with
       | Some p => d ← get_item p m; if is_sync d then delete_item p m else Ok m
       | None => Ok m
       end);
  Ok (r, m).

(** The full synchronisation is over: [que] is empty. *)
Definition leave_update (now : Z) (r : GentReplication) (m : mem) : result (GentReplication * mem) :=
  i ← slot (rinfo r) (rfile m);
  m ← (if rep_time i =? 0 then set_rinfo (rinfo r) (str "rep_time") now m else Ok m);
  Ok (set_queues false (main_que r) (que r) (main_que_length r) r, m).

Definition front_element (now : Z) (r : GentReplication) (m : mem) : result (option loc * GentReplication * mem) :=
  if negb (is_update_que r) then it ← fq_front_element (main_que r); Ok (it, r, m)
  else
    it ← fq_front_element (que r);
    match it with
    | Some p => Ok (Some p, r, m)
    | None => '(r, m) ← leave_update now r m; it ← fq_front_element (main_que r); Ok (it, r, m)
    end.

Definition front_nums_element (now : Z) (num : Z) (r : GentReplication) (m : mem)
    : result (bool * list loc * GentReplication * mem) :=
  if negb (is_update_que r) then '(b, dat) ← fq_front_nums_element num (main_que r); Ok (b, dat, r, m)
  else
    '(b, dat) ← fq_front_nums_element num (que r);
    if (b : bool) then Ok (true, dat, r, m)
    else '(r, m) ← leave_update now r m; '(b, dat) ← fq_front_nums_element num (main_que r); Ok (b, dat, r, m).

(** [SetLogout]: refused while the slave is connected. *)
Definition SetLogout (r : GentReplication) (m : mem) : result (bool * GentReplication * mem) :=
  match conn_ r with
  | Some _ => Ok (false, r, m)
  | None =>
      m ← set_rinfo (rinfo r) (str "available") 0 m;
      Ok (true, {| rep_name := rep_name r; is_run := false; status := status r; is_update_que := is_update_que r;
                   slave_ip := slave_ip r; main_que := main_que r; que := que r; main_que_length := main_que_length r;
                   rinfo := rinfo r; slave_start_time := slave_start_time r; slave_last_time := slave_last_time r;
                   conn_ := conn_ r |}, m)
  end.

(** [GetInfo]; [TimeToStr] is an argument, since it depends on the time zone. *)
Definition GetInfo (TimeToStr : Z → bytes) (cs : conns) (r : GentReplication) : bytes :=
  let s := match conn_ r with None => str "close" | Some c => status_of cs c end in
  snprintf 500 (str "name:" ++ cstr (rep_name r) ++ str ",ip:" ++ cstr (slave_ip r) ++ str ",start:" ++
    TimeToStr (slave_start_time r) ++ str ",last:" ++ TimeToStr (slave_last_time r) ++ str ",status:" ++ s ++
    str ",need_sync: " ++ sdec (i64 (main_que_length r)) ++ crlf).

(** The loop of [Start] over the items to send; [dbget] is
    [GentDb::Get(key, value, expire)]. *)
Fixpoint sync_loop (now : Z) (dbget : bytes → result (option bytes * Z)) (its : list loc) (outstr : bytes) (msetNum : Z)
    (m : mem) : result (bytes * mem) :=
  match its with
  | [] => Ok (MsetReply outstr msetNum, m)
  | p :: its =>
      d ← get_item p m;
      let single (out : bytes) := m ← mark_item p m; Ok (out, m) in
      if negb (itype d =? ADD) && negb (msetNum =? 0) then Ok (MsetReply outstr msetNum, m)
      else if negb (itype d =? ADD) then single (Reply DEL (iname d) [] 0)
      else
        '(v, expire) ← dbget (iname d);
        match v with
        | None => if msetNum =? 0 then single (Reply DEL (iname d) [] 0) else Ok (MsetReply outstr msetNum, m)
        | Some nr =>
            if negb (expire =? 0) && (expire <? now) then
              if msetNum =? 0 then single (Reply DEL (iname d) [] 0) else Ok (MsetReply outstr msetNum, m)
            else if negb (expire =? 0) then
              if 0 <? msetNum then Ok (MsetReply outstr msetNum, m)
              else single (Reply ADD (iname d) nr (u64 (expire - now)))
            else
              let '(outstr, msetNum) :=
                if bool_decide (iname d = []) then (outstr, msetNum)
                else (outstr ++ ReplyItem (iname d) nr, i32 (msetNum + 1)) in
              m ← mark_item p m;
              sync_loop now dbget its outstr msetNum m
        end
  end.

(** [Start(msg, c, outstr)]. *)
Definition Start (now : Z) (cs : conns) (dbget : bytes → result (option bytes * Z)) (msg : bytes) (c : Z)
    (r : GentReplication) (m : mem) : result (bool * bytes * GentReplication * mem) :=
  let r := set_conn (Some c) (cstr (ip_of cs c)) now r in
  if bool_decide (msg = str "auth") then Ok (true, reply_authok, r, m)
  else if bool_decide (msg = str "autherror") then Ok (true, reply_autherror, r, m)
  else if negb (bool_decide (msg = str "ok")) && negb (bool_decide (msg = str "data")) then Ok (true, reply_close, r, m)
  else
    '(r, m) ← (if status r =? 1 then
                 let r := set_status 0 r in
                 if bool_decide (msg = str "ok") then Pop now true r m else Ok (r, m)
               else Ok (r, m));
    '(b, dat, r, m) ← front_nums_element now SYNC_NUM r m;
    if negb b then Ok (false, [], r, m)
    else
      let r := set_status 1 r in
      '(out, m) ← sync_loop now dbget dat [] 0 m;
      Ok (true, out, r, m).

(** The destructor's loop: [None] while it is still running. *)
Fixpoint destroy (fuel : nat) (now : Z) (r : GentReplication) (m : mem) : result (option mem) :=
  if 0 <? main_que_length r then
    match fuel with
    | O => Ok None
    | S fuel => '(r, m) ← Pop now false r m; destroy fuel now r m
    end
  else Ok (Some m).
End replication.
Arguments GentReplication : clear implicits.
End Repl.
