(* ===== verification/ReplSpec.v ===== *)
(** * What the replication guarantees (theorems about Repl.v)

    The log of a slave is a queue of changed keys. What a reply covers leaves
    the log only with the acknowledgement, the values sent are the current
    ones, and at every moment a slave that has applied what it was sent holds
    the master's value of every key that is not waiting in the log. *)

From S2P Require Import Prelude Cstd Cmem LevelDb QueueList RepFile Repl Db Redis RedisSpec.
Import RepFile Repl.

(** ** Slots of the file *)

(** The slot [i] lies in the mapping. *)
Definition slot_ok (i : nat) (f : GentFile) : Prop :=
  ∃ r, head_list f !! i = Some r ∧ 0 ≤ head r ∧ head r + item_size ≤ zlen (page f).

Lemma num_field_length ln val : 0 ≤ ln ≤ 12 → zlen (num_field ln val) = ln.
Proof. intros Hl. unfold num_field, zlen. rewrite length_take, length_app, length_replicate. lia. Qed.

(** The fields the code sets. *)
Definition known_field (field : bytes) : Prop :=
  field = str "ser_time" ∨ field = str "rep_time" ∨ field = str "available".

Lemma set_info_ok i field val f :
  slot_ok i f → known_field field →
  ∃ f', set_info i field val f = Ok f' ∧ slot_ok i f' ∧ ∀ j, slot_ok j f → slot_ok j f'.
Proof.
  intros (r & Hr & H0 & Hs) Hf. unfold item_size, SLAVE_NAME_SIZE in Hs.
  assert (∃ r' pg, set_field field val r (page f) = Ok (r', pg) ∧ zlen pg = zlen (page f) ∧ head r' = head r) as (r' & pg & E & Hz & Hh).
  { assert (∀ off v, 0 ≤ off → off + zlen v ≤ 71 → ∃ pg, blit (page f) (head r + off) v = Ok pg ∧ zlen pg = zlen (page f)) as Hb.
    { intros off v Hoff Hv. apply blit_ok; lia. }
    pose proof (num_field_length 10 val ltac:(lia)). pose proof (num_field_length 1 val ltac:(lia)).
    destruct Hf as [-> | [-> | ->]]; unfold set_field.
    - destruct (Hb 1 (num_field 10 val)) as (pg & E & Hz); [lia|lia|]. unfold set_ser_time. rewrite E. by eexists _, pg.
    - destruct (Hb 11 (num_field 10 val)) as (pg & E & Hz); [lia|lia|]. unfold set_rep_time. rewrite E. by eexists _, pg.
    - destruct (Hb 0 (num_field 1 val)) as (pg & E & Hz); [lia|lia|]. rewrite Z.add_0_r in E. unfold set_available. rewrite E.
      by eexists _, pg. }
  assert (slot i f = Ok r) as Es by (unfold slot; by rewrite Hr).
  unfold set_info. rewrite Es. rbind. rewrite E. rbind. eexists. split; [done|].
  assert (∀ j, slot_ok j f → slot_ok j (set_slot i r' pg f)) as Hall.
  { intros j (rj & Hj & Hj0 & Hjs). unfold slot_ok, set_slot. cbn [head_list page]. rewrite Hz.
    destruct (decide (i = j)) as [<-|Hne].
    - rewrite list_lookup_insert_eq by (by apply lookup_lt_Some in Hr). exists r'. rewrite Hr in Hj. injection Hj as <-. by rewrite Hh.
    - rewrite list_lookup_insert_ne by done. by exists rj. }
  split; [|done]. apply Hall. exists r. unfold item_size, SLAVE_NAME_SIZE. done.
Qed.

(** An item of a queue: the pointer and what it points to. *)
Abbreviation entry := (loc * itemData)%type.

Section repl_spec.
Context `{FifoQueue loc Q}.

(** ** The log as two lists of items *)

(** The queue [que] holds [ql] and [main_que] holds [ml]. *)
Record rep_ok (r : GentReplication Q) (m : mem) (ql ml : list entry) : Prop := {
  ro_que : fq_repr (que r) ql.*1;
  ro_main : fq_repr (main_que r) ml.*1;
  ro_items : ∀ p d, (p, d) ∈ ql ++ ml → items m !! p = Some d;
  ro_nodup : NoDup (ql ++ ml).*1;
  ro_len : main_que_length r = u64 (zlen (ql ++ ml));
  ro_upd : is_update_que r = false → ql = [];
  ro_slot : slot_ok (rinfo r) (rfile m)
}.

Lemma set_rinfo_ok i field val m :
  slot_ok i (rfile m) → known_field field →
  ∃ m', set_rinfo i field val m = Ok m' ∧ items m' = items m ∧ slot_ok i (rfile m') ∧ ∀ j, slot_ok j (rfile m) → slot_ok j (rfile m').
Proof.
  intros Hs Hf. destruct (set_info_ok i field val (rfile m) Hs Hf) as (f' & E & Hs' & Hall).
  unfold set_rinfo. rewrite E. rbind. by eexists.
Qed.

(** What is left alone in the memory of other logs. *)
Definition extends (m m' : mem) : Prop :=
  (∀ p d, items m !! p = Some d → items m' !! p = Some d) ∧ ∀ j, slot_ok j (rfile m) → slot_ok j (rfile m').

Lemma rep_ok_extends r m m' ql ml : extends m m' → rep_ok r m ql ml → rep_ok r m' ql ml.
Proof. intros [Hi Hs] [? ? Hit ? ? ? ?]. split; try done; [intros p d Hin; by apply Hi, Hit|by apply Hs]. Qed.

Definition new_entry (now : Z) (key : bytes) (type : Z) (m : mem) : entry :=
  (base.fresh (dom (items m) : gset loc), {| iname := key; itype := type; itm := i32 now; is_sync := false |}).

Lemma new_entry_fresh now key type m : items m !! (new_entry now key type m).1 = None.
Proof. apply not_elem_of_dom. exact (is_fresh (dom (items m) : gset loc)). Qed.

(** A change goes to the end of the main queue. *)
Lemma Push_ok now cs type key r m ql ml :
  rep_ok r m ql ml → is_run r = true →
  ∃ b r' m', Push now cs type key r m = Ok (b, r', m') ∧ rep_ok r' m' ql (ml ++ [new_entry now key type m]) ∧
    is_update_que r' = is_update_que r ∧ status r' = status r ∧ is_run r' = true ∧
    extends m m' ∧ (b = true → ql ++ ml = [] ∨ 2 ^ 64 ≤ zlen (ql ++ ml)).
Proof.
  intros [Hq Hm Hi Hn Hl Hu Hs] Hrun. unfold Push. rewrite Hrun. cbn [negb].
  pose proof (new_entry_fresh now key type m) as Hfr. set (e := new_entry now key type m) in *.
  assert (new_item now key type m = (e.1, put_item e.1 e.2 m)) as -> by done.
  destruct (fq_push_ok (main_que r) ml.*1 e.1 Hm) as (mq & -> & Hmq). rbind.
  destruct (set_rinfo_ok (rinfo r) (str "ser_time") now (put_item e.1 e.2 m)) as (m' & -> & Em & Hs' & Hall); [done|by left|]. rbind.
  eexists _, _, m'. split; [done|]. split; [|split; [done|split; [done|split; [done|split]]]].
  - split; cbn; try done.
    + by rewrite fmap_app.
    + intros p d. rewrite Em. cbn. rewrite app_assoc, elem_of_app, list_elem_of_singleton. intros [Hin|[= -> ->]]; cbn [items put_item].
      * rewrite lookup_insert_ne; [by apply Hi|]. intros <-. apply Hi in Hin. by change (items m !! e.1 = Some d) in Hin; rewrite Hfr in Hin.
      * by rewrite lookup_insert_eq.
    + rewrite app_assoc, fmap_app, NoDup_app. split; [done|]. split; [|apply NoDup_singleton].
      intros p Hp Hp'. apply list_elem_of_singleton in Hp'. subst p. apply list_elem_of_fmap in Hp as ([p d] & Ep & Hin).
      apply Hi in Hin. cbn [fst] in Ep. rewrite <- Ep in Hin. by rewrite Hfr in Hin.
    + rewrite Hl, app_assoc, (zlen_app (ql ++ ml)). change (zlen [e]) with 1. unfold u64. by rewrite Zplus_mod_idemp_l.
  - split; [|exact Hall]. intros p d Hp. rewrite Em. cbn. rewrite lookup_insert_ne; [done|]. intros <-.
    by change (items m !! e.1 = Some d) in Hp; rewrite Hfr in Hp.
  - intros [Hb _]%andb_true_iff. rewrite Hl in Hb. apply Z.eqb_eq in Hb. destruct (ql ++ ml) as [|x l] eqn:E; [by left|right].
    destruct (Z.lt_ge_cases (zlen (x :: l)) (2 ^ 64)) as [Hlt|]; [|done].
    rewrite u64_small in Hb by (pose proof (zlen_nonneg (x :: l)); lia). rewrite zlen_cons in Hb. pose proof (zlen_nonneg l). lia.
Qed.

(** ** Acknowledged items leave the log *)

Definition synced (e : entry) : Prop := is_sync e.2 = true.
Definition unsynced (e : entry) : Prop := is_sync e.2 = false.

(** The queue that is being sent from, and the one that waits for it. *)
Definition active (r : GentReplication Q) (ql ml : list entry) : list entry := if is_update_que r then ql else ml.
Definition waiting (r : GentReplication Q) (ml : list entry) : list entry := if is_update_que r then ml else [].

(** What is still to be sent when the first [n] items have been. *)
Definition unsent (r : GentReplication Q) (ql ml : list entry) (n : nat) : list entry :=
  drop n (active r ql ml) ++ waiting r ml.

(** The first [n] items, and only they, are covered by the last reply. *)
Record in_flight (r : GentReplication Q) (ql ml : list entry) (n : nat) : Prop := {
  if_le : (n ≤ length (active r ql ml))%nat;
  if_max : (n ≤ 4)%nat;
  if_sent : Forall synced (take n (active r ql ml));
  if_rest : Forall unsynced (unsent r ql ml n)
}.

(** The parts of the log that [Pop] leaves alone. *)
Definition same_log (r r' : GentReplication Q) : Prop :=
  is_update_que r' = is_update_que r ∧ status r' = status r ∧ is_run r' = is_run r ∧ rinfo r' = rinfo r.

Lemma same_log_trans r1 r2 r3 : same_log r1 r2 → same_log r2 r3 → same_log r1 r3.
Proof. unfold same_log. intuition congruence. Qed.

Lemma get_item_ok r m ql ml p d : rep_ok r m ql ml → (p, d) ∈ ql ++ ml → get_item p m = Ok d.
Proof. intros Hr Hin. unfold get_item. by rewrite (ro_items _ _ _ _ Hr p d Hin). Qed.

(** The lists without the item [p]. *)
Lemma items_delete (m : mem) p d (l1 l2 : list entry) :
  NoDup (l1 ++ (p, d) :: l2).*1 → (∀ p' d', (p', d') ∈ l1 ++ (p, d) :: l2 → items m !! p' = Some d') →
  NoDup (l1 ++ l2).*1 ∧ ∀ p' d', (p', d') ∈ l1 ++ l2 → delete p (items m) !! p' = Some d'.
Proof.
  rewrite !fmap_app, fmap_cons. intros Hn Hi. assert ((p ∉ (l1 ++ l2).*1) ∧ NoDup (l1.*1 ++ l2.*1)) as [Hp Hnd].
  { rewrite (Permutation_app_comm l1.*1) in Hn. cbn in Hn. apply NoDup_cons in Hn as [Hp Hn].
    rewrite (Permutation_app_comm l2.*1) in Hn. split; [|done]. rewrite fmap_app. set_solver. }
  split; [done|]. intros p' d' Hin. rewrite lookup_delete_ne; [apply Hi; set_solver|].
  intros <-. apply Hp. apply list_elem_of_fmap. by exists (p, d').
Qed.

Lemma u64_len_pred (l1 l2 : list entry) e : u64 (u64 (zlen (l1 ++ e :: l2)) - 1) = u64 (zlen (l1 ++ l2)).
Proof. rewrite QueueList.u64_pred, !zlen_app, zlen_cons by (rewrite zlen_app, zlen_cons; zlia). f_equal. lia. Qed.

(** What [it] is at the end: NULL or an item that stays. *)
Definition kept_item (it : option loc) (l : list entry) : Prop := it = None ∨ ∃ p d, it = Some p ∧ (p, d) ∈ l ∧ is_sync d = false.

Lemma Pop_main_ok now b ml : ∀ num r m n,
  rep_ok r m [] ml → is_update_que r = false → (n ≤ length ml)%nat → Forall synced (take n ml) → Forall unsynced (drop n ml) →
  (n ≤ num)%nat →
  ∃ it r' m', Pop_main num now b r m = Ok (it, r', m') ∧ rep_ok r' m' [] (drop n ml) ∧ kept_item it (drop n ml) ∧ same_log r r'.
Proof.
  intros num. revert ml. induction num as [|num IH]; intros ml r m n Hr Hu Hn Hs Hun Hnum.
  { assert (n = 0%nat) as -> by lia. exists None, r, m. by repeat split; try apply Hr; left. }
  pose proof (fq_front_ok _ _ (ro_main _ _ _ _ Hr)) as Hf. cbn [Pop_main]. rewrite Hf. rbind.
  destruct ml as [|[p d] ml].
  { assert (n = 0%nat) as -> by (cbn in Hn; lia). exists None, r, m. by repeat split; try apply Hr; left. }
  cbn [fmap list_fmap hd_error fst]. rewrite (get_item_ok r m [] _ p d Hr) by (left; done). rbind. destruct n as [|n].
  { apply Forall_cons in Hun as [Hd _]. unfold unsynced in Hd. cbn in Hd. rewrite Hd. cbn [negb]. exists (Some p), r, m.
    split; [done|]. split; [done|]. split; [|done]. right. exists p, d. split; [done|]. split; [left|done]. }
  cbn [take drop] in *. apply Forall_cons in Hs as [Hd Hs]. unfold synced in Hd. cbn in Hd. rewrite Hd. cbn [negb].
  destruct (fq_pop_ok _ _ (ro_main _ _ _ _ Hr)) as (mq & E & Hmq). rewrite E. cbn [fmap list_fmap hd_error tail fst] in *. rbind.
  assert (∃ m1, (if b then set_rinfo (rinfo r) (str "rep_time") now m else Ok m) = Ok m1 ∧ items m1 = items m ∧
    slot_ok (rinfo r) (rfile m1)) as (m1 & -> & Em & Hs1).
  { destruct b; [|by exists m; split; [|split; [|apply Hr]]]. destruct (set_rinfo_ok (rinfo r) (str "rep_time") now m) as (m1 & ? & ? & ? & _);
      [apply Hr|right; by left|by exists m1]. }
  rbind. unfold delete_item, get_item. rewrite Em, (ro_items _ _ _ _ Hr p d) by left. rbind.
  destruct (items_delete m p d [] ml (ro_nodup _ _ _ _ Hr) (ro_items _ _ _ _ Hr)) as [Hnd Hit].
  match goal with |- context [Pop_main num now b ?r1 ?m2] =>
    destruct (IH ml r1 m2 n) as (it & r' & m' & E' & Hr' & Hk & Hsl) end; try done; [|cbn in Hn; lia|lia|by exists it, r', m'].
  split; cbn; try done; [apply Hr|]. rewrite (ro_len _ _ _ _ Hr). apply (u64_len_pred []).
Qed.

Lemma Pop_que_ok now b ml ql : ∀ num r m n,
  rep_ok r m ql ml → is_update_que r = true → (n ≤ length ql)%nat → Forall synced (take n ql) → Forall unsynced (drop n ql) →
  (n ≤ num)%nat →
  ∃ it r' m', Pop_que num now b r m = Ok (it, r', m') ∧ rep_ok r' m' (drop n ql) ml ∧ kept_item it (drop n ql) ∧ same_log r r'.
Proof.
  intros num. revert ql. induction num as [|num IH]; intros ql r m n Hr Hu Hn Hs Hun Hnum.
  { assert (n = 0%nat) as -> by lia. exists None, r, m. by repeat split; try apply Hr; left. }
  pose proof (fq_front_ok _ _ (ro_que _ _ _ _ Hr)) as Hf. cbn [Pop_que]. rewrite Hf. rbind.
  destruct ql as [|[p d] ql].
  { assert (n = 0%nat) as -> by (cbn in Hn; lia). exists None, r, m. by repeat split; try apply Hr; left. }
  cbn [fmap list_fmap hd_error fst]. rewrite (get_item_ok r m _ _ p d Hr) by (left; done). rbind. destruct n as [|n].
  { apply Forall_cons in Hun as [Hd _]. unfold unsynced in Hd. cbn in Hd. rewrite Hd. cbn [negb]. exists (Some p), r, m.
    split; [done|]. split; [done|]. split; [|done]. right. exists p, d. split; [done|]. split; [left|done]. }
  cbn [take drop] in *. apply Forall_cons in Hs as [Hd Hs]. unfold synced in Hd. cbn in Hd. rewrite Hd. cbn [negb].
  destruct (fq_pop_ok _ _ (ro_que _ _ _ _ Hr)) as (q' & E & Hq'). rewrite E. cbn [fmap list_fmap hd_error tail fst] in *. rbind.
  destruct (ro_slot _ _ _ _ Hr) as (i & Hi & _). unfold slot. rewrite Hi. rbind. rewrite bool_decide_eq_false_2 by done. cbn [andb]. rbind.
  unfold delete_item, get_item. rewrite (ro_items _ _ _ _ Hr p d) by left. rbind.
  destruct (items_delete m p d [] (ql ++ ml) (ro_nodup _ _ _ _ Hr) (ro_items _ _ _ _ Hr)) as [Hnd Hit].
  match goal with |- context [Pop_que num now b ?r1 ?m2] =>
    destruct (IH ql r1 m2 n) as (it & r' & m' & E' & Hr' & Hk & Hsl) end; try done; [|cbn in Hn; lia|lia|by exists it, r', m'].
  split; cbn; try done; try apply Hr; [|by rewrite Hu]. rewrite (ro_len _ _ _ _ Hr). apply (u64_len_pred []).
Qed.

(** [Pop] removes exactly the items the last reply covered. *)
Lemma Pop_ok now b r m ql ml n :
  rep_ok r m ql ml → in_flight r ql ml n →
  ∃ r' m' ql' ml', Pop now b r m = Ok (r', m') ∧ rep_ok r' m' ql' ml' ∧ same_log r r' ∧ in_flight r' ql' ml' 0 ∧
    unsent r' ql' ml' 0 = unsent r ql ml n.
Proof.
  intros Hr [Hle Hmax Hs Hun]. unfold Pop. unfold unsent, active, waiting in *.
  assert (∀ it l (m' : mem), kept_item it l → (∀ p d, (p, d) ∈ l → items m' !! p = Some d) →
    (match it with Some p => d ← get_item p m'; if is_sync d then delete_item p m' else Ok m' | None => Ok m' end) = Ok m') as Hkeep.
  { intros it l m' [->|(p & d & -> & Hin & Hd)] Hi; [done|]. unfold get_item. rewrite (Hi p d Hin). rbind. by rewrite Hd. }
  destruct (is_update_que r) eqn:Hu; cbn [negb].
  - apply Forall_app in Hun as [Hun Huw].
    destruct (Pop_que_ok now b ml ql 4 r m n) as (it & r' & m' & E & Hr' & Hk & Hsl); try done.
    change (Z.to_nat (SYNC_NUM * 2)) with 4%nat. rewrite E. rbind. rewrite (Hkeep it (drop n ql)); [|done|].
    2:{ intros p d Hin. apply (ro_items _ _ _ _ Hr'). apply elem_of_app. by left. }
    rbind. exists r', m', (drop n ql), ml. destruct Hsl as (Eu & ? & ? & ?). split; [done|]. split; [done|]. split; [done|].
    split; [|by rewrite Eu, Hu]. split; unfold unsent, active, waiting; rewrite ?Eu, ?Hu; try lia; [by constructor|].
    by apply Forall_app.
  - rewrite app_nil_r in *. pose proof (ro_upd _ _ _ _ Hr Hu) as ->.
    destruct (Pop_main_ok now b ml 4 r m n) as (it & r' & m' & E & Hr' & Hk & Hsl); try done.
    change (Z.to_nat (SYNC_NUM * 2)) with 4%nat. rewrite E. rbind. rewrite (Hkeep it (drop n ml)); [|done|].
    2:{ intros p d Hin. by apply (ro_items _ _ _ _ Hr'). }
    rbind. exists r', m', [], (drop n ml). destruct Hsl as (Eu & ? & ? & ?). split; [done|]. split; [done|]. split; [done|].
    split; [|by rewrite Eu, Hu, app_nil_r]. split; unfold unsent, active, waiting; rewrite ?Eu, ?Hu, ?app_nil_r; try lia; [by constructor|].
    done.
Qed.

(** The items to send next: of the full synchronisation while it lasts, then
    of the changes. *)
Lemma front_nums_ok now r m ql ml :
  rep_ok r m ql ml → in_flight r ql ml 0 →
  ∃ r' m', front_nums_element now SYNC_NUM r m =
      Ok (negb (bool_decide (unsent r ql ml 0 = [])), take 2 (active r' ql ml).*1, r', m') ∧
    rep_ok r' m' ql ml ∧ in_flight r' ql ml 0 ∧ unsent r' ql ml 0 = unsent r ql ml 0 ∧
    status r' = status r ∧ is_run r' = is_run r ∧ items m' = items m ∧ (unsent r ql ml 0 ≠ [] → active r' ql ml ≠ []).
Proof.
  intros Hr Hfl. pose proof (fq_front_nums_ok _ _ SYNC_NUM (ro_main _ _ _ _ Hr)) as Em.
  pose proof (fq_front_nums_ok _ _ SYNC_NUM (ro_que _ _ _ _ Hr)) as Eq. change (Z.to_nat SYNC_NUM) with 2%nat in *.
  assert (∀ l : list entry, bool_decide (l.*1 = []) = bool_decide (l = [])) as Hb.
  { intros l. apply bool_decide_ext. split; [by destruct l|by intros ->]. }
  unfold front_nums_element, unsent, active, waiting. destruct (is_update_que r) eqn:Hu; cbn [negb drop].
  2:{ rewrite Em. rbind. rewrite Hb, app_nil_r, drop_0. exists r, m. by rewrite !Hu, app_nil_r. }
  rewrite Eq. rbind. rewrite Hb, drop_0. destruct ql as [|e ql]; cbn [bool_decide decide_rel].
  2:{ rewrite !bool_decide_eq_false_2 by done. cbn [negb]. exists r, m. by rewrite !Hu. }
  rewrite bool_decide_eq_true_2 by done. cbn [negb]. unfold leave_update.
  destruct (ro_slot _ _ _ _ Hr) as (i & Hi & Hslot). unfold slot. rewrite Hi. rbind.
  assert (∃ m1, (if rep_time i =? 0 then set_rinfo (rinfo r) (str "rep_time") now m else Ok m) = Ok m1 ∧ items m1 = items m ∧
    slot_ok (rinfo r) (rfile m1)) as (m1 & -> & E1 & Hs1).
  { destruct (rep_time i =? 0); [|by exists m; split; [|split; [|apply Hr]]].
    destruct (set_rinfo_ok (rinfo r) (str "rep_time") now m) as (m1 & ? & ? & ? & _); [apply Hr|right; by left|by exists m1]. }
  rbind. cbn [main_que set_queues]. rewrite Em. rbind. rewrite Hb.
  exists (set_queues false (main_que r) (que r) (main_que_length r) r), m1. split; [by cbn|].
  destruct Hr as [? ? Hit ? ? ? ?]. destruct Hfl as [? ? ? Hun]. unfold unsent, active, waiting in *. rewrite Hu in *. cbn [drop app] in *.
  split; [by split; rewrite ?E1|]. split; [|by rewrite app_nil_r]. split; cbn; try lia; [by constructor|]. by rewrite app_nil_r.
Qed.

(** ** The contents of a reply *)

(** What a slave is told. *)
Inductive change :=
  | CDel (k : bytes) | CSet (k v : bytes) | CSetex (k v : bytes) (secs : Z) | CMset (kvs : list (bytes * bytes)).

(** The change for the first of the items [its] (type and key), and how many
    of them it covers; [acc] are the pairs collected for an [mset]. *)
Fixpoint batch (now : Z) (get : bytes → option bytes * Z) (its : list (Z * bytes)) (acc : list (bytes * bytes)) : change * nat :=
  match its with
  | [] => (CMset acc, O)
  | (ty, k) :: its =>
      let alone (c : change) := match acc with [] => (c, 1%nat) | _ => (CMset acc, O) end in
      if negb (ty =? ADD) then alone (CDel k)
      else match get k with
           | (None, _) => alone (CDel k)
           | (Some v, e) =>
               if e =? 0 then let '(c, n) := batch now get its (acc ++ [(k, v)]) in (c, S n)
               else if e <? now then alone (CDel k)
               else alone (if e =? now then CSet k v else CSetex k v (e - now))
           end
  end.

Definition text (c : change) : bytes :=
  match c with
  | CDel k => Reply DEL k [] 0
  | CSet k v => Reply ADD k v 0
  | CSetex k v secs => Reply ADD k v secs
  | CMset kvs => MsetReply (concat ((λ kv, ReplyItem kv.1 kv.2) <$> kvs)) (zlen kvs)
  end.

(** The items [l] are marked in the memory, and nothing else is changed. *)
Record marked (l : list entry) (m m' : mem) : Prop := {
  mk_in : ∀ p d, (p, d) ∈ l → items m' !! p = Some (setSync d);
  mk_out : ∀ p, p ∉ l.*1 → items m' !! p = items m !! p;
  mk_file : rfile m' = rfile m
}.

Lemma marked_nil m : marked [] m m.
Proof. split; [|done|done]. intros p d Hin. by apply not_elem_of_nil in Hin. Qed.

Lemma mark_one p d m : items m !! p = Some d → ∃ m', mark_item p m = Ok m' ∧ marked [(p, d)] m m'.
Proof.
  intros Hp. unfold mark_item, get_item. rewrite Hp. rbind. eexists. split; [done|]. split; [| |done].
  - intros p' d' Hin. apply list_elem_of_singleton in Hin as [= -> ->]. cbn. by rewrite lookup_insert_eq.
  - intros p' Hne. cbn. rewrite lookup_insert_ne; [done|]. intros ->. apply Hne. left.
Qed.

Lemma marked_cons p d l m m1 m' : (p ∉ l.*1) → marked [(p, d)] m m1 → marked l m1 m' → marked ((p, d) :: l) m m'.
Proof.
  intros Hp [Hi1 Ho1 Hf1] [Hi Ho Hf]. split; [| |congruence].
  - intros p' d' [[= -> ->]|Hin]%elem_of_cons; [|by apply Hi]. rewrite Ho by done. apply Hi1. left.
  - intros p' Hne. cbn in Hne. apply not_elem_of_cons in Hne as [Hne1 Hne2]. rewrite Ho by done. apply Ho1.
    intros Hin. apply list_elem_of_singleton in Hin. done.
Qed.

Definition op_of (e : entry) : Z * bytes := (itype e.2, iname e.2).

Section batch.
Context (now : Z) (get : bytes → option bytes * Z) (dbget : bytes → result (option bytes * Z)).
Hypothesis dbget_ok : ∀ k, dbget k = Ok (get k).
Hypothesis times : 0 ≤ now ∧ ∀ k, 0 ≤ (get k).2 < 2 ^ 64.

(** The loop of [Start] builds the reply of [batch] and marks what it covers. *)
Lemma sync_loop_ok (l : list entry) : ∀ acc m,
  NoDup l.*1 → (∀ p d, (p, d) ∈ l → items m !! p = Some d) → Forall (λ e, iname e.2 ≠ []) l → zlen acc + zlen l < 2 ^ 31 →
  ∃ m', sync_loop now dbget l.*1 (concat ((λ kv, ReplyItem kv.1 kv.2) <$> acc)) (zlen acc) m =
      Ok (text (batch now get (op_of <$> l) acc).1, m') ∧ marked (take (batch now get (op_of <$> l) acc).2 l) m m'.
Proof.
  induction l as [|[p d] l IH]; intros acc m Hnd Hi Hne Hsz.
  { exists m. split; [done|apply marked_nil]. }
  cbn [fmap list_fmap fst] in Hnd |- *. apply NoDup_cons in Hnd as [Hp Hnd]. apply Forall_cons in Hne as [Hk Hne]. cbn in Hk.
  assert (items m !! p = Some d) as Hpd by (apply Hi; left). rewrite zlen_cons in Hsz. pose proof (zlen_nonneg l).
  change (op_of (p, d)) with (itype d, iname d). cbn [sync_loop batch].
  assert (get_item p m = Ok d) as -> by (unfold get_item; by rewrite Hpd). rbind.
  assert (∀ c, match acc with [] => True | _ => False end → ∃ m', (m0 ← mark_item p m; Ok (text c, m0)) = Ok (text c, m') ∧
    marked (take 1 ((p, d) :: l)) m m') as Hone.
  { intros c _. destruct (mark_one p d m Hpd) as (m' & E & Hmk). rewrite E. exists m'. split; [done|]. by cbn; rewrite take_0. }
  assert (∀ c, ∃ m', (if zlen acc =? 0 then m0 ← mark_item p m; Ok (text c, m0)
      else Ok (MsetReply (concat ((λ kv, ReplyItem kv.1 kv.2) <$> acc)) (zlen acc), m)) =
    Ok (text (match acc with [] => (c, 1%nat) | _ => (CMset acc, O) end).1, m') ∧
    marked (take (match acc with [] => (c, 1%nat) | _ => (CMset acc, O) end).2 ((p, d) :: l)) m m') as Halone.
  { intros c. destruct acc as [|a acc]; [exact (Hone c I)|]. rewrite zlen_cons, (proj2 (Z.eqb_neq _ _)) by zlia.
    exists m. split; [cbn [fst text]; by rewrite zlen_cons|]. apply marked_nil. }
  destruct (Z.eqb_spec (itype d) ADD) as [Ea|Ea]; cbn [negb andb].
  2:{ specialize (Halone (CDel (iname d))). by destruct (zlen acc =? 0). }
  rewrite dbget_ok. rbind. pose proof (proj2 times (iname d)) as Ht. destruct (get (iname d)) as [[v|] e] eqn:Eg; [|apply (Halone (CDel (iname d)))].
  cbn [snd] in Ht. destruct (Z.eqb_spec e 0) as [->|Hez]; cbn [negb andb].
  - rewrite bool_decide_eq_false_2 by done. destruct (mark_one p d m Hpd) as (m1 & E1 & Hm1). rewrite E1. rbind.
    assert (i32 (zlen acc + 1) = zlen (acc ++ [(iname d, v)])) as ->.
    { rewrite zlen_app. change (zlen [_]) with 1. pose proof (zlen_nonneg acc). apply i32_small. lia. }
    assert (concat ((λ kv, ReplyItem kv.1 kv.2) <$> acc) ++ ReplyItem (iname d) v =
      concat ((λ kv, ReplyItem kv.1 kv.2) <$> acc ++ [(iname d, v)])) as ->.
    { rewrite fmap_app, concat_app. cbn. by rewrite app_nil_r. }
    destruct (IH (acc ++ [(iname d, v)]) m1) as (m' & E & Hmk); try done.
    { intros p' d' Hin. rewrite (mk_out _ _ _ Hm1); [apply Hi; by right|]. intros Hp'. apply list_elem_of_singleton in Hp'. cbn in Hp'. subst p'.
      apply Hp. apply list_elem_of_fmap. by exists (p, d'). }
    { rewrite zlen_app. change (zlen [_]) with 1. lia. }
    rewrite E. destruct (batch now get (op_of <$> l) (acc ++ [(iname d, v)])) as [c n]. cbn [fst snd take]. exists m'. split; [done|].
    eapply marked_cons; [|exact Hm1|exact Hmk]. intros Hin. apply Hp. apply list_elem_of_fmap in Hin as ([p' d'] & -> & Hin).
    apply list_elem_of_fmap. exists (p', d'). split; [done|]. apply elem_of_take in Hin as (j & Hj & _). by eapply list_elem_of_lookup_2.
  - destruct (Z.ltb_spec e now) as [Hlt|Hge]; [apply (Halone (CDel (iname d)))|].
    specialize (Halone (if e =? now then CSet (iname d) v else CSetex (iname d) v (e - now))).
    rewrite u64_small by lia. destruct (Z.ltb_spec 0 (zlen acc)); destruct (Z.eqb_spec (zlen acc) 0) as [Hz|Hz]; try (pose proof (zlen_nonneg acc); lia).
    + done.
    + destruct (Z.eqb_spec e now) as [Een|Hen]; cbn [text] in Halone |- *; [by rewrite Een, Z.sub_diag|done].
Qed.

Lemma batch_covers its acc : ((batch now get its acc).2 ≤ length its)%nat.
Proof using.
  revert acc. induction its as [|[ty k] its IH]; intros acc; [done|]. cbn [batch length].
  assert (∀ c, ((match acc with [] => (c, 1%nat) | _ => (CMset acc, O) end).2 ≤ S (length its))%nat) as Ha by (intros; destruct acc; cbn; lia).
  destruct (ty =? ADD); cbn [negb]; [|apply Ha]. destruct (get k) as [[v|] e]; [|apply Ha]. destruct (e =? 0); [|by destruct (e <? now)].
  specialize (IH (acc ++ [(k, v)])). destruct (batch _ _ _ _). cbn in *. lia.
Qed.

Lemma batch_progress its : its ≠ [] → (1 ≤ (batch now get its []).2)%nat.
Proof using.
  destruct its as [|[ty k] its]; [done|]. intros _. cbn [batch]. destruct (ty =? ADD); cbn; [|lia].
  destruct (get k) as [[v|] e]; cbn; [|lia]. destruct (e =? 0); [destruct (batch _ _ _ _); cbn; lia|]. destruct (e <? now); cbn; lia.
Qed.

(** Marking the first [k] items of the active queue. *)
Definition mark (k : nat) (l : list entry) : list entry := ((λ e : entry, (e.1, setSync e.2)) <$> take k l) ++ drop k l.

Lemma mark_fst k l : (mark k l).*1 = l.*1.
Proof using. unfold mark. rewrite fmap_app, <- list_fmap_compose. rewrite <- (take_drop k l) at 3. by rewrite fmap_app. Qed.

Lemma mark_len k l : length (mark k l) = length l.
Proof using. rewrite <- (length_fmap fst (mark k l)), mark_fst. by rewrite length_fmap. Qed.

Lemma mark_take k l : (k ≤ length l)%nat → take k (mark k l) = (λ e : entry, (e.1, setSync e.2)) <$> take k l.
Proof using. intros Hk. unfold mark. apply take_app_length'. rewrite length_fmap, length_take. lia. Qed.

Lemma mark_drop k l : (k ≤ length l)%nat → drop k (mark k l) = drop k l.
Proof using. intros Hk. unfold mark. apply drop_app_length'. rewrite length_fmap, length_take. lia. Qed.

(** The memory after marking holds the marked list, and the other one. *)
Lemma marked_items k (l rest : list entry) m m' :
  NoDup (l ++ rest).*1 → (∀ p d, (p, d) ∈ l ++ rest → items m !! p = Some d) → marked (take k l) m m' →
  ∀ p d, (p, d) ∈ mark k l ++ rest → items m' !! p = Some d.
Proof using.
  intros Hnd Hi [Hin Hout _] p d Hpd. unfold mark in Hpd. rewrite !elem_of_app in Hpd.
  rewrite <- (take_drop k l), <- app_assoc, fmap_app, NoDup_app in Hnd. destruct Hnd as (_ & Hdis & _).
  destruct Hpd as [[Hpd|Hpd]|Hpd].
  - apply list_elem_of_fmap in Hpd as ([p' d'] & [= -> ->] & Hpd). by apply Hin.
  - rewrite Hout.
    + apply Hi. rewrite <- (take_drop k l), !elem_of_app. auto.
    + intros Hp. apply (Hdis p Hp). rewrite fmap_app, elem_of_app. left. apply list_elem_of_fmap. by exists (p, d).
  - rewrite Hout.
    + apply Hi. rewrite elem_of_app. auto.
    + intros Hp. apply (Hdis p Hp). rewrite fmap_app, elem_of_app. right. apply list_elem_of_fmap. by exists (p, d).
Qed.

(** The log after the reply: the active queue marked. *)
Lemma marked_rep k r m m' ql ml :
  rep_ok r m ql ml → in_flight r ql ml 0 → (k ≤ length (active r ql ml))%nat → (k ≤ 4)%nat → marked (take k (active r ql ml)) m m' →
  ∃ ql' ml', rep_ok r m' ql' ml' ∧ in_flight r ql' ml' k ∧ unsent r ql' ml' k = drop k (unsent r ql ml 0).
Proof using.
  intros [Hq Hm Hi Hn Hl Hu Hs] [_ _ _ Hun] Hk Hk4 Hmk. unfold unsent, active, waiting in *.
  assert (∀ l : list entry, (k ≤ length l)%nat → Forall synced (take k (mark k l))) as Hsy.
  { intros l Hkl. rewrite mark_take by done. apply Forall_fmap, Forall_true. done. }
  assert (∀ l : list entry, zlen (mark k l) = zlen l) as Hz by (intros l; unfold zlen; by rewrite mark_len).
  pose proof (mk_file _ _ _ Hmk) as Hfile. destruct (is_update_que r) eqn:Hupd.
  - exists (mark k ql), ml. rewrite drop_0 in Hun. split; [|split].
    + split; rewrite ?mark_fst, ?Hfile; try done; [by apply (marked_items k ql ml m m')|by rewrite fmap_app, mark_fst, <- fmap_app| |congruence].
      by rewrite zlen_app, Hz, <- zlen_app.
    + split; unfold unsent, active, waiting; rewrite ?Hupd, ?mark_len, ?mark_drop by done; try lia; [by apply Hsy|].
      apply Forall_app in Hun as [Hu1 Hu2]. apply Forall_app. split; [by apply Forall_drop|done].
    + rewrite mark_drop by done. rewrite drop_0. symmetry. by apply drop_app_le.
  - rewrite Hu in * by done. exists [], (mark k ml). rewrite !app_nil_r in *. cbn [app] in *. split; [|split].
    + split; rewrite ?mark_fst, ?Hfile; try done; cbn [app]; [|by rewrite mark_fst|by rewrite Hz].
      intros p d Hpd. apply (marked_items k ml [] m m'); rewrite ?app_nil_r; try done.
    + split; unfold unsent, active, waiting; rewrite ?Hupd, ?mark_len, ?app_nil_r, ?mark_drop by done; try lia; [by apply Hsy|].
      rewrite drop_0 in Hun. by apply Forall_drop.
    + rewrite mark_drop by done. by rewrite drop_0.
Qed.

(** The slave acknowledges the last reply, or nothing is outstanding. *)
Definition acknowledges (msg : bytes) (r : GentReplication Q) (n : nat) : Prop :=
  msg = str "ok" ∧ (status r = 1 ∨ n = 0%nat) ∨ msg = str "data" ∧ n = 0%nat.

Lemma Start_pop msg r m ql ml n :
  rep_ok r m ql ml → in_flight r ql ml n → acknowledges msg r n →
  ∃ r' m' ql' ml', (if status r =? 1 then
                         if bool_decide (msg = str "ok") then Pop now true (set_status 0 r) m else Ok (set_status 0 r, m)
                       else Ok (r, m)) = Ok (r', m') ∧
    rep_ok r' m' ql' ml' ∧ in_flight r' ql' ml' 0 ∧ unsent r' ql' ml' 0 = unsent r ql ml n ∧ is_run r' = is_run r.
Proof using.
  intros Hr Hf Hack. destruct (Z.eqb_spec (status r) 1) as [Es|Es].
  - assert (rep_ok (set_status 0 r) m ql ml) as Hr' by (destruct Hr; by split).
    assert (in_flight (set_status 0 r) ql ml n) as Hf' by (destruct Hf; by split).
    destruct Hack as [[-> _]|[-> ->]].
    + rewrite bool_decide_eq_true_2 by done.
      destruct (Pop_ok now true _ m ql ml n Hr' Hf') as (r' & m' & ql' & ml' & E & Hr2 & (_ & _ & Hrun & _) & Hf2 & Hu2).
      by exists r', m', ql', ml'.
    + rewrite bool_decide_eq_false_2 by done. by exists (set_status 0 r), m, ql, ml.
  - assert (n = 0%nat) as -> by (destruct Hack as [[_ [|]]|[_ ?]]; done). by exists r, m, ql, ml.
Qed.

(** One request of a slave: what was acknowledged is dropped, and of what is
    left a first part is sent. *)
Lemma Start_ok cs msg c r m ql ml n u :
  rep_ok r m ql ml → in_flight r ql ml n → acknowledges msg r n → u = unsent r ql ml n → Forall (λ e, iname e.2 ≠ []) u →
  ∃ r' m' ql' ml' its k ch,
    Start now cs dbget msg c r m = Ok (negb (bool_decide (u = [])), if bool_decide (u = []) then [] else text ch, r', m') ∧
    rep_ok r' m' ql' ml' ∧ in_flight r' ql' ml' k ∧ unsent r' ql' ml' k = drop k u ∧ is_run r' = is_run r ∧
    its `prefix_of` op_of <$> u ∧ (length its ≤ 2)%nat ∧
    (u = [] → k = 0%nat) ∧ (u ≠ [] → its ≠ [] ∧ batch now get its [] = (ch, k) ∧ status r' = 1).
Proof.
  intros Hr Hf Hack Hu Hne. set (r0 := set_conn (Some c) (cstr (ip_of cs c)) now r).
  assert (rep_ok r0 m ql ml) as Hr0 by (destruct Hr; by split). assert (in_flight r0 ql ml n) as Hf0 by (destruct Hf; by split).
  destruct (Start_pop msg r0 m ql ml n Hr0 Hf0 Hack) as (r1 & m1 & ql1 & ml1 & E1 & Hr1 & Hf1 & Hu1 & Hrun1).
  destruct (front_nums_ok now r1 m1 ql1 ml1 Hr1 Hf1) as (r2 & m2 & E2 & Hr2 & Hf2 & Hu2 & Hst2 & Hrun2 & Em2 & Hne2).
  change (unsent r0 ql ml n) with (unsent r ql ml n) in Hu1. rewrite <- Hu in Hu1. rewrite Hu1 in E2, Hu2.
  assert (Start now cs dbget msg c r m =
    if bool_decide (u = []) then Ok (false, [], r2, m2)
    else '(out, m) ← sync_loop now dbget (take 2 (active r2 ql1 ml1).*1) [] 0 m2; Ok (true, out, set_status 1 r2, m)) as ->.
  { unfold Start. cbv zeta. fold r0.
    assert (bool_decide (msg = str "auth") = false ∧ bool_decide (msg = str "autherror") = false ∧
      negb (bool_decide (msg = str "ok")) && negb (bool_decide (msg = str "data")) = false) as (-> & -> & ->)
      by (by destruct Hack as [[-> _]|[-> _]]).
    rewrite E1. rbind. rewrite E2. rbind. by destruct (bool_decide (u = [])). }
  destruct (decide (u = [])) as [Eu|Eu].
  { rewrite !bool_decide_eq_true_2 by done. exists r2, m2, ql1, ml1, [], 0%nat, (CMset []). split; [done|]. split; [done|].
    split; [done|]. split; [by rewrite Hu2|]. split; [by rewrite Hrun2|]. split; [apply prefix_nil|]. split; [cbn; lia|]. done. }
  rewrite !bool_decide_eq_false_2 by done. set (act := active r2 ql1 ml1) in *. rewrite <- (fmap_take fst 2 act).
  assert (act `prefix_of` u) as Hpre by (exists (waiting r2 ml1); rewrite <- Hu2; unfold unsent; fold act; by rewrite drop_0).
  assert (act ≠ []) as Hact by (by apply Hne2; rewrite Hu1).
  assert (∀ p d, (p, d) ∈ act → items m2 !! p = Some d) as Hitems.
  { intros p d Hin. apply (ro_items _ _ _ _ Hr2). apply elem_of_app. subst act. unfold active in Hin. destruct (is_update_que r2); auto. }
  assert (NoDup act.*1) as Hnd.
  { pose proof (ro_nodup _ _ _ _ Hr2) as Hnd. rewrite fmap_app, NoDup_app in Hnd. subst act. unfold active. by destruct (is_update_que r2), Hnd as (? & ? & ?). }
  destruct (sync_loop_ok (take 2 act) [] m2) as (m3 & E3 & Hmk).
  { rewrite fmap_take. apply (sublist_NoDup _ act.*1); [done|]. apply sublist_take. }
  { intros p d Hin. apply Hitems. apply elem_of_take in Hin as (j & Hj & _). by eapply list_elem_of_lookup_2. }
  { apply Forall_take. destruct Hpre as [z Hz]. rewrite Hz in Hne. by apply Forall_app in Hne as [? _]. }
  { unfold zlen. cbn. rewrite length_take. lia. }
  cbn [fmap list_fmap concat] in E3. change (zlen []) with 0 in E3. rewrite E3. rbind.
  set (its := op_of <$> take 2 act) in *. destruct (batch now get its []) as [ch k] eqn:Eb. cbn [fst snd] in *.
  assert (k ≤ length its)%nat as Hk by (pose proof (batch_covers its []) as Hk; by rewrite Eb in Hk).
  assert (length its ≤ 2 ∧ length its ≤ length act)%nat as [Hl2 Hla] by (subst its; rewrite length_fmap, length_take; lia).
  rewrite take_take, Nat.min_l in Hmk by lia.
  destruct (marked_rep k r2 m2 m3 ql1 ml1) as (ql' & ml' & Hr3 & Hf3 & Hu3); [done|done|exact (Nat.le_trans _ _ _ Hk Hla)|lia|done|].
  exists (set_status 1 r2), m3, ql', ml', its, k, ch. split; [done|]. split; [by destruct Hr3; split|].
  split; [by destruct Hf3; split|]. split; [exact (eq_trans Hu3 (f_equal (drop k) Hu2))|]. split; [cbn; by rewrite Hrun2|].
  split; [destruct Hpre as [z Hz]; subst its; rewrite Hz, fmap_app; rewrite <- (take_drop 2 act) at 2; rewrite fmap_app, <- app_assoc; by eexists|].
  split; [done|]. split; [done|]. intros _. split; [|done]. subst its. by destruct act.
Qed.
End batch.
End repl_spec.

(** ** Replies as commands *)

(** The command a slave reads. *)
Definition args_of (c : change) : list bytes :=
  match c with
  | CDel k => [str "del"; k]
  | CSet k v => [str "set"; k; v]
  | CSetex k v secs => [str "setex"; k; udec secs; v]
  | CMset kvs => str "mset" :: concat ((λ kv, [kv.1; kv.2]) <$> kvs)
  end.
Definition command_of (c : change) : bytes := resp (args_of c).

(** Keys that fit the buffers: not empty, without a zero byte, and of at most
    79 bytes. *)
Definition good_key (k : bytes) : Prop := k ≠ [] ∧ Forall (λ b, b ≠ 0) k ∧ zlen k ≤ 79.
Definition good_value (v : bytes) : Prop := zlen v < 2 ^ 31.

Definition good_change (c : change) : Prop :=
  match c with
  | CDel k => good_key k
  | CSet k v => good_key k ∧ good_value v
  | CSetex k v secs => good_key k ∧ good_value v ∧ 0 < secs < 2 ^ 63
  | CMset kvs => Forall (λ kv, good_key kv.1 ∧ good_value kv.2) kvs ∧ zlen kvs < 2 ^ 29
  end.

Lemma cstr_good k : Forall (λ b, b ≠ 0) k → cstr k = k.
Proof. induction 1 as [|b k Hb _ IH]; [done|]. cbn. rewrite (proj2 (Z.eqb_neq b 0)) by done. by rewrite IH. Qed.

Lemma snprintf_fits n s : zlen s < n → snprintf n s = s.
Proof. intros Hs. unfold snprintf. apply take_ge. unfold zlen in *. lia. Qed.

Lemma udec_len10_le n : 0 ≤ n < 2 ^ 31 → zlen (udec n) ≤ 10.
Proof. intros Hn. pose proof (udec_len_le n 10 ltac:(lia) ltac:(lia)). unfold zlen. lia. Qed.

(** Lengths of the fixed parts. *)
Ltac fits :=
  rewrite ?zlen_app; repeat match goal with
    | |- context [zlen (str ?s)] => let n := eval vm_compute in (zlen (str s)) in change (zlen (str s)) with n
    end; change (zlen crlf) with 2; lia.

Lemma ReplyItem_bulk k v : good_key k → good_value v → ReplyItem k v = bulk k ++ bulk v.
Proof.
  intros (_ & Hk & Hl) Hv. unfold ReplyItem. rewrite (cstr_good k Hk). pose proof (zlen_nonneg k). pose proof (zlen_nonneg v).
  pose proof (udec_len10_le (zlen v) ltac:(unfold good_value in Hv; lia)).
  assert (zlen (udec (zlen k)) ≤ 2) by (pose proof (udec_len_le (zlen k) 2 ltac:(lia) ltac:(lia)); unfold zlen in *; lia).
  rewrite snprintf_fits by fits. unfold bulk. by rewrite <- !app_assoc.
Qed.

Lemma text_command c : good_change c → text c = command_of c.
Proof.
  intros Hc. unfold command_of, resp. destruct c as [k|k v|k v secs|kvs]; cbn [text args_of good_change] in *.
  - destruct Hc as (_ & Hk & Hl). unfold Reply. cbn [Z.eqb ADD DEL]. rewrite (cstr_good k Hk). pose proof (zlen_nonneg k).
    pose proof (udec_len10_le (zlen k) ltac:(lia)). rewrite snprintf_fits by fits.
    unfold bulk. cbn [fmap list_fmap concat]. rewrite app_nil_r. by rewrite <- !app_assoc.
  - destruct Hc as [(_ & Hk & Hl) Hv]. unfold Reply. cbn [Z.eqb ADD]. rewrite (cstr_good k Hk). pose proof (zlen_nonneg k). pose proof (zlen_nonneg v).
    pose proof (udec_len10_le (zlen k) ltac:(lia)). pose proof (udec_len10_le (zlen v) ltac:(unfold good_value in Hv; lia)).
    rewrite snprintf_fits by fits.
    unfold bulk. cbn [fmap list_fmap concat]. rewrite app_nil_r. by rewrite <- !app_assoc.
  - destruct Hc as ((_ & Hk & Hl) & Hv & Hs). unfold Reply. cbn [Z.eqb ADD]. rewrite (proj2 (Z.eqb_neq secs 0)) by lia.
    rewrite (cstr_good k Hk). pose proof (zlen_nonneg k). pose proof (zlen_nonneg v).
    pose proof (udec_len10_le (zlen k) ltac:(lia)). pose proof (udec_len10_le (zlen v) ltac:(unfold good_value in Hv; lia)).
    assert (zlen (udec secs) ≤ 19) as Hls by (pose proof (udec_len_le secs 19 ltac:(lia) ltac:(lia)); unfold zlen; lia).
    rewrite (snprintf_fits 20) by lia. pose proof (zlen_nonneg (udec secs)). pose proof (udec_len10_le (zlen (udec secs)) ltac:(lia)).
    rewrite snprintf_fits by fits.
    unfold bulk. cbn [fmap list_fmap concat]. rewrite app_nil_r. by rewrite <- !app_assoc.
  - destruct Hc as [Hc Hl]. unfold MsetReply. pose proof (zlen_nonneg kvs). rewrite i32_small by lia.
    assert (sdec (zlen kvs * 2 + 1) = udec (zlen kvs * 2 + 1)) as -> by (unfold sdec; by rewrite (proj2 (Z.ltb_ge _ _)) by lia).
    pose proof (udec_len10_le (zlen kvs * 2 + 1) ltac:(lia)).
    rewrite snprintf_fits by fits.
    assert (zlen (str "mset" :: concat ((λ kv, [kv.1; kv.2]) <$> kvs)) = zlen kvs * 2 + 1) as ->.
    { rewrite zlen_cons. clear. induction kvs as [|kv kvs IH]; [done|]. cbn [fmap list_fmap concat]. rewrite zlen_app.
      change (zlen [kv.1; kv.2]) with 2. rewrite (zlen_cons kv). lia. }
    assert (concat ((λ kv, ReplyItem kv.1 kv.2) <$> kvs) = concat (bulk <$> concat ((λ kv, [kv.1; kv.2]) <$> kvs))) as ->.
    { clear -Hc. induction Hc as [|kv kvs [Hk Hv] _ IH]; [done|]. cbn [fmap list_fmap concat app]. rewrite ReplyItem_bulk by done.
      by rewrite IH, <- app_assoc. }
    cbn [fmap list_fmap concat]. change (bulk (str "mset")) with (str "$4" ++ crlf ++ str "mset" ++ crlf). by rewrite <- !app_assoc.
Qed.

(** Commands can be read in one way only. *)
Lemma line_inj x y r s : plain x → plain y → x ++ crlf ++ r = y ++ crlf ++ s → x = y ∧ r = s.
Proof.
  intros Hx. revert y. induction Hx as [|c x Hc _ IH]; intros y Hy E.
  - destruct y as [|c y]; [by injection E|]. inversion Hy as [|? ? Hc _]; subst. injection E as <- _. done.
  - destruct Hy as [|c' y Hc' Hy]; [injection E as -> _; done|]. injection E as <- E. by destruct (IH y Hy E) as [-> ->].
Qed.

Lemma udec_inj a b : 0 ≤ a → 0 ≤ b → udec a = udec b → a = b.
Proof. intros Ha Hb E. rewrite <- (udec_value a Ha), <- (udec_value b Hb). by rewrite E. Qed.

Lemma bulk_inj a b r s : bulk a ++ r = bulk b ++ s → a = b ∧ r = s.
Proof.
  rewrite !bulk_eq, <- !app_assoc. intros E. apply line_inj in E as [E1 E]; [|apply size_line_plain..].
  unfold size_line in E1. injection E1 as E1. apply udec_inj in E1; [|apply zlen_nonneg..]. assert (length a = length b) by (unfold zlen in E1; lia).
  apply app_inj_1 in E as [-> E]; [|done]. by apply app_inv_head in E.
Qed.

Lemma resp_inj xs ys : resp xs = resp ys → xs = ys.
Proof.
  unfold resp. intros E. apply app_inv_head in E. apply line_inj in E as [E1 E]; [|apply udec_plain, zlen_nonneg..].
  apply udec_inj in E1; [|apply zlen_nonneg..]. revert ys E1 E. induction xs as [|x xs IH]; intros [|y ys] El E; try done; rewrite ?zlen_cons in El;
    try (rewrite ?zlen_cons in El; unfold zlen in El; cbn in El; lia).
  cbn in E. apply bulk_inj in E as [-> E]. f_equal. apply IH; [lia|done].
Qed.

Lemma command_inj c c' : good_change c → good_change c' → command_of c = command_of c' → c = c'.
Proof.
  intros Hg Hg' E. apply resp_inj in E. destruct c as [k|k v|k v secs|kvs], c' as [k'|k' v'|k' v' secs'|kvs']; cbn in *; try discriminate; try congruence.
  - injection E as -> Es ->. apply udec_inj in Es; [|lia..]. by subst.
  - injection E as E. f_equal. clear Hg Hg'. revert kvs' E. induction kvs as [|[a b] kvs IH]; intros [|[a' b'] kvs'] E; cbn in E; try discriminate; [done|].
    injection E as -> -> E. f_equal. by apply IH.
Qed.
