(* ===== verification/ReplSystem.v ===== *)
(** * A master, its log and a slave

    The system of a master that clients write to, the log for one slave, the
    reply in flight and the slave's store: clients set and delete keys, time
    passes, and the slave applies the reply it was sent and asks for the
    next. Whatever the interleaving, the slave converges to the master. *)

From S2P Require Import Prelude Cstd Cmem LevelDb QueueList RepFile Repl Db Redis RedisSpec ReplSpec.
Import RepFile Repl.

Section system.
Context `{FifoQueue loc Q} (cs : conns).

(** The master's values with their expiry times; the slave's values; the
    bytes on their way to the slave. *)
Record sys := {
  log : GentReplication Q;
  memory : mem;
  master : gmap bytes (bytes * Z);
  slave : gmap bytes bytes;
  flight : bytes;
  clock : Z
}.

(** What [GentDb::Get(key, value, expire)] finds. *)
Definition master_get (M : gmap bytes (bytes * Z)) (k : bytes) : option bytes * Z :=
  match M !! k with Some (v, e) => (Some v, e) | None => (None, 0) end.

Definition apply_change (c : change) (S : gmap bytes bytes) : gmap bytes bytes :=
  match c with
  | CDel k => delete k S
  | CSet k v | CSetex k v _ => <[k := v]> S
  | CMset kvs => fold_left (λ S kv, <[kv.1 := kv.2]> S) kvs S
  end.

(** The slave reads the bytes as a command and carries it out. *)
Definition slave_applies (fl : bytes) (S S' : gmap bytes bytes) : Prop :=
  fl = [] ∧ S' = S ∨ ∃ c, good_change c ∧ fl = command_of c ∧ S' = apply_change c S.

Inductive sys_step (s : sys) : sys → Prop :=
  | step_tick t :
      clock s ≤ t < 2 ^ 63 →
      sys_step s {| log := log s; memory := memory s; master := master s; slave := slave s; flight := flight s; clock := t |}
  | step_set k v e b r m :
      good_key k → good_value v → e = 0 ∨ clock s < e < 2 ^ 63 →
      Push (clock s) cs ADD k (log s) (memory s) = Ok (b, r, m) →
      sys_step s {| log := r; memory := m; master := <[k := (v, e)]> (master s); slave := slave s; flight := flight s; clock := clock s |}
  | step_del k b r m :
      good_key k → Push (clock s) cs DEL k (log s) (memory s) = Ok (b, r, m) →
      sys_step s {| log := r; memory := m; master := delete k (master s); slave := slave s; flight := flight s; clock := clock s |}
  | step_exchange s' : exchange s s' → sys_step s s'
(** The slave has carried out the reply and acknowledges it; without a reply
    outstanding it may also ask for data. *)
with exchange (s : sys) : sys → Prop :=
  | exchange_ack msg c S' b out r m :
      slave_applies (flight s) (slave s) S' → msg = str "ok" ∨ msg = str "data" ∧ flight s = [] →
      Start (clock s) cs (λ k, Ok (master_get (master s) k)) msg c (log s) (memory s) = Ok (b, out, r, m) →
      exchange s {| log := r; memory := m; master := master s; slave := S'; flight := out; clock := clock s |}.

(** The slave has the master's value, unless that has expired. *)
Definition agree (t : Z) (M : gmap bytes (bytes * Z)) (S : gmap bytes bytes) (k : bytes) : Prop :=
  match M !! k with
  | None => S !! k = None
  | Some (v, e) => e ≠ 0 ∧ e < t ∨ S !! k = Some v
  end.

Definition keys_of (l : list entry) : list bytes := (λ e : entry, iname e.2) <$> l.

Definition good_master (M : gmap bytes (bytes * Z)) : Prop :=
  ∀ k v e, M !! k = Some (v, e) → good_value v ∧ 0 ≤ e < 2 ^ 63.

(** A deletion in the log is of a key that the master does not have, or is
    followed by another change of the key. *)
Definition dels_ok (M : gmap bytes (bytes * Z)) (u : list entry) : Prop :=
  ∀ a e b, u = a ++ e :: b → itype e.2 ≠ ADD → M !! iname e.2 = None ∨ iname e.2 ∈ keys_of b.

Record inv (s : sys) (ql ml : list entry) (n : nat) (S2 : gmap bytes bytes) : Prop := {
  iv_rep : rep_ok (log s) (memory s) ql ml;
  iv_flight : in_flight (log s) ql ml n;
  iv_run : is_run (log s) = true;
  iv_clock : 0 ≤ clock s < 2 ^ 63;
  iv_master : good_master (master s);
  iv_keys : Forall good_key (keys_of (unsent (log s) ql ml n));
  iv_dels : dels_ok (master s) (unsent (log s) ql ml n);
  iv_none : flight s = [] → n = 0%nat;
  iv_status : n ≠ 0%nat → status (log s) = 1;
  iv_applied : slave_applies (flight s) (slave s) S2;
  iv_agree : ∀ k, agree (clock s) (master s) S2 k ∨ k ∈ keys_of (unsent (log s) ql ml n)
}.

(** ** A reply is right for what it covers *)

Lemma batch_cases now M its : ∀ acc ch n,
  batch now (master_get M) its acc = (ch, n) →
  (∃ kvs, ch = CMset (acc ++ kvs) ∧ kvs.*1 = (take n its).*2 ∧ Forall (λ kv, M !! kv.1 = Some (kv.2, 0)) kvs) ∨
  (acc = [] ∧ n = 1%nat ∧ ∃ ty k rest, its = (ty, k) :: rest ∧
    (ch = CDel k ∧ (ty ≠ ADD ∨ M !! k = None ∨ ∃ v e, M !! k = Some (v, e) ∧ e ≠ 0 ∧ e < now) ∨
     ∃ v e, M !! k = Some (v, e) ∧ e ≠ 0 ∧ (ch = CSet k v ∧ e = now ∨ ch = CSetex k v (e - now) ∧ now < e))).
Proof.
  induction its as [|[ty k] its IH]; intros acc ch n E; cbn [batch] in E.
  { injection E as <- <-. left. exists []. by rewrite app_nil_r. }
  assert (∀ c0, (match acc with [] => (c0, 1%nat) | _ => (CMset acc, O) end) = (ch, n) →
    (∃ kvs, ch = CMset (acc ++ kvs) ∧ kvs.*1 = (take n ((ty, k) :: its)).*2 ∧ Forall (λ kv, M !! kv.1 = Some (kv.2, 0)) kvs) ∨
    acc = [] ∧ n = 1%nat ∧ ch = c0) as Halone.
  { intros c0 E0. destruct acc as [|a acc]; injection E0 as <- <-; [by right|]. left. exists []. by rewrite app_nil_r. }
  unfold master_get in E at 1. destruct (Z.eqb_spec ty ADD) as [->|Ht]; cbn [negb] in E.
  2:{ destruct (Halone _ E) as [|(-> & -> & ->)]; [by left|right]. split; [done|]. split; [done|]. exists ty, k, its. split; [done|]. left. auto. }
  destruct (M !! k) as [[v e]|] eqn:Em.
  2:{ destruct (Halone _ E) as [|(-> & -> & ->)]; [by left|right]. split; [done|]. split; [done|]. exists ADD, k, its. split; [done|]. left. auto. }
  destruct (Z.eqb_spec e 0) as [->|He].
  { destruct (batch now (master_get M) its (acc ++ [(k, v)])) as [c0 n0] eqn:E0. injection E as -> <-.
    destruct (IH _ _ _ E0) as [(kvs & -> & Hk & Hf)|(Ha & _)]; [|by destruct acc]. left. exists ((k, v) :: kvs).
    rewrite <- app_assoc. split; [done|]. cbn. rewrite Hk. split; [done|]. by constructor. }
  destruct (Z.ltb_spec e now) as [Hlt|Hge]; (destruct (Halone _ E) as [|(-> & -> & ->)]; [by left|right]); (split; [done|]); (split; [done|]);
    exists ADD, k, its; (split; [done|]).
  - left. split; [done|]. right. right. by exists v, e.
  - right. exists v, e. split; [done|]. split; [done|]. destruct (Z.eqb_spec e now); [by left|right; split; [done|lia]].
Qed.

Lemma apply_mset_lookup (kvs : list (bytes * bytes)) (S : gmap bytes bytes) (q : bytes) :
  (q ∉ kvs.*1 → fold_left (λ S kv, <[kv.1 := kv.2]> S) kvs S !! q = S !! q) ∧
  (∀ v, (∀ v', (q, v') ∈ kvs → v' = v) → q ∈ kvs.*1 → fold_left (λ S kv, <[kv.1 := kv.2]> S) kvs S !! q = Some v).
Proof.
  revert S. induction kvs as [|[k v] kvs IH]; intros S; cbn [fold_left fmap list_fmap fst snd].
  { split; [done|]. intros v _ Hin. by apply not_elem_of_nil in Hin. }
  destruct (IH (<[k := v]> S)) as [IHo IHi]. split.
  - intros [Hne Hq]%not_elem_of_cons. rewrite IHo by done. by rewrite lookup_insert_ne.
  - intros v' Hv Hq. destruct (decide (q ∈ kvs.*1)) as [Hin|Hout].
    + apply IHi; [|done]. intros v2 Hin2. apply Hv. by right.
    + apply elem_of_cons in Hq as [->|Hq]; [|done]. rewrite IHo by done. rewrite lookup_insert_eq. f_equal. apply Hv. left.
Qed.

(** After the change is applied, the keys it covers agree, but for a deleted
    key that was set again; the others are as before. *)
Lemma batch_right (now : Z) (M : gmap bytes (bytes * Z)) (its : list (Z * bytes)) (ch : change) (n : nat) (S : gmap bytes bytes) (q : bytes) :
  batch now (master_get M) its [] = (ch, n) →
  (q ∉ (take n its).*2 → apply_change ch S !! q = S !! q) ∧
  (q ∈ (take n its).*2 → agree now M (apply_change ch S) q ∨
     ∃ ty rest, its = (ty, q) :: rest ∧ ty ≠ ADD ∧ n = 1%nat ∧ apply_change ch S !! q = None).
Proof.
  intros E. destruct (batch_cases _ _ _ _ _ _ E) as [(kvs & -> & Hk & Hf)|(_ & -> & ty & k & rest & -> & Hch)].
  - cbn [app apply_change]. rewrite <- Hk. destruct (apply_mset_lookup kvs S q) as [Ho Hi]. split; [done|]. intros Hq. left.
    assert (∃ v, M !! q = Some (v, 0)) as [v Hv].
    { apply list_elem_of_fmap in Hq as ([q' v] & -> & Hin). rewrite Forall_forall in Hf. exists v. by apply (Hf _ Hin). }
    unfold agree. rewrite Hv. right. apply Hi; [|done]. intros v' Hin. rewrite Forall_forall in Hf. specialize (Hf _ Hin). cbn in Hf. congruence.
  - cbn [take fmap list_fmap snd]. rewrite take_0. cbn [fmap list_fmap]. rewrite list_elem_of_singleton.
    destruct Hch as [[-> Hwhy]|(v & e & Hm & He & Hch)]; cbn [apply_change].
    + split; [intros Hne; rewrite lookup_delete_ne; [done|]; intros ->; done|]. intros ->.
      assert (delete k S !! k = None) as Hd by apply lookup_delete_eq.
      destruct Hwhy as [Ht|[Hm|(v & e & Hm & He & Hlt)]]; [right; by exists ty, rest| |]; left; unfold agree; rewrite Hm; [done|by left].
    + assert (apply_change ch S = <[k := v]> S) as -> by (by destruct Hch as [[-> _]|[-> _]]).
      split; [intros Hne; rewrite lookup_insert_ne; [done|]; intros ->; done|]. intros ->. left. unfold agree. rewrite Hm. right.
      apply lookup_insert_eq.
Qed.

Lemma batch_good now M its ch n :
  good_master M → Forall (λ o, good_key o.2) its → (length its ≤ 2)%nat → 0 ≤ now →
  batch now (master_get M) its [] = (ch, n) → good_change ch.
Proof.
  intros HM Hk Hl Hnow E. pose proof (batch_covers now (master_get M) its []) as Hc. rewrite E in Hc. cbn [snd] in Hc.
  destruct (batch_cases _ _ _ _ _ _ E) as [(kvs & -> & Hkv & Hf)|(_ & -> & ty & k & rest & -> & Hch)].
  - cbn [app good_change]. assert (length kvs ≤ 2)%nat by (rewrite <- (length_fmap fst kvs), Hkv, length_fmap, length_take; lia).
    split; [|unfold zlen; lia]. apply Forall_forall. intros [k v] Hin. rewrite Forall_forall in Hf. pose proof (Hf _ Hin) as Hm. cbn in *.
    split; [|by apply (HM _ _ _ Hm)]. assert (k ∈ (take n its).*2) as Hink by (rewrite <- Hkv; apply list_elem_of_fmap; by exists (k, v)).
    apply list_elem_of_fmap in Hink as (o & -> & Ho). rewrite Forall_forall in Hk. apply Hk. apply elem_of_take in Ho as (j & Hj & _).
    by eapply list_elem_of_lookup_2.
  - apply Forall_cons in Hk as [Hk _]. cbn in Hk. destruct Hch as [[-> _]|(v & e & Hm & He & Hch)]; [done|].
    destruct (HM _ _ _ Hm) as [Hv He']. destruct Hch as [[-> _]|[-> Hlt]]; cbn [good_change]; [done|]. split; [done|]. split; [done|lia].
Qed.

(** ** The invariant is kept *)

Lemma command_nonempty c : command_of c ≠ [].
Proof. unfold command_of, resp. intros E. discriminate E. Qed.

Lemma slave_applies_fun fl S S1 S2 : slave_applies fl S S1 → slave_applies fl S S2 → S1 = S2.
Proof.
  intros [[-> ->]|(c & Hc & -> & ->)] [[E ->]|(c' & Hc' & E & ->)]; [done|by destruct (command_nonempty c')|by destruct (command_nonempty c)|].
  by rewrite (command_inj c c' Hc Hc' E).
Qed.

Lemma agree_later t t' M S k : t ≤ t' → agree t M S k → agree t' M S k.
Proof. unfold agree. destruct (M !! k) as [[v e]|]; [|done]. intros Ht [[? ?]|?]; [left; split; [done|lia]|by right]. Qed.

Lemma dels_ok_drop M u n : dels_ok M u → dels_ok M (drop n u).
Proof. intros Hd a e b E. apply (Hd (take n u ++ a) e b). by rewrite <- app_assoc, <- E, take_drop. Qed.

(** A request of the slave is answered, and the invariant holds again with
    what is then in flight. *)
Lemma exchange_inv s ql ml n S2 msg c :
  inv s ql ml n S2 → msg = str "ok" ∨ msg = str "data" ∧ flight s = [] →
  ∃ b out r m ql' ml' n' S2',
    Start (clock s) cs (λ k, Ok (master_get (master s) k)) msg c (log s) (memory s) = Ok (b, out, r, m) ∧
    inv {| log := r; memory := m; master := master s; slave := S2; flight := out; clock := clock s |} ql' ml' n' S2' ∧
    unsent r ql' ml' n' = drop n' (unsent (log s) ql ml n) ∧
    (unsent (log s) ql ml n ≠ [] → (1 ≤ n')%nat) ∧ (unsent (log s) ql ml n = [] → out = []).
Proof.
  intros [Hr Hf Hrun Hcl HM Hk Hd Hn Hst Hap Hag] Hmsg. set (u := unsent (log s) ql ml n) in *.
  destruct (Start_ok (clock s) (master_get (master s)) (λ k, Ok (master_get (master s) k))) with (cs := cs) (msg := msg) (c := c)
    (r := log s) (m := memory s) (ql := ql) (ml := ml) (n := n) (u := u) as (r' & m' & ql' & ml' & its & k & ch & E & Hr' & Hf' & Hu' & Hrun' & Hits & Hl2 & H0 & H1); try done.
  { split; [lia|]. intros q. unfold master_get. destruct (master s !! q) as [[v e]|] eqn:Em; cbn; [|lia].
    destruct (HM _ _ _ Em) as [_ He]. lia. }
  { destruct Hmsg as [->|[-> Hfl]]; [left|right]; (split; [done|]); [|by apply Hn]. destruct (decide (n = 0%nat)); [by right|left; by apply Hst]. }
  { unfold keys_of in Hk. rewrite Forall_fmap in Hk. eapply Forall_impl; [exact Hk|]. intros e (Hne & _). done. }
  destruct (decide (u = [])) as [Eu|Eu].
  - rewrite bool_decide_eq_true_2 in E by done. rewrite (H0 Eu) in *. exists false, [], r', m', ql', ml', 0%nat, S2.
    split; [done|]. split; [|split; [done|split; [done|done]]]. rewrite drop_0 in Hu'.
    split; cbn [log memory master slave flight clock]; rewrite ?Hu'; try done; [congruence|by left].
  - destruct (H1 Eu) as (Hne & Eb & Hst'). rewrite bool_decide_eq_false_2 in E by done.
    assert (Forall (λ o, good_key o.2) its) as Hgk.
    { destruct Hits as [z Hz]. unfold keys_of in Hk. rewrite Forall_fmap in Hk. assert (Forall (λ o, good_key o.2) (op_of <$> u)) as Hall by (by rewrite Forall_fmap).
      rewrite Hz in Hall. by apply Forall_app in Hall as [? _]. }
    assert (good_change ch) as Hgc by (apply (batch_good (clock s) (master s) its ch k); try done; lia).
    rewrite (text_command ch Hgc) in E.
    assert (1 ≤ k)%nat as Hk1 by (pose proof (batch_progress (clock s) (master_get (master s)) its Hne) as Hp; by rewrite Eb in Hp).
    assert (k ≤ length its)%nat as Hkl by (pose proof (batch_covers (clock s) (master_get (master s)) its []) as Hp; by rewrite Eb in Hp).
    assert ((take k its).*2 = keys_of (take k u)) as Htk.
    { destruct Hits as [z Hz]. unfold keys_of. rewrite <- (take_app_le its z k) by done. rewrite <- Hz, <- fmap_take, <- list_fmap_compose. done. }
    exists true, (command_of ch), r', m', ql', ml', k, (apply_change ch S2). split; [exact E|].
    split; [|split; [done|split; [done|done]]].
    split; cbn [log memory master slave flight clock]; rewrite ?Hu'; try done; try congruence.
    + unfold keys_of in *. rewrite fmap_drop. by apply Forall_drop.
    + by apply dels_ok_drop.
    + right. by exists ch.
    + intros q. destruct (batch_right (clock s) (master s) its ch k S2 q Eb) as [Hout Hin]. rewrite Htk in Hout, Hin.
      assert (keys_of u = keys_of (take k u) ++ keys_of (drop k u)) as Hsplit by (unfold keys_of; by rewrite <- fmap_app, take_drop).
      destruct (decide (q ∈ keys_of (take k u))) as [Hq|Hq].
      * destruct (Hin Hq) as [|(ty & rest & -> & Hty & -> & Hnone)]; [by left|]. destruct Hits as [z Hz].
        destruct u as [|e0 u0]; [done|]. cbn [fmap list_fmap app] in Hz.
        assert (itype e0.2 = ty ∧ iname e0.2 = q) as [<- <-] by (by injection Hz).
        destruct (Hd [] e0 u0 eq_refl Hty) as [Hm|Hlater]; [left; unfold agree; by rewrite Hm|by right].
      * destruct (Hag q) as [Ha|Ha]; [left|right; rewrite Hsplit, elem_of_app in Ha; by destruct Ha].
        unfold agree in *. by rewrite Hout.
Qed.

(** A change is appended to what is to be sent. *)
Lemma unsent_push (r r' : GentReplication Q) ql ml n e :
  is_update_que r' = is_update_que r → in_flight r ql ml n → unsynced e →
  in_flight r' ql (ml ++ [e]) n ∧ unsent r' ql (ml ++ [e]) n = unsent r ql ml n ++ [e].
Proof.
  intros Eu [Hle Hmax Hs Hun] He. unfold unsent, active, waiting in *.
  assert (unsent r' ql (ml ++ [e]) n = unsent r ql ml n ++ [e]) as E.
  { unfold unsent, active, waiting. rewrite Eu. destruct (is_update_que r); [by rewrite app_assoc|]. by rewrite !app_nil_r, drop_app_le. }
  split; [|exact E]. split; [|done| |].
  - unfold active. rewrite Eu. destruct (is_update_que r); [done|]. rewrite length_app. lia.
  - unfold active. rewrite Eu. destruct (is_update_que r); [done|]. by rewrite take_app_le.
  - rewrite E. apply Forall_app. split; [done|]. by constructor.
Qed.

Lemma dels_ok_push M M' u (e : entry) :
  dels_ok M u → (∀ q, q ≠ iname e.2 → M' !! q = M !! q) → (itype e.2 ≠ ADD → M' !! iname e.2 = None) → dels_ok M' (u ++ [e]).
Proof.
  intros Hd Hm He a e0 b E Ht. destruct b as [|x b _] using rev_ind.
  - apply app_inj_2 in E as [_ [= <-]]; [|done]. left. by apply He.
  - rewrite app_comm_cons, app_assoc in E. apply app_inj_2 in E as [-> [= ->]]; [|done].
    destruct (decide (iname e0.2 = iname x.2)) as [Eq|Ne].
    { right. unfold keys_of. rewrite fmap_app, elem_of_app. right. rewrite Eq. left. }
    destruct (Hd a e0 b eq_refl Ht) as [Hn|Hin]; [left; by rewrite Hm|right]. unfold keys_of in *. rewrite fmap_app, elem_of_app. by left.
Qed.

Lemma push_inv s ql ml n S2 k type M' :
  inv s ql ml n S2 → good_key k → good_master M' → (∀ q, q ≠ k → M' !! q = master s !! q) → (type ≠ ADD → M' !! k = None) →
  ∃ b r m ml', Push (clock s) cs type k (log s) (memory s) = Ok (b, r, m) ∧
    inv {| log := r; memory := m; master := M'; slave := slave s; flight := flight s; clock := clock s |} ql ml' n S2.
Proof.
  intros [Hr Hf Hrun Hcl HM Hk Hd Hn Hst Hap Hag] Hgk HM' Hq Ht.
  destruct (Push_ok (clock s) cs type k _ _ ql ml Hr Hrun) as (b & r & m & E & Hr' & Eu & Est & Hrun' & _ & _).
  set (e := new_entry (clock s) k type (memory s)) in *.
  destruct (unsent_push (log s) r ql ml n e Eu Hf) as [Hf' Hu']; [done|].
  assert (∀ q, q ∈ keys_of (unsent r ql (ml ++ [e]) n) ↔ q ∈ keys_of (unsent (log s) ql ml n) ∨ q = k) as Hkeys.
  { intros q. rewrite Hu'. unfold keys_of. rewrite fmap_app, elem_of_app. cbn. by rewrite list_elem_of_singleton. }
  exists b, r, m, (ml ++ [e]). split; [done|]. split; cbn [log memory master slave flight clock]; try done.
  - rewrite Hu'. unfold keys_of in *. rewrite fmap_app. apply Forall_app. split; [done|]. by constructor.
  - rewrite Hu'. by apply (dels_ok_push (master s)).
  - intros Hn0. rewrite Est. by apply Hst.
  - intros q. rewrite Hkeys. destruct (decide (q = k)) as [->|Hne]; [auto|]. destruct (Hag q) as [Ha|Ha]; [left|auto].
    unfold agree in *. by rewrite Hq.
Qed.

Definition invariant (s : sys) : Prop := ∃ ql ml n S2, inv s ql ml n S2.

Lemma step_inv s s' : invariant s → sys_step s s' → invariant s'.
Proof.
  intros (ql & ml & n & S2 & Hinv) Hs. inversion Hs as [t Ht|k v e b r m Hk Hv He E|k b r m Hk E|s2 Hx]; subst.
  - destruct Hinv. exists ql, ml, n, S2. split; cbn; try done; [lia|]. intros q. destruct (iv_agree0 q); [left|by right].
    eapply agree_later; [|done]. lia.
  - destruct (push_inv s ql ml n S2 k ADD (<[k := (v, e)]> (master s)) Hinv Hk) as (b' & r' & m' & ml' & E' & Hinv').
    + intros q v' e'. rewrite lookup_insert. destruct (decide (k = q)); [intros [= <- <-]|apply (iv_master _ _ _ _ _ Hinv)].
      split; [done|]. pose proof (iv_clock _ _ _ _ _ Hinv). lia.
    + intros q Hq. by rewrite lookup_insert_ne.
    + done.
    + rewrite E in E'. injection E' as <- <- <-. by exists ql, ml', n, S2.
  - destruct (push_inv s ql ml n S2 k DEL (delete k (master s)) Hinv Hk) as (b' & r' & m' & ml' & E' & Hinv').
    + intros q v' e'. rewrite lookup_delete. destruct (decide (k = q)); [done|apply (iv_master _ _ _ _ _ Hinv)].
    + intros q Hq. by rewrite lookup_delete_ne.
    + intros _. apply lookup_delete_eq.
    + rewrite E in E'. injection E' as <- <- <-. by exists ql, ml', n, S2.
  - destruct Hx as [msg c S' b out r m Hap Hmsg E].
    destruct (exchange_inv s ql ml n S2 msg c Hinv Hmsg) as (b' & out' & r' & m' & ql' & ml' & n' & S2' & E' & Hinv' & _).
    rewrite E in E'. injection E' as <- <- <- <-. rewrite (slave_applies_fun _ _ _ _ Hap (iv_applied _ _ _ _ _ Hinv)). by exists ql', ml', n', S2'.
Qed.

Lemma steps_inv s s' : invariant s → rtc sys_step s s' → invariant s'.
Proof. intros Hi Hs. induction Hs as [|s s1 s' Hs _ IH]; [done|]. apply IH. by eapply step_inv. Qed.

(** ** The log drains *)

Lemma drains (c : Z) : ∀ k s ql ml n S2,
  inv s ql ml n S2 → (length (unsent (log s) ql ml n) ≤ k)%nat →
  ∃ s' ql' ml', rtc exchange s s' ∧ inv s' ql' ml' 0 (slave s') ∧ unsent (log s') ql' ml' 0 = [] ∧ flight s' = [] ∧
    master s' = master s ∧ clock s' = clock s.
Proof.
  induction k as [|k IH]; intros s ql ml n S2 Hinv Hlen;
    destruct (exchange_inv s ql ml n S2 (str "ok") c Hinv) as (b & out & r & m & ql' & ml' & n' & S2' & E & Hinv' & Hu' & Hp & He); try (by left);
    set (s1 := {| log := r; memory := m; master := master s; slave := S2; flight := out; clock := clock s |}) in *;
    assert (exchange s s1) as Hx by (by apply (exchange_ack s (str "ok") c S2 b out r m); [exact (iv_applied _ _ _ _ _ Hinv)|left|]).
  - assert (unsent (log s) ql ml n = []) as Hlen' by (destruct (unsent (log s) ql ml n); [done|cbn in Hlen; lia]).
    specialize (He Hlen'). subst out. rewrite Hlen' in Hu'. pose proof (iv_none _ _ _ _ _ Hinv' eq_refl) as ->. rewrite drop_0 in Hu'.
    exists s1, ql', ml'. split; [by apply rtc_once|]. split; [|done].
    by rewrite <- (slave_applies_fun _ _ _ _ (iv_applied _ _ _ _ _ Hinv') (or_introl (conj eq_refl eq_refl) : slave_applies (flight s1) (slave s1) (slave s1))).
  - destruct (decide (unsent (log s) ql ml n = [])) as [Eu|Eu].
    + apply (IH s ql ml n S2 Hinv). rewrite Eu. cbn. lia.
    + destruct (IH s1 ql' ml' n' S2' Hinv') as (s' & ql2 & ml2 & Hx' & Hrest).
      * change (log s1) with r. rewrite Hu', length_drop. specialize (Hp Eu). lia.
      * exists s', ql2, ml2. split; [by eapply rtc_l|done].
Qed.

(** ** A new log *)

Lemma queue_keys_ok now keys : ∀ q len m (ql : list entry),
  fq_repr q ql.*1 → (∀ p d, (p, d) ∈ ql → items m !! p = Some d) → NoDup ql.*1 → len = u64 (zlen ql) →
  ∃ q' m' new, queue_keys now keys q len m = Ok (q', u64 (zlen (ql ++ new)), m') ∧ fq_repr q' (ql ++ new).*1 ∧
    (∀ p d, (p, d) ∈ ql ++ new → items m' !! p = Some d) ∧ NoDup (ql ++ new).*1 ∧ rfile m' = rfile m ∧
    keys_of new = keys ∧ Forall (λ e, itype e.2 = ADD ∧ unsynced e) new.
Proof.
  induction keys as [|k keys IH]; intros q len m ql Hq Hi Hnd Hl; cbn [queue_keys].
  { exists q, m, []. rewrite app_nil_r. by subst len. }
  pose proof (new_entry_fresh now k ADD m) as Hfr. set (e := new_entry now k ADD m) in *.
  assert (new_item now k ADD m = (e.1, put_item e.1 e.2 m)) as -> by done.
  destruct (fq_push_ok q ql.*1 e.1 Hq) as (q1 & -> & Hq1). rbind.
  assert (e.1 ∉ ql.*1) as He.
  { intros Hin. apply list_elem_of_fmap in Hin as ([p d] & Ep & Hin). apply Hi in Hin. cbn [fst] in Ep. rewrite <- Ep in Hin. by rewrite Hfr in Hin. }
  destruct (IH q1 (u64 (len + 1)) (put_item e.1 e.2 m) (ql ++ [e])) as (q' & m' & new & E & Hq' & Hi' & Hnd' & Hf' & Hk' & Ha').
  - by rewrite fmap_app.
  - intros p d. rewrite elem_of_app, list_elem_of_singleton. cbn [items put_item]. intros [Hin|Heq].
    + rewrite lookup_insert_ne; [by apply Hi|]. intros Ep. apply He. rewrite Ep. apply list_elem_of_fmap. by exists (p, d).
    + rewrite <- Heq. by rewrite lookup_insert_eq.
  - rewrite fmap_app, NoDup_app. split; [done|]. split; [|apply NoDup_singleton]. intros p Hp Hp'. apply list_elem_of_singleton in Hp'. by subst.
  - rewrite Hl, zlen_app. change (zlen [e]) with 1. unfold u64. by rewrite Zplus_mod_idemp_l.
  - exists q', m', (e :: new). rewrite <- app_assoc in *. cbn [app] in *. split; [exact E|]. split; [done|]. split; [done|]. split; [done|].
    split; [by rewrite Hf'|]. split; [unfold keys_of in *; cbn; by rewrite Hk'|]. by constructor.
Qed.

(** The log of a slave that is new, or that has changes outstanding from
    before a restart: every key of the store is to be sent. *)
Lemma new_log_ok now nm info keys upd0 last0 conn0 m r m' i :
  slot_ok info (rfile m) → head_list (rfile m) !! info = Some i → ser_time i = 0 ∨ rep_time i < ser_time i →
  GentReplication_new now nm info true keys upd0 last0 conn0 m = Ok (r, m') →
  ∃ ql, rep_ok r m' ql [] ∧ in_flight r ql [] 0 ∧ keys_of (unsent r ql [] 0) = keys ∧ is_run r = true ∧
    Forall (λ e, itype e.2 = ADD) (unsent r ql [] 0).
Proof.
  intros Hs Hi Ht. unfold GentReplication_new. unfold slot. rewrite Hi. rbind.
  assert (((ser_time i =? 0) || (rep_time i <? ser_time i)) && true = true) as -> by (destruct Ht; lia).
  destruct (queue_keys_ok now keys fq_new 0 m []) as (q' & m1 & ql & E & Hq & Hit & Hnd & Hf & Hk & Ha); [apply fq_new_repr| |constructor|done|].
  { intros p d Hin. by apply not_elem_of_nil in Hin. }
  cbn [que]. rewrite E. rbind. cbn [app] in *.
  assert (∃ m2, (if ser_time i =? 0 then set_rinfo info (str "ser_time") now m1 else Ok m1) = Ok m2 ∧ items m2 = items m1 ∧
    slot_ok info (rfile m2)) as (m2 & -> & E2 & Hs2).
  { rewrite <- Hf in Hs. destruct (ser_time i =? 0); [|by exists m1].
    destruct (set_rinfo_ok info (str "ser_time") now m1) as (m2 & ? & ? & ? & _); [done|by left|by exists m2]. }
  rbind. intros [= <- <-]. apply Forall_and in Ha as [Ha Hun]. exists ql. split; [|split].
  - split; cbn; rewrite ?app_nil_r; try done; [apply fq_new_repr|by rewrite E2].
  - split; unfold unsent, active, waiting; cbn; rewrite ?drop_0, ?app_nil_r; try lia; [by constructor|done].
  - unfold unsent, active, waiting. cbn. by rewrite drop_0, app_nil_r.
Qed.

(** The start of a slave's life: its log is made from a slot of the file that
    asks for a full synchronisation, with all the keys of the store; the
    slave has nothing yet. *)
Definition initial (s : sys) : Prop :=
  ∃ nm info keys upd0 last0 conn0 m0 i,
    slot_ok info (rfile m0) ∧ head_list (rfile m0) !! info = Some i ∧ (ser_time i = 0 ∨ rep_time i < ser_time i) ∧
    GentReplication_new (clock s) nm info true keys upd0 last0 conn0 m0 = Ok (log s, memory s) ∧
    (∀ k, is_Some (master s !! k) → k ∈ keys) ∧ Forall good_key keys ∧ good_master (master s) ∧
    slave s = ∅ ∧ flight s = [] ∧ 0 ≤ clock s < 2 ^ 63.

Lemma initial_inv s : initial s → invariant s.
Proof.
  intros (nm & info & keys & upd0 & last0 & conn0 & m0 & i & Hs & Hi & Ht & E & Hkeys & Hgk & HM & Hsl & Hfl & Hcl).
  destruct (new_log_ok _ _ _ _ _ _ _ _ _ _ _ Hs Hi Ht E) as (ql & Hr & Hf & Hk & Hrun & Ha).
  exists ql, [], 0%nat, ∅. split; try done.
  - by rewrite Hk.
  - intros a e b Eu Hty. rewrite Eu in Ha. apply Forall_app in Ha as [_ Ha]. by apply Forall_cons in Ha as [? _].
  - left. by rewrite Hsl.
  - intros k. rewrite Hk. unfold agree. destruct (master s !! k) as [[v e]|] eqn:Em; [right|by left]. apply Hkeys. by eexists.
Qed.


End system.

(** ** Examples *)

Definition no_conns : conns := {| fd_of _ := 0; status_of _ := []; ip_of _ := [] |}.

(** A file of two slots, both free, and the log of a first slave over a store
    with one key. *)
Definition two_slots : mem :=
  match Init 4096 2 [] [] with
  | Ok (_, f) => {| items := ∅; rfile := f |}
  | Fault _ => {| items := ∅; rfile := {| page := []; head_list := []; rep_map_list := ∅ |} |}
  end.

Definition system_of (x : result (GentReplication (QueueList.GentListQueue loc) * mem)) (M : gmap bytes (bytes * Z)) (dflt : GentReplication (QueueList.GentListQueue loc))
    : sys (Q := QueueList.GentListQueue loc) :=
  match x with
  | Ok (r, m) => {| log := r; memory := m; master := M; slave := ∅; flight := []; clock := 1700000000 |}
  | Fault _ => {| log := dflt; memory := two_slots; master := M; slave := ∅; flight := []; clock := 1700000000 |}
  end.

Definition first_log : result (GentReplication (QueueList.GentListQueue loc) * mem) :=
  GentReplication_new 1700000000 (str "s1") 0 true [str "a"] false 0 None two_slots.
Definition idle_log : GentReplication (QueueList.GentListQueue loc) :=
  {| rep_name := []; is_run := true; status := 0; is_update_que := false; slave_ip := []; main_que := QueueList.GentListQueue_new;
     que := QueueList.GentListQueue_new; main_que_length := 0; rinfo := 0; slave_start_time := 0; slave_last_time := 0; conn_ := None |}.

Definition started : sys := system_of first_log {[ str "a" := (str "1", 0) ]} idle_log.

Lemma started_initial : initial started.
Proof.
  exists (str "s1"), 0%nat, [str "a"], false, 0, None, two_slots, {| head := 0; available := 0; name := replicate 50 0; rep_time := 0; ser_time := 0 |}.
  split; [eexists; split; [by vm_compute|by vm_compute]|]. split; [by vm_compute|]. split; [by left|]. split; [by vm_compute|].
  split; [|split; [|split; [|split; [by vm_compute|split; [by vm_compute|by vm_compute]]]]].
  - intros k [x Hx]. change (master started) with ({[ str "a" := (str "1", 0) ]} : gmap bytes (bytes * Z)) in Hx.
    apply lookup_singleton_Some in Hx as [<- _]. left.
  - apply Forall_singleton. split; [done|]. split; [by repeat constructor|by vm_compute].
  - intros k v e. change (master started) with ({[ str "a" := (str "1", 0) ]} : gmap bytes (bytes * Z)).
    intros [_ [= <- <-]]%lookup_singleton_Some. split; by vm_compute.
Qed.

(** A client has then set a second key. *)
Definition second_set : result (bool * GentReplication (QueueList.GentListQueue loc) * mem) :=
  Push 1700000000 no_conns ADD (str "b") (log started) (memory started).
Definition changed : sys :=
  match second_set with
  | Ok (b, r, m) => {| log := r; memory := m; master := <[str "b" := (str "2", 0)]> (master started); slave := slave started;
                       flight := flight started; clock := clock started |}
  | Fault _ => started
  end.

Lemma changed_reachable : rtc (sys_step no_conns) started changed.
Proof.
  apply rtc_once. destruct second_set as [[[b r] m]|f] eqn:E; [|by vm_compute in E].
  unfold changed. rewrite E. eapply (step_set no_conns started (str "b") (str "2") 0 b).
  - split; [done|]. split; [by repeat constructor|by vm_compute].
  - by vm_compute.
  - by left.
  - exact E.
Qed.



(** ** What goes wrong *)

Section defects.
Context `{FifoQueue loc Q}.

(** A log that is destroyed while changes are waiting is never finished: the
    destructor's loop removes acknowledged items only. *)
Lemma destroy_spins fuel now r m (ql ml : list entry) :
  rep_ok r m ql ml → in_flight r ql ml 0 → 0 < zlen (ql ++ ml) < 2 ^ 64 → destroy fuel now r m = Ok None.
Proof.
  revert r m ql ml. induction fuel as [|fuel IH]; intros r m ql ml Hr Hf Hl; cbn [destroy];
    rewrite (ro_len _ _ _ _ Hr), u64_small, (proj2 (Z.ltb_lt _ _)) by lia; [done|].
  destruct (Pop_ok now false r m ql ml 0 Hr Hf) as (r' & m' & ql' & ml' & E & Hr' & Hsl & Hf' & Hu). rewrite E. rbind.
  apply (IH r' m' ql' ml'); try done. assert (zlen (ql' ++ ml') = zlen (ql ++ ml)) as ->; [|done].
  unfold unsent, active, waiting in Hu. destruct Hsl as (Eu & _). rewrite Eu in Hu. rewrite !drop_0 in Hu. destruct (is_update_que r) eqn:Er.
  - by rewrite Hu.
  - rewrite !app_nil_r in Hu. subst ml'. by rewrite (ro_upd _ _ _ _ Hr Er), (ro_upd _ _ _ _ Hr' Eu).
Qed.

(** A key whose expiry time is the current second reaches the slave as one
    that never expires. *)
Lemma expiring_now_kept now get k v :
  now ≠ 0 → get k = (Some v, now) → good_key k → good_value v →
  batch now get [(ADD, k)] [] = (CSet k v, 1%nat) ∧ text (CSet k v) = resp [str "set"; k; v].
Proof.
  intros Hn Hg Hk Hv. split; [|by apply (text_command (CSet k v))]. cbn [batch]. rewrite Hg. cbn [Z.eqb ADD negb].
  rewrite (proj2 (Z.eqb_neq now 0)), Z.ltb_irrefl, Z.eqb_refl by done. done.
Qed.
End defects.

(** A key of a hundred bytes does not fit the buffer of [ReplyItem]: what the
    slave gets is not the [mset] of the key. *)
Lemma long_key_is_cut : text (CMset [(replicate 100 97, str "v")]) ≠ command_of (CMset [(replicate 100 97, str "v")]).
Proof. vm_compute. discriminate. Qed.

(** A slave that asks again loses a change: two keys are sent, the slave asks
    with [data] (it has not carried them out), meanwhile the first key was
    deleted, so that only its deletion is sent; the acknowledgement of that
    one drops both, and the second key is never sent again. *)
Definition resend_run : result (list bytes * Z) :=
  let get (M : gmap bytes bytes) (k : bytes) : result (option bytes * Z) := Ok (M !! k, 0) in
  let M : gmap bytes bytes := {[ str "a" := str "1"; str "b" := str "2" ]} in
  '(r, m) ← Ok (idle_log, two_slots);
  '(_, r, m) ← Push 0 no_conns ADD (str "a") r m;
  '(_, r, m) ← Push 0 no_conns ADD (str "b") r m;
  '(_, out1, r, m) ← Start 0 no_conns (get M) (str "data") 7 r m;
  '(_, r, m) ← Push 0 no_conns DEL (str "a") r m;
  '(_, out2, r, m) ← Start 0 no_conns (get (delete (str "a") M)) (str "data") 7 r m;
  '(_, out3, r, m) ← Start 0 no_conns (get (delete (str "a") M)) (str "ok") 7 r m;
  '(_, out4, r, m) ← Start 0 no_conns (get (delete (str "a") M)) (str "ok") 7 r m;
  Ok ([out1; out2; out3; out4], main_que_length r).

Lemma resend_loses_key :
  resend_run = Ok ([resp [str "mset"; str "a"; str "1"; str "b"; str "2"]; resp [str "del"; str "a"]; resp [str "del"; str "a"]; []], 0).
Proof. by vm_compute. Qed.
