(* ===== verification/RepMgr.v ===== *)
(** * The replication manager (GentRepMgr of gent_repl.h and gent_repl.cpp)

    The master side holds the logs by slave name; the slave side holds the
    connection to its master and the stage of the exchange with it. One class
    serves as both, in two instances. *)

From stdpp Require Import sorting.
From S2P Require Import Prelude Cstd Cmem LevelDb QueueList Config RepFile Repl Redis.

(** What the slave side uses of the connection to its master. *)
Class MasterLink (K : Type) := {
  link_fd : K → Z;
  link_GetStatus : K → bytes;
  link_OutString : bytes → K → result (Z * K)
}.

Module RepMgr.
Import RepFile Repl.

(** [GentRepMgr::status]. *)
Definition INIT : Z := 0.
Definition AUTH : Z := 1.
Definition WAIT : Z := 2.
Definition CONTINUE : Z := 3.

(** The keys of a [std::map] in iteration order. *)
#[local] Instance bytes_le_total : Total bytes_le.
Proof. intros a b. apply bytes_leb_total. Qed.
Definition map_keys {A} (m : gmap bytes A) : list bytes := merge_sort bytes_le (elements (dom m : gset bytes)).

Section mgr.
Context `{FifoQueue loc Q, MasterLink K}.

Record GentRepMgr := {
  rep_list : gmap bytes (GentReplication Q);
  rep_map : gmap bytes nat;
  store : mem;
  mstatus : Z;
  mconn : option K;
  start_time : Z;
  send_time : Z;
  server_id : bytes
}.

(** The constructor of the master side, with the slots that [GentFile::Init]
    read; [conn_] keeps the value it has in memory, [conn0]. *)
Definition GentRepMgr_new (lead_rep : gmap bytes nat) (f : GentFile) (conn0 : option K) (id : bytes) : GentRepMgr :=
  {| rep_list := ∅; rep_map := lead_rep; store := {| items := ∅; rfile := f |}; mstatus := INIT; mconn := conn0;
     start_time := 0; send_time := 0; server_id := id |}.

Definition set_reps (l : gmap bytes (GentReplication Q)) (m : mem) (g : GentRepMgr) : GentRepMgr :=
  {| rep_list := l; rep_map := rep_map g; store := m; mstatus := mstatus g; mconn := mconn g; start_time := start_time g;
     send_time := send_time g; server_id := server_id g |}.
Definition set_link (s : Z) (c : option K) (g : GentRepMgr) : GentRepMgr :=
  {| rep_list := rep_list g; rep_map := rep_map g; store := store g; mstatus := s; mconn := c; start_time := start_time g;
     send_time := send_time g; server_id := server_id g |}.
Definition set_times (st sd : Z) (g : GentRepMgr) : GentRepMgr :=
  {| rep_list := rep_list g; rep_map := rep_map g; store := store g; mstatus := mstatus g; mconn := mconn g; start_time := st;
     send_time := sd; server_id := server_id g |}.

(** What a new log finds in its memory before the constructor runs. *)
Record stale := { upd0 : bool; last0 : Z; conn0 : option Z }.

(** [new GentReplication(name, info, is_sync_all)] put into [rep_list_]. *)
Definition add_rep (now : Z) (keys : list bytes) (x : stale) (nm : bytes) (info : nat) (all : bool) (g : GentRepMgr) : result GentRepMgr :=
  '(r, m) ← GentReplication_new now nm info all keys (upd0 x) (last0 x) (conn0 x) (store g);
  Ok (set_reps (<[nm := r]> (rep_list g)) m g).

(** [Init]: a log for every slave known from the file. *)
Definition Init (now : Z) (keys : list bytes) (x : stale) (g : GentRepMgr) : result GentRepMgr :=
  foldl (λ g nm, g ← g; match rep_map g !! nm with Some i => add_rep now keys x nm i true g | None => Ok g end) (Ok g) (map_keys (rep_map g)).

(** [Get(name, is_sync_all)]: [false] for NULL; the log is the one of that
    name. [behind] is what stands behind the name in memory. *)
Definition Get (now : Z) (keys : list bytes) (x : stale) (behind : bytes) (nm : bytes) (all : bool) (g : GentRepMgr)
    : result (bool * GentRepMgr) :=
  match rep_list g !! nm with
  | Some _ => Ok (true, g)
  | None =>
      '(info, f) ← match rep_map g !! nm with
                   | Some i => Ok (Some i, rfile (store g))
                   | None => AddItem nm behind (rfile (store g))
                   end;
      let g := set_reps (rep_list g) {| items := items (store g); rfile := f |} g in
      match info with
      | None => Ok (false, g)
      | Some i => g ← add_rep now keys x nm i all g; Ok (true, g)
      end
  end.

(** [Push] to every log; the names of the logs whose slave is notified. *)
Definition push_one (now : Z) (cs : conns) (type : Z) (key : bytes) (acc : result (list bytes * GentRepMgr)) (nm : bytes)
    : result (list bytes * GentRepMgr) :=
  '(told, g) ← acc;
  match rep_list g !! nm with
  | None => Ok (told, g)
  | Some r =>
      '(b, r, m) ← Repl.Push now cs type key r (store g);
      Ok (if (b : bool) then told ++ [nm] else told, set_reps (<[nm := r]> (rep_list g)) m g)
  end.
Definition Push (now : Z) (cs : conns) (type : Z) (key : bytes) (g : GentRepMgr) : result (list bytes * GentRepMgr) :=
  foldl (push_one now cs type key) (Ok ([], g)) (map_keys (rep_list g)).

(** [Logout]; [thread_ok]: [pthread_create] succeeds, and the thread that
    destroys the log is started. *)
Definition Logout (thread_ok : bool) (nm : bytes) (g : GentRepMgr) : result (bool * GentRepMgr) :=
  match rep_list g !! nm with
  | None => Ok (true, g)
  | Some r =>
      '(ok, r, m) ← SetLogout r (store g);
      if negb ok then Ok (false, g)
      else if negb thread_ok then Ok (false, set_reps (<[nm := r]> (rep_list g)) m g)
      else Ok (true, set_reps (delete nm (rep_list g)) m g)
  end.

Definition GetReplicationNum (g : GentRepMgr) : Z := u32 (Z.of_nat (size (rep_list g))).

Definition QueLength (g : GentRepMgr) : Z :=
  foldl (λ len nm, match rep_list g !! nm with Some r => u64 (len + main_que_length r) | None => len end) 0 (map_keys (rep_list g)).

Definition GetSlaveInfo (TimeToStr : Z → bytes) (cs : conns) (g : GentRepMgr) : bytes :=
  let s := concat ((λ nm, match rep_list g !! nm with Some r => Repl.GetInfo TimeToStr cs r | None => [] end) <$> map_keys (rep_list g)) in
  if bool_decide (s = []) then str "no slave" ++ crlf else s.

Definition stage_name (s : Z) : bytes :=
  if s =? INIT then str "initialization" else if s =? AUTH then str "authentication"
  else if s =? WAIT then str "wait" else if s =? CONTINUE then str "transmit" else [].

Definition GetInfo (cfg : Config.conf) (g : GentRepMgr) : bytes :=
  let ip := Config.get cfg (str "slaveof_ip") in
  let port := Config.get cfg (str "slaveof_port") in
  if negb (bool_decide (ip = [])) && negb (bool_decide (port = [])) then
    snprintf 200 (str "connect master " ++ cstr ip ++ str ":" ++ cstr port ++ str ",start_time:" ++ udec (start_time g) ++
                  str ",stage: " ++ stage_name (mstatus g) ++ crlf)
  else str "no master" ++ crlf.

(** ** The slave side *)

(** [$%ld\r\n%s\r\n] *)
Definition bulk_arg (s : bytes) : bytes := str "$" ++ udec (zlen s) ++ crlf ++ cstr s ++ crlf.

Definition auth_text (id auth : bytes) (sync_all : bytes) : bytes :=
  snprintf 300 (str "*4" ++ crlf ++ str "$3" ++ crlf ++ str "rep" ++ crlf ++ bulk_arg id ++ str "$4" ++ crlf ++ str "auth" ++ crlf ++
                bulk_arg auth ++ bulk_arg sync_all).
Definition data_text (id : bytes) : bytes :=
  snprintf 300 (str "*3" ++ crlf ++ str "$3" ++ crlf ++ str "rep" ++ crlf ++ bulk_arg id ++ str "$4" ++ crlf ++ str "data" ++ crlf).

(** [SlaveReply(outstr, suc)]. *)
Definition SlaveReply (suc : Z) (g : GentRepMgr) : bytes :=
  let t := if suc =? 1 then str "ok" else str "error" in
  snprintf 300 (str "*3" ++ crlf ++ str "$3" ++ crlf ++ str "rep" ++ crlf ++ bulk_arg (server_id g) ++ bulk_arg t).

Definition SlaveSetStatus (t : Z) (g : GentRepMgr) : GentRepMgr := set_link t (mconn g) g.

(** [conn_->OutString(text)]; through NULL it faults. *)
Definition send (text : bytes) (g : GentRepMgr) : result (Z * GentRepMgr) :=
  match mconn g with
  | None => Fault OutOfBounds
  | Some c => '(n, c) ← link_OutString text c; Ok (n, set_link (mstatus g) (Some c) g)
  end.

Definition SlaveAuth (cfg : Config.conf) (id auth : bytes) (g : GentRepMgr) : result (Z * GentRepMgr) :=
  let all := if bool_decide (Config.get cfg (str "slave_sync_all") = str "false") then str "false" else str "true" in
  send (auth_text id auth all) g.

(** [LinkMaster]: [link] is the descriptor that [GentEvent::Client] returns
    and the connection made for it. *)
Definition LinkMaster (link : Z * K) (g : GentRepMgr) : Z * GentRepMgr :=
  if link.1 <? 0 then (link.1, g) else (link.1, set_link (mstatus g) (Some link.2) g).

(** The connection is missing or closed. *)
Definition no_link (g : GentRepMgr) : bool :=
  match mconn g with None => true | Some c => bool_decide (link_GetStatus c = str "close") end.

(** The first part of [Slave]: [None] when it returns. *)
Definition slave_patience (g : GentRepMgr) : option GentRepMgr :=
  if (mstatus g =? AUTH) || (mstatus g =? WAIT) then
    match mconn g with
    | Some c => if 0 <? link_fd c then None else Some (set_link CONTINUE (mconn g) g)
    | None => Some (set_link CONTINUE (mconn g) g)
    end
  else Some g.
(** ... which may first put the stage back after a minute. *)
Definition slave_overdue (now : Z) (g : GentRepMgr) : GentRepMgr :=
  if (0 <? send_time g) && (60 <? now - send_time g) then set_link CONTINUE (mconn g) g else g.

(** [Slave(e)], run once a second: whether the connection is handed to the
    event loop, and the manager. *)
Definition Slave (now : Z) (cfg : Config.conf) (link : Z * K) (g : GentRepMgr) : result (bool * GentRepMgr) :=
  match slave_patience g with
  | None => Ok (false, slave_overdue now g)
  | Some g =>
      let talk (g : GentRepMgr) : result (bool * GentRepMgr) :=
        if mstatus g =? INIT then
          let ma := Config.get cfg (str "master_auth") in
          if bool_decide (ma = []) then Ok (true, set_link CONTINUE (mconn g) g)
          else '(n, g) ← SlaveAuth cfg (server_id g) ma g;
               if n =? -1 then Ok (false, g) else Ok (true, set_link AUTH (mconn g) g)
        else if mstatus g =? CONTINUE then
          '(n, g) ← send (data_text (server_id g)) g;
          if n =? -1 then Ok (false, g) else Ok (false, set_times (start_time g) now (set_link WAIT (mconn g) g))
        else Ok (false, g) in
      if no_link g then
        let ip := Config.get cfg (str "slaveof_ip") in
        let port := Config.get cfg (str "slaveof_port") in
        if bool_decide (ip = []) || bool_decide (port = []) then Ok (false, g)
        else
          let g := set_link (mstatus g) None g in
          let '(sfd, g) := LinkMaster link g in
          if sfd <=? 0 then Ok (false, g)
          else talk (set_link INIT (mconn g) (if start_time g =? 0 then set_times now (send_time g) g else g))
      else talk g
  end.

(** [CannelConnect]. *)
Definition CannelConnect (g : GentRepMgr) : GentRepMgr := set_link (mstatus g) None g.

(** ** The master thread *)

(** [MasterHandle] for the log named [nm] of the notification: [req] holds
    the fields [keystr], [is_sync_all] and [repmsg] of the slave's command,
    and [c] its connection. The text to send, and whether the connection is
    put into [CONN_WAIT]. *)
Definition MasterHandle (now : Z) (cs : conns) (dbget : bytes → result (option bytes * Z)) (keys : list bytes) (x : stale) (behind : bytes)
    (nm : bytes) (req : bytes * bool * bytes) (c : Z) (g : GentRepMgr) : result (option (bytes * bool) * GentRepMgr) :=
  match rep_list g !! nm with
  | None => Fault OutOfBounds
  | Some r0 =>
      match conn_ r0 with
      | None => Ok (None, g)
      | Some _ =>
          let '(key, all, msg) := req in
          '(found, g) ← Get now keys x behind key all g;
          match rep_list g !! key with
          | Some r =>
              if negb found then Ok (Some (str "-ERR slave full,manual clear" ++ crlf, false), g)
              else
                '(ok, out, r, m) ← Start now cs dbget msg c r (store g);
                Ok (Some (out, negb ok), set_reps (<[key := r]> (rep_list g)) m g)
          | None => Ok (Some (str "-ERR slave full,manual clear" ++ crlf, false), g)
          end
      end
  end.

(** ** The interface of the commands *)

(** The two instances, with what their functions read of the outside: the
    time, the connections (and the one of the current command), the keys of
    the store, what new objects find in their memory, the configuration, and
    whether a thread can be started and a notification sent. *)
Record replicas := {
  rp_now : Z; rp_conns : conns; rp_conn : Z; rp_keys : list bytes; rp_stale : stale; rp_behind : bytes;
  rp_time : Z → bytes; rp_cfg : Config.conf; rp_thread : bool; rp_notify : bool;
  master_side : GentRepMgr; slave_side : GentRepMgr
}.

Definition with_sides (a b : GentRepMgr) (x : replicas) : replicas :=
  {| rp_now := rp_now x; rp_conns := rp_conns x; rp_conn := rp_conn x; rp_keys := rp_keys x; rp_stale := rp_stale x;
     rp_behind := rp_behind x; rp_time := rp_time x; rp_cfg := rp_cfg x; rp_thread := rp_thread x; rp_notify := rp_notify x;
     master_side := a; slave_side := b |}.

(** [rep->SetConn(redis->conn)]. *)
Definition SetConn (c : Z) (nm : bytes) (g : GentRepMgr) : GentRepMgr :=
  match rep_list g !! nm with
  | Some r => set_reps (<[nm := set_conn (Some c) (slave_ip r) (slave_last_time r) r]> (rep_list g)) (store g) g
  | None => g
  end.

(** Where a function faults the state stays: the interface has no faults. *)
#[global] Instance mgr_RepManager : Redis.RepManager replicas := {
  rep_Push type key x :=
    match Push (rp_now x) (rp_conns x) type key (master_side x) with
    | Ok (_, g) => with_sides g (slave_side x) x
    | Fault _ => x
    end;
  rep_SlaveReply suc x := SlaveReply suc (slave_side x);
  rep_SlaveSetStatus s x := with_sides (master_side x) (SlaveSetStatus s (slave_side x)) x;
  rep_Logout nm x :=
    match Logout (rp_thread x) nm (master_side x) with
    | Ok (ok, g) => (ok, with_sides g (slave_side x) x)
    | Fault _ => (false, x)
    end;
  rep_Register nm all x :=
    match Get (rp_now x) (rp_keys x) (rp_stale x) (rp_behind x) nm all (master_side x) with
    | Ok (true, g) => (Some (rp_notify x), with_sides (SetConn (rp_conn x) nm g) (slave_side x) x)
    | Ok (false, g) => (None, with_sides g (slave_side x) x)
    | Fault _ => (None, x)
    end;
  rep_GetSlaveInfo x := GetSlaveInfo (rp_time x) (rp_conns x) (master_side x);
  rep_GetInfo x := GetInfo (rp_cfg x) (slave_side x)
}.
End mgr.
Arguments GentRepMgr : clear implicits.
Arguments replicas : clear implicits.
End RepMgr.
