(* ===== verification/RepMgrSpec.v ===== *)
(** * What the replication manager guarantees (theorems about RepMgr.v)

    A change reaches every log; the acknowledgement a slave writes is what
    the master's parser expects; and the manager implements the interface
    that the commands of Redis.v are written against. *)

From stdpp Require Import sorting.
From S2P Require Import Prelude Cstd Cmem LevelDb QueueList Config Db Redis RedisSpec RepFile Repl ReplSpec ReplSystem RepMgr Connect.
Import RepFile Repl RepMgr.

Section mgr_spec.
Context `{FifoQueue loc Q, MasterLink K}.

(** Every log of the manager is represented, the lists by slave name. *)
Definition mgr_ok (g : GentRepMgr Q K) (L : gmap bytes (list entry * list entry)) : Prop :=
  dom L = dom (rep_list g) ∧
  ∀ nm r ql ml, rep_list g !! nm = Some r → L !! nm = Some (ql, ml) → rep_ok r (store g) ql ml ∧ is_run r = true.

Lemma elem_of_map_keys {A} (m : gmap bytes A) k : k ∈ map_keys m ↔ is_Some (m !! k).
Proof. unfold map_keys. rewrite merge_sort_Permutation, elem_of_elements. apply elem_of_dom. Qed.

Lemma NoDup_map_keys {A} (m : gmap bytes A) : NoDup (map_keys m).
Proof. unfold map_keys. rewrite merge_sort_Permutation. apply NoDup_elements. Qed.

(** The change [(type, key)] is at the end of the logs [ns], and the other
    logs are as before. *)
Definition pushed (type : Z) (key : bytes) (ns : list bytes) (L L' : gmap bytes (list entry * list entry)) : Prop :=
  dom L' = dom L ∧ ∀ nm ql ml, L !! nm = Some (ql, ml) →
    if bool_decide (nm ∈ ns) then ∃ e, L' !! nm = Some (ql, ml ++ [e]) ∧ op_of e = (type, key) ∧ unsynced e
    else L' !! nm = Some (ql, ml).

Lemma push_one_ok now cs type key told (g : GentRepMgr Q K) L nm :
  mgr_ok g L →
  ∃ told' g' L', push_one now cs type key (Ok (told, g)) nm = Ok (told', g') ∧ mgr_ok g' L' ∧
    dom (rep_list g') = dom (rep_list g) ∧ pushed type key [nm] L L'.
Proof.
  intros [Hd Hok]. unfold push_one. rbind. destruct (rep_list g !! nm) as [r|] eqn:Er.
  2:{ exists told, g, L. split; [done|]. split; [done|]. split; [done|]. split; [done|]. intros nm' ql ml Hl.
      rewrite bool_decide_eq_false_2; [done|]. rewrite list_elem_of_singleton. intros ->.
      assert (nm ∈ dom (rep_list g)) as Hin by (rewrite <- Hd; by apply elem_of_dom_2 in Hl). apply not_elem_of_dom in Er. done. }
  destruct (L !! nm) as [[ql ml]|] eqn:El.
  2:{ apply not_elem_of_dom in El. rewrite Hd in El. by apply elem_of_dom_2 in Er. }
  destruct (Hok nm r ql ml Er El) as [Hr Hrun].
  destruct (Push_ok now cs type key r (store g) ql ml Hr Hrun) as (b & r' & m' & E & Hr' & _ & _ & Hrun' & Hext & _). rewrite E. rbind.
  set (e := new_entry now key type (store g)) in *.
  eexists _, _, (<[nm := (ql, ml ++ [e])]> L). split; [done|]. cbn [rep_list set_reps].
  assert (nm ∈ dom L) as HnL by (by apply elem_of_dom_2 in El). assert (nm ∈ dom (rep_list g)) as Hnr by (by apply elem_of_dom_2 in Er).
  split; [|split; [rewrite dom_insert_L; set_solver|split; [rewrite dom_insert_L; set_solver|]]].
  - split; [cbn; rewrite !dom_insert_L; set_solver|]. intros nm' r2 ql2 ml2. cbn [rep_list set_reps store].
    destruct (decide (nm = nm')) as [<-|Hne].
    + rewrite !lookup_insert_eq. by intros [= <-] [= <- <-].
    + rewrite !lookup_insert_ne by done. intros H1 H2. destruct (Hok nm' r2 ql2 ml2 H1 H2) as [Hr2 Hrun2]. split; [|done]. by eapply rep_ok_extends.
  - intros nm' ql2 ml2 Hl. case_bool_decide as Hin; rewrite list_elem_of_singleton in Hin.
    + subst nm'. rewrite El in Hl. injection Hl as <- <-. exists e. by rewrite lookup_insert_eq.
    + by rewrite lookup_insert_ne.
Qed.

Lemma push_all_ok now cs type key ns : ∀ told (g : GentRepMgr Q K) L,
  NoDup ns → mgr_ok g L →
  ∃ told' g' L', foldl (push_one now cs type key) (Ok (told, g)) ns = Ok (told', g') ∧ mgr_ok g' L' ∧
    dom (rep_list g') = dom (rep_list g) ∧ pushed type key ns L L'.
Proof.
  induction ns as [|nm ns IH]; intros told g L Hnd Hok.
  { exists told, g, L. split; [done|]. split; [done|]. split; [done|]. split; [done|]. intros nm ql ml Hl. rewrite bool_decide_eq_false_2; [done|].
    apply not_elem_of_nil. }
  apply NoDup_cons in Hnd as [Hnm Hnd]. destruct (push_one_ok now cs type key told g L nm Hok) as (t1 & g1 & L1 & E1 & Hok1 & Hd1 & Hp1).
  destruct (IH t1 g1 L1 Hnd Hok1) as (t2 & g2 & L2 & E2 & Hok2 & Hd2 & Hp2). exists t2, g2, L2. cbn [foldl]. rewrite E1.
  split; [done|]. split; [done|]. split; [congruence|]. destruct Hp1 as [Hdl1 Hp1], Hp2 as [Hdl2 Hp2]. split; [congruence|].
  intros nm' ql ml Hl. specialize (Hp1 nm' ql ml Hl). destruct (decide (nm' = nm)) as [->|Hne].
  - rewrite bool_decide_eq_true_2 in Hp1 by left. destruct Hp1 as (e & Hl1 & Hop & Hun). rewrite bool_decide_eq_true_2 by left.
    specialize (Hp2 nm _ _ Hl1). rewrite bool_decide_eq_false_2 in Hp2 by done. by exists e.
  - rewrite bool_decide_eq_false_2 in Hp1 by (by rewrite list_elem_of_singleton). specialize (Hp2 nm' _ _ Hp1).
    case_bool_decide as Hin.
    + by rewrite bool_decide_eq_true_2 by (by right).
    + rewrite bool_decide_eq_false_2; [done|]. rewrite not_elem_of_cons. done.
Qed.

(** [GentRepMgr::Push]: the change is appended to every log. *)
Lemma Push_everywhere now cs type key (g : GentRepMgr Q K) L :
  mgr_ok g L →
  ∃ told g' L', Push now cs type key g = Ok (told, g') ∧ mgr_ok g' L' ∧ dom L' = dom L ∧
    ∀ nm ql ml, L !! nm = Some (ql, ml) → ∃ e, L' !! nm = Some (ql, ml ++ [e]) ∧ op_of e = (type, key) ∧ unsynced e.
Proof.
  intros Hok. destruct (push_all_ok now cs type key (map_keys (rep_list g)) [] g L (NoDup_map_keys _) Hok) as (told & g' & L' & E & Hok' & _ & Hd & Hp).
  exists told, g', L'. split; [done|]. split; [done|]. split; [done|]. intros nm ql ml Hl. specialize (Hp nm ql ml Hl).
  rewrite bool_decide_eq_true_2 in Hp; [done|]. apply elem_of_map_keys. apply elem_of_dom. rewrite <- (proj1 Hok). by apply elem_of_dom_2 in Hl.
Qed.

(** ** A write reaches every log *)

Section write.
Context `{LevelDBLaws D} (file_ok : bool).

(** completing a [set] on a server with any number of slaves stores the
    value, answers [+OK], and appends the key to the log of every slave, in
    every one of them behind the changes made before; none is skipped, no
    other item is touched, and no step of it faults. *)
Theorem set_reaches_every_log now rnd info recont k v chunk r (w : Redis.World D (replicas Q K)) L :
  value_begun k chunk (zlen v) r → Redis.subc r = Some Redis.PSet → (∃ rest, chunk ++ recont = v ++ rest) → Db.ten_digits now →
  Db.put_ok k v (Db.MetaSerialize Db.TY_STRING 0 now) (Redis.gdb w) → mgr_ok (master_side (Redis.mgr w)) L →
  ∃ r1 w1 L1, Redis.Complete file_ok now rnd info recont r w = Ok (str "+OK" ++ crlf, r1, w1) ∧
    (∀ t, Db.Get t k (Redis.gdb w1) = Ok (Some v)) ∧
    mgr_ok (master_side (Redis.mgr w1)) L1 ∧ dom L1 = dom L ∧
    ∀ nm ql ml, L !! nm = Some (ql, ml) → ∃ e, L1 !! nm = Some (ql, ml ++ [e]) ∧ op_of e = (ADD, k) ∧ unsynced e.
Proof.
  intros Hvb Hsub [rest Hcut] Hnow Hput Hok. pose proof (zlen_nonneg v).
  assert (take (Z.to_nat (zlen v)) (chunk ++ recont) = v) as Hval by (rewrite Hcut, to_nat_zlen; apply take_app_length).
  destruct (Complete_Set_ok file_ok now recont k chunk (zlen v) r w) as (r1 & g & _ & _ & E & HG);
    [done|rewrite Hcut; zlia|done|by rewrite Hval|]. rewrite Hval in HG.
  destruct (Push_everywhere (rp_now (Redis.mgr w)) (rp_conns (Redis.mgr w)) ADD k (master_side (Redis.mgr w)) L Hok)
    as (told & g' & L1 & Ep & Hok1 & Hd & Hall).
  exists r1, {| Redis.gdb := g; Redis.mgr := Redis.rep_Push Redis.ADD k (Redis.mgr w) |}, L1.
  split; [unfold Redis.Complete; rewrite Hsub; exact E|]. split; [intros t; apply HG|]. cbn [Redis.mgr Redis.rep_Push mgr_RepManager].
  change Redis.ADD with ADD. by rewrite Ep.
Qed.
End write.

(** ** The acknowledgement *)

Lemma bulk_arg_bulk s : Forall (λ b, b ≠ 0) s → bulk_arg s = bulk s.
Proof. intros Hs. unfold bulk_arg, bulk. by rewrite cstr_good. Qed.

(** A slave's name that fits the texts. *)
Definition good_id (id : bytes) : Prop := token id ∧ Forall (λ b, b ≠ 0) id ∧ zlen id ≤ 200.

Lemma rep_text (id t : bytes) :
  good_id id → Forall (λ b, b ≠ 0) t → zlen t ≤ 9 →
  snprintf 300 (str "*3" ++ crlf ++ str "$3" ++ crlf ++ str "rep" ++ crlf ++ bulk_arg id ++ bulk_arg t) = resp [str "rep"; id; t].
Proof.
  intros (_ & Hi & Hl) Ht Hlt. rewrite !bulk_arg_bulk by done. pose proof (zlen_nonneg id). pose proof (zlen_nonneg t).
  pose proof (udec_len10_le (zlen id) ltac:(lia)). pose proof (udec_len10_le (zlen t) ltac:(lia)).
  rewrite snprintf_fits by (unfold bulk; fits). unfold resp. cbn [fmap list_fmap concat]. rewrite app_nil_r.
  change (bulk (str "rep")) with (str "$3" ++ crlf ++ str "rep" ++ crlf). change (zlen [str "rep"; id; t]) with 3. by rewrite <- !app_assoc.
Qed.

Lemma SlaveReply_text suc (g : GentRepMgr Q K) :
  good_id (server_id g) → SlaveReply suc g = resp [str "rep"; server_id g; if suc =? 1 then str "ok" else str "error"].
Proof. intros Hid. unfold SlaveReply. destruct (suc =? 1); apply rep_text; try done; by repeat constructor. Qed.

Lemma data_text_resp id : good_id id → data_text id = resp [str "rep"; id; str "data"].
Proof. intros Hid. by rewrite <- (rep_text id (str "data")) by (done || by repeat constructor). Qed.

(** what a slave writes is what the master reads: the acknowledgement text
    of [SlaveReply], parsed by the master's [Process] on an authenticated
    connection, is the command [rep] with the slave's name as the key and
    [ok] (or [error]) as the message, ready for completion; nothing of the
    request is left over. *)
Theorem acknowledgement_parsed `{Redis.RepManager R} cfg now suc (g : GentRepMgr Q K) r (m : R) :
  good_id (server_id g) → Redis.master_auth r ≠ 0 →
  ∃ r', Redis.Process cfg now (SlaveReply suc g) r m = Ok (0, [], r', m) ∧ Redis.keystr r' = server_id g ∧
    Redis.repmsg r' = (if suc =? 1 then str "ok" else str "error") ∧ Redis.conn_status r' = Redis.CONN_DATA ∧
    Redis.subc r' = Some Redis.PRep ∧ Redis.master_auth r' = Redis.master_auth r.
Proof.
  intros Hid Hma. rewrite SlaveReply_text by done. set (id := server_id g) in *. set (t := if suc =? 1 then _ else _).
  assert (token t ∧ zlen t ≤ 5) as [Ht Hlt] by (subst t; destruct (suc =? 1); (split; [token_solve|by vm_compute])).
  destruct Hid as (Htok & _ & Hl). pose proof (zlen_nonneg id). pose proof (zlen_nonneg t).
  assert (zlen (resp [str "rep"; id; t]) < npos) as Hb.
  { unfold resp, bulk. cbn [fmap list_fmap concat]. pose proof (udec_len10_le (zlen id) ltac:(lia)). pose proof (udec_len10_le (zlen t) ltac:(lia)).
    change (udec (zlen [str "rep"; id; t])) with (str "3"). change (udec (zlen (str "rep"))) with (str "3"). change (zlen []) with 0 in *.
    unfold npos. rewrite app_nil_r. fits. }
  assert (Redis.Split (resp [str "rep"; id; t]) crlf = Ok (resp_tokens [str "rep"; id; t])) as Hs.
  { rewrite resp_joined in *. apply Split_joined; [|done|].
    - apply resp_tokens_token. apply Forall_cons. split; [token_solve|]. apply Forall_cons. split; [done|]. apply Forall_cons. split; [done|]. by apply Forall_nil.
    - by eapply no_stop_name. }
  eexists. split; [apply Process_ok; [|done]; rewrite (ParseCommand_split cfg now _ _ (str "rep") Redis.PRep) by done|].
  - cbn [Redis.Parser]. unfold Redis.Parser_Rep. change (zlen (resp_tokens [str "rep"; id; t]) <? 7) with false. cbv iota.
    rewrite (vec_at_lookup _ 6 t) by done. rbind. cbn [Redis.master_auth Redis.set_rep Redis.set_subc].
    rewrite (proj2 (Z.eqb_neq _ _)) by done. rbind. rewrite (token_arg_lookup _ 3 id) by (done || lia). rbind. done.
  - done.
Qed.

(** ** Asking again *)

(** a slave that waits for an answer on a live connection asks again: when
    more than a minute has passed since the request, the next two runs of
    [Slave] send the request for data once more and start the wait anew. *)
Theorem slave_asks_again now now' cfg link link' (g : GentRepMgr Q K) c n c' :
  mconn g = Some c → 0 < link_fd c → link_GetStatus c ≠ str "close" → mstatus g = WAIT → 0 < send_time g → 60 < now - send_time g →
  good_id (server_id g) → link_OutString (resp [str "rep"; server_id g; str "data"]) c = Ok (n, c') → n ≠ -1 →
  ∃ g1 g2, Slave now cfg link g = Ok (false, g1) ∧ Slave now' cfg link' g1 = Ok (false, g2) ∧
    mconn g2 = Some c' ∧ mstatus g2 = WAIT ∧ send_time g2 = now' ∧ rep_list g2 = rep_list g.
Proof.
  intros Hc Hfd Hcl Hst Hsend Hlate Hid Hout Hn. set (g1 := set_link CONTINUE (mconn g) g).
  exists g1, (set_times (start_time g) now' (set_link WAIT (Some c') g1)). split; [|split; [|done]].
  - unfold Slave, slave_patience, slave_overdue. rewrite Hst, Hc. cbn [orb Z.eqb AUTH WAIT Pos.eqb].
    rewrite (proj2 (Z.ltb_lt _ _) Hfd), (proj2 (Z.ltb_lt _ _) Hsend), (proj2 (Z.ltb_lt _ _) Hlate). cbn [andb]. subst g1. by rewrite Hc.
  - unfold Slave, slave_patience. change (mstatus g1) with CONTINUE. cbn [orb Z.eqb AUTH WAIT CONTINUE INIT Pos.eqb].
    assert (no_link g1 = false) as -> by (unfold no_link; cbn; rewrite Hc; by apply bool_decide_eq_false).
    cbv zeta. change (mstatus g1) with CONTINUE. cbn [Z.eqb CONTINUE INIT Pos.eqb]. unfold send.
    change (mconn g1) with (mconn g). rewrite Hc. change (server_id g1) with (server_id g). rewrite (data_text_resp _ Hid), Hout. rbind.
    by rewrite (proj2 (Z.eqb_neq n (-1))) by done.
Qed.
End mgr_spec.

(** ** The connection to the master *)

(** A connection of the server is what the slave side expects of one. *)
#[global] Instance connection_link `{Malloc} `{Connect.Command E C W} : MasterLink (Connect.state C W) := {
  link_fd st := Connect.fd (Connect.conn st);
  link_GetStatus := Connect.GetStatus;
  link_OutString := Connect.OutString true true
}.

(** ** Examples *)

(** A connection that takes everything. *)
#[local] Instance open_link : MasterLink bytes := {
  link_fd _ := 5; link_GetStatus _ := str "wait"; link_OutString text sent := Ok (zlen text, sent ++ text)
}.

Definition one_slave : GentRepMgr (QueueList.GentListQueue loc) bytes :=
  {| rep_list := {[ str "s1" := idle_log ]}; rep_map := ∅; store := two_slots; mstatus := WAIT; mconn := Some []; start_time := 1;
     send_time := 100; server_id := str "s1" |}.

Definition no_logs : gmap bytes (list entry * list entry) := {[ str "s1" := ([], []) ]}.

Lemma one_slave_ok : mgr_ok one_slave no_logs.
Proof.
  split; [by vm_compute|]. intros nm r ql ml. change (rep_list one_slave) with ({[ str "s1" := idle_log ]} : gmap bytes (GentReplication (QueueList.GentListQueue loc))).
  intros [<- <-]%lookup_singleton_Some. unfold no_logs. rewrite lookup_singleton_eq. intros [= <- <-]. split; [|done].
  split; cbn; try done; try (apply QueueList.new_repr); [intros p d Hin; by apply not_elem_of_nil in Hin|constructor|].
  eexists. split; [by vm_compute|by vm_compute].
Qed.

Definition replicated : Redis.World (gmap bytes bytes) (replicas (QueueList.GentListQueue loc) bytes) :=
  {| Redis.gdb := Db.empty_db;
     Redis.mgr := {| rp_now := 1700000000; rp_conns := no_conns; rp_conn := 7; rp_keys := []; rp_stale := {| upd0 := false; last0 := 0; conn0 := None |};
                     rp_behind := []; rp_time _ := []; rp_cfg := ∅; rp_thread := true; rp_notify := true;
                     master_side := one_slave; slave_side := one_slave |} |}.

Definition half_read : Redis.GentRedis := Redis.set_content (str "v") 2 (Redis.set_keystr (str "k") (Redis.set_subc (Some Redis.PSet) fresh)).

Lemma set_reaches_every_log_witness :
  ∃ r1 w1 L1, Redis.Complete true 1700000000 0 [] (str "w") half_read replicated = Ok (str "+OK" ++ crlf, r1, w1) ∧
    (∀ t, Db.Get t (str "k") (Redis.gdb w1) = Ok (Some (str "vw"))) ∧
    mgr_ok (master_side (Redis.mgr w1)) L1 ∧ dom L1 = dom no_logs ∧
    ∀ nm ql ml, no_logs !! nm = Some (ql, ml) → ∃ e, L1 !! nm = Some (ql, ml ++ [e]) ∧ op_of e = (ADD, str "k") ∧ unsynced e.
Proof.
  refine (set_reaches_every_log true 1700000000 0 [] (str "w") (str "k") (str "vw") (str "v") half_read replicated no_logs _ _ _ _ _ one_slave_ok).
  - split; by vm_compute.
  - done.
  - by exists [].
  - by vm_compute.
  - split; by vm_compute.
Defined.

Lemma s1_good : good_id (str "s1").
Proof. split; [token_solve|]. split; [by repeat constructor|by vm_compute]. Qed.

Lemma acknowledgement_parsed_witness :
  ∃ r', Redis.Process ∅ 0 (SlaveReply 1 one_slave) (Redis.set_rep 1 [] true fresh) ([] : change_log) = Ok (0, [], r', []) ∧
    Redis.keystr r' = str "s1" ∧ Redis.repmsg r' = str "ok" ∧ Redis.conn_status r' = Redis.CONN_DATA ∧
    Redis.subc r' = Some Redis.PRep ∧ Redis.master_auth r' = 1.
Proof. exact (acknowledgement_parsed ∅ 0 1 one_slave (Redis.set_rep 1 [] true fresh) ([] : change_log) s1_good ltac:(done)). Defined.

Lemma slave_asks_again_witness :
  ∃ g1 g2, Slave 161 ∅ (9, []) one_slave = Ok (false, g1) ∧ Slave 162 ∅ (9, []) g1 = Ok (false, g2) ∧
    mconn g2 = Some (resp [str "rep"; str "s1"; str "data"]) ∧ mstatus g2 = WAIT ∧ send_time g2 = 162 ∧ rep_list g2 = rep_list one_slave.
Proof.
  exact (slave_asks_again 161 162 ∅ (9, []) (9, []) one_slave [] _ _ eq_refl eq_refl ltac:(done) eq_refl eq_refl eq_refl s1_good eq_refl ltac:(done)).
Defined.
