(* ===== verification/AppMgr.v ===== *)
(** * The pool of connections (gent_app_mgr.h, gent_app_mgr.cpp, the
    registrations of gent_connect.h)

    [GentAppMgr] keeps the connections that are in use by their file
    descriptor, the idle ones in a list, and the command object of every
    descriptor. Connections and commands are objects of a heap, and so are
    the [GentDestroy] objects that point to a connection ([conn_]) and are
    registered with it, so that using an object behind its [delete] is a
    fault. *)

From S2P Require Import Prelude Cstd Cmem Sds LevelDb Db Config Redis Connect.

Module AppMgr.
Import Connect.

Abbreviation loc := Z.

(** A connection object: its buffers, its command, the objects that are
    registered with it, the address of the client, and the thread in whose
    event loop it is ([ev.ev_base]). *)
Record connection := { cdata : GentConnect; ccomm : option loc; dest_list : gset loc; cip : bytes; cport : Z; cbase : Z }.

Definition set_cdata (d : GentConnect) (c : connection) : connection :=
  {| cdata := d; ccomm := ccomm c; dest_list := dest_list c; cip := cip c; cport := cport c; cbase := cbase c |}.
Definition set_ccomm (q : option loc) (c : connection) : connection :=
  {| cdata := cdata c; ccomm := q; dest_list := dest_list c; cip := cip c; cport := cport c; cbase := cbase c |}.
Definition set_dest_list (l : gset loc) (c : connection) : connection :=
  {| cdata := cdata c; ccomm := ccomm c; dest_list := l; cip := cip c; cport := cport c; cbase := cbase c |}.
(** [SetClientData] and the event base. *)
Definition set_client (ip : bytes) (port base : Z) (c : connection) : connection :=
  {| cdata := cdata c; ccomm := ccomm c; dest_list := dest_list c; cip := ip; cport := port; cbase := base |}.

Section pool.
Context `{Malloc} {C : Type}.
(** [plus->Clone(connect)]. *)
Context (Clone : C).
(** What the memory of a new connection holds, but for [rbuf] and the empty
    [dest_list], which the constructor sets. *)
Context (blank : connection).

(** [total_conn] is a [size_t]. [dests] is the heap of the [GentDestroy]
    objects, with their [conn_]. *)
Record GentAppMgr := {
  conn_mgr : gmap Z loc;
  free_conn_mgr : list loc;
  total_conn : Z;
  plus_mgr : gmap Z loc;
  objs : gmap loc connection;
  cmds : gmap loc C;
  dests : gmap loc (option loc)
}.

Definition GentAppMgr_new : GentAppMgr :=
  {| conn_mgr := ∅; free_conn_mgr := []; total_conn := 0; plus_mgr := ∅; objs := ∅; cmds := ∅; dests := ∅ |}.

Definition set_objs (o : gmap loc connection) (g : GentAppMgr) : GentAppMgr :=
  {| conn_mgr := conn_mgr g; free_conn_mgr := free_conn_mgr g; total_conn := total_conn g; plus_mgr := plus_mgr g;
     objs := o; cmds := cmds g; dests := dests g |}.
Definition set_cmds (p : gmap Z loc) (c : gmap loc C) (g : GentAppMgr) : GentAppMgr :=
  {| conn_mgr := conn_mgr g; free_conn_mgr := free_conn_mgr g; total_conn := total_conn g; plus_mgr := p;
     objs := objs g; cmds := c; dests := dests g |}.
Definition set_pool (m : gmap Z loc) (f : list loc) (n : Z) (g : GentAppMgr) : GentAppMgr :=
  {| conn_mgr := m; free_conn_mgr := f; total_conn := n; plus_mgr := plus_mgr g;
     objs := objs g; cmds := cmds g; dests := dests g |}.
Definition set_dests (d : gmap loc (option loc)) (g : GentAppMgr) : GentAppMgr :=
  {| conn_mgr := conn_mgr g; free_conn_mgr := free_conn_mgr g; total_conn := total_conn g; plus_mgr := plus_mgr g;
     objs := objs g; cmds := cmds g; dests := d |}.

Definition get_obj (p : loc) (g : GentAppMgr) : result connection :=
  match objs g !! p with Some c => Ok c | None => Fault OutOfBounds end.
Definition put_obj (p : loc) (c : connection) (g : GentAppMgr) : GentAppMgr := set_objs (<[p := c]> (objs g)) g.

(** [GetCommand(connect, id)]. *)
Definition GetCommand (id : Z) (g : GentAppMgr) : loc * GentAppMgr :=
  let p := fresh (dom (cmds g)) in
  (p, set_cmds (<[id := p]> (plus_mgr g)) (<[p := Clone]> (cmds g)) g).

(** [Destroy(id)] deletes the command of a descriptor and keeps the pointer. *)
Definition Destroy (id : Z) (g : GentAppMgr) : result GentAppMgr :=
  match plus_mgr g !! id with
  | None => Ok g
  | Some p =>
      match cmds g !! p with
      | Some _ => Ok (set_cmds (plus_mgr g) (delete p (cmds g)) g)
      | None => Fault OutOfBounds
      end
  end.

(** [GentConnect::Init(sfd)]: the command comes from the pool. *)
Definition InitConnect (sfd : Z) (p : loc) (g : GentAppMgr) : result GentAppMgr :=
  c ← get_obj p g;
  let '(q, g) := GetCommand sfd g in
  d ← Connect.Init sfd (cdata c);
  Ok (put_obj p (set_ccomm (Some q) (set_cdata d c)) g).

(** [new GentConnect(sfd)]. *)
Definition NewConnect (sfd : Z) (g : GentAppMgr) : result (loc * GentAppMgr) :=
  let p := fresh (dom (objs g)) in
  g ← InitConnect sfd p (put_obj p (set_dest_list ∅ (set_cdata (set_rbuf None (rsize (cdata blank)) (cdata blank)) blank)) g);
  Ok (p, g).

Definition GetConnect (sfd : Z) (g : GentAppMgr) : result (loc * GentAppMgr) :=
  match last (free_conn_mgr g) with
  | Some p =>
      g ← InitConnect sfd p g;
      Ok (p, set_pool (<[sfd := p]> (conn_mgr g)) (take (length (free_conn_mgr g) - 1) (free_conn_mgr g)) (total_conn g) g)
  | None =>
      '(p, g) ← NewConnect sfd g;
      g ← InitConnect sfd p g;
      Ok (p, set_pool (<[sfd := p]> (conn_mgr g)) (free_conn_mgr g) (u64 (total_conn g + 1)) g)
  end.

Definition GetConnCount (g : GentAppMgr) : Z := u64 (total_conn g - zlen (free_conn_mgr g)).
Definition GetTotalConnCount (g : GentAppMgr) : Z := total_conn g.

(** [Destroy()] of a registered object: its [conn_] is NULL from then on. *)
Definition dest_Destroy (d : loc) (g : result GentAppMgr) : result GentAppMgr :=
  g ← g;
  match dests g !! d with
  | Some _ => Ok (set_dests (<[d := None]> (dests g)) g)
  | None => Fault OutOfBounds
  end.

(** [GentConnect::Destruct], with the descriptor it closes. *)
Definition Destruct (p : loc) (g : GentAppMgr) : result (option Z * GentAppMgr) :=
  c ← get_obj p g;
  let d := set_content None (rcont (cdata c)) (actualsize (cdata c)) (set_rbuf None (rsize (cdata c)) (cdata c)) in
  if fd d <? 0 then Ok (None, put_obj p (set_cdata d c) g)
  else
    g ← foldr dest_Destroy (Ok g) (elements (dest_list c));
    g ← Destroy (fd d) g;
    Ok (Some (fd d), put_obj p (set_ccomm None (set_dest_list ∅ (set_cdata d c))) g).

(** [delete conn]. *)
Definition DeleteConnect (p : loc) (g : GentAppMgr) : result GentAppMgr :=
  '(_, g) ← Destruct p g;
  Ok (set_objs (delete p (objs g)) g).

Definition set_fd (n : Z) (c : GentConnect) : GentConnect :=
  {| fd := n; rbuf := rbuf c; rsize := rsize c; content := content c; rcont := rcont c; cbuf := cbuf c; csize := csize c;
     cbytes := cbytes c; outstr := outstr c; sendsize := sendsize c; cursendsize := cursendsize c;
     remainsize := remainsize c; actualsize := actualsize c; ev_flags := ev_flags c |}.

(** The loop that gives idle connections up, from the front of the list. *)
Fixpoint trim (num : nat) (g : GentAppMgr) : result GentAppMgr :=
  match num with
  | O => Ok g
  | S num =>
      match free_conn_mgr g with
      | [] => Fault OutOfBounds
      | p :: f =>
          g ← DeleteConnect p g;
          trim num (set_pool (conn_mgr g) f (u64 (total_conn g - 1)) g)
      end
  end.

(** [RetConnect(c)]; [None] where it ends the process with [exit(1)]. *)
Definition RetConnect (p : loc) (g : GentAppMgr) : result (option GentAppMgr) :=
  c ← get_obj p g;
  match conn_mgr g !! fd (cdata c) with
  | None => Ok None
  | Some _ =>
      let m := delete (fd (cdata c)) (conn_mgr g) in
      let g := put_obj p (set_cdata (set_fd (-1) (cdata c)) c) g in
      let g := set_pool m (p :: free_conn_mgr g) (total_conn g) g in
      let linkNum := u64 (GetConnCount g * 20) in
      if linkNum <? zlen (free_conn_mgr g) then
        g ← trim (Z.to_nat (u64 (zlen (free_conn_mgr g) - linkNum))) g; Ok (Some g)
      else Ok (Some g)
  end.

(** [conn_ = c; c->RegDestroy(this)], as [GentRepMgr::LinkMaster],
    [GentReplication::Start] and [GentDestroy::SetConn] do. *)
Definition RegDestroy (d p : loc) (g : GentAppMgr) : result GentAppMgr :=
  c ← get_obj p g;
  match dests g !! d with
  | Some _ =>
      Ok (set_dests (<[d := Some p]> (dests g))
            (put_obj p (set_dest_list ({[ d ]} ∪ dest_list c) c) g))
  | None => Fault OutOfBounds
  end.

(** A new object without a connection, and the end of one ([ClearRep], which
    [Logout] starts only where [conn_] is NULL). *)
Definition NewDest (g : GentAppMgr) : loc * GentAppMgr :=
  let d := fresh (dom (dests g)) in (d, set_dests (<[d := None]> (dests g)) g).
Definition DeleteDest (d : loc) (g : GentAppMgr) : result GentAppMgr :=
  match dests g !! d with
  | Some None => Ok (set_dests (delete d (dests g)) g)
  | Some (Some _) => Ok g
  | None => Fault OutOfBounds
  end.
End pool.
Arguments GentAppMgr : clear implicits.

(** ** Modules

    The pool of handlers by command number ([Register], [GetModule],
    [SetModule]); nothing registers one in this program. *)
Section modules.
Context {A : Type} (CloneProccess : A → A).

Definition def_num : nat := 10.
Abbreviation APP_MODULE := (gmap Z (list A)).

(** The second test inserts an empty list, which the assignment replaces. *)
Definition Register (cmd : Z) (app : A) (m : APP_MODULE) : Z * APP_MODULE :=
  if bool_decide (is_Some (m !! cmd)) then (1, m)
  else if bool_decide (def_num ≤ length (default [] (m !! cmd)))%nat then (1, <[cmd := []]> m)
  else (0, <[cmd := replicate def_num (CloneProccess app)]> m).

Definition GetModule (cmd : Z) (m : APP_MODULE) : option A * Z * APP_MODULE :=
  match m !! cmd with
  | None => (None, 1, m)
  | Some v =>
      match last v with
      | None => (None, 1, m)
      | Some a => (Some a, 0, <[cmd := take (length v - 1) v]> m)
      end
  end.

Definition SetModule (cmd : Z) (app : A) (m : APP_MODULE) : Z * APP_MODULE :=
  match m !! cmd with
  | None => (1, m)
  | Some v => (0, <[cmd := v ++ [app]]> m)
  end.
End modules.
End AppMgr.
