(* ===== verification/AppMgrSpec.v ===== *)
(** * The pool keeps its books

    The invariant of [GentAppMgr]: every connection object is either idle and
    in the list, or in use and found under its descriptor; the total is
    right; commands and registered objects are alive as long as something
    points to them. Connections in [K] have been destructed and wait for
    [RetConnect]. *)

From S2P Require Import Prelude Cstd Cmem Sds LevelDb Db Config Redis Connect AppMgr.
Import Connect AppMgr.

Section spec.
Context `{Malloc} {C : Type} (Clone : C) (blank : connection).
Implicit Types g : GentAppMgr C.

Record pool_ok g (K : gset loc) : Prop := {
  po_objs p c : objs g !! p = Some c →
    fd (cdata c) = -1 ∧ p ∈ free_conn_mgr g ∨ 0 ≤ fd (cdata c) < 2 ^ 31 ∧ conn_mgr g !! fd (cdata c) = Some p;
  po_map f p : conn_mgr g !! f = Some p → ∃ c, objs g !! p = Some c ∧ fd (cdata c) = f ∧ 0 ≤ f;
  po_free p : p ∈ free_conn_mgr g →
    ∃ c, objs g !! p = Some c ∧ fd (cdata c) = -1 ∧ rbuf (cdata c) = None ∧ ccomm c = None ∧ dest_list c = ∅;
  po_half p : p ∈ K →
    ∃ c, objs g !! p = Some c ∧ 0 ≤ fd (cdata c) ∧ rbuf (cdata c) = None ∧ ccomm c = None ∧ dest_list c = ∅;
  po_nodup : NoDup (free_conn_mgr g);
  po_total : total_conn g = zlen (free_conn_mgr g) + Z.of_nat (size (conn_mgr g));
  po_size : Z.of_nat (size (objs g)) = total_conn g;
  po_live p c : objs g !! p = Some c → 0 ≤ fd (cdata c) → p ∉ K →
    ∃ q, ccomm c = Some q ∧ plus_mgr g !! fd (cdata c) = Some q ∧ is_Some (cmds g !! q);
  po_inj p1 p2 c1 c2 q : objs g !! p1 = Some c1 → objs g !! p2 = Some c2 →
    ccomm c1 = Some q → ccomm c2 = Some q → p1 = p2;
  po_dest d p : dests g !! d = Some (Some p) → ∃ c, objs g !! p = Some c ∧ d ∈ dest_list c;
  po_reg p c d : objs g !! p = Some c → d ∈ dest_list c → is_Some (dests g !! d)
}.

(** Idle connections are at most twenty times those in use. *)
Definition trimmed g : Prop := zlen (free_conn_mgr g) ≤ 20 * Z.of_nat (size (conn_mgr g)).

(** ** Sizes *)

Lemma size_keys {A} (m : gmap Z A) n : 0 ≤ n → (∀ k, is_Some (m !! k) → 0 ≤ k < n) → Z.of_nat (size m) ≤ n.
Proof.
  intros Hn Hk. rewrite <- (size_dom (D := gset Z)).
  assert ((dom m : gset Z) ⊆ list_to_set (seqZ 0 n)) as Hsub.
  { intros k Hin. apply elem_of_dom in Hin. apply elem_of_list_to_set, elem_of_seqZ. specialize (Hk k Hin). lia. }
  apply subseteq_size in Hsub. rewrite size_list_to_set in Hsub by apply NoDup_seqZ. rewrite length_seqZ in Hsub. lia.
Qed.

Lemma in_use_bound g K : pool_ok g K → Z.of_nat (size (conn_mgr g)) ≤ 2 ^ 31.
Proof.
  intros Hok. apply size_keys; [lia|]. intros f [p Hp]. destruct (po_map _ _ Hok _ _ Hp) as (c & Hc & Hf & H0).
  destruct (po_objs _ _ Hok _ _ Hc) as [[? _]|[? _]]; lia.
Qed.

Lemma total_bound g K : pool_ok g K → trimmed g → 0 ≤ total_conn g < 2 ^ 40.
Proof.
  intros Hok Ht. pose proof (in_use_bound g K Hok). unfold trimmed in Ht. rewrite (po_total _ _ Hok).
  pose proof (zlen_nonneg (free_conn_mgr g)). lia.
Qed.

(** ** Taking a connection *)

Definition buf_ok (d : GentConnect) : Prop :=
  match rbuf d with None => True | Some b => zlen b = rsize d end.

(** The pool behind [GetConnect]. *)
Record adopted (f : Z) (p : loc) (c : connection) (q : loc) g g' : Prop := {
  ad_map : conn_mgr g' = <[f := p]> (conn_mgr g);
  ad_objs : objs g' = <[p := c]> (objs g);
  ad_fd : fd (cdata c) = f;
  ad_comm : ccomm c = Some q;
  ad_new : cmds g !! q = None;
  ad_cmds q' : is_Some (cmds g !! q') ∨ q' = q → is_Some (cmds g' !! q');
  ad_plus : plus_mgr g' = <[f := q]> (plus_mgr g);
  ad_dests : dests g' = dests g;
  ad_list : dest_list c = ∅;
  ad_free : objs g !! p = None ∧ free_conn_mgr g' = free_conn_mgr g ∧ total_conn g' = total_conn g + 1 ∨
            free_conn_mgr g = free_conn_mgr g' ++ [p] ∧ total_conn g' = total_conn g
}.

Section memory.
Context (Hmem : ∀ n, malloc_ok n = true).

Lemma Init_ok f (d : GentConnect) : buf_ok d → ∃ d', Connect.Init f d = Ok d' ∧ fd d' = f ∧ buf_ok d'.
Proof.
  intros Hb. unfold Connect.Init, ReAllocation, buf_ok in *. cbn [rbuf set_content rcont rsize].
  destruct (rbuf d) as [b|].
  - destruct (blit_ok b (replicate (Z.to_nat (rsize d)) 0) 0) as (b' & E & Hl); [lia| |].
    { unfold zlen in *. rewrite length_replicate. lia. }
    rewrite E. rbind. eexists. split; [done|]. split; [done|]. cbn. by rewrite Hl.
  - unfold zalloc. rewrite Hmem. rbind. eexists. split; [done|]. split; [done|]. cbn. unfold zlen. by rewrite length_replicate.
Qed.

Lemma InitConnect_ok f p g c : objs g !! p = Some c → buf_ok (cdata c) →
  ∃ q d, InitConnect Clone f p g =
      Ok (put_obj p (set_ccomm (Some q) (set_cdata d c)) (set_cmds (<[f := q]> (plus_mgr g)) (<[q := Clone]> (cmds g)) g)) ∧
    cmds g !! q = None ∧ fd d = f ∧ buf_ok d.
Proof.
  intros Hc Hb. destruct (Init_ok f (cdata c) Hb) as (d & E & Hf & Hd). unfold InitConnect, get_obj. rewrite Hc. rbind.
  unfold GetCommand. rewrite E. rbind. eexists _, d. split; [done|]. split; [|done].
  apply not_elem_of_dom. apply is_fresh.
Qed.

Lemma GetConnect_adopts f g K : pool_ok g K → trimmed g →
  ∃ p c q g', GetConnect Clone blank f g = Ok (p, g') ∧ adopted f p c q g g' ∧ buf_ok (cdata c).
Proof.
  intros Hok Ht. pose proof (total_bound _ _ Hok Ht). unfold GetConnect. destruct (last (free_conn_mgr g)) as [p|] eqn:El.
  - assert (∃ l, free_conn_mgr g = l ++ [p]) as [l Hl] by (apply last_Some in El; exact El).
    destruct (po_free _ _ Hok p) as (c & Hc & _ & Hr & _ & Hd); [rewrite Hl; set_solver|].
    destruct (InitConnect_ok f p g c Hc) as (q & d & E & Hq & Hf & Hb); [by unfold buf_ok; rewrite Hr|]. rewrite E. rbind.
    exists p, (set_ccomm (Some q) (set_cdata d c)), q. eexists. split; [done|]. split; [|exact Hb].
    split; [done|done|done|done|done| |done|done|done|].
    + cbn. intros q' [Hq'| ->]; [|by rewrite lookup_insert_eq]. rewrite lookup_insert_is_Some. by destruct (decide (q = q')); auto.
    + right. cbn. rewrite Hl, length_app. cbn. rewrite Nat.add_sub, take_app_length. done.
  - unfold NewConnect. set (p := fresh (dom (objs g))). set (c0 := set_dest_list _ _).
    assert (objs g !! p = None) as Hp by (apply not_elem_of_dom, is_fresh).
    destruct (InitConnect_ok f p (put_obj p c0 g) c0) as (q1 & d1 & E1 & Hq1 & Hf1 & Hb1); [apply lookup_insert_eq|done|].
    rewrite E1. rbind. match goal with |- context [InitConnect Clone f p ?x] => set (g1 := x) end.
    destruct (InitConnect_ok f p g1 (set_ccomm (Some q1) (set_cdata d1 c0))) as (q & d & E & Hq & Hf & Hb); [apply lookup_insert_eq|exact Hb1|].
    rewrite E. rbind. exists p, (set_ccomm (Some q) (set_cdata d (set_ccomm (Some q1) (set_cdata d1 c0)))), q. eexists.
    split; [done|]. split; [|exact Hb]. cbn in Hq.
    apply lookup_insert_None in Hq as [Hq Hne]. split; [done| |done|done|done| |cbn; by rewrite insert_insert_eq|done|done|].
    + cbn. by rewrite !insert_insert_eq.
    + cbn. intros q' Hq'. rewrite !lookup_insert_is_Some. destruct (decide (q = q')); [by left|]. right. split; [done|].
      destruct (decide (q1 = q')); [by left|]. right. split; [done|]. destruct Hq'; congruence.
    + left. split; [done|]. split; [done|]. cbn. apply u64_small. lia.
Qed.

End memory.

(** Only connections in use, and not destructed, have a command. *)
Lemma comm_alive g K p c q : pool_ok g K → objs g !! p = Some c → ccomm c = Some q → is_Some (cmds g !! q).
Proof.
  intros Hok Hc Hq. destruct (po_objs _ _ Hok _ _ Hc) as [[? Hin]|[H0 _]].
  - destruct (po_free _ _ Hok _ Hin) as (? & ? & _ & _ & ? & _). congruence.
  - destruct (decide (p ∈ K)) as [HK|HK].
    + destruct (po_half _ _ Hok _ HK) as (? & ? & _ & _ & ? & _). congruence.
    + destruct (po_live _ _ Hok _ _ Hc ltac:(lia) HK) as (q' & ? & _ & ?). congruence.
Qed.

Lemma adopted_free f p c q g g' K : pool_ok g K → adopted f p c q g g' →
  (∀ p', p' ∈ free_conn_mgr g' → p' ∈ free_conn_mgr g ∧ p' ≠ p) ∧
  (∀ p', p' ∈ free_conn_mgr g → p' ∈ free_conn_mgr g' ∨ p' = p) ∧
  (∀ p' c', objs g !! p' = Some c' → 0 ≤ fd (cdata c') → p' ≠ p).
Proof.
  intros Hok [_ _ _ _ _ _ _ _ _ Hfr]. pose proof (po_nodup _ _ Hok) as Hn. split; [|split].
  - intros p' Hin. destruct Hfr as [(Hp & E & _)|[E _]].
    + rewrite E in Hin. split; [done|]. intros ->. destruct (po_free _ _ Hok _ Hin) as (? & ? & _). congruence.
    + rewrite E in Hn |- *. split; [set_solver|]. intros ->. apply NoDup_app in Hn as (_ & Hn & _). apply (Hn p Hin). set_solver.
  - intros p' Hin. destruct Hfr as [(_ & E & _)|[E _]]; rewrite E in *; [by left|]. set_solver.
  - intros p' c' Hc' H0 ->. destruct Hfr as [(Hp & _)|[E _]]; [congruence|].
    destruct (po_free _ _ Hok p) as (? & ? & ? & _); [rewrite E; set_solver|]. simplify_eq. lia.
Qed.

Lemma adopted_ok f p c q g g' K : pool_ok g K → conn_mgr g !! f = None → 0 ≤ f < 2 ^ 31 → adopted f p c q g g' → pool_ok g' K.
Proof.
  intros Hok Hf Hr [Em Eo Ef Ec Hq Hcm Ep Ed El Hfr].
  destruct (adopted_free f p c q g g' K Hok) as (Hsub & Hsup & Hbusy); [by split|].
  split.
  - intros p' c'. rewrite Eo, lookup_insert_Some. intros [[<- <-]|[Hne Hc']].
    { right. rewrite Ef, Em, lookup_insert_eq. done. }
    destruct (po_objs _ _ Hok _ _ Hc') as [[? Hin]|[? Hm]].
    + left. split; [done|]. destruct (Hsup _ Hin); [done|congruence].
    + right. split; [done|]. rewrite Em, lookup_insert_ne; [done|]. congruence.
  - intros f' p'. rewrite Em, lookup_insert_Some. intros [[<- <-]|[Hne Hm]].
    { exists c. rewrite Eo, lookup_insert_eq. repeat split; [done|lia]. }
    destruct (po_map _ _ Hok _ _ Hm) as (c' & Hc' & Hfd & H0). exists c'. split; [|done].
    rewrite Eo, lookup_insert_ne; [done|]. specialize (Hbusy _ _ Hc' ltac:(lia)). congruence.
  - intros p' Hin. destruct (Hsub _ Hin) as [Hin' Hne]. destruct (po_free _ _ Hok _ Hin') as (c' & Hc' & Hrest).
    exists c'. split; [|done]. by rewrite Eo, lookup_insert_ne by congruence.
  - intros p' Hin. destruct (po_half _ _ Hok _ Hin) as (c' & Hc' & H0 & Hrest). exists c'. split; [|done].
    rewrite Eo, lookup_insert_ne; [done|]. specialize (Hbusy _ _ Hc' H0). congruence.
  - destruct Hfr as [(_ & -> & _)|[E _]]; [apply (po_nodup _ _ Hok)|]. pose proof (po_nodup _ _ Hok) as Hn. rewrite E in Hn.
    by apply NoDup_app in Hn as (? & _).
  - rewrite Em, map_size_insert_None by done. pose proof (po_total _ _ Hok) as Ht.
    destruct Hfr as [(_ & -> & ->)|[E ->]]; [lia|]. rewrite Ht, E, zlen_app. change (zlen [p]) with 1. lia.
  - pose proof (po_size _ _ Hok). rewrite Eo. destruct Hfr as [(Hp & _ & ->)|[E ->]]; [rewrite map_size_insert_None by done; lia|].
    destruct (po_free _ _ Hok p) as (? & ? & _); [rewrite E; set_solver|]. by rewrite map_size_insert_Some.
  - intros p' c'. rewrite Eo, lookup_insert_Some. intros [[<- <-]|[Hne Hc']] H0 HK.
    { exists q. rewrite Ef, Ep, lookup_insert_eq. auto. }
    destruct (po_live _ _ Hok _ _ Hc' H0 HK) as (q' & ? & Hp' & Hq'). exists q'. split; [done|]. split; [|auto].
    rewrite Ep, lookup_insert_ne; [done|]. intros ->.
    destruct (po_objs _ _ Hok _ _ Hc') as [[? _]|[_ Hm]]; [lia|congruence].
  - assert (∀ p' c', objs g !! p' = Some c' → ccomm c' ≠ Some q) as Hfresh.
    { intros p' c' Hc' Hcc. destruct (comm_alive _ _ _ _ _ Hok Hc' Hcc). congruence. }
    intros p1 p2 c1 c2 q'. rewrite Eo, !lookup_insert_Some.
    intros [[<- <-]|[_ Hc1]] [[<- <-]|[_ Hc2]] H1 H2; [done| | |by eapply (po_inj _ _ Hok)].
    + destruct (Hfresh _ _ Hc2). congruence.
    + destruct (Hfresh _ _ Hc1). congruence.
  - intros d p'. rewrite Ed, Eo. intros Hd. destruct (po_dest _ _ Hok _ _ Hd) as (c' & Hc' & Hin). exists c'. split; [|done].
    rewrite lookup_insert_ne; [done|]. intros ->. destruct Hfr as [(Hp & _)|[E _]]; [congruence|].
    destruct (po_free _ _ Hok p') as (? & ? & _ & _ & _ & ?); [rewrite E; set_solver|]. simplify_eq. set_solver.
  - intros p' c' d. rewrite Ed, Eo, lookup_insert_Some. intros [[<- <-]|[_ Hc']] Hin; [set_solver|]. by eapply (po_reg _ _ Hok).
Qed.

Lemma adopted_trimmed f p c q g g' : trimmed g → conn_mgr g !! f = None → adopted f p c q g g' → trimmed g'.
Proof.
  intros Ht Hf [Em _ _ _ _ _ _ _ _ Hfr]. unfold trimmed in *. rewrite Em, map_size_insert_None by done.
  destruct Hfr as [(_ & -> & _)|[E _]]; [lia|]. rewrite E, zlen_app in Ht. change (zlen [p]) with 1 in Ht. lia.
Qed.

(** ** Destructing a connection *)

Lemma dest_Destroy_all (l : list loc) g : (∀ d, d ∈ l → is_Some (dests g !! d)) →
  ∃ D, foldr dest_Destroy (Ok g) l = Ok (set_dests D g) ∧
    ∀ d, D !! d = if bool_decide (d ∈ l) then Some None else dests g !! d.
Proof.
  induction l as [|d l IH]; intros Hl.
  { exists (dests g). split; [by destruct g|]. intros d. by rewrite bool_decide_eq_false_2 by set_solver. }
  destruct IH as (D & E & HD); [set_solver|]. destruct (Hl d) as [o Ho]; [set_solver|].
  cbn [foldr]. rewrite E. unfold dest_Destroy. rbind. cbn [dests set_dests]. rewrite HD.
  assert (∃ x, (if bool_decide (d ∈ l) then Some None else dests g !! d) = Some x) as [x ->] by (rewrite Ho; case_bool_decide; eauto).
  eexists. split; [done|]. intros d'. destruct (decide (d = d')) as [<-|Hne].
  - rewrite lookup_insert_eq, bool_decide_eq_true_2; [done|set_solver].
  - rewrite lookup_insert_ne by done. rewrite HD. apply eq_trans with (if bool_decide (d' ∈ l) then Some None else dests g !! d'); [done|].
    do 2 case_bool_decide; set_solver.
Qed.

Definition stripped (c : connection) : connection :=
  set_ccomm None (set_dest_list ∅ (set_cdata (set_content None (rcont (cdata c)) (actualsize (cdata c))
    (set_rbuf None (rsize (cdata c)) (cdata c))) c)).

Lemma Destruct_ok g K p c : pool_ok g K → objs g !! p = Some c → 0 ≤ fd (cdata c) → p ∉ K →
  ∃ g', Destruct p g = Ok (Some (fd (cdata c)), g') ∧ pool_ok g' ({[ p ]} ∪ K) ∧
    objs g' = <[p := stripped c]> (objs g) ∧ conn_mgr g' = conn_mgr g ∧ free_conn_mgr g' = free_conn_mgr g ∧
    dom (dests g') = dom (dests g).
Proof.
  intros Hok Hc H0 HK. destruct (po_live _ _ Hok _ _ Hc H0 HK) as (q & Hq & Hp & [x Hx]).
  destruct (dest_Destroy_all (elements (dest_list c)) g) as (D & ED & HD).
  { intros d Hd. apply elem_of_elements in Hd. by eapply (po_reg _ _ Hok). }
  unfold Destruct, get_obj. rewrite Hc. rbind. cbn [fd set_content set_rbuf]. rewrite (proj2 (Z.ltb_ge _ _) H0), ED. rbind.
  unfold Destroy. cbn [plus_mgr cmds set_dests]. rewrite Hp, Hx. rbind. eexists. split; [done|].
  assert (∀ d, D !! d = if bool_decide (d ∈ dest_list c) then Some None else dests g !! d) as HD'.
  { intros d. rewrite HD. do 2 case_bool_decide; set_solver. }
  split; [|split; [done|]; split; [done|]; split; [done|]].
  2:{ cbn. apply set_eq. intros d. rewrite !elem_of_dom, HD'. case_bool_decide as Hin; [|done].
      pose proof (po_reg _ _ Hok _ _ _ Hc Hin). split; [done|]. intros _. by eexists. }
  fold (stripped c). split; cbn [objs put_obj set_objs conn_mgr free_conn_mgr total_conn plus_mgr cmds dests set_cmds set_dests].
  - intros p' c'. rewrite lookup_insert_Some. intros [[<- <-]|[_ Hc']]; [exact (po_objs _ _ Hok _ _ Hc)|exact (po_objs _ _ Hok _ _ Hc')].
  - intros f p' Hm. destruct (po_map _ _ Hok _ _ Hm) as (c' & Hc' & Hrest). destruct (decide (p = p')) as [<-|Hne].
    + exists (stripped c). rewrite lookup_insert_eq. by simplify_eq.
    + exists c'. by rewrite lookup_insert_ne.
  - intros p' Hin. destruct (po_free _ _ Hok _ Hin) as (c' & Hc' & Hfd & Hrest). exists c'. split; [|done].
    rewrite lookup_insert_ne; [done|]. intros ->. simplify_eq. lia.
  - intros p' [->%elem_of_singleton|Hin]%elem_of_union; [exists (stripped c); by rewrite lookup_insert_eq|].
    destruct (po_half _ _ Hok _ Hin) as (c' & Hc' & Hrest). exists c'. split; [|done]. rewrite lookup_insert_ne; [done|]. congruence.
  - apply (po_nodup _ _ Hok).
  - apply (po_total _ _ Hok).
  - rewrite map_size_insert_Some by done. apply (po_size _ _ Hok).
  - intros p' c'. rewrite lookup_insert_Some. intros [[<- _]|[Hne Hc']] H0' HK'; [set_solver|].
    destruct (po_live _ _ Hok _ _ Hc' H0') as (q' & Hq' & Hp' & Hx'); [set_solver|]. exists q'. split; [done|]. split; [done|].
    rewrite lookup_delete_is_Some. split; [|done]. intros <-. apply Hne. by eapply (po_inj _ _ Hok).
  - intros p1 p2 c1 c2 q'. rewrite !lookup_insert_Some. intros [[<- <-]|[_ H1]] [[<- <-]|[_ H2]] E1 E2; try done.
    by eapply (po_inj _ _ Hok).
  - intros d p'. rewrite HD'. case_bool_decide as Hin; [done|]. intros Hd. destruct (po_dest _ _ Hok _ _ Hd) as (c' & Hc' & Hin').
    exists c'. rewrite lookup_insert_ne; [done|]. intros ->. by simplify_eq.
  - intros p' c' d. rewrite lookup_insert_Some. intros [[<- <-]|[_ Hc']] Hin; [set_solver|]. rewrite HD'.
    case_bool_decide; [by eexists|]. by eapply (po_reg _ _ Hok).
Qed.

(** ** Returning a connection *)

Lemma drop_ok g K p f : pool_ok g K → free_conn_mgr g = p :: f →
  pool_ok (set_pool (conn_mgr g) f (total_conn g - 1) (set_objs (delete p (objs g)) g)) K.
Proof.
  intros Hok Hf. destruct (po_free _ _ Hok p) as (c & Hc & Hfd & _ & _ & Hdl); [rewrite Hf; set_solver|].
  assert (∀ p' c', objs g !! p' = Some c' → 0 ≤ fd (cdata c') → p ≠ p') as Hbusy by (intros p' c' Hc' H0 ->; simplify_eq; lia).
  pose proof (po_nodup _ _ Hok) as Hn. rewrite Hf in Hn. apply NoDup_cons in Hn as [Hpf Hn].
  split; cbn [objs set_objs set_pool conn_mgr free_conn_mgr total_conn plus_mgr cmds dests].
  - intros p' c' [Hne Hc']%lookup_delete_Some. destruct (po_objs _ _ Hok _ _ Hc') as [[? Hin]|?]; [left|by right].
    split; [done|]. rewrite Hf in Hin. set_solver.
  - intros f' p' Hm. destruct (po_map _ _ Hok _ _ Hm) as (c' & Hc' & ? & ?). exists c'. split; [|done].
    rewrite lookup_delete_ne; [done|]. eapply Hbusy; [done|lia].
  - intros p' Hin. destruct (po_free _ _ Hok p') as (c' & Hc' & Hrest); [rewrite Hf; set_solver|]. exists c'. split; [|done].
    rewrite lookup_delete_ne; [done|]. by intros ->.
  - intros p' Hin. destruct (po_half _ _ Hok _ Hin) as (c' & Hc' & H0 & Hrest). exists c'. split; [|done].
    rewrite lookup_delete_ne; [done|]. by eapply Hbusy.
  - done.
  - rewrite (po_total _ _ Hok), Hf, zlen_cons. lia.
  - pose proof (po_size _ _ Hok). rewrite map_size_delete_Some by done.
    assert (size (objs g) ≠ 0%nat) by (rewrite map_size_non_empty_iff; by intros E; rewrite E in Hc). lia.
  - intros p' c' [_ Hc']%lookup_delete_Some. by apply (po_live _ _ Hok).
  - intros p1 p2 c1 c2 q [_ H1]%lookup_delete_Some [_ H2]%lookup_delete_Some. by eapply (po_inj _ _ Hok).
  - intros d p' Hd. destruct (po_dest _ _ Hok _ _ Hd) as (c' & Hc' & Hin). exists c'. split; [|done].
    rewrite lookup_delete_ne; [done|]. intros ->. simplify_eq. set_solver.
  - intros p' c' d [_ Hc']%lookup_delete_Some. by eapply (po_reg _ _ Hok).
Qed.

Lemma trim_ok n : ∀ g K, pool_ok g K → (n ≤ length (free_conn_mgr g))%nat → total_conn g < 2 ^ 64 →
  ∃ g', trim n g = Ok g' ∧ pool_ok g' K ∧ free_conn_mgr g' = drop n (free_conn_mgr g) ∧ conn_mgr g' = conn_mgr g ∧
    dests g' = dests g ∧ ∀ p, p ∉ free_conn_mgr g → objs g' !! p = objs g !! p.
Proof.
  induction n as [|n IH]; intros g K Hok Hn Hb; [by exists g|]. cbn [trim]. destruct (free_conn_mgr g) as [|p f] eqn:Ef; [cbn in Hn; lia|].
  destruct (po_free _ _ Hok p) as (c & Hc & Hfd & _); [rewrite Ef; set_solver|].
  unfold DeleteConnect, Destruct, get_obj. rewrite Hc. rbind. cbn [fd set_content set_rbuf]. rewrite Hfd. cbn [Z.ltb Z.compare]. rbind.
  pose proof (drop_ok g K p f Hok Ef) as Hok'. pose proof (po_total _ _ Hok) as Ht. rewrite Ef, zlen_cons in Ht. pose proof (zlen_nonneg f).
  match goal with |- context [trim n ?x] => replace x with (set_pool (conn_mgr g) f (total_conn g - 1) (set_objs (delete p (objs g)) g)) end.
  2:{ unfold set_pool, set_objs, put_obj. cbn. rewrite delete_insert_eq, (u64_small (total_conn g - 1)) by lia. done. }
  destruct (IH _ _ Hok') as (g' & E & Hok2 & Hf & Hm & Hd & Ho); [cbn in *; lia|cbn; lia|]. exists g'. split; [done|]. split; [done|].
  split; [done|]. split; [done|]. split; [done|]. intros p' Hp'. rewrite Ho by set_solver. cbn. apply lookup_delete_ne. set_solver.
Qed.

Lemma returned_ok g K p c : pool_ok g K → objs g !! p = Some c → p ∈ K →
  pool_ok (set_pool (delete (fd (cdata c)) (conn_mgr g)) (p :: free_conn_mgr g) (total_conn g)
    (put_obj p (set_cdata (set_fd (-1) (cdata c)) c) g)) (K ∖ {[ p ]}).
Proof.
  intros Hok Hc HK. destruct (po_half _ _ Hok _ HK) as (? & ? & H0 & Hr & Hcm & Hdl). simplify_eq.
  destruct (po_objs _ _ Hok _ _ Hc) as [[? _]|[_ Hm]]; [lia|].
  assert (p ∉ free_conn_mgr g) as Hnf by (intros Hin; destruct (po_free _ _ Hok _ Hin) as (? & ? & ? & _); simplify_eq; lia).
  split; cbn [objs put_obj set_objs set_pool conn_mgr free_conn_mgr total_conn plus_mgr cmds dests].
  - intros p' c'. rewrite lookup_insert_Some. intros [[<- <-]|[Hne Hc']]; [left; split; [done|set_solver]|].
    destruct (po_objs _ _ Hok _ _ Hc') as [[? Hin]|[? Hm']]; [left; split; [done|set_solver]|right]. split; [done|].
    rewrite lookup_delete_ne; [done|]. congruence.
  - intros f' p' [Hne Hm']%lookup_delete_Some. destruct (po_map _ _ Hok _ _ Hm') as (c' & Hc' & Hfd & H0'). exists c'. split; [|done].
    rewrite lookup_insert_ne; [done|]. intros ->. by simplify_eq.
  - intros p' [->|Hin]%elem_of_cons; [eexists; by rewrite lookup_insert_eq|].
    destruct (po_free _ _ Hok _ Hin) as (c' & Hc' & Hrest). exists c'. split; [|done]. rewrite lookup_insert_ne; [done|]. set_solver.
  - intros p' [Hin Hne]%elem_of_difference. destruct (po_half _ _ Hok _ Hin) as (c' & Hc' & Hrest). exists c'. split; [|done].
    rewrite lookup_insert_ne; [done|]. set_solver.
  - constructor; [done|apply (po_nodup _ _ Hok)].
  - rewrite (po_total _ _ Hok), zlen_cons. rewrite map_size_delete_Some by (by eexists).
    assert (size (conn_mgr g) ≠ 0%nat) by (rewrite map_size_non_empty_iff; by intros E; rewrite E in Hm). lia.
  - rewrite map_size_insert_Some by done. apply (po_size _ _ Hok).
  - intros p' c'. rewrite lookup_insert_Some. intros [[<- <-]|[Hne Hc']] H0' HK'; [done|]. apply (po_live _ _ Hok p' c' Hc' H0'). set_solver.
  - intros p1 p2 c1 c2 q. rewrite !lookup_insert_Some. intros [[<- <-]|[_ H1]] [[<- <-]|[_ H2]] E1 E2; [done| | |by eapply (po_inj _ _ Hok)];
      cbn in *; congruence.
  - intros d p' Hd. destruct (po_dest _ _ Hok _ _ Hd) as (c' & Hc' & Hin). destruct (decide (p = p')) as [<-|Hne].
    + simplify_eq. set_solver.
    + exists c'. by rewrite lookup_insert_ne.
  - intros p' c' d. rewrite lookup_insert_Some. intros [[<- <-]|[_ Hc']] Hin; [cbn in Hin; set_solver|]. by eapply (po_reg _ _ Hok).
Qed.

Lemma RetConnect_ok g K p c : pool_ok g K → trimmed g → objs g !! p = Some c → p ∈ K →
  ∃ g', RetConnect p g = Ok (Some g') ∧ pool_ok g' (K ∖ {[ p ]}) ∧ trimmed g' ∧
    conn_mgr g' = delete (fd (cdata c)) (conn_mgr g) ∧ dests g' = dests g ∧
    ∀ p', p' ≠ p → p' ∉ free_conn_mgr g → objs g' !! p' = objs g !! p'.
Proof.
  intros Hok Ht Hc HK. pose proof (total_bound _ _ Hok Ht) as Hb. pose proof (returned_ok g K p c Hok Hc HK) as Hok1.
  pose proof (in_use_bound _ _ Hok1) as Hu. pose proof (po_total _ _ Hok1) as Ht1.
  destruct (po_half _ _ Hok _ HK) as (? & ? & H0 & _). simplify_eq. destruct (po_objs _ _ Hok _ _ Hc) as [[? _]|[_ Hm]]; [lia|].
  unfold RetConnect, get_obj. rewrite Hc. rbind. rewrite Hm. cbn zeta. set (g1 := set_pool _ _ _ _) in *. change (p :: free_conn_mgr g) with (free_conn_mgr g1) in Ht1 |- *.
  assert (total_conn g1 = total_conn g) as Et by done.
  assert (GetConnCount g1 = Z.of_nat (size (conn_mgr g1))) as Ecount by (unfold GetConnCount; rewrite u64_small; lia).
  rewrite Ecount, (u64_small (_ * 20)) by lia. set (k := Z.of_nat (size (conn_mgr g1))) in *. pose proof (zlen_nonneg (free_conn_mgr g1)).
  destruct (Z.ltb_spec (k * 20) (zlen (free_conn_mgr g1))) as [Hlt|Hge].
  - rewrite u64_small by lia.
    destruct (trim_ok (Z.to_nat (zlen (free_conn_mgr g1) - k * 20)) g1 _ Hok1) as (g' & E & Hok' & Hf & Hm' & Hd & Ho); [unfold zlen in *; lia|lia|].
    rewrite E. rbind. exists g'. split; [done|]. split; [done|]. split; [|split; [by rewrite Hm'|split; [done|]]].
    + unfold trimmed. rewrite Hf, Hm'. fold k. unfold zlen in *. rewrite length_drop. lia.
    + intros p' Hne Hin. rewrite Ho; [|cbn; set_solver]. cbn. by apply lookup_insert_ne.
  - exists g1. split; [done|]. split; [done|]. split; [unfold trimmed; fold k; lia|]. split; [done|]. split; [done|].
    intros p' Hne _. cbn. by apply lookup_insert_ne.
Qed.

(** ** Attaching an object to a connection *)

Lemma RegDestroy_ok g K p c d : pool_ok g K → objs g !! p = Some c → 0 ≤ fd (cdata c) → p ∉ K → is_Some (dests g !! d) →
  ∃ g', RegDestroy d p g = Ok g' ∧ pool_ok g' K ∧ objs g' = <[p := set_dest_list ({[ d ]} ∪ dest_list c) c]> (objs g) ∧
    conn_mgr g' = conn_mgr g ∧ free_conn_mgr g' = free_conn_mgr g ∧ dests g' = <[d := Some p]> (dests g).
Proof.
  intros Hok Hc H0 HK [o Ho]. unfold RegDestroy, get_obj. rewrite Hc. rbind. rewrite Ho. eexists. split; [done|].
  split; [|done]. set (c2 := set_dest_list _ _).
  split; cbn [objs put_obj set_objs set_dests conn_mgr free_conn_mgr total_conn plus_mgr cmds dests].
  - intros p' c'. rewrite lookup_insert_Some. intros [[<- <-]|[_ Hc']]; [exact (po_objs _ _ Hok _ _ Hc)|by apply (po_objs _ _ Hok)].
  - intros f p' Hm. destruct (po_map _ _ Hok _ _ Hm) as (c' & Hc' & Hrest). destruct (decide (p = p')) as [<-|Hne].
    + exists c2. rewrite lookup_insert_eq. by simplify_eq.
    + exists c'. by rewrite lookup_insert_ne.
  - intros p' Hin. destruct (po_free _ _ Hok _ Hin) as (c' & Hc' & Hfd & Hrest). exists c'. split; [|done].
    rewrite lookup_insert_ne; [done|]. intros ->. simplify_eq. lia.
  - intros p' Hin. destruct (po_half _ _ Hok _ Hin) as (c' & Hc' & Hrest). exists c'. split; [|done]. rewrite lookup_insert_ne; [done|]. congruence.
  - apply (po_nodup _ _ Hok).
  - apply (po_total _ _ Hok).
  - rewrite map_size_insert_Some by done. apply (po_size _ _ Hok).
  - intros p' c'. rewrite lookup_insert_Some. intros [[<- <-]|[_ Hc']] H0' HK'; [exact (po_live _ _ Hok _ _ Hc H0 HK)|by eapply (po_live _ _ Hok)].
  - intros p1 p2 c1 c2' q. rewrite !lookup_insert_Some. intros [[<- <-]|[_ H1]] [[<- <-]|[_ H2]] E1 E2; [done| | |];
      eapply (po_inj _ _ Hok); eauto.
  - intros d' p'. rewrite lookup_insert_Some. intros [[<- [= <-]]|[_ Hd]]; [exists c2; rewrite lookup_insert_eq; split; [done|cbn; set_solver]|].
    destruct (po_dest _ _ Hok _ _ Hd) as (c' & Hc' & Hin). destruct (decide (p = p')) as [<-|Hne].
    + exists c2. rewrite lookup_insert_eq. simplify_eq. split; [done|cbn; set_solver].
    + exists c'. by rewrite lookup_insert_ne.
  - intros p' c' d'. rewrite lookup_insert_Some. intros [[<- <-]|[_ Hc']] Hin; rewrite lookup_insert_is_Some; (destruct (decide (d = d')); [by left|right; split; [done|]]).
    + cbn in Hin. eapply (po_reg _ _ Hok); [exact Hc|set_solver].
    + by eapply (po_reg _ _ Hok).
Qed.

Lemma dests_ok g K (D : gmap loc (option loc)) : pool_ok g K →
  (∀ d p, D !! d = Some (Some p) → dests g !! d = Some (Some p)) →
  (∀ p c d, objs g !! p = Some c → d ∈ dest_list c → is_Some (D !! d)) → pool_ok (set_dests D g) K.
Proof.
  intros Hok H1 H2. destruct Hok as [A1 A2 A3 A4 A5 A6 A7 A8 A9 A10 A11]. split; cbn; try done.
  intros d p Hd. by apply A10, H1.
Qed.

Lemma NewDest_ok g K : pool_ok g K → pool_ok (NewDest g).2 K.
Proof.
  intros Hok. apply dests_ok; [done| |].
  - intros d p. rewrite lookup_insert_Some. naive_solver.
  - intros p c d Hc Hd. rewrite lookup_insert_is_Some. destruct (decide (fresh (dom (dests g)) = d)); [by left|right].
    split; [done|]. by eapply (po_reg _ _ Hok).
Qed.

Lemma DeleteDest_ok g K d : pool_ok g K → is_Some (dests g !! d) → (∀ p c, objs g !! p = Some c → d ∉ dest_list c) →
  ∃ D, DeleteDest d g = Ok (set_dests D g) ∧ pool_ok (set_dests D g) K.
Proof.
  intros Hok [o Ho] Hd. unfold DeleteDest. rewrite Ho. destruct o as [p|].
  - exists (dests g). split; [by destruct g|]. by apply dests_ok; [|done|apply (po_reg _ _ Hok)].
  - eexists. split; [done|]. apply dests_ok; [done| |].
    + intros d' p [_ ?]%lookup_delete_Some. done.
    + intros p c d' Hc Hin. rewrite lookup_delete_ne; [by eapply (po_reg _ _ Hok)|]. intros <-. by apply (Hd p c).
Qed.

Lemma new_pool_ok : pool_ok GentAppMgr_new ∅.
Proof. split; cbn; intros; simplify_map_eq; try done; try set_solver; constructor. Qed.
End spec.
