(* ===== verification/Server.v ===== *)
(** * Threads, and how connections are handed to them (gent_thread.cpp,
    gent_event.cpp [HandleMain] and [Handle], gent_frame.cpp [Run])

    The main thread accepts a client, puts a [dataItem] into the queue of the
    next worker and writes a byte to the pipe of that worker; the worker takes
    the item, gets a connection from the pool and watches it. When the client
    is gone the worker destructs the connection, which closes its descriptor,
    and gives it back to the pool; between these two calls other threads can
    run. *)

From S2P Require Import Prelude Cstd Cmem Sds Msg LevelDb Db Config Redis Connect AppMgr.

Module Server.
Import Connect AppMgr.

Definition MAX_CONNECT : Z := 10000.

Record dataItem := { sfd : Z; ip : bytes; port : Z }.

(** [pipes] is, for each entry of [threads_], the number of bytes in its
    pipe. *)
Record GentThread := { thread_count_ : Z; lastid_ : Z; pipes : list Z }.

(** How a function ends: it returns, it waits for a queue, or it ends the
    process. *)
Inductive outcome (A : Type) := Next (a : A) | Wait | Exit.
Arguments Next {_} _.
Arguments Wait {_}.
Arguments Exit {_}.

Section server.
Context `{Malloc} {C : Type} (Clone : C) (blank : connection).

(** The objects the threads share, the descriptors that are open, and for
    each worker the connection it has destructed and not yet returned. *)
Record server := {
  th : GentThread;
  msg_ : gmap Z (@Msg.GentMsg loc);
  items : gmap loc dataItem;
  pool : GentAppMgr C;
  opened : gset Z;
  closing : gmap Z loc
}.

Definition set_threads (t : GentThread) (m : gmap Z (@Msg.GentMsg loc)) (s : server) : server :=
  {| th := t; msg_ := m; items := items s; pool := pool s; opened := opened s; closing := closing s |}.
Definition set_items (i : gmap loc dataItem) (s : server) : server :=
  {| th := th s; msg_ := msg_ s; items := i; pool := pool s; opened := opened s; closing := closing s |}.
Definition set_conns (g : GentAppMgr C) (o : gset Z) (c : gmap Z loc) (s : server) : server :=
  {| th := th s; msg_ := msg_ s; items := items s; pool := g; opened := o; closing := c |}.

(** [config["threads"]]. *)
Definition threads_option (v : bytes) : Z := if bool_decide (v = []) then 1 else atoi v.

(** The queues that [GentFrame::Run] makes, and [GentThread::init]. *)
Definition Run_queues (num : Z) : gmap Z (@Msg.GentMsg loc) :=
  list_to_map ((λ i, (i, Msg.Resize MAX_CONNECT Msg.GentMsg_new)) <$> seqZ 1 num).

Definition init (thread_count : Z) : result GentThread :=
  let n := i32 (thread_count + 1) in
  if n <=? 0 then Fault OutOfBounds
  else Ok {| thread_count_ := n; lastid_ := 0; pipes := replicate (Z.to_nat n) 0 |}.

Definition Run (num : Z) : result server :=
  t ← init num;
  Ok {| th := t; msg_ := Run_queues num; items := ∅; pool := GentAppMgr_new; opened := ∅; closing := ∅ |}.

(** [msg_[tid]]. *)
Definition queue_of (tid : Z) (s : server) : @Msg.GentMsg loc := default Msg.GentMsg_new (msg_ s !! tid).

(** [SendThread]; [write_ok] is whether the byte can be written. *)
Definition SendThread (write_ok : bool) (d : loc) (s : server) : result (outcome (bool * server)) :=
  let t := th s in
  let tid := Z.rem (lastid_ t + 1) (thread_count_ t) in
  let tid := if tid =? 0 then 1 else tid in
  match Msg.Push d (queue_of tid s) with
  | None => Ok Wait
  | Some q =>
      n ← vec_at (pipes t) tid;
      let ps := if write_ok then <[Z.to_nat tid := n + 1]> (pipes t) else pipes t in
      Ok (Next (write_ok, set_threads {| thread_count_ := thread_count_ t; lastid_ := tid; pipes := ps |} (<[tid := q]> (msg_ s)) s))
  end.

(** [HandleMain], for a descriptor that [accept] gave. *)
Definition HandleMain (write_ok : bool) (d : dataItem) (s : server) : result (outcome server) :=
  let p := fresh (dom (items s)) in
  let s := set_conns (pool s) ({[ sfd d ]} ∪ opened s) (closing s) (set_items (<[p := d]> (items s)) s) in
  r ← SendThread write_ok p s;
  Ok (match r with
      | Next (true, s) => Next s
      | Next (false, s) => Next (set_conns (pool s) (opened s ∖ {[ sfd d ]}) (closing s) (set_items (delete p (items s)) s))
      | Wait => Wait
      | Exit => Exit
      end).

(** The two halves of how a connection ends: [Destruct], and [RetConnect]. *)
Definition close_begin (w : Z) (p : loc) (s : server) : result server :=
  '(f, g) ← Destruct p (pool s);
  Ok (set_conns g (match f with Some f => opened s ∖ {[ f ]} | None => opened s end) (<[w := p]> (closing s)) s).

Definition close_end (w : Z) (s : server) : result (outcome server) :=
  match closing s !! w with
  | None => Ok Wait
  | Some p =>
      r ← RetConnect p (pool s);
      Ok (match r with
          | None => Exit
          | Some g => Next (set_conns g (opened s) (delete w (closing s)) s)
          end)
  end.

(** [GentThread::Handle] of the worker [me]. *)
Definition Handle (event_add_ok : bool) (me : Z) (s : server) : result (outcome server) :=
  n ← vec_at (pipes (th s)) me;
  let t := {| thread_count_ := thread_count_ (th s); lastid_ := lastid_ (th s);
              pipes := <[Z.to_nat me := if 0 <? n then n - 1 else n]> (pipes (th s)) |} in
  match Msg.Pop (queue_of me s) with
  | None => Ok Wait
  | Some (None, _) => Fault OutOfBounds
  | Some (Some p, q) =>
      match items s !! p with
      | None => Fault OutOfBounds
      | Some d =>
          '(c, g) ← GetConnect Clone blank (sfd d) (pool s);
          x ← get_obj c g;
          let x := set_client (ip d) (port d) me (set_cdata (set_flags EvRead (cdata x)) x) in
          let s := set_conns (put_obj c x g) (opened s) (closing s)
                     (set_items (delete p (items s)) (set_threads t (<[me := q]> (msg_ s)) s)) in
          if event_add_ok then Ok (Next s)
          else s ← close_begin me c s; close_end me s
      end
  end.

(** ** The system *)

(** A client arrives, a worker takes one over, a worker finds a client gone,
    and returns the connection; an object for a slave is made, attached to
    the connection the slave talks on, and deleted. *)
Inductive event :=
  | EAccept (d : dataItem)
  | ETake (w : Z)
  | EClose (w : Z) (p : loc)
  | EReturn (w : Z)
  | ECreate
  | EAttach (d p : loc)
  | EDelete (d : loc).

(** When an event can happen: the system gives out descriptors that are not
    open; a worker does one thing at a time, and sees events of its own
    connections. *)
Definition watched (w : Z) (p : loc) (s : server) : bool :=
  match objs (pool s) !! p with
  | Some c => (0 <=? fd (cdata c)) && (cbase c =? w) && bool_decide (closing s !! w = None)
  | None => false
  end.

Definition enabled (e : event) (s : server) : bool :=
  match e with
  | EAccept d => (0 <? sfd d) && (sfd d <? 2 ^ 31) && bool_decide (sfd d ∉ opened s)
  | ETake w => bool_decide (closing s !! w = None) && (0 <? default 0 (pipes (th s) !! Z.to_nat w)) && (0 <? w)
  | EClose w p => watched w p s
  | EReturn w => bool_decide (is_Some (closing s !! w))
  | ECreate => true
  | EAttach d p =>
      bool_decide (is_Some (dests (pool s) !! d)) &&
      match objs (pool s) !! p with Some c => watched (cbase c) p s | None => false end
  | EDelete d => bool_decide (is_Some (dests (pool s) !! d))
  end.

Definition perform (e : event) (s : server) : result (outcome server) :=
  match e with
  | EAccept d => HandleMain true d s
  | ETake w => Handle true w s
  | EClose w p => s ← close_begin w p s; Ok (Next s)
  | EReturn w => close_end w s
  | ECreate => Ok (Next (set_conns (NewDest (pool s)).2 (opened s) (closing s) s))
  | EAttach d p => g ← RegDestroy d p (pool s); Ok (Next (set_conns g (opened s) (closing s) s))
  | EDelete d => g ← DeleteDest d (pool s); Ok (Next (set_conns g (opened s) (closing s) s))
  end.

Fixpoint run (es : list event) (s : server) : result (outcome server) :=
  match es with
  | [] => Ok (Next s)
  | e :: es =>
      if enabled e s then
        r ← perform e s;
        match r with Next s => run es s | Wait => Ok Wait | Exit => Ok Exit end
      else Ok Wait
  end.
End server.
Arguments server : clear implicits.
End Server.
