(* ===== verification/ServerSpec.v ===== *)
(** * The server hands out its connections

    The invariant of the threads of [Server]: what waits in the queues, what
    is in the pool and what descriptors are open agree, in every
    interleaving. With one worker nothing more is needed; with several, a
    descriptor must not be given out again while the connection that had it
    is being closed, and an interleaving where it is ends the process. *)

From S2P Require Import Prelude Cstd Cmem Sds Msg LevelDb Db Config Redis Connect AppMgr AppMgrSpec Server.
Import Connect AppMgr Server.

Section spec.
Context `{Malloc} {C : Type} (Clone : C) (blank : connection).
Context (Hmem : ∀ n, malloc_ok n = true).
(** The number of workers. *)
Context (n : Z) (Hn : 1 ≤ n < 2 ^ 31 - 1).
Implicit Types s : server C.

(** The connections that have been destructed and not returned. *)
Definition half (s : server C) : gset loc := map_img (closing s).

Lemma elem_of_half s p : p ∈ half s ↔ ∃ w, closing s !! w = Some p.
Proof. apply elem_of_map_img. Qed.

Record server_ok s (Q : Z → list loc) : Prop := {
  so_count : thread_count_ (th s) = n + 1 ∧ length (pipes (th s)) = Z.to_nat (n + 1) ∧ 0 ≤ lastid_ (th s) ≤ n;
  so_queue w : 1 ≤ w ≤ n → ∃ m, msg_ s !! w = Some m ∧ Msg.holds m (Q w) ∧ Msg.capacity m = MAX_CONNECT ∧
    pipes (th s) !! Z.to_nat w = Some (zlen (Q w));
  so_items w p : p ∈ Q w → 1 ≤ w ≤ n ∧ ∃ d, items s !! p = Some d ∧ 0 < sfd d < 2 ^ 31 ∧ sfd d ∈ opened s;
  so_nodup w : NoDup (Q w);
  so_distinct w1 w2 p1 p2 d1 d2 : p1 ∈ Q w1 → p2 ∈ Q w2 → items s !! p1 = Some d1 → items s !! p2 = Some d2 →
    sfd d1 = sfd d2 → w1 = w2 ∧ p1 = p2;
  so_pool : pool_ok (pool s) (half s);
  so_trim : trimmed (pool s);
  so_base p c : objs (pool s) !! p = Some c → 0 ≤ fd (cdata c) → 1 ≤ cbase c ≤ n;
  so_closing w p : closing s !! w = Some p → ∃ c, objs (pool s) !! p = Some c ∧ 0 ≤ fd (cdata c) ∧ cbase c = w;
  so_new w p d c : p ∈ Q w → items s !! p = Some d → conn_mgr (pool s) !! sfd d = Some c → n = 1 ∧ c ∈ half s;
  so_open f : f ∈ opened s ↔
    (∃ w p d, p ∈ Q w ∧ items s !! p = Some d ∧ sfd d = f) ∨
    (∃ p c, objs (pool s) !! p = Some c ∧ 0 ≤ fd (cdata c) ∧ fd (cdata c) = f ∧ p ∉ half s)
}.

(** A descriptor is not given out again while it is being closed by one of
    several workers, and an object is not deleted while a connection still
    has it in its list. *)
Definition calm (e : event) s : Prop :=
  match e with
  | EAccept d => n = 1 ∨ ∀ p c, p ∈ half s → objs (pool s) !! p = Some c → fd (cdata c) ≠ sfd d
  | EDelete d => ∀ p c, objs (pool s) !! p = Some c → d ∉ dest_list c
  | _ => True
  end.

(** ** Every event keeps the books *)

Lemma next_worker l : 0 ≤ l ≤ n →
  (if Z.rem (l + 1) (n + 1) =? 0 then 1 else Z.rem (l + 1) (n + 1)) = (if l =? n then 1 else l + 1).
Proof.
  intros Hl. destruct (Z.eqb_spec l n) as [->|Hne].
  - rewrite Z.rem_same by lia. done.
  - rewrite Z.rem_small by lia. destruct (Z.eqb_spec (l + 1) 0); lia.
Qed.

Lemma vec_at_pipe s Q w : server_ok s Q → 1 ≤ w ≤ n → vec_at (pipes (th s)) w = Ok (zlen (Q w)).
Proof.
  intros Hok Hw. destruct (so_queue _ _ Hok w Hw) as (m & _ & _ & _ & E). unfold vec_at. rewrite E.
  pose proof (lookup_lt_Some _ _ _ E). rewrite (proj2 (Z.leb_le 0 w)), (proj2 (Z.ltb_lt w (zlen _))); [done|unfold zlen|]; lia.
Qed.

Definition upd (Q : Z → list loc) (w : Z) (l : list loc) : Z → list loc := λ w', if w' =? w then l else Q w'.

(** The state behind a successful [HandleMain]. *)
Definition queued (w : Z) (p : loc) (d : dataItem) (m : @Msg.GentMsg loc) (l : Z) s : server C :=
  set_threads {| thread_count_ := n + 1; lastid_ := w; pipes := <[Z.to_nat w := l]> (pipes (th s)) |} (<[w := m]> (msg_ s))
    (set_conns (pool s) ({[ sfd d ]} ∪ opened s) (closing s) (set_items (<[p := d]> (items s)) s)).

Lemma fresh_item s Q d p : server_ok s Q → sfd d ∉ opened s → items s !! p = None →
  (∀ w' p', p' ∈ Q w' → p' ≠ p) ∧ (∀ w' p' d', p' ∈ Q w' → items s !! p' = Some d' → sfd d' ≠ sfd d).
Proof.
  intros Hok Hf Hp. split.
  - intros w' p' Hin ->. destruct (so_items _ _ Hok _ _ Hin) as (_ & d' & ? & _). congruence.
  - intros w' p' d' Hin Hd' E. destruct (so_items _ _ Hok _ _ Hin) as (_ & d2 & ? & _ & ?). simplify_eq. congruence.
Qed.

Lemma queued_ok s Q w p d m : server_ok s Q → 0 < sfd d < 2 ^ 31 → sfd d ∉ opened s → calm (EAccept d) s → 1 ≤ w ≤ n →
  items s !! p = None → Msg.holds m (Q w ++ [p]) → Msg.capacity m = MAX_CONNECT →
  server_ok (queued w p d m (zlen (Q w) + 1) s) (upd Q w (Q w ++ [p])).
Proof.
  intros Hok Hd Hf Hcalm Hw Hp Hm Hcap. destruct (so_count _ _ Hok) as (_ & Ep & _).
  destruct (fresh_item s Q d p Hok Hf Hp) as [Hpn Hother].
  assert (∀ w' p', p' ∈ upd Q w (Q w ++ [p]) w' ↔ p' ∈ Q w' ∨ w' = w ∧ p' = p) as HQ.
  { intros w' p'. unfold upd. destruct (Z.eqb_spec w' w) as [->|]; set_solver. }
  split; cbn [queued th msg_ items pool opened closing set_threads set_conns set_items thread_count_ pipes lastid_].
  - rewrite length_insert. split; [done|]. split; [done|lia].
  - intros w' Hw'. unfold upd. destruct (Z.eqb_spec w' w) as [->|Hne].
    + exists m. rewrite lookup_insert_eq, list_lookup_insert_eq by (rewrite Ep; lia). by rewrite zlen_app.
    + destruct (so_queue _ _ Hok w' Hw') as (m2 & ? & ? & ? & ?). exists m2. rewrite lookup_insert_ne by done.
      by rewrite list_lookup_insert_ne by lia.
  - intros w' p' [Hin|[-> ->]]%HQ; [|split; [done|]; exists d; rewrite lookup_insert_eq; set_solver].
    destruct (so_items _ _ Hok _ _ Hin) as (? & d' & ? & ? & ?). split; [done|]. exists d'.
    rewrite lookup_insert_ne by (specialize (Hpn _ _ Hin); congruence). set_solver.
  - intros w'. unfold upd. destruct (w' =? w); [|apply (so_nodup _ _ Hok)]. apply NoDup_app. split; [apply (so_nodup _ _ Hok)|].
    split; [|apply NoDup_singleton]. intros p' Hin ->%list_elem_of_singleton. by apply (Hpn w p).
  - intros w1 w2 p1 p2 d1 d2 H1%HQ H2%HQ. rewrite !lookup_insert_Some. intros [[-> ->]|[? E1]] [[<- ->]|[? E2]] Es.
    + destruct H1 as [H1|[-> _]]; [by apply Hpn in H1|]. destruct H2 as [H2|[-> _]]; [by apply Hpn in H2|done].
    + destruct H2 as [H2|[_ ->]]; [|done]. by destruct (Hother w2 p2 d2).
    + destruct H1 as [H1|[_ ->]]; [|done]. by destruct (Hother w1 p1 d1).
    + destruct H1 as [H1|[_ ->]]; [|done]. destruct H2 as [H2|[_ ->]]; [|done]. by eapply (so_distinct _ _ Hok).
  - apply (so_pool _ _ Hok).
  - apply (so_trim _ _ Hok).
  - apply (so_base _ _ Hok).
  - apply (so_closing _ _ Hok).
  - intros w' p' d' c Hin%HQ. rewrite lookup_insert_Some. intros [[<- <-]|[Hne Hd']] Hc.
    2:{ destruct Hin as [Hin|[_ ->]]; [|done]. by eapply (so_new _ _ Hok). }
    destruct (po_map _ _ (so_pool _ _ Hok) _ _ Hc) as (x & Hx & Hfd & H0). destruct (decide (c ∈ half s)) as [HK|HK].
    + split; [|done]. destruct Hcalm as [|Hc2]; [done|]. by destruct (Hc2 c x HK Hx).
    + destruct Hf. apply (so_open _ _ Hok). right. exists c, x. split; [done|]. split; [lia|done].
  - intros f. rewrite elem_of_union, elem_of_singleton, (so_open _ _ Hok). split.
    + intros [->|[(w' & p' & d' & Hin & Hd' & Hf')|Hc]]; [left; exists w, p, d|left; exists w', p', d'|by right].
      * rewrite HQ, lookup_insert_eq. auto.
      * rewrite HQ, lookup_insert_ne by (specialize (Hpn _ _ Hin); congruence). auto.
    + intros [(w' & p' & d' & Hin%HQ & Hd' & <-)|Hc]; [|by right; right]. rewrite lookup_insert_Some in Hd'.
      destruct Hd' as [[<- <-]|[Hne Hd']]; [by left|]. destruct Hin as [Hin|[_ ->]]; [|done]. right. left. by exists w', p', d'.
Qed.

(** The worker that gets the next client. *)
Definition next_of (l : Z) : Z := if l =? n then 1 else l + 1.

Lemma accept_ok s Q d : server_ok s Q → enabled (EAccept d) s = true → calm (EAccept d) s →
  (∃ s', HandleMain true d s = Ok (Next s') ∧ lastid_ (th s') = next_of (lastid_ (th s)) ∧ ∃ Q', server_ok s' Q') ∨
  HandleMain true d s = Ok Wait ∧ zlen (Q (next_of (lastid_ (th s)))) = MAX_CONNECT.
Proof.
  intros Hok He Hcalm. cbn in He. apply andb_prop in He as [He Hf%bool_decide_eq_true]. apply andb_prop in He as [Hf0%Z.ltb_lt Hf1%Z.ltb_lt].
  destruct (so_count _ _ Hok) as (Ec & Ep & Hl). unfold HandleMain, SendThread. cbn [th set_conns set_items]. rewrite Ec, next_worker by done.
  fold (next_of (lastid_ (th s))). set (w := next_of _).
  assert (1 ≤ w ≤ n) as Hw by (unfold w, next_of; destruct (Z.eqb_spec (lastid_ (th s)) n); lia).
  destruct (so_queue _ _ Hok w Hw) as (m & Em & Hm & Hcap & Epw). unfold queue_of. cbn [msg_ set_conns set_items]. rewrite Em. cbn [from_option id].
  set (p := fresh (dom (items s))). assert (items s !! p = None) as Hp by (apply not_elem_of_dom, is_fresh).
  destruct (Msg.Push p m) as [m'|] eqn:Epush.
  2:{ right. split; [done|]. rewrite <- Hcap. by apply (Msg.Push_full m (Q w) p Hm). }
  left. destruct (Msg.Push_holds m m' (Q w) p Hm Epush) as [Hm' Hcap'].
  rewrite (vec_at_pipe s Q w Hok Hw). rbind. eexists. split; [done|]. split; [done|].
  exists (upd Q w (Q w ++ [p])). apply queued_ok; [done|lia|done|done|done|done|done|congruence].
Qed.

(** *** A worker takes a client over *)

Definition taken (w : Z) (p : loc) (l : Z) (m : @Msg.GentMsg loc) (g : GentAppMgr C) s : server C :=
  set_conns g (opened s) (closing s) (set_items (delete p (items s))
    (set_threads {| thread_count_ := thread_count_ (th s); lastid_ := lastid_ (th s); pipes := <[Z.to_nat w := l]> (pipes (th s)) |}
       (<[w := m]> (msg_ s)) s)).

Lemma taken_ok s Q w p xs d m g c x q : server_ok s Q → 1 ≤ w ≤ n → Q w = p :: xs → items s !! p = Some d →
  conn_mgr (pool s) !! sfd d = None → adopted (sfd d) c x q (pool s) g → cbase x = w → pool_ok g (half s) → trimmed g →
  Msg.holds m xs → Msg.capacity m = MAX_CONNECT →
  server_ok (taken w p (zlen xs) m g s) (upd Q w xs).
Proof.
  intros Hok Hw HQw Hd Hnone Had Hbase Hg Htr Hm Hcap. destruct (so_count _ _ Hok) as (Ec & Ep & Hl).
  assert (∀ w' p', p' ∈ upd Q w xs w' → p' ∈ Q w') as HQ1.
  { intros w' p'. unfold upd. destruct (Z.eqb_spec w' w) as [->|]; [rewrite HQw; set_solver|done]. }
  pose proof (so_nodup _ _ Hok w) as Hnd. rewrite HQw in Hnd. apply NoDup_cons in Hnd as [Hpx Hnd].
  assert (p ∈ Q w) as Hpw by (rewrite HQw; set_solver).
  assert (∀ w' p' d', p' ∈ upd Q w xs w' → items s !! p' = Some d' → p' ≠ p ∧ sfd d' ≠ sfd d) as HQ2.
  { intros w' p' d' Hin Hd'. split; [intros ->|intros E].
    - destruct (so_distinct _ _ Hok w' w p p d d (HQ1 _ _ Hin) Hpw Hd Hd eq_refl) as [-> _]. unfold upd in Hin. by rewrite Z.eqb_refl in Hin.
    - destruct (so_distinct _ _ Hok w' w p' p d' d (HQ1 _ _ Hin) Hpw Hd' Hd E) as [-> ->]. unfold upd in Hin. by rewrite Z.eqb_refl in Hin. }
  assert (∀ w' p', p' ∈ upd Q w xs w' → p ≠ p') as HQ3.
  { intros w' p' Hin <-. destruct (so_items _ _ Hok _ _ (HQ1 _ _ Hin)) as (_ & d' & Hd' & _). by destruct (HQ2 _ _ _ Hin Hd'). }
  destruct (adopted_free _ _ _ _ _ _ _ (so_pool _ _ Hok) Had) as (_ & _ & Hbusy).
  destruct (so_items _ _ Hok _ _ Hpw) as (_ & d' & Hd2 & Hrange & _). assert (d' = d) as -> by congruence.
  split; cbn [taken th msg_ items pool opened closing set_threads set_conns set_items thread_count_ pipes lastid_].
  - rewrite length_insert. done.
  - intros w' Hw'. unfold upd. destruct (Z.eqb_spec w' w) as [->|Hne].
    + exists m. rewrite lookup_insert_eq, list_lookup_insert_eq by (rewrite Ep; lia). done.
    + destruct (so_queue _ _ Hok w' Hw') as (m2 & ? & ? & ? & ?). exists m2. rewrite lookup_insert_ne by done.
      by rewrite list_lookup_insert_ne by lia.
  - intros w' p' Hin. destruct (so_items _ _ Hok _ _ (HQ1 _ _ Hin)) as (? & d' & ? & ?). split; [done|]. exists d'.
    by rewrite lookup_delete_ne by (by eapply HQ3).
  - intros w'. unfold upd. destruct (w' =? w); [done|apply (so_nodup _ _ Hok)].
  - intros w1 w2 p1 p2 d1 d2 H1 H2 [_ E1]%lookup_delete_Some [_ E2]%lookup_delete_Some. eapply (so_distinct _ _ Hok); eauto.
  - done.
  - done.
  - intros p' c'. rewrite (ad_objs _ _ _ _ _ _ Had), lookup_insert_Some. intros [[<- <-]|[_ Hc']] H0; [lia|by eapply (so_base _ _ Hok)].
  - intros w' p' Hw'. destruct (so_closing _ _ Hok _ _ Hw') as (c' & Hc' & H0 & Hb). exists c'.
    rewrite (ad_objs _ _ _ _ _ _ Had), lookup_insert_ne; [done|]. specialize (Hbusy _ _ Hc' H0). congruence.
  - intros w' p' d' c' Hin [_ Hd']%lookup_delete_Some. rewrite (ad_map _ _ _ _ _ _ Had), lookup_insert_ne.
    + intros Hc'. exact (so_new _ _ Hok w' p' d' c' (HQ1 _ _ Hin) Hd' Hc').
    + destruct (HQ2 _ _ _ Hin Hd'). congruence.
  - intros f. rewrite (so_open _ _ Hok). rewrite (ad_objs _ _ _ _ _ _ Had). split.
    + intros [(w' & p' & d' & Hin & Hd' & <-)|(p' & c' & Hc' & H0 & Hf & HK)].
      * destruct (decide (p' = p)) as [->|Hne].
        { simplify_eq. right. exists c, x. rewrite lookup_insert_eq, (ad_fd _ _ _ _ _ _ Had). repeat split; [lia|].
          intros HK. apply elem_of_half in HK as [w2 Hw2]. destruct (so_closing _ _ Hok _ _ Hw2) as (c2 & Hc2 & H02 & _). by destruct (Hbusy _ _ Hc2 H02). }
        left. exists w', p', d'. rewrite lookup_delete_ne by done. split; [|done]. unfold upd. destruct (Z.eqb_spec w' w) as [->|]; [|done].
        rewrite HQw in Hin. set_solver.
      * right. exists p', c'. rewrite lookup_insert_ne by (specialize (Hbusy _ _ Hc' H0); congruence). done.
    + intros [(w' & p' & d' & Hin & [_ Hd']%lookup_delete_Some & <-)|(p' & c' & Hc' & H0 & Hf & HK)]; [left; exists w', p', d'; auto|].
      rewrite lookup_insert_Some in Hc'. destruct Hc' as [[<- <-]|[_ Hc']].
      * left. exists w, p, d. by rewrite <- Hf, (ad_fd _ _ _ _ _ _ Had).
      * right. by exists p', c'.
Qed.

(** Marking the connection with its client and its worker keeps it adopted. *)
Lemma adopted_client f p c q (g g' : GentAppMgr C) ipa prt w : adopted f p c q g g' →
  adopted f p (set_client ipa prt w (set_cdata (set_flags EvRead (cdata c)) c)) q g
    (put_obj p (set_client ipa prt w (set_cdata (set_flags EvRead (cdata c)) c)) g').
Proof.
  intros [E1 E2 E3 E4 E5 E6 E7 E8 E9 E10]. split; try done. cbn. by rewrite E2, insert_insert_eq.
Qed.

Lemma take_ok s Q w : server_ok s Q → enabled (ETake w) s = true →
  ∃ s', Handle Clone blank true w s = Ok (Next s') ∧ lastid_ (th s') = lastid_ (th s) ∧ ∃ Q', server_ok s' Q'.
Proof.
  intros Hok He. cbn in He. apply andb_prop in He as [He Hw0%Z.ltb_lt]. apply andb_prop in He as [Hidle%bool_decide_eq_true Hp%Z.ltb_lt].
  destruct (so_count _ _ Hok) as (Ec & Ep & Hl).
  assert (1 ≤ w ≤ n) as Hw.
  { destruct (pipes (th s) !! Z.to_nat w) eqn:E; [|done]. apply lookup_lt_Some in E. lia. }
  destruct (so_queue _ _ Hok w Hw) as (m & Em & Hm & Hcap & Epw). rewrite Epw in Hp. cbn in Hp.
  destruct (Msg.Pop m) as [[r m']|] eqn:Epop.
  2:{ apply (Msg.Pop_empty m (Q w) Hm) in Epop. rewrite Epop in Hp. done. }
  destruct (Msg.Pop_holds m (Q w) r m' Hm Epop) as (p & xs & HQ & -> & Hm' & Hcap').
  destruct (so_items _ _ Hok w p) as (_ & d & Hd & Hrange & _); [rewrite HQ; set_solver|].
  assert (conn_mgr (pool s) !! sfd d = None) as Hnone.
  { destruct (conn_mgr (pool s) !! sfd d) as [c|] eqn:E; [|done]. exfalso.
    destruct (so_new _ _ Hok w p d c) as [H1 HK]; [rewrite HQ; set_solver|done|done|]. apply elem_of_half in HK as [w' Hw'].
    destruct (so_closing _ _ Hok _ _ Hw') as (x & Hx & H0 & Hb). pose proof (so_base _ _ Hok _ _ Hx H0). assert (w' = w) as -> by lia. congruence. }
  destruct (GetConnect_adopts Clone blank Hmem (sfd d) (pool s) _ (so_pool _ _ Hok) (so_trim _ _ Hok)) as (c & x & q & g & Eg & Had & _).
  unfold Handle. rewrite (vec_at_pipe s Q w Hok Hw). rbind. unfold queue_of. rewrite Em. cbn [from_option id]. rewrite Epop, Hd, Eg. rbind.
  unfold get_obj. rewrite (ad_objs _ _ _ _ _ _ Had), lookup_insert_eq. rbind.
  pose proof (adopted_client _ _ _ _ _ _ (ip d) (port d) w Had) as Had'. eexists. split; [done|]. split; [done|]. exists (upd Q w xs).
  rewrite (proj2 (Z.ltb_lt _ _) Hp). rewrite HQ, zlen_cons. replace (1 + zlen xs - 1) with (zlen xs) by lia.
  eapply taken_ok; [done|done|done|done|done|exact Had'|done| | |done|congruence].
  - eapply adopted_ok; [apply (so_pool _ _ Hok)|done| |exact Had']. lia.
  - eapply adopted_trimmed; [apply (so_trim _ _ Hok)|done|exact Had'].
Qed.

(** *** A worker closes a connection *)

Lemma watched_inv s Q w p : server_ok s Q → watched w p s = true →
  ∃ c, objs (pool s) !! p = Some c ∧ 0 ≤ fd (cdata c) ∧ cbase c = w ∧ (p ∉ half s) ∧ closing s !! w = None.
Proof.
  intros Hok He. unfold watched in He. destruct (objs (pool s) !! p) as [c|] eqn:Hc; [|done].
  apply andb_prop in He as [He Hidle%bool_decide_eq_true]. apply andb_prop in He as [H0%Z.leb_le Hb%Z.eqb_eq].
  exists c. split; [done|]. split; [done|]. split; [done|]. split; [|done].
  intros HK. apply elem_of_half in HK as [w' Hw']. destruct (so_closing _ _ Hok _ _ Hw') as (c' & Hc' & _ & Hb'). congruence.
Qed.

Lemma half_insert s w p : closing s !! w = None → (map_img (<[w := p]> (closing s)) : gset loc) = ({[ p ]} ∪ half s).
Proof. intros Hw. rewrite map_img_insert_notin_L; done. Qed.

Lemma close_ok s Q w p : server_ok s Q → enabled (EClose w p) s = true →
  ∃ s', close_begin w p s = Ok s' ∧ lastid_ (th s') = lastid_ (th s) ∧ server_ok s' Q.
Proof.
  intros Hok He. destruct (watched_inv s Q w p Hok He) as (c & Hc & H0 & Hb & HK & Hidle).
  destruct (Destruct_ok (pool s) (half s) p c (so_pool _ _ Hok) Hc H0 HK) as (g & Eg & Hg & Eo & Em & Ef & _).
  destruct (po_objs _ _ (so_pool _ _ Hok) _ _ Hc) as [[? _]|[_ Hm]]; [lia|].
  unfold close_begin. rewrite Eg. rbind. eexists. split; [done|]. split; [done|].
  assert (∀ p' c', objs g !! p' = Some c' → ∃ c2, objs (pool s) !! p' = Some c2 ∧ fd (cdata c2) = fd (cdata c') ∧ cbase c2 = cbase c') as Hobj.
  { intros p' c'. rewrite Eo, lookup_insert_Some. intros [[<- <-]|[_ Hc']]; [by exists c|by exists c']. }
  split; cbn [th msg_ items pool opened closing set_conns]; unfold half; cbn [closing set_conns]; rewrite ?(half_insert s w p Hidle).
  - apply (so_count _ _ Hok).
  - apply (so_queue _ _ Hok).
  - intros w' p' Hin. destruct (so_items _ _ Hok _ _ Hin) as (? & d & Hd & ? & Hop). split; [done|]. exists d. split; [done|]. split; [done|].
    apply elem_of_difference. split; [done|]. intros E%elem_of_singleton. rewrite <- E in Hm. by destruct (so_new _ _ Hok _ _ _ _ Hin Hd Hm).
  - apply (so_nodup _ _ Hok).
  - apply (so_distinct _ _ Hok).
  - done.
  - unfold trimmed. rewrite Ef, Em. apply (so_trim _ _ Hok).
  - intros p' c' Hc' H0'. destruct (Hobj _ _ Hc') as (c2 & Hc2 & E1 & E2). rewrite <- E2. apply (so_base _ _ Hok _ _ Hc2). lia.
  - intros w' p'. rewrite lookup_insert_Some. intros [[<- <-]|[Hne Hw']]; [exists (stripped c); by rewrite Eo, lookup_insert_eq|].
    destruct (so_closing _ _ Hok _ _ Hw') as (c' & Hc' & Hrest). exists c'. rewrite Eo, lookup_insert_ne; [done|].
    intros <-. apply HK, elem_of_half. by exists w'.
  - intros w' p' d c' Hin Hd. rewrite Em. intros Hc'. destruct (so_new _ _ Hok _ _ _ _ Hin Hd Hc'). set_solver.
  - intros f. rewrite elem_of_difference, elem_of_singleton, (so_open _ _ Hok). split.
    + intros [[Hq|(p' & c' & Hc' & H0' & Hf & HK')] Hne]; [by left|]. right. exists p', c'.
      assert (p ≠ p') by congruence. rewrite Eo, lookup_insert_ne by done. set_solver.
    + intros [(w' & p' & d & Hin & Hd & Hf)|(p' & c' & Hc' & H0' & Hf & HK')].
      * split; [left; by exists w', p', d|]. intros E. rewrite <- E, <- Hf in Hm. by destruct (so_new _ _ Hok _ _ _ _ Hin Hd Hm).
      * rewrite Eo, lookup_insert_Some in Hc'. destruct Hc' as [[<- _]|[Hne Hc']]; [set_solver|]. split; [right; exists p', c'; set_solver|].
        intros E. destruct (po_objs _ _ (so_pool _ _ Hok) _ _ Hc') as [[? _]|[_ Hm']]; [lia|]. rewrite Hf, E in Hm'. congruence.
Qed.

Lemma return_ok s Q w : server_ok s Q → enabled (EReturn w) s = true →
  ∃ s', close_end w s = Ok (Next s') ∧ lastid_ (th s') = lastid_ (th s) ∧ server_ok s' Q.
Proof.
  intros Hok He. cbn in He. apply bool_decide_eq_true in He as [p Hp]. destruct (so_closing _ _ Hok _ _ Hp) as (c & Hc & H0 & Hb).
  assert (p ∈ half s) as HK by (apply elem_of_half; by exists w).
  destruct (RetConnect_ok (pool s) (half s) p c (so_pool _ _ Hok) (so_trim _ _ Hok) Hc HK) as (g & Eg & Hg & Htr & Em & _ & Eo).
  assert (∀ w', closing s !! w' = Some p → w' = w) as Hone.
  { intros w' Hw'. destruct (so_closing _ _ Hok _ _ Hw') as (c' & Hc' & _ & Hb'). congruence. }
  assert (map_img (SA := gset loc) (delete w (closing s)) = half s ∖ {[ p ]}) as Ehalf.
  { apply set_eq. intros p'. rewrite elem_of_difference, elem_of_singleton, elem_of_half, elem_of_map_img. split.
    - intros (w' & [Hne Hw']%lookup_delete_Some). split; [by exists w'|]. intros ->. by apply Hne, eq_sym, Hone.
    - intros [(w' & Hw') Hne]. exists w'. rewrite lookup_delete_ne; [done|]. congruence. }
  assert (∀ p' c', objs (pool s) !! p' = Some c' → 0 ≤ fd (cdata c') → p' ≠ p → objs g !! p' = Some c') as Hkeep.
  { intros p' c' Hc' H0' Hne. rewrite Eo; [done|done|]. intros Hin. destruct (po_free _ _ (so_pool _ _ Hok) _ Hin) as (? & ? & ? & _). simplify_eq. lia. }
  assert (∀ p' c', objs g !! p' = Some c' → 0 ≤ fd (cdata c') → objs (pool s) !! p' = Some c' ∧ p' ≠ p) as Hback.
  { intros p' c' Hc' H0'. destruct (po_objs _ _ Hg _ _ Hc') as [[? _]|[_ Hm]]; [lia|]. rewrite Em in Hm. apply lookup_delete_Some in Hm as [Hne Hm].
    destruct (po_map _ _ (so_pool _ _ Hok) _ _ Hm) as (c2 & Hc2 & Hfd & _). assert (p' ≠ p) as Hpne by congruence. split; [|done].
    rewrite <- Hc'. symmetry. apply Eo; [done|]. intros Hin. destruct (po_free _ _ (so_pool _ _ Hok) _ Hin) as (? & ? & ? & _). simplify_eq. lia. }
  unfold close_end. rewrite Hp, Eg. rbind. eexists. split; [done|]. split; [done|].
  split; cbn [th msg_ items pool opened closing set_conns]; unfold half; cbn [closing set_conns]; rewrite ?Ehalf.
  - apply (so_count _ _ Hok).
  - apply (so_queue _ _ Hok).
  - apply (so_items _ _ Hok).
  - apply (so_nodup _ _ Hok).
  - apply (so_distinct _ _ Hok).
  - done.
  - done.
  - intros p' c' Hc' H0'. apply (so_base _ _ Hok p'); [|done]. by apply Hback.
  - intros w' p' [Hne Hw']%lookup_delete_Some. destruct (so_closing _ _ Hok _ _ Hw') as (c' & Hc' & H0' & Hb'). exists c'.
    split; [|done]. apply Hkeep; [done|done|]. intros ->. by apply Hne, eq_sym, Hone.
  - intros w' p' d c' Hin Hd. rewrite Em. intros [Hne Hc']%lookup_delete_Some. destruct (so_new _ _ Hok _ _ _ _ Hin Hd Hc') as [? HK'].
    split; [done|]. apply elem_of_difference. split; [done|]. intros ->%elem_of_singleton.
    destruct (po_map _ _ (so_pool _ _ Hok) _ _ Hc') as (c2 & Hc2 & Hfd & _). congruence.
  - intros f. rewrite (so_open _ _ Hok). apply or_iff_compat_l. split; intros (p' & c' & Hc' & H0' & Hf & HK'); exists p', c'.
    + split; [|set_solver]. apply Hkeep; [done|done|]. by intros ->.
    + destruct (Hback _ _ Hc' H0') as [? ?]. set_solver.
Qed.

(** *** Objects that are attached to connections *)

(** A change of the pool that leaves the connections as they are. *)
Lemma pool_change_ok s Q g : server_ok s Q → pool_ok g (half s) → conn_mgr g = conn_mgr (pool s) →
  free_conn_mgr g = free_conn_mgr (pool s) →
  (∀ p c, objs g !! p = Some c → ∃ c', objs (pool s) !! p = Some c' ∧ fd (cdata c) = fd (cdata c') ∧ cbase c = cbase c') →
  (∀ p c, objs (pool s) !! p = Some c → ∃ c', objs g !! p = Some c' ∧ fd (cdata c') = fd (cdata c) ∧ cbase c' = cbase c) →
  server_ok (set_conns g (opened s) (closing s) s) Q.
Proof.
  intros Hok Hg Em Ef H1 H2. destruct Hok as [A1 A2 A3 A4 A5 A6 A7 A8 A9 A10 A11].
  split; cbn [th msg_ items pool opened closing set_conns]; try done.
  - unfold trimmed in *. by rewrite Em, Ef.
  - intros p c Hc H0. destruct (H1 _ _ Hc) as (c' & Hc' & E1 & ->). apply (A8 p c' Hc'). lia.
  - intros w p Hw. destruct (A9 _ _ Hw) as (c & Hc & H0 & Hb). destruct (H2 _ _ Hc) as (c' & Hc' & E1 & E2). exists c'. rewrite E1, E2. done.
  - intros w p d c. rewrite Em. apply A10.
  - intros f. rewrite A11. apply or_iff_compat_l. split; intros (p & c & Hc & H0 & Hf & HK).
    + destruct (H2 _ _ Hc) as (c' & Hc' & E1 & _). exists p, c'. by rewrite E1.
    + destruct (H1 _ _ Hc) as (c' & Hc' & E1 & _). exists p, c'. by rewrite <- E1.
Qed.

Lemma attach_ok s Q d p : server_ok s Q → enabled (EAttach d p) s = true →
  ∃ g, RegDestroy d p (pool s) = Ok g ∧ server_ok (set_conns g (opened s) (closing s) s) Q.
Proof.
  intros Hok He. cbn in He. apply andb_prop in He as [Hd%bool_decide_eq_true He]. destruct (objs (pool s) !! p) as [c|] eqn:Hc; [|done].
  destruct (watched_inv s Q _ p Hok He) as (c' & Hc' & H0 & _ & HK & _). rewrite Hc in Hc'. injection Hc' as <-.
  destruct (RegDestroy_ok (pool s) (half s) p c d (so_pool _ _ Hok) Hc H0 HK Hd) as (g & Eg & Hg & Eo & Em & Ef & _). exists g. split; [done|].
  apply pool_change_ok; try done; intros p' c'; rewrite Eo.
  - rewrite lookup_insert_Some. intros [[<- <-]|[_ Hc']]; [by exists c|by exists c'].
  - intros Hc'. destruct (decide (p = p')) as [<-|Hne].
    + eexists. rewrite lookup_insert_eq. split; [done|]. by simplify_eq.
    + exists c'. by rewrite lookup_insert_ne.
Qed.

Lemma dests_change_ok s Q D : server_ok s Q → pool_ok (set_dests D (pool s)) (half s) →
  server_ok (set_conns (set_dests D (pool s)) (opened s) (closing s) s) Q.
Proof. intros Hok Hg. apply pool_change_ok; try done; intros p c Hc; by exists c. Qed.

(** ** What holds in every interleaving *)

Definition next_id (e : event) (l : Z) : Z := match e with EAccept _ => next_of l | _ => l end.

Lemma perform_ok s Q e : server_ok s Q → enabled e s = true → calm e s →
  (∃ s', perform Clone blank e s = Ok (Next s') ∧ lastid_ (th s') = next_id e (lastid_ (th s)) ∧ ∃ Q', server_ok s' Q') ∨
  (∃ d, e = EAccept d ∧ perform Clone blank e s = Ok Wait ∧ zlen (Q (next_of (lastid_ (th s)))) = MAX_CONNECT).
Proof.
  intros Hok He Hc. destruct e as [d|w|w p|w| |d p|d]; cbn [perform next_id].
  - destruct (accept_ok s Q d Hok He Hc) as [?|?]; [by left|right]. by exists d.
  - left. by apply (take_ok s Q).
  - left. destruct (close_ok s Q w p Hok He) as (s' & -> & El & Hok'). rbind. eauto.
  - left. destruct (return_ok s Q w Hok He) as (s' & -> & El & Hok'). eauto.
  - left. eexists. split; [done|]. split; [done|]. exists Q. apply dests_change_ok; [done|]. apply NewDest_ok, (so_pool _ _ Hok).
  - left. destruct (attach_ok s Q d p Hok He) as (g & -> & Hok'). rbind. eauto.
  - left. cbn in He. apply bool_decide_eq_true in He.
    destruct (DeleteDest_ok (pool s) (half s) d (so_pool _ _ Hok) He Hc) as (D & -> & Hg). rbind.
    eexists. split; [done|]. split; [done|]. exists Q. by apply dests_change_ok.
Qed.

(** The states that [k] clients and any other events lead to. *)
Inductive reaches : nat → server C → Prop :=
  | reaches_start s : Run n = Ok s → reaches 0 s
  | reaches_step k e s s' : reaches k s → enabled e s = true → calm e s → perform Clone blank e s = Ok (Next s') →
      reaches (match e with EAccept _ => S k | _ => k end) s'.

Lemma new_queue_holds : Msg.holds (Msg.Resize MAX_CONNECT (@Msg.GentMsg_new loc)) [] ∧
  Msg.capacity (Msg.Resize MAX_CONNECT (@Msg.GentMsg_new loc)) = MAX_CONNECT.
Proof.
  assert (Msg.capacity (Msg.Resize MAX_CONNECT (@Msg.GentMsg_new loc)) = MAX_CONNECT) as E.
  { unfold Msg.capacity, Msg.Resize, zlen. cbn [Msg.app_cq_]. rewrite length_resize. done. }
  split; [|done]. unfold Msg.holds. rewrite E. unfold MAX_CONNECT. split; [lia|]. split; [done|]. split; [done|]. split; [cbn; lia|]. intros k x. by rewrite lookup_nil.
Qed.

Lemma Run_ok s : Run n = Ok s → server_ok s (λ _, []) ∧ lastid_ (th s) = 0.
Proof.
  unfold Run, init. rewrite i32_small by lia. rewrite (proj2 (Z.leb_gt (n + 1) 0)) by lia. rbind. intros [= <-].
  split; [|done]. split; cbn [th msg_ items pool opened closing thread_count_ pipes lastid_ half].
  - rewrite length_replicate. split; [done|]. split; [done|lia].
  - intros w Hw. exists (Msg.Resize MAX_CONNECT Msg.GentMsg_new). split.
    + apply elem_of_list_to_map_1.
      * rewrite <- list_fmap_compose. apply NoDup_fmap_2; [|apply NoDup_seqZ]. by intros ???.
      * apply list_elem_of_fmap. exists w. split; [done|]. apply elem_of_seqZ. lia.
    + destruct new_queue_holds as [? ?]. split; [done|]. split; [done|]. rewrite lookup_replicate_2 by lia. done.
  - set_solver.
  - constructor.
  - set_solver.
  - apply new_pool_ok.
  - unfold trimmed. cbn. done.
  - intros p c Hc. done.
  - intros w p Hw. done.
  - set_solver.
  - intros f. split; [set_solver|]. intros [(w & p & d & Hin & _)|(p & c & Hc & _)]; [set_solver|done].
Qed.

(** Clients are handed out in turn: the [k]-th goes to this worker. *)
Definition turn (k : nat) : Z := match k with O => 0 | S k => 1 + Z.of_nat k `mod` n end.

Lemma next_turn k : next_of (turn k) = turn (S k).
Proof.
  unfold next_of. destruct k as [|k]; cbn [turn].
  - rewrite Z.mod_0_l by lia. destruct (Z.eqb_spec 0 n); lia.
  - pose proof (Z.mod_pos_bound (Z.of_nat k) n ltac:(lia)). rewrite (Nat2Z.inj_succ k). unfold Z.succ. rewrite <- Z.add_mod_idemp_l by lia.
    destruct (Z.eqb_spec (1 + Z.of_nat k `mod` n) n) as [E|Hne].
    + replace (Z.of_nat k `mod` n + 1) with n by lia. rewrite Z.mod_same by lia. done.
    + rewrite (Z.mod_small (_ + 1)) by lia. lia.
Qed.

Lemma reaches_ok k s : reaches k s → (∃ Q, server_ok s Q) ∧ lastid_ (th s) = turn k.
Proof.
  induction 1 as [s E|k e s s' _ [[Q Hok] IH] He Hc E]; [destruct (Run_ok s E); eauto|].
  destruct (perform_ok s Q e Hok He Hc) as [(s2 & E2 & El & HQ)|(d & _ & E2 & _)]; rewrite E in E2; [|done].
  injection E2 as <-. split; [done|]. rewrite El, IH. destruct e; try done. apply next_turn.
Qed.

(** An open descriptor waits in the queue of a worker, or has a connection,
    with a command that is alive. *)
Definition served (f : Z) s : Prop :=
  (∃ w m xs p d, 1 ≤ w ≤ n ∧ msg_ s !! w = Some m ∧ Msg.holds m xs ∧ p ∈ xs ∧ items s !! p = Some d ∧ sfd d = f) ∨
  (∃ p c q, conn_mgr (pool s) !! f = Some p ∧ objs (pool s) !! p = Some c ∧ fd (cdata c) = f ∧ 1 ≤ cbase c ≤ n ∧
     ccomm c = Some q ∧ is_Some (cmds (pool s) !! q)).


(** the pool keeps its books. In every interleaving the connections that
    exist are those in use and the idle ones, [total_conn] and
    [GetConnCount] count them, the idle ones are at most twenty times those
    in use, every object of a slave that points to a connection points to
    one that exists and will tell it when it closes, and the clients have
    been handed to the workers in turn. *)
Theorem pool_books k s : reaches k s →
  total_conn (pool s) = Z.of_nat (size (objs (pool s))) ∧
  total_conn (pool s) = zlen (free_conn_mgr (pool s)) + Z.of_nat (size (conn_mgr (pool s))) ∧
  GetConnCount (pool s) = Z.of_nat (size (conn_mgr (pool s))) ∧
  zlen (free_conn_mgr (pool s)) ≤ 20 * Z.of_nat (size (conn_mgr (pool s))) ∧
  (∀ d p, dests (pool s) !! d = Some (Some p) → ∃ c, objs (pool s) !! p = Some c ∧ 0 ≤ fd (cdata c) ∧ d ∈ dest_list c) ∧
  lastid_ (th s) = turn k.
Proof.
  intros Hr. destruct (reaches_ok k s Hr) as [[Q Hok] Hl]. pose proof (so_pool _ _ Hok) as Hp. pose proof (so_trim _ _ Hok) as Ht.
  pose proof (total_bound _ _ Hp Ht). pose proof (po_total _ _ Hp) as E. split; [by rewrite (po_size _ _ Hp)|]. split; [done|].
  pose proof (zlen_nonneg (free_conn_mgr (pool s))).
  split; [unfold GetConnCount; rewrite u64_small; lia|]. split; [done|]. split; [|done].
  intros d p Hd. destruct (po_dest _ _ Hp _ _ Hd) as (c & Hc & Hin). exists c. split; [done|]. split; [|done].
  destruct (po_objs _ _ Hp _ _ Hc) as [[_ Hfr]|[? _]]; [|lia]. destruct (po_free _ _ Hp _ Hfr) as (c' & Hc' & _ & _ & _ & Hdl).
  rewrite Hc in Hc'. injection Hc' as <-. set_solver.
Qed.

(** Runs of one worker in which no object is deleted are calm. *)
Lemma run_reaches es : n = 1 → (∀ d, EDelete d ∉ es) → ∀ k s s', reaches k s → run Clone blank es s = Ok (Next s') →
  ∃ k', reaches k' s'.
Proof.
  intros H1. induction es as [|e es IH]; intros Hd k s s' Hr E; [injection E as <-; by exists k|].
  cbn [run] in E. destruct (enabled e s) eqn:He; [|done]. destruct (perform Clone blank e s) as [[s1| |]|] eqn:Ep; try done. cbn in E.
  eapply IH; [set_solver| |exact E]. eapply reaches_step; [exact Hr|done| |exact Ep].
  destruct e; try done; [by left|]. set_solver.
Qed.
End spec.

(** ** Runs *)

#[local] Instance server_memory : Malloc := {| malloc_ok := λ _, true; junk n := replicate n 0; junk_length n := length_replicate n 0 |}.

Lemma plenty n : malloc_ok n = true.
Proof. done. Qed.

Definition blank_connection : connection :=
  {| cdata := {| fd := 0; rbuf := None; rsize := 0; content := None; rcont := 0; cbuf := None; csize := 0; cbytes := 0; outstr := [];
                 sendsize := 0; cursendsize := 0; remainsize := 0; actualsize := 0; ev_flags := EvRead |};
     ccomm := None; dest_list := ∅; cip := []; cport := 0; cbase := 0 |}.
Definition client (f : Z) : dataItem := {| sfd := f; ip := str "10.0.0.1"; port := 4000 |}.

Definition run_from (n : Z) (es : list event) : result (outcome (server unit)) :=
  s ← Run n; run tt blank_connection es s.
Definition reached (n : Z) (es : list event) : server unit :=
  match run_from n es, Run n with Ok (Next s), _ => s | _, Ok s => s | _, Fault _ =>
    {| th := {| thread_count_ := 0; lastid_ := 0; pipes := [] |}; msg_ := ∅; items := ∅; pool := GentAppMgr_new; opened := ∅; closing := ∅ |} end.

(** Two clients of one worker, the second on the descriptor of the first,
    accepted while that is being closed. *)
Definition one_worker : list event :=
  [EAccept (client 7); ETake 1; ECreate; EAttach 0 0; EClose 1 0; EAccept (client 7); EReturn 1; ETake 1].

Lemma one_worker_run : ∃ k, reaches tt blank_connection 1 k (reached 1 one_worker).
Proof.
  destruct (Run (C := unit) 1) as [s0|] eqn:E; [|discriminate E].
  apply (run_reaches tt blank_connection plenty 1 ltac:(lia) one_worker eq_refl) with (k := 0%nat) (s := s0); [intros d Hd; repeat (apply elem_of_cons in Hd as [Hd|Hd]; [discriminate Hd|]); by apply not_elem_of_nil in Hd|by constructor|].
  assert (run_from 1 one_worker = Ok (Next (reached 1 one_worker))) as Er by (vm_compute; reflexivity).
  unfold run_from in Er. rewrite E in Er. exact Er.
Qed.


Lemma pool_books_witness : total_conn (pool (reached 1 one_worker)) = Z.of_nat (size (objs (pool (reached 1 one_worker)))).
Proof.
  destruct one_worker_run as [k Hk].
  apply (pool_books tt blank_connection plenty 1 ltac:(lia) k (reached 1 one_worker) Hk).
Defined.

(** With two workers: [Destruct] closes the descriptor before [RetConnect]
    removes it from the table. A client that gets the descriptor in between
    is registered under it, the late [RetConnect] removes that entry, and
    when that client goes [RetConnect] does not find it and ends the
    process. *)
Lemma closing_race_exits :
  run_from 2 [EAccept (client 7); ETake 1; EClose 1 0; EAccept (client 7); ETake 2; EReturn 1; EClose 2 1; EReturn 2] = Ok Exit.
Proof. vm_compute. reflexivity. Qed.

(** An object that was attached to two connections one after the other stays
    in the list of the first. When the second closes, its [conn_] is NULL and
    it may be deleted; when the first closes, the deleted object is used. *)
Lemma stale_registration_faults :
  run_from 1 [EAccept (client 7); ETake 1; EAccept (client 8); ETake 1; ECreate; EAttach 0 0; EAttach 0 1;
              EClose 1 1; EReturn 1; EDelete 0; EClose 1 0] = Fault OutOfBounds.
Proof. vm_compute. reflexivity. Qed.

(** Where the byte cannot be written, [HandleMain] frees the item, which is
    already in the queue: the worker comes to use it when later clients wake
    it up. *)
Lemma unsent_item_faults :
  (s ← Run (C := unit) 1; r ← HandleMain false (client 7) s;
   match r with Next s => run tt blank_connection [EAccept (client 8); EAccept (client 9); ETake 1; ETake 1] s | _ => Ok r end) = Fault OutOfBounds.
Proof. vm_compute. reflexivity. Qed.

(** With [threads] set to 0, or to something that is not a number, the first
    client is queued for a worker that does not exist, in a queue without
    room: the main thread waits for ever. *)
Lemma no_worker_hangs : threads_option (str "many") = 0 ∧ run_from 0 [EAccept (client 7)] = Ok Wait.
Proof. vm_compute. auto. Qed.
