(* ===== verification/Level.v ===== *)
(** * The text protocol (gent_level.h, gent_level.cpp, CommandType of
    gent_command.h)

    [GentLevel] is a second command object, with the requests of memcached:
    [get] of one or several keys, [set], [del], [stats] and [quit]. The
    server can register it instead of [GentRedis]. *)

From S2P Require Import Prelude Cstd Cmem Sds Util LevelDb Db Config Redis Connect.

Module Level.
Import Redis Connect.

(** [CommandType::ct]. *)
Definition COMM_GET : Z := 1.
Definition COMM_SET : Z := 2.
Definition COMM_DEL : Z := 3.
Definition COMM_QUIT : Z := 4.
Definition COMM_STATS : Z := 5.

(** [rlbytes] is a [uint64_t], [remains] a [uint32_t] and [commandtype] a
    [uint8_t]; [lstatus] is the status of the connection. *)
Record GentLevel := {
  rlbytes : Z; remains : Z; commandtype : Z; keystr : bytes; content : bytes; commandstr : bytes; max_tokens : Z;
  keys : list bytes; tokenList : list bytes; lstatus : connst
}.

(** The constructor leaves [rlbytes] and [commandtype] as they are. *)
Definition GentLevel_new (rl ct : Z) : GentLevel :=
  {| rlbytes := rl; remains := 0; commandtype := ct; keystr := []; content := []; commandstr := []; max_tokens := 1000;
     keys := []; tokenList := []; lstatus := CONN_READ |}.

Definition SetStatus (s : connst) (l : GentLevel) : GentLevel :=
  {| rlbytes := rlbytes l; remains := remains l; commandtype := commandtype l; keystr := keystr l; content := content l;
     commandstr := commandstr l; max_tokens := max_tokens l; keys := keys l; tokenList := tokenList l; lstatus := s |}.
Definition set_text (cmd cont : bytes) (rem : Z) (l : GentLevel) : GentLevel :=
  {| rlbytes := rlbytes l; remains := rem; commandtype := commandtype l; keystr := keystr l; content := cont;
     commandstr := cmd; max_tokens := max_tokens l; keys := keys l; tokenList := tokenList l; lstatus := lstatus l |}.
Definition set_tokens (v : list bytes) (l : GentLevel) : GentLevel :=
  {| rlbytes := rlbytes l; remains := remains l; commandtype := commandtype l; keystr := keystr l; content := content l;
     commandstr := commandstr l; max_tokens := max_tokens l; keys := keys l; tokenList := v; lstatus := lstatus l |}.
Definition set_command (ct : Z) (key : bytes) (ks : list bytes) (l : GentLevel) : GentLevel :=
  {| rlbytes := rlbytes l; remains := remains l; commandtype := ct; keystr := key; content := content l;
     commandstr := commandstr l; max_tokens := max_tokens l; keys := ks; tokenList := tokenList l; lstatus := lstatus l |}.
Definition set_rlbytes (n : Z) (l : GentLevel) : GentLevel :=
  {| rlbytes := n; remains := remains l; commandtype := commandtype l; keystr := keystr l; content := content l;
     commandstr := commandstr l; max_tokens := max_tokens l; keys := keys l; tokenList := tokenList l; lstatus := lstatus l |}.
Definition set_content (c : bytes) (l : GentLevel) : GentLevel := set_text (commandstr l) c (remains l) l.

(** [Split(str, delimit, v)]: the number of tokens, a [uint8_t], and the
    tokens. The position grows in every round, so the length is fuel enough. *)
Fixpoint Split_loop (fuel : nat) (s delimit : bytes) (last_pos num : Z) (v : list bytes) : result (Z * Z * list bytes) :=
  match fuel with
  | O => Ok (last_pos, num, v)
  | S fuel =>
      let pos := find_first_of s delimit last_pos in
      if pos =? npos then Ok (last_pos, num, v)
      else if pos =? last_pos then Split_loop fuel s delimit (last_pos + 1) num v
      else
        seg ← substr s last_pos (pos - last_pos);
        Split_loop fuel s delimit (pos + 1) (u8 (num + 1)) (v ++ [seg])
  end.

Definition Split (s delimit : bytes) (v : list bytes) : result (Z * list bytes) :=
  '(last_pos, num, v) ← Split_loop (S (length s)) s delimit 0 0 v;
  let ter_pos := find_first_of s crlf last_pos in
  if ter_pos =? npos then Ok (0, v)
  else if last_pos <? ter_pos then
    seg ← substr s last_pos (ter_pos - last_pos); Ok (u8 (num + 1), v ++ [seg])
  else Ok (num, v).

(** [CommandWord]: the value returned is an [int]. *)
Definition CommandWord (l : GentLevel) : result (Z * GentLevel) :=
  '(clength, v) ← Split (commandstr l) (str " ") [];
  let l := set_tokens v l in
  let first := default [] (head v) in
  if (clength =? 2) && bool_decide (first = str "get") then
    k ← vec_at v 1; Ok (0, SetStatus CONN_DATA (set_command COMM_GET k (keys l) l))
  else if (2 <? clength) && bool_decide (first = str "get") then
    if max_tokens l <? clength then Ok (-1, l)
    else Ok (0, SetStatus CONN_DATA (set_command COMM_GET [] (tail v) l))
  else if (clength =? 5) && bool_decide (first = str "set") then
    k ← vec_at v 1;
    let l := SetStatus CONN_NREAD (set_command COMM_SET k (keys l) l) in
    n ← vec_at v 4;
    match Util.SafeStrtol n with
    | (false, _) => Ok (-1, l)
    | (true, vlen) => n ← Sds.int_of (vlen + 2); let l := set_rlbytes (u64 n) l in Ok (i32 (rlbytes l - remains l), l)
    end
  else if (clength =? 2) && bool_decide (first = str "del") then
    k ← vec_at v 1; Ok (0, SetStatus CONN_DATA (set_command COMM_DEL k (keys l) l))
  else if (clength =? 1) && bool_decide (first = str "quit") then
    Ok (0, SetStatus CONN_CLOSE (set_command COMM_QUIT (keystr l) (keys l) l))
  else if (clength =? 2) && bool_decide (first = str "stats") then
    k ← vec_at v 1; Ok (0, SetStatus CONN_DATA (set_command COMM_STATS k (keys l) l))
  else if (clength =? 1) && bool_decide (first = str "stats") then
    Ok (0, SetStatus CONN_DATA (set_command COMM_STATS [] (keys l) l))
  else Ok (-1, l).

(** [ParseCommand]: the line up to the first LF, and what follows it. *)
Definition ParseCommand (s : bytes) (l : GentLevel) : result (Z * GentLevel) :=
  if zlen s =? 0 then Ok (0, l)
  else
    let pos := find_first_of s [LF] 0 in
    if (pos =? npos) || (pos =? 0) then Ok (0, l)
    else
      cmd ← substr s 0 pos;
      let rem := u32 (zlen s - pos - 1) in
      rest ← substr s (pos + 1) rem;
      Ok (1, set_text cmd rest rem l).

Definition Process (data : bytes) (l : GentLevel) : result (Z * bytes * GentLevel) :=
  if zlen data <=? 0 then Ok (0, str "ERROR" ++ crlf, l)
  else
    '(ok, l) ← ParseCommand data l;
    if ok =? 0 then Ok (0, str "ERROR" ++ crlf, l)
    else
      '(cword, l) ← CommandWord l;
      if cword <? 0 then Ok (0, str "CLIENT ERROR" ++ crlf, l) else Ok (cword, [], l).

(** What the commands read of the outside: the time, and the numbers of
    connections. *)
Record lenv := { now : Z; total_connect : Z; current_connect : Z }.

Section complete.
Context `{LevelDB D}.
Context (file_ok : bool).
Abbreviation W := (Db.GentDb D).

Definition ProcessDel (e : lenv) (l : GentLevel) (w : W) : result (bytes * W) :=
  v ← Db.Get (now e) (keystr l) w;
  match v with
  | None => Ok (str "NOT_FOUND" ++ crlf, w)
  | Some _ =>
      let '(ok, w) := Db.Del file_ok (keystr l) w in
      Ok (if ok then str "DELETED" ++ crlf else str "NOT_FOUND" ++ crlf, w)
  end.

(** [VALUE key 0 length]: at most 199 characters. *)
Definition value_line (k nr : bytes) : bytes :=
  snprintf 200 (str "VALUE " ++ cstr k ++ str " 0 " ++ udec (u32 (zlen nr)) ++ crlf).

Fixpoint ProcessMultiGet (e : lenv) (ks : list bytes) (outstr : bytes) (w : W) : result bytes :=
  match ks with
  | [] => Ok (outstr ++ str "END" ++ crlf)
  | k :: ks =>
      v ← Db.Get (now e) k w;
      match v with
      | None => ProcessMultiGet e ks outstr w
      | Some nr => ProcessMultiGet e ks (outstr ++ value_line k nr ++ nr ++ crlf) w
      end
  end.

(** What is put into [outstr] for a key that is not found is overwritten. *)
Definition ProcessGet (e : lenv) (l : GentLevel) (w : W) : result bytes :=
  if bool_decide (keystr l = []) then ProcessMultiGet e (keys l) [] w
  else
    v ← Db.Get (now e) (keystr l) w;
    let nr := default [] v in
    Ok (value_line (keystr l) nr ++ nr ++ crlf ++ str "END" ++ crlf).

Definition ProcessStats (e : lenv) (l : GentLevel) (w : W) : bytes * W :=
  let '(num, w) := Db.Count file_ok (keystr l) w in
  (snprintf 200 (str "total_connect: " ++ udec (u32 (total_connect e)) ++ crlf ++
     str "current_connect: " ++ udec (u32 (current_connect e)) ++ crlf ++
     str "item_nums: " ++ udec num ++ crlf ++ str "total_size: " ++ udec (Db.TotalSize w) ++ crlf), w).

Definition Complete (e : lenv) (recont : bytes) (l : GentLevel) (w : W) : result (bytes * GentLevel * W) :=
  if commandtype l =? COMM_GET then out ← ProcessGet e l w; Ok (out, l, w)
  else if commandtype l =? COMM_SET then
    let l := set_content (content l ++ recont) l in
    t ← substr (content l) (u64 (rlbytes l - 2)) 2;
    if negb (bool_decide (t = crlf)) then Ok (str "CLIENT_ERROR bad data chunk" ++ crlf, l, w)
    else
      let nr := take (Z.to_nat (u64 (rlbytes l - 2))) (content l) in
      let '(ok, w) := Db.Put_string file_ok (now e) (keystr l) nr 0 0 w in
      Ok (if ok then str "STORED" ++ crlf else str "NOT_STORED" ++ crlf, l, w)
  else if commandtype l =? COMM_QUIT then Ok ([], l, w)
  else if commandtype l =? COMM_DEL then '(out, w) ← ProcessDel e l w; Ok (out, l, w)
  else if commandtype l =? COMM_STATS then let '(out, w) := ProcessStats e l w in Ok (out, l, w)
  else Ok (str "ERROR" ++ crlf, l, w).

(** The virtual functions of [GentCommand]; [ContinueProcess] is not
    overridden. *)
#[global] Instance level_command : Command lenv GentLevel W := {
  cmd_status := lstatus;
  cmd_SetStatus := SetStatus;
  cmd_Process e data l w := '(n, out, l) ← Process data l; Ok (n, out, l, w);
  cmd_ContinueProcess e data l w := Ok (0, l, w);
  cmd_Complete e recont l w := Complete e recont l w
}.
#[global] Instance level_command_laws : CommandLaws lenv GentLevel W.
Proof. split; [done|done|by intros []]. Qed.
End complete.
End Level.
