(* ===== verification/LevelSpec.v ===== *)
(** * The text protocol does what it says

    The tokeniser on lines of words, every request being answered or parsed,
    and [set] and [get] over a connection, with [GentLevel] as its command
    object. *)

From S2P Require Import Prelude Cstd Cmem Sds SdsSpec Util LevelDb Db Config Redis Connect ConnectSpec Level.
Import Redis Connect Level.

(** ** The tokeniser *)

Definition word (w : bytes) : Prop := w ≠ [] ∧ Forall (λ b, b ≠ 32 ∧ b ≠ CR ∧ b ≠ LF ∧ b ≠ 0) w.

(** Words, each with the space behind it. *)
Definition spaced (ws : list bytes) : bytes := concat ((λ w, w ++ [32]) <$> ws).

Lemma spaced_cons w ws : spaced (w :: ws) = w ++ [32] ++ spaced ws.
Proof. unfold spaced. cbn. by rewrite <- app_assoc. Qed.

Lemma word_no_space w : word w → Forall (λ b, mem (str " ") b = false) w.
Proof. intros [_ Hw]. eapply Forall_impl; [exact Hw|]. intros b (Hb & _). apply mem_false. change (str " ") with [32]. set_solver. Qed.
Lemma word_no_end w : word w → Forall (λ b, mem crlf b = false) w.
Proof.
  intros [_ Hw]. eapply Forall_impl; [exact Hw|]. intros b (_ & H1 & H2 & _). apply mem_false. unfold crlf. set_solver.
Qed.

Lemma Split_loop_words fuel ws rest : Forall word ws → ∀ pre num v, zlen (pre ++ spaced ws ++ rest) < npos → 0 ≤ num → num + zlen ws < 256 →
  Split_loop (length ws + fuel) (pre ++ spaced ws ++ rest) (str " ") (zlen pre) num v =
  Split_loop fuel (pre ++ spaced ws ++ rest) (str " ") (zlen (pre ++ spaced ws)) (num + zlen ws) (v ++ ws).
Proof.
  induction 1 as [|w ws Hw Hws IH]; intros pre num v Hl Hn Hb.
  { cbn. by rewrite !app_nil_r, Z.add_0_r. }
  rewrite spaced_cons in *. rewrite zlen_cons in Hb. pose proof (zlen_nonneg ws). cbn [length Nat.add Split_loop].
  assert (find_first_of (pre ++ (w ++ [32] ++ spaced ws) ++ rest) (str " ") (zlen pre) = zlen pre + zlen w) as ->.
  { unfold find_first_of. replace (pre ++ (w ++ [32] ++ spaced ws) ++ rest) with (pre ++ w ++ 32 :: spaced ws ++ rest)
      by (by rewrite <- !app_assoc). apply find_if_hit; [done|by apply word_no_space|done]. }
  assert (0 < zlen w) by (destruct w; [by destruct Hw|zlia]). pose proof (zlen_nonneg pre).
  assert (zlen pre + zlen w < npos) by (rewrite !zlen_app in Hl; zlia).
  destruct (Z.eqb_spec (zlen pre + zlen w) npos); [lia|]. destruct (Z.eqb_spec (zlen pre + zlen w) (zlen pre)); [lia|].
  rewrite <- (app_assoc w), (substr_app pre w) by (done || lia). rbind. rewrite (u8_small (num + 1)) by lia.
  specialize (IH (pre ++ w ++ [32]) (num + 1) (v ++ [w])). rewrite <- !app_assoc in *.
  replace (zlen (pre ++ w ++ [32])) with (zlen pre + zlen w + 1) in IH by (rewrite !zlen_app; change (zlen [32]) with 1; lia).
  rewrite zlen_cons. cbn [app] in *. rewrite IH by (done || lia). by replace (num + (1 + zlen ws)) with (num + 1 + zlen ws) by lia.
Qed.

(** A line of up to 255 words. *)
Lemma Split_words ws w : Forall word ws → word w → zlen ws < 255 → zlen (spaced ws ++ w ++ [CR]) < npos →
  Split (spaced ws ++ w ++ [CR]) (str " ") [] = Ok (zlen ws + 1, ws ++ [w]).
Proof.
  intros Hws Hw Hn Hl. unfold Split. pose proof (zlen_nonneg ws).
  assert (∃ k, S (length (spaced ws ++ w ++ [CR])) = length ws + S k)%nat as [k ->].
  { exists (length (spaced ws ++ w ++ [CR]) - length ws)%nat. rewrite length_app.
    assert (length ws ≤ length (spaced ws))%nat; [|lia]. clear. induction ws as [|w ws IH]; [done|]. rewrite spaced_cons, !length_app. cbn. lia. }
  pose proof (Split_loop_words (S k) ws (w ++ [CR]) Hws [] 0 [] Hl ltac:(lia) ltac:(lia)) as E. cbn [app] in E. change (zlen (@nil Z)) with 0 in E. rewrite E. clear E.
  cbn [Split_loop]. unfold find_first_of. rewrite find_if_none; [|done|]. 2:{ apply Forall_app. split; [by apply word_no_space|by repeat constructor]. }
  rewrite Z.eqb_refl. rbind. rewrite (find_if_hit _ (spaced ws) w CR []) by (done || by apply word_no_end).
  assert (0 < zlen w) by (destruct w; [by destruct Hw|zlia]). pose proof (zlen_nonneg (spaced ws)). rewrite !zlen_app in Hl. change (zlen [CR]) with 1 in Hl.
  destruct (Z.eqb_spec (zlen (spaced ws) + zlen w) npos); [lia|]. destruct (Z.ltb_spec (zlen (spaced ws)) (zlen (spaced ws) + zlen w)); [|lia].
  rewrite (substr_app (spaced ws) w [CR]) by (done || lia). rbind. rewrite u8_small by lia. done.
Qed.

(** ** Every request is parsed *)

Lemma tokens_total s delimit : ∀ fuel pos num v, 0 ≤ pos ≤ zlen s → zlen s < npos → zlen s - pos < Z.of_nat fuel →
  ∃ pos' num' v', Split_loop fuel s delimit pos num v = Ok (pos', num', v') ∧ pos ≤ pos' ≤ zlen s ∧ find_first_of s delimit pos' = npos ∧
    (0 ≤ num < 256 → 0 ≤ num' < 256) ∧ ∃ u, v' = v ++ u ∧ num' = (if bool_decide (u = []) then num else u8 (num + zlen u)).
Proof.
  induction fuel as [|fuel IH]; intros pos num v Hp Hs Hf; [lia|]. cbn [Split_loop].
  destruct (find_if_bounds (mem delimit) s pos ltac:(lia)) as [E|E]; fold (find_first_of s delimit pos) in E.
  { rewrite E, Z.eqb_refl. exists pos, num, v. split; [done|]. split; [lia|]. split; [done|]. split; [done|]. exists []. by rewrite app_nil_r. }
  set (x := find_first_of s delimit pos) in *. destruct (Z.eqb_spec x npos); [lia|]. destruct (Z.eqb_spec x pos) as [Hx|Hx].
  - destruct (IH (pos + 1) num v) as (pos' & num' & v' & E1 & H1 & H2); [lia|done|lia|]. exists pos', num', v'. split; [done|]. split; [lia|done].
  - destruct (proj2 (substr_ok_iff s pos (x - pos))) as [seg ->]; [lia|]. rbind.
    destruct (IH (x + 1) (u8 (num + 1)) (v ++ [seg])) as (pos' & num' & v' & E1 & H1 & H2 & H3 & u & -> & Hu); [lia|done|lia|].
    exists pos', num', ((v ++ [seg]) ++ u). split; [done|]. split; [lia|]. split; [done|].
    split; [intros _; apply H3; apply u8_range|]. exists (seg :: u). rewrite <- app_assoc. split; [done|].
    rewrite Hu. cbn [bool_decide]. rewrite (bool_decide_eq_false_2 (seg :: u = [])) by done. rewrite zlen_cons. case_bool_decide as Hn.
    + subst u. by change (zlen []) with 0.
    + unfold u8. rewrite Zplus_mod_idemp_l. f_equal. lia.
Qed.

(** The count is the number of tokens, modulo 256, or zero. *)
Lemma Split_total s delimit : zlen s < npos →
  ∃ num v, Split s delimit [] = Ok (num, v) ∧ 0 ≤ num < 256 ∧ (num = 0 ∨ num = u8 (zlen v)).
Proof.
  intros Hs. pose proof (zlen_nonneg s). unfold Split.
  destruct (tokens_total s delimit (S (length s)) 0 0 []) as (pos & num & v & E & Hp & _ & Hn & u & -> & Hu); [lia|done|unfold zlen; lia|].
  rewrite E. rbind. assert (num = u8 (zlen u)) as Hnum by (rewrite Hu; case_bool_decide; [by subst u|done]).
  destruct (find_if_bounds (mem crlf) s pos ltac:(lia)) as [Ef|Ef]; fold (find_first_of s crlf pos) in Ef.
  { rewrite Ef, Z.eqb_refl. exists 0, u. split; [done|]. split; [lia|by left]. }
  set (x := find_first_of s crlf pos) in *. destruct (Z.eqb_spec x npos); [lia|]. cbn [app]. destruct (Z.ltb_spec pos x).
  - destruct (proj2 (substr_ok_iff s pos (x - pos))) as [seg ->]; [lia|]. rbind. eexists _, _. split; [done|]. split; [apply u8_range|]. right.
    rewrite Hnum, zlen_app. change (zlen [seg]) with 1. unfold u8. by rewrite Zplus_mod_idemp_l.
  - exists num, u. split; [done|]. split; [by apply Hn|by right].
Qed.

Lemma vec_at_count {A} (v : list A) num k : num = 0 ∨ num = u8 (zlen v) → 0 ≤ k < num → ∃ x, vec_at v k = Ok x.
Proof.
  intros Hn Hk. assert (k < zlen v) as Hl.
  { destruct Hn as [|Hn]; [lia|]. pose proof (Z.mod_le (zlen v) (2 ^ 8) ltac:(zlia) ltac:(lia)). unfold u8 in Hn. lia. }
  unfold vec_at. rewrite (proj2 (Z.leb_le 0 k)), (proj2 (Z.ltb_lt k (zlen v))) by lia. cbn [andb].
  destruct (lookup_lt_is_Some_2 v (Z.to_nat k)) as [x ->]; [unfold zlen in Hl; lia|]. by exists x.
Qed.

(** The fifth word of a line is a length whose sum with 2 is no [int]. *)
Definition overlong (line : bytes) : Prop :=
  ∃ num v k n, Split line (str " ") [] = Ok (num, v) ∧ vec_at v 4 = Ok k ∧ Util.SafeStrtol k = (true, n) ∧ 2 ^ 31 - 2 ≤ n.

Lemma SafeStrtol_int k b n : Util.SafeStrtol k = (b, n) → - 2 ^ 31 ≤ n < 2 ^ 31.
Proof.
  unfold Util.SafeStrtol. intros E. destruct (strtol (cstr k)) as [[l e] [[|c t]|]];
    [destruct e| destruct e; [|destruct (isspace c)]|]; injection E as <- <-; (apply i32_range || lia).
Qed.

Lemma CommandWord_cases l : zlen (commandstr l) < npos →
  CommandWord l = Fault IntOverflow ∧ overlong (commandstr l) ∨
  ∃ n l', CommandWord l = Ok (n, l') ∧ content l' = content l ∧ remains l' = remains l ∧
    (n < 0 ∨ n = 0 ∧ (lstatus l' = CONN_DATA ∨ lstatus l' = CONN_CLOSE) ∨
     lstatus l' = CONN_NREAD ∧ commandtype l' = COMM_SET ∧ n = i32 (rlbytes l' - remains l')).
Proof.
  intros Hl. unfold CommandWord. destruct (Split_total _ (str " ") Hl) as (num & v & Es & _ & Hnum). rewrite Es. rbind. cbn zeta.
  pose proof (vec_at_count v num 1 Hnum) as H1. pose proof (vec_at_count v num 4 Hnum) as H4.
  assert (∀ n l', (n < 0 ∨ n = 0 ∧ (lstatus l' = CONN_DATA ∨ lstatus l' = CONN_CLOSE)) → content l' = content l → remains l' = remains l →
    ∃ n0 l0, Ok (n, l') = Ok (n0, l0) ∧ content l0 = content l ∧ remains l0 = remains l ∧
      (n0 < 0 ∨ n0 = 0 ∧ (lstatus l0 = CONN_DATA ∨ lstatus l0 = CONN_CLOSE) ∨
       lstatus l0 = CONN_NREAD ∧ commandtype l0 = COMM_SET ∧ n0 = i32 (rlbytes l0 - remains l0))) as Hdone.
  { intros n l' [?|?] ? ?; exists n, l'; tauto. }
  repeat match goal with
  | |- context [if (?a =? ?b) && ?c then _ else _] => destruct (Z.eqb_spec a b); [destruct c|]; cbn [andb]
  | |- context [if (?a <? ?b) && ?c then _ else _] => destruct (Z.ltb_spec a b); [destruct c|]; cbn [andb]
  | |- context [if bool_decide ?c then _ else _] => destruct (bool_decide c)
  | |- context [vec_at v 1] => destruct H1 as [k ->]; [lia|]; rbind
  | |- context [vec_at v 4] => destruct H4 as [k' E4]; [lia|]; rewrite E4; rbind
  | |- context [if max_tokens _ <? num then _ else _] => destruct (_ <? num)
  end; try lia; try (right; apply Hdone; [(by left) || (right; cbn; auto)|done|done]).
  all: destruct (Util.SafeStrtol k') as [[] vlen] eqn:Ek; [|right; apply Hdone; [by left|done|done]]; unfold Sds.int_of;
    destruct (_ && _) eqn:Eb; rbind; [right|left; split; [done|]; exists num, v, k', vlen; pose proof (SafeStrtol_int _ _ _ Ek); split_and!; [done..|lia]];
    eexists _, _; split; [done|]; split; [done|]; split; [done|]; right; right; split; [done|]; split; done.
Qed.

Lemma find_from_split p t : ∀ i, find_from p t i = npos ∨
  ∃ a c u, t = a ++ c :: u ∧ p c = true ∧ find_from p t i = i + zlen a.
Proof.
  induction t as [|b t IH]; intros i; [by left|]. cbn [find_from]. destruct (p b) eqn:Eb.
  { right. exists [], b, t. split; [done|]. split; [done|]. change (zlen []) with 0. lia. }
  destruct (IH (i + 1)) as [->|(a & c & u & -> & Hc & ->)]; [by left|right]. exists (b :: a), c, u.
  split; [done|]. split; [done|]. rewrite zlen_cons. lia.
Qed.

Lemma first_line data : find_first_of data [LF] 0 ≠ npos →
  (take (Z.to_nat (find_first_of data [LF] 0)) data ++ [LF]) `prefix_of` data.
Proof.
  unfold find_first_of, find_if. destruct (_ <=? _); [done|]. change (drop (Z.to_nat 0) data) with data.
  destruct (find_from_split (mem [LF]) data 0) as [->|(a & c & u & -> & Hc & ->)]; [done|intros _].
  rewrite Z.add_0_l, to_nat_zlen, take_app_length. apply mem_true in Hc. apply list_elem_of_singleton in Hc as ->.
  exists u. by rewrite <- app_assoc.
Qed.



(** ** Requests *)

(** [set key flags exptime length], and [get key]. *)
Definition set_line (k f x : bytes) (n : Z) : bytes := spaced [str "set"; k; f; x] ++ udec n ++ crlf.
Definition get_line (k : bytes) : bytes := spaced [str "get"] ++ k ++ crlf.

Lemma udec_word n : 0 ≤ n → word (udec n).
Proof.
  intros Hn. split; [destruct (udec_nonempty n) as (c & s & ->); done|]. eapply Forall_impl; [by apply udec_digits|].
  intros b Hb. unfold isdigit in Hb. unfold CR, LF. lia.
Qed.

(** The line of a request ends at its LF. *)
Lemma ParseCommand_line t rest l : t ≠ [] → Forall (λ b, b ≠ LF) t → zlen (t ++ [LF] ++ rest) < 2 ^ 32 →
  ParseCommand (t ++ [LF] ++ rest) l = Ok (1, set_text t rest (zlen rest) l).
Proof.
  intros Ht Hf Hl. unfold ParseCommand. assert (0 < zlen t) by (destruct t; [done|zlia]). rewrite !zlen_app in *. change (zlen [LF]) with 1 in *.
  pose proof (zlen_nonneg rest). destruct (Z.eqb_spec (zlen t + (1 + zlen rest)) 0); [lia|].
  unfold find_first_of. rewrite (find_if_hit _ [] t LF rest); [|done| |done].
  2:{ eapply Forall_impl; [exact Hf|]. intros b Hb. apply mem_false. set_solver. }
  change (zlen (@nil Z)) with 0. rewrite Z.add_0_l. destruct (Z.eqb_spec (zlen t) npos); [unfold npos in *; lia|].
  destruct (Z.eqb_spec (zlen t) 0); [lia|]. cbn [orb]. rewrite substr_prefix. rbind.
  replace (zlen t + (1 + zlen rest) - zlen t - 1) with (zlen rest) by lia. rewrite u32_small by lia.
  rewrite (app_assoc t), substr_app_end; [done|rewrite zlen_app; done|done].
Qed.

Lemma spaced_no_lf ws : Forall word ws → Forall (λ b, b ≠ LF) (spaced ws).
Proof.
  induction 1 as [|w ws [_ Hw] _ IH]; [constructor|]. rewrite spaced_cons. apply Forall_app. split.
  - eapply Forall_impl; [exact Hw|]. by intros b (_ & _ & ? & _).
  - apply Forall_app. split; [by repeat constructor|done].
Qed.

(** A line of words, cut off and split. *)
Lemma parse_words ws w rest l : Forall word ws → word w → zlen ws < 255 → zlen (spaced ws ++ w ++ crlf ++ rest) < 2 ^ 32 →
  ParseCommand (spaced ws ++ w ++ crlf ++ rest) l = Ok (1, set_text (spaced ws ++ w ++ [CR]) rest (zlen rest) l) ∧
  Split (spaced ws ++ w ++ [CR]) (str " ") [] = Ok (zlen ws + 1, ws ++ [w]).
Proof.
  intros Hws Hw Hn Hl. split.
  - change (crlf ++ rest) with ([CR] ++ [LF] ++ rest) in *. replace (spaced ws ++ w ++ [CR] ++ [LF] ++ rest) with ((spaced ws ++ w ++ [CR]) ++ [LF] ++ rest) in * by (by rewrite <- !app_assoc).
    apply ParseCommand_line; [by destruct (spaced ws), w| |done]. apply Forall_app. split; [by apply spaced_no_lf|].
    apply Forall_app. split; [|by repeat constructor]. destruct Hw as [_ Hw]. eapply Forall_impl; [exact Hw|]. by intros b (_ & _ & ? & _).
  - apply Split_words; try done. rewrite !zlen_app in *. change (zlen crlf) with 2 in *. change (zlen [CR]) with 1. pose proof (zlen_nonneg rest). unfold npos. lia.
Qed.

(** The state behind the first read of a [set]. *)
Definition set_begun (k f x : bytes) (n : Z) (chunk : bytes) (l : GentLevel) : GentLevel :=
  set_rlbytes (n + 2) (SetStatus CONN_NREAD (set_command COMM_SET k (keys l)
    (set_tokens ([str "set"; k; f; x] ++ [udec n]) (set_text (spaced [str "set"; k; f; x] ++ udec n ++ [CR]) chunk (zlen chunk) l)))).

Lemma Process_set_line k f x n chunk l : word k → word f → word x → 0 ≤ n < 2 ^ 31 - 2 → zlen chunk ≤ n + 2 →
  zlen (set_line k f x n ++ chunk) < 2 ^ 32 →
  Process (set_line k f x n ++ chunk) l = Ok (n + 2 - zlen chunk, [], set_begun k f x n chunk l).
Proof.
  intros Hk Hf Hx Hn Hc Hl. unfold set_line in *. rewrite <- !app_assoc in *.
  destruct (parse_words [str "set"; k; f; x] (udec n) chunk l) as [E1 E2]; [|apply udec_word; lia|by vm_compute|done|].
  { repeat constructor; try done; unfold word in *; naive_solver. }
  unfold Process. destruct (Z.leb_spec (zlen (spaced [str "set"; k; f; x] ++ udec n ++ crlf ++ chunk)) 0) as [Hz|_].
  { rewrite spaced_cons, zlen_app, zlen_app in Hz. change (zlen (str "set")) with 3 in Hz. rewrite !zlen_app in Hz. zlia. }
  rewrite E1. rbind. cbn [Z.eqb]. unfold CommandWord. cbn [commandstr set_text]. rewrite E2. rbind. cbn zeta.
  cbn [app head default from_option id]. change (zlen [str "set"; k; f; x] + 1) with 5. cbn [Z.eqb Pos.eqb andb Z.ltb Z.compare Pos.compare Pos.compare_cont].
  rewrite (bool_decide_eq_false_2 (str "set" = str "get")) by done. rewrite (bool_decide_eq_true_2 (str "set" = str "set")) by done. cbn [andb].
  change (vec_at [str "set"; k; f; x; udec n] 1) with (Ok k). change (vec_at [str "set"; k; f; x; udec n] 4) with (Ok (udec n)). rbind.
  pose proof (Util.SafeStrtol_udec n [] ltac:(lia) I) as Es. rewrite app_nil_r in Es. rewrite Es. unfold Sds.int_of.
  rewrite (proj2 (Z.leb_le (- 2 ^ 31) (n + 2))), (proj2 (Z.ltb_lt (n + 2) (2 ^ 31))) by lia. cbn [andb]. rbind. rewrite u64_small by lia.
  cbn [rlbytes remains set_rlbytes SetStatus set_command set_tokens set_text]. pose proof (zlen_nonneg chunk). rewrite i32_small by lia.
  destruct (Z.ltb_spec (n + 2 - zlen chunk) 0); [lia|]. done.
Qed.

(** The state behind a [get] of one key. *)
Definition get_begun (k : bytes) (l : GentLevel) : GentLevel :=
  SetStatus CONN_DATA (set_command COMM_GET k (keys l)
    (set_tokens ([str "get"] ++ [k]) (set_text (spaced [str "get"] ++ k ++ [CR]) [] 0 l))).

Lemma Process_get_line k l : word k → zlen (get_line k) < 2 ^ 32 → Process (get_line k) l = Ok (0, [], get_begun k l).
Proof.
  intros Hk Hl. unfold get_line in *. rewrite <- (app_nil_r crlf) in *.
  destruct (parse_words [str "get"] k [] l) as [E1 E2]; [|done|by vm_compute|done|].
  { repeat constructor; done. }
  unfold Process. destruct (Z.leb_spec (zlen (spaced [str "get"] ++ k ++ crlf ++ [])) 0) as [Hz|_].
  { rewrite spaced_cons, zlen_app, zlen_app in Hz. change (zlen (str "get")) with 3 in Hz. rewrite !zlen_app in Hz. zlia. }
  rewrite E1. rbind. cbn [Z.eqb]. unfold CommandWord. cbn [commandstr set_text]. rewrite E2. rbind. cbn zeta.
  cbn [app head default from_option id]. change (zlen [str "get"] + 1) with 2. cbn [Z.eqb Pos.eqb andb].
  rewrite (bool_decide_eq_true_2 (str "get" = str "get")) by done.
  change (vec_at [str "get"; k] 1) with (Ok k). by rbind.
Qed.

Section socket.
Context `{LevelDBLaws D, Malloc}.
Context (file_ok : bool).
#[local] Instance the_command : Command lenv GentLevel (Db.GentDb D) := level_command file_ok.
#[local] Instance the_command_laws : CommandLaws lenv GentLevel (Db.GentDb D) := level_command_laws file_ok.

Lemma Complete_set_ok e k f x v chunk d l (w : Db.GentDb D) :
  chunk ++ d = v ++ crlf → zlen v < 2 ^ 31 - 2 → Db.ten_digits (now e) → Db.put_ok k v (Db.MetaSerialize 0 0 (now e)) w →
  ∃ l' w', Complete file_ok e d (SetStatus CONN_DATA (set_begun k f x (zlen v) chunk l)) w = Ok (str "STORED" ++ crlf, l', w') ∧
    ∀ t, Db.Get t k w' = Ok (Some v).
Proof.
  intros Hcut Hv Hnow Hput. unfold Complete.
  cbn [commandtype SetStatus set_begun set_rlbytes set_command set_tokens set_text content commandstr remains keystr rlbytes Level.set_content].
  change (COMM_SET =? COMM_GET) with false. change (COMM_SET =? COMM_SET) with true. cbv iota. rewrite Hcut.
  pose proof (zlen_nonneg v). replace (zlen v + 2 - 2) with (zlen v) by lia. rewrite u64_small by lia.
  rewrite substr_app_end by done. rbind. rewrite (bool_decide_eq_true_2 (crlf = crlf)) by done. cbn [negb].
  rewrite to_nat_zlen, take_app_length. unfold Db.Put_string.
  destruct (Db.Put_value_Get file_ok (now e) k v 0 0 w Hput) as (Hok & Hdb & Hmeta & _).
  destruct (Db.Put_value file_ok (now e) k v 0 0 w) as [ok w'] eqn:Ep. cbn [fst snd] in *. subst ok. eexists _, w'. split; [done|].
  intros t. unfold Db.Get. rewrite Hmeta, Hdb, !decide_True by done. rewrite Db.Meta_read_back by (done || lia || by left). rbind. done.
Qed.

(** The reply of [get]. *)
Definition value_reply (k v : bytes) : bytes :=
  str "VALUE " ++ k ++ str " 0 " ++ udec (zlen v) ++ crlf ++ v ++ crlf ++ str "END" ++ crlf.

Lemma word_cstr w : word w → cstr w = w.
Proof. intros [_ Hw]. apply cstr_nonzero. eapply Forall_impl; [exact Hw|]. by intros b (_ & _ & _ & ?). Qed.

Lemma value_line_ok k v : word k → zlen k < 170 → zlen v < 2 ^ 32 → value_line k v = str "VALUE " ++ k ++ str " 0 " ++ udec (zlen v) ++ crlf.
Proof.
  intros Hk Hl Hv. unfold value_line, snprintf. pose proof (zlen_nonneg v). rewrite word_cstr, u32_small by (done || lia). apply take_ge.
  pose proof (udec_len_le (zlen v) 10 ltac:(lia) ltac:(lia)). unfold zlen in *. rewrite !length_app. cbn [length str]. 
  change (length (str "VALUE ")) with 6%nat. change (length (str " 0 ")) with 3%nat. change (length crlf) with 2%nat. lia.
Qed.

Lemma get_line_dialogue e k v xs l (w : Db.GentDb D) : word k → zlen k < 170 → zlen v < 2 ^ 31 → Db.Get (now e) k w = Ok (Some v) →
  dialogue e (get_line k) l w xs (value_reply k v) (get_begun k l) w xs.
Proof.
  intros Hk Hl Hv HG. eapply (dialogue_data e _ _ _ 0 xs).
  - cbn [cmd_Process the_command level_command]. rewrite Process_get_line; [by rbind|done|].
    unfold get_line. rewrite !zlen_app. change (zlen (spaced [str "get"])) with 4. change (zlen crlf) with 2. lia.
  - done.
  - cbn [cmd_Complete the_command level_command]. unfold Complete. cbn [commandtype get_begun SetStatus set_command].
    change (COMM_GET =? COMM_GET) with true. cbv iota. unfold ProcessGet. cbn [keystr get_begun SetStatus set_command].
    rewrite (bool_decide_eq_false_2 (k = [])) by (by destruct Hk). rewrite HG. rbind. cbn [default from_option id].
    rewrite value_line_ok by (done || lia). unfold value_reply. by rewrite <- !app_assoc.
  - unfold value_reply. intros E. discriminate E.
Qed.

End socket.

(** ** Examples *)

#[local] Existing Instance calloc_all.
#[local] Existing Instance the_command.

Definition level_accepted (q : list rd) : state GentLevel (Db.GentDb (gmap bytes bytes)) :=
  {| conn := {| fd := 7; rbuf := Some (replicate (Z.to_nat READ_BUFFER_SIZE) 0); rsize := READ_BUFFER_SIZE;
                Connect.content := None; rcont := 0; cbuf := None; csize := 0; cbytes := 0; outstr := []; sendsize := 0;
                cursendsize := 0; remainsize := 0; actualsize := 0; ev_flags := EvRead |};
     comm := GentLevel_new 0 0; net := {| inq := q; outq := [SdTake 3; SdAgain]; sent := [] |}; world := Db.empty_db |}.

Definition level_noon : lenv := {| now := 1700000000; total_connect := 1; current_connect := 1 |}.


(** A [get] of a key that does not exist is answered with an empty value. *)
Lemma missing_key_has_value :
  (r ← Process (get_line (str "k")) (GentLevel_new 0 0); Complete true level_noon [] r.2 Db.empty_db) =
  Ok (str "VALUE k 0 0" ++ crlf ++ crlf ++ str "END" ++ crlf, get_begun (str "k") (GentLevel_new 0 0), Db.empty_db).
Proof. by vm_compute. Qed.

(** A [set] with the length -2 passes the parser, and completing it throws. *)
Lemma negative_length_throws :
  (r ← Process (str "set k 0 0 -2" ++ crlf) (GentLevel_new 0 0); Complete true level_noon [] r.2 Db.empty_db) = Fault OutOfRange.
Proof. by vm_compute. Qed.

(** The number of tokens is kept in eight bits: [get] with 257 keys is taken
    as [get] of the first, and the limit of 1000 tokens is never exceeded. *)
Lemma many_keys_wrap : ∃ l',
  Process (str "get" ++ concat (replicate 257 (str " k")) ++ crlf) (GentLevel_new 0 0) = Ok (0, [], l') ∧ keystr l' = str "k" ∧ keys l' = [].
Proof. eexists. split; [by vm_compute|done]. Qed.
