(* ===== verification/Async.v ===== *)
(** * The asynchronous client (pack/hiredis/async.h, async.c, with the
    adapter adapters/libevent.h)

    A [redisAsyncContext] holds a non-blocking context, the queue of the
    callbacks that wait for replies, and the callbacks of subscriptions in
    two hash tables. An event library reports that the socket is readable or
    writable; replies are then handed to callbacks, which may issue commands,
    disconnect or free the context.

    The callbacks are the program that uses the library: a function from the
    history of the calls made so far to what the callback does next. Memory
    that was freed is not accessible: an access is a fault. *)

From S2P Require Import Prelude Cstd Cmem Sds Read Hiredis Dict.
Import Sds Read Hiredis.

Module Async.

Definition REDIS_DISCONNECTING : Z := 4.
Definition REDIS_FREEING : Z := 8.
Definition REDIS_IN_CALLBACK : Z := 16.
Definition REDIS_SUBSCRIBED : Z := 32.
Definition REDIS_MONITORING : Z := 64.
Definition EINPROGRESS : Z := 115.

(** [struct redisCallback] without its link: [fn] is NULL or names a function
    of the program. *)
Record redisCallback := { fn : option Z; privdata : Z }.
Definition null_callback : redisCallback := {| fn := None; privdata := 0 |}.

(** ** Callback lists *)

(** [struct redisCallbackList], with the heap of its cells: a callback and
    its [next]. *)
Record redisCallbackList := {
  head : option loc;
  tail : option loc;
  cells : gmap loc (redisCallback * option loc);
  cnext : loc
}.
Definition empty_list : redisCallbackList := {| head := None; tail := None; cells := ∅; cnext := 1 |}.

(** [callbackDict]: keys are sds strings, compared by length and content;
    the value is copied. Lengths are below 2^31, so the [int]s they are
    stored in hold them. *)
#[global] Instance callbackDict : Dict.dictType bytes redisCallback := {|
  Dict.hashFunction := Dict.dictGenHashFunction;
  Dict.keyDup k := k;
  Dict.valDup v := v;
  Dict.keyCompare key1 key2 := (zlen key1 =? zlen key2) && (memcmp key1 key2 =? 0)
|}.
Abbreviation cbdict := (@Dict.dict bytes redisCallback).

(** What [ev] points to once the libevent adapter is attached: whether it is
    allocated, and whether its read and its write event are pending. *)
Record redisLibeventEvents := { ev_live : bool; rev : bool; wev : bool }.

(** What the program is told: a reply callback with its reply (and the heap
    in which it lies), the connection callbacks with a status, and the status
    of a command it issued. *)
Inductive event :=
  | Called (f pd : Z) (reply : option loc) (heap : gmap loc redisReply)
  | OnConnect (f status : Z)
  | OnDisconnect (f status : Z)
  | Returned (status : Z).

(** What the program does with a context. *)
Inductive action :=
  | CommandArgv (f : option Z) (pd : Z) (argv : list bytes) (argvlen : option (list Z))
  | Command (f : option Z) (pd : Z) (format : bytes) (ap : list va)
  | FormattedCommand (f : option Z) (pd : Z) (cmd : bytes) (len : Z)
  | Disconnect
  | Free
  | SetConnectCallback (f : Z)
  | SetDisconnectCallback (f : Z).

(** The program: what the callback that was just called (the last event of
    the history) does. *)
Class Client := client : list event → list action.

(** [struct redisAsyncContext]; [ac_live] is false once the context is freed,
    a hash table is NULL once it is released. [wire] has the bytes the
    context has sent, [alog] the history. *)
Record redisAsyncContext := {
  ac_c : redisContext;
  ac_err : Z;
  ac_ev : option redisLibeventEvents;
  onConnect : option Z;
  onDisconnect : option Z;
  replies : redisCallbackList;
  invalid : redisCallbackList;
  channels : option cbdict;
  patterns : option cbdict;
  ac_live : bool;
  wire : bytes;
  alog : list event
}.

Definition set_c (c : redisContext) (ac : redisAsyncContext) : redisAsyncContext :=
  {| ac_c := c; ac_err := ac_err ac; ac_ev := ac_ev ac; onConnect := onConnect ac; onDisconnect := onDisconnect ac;
     replies := replies ac; invalid := invalid ac; channels := channels ac; patterns := patterns ac;
     ac_live := ac_live ac; wire := wire ac; alog := alog ac |}.
Definition set_ac_err (e : Z) (ac : redisAsyncContext) : redisAsyncContext :=
  {| ac_c := ac_c ac; ac_err := e; ac_ev := ac_ev ac; onConnect := onConnect ac; onDisconnect := onDisconnect ac;
     replies := replies ac; invalid := invalid ac; channels := channels ac; patterns := patterns ac;
     ac_live := ac_live ac; wire := wire ac; alog := alog ac |}.
Definition set_ev (e : option redisLibeventEvents) (ac : redisAsyncContext) : redisAsyncContext :=
  {| ac_c := ac_c ac; ac_err := ac_err ac; ac_ev := e; onConnect := onConnect ac; onDisconnect := onDisconnect ac;
     replies := replies ac; invalid := invalid ac; channels := channels ac; patterns := patterns ac;
     ac_live := ac_live ac; wire := wire ac; alog := alog ac |}.
Definition set_handlers (oc od : option Z) (ac : redisAsyncContext) : redisAsyncContext :=
  {| ac_c := ac_c ac; ac_err := ac_err ac; ac_ev := ac_ev ac; onConnect := oc; onDisconnect := od;
     replies := replies ac; invalid := invalid ac; channels := channels ac; patterns := patterns ac;
     ac_live := ac_live ac; wire := wire ac; alog := alog ac |}.
Definition set_lists (rs inv : redisCallbackList) (ac : redisAsyncContext) : redisAsyncContext :=
  {| ac_c := ac_c ac; ac_err := ac_err ac; ac_ev := ac_ev ac; onConnect := onConnect ac; onDisconnect := onDisconnect ac;
     replies := rs; invalid := inv; channels := channels ac; patterns := patterns ac;
     ac_live := ac_live ac; wire := wire ac; alog := alog ac |}.
Definition set_subs (ch pa : option cbdict) (ac : redisAsyncContext) : redisAsyncContext :=
  {| ac_c := ac_c ac; ac_err := ac_err ac; ac_ev := ac_ev ac; onConnect := onConnect ac; onDisconnect := onDisconnect ac;
     replies := replies ac; invalid := invalid ac; channels := ch; patterns := pa;
     ac_live := ac_live ac; wire := wire ac; alog := alog ac |}.
Definition set_live (l : bool) (ac : redisAsyncContext) : redisAsyncContext :=
  {| ac_c := ac_c ac; ac_err := ac_err ac; ac_ev := ac_ev ac; onConnect := onConnect ac; onDisconnect := onDisconnect ac;
     replies := replies ac; invalid := invalid ac; channels := channels ac; patterns := patterns ac;
     ac_live := l; wire := wire ac; alog := alog ac |}.
Definition set_wire (b : bytes) (ac : redisAsyncContext) : redisAsyncContext :=
  {| ac_c := ac_c ac; ac_err := ac_err ac; ac_ev := ac_ev ac; onConnect := onConnect ac; onDisconnect := onDisconnect ac;
     replies := replies ac; invalid := invalid ac; channels := channels ac; patterns := patterns ac;
     ac_live := ac_live ac; wire := b; alog := alog ac |}.
Definition add_log (e : event) (ac : redisAsyncContext) : redisAsyncContext :=
  {| ac_c := ac_c ac; ac_err := ac_err ac; ac_ev := ac_ev ac; onConnect := onConnect ac; onDisconnect := onDisconnect ac;
     replies := replies ac; invalid := invalid ac; channels := channels ac; patterns := patterns ac;
     ac_live := ac_live ac; wire := wire ac; alog := alog ac ++ [e] |}.

(** [c->flags & f], [c->flags |= f] and [c->flags &= ~f]. *)
Definition set_cflags (f : Z) (c : redisContext) : redisContext :=
  {| cerr := cerr c; cerrstr := cerrstr c; cfd := cfd c; cflags := f; obuf := obuf c; reader := reader c |}.
Definition flag (ac : redisAsyncContext) (f : Z) : bool := negb (Z.land (cflags (ac_c ac)) f =? 0).
Definition flag_on (f : Z) (ac : redisAsyncContext) : redisAsyncContext :=
  set_c (set_cflags (Z.lor (cflags (ac_c ac)) f) (ac_c ac)) ac.
Definition flag_off (f : Z) (ac : redisAsyncContext) : redisAsyncContext :=
  set_c (set_cflags (Z.ldiff (cflags (ac_c ac)) f) (ac_c ac)) ac.

(** An access to the context. *)
Definition use (ac : redisAsyncContext) : result unit := if ac_live ac then Ok tt else Fault OutOfBounds.

(** ** The event library *)

Inductive hook := AddRead | DelRead | AddWrite | DelWrite | Cleanup.

(** [redisLibeventAddRead] and the other hooks, with [event_add] and
    [event_del] of an event that is pending or not. *)
Definition libevent_hook (h : hook) (e : redisLibeventEvents) : result redisLibeventEvents :=
  if negb (ev_live e) then Fault OutOfBounds
  else
    Ok match h with
       | AddRead => {| ev_live := true; rev := true; wev := wev e |}
       | DelRead => {| ev_live := true; rev := false; wev := wev e |}
       | AddWrite => {| ev_live := true; rev := rev e; wev := true |}
       | DelWrite => {| ev_live := true; rev := rev e; wev := false |}
       | Cleanup => {| ev_live := false; rev := false; wev := false |}
       end.

(** [_EL_ADD_READ] and the other macros: nothing when no hook is set. *)
Definition EL (h : hook) (ac : redisAsyncContext) : result redisAsyncContext :=
  match ac_ev ac with
  | None => Ok ac
  | Some e => e ← libevent_hook h e; Ok (set_ev (Some e) ac)
  end.

(** [redisLibeventAttach]: the events are not yet pending. *)
Definition redisLibeventAttach (ac : redisAsyncContext) : Z * redisAsyncContext :=
  match ac_ev ac with
  | Some _ => (REDIS_ERR, ac)
  | None => (REDIS_OK, set_ev (Some {| ev_live := true; rev := false; wev := false |}) ac)
  end.

(** ** Commands in the output format *)

(** [strchr(b+p, c)], as an offset into the block. *)
Fixpoint strchr_from (s : bytes) (c i : Z) : result (option Z) :=
  match s with
  | [] => Fault OutOfBounds
  | x :: s => if x =? c then Ok (Some i) else if x =? 0 then Ok None else strchr_from s c (i + 1)
  end.
Definition strchr (b : bytes) (p c : Z) : result (option Z) :=
  if p <? 0 then Fault OutOfBounds else strchr_from (drop (Z.to_nat p) b) c p.

(** [strncasecmp(a, b, n) == 0] and [strcasecmp(a, b) == 0] for a literal [b]. *)
Fixpoint strncaseeq (a b : bytes) (n : nat) {struct n} : result bool :=
  match n with
  | O => Ok true
  | S n =>
      match a, b with
      | x :: a, y :: b =>
          if negb (tolower x =? tolower y) then Ok false else if x =? 0 then Ok true else strncaseeq a b n
      | _, _ => Fault OutOfBounds
      end
  end.
Definition strcaseeq (a b : bytes) : result bool := strncaseeq a (b ++ [0]) (S (length b)).

(** The block from an offset on. *)
Definition from (b : bytes) (p : Z) : result bytes :=
  if (0 <=? p) && (p <=? zlen b) then Ok (drop (Z.to_nat p) b) else Fault OutOfBounds.

(** [nextArgument(start, &str, &len)]: the offsets of the argument and of
    what follows it, and its length, a [size_t] made of an [int]. *)
Definition nextArgument (b : bytes) (start : Z) : result (option (Z * Z * Z)) :=
  c ← load b start;
  op ← (if negb (c =? 36) then strchr b start 36 else Ok (Some start));
  match op with
  | None => Ok None
  | Some p =>
      t ← from b (p + 1);
      let len := u64 (i32 (strtol t).1.1) in
      op ← strchr b p CR;
      match op with
      | None => Fault AssertFailed
      | Some p => Ok (Some (p + 2, len, i64 (p + 2 + len + 2)))
      end
  end.

Section async.
Context `{Malloc} `{Libc} `{Client}.

(** [__redisPushCallback]; every caller passes a callback. *)
Definition redisPushCallback (l : redisCallbackList) (source : redisCallback) : result (Z * redisCallbackList) :=
  if negb (malloc_ok 24) then Ok (REDIS_ERR_OOM, l)
  else
    let cb := cnext l in
    let h := <[cb := (source, None)]> (cells l) in
    let hd := match head l with None => Some cb | Some p => Some p end in
    h ← match tail l with
        | None => Ok h
        | Some t => x ← nn (h !! t); Ok (<[t := (x.1, Some cb)]> h)
        end;
    Ok (REDIS_OK, {| head := hd; tail := Some cb; cells := h; cnext := cb + 1 |}).

(** [__redisShiftCallback]: the callback, or [None] for [REDIS_ERR]. *)
Definition redisShiftCallback (l : redisCallbackList) : result (option redisCallback * redisCallbackList) :=
  match head l with
  | None => Ok (None, l)
  | Some cb =>
      x ← nn (cells l !! cb);
      Ok (Some x.1, {| head := x.2; tail := if bool_decide (tail l = Some cb) then None else tail l;
                       cells := delete cb (cells l); cnext := cnext l |})
  end.

Definition redisAsyncCopyError (ac : redisAsyncContext) : redisAsyncContext := set_ac_err (cerr (ac_c ac)) ac.

(** [redisAsyncInitialize] on a context that a connect function made. *)
Definition redisAsyncInitialize (c : redisContext) : result (option redisAsyncContext) :=
  if negb (malloc_ok 352) then Ok None
  else
    let c := set_cflags (Z.ldiff (cflags c) REDIS_CONNECTED) c in
    ch ← Dict.dictCreate;
    pa ← Dict.dictCreate;
    Ok (Some {| ac_c := c; ac_err := 0; ac_ev := None; onConnect := None; onDisconnect := None;
                replies := empty_list; invalid := empty_list; channels := Some ch; patterns := Some pa;
                ac_live := true; wire := []; alog := [] |}).

(** [redisAsyncConnect] and [redisAsyncConnectUnix]: [c] is what the
    non-blocking connect returns, NULL when memory is short. *)
Definition redisAsyncConnect (c : option redisContext) : result (option redisAsyncContext) :=
  match c with
  | None => Ok None
  | Some c => o ← redisAsyncInitialize c; Ok (option_map redisAsyncCopyError o)
  end.

Definition redisAsyncSetConnectCallback (ac : redisAsyncContext) (f : Z) : result (Z * redisAsyncContext) :=
  match onConnect ac with
  | None => ac ← EL AddWrite (set_handlers (Some f) (onDisconnect ac) ac); Ok (REDIS_OK, ac)
  | Some _ => Ok (REDIS_ERR, ac)
  end.

Definition redisAsyncSetDisconnectCallback (ac : redisAsyncContext) (f : Z) : Z * redisAsyncContext :=
  match onDisconnect ac with
  | None => (REDIS_OK, set_handlers (onConnect ac) (Some f) ac)
  | Some _ => (REDIS_ERR, ac)
  end.

(** [sdsnewlen] and the bytes of the new string. *)
Definition sname (b : bytes) (len : Z) : result bytes :=
  o ← sdsnewlen (Some b) len; s ← nn o; slice (buf s) 0 (sdslen s).

(** The loop of a (P)SUBSCRIBE command over its arguments: each is found
    behind the one before. *)
Fixpoint subscribe_loop (fuel : nat) (cmd : bytes) (p : Z) (cb : redisCallback) (d : cbdict) : result cbdict :=
  match fuel with
  | O => Fault OutOfBounds
  | S fuel =>
      a ← nextArgument cmd p;
      match a with
      | None => Ok d
      | Some (astr, alen, p) =>
          t ← from cmd astr;
          name ← sname t alen;
          '(_, d) ← Dict.dictReplace d name cb;
          subscribe_loop fuel cmd p cb d
      end
  end.

(** [__redisAsyncCommand]. *)
Definition asyncCommand (ac : redisAsyncContext) (f : option Z) (pd : Z) (cmd : bytes) (len : Z)
    : result (Z * redisAsyncContext) :=
  if flag ac (Z.lor REDIS_DISCONNECTING REDIS_FREEING) then Ok (REDIS_ERR, ac)
  else
    let cb := {| fn := f; privdata := pd |} in
    a ← nextArgument cmd 0;
    match a with
    | None => Fault AssertFailed
    | Some (cstr, clen, p) =>
        c ← load cmd p;
        let hasnext := c =? 36 in
        c ← load cmd cstr;
        let pvariant := tolower c =? 112 in
        name ← from cmd (if pvariant then cstr + 1 else cstr);
        sub ← (if hasnext then strncaseeq name (str "subscribe" ++ crlf) 11 else Ok false);
        let append (ac : redisAsyncContext) :=
          '(_, c) ← redisAppendFormattedCommand (ac_c ac) cmd len;
          ac ← EL AddWrite (set_c c ac);
          Ok (REDIS_OK, ac) in
        if (sub : bool) then
          let ac := flag_on REDIS_SUBSCRIBED ac in
          if pvariant then
            d ← nn (patterns ac);
            d ← subscribe_loop (S (length cmd)) cmd p cb d; append (set_subs (channels ac) (Some d) ac)
          else
            d ← nn (channels ac);
            d ← subscribe_loop (S (length cmd)) cmd p cb d; append (set_subs (Some d) (patterns ac) ac)
        else
          unsub ← strncaseeq name (str "unsubscribe" ++ crlf) 13;
          if (unsub : bool) then
            if negb (flag ac REDIS_SUBSCRIBED) then Ok (REDIS_ERR, ac) else append ac
          else
            mon ← strncaseeq name (str "monitor" ++ crlf) 9;
            if (mon : bool) then
              let ac := flag_on REDIS_MONITORING ac in
              '(_, l) ← redisPushCallback (replies ac) cb; append (set_lists l (invalid ac) ac)
            else if flag ac REDIS_SUBSCRIBED then
              '(_, l) ← redisPushCallback (invalid ac) cb; append (set_lists (replies ac) l ac)
            else
              '(_, l) ← redisPushCallback (replies ac) cb; append (set_lists l (invalid ac) ac)
    end.

Definition redisvAsyncCommand (ac : redisAsyncContext) (f : option Z) (pd : Z) (format : bytes) (ap : list va)
    : result (Z * redisAsyncContext) :=
  '(len, cmd) ← redisvFormatCommand format ap;
  if len <? 0 then Ok (REDIS_ERR, ac) else cmd ← nn cmd; asyncCommand ac f pd cmd (u64 len).

Definition redisAsyncCommandArgv (ac : redisAsyncContext) (f : option Z) (pd : Z) (argv : list bytes)
    (argvlen : option (list Z)) : result (Z * redisAsyncContext) :=
  '(len, cmd) ← redisFormatSdsCommandArgv argv argvlen;
  cmd ← nn cmd; asyncCommand ac f pd (buf cmd) (u64 len).

Definition redisAsyncFormattedCommand (ac : redisAsyncContext) (f : option Z) (pd : Z) (cmd : bytes) (len : Z)
    : result (Z * redisAsyncContext) := asyncCommand ac f pd cmd len.

(** ** Operations that call the program

    [act] carries out the actions of a callback. *)
Section calls.
Variable act : list action → redisAsyncContext → result redisAsyncContext.

(** The program is told of an event and acts on it. *)
Definition tell (e : event) (ac : redisAsyncContext) : result redisAsyncContext :=
  let ac := add_log e ac in act (client (alog ac)) ac.

(** [__redisRunCallback]. *)
Definition redisRunCallback (ac : redisAsyncContext) (cb : redisCallback) (reply : option loc)
    : result redisAsyncContext :=
  match fn cb with
  | None => Ok ac
  | Some f =>
      let ac := flag_on REDIS_IN_CALLBACK ac in
      ac ← tell (Called f (privdata cb) reply (rheap (reader (ac_c ac)))) ac;
      _ ← use ac;
      Ok (flag_off REDIS_IN_CALLBACK ac)
  end.

(** [while (__redisShiftCallback(..., &cb) == REDIS_OK)] over the replies and
    over the invalid commands: a context being freed takes no commands, so
    there are as many rounds as callbacks. *)
Fixpoint drain_replies (fuel : nat) (ac : redisAsyncContext) : result redisAsyncContext :=
  match fuel with
  | O => Fault OutOfBounds
  | S fuel =>
      '(o, l) ← redisShiftCallback (replies ac);
      let ac := set_lists l (invalid ac) ac in
      match o with
      | None => Ok ac
      | Some cb => ac ← redisRunCallback ac cb None; drain_replies fuel ac
      end
  end.
Fixpoint drain_invalid (fuel : nat) (ac : redisAsyncContext) : result redisAsyncContext :=
  match fuel with
  | O => Fault OutOfBounds
  | S fuel =>
      '(o, l) ← redisShiftCallback (invalid ac);
      let ac := set_lists (replies ac) l ac in
      match o with
      | None => Ok ac
      | Some cb => ac ← redisRunCallback ac cb None; drain_invalid fuel ac
      end
  end.

(** [while ((de = dictNext(it)) != NULL)] over one of the tables. *)
Fixpoint run_all (fuel : nat) (table : redisAsyncContext → option cbdict) (it : Dict.dictIterator)
    (ac : redisAsyncContext) : result redisAsyncContext :=
  match fuel with
  | O => Fault OutOfBounds
  | S fuel =>
      d ← nn (table ac);
      '(de, it) ← Dict.dictNext d it;
      match de with
      | None => Ok ac
      | Some (_, cb) => ac ← redisRunCallback ac cb None; run_all fuel table it ac
      end
  end.

(** [__redisAsyncFree]. *)
Definition asyncFree (ac : redisAsyncContext) : result redisAsyncContext :=
  _ ← use ac;
  ac ← drain_replies (S (size (cells (replies ac)))) ac;
  ac ← drain_invalid (S (size (cells (invalid ac)))) ac;
  d ← nn (channels ac);
  ac ← run_all (S (Z.to_nat (Dict.used d))) channels Dict.dictGetIterator ac;
  let ac := set_subs None (patterns ac) ac in
  d ← nn (patterns ac);
  ac ← run_all (S (Z.to_nat (Dict.used d))) patterns Dict.dictGetIterator ac;
  let ac := set_subs (channels ac) None ac in
  ac ← EL Cleanup ac;
  ac ← match onDisconnect ac with
       | Some f =>
           if flag ac REDIS_CONNECTED then
             tell (OnDisconnect f (if flag ac REDIS_FREEING then REDIS_OK
                                   else if ac_err ac =? 0 then REDIS_OK else REDIS_ERR)) ac
           else Ok ac
       | None => Ok ac
       end;
  _ ← use ac;
  Ok (set_live false ac).

Definition redisAsyncFree (ac : redisAsyncContext) : result redisAsyncContext :=
  let ac := flag_on REDIS_FREEING ac in
  if negb (flag ac REDIS_IN_CALLBACK) then asyncFree ac else Ok ac.

(** [__redisAsyncDisconnect]. *)
Definition asyncDisconnect (ac : redisAsyncContext) : result redisAsyncContext :=
  let ac := redisAsyncCopyError ac in
  ac ← (if ac_err ac =? 0 then
          '(o, l) ← redisShiftCallback (replies ac);
          match o with Some _ => Fault AssertFailed | None => Ok (set_lists l (invalid ac) ac) end
        else Ok (flag_on REDIS_DISCONNECTING ac));
  asyncFree ac.

Definition redisAsyncDisconnect (ac : redisAsyncContext) : result redisAsyncContext :=
  let ac := flag_on REDIS_DISCONNECTING ac in
  if negb (flag ac REDIS_IN_CALLBACK) && bool_decide (head (replies ac) = None) then asyncDisconnect ac else Ok ac.

(** One action of the program. *)
Definition act1 (a : action) (ac : redisAsyncContext) : result redisAsyncContext :=
  _ ← use ac;
  match a with
  | CommandArgv f pd argv argvlen => '(st, ac) ← redisAsyncCommandArgv ac f pd argv argvlen; Ok (add_log (Returned st) ac)
  | Command f pd format ap => '(st, ac) ← redisvAsyncCommand ac f pd format ap; Ok (add_log (Returned st) ac)
  | FormattedCommand f pd cmd len => '(st, ac) ← redisAsyncFormattedCommand ac f pd cmd len; Ok (add_log (Returned st) ac)
  | Disconnect => redisAsyncDisconnect ac
  | Free => redisAsyncFree ac
  | SetConnectCallback f => '(st, ac) ← redisAsyncSetConnectCallback ac f; Ok (add_log (Returned st) ac)
  | SetDisconnectCallback f => let '(st, ac) := redisAsyncSetDisconnectCallback ac f in Ok (add_log (Returned st) ac)
  end.

(** [reply->element[i]], with its type. *)
Definition element (h : gmap loc redisReply) (r : redisReply) (i : Z) : result redisReply :=
  es ← nn (relement r); e ← vec_at es i; l ← nn e; nn (h !! l).

(** [__redisGetSubscribeCallback]: the callback, which is the one given when
    none is found. *)
Definition redisGetSubscribeCallback (ac : redisAsyncContext) (reply : loc) (dstcb : redisCallback)
    : result (redisCallback * redisAsyncContext) :=
  let h := rheap (reader (ac_c ac)) in
  r ← nn (h !! reply);
  if rtype r =? REDIS_REPLY_ARRAY then
    if relements r <? 2 then Fault AssertFailed
    else
      e0 ← element h r 0;
      if negb (rtype e0 =? REDIS_REPLY_STRING) then Fault AssertFailed
      else
        stype ← nn (rstr e0);
        c ← load stype 0;
        let pvariant := tolower c =? 112 in
        callbacks ← nn (if pvariant then patterns ac else channels ac);
        let store (d : cbdict) (ac : redisAsyncContext) :=
          if pvariant then set_subs (channels ac) (Some d) ac else set_subs (Some d) (patterns ac) ac in
        e1 ← element h r 1;
        if negb (rtype e1 =? REDIS_REPLY_STRING) then Fault AssertFailed
        else
          t ← nn (rstr e1);
          name ← sname t (rslen e1);
          de ← Dict.dictFind callbacks name;
          match de with
          | None => Ok (dstcb, ac)
          | Some cb =>
              word ← from stype (if pvariant then 1 else 0);
              unsub ← strcaseeq word (str "unsubscribe");
              if (unsub : bool) then
                '(_, callbacks) ← Dict.dictDelete callbacks name;
                let ac := store callbacks ac in
                e2 ← element h r 2;
                if negb (rtype e2 =? REDIS_REPLY_INTEGER) then Fault AssertFailed
                else Ok (cb, if integer e2 =? 0 then flag_off REDIS_SUBSCRIBED ac else ac)
              else Ok (cb, ac)
          end
  else
    '(o, l) ← redisShiftCallback (invalid ac);
    let ac := set_lists (replies ac) l ac in
    Ok (match o with Some cb => cb | None => dstcb end, ac).

(** [c->reader->fn->freeObject(reply)]. *)
Definition free_object (ac : redisAsyncContext) (reply : loc) : result redisAsyncContext :=
  let r := reader (ac_c ac) in
  h ← freeReplyObject (rheap r) (Some reply);
  Ok (set_c (set_reader (set_heap h (rnext r) r) (ac_c ac)) ac).

(** The callback of a reply: the next that waits, or one of a subscription,
    or the one of the reply before; [None] when the context was closed. *)
Definition select_callback (ac : redisAsyncContext) (cb : redisCallback) (reply : loc)
    : result (option redisCallback * redisAsyncContext) :=
  '(o, l) ← redisShiftCallback (replies ac);
  let ac := set_lists l (invalid ac) ac in
  match o with
  | Some cb => Ok (Some cb, ac)
  | None =>
      r ← nn (rheap (reader (ac_c ac)) !! reply);
      if rtype r =? REDIS_REPLY_ERROR then
        s ← nn (rstr r);
        let c := ac_c ac in
        let ac := set_c {| cerr := REDIS_ERR_OTHER; cerrstr := snprintf 128 (cstr s); cfd := cfd c; cflags := cflags c;
                           obuf := obuf c; reader := reader c |} ac in
        ac ← free_object ac reply;
        ac ← asyncDisconnect ac;
        Ok (None, ac)
      else if negb (flag ac REDIS_SUBSCRIBED || flag ac REDIS_MONITORING) then Fault AssertFailed
      else if flag ac REDIS_SUBSCRIBED then
        '(cb, ac) ← redisGetSubscribeCallback ac reply cb; Ok (Some cb, ac)
      else Ok (Some cb, ac)
  end.

(** The loop of [redisProcessCallbacks]: every reply uses up bytes of the
    buffer. [redisGetReply] does no input on a non-blocking context. *)
Fixpoint process_loop (fuel : nat) (cb : redisCallback) (ac : redisAsyncContext) : result redisAsyncContext :=
  match fuel with
  | O => Fault OutOfBounds
  | S fuel =>
      x ← redisGetReply (ac_c ac) {| reads := []; writes := []; sent := [] |};
      match x with
      | None => Fault OutOfBounds
      | Some (st, reply, c, _) =>
          let ac := set_c c ac in
          if negb (st =? REDIS_OK) then asyncDisconnect ac
          else
            match reply with
            | None =>
                if flag ac REDIS_DISCONNECTING && (sdslen (obuf c) =? 0) && bool_decide (head (replies ac) = None)
                then asyncDisconnect ac
                else if flag ac REDIS_MONITORING then
                  '(_, l) ← redisPushCallback (replies ac) cb; Ok (set_lists l (invalid ac) ac)
                else Ok ac
            | Some reply =>
                '(o, ac) ← select_callback ac cb reply;
                match o with
                | None => Ok ac
                | Some cb =>
                    match fn cb with
                    | Some _ =>
                        ac ← redisRunCallback ac cb (Some reply);
                        ac ← free_object ac reply;
                        if flag ac REDIS_FREEING then asyncFree ac else process_loop fuel cb ac
                    | None => ac ← free_object ac reply; process_loop fuel cb ac
                    end
                end
            end
      end
  end.

Definition redisProcessCallbacks (ac : redisAsyncContext) : result redisAsyncContext :=
  let r := reader (ac_c ac) in
  process_loop (S (Z.to_nat (rlen r - rpos r))) null_callback ac.

(** What [getsockopt(SO_ERROR)] gives: its own [errno], or the error. *)
Inductive sockopt := SoFail (errno : Z) | SoError (err : Z).

(** [redisCheckSocketError] of net.c: the status, [errno] and the context. *)
Definition redisCheckSocketError (c : redisContext) (so : sockopt) : Z * Z * redisContext :=
  match so with
  | SoFail e => (REDIS_ERR, e, redisSetError REDIS_ERR_IO (snprintf 128 (str "getsockopt(SO_ERROR): " ++ strerror e)) c)
  | SoError e => if e =? 0 then (REDIS_OK, 0, c) else (REDIS_ERR, e, redisSetError REDIS_ERR_IO (snprintf 128 (strerror e)) c)
  end.

(** [__redisAsyncHandleConnect]. *)
Definition redisAsyncHandleConnect (ac : redisAsyncContext) (so : sockopt) : result (Z * redisAsyncContext) :=
  let '(st, errno, c) := redisCheckSocketError (ac_c ac) so in
  let ac := set_c c ac in
  if st =? REDIS_ERR then
    if errno =? EINPROGRESS then Ok (REDIS_OK, ac)
    else
      ac ← match onConnect ac with Some f => tell (OnConnect f REDIS_ERR) ac | None => Ok ac end;
      ac ← asyncDisconnect ac;
      Ok (REDIS_ERR, ac)
  else
    let ac := flag_on REDIS_CONNECTED ac in
    ac ← match onConnect ac with Some f => tell (OnConnect f REDIS_OK) ac | None => Ok ac end;
    Ok (REDIS_OK, ac).

(** The start of both handlers: the context, and whether to go on. *)
Definition ensure_connected (ac : redisAsyncContext) (so : sockopt) : result (bool * redisAsyncContext) :=
  if flag ac REDIS_CONNECTED then Ok (true, ac)
  else
    '(st, ac) ← redisAsyncHandleConnect ac so;
    if negb (st =? REDIS_OK) then Ok (false, ac)
    else _ ← use ac; Ok (flag ac REDIS_CONNECTED, ac).

(** [redisAsyncHandleRead]; [e] is what [read] returns. *)
Definition redisAsyncHandleRead (ac : redisAsyncContext) (so : sockopt) (e : rd) : result redisAsyncContext :=
  '(go, ac) ← ensure_connected ac so;
  if negb go then Ok ac
  else
    x ← redisBufferRead (ac_c ac) {| reads := [e]; writes := []; sent := [] |};
    match x with
    | None => Fault OutOfBounds
    | Some (st, c, _) =>
        let ac := set_c c ac in
        if st =? REDIS_ERR then asyncDisconnect ac
        else ac ← EL AddRead ac; redisProcessCallbacks ac
    end.

(** [redisAsyncHandleWrite]; [e] is what [write] returns, if it is called. *)
Definition redisAsyncHandleWrite (ac : redisAsyncContext) (so : sockopt) (e : wr) : result redisAsyncContext :=
  '(go, ac) ← ensure_connected ac so;
  if negb go then Ok ac
  else
    x ← redisBufferWrite (ac_c ac) {| reads := []; writes := [e]; sent := wire ac |};
    match x with
    | None => Fault OutOfBounds
    | Some (st, wdone, c, w) =>
        let ac := set_wire (sent w) (set_c c ac) in
        if st =? REDIS_ERR then asyncDisconnect ac
        else ac ← EL (if (wdone : bool) then DelWrite else AddWrite) ac; EL AddRead ac
    end.
End calls.

(** ** The program's callbacks

    A callback that frees the context while no reply callback runs makes the
    library call the program again: [depth] bounds how deep these calls
    nest. *)
Fixpoint acts (f : action → redisAsyncContext → result redisAsyncContext) (l : list action) (ac : redisAsyncContext)
    : result redisAsyncContext :=
  match l with
  | [] => Ok ac
  | a :: l => ac ← f a ac; acts f l ac
  end.

Fixpoint act (depth : nat) (l : list action) (ac : redisAsyncContext) : result redisAsyncContext :=
  match depth with
  | O => match l with [] => Ok ac | _ => Fault OutOfBounds end
  | S depth => acts (act1 (act depth)) l ac
  end.

(** From the top, at most three levels: a callback on connecting, which frees
    the context, and the callback on disconnecting. *)
Definition DEPTH : nat := 3.

(** What happens to a context from outside: a call of the program, or an
    event that was pending and is delivered once. *)
Inductive input :=
  | Call (a : action)
  | Readable (so : sockopt) (e : rd)
  | Writable (so : sockopt) (e : wr).

(** [redisLibeventReadEvent] and [redisLibeventWriteEvent]: the event is no
    longer pending when it is delivered. *)
Definition fired (f : redisLibeventEvents → redisLibeventEvents) (ac : redisAsyncContext) : redisAsyncContext :=
  set_ev (f <$> ac_ev ac) ac.
Definition handle (ac : redisAsyncContext) (i : input) : result redisAsyncContext :=
  _ ← use ac;
  match i with
  | Call a => act1 (act DEPTH) a ac
  | Readable so e =>
      redisAsyncHandleRead (act DEPTH) (fired (λ e, {| ev_live := ev_live e; rev := false; wev := wev e |}) ac) so e
  | Writable so e =>
      redisAsyncHandleWrite (act DEPTH) (fired (λ e, {| ev_live := ev_live e; rev := rev e; wev := false |}) ac) so e
  end.

Fixpoint run (ac : redisAsyncContext) (ins : list input) : result redisAsyncContext :=
  match ins with
  | [] => Ok ac
  | i :: ins => ac ← handle ac i; run ac ins
  end.
End async.
End Async.
