(* ===== verification/AsyncCommand.v ===== *)
(** * Issuing commands on an asynchronous context (theorems about Async.v)

    The callback lists are queues, the arguments of a formatted command are
    found in it, and issuing a command appends it to the output and its
    callback to the queue or to the table of subscriptions. *)

From S2P Require Import Prelude Cstd Cmem Sds SdsSpec Read ReadSpec ReadValue ReadStream Redis RedisSpec.
From S2P Require Import Hiredis HiredisSpec Dict DictSpec Async.
Import Sds Read Hiredis Async.

(** ** The callback lists are queues *)

Fixpoint linked_cells (h : gmap loc (redisCallback * option loc)) (ls : list loc) (q : list redisCallback) : Prop :=
  match ls, q with
  | [], [] => True
  | l :: ls, cb :: q => h !! l = Some (cb, hd_error ls) ∧ linked_cells h ls q
  | _, _ => False
  end.

(** The list holds the callbacks [q]; all its cells belong to it. *)
Definition queue (L : redisCallbackList) (q : list redisCallback) : Prop :=
  ∃ ls, NoDup ls ∧ linked_cells (cells L) ls q ∧ head L = hd_error ls ∧ tail L = last ls ∧
    Forall (λ l, l < cnext L) ls ∧ dom (cells L) = (list_to_set ls : gset loc).

Lemma linked_frame h h' ls q : (∀ l, l ∈ ls → h' !! l = h !! l) → linked_cells h ls q → linked_cells h' ls q.
Proof.
  revert q. induction ls as [|l ls IH]; intros [|cb q] Hf; try done. intros [Hl Hls]. split.
  - rewrite Hf; [done|by left].
  - apply IH; [|done]. intros k Hk. apply Hf. by right.
Qed.

Lemma last_in {A} (l : list A) x : last l = Some x → x ∈ l.
Proof. intros [l0 E]%last_Some. rewrite E. apply elem_of_app. right. by left. Qed.

(** Linking a new cell behind the last one. *)
Lemma linked_snoc h ls q n cb t :
  linked_cells h ls q → NoDup ls → n ∉ ls → last ls = Some t →
  ∃ x, h !! t = Some x ∧ linked_cells (<[t := (x.1, Some n)]> (<[n := (cb, None)]> h)) (ls ++ [n]) (q ++ [cb]).
Proof.
  revert q. induction ls as [|l ls IH]; intros [|c q] Hl Hnd Hn Ht; try done. destruct Hl as [Hl Hls].
  apply NoDup_cons in Hnd as [Hnl Hnd]. apply not_elem_of_cons in Hn as [Hnl' Hn]. destruct ls as [|l' ls].
  - destruct q; [|done]. injection Ht as <-. exists (c, None). split; [done|]. cbn.
    rewrite lookup_insert_eq, (lookup_insert_ne _ l n), lookup_insert_eq by congruence. done.
  - destruct (IH q Hls Hnd Hn Ht) as (x & Hx & Hx'). exists x. split; [done|]. split; [|exact Hx'].
    assert (t ∈ l' :: ls) as Hin by (by apply last_in).
    rewrite lookup_insert_ne, lookup_insert_ne by (congruence || (intros ->; done)). exact Hl.
Qed.

Section queues.
Context `{Malloc}.
Hypothesis granted : ∀ n, malloc_ok n = true.

Lemma push_queue L q cb : queue L q → ∃ L', redisPushCallback L cb = Ok (REDIS_OK, L') ∧ queue L' (q ++ [cb]).
Proof.
  intros (ls & Hnd & Hl & Hh & Ht & Hlt & Hsz). unfold redisPushCallback. rewrite granted. cbn [negb].
  assert (cnext L ∉ ls) as Hn by (intros Hin; rewrite Forall_forall in Hlt; apply Hlt in Hin; lia).
  assert (∀ h, linked_cells h (ls ++ [cnext L]) (q ++ [cb]) → dom h = {[cnext L]} ∪ dom (cells L) →
    queue {| head := match head L with None => Some (cnext L) | Some p => Some p end; tail := Some (cnext L);
             cells := h; cnext := cnext L + 1 |} (q ++ [cb])) as Hdone.
  { intros h Hh' Hs. exists (ls ++ [cnext L]). cbn. split; [apply NoDup_app; split; [done|]; split;
      [set_solver|apply NoDup_singleton]|]. split; [done|]. split; [rewrite Hh; by destruct ls|].
    split; [by rewrite last_snoc|]. split; [|rewrite Hs, Hsz, list_to_set_app_L; set_solver].
    apply Forall_app. split; [eapply Forall_impl; [done|]; intros; simpl in *; lia|]. apply Forall_singleton. lia. }
  destruct (tail L) as [t|] eqn:Et.
  - destruct (linked_snoc (cells L) ls q (cnext L) cb t Hl Hnd Hn (eq_sym Ht)) as (x & Hx & Hx').
    assert (t ≠ cnext L) as Hne.
    { intros ->. by apply Hn, last_in. }
    rewrite lookup_insert_ne, Hx by done. cbn [nn]. rbind. eexists. split; [done|]. apply Hdone; [done|].
    rewrite !dom_insert_L. apply elem_of_dom_2 in Hx. set_solver.
  - rbind. eexists. split; [done|]. apply Hdone; [|by rewrite dom_insert_L]. symmetry in Ht. apply last_None in Ht as ->.
    destruct q; [|done]. cbn. by rewrite lookup_insert_eq.
Qed.

End queues.

Lemma shift_queue L cb q : queue L (cb :: q) → ∃ L', redisShiftCallback L = Ok (Some cb, L') ∧ queue L' q.
Proof.
  intros ([|l ls] & Hnd & Hl & Hh & Ht & Hlt & Hsz); [done|]. destruct Hl as [Hl Hls]. unfold redisShiftCallback.
  rewrite Hh. cbn [hd_error]. rewrite Hl. cbn [nn]. rbind. eexists. split; [done|]. exists ls. cbn.
  apply NoDup_cons in Hnd as [Hn Hnd]. apply Forall_cons in Hlt as [_ Hlt]. split; [done|]. split.
  { eapply linked_frame; [|exact Hls]. intros k Hk. apply lookup_delete_ne. intros ->. done. }
  split; [done|]. split; [|split; [done|]].
  - rewrite Ht. case_bool_decide as E; [destruct ls as [|l' ls]; [done|]|by destruct ls].
    exfalso. by apply Hn, last_in.
  - rewrite dom_delete_L, Hsz. cbn. set_solver.
Qed.

Lemma shift_empty L : queue L [] → redisShiftCallback L = Ok (None, L) ∧ head L = None.
Proof. intros ([|l ls] & _ & Hl & Hh & _); [|done]. unfold redisShiftCallback. by rewrite Hh. Qed.

Lemma queue_size L q : queue L q → base.size (cells L) = length q.
Proof.
  intros (ls & Hnd & Hl & _ & _ & _ & Hsz). rewrite <- size_dom, Hsz, size_list_to_set by done.
  revert Hl. generalize (cells L) as h. clear. revert q. induction ls as [|l ls IH]; intros [|cb q] h; try done. intros [_ ?]. simpl.
  f_equal. by apply (IH q h).
Qed.

Lemma queue_nonempty L cb q : queue L (cb :: q) → head L ≠ None.
Proof. intros ([|l ls] & _ & Hl & Hh & _); [done|]. by rewrite Hh. Qed.

Lemma empty_queue : queue empty_list [].
Proof. exists []. split_and!; try done. constructor. Qed.

(** ** The arguments of a command *)

Lemma strchr_from_found a c t i :
  Forall (λ x, x ≠ c ∧ x ≠ 0) a → strchr_from (a ++ c :: t) c i = Ok (Some (i + zlen a)).
Proof.
  intros Ha. revert i. induction Ha as [|x a [Hc H0] _ IH]; intros i; cbn [app strchr_from].
  - rewrite Z.eqb_refl. change (zlen []) with 0. by rewrite Z.add_0_r.
  - rewrite (proj2 (Z.eqb_neq x c)), (proj2 (Z.eqb_neq x 0)), IH, zlen_cons by done. do 2 f_equal. lia.
Qed.

Lemma strchr_from_none a c t i :
  c ≠ 0 → Forall (λ x, x ≠ c) a → strchr_from (a ++ 0 :: t) c i = Ok None.
Proof.
  intros H0 Ha. revert i. induction Ha as [|x a Hc _ IH]; intros i; cbn [app strchr_from].
  - by rewrite (proj2 (Z.eqb_neq 0 c)) by congruence.
  - rewrite (proj2 (Z.eqb_neq x c)), IH by done. by destruct (x =? 0).
Qed.

Lemma strchr_found p a c t i :
  i = zlen p → Forall (λ x, x ≠ c ∧ x ≠ 0) a → strchr (p ++ a ++ c :: t) i c = Ok (Some (i + zlen a)).
Proof.
  intros -> Ha. unfold strchr. rewrite (proj2 (Z.ltb_ge _ _)), to_nat_zlen, drop_app_length by apply zlen_nonneg.
  by apply strchr_from_found.
Qed.

Lemma from_app p t i : i = zlen p → from (p ++ t) i = Ok t.
Proof.
  intros ->. unfold from. pose proof (zlen_nonneg p). pose proof (zlen_nonneg t).
  rewrite (proj2 (Z.leb_le _ _)), (proj2 (Z.leb_le _ _)) by (rewrite ?zlen_app; lia). cbn [andb].
  by rewrite to_nat_zlen, drop_app_length.
Qed.

Lemma udec_avoids n c : 0 ≤ n → isdigit c = false → Forall (λ x, x ≠ c ∧ x ≠ 0) (udec n).
Proof.
  intros Hn Hc. eapply Forall_impl; [by apply udec_digits|]. intros x Hx. simpl in Hx. split; intros ->; [congruence|done].
Qed.

(** Where an argument starts behind the offset of its length. *)
Definition arg_at (n : Z) (v : bytes) : Z := n + 1 + zlen (udec (zlen v)) + 2.

(** The next argument, behind some bytes [a] without a dollar sign. *)
Lemma nextArgument_bulk p a v t :
  Forall (λ x, x ≠ 36 ∧ x ≠ 0) a → zlen (p ++ a ++ bulk v ++ t) < 2 ^ 31 →
  nextArgument (p ++ a ++ bulk v ++ t) (zlen p) =
    Ok (Some (arg_at (zlen p + zlen a) v, zlen v, zlen (p ++ a ++ bulk v))).
Proof.
  intros Ha Hlim. pose proof (zlen_nonneg p). pose proof (zlen_nonneg a). pose proof (zlen_nonneg t). pose proof (zlen_nonneg v).
  set (d := udec (zlen v)) in *. pose proof (zlen_nonneg d).
  assert (zlen (bulk v) = 1 + zlen d + 2 + zlen v + 2) as Hb.
  { unfold bulk. fold d. rewrite !zlen_app. change (zlen crlf) with 2. change (zlen (str "$")) with 1. lia. }
  assert (bulk v ++ t = 36 :: d ++ CR :: LF :: v ++ crlf ++ t) as Eb.
  { unfold bulk. fold d. change (str "$") with [36]. change crlf with [CR; LF]. by rewrite <- !app_assoc. }
  rewrite !zlen_app in *. unfold nextArgument. rewrite Eb.
  assert ((c ← load (p ++ a ++ 36 :: d ++ CR :: LF :: v ++ crlf ++ t) (zlen p);
           if negb (c =? 36) then strchr (p ++ a ++ 36 :: d ++ CR :: LF :: v ++ crlf ++ t) (zlen p) 36 else Ok (Some (zlen p)))
          = Ok (Some (zlen p + zlen a))) as E.
  { destruct a as [|x a].
    - rewrite app_nil_l, (load_app p 36) by done. rbind. cbn. by rewrite Z.add_0_r.
    - change (p ++ (x :: a) ++ ?u) with (p ++ x :: a ++ u). rewrite (load_app p x) by done. rbind.
      apply Forall_cons in Ha as Ha'. destruct Ha' as [[Hx _] _]. rewrite (proj2 (Z.eqb_neq x 36)) by done. cbn [negb].
      by apply (strchr_found p (x :: a)). }
  destruct (load _ (zlen p)) as [c|] eqn:El; [|done]. cbn [mbind result_bind] in E. rbind. rewrite E. rbind.
  assert (p ++ a ++ 36 :: d ++ CR :: LF :: v ++ crlf ++ t = (p ++ a ++ [36]) ++ d ++ CR :: LF :: v ++ crlf ++ t) as ->
    by (by rewrite <- !app_assoc).
  rewrite from_app by (rewrite !zlen_app; change (zlen [36]) with 1; lia). rbind.
  assert (∀ u, (strtol (d ++ CR :: u)).1.1 = zlen v) as -> by (intros u; unfold d; by rewrite strtol_udec by (done || lia)). rewrite i32_small, u64_small by lia.
  assert ((p ++ a ++ [36]) ++ d ++ CR :: LF :: v ++ crlf ++ t = (p ++ a) ++ (36 :: d) ++ CR :: LF :: v ++ crlf ++ t) as ->
    by (by rewrite <- !app_assoc).
  rewrite strchr_found; [|by rewrite zlen_app|apply Forall_cons; split; [done|apply udec_avoids; done || lia]].
  rbind. rewrite zlen_cons. unfold arg_at. fold d. rewrite i64_small by lia. do 3 f_equal; [f_equal|]; lia.
Qed.

Lemma nextArgument_end p z : nextArgument (p ++ 0 :: z) (zlen p) = Ok None.
Proof.
  unfold nextArgument. rewrite (load_app p 0) by done. rbind. cbn [Z.eqb negb]. unfold strchr.
  rewrite (proj2 (Z.ltb_ge _ _)), to_nat_zlen, drop_app_length by apply zlen_nonneg. done.
Qed.

(** ** The names of commands *)

Lemma tolower_cr x : x ≠ CR → tolower x ≠ CR.
Proof.
  intros Hx. unfold tolower. destruct ((65 <=? x) && (x <=? 90)) eqn:E; [|done].
  apply andb_true_iff in E as [E1%Z.leb_le E2%Z.leb_le]. unfold CR. lia.
Qed.

(** A lower-case word without CR or NUL. *)
Definition literal (lit : bytes) : Prop := Forall (λ c, c ≠ 0 ∧ tolower c = c ∧ c ≠ CR) lit.

Lemma strncaseeq_word w lit z :
  Forall (λ c, c ≠ CR) w → literal lit →
  strncaseeq (w ++ crlf ++ z) (lit ++ crlf) (length lit + 2) = Ok (bool_decide (map tolower w = lit)).
Proof.
  intros Hw Hlit. revert w Hw. induction Hlit as [|y lit (H0 & Hy & Hcr) _ IH]; intros w Hw.
  - destruct Hw as [|x w Hx _]; [by rewrite bool_decide_eq_true_2|].
    change (length [] + 2)%nat with 2%nat. cbn [app strncaseeq]. change crlf with (CR :: [LF]). cbn [app]. cbv iota.
    change (tolower CR) with CR. rewrite (proj2 (Z.eqb_neq (tolower x) CR)) by by apply tolower_cr.
    by rewrite bool_decide_eq_false_2.
  - cbn [length Nat.add]. destruct Hw as [|x w Hx Hw]; cbn [app strncaseeq].
    + change (crlf ++ z) with (CR :: LF :: z). cbv iota. change (tolower CR) with CR.
      rewrite Hy, (proj2 (Z.eqb_neq CR y)) by congruence. by rewrite bool_decide_eq_false_2.
    + rewrite Hy. cbn [map]. destruct (Z.eqb_spec (tolower x) y) as [E|E]; cbn [negb].
      * assert (x ≠ 0) by (intros ->; by apply H0). rewrite (proj2 (Z.eqb_neq x 0)), IH by done. f_equal.
        apply bool_decide_ext. rewrite E. split; [by intros ->|congruence].
      * rewrite bool_decide_eq_false_2; [done|congruence].
Qed.

(** Whether the name starts with a P, and the rest in lower case. *)
Definition pvariant (c : bytes) : bool := match c with x :: _ => tolower x =? 112 | [] => false end.
Definition base_name (c : bytes) : bytes := if pvariant c then list.tail c else c.
Definition command_word (c : bytes) : bytes := map tolower (base_name c).

(** A command that the server answers with one reply. *)
Definition special : list bytes := [str "subscribe"; str "unsubscribe"; str "monitor"].
Definition regular (c : bytes) : Prop := Forall (λ x, x ≠ CR) c ∧ command_word c ∉ special.

#[global] Instance regular_dec c : Decision (regular c).
Proof. unfold regular. apply _. Defined.

Lemma base_name_plain c : Forall (λ x, x ≠ CR) c → Forall (λ x, x ≠ CR) (base_name c).
Proof. unfold base_name. destruct (pvariant c); [|done]. destruct c; [done|]. by intros [_ ?]%Forall_cons. Qed.

Lemma literals : literal (str "subscribe") ∧ literal (str "unsubscribe") ∧ literal (str "monitor").
Proof. split_and!; repeat constructor; done. Qed.

(** ** The event library *)

Definition ev_alive (ac : redisAsyncContext) : Prop := ∀ e, ac_ev ac = Some e → ev_live e = true.

Definition hooked (h : hook) (e : redisLibeventEvents) : redisLibeventEvents :=
  match h with
  | AddRead => {| ev_live := true; rev := true; wev := wev e |}
  | DelRead => {| ev_live := true; rev := false; wev := wev e |}
  | AddWrite => {| ev_live := true; rev := rev e; wev := true |}
  | DelWrite => {| ev_live := true; rev := rev e; wev := false |}
  | Cleanup => {| ev_live := false; rev := false; wev := false |}
  end.

Lemma EL_ok h ac : ev_alive ac → EL h ac = Ok (set_ev (hooked h <$> ac_ev ac) ac).
Proof.
  intros He. unfold EL. destruct (ac_ev ac) as [e|] eqn:E; [|by destruct ac; cbn in *; subst].
  unfold libevent_hook. by rewrite (He e E).
Qed.

Lemma fired_alive f ac : ev_alive ac → (∀ e, ev_live (f e) = ev_live e) → ev_alive (fired f ac).
Proof.
  intros Ha Hf e E. cbn in E. destruct (ac_ev ac) as [e0|] eqn:E0; [|done]. injection E as <-. rewrite Hf. by apply Ha.
Qed.

(** ** Issuing a command *)

Section commands.
Context `{Malloc} `{Libc} `{Client}.
Hypothesis granted : ∀ n, malloc_ok n = true.

(** What [asyncCommand] finds at the start of a command. *)
Lemma command_parts c rest z :
  zlen (resp (c :: rest) ++ 0 :: z) < 2 ^ 31 →
  let cmd := resp (c :: rest) ++ 0 :: z in
  ∃ pre, cmd = pre ++ c ++ crlf ++ bulks rest ++ 0 :: z ∧
    nextArgument cmd 0 = Ok (Some (zlen pre, zlen c, zlen (pre ++ c ++ crlf))).
Proof.
  intros Hlim cmd. pose proof (zlen_nonneg (c :: rest)). set (hdr := str "*" ++ udec (zlen (c :: rest)) ++ crlf).
  assert (cmd = [] ++ hdr ++ bulk c ++ bulks rest ++ 0 :: z) as Ec.
  { unfold cmd. rewrite resp_bulks. fold hdr. unfold bulks. rewrite fmap_cons. cbn [concat]. by rewrite <- !app_assoc. }
  exists (hdr ++ str "$" ++ udec (zlen c) ++ crlf). split.
  { rewrite Ec. unfold bulk. cbn [app]. by rewrite <- !app_assoc. }
  change 0 with (zlen (@nil Z)) at 1. rewrite Ec, nextArgument_bulk.
  - do 3 f_equal; [f_equal|]; unfold arg_at, bulk; rewrite !zlen_app; change (zlen crlf) with 2;
      change (zlen (str "$")) with 1; change (zlen (@nil Z)) with 0; lia.
  - unfold hdr. apply Forall_app. split; [repeat constructor; done|]. apply Forall_app. split; [by apply udec_avoids|].
    repeat constructor; done.
  - by rewrite <- Ec.
Qed.

(** What is found is the first byte of the name and the byte behind it. *)
Lemma command_loads pre c rest z :
  let cmd := pre ++ c ++ crlf ++ bulks rest ++ 0 :: z in
  (∃ x, load cmd (zlen (pre ++ c ++ crlf)) = Ok x ∧ (x =? 36) = negb (bool_decide (rest = []))) ∧
  ∃ x, load cmd (zlen pre) = Ok x ∧ (tolower x =? 112) = pvariant c ∧
    from cmd (if pvariant c then zlen pre + 1 else zlen pre) = Ok (base_name c ++ crlf ++ bulks rest ++ 0 :: z).
Proof.
  intros cmd. split.
  - assert (cmd = (pre ++ c ++ crlf) ++ bulks rest ++ 0 :: z) as -> by (unfold cmd; by rewrite <- !app_assoc).
    destruct rest as [|r rest].
    + exists 0. split; [|done]. by apply load_app.
    + exists 36. split; [|done]. assert (∃ u, bulks (r :: rest) ++ 0 :: z = 36 :: u) as [u ->] by (eexists; reflexivity).
      by apply load_app.
  - destruct c as [|x c].
    + exists CR. unfold cmd. rewrite app_nil_l. change (crlf ++ ?u) with (CR :: LF :: u).
      rewrite (load_app pre CR) by done. split; [done|]. split; [done|]. cbn [pvariant]. by rewrite from_app.
    + exists x. unfold cmd. change (pre ++ (x :: c) ++ ?u) with (pre ++ x :: c ++ u). rewrite (load_app pre x) by done.
      split; [done|]. split; [done|]. unfold base_name. destruct (pvariant (x :: c)); cbn [list.tail].
      * change (pre ++ x :: ?u) with (pre ++ [x] ++ u). rewrite app_assoc. apply from_app. by rewrite zlen_app.
      * by rewrite from_app.
Qed.

(** The context with the command in its output. *)
Definition with_command (ac : redisAsyncContext) (o : sds) : redisAsyncContext :=
  set_ev (hooked AddWrite <$> ac_ev ac) (set_c (set_obuf o (ac_c ac)) ac).

Lemma append_ok ac o args z :
  ev_alive ac → SdsSpec.repr (obuf (ac_c ac)) o → zlen o + zlen (resp args) < LIMIT →
  ∃ o', SdsSpec.repr o' (o ++ resp args) ∧
    ('(_, c) ← redisAppendFormattedCommand (ac_c ac) (resp args ++ 0 :: z) (zlen (resp args));
     ac ← EL AddWrite (set_c c ac); Ok (REDIS_OK, ac)) = Ok (REDIS_OK, with_command ac o').
Proof.
  intros He Ho Hlim. unfold redisAppendFormattedCommand.
  destruct (sdscatlen_prefix granted (obuf (ac_c ac)) o (resp args ++ 0 :: z) (zlen (resp args)) (resp args) Ho)
    as (o' & -> & Ho'); [split; [by exists (0 :: z)|done]|done|]. rbind. exists o'. split; [done|].
  by rewrite EL_ok.
Qed.

Definition accepts (ac : redisAsyncContext) : Prop := flag ac (Z.lor REDIS_DISCONNECTING REDIS_FREEING) = false.

(** A regular command: its callback waits behind the others. *)
Lemma asyncCommand_regular ac f pd c rest z q o :
  accepts ac → flag ac REDIS_SUBSCRIBED = false → ev_alive ac → queue (replies ac) q → SdsSpec.repr (obuf (ac_c ac)) o →
  regular c → zlen o + zlen (resp (c :: rest)) < LIMIT → zlen (resp (c :: rest) ++ 0 :: z) < 2 ^ 31 →
  ∃ L o', queue L (q ++ [{| fn := f; privdata := pd |}]) ∧ SdsSpec.repr o' (o ++ resp (c :: rest)) ∧
    asyncCommand ac f pd (resp (c :: rest) ++ 0 :: z) (zlen (resp (c :: rest))) =
      Ok (REDIS_OK, with_command (set_lists L (invalid ac) ac) o').
Proof.
  intros Hacc Hsub He Hq Ho [Hcr Hw] Hlim Hblk. unfold asyncCommand. rewrite Hacc.
  destruct (command_parts c rest z Hblk) as (pre & Ec & Ea).
  rewrite Ea. rbind. pose proof (command_loads pre c rest z) as Hp. cbv zeta in Hp.
  destruct Hp as ((x1 & E1 & _) & x2 & E2 & Hpv & E3). rewrite <- Ec in E1, E2, E3.
  rewrite E1. rbind. rewrite E2. rbind. rewrite Hpv, E3. rbind.
  pose proof (base_name_plain c Hcr) as Hb. destruct literals as (L1 & L2 & L3).
  pose proof (strncaseeq_word (base_name c) (str "subscribe") (bulks rest ++ 0 :: z) Hb L1) as W1.
  pose proof (strncaseeq_word (base_name c) (str "unsubscribe") (bulks rest ++ 0 :: z) Hb L2) as W2.
  pose proof (strncaseeq_word (base_name c) (str "monitor") (bulks rest ++ 0 :: z) Hb L3) as W3.
  change (length (str "subscribe") + 2)%nat with 11%nat in W1. change (length (str "unsubscribe") + 2)%nat with 13%nat in W2.
  change (length (str "monitor") + 2)%nat with 9%nat in W3.
  unfold command_word, special in Hw. rewrite !not_elem_of_cons in Hw. destruct Hw as (N1 & N2 & N3 & _).
  rewrite bool_decide_eq_false_2 in W1, W2, W3 by done.
  assert ((if x1 =? 36 then strncaseeq (base_name c ++ crlf ++ bulks rest ++ 0 :: z) (str "subscribe" ++ crlf) 11 else Ok false)
    = Ok false) as -> by (destruct (x1 =? 36); [exact W1|done]).
  rbind. rewrite W2. rbind. rewrite W3. rbind. rewrite Hsub.
  destruct (push_queue granted (replies ac) q {| fn := f; privdata := pd |} Hq) as (L & -> & HL). rbind.
  destruct (append_ok (set_lists L (invalid ac) ac) o (c :: rest) z) as (o' & Ho' & E); try done.
  exists L, o'. split; [done|]. split; [done|]. exact E.
Qed.
End commands.

(** ** A context for examples *)

(** A context with the given output buffer, reader, flags and callbacks,
    attached to the event library with its read event pending. *)
Definition no_subs : cbdict := {| Dict.table := []; Dict.size := 0; Dict.sizemask := 0; Dict.used := 0; Dict.destroyed := [] |}.
Definition sample (o : sds) (r : redisReader) (fl : Z) (L : redisCallbackList) : redisAsyncContext :=
  {| ac_c := {| cerr := 0; cerrstr := []; cfd := 5; cflags := fl; obuf := o; reader := r |};
     ac_err := 0; ac_ev := Some {| ev_live := true; rev := true; wev := false |};
     onConnect := None; onDisconnect := Some 8; replies := L; invalid := empty_list;
     channels := Some no_subs; patterns := Some no_subs; ac_live := true; wire := []; alog := [] |}.

Definition two_callbacks : redisCallbackList :=
  {| head := Some 1; tail := Some 2;
     cells := {[ 1 := ({| fn := Some 1; privdata := 10 |}, Some 2); 2 := ({| fn := Some 2; privdata := 20 |}, None) ]};
     cnext := 3 |}.

Lemma two_callbacks_queue : queue two_callbacks [{| fn := Some 1; privdata := 10 |}; {| fn := Some 2; privdata := 20 |}].
Proof.
  exists [1; 2]. split; [apply (bool_decide_eq_true (NoDup _)); vm_compute; reflexivity|]. split; [vm_compute; done|].
  split; [done|]. split; [done|]. split; [repeat constructor|]. vm_compute. reflexivity.
Qed.

(** A program whose first callback issues a command. *)
Definition sample_client : Client := λ h,
  match last h with
  | Some (Called 1 _ _ _) => [CommandArgv (Some 3) 30 [str "get"; str "x"] (Some [3; 1])]
  | _ => []
  end.
