(* ===== verification/AsyncSpec.v ===== *)
(** * Replies reach their callbacks (theorems about Async.v)

    Replies reach the callbacks of their commands in order, whatever the
    pieces in which they arrive and whatever commands the callbacks issue
    meanwhile, and while something is to be sent or awaited the event that
    continues the exchange is pending. *)

From S2P Require Import Prelude Cstd Cmem Sds SdsSpec Read ReadSpec ReadValue ReadStream Redis RedisSpec.
From S2P Require Import Hiredis HiredisSpec Dict Async AsyncCommand.
Import Sds Read Hiredis Async.

(** ** The abstract exchange *)

(** The arguments of a call. *)
Definition args_of (argv : list bytes) (argvlen : option (list Z)) : list bytes :=
  match argvlen with
  | Some ns => zip_with (λ b n, take (Z.to_nat n) b) argv ns
  | None => map cstr argv
  end.

(** A call that issues a regular command. *)
Definition polite (a : action) : Prop :=
  match a with
  | CommandArgv _ _ argv argvlen =>
      argv_means argv argvlen (args_of argv argvlen) ∧
      match args_of argv argvlen with c :: _ => regular c | [] => False end
  | _ => False
  end.

(** The callback and the request of such a call. *)
Definition callback_of (a : action) : redisCallback :=
  match a with CommandArgv f pd _ _ => {| fn := f; privdata := pd |} | _ => null_callback end.
Definition request_of (a : action) : bytes :=
  match a with CommandArgv _ _ argv argvlen => resp (args_of argv argvlen) | _ => [] end.
Definition requests_of (l : list action) : bytes := concat (map request_of l).

(** The callbacks that wait, all bytes of requests so far, and the history. *)
Definition exchange : Type := list redisCallback * bytes * list event.

Definition issue (s : exchange) (l : list action) : exchange :=
  let '(q, out, log) := s in
  (q ++ map callback_of l, out ++ requests_of l, log ++ replicate (length l) (Returned REDIS_OK)).

Section exchange.
Context `{Client}.

(** Values are handed to the callbacks that wait, in order: a callback sees
    an object that denotes its value, and what it issues is appended. *)
Inductive delivers : exchange → list rval → exchange → Prop :=
  | del_nil s : delivers s [] s
  | del_none cb q out log v vs s :
      fn cb = None → delivers (q, out, log) vs s → delivers (cb :: q, out, log) (v :: vs) s
  | del_call cb f q out log v vs l h s :
      fn cb = Some f → denotes h v l →
      delivers (issue (q, out, log ++ [Called f (privdata cb) (Some l) h])
                  (client (log ++ [Called f (privdata cb) (Some l) h]))) vs s →
      delivers (cb :: q, out, log) (v :: vs) s.

Lemma delivers_trans s1 vs1 s2 vs2 s3 : delivers s1 vs1 s2 → delivers s2 vs2 s3 → delivers s1 (vs1 ++ vs2) s3.
Proof. induction 1; intros H3; [done|eapply del_none; eauto|eapply del_call; eauto]. Qed.

(** One input and the values it delivers. *)
Inductive exchanges : exchange → input → list rval → exchange → Prop :=
  | ex_call a s : exchanges s (Call a) [] (issue s [a])
  | ex_write so e s : exchanges s (Writable so e) [] s
  | ex_read so e s vs s' : delivers s vs s' → exchanges s (Readable so e) vs s'.

Inductive exchanged : exchange → list input → list rval → exchange → Prop :=
  | ed_nil s : exchanged s [] [] s
  | ed_cons s i vs s1 ins vs' s2 :
      exchanges s i vs s1 → exchanged s1 ins vs' s2 → exchanged s (i :: ins) (vs ++ vs') s2.
End exchange.

(** ** A context that serves *)

(** The flags are those of a connected context, perhaps in a callback; [q]
    waits and [o] is to be sent. *)
Record serving (fl : Z) (ac : redisAsyncContext) (q : list redisCallback) (o : bytes) : Prop := {
  sv_live : ac_live ac = true;
  sv_flags : cflags (ac_c ac) = fl;
  sv_err : cerr (ac_c ac) = 0;
  sv_queue : queue (replies ac) q;
  sv_out : SdsSpec.repr (obuf (ac_c ac)) o
}.

(** While there is something to send the write event is pending, and while
    replies are awaited and all is sent the read event is. *)
Definition attentive (ac : redisAsyncContext) (q : list redisCallback) (o : bytes) : Prop :=
  ∀ e, ac_ev ac = Some e → ev_live e = true ∧ (o ≠ [] → wev e = true) ∧ (o = [] → q ≠ [] → rev e = true).

Lemma attentive_alive ac q o : attentive ac q o → ev_alive ac.
Proof. intros Ha e E. by destruct (Ha e E). Qed.

(** The state of the exchange. *)
Definition state_of (ac : redisAsyncContext) (q : list redisCallback) (o : bytes) : exchange := (q, wire ac ++ o, alog ac).

Section serving.
Context `{Malloc} `{Libc} `{Client}.
Hypothesis granted : ∀ n, malloc_ok n = true.

(** What a callback may change. *)
Definition keeps (ac ac' : redisAsyncContext) : Prop :=
  reader (ac_c ac') = reader (ac_c ac) ∧ wire ac' = wire ac.

Definition open_flags (fl : Z) : Prop := fl = REDIS_CONNECTED ∨ fl = Z.lor REDIS_CONNECTED REDIS_IN_CALLBACK.

Lemma resp_pos args : 0 < zlen (resp args).
Proof.
  unfold resp. rewrite zlen_app. change (zlen (str "*")) with 1.
  pose proof (zlen_nonneg (udec (zlen args) ++ crlf ++ concat (bulk <$> args))). lia.
Qed.

Lemma resp_nonempty args : resp args ≠ [].
Proof. intros E. pose proof (resp_pos args) as Hp. by rewrite E in Hp. Qed.

Lemma polite_act F fl a ac q o :
  open_flags fl → serving fl ac q o → attentive ac q o → polite a → zlen o + zlen (request_of a) + 1 < LIMIT →
  ∃ ac', act1 F a ac = Ok ac' ∧ serving fl ac' (q ++ [callback_of a]) (o ++ request_of a) ∧
    attentive ac' (q ++ [callback_of a]) (o ++ request_of a) ∧ keeps ac ac' ∧ alog ac' = alog ac ++ [Returned REDIS_OK].
Proof.
  intros Hfl [S1 S2 S3 S4 S5] Ha Hp Hlim. destruct a as [f pd argv argvlen| | | | | |]; try done.
  destruct Hp as [Hm Hreg]. cbn [request_of callback_of] in *. destruct (args_of argv argvlen) as [|c rest] eqn:Eargs; [done|].
  unfold act1, use. rewrite S1. rbind. unfold redisAsyncCommandArgv. pose proof (zlen_nonneg o).
  destruct (redisFormatSdsCommandArgv_resp granted argv argvlen (c :: rest)) as (s & -> & Hs); [done|lia|]. rbind. cbn [nn]. rbind.
  pose proof (resp_pos (c :: rest)). rewrite u64_small by (unfold LIMIT in Hlim; lia). pose proof Hs as (z & Ez & _ & _ & Hz).
  unfold HDR in Hz. rewrite Ez in *.
  assert (accepts ac ∧ flag ac REDIS_SUBSCRIBED = false) as [Hacc Hsub].
  { unfold accepts, flag. rewrite S2. by destruct Hfl as [-> | ->]. }
  destruct (asyncCommand_regular granted ac f pd c rest z q o) as (L & o' & HL & Ho' & ->); try done;
    [by eapply attentive_alive|lia|lia|]. rbind.
  eexists. split; [done|]. split; [|split; [|done]].
  - by constructor.
  - intros e E. cbn in E. destruct (ac_ev ac) as [e0|]; [|done]. injection E as <-. cbn. split; [done|]. split; [done|].
    intros [_ E0]%app_nil. by destruct (resp_nonempty (c :: rest)).
Qed.

Lemma requests_cons a l : requests_of (a :: l) = request_of a ++ requests_of l.
Proof. done. Qed.

Lemma polite_acts F fl l : ∀ ac q o,
  open_flags fl → serving fl ac q o → attentive ac q o → Forall polite l → zlen o + zlen (requests_of l) + 1 < LIMIT →
  ∃ ac', acts (act1 F) l ac = Ok ac' ∧ serving fl ac' (q ++ map callback_of l) (o ++ requests_of l) ∧
    attentive ac' (q ++ map callback_of l) (o ++ requests_of l) ∧ keeps ac ac' ∧
    alog ac' = alog ac ++ replicate (length l) (Returned REDIS_OK).
Proof.
  induction l as [|a l IH]; intros ac q o Hfl Hs Ha Hp Hlim.
  { exists ac. unfold requests_of. cbn. rewrite !app_nil_r. by split_and!. }
  apply Forall_cons in Hp as [Hpa Hpl]. rewrite requests_cons, zlen_app in Hlim. pose proof (zlen_nonneg (requests_of l)).
  cbn [acts]. destruct (polite_act F fl a ac q o) as (ac1 & -> & Hs1 & Ha1 & [K1 K2] & E1); try done; [lia|]. rbind.
  destruct (IH ac1 _ _ Hfl Hs1 Ha1 Hpl) as (ac2 & -> & Hs2 & Ha2 & [K3 K4] & E2); [rewrite zlen_app; lia|].
  exists ac2. split; [done|]. rewrite requests_cons. cbn [map]. rewrite <- !app_assoc in *. split; [done|]. split; [done|].
  split; [split; congruence|]. rewrite E2, E1, <- app_assoc. done.
Qed.

(** The program issues regular commands only, at most [B] bytes from one
    callback. *)
Definition polite_client (B : Z) : Prop := ∀ h, Forall polite (client h) ∧ zlen (requests_of (client h)) ≤ B.

Context (B : Z).
Hypothesis client_polite : polite_client B.

Lemma run_callback d cb f l ac q o :
  serving REDIS_CONNECTED ac q o → attentive ac q o → fn cb = Some f → zlen o + B + 1 < LIMIT →
  let log := alog ac ++ [Called f (privdata cb) (Some l) (rheap (reader (ac_c ac)))] in
  ∃ ac', redisRunCallback (act (S d)) ac cb (Some l) = Ok ac' ∧
    serving REDIS_CONNECTED ac' (q ++ map callback_of (client log)) (o ++ requests_of (client log)) ∧
    attentive ac' (q ++ map callback_of (client log)) (o ++ requests_of (client log)) ∧ keeps ac ac' ∧
    alog ac' = log ++ replicate (length (client log)) (Returned REDIS_OK).
Proof.
  intros [S1 S2 S3 S4 S5] Ha Hf Hlim log. unfold redisRunCallback. rewrite Hf. unfold tell. cbn [act].
  set (ac1 := add_log _ (flag_on REDIS_IN_CALLBACK ac)). change (alog ac1) with log.
  destruct (client_polite log) as [Hp Hb].
  assert (serving (Z.lor REDIS_CONNECTED REDIS_IN_CALLBACK) ac1 q o) as Hs1
    by (constructor; try done; cbn; by rewrite S2).
  destruct (polite_acts (act d) (Z.lor REDIS_CONNECTED REDIS_IN_CALLBACK) (client log) ac1 q o)
    as (ac2 & -> & [T1 T2 T3 T4 T5] & Ha2 & [K1 K2] & E2); try done; [by right|lia|]. rbind.
  unfold use. rewrite T1. rbind. eexists. split; [done|]. split; [|split; [done|split; [done|exact E2]]].
  constructor; try done. cbn. by rewrite T2.
Qed.

Lemma get_reply_nonblocking c vs x :
  cflags c = REDIS_CONNECTED → streams (reader c) vs x →
  ∃ o r', redisGetReply c {| reads := []; writes := []; sent := [] |} =
      Ok (Some (REDIS_OK, o, set_reader r' c, {| reads := []; writes := []; sent := [] |})) ∧
    match o with
    | Some l =>
        ∃ v vs', vs = v :: vs' ∧ valid 8 v ∧ laid (rheap r') v l ∧ (waiting r' < waiting (reader c))%nat ∧
          ∀ h, streams (set_heap h (rnext r') r') vs' x
    | None => streams r' vs x ∧ (x = [] → vs = [])
    end.
Proof.
  intros Hf Hs. destruct (streams_get granted (reader c) vs x Hs) as (o & r' & E & Ho). exists o, r'. split; [|done].
  unfold redisGetReply, redisGetReplyFromReader. rewrite E. rbind. change (REDIS_OK =? REDIS_ERR) with false. cbv iota. rbind.
  destruct o; [done|]. assert (blocking (set_reader r' c) = false) as -> by (unfold blocking; cbn; by rewrite Hf). done.
Qed.

Lemma serving_reader fl ac q o r : serving fl ac q o → serving fl (set_c (set_reader r (ac_c ac)) ac) q o.
Proof. intros []. by constructor. Qed.

(** The callback of the next reply leaves the queue. *)
Lemma select_next F fl ac cb q o cb0 l :
  serving fl ac (cb :: q) o →
  ∃ L, select_callback F ac cb0 l = Ok (Some cb, set_lists L (invalid ac) ac) ∧
    serving fl (set_lists L (invalid ac) ac) q o.
Proof.
  intros [S1 S2 S3 S4 S5]. unfold select_callback. destruct (shift_queue _ _ _ S4) as (L & -> & HL). rbind. exists L.
  split; [done|]. by constructor.
Qed.

Lemma attentive_shift ac L i cb q o : attentive ac (cb :: q) o → attentive (set_lists L i ac) q o.
Proof. intros Ha e E. destruct (Ha e E) as (? & ? & Hr). split_and!; try done. intros ? _. by apply Hr. Qed.

(** What [redisProcessCallbacks] does with the replies that are complete. *)
Definition processed (ac : redisAsyncContext) (q : list redisCallback) (o : bytes) (vs : list rval) (x : bytes)
    (ac' : redisAsyncContext) : Prop :=
  ∃ vs1 vs2 q' o', vs = vs1 ++ vs2 ∧ delivers (state_of ac q o) vs1 (state_of ac' q' o') ∧
    serving REDIS_CONNECTED ac' q' o' ∧ attentive ac' q' o' ∧ streams (reader (ac_c ac')) vs2 x ∧ (x = [] → vs2 = []) ∧
    (length vs2 ≤ length q')%nat ∧ zlen o' ≤ zlen o + Z.of_nat (length vs1) * B ∧ wire ac' = wire ac.

(** A reply that was used is freed; what the reader has still to read is not
    touched. *)
Lemma free_ok ac q o v l vs x r :
  serving REDIS_CONNECTED ac q o → reader (ac_c ac) = r → valid 8 v → laid (rheap r) v l →
  (∀ h, streams (set_heap h (rnext r) r) vs x) →
  ∃ h, free_object ac l = Ok (set_c (set_reader (set_heap h (rnext r) r) (ac_c ac)) ac) ∧
    let ac' := set_c (set_reader (set_heap h (rnext r) r) (ac_c ac)) ac in
    flag ac' REDIS_FREEING = false ∧ serving REDIS_CONNECTED ac' q o ∧ streams (reader (ac_c ac')) vs x ∧
    waiting (reader (ac_c ac')) = waiting r.
Proof.
  intros Hs Er Hv Hl Hst. unfold free_object. rewrite Er. destruct (free_read (rheap r) v l Hv Hl) as (h & ->). rbind.
  exists h. split; [done|]. split; [unfold flag; cbn; by rewrite (sv_flags _ _ _ _ Hs)|].
  split; [by apply serving_reader|]. split; [apply Hst|done].
Qed.

(** The reply before the ones processed went to a callback, or to none. *)
Lemma processed_cons ac ac1 cb q q1 o o1 v vs x ac' :
  processed ac1 q1 o1 vs x ac' → wire ac1 = wire ac → zlen o1 ≤ zlen o + B → 
  (∀ vs1 s, delivers (state_of ac1 q1 o1) vs1 s → delivers (state_of ac (cb :: q) o) (v :: vs1) s) →
  processed ac (cb :: q) o (v :: vs) x ac'.
Proof.
  intros (vs1 & vs2 & q' & o' & -> & Hdel & ? & ? & ? & ? & ? & ? & Hw) Hw1 Ho1 Hd.
  exists (v :: vs1), vs2, q', o'. split_and!; try done; [by apply Hd|cbn [length]; lia|congruence].
Qed.

Lemma process_ok d fuel : ∀ cb ac q o vs x,
  serving REDIS_CONNECTED ac q o → attentive ac q o → streams (reader (ac_c ac)) vs x → (length vs ≤ length q)%nat →
  zlen o + Z.of_nat (length vs) * B + 1 < LIMIT → 0 ≤ B → (waiting (reader (ac_c ac)) < fuel)%nat →
  ∃ ac', process_loop (act (S d)) fuel cb ac = Ok ac' ∧ processed ac q o vs x ac'.
Proof.
  induction fuel as [|fuel IH]; intros cb ac q o vs x Hs Ha Hst Hlen Hlim HB Hf; [lia|]. cbn [process_loop].
  destruct (get_reply_nonblocking (ac_c ac) vs x (sv_flags _ _ _ _ Hs) Hst) as (ol & r' & -> & Ho). rbind.
  change (negb (REDIS_OK =? REDIS_OK)) with false. cbv iota.
  set (ac0 := set_c (set_reader r' (ac_c ac)) ac). pose proof (serving_reader _ _ _ _ r' Hs) as Hs0. fold ac0 in Hs0.
  assert (∀ f, flag ac0 f = negb (Z.land REDIS_CONNECTED f =? 0)) as Hflag by (intros; unfold flag; by rewrite (sv_flags _ _ _ _ Hs0)).
  destruct ol as [l|].
  2:{ destruct Ho as [Hst' Hx]. rewrite !Hflag. change (negb (Z.land REDIS_CONNECTED REDIS_DISCONNECTING =? 0)) with false.
      change (negb (Z.land REDIS_CONNECTED REDIS_MONITORING =? 0)) with false. cbn [andb]. exists ac0. split; [done|].
      exists [], vs, q, o. split_and!; try done; [constructor|simpl; lia]. }
  destruct Ho as (v & vs' & -> & Hv & Hlaid & Hw & Hrest). destruct q as [|cbq q]; [simpl in Hlen; lia|].
  destruct (select_next (act (S d)) _ ac0 cbq q o cb l Hs0) as (L & -> & HsL). rbind. cbn [length] in *.
  set (ac1 := set_lists L (invalid ac0) ac0) in *.
  assert (attentive ac1 q o) as Ha1 by (by apply (attentive_shift ac0 L _ cbq)).
  destruct (fn cbq) as [f|] eqn:Ef.
  - destruct (run_callback d cbq f l ac1 q o HsL Ha1 Ef) as (ac2 & -> & Hs2 & Ha2 & [K1 K2] & Elog); [lia|]. rbind.
    set (log := alog ac1 ++ _) in *. destruct (client_polite log) as [_ HbB].
    destruct (free_ok ac2 _ _ v l vs' x r' Hs2 K1 Hv Hlaid Hrest) as (h & -> & Hfr & Hs3 & Hst3 & Hw3). rbind. rewrite Hfr.
    destruct (IH cbq _ _ _ vs' x Hs3 Ha2 Hst3) as (ac' & -> & Hp);
      [rewrite length_app; lia|rewrite zlen_app; lia|done|lia|].
    exists ac'. split; [done|]. eapply processed_cons; [exact Hp|exact K2|rewrite zlen_app; lia|]. intros vs1 s Hd.
    eapply del_call; [exact Ef|by apply laid_denotes|]. unfold state_of in Hd. cbn [wire alog set_c] in Hd.
    rewrite Elog, K2 in Hd. unfold issue. rewrite <- app_assoc. exact Hd.
  - destruct (free_ok ac1 _ _ v l vs' x r' HsL eq_refl Hv Hlaid Hrest) as (h & -> & Hfr & Hs3 & Hst3 & Hw3). rbind.
    destruct (IH cbq _ _ _ vs' x Hs3 Ha1 Hst3) as (ac' & -> & Hp); [lia|lia|done|lia|].
    exists ac'. split; [done|]. eapply processed_cons; [exact Hp|done|lia|]. intros vs1 s Hd. by eapply del_none.
Qed.
(** ** Events *)

(** The write event is pending when there is something to send. *)
Lemma read_attentive ac q o :
  attentive ac q o →
  let ac1 := fired (λ e, {| ev_live := ev_live e; rev := false; wev := wev e |}) ac in
  ∃ e, EL AddRead ac1 = Ok (set_ev e ac1) ∧ attentive (set_ev e ac1) q o.
Proof.
  intros Ha ac1. assert (ev_alive ac1) as Hal by (apply fired_alive; [by eapply attentive_alive|done]).
  rewrite EL_ok by done. eexists. split; [done|]. intros e E. cbn in E.
  destruct (ac_ev ac) as [e0|] eqn:E0; [|done]. injection E as <-. cbn. destruct (Ha e0 E0) as (_ & ? & _). by split_and!.
Qed.

Lemma connected_goes ac q o so : serving REDIS_CONNECTED ac q o → ensure_connected (act DEPTH) ac so = Ok (true, ac).
Proof. intros Hs. unfold ensure_connected, flag. by rewrite (sv_flags _ _ _ _ Hs). Qed.

Lemma read_input ac q o vs x so b :
  serving REDIS_CONNECTED ac q o → attentive ac q o → streams (reader (ac_c ac)) vs (b ++ x) → b ≠ [] →
  (length vs ≤ length q)%nat → zlen o + Z.of_nat (length vs) * B + 1 < LIMIT → 0 ≤ B →
  ∃ ac', handle ac (Readable so (RdData b)) = Ok ac' ∧ processed ac q o vs x ac'.
Proof.
  intros Hs Ha Hst Hb Hlen Hlim HB. unfold handle, use. rewrite (sv_live _ _ _ _ Hs). rbind.
  set (ac1 := fired _ ac). assert (serving REDIS_CONNECTED ac1 q o) as Hs1 by (destruct Hs; by constructor).
  unfold redisAsyncHandleRead. rewrite (connected_goes ac1 q o so Hs1). rbind. cbn [negb]. unfold redisBufferRead.
  rewrite (sv_err _ _ _ _ Hs1). cbn [Z.eqb negb reads]. destruct b as [|c b]; [done|].
  destruct (streams_feed granted (reader (ac_c ac1)) vs (c :: b) x Hb Hst) as (r1 & -> & Hst1). rbind.
  change (negb (REDIS_OK =? REDIS_OK)) with false. cbv iota. change (REDIS_OK =? REDIS_ERR) with false. cbv iota.
  destruct (read_attentive ac q o Ha) as (e & EE & Ha1). fold ac1 in EE, Ha1.
  assert (EL AddRead (set_c (set_reader r1 (ac_c ac1)) ac1) = Ok (set_c (set_reader r1 (ac_c ac1)) (set_ev e ac1))) as ->.
  { revert EE. unfold EL. cbn [ac_ev set_c]. destruct (ac_ev ac1) as [e1|].
    - destruct (libevent_hook AddRead e1); [|done]. rbind. intros [= <-]. done.
    - by intros [= <-]. }
  rbind. set (ac2 := set_c _ _). assert (serving REDIS_CONNECTED ac2 q o) as Hs2
    by (apply (serving_reader _ (set_ev e ac1)); destruct Hs1; by constructor).
  unfold redisProcessCallbacks. destruct (process_ok 2 (S (waiting r1)) null_callback ac2 q o vs x) as (ac' & E & Hp); try done.
  - cbn. lia.
  - exists ac'. split; [exact E|exact Hp].
Qed.

(** A read that failed and is tried again. *)
Lemma read_retry ac q o vs x so n :
  serving REDIS_CONNECTED ac q o → attentive ac q o → streams (reader (ac_c ac)) vs x → n = EAGAIN ∨ n = EINTR →
  (length vs ≤ length q)%nat → zlen o + Z.of_nat (length vs) * B + 1 < LIMIT → 0 ≤ B →
  ∃ ac', handle ac (Readable so (RdErr n)) = Ok ac' ∧ processed ac q o vs x ac'.
Proof.
  intros Hs Ha Hst Hn Hlen Hlim HB. unfold handle, use. rewrite (sv_live _ _ _ _ Hs). rbind.
  set (ac1 := fired _ ac). assert (serving REDIS_CONNECTED ac1 q o) as Hs1 by (destruct Hs; by constructor).
  unfold redisAsyncHandleRead. rewrite (connected_goes ac1 q o so Hs1). rbind. cbn [negb]. unfold redisBufferRead.
  rewrite (sv_err _ _ _ _ Hs1). cbn [Z.eqb negb reads].
  assert (retry (ac_c ac1) n = true) as ->.
  { unfold retry, blocking. rewrite (sv_flags _ _ _ _ Hs1). by destruct Hn as [-> | ->]. }
  rbind. change (REDIS_OK =? REDIS_ERR) with false. cbv iota.
  assert (set_c (ac_c ac1) ac1 = ac1) as -> by (by destruct ac1).
  destruct (read_attentive ac q o Ha) as (e & EE & Ha1). fold ac1 in EE, Ha1. rewrite EE. rbind.
  unfold redisProcessCallbacks. destruct (process_ok 2 (S (waiting (reader (ac_c ac1)))) null_callback (set_ev e ac1) q o vs x)
    as (ac' & E & Hp); try done; [destruct Hs1; by constructor|cbn; lia|].
  exists ac'. split; [exact E|exact Hp].
Qed.

(** What [write] may return for the bytes [o]. *)
Definition write_ok (e : wr) (o : bytes) : Prop :=
  match e with WrErr n => n = EAGAIN ∨ n = EINTR | WrOk k => 0 ≤ k ≤ zlen o end.

Lemma write_input ac q o so e :
  serving REDIS_CONNECTED ac q o → ev_alive ac → write_ok e o →
  ∃ ac' o', handle ac (Writable so e) = Ok ac' ∧ serving REDIS_CONNECTED ac' q o' ∧ attentive ac' q o' ∧
    state_of ac' q o' = state_of ac q o ∧ reader (ac_c ac') = reader (ac_c ac) ∧ zlen o' ≤ zlen o.
Proof.
  intros Hs Ha He. unfold handle, use. rewrite (sv_live _ _ _ _ Hs). rbind.
  set (ac1 := fired _ ac). assert (serving REDIS_CONNECTED ac1 q o) as Hs1 by (destruct Hs; by constructor).
  assert (ev_alive ac1) as Ha1 by (by apply fired_alive).
  unfold redisAsyncHandleWrite. rewrite (connected_goes ac1 q o so Hs1). rbind. cbn [negb].
  assert (∃ c' t o' w, redisBufferWrite (ac_c ac1) {| reads := []; writes := [e]; sent := wire ac1 |} =
      Ok (Some (REDIS_OK, zlen o' =? 0, c', w)) ∧ sent w = wire ac1 ++ t ∧ o = t ++ o' ∧ SdsSpec.repr (obuf c') o' ∧
      cerr c' = 0 ∧ cflags c' = cflags (ac_c ac1) ∧ reader c' = reader (ac_c ac1)) as (c' & t & o' & w & -> & Ew & -> & Ho' & E1 & E2 & E3).
  { destruct (decide (o = [])) as [->|Hne].
    - exists (ac_c ac1), [], []. eexists. unfold redisBufferWrite. rewrite (sv_err _ _ _ _ Hs1).
      destruct (repr_bounds _ _ (sv_out _ _ _ _ Hs1)) as (-> & _). cbn. split; [done|]. cbn. rewrite app_nil_r.
      split_and!; try done; apply Hs1.
    - assert (0 < zlen o) as Hpos by (destruct o; [done|rewrite zlen_cons; pose proof (zlen_nonneg o); lia]).
      destruct (write_once granted (ac_c ac1) {| reads := []; writes := [e]; sent := wire ac1 |} o e []) as
        (c' & t & o' & E & ? & ? & _ & ? & ? & ?); try done; [apply Hs1|apply Hs1| |].
      { destruct e as [n|k]; [|done]. cbn [writes_some write_ok] in *. unfold retry, blocking. rewrite (sv_flags _ _ _ _ Hs1). by destruct He as [-> | ->]. }
      exists c', t, o'. eexists. by split_and!. }
  rbind. change (REDIS_OK =? REDIS_ERR) with false. cbv iota. set (ac2 := set_wire _ _).
  assert (∀ h, ev_alive (set_ev (hooked h <$> ac_ev ac2) ac2) ∨ h = Cleanup) as Hh.
  { destruct h; [left|left|left|left|by right]; intros e1 E; cbn in E; destruct (ac_ev ac); (done || by injection E as <-). }
  rewrite EL_ok by exact Ha1. rbind. rewrite EL_ok by (destruct (Hh (if zlen o' =? 0 then DelWrite else AddWrite)) as [?|E]; [done|by destruct (zlen o' =? 0)]).
  eexists _, o'. split; [done|]. destruct Hs1 as [V1 V2 V3 V4 V5]. split; [constructor; try done; cbn; congruence|]. split; [|split; [|split]].
  - intros e1 E. cbn in E. destruct (ac_ev ac) as [e0|]; [|done]. injection E as <-. destruct (Z.eqb_spec (zlen o') 0) as [Ez|Ez]; cbn.
    + apply zlen_0_inv in Ez as ->. by split_and!.
    + split_and!; done.
  - unfold state_of. cbn. by rewrite Ew, <- app_assoc.
  - done.
  - rewrite zlen_app. pose proof (zlen_nonneg t). lia.
Qed.
(** ** Whole runs *)

(** The bytes that arrive, and the bytes of the requests the program calls for
    from outside its callbacks. *)
Definition arriving (ins : list input) : bytes :=
  concat (map (λ i, match i with Readable _ (RdData b) => b | _ => [] end) ins).
Definition called (ins : list input) : Z :=
  foldr Z.add 0 (map (λ i, match i with Call a => zlen (request_of a) | _ => 0 end) ins).

(** Inputs that can happen: regular commands, data, a [write] that takes no
    more than there is, calls that are to be tried again. *)
Definition feasible_input (ac : redisAsyncContext) (i : input) : Prop :=
  match i with
  | Call a => polite a
  | Readable _ (RdData b) => b ≠ []
  | Readable _ (RdErr n) => n = EAGAIN ∨ n = EINTR
  | Writable _ (WrErr n) => n = EAGAIN ∨ n = EINTR
  | Writable _ (WrOk k) => 0 ≤ k ≤ sdslen (obuf (ac_c ac))
  end.
Fixpoint feasible (ac : redisAsyncContext) (ins : list input) : Prop :=
  match ins with
  | [] => True
  | i :: ins => feasible_input ac i ∧ ∀ ac', handle ac i = Ok ac' → feasible ac' ins
  end.

Lemma called_nonneg ins : 0 ≤ called ins.
Proof.
  unfold called. induction ins as [|i ins IH]; simpl; [done|]. destruct i; try lia. pose proof (zlen_nonneg (request_of a)). lia.
Qed.

(** One input. *)
Lemma input_ok i x : ∀ ac q o vs,
  serving REDIS_CONNECTED ac q o → attentive ac q o → streams (reader (ac_c ac)) vs (arriving [i] ++ x) →
  (arriving [i] ++ x = [] → vs = []) → (length vs ≤ length q)%nat → feasible_input ac i →
  zlen o + called [i] + Z.of_nat (length vs) * B + 1 < LIMIT → 0 ≤ B →
  ∃ ac' q' o' vs1 vs2, handle ac i = Ok ac' ∧ vs = vs1 ++ vs2 ∧ exchanges (state_of ac q o) i vs1 (state_of ac' q' o') ∧
    serving REDIS_CONNECTED ac' q' o' ∧ attentive ac' q' o' ∧ streams (reader (ac_c ac')) vs2 x ∧ (x = [] → vs2 = []) ∧
    (length vs2 ≤ length q')%nat ∧ zlen o' ≤ zlen o + called [i] + Z.of_nat (length vs1) * B.
Proof.
  intros ac q o vs Hs Ha Hst Hx Hlen Hf Hlim HB. unfold arriving, called in *. cbn [map foldr concat] in *. rewrite !Z.add_0_r in *.
  destruct i as [a|so e|so e].
  - cbn [app] in *. destruct (polite_act (act DEPTH) REDIS_CONNECTED a ac q o) as (ac' & E & Hs' & Ha' & [K1 K2] & El); try done;
      [by left|lia|]. exists ac', (q ++ [callback_of a]), (o ++ request_of a), [], vs.
    split; [unfold handle, use; by rewrite (sv_live _ _ _ _ Hs)|]. split; [done|]. split.
    { unfold state_of. rewrite El, K2. pose proof (ex_call a (q, wire ac ++ o, alog ac)) as P. cbn [issue] in P.
      unfold requests_of in P. cbn [map concat length replicate] in P. by rewrite app_nil_r, <- app_assoc in P. }
    split; [done|]. split; [done|]. rewrite K1. split; [done|]. split; [done|]. split; [rewrite length_app; lia|].
    rewrite zlen_app. simpl. lia.
  - assert (∃ ac', handle ac (Readable so e) = Ok ac' ∧ processed ac q o vs x ac') as (ac' & E & vs1 & vs2 & q' & o' & Hp).
    { destruct e as [n|b]; [by apply read_retry; try done; lia|].
      rewrite app_nil_r in Hst. by apply read_input; try done; lia. }
    destruct Hp as (-> & Hd & Hs' & Ha' & Hst' & Hx' & Hl' & Ho' & _). exists ac', q', o', vs1, vs2. split_and!; try done; [by constructor|lia].
  - destruct (write_input ac q o so e Hs) as (ac' & o' & E & Hs' & Ha' & Est & Er & Ho'); [by eapply attentive_alive| |].
    { destruct e; [done|]. cbn in *. by destruct (repr_bounds _ _ (sv_out _ _ _ _ Hs)) as (<- & _). }
    exists ac', q, o', [], vs. rewrite Est, Er. split_and!; try done; [constructor|simpl; lia].
Qed.

Lemma run_exchange ins : ∀ ac q o vs,
  serving REDIS_CONNECTED ac q o → attentive ac q o → streams (reader (ac_c ac)) vs (arriving ins) →
  (arriving ins = [] → vs = []) → (length vs ≤ length q)%nat → feasible ac ins →
  zlen o + called ins + Z.of_nat (length vs) * B + 1 < LIMIT → 0 ≤ B →
  ∃ ac' q' o', run ac ins = Ok ac' ∧ exchanged (state_of ac q o) ins vs (state_of ac' q' o') ∧
    serving REDIS_CONNECTED ac' q' o' ∧ attentive ac' q' o' ∧ streams (reader (ac_c ac')) [] [].
Proof.
  induction ins as [|i ins IH]; intros ac q o vs Hs Ha Hst Hx Hlen Hf Hlim HB.
  { exists ac, q, o. rewrite (Hx eq_refl) in *. split_and!; try done. constructor. }
  destruct Hf as [Hi Hins].
  assert (arriving (i :: ins) = arriving [i] ++ arriving ins) as Earr by (unfold arriving; cbn; by rewrite app_nil_r).
  assert (called (i :: ins) = called [i] + called ins) as Ecal by (unfold called; cbn; lia).
  rewrite Earr, Ecal in *. pose proof (called_nonneg ins).
  destruct (input_ok i (arriving ins) ac q o vs) as (ac1 & q1 & o1 & vs1 & vs2 & E & -> & Hex & Hs1 & Ha1 & Hst1 & Hx1 & Hl1 & Ho1);
    try done; [lia|]. rewrite length_app in Hlim. cbn [run]. rewrite E. rbind.
  destruct (IH ac1 q1 o1 vs2) as (ac' & q' & o' & -> & Hed & Hrest); try done; [by apply Hins|lia|].
  exists ac', q', o'. split; [done|]. split; [by econstructor|done].
Qed.

(** C17: the asynchronous client delivers every reply to the callback of its command. A connected
    context whose callbacks [q] wait is driven by any sequence of events: data that arrives in any
    pieces, which need not end where a reply ends, writes that take any part of the output or are
    to be tried again, and commands issued meanwhile by the program or by the callbacks
    themselves. The handlers return without fault; each value goes to the callback that has waited
    longest, once, as an object that denotes it; the requests are appended to the output in the
    order they were issued and none of their bytes is lost; and afterwards the event that continues
    the exchange is pending when there is something to send or to wait for. *)
Theorem async_delivers ins ac q o vs :
  serving REDIS_CONNECTED ac q o → attentive ac q o → ready (reader (ac_c ac)) →
  arriving ins = encs vs → Forall (valid 8) vs → (length vs ≤ length q)%nat → feasible ac ins →
  1024 + zlen (encs vs) < LIMIT → zlen o + called ins + Z.of_nat (length vs) * B + 1 < LIMIT → 0 ≤ B →
  ∃ ac' q' o', run ac ins = Ok ac' ∧ exchanged (state_of ac q o) ins vs (state_of ac' q' o') ∧
    serving REDIS_CONNECTED ac' q' o' ∧ attentive ac' q' o' ∧ ready (reader (ac_c ac')).
Proof.
  intros Hs Ha Hr Earr Hv Hlen Hf Hlim Hlim2 HB.
  destruct (run_exchange ins ac q o vs) as (ac' & q' & o' & E & Hex & Hs' & Ha' & _ & Hr'); try done.
  - destruct Hr as (Hh & Hi & Hl & Hrl). rewrite Earr. apply (streams_start granted _ []); try done.
  - rewrite Earr. destruct vs as [|v vs]; [done|]. unfold encs. cbn. by destruct v.
  - by exists ac', q', o'.
Qed.
End serving.

(** ** Examples *)

#[local] Existing Instance calloc_all.
#[local] Existing Instance sample_client.
#[local] Instance libc_sample : Libc := {| printf_conv fmt ap := []; strerror e := str "error" |}.

Definition sample_call : action := CommandArgv (Some 4) 40 [str "set"; str "k"; str "v"] (Some [3; 1; 1]).

Lemma sample_polite : polite_client 30 ∧ polite sample_call.
Proof.
  assert (∀ argv lens, (match args_of argv (Some lens) with c :: _ => bool_decide (regular c) | [] => false end = true) →
    lens = map zlen (args_of argv (Some lens)) → Forall2 (λ b v, v `prefix_of` b) argv (args_of argv (Some lens)) →
    ∀ f pd, polite (CommandArgv f pd argv (Some lens))) as Hp.
  { intros argv lens Hr Hl Hf f pd. cbn. split; [by split|]. cbn in Hr. by destruct (zip_with _ argv lens); [|apply bool_decide_eq_true in Hr]. }
  split.
  - intros h. unfold client, sample_client. destruct (last h) as [[f pd rep hp| | |]|]; try by split.
    destruct f as [|f|f]; try by split. destruct f; try by split. split; [|vm_compute; done].
    apply Forall_singleton, Hp; [vm_compute; reflexivity|reflexivity|]. repeat constructor; by apply (bool_decide_eq_true _).
  - apply Hp; [vm_compute; reflexivity|reflexivity|]. repeat constructor; by apply (bool_decide_eq_true _).
Qed.

Lemma async_delivers_witness :
  let ins := [Readable (SoError 0) (RdData (str "+O")); Call sample_call;
              Readable (SoError 0) (RdData (str "K" ++ crlf ++ str ":7" ++ crlf))] in
  ∃ o r ac' s, sdsempty = Ok (Some o) ∧ redisReaderCreate = Ok (Some r) ∧
    run (sample o r REDIS_CONNECTED two_callbacks) ins = Ok ac' ∧
    exchanged ([{| fn := Some 1; privdata := 10 |}; {| fn := Some 2; privdata := 20 |}], [], []) ins
      [VStatus (str "OK"); VInt 7] s ∧ ready (reader (ac_c ac')).
Proof.
  intros ins. destruct (@sdsempty_repr calloc_all (λ _, eq_refl)) as (o & Eo & Ho). destruct created_ready as (r & Er & _ & Hr).
  destruct (@async_delivers calloc_all libc_sample sample_client (λ _, eq_refl) 30 (proj1 sample_polite) ins
    (sample o r REDIS_CONNECTED two_callbacks) [{| fn := Some 1; privdata := 10 |}; {| fn := Some 2; privdata := 20 |}] []
    [VStatus (str "OK"); VInt 7]) as (ac' & q' & o' & E & Hex & _ & _ & Hr').
  - constructor; try done. apply two_callbacks_queue.
  - intros e [= <-]. by split_and!.
  - exact Hr.
  - vm_compute. reflexivity.
  - apply Forall_cons; split; [split; [repeat constructor; done|reflexivity]|]. apply Forall_singleton. split; reflexivity.
  - simpl. lia.
  - split; [done|]. intros a1 _. split; [apply sample_polite|]. intros a2 _. by split.
  - vm_compute. reflexivity.
  - vm_compute. reflexivity.
  - done.
  - eexists o, r, ac', _. split; [exact Eo|]. split; [exact Er|]. split; [exact E|]. split; [exact Hex|exact Hr'].
Defined.
