(* ===== verification/AsyncFree.v ===== *)
(** * Every callback is answered when a context ends (theorems about Async.v)

    A context that is freed, or whose connection breaks, calls every callback
    that still waits, once, without a reply: those of commands, of commands
    sent while subscribed, and of channels and patterns. No new command is
    accepted meanwhile, so that this ends, and the context is released. *)

From S2P Require Import Prelude Cstd Cmem Sds SdsSpec Read ReadSpec Redis RedisSpec Hiredis HiredisSpec Dict.
From S2P Require Import DictSpec Async AsyncCommand.
Import Sds Read Hiredis Async.

(** ** Flags *)

Definition bit (ac : redisAsyncContext) (n : Z) : bool := Z.testbit (cflags (ac_c ac)) n.

Lemma flag_bit ac n : 0 ≤ n → flag ac (2 ^ n) = bit ac n.
Proof.
  intros Hn. unfold flag, bit. set (f := cflags (ac_c ac)).
  assert (Z.land f (2 ^ n) = if Z.testbit f n then 2 ^ n else 0) as ->.
  { apply Z.bits_inj'. intros k Hk. rewrite Z.land_spec, Z.pow2_bits_eqb by done.
    destruct (Z.testbit f n) eqn:Ef; [rewrite Z.pow2_bits_eqb by done|rewrite Z.bits_0];
      (destruct (Z.eqb_spec n k) as [<-|]; [by rewrite Ef|by rewrite andb_false_r]). }
  assert (0 < 2 ^ n) by (apply Z.pow_pos_nonneg; lia). destruct (Z.testbit f n); [|done].
  by rewrite (proj2 (Z.eqb_neq _ _)) by lia.
Qed.

Lemma bit_on ac k n : 0 ≤ n → 0 ≤ k → bit (flag_on (2 ^ k) ac) n = bit ac n || (k =? n).
Proof. intros. unfold bit. cbn. by rewrite Z.lor_spec, Z.pow2_bits_eqb. Qed.

Lemma bit_off ac k n : 0 ≤ n → 0 ≤ k → bit (flag_off (2 ^ k) ac) n = bit ac n && negb (k =? n).
Proof. intros. unfold bit. cbn. by rewrite Z.ldiff_spec, Z.pow2_bits_eqb. Qed.

Lemma rejects_bits ac : flag ac (Z.lor REDIS_DISCONNECTING REDIS_FREEING) = bit ac 2 || bit ac 3.
Proof.
  rewrite <- (flag_bit ac 2), <- (flag_bit ac 3) by done. unfold flag, REDIS_DISCONNECTING, REDIS_FREEING.
  change (2 ^ 2) with 4. change (2 ^ 3) with 8. set (f := cflags (ac_c ac)). rewrite Z.land_lor_distr_r.
  destruct (Z.eqb_spec (Z.land f 4) 0) as [->|E1], (Z.eqb_spec (Z.land f 8) 0) as [->|E2]; try done; cbn [negb orb].
  - by rewrite Z.lor_0_l, (proj2 (Z.eqb_neq _ _)).
  - by rewrite Z.lor_0_r, (proj2 (Z.eqb_neq _ _)).
  - rewrite (proj2 (Z.eqb_neq _ _)); [done|]. by intros [? _]%Z.lor_eq_0_iff.
Qed.

Lemma use_live ac : ac_live ac = true → use ac = Ok tt.
Proof. unfold use. by intros ->. Qed.

(** ** What the program is told *)

Definition calls_of (l : list event) : list (Z * Z * option loc) :=
  omap (λ e, match e with Called f pd r _ => Some (f, pd, r) | _ => None end) l.
Definition disconnects_of (l : list event) : list (Z * Z) :=
  omap (λ e, match e with OnDisconnect f st => Some (f, st) | _ => None end) l.

(** The calls that tell the callbacks that there is no reply. *)
Definition nulls (q : list redisCallback) : list (Z * Z * option loc) :=
  omap (λ cb, (λ f, (f, privdata cb, None)) <$> fn cb) q.

Lemma calls_app l l' : calls_of (l ++ l') = calls_of l ++ calls_of l'.
Proof. apply omap_app. Qed.
Lemma disconnects_app l l' : disconnects_of (l ++ l') = disconnects_of l ++ disconnects_of l'.
Proof. apply omap_app. Qed.
Lemma nulls_app q q' : nulls (q ++ q') = nulls q ++ nulls q'.
Proof. apply omap_app. Qed.

(** Everything but the flags and the history. *)
Definition frame (ac : redisAsyncContext) :=
  (cerr (ac_c ac), ac_err ac, ac_ev ac, onConnect ac, onDisconnect ac, replies ac, invalid ac, channels ac, patterns ac,
   ac_live ac).

(** The program was told [cs]; the context only got flags that end it. *)
Record told (ac : redisAsyncContext) (cs : list (Z * Z * option loc)) (ac' : redisAsyncContext) : Prop := {
  t_frame : frame ac' = frame ac;
  t_bits : ∀ n, 0 ≤ n → n ≠ 2 → n ≠ 3 → bit ac' n = bit ac n;
  t_ends : (bit ac 2 = true → bit ac' 2 = true) ∧ (bit ac 3 = true → bit ac' 3 = true);
  t_calls : calls_of (alog ac') = calls_of (alog ac) ++ cs;
  t_disconnects : disconnects_of (alog ac') = disconnects_of (alog ac)
}.

Lemma told_refl ac : told ac [] ac.
Proof. constructor; try done. by rewrite app_nil_r. Qed.

Lemma told_trans ac cs ac1 cs' ac2 : told ac cs ac1 → told ac1 cs' ac2 → told ac (cs ++ cs') ac2.
Proof.
  intros [F1 B1 E1 C1 D1] [F2 B2 E2 C2 D2]. constructor; try congruence.
  - intros n Hn0 Hn2 Hn3. by rewrite B2, B1.
  - naive_solver.
  - by rewrite C2, C1, app_assoc.
Qed.

(** A context that takes no commands, outside of a callback. *)
Definition ending (ac : redisAsyncContext) : Prop := ac_live ac = true ∧ (bit ac 2 || bit ac 3) = true.

Lemma told_ending ac cs ac' : told ac cs ac' → ending ac → ending ac'.
Proof.
  intros [F _ [E2 E3] _ _] [Hl Hb]. injection F as _ _ _ _ _ _ _ _ _ F. split; [congruence|].
  apply orb_true_iff in Hb as [Hb|Hb]; apply orb_true_iff; auto.
Qed.

(** What a callback may do when the context ends: issue commands, disconnect
    and free; the callback on disconnecting only the first. *)
Definition harmless_command (a : action) : Prop :=
  match a with
  | CommandArgv _ _ argv argvlen => ∃ args, argv_means argv argvlen args ∧ zlen (resp args) + 1 < LIMIT
  | FormattedCommand _ _ _ _ => True
  | _ => False
  end.
Definition harmless (a : action) : Prop := harmless_command a ∨ a = Disconnect ∨ a = Free.

Section ending.
Context `{Malloc} `{Libc} `{Client}.
Hypothesis granted : ∀ n, malloc_ok n = true.

Definition harmless_client : Prop :=
  ∀ h, Forall harmless (client h) ∧
    match last h with Some (OnDisconnect _ _) => Forall harmless_command (client h) | _ => True end.
Hypothesis client_harmless : harmless_client.

Lemma command_rejected F a ac :
  ending ac → harmless_command a → act1 F a ac = Ok (add_log (Returned REDIS_ERR) ac).
Proof.
  intros [Hl Hb] Ha. assert (∀ f pd cmd len, asyncCommand ac f pd cmd len = Ok (REDIS_ERR, ac)) as Hrej
    by (intros; unfold asyncCommand; by rewrite rejects_bits, Hb).
  unfold act1, use. rewrite Hl. rbind. destruct a as [f pd argv argvlen| |f pd cmd len| | | |]; try done.
  - destruct Ha as (args & Hm & Hlim). unfold redisAsyncCommandArgv.
    destruct (redisFormatSdsCommandArgv_resp granted argv argvlen args Hm Hlim) as (s & -> & _). rbind. cbn [nn]. rbind.
    by rewrite Hrej.
  - unfold redisAsyncFormattedCommand. by rewrite Hrej.
Qed.

Lemma told_returned ac st : told ac [] (add_log (Returned st) ac).
Proof. constructor; try done; cbn; [rewrite calls_app|rewrite disconnects_app]; cbn; by rewrite app_nil_r. Qed.

(** Setting one of the flags that end a context. *)
Lemma told_flag ac k : k = 2 ∨ k = 3 → told ac [] (flag_on (2 ^ k) ac).
Proof.
  intros Hk. constructor; try done.
  - intros n Hn0 Hn2 Hn3. rewrite bit_on by (done || lia). rewrite (proj2 (Z.eqb_neq _ _)) by lia. apply orb_false_r.
  - rewrite !bit_on by (done || lia). destruct Hk as [-> | ->]; cbn; split; intros ->; by rewrite ?orb_true_r.
  - by rewrite app_nil_r.
Qed.

(** Within a reply callback nothing is freed. *)
Lemma harmless_in_callback F a ac :
  ending ac → bit ac 4 = true → harmless a → ∃ ac', act1 F a ac = Ok ac' ∧ told ac [] ac'.
Proof.
  intros He H4 [Ha|[-> | ->]].
  - rewrite command_rejected by done. eexists. split; [done|]. apply told_returned.
  - unfold act1, use, redisAsyncDisconnect. rewrite (proj1 He). rbind. change REDIS_DISCONNECTING with (2 ^ 2).
    change REDIS_IN_CALLBACK with (2 ^ 4). rewrite flag_bit, bit_on, H4 by done. cbn. eexists. split; [done|].
    apply (told_flag ac 2). by left.
  - unfold act1, use, redisAsyncFree. rewrite (proj1 He). rbind. change REDIS_FREEING with (2 ^ 3).
    change REDIS_IN_CALLBACK with (2 ^ 4). rewrite flag_bit, bit_on, H4 by done. cbn. eexists. split; [done|].
    apply (told_flag ac 3). by right.
Qed.

Lemma harmless_acts F l : ∀ ac,
  ending ac → bit ac 4 = true → Forall harmless l → ∃ ac', acts (act1 F) l ac = Ok ac' ∧ told ac [] ac'.
Proof.
  induction l as [|a l IH]; intros ac He H4 Hl; [exists ac; split; [done|apply told_refl]|].
  apply Forall_cons in Hl as [Ha Hl]. cbn [acts]. destruct (harmless_in_callback F a ac He H4 Ha) as (ac1 & -> & T1). rbind.
  destruct (IH ac1) as (ac2 & -> & T2); [by eapply told_ending|by rewrite (t_bits _ _ _ T1)|done|].
  exists ac2. split; [done|]. apply (told_trans _ [] _ [] _ T1 T2).
Qed.

Lemma commands_rejected F l : ∀ ac,
  ending ac → Forall harmless_command l →
  ∃ ac', acts (act1 F) l ac = Ok ac' ∧ told ac [] ac' ∧ cflags (ac_c ac') = cflags (ac_c ac).
Proof.
  induction l as [|a l IH]; intros ac He Hl; [exists ac; split; [done|split; [apply told_refl|done]]|].
  apply Forall_cons in Hl as [Ha Hl]. cbn [acts]. rewrite command_rejected by done. rbind.
  pose proof (told_returned ac REDIS_ERR) as T1.
  destruct (IH (add_log (Returned REDIS_ERR) ac)) as (ac2 & -> & T2 & Ef); [by eapply told_ending|done|].
  exists ac2. split; [done|]. split; [apply (told_trans _ [] _ [] _ T1 T2)|done].
Qed.

(** A callback that is told that there is no reply. *)
Lemma run_null d ac cb :
  ending ac → bit ac 4 = false → ∃ ac', redisRunCallback (act (S d)) ac cb None = Ok ac' ∧ told ac (nulls [cb]) ac'.
Proof.
  intros He H4. unfold redisRunCallback. destruct (fn cb) as [f|] eqn:Ef.
  2:{ exists ac. split; [done|]. unfold nulls. cbn. rewrite Ef. apply told_refl. }
  unfold tell. cbn [act]. set (ac1 := add_log _ (flag_on REDIS_IN_CALLBACK ac)).
  assert (∀ n, 0 ≤ n → bit ac1 n = bit ac n || (4 =? n)) as Hb1 by (intros; by apply (bit_on ac 4)).
  assert (ending ac1) as He1 by (split; [apply He|rewrite !Hb1 by done; cbn; rewrite !orb_false_r; apply He]).
  destruct (harmless_acts (act d) (client (alog ac1)) ac1) as (ac2 & -> & [F B E C D]);
    [done|rewrite Hb1 by done; by rewrite orb_true_r|apply client_harmless|]. rbind.
  pose proof F as F'. injection F' as _ _ _ _ _ _ _ _ _ Fl. unfold use. rewrite Fl. change (ac_live ac1) with (ac_live ac).
  rewrite (proj1 He). rbind. eexists. split; [done|]. change REDIS_IN_CALLBACK with (2 ^ 4). constructor; [exact F| | | |].
  - intros n Hn0 Hn2 Hn3. rewrite bit_off, B, Hb1 by done. destruct (Z.eqb_spec 4 n) as [<-|]; cbn [negb];
      [by rewrite H4, orb_false_l, andb_false_r|by rewrite orb_false_r, andb_true_r].
  - rewrite !bit_off by done. cbn [Z.eqb Pos.eqb negb]. rewrite !andb_true_r. destruct E as [E2 E3].
    split; intros Hb; [apply E2|apply E3]; rewrite Hb1 by done; by rewrite Hb.
  - change (calls_of (alog ac2) = calls_of (alog ac) ++ nulls [cb]). rewrite C, app_nil_r. unfold ac1. cbn [alog add_log].
    rewrite calls_app. f_equal. unfold nulls. cbn. by rewrite Ef.
  - change (disconnects_of (alog ac2) = disconnects_of (alog ac)). rewrite D. unfold ac1. cbn [alog add_log].
    rewrite disconnects_app. cbn. by rewrite app_nil_r.
Qed.
(** ** The lists and the tables *)

Lemma told_lists L i ac cs ac' : told ac cs ac' → told (set_lists L i ac) cs (set_lists L i ac').
Proof. intros [F B E C D]. constructor; try done. injection F as F1 F2 F3 F4 F5 F6 F7 F8 F9 F10. unfold frame. cbn. congruence. Qed.

Lemma drain_replies_ok d q : ∀ fuel ac,
  ending ac → bit ac 4 = false → queue (replies ac) q → (length q < fuel)%nat →
  ∃ L ac', drain_replies (act (S d)) fuel ac = Ok ac' ∧ told (set_lists L (invalid ac) ac) (nulls q) ac'.
Proof.
  induction q as [|cb q IH]; intros fuel ac He H4 Hq Hf; (destruct fuel as [|fuel]; [simpl in Hf; lia|]); cbn [drain_replies].
  - destruct (shift_empty _ Hq) as [-> _]. rbind. exists (replies ac). eexists. split; [done|apply told_refl].
  - destruct (shift_queue _ _ _ Hq) as (L1 & -> & HL1). rbind. set (ac1 := set_lists L1 (invalid ac) ac).
    destruct (run_null d ac1 cb He H4) as (ac2 & -> & T2). rbind.
    pose proof (t_frame _ _ _ T2) as F. injection F as _ _ _ _ _ Fr Fi _ _ _.
    destruct (IH fuel ac2) as (L & ac3 & E & T3); [by eapply told_ending|by rewrite (t_bits _ _ _ T2)|by rewrite Fr|simpl in Hf; lia|].
    exists L, ac3. split; [done|]. rewrite Fi in T3. change (nulls (cb :: q)) with (nulls ([cb] ++ q)). rewrite nulls_app.
    eapply told_trans; [|exact T3]. exact (told_lists L (invalid ac) ac1 _ ac2 T2).
Qed.

Lemma drain_invalid_ok d q : ∀ fuel ac,
  ending ac → bit ac 4 = false → queue (invalid ac) q → (length q < fuel)%nat →
  ∃ L ac', drain_invalid (act (S d)) fuel ac = Ok ac' ∧ told (set_lists (replies ac) L ac) (nulls q) ac'.
Proof.
  induction q as [|cb q IH]; intros fuel ac He H4 Hq Hf; (destruct fuel as [|fuel]; [simpl in Hf; lia|]); cbn [drain_invalid].
  - destruct (shift_empty _ Hq) as [-> _]. rbind. exists (invalid ac). eexists. split; [done|apply told_refl].
  - destruct (shift_queue _ _ _ Hq) as (L1 & -> & HL1). rbind. set (ac1 := set_lists (replies ac) L1 ac).
    destruct (run_null d ac1 cb He H4) as (ac2 & -> & T2). rbind.
    pose proof (t_frame _ _ _ T2) as F. injection F as _ _ _ _ _ Fr Fi _ _ _.
    destruct (IH fuel ac2) as (L & ac3 & E & T3); [by eapply told_ending|by rewrite (t_bits _ _ _ T2)|by rewrite Fi|simpl in Hf; lia|].
    exists L, ac3. split; [done|]. rewrite Fr in T3. change (nulls (cb :: q)) with (nulls ([cb] ++ q)). rewrite nulls_app.
    eapply told_trans; [|exact T3]. exact (told_lists (replies ac) L ac1 _ ac2 T2).
Qed.

(** A table that the calls of the program do not change. *)
Definition stable (table : redisAsyncContext → option cbdict) : Prop :=
  ∀ ac cs ac', told ac cs ac' → table ac' = table ac.

Lemma channels_stable : stable channels.
Proof. intros ac cs ac' [F _ _ _ _]. by injection F. Qed.
Lemma patterns_stable : stable patterns.
Proof. intros ac cs ac' [F _ _ _ _]. by injection F. Qed.

Lemma run_all_ok d table ht : stable table → Dict.size ht = zlen (Dict.table ht) → Dict.size ht < 2 ^ 31 → ∀ l it fuel ac,
  ending ac → bit ac 4 = false → table ac = Some ht → DictSpec.remaining ht it = l →
  -1 ≤ Dict.index it < Z.max 0 (Dict.size ht) → (length l < fuel)%nat →
  ∃ ac', run_all (act (S d)) fuel table it ac = Ok ac' ∧ told ac (nulls l.*2) ac'.
Proof.
  intros Hst Hs Hb. induction l as [|[k cb] l IH]; intros it fuel ac He H4 Ht Hrem Hi Hf;
    (destruct fuel as [|fuel]; [simpl in Hf; lia|]); cbn [run_all]; rewrite Ht; cbn [nn]; rbind; unfold Dict.dictNext;
    pose proof (DictSpec.next_loop_spec ht Hs Hb (length (Dict.table ht) + 3) it Hi) as P; rewrite Hrem in P;
    (assert (DictSpec.rounds ht it ≤ Z.of_nat (length (Dict.table ht) + 3)) as Hr
      by (unfold DictSpec.rounds, zlen; destruct (Dict.entry it); lia)).
  - destruct (P Hr) as (it' & ->). rbind. exists ac. split; [done|apply told_refl].
  - destruct (P Hr) as (it' & -> & Hrest & Hi'). rbind. destruct (run_null d ac cb He H4) as (ac1 & -> & T1). rbind.
    destruct (IH it' fuel ac1) as (ac2 & E & T2);
      [by eapply told_ending|by rewrite (t_bits _ _ _ T1)|by rewrite (Hst _ _ _ T1)|done|lia|simpl in Hf; lia|].
    exists ac2. split; [done|]. rewrite fmap_cons, (nulls_app [cb] l.*2 : nulls (((k, cb) : bytes * redisCallback).2 :: l.*2) = _).
    by eapply told_trans.
Qed.

#[global] Instance callbackDict_laws : DictSpec.dictLaws (K := bytes) (V := redisCallback).
Proof.
  split; [|done]. intros a b. cbn. destruct (Z.eqb_spec (zlen a) (zlen b)) as [E|E]; cbn [andb].
  - assert (length a = length b) as El by (unfold zlen in E; lia). case_bool_decide as Hab.
    + by apply Z.eqb_eq, memcmp_eq.
    + apply Z.eqb_neq. by intros ?%memcmp_eq.
  - rewrite bool_decide_eq_false_2; [done|congruence].
Qed.

(** All entries of a table are told. *)
Lemma run_table d table ht m ac :
  stable table → ending ac → bit ac 4 = false → table ac = Some ht → DictSpec.repr ht m → Dict.size ht < 2 ^ 31 →
  ∃ l ac', run_all (act (S d)) (S (Z.to_nat (Dict.used ht))) table Dict.dictGetIterator ac = Ok ac' ∧
    l ≡ₚ map_to_list m ∧ told ac (nulls l.*2) ac'.
Proof.
  intros Hst He H4 Ht [Hwf Hm] Hb.
  assert (Dict.size ht = zlen (Dict.table ht)) as Hs.
  { destruct (DictSpec.wf_shape _ Hwf) as [[-> ->]|(k & Hk & Hn & _ & Hl & _)]; [done|]. unfold zlen.
    assert (0 < 2 ^ k) by (apply Z.pow_pos_nonneg; lia). lia. }
  destruct (run_all_ok d table ht Hst Hs Hb (DictSpec.entries ht) Dict.dictGetIterator (S (Z.to_nat (Dict.used ht))) ac)
    as (ac' & E & T); try done; [cbn; lia| |].
  { rewrite (DictSpec.wf_used _ Hwf), to_nat_zlen. lia. }
  exists (DictSpec.entries ht), ac'. split; [done|]. split; [|done]. rewrite <- Hm. symmetry. apply map_to_list_to_map, Hwf.
Qed.
(** ** The end of a context *)

(** What a context holds: the callbacks of its commands, of commands sent
    while subscribed, and of its channels and patterns. *)
Record holding (ac : redisAsyncContext) (q qi : list redisCallback) (mc mp : gmap bytes redisCallback) : Prop := {
  h_live : ac_live ac = true;
  h_outside : bit ac 4 = false;
  h_ev : ev_alive ac;
  h_replies : queue (replies ac) q;
  h_invalid : queue (invalid ac) qi;
  h_channels : ∃ ht, channels ac = Some ht ∧ DictSpec.repr ht mc ∧ Dict.size ht < 2 ^ 31;
  h_patterns : ∃ ht, patterns ac = Some ht ∧ DictSpec.repr ht mp ∧ Dict.size ht < 2 ^ 31
}.

(** The callback on disconnecting, and the status it gets. *)
Definition farewell (ac : redisAsyncContext) (st : Z) : list (Z * Z) :=
  match onDisconnect ac with Some f => if bit ac 1 then [(f, st)] else [] | None => [] end.

(** Who is told, and that the context is gone: the status says whether the
    program asked for it. *)
Definition all_told (ac : redisAsyncContext) (q qi : list redisCallback) (mc mp : gmap bytes redisCallback)
    (ac' : redisAsyncContext) : Prop :=
  ac_live ac' = false ∧
  (∃ lc lp, lc ≡ₚ map_to_list mc ∧ lp ≡ₚ map_to_list mp ∧
     calls_of (alog ac') = calls_of (alog ac) ++ nulls (q ++ qi ++ lc.*2 ++ lp.*2)) ∧
  disconnects_of (alog ac') =
    disconnects_of (alog ac) ++ farewell ac (if bit ac' 3 || (ac_err ac =? 0) then REDIS_OK else REDIS_ERR).

Lemma told_subs c p ac cs ac' : told ac cs ac' → told (set_subs c p ac) cs (set_subs c p ac').
Proof. intros [F B E C D]. constructor; try done. injection F as F1 F2 F3 F4 F5 F6 F7 F8 F9 F10. unfold frame. cbn. congruence. Qed.

(** The calls of the callback on disconnecting. *)
Lemma tell_disconnect d ac f st :
  ending ac → ∃ ac', tell (act (S d)) (OnDisconnect f st) ac = Ok ac' ∧ ac_live ac' = true ∧ bit ac' 3 = bit ac 3 ∧
    calls_of (alog ac') = calls_of (alog ac) ∧ disconnects_of (alog ac') = disconnects_of (alog ac) ++ [(f, st)].
Proof.
  intros He. unfold tell. cbn [act]. set (ac1 := add_log (OnDisconnect f st) ac).
  destruct (commands_rejected (act d) (client (alog ac1)) ac1) as (ac2 & -> & [F _ _ C D] & Ef); [exact He| |].
  { destruct (client_harmless (alog ac1)) as [_ Hc]. unfold ac1 in *. cbn [alog add_log] in *. by rewrite last_snoc in Hc. }
  injection F as _ _ _ _ _ _ _ _ _ Fl. exists ac2. split; [done|]. split; [rewrite Fl; apply He|].
  split; [unfold bit; by rewrite Ef|].
  rewrite C, D, app_nil_r. unfold ac1. cbn [alog add_log]. rewrite calls_app, disconnects_app. split; [|done]. cbn. by rewrite app_nil_r.
Qed.

(** The last steps of [asyncFree]: the event library is left, and the
    program is told. *)
Lemma farewell_ok d ac :
  ending ac → ev_alive ac →
  ∃ ac', (ac ← EL Cleanup ac;
          ac ← match onDisconnect ac with
               | Some f =>
                   if flag ac REDIS_CONNECTED then
                     tell (act (S d)) (OnDisconnect f (if flag ac REDIS_FREEING then REDIS_OK
                                           else if ac_err ac =? 0 then REDIS_OK else REDIS_ERR)) ac
                   else Ok ac
               | None => Ok ac
               end;
          _ ← use ac; Ok (set_live false ac)) = Ok ac' ∧
    ac_live ac' = false ∧ bit ac' 3 = bit ac 3 ∧ calls_of (alog ac') = calls_of (alog ac) ∧
    disconnects_of (alog ac') =
      disconnects_of (alog ac) ++ farewell ac (if bit ac 3 || (ac_err ac =? 0) then REDIS_OK else REDIS_ERR).
Proof.
  intros He Hev. rewrite EL_ok by done. rbind. set (ac1 := set_ev _ ac). assert (ending ac1) as He1 by exact He.
  unfold farewell. change (onDisconnect ac1) with (onDisconnect ac). destruct (onDisconnect ac) as [f|].
  2:{ rbind. unfold use. rewrite (proj1 He1). rbind. eexists. split; [done|]. cbn. rewrite app_nil_r. by split_and!. }
  change REDIS_CONNECTED with (2 ^ 1). change REDIS_FREEING with (2 ^ 3). rewrite !flag_bit by done.
  change (bit ac1 1) with (bit ac 1). change (bit ac1 3) with (bit ac 3). change (ac_err ac1) with (ac_err ac).
  destruct (bit ac 1).
  2:{ rbind. unfold use. rewrite (proj1 He1). rbind. eexists. split; [done|]. cbn. rewrite app_nil_r. by split_and!. }
  assert (∀ st, (if bit ac 3 then REDIS_OK else if ac_err ac =? 0 then REDIS_OK else REDIS_ERR) = st →
    (if bit ac 3 || (ac_err ac =? 0) then REDIS_OK else REDIS_ERR) = st) as Hst by (intros st; by destruct (bit ac 3)).
  rewrite (Hst _ eq_refl).
  destruct (tell_disconnect d ac1 f (if bit ac 3 then REDIS_OK else if ac_err ac =? 0 then REDIS_OK else REDIS_ERR) He1)
    as (ac2 & -> & Hl & Hb & Hc & Hd). rbind. unfold use. rewrite Hl. rbind. eexists. split; [done|]. by split_and!.
Qed.

Lemma asyncFree_ok d ac q qi mc mp :
  holding ac q qi mc mp → ending ac → ∃ ac', asyncFree (act (S d)) ac = Ok ac' ∧ all_told ac q qi mc mp ac' ∧
    (bit ac 3 = true → bit ac' 3 = true).
Proof.
  intros [_ H4 Hev Hq Hqi (hc & Ec & Hrc & Hsc) (hp & Ep & Hrp & Hsp)] He.
  unfold asyncFree. rewrite (use_live ac (proj1 He)). rbind.
  destruct (drain_replies_ok d q (S (base.size (cells (replies ac)))) ac He H4 Hq) as (L1 & ac1 & -> & T1);
    [rewrite (queue_size _ _ Hq); lia|]. rbind.
  pose proof (t_frame _ _ _ T1) as F. injection F as _ _ _ _ _ _ Fi Fc Fp _.
  destruct (drain_invalid_ok d qi (S (base.size (cells (invalid ac1)))) ac1) as (L2 & ac2 & -> & T2);
    [by eapply told_ending|by rewrite (t_bits _ _ _ T1)|by rewrite Fi|rewrite Fi, (queue_size _ _ Hqi); lia|]. rbind.
  pose proof (told_trans _ _ _ _ _ (told_lists (replies ac1) L2 _ _ _ T1) T2) as T12.
  pose proof (t_frame _ _ _ T12) as F. injection F as _ _ _ _ _ _ _ Fc2 Fp2 _. cbn in Fc2, Fp2.
  rewrite Fc2, Ec. cbn [nn]. rbind.
  destruct (run_table d channels hc mc ac2) as (lc & ac3 & -> & Hlc & T3);
    [apply channels_stable|by eapply told_ending|by rewrite (t_bits _ _ _ T12)|congruence|done|done|]. rbind.
  pose proof (told_trans _ _ _ _ _ T12 T3) as T13. set (ac3' := set_subs None (patterns ac3) ac3).
  pose proof (t_frame _ _ _ T13) as F. injection F as _ _ _ _ _ _ _ _ Fp3 _. cbn in Fp3.
  change (patterns ac3') with (patterns ac3). rewrite Fp3, Ep. cbn [nn]. rbind.
  destruct (run_table d patterns hp mp ac3') as (lp & ac4 & -> & Hlp & T4);
    [apply patterns_stable|exact (told_ending _ _ _ T13 He)| |change (patterns ac3') with (patterns ac3); congruence|done|done|].
  { change (bit ac3' 4) with (bit ac3 4). by rewrite (t_bits _ _ _ T13). }
  rbind. pose proof (told_trans _ _ _ _ _ (told_subs None (patterns ac3) _ _ _ T13) T4) as T14.
  set (ac5 := set_subs (channels ac4) None ac4).
  pose proof (t_frame _ _ _ T14) as F. injection F as _ Fe Fv _ Fd _ _ _ _ _. cbn in Fe, Fv, Fd.
  destruct (farewell_ok d ac5) as (ac' & -> & Hl' & Hb' & Hc' & Hd');
    [exact (told_ending _ _ _ T14 He)|intros e E; apply Hev; change (ac_ev ac5) with (ac_ev ac4) in E; congruence|].
  exists ac'. split; [done|]. split; [split; [done|split]|].
  - exists lc, lp. split; [done|]. split; [done|]. rewrite Hc'. change (alog ac5) with (alog ac4).
    rewrite (t_calls _ _ _ T14). cbn [alog set_subs set_lists]. by rewrite !nulls_app, <- !app_assoc.
  - rewrite Hd', Hb'. change (alog ac5) with (alog ac4). rewrite (t_disconnects _ _ _ T14). cbn [alog set_subs set_lists].
    f_equal. unfold farewell. change (onDisconnect ac5) with (onDisconnect ac4). change (ac_err ac5) with (ac_err ac4).
    change (bit ac5 1) with (bit ac4 1). rewrite Fd, Fe. rewrite (t_bits _ _ _ T14) by done. done.
  - intros H3. rewrite Hb'. by apply (t_ends _ _ _ T14).
Qed.

(** What ends a context: a call of [redisAsyncFree], or the end of the
    stream on a connected context without an error. *)
Inductive ends (ac : redisAsyncContext) : input → Z → Prop :=
  | ends_free : ends ac (Call Free) REDIS_OK
  | ends_eof so : bit ac 1 = true → cerr (ac_c ac) = 0 → ends ac (Readable so (RdData [])) REDIS_ERR.

End ending.

(** ** Examples *)

#[local] Existing Instance calloc_all.
#[local] Existing Instance sample_client.
#[local] Instance libc_none : Libc := {| printf_conv fmt ap := []; strerror e := str "error" |}.

Lemma no_subs_repr : DictSpec.repr no_subs ∅.
Proof. split; [|done]. split; [by left|constructor|done]. Qed.

Lemma sample_harmless : harmless_client.
Proof.
  intros h. unfold client, sample_client. destruct (last h) as [[f pd rep hp| | |]|]; try by split.
  destruct f as [|f|f]; try by split. destruct f; try by split. split; [|done]. apply Forall_singleton. left.
  exists [str "get"; str "x"]. split; [|vm_compute; reflexivity]. split; [reflexivity|].
  repeat constructor; by apply (bool_decide_eq_true _).
Qed.

