(* ===== verification/AsyncSub.v ===== *)
(** * Subscriptions of the asynchronous client (theorems about Async.v)

    (P)SUBSCRIBE registers its callback for every channel or pattern it
    names, a message selects the callback of its channel or pattern, and the
    answer to an unsubscription removes it. *)

From S2P Require Import Prelude Cstd Cmem Sds SdsSpec Read ReadSpec ReadValue Redis RedisSpec Hiredis.
From S2P Require Import HiredisSpec Dict DictSpec Async AsyncCommand AsyncFree.
Import Sds Read Hiredis Async.

(** ** Elements of a reply *)

Lemma laid_all_at h vs l i v :
  laid_all h vs l → vs !! i = Some v → ∃ k, places vs l !! i = Some k ∧ laid h v k.
Proof.
  revert l i. induction vs as [|w vs IH]; intros l [|i] Hl Hi; try done; destruct Hl as [Hw Hl].
  - injection Hi as ->. by exists l.
  - apply (IH (l + size w) i); done.
Qed.

Lemma element_ok h vs l i v :
  laid h (VArr vs) l → vs !! i = Some v →
  ∃ k, element h (root_obj (VArr vs) l) (Z.of_nat i) = Ok (root_obj v k) ∧ laid h v k.
Proof.
  intros [_ Hl]%laid_eq Hi. destruct (laid_all_at h vs (l + 1) i v Hl Hi) as (k & Hk & Hv). exists k. split; [|done].
  unfold element. cbn [root_obj relement array_obj].
  assert ((map Some (places vs (l + 1)) : list (option loc)) !! i = Some (Some k)) as Hm by (rewrite list_lookup_fmap; by rewrite Hk).
  destruct (map Some (places vs (l + 1))) as [|e es] eqn:Ees; [done|]. cbn [nn]. rbind. unfold vec_at.
  apply lookup_lt_Some in Hm as Hlt.
  rewrite (proj2 (Z.leb_le 0 _)), (proj2 (Z.ltb_lt _ _)) by (unfold zlen; lia). cbn [andb]. rewrite Nat2Z.id, Hm. rbind. cbn [nn]. rbind.
  apply laid_eq in Hv as [-> _]. done.
Qed.

Lemma strncaseeq_cons x a y b n :
  strncaseeq (x :: a) (y :: b) (S n) =
    if negb (tolower x =? tolower y) then Ok false else if x =? 0 then Ok true else strncaseeq a b n.
Proof. done. Qed.

Lemma tolower_0 x : tolower x = 0 → x = 0.
Proof.
  unfold tolower. destruct ((65 <=? x) && (x <=? 90)) eqn:E; [|done].
  apply andb_true_iff in E as [E1%Z.leb_le E2%Z.leb_le]. lia.
Qed.

Lemma strncaseeq_end w lit :
  Forall (λ c, c ≠ 0) w → literal lit → strncaseeq (w ++ [0]) (lit ++ [0]) (S (length lit)) = Ok (bool_decide (map tolower w = lit)).
Proof.
  intros Hw Hlit. revert w Hw. induction Hlit as [|y lit (H0 & Hy & Hcr) _ IH]; intros w Hw.
  - destruct Hw as [|x w Hx _]; cbn [app length]; rewrite strncaseeq_cons; change (tolower 0) with 0; [by rewrite bool_decide_eq_true_2|].
    rewrite (proj2 (Z.eqb_neq (tolower x) 0)) by (by intros ?%tolower_0). by rewrite bool_decide_eq_false_2.
  - destruct Hw as [|x w Hx Hw]; cbn [app length]; rewrite strncaseeq_cons, Hy.
    + change (tolower 0) with 0. rewrite (proj2 (Z.eqb_neq 0 y)) by congruence. by rewrite bool_decide_eq_false_2.
    + cbn [map]. destruct (Z.eqb_spec (tolower x) y) as [E|E]; cbn [negb].
      * rewrite (proj2 (Z.eqb_neq x 0)), IH by done. f_equal. apply bool_decide_ext. rewrite E. split; [by intros ->|congruence].
      * rewrite bool_decide_eq_false_2; [done|congruence].
Qed.

Section subscriptions.
Context `{Malloc} `{Libc} `{Client}.
Hypothesis granted : ∀ n, malloc_ok n = true.

Lemma sname_ok v y : zlen v < LIMIT → sname (v ++ y) (zlen v) = Ok v.
Proof.
  intros Hv. unfold sname. pose proof (zlen_nonneg v).
  assert (sdsnewlen (Some (v ++ y)) (zlen v) = sdsnewlen (Some v) (zlen v)) as ->
    by (unfold sdsnewlen; by rewrite memcpy_src by lia).
  destruct (returns_granted granted _ _ (sdsnewlen_repr v (zlen v) eq_refl Hv)) as (s & -> & Hs). rbind. cbn [nn]. rbind.
  destruct (repr_bounds s v Hs) as (-> & _). destruct Hs as (sp & -> & _). by apply slice_prefix.
Qed.

(** ** Subscribing *)

Definition subscribed (m : gmap bytes redisCallback) (names : list bytes) (cb : redisCallback) : gmap bytes redisCallback :=
  foldl (λ m k, <[k := cb]> m) m names.

Lemma subscribe_loop_ok names cb z : ∀ p fuel d m,
  zlen (p ++ bulks names ++ 0 :: z) < LIMIT → (length names < fuel)%nat → DictSpec.repr d m →
  Z.of_nat (length (map_to_list m)) + zlen names < 2 ^ 30 →
  ∃ d', subscribe_loop fuel (p ++ bulks names ++ 0 :: z) (zlen p) cb d = Ok d' ∧ DictSpec.repr d' (subscribed m names cb).
Proof.
  induction names as [|v names IH]; intros p fuel d m Hlim Hf Hr Hc; (destruct fuel as [|fuel]; [simpl in Hf; lia|]); cbn [subscribe_loop].
  - change (bulks [] ++ 0 :: z) with (0 :: z). rewrite nextArgument_end. rbind. by exists d.
  - assert (bulks (v :: names) ++ 0 :: z = [] ++ bulk v ++ bulks names ++ 0 :: z) as Eb
      by (unfold bulks; rewrite fmap_cons; cbn [concat]; by rewrite <- app_assoc).
    rewrite Eb in *. unfold LIMIT in Hlim. rewrite nextArgument_bulk by (done || lia). rbind. change (zlen (@nil Z)) with 0.
    set (pre := p ++ str "$" ++ udec (zlen v) ++ crlf).
    assert (p ++ [] ++ bulk v ++ bulks names ++ 0 :: z = pre ++ v ++ crlf ++ bulks names ++ 0 :: z) as Ep
      by (unfold pre, bulk; cbn [app]; by rewrite <- !app_assoc).
    assert (from (p ++ [] ++ bulk v ++ bulks names ++ 0 :: z) (arg_at (zlen p + 0) v) = Ok (v ++ crlf ++ bulks names ++ 0 :: z)) as ->.
    { rewrite Ep. apply from_app. unfold arg_at, pre. rewrite !zlen_app. change (zlen crlf) with 2. change (zlen (str "$")) with 1. lia. }
    rbind. pose proof (zlen_nonneg v) as Hv0. rewrite !zlen_app in Hlim. pose proof (zlen_nonneg p). pose proof (zlen_nonneg (0 :: z)).
    pose proof (zlen_nonneg (bulks names)). pose proof (zlen_bulk_ge v). change (zlen (@nil Z)) with 0 in Hlim.
    rewrite sname_ok by (unfold LIMIT; lia). rbind. rewrite zlen_cons in Hc. pose proof (zlen_nonneg names).
    pose proof (DictSpec.repr_count d m Hr) as Hcount.
    destruct (DictSpec.dictReplace_spec granted d m v cb Hr ltac:(lia)) as (d1 & -> & Hr1). rbind.
    assert (p ++ [] ++ bulk v ++ bulks names ++ 0 :: z = (p ++ bulk v) ++ bulks names ++ 0 :: z) as -> by (by rewrite <- app_assoc).
    change (p ++ [] ++ bulk v) with (p ++ bulk v).
    apply (IH (p ++ bulk v) fuel d1); [rewrite !zlen_app; unfold LIMIT; lia|simpl in Hf; lia|done|].
    pose proof (DictSpec.insert_count m v cb). cbn [Dict.valDup callbackDict]. lia.
Qed.
(** The table of channels, or of patterns. *)
Definition table (pv : bool) (ac : redisAsyncContext) : option cbdict := if pv then patterns ac else channels ac.
Definition with_table (pv : bool) (d : cbdict) (ac : redisAsyncContext) : redisAsyncContext :=
  if pv then set_subs (channels ac) (Some d) ac else set_subs (Some d) (patterns ac) ac.

Lemma asyncCommand_subscribe ac f pd c names z o d m :
  accepts ac → ev_alive ac → SdsSpec.repr (obuf (ac_c ac)) o → Forall (λ x, x ≠ CR) c → command_word c = str "subscribe" →
  names ≠ [] → table (pvariant c) ac = Some d → DictSpec.repr d m →
  Z.of_nat (length (map_to_list m)) + zlen names < 2 ^ 30 →
  zlen o + zlen (resp (c :: names)) < LIMIT → zlen (resp (c :: names) ++ 0 :: z) < LIMIT →
  ∃ d' o', DictSpec.repr d' (subscribed m names {| fn := f; privdata := pd |}) ∧ SdsSpec.repr o' (o ++ resp (c :: names)) ∧
    asyncCommand ac f pd (resp (c :: names) ++ 0 :: z) (zlen (resp (c :: names))) =
      Ok (REDIS_OK, with_command (with_table (pvariant c) d' (flag_on REDIS_SUBSCRIBED ac)) o').
Proof.
  intros Hacc He Ho Hcr Hw Hne Ht Hr Hc Hlim Hblk. unfold asyncCommand. rewrite Hacc.
  destruct (command_parts c names z) as (pre & Ec & Ea); [unfold LIMIT in Hblk; lia|].
  rewrite Ea. rbind. pose proof (command_loads pre c names z) as Hp. cbv zeta in Hp.
  destruct Hp as ((x1 & E1 & Hx1) & x2 & E2 & Hpv & E3). rewrite <- Ec in E1, E2, E3.
  rewrite E1. rbind. rewrite E2. rbind. rewrite Hpv, E3. rbind. rewrite Hx1, bool_decide_eq_false_2 by done. cbn [negb].
  pose proof (strncaseeq_word (base_name c) (str "subscribe") (bulks names ++ 0 :: z) (base_name_plain c Hcr) (proj1 literals)) as W1.
  change (length (str "subscribe") + 2)%nat with 11%nat in W1. rewrite bool_decide_eq_true_2 in W1 by done. rewrite W1. rbind.
  set (cb := {| fn := f; privdata := pd |}).
  assert (∃ d', subscribe_loop (S (length (resp (c :: names) ++ 0 :: z))) (resp (c :: names) ++ 0 :: z) (zlen (pre ++ c ++ crlf)) cb d = Ok d' ∧
    DictSpec.repr d' (subscribed m names cb)) as (d' & El & Hd').
  { assert (resp (c :: names) ++ 0 :: z = (pre ++ c ++ crlf) ++ bulks names ++ 0 :: z) as E by (rewrite Ec; by rewrite <- !app_assoc).
    rewrite E in *. apply (subscribe_loop_ok names cb z _ _ d m); try done.
    pose proof (bulks_count names). rewrite !length_app. unfold zlen in *. lia. }
  assert (∀ ac1, ev_alive ac1 → obuf (ac_c ac1) = obuf (ac_c ac) → ∃ o', SdsSpec.repr o' (o ++ resp (c :: names)) ∧
    ('(_, c0) ← redisAppendFormattedCommand (ac_c ac1) (resp (c :: names) ++ 0 :: z) (zlen (resp (c :: names)));
     ac ← EL AddWrite (set_c c0 ac1); Ok (REDIS_OK, ac)) = Ok (REDIS_OK, with_command ac1 o')) as Happ.
  { intros ac1 He1 Eo. apply (append_ok granted); try done. by rewrite Eo. }
  unfold table in Ht. destruct (pvariant c).
  - change (patterns (flag_on REDIS_SUBSCRIBED ac)) with (patterns ac). rewrite Ht. cbn [nn]. rbind. rewrite El. rbind.
    destruct (Happ (with_table true d' (flag_on REDIS_SUBSCRIBED ac))) as (o' & Ho' & Eo); try done. exists d', o'. by split_and!.
  - change (channels (flag_on REDIS_SUBSCRIBED ac)) with (channels ac). rewrite Ht. cbn [nn]. rbind. rewrite El. rbind.
    destruct (Happ (with_table false d' (flag_on REDIS_SUBSCRIBED ac))) as (o' & Ho' & Eo); try done. exists d', o'. by split_and!.
Qed.

(** ** Messages *)

Definition is_unsubscribe (kind : bytes) : bool := bool_decide (command_word kind = str "unsubscribe").

Definition is_zero (w : rval) : bool := match w with VInt n => n =? 0 | _ => false end.

Lemma with_same pv d ac : table pv ac = Some d → with_table pv d ac = ac.
Proof. unfold with_table, table. by destruct pv, ac; cbn; intros ->. Qed.

(** The kind of a message, as [redisGetSubscribeCallback] looks at it. *)
Lemma kind_parts kind :
  ∃ x, load (kind ++ [0]) 0 = Ok x ∧ (tolower x =? 112) = pvariant kind ∧
    from (kind ++ [0]) (if pvariant kind then 1 else 0) = Ok (base_name kind ++ [0]).
Proof.
  destruct kind as [|x kind]; [by exists 0|]. exists x. split; [apply load_0|]. split; [done|]. unfold base_name.
  destruct (pvariant (x :: kind)); [by apply (from_app [x])|by apply (from_app [])].
Qed.

(** A message of a channel or pattern [ch]: the callback of [ch] if there is
    one, and else the one of the reply before. *)
Lemma message_selects F ac kind ch w cb0 l d m :
  queue (replies ac) [] → flag ac REDIS_SUBSCRIBED = true → Forall (λ c, c ≠ 0) kind → zlen ch < LIMIT →
  laid (rheap (reader (ac_c ac))) (VArr [VStr kind; VStr ch; w]) l →
  table (pvariant kind) ac = Some d → DictSpec.repr d m → Z.of_nat (length (map_to_list m)) < 2 ^ 30 →
  (is_unsubscribe kind = true → ∃ n, w = VInt n) →
  ∃ L ac' d', select_callback F ac cb0 l = Ok (Some (default cb0 (m !! ch)), ac') ∧
    DictSpec.repr d' (if is_unsubscribe kind then delete ch m else m) ∧
    ac' = if is_unsubscribe kind && bool_decide (is_Some (m !! ch)) && is_zero w
          then flag_off REDIS_SUBSCRIBED (with_table (pvariant kind) d' (set_lists L (invalid ac) ac))
          else with_table (pvariant kind) d' (set_lists L (invalid ac) ac).
Proof.
  intros Hq Hsub Hk Hch Hl Ht Hr Hcnt Hw. exists (replies ac). unfold select_callback.
  destruct (shift_empty _ Hq) as [-> _]. rbind. set (ac1 := set_lists (replies ac) (invalid ac) ac).
  change (ac_c ac1) with (ac_c ac). change (flag ac1 REDIS_SUBSCRIBED) with (flag ac REDIS_SUBSCRIBED). rewrite Hsub. cbn [orb negb].
  set (h := rheap (reader (ac_c ac))) in *. pose proof Hl as [Hroot _]%laid_eq. rewrite Hroot. cbn [nn]. rbind.
  change (rtype (root_obj (VArr [VStr kind; VStr ch; w]) l) =? REDIS_REPLY_ERROR) with false. cbv iota.
  unfold redisGetSubscribeCallback. change (rheap (reader (ac_c ac1))) with h. rewrite Hroot. cbn [nn]. rbind.
  change (rtype (root_obj (VArr [VStr kind; VStr ch; w]) l) =? REDIS_REPLY_ARRAY) with true. cbv iota.
  change (relements (root_obj (VArr [VStr kind; VStr ch; w]) l) <? 2) with false. cbv iota.
  destruct (element_ok h _ l 0 (VStr kind) Hl eq_refl) as (k0 & E0 & _). change (Z.of_nat 0) with 0 in E0. rewrite E0. rbind.
  destruct (element_ok h _ l 1 (VStr ch) Hl eq_refl) as (k1 & E1 & _). change (Z.of_nat 1) with 1 in E1.
  destruct (element_ok h _ l 2 w Hl eq_refl) as (k2 & E2 & _). change (Z.of_nat 2) with 2 in E2.
  set (rt := root_obj (VArr [VStr kind; VStr ch; w]) l) in *. clearbody rt.
  cbn [root_obj rtype string_obj rstr rslen]. change (negb (REDIS_REPLY_STRING =? REDIS_REPLY_STRING)) with false. cbv iota. cbn [nn]. rbind.
  destruct (kind_parts kind) as (x & -> & Hpv & Hfrom).
  rbind. rewrite Hpv. change (if pvariant kind then patterns ac1 else channels ac1) with (table (pvariant kind) ac). rewrite Ht.
  cbn [nn]. rbind. rewrite E1. rbind. cbn [root_obj rtype string_obj rstr rslen].
  change (negb (REDIS_REPLY_STRING =? REDIS_REPLY_STRING)) with false. cbv iota. cbn [nn]. rbind.
  rewrite sname_ok by done. rbind. rewrite (DictSpec.dictFind_spec d m ch Hr). rbind.
  assert (Forall (λ c, c ≠ 0) (base_name kind)) as Hb
    by (unfold base_name; destruct (pvariant kind), kind; try done; by apply Forall_cons in Hk as []).
  destruct (m !! ch) as [cb|] eqn:Ech; cbn [default].
  2:{ rbind. rewrite (bool_decide_eq_false_2 (is_Some None)), andb_false_r by (by intros []). cbn [andb].
      eexists _, d. split; [done|]. split; [|by rewrite with_same].
      destruct (is_unsubscribe kind); [|done]. by rewrite delete_id. }
  rewrite Hfrom. rbind. unfold strcaseeq. rewrite (strncaseeq_end _ (str "unsubscribe") Hb (proj1 (proj2 literals))). rbind.
  change (bool_decide (map tolower (base_name kind) = str "unsubscribe")) with (is_unsubscribe kind).
  rewrite (bool_decide_eq_true_2 (is_Some (Some cb))) by done. rewrite andb_true_r.
  destruct (is_unsubscribe kind); cbn [andb].
  - destruct (Hw eq_refl) as [n ->].
    destruct (DictSpec.dictDelete_spec d m ch Hr) as (d' & -> & Hr' & _); [by rewrite (DictSpec.repr_count d m Hr)|]. rbind.
    rewrite E2. rbind. cbn [root_obj rtype int_obj integer is_zero].
    change (negb (REDIS_REPLY_INTEGER =? REDIS_REPLY_INTEGER)) with false. cbv iota. rbind.
    eexists _, d'. split; [done|]. split; [done|]. unfold with_table. by destruct (pvariant kind).
  - rbind. eexists _, d. split; [done|]. split; [done|]. by rewrite with_same.
Qed.
Lemma subscribed_lookup names cb k : ∀ m, subscribed m names cb !! k = if bool_decide (k ∈ names) then Some cb else m !! k.
Proof.
  induction names as [|v names IH]; intros m; cbn; [by rewrite bool_decide_eq_false_2 by apply not_elem_of_nil|].
  unfold subscribed in IH. rewrite IH. destruct (decide (k ∈ names)) as [Hin|Hin].
  - rewrite !bool_decide_eq_true_2; [done|by right|done].
  - rewrite (bool_decide_eq_false_2 (k ∈ names)) by done. destruct (decide (k = v)) as [->|Hne].
    + rewrite lookup_insert_eq, bool_decide_eq_true_2; [done|by left].
    + rewrite lookup_insert_ne, bool_decide_eq_false_2; [done|by intros [?|?]%elem_of_cons|done].
Qed.

Lemma subscribed_count names cb : ∀ m,
  Z.of_nat (length (map_to_list (subscribed m names cb))) ≤ Z.of_nat (length (map_to_list m)) + zlen names.
Proof.
  induction names as [|v names IH]; intros m; cbn; [change (zlen []) with 0; lia|]. rewrite zlen_cons.
  unfold subscribed in IH. specialize (IH (<[v := cb]> m)). pose proof (DictSpec.insert_count m v cb). lia.
Qed.

Lemma name_short c names ch z : ch ∈ names → zlen (resp (c :: names) ++ 0 :: z) < LIMIT → zlen ch < LIMIT.
Proof.
  intros Hin. rewrite resp_bulks. unfold bulks. rewrite fmap_cons. cbn [concat]. rewrite !zlen_app.
  pose proof (zlen_nonneg (str "*")). pose proof (zlen_nonneg (udec (zlen (c :: names)))). pose proof (zlen_nonneg crlf).
  pose proof (zlen_nonneg (bulk c)). pose proof (zlen_nonneg (0 :: z)).
  assert (zlen ch ≤ zlen (concat (bulk <$> names))); [|lia]. clear -Hin. induction names as [|v names IH]; [by apply not_elem_of_nil in Hin|].
  rewrite fmap_cons. cbn [concat]. rewrite zlen_app. pose proof (zlen_bulk_ge v). pose proof (zlen_nonneg v).
  pose proof (zlen_nonneg (concat (bulk <$> names))). apply elem_of_cons in Hin as [->|Hin]; [lia|]. specialize (IH Hin). lia.
Qed.

End subscriptions.

(** ** Examples *)

#[local] Existing Instance calloc_all.
#[local] Instance libc_plain : Libc := {| printf_conv fmt ap := []; strerror e := str "error" |}.


(** ** What the code does not mean *)

(** A context that a connect function made, attached to the event library. *)
Definition new_context : result redisAsyncContext :=
  o ← redisConnectFd 5;
  c ← nn o;
  o ← redisAsyncConnect (Some (set_cflags 0 c));
  ac ← nn o;
  Ok (redisLibeventAttach ac).2.

(** The calls of a program on a new context: the function, and the first
    string of the reply. *)
Definition history (program : list event → list action) (ins : list input) : result (list (Z * option bytes)) :=
  ac ← new_context;
  ac ← @run calloc_all libc_plain program ac ins;
  Ok (omap (λ e, match e with
                 | Called f _ r h => Some (f, l ← r; o ← h !! l; rstr o)
                 | OnConnect f st | OnDisconnect f st => Some (f, None)
                 | Returned _ => None
                 end) (alog ac)).

Definition command (f : Z) (args : list bytes) : input := Call (CommandArgv (Some f) 0 args (Some (map zlen args))).
Definition receive (b : bytes) : input := Readable (SoError 0) (RdData b).
Definition message (kind ch text : bytes) : bytes := enc (VArr [VStr kind; VStr ch; VStr text]).

(** In monitor mode the callback is queued again whenever a read ends, also when the read ended
    within a reply and no callback was taken from the queue: then an empty callback is queued, and
    a later reply is dropped. *)
Theorem monitor_drops_reply :
  history (λ _, []) [command 1 [str "MONITOR"]; Writable (SoError 0) (WrOk 17); receive (str "+OK" ++ crlf);
                     receive (str "+1" ++ crlf); receive (str "+2" ++ crlf)] =
    Ok [(1, Some (str "OK" ++ [0])); (1, Some (str "1" ++ [0])); (1, Some (str "2" ++ [0]))] ∧
  history (λ _, []) [command 1 [str "MONITOR"]; Writable (SoError 0) (WrOk 17); receive (str "+O"); receive (str "K" ++ crlf);
                     receive (str "+1" ++ crlf); receive (str "+2" ++ crlf)] =
    Ok [(1, Some (str "OK" ++ [0])); (1, Some (str "2" ++ [0]))].
Proof. split; vm_compute; reflexivity. Qed.

(** A message of a channel without a callback goes to the callback of the reply before it, when
    both arrive with one read. *)
Theorem stale_callback_gets_message :
  history (λ _, []) [command 1 [str "SUBSCRIBE"; str "a"]; command 2 [str "SUBSCRIBE"; str "b"];
                     receive (message (str "message") (str "b") (str "x") ++ message (str "message") (str "c") (str "y"))] =
    Ok [(2, None); (2, None)] ∧
  history (λ _, []) [command 1 [str "SUBSCRIBE"; str "a"]; command 2 [str "SUBSCRIBE"; str "b"];
                     receive (message (str "message") (str "b") (str "x"));
                     receive (message (str "message") (str "c") (str "y"))] = Ok [(2, None)].
Proof. split; vm_compute; reflexivity. Qed.

(** The callbacks on connecting and disconnecting run without the flag that defers freeing: a
    program that frees the context in one of them makes the library use freed memory. *)
Theorem free_in_connection_callback_faults :
  history (λ h, match last h with Some (OnConnect _ _) => [Free] | _ => [] end)
    [Call (SetConnectCallback 7); Writable (SoError 0) (WrOk 0)] = Fault OutOfBounds ∧
  history (λ h, match last h with Some (OnDisconnect _ _) => [Free] | _ => [] end)
    [Call (SetDisconnectCallback 8); Writable (SoError 0) (WrOk 0); Call Free] = Fault OutOfBounds ∧
  history (λ h, match last h with Some (Called _ _ _ _) => [Free] | _ => [] end)
    [Call (SetDisconnectCallback 8); command 1 [str "PING"]; Writable (SoError 0) (WrOk 14); receive (str "+OK" ++ crlf)] =
    Ok [(1, Some (str "OK" ++ [0])); (8, None)].
Proof. split_and!; vm_compute; reflexivity. Qed.
