(* ===== verification/Coding.v ===== *)
(** * Encodings of LevelDB (pack/leveldb/util/coding.h, coding.cc)

    Integers of fixed width, integers of seven bits per byte, and slices
    behind their length. A pointer is the bytes from it to the end of its
    block; a decoder that takes a limit gets the number of bytes up to it, and
    a read behind the block is a fault. *)

From S2P Require Import Prelude Cstd Cmem.

(** ** Fixed width, lowest byte first *)

Definition EncodeFixed32 (value : Z) : bytes :=
  [u8 value; u8 (Z.shiftr value 8); u8 (Z.shiftr value 16); u8 (Z.shiftr value 24)].

Definition EncodeFixed64 (value : Z) : bytes :=
  [u8 value; u8 (Z.shiftr value 8); u8 (Z.shiftr value 16); u8 (Z.shiftr value 24);
   u8 (Z.shiftr value 32); u8 (Z.shiftr value 40); u8 (Z.shiftr value 48); u8 (Z.shiftr value 56)].

Definition PutFixed32 (dst : bytes) (value : Z) : bytes := dst ++ EncodeFixed32 value.
Definition PutFixed64 (dst : bytes) (value : Z) : bytes := dst ++ EncodeFixed64 value.

Definition DecodeFixed32 (ptr : bytes) : result Z :=
  b0 ← load ptr 0; b1 ← load ptr 1; b2 ← load ptr 2; b3 ← load ptr 3;
  Ok (Z.lor (Z.lor (Z.lor b0 (Z.shiftl b1 8)) (Z.shiftl b2 16)) (Z.shiftl b3 24)).

Definition DecodeFixed64 (ptr : bytes) : result Z :=
  lo ← DecodeFixed32 ptr;
  hi ← DecodeFixed32 (drop 4 ptr);
  Ok (Z.lor (Z.shiftl hi 32) lo).

(** ** Seven bits per byte *)

Definition EncodeVarint32 (v : Z) : bytes :=
  if v <? 2 ^ 7 then [u8 v]
  else if v <? 2 ^ 14 then [u8 (Z.lor v 128); u8 (Z.shiftr v 7)]
  else if v <? 2 ^ 21 then [u8 (Z.lor v 128); u8 (Z.lor (Z.shiftr v 7) 128); u8 (Z.shiftr v 14)]
  else if v <? 2 ^ 28 then
    [u8 (Z.lor v 128); u8 (Z.lor (Z.shiftr v 7) 128); u8 (Z.lor (Z.shiftr v 14) 128); u8 (Z.shiftr v 21)]
  else
    [u8 (Z.lor v 128); u8 (Z.lor (Z.shiftr v 7) 128); u8 (Z.lor (Z.shiftr v 14) 128); u8 (Z.lor (Z.shiftr v 21) 128);
     u8 (Z.shiftr v 28)].

Definition PutVarint32 (dst : bytes) (v : Z) : bytes := dst ++ EncodeVarint32 v.

(** The loops of [EncodeVarint64] and [VarintLength]: 64 bits are ten groups. *)
Fixpoint varint_groups (fuel : nat) (v : Z) : bytes :=
  match fuel with
  | O => [u8 v]
  | S fuel => if 128 <=? v then Z.lor (Z.land v 127) 128 :: varint_groups fuel (Z.shiftr v 7) else [u8 v]
  end.
Definition EncodeVarint64 (v : Z) : bytes := varint_groups 9 v.
Definition PutVarint64 (dst : bytes) (v : Z) : bytes := dst ++ EncodeVarint64 v.

Fixpoint varint_count (fuel : nat) (v len : Z) : Z :=
  match fuel with
  | O => len
  | S fuel => if 128 <=? v then varint_count fuel (Z.shiftr v 7) (len + 1) else len
  end.
Definition VarintLength (v : Z) : Z := varint_count 9 v 1.

(** The loop of the decoders: [w] cuts to the width of the result, [n] bytes
    are left before the limit. [None] is the NULL of a bad encoding. *)
Fixpoint varint_loop (w : Z → Z) (fuel : nat) (shift res n : Z) (p : bytes) : result (option (Z * bytes)) :=
  match fuel with
  | O => Ok None
  | S fuel =>
      if n <=? 0 then Ok None
      else
        byte ← load p 0;
        if negb (Z.land byte 128 =? 0)
        then varint_loop w fuel (shift + 7) (Z.lor res (w (Z.shiftl (Z.land byte 127) shift))) (n - 1) (drop 1 p)
        else Ok (Some (Z.lor res (w (Z.shiftl byte shift)), drop 1 p))
  end.

Definition GetVarint32PtrFallback (p : bytes) (n : Z) : result (option (Z * bytes)) := varint_loop u32 5 0 0 n p.

(** A one-byte encoding is recognised before the loop. *)
Definition GetVarint32Ptr (p : bytes) (n : Z) : result (option (Z * bytes)) :=
  if 0 <? n then
    b ← load p 0;
    if Z.land b 128 =? 0 then Ok (Some (b, drop 1 p)) else GetVarint32PtrFallback p n
  else GetVarint32PtrFallback p n.

Definition GetVarint64Ptr (p : bytes) (n : Z) : result (option (Z * bytes)) := varint_loop u64 10 0 0 n p.

(** On a slice the limit is its end. [None] is [false]. *)
Definition GetVarint32 (input : bytes) : result (option (Z * bytes)) := GetVarint32Ptr input (zlen input).
Definition GetVarint64 (input : bytes) : result (option (Z * bytes)) := GetVarint64Ptr input (zlen input).

(** ** Slices behind their length *)

Definition PutLengthPrefixedSlice (dst value : bytes) : bytes := PutVarint32 dst (u32 (zlen value)) ++ value.

(** The slice and the rest of the input. *)
Definition GetLengthPrefixedSlice (input : bytes) : result (option (bytes * bytes)) :=
  r ← GetVarint32 input;
  match r with
  | None => Ok None
  | Some (len, rest) =>
      if len <=? zlen rest then Ok (Some (take (Z.to_nat len) rest, drop (Z.to_nat len) rest)) else Ok None
  end.

(** ** Bits and digits *)

Lemma lor_add_shift r v s : 0 ≤ s → 0 ≤ r < 2 ^ s → Z.lor r (Z.shiftl v s) = r + v * 2 ^ s.
Proof.
  intros Hs Hr. rewrite <- Z.shiftl_mul_pow2 by done. symmetry. apply Z.add_nocarry_lor.
  apply Z.bits_inj'. intros i Hi. rewrite Z.land_spec, Z.bits_0.
  destruct (Z.lt_ge_cases i s); [rewrite Z.shiftl_spec_low by done; apply andb_false_r|].
  by rewrite (testbit_above r s i).
Qed.

Lemma shiftr_div v s : 0 ≤ s → Z.shiftr v s = v `div` 2 ^ s.
Proof. apply Z.shiftr_div_pow2. Qed.

(** The group of seven bits with the continuation bit. *)
Lemma group_byte v : Z.lor (Z.land v 127) 128 = v `mod` 128 + 128.
Proof.
  change 127 with (Z.ones 7). rewrite Z.land_ones by lia. change 128 with (Z.shiftl 1 7) at 1.
  rewrite lor_add_shift; [done|lia|apply Z.mod_pos_bound; lia].
Qed.
Lemma lor_group v : u8 (Z.lor v 128) = v `mod` 128 + 128.
Proof.
  rewrite <- group_byte. unfold u8. rewrite <- !Z.land_ones by lia. apply Z.bits_inj'. intros i Hi.
  change 127 with (Z.ones 7). change 128 with (2 ^ 7). rewrite !Z.land_spec, !Z.lor_spec, !Z.land_spec, Z.pow2_bits_eqb by lia.
  destruct (Z.lt_ge_cases i 8); [rewrite Z.ones_spec_low by lia|rewrite (Z.ones_spec_high 8) by lia].
  - destruct (Z.eqb_spec 7 i); [by rewrite !orb_true_r|]. rewrite Z.ones_spec_low by lia. by destruct (Z.testbit v i).
  - rewrite (Z.ones_spec_high 7) by lia. destruct (Z.eqb_spec 7 i); [lia|]. by destruct (Z.testbit v i).
Qed.

Lemma land_top b : is_byte b → (Z.land b 128 =? 0) = (b <? 128).
Proof.
  intros Hb. assert (Z.land b 128 = if b <? 128 then 0 else 128) as ->; [|by destruct (b <? 128)].
  apply Z.bits_inj'. intros i Hi. change 128 with (2 ^ 7) at 1. rewrite Z.land_spec, Z.pow2_bits_eqb by lia.
  destruct (Z.eqb_spec 7 i) as [<-|Hn]; [|rewrite andb_false_r].
  - rewrite andb_true_r, Z.testbit_eqb by lia. unfold is_byte in Hb. destruct (Z.ltb_spec b 128).
    + rewrite Z.div_small by lia. done.
    + replace (b `div` 2 ^ 7) with 1; [done|]. apply Z.div_unique with (b - 128); lia.
  - destruct (b <? 128); [by rewrite Z.bits_0|]. change 128 with (2 ^ 7). rewrite Z.pow2_bits_eqb by lia. lia.
Qed.

Lemma land_low b : Z.land b 127 = b `mod` 128.
Proof. change 127 with (Z.ones 7). by rewrite Z.land_ones. Qed.

(** ** Fixed width *)

Lemma DecodeFixed32_loads b0 b1 b2 b3 rest : DecodeFixed32 (b0 :: b1 :: b2 :: b3 :: rest) =
  Ok (Z.lor (Z.lor (Z.lor b0 (Z.shiftl b1 8)) (Z.shiftl b2 16)) (Z.shiftl b3 24)).
Proof.
  unfold DecodeFixed32. rewrite load_0, load_1. pose proof (load_app [b0; b1] b2 (b3 :: rest) 2 eq_refl) as E2.
  pose proof (load_app [b0; b1; b2] b3 rest 3 eq_refl) as E3. cbn [app] in E2, E3. by rewrite E2, E3.
Qed.

Lemma DecodeFixed32_bytes b0 b1 b2 b3 rest : is_byte b0 → is_byte b1 → is_byte b2 → is_byte b3 →
  DecodeFixed32 (b0 :: b1 :: b2 :: b3 :: rest) = Ok (b0 + b1 * 2 ^ 8 + b2 * 2 ^ 16 + b3 * 2 ^ 24).
Proof.
  unfold is_byte. intros H0 H1 H2 H3. rewrite DecodeFixed32_loads.
  by rewrite (lor_add_shift b0 b1 8), (lor_add_shift _ b2 16), (lor_add_shift _ b3 24) by lia.
Qed.

Lemma DecodeFixed32_short ptr : zlen ptr < 4 → DecodeFixed32 ptr = Fault OutOfBounds.
Proof. destruct ptr as [|? [|? [|? [|? ?]]]]; try done. unfold zlen. cbn. lia. Qed.

Lemma EncodeFixed32_length v : length (EncodeFixed32 v) = 4%nat.
Proof. done. Qed.
Lemma EncodeFixed64_length v : length (EncodeFixed64 v) = 8%nat.
Proof. done. Qed.

Lemma u8_byte v : is_byte (u8 v).
Proof. apply u8_range. Qed.

Lemma Fixed32_roundtrip v rest : 0 ≤ v < 2 ^ 32 → DecodeFixed32 (EncodeFixed32 v ++ rest) = Ok v.
Proof.
  intros Hv. cbn [app EncodeFixed32]. rewrite DecodeFixed32_bytes by apply u8_byte. unfold u8. rewrite !shiftr_div by lia.
  f_equal. Z.to_euclidean_division_equations. lia.
Qed.

Lemma Fixed64_halves v : EncodeFixed64 v = EncodeFixed32 v ++ EncodeFixed32 (Z.shiftr v 32).
Proof. unfold EncodeFixed64, EncodeFixed32. rewrite !Z.shiftr_shiftr by lia. done. Qed.

Lemma Fixed32_mod v rest : DecodeFixed32 (EncodeFixed32 v ++ rest) = Ok (u32 v).
Proof.
  cbn [app EncodeFixed32]. rewrite DecodeFixed32_bytes by apply u8_byte. unfold u8, u32. rewrite !shiftr_div by lia.
  f_equal. Z.to_euclidean_division_equations. lia.
Qed.

Lemma Fixed64_roundtrip v rest : 0 ≤ v < 2 ^ 64 → DecodeFixed64 (EncodeFixed64 v ++ rest) = Ok v.
Proof.
  intros Hv. unfold DecodeFixed64. rewrite Fixed64_halves, <- app_assoc, Fixed32_mod. rbind.
  rewrite drop_app_length', Fixed32_roundtrip by (rewrite ?shiftr_div by lia; done || (Z.to_euclidean_division_equations; lia)).
  rbind. rewrite Z.lor_comm, lor_add_shift by (apply u32_range || lia). rewrite shiftr_div by lia. unfold u32.
  f_equal. Z.to_euclidean_division_equations. lia.
Qed.

Lemma Fixed64_short ptr : zlen ptr < 8 → DecodeFixed64 ptr = Fault OutOfBounds.
Proof.
  intros Hp. unfold DecodeFixed64. destruct (Z.lt_ge_cases (zlen ptr) 4); [by rewrite (DecodeFixed32_short ptr)|].
  destruct ptr as [|b0 [|b1 [|b2 [|b3 ptr]]]]; try (exfalso; unfold zlen in *; cbn in *; lia). change (drop 4 (b0 :: b1 :: b2 :: b3 :: ptr)) with ptr.
  rewrite (DecodeFixed32_short ptr); [|rewrite !zlen_cons in Hp; lia]. by rewrite DecodeFixed32_loads.
Qed.

(** ** Seven bits per byte *)

(** The encoding of a number below [2 ^ (7 * (n + 1))]. *)
Lemma groups_enough n m v : 0 ≤ v < 2 ^ (7 * Z.of_nat (S n)) → (n ≤ m)%nat → varint_groups n v = varint_groups m v.
Proof.
  revert m v. induction n as [|n IH]; intros [|m] v Hv Hm; try done; try lia.
  - cbn [varint_groups]. destruct (Z.leb_spec 128 v); [lia|done].
  - cbn [varint_groups]. destruct (Z.leb_spec 128 v); [|done]. f_equal. apply IH; [|lia].
    rewrite shiftr_div by lia. change (2 ^ 7) with 128.
    assert (2 ^ (7 * Z.of_nat (S (S n))) = 128 * 2 ^ (7 * Z.of_nat (S n))) as E by (rewrite <- (Z.pow_add_r 2 7) by lia; f_equal; lia).
    rewrite E in Hv. split; [apply Z.div_pos; lia|]. apply Z.div_lt_upper_bound; lia.
Qed.

Lemma groups_step n v : 128 ≤ v → varint_groups (S n) v = (v `mod` 128 + 128) :: varint_groups n (Z.shiftr v 7).
Proof. intros Hv. cbn [varint_groups]. rewrite (proj2 (Z.leb_le _ _)) by done. by rewrite group_byte. Qed.

(** The unrolled encoder writes what the loop writes. *)
Lemma EncodeVarint32_groups v : 0 ≤ v < 2 ^ 32 → EncodeVarint32 v = varint_groups 9 v.
Proof.
  intros Hv. unfold EncodeVarint32. rewrite !lor_group.
  repeat match goal with |- context [v <? ?b] => destruct (Z.ltb_spec v b) end;
    [rewrite <- (groups_enough 0) by lia|rewrite <- (groups_enough 1) by lia|rewrite <- (groups_enough 2) by lia
    |rewrite <- (groups_enough 3) by lia|rewrite <- (groups_enough 4) by lia];
    repeat (rewrite groups_step by (rewrite ?Z.shiftr_shiftr, ?shiftr_div by lia; Z.to_euclidean_division_equations; lia));
    cbn [varint_groups]; rewrite ?Z.shiftr_shiftr by lia; done.
Qed.

Lemma varint_loop_groups w n : ∀ fuel v shift res lim rest,
  (n < fuel)%nat → 0 ≤ v < 2 ^ (7 * Z.of_nat (S n)) → 0 ≤ shift → 0 ≤ res < 2 ^ shift → zlen (varint_groups n v) ≤ lim →
  (∀ x, 0 ≤ x ≤ v * 2 ^ shift → w x = x) →
  varint_loop w fuel shift res lim (varint_groups n v ++ rest) = Ok (Some (res + v * 2 ^ shift, rest)).
Proof.
  induction n as [|n IH]; intros [|fuel] v shift res lim rest Hf Hv Hs Hr Hl Hw; try lia.
  - assert (v < 128) by (change (2 ^ (7 * Z.of_nat 1)) with 128 in Hv; lia). cbn [varint_groups app varint_loop] in *.
    rewrite u8_small in * by lia. destruct (Z.leb_spec lim 0); [by unfold zlen in Hl; cbn in Hl; lia|].
    rewrite load_0. rbind. rewrite land_top by (split; lia). rewrite (proj2 (Z.ltb_lt _ _)) by lia. cbn [negb drop]. rewrite ?drop_0.
    rewrite Hw by (rewrite Z.shiftl_mul_pow2 by done; pose proof (Z.pow_pos_nonneg 2 shift); nia). by rewrite lor_add_shift.
  - cbn [varint_groups varint_loop] in *. destruct (Z.leb_spec 128 v).
    + rewrite group_byte in *. cbn [app]. rewrite zlen_cons in Hl. pose proof (zlen_nonneg (varint_groups n (Z.shiftr v 7))).
      destruct (Z.leb_spec lim 0); [lia|]. pose proof (Z.mod_pos_bound v 128 ltac:(lia)). rewrite load_0. rbind.
      rewrite land_top by (split; lia). rewrite (proj2 (Z.ltb_ge _ _)) by lia. cbn [negb drop]. rewrite ?drop_0.
      rewrite land_low. assert ((v `mod` 128 + 128) `mod` 128 = v `mod` 128) as -> by (Z.to_euclidean_division_equations; lia).
      rewrite shiftr_div in * by lia. change (2 ^ 7) with 128 in *. pose proof (Z.pow_pos_nonneg 2 shift ltac:(lia) ltac:(lia)).
      pose proof (Z.div_mod v 128 ltac:(lia)) as Ed. pose proof (Z.div_pos v 128 ltac:(lia) ltac:(lia)).
      rewrite Hw by (rewrite Z.shiftl_mul_pow2 by done; nia). rewrite lor_add_shift by done.
      assert (2 ^ (shift + 7) = 128 * 2 ^ shift) as E7 by (rewrite Z.pow_add_r by lia; lia).
      rewrite IH; [rewrite E7; do 3 f_equal; nia|lia| |lia|rewrite E7; nia|lia|intros x Hx; apply Hw; rewrite E7 in Hx; nia].
      split; [done|]. apply Z.div_lt_upper_bound; [lia|]. rewrite <- (Z.pow_add_r 2 7) by lia. replace (7 + _) with (7 * Z.of_nat (S (S n))) by lia. lia.
    + cbn [app]. rewrite u8_small in * by lia. destruct (Z.leb_spec lim 0); [by unfold zlen in Hl; cbn in Hl; lia|].
      rewrite load_0. rbind. rewrite land_top by (split; lia). rewrite (proj2 (Z.ltb_lt _ _)) by lia. cbn [negb drop]. rewrite ?drop_0.
      rewrite Hw by (rewrite Z.shiftl_mul_pow2 by done; pose proof (Z.pow_pos_nonneg 2 shift); nia). by rewrite lor_add_shift.
Qed.

Lemma groups_length n v : (1 ≤ length (varint_groups n v) ≤ S n)%nat.
Proof. revert v. induction n as [|n IH]; intros v; cbn [varint_groups length]; [lia|]. destruct (128 <=? v); cbn [length]; [specialize (IH (Z.shiftr v 7))|]; lia. Qed.

Lemma VarintLength_groups v : VarintLength v = zlen (varint_groups 9 v).
Proof.
  unfold VarintLength. enough (∀ n v len, varint_count n v len = len - 1 + zlen (varint_groups n v)) as -> by lia.
  induction n as [|n IH]; intros u len; cbn [varint_count varint_groups]; [unfold zlen; cbn; lia|].
  destruct (128 <=? u); [rewrite IH, zlen_cons; lia|unfold zlen; cbn; lia].
Qed.

Lemma Varint32_length v : 0 ≤ v < 2 ^ 32 → 1 ≤ zlen (EncodeVarint32 v) ≤ 5.
Proof.
  intros Hv. rewrite EncodeVarint32_groups, <- (groups_enough 4) by lia. pose proof (groups_length 4 v). unfold zlen. lia.
Qed.

Lemma Varint32_loop_roundtrip v lim rest : 0 ≤ v < 2 ^ 32 → zlen (EncodeVarint32 v) ≤ lim →
  GetVarint32PtrFallback (EncodeVarint32 v ++ rest) lim = Ok (Some (v, rest)).
Proof.
  intros Hv. rewrite EncodeVarint32_groups, <- (groups_enough 4) by lia. intros Hl. unfold GetVarint32PtrFallback.
  rewrite varint_loop_groups; try lia; [do 3 f_equal; lia|]. intros x Hx. apply u32_small. lia.
Qed.

(** What is read is what was written, wherever the limit is behind it. *)
Lemma Varint32_roundtrip v lim rest : 0 ≤ v < 2 ^ 32 → zlen (EncodeVarint32 v) ≤ lim →
  GetVarint32Ptr (EncodeVarint32 v ++ rest) lim = Ok (Some (v, rest)).
Proof.
  intros Hv Hl. unfold GetVarint32Ptr. pose proof (Varint32_length v Hv). rewrite (proj2 (Z.ltb_lt _ _)) by lia.
  pose proof (Varint32_loop_roundtrip v lim rest Hv Hl) as Hloop. rewrite EncodeVarint32_groups in * by done.
  destruct (Z.leb_spec 128 v).
  - rewrite (groups_step 8) in * by done. cbn [app] in *. rewrite load_0. rbind. pose proof (Z.mod_pos_bound v 128 ltac:(lia)).
    rewrite land_top by (split; lia). by rewrite (proj2 (Z.ltb_ge _ _)) by lia.
  - rewrite <- (groups_enough 0) by lia. cbn [varint_groups app]. rewrite load_0. rbind. rewrite u8_small by lia.
    rewrite land_top by (split; lia). by rewrite (proj2 (Z.ltb_lt _ _)) by lia.
Qed.

Lemma Varint64_roundtrip v lim rest : 0 ≤ v < 2 ^ 64 → zlen (EncodeVarint64 v) ≤ lim →
  GetVarint64Ptr (EncodeVarint64 v ++ rest) lim = Ok (Some (v, rest)).
Proof.
  intros Hv Hl. unfold GetVarint64Ptr, EncodeVarint64. rewrite varint_loop_groups; try lia; [do 3 f_equal; lia|done|].
  intros x Hx. apply u64_small. lia.
Qed.

Lemma LengthPrefixed_roundtrip value rest : zlen value < 2 ^ 32 →
  GetLengthPrefixedSlice (PutLengthPrefixedSlice [] value ++ rest) = Ok (Some (value, rest)).
Proof.
  intros Hv. unfold GetLengthPrefixedSlice, GetVarint32, PutLengthPrefixedSlice, PutVarint32. cbn [app].
  rewrite u32_small by zlia. rewrite <- app_assoc. rewrite Varint32_roundtrip by zlia. rbind.
  rewrite (proj2 (Z.leb_le _ _)) by zlia. by rewrite to_nat_zlen, take_app_length, drop_app_length.
Qed.

(** The encodings are bytes. *)
Lemma varint32_bytes v : 0 ≤ v < 2 ^ 32 → Forall is_byte (EncodeVarint32 v).
Proof.
  intros Hv. rewrite EncodeVarint32_groups by done. generalize 9%nat. intros n. clear Hv. revert v.
  induction n as [|n IH]; intros v; cbn; [repeat constructor; apply u8_range|]. destruct (128 <=? v); [|repeat constructor; apply u8_range].
  constructor; [|apply IH]. rewrite group_byte. pose proof (Z.mod_pos_bound v 128). unfold is_byte. lia.
Qed.
Lemma varint64_bytes v : 0 ≤ v < 2 ^ 64 → Forall is_byte (EncodeVarint64 v).
Proof.
  unfold EncodeVarint64. generalize 9%nat. intros n. revert v. induction n as [|n IH]; intros v Hv; cbn [varint_groups]; [repeat constructor; apply u8_range|].
  destruct (128 <=? v); [|repeat constructor; apply u8_range]. constructor.
  - rewrite group_byte. pose proof (Z.mod_pos_bound v 128). unfold is_byte. lia.
  - apply IH. rewrite shiftr_div by lia. split; [apply Z.div_pos; lia|]. apply Z.div_lt_upper_bound; lia.
Qed.
Lemma fixed32_bytes v : Forall is_byte (EncodeFixed32 v).
Proof. unfold EncodeFixed32. repeat constructor; apply u8_range. Qed.
Lemma prefixed_bytes s : zlen s < 2 ^ 32 → Forall is_byte s → Forall is_byte (PutLengthPrefixedSlice [] s).
Proof.
  intros Hl Hs. unfold PutLengthPrefixedSlice, PutVarint32. cbn [app]. apply Forall_app. split; [|done]. apply varint32_bytes, u32_range.
Qed.
