(* ===== verification/Status.v ===== *)
(** * Statuses of LevelDB (pack/leveldb/include/leveldb/status.h,
    util/status.cc)

    A status is NULL for success, or a block with the length of the message,
    a code and the message. *)

From S2P Require Import Prelude Cstd Cmem Coding.

Definition Status := option bytes.
Definition sOK : Status := None.
Definition ok (s : Status) : bool := match s with None => true | Some _ => false end.

Definition kNotFound : Z := 1.
Definition kCorruption : Z := 2.
Definition kNotSupported : Z := 3.
Definition kInvalidArgument : Z := 4.
Definition kIOError : Z := 5.

(** [Status(code, msg, msg2)]. *)
Definition Status_new (code : Z) (msg msg2 : bytes) : Status :=
  let len1 := u32 (zlen msg) in
  let len2 := u32 (zlen msg2) in
  let size := u32 (len1 + (if len2 =? 0 then 0 else 2 + len2)) in
  Some (EncodeFixed32 size ++ [code] ++ take (Z.to_nat len1) msg ++
        (if len2 =? 0 then [] else str ": " ++ take (Z.to_nat len2) msg2)).

Definition NotFound (msg : bytes) : Status := Status_new kNotFound msg [].
Definition Corruption (msg : bytes) : Status := Status_new kCorruption msg [].
Definition Corruption2 (msg msg2 : bytes) : Status := Status_new kCorruption msg msg2.
Definition InvalidArgument2 (msg msg2 : bytes) : Status := Status_new kInvalidArgument msg msg2.
Definition IOError (msg : bytes) : Status := Status_new kIOError msg [].

Definition code (s : Status) : result Z := match s with None => Ok 0 | Some b => load b 4 end.
Definition IsNotFound (s : Status) : bool := bool_decide (code s = Ok kNotFound).
Definition IsCorruption (s : Status) : bool := bool_decide (code s = Ok kCorruption).

(** [CopyState]: the block is copied by its length. *)
Definition CopyState (state : bytes) : result bytes :=
  size ← DecodeFixed32 state;
  slice state 0 (u32 (size + 5)).

Definition ToString (s : Status) : result bytes :=
  match s with
  | None => Ok (str "OK")
  | Some b =>
      c ← load b 4;
      let type :=
        if c =? 0 then str "OK"
        else if c =? kNotFound then str "NotFound: "
        else if c =? kCorruption then str "Corruption: "
        else if c =? kNotSupported then str "Not implemented: "
        else if c =? kInvalidArgument then str "Invalid argument: "
        else if c =? kIOError then str "IO error: "
        else snprintf 30 (str "Unknown code(" ++ sdec c ++ str "): ") in
      length ← DecodeFixed32 b;
      m ← slice b 5 length;
      Ok (type ++ m)
  end.

(** The message of a status is the text it was made of. *)
Lemma message_kept c msg msg2 b : zlen msg + zlen msg2 < 2 ^ 31 → Status_new c msg msg2 = Some b →
  load b 4 = Ok c ∧ CopyState b = Ok b ∧
  (length ← DecodeFixed32 b; slice b 5 length) = Ok (msg ++ if bool_decide (msg2 = []) then [] else str ": " ++ msg2).
Proof.
  intros Hl Hb. unfold Status_new in Hb. apply (inj Some) in Hb. subst b. pose proof (zlen_nonneg msg). pose proof (zlen_nonneg msg2). rewrite !(u32_small (zlen _)) by lia. rewrite !to_nat_zlen, !firstn_all.
  set (tl := msg ++ if zlen msg2 =? 0 then [] else str ": " ++ msg2).
  assert (msg ++ (if bool_decide (msg2 = []) then [] else str ": " ++ msg2) = tl) as ->.
  { subst tl. destruct msg2; [done|]. rewrite bool_decide_false by done. by rewrite (proj2 (Z.eqb_neq _ _)) by (rewrite zlen_cons; zlia). }
  assert (u32 (zlen msg + (if zlen msg2 =? 0 then 0 else 2 + zlen msg2)) = zlen tl) as ->.
  { subst tl. rewrite zlen_app. destruct (zlen msg2 =? 0); [change (zlen []) with 0; apply u32_small; lia|]. rewrite zlen_app. change (zlen (str ": ")) with 2.
    apply u32_small. lia. }
  assert (0 ≤ zlen tl < 2 ^ 32) as Ht.
  { subst tl. rewrite zlen_app. destruct (zlen msg2 =? 0); [change (zlen []) with 0; lia|]. rewrite zlen_app. change (zlen (str ": ")) with 2. lia. }
  unfold CopyState. rewrite Fixed32_roundtrip by done. rbind. split; [by apply (load_app (EncodeFixed32 (zlen tl)) c tl)|]. split.
  - rewrite u32_small by (subst tl; rewrite zlen_app in *; destruct (zlen msg2 =? 0); rewrite ?zlen_app in *; change (zlen (str ": ")) with 2 in *; change (zlen []) with 0 in *; lia).
    apply slice_all. rewrite !zlen_app. change (zlen (EncodeFixed32 (zlen tl))) with 4. change (zlen [c]) with 1. lia.
  - pose proof (slice_app (EncodeFixed32 (zlen tl) ++ [c]) tl [] 5 (zlen tl) eq_refl eq_refl) as E. rewrite app_nil_r, <- app_assoc in E. exact E.
Qed.
