(* ===== verification/DbFormat.v ===== *)
(** * Keys of LevelDB (pack/leveldb/include/leveldb/slice.h,
    util/comparator.cc, db/dbformat.h, db/dbformat.cc)

    The bytewise order of user keys, the internal keys that carry a sequence
    number and a type, and their order: by user key, and newest first. *)

From S2P Require Import Prelude Cstd Cmem LevelDb Coding.

(** ** Slices *)

(** [Slice::compare]: the shorter length is kept in an [int]. *)
Definition Slice_compare (a b : bytes) : result Z :=
  let min_len := u64 (i32 (Z.min (zlen a) (zlen b))) in
  x ← slice a 0 min_len;
  y ← slice b 0 min_len;
  let r := memcmp x y in
  Ok (if r =? 0 then if zlen a <? zlen b then -1 else if zlen b <? zlen a then 1 else 0 else r).

(** The length of the common prefix: the first loop of
    [FindShortestSeparator]. *)
Fixpoint diff_index (a b : bytes) : nat :=
  match a, b with
  | x :: a, y :: b => if x =? y then S (diff_index a b) else 0
  | _, _ => 0
  end.

(** [BytewiseComparatorImpl::FindShortestSeparator(&start, limit)]. *)
Definition FindShortestSeparator (start limit : bytes) : result bytes :=
  let i := diff_index start limit in
  match start !! i, limit !! i with
  | Some diff_byte, Some l =>
      if (diff_byte <? 255) && (diff_byte + 1 <? l) then
        let s := take i start ++ [diff_byte + 1] in
        r ← Slice_compare s limit;
        if r <? 0 then Ok s else Fault AssertFailed
      else Ok start
  | _, _ => Ok start
  end.

(** [BytewiseComparatorImpl::FindShortSuccessor(&key)]. *)
Fixpoint FindShortSuccessor (key : bytes) : bytes :=
  match key with
  | [] => []
  | byte :: rest => if negb (byte =? 255) then [byte + 1] else byte :: FindShortSuccessor rest
  end.

(** ** Internal keys *)

Inductive ValueType := kTypeDeletion | kTypeValue.
#[global] Instance ValueType_eq_dec : EqDecision ValueType.
Proof. solve_decision. Defined.

Definition type_num (t : ValueType) : Z := match t with kTypeDeletion => 0 | kTypeValue => 1 end.
Definition kValueTypeForSeek : ValueType := kTypeValue.
Definition kMaxSequenceNumber : Z := 2 ^ 56 - 1.

Record ParsedInternalKey := { user_key : bytes; sequence : Z; type : ValueType }.

Definition PackSequenceAndType (seq : Z) (t : ValueType) : result Z :=
  if seq <=? kMaxSequenceNumber then Ok (Z.lor (u64 (Z.shiftl seq 8)) (type_num t)) else Fault AssertFailed.

Definition AppendInternalKey (dst : bytes) (key : ParsedInternalKey) : result bytes :=
  tag ← PackSequenceAndType (sequence key) (type key);
  Ok (PutFixed64 (dst ++ user_key key) tag).

Definition ExtractUserKey (internal_key : bytes) : result bytes :=
  if 8 <=? zlen internal_key then Ok (take (length internal_key - 8) internal_key) else Fault AssertFailed.

(** [ParseInternalKey]: [None] is [false]. *)
Definition ParseInternalKey (internal_key : bytes) : result (option ParsedInternalKey) :=
  let n := zlen internal_key in
  if n <? 8 then Ok None
  else
    num ← DecodeFixed64 (drop (length internal_key - 8) internal_key);
    let c := Z.land num 255 in
    let k t := {| user_key := take (length internal_key - 8) internal_key; sequence := Z.shiftr num 8; type := t |} in
    Ok (if c =? 0 then Some (k kTypeDeletion) else if c =? 1 then Some (k kTypeValue) else None).

(** [InternalKeyComparator] over the bytewise comparator. *)
Definition InternalCompare (akey bkey : bytes) : result Z :=
  ua ← ExtractUserKey akey;
  ub ← ExtractUserKey bkey;
  r ← Slice_compare ua ub;
  if r =? 0 then
    anum ← DecodeFixed64 (drop (length akey - 8) akey);
    bnum ← DecodeFixed64 (drop (length bkey - 8) bkey);
    Ok (if bnum <? anum then -1 else if anum <? bnum then 1 else r)
  else Ok r.

(** The user key that was shortened gets the tag that sorts first. *)
Definition InternalFindShortestSeparator (start limit : bytes) : result bytes :=
  user_start ← ExtractUserKey start;
  user_limit ← ExtractUserKey limit;
  tmp ← FindShortestSeparator user_start user_limit;
  if zlen tmp <? zlen user_start then
    r ← Slice_compare user_start tmp;
    if r <? 0 then
      tag ← PackSequenceAndType kMaxSequenceNumber kValueTypeForSeek;
      let tmp := PutFixed64 tmp tag in
      r1 ← InternalCompare start tmp;
      r2 ← InternalCompare tmp limit;
      if (r1 <? 0) && (r2 <? 0) then Ok tmp else Fault AssertFailed
    else Ok start
  else Ok start.

Definition InternalFindShortSuccessor (key : bytes) : result bytes :=
  user_key ← ExtractUserKey key;
  let tmp := FindShortSuccessor user_key in
  if zlen tmp <? zlen user_key then
    r ← Slice_compare user_key tmp;
    if r <? 0 then
      tag ← PackSequenceAndType kMaxSequenceNumber kValueTypeForSeek;
      let tmp := PutFixed64 tmp tag in
      r1 ← InternalCompare key tmp;
      if r1 <? 0 then Ok tmp else Fault AssertFailed
    else Ok key
  else Ok key.

(** [LookupKey]: the buffer, and its parts. *)
Record LookupKey := { lk_head : bytes; lk_user_key : bytes; lk_tag : bytes }.
Definition LookupKey_new (user_key : bytes) (s : Z) : result LookupKey :=
  tag ← PackSequenceAndType s kValueTypeForSeek;
  Ok {| lk_head := EncodeVarint32 (u32 (zlen user_key + 8)); lk_user_key := user_key; lk_tag := EncodeFixed64 tag |}.
Definition memtable_key (k : LookupKey) : bytes := lk_head k ++ lk_user_key k ++ lk_tag k.
Definition internal_key (k : LookupKey) : bytes := lk_user_key k ++ lk_tag k.

(** ** The bytewise order *)

Fixpoint bcmp (a b : bytes) : Z :=
  match a, b with
  | [], [] => 0
  | [], _ => -1
  | _, [] => 1
  | x :: a, y :: b => if x <? y then -1 else if y <? x then 1 else bcmp a b
  end.

Lemma bcmp_memcmp a b : bcmp a b =
  let n := Nat.min (length a) (length b) in
  let r := memcmp (take n a) (take n b) in
  if r =? 0 then if zlen a <? zlen b then -1 else if zlen b <? zlen a then 1 else 0 else r.
Proof.
  revert b. induction a as [|x a IH]; intros [|y b]; cbn -[zlen]; [done..|].
  destruct (x <? y), (y <? x); [done..|]. rewrite IH. cbn zeta. destruct (_ =? 0); [|done]. rewrite !zlen_cons.
  destruct (Z.ltb_spec (zlen a) (zlen b)), (Z.ltb_spec (1 + zlen a) (1 + zlen b)); try lia.
  destruct (Z.ltb_spec (zlen b) (zlen a)), (Z.ltb_spec (1 + zlen b) (1 + zlen a)); lia.
Qed.

Lemma Slice_compare_ok a b : Z.min (zlen a) (zlen b) < 2 ^ 31 → Slice_compare a b = Ok (bcmp a b).
Proof.
  intros Hl. unfold Slice_compare. rewrite i32_small, u64_small by zlia. unfold slice.
  rewrite !(proj2 (Z.leb_le 0 _)) by zlia. rewrite !(proj2 (Z.leb_le _ _)) by zlia. cbn [andb]. rbind. f_equal.
  rewrite bcmp_memcmp. cbn zeta. change (Z.to_nat 0) with 0%nat. rewrite !drop_0.
  replace (Z.to_nat (Z.min (zlen a) (zlen b))) with (Nat.min (length a) (length b)) by (unfold zlen; lia). done.
Qed.

Lemma bcmp_refl a : bcmp a a = 0.
Proof. induction a as [|x a IH]; cbn; [done|]. by rewrite Z.ltb_irrefl. Qed.

Lemma bcmp_sym a b : bcmp b a = - bcmp a b.
Proof.
  revert b. induction a as [|x a IH]; intros [|y b]; cbn; [done..|].
  destruct (Z.ltb_spec x y), (Z.ltb_spec y x); try lia; done || apply IH.
Qed.

Lemma bcmp_eq a b : bcmp a b = 0 ↔ a = b.
Proof.
  split; [|intros ->; apply bcmp_refl]. revert b. induction a as [|x a IH]; intros [|y b]; cbn; try done.
  destruct (Z.ltb_spec x y), (Z.ltb_spec y x); try lia. intros E. f_equal; [lia|by apply IH].
Qed.

Lemma bcmp_cases a b : bcmp a b = -1 ∨ bcmp a b = 0 ∨ bcmp a b = 1.
Proof. revert b. induction a as [|x a IH]; intros [|y b]; cbn; auto. destruct (x <? y), (y <? x); auto. Qed.

Lemma bcmp_leb a b : bcmp a b ≤ 0 ↔ bytes_leb a b = true.
Proof.
  revert b. induction a as [|x a IH]; intros [|y b]; cbn; try (split; done || lia).
  destruct (Z.ltb_spec x y), (Z.ltb_spec y x), (Z.eqb_spec x y); cbn; try lia; [split; done..|apply IH].
Qed.

Lemma bcmp_trans a b c : bcmp a b ≤ 0 → bcmp b c ≤ 0 → bcmp a c ≤ 0.
Proof. rewrite !bcmp_leb. apply bytes_leb_trans. Qed.

Lemma bcmp_lt_trans a b c : bcmp a b < 0 → bcmp b c < 0 → bcmp a c < 0.
Proof.
  intros H1 H2. pose proof (bcmp_trans a b c ltac:(lia) ltac:(lia)). assert (bcmp a c ≠ 0); [|lia].
  intros ->%bcmp_eq. rewrite bcmp_sym in H1. lia.
Qed.

(** ** The order of internal keys *)

(** A user key and a tag; the order of internal keys, newest first. *)
Definition icmp (a b : bytes * Z) : Z :=
  if bcmp a.1 b.1 =? 0 then if b.2 <? a.2 then -1 else if a.2 <? b.2 then 1 else 0 else bcmp a.1 b.1.

Definition ikey (k : bytes * Z) : bytes := k.1 ++ EncodeFixed64 k.2.

(** What the code keeps in internal keys: their lengths fit an [int]. *)
Definition key_ok (k : bytes * Z) : Prop := zlen k.1 < 2 ^ 31 - 8 ∧ 0 ≤ k.2 < 2 ^ 64.

Lemma zlen_ikey k : zlen (ikey k) = zlen k.1 + 8.
Proof. unfold ikey. by rewrite zlen_app. Qed.

Lemma ikey_user k : take (length (ikey k) - 8) (ikey k) = k.1.
Proof.
  unfold ikey. rewrite length_app, EncodeFixed64_length. replace (_ + 8 - 8)%nat with (length k.1) by lia. apply take_app_length.
Qed.
Lemma ikey_tag k : drop (length (ikey k) - 8) (ikey k) = EncodeFixed64 k.2.
Proof.
  unfold ikey. rewrite length_app, EncodeFixed64_length. replace (_ + 8 - 8)%nat with (length k.1) by lia. apply drop_app_length.
Qed.

Lemma ExtractUserKey_ikey k : ExtractUserKey (ikey k) = Ok k.1.
Proof. unfold ExtractUserKey. rewrite (proj2 (Z.leb_le _ _)) by (rewrite zlen_ikey; zlia). by rewrite ikey_user. Qed.

Lemma DecodeFixed64_ikey k : 0 ≤ k.2 < 2 ^ 64 → DecodeFixed64 (drop (length (ikey k) - 8) (ikey k)) = Ok k.2.
Proof. intros Hk. rewrite ikey_tag, <- (app_nil_r (EncodeFixed64 _)). by apply Fixed64_roundtrip. Qed.

Lemma ikey_inj a b : key_ok a → key_ok b → ikey a = ikey b → a = b.
Proof.
  intros [_ Ha] [_ Hb] E. pose proof (DecodeFixed64_ikey a Ha) as D. rewrite E, (DecodeFixed64_ikey b Hb) in D.
  pose proof (ikey_user a) as U. rewrite E, ikey_user in U. destruct a, b; cbn in *. by simplify_eq.
Qed.

Lemma InternalCompare_ok a b : key_ok a → key_ok b → InternalCompare (ikey a) (ikey b) = Ok (icmp a b).
Proof.
  intros [La Ta] [Lb Tb]. unfold InternalCompare. rewrite !ExtractUserKey_ikey. rbind. rewrite Slice_compare_ok by lia. rbind.
  unfold icmp. destruct (Z.eqb_spec (bcmp a.1 b.1) 0) as [E|E]; [|done]. rewrite !DecodeFixed64_ikey by done. rbind.
  by rewrite E.
Qed.

Lemma icmp_sym a b : icmp b a = - icmp a b.
Proof.
  unfold icmp. rewrite (bcmp_sym a.1 b.1). destruct (Z.eqb_spec (bcmp a.1 b.1) 0), (Z.eqb_spec (- bcmp a.1 b.1) 0); try lia.
  destruct (Z.ltb_spec a.2 b.2), (Z.ltb_spec b.2 a.2); lia.
Qed.
Lemma icmp_eq a b : icmp a b = 0 ↔ a = b.
Proof.
  unfold icmp. destruct a as [u s], b as [v t]; cbn. destruct (Z.eqb_spec (bcmp u v) 0) as [E|E].
  - apply bcmp_eq in E as ->. destruct (Z.ltb_spec t s), (Z.ltb_spec s t); split; intros; simplify_eq; try lia. f_equal. lia.
  - split; [lia|]. intros [= -> ->]. by rewrite bcmp_refl in E.
Qed.
Lemma icmp_lt_trans a b c : icmp a b < 0 → icmp b c < 0 → icmp a c < 0.
Proof.
  unfold icmp. destruct a as [u s], b as [v t], c as [w r]; cbn. intros H1 H2.
  destruct (Z.eqb_spec (bcmp u v) 0) as [E1|E1]; destruct (Z.eqb_spec (bcmp v w) 0) as [E2|E2].
  - apply bcmp_eq in E1 as ->, E2 as ->. rewrite bcmp_refl. cbn.
    destruct (Z.ltb_spec t s), (Z.ltb_spec s t), (Z.ltb_spec r t), (Z.ltb_spec t r), (Z.ltb_spec r s); lia.
  - apply bcmp_eq in E1 as ->. destruct (Z.eqb_spec (bcmp v w) 0); lia.
  - apply bcmp_eq in E2 as ->. destruct (Z.eqb_spec (bcmp u w) 0); lia.
  - pose proof (bcmp_lt_trans u v w H1 H2). destruct (Z.eqb_spec (bcmp u w) 0); lia.
Qed.

Lemma icmp_le_trans a b c : icmp a b ≤ 0 → icmp b c < 0 → icmp a c < 0.
Proof.
  intros H1 H2. destruct (Z.eq_dec (icmp a b) 0) as [->%icmp_eq|]; [done|]. apply icmp_lt_trans with b; lia.
Qed.

(** ** Tags *)

Lemma pack_ok s t : 0 ≤ s < 2 ^ 56 → PackSequenceAndType s t = Ok (s * 256 + type_num t).
Proof.
  intros Hs. unfold PackSequenceAndType, kMaxSequenceNumber. rewrite (proj2 (Z.leb_le _ _)) by lia.
  rewrite Z.shiftl_mul_pow2, u64_small by lia. f_equal. rewrite Z.lor_comm, <- (Z.shiftl_mul_pow2 s 8) by lia.
  rewrite lor_add_shift by (destruct t; cbn; lia). lia.
Qed.

(** The tag of a sequence number and a type. *)
Definition tag (s : Z) (t : ValueType) : Z := s * 256 + type_num t.
Lemma tag_range s t : 0 ≤ s < 2 ^ 56 → 0 ≤ tag s t < 2 ^ 64.
Proof. unfold tag. destruct t; cbn; lia. Qed.

Lemma parse_ikey u s t : 0 ≤ s < 2 ^ 56 → zlen u < 2 ^ 31 - 8 →
  ParseInternalKey (ikey (u, tag s t)) = Ok (Some {| user_key := u; sequence := s; type := t |}).
Proof.
  intros Hs Hu. unfold ParseInternalKey. rewrite (proj2 (Z.ltb_ge _ _)) by (rewrite zlen_ikey; zlia).
  rewrite DecodeFixed64_ikey by (by apply tag_range). rbind. rewrite ikey_user. cbn [fst snd].
  change 255 with (Z.ones 8). rewrite Z.land_ones, shiftr_div by lia. unfold tag. change (2 ^ 8) with 256.
  assert ((s * 256 + type_num t) `mod` 256 = type_num t) as ->.
  { symmetry. apply Z.mod_unique with s; destruct t; cbn; lia. }
  assert ((s * 256 + type_num t) `div` 256 = s) as ->; [|by destruct t].
  symmetry. apply Z.div_unique with (type_num t); destruct t; cbn; lia.
Qed.

(** ** Separators *)

Lemma diff_split a b : ∃ c a' b', a = c ++ a' ∧ b = c ++ b' ∧ diff_index a b = length c ∧
  (∀ x y s t, a' = x :: s → b' = y :: t → x ≠ y).
Proof.
  revert b. induction a as [|x a IH]; intros [|y b]; [exists [], [], []|exists [], [], (y :: b)|exists [], (x :: a), []|]; try done.
  cbn. destruct (Z.eqb_spec x y) as [->|Hn].
  - destruct (IH b) as (c & a' & b' & -> & -> & E & Hd). exists (y :: c), a', b'. cbn. by rewrite E.
  - exists [], (x :: a), (y :: b). split; [done|]. split; [done|]. split; [done|]. intros ? ? ? ? [= -> ->] [= -> ->]. done.
Qed.

Lemma bcmp_app c a b : bcmp (c ++ a) (c ++ b) = bcmp a b.
Proof. induction c as [|x c IH]; cbn; [done|]. by rewrite Z.ltb_irrefl. Qed.

Lemma separator_ok start limit : Z.min (zlen start) (zlen limit) < 2 ^ 31 - 8 → bcmp start limit < 0 →
  ∃ s, FindShortestSeparator start limit = Ok s ∧ bcmp start s ≤ 0 ∧ bcmp s limit < 0 ∧ zlen s ≤ zlen start.
Proof.
  intros Hl Hlt. assert (∃ s, Ok start = Ok s ∧ bcmp start s ≤ 0 ∧ bcmp s limit < 0 ∧ zlen s ≤ zlen start) as Hsame.
  { exists start. rewrite bcmp_refl. split; [done|]. lia. }
  unfold FindShortestSeparator. destruct (diff_split start limit) as (c & a & b & -> & -> & -> & _).
  rewrite !lookup_app_r, Nat.sub_diag by done. destruct a as [|x a], b as [|y b]; try done. cbn [lookup list_lookup].
  destruct (Z.ltb_spec x 255); [|done]. destruct (Z.ltb_spec (x + 1) y); [|done]. cbn [andb].
  rewrite take_app_length, Slice_compare_ok by (rewrite !zlen_app, !zlen_cons in *; zlia). rbind.
  rewrite !bcmp_app in *. cbn in *. destruct (Z.ltb_spec (x + 1) y); [|lia]. cbn. eexists. split; [done|]. rewrite !bcmp_app. cbn.
  destruct (Z.ltb_spec x (x + 1)); [|lia]. split; [lia|]. destruct (Z.ltb_spec (x + 1) y); [|lia]. rewrite !zlen_app, !zlen_cons. zlia.
Qed.

Lemma successor_ok key : bcmp key (FindShortSuccessor key) ≤ 0 ∧ zlen (FindShortSuccessor key) ≤ zlen key.
Proof.
  induction key as [|x key IH]; cbn; [done|]. destruct (Z.eqb_spec x 255) as [->|Hn]; cbn.
  - rewrite !zlen_cons. lia.
  - destruct (Z.ltb_spec x (x + 1)); [|lia]. rewrite !zlen_cons. unfold zlen; cbn; lia.
Qed.

Lemma seek_tag : PackSequenceAndType kMaxSequenceNumber kValueTypeForSeek = Ok (tag kMaxSequenceNumber kValueTypeForSeek).
Proof. done. Qed.

(** A shortened key sorts between the two keys, and the assertions hold. *)
Lemma internal_separator_ok a b : key_ok a → key_ok b → icmp a b < 0 →
  ∃ s, InternalFindShortestSeparator (ikey a) (ikey b) = Ok (ikey s) ∧ key_ok s ∧ icmp a s ≤ 0 ∧ icmp s b < 0 ∧ zlen (ikey s) ≤ zlen (ikey a).
Proof.
  intros Ha Hb Hlt. assert (∃ s, Ok (ikey a) = Ok (ikey s) ∧ key_ok s ∧ icmp a s ≤ 0 ∧ icmp s b < 0 ∧ zlen (ikey s) ≤ zlen (ikey a)) as Hsame.
  { exists a. rewrite (proj2 (icmp_eq a a)) by done. split; [done|]. split; [done|]. lia. }
  unfold InternalFindShortestSeparator. rewrite !ExtractUserKey_ikey. rbind. destruct Ha as [La Ta], Hb as [Lb Tb].
  destruct (Z.eq_dec (bcmp a.1 b.1) 0) as [E%bcmp_eq|E].
  - unfold FindShortestSeparator. rewrite E. destruct (diff_split b.1 b.1) as (c & x & y & Ex & Ey & -> & Hd).
    rewrite Ex in Ey. apply app_inv_head in Ey as ->. rewrite Ex, lookup_app_r, Nat.sub_diag by done.
    destruct y as [|y t]; [|exfalso; by eapply Hd]. cbn [lookup list_lookup]. rbind. by rewrite Z.ltb_irrefl.
  - assert (bcmp a.1 b.1 < 0) as Hu by (unfold icmp in Hlt; destruct (Z.eqb_spec (bcmp a.1 b.1) 0); lia).
    destruct (separator_ok a.1 b.1) as (s & -> & H1 & H2 & H3); [lia|done|]. rbind.
    destruct (Z.ltb_spec (zlen s) (zlen a.1)); [|done]. rewrite Slice_compare_ok by lia. rbind.
    destruct (Z.ltb_spec (bcmp a.1 s) 0); [|done]. rewrite seek_tag. rbind.
    set (k := (s, tag kMaxSequenceNumber kValueTypeForSeek)). change (PutFixed64 s _) with (ikey k).
    assert (key_ok k) as Hk by (split; cbn; [lia|done]). rewrite !InternalCompare_ok by done. rbind.
    assert (icmp a k < 0) by (unfold icmp; cbn; destruct (Z.eqb_spec (bcmp a.1 s) 0); lia).
    assert (icmp k b < 0) by (unfold icmp; cbn; destruct (Z.eqb_spec (bcmp s b.1) 0); lia).
    rewrite !(proj2 (Z.ltb_lt _ 0)) by done. assert (zlen (ikey k) ≤ zlen (ikey a)) by (rewrite !zlen_ikey; cbn; lia). exists k. split; [done|]. split; [done|]. lia.
Qed.

Lemma internal_successor_ok a : key_ok a →
  ∃ s, InternalFindShortSuccessor (ikey a) = Ok (ikey s) ∧ key_ok s ∧ icmp a s ≤ 0 ∧ zlen (ikey s) ≤ zlen (ikey a).
Proof.
  intros Ha. assert (∃ s, Ok (ikey a) = Ok (ikey s) ∧ key_ok s ∧ icmp a s ≤ 0 ∧ zlen (ikey s) ≤ zlen (ikey a)) as Hsame.
  { exists a. by rewrite (proj2 (icmp_eq a a)) by done. }
  unfold InternalFindShortSuccessor. rewrite ExtractUserKey_ikey. rbind. destruct Ha as [La Ta].
  destruct (successor_ok a.1) as [H1 H2]. set (s := FindShortSuccessor a.1) in *.
  destruct (Z.ltb_spec (zlen s) (zlen a.1)); [|done]. rewrite Slice_compare_ok by lia. rbind.
  destruct (Z.ltb_spec (bcmp a.1 s) 0); [|done]. rewrite seek_tag. rbind.
  set (k := (s, tag kMaxSequenceNumber kValueTypeForSeek)). change (PutFixed64 s _) with (ikey k).
  assert (key_ok k) as Hk by (split; cbn; [lia|done]). rewrite InternalCompare_ok by done. rbind.
  assert (icmp a k < 0) by (unfold icmp; cbn; destruct (Z.eqb_spec (bcmp a.1 s) 0); lia).
  rewrite (proj2 (Z.ltb_lt _ 0)) by done. assert (zlen (ikey k) ≤ zlen (ikey a)) by (rewrite !zlen_ikey; cbn; lia). exists k. split; [done|]. split; [done|]. lia.
Qed.
