(* ===== verification/Iter.v ===== *)
(** * Iterators of LevelDB (pack/leveldb/include/leveldb/iterator.h)

    The abstract class [leveldb::Iterator] as an interface: its operations,
    and what an implementation promises. An iterator stands at a place of a
    sorted list of pairs, or at none. Keys are values of a type with an
    encoding, such as internal keys. *)

From stdpp Require Import sorting.
From S2P Require Import Prelude Cstd Status.

Class Iter (I : Type) := {
  it_Valid : I → bool;
  it_key : I → result bytes;
  it_value : I → result bytes;
  it_Next : I → result I;
  it_Prev : I → result I;
  it_Seek : bytes → I → result I;
  it_SeekToFirst : I → result I;
  it_SeekToLast : I → result I;
  it_status : I → Status
}.

(** ** Orders on keys *)

(** An order on keys by a three-way comparison; keys that compare equal need
    not be equal. *)
Class KeyOrder {K : Type} (cmp : K → K → Z) : Prop := {
  ko_sym a b : cmp b a = - cmp a b;
  ko_trans a b c : cmp a b ≤ 0 → cmp b c ≤ 0 → cmp a c ≤ 0
}.

Section order.
Context `{KeyOrder K cmp}.

Lemma ko_lt_le a b c : cmp a b < 0 → cmp b c ≤ 0 → cmp a c < 0.
Proof.
  intros H1 H2. destruct (Z.lt_ge_cases (cmp a c) 0); [done|].
  pose proof (ko_trans b c a H2 ltac:(rewrite ko_sym; lia)). rewrite ko_sym in H1. lia.
Qed.
Lemma ko_le_lt a b c : cmp a b ≤ 0 → cmp b c < 0 → cmp a c < 0.
Proof.
  intros H1 H2. destruct (Z.lt_ge_cases (cmp a c) 0); [done|].
  pose proof (ko_trans c a b ltac:(rewrite ko_sym; lia) H1). rewrite ko_sym in H2. lia.
Qed.

Definition sorted (l : list K) : Prop := StronglySorted (λ a b, cmp a b < 0) l.

(** A sorted list splits at every key. *)
Lemma sorted_split l k : sorted l →
  ∃ l1 l2, l = l1 ++ l2 ∧ Forall (λ x, cmp x k < 0) l1 ∧ Forall (λ x, 0 ≤ cmp x k) l2.
Proof.
  induction 1 as [|x l Hs IH Hx]; [by exists [], []|]. destruct (Z.lt_ge_cases (cmp x k) 0).
  - destruct IH as (l1 & l2 & -> & H1 & H2). exists (x :: l1), l2. by repeat constructor.
  - exists [], (x :: l). split; [done|]. split; [done|]. constructor; [done|]. eapply Forall_impl; [exact Hx|]. cbn. intros y Hy.
    destruct (Z.lt_ge_cases (cmp y k) 0); [|done]. pose proof (ko_lt_le x y k Hy). lia.
Qed.

Lemma sorted_insert l1 l2 k : sorted (l1 ++ l2) → Forall (λ x, cmp x k < 0) l1 → Forall (λ x, 0 < cmp x k) l2 → sorted (l1 ++ k :: l2).
Proof.
  unfold sorted. induction l1 as [|x l1 IH]; cbn; intros Hs H1 H2.
  - constructor; [done|]. eapply Forall_impl; [exact H2|]. cbn. intros y Hy. rewrite ko_sym. lia.
  - apply Forall_cons in H1 as [Hx H1]. inversion Hs as [|? ? Hs' Ha]; subst. constructor; [by apply IH|].
    rewrite Forall_app in *. destruct Ha as [Ha Hb]. split; [done|]. by constructor.
Qed.
End order.

Lemma strongly_sorted_lookup {X} (R : X → X → Prop) l : StronglySorted R l ↔ ∀ i j x y, (i < j)%nat → l !! i = Some x → l !! j = Some y → R x y.
Proof.
  split.
  - induction 1 as [|x l Hs IH Ha]; intros i j y z Hij Hi Hj; [done|]. destruct j as [|j]; [lia|]. destruct i as [|i]; cbn in *; [|by eapply (IH i j); [lia|..]].
    injection Hi as <-. rewrite Forall_lookup in Ha. by eapply Ha.
  - induction l as [|x l IH]; intros Hl; constructor.
    + apply IH. intros i j y z Hij Hi Hj. by apply (Hl (S i) (S j)); [lia|..].
    + apply Forall_lookup. intros j y Hj. by apply (Hl 0%nat (S j)); [lia|..].
Qed.

(** ** Places *)

(** The place [i] of [n], if there is one. *)
Definition place (n i : nat) : option nat := if decide (i < n)%nat then Some i else None.
Definition before (i : nat) : option nat := match i with O => None | S i => Some i end.

Lemma place_cases n i : ((i < n)%nat ∧ place n i = Some i) ∨ ((n ≤ i)%nat ∧ place n i = None).
Proof. unfold place. case_decide; [left|right]; split; done || lia. Qed.

Section laws.
Context {A : Type} (enc : A → bytes) (cmp : A → A → Z) (good : A → Prop).

(** [At it L p]: the iterator [it] over the pairs [L] stands at [p]. *)
Class IterLaws (I : Type) `{Iter I} (At : I → list (A * bytes) → option nat → Prop) : Prop := {
  at_range it L i : At it L (Some i) → (i < length L)%nat;
  at_Valid it L p : At it L p → it_Valid it = bool_decide (is_Some p);
  at_key it L i k v : At it L (Some i) → L !! i = Some (k, v) → it_key it = Ok (enc k);
  at_value it L i k v : At it L (Some i) → L !! i = Some (k, v) → it_value it = Ok v;
  at_Next it L i : At it L (Some i) → ∃ it', it_Next it = Ok it' ∧ At it' L (place (length L) (S i));
  at_Prev it L i : At it L (Some i) → ∃ it', it_Prev it = Ok it' ∧ At it' L (before i);
  at_Seek it L p t L1 L2 : At it L p → good t → L = L1 ++ L2 →
    Forall (λ e, cmp e.1 t < 0) L1 → Forall (λ e, 0 ≤ cmp e.1 t) L2 →
    ∃ it', it_Seek (enc t) it = Ok it' ∧ At it' L (place (length L) (length L1));
  at_SeekToFirst it L p : At it L p → ∃ it', it_SeekToFirst it = Ok it' ∧ At it' L (place (length L) 0);
  at_SeekToLast it L p : At it L p → ∃ it', it_SeekToLast it = Ok it' ∧ At it' L (before (length L));
  at_status it L p : At it L p → it_status it = sOK
}.
End laws.

(** ** Scans

    What a loop over an iterator visits, forward and backward. *)
Section scan.
Context {I : Type} `{Iter I}.

Fixpoint collect (n : nat) (it : I) : result (list (bytes * bytes)) :=
  match n with
  | O => Fault AssertFailed
  | S n =>
      if it_Valid it then
        k ← it_key it; v ← it_value it; it ← it_Next it; l ← collect n it; Ok ((k, v) :: l)
      else Ok []
  end.
Fixpoint collect_back (n : nat) (it : I) : result (list (bytes * bytes)) :=
  match n with
  | O => Fault AssertFailed
  | S n =>
      if it_Valid it then
        k ← it_key it; v ← it_value it; it ← it_Prev it; l ← collect_back n it; Ok ((k, v) :: l)
      else Ok []
  end.
End scan.

(** The part of a list from where a property begins to hold. *)
Lemma filter_none {A} (P : A → Prop) `{∀ x, Decision (P x)} l : Forall (λ x, ¬ P x) l → filter P l = [].
Proof. induction 1 as [|x l Hx _ IH]; [done|]. by rewrite filter_cons_False. Qed.
Lemma filter_split {A} (P : A → Prop) `{∀ x, Decision (P x)} l1 l2 : Forall (λ x, ¬ P x) l1 → Forall P l2 → filter P (l1 ++ l2) = l2.
Proof.
  intros H1 H2. rewrite filter_app, filter_none by done. cbn. induction H2 as [|x l Hx _ IH]; [done|]. by rewrite filter_cons_True, IH.
Qed.

(** What an iterator shows to a client: everything in order, everything
    backwards, and from each key on. *)
Section shows.
Context {A : Type} {enc : A → bytes} {cmp : A → A → Z} {good : A → Prop}.
Context {I : Type} {HI : Iter I} {At : I → list (A * bytes) → option nat → Prop} {HA : IterLaws enc cmp good I At}.

Abbreviation pairs := (λ L, (prod_map enc id <$> L : list (bytes * bytes))).

Definition shows (it : I) (L : list (A * bytes)) : Prop := ∀ n, (length L < n)%nat →
  (it ← it_SeekToFirst it; collect n it) = Ok (pairs L) ∧
  (it ← it_SeekToLast it; collect_back n it) = Ok (reverse (pairs L)) ∧
  ∀ t, good t → (it ← it_Seek (enc t) it; collect n it) = Ok (pairs (filter (λ e, 0 ≤ cmp e.1 t) L)).

Lemma collect_at n : ∀ it L i, At it L (place (length L) i) → (length L - i < n)%nat → collect n it = Ok (drop i (pairs L)).
Proof.
  induction n as [|n IH]; intros it L i Hit Hn; [lia|]. cbn [collect].
  destruct (place_cases (length L) i) as [[Hlt E]|[Hge E]]; rewrite E in Hit; rewrite (at_Valid enc cmp good it L _ Hit).
  - rewrite bool_decide_true by done. destruct (lookup_lt_is_Some_2 L i Hlt) as [[k v] Hi].
    rewrite (at_key enc cmp good it L i k v), (at_value enc cmp good it L i k v) by done. rbind.
    destruct (at_Next enc cmp good it L i Hit) as (it' & -> & Hit'). rbind. rewrite (IH it' L (S i)) by (done || lia). rbind.
    by rewrite (drop_S (pairs L) (enc k, v) i) by by rewrite list_lookup_fmap, Hi.
  - rewrite bool_decide_false by (by intros []). by rewrite drop_ge by by rewrite length_fmap.
Qed.

Lemma collect_back_at n : ∀ it L i, At it L (before i) → (i ≤ length L)%nat → (i < n)%nat →
  collect_back n it = Ok (reverse (take i (pairs L))).
Proof.
  induction n as [|n IH]; intros it L i Hit Hi Hn; [lia|]. cbn [collect_back]. rewrite (at_Valid enc cmp good it L _ Hit).
  destruct i as [|i]; cbn [before] in *; [by rewrite bool_decide_false by (by intros [])|].
  rewrite bool_decide_true by done. destruct (lookup_lt_is_Some_2 L i) as [[k v] Hk]; [lia|].
  rewrite (at_key enc cmp good it L i k v), (at_value enc cmp good it L i k v) by done. rbind.
  destruct (at_Prev enc cmp good it L i Hit) as (it' & -> & Hit'). rbind. rewrite (IH it' L i) by (done || lia). rbind.
  rewrite (take_S_r (pairs L) i (enc k, v)) by by rewrite list_lookup_fmap, Hk. by rewrite reverse_snoc.
Qed.

Lemma at_shows `{!KeyOrder cmp} it L p : At it L p → sorted (cmp := cmp) L.*1 → shows it L.
Proof.
  intros Hit Hs n Hn. split; [|split].
  - destruct (at_SeekToFirst enc cmp good it L p Hit) as (it' & -> & Hit'). rbind. by rewrite (collect_at n it' L 0) by (done || lia).
  - destruct (at_SeekToLast enc cmp good it L p Hit) as (it' & -> & Hit'). rbind. rewrite (collect_back_at n it' L (length L)) by (done || lia).
    by rewrite take_ge by by rewrite length_fmap.
  - intros t Ht. destruct (sorted_split L.*1 t Hs) as (l1 & l2 & El & H1 & H2). apply fmap_app_inv in El as (L1 & L2 & -> & -> & ->).
    rewrite Forall_fmap in H1, H2. destruct (at_Seek enc cmp good it _ p t L1 L2 Hit Ht eq_refl H1 H2) as (it' & -> & Hit'). rbind.
    rewrite (collect_at n it' (L1 ++ L2) (length L1)) by (done || lia). rewrite fmap_app.
    rewrite drop_app_length' by by rewrite length_fmap. rewrite filter_split; [done| |exact H2]. eapply Forall_impl; [exact H1|]. cbn. intros e He ?. lia.
Qed.
End shows.
Arguments shows {A} enc cmp good {I HI} it L.
