(* ===== verification/Comparator.v ===== *)
(** * Comparators of LevelDB (pack/leveldb/include/leveldb/comparator.h)

    The interface through which blocks, tables and merges compare keys, with
    what it promises: an order on the values that the keys encode, and short
    keys that separate two neighbours or follow the last one. The bytewise
    comparator and the comparator of internal keys implement it. *)

From S2P Require Import Prelude Cstd Cmem LevelDb Coding Status DbFormat Iter.

Class Comparator := {
  cp_Compare : bytes → bytes → result Z;
  cp_FindShortestSeparator : bytes → bytes → result bytes;
  cp_FindShortSuccessor : bytes → result bytes
}.

Class ComparatorLaws {A : Type} (enc : A → bytes) (cmp : A → A → Z) (good : A → Prop) `{Comparator} : Prop := {
  cp_order :: KeyOrder cmp;
  cp_size a : good a → zlen (enc a) < 2 ^ 31;
  cp_compare a b : good a → good b → cp_Compare (enc a) (enc b) = Ok (cmp a b);
  cp_separator a b : good a → good b → cmp a b < 0 →
    ∃ s, cp_FindShortestSeparator (enc a) (enc b) = Ok (enc s) ∧ good s ∧ cmp a s ≤ 0 ∧ cmp s b < 0 ∧ zlen (enc s) ≤ zlen (enc a);
  cp_successor a : good a → ∃ s, cp_FindShortSuccessor (enc a) = Ok (enc s) ∧ good s ∧ cmp a s ≤ 0 ∧ zlen (enc s) ≤ zlen (enc a)
}.

Definition Bytewise : Comparator := {|
  cp_Compare := Slice_compare;
  cp_FindShortestSeparator := FindShortestSeparator;
  cp_FindShortSuccessor k := Ok (FindShortSuccessor k)
|}.

Definition InternalKeys : Comparator := {|
  cp_Compare := InternalCompare;
  cp_FindShortestSeparator := InternalFindShortestSeparator;
  cp_FindShortSuccessor := InternalFindShortSuccessor
|}.

#[export] Instance bcmp_order : KeyOrder bcmp.
Proof. split; [apply bcmp_sym|apply bcmp_trans]. Qed.

#[export] Instance icmp_order : KeyOrder icmp.
Proof.
  split; [apply icmp_sym|]. intros a b c H1 H2. destruct (Z.eq_dec (icmp b c) 0) as [<-%icmp_eq|]; [done|].
  pose proof (icmp_le_trans a b c H1). lia.
Qed.

#[export] Instance bytewise_laws : ComparatorLaws (H := Bytewise) id bcmp (λ k, zlen k < 2 ^ 31 - 8).
Proof.
  split; cbn [cp_Compare cp_FindShortestSeparator cp_FindShortSuccessor Bytewise id]; [apply _|..].
  - intros a. lia.
  - intros a b Ha Hb. apply Slice_compare_ok. lia.
  - intros a b Ha Hb Hlt. destruct (separator_ok a b) as (s & -> & ? & ? & ?); [lia|done|]. exists s. split; [done|]. lia.
  - intros a Ha. destruct (successor_ok a). eexists. split; [done|]. lia.
Qed.

#[export] Instance internal_laws : ComparatorLaws (H := InternalKeys) ikey icmp key_ok.
Proof.
  split; cbn [cp_Compare cp_FindShortestSeparator cp_FindShortSuccessor InternalKeys]; [apply _|..].
  - intros a [Ha _]. rewrite zlen_ikey. lia.
  - apply InternalCompare_ok.
  - apply internal_separator_ok.
  - apply internal_successor_ok.
Qed.

(** Keys that a lookup does not tell apart, such as the internal keys of one
    user key: they are neighbours in the order, and no separator of two keys
    is behind a key that the second is the same as. *)
Class SameLaws {A : Type} (enc : A → bytes) (cmp : A → A → Z) (good : A → Prop) (same : A → A → Prop) `{Comparator} : Prop := {
  same_sym a b : same a b → same b a;
  same_convex a b c : cmp a b ≤ 0 → cmp b c ≤ 0 → same a c → same a b;
  same_separator a b s t : good a → good b → good s → good t → cmp a b < 0 → cp_FindShortestSeparator (enc a) (enc b) = Ok (enc s) →
    cmp a t < 0 → cmp t s ≤ 0 → ¬ same t b
}.

#[export] Instance bytewise_same : SameLaws (H := Bytewise) id bcmp (λ k, zlen k < 2 ^ 31 - 8) (=).
Proof.
  split; cbn [cp_FindShortestSeparator Bytewise id].
  - done.
  - intros a b c Hab Hbc <-. apply bcmp_eq. pose proof (bcmp_sym a b). lia.
  - intros a b s t Ha Hb Hs Ht Hlt E Hat Hts <-. destruct (separator_ok a t) as (s' & Es & _ & Hst & _); [lia|done|]. rewrite E in Es. injection Es as <-.
    pose proof (bcmp_sym s t). lia.
Qed.

#[export] Instance internal_same : SameLaws (H := InternalKeys) ikey icmp key_ok (λ a b, a.1 = b.1).
Proof.
  split; cbn [cp_FindShortestSeparator InternalKeys].
  - done.
  - intros a b c Hab Hbc E. apply bcmp_eq. unfold icmp in *. rewrite <- E in *. pose proof (bcmp_sym a.1 b.1).
    destruct (Z.eqb_spec (bcmp a.1 b.1) 0); [done|]. destruct (Z.eqb_spec (bcmp b.1 a.1) 0); lia.
  - intros a b s t Ha Hb Hs Ht Hlt E Hat Hts Eu. unfold InternalFindShortestSeparator in E. rewrite !ExtractUserKey_ikey in E. cbn [mbind result_bind] in E.
    assert (Ok (ikey a) = Ok (ikey s) → False) as Hsame.
    { intros [= E']. apply ikey_inj in E' as <-; [|done..]. rewrite icmp_sym in Hts. lia. }
    destruct (Z.eq_dec (bcmp a.1 b.1) 0) as [Eab|Eab].
    + apply bcmp_eq in Eab. rewrite Eab in *. unfold FindShortestSeparator in E. destruct (diff_split b.1 b.1) as (c & x & y & Ex & Ey & Ed & Hd). rewrite Ed in E.
      rewrite Ex in Ey. apply app_inv_head in Ey as ->. rewrite Ex, lookup_app_r, Nat.sub_diag in E by done.
      destruct y as [|y z]; [|exfalso; by eapply Hd]. cbn [lookup list_lookup mbind result_bind] in E. rewrite Z.ltb_irrefl in E. done.
    + assert (bcmp a.1 b.1 < 0) as Hu by (unfold icmp in Hlt; destruct (Z.eqb_spec (bcmp a.1 b.1) 0); lia). destruct Ha as [La Ta], Hb as [Lb Tb].
      destruct (separator_ok a.1 b.1) as (m & Em & H1 & H2 & H3); [lia|done|]. rewrite Em in E. cbn [mbind result_bind] in E.
      destruct (Z.ltb_spec (zlen m) (zlen a.1)); [|done]. rewrite Slice_compare_ok in E by lia. cbn [mbind result_bind] in E.
      destruct (Z.ltb_spec (bcmp a.1 m) 0); [|done]. rewrite seek_tag in E. cbn [mbind result_bind] in E.
      set (k := (m, tag kMaxSequenceNumber kValueTypeForSeek)) in *. change (PutFixed64 m _) with (ikey k) in E.
      assert (key_ok k) as Hk by (split; cbn; [lia|done]). rewrite !InternalCompare_ok in E by done. cbn [mbind result_bind] in E. destruct (_ && _); [|done].
      injection E as E. apply ikey_inj in E as <-; [|done..]. unfold icmp in Hts. rewrite Eu in Hts. cbn [fst k] in Hts. pose proof (bcmp_sym m b.1).
      destruct (Z.eqb_spec (bcmp b.1 m) 0); lia.
Qed.

(** ** Comparators keep to bytes *)
Class ComparatorBytes `{Comparator} : Prop := {
  cb_separator a b s : Forall is_byte a → cp_FindShortestSeparator a b = Ok s → Forall is_byte s;
  cb_successor a s : Forall is_byte a → cp_FindShortSuccessor a = Ok s → Forall is_byte s
}.

Lemma separator_bytes a b s : Forall is_byte a → FindShortestSeparator a b = Ok s → Forall is_byte s.
Proof.
  unfold FindShortestSeparator. intros Ha E. destruct (a !! _) as [x|] eqn:Ex; [|by injection E as <-]. destruct (b !! _) as [y|]; [|by injection E as <-].
  destruct (Z.ltb_spec x 255); [|by injection E as <-]. destruct (x + 1 <? y); cbn [andb] in E; [|by injection E as <-]. apply result_bind_Ok in E as (r & _ & E).
  destruct (r <? 0); [|done]. injection E as <-. apply Forall_app. split; [by apply Forall_take|]. rewrite Forall_lookup in Ha. specialize (Ha _ _ Ex). unfold is_byte in *. repeat constructor; lia.
Qed.
Lemma successor_bytes a : Forall is_byte a → Forall is_byte (FindShortSuccessor a).
Proof.
  induction 1 as [|x a Hx _ IH]; cbn [FindShortSuccessor]; [done|]. destruct (Z.eqb_spec x 255); cbn [negb]; [by constructor|]. unfold is_byte in *. repeat constructor; lia.
Qed.
Lemma user_key_bytes a u : Forall is_byte a → ExtractUserKey a = Ok u → Forall is_byte u.
Proof. unfold ExtractUserKey. intros Ha E. destruct (8 <=? zlen a); [|done]. injection E as <-. by apply Forall_take. Qed.
Lemma seek_key_bytes u : Forall is_byte u → Forall is_byte (PutFixed64 u (tag kMaxSequenceNumber kValueTypeForSeek)).
Proof. intros Hu. apply Forall_app. split; [done|]. repeat constructor; done. Qed.

#[export] Instance bytewise_bytes : ComparatorBytes (H := Bytewise).
Proof. split; [apply separator_bytes|]. intros a s Ha [= <-]. by apply successor_bytes. Qed.

#[export] Instance internal_bytes : ComparatorBytes (H := InternalKeys).
Proof.
  split; cbn [cp_FindShortestSeparator cp_FindShortSuccessor InternalKeys].
  - intros a b s Ha E. unfold InternalFindShortestSeparator in E. apply result_bind_Ok in E as (ua & Ea & E). apply result_bind_Ok in E as (ub & _ & E). apply result_bind_Ok in E as (t & Et & E).
    pose proof (separator_bytes ua ub t (user_key_bytes a ua Ha Ea) Et) as Ht. destruct (_ <? _); [|by injection E as <-]. apply result_bind_Ok in E as (r & _ & E).
    destruct (_ <? _); [|by injection E as <-]. rewrite seek_tag in E. cbn [mbind result_bind] in E. apply result_bind_Ok in E as (r1 & _ & E). apply result_bind_Ok in E as (r2 & _ & E).
    destruct (_ && _); [|done]. injection E as <-. by apply seek_key_bytes.
  - intros a s Ha E. unfold InternalFindShortSuccessor in E. apply result_bind_Ok in E as (ua & Ea & E). pose proof (successor_bytes ua (user_key_bytes a ua Ha Ea)) as Ht.
    destruct (_ <? _); [|by injection E as <-]. apply result_bind_Ok in E as (r & _ & E). destruct (_ <? _); [|by injection E as <-].
    rewrite seek_tag in E. cbn [mbind result_bind] in E. apply result_bind_Ok in E as (r1 & _ & E). destruct (_ <? _); [|done]. injection E as <-. by apply seek_key_bytes.
Qed.

(** The laws for keys that are bytes. *)
Section bytes.
Context {A : Type} {enc : A → bytes} {cmp : A → A → Z} {good : A → Prop} {same : A → A → Prop} `{Comparator}.
Definition byte_key (a : A) : Prop := good a ∧ Forall is_byte (enc a).

Lemma byte_laws : ComparatorLaws enc cmp good → ComparatorBytes → ComparatorLaws enc cmp byte_key.
Proof.
  intros HL HB. split.
  - apply HL.
  - intros a [Ha _]. by apply (cp_size a).
  - intros a b [Ha _] [Hb _]. by apply cp_compare.
  - intros a b [Ha Ba] [Hb _] Hlt. destruct (cp_separator a b Ha Hb Hlt) as (s & E & Hs & Hrest). exists s. split; [done|]. split; [|done]. split; [done|]. by eapply cb_separator.
  - intros a [Ha Ba]. destruct (cp_successor (cmp := cmp) a Ha) as (s & E & Hs & Hrest). exists s. split; [done|]. split; [|done]. split; [done|]. by eapply cb_successor.
Qed.

Lemma byte_same : SameLaws enc cmp good same → SameLaws enc cmp byte_key same.
Proof. intros [H1 H2 H3]. split; [exact H1|exact H2|]. intros a b s t [? _] [? _] [? _] [? _]. by apply H3. Qed.
End bytes.
Arguments byte_key {A} enc good a /.
