(* ===== verification/Filter.v ===== *)
(** * Filters of LevelDB (pack/leveldb/include/leveldb/filter_policy.h,
    util/hash.cc, util/bloom.cc, db/dbformat.cc)

    The interface of a filter policy with what it promises, the Bloom filter
    that implements it, and the policy that turns internal keys into user
    keys before it asks another policy. *)

From S2P Require Import Prelude Cstd Cmem LevelDb Coding Status DbFormat Bloom.

Class FilterPolicy := {
  fp_Name : bytes;
  (** appends the filter of the keys to the string *)
  fp_CreateFilter : list bytes → bytes → result bytes;
  fp_KeyMayMatch : bytes → bytes → result bool
}.

(** A filter matches its keys, and every key that is the [same] as one of
    them; [cost] bounds its size by key. *)
Class FilterLaws {A : Type} (enc : A → bytes) (good : A → Prop) (same : A → A → Prop) (cost : Z) `{FilterPolicy} : Prop := {
  fl_name : Forall is_byte fp_Name ∧ zlen fp_Name < 2 ^ 16;
  fl_cost : 0 ≤ cost < 2 ^ 31;
  fl_create ks dst : Forall good ks → zlen ks < 2 ^ 31 →
    ∃ f, fp_CreateFilter (enc <$> ks) dst = Ok (dst ++ f) ∧ zlen f ≤ 10 + cost * zlen ks ∧ Forall is_byte f ∧
      ∀ k t, k ∈ ks → good t → ∃ b, fp_KeyMayMatch (enc t) f = Ok b ∧ (same k t → b = true)
}.

(** ** The hash function *)

Definition hash_m : Z := 0xc6a4a793.

Fixpoint hash_words (fuel : nat) (data : bytes) (h : Z) : result (bytes * Z) :=
  match fuel with
  | O => Ok (data, h)
  | S fuel =>
      if 4 <=? zlen data then
        w ← DecodeFixed32 data;
        let h := u32 (u32 (h + w) * hash_m) in
        hash_words fuel (drop 4 data) (Z.lxor h (Z.shiftr h 16))
      else Ok (data, h)
  end.

(** The remaining bytes are (signed) [char]s. *)
Definition Hash (data : bytes) (seed : Z) : result Z :=
  '(rest, h) ← hash_words (length data) data (Z.lxor seed (u32 (zlen data * hash_m)));
  let last h := let h := u32 (h * hash_m) in Z.lxor h (Z.shiftr h 24) in
  Ok (match rest with
      | [a; b; c] => last (u32 (u32 (u32 (h + schar c * 2 ^ 16) + schar b * 2 ^ 8) + schar a))
      | [a; b] => last (u32 (u32 (h + schar b * 2 ^ 8) + schar a))
      | [a] => last (u32 (h + schar a))
      | _ => h
      end).

(** ** The Bloom filter *)
Module BloomFilter.

Definition BloomHash (key : bytes) : result Z := Hash key 0xbc9f1d34.

Section bloom.
Context (bits_per_key_ : Z).

(** [bits_per_key * 0.69], rounded down; the product in floating point is
    never close enough to an integer to be rounded to another one where the
    result is below the limit. *)
Definition k_ : Z :=
  let k := bits_per_key_ * 69 / 100 in
  if k <? 1 then 1 else if 30 <? k then 30 else k.

Definition rotate (h : Z) : Z := Z.lor (Z.shiftr h 17) (u32 (Z.shiftl h 15)).

(** The probes of one key, which set bits or test them. *)
Fixpoint set_probes (j : nat) (h delta bits : Z) (array : bytes) : result bytes :=
  match j with
  | O => Ok array
  | S j =>
      let bitpos := u32 (h mod bits) in
      c ← load array (bitpos / 8);
      array ← store array (bitpos / 8) (Z.lor c (Z.shiftl 1 (bitpos mod 8)));
      set_probes j (u32 (h + delta)) delta bits array
  end.
Fixpoint test_probes (j : nat) (h delta bits : Z) (array : bytes) : result bool :=
  match j with
  | O => Ok true
  | S j =>
      let bitpos := u32 (h mod bits) in
      c ← load array (bitpos / 8);
      if Z.land c (Z.shiftl 1 (bitpos mod 8)) =? 0 then Ok false else test_probes j (u32 (h + delta)) delta bits array
  end.

Fixpoint add_keys (keys : list bytes) (bits : Z) (array : bytes) : result bytes :=
  match keys with
  | [] => Ok array
  | key :: keys =>
      h ← BloomHash key;
      array ← set_probes (Z.to_nat k_) h (rotate h) bits array;
      add_keys keys bits array
  end.

Definition CreateFilter (keys : list bytes) (dst : bytes) : result bytes :=
  let bits := u64 (zlen keys * bits_per_key_) in
  let bits := if bits <? 64 then 64 else bits in
  let n := (bits + 7) / 8 in
  let bits := n * 8 in
  array ← add_keys keys bits (replicate (Z.to_nat n) 0 ++ [u8 k_]);
  Ok (dst ++ array).

Definition KeyMayMatch (key bloom_filter : bytes) : result bool :=
  let len := zlen bloom_filter in
  if len <? 2 then Ok false
  else
    let bits := u64 ((len - 1) * 8) in
    c ← load bloom_filter (len - 1);
    let k := u64 (schar c) in
    if 30 <? k then Ok true
    else h ← BloomHash key; test_probes (Z.to_nat k) h (rotate h) bits bloom_filter.

Definition Policy : FilterPolicy := {|
  fp_Name := str "leveldb.BuiltinBloomFilter";
  fp_CreateFilter := CreateFilter;
  fp_KeyMayMatch := KeyMayMatch
|}.
End bloom.
End BloomFilter.

(** ** User keys of internal keys *)

Fixpoint user_keys (keys : list bytes) : result (list bytes) :=
  match keys with [] => Ok [] | k :: keys => u ← ExtractUserKey k; us ← user_keys keys; Ok (u :: us) end.

Definition InternalPolicy (user_policy : FilterPolicy) : FilterPolicy := {|
  fp_Name := @fp_Name user_policy;
  fp_CreateFilter keys dst := us ← user_keys keys; @fp_CreateFilter user_policy us dst;
  fp_KeyMayMatch key f := u ← ExtractUserKey key; @fp_KeyMayMatch user_policy u f
|}.

(** ** No false negatives *)

Lemma hash_words_ok fuel : ∀ data h, ∃ r, hash_words fuel data h = Ok r.
Proof.
  induction fuel as [|fuel IH]; intros data h; [by eexists|]. cbn [hash_words]. destruct (Z.leb_spec 4 (zlen data)); [|by eexists].
  destruct data as [|? [|? [|? [|? ?]]]]; try (unfold zlen in *; cbn in *; lia). rewrite DecodeFixed32_loads. rbind. apply IH.
Qed.

Lemma Hash_ok data seed : ∃ h, Hash data seed = Ok h.
Proof. unfold Hash. destruct (hash_words_ok (length data) data (Z.lxor seed (u32 (zlen data * hash_m)))) as ([rest h] & ->). rbind. by eexists. Qed.

Lemma mix_range h n : 0 ≤ h < 2 ^ 32 → 0 ≤ n → 0 ≤ Z.lxor h (Z.shiftr h n) < 2 ^ 32.
Proof.
  intros Hr Hn. assert (0 ≤ Z.shiftr h n) by (apply Z.shiftr_nonneg; lia). assert (0 ≤ Z.lxor h (Z.shiftr h n)) by (apply Z.lxor_nonneg; lia).
  split; [done|]. apply (bits_lt_pow2 _ 32); [lia|done|]. intros i Hi. rewrite Z.lxor_spec, Z.shiftr_spec, !(testbit_above h 32) by lia. done.
Qed.
Lemma hash_words_range fuel : ∀ data h r, 0 ≤ h < 2 ^ 32 → hash_words fuel data h = Ok r → 0 ≤ r.2 < 2 ^ 32.
Proof.
  induction fuel as [|fuel IH]; intros data h r Hr E; cbn [hash_words] in E; [by injection E as <-|]. destruct (4 <=? zlen data); [|by injection E as <-].
  apply result_bind_Ok in E as (w & _ & E). eapply IH; [|exact E]. apply mix_range; [apply u32_range|lia].
Qed.
Lemma Hash_u32 data seed : 0 ≤ seed < 2 ^ 32 → ∃ h, Hash data seed = Ok h ∧ 0 ≤ h < 2 ^ 32.
Proof.
  intros Hs. destruct (Hash_ok data seed) as [h Eh]. exists h. split; [done|]. unfold Hash in Eh. apply result_bind_Ok in Eh as ([rest h0] & E & Eh).
  assert (0 ≤ Z.lxor seed (u32 (zlen data * hash_m)) < 2 ^ 32) as Hx.
  { pose proof (u32_range (zlen data * hash_m)) as Hu. assert (0 ≤ Z.lxor seed (u32 (zlen data * hash_m))) by (apply Z.lxor_nonneg; lia). split; [done|]. apply (bits_lt_pow2 _ 32); [lia|done|].
    intros i Hi. rewrite Z.lxor_spec, !(testbit_above _ 32) by lia. done. }
  pose proof (hash_words_range _ _ _ _ Hx E) as Hh. cbn in Hh.
  destruct rest as [|a [|b [|c [|d rest]]]]; injection Eh as <-; try exact Hh; (apply mix_range; [apply u32_range|lia]).
Qed.

Module BloomSpec.
Import BloomFilter.

(** [a'] has every bit of [a]. *)
Definition covers (a a' : bytes) : Prop :=
  length a' = length a ∧ ∀ i c, a !! i = Some c → ∃ c', a' !! i = Some c' ∧ ∀ b, Z.testbit c b = true → Z.testbit c' b = true.

#[local] Instance covers_trans : Transitive covers.
Proof.
  intros a b c [Hl H1] [Hl' H2]. split; [congruence|]. intros i x Hx. destruct (H1 i x Hx) as (y & Hy & Hxy). destruct (H2 i y Hy) as (z & Hz & Hyz). eauto.
Qed.
Lemma covers_refl a : covers a a.
Proof. split; eauto. Qed.

Lemma bit_index h bits n : bits = n * 8 → 0 < n → 0 ≤ u32 (h mod bits) / 8 < n.
Proof.
  intros -> Hn. pose proof (Z.mod_pos_bound h (n * 8) ltac:(lia)) as Hm. set (x := h mod (n * 8)) in *.
  assert (0 ≤ u32 x ≤ x) by (unfold u32; split; [apply Z.mod_pos_bound; lia|apply Z.mod_le; lia]).
  split; [apply Z.div_pos; lia|]. apply Z.div_lt_upper_bound; lia.
Qed.

Lemma load_lookup a i : 0 ≤ i < zlen a → ∃ c, a !! Z.to_nat i = Some c ∧ load a i = Ok c.
Proof.
  intros Hi. destruct (lookup_lt_is_Some_2 a (Z.to_nat i)) as [c Hc]; [unfold zlen in *; lia|]. exists c. split; [done|].
  unfold load, vec_at. rewrite (proj2 (Z.leb_le _ _)), (proj2 (Z.ltb_lt _ _)) by lia. cbn [andb]. by rewrite Hc.
Qed.

Lemma lor_byte x b : is_byte x → 0 ≤ b < 8 → is_byte (Z.lor x (Z.shiftl 1 b)).
Proof.
  unfold is_byte. intros Hx Hb. rewrite Z.shiftl_1_l. assert (0 ≤ Z.lor x (2 ^ b)) by (apply Z.lor_nonneg; split; [lia|apply Z.pow_nonneg; lia]).
  split; [done|]. apply (bits_lt_pow2 _ 8); [lia|done|]. intros i Hi. rewrite Z.lor_spec, (testbit_above x 8) by lia. rewrite Z.pow2_bits_false by lia. done.
Qed.

Section probes.
Context (n bits : Z) (Hbits : bits = n * 8) (Hn : 0 < n).

Lemma test_covers a a' j : ∀ h delta, covers a a' → test_probes j h delta bits a = Ok true → test_probes j h delta bits a' = Ok true.
Proof.
  intros h delta [Hl Hc]. revert h. induction j as [|j IH]; intros h; cbn [test_probes]; [done|]. intros Ht. apply result_bind_Ok in Ht as (x & E & Ht).
  unfold load, vec_at in E |- *. unfold zlen in *. rewrite Hl. destruct (_ && _); [|done]. destruct (a !! _) as [c|] eqn:Ea; [|done]. injection E as ->.
  destruct (Hc _ _ Ea) as (c' & -> & Hb). rbind. assert (0 ≤ u32 (h mod bits) mod 8) by (apply Z.mod_pos_bound; lia).
  rewrite Z.shiftl_1_l, Bloom.land_pow2_zero in Ht |- * by done. destruct (Z.testbit x _) eqn:Ex; [|done]. cbn [negb] in Ht. rewrite (Hb _ Ex). cbn. by apply IH.
Qed.

(** A test stays inside the filter. *)
Lemma test_total j : ∀ h delta a, n ≤ zlen a → ∃ b, test_probes j h delta bits a = Ok b.
Proof.
  induction j as [|j IH]; intros h delta a Ha; cbn [test_probes]; [by eexists|]. pose proof (bit_index h bits n Hbits Hn) as Hp.
  destruct (load_lookup a (u32 (h mod bits) / 8)) as (c & _ & ->); [lia|]. rbind. destruct (_ =? 0); [by eexists|]. by apply IH.
Qed.

(** Setting the probes of a key succeeds; its test then does, and nothing
    that was set is lost. *)
Lemma set_probes_ok j : ∀ h delta a, n ≤ zlen a →
  ∃ a', set_probes j h delta bits a = Ok a' ∧ covers a a' ∧ test_probes j h delta bits a' = Ok true ∧ (Forall is_byte a → Forall is_byte a') ∧
    ∀ i, (Z.to_nat n ≤ i)%nat → a' !! i = a !! i.
Proof.
  induction j as [|j IH]; intros h delta a Ha; [exists a; split; [done|]; split; [apply covers_refl|done]|]. cbn [set_probes].
  pose proof (bit_index h bits n Hbits Hn) as Hp. set (p := u32 (h mod bits)) in *. destruct (load_lookup a (p / 8)) as (c & Hc & ->); [lia|]. rbind.
  unfold store. rewrite (proj2 (Z.leb_le _ _)), (proj2 (Z.ltb_lt _ _)) by lia. cbn [andb]. rbind.
  set (a1 := <[_ := _]> a). assert (covers a a1) as Hcov.
  { unfold a1. split; [by rewrite length_insert|]. intros i x Hx. destruct (decide (i = Z.to_nat (p / 8))) as [->|Hne].
    - rewrite list_lookup_insert_eq by (unfold zlen in *; lia). rewrite Hc in Hx. injection Hx as ->. eexists. split; [done|]. intros b Hb.
      destruct (Z.neg_nonneg_cases b); [by rewrite Z.testbit_neg_r in Hb|]. rewrite Z.lor_spec, Hb. done.
    - rewrite list_lookup_insert_ne by done. eauto. }
  destruct (IH (u32 (h + delta)) delta a1) as (a' & -> & Hcov' & Ht & Hby & Hsame); [unfold a1, zlen in *; by rewrite length_insert|].
  exists a'. split; [done|]. split; [by transitivity a1|]. split.
  - cbn [test_probes]. fold p. assert (0 ≤ p mod 8) by (apply Z.mod_pos_bound; lia).
    assert (a1 !! Z.to_nat (p / 8) = Some (Z.lor c (Z.shiftl 1 (p mod 8)))) as E1 by (apply list_lookup_insert_eq; unfold zlen in *; lia).
    destruct Hcov' as [Hl Hb]. destruct (Hb _ _ E1) as (c' & Ec' & Hb'). destruct (load_lookup a' (p / 8)) as (c2 & Hc2 & ->).
    { unfold zlen in *. rewrite Hl. unfold a1. rewrite length_insert. lia. }
    rewrite Ec' in Hc2. simplify_eq. rbind. rewrite Z.shiftl_1_l, Bloom.land_pow2_zero by done. rewrite Hb'; [done|].
    by rewrite Z.lor_spec, Z.shiftl_1_l, Z.pow2_bits_true, orb_true_r.
  - split; [intros Hb; apply Hby; unfold a1; apply Forall_insert; [done|]; apply lor_byte; [rewrite Forall_lookup in Hb; by eapply Hb|apply Z.mod_pos_bound; lia]|].
    intros i Hi. rewrite Hsame by done. unfold a1. apply list_lookup_insert_ne. lia.
Qed.

Lemma add_keys_ok bpk keys : ∀ a, n ≤ zlen a →
  ∃ a', add_keys bpk keys bits a = Ok a' ∧ covers a a' ∧ (Forall is_byte a → Forall is_byte a') ∧ (∀ i, (Z.to_nat n ≤ i)%nat → a' !! i = a !! i) ∧
    ∀ k h, k ∈ keys → BloomHash k = Ok h → test_probes (Z.to_nat (k_ bpk)) h (rotate h) bits a' = Ok true.
Proof.
  induction keys as [|k keys IH]; intros a Ha.
  - exists a. split; [done|]. split; [apply covers_refl|]. split; [done|]. split; [done|]. intros k h Hk. by apply elem_of_nil in Hk.
  - cbn [add_keys]. destruct (Hash_ok k 0xbc9f1d34) as [h Eh]. change (Hash k 0xbc9f1d34) with (BloomHash k) in Eh. rewrite Eh. rbind.
    destruct (set_probes_ok (Z.to_nat (k_ bpk)) h (rotate h) a Ha) as (a1 & -> & Hc1 & Ht1 & Hb1 & Hs1). rbind.
    destruct (IH a1) as (a2 & -> & Hc2 & Hb2 & Hs2 & Hk2); [destruct Hc1 as [Hl _]; unfold zlen in *; by rewrite Hl|].
    exists a2. split; [done|]. split; [by transitivity a1|]. split; [auto|]. split; [intros i Hi; by rewrite Hs2, Hs1|].
    intros k' h' [->|Hin]%elem_of_cons Eh'; [|by eapply Hk2]. rewrite Eh in Eh'. injection Eh' as <-. by eapply test_covers.
Qed.
End probes.

Lemma k_range bpk : 1 ≤ k_ bpk ≤ 30.
Proof. unfold k_. destruct (Z.ltb_spec (bpk * 69 / 100) 1), (Z.ltb_spec 30 (bpk * 69 / 100)); lia. Qed.

Lemma KeyMayMatch_tail key f k n : f !! n = Some k → length f = S n → 1 ≤ k ≤ 30 → (1 ≤ n)%nat → Z.of_nat n < 2 ^ 60 →
  KeyMayMatch key f = (h ← BloomHash key; test_probes (Z.to_nat k) h (rotate h) (Z.of_nat n * 8) f).
Proof.
  intros Hk Hl Hr Hn Hm. unfold KeyMayMatch. assert (zlen f = Z.of_nat n + 1) as -> by (unfold zlen; lia).
  rewrite (proj2 (Z.ltb_ge _ _)) by lia. replace (Z.of_nat n + 1 - 1) with (Z.of_nat n) by lia. rewrite u64_small by lia.
  destruct (load_lookup f (Z.of_nat n)) as (c & Hc & ->); [unfold zlen; lia|]. rewrite Nat2Z.id, Hk in Hc. injection Hc as <-. rbind.
  unfold schar. rewrite (proj2 (Z.ltb_lt k 128)) by lia. rewrite u64_small by lia. by rewrite (proj2 (Z.ltb_ge _ _)) by lia.
Qed.

#[export] Instance bloom_laws bpk (Hb : 0 ≤ bpk < 2 ^ 31) : FilterLaws (H := Policy bpk) id (λ _, True) (=) bpk.
Proof.
  split; [split; [repeat constructor; lia|done]|done|]. intros ks dst _ Hks. cbn [fp_CreateFilter fp_KeyMayMatch Policy]. rewrite list_fmap_id. unfold CreateFilter.
  pose proof (zlen_nonneg ks). rewrite u64_small by nia. set (bits := if zlen ks * bpk <? 64 then 64 else zlen ks * bpk).
  assert (64 ≤ bits ≤ 64 + zlen ks * bpk ∧ bits < 2 ^ 62 + 1) as [Hbits Hbm] by (subst bits; destruct (Z.ltb_spec (zlen ks * bpk) 64); nia).
  set (n := (bits + 7) / 8). assert (8 ≤ n ∧ n * 8 ≤ bits + 7) as [Hn Hn'] by (subst n; Z.to_euclidean_division_equations; lia).
  set (a0 := replicate (Z.to_nat n) 0 ++ [u8 (k_ bpk)]). assert (zlen a0 = n + 1) as Ha0 by (unfold a0, zlen; rewrite length_app, length_replicate; cbn; lia).
  destruct (add_keys_ok n (n * 8) eq_refl ltac:(lia) bpk ks a0 ltac:(lia)) as (a & -> & [Hl _] & Hby & Hs & Hk). rbind.
  exists a. split; [done|]. split; [unfold zlen in *; nia|]. split; [apply Hby, Forall_app; split; [by apply Forall_replicate|]; repeat constructor; apply u8_range|]. intros k t Hin _.
  assert (a !! Z.to_nat n = Some (k_ bpk)) as Hlast.
  { rewrite Hs by done. unfold a0. rewrite lookup_app_r by (by rewrite length_replicate). rewrite length_replicate, Nat.sub_diag. cbn.
    pose proof (k_range bpk). by rewrite u8_small by lia. }
  unfold id. rewrite (KeyMayMatch_tail t a (k_ bpk) (Z.to_nat n)); [|done|unfold zlen in *; lia|apply k_range|lia|lia].
  destruct (Hash_ok t 0xbc9f1d34) as [h Eh]. change (Hash t 0xbc9f1d34) with (BloomHash t) in Eh. rewrite Eh. rbind. rewrite Z2Nat.id by lia.
  destruct (test_total n (n * 8) eq_refl ltac:(lia) (Z.to_nat (k_ bpk)) h (rotate h) a) as [b Eb]; [unfold zlen in *; lia|]. exists b. split; [done|].
  intros <-. rewrite (Hk k h Hin Eh) in Eb. by injection Eb.
Qed.
End BloomSpec.

(** Internal keys match by their user keys. *)
Lemma user_keys_ok ks : user_keys (ikey <$> ks) = Ok (fst <$> ks).
Proof. induction ks as [|k ks IH]; [done|]. cbn. rewrite ExtractUserKey_ikey. rbind. by rewrite IH. Qed.

#[export] Instance internal_policy_laws (P : FilterPolicy) good cost `{!FilterLaws (H := P) id good (=) cost} :
  FilterLaws (H := InternalPolicy P) ikey (λ k, key_ok k ∧ good k.1) (λ a b, a.1 = b.1) cost.
Proof.
  destruct FilterLaws0 as [Hname Hcost Hcreate]. split; [exact Hname|exact Hcost|]. intros ks dst Hg Hk. cbn [fp_CreateFilter fp_KeyMayMatch InternalPolicy]. rewrite user_keys_ok. rbind.
  destruct (Hcreate (fst <$> ks) dst) as (f & Ef & Hf & Hfb & Hm).
  { rewrite Forall_fmap. eapply Forall_impl; [exact Hg|]. by intros k []. }
  { unfold zlen in *. by rewrite length_fmap. }
  rewrite list_fmap_id in Ef. exists f. split; [done|]. unfold zlen in *. rewrite length_fmap in Hf. split; [done|]. split; [done|].
  intros k t Hin [_ Ht]. rewrite ExtractUserKey_ikey. rbind. apply (Hm k.1); [apply list_elem_of_fmap; by exists k|done].
Qed.

Lemma filter_restrict {A} (enc : A → bytes) (good good' : A → Prop) same cost `{HP : FilterPolicy} :
  FilterLaws enc good same cost → (∀ a, good' a → good a) → FilterLaws enc good' same cost.
Proof.
  intros [H1 H2 H3] Hg. split; [exact H1|exact H2|]. intros ks dst Hks Hn. destruct (H3 ks dst) as (f & E & Hz & Hb & Hm); [by eapply Forall_impl|done|].
  exists f. repeat (split; [done|]). intros k t Hk Ht. apply Hm; auto.
Qed.
