(* ===== verification/Block.v ===== *)
(** * Blocks of a table (pack/leveldb/table/block_builder.cc, block.cc,
    iterator.cc)

    A block is a run of entries, each with its key cut by what it shares with
    the key before, then the offsets of the entries that share nothing (the
    restart points) and their number. Pointers into a block are offsets. The
    loops over a block take its length as fuel: a round reads at least one
    byte, or one restart point, further on. *)

From S2P Require Import Prelude Cstd Cmem Coding Status DbFormat Iter Comparator.

(** ** Building *)
Module BlockBuilder.
Section builder.
Context `{Comparator} (block_restart_interval : Z).

Record BlockBuilder := {
  buffer_ : bytes;
  restarts_ : list Z;
  counter_ : Z;
  finished_ : bool;
  last_key_ : bytes
}.

Definition BlockBuilder_new : result BlockBuilder :=
  if 1 <=? block_restart_interval
  then Ok {| buffer_ := []; restarts_ := [0]; counter_ := 0; finished_ := false; last_key_ := [] |}
  else Fault AssertFailed.

Definition Reset (b : BlockBuilder) : BlockBuilder :=
  {| buffer_ := []; restarts_ := [0]; counter_ := 0; finished_ := false; last_key_ := [] |}.

Definition CurrentSizeEstimate (b : BlockBuilder) : Z := u64 (zlen (buffer_ b) + zlen (restarts_ b) * 4 + 4).

Definition Finish (b : BlockBuilder) : bytes * BlockBuilder :=
  let buf := foldl PutFixed32 (buffer_ b) (restarts_ b) in
  let buf := PutFixed32 buf (u32 (zlen (restarts_ b))) in
  (buf, {| buffer_ := buf; restarts_ := restarts_ b; counter_ := counter_ b; finished_ := true; last_key_ := last_key_ b |}).

Definition empty (b : BlockBuilder) : bool := bool_decide (buffer_ b = []).

Definition Add (key value : bytes) (b : BlockBuilder) : result BlockBuilder :=
  if finished_ b || negb (counter_ b <=? block_restart_interval) then Fault AssertFailed
  else
    ordered ← (if empty b then Ok true else r ← cp_Compare key (last_key_ b); Ok (0 <? r));
    if negb ordered then Fault AssertFailed
    else
      let '(shared, restarts, counter) :=
        if counter_ b <? block_restart_interval then (diff_index (last_key_ b) key, restarts_ b, counter_ b)
        else (0%nat, restarts_ b ++ [u32 (zlen (buffer_ b))], 0) in
      let non_shared := zlen key - Z.of_nat shared in
      let buf := PutVarint32 (buffer_ b) (u32 (Z.of_nat shared)) in
      let buf := PutVarint32 buf (u32 non_shared) in
      let buf := PutVarint32 buf (u32 (zlen value)) in
      let buf := buf ++ drop shared key ++ value in
      let last := take shared (last_key_ b) ++ drop shared key in
      if decide (last = key) then
        Ok {| buffer_ := buf; restarts_ := restarts; counter_ := counter + 1; finished_ := false; last_key_ := last |}
      else Fault AssertFailed.
End builder.
End BlockBuilder.

(** ** Reading *)
Module Block.

(** The bytes at an offset, to the end of the block. *)
Definition bytes_at (d : bytes) (p : Z) : result bytes := if p <=? zlen d then Ok (drop (Z.to_nat p) d) else Fault OutOfBounds.

(** [DecodeEntry(data + p, data + limit)]: the three lengths and the offset
    behind them; [None] is NULL. *)
Definition decoded (limit shared non_shared value_length p : Z) : option (Z * Z * Z * Z) :=
  if u32 (limit - p) <? u32 (non_shared + value_length) then None else Some (shared, non_shared, value_length, p).

Definition DecodeEntry (data : bytes) (p limit : Z) : result (option (Z * Z * Z * Z)) :=
  if limit - p <? 3 then Ok None
  else
    a ← load data p; b ← load data (p + 1); c ← load data (p + 2);
    if Z.lor (Z.lor a b) c <? 128 then Ok (decoded limit a b c (p + 3))
    else
      let number p := r ← GetVarint32Ptr (drop (Z.to_nat p) data) (limit - p);
                      Ok (match r with Some (v, rest) => Some (v, zlen data - zlen rest) | None => None end) in
      r ← number p;
      match r with
      | None => Ok None
      | Some (shared, p) =>
          r ← number p;
          match r with
          | None => Ok None
          | Some (non_shared, p) =>
              r ← number p;
              match r with
              | None => Ok None
              | Some (value_length, p) => Ok (decoded limit shared non_shared value_length p)
              end
          end
      end.

Section iter.
Context `{Comparator}.

(** [value_] is an offset and a length; [None] is the empty slice, which does
    not point into the block. *)
Record BIter := {
  data : bytes;
  restarts_ : Z;
  num_restarts_ : Z;
  current_ : Z;
  restart_index_ : Z;
  key_ : bytes;
  value_ : option (Z * Z);
  status_ : Status
}.

Definition BIter_new (d : bytes) (restarts num_restarts : Z) : result BIter :=
  if 0 <? num_restarts
  then Ok {| data := d; restarts_ := restarts; num_restarts_ := num_restarts; current_ := restarts; restart_index_ := num_restarts;
             key_ := []; value_ := None; status_ := sOK |}
  else Fault AssertFailed.

Definition moved (current index : Z) (k : bytes) (v : option (Z * Z)) (s : Status) (it : BIter) : BIter :=
  {| data := data it; restarts_ := restarts_ it; num_restarts_ := num_restarts_ it; current_ := current; restart_index_ := index;
     key_ := k; value_ := v; status_ := s |}.
Definition at_end (it : BIter) : BIter := moved (restarts_ it) (num_restarts_ it) (key_ it) (value_ it) (status_ it) it.
Definition with_index (i : Z) (it : BIter) : BIter := moved (current_ it) i (key_ it) (value_ it) (status_ it) it.

Definition CorruptionError (it : BIter) : BIter :=
  moved (restarts_ it) (num_restarts_ it) [] None (Corruption (str "bad entry in block")) it.

Definition Valid (it : BIter) : bool := current_ it <? restarts_ it.

Definition key (it : BIter) : result bytes := if Valid it then Ok (key_ it) else Fault AssertFailed.
Definition value (it : BIter) : result bytes :=
  if Valid it then match value_ it with Some (o, n) => slice (data it) o n | None => Ok [] end else Fault AssertFailed.

Definition NextEntryOffset (it : BIter) : result Z :=
  match value_ it with Some (o, n) => Ok (u32 (o + n)) | None => Fault OutOfBounds end.

Definition GetRestartPoint (it : BIter) (index : Z) : result Z :=
  if index <? num_restarts_ it then p ← bytes_at (data it) (restarts_ it + index * 4); DecodeFixed32 p else Fault AssertFailed.

Definition SeekToRestartPoint (index : Z) (it : BIter) : result BIter :=
  offset ← GetRestartPoint it index;
  Ok (moved (current_ it) index [] (Some (offset, 0)) (status_ it) it).

(** The last loop of [ParseNextKey]. *)
Fixpoint next_restart (fuel : nat) (it : BIter) : result BIter :=
  match fuel with
  | O => Fault AssertFailed
  | S fuel =>
      if u32 (restart_index_ it + 1) <? num_restarts_ it then
        r ← GetRestartPoint it (u32 (restart_index_ it + 1));
        if r <? current_ it then next_restart fuel (with_index (u32 (restart_index_ it + 1)) it) else Ok it
      else Ok it
  end.

Definition ParseNextKey (it : BIter) : result (bool * BIter) :=
  cur ← NextEntryOffset it;
  if restarts_ it <=? cur then Ok (false, at_end it)
  else
    d ← DecodeEntry (data it) cur (restarts_ it);
    match d with
    | None => Ok (false, CorruptionError it)
    | Some (shared, non_shared, value_length, p) =>
        if zlen (key_ it) <? shared then Ok (false, CorruptionError it)
        else
          rest ← slice (data it) p non_shared;
          let k := take (Z.to_nat shared) (key_ it) ++ rest in
          it ← next_restart (S (length (data it))) (moved cur (restart_index_ it) k (Some (p + non_shared, value_length)) (status_ it) it);
          Ok (true, it)
    end.

Definition Next (it : BIter) : result BIter :=
  if Valid it then '(_, it) ← ParseNextKey it; Ok it else Fault AssertFailed.

(** [while (ParseNextKey() && NextEntryOffset() < limit)]. *)
Fixpoint scan (fuel : nat) (limit : Z) (it : BIter) : result BIter :=
  match fuel with
  | O => Fault AssertFailed
  | S fuel =>
      '(more, it) ← ParseNextKey it;
      if (more : bool) then o ← NextEntryOffset it; if o <? limit then scan fuel limit it else Ok it
      else Ok it
  end.

(** The first loop of [Prev]; [false] is its return. *)
Fixpoint back (fuel : nat) (original : Z) (it : BIter) : result (bool * BIter) :=
  match fuel with
  | O => Fault AssertFailed
  | S fuel =>
      r ← GetRestartPoint it (restart_index_ it);
      if original <=? r then
        if restart_index_ it =? 0 then Ok (false, at_end it) else back fuel original (with_index (restart_index_ it - 1) it)
      else Ok (true, it)
  end.

Definition Prev (it : BIter) : result BIter :=
  if Valid it then
    let original := current_ it in
    '(more, it) ← back (S (length (data it))) original it;
    if (more : bool) then it ← SeekToRestartPoint (restart_index_ it) it; scan (S (length (data it))) original it else Ok it
  else Fault AssertFailed.

(** The binary search of [Seek]: [None] is a damaged entry. *)
Fixpoint search (fuel : nat) (target : bytes) (left right : Z) (it : BIter) : result (option Z) :=
  match fuel with
  | O => Fault AssertFailed
  | S fuel =>
      if left <? right then
        let mid := u32 (left + right + 1) / 2 in
        region_offset ← GetRestartPoint it mid;
        d ← DecodeEntry (data it) region_offset (restarts_ it);
        match d with
        | None => Ok None
        | Some (shared, non_shared, _, key_ptr) =>
            if negb (shared =? 0) then Ok None
            else
              mid_key ← slice (data it) key_ptr non_shared;
              r ← cp_Compare mid_key target;
              if r <? 0 then search fuel target mid right it else search fuel target left (mid - 1) it
        end
      else Ok (Some left)
  end.

(** The linear search of [Seek]. *)
Fixpoint walk (fuel : nat) (target : bytes) (it : BIter) : result BIter :=
  match fuel with
  | O => Fault AssertFailed
  | S fuel =>
      '(more, it) ← ParseNextKey it;
      if (more : bool) then r ← cp_Compare (key_ it) target; if 0 <=? r then Ok it else walk fuel target it
      else Ok it
  end.

Definition Seek (target : bytes) (it : BIter) : result BIter :=
  r ← search (S (length (data it))) target 0 (u32 (num_restarts_ it - 1)) it;
  match r with
  | None => Ok (CorruptionError it)
  | Some l => it ← SeekToRestartPoint l it; walk (S (length (data it))) target it
  end.

Definition SeekToFirst (it : BIter) : result BIter :=
  it ← SeekToRestartPoint 0 it; '(_, it) ← ParseNextKey it; Ok it.

Definition SeekToLast (it : BIter) : result BIter :=
  it ← SeekToRestartPoint (u32 (num_restarts_ it - 1)) it; scan (S (length (data it))) (restarts_ it) it.
End iter.

(** [Block]; a size of 0 marks an error, and [restart_offset_] is read only
    where the size is not 0. *)
Record Block := { data_ : bytes; size_ : Z; restart_offset_ : Z }.

Definition NumRestarts (d : bytes) (size : Z) : result Z :=
  if 8 <=? size then DecodeFixed32 (drop (Z.to_nat (size - 4)) d) else Fault AssertFailed.

Definition Block_new (contents : bytes) : result Block :=
  let size := zlen contents in
  if size <? 4 then Ok {| data_ := contents; size_ := 0; restart_offset_ := 0 |}
  else
    n ← NumRestarts contents size;
    let offset := u32 (u64 (size - u32 (1 + n) * 4)) in
    Ok {| data_ := contents; size_ := if size - 4 <? offset then 0 else size; restart_offset_ := offset |}.

(** [EmptyIterator] of iterator.cc, which carries a status, or the iterator
    of the block. *)
Inductive BlockIterator := EmptyIterator (s : Status) | OverBlock (it : BIter).

Definition NewIterator (b : Block) : result BlockIterator :=
  if size_ b <? 8 then Ok (EmptyIterator (Corruption (str "bad block contents")))
  else
    n ← NumRestarts (data_ b) (size_ b);
    if n =? 0 then Ok (EmptyIterator sOK) else it ← BIter_new (data_ b) (restart_offset_ b) n; Ok (OverBlock it).

Definition on_block {A} (i : BlockIterator) (f : BIter → result A) : result A :=
  match i with EmptyIterator _ => Fault AssertFailed | OverBlock it => f it end.
Definition move_block (i : BlockIterator) (f : BIter → result BIter) : result BlockIterator :=
  on_block i (λ it, it ← f it; Ok (OverBlock it)).
Definition seek_block (i : BlockIterator) (f : BIter → result BIter) : result BlockIterator :=
  match i with EmptyIterator _ => Ok i | OverBlock it => it ← f it; Ok (OverBlock it) end.

#[global] Instance Block_Iter `{Comparator} : Iter BlockIterator := {
  it_Valid i := match i with EmptyIterator _ => false | OverBlock it => Valid it end;
  it_key i := on_block i key;
  it_value i := on_block i value;
  it_Next i := move_block i Next;
  it_Prev i := move_block i Prev;
  it_Seek target i := seek_block i (Seek target);
  it_SeekToFirst i := seek_block i SeekToFirst;
  it_SeekToLast i := seek_block i SeekToLast;
  it_status i := match i with EmptyIterator s => s | OverBlock it => status_ it end
}.
End Block.
