(* ===== verification/BlockSpec.v ===== *)
(** * A block gives back its entries (theorems about Block.v)

    What a builder writes has a layout; the iterator over a block with that
    layout has the interface of an iterator over the entries that were added,
    in both directions and from every seek. *)

From stdpp Require Import sorting.
From S2P Require Import Prelude Cstd Cmem Coding Status DbFormat Iter Comparator Block.
Import Block.

(** ** The layout of a block *)

(** An entry: how much its key shares with the key before, the key and the
    value. *)
Abbreviation entry := (nat * (bytes * bytes))%type.
Definition header (e : entry) : bytes :=
  EncodeVarint32 (Z.of_nat e.1) ++ EncodeVarint32 (zlen e.2.1 - Z.of_nat e.1) ++ EncodeVarint32 (zlen e.2.2).
Definition packed (e : entry) : bytes := header e ++ drop e.1 e.2.1 ++ e.2.2.
Definition body (E : list entry) : bytes := concat (packed <$> E).
Definition off (E : list entry) (i : nat) : Z := zlen (body (take i E)).

(** Every key shares a prefix with the key before it. *)
Fixpoint cut (prev : bytes) (E : list entry) : Prop :=
  match E with
  | [] => True
  | (s, (k, v)) :: E => take s prev = take s k ∧ (s ≤ length prev)%nat ∧ (s ≤ length k)%nat ∧ zlen k < 2 ^ 31 ∧ zlen v < 2 ^ 31 ∧ cut k E
  end.

Definition points (E : list entry) (idx : list nat) : bytes := concat (EncodeFixed32 ∘ off E <$> idx).

Record layout (d : bytes) (restarts num : Z) (E : list entry) (idx : list nat) : Prop := {
  l_data : d = body E ++ points E idx ++ EncodeFixed32 (zlen idx);
  l_restarts : restarts = zlen (body E);
  l_num : num = zlen idx;
  l_size : zlen d < 2 ^ 32;
  l_cut : cut [] E;
  l_first : idx !! 0%nat = Some 0%nat;
  l_points j i : idx !! j = Some i → (j = 0%nat ∧ i = 0%nat) ∨ ∃ k v, E !! i = Some (0%nat, (k, v))
}.

(** ** Entries *)

Lemma body_app E E' : body (E ++ E') = body E ++ body E'.
Proof. unfold body. by rewrite fmap_app, concat_app. Qed.
Lemma body_cons e E : body (e :: E) = packed e ++ body E.
Proof. done. Qed.

Lemma off_0 E : off E 0 = 0.
Proof. done. Qed.
Lemma off_S E i e : E !! i = Some e → off E (S i) = off E i + zlen (packed e).
Proof. intros He. unfold off. rewrite (take_S_r _ _ _ He), body_app, zlen_app, (body_cons e []), app_nil_r. done. Qed.
Lemma off_all E i : (length E ≤ i)%nat → off E i = zlen (body E).
Proof. intros Hi. unfold off. by rewrite take_ge. Qed.
Lemma off_mono E i j : (i ≤ j)%nat → off E i ≤ off E j.
Proof.
  intros Hij. unfold off. replace (take j E) with (take i E ++ take (j - i) (drop i E)); [rewrite body_app, zlen_app; zlia|].
  rewrite take_take_drop. f_equal. lia.
Qed.
Lemma off_le E i : 0 ≤ off E i ≤ zlen (body E).
Proof.
  split; [apply zlen_nonneg|]. destruct (Nat.le_gt_cases i (length E)); [|by rewrite off_all by lia].
  rewrite <- (off_all E (length E)) by done. by apply off_mono.
Qed.
Lemma body_split E i e : E !! i = Some e → body E = body (take i E) ++ packed e ++ body (drop (S i) E).
Proof. intros He. rewrite <- (take_drop_middle _ _ _ He) at 1. by rewrite body_app, body_cons. Qed.

Lemma cut_lookup prev E i s k v : cut prev E → E !! i = Some (s, (k, v)) →
  (s ≤ length k)%nat ∧ zlen k < 2 ^ 31 ∧ zlen v < 2 ^ 31 ∧
  ∃ p, take s p = take s k ∧ (s ≤ length p)%nat ∧
    match i with O => p = prev | S i => ∃ s' v', E !! i = Some (s', (p, v')) end.
Proof.
  revert prev i. induction E as [|[s' [k' v']] E IH]; intros prev [|i] Hc He; try done; cbn in He; destruct Hc as (H1 & H2 & H3 & H4 & H5 & Hc).
  - simplify_eq. repeat (split; [done|]). by exists prev.
  - destruct (IH k' i Hc He) as (? & ? & ? & p & ? & ? & Hp). repeat (split; [done|]). exists p. repeat (split; [done|]).
    destruct i as [|i]; [subst p; by exists s', v'|done].
Qed.

Lemma cut_app prev E s k v : cut prev E → take s (default prev (fst ∘ snd <$> last E)) = take s k →
  (s ≤ length (default prev (fst ∘ snd <$> last E)))%nat → (s ≤ length k)%nat → zlen k < 2 ^ 31 → zlen v < 2 ^ 31 → cut prev (E ++ [(s, (k, v))]).
Proof.
  revert prev. induction E as [|[s' [k' v']] E IH]; intros prev Hc H1 H2 H3 H4 H5; [by cbn in *|].
  destruct Hc as (? & ? & ? & ? & ? & Hc). cbn [app cut]. repeat (split; [done|]). rewrite last_cons in H1, H2.
  apply IH; try done; by destruct (last E).
Qed.

(** The three lengths are read back, on both paths. *)
Lemma lor_small a b n : 0 ≤ n → 0 ≤ a → 0 ≤ b → Z.lor a b < 2 ^ n → a < 2 ^ n.
Proof.
  intros Hn Ha Hb Hl. destruct (Z.eq_dec a 0) as [->|]; [by apply Z.pow_pos_nonneg|].
  pose proof (Z.log2_lor a b Ha Hb). destruct (Z.eq_dec (Z.lor a b) 0) as [E|]; [by apply Z.lor_eq_0_iff in E as []|].
  assert (0 ≤ Z.lor a b) by by apply Z.lor_nonneg. apply Z.log2_lt_pow2; [lia|]. apply Z.log2_lt_pow2 in Hl; lia.
Qed.

(** An encoding that begins with a small byte is that byte. *)
Lemma varint_one v b t : 0 ≤ v < 2 ^ 32 → EncodeVarint32 v = b :: t → b < 128 → v = b ∧ t = [].
Proof.
  intros Hv E Hb. rewrite EncodeVarint32_groups in E by done. destruct (Z.leb_spec 128 v).
  - rewrite (groups_step 8) in E by done. apply (f_equal (hd 0)) in E. cbn [hd] in E. pose proof (Z.mod_pos_bound v 128). lia.
  - rewrite <- (groups_enough 0) in E by lia. cbn in E. injection E as <- <-. by rewrite u8_small by lia.
Qed.

Lemma varint_cons v : 0 ≤ v < 2 ^ 32 → ∃ b t, EncodeVarint32 v = b :: t ∧ is_byte b.
Proof.
  intros Hv. pose proof (Varint32_length v Hv). pose proof (varint32_bytes v Hv) as Hb. destruct (EncodeVarint32 v) as [|b t]; [unfold zlen in *; cbn in *; lia|].
  exists b, t. by apply Forall_cons in Hb as [? _].
Qed.

(** The first three bytes of three encodings are all small only where they are
    the three numbers. *)
Lemma three_small s n w : 0 ≤ s < 2 ^ 32 → 0 ≤ n < 2 ^ 32 → 0 ≤ w < 2 ^ 32 →
  ∃ x y z t, EncodeVarint32 s ++ EncodeVarint32 n ++ EncodeVarint32 w = x :: y :: z :: t ∧
    (Z.lor (Z.lor x y) z < 128 → x = s ∧ y = n ∧ z = w ∧ t = []).
Proof.
  intros Hs Hn Hw. pose proof (varint32_bytes s Hs) as Bs. pose proof (varint32_bytes n Hn) as Bn. pose proof (varint32_bytes w Hw) as Bw.
  destruct (varint_cons s Hs) as (x & t0 & Es & Hx), (varint_cons n Hn) as (y0 & t1 & En & Hy0), (varint_cons w Hw) as (z0 & t2 & Ew & Hz0).
  assert (∃ y z t, t0 ++ EncodeVarint32 n ++ EncodeVarint32 w = y :: z :: t ∧ is_byte y ∧ is_byte z) as (y & z & t & E & Hy & Hz).
  { rewrite Es in Bs. apply Forall_cons in Bs as [_ B0].
    assert (Forall is_byte (t0 ++ EncodeVarint32 n ++ EncodeVarint32 w)) as B by (rewrite !Forall_app; done). rewrite En, Ew in *.
    destruct t0 as [|y [|z t0]]; cbn [app] in *.
    - destruct t1 as [|z t1]; cbn [app] in *; eexists _, _, _; (split; [done|]); split; try done. rewrite !Forall_cons in B. naive_solver.
    - eexists _, _, _. split; [done|]. rewrite !Forall_cons in B. naive_solver.
    - eexists _, _, _. split; [done|]. rewrite !Forall_cons in B. naive_solver. }
  exists x, y, z, t. rewrite Es. split; [cbn [app]; by rewrite E|]. unfold is_byte in *. intros Hl.
  assert (0 ≤ Z.lor x y) by (apply Z.lor_nonneg; lia). pose proof (lor_small (Z.lor x y) z 7 ltac:(lia) ltac:(lia) ltac:(lia) Hl) as Hxy.
  assert (z < 128) as Hz1 by (apply (lor_small z (Z.lor x y) 7); [lia..|by rewrite Z.lor_comm]).
  assert (x < 128) as Hx1 by (apply (lor_small x y 7); lia). assert (y < 128) as Hy1 by (apply (lor_small y x 7); [lia..|by rewrite Z.lor_comm]).
  destruct (varint_one s x t0 Hs Es Hx1) as [-> ->]. cbn [app] in E. rewrite En in E. cbn [app] in E. injection E as -> E.
  destruct (varint_one n y t1 Hn En Hy1) as [-> ->]. cbn [app] in E. rewrite Ew in E. injection E as -> ->.
  by destruct (varint_one w z t Hw Ew Hz1) as [-> ->].
Qed.

Definition lengths_ok (e : entry) : Prop := (e.1 ≤ length e.2.1)%nat ∧ zlen e.2.1 < 2 ^ 31 ∧ zlen e.2.2 < 2 ^ 31.

Lemma zlen_packed e : lengths_ok e → zlen (packed e) = zlen (header e) + (zlen e.2.1 - Z.of_nat e.1) + zlen e.2.2.
Proof. intros (H1 & _). unfold packed. rewrite !zlen_app. unfold zlen. rewrite length_drop. lia. Qed.

Lemma header_length e : lengths_ok e → 3 ≤ zlen (header e).
Proof.
  intros (H1 & H2 & H3). unfold header. rewrite !zlen_app.
  pose proof (Varint32_length (Z.of_nat e.1)). pose proof (Varint32_length (zlen e.2.1 - Z.of_nat e.1)).
  pose proof (Varint32_length (zlen e.2.2)). unfold zlen in *. lia.
Qed.

Lemma DecodeEntry_ok a e c p limit : lengths_ok e → p = zlen a → p + zlen (packed e) ≤ limit → limit < 2 ^ 32 →
  DecodeEntry (a ++ packed e ++ c) p limit =
  Ok (Some (Z.of_nat e.1, zlen e.2.1 - Z.of_nat e.1, zlen e.2.2, p + zlen (header e))).
Proof.
  intros He -> Hl Hm. pose proof (header_length e He) as Hh. pose proof He as (H1 & H2 & H3). pose proof (zlen_packed e He) as Hp.
  pose proof (zlen_nonneg a). pose proof (zlen_nonneg e.2.1). pose proof (zlen_nonneg e.2.2).
  set (s := Z.of_nat e.1) in *. set (n := zlen e.2.1 - s) in *. set (w := zlen e.2.2) in *.
  assert (0 ≤ s < 2 ^ 32) as Hs by (unfold zlen in *; lia). assert (0 ≤ n < 2 ^ 32) as Hn by (unfold zlen in *; lia).
  assert (0 ≤ w < 2 ^ 32) as Hw by lia.
  assert (decoded limit s n w (zlen a + zlen (header e)) = Some (s, n, w, zlen a + zlen (header e))) as Hd.
  { unfold decoded. rewrite !u32_small by lia. by rewrite (proj2 (Z.ltb_ge _ _)) by lia. }
  unfold DecodeEntry. rewrite (proj2 (Z.ltb_ge _ _)) by lia.
  set (rest := drop e.1 e.2.1 ++ e.2.2 ++ c).
  assert (a ++ packed e ++ c = a ++ EncodeVarint32 s ++ EncodeVarint32 n ++ EncodeVarint32 w ++ rest) as ->.
  { unfold packed, header, rest. by rewrite <- !app_assoc. }
  assert (zlen (header e) = zlen (EncodeVarint32 s) + zlen (EncodeVarint32 n) + zlen (EncodeVarint32 w)) as Ehd.
  { unfold header. rewrite !zlen_app. subst s n w. lia. }
  set (d := a ++ EncodeVarint32 s ++ EncodeVarint32 n ++ EncodeVarint32 w ++ rest).
  assert (∃ x y z, load d (zlen a) = Ok x ∧ load d (zlen a + 1) = Ok y ∧ load d (zlen a + 2) = Ok z ∧
           (Z.lor (Z.lor x y) z < 128 → x = s ∧ y = n ∧ z = w ∧ zlen (header e) = 3)) as (x & y & z & -> & -> & -> & Hfast).
  { destruct (three_small s n w Hs Hn Hw) as (x & y & z & t & E3 & Hq). exists x, y, z. unfold d.
    rewrite (app_assoc _ (EncodeVarint32 w)), (app_assoc _ (_ ++ _)), E3. cbn [app]. split; [by apply load_app|].
    split; [rewrite (cons_middle x), app_assoc; apply load_app; by rewrite zlen_app|].
    split; [rewrite (cons_middle x), (cons_middle y), !app_assoc; apply load_app; rewrite !zlen_app; unfold zlen; cbn; lia|].
    intros Hlt. destruct (Hq Hlt) as (-> & -> & -> & ->). repeat (split; [done|]). rewrite Ehd, <- Z.add_assoc, <- !zlen_app, E3. done. }
  rbind. destruct (Z.ltb_spec (Z.lor (Z.lor x y) z) 128) as [Hq|_].
  - destruct (Hfast Hq) as (-> & -> & -> & E3). rewrite <- E3. by rewrite Hd.
  - assert (∀ b v t, d = b ++ EncodeVarint32 v ++ t → 0 ≤ v < 2 ^ 32 → zlen b + zlen (EncodeVarint32 v) ≤ limit →
      (r ← GetVarint32Ptr (drop (Z.to_nat (zlen b)) d) (limit - zlen b);
       Ok (match r with Some (v, rest) => Some (v, zlen d - zlen rest) | None => None end)) = Ok (Some (v, zlen (b ++ EncodeVarint32 v)))) as Hnum.
    { intros b v t Ed Hv Hlim. rewrite Ed at 1. rewrite to_nat_zlen, drop_app_length, Varint32_roundtrip by (done || lia). rbind.
      rewrite Ed, !zlen_app. do 3 f_equal. lia. }
    pose proof (zlen_nonneg (EncodeVarint32 s)). pose proof (zlen_nonneg (EncodeVarint32 n)). pose proof (zlen_nonneg (EncodeVarint32 w)).
    rewrite (Hnum a s _ eq_refl) by (done || lia). rbind.
    rewrite (Hnum (a ++ EncodeVarint32 s) n (EncodeVarint32 w ++ rest)) by (rewrite ?zlen_app; unfold d; rewrite <- ?app_assoc; done || lia). rbind.
    rewrite (Hnum ((a ++ EncodeVarint32 s) ++ EncodeVarint32 n) w rest) by (rewrite ?zlen_app; unfold d; rewrite <- ?app_assoc; done || lia). rbind.
    rewrite !zlen_app. replace (zlen a + _ + _ + _) with (zlen a + zlen (header e)) by lia. by rewrite Hd.
Qed.

(** ** The iterator over a block with this layout *)
Section over.
Context (d : bytes) (restarts num : Z) (E : list entry) (idx : list nat) (HL : layout d restarts num E idx).

Definition shaped (it : BIter) : Prop := data it = d ∧ restarts_ it = restarts ∧ num_restarts_ it = num ∧ status_ it = sOK.
Definition indexed (it : BIter) : Prop := shaped it ∧ 0 ≤ restart_index_ it < num.

(** The next entry to parse is [i]. *)
Definition ends (it : BIter) (i : nat) : Prop :=
  indexed it ∧ (∃ o n, value_ it = Some (o, n) ∧ o + n = off E i) ∧
  ∀ s k v, E !! i = Some (s, (k, v)) → take s (key_ it) = take s k ∧ (s ≤ length (key_ it))%nat.

Definition at_entry (it : BIter) (i : nat) : Prop :=
  indexed it ∧ ∃ s k v, E !! i = Some (s, (k, v)) ∧ current_ it = off E i ∧ key_ it = k ∧ value_ it = Some (off E (S i) - zlen v, zlen v).

Definition placed (it : BIter) (p : option nat) : Prop :=
  match p with Some i => at_entry it i | None => shaped it ∧ current_ it = restarts end.

Lemma zlen_points l : zlen (points E l) = 4 * zlen l.
Proof. unfold points. induction l as [|i l IH]; [done|]. cbn [fmap list_fmap concat]. rewrite zlen_app, IH, zlen_cons. change (zlen _) with 4 at 1. lia. Qed.

Lemma layout_bounds : 0 ≤ restarts < 2 ^ 32 ∧ 0 < num < 2 ^ 32 ∧ restarts + 4 * num + 4 = zlen d ∧ ∀ i, 0 ≤ off E i ≤ restarts.
Proof.
  destruct HL as [Hd -> -> Hs _ Hf _]. rewrite Hd, !zlen_app, zlen_points in *. change (zlen (EncodeFixed32 _)) with 4 in *.
  pose proof (zlen_nonneg (body E)). apply lookup_lt_Some in Hf. assert (1 ≤ zlen idx) by (unfold zlen; lia).
  repeat split; try lia; apply off_le.
Qed.

Lemma restart_ok it j i : shaped it → idx !! j = Some i → GetRestartPoint it (Z.of_nat j) = Ok (off E i).
Proof.
  intros (Hd & Hr & Hn & _) Hj. pose proof layout_bounds as (Hb & _ & Hz & Ho). specialize (Ho i). unfold GetRestartPoint. rewrite Hd, Hr, Hn.
  rewrite (proj2 (Z.ltb_lt _ _)) by (rewrite (l_num _ _ _ _ _ HL); apply lookup_lt_Some in Hj; unfold zlen; lia).
  unfold bytes_at. rewrite (proj2 (Z.leb_le _ _)) by (pose proof (l_num _ _ _ _ _ HL); apply lookup_lt_Some in Hj; unfold zlen in *; lia). rbind.
  rewrite (l_data _ _ _ _ _ HL), <- (take_drop_middle _ _ _ Hj). unfold points. rewrite fmap_app, concat_app. cbn [fmap list_fmap concat].
  rewrite <- !app_assoc, app_assoc. rewrite drop_app_length'; [apply Fixed32_roundtrip; lia|].
  rewrite length_app. fold (points E (take j idx)). pose proof (zlen_points (take j idx)) as Hp. pose proof (l_restarts _ _ _ _ _ HL).
  apply lookup_lt_Some in Hj. unfold zlen in *. rewrite length_take in Hp. lia.
Qed.

Lemma next_restart_ok fuel : ∀ it, indexed it → num - restart_index_ it < Z.of_nat fuel →
  ∃ j, next_restart fuel it = Ok (with_index j it) ∧ 0 ≤ j < num.
Proof.
  pose proof layout_bounds as (_ & Hn & _ & _).
  induction fuel as [|fuel IH]; intros it [Hs Hi] Hf; [lia|]. cbn [next_restart]. rewrite u32_small by lia.
  assert (∃ j, Ok it = Ok (with_index j it) ∧ 0 ≤ j < num) as Hstay by (exists (restart_index_ it); by destruct it).
  pose proof Hs as (_ & _ & -> & _). destruct (Z.ltb_spec (restart_index_ it + 1) num) as [Hlt|]; [|done].
  destruct (lookup_lt_is_Some_2 idx (Z.to_nat (restart_index_ it + 1))) as [i Hj].
  { pose proof (l_num _ _ _ _ _ HL). unfold zlen in *. lia. }
  pose proof (restart_ok it _ i Hs Hj) as Hr. rewrite Z2Nat.id in Hr by lia. rewrite Hr. rbind. destruct (off E i <? current_ it); [|done].
  destruct (IH (with_index (restart_index_ it + 1) it)) as (j & -> & Hj'); [by split; [|cbn; lia]|cbn; lia|]. by exists j.
Qed.

Lemma entry_ok i e : E !! i = Some e → lengths_ok e.
Proof. intros He. destruct e as [s [k v]]. destruct (cut_lookup _ _ _ _ _ _ (l_cut _ _ _ _ _ HL) He) as (? & ? & ? & _). by split. Qed.

Lemma data_split i e : E !! i = Some e → ∃ c, d = body (take i E) ++ packed e ++ c.
Proof.
  intros He. exists (body (drop (S i) E) ++ points E idx ++ EncodeFixed32 (zlen idx)).
  rewrite (l_data _ _ _ _ _ HL) at 1. by rewrite (body_split _ _ _ He), <- !app_assoc.
Qed.

(** Decoding the entry [i] where it begins, and its key. *)
Lemma decode_at i e : E !! i = Some e →
  DecodeEntry d (off E i) restarts = Ok (Some (Z.of_nat e.1, zlen e.2.1 - Z.of_nat e.1, zlen e.2.2, off E i + zlen (header e))) ∧
  slice d (off E i + zlen (header e)) (zlen e.2.1 - Z.of_nat e.1) = Ok (drop e.1 e.2.1) ∧
  slice d (off E (S i) - zlen e.2.2) (zlen e.2.2) = Ok e.2.2.
Proof.
  intros He. pose proof (entry_ok i e He) as Hok. destruct (data_split i e He) as [c Ed]. pose proof layout_bounds as (Hb & _ & _ & Ho).
  pose proof (off_S _ _ _ He) as HS. pose proof (zlen_packed e Hok). pose proof (Ho (S i)). destruct Hok as (H1 & H2 & H3). rewrite Ed. split; [|split].
  - apply DecodeEntry_ok; [done|done|lia|lia].
  - unfold packed. rewrite <- !app_assoc, (app_assoc _ (header e)). apply slice_app; [by rewrite zlen_app|]. unfold zlen. rewrite length_drop. lia.
  - unfold packed. rewrite <- !app_assoc, !(app_assoc _ _ (e.2.2 ++ c)). apply slice_app; [|done]. rewrite !zlen_app.
    unfold off in *. unfold packed in *. rewrite !zlen_app in *. lia.
Qed.

Lemma off_lt i e : E !! i = Some e → off E i < off E (S i).
Proof. intros He. rewrite (off_S _ _ _ He). pose proof (entry_ok _ _ He) as Hok. rewrite zlen_packed by done. pose proof (header_length e Hok). destruct Hok as (? & _). unfold zlen in *. lia. Qed.

Lemma off_before i : (i < length E)%nat → off E i < restarts.
Proof.
  intros Hi. destruct (lookup_lt_is_Some_2 E i Hi) as [e He]. pose proof (off_lt i e He). pose proof layout_bounds as (_ & _ & _ & Ho).
  specialize (Ho (S i)). lia.
Qed.

Lemma Parse_ok it i : ends it i → ∃ it', ParseNextKey it = Ok (bool_decide (i < length E)%nat, it') ∧ placed it' (place (length E) i).
Proof.
  intros ([Hs Hi] & (o & n & Hv & Ho) & Hk). pose proof layout_bounds as (Hb & Hn & Hd & Hoff). unfold ParseNextKey, NextEntryOffset. rewrite Hv. rbind.
  rewrite Ho, u32_small by (specialize (Hoff i); lia). pose proof Hs as (Ed & Er & En & Es). rewrite Er.
  destruct (place_cases (length E) i) as [[Hlt ->]|[Hge ->]].
  - pose proof (off_before i Hlt). rewrite (proj2 (Z.leb_gt _ _)) by done. destruct (lookup_lt_is_Some_2 E i Hlt) as [[s [k v]] He].
    rewrite Ed. destruct (decode_at i _ He) as (-> & Hkey & _). rbind. cbn [fst snd] in *. destruct (Hk s k v He) as [Ht Hl].
    rewrite (proj2 (Z.ltb_ge _ _)) by (unfold zlen; lia). rewrite Hkey. rbind. rewrite Nat2Z.id, Ht, take_drop.
    set (it1 := moved _ _ _ _ _ _). assert (indexed it1) as Hi1 by (split; [by split|done]).
    destruct (next_restart_ok (S (length d)) it1 Hi1) as (j & -> & Hj); [cbn; unfold zlen in *; lia|]. rbind.
    exists (with_index j it1). rewrite bool_decide_true by done. split; [done|]. split; [by split; [split|]|].
    exists s, k, v. split; [done|]. split; [done|]. split; [done|]. cbn. do 2 f_equal. rewrite (off_S _ _ _ He). rewrite (zlen_packed (s, (k, v))) by (by eapply entry_ok). cbn. lia.
  - rewrite off_all in * by done. rewrite <- (l_restarts _ _ _ _ _ HL), Z.leb_refl. exists (at_end it). rewrite bool_decide_false by lia.
    split; [done|]. split; [done|]. cbn. done.
Qed.

Lemma at_entry_ends it i : at_entry it i → ends it (S i).
Proof.
  intros (Hi & s & k & v & He & _ & Hk & Hv). split; [done|]. split; [eexists _, _; split; [exact Hv|lia]|].
  intros s' k' v' He'. destruct (cut_lookup _ _ _ _ _ _ (l_cut _ _ _ _ _ HL) He') as (_ & _ & _ & p & ? & ? & s'' & v'' & Hp).
  rewrite He in Hp. simplify_eq. done.
Qed.

Lemma SeekToRestartPoint_ok it j i : shaped it → idx !! j = Some i → ∃ it', SeekToRestartPoint (Z.of_nat j) it = Ok it' ∧ ends it' i.
Proof.
  intros Hs Hj. unfold SeekToRestartPoint. rewrite (restart_ok it j i) by done. rbind. eexists. split; [done|]. split; [split; [done|]|split].
  - cbn. apply lookup_lt_Some in Hj. rewrite (l_num _ _ _ _ _ HL). unfold zlen. lia.
  - eexists _, _. split; [done|lia].
  - intros s k v He. cbn. destruct (l_points _ _ _ _ _ HL j i Hj) as [[-> ->]|(k' & v' & He')].
    + destruct (cut_lookup _ _ _ _ _ _ (l_cut _ _ _ _ _ HL) He) as (_ & _ & _ & p & Ht & Hl & ->). done.
    + rewrite He in He'. simplify_eq. done.
Qed.

(** Parsing on from the entry [i] up to the one that ends at [limit]. *)
Lemma scan_ok n : ∀ fuel it i, ends it i → (i + n < length E)%nat → (n < fuel)%nat →
  ∃ it', scan fuel (off E (S (i + n))) it = Ok it' ∧ at_entry it' (i + n).
Proof.
  induction n as [|n IH]; intros [|fuel] it i Hit Hn Hf; try lia; cbn [scan];
    destruct (Parse_ok it i Hit) as (it1 & -> & H1); rbind; rewrite bool_decide_true by lia;
    destruct (place_cases (length E) i) as [[_ Hp]|[]]; try lia; rewrite Hp in H1; cbn [placed] in H1;
    destruct (at_entry_ends _ _ H1) as (_ & (o & m & Hv & Ho) & _); pose proof layout_bounds as (Hb & _ & _ & Hoff);
    unfold NextEntryOffset; rewrite Hv; rbind; rewrite Ho, u32_small by (specialize (Hoff (S i)); lia).
  - rewrite Nat.add_0_r, Z.ltb_irrefl. by exists it1.
  - destruct (lookup_lt_is_Some_2 E (S i)) as [e He]; [lia|]. pose proof (off_lt _ _ He). pose proof (off_mono E (S (S i)) (S (i + S n)) ltac:(lia)).
    rewrite (proj2 (Z.ltb_lt _ _)) by lia. replace (i + S n)%nat with (S i + n)%nat by lia. apply IH; [by apply at_entry_ends|lia|lia].
Qed.

Lemma fuel_enough i : (i ≤ length E)%nat → (i ≤ length d)%nat.
Proof.
  intros Hi. pose proof layout_bounds as (_ & Hnum & Hd & Ho). assert (Z.of_nat i ≤ off E i); [|specialize (Ho i); unfold zlen in *; lia].
  induction i as [|i IH]; [done|]. destruct (lookup_lt_is_Some_2 E i) as [e He]; [lia|]. pose proof (off_lt _ _ He). lia.
Qed.

Lemma placed_shaped it p : placed it p → shaped it.
Proof. destruct p; [by intros [[] _]|by intros []]. Qed.

Lemma placed_Valid it p : placed it p → Valid it = bool_decide (is_Some p).
Proof.
  intros Hp. unfold Valid. destruct (placed_shaped _ _ Hp) as (_ & -> & _). destruct p as [i|]; cbn in Hp.
  - destruct Hp as (_ & s & k & v & He & -> & _). apply (lookup_lt_Some) in He. pose proof (off_before i He).
    rewrite bool_decide_true by done. by apply Z.ltb_lt.
  - destruct Hp as [_ ->]. rewrite bool_decide_false by (by intros []). apply Z.ltb_irrefl.
Qed.

Lemma Next_placed it i : placed it (Some i) → ∃ it', Next it = Ok it' ∧ placed it' (place (length E) (S i)).
Proof.
  intros Hp. unfold Next. rewrite (placed_Valid _ _ Hp), bool_decide_true by done.
  destruct (Parse_ok it (S i)) as (it' & -> & Hit'); [by apply at_entry_ends|]. rbind. by exists it'.
Qed.

(** The loop back to a restart point before the entry [i]. *)
Lemma back_ok fuel : ∀ it i, indexed it → (i ≤ length E)%nat → restart_index_ it < Z.of_nat fuel →
  (i = 0%nat ∧ ∃ it', back fuel (off E i) it = Ok (false, it') ∧ placed it' None) ∨
  ∃ it' j m, back fuel (off E i) it = Ok (true, it') ∧ shaped it' ∧ restart_index_ it' = Z.of_nat j ∧ idx !! j = Some m ∧ (m < i)%nat.
Proof.
  induction fuel as [|fuel IH]; intros it i [Hs Hi] Hle Hf; [lia|]. cbn [back].
  destruct (lookup_lt_is_Some_2 idx (Z.to_nat (restart_index_ it))) as [m Hm].
  { rewrite (l_num _ _ _ _ _ HL) in Hi. unfold zlen in *. lia. }
  pose proof (restart_ok it _ m Hs Hm) as Hr. rewrite Z2Nat.id in Hr by lia. rewrite Hr. rbind.
  destruct (Z.leb_spec (off E i) (off E m)) as [Hge|Hlt].
  - destruct (Z.eqb_spec (restart_index_ it) 0) as [E0|Hn].
    + left. rewrite E0 in Hm. change (Z.to_nat 0) with 0%nat in Hm. rewrite (l_first _ _ _ _ _ HL) in Hm. simplify_eq.
      rewrite off_0 in Hge. assert (i = 0%nat) as ->.
      { destruct i as [|i]; [done|]. destruct (lookup_lt_is_Some_2 E i) as [e He]; [lia|]. pose proof (off_lt _ _ He). pose proof (off_le E i). lia. }
      split; [done|]. eexists. split; [done|]. split; [done|]. cbn. by destruct Hs as (_ & -> & _).
    + apply IH; [split; [done|cbn; lia]|done|cbn; lia].
  - right. exists it, (Z.to_nat (restart_index_ it)), m. split; [done|]. split; [done|]. split; [lia|]. split; [done|].
    destruct (Nat.lt_ge_cases m i) as [|Hc]; [done|]. pose proof (off_mono E i m Hc). lia.
Qed.

Lemma Prev_placed it i : placed it (Some i) → ∃ it', Prev it = Ok it' ∧ placed it' (before i).
Proof.
  intros Hp. unfold Prev. rewrite (placed_Valid _ _ Hp), bool_decide_true by done. destruct Hp as (Hi & s & k & v & He & -> & _).
  pose proof (lookup_lt_Some _ _ _ He) as Hlt. pose proof Hi as [(Ed & _) Hix]. pose proof layout_bounds as (Hr0 & _ & Hd & _).
  destruct (back_ok (S (length (data it))) it i Hi) as [(-> & it' & -> & Hit')|(it' & j & m & -> & Hs & Hj & Hm & Hmi)];
    [lia|rewrite Ed; unfold zlen in *; lia|rbind; by exists it'|]. rbind. rewrite Hj.
  destruct (SeekToRestartPoint_ok it' j m Hs Hm) as (it2 & -> & Hit2). rbind.
  destruct (scan_ok (i - 1 - m) (S (length (data it2))) it2 m Hit2) as (it3 & Hsc & Hit3); [lia| |].
  - pose proof (fuel_enough i ltac:(lia)). destruct Hit2 as ([(-> & _) _] & _). lia.
  - replace (S (m + (i - 1 - m)))%nat with i in Hsc by lia. exists it3. split; [done|]. destruct i as [|i]; [lia|].
    cbn [before placed]. by replace (m + (S i - 1 - m))%nat with i in Hit3 by lia.
Qed.

Lemma SeekToFirst_placed it : shaped it → ∃ it', SeekToFirst it = Ok it' ∧ placed it' (place (length E) 0).
Proof.
  intros Hs. unfold SeekToFirst. destruct (SeekToRestartPoint_ok it 0 0 Hs (l_first _ _ _ _ _ HL)) as (it1 & E1 & H1). change (Z.of_nat 0) with 0 in E1. rewrite E1. rbind.
  destruct (Parse_ok it1 0 H1) as (it2 & -> & H2). rbind. by exists it2.
Qed.

Lemma SeekToLast_placed it : shaped it → ∃ it', SeekToLast it = Ok it' ∧ placed it' (before (length E)).
Proof.
  intros Hs. pose proof layout_bounds as (_ & Hn & _ & _). unfold SeekToLast. pose proof Hs as (_ & _ & -> & _). rewrite u32_small by lia.
  destruct (lookup_lt_is_Some_2 idx (Z.to_nat (num - 1))) as [m Hm]; [rewrite (l_num _ _ _ _ _ HL) in *; unfold zlen in *; lia|].
  destruct (SeekToRestartPoint_ok it _ m Hs Hm) as (it1 & E1 & H1). rewrite Z2Nat.id in E1 by lia. rewrite E1. rbind.
  pose proof H1 as ([(Ed & Er & _) _] & _). rewrite Ed, Er. destruct (length E) as [|n] eqn:HE.
  - destruct (Parse_ok it1 m H1) as (it2 & Hp & H2). rewrite HE in *. destruct (place_cases 0 m) as [[]|[_ Em]]; [lia|]. rewrite Em in H2.
    cbn [scan]. rewrite Hp. rbind. by exists it2.
  - assert (m < S n)%nat as Hmn.
    { rewrite <- HE. destruct (l_points _ _ _ _ _ HL _ _ Hm) as [[_ ->]|(k & v & He)]; [lia|by eapply lookup_lt_Some]. }
    destruct (scan_ok (n - m) (S (length d)) it1 m H1) as (it2 & Hsc & H2); [lia|pose proof (fuel_enough (length E) ltac:(lia)); lia|].
    replace (S (m + (n - m)))%nat with (length E) in Hsc by lia. rewrite off_all, <- (l_restarts _ _ _ _ _ HL) in Hsc by lia.
    exists it2. split; [done|]. cbn. by replace (m + (n - m))%nat with n in H2 by lia.
Qed.

(** ** Seeking, for a comparator that keeps its laws *)
Section seek.
Context {A : Type} {enc : A → bytes} {cmp : A → A → Z} {good : A → Prop} `{ComparatorLaws A enc cmp good}.
Context (L1 L2 : list (A * bytes)) (t : A) (Ht : good t).
Context (HE : snd <$> E = prod_map enc id <$> (L1 ++ L2)) (Hgood : Forall (good ∘ fst) (L1 ++ L2)).
Context (H1 : Forall (λ e, cmp e.1 t < 0) L1) (H2 : Forall (λ e, 0 ≤ cmp e.1 t) L2).

Lemma entry_compare i s k v : E !! i = Some (s, (k, v)) →
  ∃ r, cp_Compare k (enc t) = Ok r ∧ (r < 0 ↔ (i < length L1)%nat).
Proof.
  intros He. assert ((snd <$> E) !! i = Some (k, v)) as Hi by by rewrite list_lookup_fmap, He. rewrite HE, list_lookup_fmap in Hi.
  destruct ((L1 ++ L2) !! i) as [[a w]|] eqn:Hl; [|done]. cbn in Hi. injection Hi as <- <-.
  rewrite Forall_lookup in Hgood. specialize (Hgood _ _ Hl). cbn in Hgood. rewrite (cp_compare a t) by done. eexists. split; [done|].
  rewrite lookup_app in Hl. destruct (L1 !! i) as [e|] eqn:Hl1.
  - simplify_eq. rewrite Forall_lookup in H1. specialize (H1 _ _ Hl1). apply lookup_lt_Some in Hl1. split; [done|]. intros _. exact H1.
  - rewrite Forall_lookup in H2. specialize (H2 _ _ Hl). cbn in H2. apply lookup_ge_None in Hl1. lia.
Qed.

Lemma restart_search_ok fuel : ∀ it l r, shaped it → 0 ≤ l → r < num → r - l < Z.of_nat fuel → (0 < fuel)%nat → l < num →
  (∀ i, idx !! Z.to_nat l = Some i → (i ≤ length L1)%nat) →
  ∃ j i, search fuel (enc t) l r it = Ok (Some (Z.of_nat j)) ∧ idx !! j = Some i ∧ (i ≤ length L1)%nat.
Proof.
  pose proof layout_bounds as (Hb & Hn & Hd & Hoff).
  induction fuel as [|fuel IH]; intros it l r Hs Hl Hr Hf Hf0 Hln Hi; cbn [search]; destruct (Z.ltb_spec l r); try lia.
  - pose proof (l_size _ _ _ _ _ HL). rewrite u32_small by lia. set (mid := (l + r + 1) / 2). assert (l < mid ≤ r) as Hmid by (subst mid; Z.to_euclidean_division_equations; lia).
    destruct (lookup_lt_is_Some_2 idx (Z.to_nat mid)) as [m Hm]; [rewrite (l_num _ _ _ _ _ HL) in *; unfold zlen in *; lia|].
    pose proof (restart_ok it _ m Hs Hm) as Hp. rewrite Z2Nat.id in Hp by lia. rewrite Hp. rbind. pose proof Hs as (-> & -> & _).
    destruct (l_points _ _ _ _ _ HL _ _ Hm) as [[]|(k & v & He)]; [lia|].
    destruct (decode_at m _ He) as (-> & Hk & _). rbind. cbn [fst snd] in *. change (negb (Z.of_nat 0 =? 0)) with false. cbn iota. rewrite Hk. rbind.
    destruct (entry_compare _ _ _ _ He) as (c & Hc & Hlt). rewrite drop_0, Hc. rbind. destruct (Z.ltb_spec c 0).
    + apply IH; try done; try lia. intros i Hi'. rewrite Hm in Hi'. simplify_eq. lia.
    + apply IH; try done; lia.
  - destruct (lookup_lt_is_Some_2 idx (Z.to_nat l)) as [i Hli]; [rewrite (l_num _ _ _ _ _ HL) in *; unfold zlen in *; lia|].
    exists (Z.to_nat l), i. rewrite Z2Nat.id by lia. split; [done|]. split; [done|]. by apply Hi.
Qed.

Lemma walk_ok n : ∀ fuel it i, ends it i → (i + n = length L1)%nat → (n < fuel)%nat →
  ∃ it', walk fuel (enc t) it = Ok it' ∧ placed it' (place (length E) (length L1)).
Proof.
  induction n as [|n IH]; intros [|fuel] it i Hit Hn Hf; try lia; cbn [walk];
    destruct (Parse_ok it i Hit) as (it1 & -> & Hp); rbind; destruct (place_cases (length E) i) as [[Hlt Ei]|[Hge Ei]]; rewrite Ei in Hp.
  1, 3: rewrite bool_decide_true by done; pose proof Hp as (_ & s & k & v & He & _ & -> & _);
    destruct (entry_compare _ _ _ _ He) as (c & -> & Hc); rbind; destruct (Z.leb_spec 0 c); try lia.
  - exists it1. split; [done|]. rewrite <- Hn, Nat.add_0_r, Ei. exact Hp.
  - apply (IH fuel it1 (S i)); [by apply at_entry_ends|lia|lia].
  - rewrite bool_decide_false by lia. exists it1. split; [done|]. rewrite <- Hn, Nat.add_0_r, Ei. exact Hp.
  - exfalso. assert (length (snd <$> E) = length (L1 ++ L2)) as Hlen by (rewrite HE; by rewrite length_fmap). rewrite length_fmap, length_app in Hlen. lia.
Qed.

Lemma Seek_placed it : shaped it → ∃ it', Seek (enc t) it = Ok it' ∧ placed it' (place (length E) (length L1)).
Proof.
  intros Hs. pose proof layout_bounds as (Hb & Hn & Hd & _). unfold Seek. pose proof Hs as (Ed & _ & -> & _). rewrite u32_small by lia.
  destruct (restart_search_ok (S (length (data it))) it 0 (num - 1) Hs) as (j & i & -> & Hj & Hle); try lia.
  { rewrite Ed. unfold zlen in *. lia. }
  { intros i. change (Z.to_nat 0) with 0%nat. rewrite (l_first _ _ _ _ _ HL). intros [= <-]. lia. }
  rbind. destruct (SeekToRestartPoint_ok it j i Hs Hj) as (it1 & -> & H3). rbind. pose proof H3 as ([(-> & _) _] & _).
  apply (walk_ok (length L1 - i) _ it1 i); [done|lia|].
  pose proof (fuel_enough (length L1)) as Hfe. assert (length (snd <$> E) = length (L1 ++ L2)) as Hlen by (rewrite HE; by rewrite length_fmap).
  rewrite length_fmap, length_app in Hlen. lia.
Qed.
End seek.
End over.

(** ** The iterator keeps the laws of iterators *)
Section laws.
Context {A : Type} {enc : A → bytes} {cmp : A → A → Z} {good : A → Prop} `{HC : Comparator} `{!ComparatorLaws enc cmp good}.

(** The block [d] holds the pairs [L]. *)
Definition block_of (d : bytes) (r n : Z) (E : list entry) (idx : list nat) (L : list (A * bytes)) : Prop :=
  layout d r n E idx ∧ snd <$> E = prod_map enc id <$> L ∧ Forall (good ∘ fst) L.

Definition BlockAt (it : BlockIterator) (L : list (A * bytes)) (p : option nat) : Prop :=
  ∃ i d r n E idx, it = OverBlock i ∧ block_of d r n E idx L ∧ placed d r n E i p.

Lemma block_length d r n E idx L : block_of d r n E idx L → length E = length L.
Proof. intros (_ & HE & _). apply (f_equal length) in HE. by rewrite !length_fmap in HE. Qed.

Lemma block_pair d r n E idx L i k v : block_of d r n E idx L → L !! i = Some (k, v) → ∃ s, E !! i = Some (s, (enc k, v)).
Proof.
  intros (_ & HE & _) Hi. assert ((snd <$> E) !! i = Some (enc k, v)) as Hl by by rewrite HE, list_lookup_fmap, Hi.
  rewrite list_lookup_fmap in Hl. destruct (E !! i) as [[s e]|]; [|done]. cbn in Hl. injection Hl as ->. by exists s.
Qed.

(** A step of the iterator is a step of the iterator over the block. *)
Ltac block_step E := cbn [it_Next it_Prev it_Seek it_SeekToFirst it_SeekToLast Block_Iter move_block seek_block on_block]; rewrite E; rbind.

#[export] Instance block_laws : IterLaws enc cmp good BlockIterator BlockAt.
Proof.
  split.
  - intros it L i (b & d & r & n & E & idx & -> & HB & _ & s & k & v & He & _). rewrite <- (block_length _ _ _ _ _ _ HB). by eapply lookup_lt_Some.
  - intros it L p (b & d & r & n & E & idx & -> & [HL _] & Hp). cbn. by eapply placed_Valid.
  - intros it L i k v (b & d & r & n & E & idx & -> & HB & Hp) Hi. cbn. unfold key. rewrite (placed_Valid d r n E idx (proj1 HB) b (Some i) Hp), bool_decide_true by done.
    destruct (block_pair _ _ _ _ _ _ _ _ _ HB Hi) as [s He]. destruct Hp as (_ & s' & k' & v' & He' & _ & -> & _). rewrite He in He'. by simplify_eq.
  - intros it L i k v (b & d & r & n & E & idx & -> & HB & Hp) Hi. cbn. unfold value. rewrite (placed_Valid d r n E idx (proj1 HB) b (Some i) Hp), bool_decide_true by done.
    destruct (block_pair _ _ _ _ _ _ _ _ _ HB Hi) as [s He]. destruct Hp as ([(-> & _) _] & s' & k' & v' & He' & _ & _ & ->). rewrite He in He'. simplify_eq.
    by destruct (decode_at d r n E idx (proj1 HB) _ _ He) as (_ & _ & ?).
  - intros it L i (b & d & r & n & E & idx & -> & HB & Hp). destruct (Next_placed d r n E idx (proj1 HB) b i Hp) as (b' & Eb & Hp').
    exists (OverBlock b'). block_step Eb. split; [done|]. rewrite <- (block_length _ _ _ _ _ _ HB). by exists b', d, r, n, E, idx.
  - intros it L i (b & d & r & n & E & idx & -> & HB & Hp). destruct (Prev_placed d r n E idx (proj1 HB) b i Hp) as (b' & Eb & Hp').
    exists (OverBlock b'). block_step Eb. split; [done|]. by exists b', d, r, n, E, idx.
  - intros it L p t L1 L2 (b & d & r & n & E & idx & -> & HB & Hp) Ht -> H1 H2. pose proof HB as (HL & HE & Hg).
    destruct (Seek_placed d r n E idx HL L1 L2 t Ht HE Hg H1 H2 b) as (b' & Eb & Hp'); [by eapply placed_shaped|].
    exists (OverBlock b'). block_step Eb. split; [done|]. rewrite <- (block_length _ _ _ _ _ _ HB). by exists b', d, r, n, E, idx.
  - intros it L p (b & d & r & n & E & idx & -> & HB & Hp). destruct (SeekToFirst_placed d r n E idx (proj1 HB) b) as (b' & Eb & Hp'); [by eapply placed_shaped|].
    exists (OverBlock b'). block_step Eb. split; [done|]. rewrite <- (block_length _ _ _ _ _ _ HB). by exists b', d, r, n, E, idx.
  - intros it L p (b & d & r & n & E & idx & -> & HB & Hp). destruct (SeekToLast_placed d r n E idx (proj1 HB) b) as (b' & Eb & Hp'); [by eapply placed_shaped|].
    exists (OverBlock b'). block_step Eb. split; [done|]. rewrite <- (block_length _ _ _ _ _ _ HB). by exists b', d, r, n, E, idx.
  - intros it L p (b & d & r & n & E & idx & -> & HB & Hp). cbn. by apply placed_shaped in Hp as (_ & _ & _ & ?).
Qed.

(** A block that holds pairs is opened with an iterator over them. *)
Lemma open_block d r n E idx L : block_of d r n E idx L →
  ∃ b it, Block_new d = Ok b ∧ NewIterator b = Ok it ∧ BlockAt it L None.
Proof.
  intros HB. pose proof HB as (HL & _ & _). pose proof (layout_bounds d r n E idx HL) as (Hr & Hn & Hd & _). pose proof (l_size _ _ _ _ _ HL) as Hs.
  assert (NumRestarts d (zlen d) = Ok n) as En.
  { unfold NumRestarts. rewrite (proj2 (Z.leb_le _ _)) by lia. rewrite (l_data _ _ _ _ _ HL) at 2. rewrite app_assoc, drop_app_length'.
    - rewrite <- (app_nil_r (EncodeFixed32 _)), Fixed32_roundtrip; rewrite <- (l_num _ _ _ _ _ HL); done || lia.
    - rewrite (l_data _ _ _ _ _ HL), app_assoc, zlen_app. change (zlen (EncodeFixed32 _)) with 4. unfold zlen. lia. }
  unfold Block_new. rewrite (proj2 (Z.ltb_ge _ _)) by lia. rewrite En. rbind. rewrite (u32_small (1 + n)), u64_small, u32_small by lia.
  replace (zlen d - (1 + n) * 4) with r by lia. rewrite (proj2 (Z.ltb_ge _ _)) by lia. eexists _, (OverBlock _). split; [done|].
  unfold NewIterator. cbn [size_ data_ restart_offset_]. rewrite (proj2 (Z.ltb_ge _ _)) by lia. rewrite En. rbind.
  rewrite (proj2 (Z.eqb_neq _ _)) by lia. unfold BIter_new. rewrite (proj2 (Z.ltb_lt _ _)) by lia. rbind. split; [done|].
  eexists _, d, r, n, E, idx. split; [done|]. split; [done|]. done.
Qed.
End laws.

(** ** What the builder writes *)
Section building.
Context {A : Type} {enc : A → bytes} {cmp : A → A → Z} {good : A → Prop} `{HC : Comparator} `{!ComparatorLaws enc cmp good}.
Context (interval : Z) (Hint : 1 ≤ interval).
Import BlockBuilder.

(** The builder holds the pairs [L]. *)
Definition built (b : BlockBuilder) (L : list (A * bytes)) : Prop :=
  ∃ E idx, buffer_ b = body E ∧ BlockBuilder.restarts_ b = off E <$> idx ∧ 0 ≤ counter_ b ≤ interval ∧ finished_ b = false ∧
    last_key_ b = default [] (enc ∘ fst <$> last L) ∧ snd <$> E = prod_map enc id <$> L ∧ Forall (good ∘ fst) L ∧
    cut [] E ∧ idx !! 0%nat = Some 0%nat ∧
    ∀ j i, idx !! j = Some i → (j = 0%nat ∧ i = 0%nat) ∨ ∃ k v, E !! i = Some (0%nat, (k, v)).

Lemma new_built : ∃ b, BlockBuilder_new interval = Ok b ∧ built b [].
Proof.
  unfold BlockBuilder_new. rewrite (proj2 (Z.leb_le _ _)) by done. eexists. split; [done|].
  exists [], [0%nat]. repeat (split; [done || cbn; lia|]). intros j i Hj. apply list_lookup_singleton_Some in Hj as [-> <-]. auto.
Qed.
Lemma reset_built b : built (Reset b) [].
Proof. destruct new_built as (b' & Eb & Hb). unfold BlockBuilder_new in Eb. rewrite (proj2 (Z.leb_le _ _)) in Eb by done. by injection Eb as <-. Qed.

Lemma off_snoc E e i : (i ≤ length E)%nat → off (E ++ [e]) i = off E i.
Proof. intros Hi. unfold off. by rewrite take_app_le. Qed.

Lemma shared_prefix a b : take (diff_index a b) a = take (diff_index a b) b ∧ (diff_index a b ≤ length a)%nat ∧ (diff_index a b ≤ length b)%nat.
Proof. destruct (diff_split a b) as (c & a' & b' & -> & -> & -> & _). rewrite !take_app_length, !length_app. repeat split; lia. Qed.

(** The end of the entries as [Add] leaves it, sharing [s] bytes. *)
Lemma built_snoc E L k v s : snd <$> E = prod_map enc id <$> L → cut [] E → good k → zlen v < 2 ^ 31 →
  take s (default [] (enc ∘ fst <$> last L)) = take s (enc k) → (s ≤ length (default [] (enc ∘ fst <$> last L)))%nat → (s ≤ length (enc k))%nat →
  body E ++ packed (s, (enc k, v)) = body (E ++ [(s, (enc k, v))]) ∧ cut [] (E ++ [(s, (enc k, v))]) ∧
  snd <$> (E ++ [(s, (enc k, v))]) = prod_map enc id <$> (L ++ [(k, v)]).
Proof.
  intros HE Hc Hk Hv Ht H1 H2. split; [|split].
  - by rewrite body_app, (body_cons _ []), app_nil_r.
  - assert (default [] (fst ∘ snd <$> last E) = default [] (enc ∘ fst <$> last L)) as El.
    { pose proof (f_equal last HE) as Hl. rewrite !fmap_last in Hl. destruct (last E) as [[? []]|], (last L) as [[]|]; try done. cbn in *. by simplify_eq. }
    apply cut_app; rewrite ?El; try done. by apply cp_size.
  - by rewrite !fmap_app, HE.
Qed.

Lemma block_Add_ok b L k v : built b L → good k → zlen v < 2 ^ 31 → zlen (buffer_ b) < 2 ^ 32 →
  (∀ e, last L = Some e → cmp e.1 k < 0) →
  ∃ b', Add interval (enc k) v b = Ok b' ∧ built b' (L ++ [(k, v)]) ∧ zlen (buffer_ b') ≤ zlen (buffer_ b) + 15 + zlen (enc k) + zlen v ∧
    zlen (BlockBuilder.restarts_ b') ≤ zlen (BlockBuilder.restarts_ b) + 1 ∧ buffer_ b' ≠ [].
Proof.
  intros (E & idx & Hb & Hr & Hc & Hf & Hl & HE & Hg & Hcut & H0 & Hp) Hk Hv Hsz Hlast. pose proof (cp_size k Hk) as Hks.
  unfold Add. rewrite Hf, (proj2 (Z.leb_le _ _)) by lia. cbn [orb negb].
  assert ((if empty b then Ok true else r ← cp_Compare (enc k) (last_key_ b); Ok (0 <? r)) = Ok true) as ->.
  { unfold empty. case_bool_decide as He; [done|]. rewrite Hl. destruct (last L) as [e|] eqn:Ee; cbn.
    - assert (good e.1) as Hge.
      { rewrite Forall_forall in Hg. apply Hg. by eapply last_Some_elem_of. }
      rewrite (cp_compare k e.1) by done. rbind. f_equal. apply Z.ltb_lt. rewrite ko_sym. specialize (Hlast e eq_refl). lia.
    - apply last_None in Ee as ->. apply fmap_nil_inv in HE as ->. by rewrite Hb in He. }
  rbind. cbn [negb].
  set (s := if counter_ b <? interval then diff_index (last_key_ b) (enc k) else 0%nat).
  assert (take s (last_key_ b) = take s (enc k) ∧ (s ≤ length (last_key_ b))%nat ∧ (s ≤ length (enc k))%nat) as (Ht & Hs1 & Hs2).
  { unfold s. destruct (counter_ b <? interval); [apply shared_prefix|]. cbn. repeat split; lia. }
  pose proof Ht as Ht'. pose proof Hs1 as Hs1'. rewrite Hl in Ht', Hs1'.
  destruct (built_snoc E L k v s HE Hcut Hk Hv Ht' Hs1' Hs2) as (Ebody & Hcut' & HE').
  set (E' := E ++ [(s, (enc k, v))]) in *.
  assert (∀ P : nat * list Z * Z → result BlockBuilder, (let '(x, y, z) := if counter_ b <? interval then (diff_index (last_key_ b) (enc k), BlockBuilder.restarts_ b, counter_ b)
    else (0%nat, BlockBuilder.restarts_ b ++ [u32 (zlen (buffer_ b))], 0) in P (x, y, z)) =
    P (s, BlockBuilder.restarts_ b ++ (if counter_ b <? interval then [] else [u32 (zlen (buffer_ b))]), if counter_ b <? interval then counter_ b else 0)) as Hif.
  { intros P. unfold s. destruct (counter_ b <? interval); [by rewrite app_nil_r|done]. }
  rewrite (Hif (λ '(x, y, z), _)). clear Hif. cbn beta iota. rewrite Ht, take_drop, decide_True by done. eexists. split; [done|].
  cbn [buffer_ BlockBuilder.restarts_]. unfold PutVarint32. rewrite !u32_small by (unfold zlen in *; lia).
  assert (((((buffer_ b ++ EncodeVarint32 (Z.of_nat s)) ++ EncodeVarint32 (zlen (enc k) - Z.of_nat s)) ++ EncodeVarint32 (zlen v)) ++ drop s (enc k) ++ v) = body E') as ->.
  { rewrite <- Ebody, Hb. unfold packed, header. cbn [fst snd]. by rewrite <- !app_assoc. }
  pose proof (zlen_nonneg (enc k)). pose proof (zlen_nonneg v). split; [|split; [|split]].
  - exists E', (idx ++ if counter_ b <? interval then [] else [length E]). split; [done|]. split; [|split; [|split; [done|split; [|split; [done|split]]]]].
    + cbn [BlockBuilder.restarts_]. rewrite fmap_app, Hr. f_equal.
      * apply list_fmap_ext. intros j i Hj. unfold E'. rewrite off_snoc; [done|]. destruct (Hp j i Hj) as [[_ ->]|(? & ? & He)]; [lia|]. apply lookup_lt_Some in He. lia.
      * destruct (counter_ b <? interval); [done|]. cbn [fmap list_fmap]. unfold E'. rewrite off_snoc, off_all by done. by rewrite Hb.
    + cbn. destruct (Z.ltb_spec (counter_ b) interval); lia.
    + by rewrite last_snoc.
    + apply Forall_app. split; [done|]. by repeat constructor.
    + split; [done|]. split; [rewrite lookup_app_l; [done|by apply lookup_lt_Some in H0]|].
      intros j i Hj. apply lookup_app_Some in Hj as [Hj|[Hge Hj]].
      * destruct (Hp j i Hj) as [?|(k' & v' & He)]; [by left|right]. exists k', v'. unfold E'. rewrite lookup_app_l; [done|by apply lookup_lt_Some in He].
      * destruct (counter_ b <? interval) eqn:Ec; [done|]. apply list_lookup_singleton_Some in Hj as [_ <-]. right. exists (enc k), v. unfold E', s.
        by rewrite lookup_app_r, Nat.sub_diag by done.
  - rewrite <- Ebody, zlen_app, Hb. rewrite zlen_packed by (split; [done|by split]). unfold header. cbn [fst snd]. rewrite !zlen_app.
    pose proof (Varint32_length (Z.of_nat s)). pose proof (Varint32_length (zlen (enc k) - Z.of_nat s)). pose proof (Varint32_length (zlen v)).
    unfold zlen in *. lia.
  - rewrite zlen_app. destruct (counter_ b <? interval); unfold zlen; cbn; lia.
  - intros En. pose proof (header_length (s, (enc k, v))) as Hh. apply (f_equal zlen) in En. rewrite <- Ebody, zlen_app in En. unfold packed in En. rewrite zlen_app in En.
    pose proof (zlen_nonneg (body E)). pose proof (zlen_nonneg (drop s (enc k) ++ v)). cbn [fst snd] in *. change (zlen []) with 0 in En. unfold lengths_ok in Hh. cbn in Hh. lia.
Qed.

Lemma block_Finish_ok b L : built b L → zlen (Finish b).1 < 2 ^ 32 → ∃ r n E idx, block_of (enc := enc) (good := good) (Finish b).1 r n E idx L.
Proof.
  intros (E & idx & Hb & Hr & _ & _ & _ & HE & Hg & Hcut & H0 & Hp) Hs. exists (zlen (body E)), (zlen idx), E, idx. split; [|by split].
  assert ((Finish b).1 = body E ++ points E idx ++ EncodeFixed32 (zlen idx)) as Ed.
  { unfold Finish in *. cbn [fst] in *. rewrite Hb, Hr in *.
    assert (∀ l acc, foldl PutFixed32 acc (off E <$> l) = acc ++ points E l) as Hfold.
    { induction l as [|i l IH]; intros acc; cbn [fmap list_fmap foldl]; [by rewrite app_nil_r|]. rewrite IH. unfold PutFixed32, points. by rewrite <- app_assoc. }
    rewrite Hfold in *. unfold PutFixed32 in *. rewrite <- app_assoc in *. do 3 f_equal. unfold zlen in *. rewrite length_fmap in *.
    apply u32_small. rewrite !length_app in Hs. pose proof (zlen_points E idx). unfold zlen in *. lia. }
  split; done.
Qed.

(** What the builder writes are bytes. *)
Lemma block_bytes d r n E idx (L : list (A * bytes)) : block_of (enc := enc) (good := good) d r n E idx L →
  Forall (λ e, Forall is_byte (enc e.1) ∧ Forall is_byte e.2) L → Forall is_byte d.
Proof.
  intros (HL & HE & _) Hb. rewrite (l_data _ _ _ _ _ HL). rewrite !Forall_app. split; [|split; [|apply fixed32_bytes]].
  - apply Forall_concat, Forall_fmap, Forall_forall. intros [s [k v]] He. apply list_elem_of_lookup in He as [i Hi].
    destruct (entry_ok _ _ _ _ _ HL _ _ Hi) as (H1 & H2 & H3). cbn [fst snd] in *.
    assert ((prod_map enc id <$> L) !! i = Some (k, v)) as Hl by by rewrite <- HE, list_lookup_fmap, Hi. rewrite list_lookup_fmap in Hl.
    destruct (L !! i) as [[a w]|] eqn:Ea; [|done]. cbn in Hl. simplify_eq. rewrite Forall_lookup in Hb. destruct (Hb _ _ Ea) as [Hk Hv]. cbn in Hk, Hv.
    unfold compose, packed, header. cbn [fst snd]. pose proof (zlen_nonneg v). rewrite !Forall_app. repeat split;
      [apply varint32_bytes; unfold zlen in *; lia..|by apply Forall_drop|done].
  - apply Forall_concat, Forall_fmap, Forall_true. intros x. apply fixed32_bytes.
Qed.

(** ** A round trip *)
Fixpoint add_all (L : list (A * bytes)) (b : BlockBuilder) : result BlockBuilder :=
  match L with [] => Ok b | (k, v) :: L => b ← Add interval (enc k) v b; add_all L b end.

(** A bound on the size of the block. *)
Definition weight (L : list (A * bytes)) : Z := foldr (λ e n, 19 + zlen (enc e.1) + zlen e.2 + n) 0 L.

Lemma zlen_Finish b : zlen (Finish b).1 = zlen (buffer_ b) + 4 * zlen (BlockBuilder.restarts_ b) + 4.
Proof.
  unfold Finish. cbn [fst]. unfold PutFixed32 at 1. rewrite zlen_app. change (zlen (EncodeFixed32 _)) with 4. enough (∀ l acc, zlen (foldl PutFixed32 acc l) = zlen acc + 4 * zlen l) as -> by lia.
  induction l as [|x l IH]; intros acc; cbn [foldl]; [change (zlen []) with 0; lia|]. rewrite IH, zlen_cons. unfold PutFixed32. rewrite zlen_app. change (zlen (EncodeFixed32 _)) with 4. lia.
Qed.

Lemma weight_nonneg L : 0 ≤ weight L.
Proof. induction L as [|e L IH]; cbn [weight foldr]; [done|]. fold (weight L). zlia. Qed.

Lemma block_add_all_ok L : ∀ b L0, built b L0 → sorted (cmp := cmp) (L0 ++ L).*1 → Forall (good ∘ fst) L → Forall (λ e, zlen e.2 < 2 ^ 31) L →
  zlen (buffer_ b) + 4 * zlen (BlockBuilder.restarts_ b) + 4 + weight L < 2 ^ 32 →
  ∃ b', add_all L b = Ok b' ∧ built b' (L0 ++ L) ∧ zlen (Finish b').1 < 2 ^ 32.
Proof.
  induction L as [|[k v] L IH]; intros b L0 Hb Hs Hg Hv Hw.
  - exists b. rewrite app_nil_r. split; [done|]. split; [done|]. rewrite zlen_Finish. cbn in Hw. lia.
  - apply Forall_cons in Hg as [Hk Hg], Hv as [Hv1 Hv]. cbn [weight foldr fst snd] in Hw. fold (weight L) in Hw. pose proof (weight_nonneg L).
    pose proof (zlen_nonneg (enc k)). pose proof (zlen_nonneg v). pose proof (zlen_nonneg (BlockBuilder.restarts_ b)).
    destruct (block_Add_ok b L0 k v Hb Hk Hv1) as (b' & Eb & Hb' & Hsz & Hrs & _); [lia| |].
    + intros e He. apply last_Some in He as [L0' ->]. rewrite !fmap_app, <- app_assoc in Hs. apply StronglySorted_app in Hs as (Hx & _ & Hs).
      cbn in Hs. inversion Hs as [|? ? _ Ha]. by inversion Ha.
    + cbn [add_all]. rewrite Eb. rbind. destruct (IH b' (L0 ++ [(k, v)])) as (b'' & -> & Hb'' & Hf); try done; try lia.
      { by rewrite <- app_assoc. }
      exists b''. by rewrite <- app_assoc in Hb''.
Qed.

Lemma block_reopened L : sorted (cmp := cmp) L.*1 → Forall (good ∘ fst) L → Forall (λ e, zlen e.2 < 2 ^ 31) L → weight L + 8 < 2 ^ 32 →
  ∃ b0 b blk it, BlockBuilder_new interval = Ok b0 ∧ add_all L b0 = Ok b ∧ Block_new (Finish b).1 = Ok blk ∧ NewIterator blk = Ok it ∧ BlockAt (enc := enc) (good := good) it L None.
Proof.
  intros Hs Hg Hv Hw. destruct new_built as (b0 & E0 & H0). exists b0.
  destruct (block_add_all_ok L b0 [] H0 Hs Hg Hv) as (b & Eb & Hb & Hf).
  { unfold BlockBuilder_new in E0. destruct (1 <=? interval); [|done]. injection E0 as <-. cbn [buffer_ BlockBuilder.restarts_]. change (zlen (A:=Z) []) with 0. change (zlen [0]) with 1. lia. }
  destruct (block_Finish_ok b L Hb Hf) as (r & n & E & idx & HB). destruct (open_block _ _ _ _ _ _ HB) as (blk & it & E1 & E2 & Hat).
  by exists b, blk, it.
Qed.

(** C10: A block built from any sorted pairs is opened again, and its iterator
    shows exactly these pairs, in order, backwards, and from any key that is
    sought. *)
Theorem block_roundtrip L : sorted (cmp := cmp) L.*1 → Forall (good ∘ fst) L → Forall (λ e, zlen e.2 < 2 ^ 31) L → weight L + 8 < 2 ^ 32 →
  ∃ b0 b blk it, BlockBuilder_new interval = Ok b0 ∧ add_all L b0 = Ok b ∧ Block_new (Finish b).1 = Ok blk ∧ NewIterator blk = Ok it ∧
    shows enc cmp good it L.
Proof.
  intros Hs Hg Hv Hw. destruct (block_reopened L Hs Hg Hv Hw) as (b0 & b & blk & it & E0 & Eb & E1 & E2 & Hat).
  exists b0, b, blk, it. repeat (split; [done|]). eapply at_shows; [exact Hat|done].
Qed.
End building.

Section examples.
#[local] Existing Instance Bytewise.

Definition fruit : list (bytes * bytes) := [(str "apple", str "1"); (str "apply", str "2"); (str "apt", str "3"); (str "bat", [])].

Lemma block_roundtrip_witness : sorted (cmp := bcmp) fruit.*1 ∧
  ∃ b0 b blk it, BlockBuilder.BlockBuilder_new 2 = Ok b0 ∧ add_all (enc := id) 2 fruit b0 = Ok b ∧ Block_new (BlockBuilder.Finish b).1 = Ok blk ∧
    NewIterator blk = Ok it ∧ shows id bcmp (λ k, zlen k < 2 ^ 31 - 8) it fruit.
Proof.
  assert (sorted (cmp := bcmp) fruit.*1) as Hs by (repeat constructor). split; [exact Hs|].
  apply (block_roundtrip 2); [lia|exact Hs|repeat constructor|repeat constructor|vm_compute; reflexivity].
Defined.

(** A number of restart points whose array does not fit 32 bits passes the
    check of the constructor; reading a restart point leaves the block. *)
Lemma restart_count_wraps : let d := [0; 0; 0; 0; 0; 0; 0; 0] ++ EncodeFixed32 (2 ^ 30) in
  (b ← Block_new d; it ← NewIterator b; Ok (it_Valid it, it_status it)) = Ok (false, sOK) ∧
  (b ← Block_new d; it ← NewIterator b; it_SeekToLast it) = Fault OutOfBounds.
Proof. split; vm_compute; reflexivity. Qed.

(** The sum of the two lengths of an entry is cut to 32 bits before it is
    compared with the size of the block. *)
Lemma entry_lengths_wrap : let d := [0] ++ EncodeVarint32 (2 ^ 32 - 1) ++ [1] ++ EncodeFixed32 0 ++ EncodeFixed32 1 in
  (b ← Block_new d; it ← NewIterator b; it_SeekToFirst it) = Fault OutOfBounds.
Proof. vm_compute. reflexivity. Qed.
End examples.
