(* ===== verification/FilterBlock.v ===== *)
(** * The filter block of a table (pack/leveldb/table/filter_block.cc)

    A filter for every two kibibytes of the file, over the keys of the blocks
    that begin there; then the offsets of the filters. A reader asks the
    filter of the place where a block begins. *)

From S2P Require Import Prelude Cstd Cmem Coding Status DbFormat Filter Block.

Module FilterBlock.

Definition kFilterBaseLg : Z := 11.
Definition kFilterBase : Z := Z.shiftl 1 kFilterBaseLg.

Section filter.
Context `{FilterPolicy}.

Record FilterBlockBuilder := {
  keys_ : bytes;
  start_ : list Z;
  result_ : bytes;
  filter_offsets_ : list Z
}.

Definition FilterBlockBuilder_new : FilterBlockBuilder := {| keys_ := []; start_ := []; result_ := []; filter_offsets_ := [] |}.

(** [tmp_keys_]: the keys between neighbouring starts. *)
Fixpoint split_keys (keys : bytes) (starts : list Z) : result (list bytes) :=
  match starts with
  | a :: (b :: _) as rest => k ← slice keys a (u64 (b - a)); ks ← split_keys keys rest; Ok (k :: ks)
  | _ => Ok []
  end.

Definition GenerateFilter (b : FilterBlockBuilder) : result FilterBlockBuilder :=
  let offsets := filter_offsets_ b ++ [u32 (zlen (result_ b))] in
  if bool_decide (start_ b = []) then
    Ok {| keys_ := keys_ b; start_ := start_ b; result_ := result_ b; filter_offsets_ := offsets |}
  else
    ks ← split_keys (keys_ b) (start_ b ++ [zlen (keys_ b)]);
    r ← fp_CreateFilter ks (result_ b);
    Ok {| keys_ := []; start_ := []; result_ := r; filter_offsets_ := offsets |}.

(** The loop of [StartBlock]: a filter more in every round. *)
Fixpoint generate (n : nat) (b : FilterBlockBuilder) : result FilterBlockBuilder :=
  match n with O => Ok b | S n => b ← GenerateFilter b; generate n b end.

Definition StartBlock (block_offset : Z) (b : FilterBlockBuilder) : result FilterBlockBuilder :=
  let filter_index := block_offset / kFilterBase in
  if zlen (filter_offsets_ b) <=? filter_index then generate (Z.to_nat (filter_index - zlen (filter_offsets_ b))) b
  else Fault AssertFailed.

Definition AddKey (key : bytes) (b : FilterBlockBuilder) : FilterBlockBuilder :=
  {| keys_ := keys_ b ++ key; start_ := start_ b ++ [zlen (keys_ b)]; result_ := result_ b; filter_offsets_ := filter_offsets_ b |}.

Definition Finish (b : FilterBlockBuilder) : result (bytes * FilterBlockBuilder) :=
  b ← (if bool_decide (start_ b = []) then Ok b else GenerateFilter b);
  let array_offset := u32 (zlen (result_ b)) in
  let r := foldl PutFixed32 (result_ b) (filter_offsets_ b) in
  let r := PutFixed32 r array_offset ++ [kFilterBaseLg] in
  Ok (r, {| keys_ := keys_ b; start_ := start_ b; result_ := r; filter_offsets_ := filter_offsets_ b |}).

(** [FilterBlockReader]; [data_] is NULL ([None]) where the block is too
    short. *)
Record FilterBlockReader := { data_ : option bytes; offset_ : Z; num_ : Z; base_lg_ : Z }.

Definition FilterBlockReader_new (contents : bytes) : result FilterBlockReader :=
  let n := zlen contents in
  if n <? 5 then Ok {| data_ := None; offset_ := 0; num_ := 0; base_lg_ := 0 |}
  else
    c ← load contents (n - 1);
    p ← Block.bytes_at contents (n - 5);
    last_word ← DecodeFixed32 p;
    let base := u64 (schar c) in
    Ok (if n - 5 <? last_word then {| data_ := None; offset_ := 0; num_ := 0; base_lg_ := base |}
        else {| data_ := Some contents; offset_ := last_word; num_ := (n - 5 - last_word) / 4; base_lg_ := base |}).

(** A shift by the width of the number or more is undefined. *)
Definition KeyMayMatch (block_offset : Z) (key : bytes) (r : FilterBlockReader) : result bool :=
  if 64 <=? base_lg_ r then Fault IntOverflow
  else
    let index := Z.shiftr block_offset (base_lg_ r) in
    if index <? num_ r then
      match data_ r with
      | None => Fault OutOfBounds
      | Some d =>
          p ← Block.bytes_at d (offset_ r + index * 4);
          start ← DecodeFixed32 p;
          limit ← DecodeFixed32 (drop 4 p);
          if (start <=? limit) && (limit <=? offset_ r) then f ← slice d start (limit - start); fp_KeyMayMatch key f
          else if start =? limit then Ok false
          else Ok true
      end
    else Ok true.
End filter.
End FilterBlock.

(** ** The filters of a table miss none of its keys *)
Module FilterSpec.
Import FilterBlock.

Section spec.
Context {A : Type} {enc : A → bytes} {good : A → Prop} {same : A → A → Prop} {cost : Z} `{HP : FilterPolicy} `{!FilterLaws enc good same cost}.

Definition flat (P : list A) : bytes := concat (enc <$> P).
Fixpoint starts (o : Z) (P : list bytes) : list Z := match P with [] => [] | k :: P => o :: starts (o + zlen k) P end.

(** The filter [f] serves the keys [ks]. *)
Definition serves (f : bytes) (ks : list A) : Prop := ∀ k t, k ∈ ks → good t → ∃ b, fp_KeyMayMatch (enc t) f = Ok b ∧ (same k t → b = true).

(** The builder has made filters of [G], and has the keys [P] in hand. *)
Record filled (b : FilterBlockBuilder) (G : list (list A)) (P : list A) : Prop := {
  f_keys : keys_ b = flat P;
  f_start : start_ b = starts 0 (enc <$> P);
  f_good : Forall good P;
  f_fits : zlen P < 2 ^ 31 ∧ zlen (flat P) < 2 ^ 63;
  f_size : zlen (result_ b) ≤ 10 * zlen G + cost * zlen (concat G);
  f_filters : zlen (result_ b) < 2 ^ 32 → ∃ fs, Forall2 serves fs G ∧ result_ b = concat fs ∧ filter_offsets_ b = starts 0 fs;
  f_count : length (filter_offsets_ b) = length G;
  f_bytes : Forall is_byte (result_ b)
}.

Lemma new_filled : filled FilterBlockBuilder_new [] [].
Proof. split; try done; [unfold zlen; cbn; lia|]. intros _. by exists []. Qed.

Lemma starts_app o a b : starts o (a ++ b) = starts o a ++ starts (o + zlen (concat a)) b.
Proof.
  revert o. induction a as [|x a IH]; intros o; cbn [starts app concat]; [by replace (o + zlen []) with o by (unfold zlen; cbn; lia)|].
  rewrite IH, zlen_app. do 3 f_equal. lia.
Qed.
Lemma starts_length o l : length (starts o l) = length l.
Proof. revert o. induction l as [|k l IH]; intros o; cbn; [done|]. by rewrite IH. Qed.
Lemma starts_lookup o l i : (i < length l)%nat → starts o l !! i = Some (o + zlen (concat (take i l))).
Proof.
  revert o i. induction l as [|k l IH]; intros o [|i] Hi; cbn in *; try lia; [f_equal; change (zlen []) with 0; lia|].
  rewrite IH by lia. rewrite zlen_app. f_equal. lia.
Qed.
Lemma starts_nil o l : starts o l = [] ↔ l = [].
Proof. by destruct l. Qed.

Lemma split_keys_cons keys a b l : split_keys keys (a :: b :: l) = (k ← slice keys a (u64 (b - a)); ks ← split_keys keys (b :: l); Ok (k :: ks)).
Proof. done. Qed.

Lemma split_keys_ok ks : ∀ a, zlen (a ++ concat ks) < 2 ^ 63 →
  split_keys (a ++ concat ks) (starts (zlen a) ks ++ [zlen (a ++ concat ks)]) = Ok ks.
Proof.
  induction ks as [|k ks IH]; intros a Hf; [done|]. cbn [starts concat app] in *. rewrite app_assoc in *. rewrite !zlen_app in Hf.
  pose proof (zlen_nonneg a). pose proof (zlen_nonneg (concat ks)). pose proof (zlen_nonneg k).
  assert (starts (zlen a + zlen k) ks ++ [zlen ((a ++ k) ++ concat ks)] = starts (zlen (a ++ k)) ks ++ [zlen ((a ++ k) ++ concat ks)]) as -> by by rewrite (zlen_app a k).
  assert (∃ t, starts (zlen (a ++ k)) ks ++ [zlen ((a ++ k) ++ concat ks)] = zlen (a ++ k) :: t) as [t Et].
  { destruct ks as [|k' ks]; cbn; [rewrite app_nil_r|]; by eexists. }
  specialize (IH (a ++ k)). rewrite Et in *. rewrite split_keys_cons, u64_small by (rewrite zlen_app; lia).
  rewrite <- app_assoc at 1. rewrite slice_app by (rewrite ?zlen_app; lia). rbind.
  rewrite IH by (rewrite !zlen_app; lia). done.
Qed.

(** What [GenerateFilter] does to the keys in hand. *)
Lemma GenerateFilter_ok b G P : filled b G P → ∃ b', GenerateFilter b = Ok b' ∧ filled b' (G ++ [P]) [].
Proof.
  intros [Hk Hs Hg [Hn Hm] Hz Hf Hc Hby]. unfold GenerateFilter. rewrite Hs.
  assert (zlen (concat (G ++ [P])) = zlen (concat G) + zlen P) as EG by (rewrite concat_app, zlen_app; cbn [concat]; by rewrite app_nil_r).
  assert (zlen (G ++ [P]) = zlen G + 1) as EL by (rewrite zlen_app; done).
  pose proof (fl_cost (enc := enc) (good := good) (same := same) (cost := cost)). pose proof (zlen_nonneg (result_ b)).
  case_bool_decide as E.
  - apply starts_nil, fmap_nil_inv in E as ->. eexists. split; [done|]. split; cbn [keys_ start_ result_ filter_offsets_]; try done.
    + rewrite EL, EG. change (zlen (A:=A) []) with 0. lia.
    + intros Hlt. destruct (Hf Hlt) as (fs & H2 & Er & Eo). exists (fs ++ [[]]). split; [|split].
      * apply Forall2_app; [done|]. constructor; [|done]. intros k t Hin. by apply elem_of_nil in Hin.
      * by rewrite concat_app, app_nil_r.
      * rewrite starts_app, Eo. cbn [starts]. rewrite <- Er. do 2 f_equal. by rewrite u32_small by lia.
    + rewrite !length_app, Hc. done.
  - rewrite Hk. pose proof (split_keys_ok (enc <$> P) []) as Esp. cbn [app] in Esp. change (zlen []) with 0 in Esp. fold (flat P) in Esp.
    rewrite Esp by done. rbind. destruct (fl_create (same := same) (cost := cost) P (result_ b) Hg Hn) as (f & -> & Hfz & Hfb & Hfm). rbind.
    eexists. split; [done|]. split; cbn [keys_ start_ result_ filter_offsets_]; try done.
    + rewrite EL, EG, zlen_app. lia.
    + rewrite zlen_app. intros Hlt. pose proof (zlen_nonneg f). destruct Hf as (fs & H2 & Er & Eo); [lia|]. exists (fs ++ [f]). split; [|split].
      * apply Forall2_app; [done|]. by repeat constructor.
      * rewrite concat_app, Er. cbn [concat]. by rewrite app_nil_r.
      * rewrite starts_app, Eo. cbn [starts]. rewrite <- Er. do 2 f_equal. by rewrite u32_small by lia.
    + rewrite !length_app, Hc. done.
    + apply Forall_app. by split.
Qed.

Lemma generate_ok n : ∀ b G, filled b G [] → ∃ b', generate n b = Ok b' ∧ filled b' (G ++ replicate n []) [].
Proof.
  induction n as [|n IH]; intros b G Hb; cbn [generate replicate]; [exists b; by rewrite app_nil_r|].
  destruct (GenerateFilter_ok b G [] Hb) as (b1 & -> & H1). rbind. destruct (IH b1 _ H1) as (b2 & -> & H2). exists b2. by rewrite <- app_assoc in H2.
Qed.

(** The keys of the filters after a block starts. *)
Definition advance (n : nat) (G : list (list A)) (P : list A) : list (list A) * list A :=
  if decide (length G < n)%nat then (G ++ P :: replicate (n - length G - 1) [], []) else (G, P).

Lemma StartBlock_ok off b G P : filled b G P → zlen G ≤ off / kFilterBase →
  ∃ b', StartBlock off b = Ok b' ∧ filled b' (advance (Z.to_nat (off / kFilterBase)) G P).1 (advance (Z.to_nat (off / kFilterBase)) G P).2.
Proof.
  intros Hb Hle. unfold StartBlock. assert (zlen (filter_offsets_ b) = zlen G) as -> by (unfold zlen; f_equal; apply Hb).
  rewrite (proj2 (Z.leb_le _ _)) by done. unfold advance. destruct (decide _) as [Hlt|Hge]; cbn [fst snd].
  - destruct (Z.to_nat (off / kFilterBase - zlen G)) as [|n] eqn:En; [unfold zlen in *; lia|]. cbn [generate].
    destruct (GenerateFilter_ok b G P Hb) as (b1 & -> & H1). rbind. destruct (generate_ok n b1 _ H1) as (b2 & -> & H2).
    exists b2. split; [done|]. rewrite <- app_assoc in H2. replace (_ - _ - 1)%nat with n by (unfold zlen in *; lia). exact H2.
  - replace (Z.to_nat (off / kFilterBase - zlen G)) with 0%nat by (unfold zlen in *; lia). by exists b.
Qed.

Lemma AddKey_ok b G P k : filled b G P → good k → zlen P + 1 < 2 ^ 31 → zlen (flat P) + zlen (enc k) < 2 ^ 63 → filled (AddKey (enc k) b) G (P ++ [k]).
Proof.
  intros [Hk Hs Hg [Hn Hm] Hz Hf Hc Hby] Hgk H1 H2. assert (flat (P ++ [k]) = flat P ++ enc k) as E by (unfold flat; rewrite fmap_app, concat_app; cbn; by rewrite app_nil_r).
  split; cbn [AddKey keys_ start_ result_ filter_offsets_]; try done.
  - by rewrite E, Hk.
  - rewrite fmap_app, starts_app, Hs, Hk. done.
  - apply Forall_app. by repeat constructor.
  - rewrite E, !zlen_app. done.
Qed.

(** A key is recorded for the place [i]. *)
Definition recorded (G : list (list A)) (P : list A) (i : nat) (k : A) : Prop := ∃ ks, (G ++ [P]) !! i = Some ks ∧ k ∈ ks.

Lemma recorded_here G P k : k ∈ P → recorded G P (length G) k.
Proof. intros Hk. exists P. by rewrite lookup_app_r, Nat.sub_diag by done. Qed.
Lemma recorded_advance n G P i k : recorded G P i k → recorded (advance n G P).1 (advance n G P).2 i k.
Proof.
  intros (ks & Hi & Hk). unfold advance. destruct (decide _); [|by exists ks]. cbn [fst snd]. exists ks. split; [|done].
  rewrite <- app_assoc. cbn [app]. rewrite (cons_middle P), app_assoc. by apply lookup_app_l_Some.
Qed.
Lemma recorded_add G P i k k' : recorded G P i k → recorded G (P ++ [k']) i k.
Proof.
  intros (ks & Hi & Hk). destruct (decide (i < length G)%nat).
  - rewrite lookup_app_l in Hi by done. exists ks. by rewrite lookup_app_l.
  - rewrite lookup_app_r in Hi by lia. apply list_lookup_singleton_Some in Hi as [E ->]. exists (ks ++ [k']). rewrite lookup_app_r, E by lia.
    split; [done|]. apply elem_of_app. by left.
Qed.

Lemma foldl_fixed l : ∀ acc, foldl PutFixed32 acc l = acc ++ concat (EncodeFixed32 <$> l).
Proof. induction l as [|x l IH]; intros acc; cbn [foldl fmap list_fmap concat]; [by rewrite app_nil_r|]. rewrite IH. unfold PutFixed32. by rewrite <- app_assoc. Qed.

Lemma zlen_fixed l : zlen (concat (EncodeFixed32 <$> l)) = 4 * zlen l.
Proof. induction l as [|x l IH]; [done|]. cbn [fmap list_fmap concat]. rewrite zlen_app, IH, zlen_cons. change (zlen (EncodeFixed32 x)) with 4. lia. Qed.

(** A reader of finished filters matches every key that was recorded, at the
    places where its block may begin. *)
Lemma reader_ok fs G : Forall2 serves fs G → zlen (concat fs) < 2 ^ 32 →
  ∃ r, FilterBlockReader_new (concat fs ++ concat (EncodeFixed32 <$> starts 0 fs) ++ EncodeFixed32 (zlen (concat fs)) ++ [kFilterBaseLg]) = Ok r ∧
    ∀ off i ks k t, 0 ≤ off → off / kFilterBase = Z.of_nat i → G !! i = Some ks → k ∈ ks → good t →
      ∃ b, KeyMayMatch off (enc t) r = Ok b ∧ (same k t → b = true).
Proof.
  intros H2 Hz. set (W := zlen (concat fs)) in *. set (O := concat (EncodeFixed32 <$> starts 0 fs)). set (d := concat fs ++ O ++ EncodeFixed32 W ++ [kFilterBaseLg]).
  pose proof (zlen_nonneg (concat fs)) as HW. assert (zlen O = 4 * zlen fs) as HO by (unfold O, zlen; rewrite <- (starts_length 0 fs); apply zlen_fixed).
  assert (zlen d = W + 4 * zlen fs + 5) as Hd by (unfold d; rewrite !zlen_app, HO; unfold W; change (zlen (EncodeFixed32 _)) with 4; change (zlen [kFilterBaseLg]) with 1; lia).
  pose proof (zlen_nonneg fs). unfold FilterBlockReader_new. fold d. rewrite (proj2 (Z.ltb_ge _ _)) by lia.
  assert (load d (zlen d - 1) = Ok kFilterBaseLg) as ->.
  { unfold d. rewrite !app_assoc. apply (load_app _ _ []). rewrite !zlen_app. change (zlen [kFilterBaseLg]) with 1. lia. }
  rbind. unfold Block.bytes_at at 1. rewrite (proj2 (Z.leb_le _ _)) by lia. rbind.
  assert (drop (Z.to_nat (zlen d - 5)) d = EncodeFixed32 W ++ [kFilterBaseLg]) as ->.
  { unfold d at 2. rewrite app_assoc. apply drop_app_length'. rewrite length_app. unfold W, zlen in *. lia. }
  rewrite Fixed32_roundtrip by lia. rbind. rewrite (proj2 (Z.ltb_ge _ _)) by lia. eexists. split; [done|].
  intros off i ks k t Hoff Hi HG Hk Ht. unfold KeyMayMatch. cbn [base_lg_ num_ data_ offset_]. change (u64 (schar kFilterBaseLg)) with 11. cbn [Z.leb Z.compare Pos.compare Pos.compare_cont].
  rewrite Z.shiftr_div_pow2 by lia. change (2 ^ 11) with kFilterBase. rewrite Hi. destruct (Forall2_lookup_r _ _ _ _ _ H2 HG) as (f & Hf & Hserve).
  pose proof (lookup_lt_Some _ _ _ Hf) as Hlt. replace ((zlen d - 5 - W) / 4) with (zlen fs) by (rewrite Hd; Z.to_euclidean_division_equations; lia).
  rewrite (proj2 (Z.ltb_lt _ _)) by (unfold zlen; lia). unfold Block.bytes_at. rewrite (proj2 (Z.leb_le _ _)) by (unfold zlen in *; lia). rbind.
  assert (∃ x, drop (Z.to_nat (W + Z.of_nat i * 4)) d = EncodeFixed32 (zlen (concat (take i fs))) ++ EncodeFixed32 (zlen (concat (take (S i) fs))) ++ x) as [x ->].
  { unfold d. rewrite Z2Nat.inj_add, <- drop_drop by lia. replace (Z.to_nat W) with (length (concat fs)) by (unfold W, zlen; lia). rewrite drop_app_length.
    assert (∀ l1 a l2, O = concat (EncodeFixed32 <$> l1) ++ EncodeFixed32 a ++ concat (EncodeFixed32 <$> l2) → length l1 = i →
       drop (Z.to_nat (Z.of_nat i * 4)) (O ++ EncodeFixed32 W ++ [kFilterBaseLg]) = EncodeFixed32 a ++ concat (EncodeFixed32 <$> l2) ++ EncodeFixed32 W ++ [kFilterBaseLg]) as Hdrop.
    { intros l1 a l2 -> Hl1. rewrite <- !app_assoc. apply drop_app_length'. pose proof (zlen_fixed l1). unfold zlen in *. lia. }
    pose proof (starts_lookup 0 fs i Hlt) as Hst. rewrite Z.add_0_l in Hst. pose proof (take_drop_middle _ _ _ Hst) as Esp.
    rewrite (Hdrop (take i (starts 0 fs)) (zlen (concat (take i fs))) (drop (S i) (starts 0 fs))).
    - destruct (decide (S i < length fs)%nat) as [Hlt'|Hge].
      + pose proof (starts_lookup 0 fs (S i) Hlt') as Hst'. rewrite Z.add_0_l in Hst'. rewrite (drop_S _ _ _ Hst'). cbn [fmap list_fmap concat]. rewrite <- !app_assoc. by eexists.
      + rewrite (drop_ge (starts 0 fs)) by (rewrite starts_length; lia). rewrite (take_ge fs (S i)) by lia. cbn [fmap list_fmap concat app]. by eexists.
    - unfold O. rewrite <- Esp at 1. rewrite fmap_app, concat_app. done.
    - rewrite length_take, starts_length. lia. }
  assert (zlen (concat (take (S i) fs)) = zlen (concat (take i fs)) + zlen f) as ES.
  { rewrite (take_S_r _ _ _ Hf), concat_app, zlen_app. cbn [concat]. by rewrite app_nil_r. }
  assert (concat fs = concat (take i fs) ++ f ++ concat (drop (S i) fs)) as Efs by (rewrite <- (take_drop_middle _ _ _ Hf) at 1; by rewrite concat_app).
  assert (W = zlen (concat (take i fs)) + zlen f + zlen (concat (drop (S i) fs))) as EW by (unfold W; rewrite Efs, !zlen_app; lia).
  pose proof (zlen_nonneg (concat (take i fs))). pose proof (zlen_nonneg f). pose proof (zlen_nonneg (concat (drop (S i) fs))).
  rewrite Fixed32_roundtrip by lia. rbind. rewrite drop_app_length', Fixed32_roundtrip by (done || lia). rbind.
  rewrite !(proj2 (Z.leb_le _ _)) by lia. cbn [andb]. unfold d. rewrite Efs, <- !app_assoc. rewrite slice_app by (done || lia). rbind. by apply (Hserve k t).
Qed.

Lemma FilterFinish_ok b G P : filled b G P → 10 * (zlen G + 1) + cost * (zlen (concat G) + zlen P) < 2 ^ 32 →
  ∃ d b' r, Finish b = Ok (d, b') ∧ zlen d ≤ 14 * (zlen G + 1) + 5 + cost * (zlen (concat G) + zlen P) ∧ FilterBlockReader_new d = Ok r ∧ Forall is_byte d ∧
    ∀ off i k t, 0 ≤ off → off / kFilterBase = Z.of_nat i → recorded G P i k → good t →
      ∃ b, KeyMayMatch off (enc t) r = Ok b ∧ (same k t → b = true).
Proof.
  intros Hb Hsz. unfold Finish.
  assert (∃ b1 G1, (if bool_decide (start_ b = []) then Ok b else GenerateFilter b) = Ok b1 ∧ filled b1 G1 [] ∧ (∀ i k, recorded G P i k → ∃ ks, G1 !! i = Some ks ∧ k ∈ ks) ∧
    zlen G1 ≤ zlen G + 1 ∧ zlen (concat G1) ≤ zlen (concat G) + zlen P) as (b1 & G1 & -> & H1 & Hrec & HG1 & HC1).
  { pose proof (zlen_nonneg P). case_bool_decide as E.
    - rewrite (f_start _ _ _ Hb) in E. apply starts_nil, fmap_nil_inv in E as ->. exists b, G. split; [done|]. split; [done|]. split; [|lia].
      intros i k (ks & Hi & Hk). apply lookup_app_Some in Hi as [Hi|[_ Hi]]; [eauto|]. apply list_lookup_singleton_Some in Hi as [_ <-]. by apply elem_of_nil in Hk.
    - destruct (GenerateFilter_ok b G P Hb) as (b1 & -> & H1). exists b1, (G ++ [P]). split; [done|]. split; [done|]. split; [done|].
      rewrite concat_app, !zlen_app. cbn [concat]. rewrite app_nil_r. change (zlen [P]) with 1. lia. }
  rbind. pose proof (fl_cost (enc := enc) (good := good) (same := same) (cost := cost)). pose proof (f_size _ _ _ H1) as Hz.
  assert (zlen (result_ b1) < 2 ^ 32) as Hlt by nia. destruct (f_filters _ _ _ H1 Hlt) as (fs & H2 & Er & Eo).
  rewrite foldl_fixed. unfold PutFixed32. rewrite u32_small by zlia. rewrite Eo, Er in *.
  destruct (reader_ok fs G1 H2 Hlt) as (r & Hr & Hm). rewrite <- !app_assoc. eexists _, _, r. split; [done|]. split.
  - rewrite !zlen_app, zlen_fixed. change (zlen (EncodeFixed32 _)) with 4. change (zlen [kFilterBaseLg]) with 1.
    assert (zlen (starts 0 fs) = zlen G1) as -> by (unfold zlen; rewrite starts_length; f_equal; by eapply Forall2_length). nia.
  - split; [done|]. split.
    { pose proof (f_bytes _ _ _ H1) as Hb1. rewrite Er in Hb1. rewrite !Forall_app. split; [done|]. split; [|split; [apply fixed32_bytes|by repeat constructor]].
      apply Forall_concat, Forall_fmap, Forall_true. intros x. apply fixed32_bytes. }
    intros off i k t Hoff Hi Hk Ht. destruct (Hrec i k Hk) as (ks & HG & Hin). by eapply Hm.
Qed.
End spec.
End FilterSpec.
