(* ===== verification/TwoLevel.v ===== *)
(** * Two-level iterators (pack/leveldb/table/iterator_wrapper.h,
    two_level_iterator.cc)

    An iterator over an index whose values name blocks, and an iterator over
    the current block. Opening a block may change a state [W], such as a
    cache of blocks. The loops that skip empty blocks take fuel; one round
    more than there are blocks is enough. *)

From stdpp Require Import sorting.
From S2P Require Import Prelude Cstd Cmem Status DbFormat Iter.

(** [IteratorWrapper] keeps whether the iterator is valid, and its key. *)
Section wrapper.
Context {I : Type} `{Iter I}.

Record IteratorWrapper := { w_iter : I; w_valid : bool; w_key : bytes }.

Definition Update (w_key : bytes) (it : I) : result IteratorWrapper :=
  if it_Valid it then k ← it_key it; Ok {| w_iter := it; w_valid := true; w_key := k |}
  else Ok {| w_iter := it; w_valid := false; w_key := w_key |}.
Definition Set_ (it : I) : result IteratorWrapper := Update [] it.

Definition w_move (f : I → result I) (w : IteratorWrapper) : result IteratorWrapper := it ← f (w_iter w); Update (w_key w) it.

#[global] Instance Wrapper_Iter : Iter IteratorWrapper := {
  it_Valid w := w_valid w;
  it_key w := if w_valid w then Ok (w_key w) else Fault AssertFailed;
  it_value w := if w_valid w then it_value (w_iter w) else Fault AssertFailed;
  it_Next := w_move it_Next;
  it_Prev := w_move it_Prev;
  it_Seek k := w_move (it_Seek k);
  it_SeekToFirst := w_move it_SeekToFirst;
  it_SeekToLast := w_move it_SeekToLast;
  it_status w := it_status (w_iter w)
}.
End wrapper.
Arguments IteratorWrapper I : clear implicits.

Module TwoLevel.
Section two.
Context {I J W : Type} `{Iter I} `{Iter J} (block_function_ : bytes → W → result (J * W)) (fuel : nat).

Record TwoLevelIterator := {
  status_ : Status;
  index_iter_ : IteratorWrapper I;
  data_iter_ : option (IteratorWrapper J);
  data_block_handle_ : bytes;
  world : W
}.

Definition NewTwoLevelIterator (index_iter : I) (w : W) : result TwoLevelIterator :=
  i ← Set_ index_iter;
  Ok {| status_ := sOK; index_iter_ := i; data_iter_ := None; data_block_handle_ := []; world := w |}.

Definition with_index (i : IteratorWrapper I) (t : TwoLevelIterator) : TwoLevelIterator :=
  {| status_ := status_ t; index_iter_ := i; data_iter_ := data_iter_ t; data_block_handle_ := data_block_handle_ t; world := world t |}.
Definition with_data (d : option (IteratorWrapper J)) (t : TwoLevelIterator) : TwoLevelIterator :=
  {| status_ := status_ t; index_iter_ := index_iter_ t; data_iter_ := d; data_block_handle_ := data_block_handle_ t; world := world t |}.

Definition SaveError (s : Status) (t : TwoLevelIterator) : TwoLevelIterator :=
  {| status_ := if ok (status_ t) && negb (ok s) then s else status_ t; index_iter_ := index_iter_ t; data_iter_ := data_iter_ t;
     data_block_handle_ := data_block_handle_ t; world := world t |}.

Definition SetDataIterator (data_iter : option J) (t : TwoLevelIterator) : result TwoLevelIterator :=
  let t := match data_iter_ t with Some d => SaveError (it_status d) t | None => t end in
  match data_iter with
  | None => Ok (with_data None t)
  | Some j => d ← Set_ j; Ok (with_data (Some d) t)
  end.

Definition InitDataBlock (t : TwoLevelIterator) : result TwoLevelIterator :=
  if negb (it_Valid (index_iter_ t)) then SetDataIterator None t
  else
    handle ← it_value (index_iter_ t);
    same ← (match data_iter_ t with None => Ok false | Some _ => r ← Slice_compare handle (data_block_handle_ t); Ok (r =? 0) end);
    if (same : bool) then Ok t
    else
      '(j, w) ← block_function_ handle (world t);
      SetDataIterator (Some j) {| status_ := status_ t; index_iter_ := index_iter_ t; data_iter_ := data_iter_ t; data_block_handle_ := handle; world := w |}.

Definition on_data (f : IteratorWrapper J → result (IteratorWrapper J)) (t : TwoLevelIterator) : result TwoLevelIterator :=
  match data_iter_ t with None => Ok t | Some d => d ← f d; Ok (with_data (Some d) t) end.

Definition data_valid (t : TwoLevelIterator) : bool := match data_iter_ t with None => false | Some d => it_Valid d end.

(** [SkipEmptyDataBlocksForward] and [SkipEmptyDataBlocksBackward]. *)
Fixpoint SkipForward (n : nat) (t : TwoLevelIterator) : result TwoLevelIterator :=
  match n with
  | O => Fault AssertFailed
  | S n =>
      if data_valid t then Ok t
      else if negb (it_Valid (index_iter_ t)) then SetDataIterator None t
      else
        i ← it_Next (index_iter_ t);
        t ← InitDataBlock (with_index i t);
        t ← on_data it_SeekToFirst t;
        SkipForward n t
  end.
Fixpoint SkipBackward (n : nat) (t : TwoLevelIterator) : result TwoLevelIterator :=
  match n with
  | O => Fault AssertFailed
  | S n =>
      if data_valid t then Ok t
      else if negb (it_Valid (index_iter_ t)) then SetDataIterator None t
      else
        i ← it_Prev (index_iter_ t);
        t ← InitDataBlock (with_index i t);
        t ← on_data it_SeekToLast t;
        SkipBackward n t
  end.

Definition Seek (target : bytes) (t : TwoLevelIterator) : result TwoLevelIterator :=
  i ← it_Seek target (index_iter_ t);
  t ← InitDataBlock (with_index i t);
  t ← on_data (it_Seek target) t;
  SkipForward fuel t.
Definition SeekToFirst (t : TwoLevelIterator) : result TwoLevelIterator :=
  i ← it_SeekToFirst (index_iter_ t);
  t ← InitDataBlock (with_index i t);
  t ← on_data it_SeekToFirst t;
  SkipForward fuel t.
Definition SeekToLast (t : TwoLevelIterator) : result TwoLevelIterator :=
  i ← it_SeekToLast (index_iter_ t);
  t ← InitDataBlock (with_index i t);
  t ← on_data it_SeekToLast t;
  SkipBackward fuel t.
Definition Next (t : TwoLevelIterator) : result TwoLevelIterator :=
  if data_valid t then t ← on_data it_Next t; SkipForward fuel t else Fault AssertFailed.
Definition Prev (t : TwoLevelIterator) : result TwoLevelIterator :=
  if data_valid t then t ← on_data it_Prev t; SkipBackward fuel t else Fault AssertFailed.

Definition on_valid (f : IteratorWrapper J → result bytes) (t : TwoLevelIterator) : result bytes :=
  if data_valid t then match data_iter_ t with Some d => f d | None => Fault AssertFailed end else Fault AssertFailed.

Definition status (t : TwoLevelIterator) : Status :=
  if negb (ok (it_status (index_iter_ t))) then it_status (index_iter_ t)
  else match data_iter_ t with
       | Some d => if negb (ok (it_status d)) then it_status d else status_ t
       | None => status_ t
       end.

Definition TwoLevel_Iter : Iter TwoLevelIterator := {|
  it_Valid := data_valid;
  it_key := on_valid it_key;
  it_value := on_valid it_value;
  it_Next := Next;
  it_Prev := Prev;
  it_Seek := Seek;
  it_SeekToFirst := SeekToFirst;
  it_SeekToLast := SeekToLast;
  it_status := status
|}.
End two.
Arguments TwoLevelIterator I J W : clear implicits.
End TwoLevel.

(** * Two levels are one list

    Over an index whose keys separate the blocks, a two-level iterator keeps
    the laws of an iterator over the concatenation of the blocks. *)
(** ** The wrapper keeps the laws *)
Section wrapper.
Context {A : Type} {enc : A → bytes} {cmp : A → A → Z} {good : A → Prop}.
Context {I : Type} {HI : Iter I} {At : I → list (A * bytes) → option nat → Prop} {HA : IterLaws enc cmp good I At}.

Definition WAt (w : IteratorWrapper I) (L : list (A * bytes)) (p : option nat) : Prop :=
  At (w_iter w) L p ∧ w_valid w = bool_decide (is_Some p) ∧ ∀ i, p = Some i → Ok (w_key w) = it_key (w_iter w).

Lemma Update_at k it L p : At it L p → ∃ w, Update k it = Ok w ∧ WAt w L p.
Proof.
  intros Hit. unfold Update. rewrite (at_Valid enc cmp good it L p Hit). case_bool_decide as Hp.
  - destruct Hp as [i ->]. destruct (lookup_lt_is_Some_2 L i) as [[a v] Hi]; [by eapply (at_range enc cmp good)|].
    pose proof (at_key enc cmp good it L i a v Hit Hi) as Hk. rewrite Hk. rbind. eexists. split; [done|]. split; [done|]. split; [done|].
    intros i' _. cbn. congruence.
  - eexists. split; [done|]. split; [done|]. cbn. split; [by rewrite bool_decide_false|]. intros i ->. by destruct Hp.
Qed.

Lemma w_move_at f w L p' : (∃ it', f (w_iter w) = Ok it' ∧ At it' L p') → ∃ w', w_move f w = Ok w' ∧ WAt w' L p'.
Proof. intros (it' & E & Hit'). unfold w_move. rewrite E. rbind. by apply Update_at. Qed.

#[export] Instance wrapper_laws : IterLaws enc cmp good (IteratorWrapper I) WAt.
Proof.
  split; cbn [it_Valid it_key it_value it_Next it_Prev it_Seek it_SeekToFirst it_SeekToLast it_status Wrapper_Iter].
  - intros w L i (Hw & _). by eapply (at_range enc cmp good).
  - by intros w L p (_ & -> & _).
  - intros w L i k v (Hw & Hv & Hk) Hi. rewrite Hv, bool_decide_true by done. rewrite (Hk i) by done. by eapply (at_key enc cmp good).
  - intros w L i k v (Hw & Hv & _) Hi. rewrite Hv, bool_decide_true by done. by eapply (at_value enc cmp good).
  - intros w L i (Hw & _). apply w_move_at. by apply (at_Next enc cmp good).
  - intros w L i (Hw & _). apply w_move_at. by apply (at_Prev enc cmp good).
  - intros w L p t L1 L2 (Hw & _) Ht -> H1 H2. apply w_move_at. by apply (at_Seek enc cmp good (w_iter w) (L1 ++ L2) p t L1 L2).
  - intros w L p (Hw & _). apply w_move_at. by apply (at_SeekToFirst enc cmp good (w_iter w) L p).
  - intros w L p (Hw & _). apply w_move_at. by apply (at_SeekToLast enc cmp good (w_iter w) L p).
  - intros w L p (Hw & _). by eapply (at_status enc cmp good).
Qed.
End wrapper.

(** ** Splitting by a key *)
Lemma split_unique {X} (P : X → Prop) (a b c d : list X) :
  a ++ b = c ++ d → Forall P a → Forall (λ x, ¬ P x) b → Forall P c → Forall (λ x, ¬ P x) d → a = c ∧ b = d.
Proof.
  revert c. induction a as [|x a IH]; intros [|y c] E Ha Hb Hc Hd; cbn in E.
  - done.
  - subst b. apply Forall_cons in Hb as [Hn _], Hc as [Hp _]. done.
  - subst d. apply Forall_cons in Hd as [Hn _], Ha as [Hp _]. done.
  - injection E as -> E. apply Forall_cons in Ha as [_ Ha], Hc as [_ Hc]. by destruct (IH c E Ha Hb Hc Hd) as [-> ->].
Qed.

Lemma concat_split {X} (BL : list (list X)) i B : BL !! i = Some B → concat BL = concat (take i BL) ++ B ++ concat (drop (S i) BL).
Proof. intros Hi. rewrite <- (take_drop_middle _ _ _ Hi) at 1. by rewrite concat_app. Qed.

(** ** The laws of the two-level iterator *)
Section spec.
Import TwoLevel.
Context {A : Type} {enc : A → bytes} {cmp : A → A → Z} {good : A → Prop} `{!KeyOrder cmp}.
Context {I J W : Type} {HI : Iter I} {HJ : Iter J} {AtI : I → list (A * bytes) → option nat → Prop} {AtJ : J → list (A * bytes) → option nat → Prop}.
Context {HAI : IterLaws enc cmp good I AtI} {HAJ : IterLaws enc cmp good J AtJ}.
Context (block_function : bytes → W → result (J * W)) (fuel : nat) (wok : W → Prop).

(** The index [XI] names the blocks [BL], which can be opened, and its keys
    separate them. *)
Record indexes (XI : list (A * bytes)) (BL : list (list (A * bytes))) : Prop := {
  x_length : length XI = length BL;
  x_open i s B w : XI !! i = Some s → BL !! i = Some B → wok w → ∃ j w', block_function s.2 w = Ok (j, w') ∧ wok w' ∧ AtJ j B None;
  x_handles : NoDup XI.*2;
  x_short s : s ∈ XI → zlen s.2 < 2 ^ 31;
  x_sorted : sorted (cmp := cmp) XI.*1;
  x_blocks : sorted (cmp := cmp) (concat BL).*1;
  x_below i s B : XI !! i = Some s → BL !! i = Some B → Forall (λ e, cmp e.1 s.1 ≤ 0) B;
  x_above i i' s B : (i < i')%nat → XI !! i = Some s → BL !! i' = Some B → Forall (λ e, 0 < cmp e.1 s.1) B
}.

Section over.
Context (XI : list (A * bytes)) (BL : list (list (A * bytes))) (HX : indexes XI BL).
Abbreviation T := (TwoLevelIterator I J W).
Abbreviation L := (concat BL).

Definition base (i : nat) : nat := length (concat (take i BL)).

(** The current block is some block of the table. *)
Definition tl_ok (t : T) : Prop :=
  wok (world t) ∧ status_ t = sOK ∧ (∃ q, WAt (At := AtI) (index_iter_ t) XI q) ∧
  ∀ d, data_iter_ t = Some d → ∃ i s B p, XI !! i = Some s ∧ BL !! i = Some B ∧ data_block_handle_ t = s.2 ∧ WAt (At := AtJ) d B p.

(** The index stands at [i], and the data at [p] of its block. *)
Definition in_block (t : T) (i : nat) (p : option nat) : Prop :=
  tl_ok t ∧ WAt (At := AtI) (index_iter_ t) XI (Some i) ∧
  ∃ s B d, XI !! i = Some s ∧ BL !! i = Some B ∧ data_iter_ t = Some d ∧ data_block_handle_ t = s.2 ∧ WAt (At := AtJ) d B p.

Definition off_end (t : T) : Prop := tl_ok t ∧ WAt (At := AtI) (index_iter_ t) XI None ∧ data_iter_ t = None.

Definition at_flat (t : T) (p : option nat) : Prop :=
  match p with
  | Some n => ∃ i j, in_block t i (Some j) ∧ n = (base i + j)%nat
  | None => off_end t
  end.

Lemma base_S i B : BL !! i = Some B → base (S i) = (base i + length B)%nat.
Proof. intros Hi. unfold base. rewrite (take_S_r _ _ _ Hi), concat_app, length_app. cbn [concat]. by rewrite app_nil_r. Qed.
Lemma base_all i : (length BL ≤ i)%nat → base i = length L.
Proof. intros Hi. unfold base. by rewrite take_ge. Qed.
Lemma base_le i : (base i ≤ length L)%nat.
Proof. unfold base. rewrite <- (take_drop i BL) at 2. rewrite concat_app, length_app. lia. Qed.

Lemma base_lookup i B j : BL !! i = Some B → (j < length B)%nat → L !! (base i + j)%nat = B !! j.
Proof. intros Hi Hj. rewrite (concat_split _ _ _ Hi). unfold base. by rewrite lookup_app_r, Nat.add_comm, Nat.add_sub, lookup_app_l by lia. Qed.

Lemma index_block i : (i < length BL)%nat → ∃ s B, XI !! i = Some s ∧ BL !! i = Some B.
Proof.
  intros Hi. destruct (lookup_lt_is_Some_2 BL i Hi) as [B HB]. destruct (lookup_lt_is_Some_2 XI i) as [s Hs]; [by rewrite (x_length _ _ HX)|]. by exists s, B.
Qed.

(** Leaving the current block. *)
Lemma SetData_none t : tl_ok t → WAt (At := AtI) (index_iter_ t) XI None → ∃ t', SetDataIterator None t = Ok t' ∧ off_end t'.
Proof.
  intros (Hw & Hs & Hi & Hd) Hn. unfold SetDataIterator. eexists. split; [done|]. destruct (data_iter_ t) as [d|] eqn:E.
  - destruct (Hd d eq_refl) as (i & s & B & p & _ & _ & _ & Hdat). assert (it_status d = sOK) as Es by by eapply (at_status enc cmp good).
    split; [split; [done|]; split; [cbn [status_ with_data SaveError]; by rewrite Es, Hs|]; by split|done].
  - split; [split; [done|]; split; [done|]; by split|done].
Qed.

(** Opening the block of the index, or keeping it. *)
Lemma InitData_ok t i : tl_ok t → WAt (At := AtI) (index_iter_ t) XI (Some i) → ∃ t' p, InitDataBlock block_function t = Ok t' ∧ in_block t' i p.
Proof.
  intros Hok Hi. pose proof Hok as (Hw & Hs & _ & Hd). unfold InitDataBlock. rewrite (at_Valid enc cmp good _ _ _ Hi), bool_decide_true by done. cbn [negb].
  assert (i < length BL)%nat as Hlt by (rewrite <- (x_length _ _ HX); exact (at_range enc cmp good _ _ _ Hi)).
  destruct (index_block i Hlt) as ([a h] & B & Hx & HB). rewrite (at_value enc cmp good _ _ _ _ _ Hi Hx). rbind.
  assert (∃ b, (match data_iter_ t with None => Ok false | Some _ => r ← Slice_compare h (data_block_handle_ t); Ok (r =? 0) end) = Ok b ∧
    (b = true → ∃ d, data_iter_ t = Some d ∧ data_block_handle_ t = h)) as (b & -> & Hb).
  { destruct (data_iter_ t) as [d|] eqn:E; [|by exists false]. destruct (Hd d eq_refl) as (i' & s' & B' & p' & Hx' & _ & Eh & _). rewrite Eh.
    pose proof (x_short _ _ HX (a, h) (list_elem_of_lookup_2 _ _ _ Hx)). rewrite Slice_compare_ok by (cbn in *; lia). rbind. eexists. split; [done|].
    intros Hz%Z.eqb_eq%bcmp_eq. by exists d. }
  rbind. destruct b.
  - destruct (Hb eq_refl) as (d & Ed & Eh). destruct (Hd d Ed) as (i' & s' & B' & p & Hx' & HB' & Eh' & Hdat).
    assert (i' = i) as ->.
    { apply (NoDup_lookup XI.*2 i' i h); [apply HX| |]; rewrite list_lookup_fmap; [rewrite Hx'; cbn; congruence|by rewrite Hx]. }
    exists t, p. split; [done|]. split; [done|]. split; [done|]. exists s', B', d. repeat (split; [done|]). done.
  - destruct (x_open _ _ HX i (a, h) B (world t) Hx HB Hw) as (j & w' & Ej & Hw' & Hj). cbn [snd] in Ej. rewrite Ej. rbind. unfold SetDataIterator. cbn [data_iter_].
    destruct (Update_at (At := AtJ) [] j B None Hj) as (d' & Ed' & Hd'). unfold Set_. rewrite Ed'. rbind. eexists _, None. split; [done|].
    set (t1 := {| status_ := status_ t; index_iter_ := _; data_iter_ := _; data_block_handle_ := h; world := w' |}).
    set (t2 := match data_iter_ t with Some d => SaveError (it_status d) t1 | None => t1 end).
    assert (world t2 = w' ∧ index_iter_ t2 = index_iter_ t ∧ data_block_handle_ t2 = h ∧ status_ t2 = sOK) as (E1 & E2 & E3 & E4).
    { unfold t2. destruct (data_iter_ t) as [d|] eqn:E; [|done]. destruct (Hd d eq_refl) as (i' & s' & B' & p' & _ & _ & _ & Hdat).
      assert (it_status d = sOK) as Es by by eapply (at_status enc cmp good). cbn [status_ world index_iter_ data_block_handle_ SaveError t1]. by rewrite Es, Hs. }
    split; [|split; [cbn; by rewrite E2|]].
    + split; [cbn; by rewrite E1|]. split; [done|]. split; [exists (Some i); cbn; by rewrite E2|]. cbn. intros d [= <-]. exists i, (a, h), B, None. by rewrite E3.
    + exists (a, h), B, d'. cbn. by rewrite E3.
Qed.

(** A move within the block. *)
Lemma on_data_ok f t i p p' : in_block t i p →
  (∀ d B, BL !! i = Some B → WAt (At := AtJ) d B p → ∃ d', f d = Ok d' ∧ WAt (At := AtJ) d' B p') →
  ∃ t', on_data f t = Ok t' ∧ in_block t' i p'.
Proof.
  intros ((Hw & Hs & Hq & Hd) & Hi & s & B & d & Hx & HB & Ed & Eh & Hdat) Hf. unfold on_data. rewrite Ed.
  destruct (Hf d B HB Hdat) as (d' & -> & Hd'). rbind. eexists. split; [done|]. split; [|split; [done|by exists s, B, d']].
  split; [done|]. split; [done|]. split; [done|]. cbn. intros ? [= <-]. by exists i, s, B, p'.
Qed.

Lemma in_block_valid t i p : in_block t i p → data_valid t = bool_decide (is_Some p).
Proof. intros (_ & _ & s & B & d & _ & _ & Ed & _ & Hd). unfold data_valid. rewrite Ed. by eapply (at_Valid enc cmp good). Qed.

Lemma with_index_ok t i q : tl_ok t → WAt (At := AtI) i XI q → tl_ok (with_index i t).
Proof. intros (Hw & Hs & _ & Hd) Hi. split; [done|]. split; [done|]. split; [by exists q|]. exact Hd. Qed.

Lemma SkipForward_end n t : tl_ok t → WAt (At := AtI) (index_iter_ t) XI None → data_iter_ t = None → (0 < n)%nat →
  ∃ t', SkipForward block_function n t = Ok t' ∧ off_end t'.
Proof.
  intros Hok Hi Hd Hn. destruct n as [|n]; [lia|]. cbn [SkipForward]. unfold data_valid. rewrite Hd, (at_Valid enc cmp good _ _ _ Hi), bool_decide_false by (by intros []).
  cbn [negb]. by apply SetData_none.
Qed.
Lemma SkipBackward_end n t : tl_ok t → WAt (At := AtI) (index_iter_ t) XI None → data_iter_ t = None → (0 < n)%nat →
  ∃ t', SkipBackward block_function n t = Ok t' ∧ off_end t'.
Proof.
  intros Hok Hi Hd Hn. destruct n as [|n]; [lia|]. cbn [SkipBackward]. unfold data_valid. rewrite Hd, (at_Valid enc cmp good _ _ _ Hi), bool_decide_false by (by intros []).
  cbn [negb]. by apply SetData_none.
Qed.

(** After the index has moved to [q], the block there is opened and the data
    are placed in it; without a block there are no data. *)
Lemma enter_ok t i q f : tl_ok t → WAt (At := AtI) i XI q →
  (q = None ∧ ∃ t', (t ← InitDataBlock block_function (with_index i t); on_data f t) = Ok t' ∧ off_end t') ∨
  (∃ k t1 p, q = Some k ∧ InitDataBlock block_function (with_index i t) = Ok t1 ∧ in_block t1 k p).
Proof.
  intros Hok Hi. destruct q as [k|].
  - right. destruct (InitData_ok (with_index i t) k) as (t1 & p & E & Hin); [by eapply with_index_ok|done|]. by exists k, t1, p.
  - left. split; [done|]. unfold InitDataBlock. cbn [index_iter_ with_index]. rewrite (at_Valid enc cmp good _ _ _ Hi), bool_decide_false by (by intros []). cbn [negb].
    destruct (SetData_none (with_index i t)) as (t1 & -> & H1); [by eapply with_index_ok|done|]. rbind. unfold on_data. destruct H1 as (? & ? & E). rewrite E. exists t1. split; [done|by split].
Qed.

Lemma SkipForward_ok n : ∀ t i j B, in_block t i (place (length B) j) → BL !! i = Some B → (j ≤ length B)%nat → (length BL - i < n)%nat →
  ∃ t', SkipForward block_function (S n) t = Ok t' ∧ at_flat t' (place (length L) (base i + j)).
Proof.
  induction n as [|n IH]; intros t i j B Hin HB Hj Hn; [pose proof (lookup_lt_Some _ _ _ HB); lia|].
  remember (S n) as m. cbn [SkipForward]. subst m. rewrite (in_block_valid _ _ _ Hin). pose proof (base_S i B HB) as HS. pose proof (base_le (S i)) as Hle.
  destruct (place_cases (length B) j) as [[Hlt E]|[Hge E]]; rewrite E in *.
  - rewrite bool_decide_true by done. exists t. split; [done|]. destruct (place_cases (length L) (base i + j)) as [[_ ->]|[]]; [|lia]. by exists i, j.
  - rewrite bool_decide_false by (by intros []). pose proof Hin as (Hok & Hi & _). rewrite (at_Valid enc cmp good _ _ _ Hi), bool_decide_true by done. cbn [negb].
    destruct (at_Next enc cmp good _ _ _ Hi) as (i' & -> & Hi'). rbind. replace (base i + j)%nat with (base (S i)) by lia.
    destruct (enter_ok t i' _ it_SeekToFirst Hok Hi') as [(Eq & t' & Et & Hend)|(k & t1 & p & Eq & Et & Hin1)].
    + destruct (place_cases (length XI) (S i)) as [[_ Ep]|[Hlast Ep]]; [congruence|]. rewrite (x_length _ _ HX) in Hlast. rewrite base_all by lia.
      apply result_bind_Ok in Et as (t1 & -> & E2). rbind. rewrite E2. rbind. destruct Hend as (H1 & H2 & H3).
      destruct (place_cases (length L) (length L)) as [[]|[_ ->]]; [lia|]. by apply SkipForward_end; [..|lia].
    + destruct (place_cases (length XI) (S i)) as [[Hlt Ep]|[_ Ep]]; rewrite Ep in Eq; simplify_eq. rewrite (x_length _ _ HX) in Hlt. rewrite Et. rbind.
      destruct (lookup_lt_is_Some_2 BL (S i) Hlt) as [B' HB'].
      destruct (on_data_ok it_SeekToFirst t1 (S i) p (place (length B') 0)) as (t2 & -> & Hin2); [done| |].
      { intros d B0 HB0 Hd. rewrite HB' in HB0. simplify_eq. by eapply (at_SeekToFirst enc cmp good). }
      rbind. destruct (IH t2 (S i) 0%nat B' Hin2 HB') as (t' & -> & Ht'); [lia|lia|]. exists t'. split; [done|]. by rewrite Nat.add_0_r in Ht'.
Qed.

Lemma SkipBackward_ok n : ∀ t i j B, in_block t i (before j) → BL !! i = Some B → (j ≤ length B)%nat → (i < n)%nat →
  ∃ t', SkipBackward block_function (S n) t = Ok t' ∧ at_flat t' (before (base i + j)).
Proof.
  induction n as [|n IH]; intros t i j B Hin HB Hj Hn; [lia|].
  remember (S n) as m. cbn [SkipBackward]. subst m. rewrite (in_block_valid _ _ _ Hin). destruct j as [|j]; cbn [before] in *.
  - rewrite bool_decide_false by (by intros []). pose proof Hin as (Hok & Hi & _). rewrite (at_Valid enc cmp good _ _ _ Hi), bool_decide_true by done. cbn [negb].
    destruct (at_Prev enc cmp good _ _ _ Hi) as (i' & -> & Hi'). rbind. rewrite Nat.add_0_r.
    destruct (enter_ok t i' _ it_SeekToLast Hok Hi') as [(Eq & t' & Et & Hend)|(k & t1 & p & Eq & Et & Hin1)].
    + destruct i as [|i]; [|done]. apply result_bind_Ok in Et as (t1 & -> & E2). rbind. rewrite E2. rbind. destruct Hend as (H1 & H2 & H3).
      by apply SkipBackward_end; [..|lia].
    + destruct i as [|i]; cbn in Eq; simplify_eq. rewrite Et. rbind. pose proof (lookup_lt_Some _ _ _ HB) as Hlt.
      destruct (lookup_lt_is_Some_2 BL k) as [B' HB']; [lia|].
      destruct (on_data_ok it_SeekToLast t1 k p (before (length B'))) as (t2 & -> & Hin2); [done| |].
      { intros d B0 HB0 Hd. rewrite HB' in HB0. simplify_eq. by eapply (at_SeekToLast enc cmp good). }
      rbind. destruct (IH t2 k (length B') B' Hin2 HB') as (t' & -> & Ht'); [lia|lia|]. exists t'. split; [done|]. by rewrite (base_S k B' HB').
  - rewrite bool_decide_true by done. exists t. split; [done|]. rewrite Nat.add_succ_r. cbn [before at_flat]. by exists i, j.
Qed.

Definition TAt (t : T) (L' : list (A * bytes)) (p : option nat) : Prop := L' = L ∧ at_flat t p.

Lemma at_flat_ok t p : at_flat t p → tl_ok t ∧ ∃ q, WAt (At := AtI) (index_iter_ t) XI q.
Proof. destruct p; [intros (i & j & (? & ? & _) & _)|intros (? & ? & _)]; eauto. Qed.

Lemma new_flat it w q : AtI it XI q → q = None → wok w → ∃ t, NewTwoLevelIterator it w = Ok t ∧ at_flat t None.
Proof.
  intros Hit -> Hw. unfold NewTwoLevelIterator, Set_. destruct (Update_at (At := AtI) [] it XI None Hit) as (i & -> & Hi). rbind. eexists. split; [done|].
  split; [|done]. split; [done|]. split; [done|]. split; [by exists None|done].
Qed.

Context (Hfuel : (length BL + 1 < fuel)%nat).

Lemma fuel_S : ∃ n, fuel = S n ∧ (length BL < n)%nat.
Proof. exists (pred fuel). lia. Qed.

(** A place from which the code goes forward, and one from which it goes
    backward. *)
Lemma forward_flat t i f k j : tl_ok t → WAt (At := AtI) i XI (place (length XI) k) →
  (∀ d B p, BL !! k = Some B → WAt (At := AtJ) d B p → (j ≤ length B)%nat ∧ ∃ d', f d = Ok d' ∧ WAt (At := AtJ) d' B (place (length B) j)) →
  ((length BL ≤ k)%nat → j = 0%nat) →
  ∃ t', (t ← InitDataBlock block_function (with_index i t); t ← on_data f t; SkipForward block_function fuel t) = Ok t' ∧ at_flat t' (place (length L) (base k + j)).
Proof.
  intros Hok Hi Hf Hend. destruct fuel_S as (n & Ef & Hfl). rewrite Ef. clear Ef. destruct (enter_ok t i _ f Hok Hi) as [(Eq & t' & Et & Hoff)|(k' & t1 & p & Eq & Et & Hin1)].
  - destruct (place_cases (length XI) k) as [[_ Ep]|[Hlast _]]; [congruence|]. rewrite (x_length _ _ HX) in Hlast. rewrite Hend, base_all, Nat.add_0_r by lia.
    apply result_bind_Ok in Et as (t1 & -> & E2). rbind. rewrite E2. rbind. destruct Hoff as (H1 & H2 & H3).
    destruct (place_cases (length L) (length L)) as [[]|[_ ->]]; [lia|]. by apply SkipForward_end; [..|lia].
  - destruct (place_cases (length XI) k) as [[Hlt Ep]|[_ Ep]]; rewrite Ep in Eq; simplify_eq. rewrite (x_length _ _ HX) in Hlt. rewrite Et. rbind.
    destruct (lookup_lt_is_Some_2 BL k' Hlt) as [B HB].
    destruct (on_data_ok f t1 k' p (place (length B) j)) as (t2 & -> & Hin2); [done| |].
    { intros d B0 HB0 Hd. rewrite HB in HB0. simplify_eq. by destruct (Hf d B0 p HB Hd) as [_ ?]. }
    rbind. apply (SkipForward_ok n t2 k' j B); [done|done| |lia].
    destruct Hin1 as (_ & _ & s & B0 & d & _ & HB0 & _ & _ & Hd). rewrite HB in HB0. simplify_eq. by destruct (Hf d B0 p HB Hd).
Qed.

Lemma SeekToFirst_flat t p : at_flat t p → ∃ t', SeekToFirst block_function fuel t = Ok t' ∧ at_flat t' (place (length L) 0).
Proof.
  intros Hp. destruct (at_flat_ok t p Hp) as (Hok & q & Hq). unfold SeekToFirst. destruct (at_SeekToFirst enc cmp good _ _ _ Hq) as (i & -> & Hi). rbind.
  apply (forward_flat t i it_SeekToFirst 0 0 Hok Hi); [|done]. intros d B p' HB Hd. split; [lia|]. by eapply (at_SeekToFirst enc cmp good).
Qed.

Lemma SeekToLast_flat t p : at_flat t p → ∃ t', SeekToLast block_function fuel t = Ok t' ∧ at_flat t' (before (length L)).
Proof.
  intros Hp. destruct (at_flat_ok t p Hp) as (Hok & q & Hq). unfold SeekToLast. destruct (at_SeekToLast enc cmp good _ _ _ Hq) as (i & -> & Hi). rbind.
  destruct fuel_S as (n & Ef & Hfl). rewrite Ef. clear Ef. destruct (enter_ok t i _ it_SeekToLast Hok Hi) as [(Eq & t' & Et & Hoff)|(k & t1 & p1 & Eq & Et & Hin1)].
  - rewrite (x_length _ _ HX) in Eq. destruct (length BL) eqn:El; [|done]. apply nil_length_inv in El. replace (length L) with 0%nat by by rewrite El. apply result_bind_Ok in Et as (t1 & -> & E2). rbind. rewrite E2. rbind.
    destruct Hoff as (H1 & H2 & H3). destruct (SkipBackward_end (S n) t' H1 H2 H3) as (t2 & -> & H4); [lia|]. by exists t2.
  - rewrite (x_length _ _ HX) in Eq. destruct (length BL) as [|m] eqn:El; cbn in Eq; simplify_eq. rewrite Et. rbind. destruct (lookup_lt_is_Some_2 BL k) as [B HB]; [lia|].
    destruct (on_data_ok it_SeekToLast t1 k p1 (before (length B))) as (t2 & -> & Hin2); [done| |].
    { intros d B0 HB0 Hd. rewrite HB in HB0. simplify_eq. by eapply (at_SeekToLast enc cmp good). }
    rbind. destruct (SkipBackward_ok n t2 k (length B) B Hin2 HB) as (t3 & -> & H3); [lia|lia|]. exists t3. split; [done|].
    rewrite <- (base_S k B HB), base_all in H3 by lia. done.
Qed.

Lemma Next_flat t n : at_flat t (Some n) → ∃ t', Next block_function fuel t = Ok t' ∧ at_flat t' (place (length L) (S n)).
Proof.
  intros (i & j & Hin & ->). unfold Next. rewrite (in_block_valid _ _ _ Hin), bool_decide_true by done.
  pose proof Hin as (_ & _ & s & B & d & _ & HB & _ & _ & Hd). pose proof (at_range enc cmp good _ _ _ Hd).
  destruct (on_data_ok it_Next t i (Some j) (place (length B) (S j))) as (t1 & -> & H1); [done| |].
  { intros d0 B0 HB0 Hd0. rewrite HB in HB0. simplify_eq. by eapply (at_Next enc cmp good). }
  rbind. destruct fuel_S as (m & Ef & Hfl). rewrite Ef. clear Ef. destruct (SkipForward_ok m t1 i (S j) B H1 HB) as (t2 & -> & H2); [lia|lia|]. exists t2. split; [done|]. by rewrite Nat.add_succ_r in H2.
Qed.

Lemma Prev_flat t n : at_flat t (Some n) → ∃ t', Prev block_function fuel t = Ok t' ∧ at_flat t' (before n).
Proof.
  intros (i & j & Hin & ->). unfold Prev. rewrite (in_block_valid _ _ _ Hin), bool_decide_true by done.
  pose proof Hin as (_ & _ & s & B & d & _ & HB & _ & _ & Hd). pose proof (at_range enc cmp good _ _ _ Hd). pose proof (lookup_lt_Some _ _ _ HB).
  destruct (on_data_ok it_Prev t i (Some j) (before j)) as (t1 & -> & H1); [done| |].
  { intros d0 B0 HB0 Hd0. rewrite HB in HB0. simplify_eq. by eapply (at_Prev enc cmp good). }
  rbind. destruct fuel_S as (m & Ef & Hfl). rewrite Ef. clear Ef. apply (SkipBackward_ok m t1 i j B H1 HB); lia.
Qed.

(** The block in which a key is sought. *)
Lemma key_sort (X : list (A * bytes)) t : sorted (cmp := cmp) X.*1 → ∃ X1 X2, X = X1 ++ X2 ∧ Forall (λ e, cmp e.1 t < 0) X1 ∧ Forall (λ e, 0 ≤ cmp e.1 t) X2.
Proof.
  intros Hs. destruct (sorted_split X.*1 t Hs) as (l1 & l2 & El & H1 & H2). apply fmap_app_inv in El as (X1 & X2 & -> & -> & ->).
  rewrite Forall_fmap in H1, H2. by exists X1, X2.
Qed.

Lemma blocks_below X1 X2 t : XI = X1 ++ X2 → Forall (λ e, cmp e.1 t < 0) X1 → Forall (λ e, cmp e.1 t < 0) (concat (take (length X1) BL)).
Proof.
  intros EX H1. apply Forall_concat, Forall_forall. intros B HB. apply list_elem_of_lookup in HB as [i Hi]. apply lookup_take_Some in Hi as [HB Hlt].
  destruct (lookup_lt_is_Some_2 X1 i Hlt) as [s Hs]. rewrite Forall_lookup in H1. specialize (H1 _ _ Hs).
  eapply Forall_impl; [apply (x_below _ _ HX i s B); [rewrite EX; by apply lookup_app_l_Some|done]|]. cbn. intros e He. by eapply ko_le_lt.
Qed.

Lemma blocks_above X1 X2 s t : XI = X1 ++ s :: X2 → 0 ≤ cmp s.1 t → Forall (λ e, 0 ≤ cmp e.1 t) (concat (drop (S (length X1)) BL)).
Proof.
  intros EX Hs. apply Forall_concat, Forall_forall. intros B HB. apply list_elem_of_lookup in HB as [i Hi]. rewrite lookup_drop in Hi.
  eapply Forall_impl; [apply (x_above _ _ HX (length X1) (S (length X1) + i) s B); [lia|rewrite EX; by apply list_lookup_middle|done]|]. cbn. intros e He.
  destruct (Z.lt_ge_cases (cmp e.1 t) 0); [|done]. exfalso. assert (cmp s.1 t < 0); [|lia]. apply (ko_le_lt (cmp := cmp) s.1 e.1 t); [|done]. rewrite ko_sym. lia.
Qed.

Lemma Seek_flat tl p t L1 L2 : at_flat tl p → good t → L = L1 ++ L2 → Forall (λ e, cmp e.1 t < 0) L1 → Forall (λ e, 0 ≤ cmp e.1 t) L2 →
  ∃ t', Seek block_function fuel (enc t) tl = Ok t' ∧ at_flat t' (place (length L) (length L1)).
Proof.
  intros Hp Ht EL HL1 HL2. destruct (at_flat_ok tl p Hp) as (Hok & q & Hq). unfold Seek. destruct (key_sort XI t (x_sorted _ _ HX)) as (X1 & X2 & EX & H1 & H2).
  destruct (at_Seek enc cmp good _ _ _ t X1 X2 Hq Ht EX H1 H2) as (i & -> & Hi). rbind.
  assert (∀ l1 l2, L = l1 ++ l2 → Forall (λ e, cmp e.1 t < 0) l1 → Forall (λ e, 0 ≤ cmp e.1 t) l2 → length L1 = length l1) as Huniq.
  { intros l1 l2 E Hl1 Hl2. destruct (split_unique (λ e, cmp e.1 t < 0) L1 L2 l1 l2) as [-> _]; try done; [congruence|..];
      (eapply Forall_impl; [eassumption|]); cbn; lia. }
  pose proof (blocks_below X1 X2 t EX H1) as Hbelow.
  destruct X2 as [|s X2].
  - assert (length X1 = length BL) as El by (rewrite <- (x_length _ _ HX), EX, app_nil_r; done). rewrite El in Hbelow. rewrite take_ge in Hbelow by done.
    rewrite (Huniq L []) by (done || by rewrite app_nil_r). replace (place (length L) (length L)) with (place (length L) (base (length X1) + 0)) by (by rewrite Nat.add_0_r, base_all by lia).
    apply (forward_flat tl i (it_Seek (enc t)) (length X1) 0 Hok Hi); [|done]. intros d B p' HB. apply lookup_lt_Some in HB. lia.
  - apply Forall_cons in H2 as [Hs2 _]. pose proof (blocks_above X1 X2 s t EX Hs2) as Habove.
    assert (length X1 < length BL)%nat as Hlt by (rewrite <- (x_length _ _ HX), EX, length_app; cbn; lia).
    destruct (lookup_lt_is_Some_2 BL _ Hlt) as [B HB]. pose proof (concat_split _ _ _ HB) as Ec.
    assert (sorted (cmp := cmp) B.*1) as HsB.
    { pose proof (x_blocks _ _ HX) as Hs. rewrite Ec, !fmap_app in Hs. unfold sorted in Hs. rewrite !StronglySorted_app in Hs. naive_solver. }
    destruct (key_sort B t HsB) as (B1 & B2 & EB & HB1 & HB2).
    rewrite (Huniq (concat (take (length X1) BL) ++ B1) (B2 ++ concat (drop (S (length X1)) BL))).
    + rewrite length_app. fold (base (length X1)). apply (forward_flat tl i (it_Seek (enc t)) (length X1) (length B1) Hok Hi); [|lia].
      intros d B0 p' HB0 Hd. rewrite HB in HB0. injection HB0 as <-. split; [rewrite EB, length_app; lia|]. by apply (at_Seek enc cmp good d B p' t B1 B2).
    + rewrite Ec, EB. by rewrite <- !app_assoc.
    + apply Forall_app. by split.
    + apply Forall_app. by split.
Qed.
End over.

Abbreviation two_iter := (TwoLevel_Iter block_function fuel).
Abbreviation TwoAt := (λ XI BL (t : TwoLevelIterator I J W) L p, L = concat BL ∧ at_flat XI BL t p).

Lemma two_level_laws XI BL : indexes XI BL → (length BL + 1 < fuel)%nat → IterLaws (H := two_iter) enc cmp good (TwoLevelIterator I J W) (TwoAt XI BL).
Proof.
  intros HX Hf. split; cbn [it_Valid it_key it_value it_Next it_Prev it_Seek it_SeekToFirst it_SeekToLast it_status TwoLevel_Iter].
  - intros t L n [-> (i & j & (_ & _ & s & B & d & _ & HB & _ & _ & Hd) & ->)]. pose proof (at_range enc cmp good _ _ _ Hd).
    pose proof (base_S BL i B HB). pose proof (base_le BL (S i)). lia.
  - intros t L p [-> Hp]. destruct p as [n|]; [destruct Hp as (i & j & Hin & _); by rewrite (in_block_valid _ _ _ _ _ Hin)|].
    destruct Hp as (_ & _ & Hd). unfold data_valid. rewrite Hd. by rewrite bool_decide_false by (by intros []).
  - intros t L n k v [-> (i & j & Hin & ->)] Hn. unfold on_valid. rewrite (in_block_valid _ _ _ _ _ Hin), bool_decide_true by done.
    destruct Hin as (_ & _ & s & B & d & _ & HB & -> & _ & Hd). pose proof (at_range enc cmp good _ _ _ Hd) as Hj. rewrite (base_lookup BL i B j HB Hj) in Hn.
    exact (at_key enc cmp good d B j k v Hd Hn).
  - intros t L n k v [-> (i & j & Hin & ->)] Hn. unfold on_valid. rewrite (in_block_valid _ _ _ _ _ Hin), bool_decide_true by done.
    destruct Hin as (_ & _ & s & B & d & _ & HB & -> & _ & Hd). pose proof (at_range enc cmp good _ _ _ Hd) as Hj. rewrite (base_lookup BL i B j HB Hj) in Hn.
    exact (at_value enc cmp good d B j k v Hd Hn).
  - intros t L n [-> Hn]. destruct (Next_flat XI BL HX Hf t n Hn) as (t' & -> & Ht'). by exists t'.
  - intros t L n [-> Hn]. destruct (Prev_flat XI BL HX Hf t n Hn) as (t' & -> & Ht'). by exists t'.
  - intros t L p k L1 L2 [-> Hn] Hk EL H1 H2. destruct (Seek_flat XI BL HX Hf t p k L1 L2 Hn Hk EL H1 H2) as (t' & -> & Ht'). by exists t'.
  - intros t L p [-> Hn]. destruct (SeekToFirst_flat XI BL HX Hf t p Hn) as (t' & -> & Ht'). by exists t'.
  - intros t L p [-> Hn]. destruct (SeekToLast_flat XI BL HX Hf t p Hn) as (t' & -> & Ht'). by exists t'.
  - intros t L p [-> Hp]. destruct (at_flat_ok XI BL t p Hp) as ((_ & Hs & _ & Hd) & q & Hq). unfold status. rewrite (at_status enc cmp good _ _ _ Hq). cbn [ok negb].
    destruct (data_iter_ t) as [d|]; [|done]. destruct (Hd d eq_refl) as (i & s & B & p' & _ & _ & _ & Hdat). by rewrite (at_status enc cmp good _ _ _ Hdat).
Qed.
End spec.
