(* ===== verification/Merger.v ===== *)
(** * Merging iterators of LevelDB (pack/leveldb/table/merger.cc)

    An iterator over several children: it stands at the child with the
    smallest key when it moves forward, at the one with the largest key when
    it moves backward, and positions the other children again where the
    direction changes. *)

From stdpp Require Import sorting.
From S2P Require Import Prelude Cstd LevelDb Cmem Coding Status DbFormat Iter Comparator Block BlockSpec TwoLevel.

Module Merger.
Section merger.
Context `{Comparator} {I : Type} `{Iter I}.
Abbreviation Child := (IteratorWrapper I).

Inductive Direction := kForward | kReverse.
#[global] Instance Direction_eq_dec : EqDecision Direction.
Proof. solve_decision. Defined.

(** [current_] is the index of the child it points to. *)
Record MergingIterator := { children_ : list Child; current_ : option nat; direction_ : Direction }.

(** One step on each child, in order. *)
Fixpoint each (f : nat → Child → result Child) (i : nat) (l : list Child) : result (list Child) :=
  match l with [] => Ok [] | c :: l => c ← f i c; l ← each f (S i) l; Ok (c :: l) end.

Fixpoint wrap (l : list I) : result (list Child) := match l with [] => Ok [] | it :: l => c ← Set_ it; l ← wrap l; Ok (c :: l) end.
Definition MergingIterator_new (l : list I) : result MergingIterator :=
  c ← wrap l; Ok {| children_ := c; current_ := None; direction_ := kForward |}.

(** The loops of [FindSmallest] and [FindLargest]: the child chosen so far
    and its key. *)
Fixpoint pick (better : Z → bool) (best : option (nat * bytes)) (l : list (nat * Child)) : result (option nat) :=
  match l with
  | [] => Ok (fst <$> best)
  | (i, c) :: l =>
      if it_Valid c then
        k ← it_key c;
        match best with
        | None => pick better (Some (i, k)) l
        | Some (_, b) => r ← cp_Compare k b; pick better (if better r then Some (i, k) else best) l
        end
      else pick better best l
  end.

Definition numbered (l : list Child) : list (nat * Child) := zip (seq 0 (length l)) l.
Definition FindSmallest (m : MergingIterator) : result MergingIterator :=
  c ← pick (λ r, r <? 0) None (numbered (children_ m)); Ok {| children_ := children_ m; current_ := c; direction_ := direction_ m |}.
Definition FindLargest (m : MergingIterator) : result MergingIterator :=
  c ← pick (λ r, 0 <? r) None (reverse (numbered (children_ m))); Ok {| children_ := children_ m; current_ := c; direction_ := direction_ m |}.

Definition with_children (l : list Child) (m : MergingIterator) : MergingIterator := {| children_ := l; current_ := current_ m; direction_ := direction_ m |}.
Definition turned (d : Direction) (m : MergingIterator) : MergingIterator := {| children_ := children_ m; current_ := current_ m; direction_ := d |}.

Definition SeekToFirst (m : MergingIterator) : result MergingIterator :=
  l ← each (λ _, it_SeekToFirst) 0 (children_ m); m ← FindSmallest (with_children l m); Ok (turned kForward m).
Definition SeekToLast (m : MergingIterator) : result MergingIterator :=
  l ← each (λ _, it_SeekToLast) 0 (children_ m); m ← FindLargest (with_children l m); Ok (turned kReverse m).
Definition Seek (target : bytes) (m : MergingIterator) : result MergingIterator :=
  l ← each (λ _, it_Seek target) 0 (children_ m); m ← FindSmallest (with_children l m); Ok (turned kForward m).

(** The child it stands at; [Valid] is asserted. *)
Definition on_current {A} (m : MergingIterator) (f : nat → Child → result A) : result A :=
  match current_ m with
  | Some i => match children_ m !! i with Some c => f i c | None => Fault OutOfBounds end
  | None => Fault AssertFailed
  end.
Definition key (m : MergingIterator) : result bytes := on_current m (λ _, it_key).
Definition value (m : MergingIterator) : result bytes := on_current m (λ _, it_value).

(** Positions another child behind the key. *)
Definition after_key (k : bytes) (c : Child) : result Child :=
  c ← it_Seek k c;
  if it_Valid c then ck ← it_key c; r ← cp_Compare k ck; if r =? 0 then it_Next c else Ok c else Ok c.
(** Positions another child before the key. *)
Definition before_key (k : bytes) (c : Child) : result Child :=
  c ← it_Seek k c;
  if it_Valid c then it_Prev c else it_SeekToLast c.

Definition realign (d : Direction) (f : bytes → Child → result Child) (m : MergingIterator) : result MergingIterator :=
  if decide (direction_ m = d) then Ok m
  else
    on_current m (λ cur _,
      l ← each (λ i c, if decide (i = cur) then Ok c else k ← key m; f k c) 0 (children_ m);
      Ok (turned d (with_children l m))).

Definition step_current (f : Child → result Child) (m : MergingIterator) : result MergingIterator :=
  on_current m (λ i c, c ← f c; Ok (with_children (<[i := c]> (children_ m)) m)).

Definition Next (m : MergingIterator) : result MergingIterator :=
  m ← on_current m (λ _ _, realign kForward after_key m); m ← step_current it_Next m; FindSmallest m.
Definition Prev (m : MergingIterator) : result MergingIterator :=
  m ← on_current m (λ _ _, realign kReverse before_key m); m ← step_current it_Prev m; FindLargest m.

Fixpoint first_error (l : list Child) : Status :=
  match l with [] => sOK | [c] => it_status c | c :: l => if ok (it_status c) then first_error l else it_status c end.

#[global] Instance Merging_Iter : Iter MergingIterator := {
  it_Valid m := bool_decide (is_Some (current_ m));
  it_key := key;
  it_value := value;
  it_Next := Next;
  it_Prev := Prev;
  it_Seek := Seek;
  it_SeekToFirst := SeekToFirst;
  it_SeekToLast := SeekToLast;
  it_status m := first_error (children_ m)
}.

(** [NewMergingIterator]: nothing, the only child, or the merge. *)
Inductive Merged := NoChild | OneChild (it : I) | Merge (m : MergingIterator).
Definition NewMergingIterator (l : list I) : result Merged :=
  match l with [] => Ok NoChild | [it] => Ok (OneChild it) | _ => m ← MergingIterator_new l; Ok (Merge m) end.

Definition inspect {A} (d : A) (f : ∀ X, Iter X → X → A) (m : Merged) : A :=
  match m with NoChild => d | OneChild it => f I _ it | Merge m => f MergingIterator _ m end.
Definition advance (d : result Merged) (f : ∀ X, Iter X → X → result X) (m : Merged) : result Merged :=
  match m with NoChild => d | OneChild it => it ← f I _ it; Ok (OneChild it) | Merge m => m ← f MergingIterator _ m; Ok (Merge m) end.

#[global] Instance Merged_Iter : Iter Merged := {
  it_Valid := inspect false (λ X _, it_Valid);
  it_key := inspect (Fault AssertFailed) (λ X _, it_key);
  it_value := inspect (Fault AssertFailed) (λ X _, it_value);
  it_Next := advance (Fault AssertFailed) (λ X _, it_Next);
  it_Prev := advance (Fault AssertFailed) (λ X _, it_Prev);
  it_Seek t := advance (Ok NoChild) (λ X _, it_Seek t);
  it_SeekToFirst := advance (Ok NoChild) (λ X _, it_SeekToFirst);
  it_SeekToLast := advance (Ok NoChild) (λ X _, it_SeekToLast);
  it_status := inspect sOK (λ X _, it_status)
}.
End merger.
Arguments MergingIterator I : clear implicits.
Arguments Merged I : clear implicits.
End Merger.

(** * A merge is one sorted list

    Over children that iterate over sorted lists, a merging iterator keeps
    the laws of an iterator over the sorted list of all their pairs, as long
    as no two pairs have equal keys. *)
Import Block Merger.

Section merging.
Context {A : Type} {enc : A → bytes} {cmp : A → A → Z} {good : A → Prop} {HC : Comparator} {HCL : ComparatorLaws enc cmp good}.
Context {I : Type} {HI : Iter I} {At : I → list (A * bytes) → option nat → Prop} {HA : IterLaws enc cmp good I At}.
Abbreviation pair := (A * bytes)%type.
Abbreviation CAt := (WAt (At := At)).
Implicit Types (L : list pair) (Ls : list (list pair)) (t : option A).

(** ** Cuts

    A cut is before a key, or at the end. *)
Definition under t (e : pair) : Prop := match t with Some a => cmp e.1 a < 0 | None => True end.
#[local] Instance under_dec t e : Decision (under t e).
Proof. unfold under. destruct t; apply _. Defined.
Definition cut t L : nat := length (filter (under t) L).
Definition keyat L (n : nat) : option A := fst <$> L !! n.

Lemma cut_split t L : sorted (cmp := cmp) L.*1 → ∃ L1 L2, L = L1 ++ L2 ∧ Forall (under t) L1 ∧ Forall (λ e, ¬ under t e) L2 ∧ cut t L = length L1.
Proof.
  intros Hs. assert (∃ L1 L2, L = L1 ++ L2 ∧ Forall (under t) L1 ∧ Forall (λ e, ¬ under t e) L2) as (L1 & L2 & -> & H1 & H2).
  { destruct t as [a|]; [|exists L, []; rewrite app_nil_r; split; [done|]; split; [by apply Forall_true|done]].
    destruct (key_sort L a Hs) as (L1 & L2 & -> & H1 & H2). exists L1, L2. split; [done|]. split; [done|]. eapply Forall_impl; [exact H2|]. cbn. lia. }
  exists L1, L2. split; [done|]. split; [done|]. split; [done|]. unfold cut. rewrite filter_app, (filter_none _ L2) by done. rewrite app_nil_r.
  f_equal. rewrite <- (app_nil_l L1) at 1. by apply (filter_split _ [] L1).
Qed.

Lemma cut_all L : cut None L = length L.
Proof. unfold cut. f_equal. rewrite <- (app_nil_l L) at 1. apply (filter_split _ [] L); [done|]. by apply Forall_true. Qed.

(** The lists of the children, and the sorted list of all their pairs. *)
Record merges L Ls : Prop := {
  m_sorted : sorted (cmp := cmp) L.*1;
  m_perm : L ≡ₚ concat Ls;
  m_lists : Forall (λ l, sorted (cmp := cmp) l.*1) Ls;
  m_good : Forall (good ∘ fst) L
}.

Lemma sorted_perm_eq L L' : sorted (cmp := cmp) L.*1 → sorted (cmp := cmp) L'.*1 → L ≡ₚ L' → L = L'.
Proof.
  unfold sorted. revert L'. induction L as [|e L IH]; intros L' Hs Hs' Hp; [by apply Permutation_nil_l in Hp as ->|].
  destruct L' as [|e' L']; [by apply Permutation_nil_r in Hp|]. cbn in Hs, Hs'. apply StronglySorted_cons in Hs as [Ha Hs], Hs' as [Ha' Hs']. rewrite Forall_fmap, Forall_forall in Ha, Ha'.
  assert (e = e') as <-; [|f_equal; apply IH; [done..|by apply Permutation_cons_inv in Hp]].
  assert (e ∈ e' :: L') as [|Hin]%elem_of_cons by (rewrite <- Hp; set_solver); [done|]. assert (e' ∈ e :: L) as [|Hin']%elem_of_cons by (rewrite Hp; set_solver); [done|].
  specialize (Ha _ Hin'). specialize (Ha' _ Hin). cbn in Ha, Ha'. rewrite ko_sym in Ha. lia.
Qed.

Section over.
Context L Ls (HM : merges L Ls).

Lemma in_child j l e : Ls !! j = Some l → e ∈ l → e ∈ L.
Proof. intros Hj He. rewrite (m_perm _ _ HM). apply list_elem_of_In, in_concat. exists l. split; apply list_elem_of_In; [by eapply list_elem_of_lookup_2|done]. Qed.

Lemma child_of e : e ∈ L → ∃ j l, Ls !! j = Some l ∧ e ∈ l.
Proof. intros He. rewrite (m_perm _ _ HM) in He. apply list_elem_of_In, in_concat in He as (l & Hl & He). apply list_elem_of_In in Hl, He. apply list_elem_of_lookup in Hl as [j Hj]. eauto. Qed.

Lemma key_order i j e e' : L !! i = Some e → L !! j = Some e' → cmp e.1 e'.1 < 0 ↔ (i < j)%nat.
Proof.
  intros Hi Hj. assert (∀ i j e e', (i < j)%nat → L !! i = Some e → L !! j = Some e' → cmp e.1 e'.1 < 0) as Hlt.
  { intros i' j' x y Hij Hx Hy. eapply (proj1 (strongly_sorted_lookup _ _) (m_sorted _ _ HM) i' j'); [done|by rewrite list_lookup_fmap, Hx|by rewrite list_lookup_fmap, Hy]. }
  split; [|by intros; eapply Hlt]. intros Hc. destruct (lt_eq_lt_dec i j) as [[|Hij]|Hij]; [done| |].
  - subst. rewrite Hi in Hj. injection Hj as <-. pose proof (ko_sym (cmp := cmp) e.1 e.1). lia.
  - specialize (Hlt j i e' e Hij Hj Hi). rewrite ko_sym in Hlt. lia.
Qed.

Lemma under_index n i e : L !! i = Some e → under (keyat L n) e ↔ (i < n)%nat.
Proof.
  intros Hi. unfold under, keyat. destruct (L !! n) as [x|] eqn:En; cbn; [by apply (key_order i n)|]. apply lookup_ge_None in En. apply lookup_lt_Some in Hi. split; [lia|done].
Qed.

Lemma index_inj i j e : L !! i = Some e → L !! j = Some e → i = j.
Proof.
  intros Hi Hj. pose proof (key_order i j e e Hi Hj) as H1. pose proof (key_order j i e e Hj Hi) as H2. pose proof (ko_sym (cmp := cmp) e.1 e.1).
  destruct (lt_eq_lt_dec i j) as [[Hij|]|Hij]; [|done|]; [apply H1 in Hij|apply H2 in Hij]; lia.
Qed.

Lemma child_unique j j' l l' e : Ls !! j = Some l → Ls !! j' = Some l' → e ∈ l → e ∈ l' → j = j'.
Proof.
  assert (NoDup (concat Ls)) as Hnd. { rewrite <- (m_perm _ _ HM). apply NoDup_alt. intros i i' x. by apply index_inj. }
  assert (∀ j j' l l', (j < j')%nat → Ls !! j = Some l → Ls !! j' = Some l' → e ∈ l → e ∈ l' → False) as Hlt.
  { intros i i' x x' Hii Hi Hi' He He'. rewrite (concat_split _ _ _ Hi) in Hnd. apply NoDup_app in Hnd as (_ & _ & Hnd). apply NoDup_app in Hnd as (_ & Hnd & _). apply (Hnd e He).
    apply list_elem_of_In, in_concat. exists x'. split; apply list_elem_of_In; [|done]. apply (list_elem_of_lookup_2 _ (i' - S i)). rewrite lookup_drop. by replace (S i + (i' - S i))%nat with i' by lia. }
  intros Hj Hj' He He'. destruct (lt_eq_lt_dec j j') as [[Hjj|]|Hjj]; [|done|]; exfalso; [by eapply (Hlt j j')|by eapply (Hlt j' j)].
Qed.

Lemma child_sorted j l : Ls !! j = Some l → sorted (cmp := cmp) l.*1.
Proof. intros Hj. exact (proj1 (Forall_lookup _ _) (m_lists _ _ HM) j l Hj). Qed.

Lemma cut_unique t l L1 L2 : l = L1 ++ L2 → Forall (under t) L1 → Forall (λ e, ¬ under t e) L2 → cut t l = length L1.
Proof.
  intros -> H1 H2. unfold cut. rewrite filter_app, (filter_none _ L2) by done. rewrite app_nil_r. f_equal. rewrite <- (app_nil_l L1) at 1. by apply (filter_split _ [] L1).
Qed.

(** The child that holds the pair [n] has it at the cut before [n], the
    others have something behind it there. *)
Lemma at_cut n j l e : L !! n = Some e → Ls !! j = Some l → e ∈ l → l !! cut (keyat L n) l = Some e.
Proof.
  intros Hn Hj He. destruct (cut_split (keyat L n) l (child_sorted j l Hj)) as (L1 & L2 & El & H1 & H2 & ->). assert (e ∉ L1) as Hno.
  { intros Hin. rewrite Forall_forall in H1. specialize (H1 e Hin). apply (under_index n n e Hn) in H1. lia. }
  rewrite El in He. apply elem_of_app in He as [|He]; [done|]. destruct L2 as [|x L2]; [by apply elem_of_nil in He|].
  rewrite El, lookup_app_r, Nat.sub_diag by done. cbn. apply elem_of_cons in He as [->|He]; [done|]. exfalso. apply Forall_cons in H2 as [Hx _]. apply Hx.
  unfold under, keyat. rewrite Hn. cbn. pose proof (child_sorted j l Hj) as Hs. rewrite El, fmap_app in Hs. unfold sorted in Hs. apply StronglySorted_app in Hs as (_ & _ & Hs).
  cbn in Hs. apply StronglySorted_cons in Hs as [Hall _]. rewrite Forall_forall in Hall. apply Hall. by apply (list_elem_of_fmap_2 fst).
Qed.

Lemma not_under_at t j l e : Ls !! j = Some l → l !! cut t l = Some e → ¬ under t e.
Proof.
  intros Hj He. destruct (cut_split t l (child_sorted j l Hj)) as (L1 & L2 & El & _ & H2 & Ec). rewrite Ec, El, lookup_app_r, Nat.sub_diag in He by done.
  destruct L2 as [|x L2]; [done|]. injection He as ->. by apply Forall_cons in H2 as [? _].
Qed.
Lemma under_before t j l q e : Ls !! j = Some l → cut t l = S q → l !! q = Some e → under t e.
Proof.
  intros Hj Hq He. destruct (cut_split t l (child_sorted j l Hj)) as (L1 & L2 & El & H1 & _ & Ec). rewrite El, lookup_app_l in He by lia. rewrite Forall_lookup in H1. by eapply H1.
Qed.

(** One pair further, one child is one further. *)
Lemma cut_S n j l e : L !! n = Some e → Ls !! j = Some l → e ∈ l → cut (keyat L (S n)) l = S (cut (keyat L n) l).
Proof.
  intros Hn Hj He. pose proof (at_cut n j l e Hn Hj He) as Hat. destruct (cut_split (keyat L n) l (child_sorted j l Hj)) as (L1 & L2 & El & H1 & H2 & Ec). rewrite Ec in *.
  rewrite El, lookup_app_r, Nat.sub_diag in Hat by done. destruct L2 as [|x L2]; [done|]. injection Hat as ->.
  rewrite (cut_unique _ l (L1 ++ [e]) L2); [rewrite length_app; cbn; lia|by rewrite <- app_assoc| |].
  - apply Forall_app. split; [|apply Forall_singleton, (under_index (S n) n e Hn); lia]. rewrite Forall_forall in H1 |- *. intros y Hy.
    destruct (proj1 (list_elem_of_lookup L y)) as [i Hi]; [eapply in_child; [exact Hj|]; rewrite El; set_solver|]. apply (under_index (S n) i y Hi). specialize (H1 y Hy). apply (under_index n i y Hi) in H1. lia.
  - apply Forall_cons in H2 as [_ H2]. pose proof (child_sorted j l Hj) as Hs. rewrite El, fmap_app in Hs. unfold sorted in Hs. apply StronglySorted_app in Hs as (_ & _ & Hs). cbn in Hs.
    apply StronglySorted_cons in Hs as [Hall _]. rewrite Forall_fmap in Hall. rewrite Forall_forall in Hall |- *. intros y Hy Hu.
    destruct (proj1 (list_elem_of_lookup L y)) as [i Hi]; [eapply in_child; [exact Hj|]; rewrite El; set_solver|]. apply (under_index (S n) i y Hi) in Hu.
    specialize (Hall y Hy). cbn in Hall. apply (key_order n i e y Hn Hi) in Hall. lia.
Qed.
Lemma cut_same n j l e : L !! n = Some e → Ls !! j = Some l → e ∉ l → cut (keyat L (S n)) l = cut (keyat L n) l.
Proof.
  intros Hn Hj He. destruct (cut_split (keyat L n) l (child_sorted j l Hj)) as (L1 & L2 & El & H1 & H2 & Ec). rewrite Ec. apply (cut_unique _ l L1 L2 El).
  - rewrite Forall_forall in H1 |- *. intros y Hy. destruct (proj1 (list_elem_of_lookup L y)) as [i Hi]; [eapply in_child; [exact Hj|]; rewrite El; set_solver|].
    apply (under_index (S n) i y Hi). specialize (H1 y Hy). apply (under_index n i y Hi) in H1. lia.
  - rewrite Forall_forall in H2 |- *. intros y Hy Hu. destruct (proj1 (list_elem_of_lookup L y)) as [i Hi]; [eapply in_child; [exact Hj|]; rewrite El; set_solver|].
    apply (under_index (S n) i y Hi) in Hu. apply (H2 y Hy). apply (under_index n i y Hi). assert (i ≠ n); [|lia]. intros ->. rewrite Hn in Hi. injection Hi as ->. apply He. rewrite El. set_solver.
Qed.

(** ** Choosing a child *)
Definition all_at (f : list pair → option nat) (ch : list (IteratorWrapper I)) : Prop := Forall2 (λ c l, CAt c l (f l)) ch Ls.
Definition shown (f : list pair → option nat) (j : nat) (e : pair) : Prop := ∃ l q, Ls !! j = Some l ∧ f l = Some q ∧ l !! q = Some e.

Lemma shown_unique f j e e' : shown f j e → shown f j e' → e = e'.
Proof. intros (l & q & H1 & H2 & H3) (l' & q' & H1' & H2' & H3'). congruence. Qed.

Lemma child_shows f ch j c : all_at f ch → ch !! j = Some c →
  (it_Valid c = false ∧ ∀ e, ¬ shown f j e) ∨ (∃ e, shown f j e ∧ it_Valid c = true ∧ it_key c = Ok (enc e.1) ∧ good e.1).
Proof.
  intros Ha Hc. destruct (Forall2_lookup_l _ _ _ _ _ Ha Hc) as (l & Hl & Hat). rewrite (at_Valid enc cmp good _ _ _ Hat). destruct (f l) as [q|] eqn:Ef.
  - right. pose proof (at_range enc cmp good _ _ _ Hat) as Hq. destruct (lookup_lt_is_Some_2 l q Hq) as [[k v] He]. exists (k, v). split; [by exists l, q|]. split; [by rewrite bool_decide_true|].
    split; [by apply (at_key enc cmp good c l q k v)|]. pose proof (m_good _ _ HM) as Hg. rewrite Forall_forall in Hg. apply (Hg (k, v)). eapply in_child; [exact Hl|]. by eapply list_elem_of_lookup_2.
  - left. split; [by rewrite bool_decide_false by (by intros [])|]. intros e (l' & q & Hl' & Hf & _). congruence.
Qed.

Definition items_ok (f : list pair → option nat) (its : list (nat * IteratorWrapper I)) : Prop :=
  ∃ ch, all_at f ch ∧ ∀ i c, (i, c) ∈ its → ch !! i = Some c.

Lemma pick_winner f better j e its : items_ok f its → shown f j e →
  (∀ j' e', j' ≠ j → shown f j' e' → better (cmp e.1 e'.1) = true ∧ better (cmp e'.1 e.1) = false) → ∀ best,
  (∃ c, (j, c) ∈ its) ∨ best = Some (j, enc e.1) → NoDup its.*1 →
  (∀ i b, best = Some (i, b) → (i ∉ its.*1) ∧ (∃ e', shown f i e' ∧ good e'.1 ∧ b = enc e'.1)) → pick better best its = Ok (Some j).
Proof.
  intros Hit He Hwin. destruct Hit as (ch & Ha & Hch). induction its as [|[i c] its IH]; intros best Hj Hnd Hbest; cbn [pick].
  - destruct Hj as [[c Hc]| ->]; [by apply elem_of_nil in Hc|done].
  - apply NoDup_cons in Hnd as [Hi Hnd]. cbn [fst] in Hi. assert (∀ i c, (i, c) ∈ its → ch !! i = Some c) as Hch' by (intros; apply Hch; set_solver).
    assert (∀ i' b', best = Some (i', b') → (i' ∉ its.*1) ∧ i' ≠ i ∧ (∃ e', shown f i' e' ∧ good e'.1 ∧ b' = enc e'.1)) as Hbest' by (intros i' b' E; destruct (Hbest i' b' E); set_solver).
    destruct (child_shows f ch i c Ha) as [[-> Hno]|(x & Hx & -> & -> & Hg)]; [apply Hch; set_solver| |].
    + apply (IH Hch'); [|done|by intros i' b' (? & _ & ?)%Hbest']. destruct Hj as [[c' Hc']|]; [|by right]. apply elem_of_cons in Hc' as [[= -> ->]|Hc']; [by destruct (Hno e)|left; eauto].
    + rbind. destruct best as [[b bk]|].
      * destruct (Hbest' b bk eq_refl) as (Hb & Hbi & y & Hy & Hgy & ->). rewrite cp_compare by done. rbind.
        destruct (decide (i = j)) as [->|Hij].
        -- assert (x = e) as -> by by eapply shown_unique. destruct (Hwin b y Hbi Hy) as [-> _]. apply (IH Hch'); [by right|done|]. intros i' b' [= <- <-]. eauto.
        -- assert ((∃ c0, (j, c0) ∈ its) ∨ b = j) as Hj'. { destruct Hj as [[c' Hc']|[= -> _]]; [|by right]. left. apply elem_of_cons in Hc' as [[= -> _]|]; [done|eauto]. }
           destruct (decide (b = j)) as [->|Hbj].
           ++ assert (y = e) as -> by by eapply shown_unique. destruct (Hwin i x Hij Hx) as [_ ->]. apply (IH Hch'); [by right|done|]. intros i' b' [= <- <-]. eauto.
           ++ apply (IH Hch'); [left; by destruct Hj'|done|]. intros i' b'. destruct (better _); intros [= <- <-]; eauto.
      * apply (IH Hch'); [|done|intros i' b' [= <- <-]; eauto]. destruct Hj as [[c' Hc']|]; [|done]. apply elem_of_cons in Hc' as [[= -> ->]|Hc']; [|left; eauto].
        right. by assert (x = e) as -> by by eapply shown_unique.
Qed.

Lemma pick_none f better its : items_ok f its → (∀ j e, ¬ shown f j e) → pick better None its = Ok None.
Proof.
  intros (ch & Ha & Hch) Hno. induction its as [|[i c] its IH]; cbn [pick]; [done|]. destruct (child_shows f ch i c Ha) as [[-> _]|(x & Hx & _)]; [apply Hch; set_solver| |by destruct (Hno i x)].
  apply IH. intros i' c' H. apply Hch. set_solver.
Qed.

Lemma numbered_elem (ch : list (IteratorWrapper I)) i c : (i, c) ∈ numbered ch ↔ ch !! i = Some c.
Proof.
  unfold numbered. rewrite list_elem_of_lookup. split.
  - intros [n Hn]. apply lookup_zip_with_Some in Hn as (x & y & [= -> ->] & H1 & H2). apply lookup_seq in H1 as [-> _]. done.
  - intros Hi. exists i. apply lookup_zip_with_Some. exists i, c. split; [done|]. split; [|done]. apply lookup_seq. split; [lia|]. by eapply lookup_lt_Some.
Qed.
Lemma numbered_fst (ch : list (IteratorWrapper I)) : (numbered ch).*1 = seq 0 (length ch).
Proof. unfold numbered. apply fst_zip. rewrite length_seq. lia. Qed.

Lemma find_winner f better ch its j e : all_at f ch → its ≡ₚ numbered ch → shown f j e →
  (∀ j' e', j' ≠ j → shown f j' e' → better (cmp e.1 e'.1) = true ∧ better (cmp e'.1 e.1) = false) → pick better None its = Ok (Some j).
Proof.
  intros Ha Hp He Hw. eapply (pick_winner f better j e its); [|exact He|exact Hw| | |done].
  - exists ch. split; [done|]. intros i c Hic. rewrite Hp in Hic. by apply numbered_elem.
  - left. destruct He as (l & q & Hl & _). destruct (Forall2_lookup_r _ _ _ _ _ Ha Hl) as (c & Hc & _). exists c. rewrite Hp. by apply numbered_elem.
  - rewrite Hp, numbered_fst. apply NoDup_seq.
Qed.
Lemma find_none f better ch its : all_at f ch → its ≡ₚ numbered ch → (∀ j e, ¬ shown f j e) → pick better None its = Ok None.
Proof. intros Ha Hp Hno. eapply pick_none; [|exact Hno]. exists ch. split; [done|]. intros i c Hic. rewrite Hp in Hic. by apply numbered_elem. Qed.

(** ** Moving to a cut *)
Definition fwd t (l : list pair) : option nat := place (length l) (cut t l).
Definition bwd t (l : list pair) : option nat := before (cut t l).

(** The state of the iterator at a place of [L]. *)
Definition standing (m : MergingIterator I) (p : option nat) : Prop :=
  match p with
  | Some n => ∃ j e l, L !! n = Some e ∧ Ls !! j = Some l ∧ e ∈ l ∧ current_ m = Some j ∧
      all_at (match direction_ m with kForward => fwd (keyat L n) | kReverse => bwd (keyat L (S n)) end) (children_ m)
  | None => current_ m = None ∧ ∃ f, all_at f (children_ m)
  end.

Lemma fwd_shown n j e l : L !! n = Some e → Ls !! j = Some l → e ∈ l → shown (fwd (keyat L n)) j e.
Proof.
  intros Hn Hj He. pose proof (at_cut n j l e Hn Hj He) as Hc. exists l, (cut (keyat L n) l). split; [done|]. split; [|done]. unfold fwd.
  destruct (place_cases (length l) (cut (keyat L n) l)) as [[_ E]|[Hge _]]; [done|]. apply lookup_lt_Some in Hc. lia.
Qed.
Lemma bwd_shown n j e l : L !! n = Some e → Ls !! j = Some l → e ∈ l → shown (bwd (keyat L (S n))) j e.
Proof.
  intros Hn Hj He. exists l, (cut (keyat L n) l). split; [done|]. split; [|by eapply at_cut]. unfold bwd. by rewrite (cut_S n j l e Hn Hj He).
Qed.

Lemma shown_in f j e : shown f j e → e ∈ L.
Proof. intros (l & q & Hl & _ & Hq). eapply in_child; [exact Hl|]. by eapply list_elem_of_lookup_2. Qed.

Lemma shown_fwd_not_under t j e : shown (fwd t) j e → ¬ under t e.
Proof. intros (l & q & Hl & Hf & Hq). unfold fwd in Hf. destruct (place_cases (length l) (cut t l)) as [[_ E]|[_ E]]; [|congruence]. rewrite E in Hf. injection Hf as <-. by eapply not_under_at. Qed.
Lemma shown_bwd_under t j e : shown (bwd t) j e → under t e.
Proof. intros (l & q & Hl & Hf & Hq). unfold bwd in Hf. destruct (cut t l) as [|c] eqn:Ec; [done|]. injection Hf as ->. by eapply under_before. Qed.

Lemma same_child f g j j' e : shown f j e → shown g j' e → j = j'.
Proof. intros (l & q & Hl & _ & Hq) (l' & q' & Hl' & _ & Hq'). eapply child_unique; [exact Hl|exact Hl'|by eapply list_elem_of_lookup_2|by eapply list_elem_of_lookup_2]. Qed.

Lemma FindSmallest_ok m n : all_at (fwd (keyat L n)) (children_ m) → (n ≤ length L)%nat → direction_ m = kForward →
  ∃ m', FindSmallest m = Ok m' ∧ standing m' (place (length L) n) ∧ direction_ m' = kForward.
Proof.
  intros Ha Hn Hd. unfold FindSmallest. destruct (place_cases (length L) n) as [[Hlt ->]|[Hge ->]].
  - destruct (lookup_lt_is_Some_2 L n Hlt) as [e He]. destruct (child_of e) as (j & l & Hj & Hel); [by eapply list_elem_of_lookup_2|].
    pose proof (fwd_shown n j e l He Hj Hel) as Hsh. rewrite (find_winner (fwd (keyat L n)) _ (children_ m) _ j e Ha); [|done|exact Hsh|].
    + rbind. eexists. split; [done|]. cbn. rewrite Hd. split; [|done]. by exists j, e, l.
    + intros j' e' Hne Hsh'. pose proof (shown_fwd_not_under _ _ _ Hsh') as Hnu. destruct (proj1 (list_elem_of_lookup L e') (shown_in _ _ _ Hsh')) as [i Hi].
      rewrite (under_index n i e' Hi) in Hnu. assert (i ≠ n) as Hin. { intros ->. apply Hne. assert (e' = e) as -> by congruence. by eapply same_child. }
      pose proof (proj2 (key_order n i e e' He Hi) ltac:(lia)). pose proof (ko_sym (cmp := cmp) e.1 e'.1). split; [apply Z.ltb_lt; lia|apply Z.ltb_ge; lia].
  - rewrite (find_none (fwd (keyat L n)) _ (children_ m) _ Ha); [|done|].
    + rbind. eexists. split; [done|]. split; [|done]. split; [done|by eexists].
    + intros j e Hsh. apply (shown_fwd_not_under _ _ _ Hsh). unfold keyat. rewrite lookup_ge_None_2 by lia. done.
Qed.

Lemma FindLargest_ok m n : all_at (bwd (keyat L n)) (children_ m) → (n ≤ length L)%nat → direction_ m = kReverse →
  ∃ m', FindLargest m = Ok m' ∧ standing m' (before n) ∧ direction_ m' = kReverse.
Proof.
  intros Ha Hn Hd. unfold FindLargest. assert (reverse (numbered (children_ m)) ≡ₚ numbered (children_ m)) as Hr by apply reverse_Permutation. destruct n as [|n]; cbn [before].
  - rewrite (find_none (bwd (keyat L 0)) _ (children_ m) _ Ha Hr).
    + rbind. eexists. split; [done|]. split; [|done]. split; [done|by eexists].
    + intros j e Hsh. destruct (proj1 (list_elem_of_lookup L e) (shown_in _ _ _ Hsh)) as [i Hi]. pose proof (shown_bwd_under _ _ _ Hsh) as Hu. apply (under_index 0 i e Hi) in Hu. lia.
  - destruct (lookup_lt_is_Some_2 L n) as [e He]; [lia|]. destruct (child_of e) as (j & l & Hj & Hel); [by eapply list_elem_of_lookup_2|].
    pose proof (bwd_shown n j e l He Hj Hel) as Hsh. rewrite (find_winner (bwd (keyat L (S n))) _ (children_ m) _ j e Ha Hr); [|exact Hsh|].
    + rbind. eexists. split; [done|]. cbn. rewrite Hd. split; [|done]. by exists j, e, l.
    + intros j' e' Hne Hsh'. pose proof (shown_bwd_under _ _ _ Hsh') as Hu. destruct (proj1 (list_elem_of_lookup L e') (shown_in _ _ _ Hsh')) as [i Hi].
      apply (under_index (S n) i e' Hi) in Hu. assert (i ≠ n) as Hin. { intros ->. apply Hne. assert (e' = e) as -> by congruence. by eapply same_child. }
      pose proof (proj2 (key_order i n e' e Hi He) ltac:(lia)). pose proof (ko_sym (cmp := cmp) e'.1 e.1). split; [apply Z.ltb_lt; lia|apply Z.ltb_ge; lia].
Qed.

(** ** The operations *)
Lemma each_ok (R R' : nat → IteratorWrapper I → list pair → Prop) g ch : ∀ i Ls', Forall2 (λ c l, True) ch Ls' →
  (∀ k c l, ch !! k = Some c → Ls' !! k = Some l → R (i + k)%nat c l) → (∀ k c l, R k c l → ∃ c', g k c = Ok c' ∧ R' k c' l) →
  ∃ ch', each g i ch = Ok ch' ∧ length ch' = length Ls' ∧ ∀ k c l, ch' !! k = Some c → Ls' !! k = Some l → R' (i + k)%nat c l.
Proof.
  induction ch as [|c ch IH]; intros i Ls' Hl HR Hg; cbn [each].
  - apply Forall2_nil_inv_l in Hl as ->. exists []. by split.
  - apply Forall2_cons_inv_l in Hl as (l & Ls2 & _ & Hl & ->). destruct (Hg i c l) as (c' & -> & Hc').
    { specialize (HR 0%nat c l eq_refl eq_refl). by rewrite Nat.add_0_r in HR. }
    rbind. destruct (IH (S i) Ls2 Hl) as (ch' & -> & Hlen & Hch'); [|exact Hg|].
    { intros k c0 l0 Hk Hk'. replace (S i + k)%nat with (i + S k)%nat by lia. by apply HR. }
    rbind. eexists. split; [done|]. split; [cbn; congruence|]. intros [|k] c0 l0 Hk Hk'; cbn in *; [injection Hk as <-; injection Hk' as <-; by rewrite Nat.add_0_r|].
    replace (i + S k)%nat with (S i + k)%nat by lia. by apply Hch'.
Qed.

Lemma each_at f f' g ch : all_at f ch → (∀ k c l, ch !! k = Some c → Ls !! k = Some l → CAt c l (f l) → ∃ c', g k c = Ok c' ∧ CAt c' l (f' l)) →
  ∃ ch', each g 0 ch = Ok ch' ∧ all_at f' ch'.
Proof.
  intros Ha Hg. destruct (each_ok (λ k c l, ch !! k = Some c ∧ Ls !! k = Some l ∧ CAt c l (f l)) (λ k c l, CAt c l (f' l)) g ch 0 Ls) as (ch' & E & Hlen & H').
  - eapply Forall2_impl; [exact Ha|done].
  - intros k c l Hc Hl. cbn. split; [done|]. split; [done|]. by destruct (Forall2_lookup_lr _ _ _ _ _ _ Ha Hc Hl).
  - intros k c l (Hc & Hl & Hat). by apply Hg.
  - exists ch'. split; [done|]. apply Forall2_same_length_lookup. split; [done|]. intros k c l Hc Hl. by apply (H' k c l).
Qed.

Lemma standing_any m p : standing m p → ∃ f, all_at f (children_ m).
Proof. destruct p as [n|]; [intros (j & e & l & _ & _ & _ & _ & H); eauto|by intros [_ ?]]. Qed.

Lemma seek_cut n j l (t : A) : Ls !! j = Some l → good t → (∀ i e, L !! i = Some e → cmp e.1 t < 0 ↔ (i < n)%nat) →
  ∀ c p, CAt c l p → ∃ c', it_Seek (enc t) c = Ok c' ∧ CAt c' l (fwd (keyat L n) l).
Proof.
  intros Hj Ht Hn c p Hc. destruct (key_sort l t (child_sorted j l Hj)) as (L1 & L2 & El & H1 & H2). destruct (at_Seek enc cmp good c l p t L1 L2 Hc Ht El H1 H2) as (c' & -> & Hc').
  exists c'. split; [done|]. unfold fwd. rewrite (cut_unique _ l L1 L2 El); [done| |].
  - rewrite Forall_forall in H1 |- *. intros e He. destruct (proj1 (list_elem_of_lookup L e)) as [i Hi]; [eapply in_child; [exact Hj|]; rewrite El; set_solver|].
    apply (under_index n i e Hi), (Hn i e Hi). by apply H1.
  - rewrite Forall_forall in H2 |- *. intros e He Hu. destruct (proj1 (list_elem_of_lookup L e)) as [i Hi]; [eapply in_child; [exact Hj|]; rewrite El; set_solver|].
    apply (under_index n i e Hi), (Hn i e Hi) in Hu. specialize (H2 e He). cbn in H2. lia.
Qed.

Lemma Seek_stands m p (t : A) M1 M2 : standing m p → good t → L = M1 ++ M2 → Forall (λ e, cmp e.1 t < 0) M1 → Forall (λ e, 0 ≤ cmp e.1 t) M2 →
  ∃ m', Seek (enc t) m = Ok m' ∧ standing m' (place (length L) (length M1)).
Proof.
  intros Hm Ht EL H1 H2. destruct (standing_any m p Hm) as [f Hf]. unfold Seek. assert (∀ i e, L !! i = Some e → cmp e.1 t < 0 ↔ (i < length M1)%nat) as Hn.
  { intros i e Hi. rewrite EL in Hi. rewrite Forall_lookup in H1, H2. apply lookup_app_Some in Hi as [Hi|[Hge Hi]].
    - specialize (H1 _ _ Hi). apply lookup_lt_Some in Hi. split; [lia|done].
    - specialize (H2 _ _ Hi). cbn in H2. lia. }
  destruct (each_at f (fwd (keyat L (length M1))) (λ _, it_Seek (enc t)) (children_ m) Hf) as (ch & -> & Hch). { intros k c l _ Hl Hc. by eapply seek_cut. }
  rbind. destruct (FindSmallest_ok (turned kForward (with_children ch m)) (length M1) Hch) as (m' & E & Hs & Hd); [rewrite EL, length_app; lia|done|].
  unfold FindSmallest in E |- *. cbn in E |- *. apply result_bind_Ok in E as (cur & -> & E). rbind. injection E as <-. eexists. split; [done|]. exact Hs.
Qed.

Lemma SeekToFirst_stands m p : standing m p → ∃ m', SeekToFirst m = Ok m' ∧ standing m' (place (length L) 0).
Proof.
  intros Hm. destruct (standing_any m p Hm) as [f Hf]. unfold SeekToFirst.
  destruct (each_at f (fwd (keyat L 0)) (λ _, it_SeekToFirst) (children_ m) Hf) as (ch & -> & Hch).
  { intros k c l _ Hl Hc. destruct (at_SeekToFirst enc cmp good c l _ Hc) as (c' & -> & Hc'). exists c'. split; [done|]. unfold fwd. rewrite (cut_unique _ l [] l); [done|done|done|].
    apply Forall_forall. intros e He Hu. destruct (proj1 (list_elem_of_lookup L e)) as [i Hi]; [by eapply in_child|]. apply (under_index 0 i e Hi) in Hu. lia. }
  rbind. destruct (FindSmallest_ok (turned kForward (with_children ch m)) 0 Hch) as (m' & E & Hs & Hd); [lia|done|].
  unfold FindSmallest in E |- *. cbn in E |- *. apply result_bind_Ok in E as (cur & -> & E). rbind. injection E as <-. eexists. split; [done|]. exact Hs.
Qed.

Lemma SeekToLast_stands m p : standing m p → ∃ m', SeekToLast m = Ok m' ∧ standing m' (before (length L)).
Proof.
  intros Hm. destruct (standing_any m p Hm) as [f Hf]. unfold SeekToLast.
  destruct (each_at f (bwd (keyat L (length L))) (λ _, it_SeekToLast) (children_ m) Hf) as (ch & -> & Hch).
  { intros k c l _ Hl Hc. destruct (at_SeekToLast enc cmp good c l _ Hc) as (c' & -> & Hc'). exists c'. split; [done|]. unfold bwd. rewrite (cut_unique _ l l []); [done|by rewrite app_nil_r| |done].
    apply Forall_forall. intros e He. destruct (proj1 (list_elem_of_lookup L e)) as [i Hi]; [by eapply in_child|]. apply (under_index _ i e Hi). by eapply lookup_lt_Some. }
  rbind. destruct (FindLargest_ok (turned kReverse (with_children ch m)) (length L) Hch) as (m' & E & Hs & Hd); [lia|done|].
  unfold FindLargest in E |- *. cbn in E |- *. apply result_bind_Ok in E as (cur & -> & E). rbind. injection E as <-. eexists. split; [done|]. exact Hs.
Qed.

Lemma current_child m j f : all_at f (children_ m) → is_Some (Ls !! j) → ∃ c l, children_ m !! j = Some c ∧ Ls !! j = Some l ∧ CAt c l (f l).
Proof. intros Ha [l Hl]. destruct (Forall2_lookup_r _ _ _ _ _ Ha Hl) as (c & Hc & Hat). by exists c, l. Qed.

(** Where the child that holds the pair [n] stands, either way. *)
Lemma held_cut n j l e : L !! n = Some e → Ls !! j = Some l → e ∈ l → fwd (keyat L n) l = Some (cut (keyat L n) l) ∧ bwd (keyat L (S n)) l = Some (cut (keyat L n) l).
Proof.
  intros Hn Hj He. destruct (fwd_shown n j e l Hn Hj He) as (l' & q & Hl' & Hf & _). rewrite Hj in Hl'. injection Hl' as <-. split.
  - unfold fwd in *. by destruct (place_cases (length l) (cut (keyat L n) l)) as [[_ E]|[_ E]]; rewrite E in *.
  - unfold bwd. by rewrite (cut_S n j l e Hn Hj He).
Qed.
Lemma other_cut n j k l e : L !! n = Some e → Ls !! j = Some l → e ∈ l → ∀ l', k ≠ j → Ls !! k = Some l' → cut (keyat L (S n)) l' = cut (keyat L n) l'.
Proof. intros Hn Hj He l' Hk Hl'. apply (cut_same n k l' e Hn Hl'). intros He'. apply Hk. by eapply child_unique. Qed.

Lemma realign_ok d g m n j e l : L !! n = Some e → Ls !! j = Some l → e ∈ l → standing m (Some n) → current_ m = Some j →
  (∀ k c l' p, k ≠ j → Ls !! k = Some l' → CAt c l' p → ∃ c', g (enc e.1) c = Ok c' ∧ CAt c' l' (match d with kForward => fwd (keyat L n) l' | kReverse => bwd (keyat L (S n)) l' end)) →
  ∃ m', realign d g m = Ok m' ∧ standing m' (Some n) ∧ current_ m' = Some j ∧ direction_ m' = d.
Proof.
  intros Hn Hj He Hm Hcur Hg. unfold realign. destruct (decide (direction_ m = d)) as [<-|Hd]; [by exists m|]. pose proof Hm as (j' & e' & l0 & Hn' & Hj' & He' & Hc' & Ha).
  rewrite Hn in Hn'. injection Hn' as <-. rewrite Hcur in Hc'. injection Hc' as <-. rewrite Hj in Hj'. injection Hj' as <-. unfold on_current. rewrite Hcur.
  destruct (current_child m j _ Ha ltac:(by rewrite Hj)) as (c & l' & Hc & Hl' & Hat). rewrite Hj in Hl'. injection Hl' as <-. rewrite Hc. destruct (held_cut n j l e Hn Hj He) as [Ef Eb].
  assert (∃ q, match direction_ m with kForward => fwd (keyat L n) | kReverse => bwd (keyat L (S n)) end l = Some q ∧ l !! q = Some e) as (q & Eq & Hq).
  { exists (cut (keyat L n) l). split; [by destruct (direction_ m)|by eapply at_cut]. }
  assert (key m = Ok (enc e.1)) as Hkey. { unfold key, on_current. rewrite Hcur, Hc. rewrite Eq in Hat. destruct e as [ek ev]. by apply (at_key enc cmp good c l q ek ev). }
  match goal with |- context [each ?G 0 _] => destruct (each_at _ (match d with kForward => fwd (keyat L n) | kReverse => bwd (keyat L (S n)) end) G (children_ m) Ha) as (ch & -> & Hch) end.
  - intros k c0 l' Hk Hl' Hc0. cbn. destruct (decide (k = j)) as [->|Hkj].
    + exists c0. split; [done|]. rewrite Hj in Hl'. injection Hl' as <-. destruct d, (direction_ m); try done; by rewrite Ef, Eb in *.
    + rewrite Hkey. rbind. destruct (Hg k c0 l' _ Hkj Hl' Hc0) as (c' & -> & Hc'). exists c'. split; [done|]. by destruct d.
  - rbind. eexists. split; [done|]. split; [|done]. exists j, e, l. by repeat (split; [done|]).
Qed.

Lemma key_index n e i x : L !! n = Some e → L !! i = Some x → cmp x.1 e.1 < 0 ↔ (i < n)%nat.
Proof. intros Hn Hi. by apply (key_order i n). Qed.

Lemma step_stands m n j e l g f : L !! n = Some e → Ls !! j = Some l → e ∈ l → current_ m = Some j →
  all_at (match direction_ m with kForward => fwd (keyat L n) | kReverse => bwd (keyat L (S n)) end) (children_ m) →
  (∀ c, CAt c l (Some (cut (keyat L n) l)) → ∃ c', g c = Ok c' ∧ CAt c' l (f l)) →
  (∀ k l', k ≠ j → Ls !! k = Some l' → f l' = match direction_ m with kForward => fwd (keyat L n) l' | kReverse => bwd (keyat L (S n)) l' end) →
  ∃ m', step_current g m = Ok m' ∧ all_at f (children_ m') ∧ direction_ m' = direction_ m.
Proof.
  intros Hn Hj He Hcur Ha Hg Hf. unfold step_current, on_current. rewrite Hcur. destruct (current_child m j _ Ha ltac:(by rewrite Hj)) as (c & l' & Hc & Hl' & Hat).
  rewrite Hj in Hl'. injection Hl' as <-. rewrite Hc. destruct (held_cut n j l e Hn Hj He) as [Ef Eb]. destruct (Hg c) as (c' & -> & Hc'); [destruct (direction_ m); by rewrite ?Ef, ?Eb in Hat|]. rbind.
  eexists. split; [done|]. split; [|done]. cbn. apply Forall2_same_length_lookup. split; [rewrite length_insert; by eapply Forall2_length|].
  intros k x y Hx Hy. apply list_lookup_insert_Some in Hx as [(<- & <- & _)|(Hne & Hx)]; [rewrite Hj in Hy; by injection Hy as <-|].
  rewrite (Hf k y) by done. destruct (Forall2_lookup_lr _ _ _ _ _ _ Ha Hx Hy) as (? & ? & ?). destruct (direction_ m); done.
Qed.

Lemma Next_stands m n : standing m (Some n) → ∃ m', Next m = Ok m' ∧ standing m' (place (length L) (S n)).
Proof.
  intros Hm. pose proof Hm as (j & e & l & Hn & Hj & He & Hcur & Ha). unfold Next. assert (good e.1) as Hge.
  { pose proof (m_good _ _ HM) as Hg. rewrite Forall_lookup in Hg. exact (Hg _ _ Hn). }
  destruct (realign_ok kForward after_key m n j e l Hn Hj He Hm Hcur) as (m1 & E1 & Hm1 & Hc1 & Hd1).
  { intros k c l' p Hkj Hl' Hc. unfold after_key. destruct (seek_cut n k l' e.1 Hl' Hge (λ i x, key_index n e i x Hn) c p Hc) as (c' & -> & Hc'). rbind. exists c'. split; [|done].
    rewrite (at_Valid enc cmp good _ _ _ Hc'). destruct (fwd (keyat L n) l') as [q|] eqn:Eq; [|by rewrite bool_decide_false by (by intros [])]. rewrite bool_decide_true by done.
    destruct (lookup_lt_is_Some_2 l' q) as [[xk xv] Hx]; [exact (at_range enc cmp good _ _ _ Hc')|]. rewrite (at_key enc cmp good c' l' q xk xv) by done. rbind.
    assert (shown (fwd (keyat L n)) k (xk, xv)) as Hsh by (by exists l', q). destruct (proj1 (list_elem_of_lookup L (xk, xv)) (shown_in _ _ _ Hsh)) as [i Hi].
    assert (good xk) as Hgx. { pose proof (m_good _ _ HM) as Hg. rewrite Forall_lookup in Hg. exact (Hg _ _ Hi). }
    rewrite cp_compare by done. rbind. destruct (Z.eqb_spec (cmp e.1 xk) 0) as [Ez|]; [|done]. exfalso.
    pose proof (key_order n i e (xk, xv) Hn Hi) as K1. pose proof (key_order i n (xk, xv) e Hi Hn) as K2. cbn in K1, K2. pose proof (ko_sym (cmp := cmp) e.1 xk).
    assert (i = n) as -> by lia. rewrite Hn in Hi. injection Hi as ->. apply Hkj. eapply child_unique; [exact Hl'|exact Hj|by eapply list_elem_of_lookup_2|done]. }
  destruct (current_child m j _ Ha ltac:(by rewrite Hj)) as (c0 & _ & Hc0 & _). unfold on_current at 1. rewrite Hcur, Hc0, E1. rbind. pose proof Hm1 as (j' & e' & l' & Hn' & Hj' & He' & Hc' & Ha1). simplify_eq.
  destruct (step_stands m1 n j e l it_Next (fwd (keyat L (S n))) Hn Hj He Hc1 Ha1) as (m2 & -> & Ha2 & Hd2).
  { intros c Hc. destruct (at_Next enc cmp good c l _ Hc) as (c' & -> & Hcc). exists c'. split; [done|]. unfold fwd. by rewrite (cut_S n j l e Hn Hj He). }
  { intros k l' Hk Hl'. rewrite Hd1. unfold fwd. by rewrite (other_cut n j k l e Hn Hj He l' Hk Hl'). }
  rbind. destruct (FindSmallest_ok m2 (S n) Ha2) as (m3 & -> & Hs & _); [apply lookup_lt_Some in Hn; lia|congruence|]. by exists m3.
Qed.

Lemma Prev_stands m n : standing m (Some n) → ∃ m', Prev m = Ok m' ∧ standing m' (before n).
Proof.
  intros Hm. pose proof Hm as (j & e & l & Hn & Hj & He & Hcur & Ha). unfold Prev. assert (good e.1) as Hge.
  { pose proof (m_good _ _ HM) as Hg. rewrite Forall_lookup in Hg. exact (Hg _ _ Hn). }
  destruct (realign_ok kReverse before_key m n j e l Hn Hj He Hm Hcur) as (m1 & E1 & Hm1 & Hc1 & Hd1).
  { intros k c l' p Hkj Hl' Hc. unfold before_key. destruct (seek_cut n k l' e.1 Hl' Hge (λ i x, key_index n e i x Hn) c p Hc) as (c' & -> & Hc'). rbind.
    rewrite (at_Valid enc cmp good _ _ _ Hc'). unfold bwd. rewrite (other_cut n j k l e Hn Hj He l' Hkj Hl'). unfold fwd in *.
    destruct (place_cases (length l') (cut (keyat L n) l')) as [[_ Ep]|[Hge' Ep]]; rewrite Ep in *.
    - rewrite bool_decide_true by done. exact (at_Prev enc cmp good c' l' _ Hc').
    - rewrite bool_decide_false by (by intros []). destruct (at_SeekToLast enc cmp good c' l' _ Hc') as (c2 & -> & Hc2). exists c2. split; [done|].
      assert (cut (keyat L n) l' = length l') as ->; [|done]. unfold cut in *. pose proof (length_filter (under (keyat L n)) l'). lia. }
  destruct (current_child m j _ Ha ltac:(by rewrite Hj)) as (c0 & _ & Hc0 & _). unfold on_current at 1. rewrite Hcur, Hc0, E1. rbind. pose proof Hm1 as (j' & e' & l' & Hn' & Hj' & He' & Hc' & Ha1). simplify_eq.
  destruct (step_stands m1 n j e l it_Prev (bwd (keyat L n)) Hn Hj He Hc1 Ha1) as (m2 & -> & Ha2 & Hd2).
  { intros c Hc. exact (at_Prev enc cmp good c l _ Hc). }
  { intros k l' Hk Hl'. rewrite Hd1. unfold bwd. by rewrite (other_cut n j k l e Hn Hj He l' Hk Hl'). }
  rbind. destruct (FindLargest_ok m2 n Ha2) as (m3 & -> & Hs & _); [apply lookup_lt_Some in Hn; lia|congruence|]. by exists m3.
Qed.
End over.

(** ** The merge keeps the laws of iterators *)
Definition MAt (m : MergingIterator I) L (p : option nat) : Prop := ∃ Ls, merges L Ls ∧ standing L Ls m p.

#[export] Instance merging_laws : IterLaws enc cmp good (MergingIterator I) MAt.
Proof.
  split; cbn [it_Valid it_key it_value it_Next it_Prev it_Seek it_SeekToFirst it_SeekToLast it_status Merging_Iter].
  - intros m L i (Ls & HM & j & e & l & Hn & _). by eapply lookup_lt_Some.
  - intros m L [n|] (Ls & HM & Hs); [by destruct Hs as (j & e & l & _ & _ & _ & -> & _)|by destruct Hs as [-> _]].
  - intros m L i k v (Ls & HM & j & e & l & Hn & Hj & He & Hc & Ha) Hi. rewrite Hn in Hi. injection Hi as ->. unfold key, on_current. rewrite Hc.
    destruct (current_child Ls m j _ Ha ltac:(by rewrite Hj)) as (c & l' & -> & Hl' & Hat). rewrite Hj in Hl'. injection Hl' as <-.
    destruct (held_cut L Ls HM i j l (k, v) Hn Hj He) as [Ef Eb]. pose proof (at_cut L Ls HM i j l (k, v) Hn Hj He) as Hcut.
    apply (at_key enc cmp good c l (cut (keyat L i) l) k v); [destruct (direction_ m); by rewrite ?Ef, ?Eb in Hat|done].
  - intros m L i k v (Ls & HM & j & e & l & Hn & Hj & He & Hc & Ha) Hi. rewrite Hn in Hi. injection Hi as ->. unfold value, on_current. rewrite Hc.
    destruct (current_child Ls m j _ Ha ltac:(by rewrite Hj)) as (c & l' & -> & Hl' & Hat). rewrite Hj in Hl'. injection Hl' as <-.
    destruct (held_cut L Ls HM i j l (k, v) Hn Hj He) as [Ef Eb]. pose proof (at_cut L Ls HM i j l (k, v) Hn Hj He) as Hcut.
    apply (at_value enc cmp good c l (cut (keyat L i) l) k v); [destruct (direction_ m); by rewrite ?Ef, ?Eb in Hat|done].
  - intros m L i (Ls & HM & Hs). destruct (Next_stands L Ls HM m i Hs) as (m' & E & Hs'). exists m'. split; [done|]. by exists Ls.
  - intros m L i (Ls & HM & Hs). destruct (Prev_stands L Ls HM m i Hs) as (m' & E & Hs'). exists m'. split; [done|]. by exists Ls.
  - intros m L p t L1 L2 (Ls & HM & Hs) Ht EL H1 H2. destruct (Seek_stands L Ls HM m p t L1 L2 Hs Ht EL H1 H2) as (m' & E & Hs'). exists m'. split; [done|]. by exists Ls.
  - intros m L p (Ls & HM & Hs). destruct (SeekToFirst_stands L Ls HM m p Hs) as (m' & E & Hs'). exists m'. split; [done|]. by exists Ls.
  - intros m L p (Ls & HM & Hs). destruct (SeekToLast_stands L Ls HM m p Hs) as (m' & E & Hs'). exists m'. split; [done|]. by exists Ls.
  - intros m L p (Ls & HM & Hs). destruct (standing_any L Ls m p Hs) as [f Ha]. unfold all_at in Ha. clear Hs HM. induction Ha as [|c l ch Ls' Hc _ IH]; [done|]. cbn [first_error].
    rewrite (at_status enc cmp good c l _ Hc). cbn [ok]. destruct ch; [done|exact IH].
Qed.
(** ** Walks

    A client moves an iterator; the same moves on a place of a sorted list. *)
Inductive move := MFirst | MLast | MSeek (t : A) | MNext | MPrev.
Definition move_ok (m : move) : Prop := match m with MSeek t => good t | _ => True end.
Definition it_move {X} `{Iter X} (m : move) : X → result X :=
  match m with MFirst => it_SeekToFirst | MLast => it_SeekToLast | MSeek t => it_Seek (enc t) | MNext => it_Next | MPrev => it_Prev end.
Definition place_move L (p : option nat) (m : move) : option nat :=
  match m with
  | MFirst => place (length L) 0
  | MLast => before (length L)
  | MSeek t => place (length L) (cut (Some t) L)
  | MNext => i ← p; place (length L) (S i)
  | MPrev => i ← p; before i
  end.
(** What the client sees after each move, until it moves from no place. *)
Fixpoint walk {X} `{Iter X} (ms : list move) (it : X) : result (list (option (bytes * bytes))) :=
  match ms with
  | [] => Ok []
  | m :: ms =>
      if match m with MNext | MPrev => it_Valid it | _ => true end then
        it ← it_move m it;
        s ← (if it_Valid it then k ← it_key it; v ← it_value it; Ok (Some (k, v)) else Ok None);
        l ← walk ms it; Ok (s :: l)
      else Ok []
  end.
Fixpoint walk_list L (ms : list move) (p : option nat) : list (option (bytes * bytes)) :=
  match ms with
  | [] => []
  | m :: ms =>
      if match m with MNext | MPrev => bool_decide (is_Some p) | _ => true end then
        let p := place_move L p m in (prod_map enc id <$> (i ← p; L !! i)) :: walk_list L ms p
      else []
  end.

Section walking.
Context {X : Type} `{HX : Iter X} {XAt : X → list pair → option nat → Prop} {HXA : IterLaws enc cmp good X XAt}.

Lemma walk_move_at L it p m : sorted (cmp := cmp) L.*1 → XAt it L p → move_ok m → (match m with MNext | MPrev => is_Some p | _ => True end) →
  ∃ it', it_move m it = Ok it' ∧ XAt it' L (place_move L p m).
Proof.
  intros Hs Hit Hm Hp. destruct m as [| |t| |]; cbn.
  - by eapply (at_SeekToFirst enc cmp good).
  - by eapply (at_SeekToLast enc cmp good).
  - destruct (cut_split (Some t) L Hs) as (L1 & L2 & E & H1 & H2 & ->). eapply (at_Seek enc cmp good _ _ _ t L1 L2); [done|done|done|exact H1|].
    eapply Forall_impl; [exact H2|]. cbn. intros. lia.
  - destruct Hp as [i ->]. by eapply (at_Next enc cmp good).
  - destruct Hp as [i ->]. by eapply (at_Prev enc cmp good).
Qed.

Lemma walk_at L : sorted (cmp := cmp) L.*1 → ∀ ms it p, XAt it L p → Forall move_ok ms → walk ms it = Ok (walk_list L ms p).
Proof.
  intros Hs. induction ms as [|m ms IH]; intros it p Hit Hms; [done|]. apply Forall_cons in Hms as [Hm Hms]. cbn [walk walk_list]. rewrite (at_Valid enc cmp good it L p Hit).
  assert ((match m with MNext | MPrev => bool_decide (is_Some p) | _ => true end) = false ∨ (match m with MNext | MPrev => is_Some p | _ => True end)) as [->|Hp].
  { destruct m; try (by right); (destruct (decide (is_Some p)); [by right|left; by apply bool_decide_false]). }
  { done. }
  assert ((match m with MNext | MPrev => bool_decide (is_Some p) | _ => true end) = true) as -> by (destruct m; try done; by apply bool_decide_true).
  destruct (walk_move_at L it p m Hs Hit Hm Hp) as (it' & -> & Hit'). rbind. rewrite (at_Valid enc cmp good it' L _ Hit'), (IH it' _ Hit' Hms).
  destruct (place_move L p m) as [i|]; [|rewrite bool_decide_false by (by intros []); by rbind]. rewrite bool_decide_true by done.
  destruct (lookup_lt_is_Some_2 L i (at_range enc cmp good _ _ _ Hit')) as [[k v] Hi].
  rewrite (at_key enc cmp good it' L i k v), (at_value enc cmp good it' L i k v) by done. cbn. rewrite Hi. done.
Qed.
End walking.

(** ** What [NewMergingIterator] returns *)
Definition MergedAt (m : Merged I) L (p : option nat) : Prop :=
  match m with NoChild => L = [] ∧ p = None | OneChild it => At it L p | Merge m => MAt m L p end.

Lemma advance_one (f : I → result I) it L p : (∃ it', f it = Ok it' ∧ At it' L p) → ∃ m, (it ← f it; Ok (OneChild it)) = Ok m ∧ MergedAt m L p.
Proof. intros (it' & -> & H). by exists (OneChild it'). Qed.
Lemma advance_merge (f : MergingIterator I → result (MergingIterator I)) m L p : (∃ m', f m = Ok m' ∧ MAt m' L p) → ∃ m', (m ← f m; Ok (Merge m)) = Ok m' ∧ MergedAt m' L p.
Proof. intros (m' & -> & H). by exists (Merge m'). Qed.

#[export] Instance merged_laws : IterLaws enc cmp good (Merged I) MergedAt.
Proof.
  split; cbn [it_Valid it_key it_value it_Next it_Prev it_Seek it_SeekToFirst it_SeekToLast it_status Merged_Iter]; intros [|c|m]; cbn [inspect advance MergedAt].
  - by intros L i [_ ?].
  - apply (at_range enc cmp good).
  - apply (at_range enc cmp good).
  - intros L p [_ ->]. by rewrite bool_decide_false by (by intros []).
  - apply (at_Valid enc cmp good).
  - apply (at_Valid enc cmp good).
  - by intros L i k v [_ ?].
  - apply (at_key enc cmp good).
  - apply (at_key enc cmp good).
  - by intros L i k v [_ ?].
  - apply (at_value enc cmp good).
  - apply (at_value enc cmp good).
  - by intros L i [_ ?].
  - intros L i Hit. by apply advance_one, (at_Next enc cmp good).
  - intros L i Hit. by apply advance_merge, (at_Next enc cmp good).
  - by intros L i [_ ?].
  - intros L i Hit. by apply advance_one, (at_Prev enc cmp good).
  - intros L i Hit. by apply advance_merge, (at_Prev enc cmp good).
  - intros L p t L1 L2 [-> ->] _ E _ _. exists NoChild. symmetry in E. apply app_nil in E as [-> ->]. by split.
  - intros L p t L1 L2 Hit Ht E H1 H2. by eapply advance_one, (at_Seek enc cmp good).
  - intros L p t L1 L2 Hit Ht E H1 H2. by eapply advance_merge, (at_Seek enc cmp good).
  - intros L p [-> ->]. by exists NoChild.
  - intros L p Hit. by eapply advance_one, (at_SeekToFirst enc cmp good).
  - intros L p Hit. by eapply advance_merge, (at_SeekToFirst enc cmp good).
  - intros L p [-> ->]. by exists NoChild.
  - intros L p Hit. by eapply advance_one, (at_SeekToLast enc cmp good).
  - intros L p Hit. by eapply advance_merge, (at_SeekToLast enc cmp good).
  - done.
  - apply (at_status enc cmp good).
  - apply (at_status enc cmp good).
Qed.
Lemma wrap_ok its Ls : Forall2 (λ it l, At it l None) its Ls → ∃ ch, wrap its = Ok ch ∧ all_at Ls (λ _, None) ch.
Proof.
  induction 1 as [|it l its Ls Hit _ IH]; [exists []; split; [done|constructor]|]. cbn [wrap]. unfold Set_. destruct (Update_at (At := At) [] it l None Hit) as (w & -> & Hw). rbind.
  destruct IH as (ch & -> & Hch). rbind. exists (w :: ch). split; [done|]. by constructor.
Qed.

Lemma NewMerging_ok its Ls L : Forall2 (λ it l, At it l None) its Ls → merges L Ls → ∃ m, NewMergingIterator its = Ok m ∧ MergedAt m L None.
Proof.
  intros Hits HM. pose proof Hits as Hits'. destruct Hits' as [|it l its Ls Hit Hr]; [|destruct Hr as [|it' l' its Ls Hit' Hr]].
  - exists NoChild. split; [done|]. split; [|done]. pose proof (m_perm _ _ HM) as Hp. by apply Permutation_nil_r in Hp.
  - exists (OneChild it). split; [done|]. cbn. enough (L = l) as -> by done. pose proof (m_perm _ _ HM) as Hp. cbn in Hp. rewrite app_nil_r in Hp.
    pose proof (m_lists _ _ HM) as Hl. apply Forall_cons in Hl as [Hl _]. exact (sorted_perm_eq L l (m_sorted _ _ HM) Hl Hp).
  - cbn [NewMergingIterator]. unfold MergingIterator_new. destruct (wrap_ok _ _ Hits) as (ch & -> & Hch). rbind. eexists. split; [done|]. cbn. eexists. split; [exact HM|]. split; [done|]. by eexists.
Qed.

End merging.

Section examples.
#[local] Existing Instance Bytewise.
Definition half (n : Z) (L : list (bytes * bytes)) : result Block.BlockIterator :=
  b ← BlockBuilder.BlockBuilder_new n; b ← add_all (enc := id) n L b; blk ← Block_new (BlockBuilder.Finish b).1; NewIterator blk.

Definition odd_fruit : list (bytes * bytes) := [(str "apple", str "1"); (str "bat", [])].
Definition even_fruit : list (bytes * bytes) := [(str "apply", str "2"); (str "apt", str "3")].


(** A key that two children have is yielded twice going forward, and once
    where the direction changes at it. *)
Lemma merge_loses_duplicate : let same := [(str "k", str "1")] in
  (a ← half 2 same; b ← half 2 [(str "k", str "2")]; m ← NewMergingIterator [a; b]; walk (enc := id) [MFirst; MNext; MNext] m) =
    Ok [Some (str "k", str "1"); Some (str "k", str "2"); None] ∧
  (a ← half 2 same; b ← half 2 [(str "k", str "2")]; m ← NewMergingIterator [a; b]; walk (enc := id) [MLast; MPrev; MNext] m) =
    Ok [Some (str "k", str "2"); Some (str "k", str "1"); None].
Proof. split; vm_compute; reflexivity. Qed.
End examples.
