(* ===== verification/SkipList.v ===== *)
(** * The skip list of LevelDB (pack/leveldb/db/skiplist.h, util/random.h)

    Nodes are never freed, so the arena is a list of nodes and a pointer an
    index into it; the head is node 0. A pointer that was not set yet is
    [None], and reading it is a fault. The keys are compared by a parameter
    that may fault. *)

From stdpp Require Import sorting.
From S2P Require Import Prelude Cstd.

Module SkipList.

(** ** The random numbers (util/random.h) *)

Definition Random_new (s : Z) : Z := Z.land s (2 ^ 31 - 1).
Definition Random_Next (seed_ : Z) : Z :=
  let product := u64 (seed_ * 16807) in
  let seed_ := u32 (Z.shiftr product 31 + Z.land product (2 ^ 31 - 1)) in
  if 2 ^ 31 - 1 <? seed_ then seed_ - (2 ^ 31 - 1) else seed_.

Definition kMaxHeight : nat := 12.

Section skiplist.
Context {K : Type} (compare_ : K → K → result Z).

(** The head has no key. *)
Record Node := { key : option K; next_ : list (option (option nat)) }.
Record SkipList := { nodes : list Node; max_height_ : nat; rnd_ : Z }.

Definition head_ : nat := 0.

Definition node (sl : SkipList) (p : nat) : result Node :=
  match nodes sl !! p with Some n => Ok n | None => Fault OutOfBounds end.
Definition key_of (sl : SkipList) (p : nat) : result K :=
  n ← node sl p; match key n with Some k => Ok k | None => Fault OutOfBounds end.

(** [Node::Next] and [Node::SetNext]. *)
Definition Next (sl : SkipList) (p n : nat) : result (option nat) :=
  x ← node sl p; match next_ x !! n with Some (Some q) => Ok q | _ => Fault OutOfBounds end.
Definition SetNext (sl : SkipList) (p n : nat) (q : option nat) : result SkipList :=
  x ← node sl p;
  if decide (n < length (next_ x))%nat
  then Ok {| nodes := <[p := {| key := key x; next_ := <[n := Some q]> (next_ x) |}]> (nodes sl);
             max_height_ := max_height_ sl; rnd_ := rnd_ sl |}
  else Fault OutOfBounds.

Definition SkipList_new : SkipList :=
  {| nodes := [{| key := None; next_ := replicate kMaxHeight (Some None) |}]; max_height_ := 1; rnd_ := Random_new 3735928559 |}.

(** [RandomHeight]. *)
Fixpoint random_height (fuel : nat) (height : nat) (rnd : Z) : nat * Z :=
  match fuel with
  | O => (height, rnd)
  | S fuel =>
      if decide (height < kMaxHeight)%nat then
        let rnd := Random_Next rnd in
        if rnd `mod` 4 =? 0 then random_height fuel (S height) rnd else (height, rnd)
      else (height, rnd)
  end.
Definition RandomHeight (rnd : Z) : nat * Z := random_height kMaxHeight 1 rnd.

(** [KeyIsAfterNode]: NULL is infinite. *)
Definition KeyIsAfterNode (sl : SkipList) (k : K) (n : option nat) : result bool :=
  match n with
  | None => Ok false
  | Some p => kn ← key_of sl p; r ← compare_ kn k; Ok (r <? 0)
  end.

(** An entry of the array [prev]. *)
Definition set_prev (prev : list (option nat)) (level x : nat) : result (list (option nat)) :=
  if decide (level < length prev)%nat then Ok (<[level := Some x]> prev) else Fault OutOfBounds.

(** The loop of the three searches: [right x next] says whether the search
    goes on at this level. The result is the last node, its successor at
    level 0, and the array [prev], which callers that pass NULL ignore. A
    round goes to a later node or to a lower level. *)
Fixpoint search (fuel : nat) (right : nat → option nat → result bool) (sl : SkipList) (x level : nat)
    (prev : list (option nat)) : result (nat * option nat * list (option nat)) :=
  match fuel with
  | O => Fault AssertFailed
  | S fuel =>
      next ← Next sl x level;
      go ← right x next;
      match go, next with
      | true, Some q => search fuel right sl q level prev
      | true, None => Fault OutOfBounds
      | false, _ =>
          prev ← set_prev prev level x;
          match level with
          | O => Ok (x, next, prev)
          | S level => search fuel right sl x level prev
          end
      end
  end.
Definition search_all (right : nat → option nat → result bool) (sl : SkipList) : result (nat * option nat * list (option nat)) :=
  match max_height_ sl with
  | O => Fault AssertFailed
  | S level => search (length (nodes sl) + max_height_ sl) right sl head_ level (replicate kMaxHeight None)
  end.

Definition FindGreaterOrEqual (sl : SkipList) (k : K) : result (option nat * list (option nat)) :=
  '(_, next, prev) ← search_all (λ _ next, KeyIsAfterNode sl k next) sl;
  Ok (next, prev).

(** The node before the cursor is smaller, which is asserted on the way. *)
Definition FindLessThan (sl : SkipList) (k : K) : result nat :=
  let right x next :=
    ok ← (if decide (x = head_) then Ok true else KeyIsAfterNode sl k (Some x));
    if negb ok then Fault AssertFailed else KeyIsAfterNode sl k next in
  '(x, _, _) ← search_all right sl;
  Ok x.

Definition FindLast (sl : SkipList) : result nat :=
  '(x, _, _) ← search_all (λ _ next, Ok (bool_decide (is_Some next))) sl;
  Ok x.

(** The links of a new node, level by level. *)
Fixpoint link (i n x : nat) (prev : list (option nat)) (sl : SkipList) : result SkipList :=
  match n with
  | O => Ok sl
  | S n =>
      match prev !! i with
      | Some (Some p) =>
          q ← Next sl p i;
          sl ← SetNext sl x i q;
          sl ← SetNext sl p i (Some x);
          link (S i) n x prev sl
      | _ => Fault OutOfBounds
      end
  end.

Definition Insert (k : K) (sl : SkipList) : result SkipList :=
  '(x, prev) ← FindGreaterOrEqual sl k;
  fresh ← match x with
          | None => Ok true
          | Some p => kx ← key_of sl p; r ← compare_ k kx; Ok (negb (r =? 0))
          end;
  if negb fresh then Fault AssertFailed
  else
    let '(height, rnd) := RandomHeight (rnd_ sl) in
    let m := max_height_ sl in
    let prev := if decide (m < height)%nat then take m prev ++ replicate (height - m) (Some head_) ++ drop height prev else prev in
    let x := length (nodes sl) in
    let sl := {| nodes := nodes sl ++ [{| key := Some k; next_ := replicate height None |}];
                 max_height_ := if decide (m < height)%nat then height else m; rnd_ := rnd |} in
    link 0 height x prev sl.

Definition Contains (sl : SkipList) (k : K) : result bool :=
  '(x, _) ← FindGreaterOrEqual sl k;
  match x with
  | None => Ok false
  | Some p => kx ← key_of sl p; r ← compare_ k kx; Ok (r =? 0)
  end.

(** ** Iterators: the node, or NULL *)

Definition Iterator := option nat.
Definition iter_key (sl : SkipList) (it : Iterator) : result K :=
  match it with Some p => key_of sl p | None => Fault AssertFailed end.
Definition iter_Next (sl : SkipList) (it : Iterator) : result Iterator :=
  match it with Some p => Next sl p 0 | None => Fault AssertFailed end.
Definition not_head (x : nat) : Iterator := if decide (x = head_) then None else Some x.
Definition iter_Prev (sl : SkipList) (it : Iterator) : result Iterator :=
  match it with
  | Some p => k ← key_of sl p; x ← FindLessThan sl k; Ok (not_head x)
  | None => Fault AssertFailed
  end.
Definition iter_Seek (sl : SkipList) (target : K) : result Iterator := '(x, _) ← FindGreaterOrEqual sl target; Ok x.
Definition iter_SeekToFirst (sl : SkipList) : result Iterator := Next sl head_ 0.
Definition iter_SeekToLast (sl : SkipList) : result Iterator := x ← FindLast sl; Ok (not_head x).
End skiplist.
End SkipList.
