(* ===== verification/SkipListSpec.v ===== *)
(** * The skip list is a sorted list (theorems about SkipList.v)

    The invariant: every link of a node leads to the next node that is high
    enough. Searches then end at the place of a key in the order, and an
    insertion puts a key there. *)

From stdpp Require Import sorting.
From S2P Require Import Prelude Cstd Iter SkipList.
Import SkipList.

(** ** The chain of nodes *)
Section spec.
Context {K : Type} (compare_ : K → K → result Z) (cmp : K → K → Z) `{!KeyOrder cmp} (good : K → Prop).
Context (compare_ok : ∀ a b, good a → good b → compare_ a b = Ok (cmp a b)).

Record elem := E { ea : nat; ek : option K; eh : nat }.

(** The first node of a chain that is higher than [j], and the last one. *)
Fixpoint next_at (j : nat) (l : list elem) : option nat :=
  match l with
  | [] => None
  | e :: l => if decide (j < eh e)%nat then Some (ea e) else next_at j l
  end.
Fixpoint last_at (j : nat) (l : list elem) (d : nat) : nat :=
  match l with
  | [] => d
  | e :: l => last_at j l (if decide (j < eh e)%nat then ea e else d)
  end.

Definition links (h : nat) (post : list elem) : list (option (option nat)) := (λ j, Some (next_at j post)) <$> seq 0 h.

Definition nodes_ok (ns : list Node) (full : list elem) : Prop :=
  ∀ pre e post, full = pre ++ e :: post → ns !! ea e = Some {| key := ek e; next_ := links (eh e) post |}.

Record repr (sl : SkipList) (full : list elem) (l : list K) : Prop := {
  r_head : ∃ ch, full = E head_ None kMaxHeight :: ch ∧ Forall (λ e, (1 ≤ eh e ≤ max_height_ sl)%nat) ch;
  r_keys : ek <$> full = None :: (Some <$> l);
  r_nodes : nodes_ok (nodes sl) full;
  r_addr : NoDup (ea <$> full);
  r_len : length (nodes sl) = length full;
  r_max : (1 ≤ max_height_ sl ≤ kMaxHeight)%nat;
  r_sorted : sorted (cmp := cmp) l;
  r_good : Forall good l
}.

Lemma next_at_app j a b : next_at j (a ++ b) = match next_at j a with Some q => Some q | None => next_at j b end.
Proof. induction a as [|e a IH]; cbn; [done|]. by case_decide. Qed.

Lemma next_at_cases j l :
  (next_at j l = None ∧ Forall (λ e, eh e ≤ j)%nat l) ∨
  (∃ m1 e m2, l = m1 ++ e :: m2 ∧ next_at j l = Some (ea e) ∧ (j < eh e)%nat ∧ Forall (λ e, eh e ≤ j)%nat m1).
Proof.
  induction l as [|e l IH]; cbn; [by left|]. case_decide as Hd; [right; by exists [], e, l|].
  destruct IH as [[-> H]|(m1 & e' & m2 & -> & -> & H1 & H2)]; [left|right].
  - split; [done|]. constructor; [lia|done].
  - exists (e :: m1), e', m2. split; [done|]. split; [done|]. split; [done|]. constructor; [lia|done].
Qed.

Lemma last_at_app j a b d : last_at j (a ++ b) d = last_at j b (last_at j a d).
Proof. revert d. induction a as [|e a IH]; intros d; cbn; [done|]. apply IH. Qed.
Lemma last_at_low j l d : Forall (λ e, eh e ≤ j)%nat l → last_at j l d = d.
Proof. intros Hl. revert d. induction Hl as [|e l He _ IH]; intros d; cbn; [done|]. case_decide; [lia|apply IH]. Qed.
Lemma last_at_here j a e m d : (j < eh e)%nat → Forall (λ e, eh e ≤ j)%nat m → last_at j (a ++ e :: m) d = ea e.
Proof. intros He Hm. rewrite last_at_app. cbn. rewrite decide_True by done. by apply last_at_low. Qed.

Lemma links_lookup h post j : (j < h)%nat → links h post !! j = Some (Some (next_at j post)).
Proof. intros Hj. unfold links. rewrite list_lookup_fmap, lookup_seq_lt by done. done. Qed.

Lemma length_links h post : length (links h post) = h.
Proof. unfold links. by rewrite length_fmap, length_seq. Qed.

Context (sl : SkipList) (full : list elem) (l : list K) (R : repr sl full l).

Lemma Next_ok pre e post j : full = pre ++ e :: post → (j < eh e)%nat → Next sl (ea e) j = Ok (next_at j post).
Proof. intros E Hj. unfold Next, node. rewrite (r_nodes _ _ _ R _ _ _ E). rbind. cbn. by rewrite links_lookup. Qed.

Lemma key_of_ok e k : e ∈ full → ek e = Some k → key_of sl (ea e) = Ok k.
Proof.
  intros (pre & post & E)%list_elem_of_split Hk. unfold key_of, node. rewrite (r_nodes _ _ _ R _ _ _ E). rbind. cbn. by rewrite Hk.
Qed.

Lemma height_max e : e ∈ full → (1 ≤ eh e ≤ kMaxHeight)%nat.
Proof.
  destruct (r_head _ _ _ R) as (ch & -> & Hh). pose proof (r_max _ _ _ R).
  intros [->|Hin]%elem_of_cons; [cbn; unfold kMaxHeight; lia|]. rewrite Forall_forall in Hh. pose proof (Hh e Hin). lia.
Qed.

(** ** Searches *)

(** The search goes to the end of [lo], where [right] stops. *)
Lemma search_ok right lo hi : full = lo ++ hi →
  (∀ pre e m1 e' m2, lo = pre ++ e :: m1 ++ e' :: m2 → right (ea e) (Some (ea e')) = Ok true) →
  (∀ pre e mid, lo = pre ++ e :: mid → right (ea e) None = Ok false ∧ ∀ e', e' ∈ hi → right (ea e) (Some (ea e')) = Ok false) →
  ∀ fuel pre e mid level prev, lo = pre ++ e :: mid → (level < eh e)%nat → (length mid + level < fuel)%nat → length prev = kMaxHeight →
  ∃ prev', search fuel right sl (ea e) level prev = Ok (last_at 0 lo head_, next_at 0 hi, prev') ∧ length prev' = kMaxHeight ∧
    (∀ j, (j ≤ level)%nat → prev' !! j = Some (Some (last_at j lo head_))) ∧ ∀ j, (level < j)%nat → prev' !! j = prev !! j.
Proof.
  intros Ef Hgo Hstop. induction fuel as [|fuel IH]; intros pre e mid level prev El Hlev Hfuel Hprev; [lia|].
  cbn [search]. rewrite (Next_ok pre e (mid ++ hi)) by (done || by rewrite Ef, El, <- app_assoc). rbind. rewrite next_at_app.
  destruct (next_at_cases level mid) as [[-> Hlow]|(m1 & e' & m2 & -> & -> & Hl' & _)].
  - destruct (Hstop _ _ _ El) as [Hn Hs]. assert (right (ea e) (next_at level hi) = Ok false) as ->.
    { destruct (next_at_cases level hi) as [[-> _]|(m1 & e' & m2 & -> & -> & _)]; [done|]. apply Hs. set_solver. }
    rbind. assert (level < kMaxHeight)%nat as Hk by (assert (e ∈ full) as Hin by (rewrite Ef, El; set_solver); pose proof (height_max e Hin); lia).
    unfold set_prev. rewrite decide_True by lia. rbind.
    assert (last_at level lo head_ = ea e) as Ex by (rewrite El; by apply last_at_here).
    destruct level as [|level].
    + eexists. split; [by rewrite Ex|]. split; [by rewrite length_insert|]. split.
      * intros j Hj. replace j with 0%nat by lia. rewrite list_lookup_insert_eq by lia. by rewrite Ex.
      * intros j Hj. by rewrite list_lookup_insert_ne by lia.
    + destruct (IH pre e mid level (<[S level := Some (ea e)]> prev)) as (prev' & -> & Hlen & H1 & H2); [done|lia|lia|by rewrite length_insert|].
      exists prev'. split; [done|]. split; [done|]. split.
      * intros j Hj. destruct (decide (j = S level)) as [->|]; [|apply H1; lia]. rewrite H2 by lia. rewrite list_lookup_insert_eq by lia. by rewrite Ex.
      * intros j Hj. rewrite H2 by lia. by rewrite list_lookup_insert_ne by lia.
  - rewrite (Hgo pre e m1 e' m2 El). rbind. rewrite length_app in Hfuel. cbn in Hfuel.
    destruct (IH (pre ++ e :: m1) e' m2 level prev) as (prev' & -> & Hr); [by rewrite El, <- app_assoc|done|lia|done|]. by exists prev'.
Qed.

Lemma search_all_ok right lo hi : full = E head_ None kMaxHeight :: lo ++ hi →
  (∀ pre e m1 e' m2, E head_ None kMaxHeight :: lo = pre ++ e :: m1 ++ e' :: m2 → right (ea e) (Some (ea e')) = Ok true) →
  (∀ pre e mid, E head_ None kMaxHeight :: lo = pre ++ e :: mid →
     right (ea e) None = Ok false ∧ ∀ e', e' ∈ hi → right (ea e) (Some (ea e')) = Ok false) →
  ∃ prev', search_all right sl = Ok (last_at 0 lo head_, next_at 0 hi, prev') ∧ length prev' = kMaxHeight ∧
    (∀ j, (j < max_height_ sl)%nat → prev' !! j = Some (Some (last_at j lo head_))).
Proof.
  intros Ef Hgo Hstop. pose proof (r_max _ _ _ R). pose proof (r_len _ _ _ R) as Hl. rewrite Ef in Hl. cbn in Hl. rewrite length_app in Hl.
  unfold search_all. destruct (max_height_ sl) as [|level] eqn:Em; [lia|].
  destruct (search_ok right (E head_ None kMaxHeight :: lo) hi Ef Hgo Hstop (length (nodes sl) + S level) [] (E head_ None kMaxHeight) lo level
              (replicate kMaxHeight None)) as (prev' & E1 & H1 & H2 & _); [done|cbn; unfold kMaxHeight in *; lia|lia|by rewrite length_replicate|].
  assert (∀ j, (j < kMaxHeight)%nat → last_at j (E head_ None kMaxHeight :: lo) head_ = last_at j lo head_) as Eh.
  { intros j Hj. cbn. by case_decide. }
  rewrite Eh in E1 by (unfold kMaxHeight; lia). exists prev'. split; [exact E1|]. split; [done|].
  intros j Hj. rewrite H2 by lia. by rewrite Eh by lia.
Qed.

Lemma full_split l1 l2 : l = l1 ++ l2 →
  ∃ lo hi, full = E head_ None kMaxHeight :: lo ++ hi ∧ ek <$> lo = Some <$> l1 ∧ ek <$> hi = Some <$> l2.
Proof.
  intros ->. pose proof (r_keys _ _ _ R) as Hk. destruct (r_head _ _ _ R) as (ch & -> & _). cbn in Hk. injection Hk as Hk.
  rewrite fmap_app in Hk. apply fmap_app_inv in Hk as (lo & hi & Ha & Hb & ->). by exists lo, hi.
Qed.

(** The key of an element of a part of the chain. *)
Lemma part_key (m : list elem) (lm : list K) e : ek <$> m = Some <$> lm → e ∈ m → ∃ k, ek e = Some k ∧ k ∈ lm.
Proof.
  intros Hm He. assert (ek e ∈ Some <$> lm) as (k & Hk & Hin)%list_elem_of_fmap by (rewrite <- Hm; by apply list_elem_of_fmap_2). by exists k.
Qed.

Lemma after_ok k e lm (m : list elem) : good k → e ∈ full → ek <$> m = Some <$> lm → e ∈ m → Forall good lm →
  ∃ k', k' ∈ lm ∧ KeyIsAfterNode compare_ sl k (Some (ea e)) = Ok (cmp k' k <? 0).
Proof.
  intros Hk He Hm Hin Hg. destruct (part_key _ _ _ Hm Hin) as (k' & Ek & Hk'). exists k'. split; [done|].
  unfold KeyIsAfterNode. rewrite (key_of_ok e k' He Ek). rbind. rewrite compare_ok; [done| |done]. rewrite Forall_forall in Hg. auto.
Qed.

(** What the searches for a key see. *)
Lemma key_search k l1 l2 lo hi : good k → l = l1 ++ l2 → Forall (λ x, cmp x k < 0) l1 → Forall (λ x, 0 ≤ cmp x k) l2 →
  full = E head_ None kMaxHeight :: lo ++ hi → ek <$> lo = Some <$> l1 → ek <$> hi = Some <$> l2 →
  (∀ e, e ∈ lo → KeyIsAfterNode compare_ sl k (Some (ea e)) = Ok true) ∧
  (∀ e, e ∈ hi → KeyIsAfterNode compare_ sl k (Some (ea e)) = Ok false).
Proof.
  intros Hk El H1 H2 Ef E1 E2. pose proof (r_good _ _ _ R) as Hg. rewrite El, Forall_app in Hg. destruct Hg as [Hg1 Hg2].
  rewrite Forall_forall in H1, H2. split; intros e He.
  - destruct (after_ok k e l1 lo) as (k' & Hin & ->); [done|rewrite Ef; set_solver|done..|]. by rewrite (proj2 (Z.ltb_lt _ _)) by auto.
  - destruct (after_ok k e l2 hi) as (k' & Hin & ->); [done|rewrite Ef; set_solver|done..|]. by rewrite (proj2 (Z.ltb_ge _ _)) by auto.
Qed.

Lemma FindGreaterOrEqual_ok k l1 l2 lo hi : good k → l = l1 ++ l2 → Forall (λ x, cmp x k < 0) l1 → Forall (λ x, 0 ≤ cmp x k) l2 →
  full = E head_ None kMaxHeight :: lo ++ hi → ek <$> lo = Some <$> l1 → ek <$> hi = Some <$> l2 →
  ∃ prev, FindGreaterOrEqual compare_ sl k = Ok (next_at 0 hi, prev) ∧ length prev = kMaxHeight ∧
    (∀ j, (j < max_height_ sl)%nat → prev !! j = Some (Some (last_at j lo head_))).
Proof.
  intros Hk El H1 H2 Ef E1 E2. destruct (key_search k l1 l2 lo hi) as [Hlo Hhi]; try done. unfold FindGreaterOrEqual.
  destruct (search_all_ok (λ _ next, KeyIsAfterNode compare_ sl k next) lo hi Ef) as (prev & -> & Hp).
  - intros [|p pre] e m1 e' m2 E; injection E as _ E; apply Hlo; rewrite E; set_solver.
  - intros pre e mid _. split; [done|]. apply Hhi.
  - rbind. by exists prev.
Qed.

Lemma FindLessThan_ok k l1 l2 lo hi : good k → l = l1 ++ l2 → Forall (λ x, cmp x k < 0) l1 → Forall (λ x, 0 ≤ cmp x k) l2 →
  full = E head_ None kMaxHeight :: lo ++ hi → ek <$> lo = Some <$> l1 → ek <$> hi = Some <$> l2 →
  FindLessThan compare_ sl k = Ok (last_at 0 lo head_).
Proof.
  intros Hk El H1 H2 Ef E1 E2. destruct (key_search k l1 l2 lo hi) as [Hlo Hhi]; try done. unfold FindLessThan.
  set (right := λ x next, _). assert (∀ pre e mid next, E head_ None kMaxHeight :: lo = pre ++ e :: mid →
    right (ea e) next = KeyIsAfterNode compare_ sl k next) as Hr.
  { intros pre e mid next E. unfold right. case_decide as Hd; rbind; [done|]. rewrite Hlo; [done|].
    destruct pre as [|p pre]; injection E as Ee E; [by rewrite <- Ee in Hd|]. rewrite E. set_solver. }
  destruct (search_all_ok right lo hi Ef) as (prev & -> & Hp).
  - intros pre e m1 e' m2 E. rewrite (Hr pre e (m1 ++ e' :: m2)) by done. destruct pre as [|p pre]; injection E as _ E; apply Hlo; rewrite E; set_solver.
  - intros pre e mid E. rewrite (Hr pre e mid) by done. split; [done|]. intros e' He'. rewrite (Hr pre e mid) by done. by apply Hhi.
  - done.
Qed.

Lemma FindLast_ok ch : full = E head_ None kMaxHeight :: ch → FindLast sl = Ok (last_at 0 ch head_).
Proof.
  intros Ef. unfold FindLast. destruct (search_all_ok (λ _ next, Ok (bool_decide (is_Some next))) ch [] ) as (prev & -> & _).
  - by rewrite app_nil_r.
  - intros. by rewrite bool_decide_true by done.
  - intros pre e mid _. split; [done|]. intros e' He'. set_solver.
  - done.
Qed.
End spec.

(** ** Insertion *)

Section tables.
Context {A : Type}.
(** An array by its entries. *)
Definition tab (h : nat) (f : nat → A) : list A := f <$> seq 0 h.
Lemma tab_lookup h f j : (j < h)%nat → tab h f !! j = Some (f j).
Proof. intros Hj. unfold tab. by rewrite list_lookup_fmap, lookup_seq_lt by done. Qed.
Lemma length_tab h f : length (tab h f) = h.
Proof. unfold tab. by rewrite length_fmap, length_seq. Qed.
Lemma tab_ext h f g : (∀ j, (j < h)%nat → f j = g j) → tab h f = tab h g.
Proof. intros H. apply list_fmap_ext. intros j x Hx. apply lookup_seq in Hx as [-> Hj]. by apply H. Qed.
Lemma tab_insert h f g i x : g i = x → (∀ j, (j < h)%nat → j ≠ i → f j = g j) → <[i := x]> (tab h f) = tab h g.
Proof.
  intros Hi Hf. apply list_eq. intros j. destruct (decide (j < h)%nat) as [Hj|Hj].
  - destruct (decide (i = j)) as [<-|Hn].
    + rewrite list_lookup_insert_eq by (by rewrite length_tab). by rewrite tab_lookup, Hi.
    + rewrite list_lookup_insert_ne by done. rewrite !tab_lookup by done. by rewrite Hf by auto.
  - rewrite !lookup_ge_None_2; [done|rewrite length_tab; lia|rewrite length_insert, length_tab; lia].
Qed.
Lemma tab_const h x : replicate h x = tab h (λ _, x).
Proof. unfold tab. generalize 0%nat. induction h as [|h IH]; intros n; cbn; [done|]. f_equal. apply IH. Qed.

(** Two positions in a list. *)
Lemma two_splits (p1 p2 s1 s2 : list A) a b : p1 ++ a :: s1 = p2 ++ b :: s2 →
  (p1 = p2 ∧ a = b ∧ s1 = s2) ∨ (∃ q, p2 = p1 ++ a :: q ∧ s1 = q ++ b :: s2) ∨ (∃ q, p1 = p2 ++ b :: q ∧ s2 = q ++ a :: s1).
Proof.
  revert p2. induction p1 as [|x p1 IH]; intros [|y p2]; cbn; intros E; injection E as Ea Er; subst.
  - by left.
  - right; left. by exists p2.
  - right; right. by exists p1.
  - destruct (IH p2 Er) as [(-> & -> & ->)|[(q & -> & ->)|(q & -> & ->)]]; [by left|right; left; by exists q|right; right; by exists q].
Qed.
End tables.

Section insert.
Context {K : Type} (compare_ : K → K → result Z) (cmp : K → K → Z) `{!KeyOrder cmp} (good : K → Prop).
Context (compare_ok : ∀ a b, good a → good b → compare_ a b = Ok (cmp a b)).
Abbreviation hd := (E (K := K) head_ None kMaxHeight).

Lemma last_at_split j (lo : list (elem (K := K))) : (j < kMaxHeight)%nat →
  ∃ pre e mid, hd :: lo = pre ++ e :: mid ∧ (j < eh e)%nat ∧ Forall (λ e, eh e ≤ j)%nat mid ∧ last_at j lo head_ = ea e.
Proof.
  intros Hj. induction lo as [|e lo IH] using rev_ind.
  - exists [], hd, []. by split_and!.
  - rewrite last_at_app. cbn [last_at]. case_decide as Hd.
    + exists (hd :: lo), e, []. by split_and!.
    + destruct IH as (pre & e' & mid & E & H1 & H2 & H3). exists pre, e', (mid ++ [e]). split_and!; [|done| |done].
      * by rewrite app_comm_cons, E, <- app_assoc.
      * apply Forall_app. split; [done|]. by constructor; [lia|].
Qed.

Section link.
Context (lo hi : list (elem (K := K))) (x h : nat) (k : K).
Context (fresh : NoDup (ea <$> (hd :: lo ++ hi)) ∧ x ∉ ea <$> (hd :: lo ++ hi)).
Abbreviation nw := (E x (Some k) h).

(** The links of a node before the new one, of which the levels below [i]
    are done. *)
Definition mixed (i h' : nat) (mid : list elem) : list (option (option nat)) :=
  tab h' (λ j, Some (next_at j (if decide (j < i)%nat then mid ++ nw :: hi else mid ++ hi))).

Record linked (i : nat) (ns : list (Node (K := K))) : Prop := {
  l_lo pre e mid : hd :: lo = pre ++ e :: mid → ns !! ea e = Some {| key := ek e; next_ := mixed i (eh e) mid |};
  l_hi pre e post : hi = pre ++ e :: post → ns !! ea e = Some {| key := ek e; next_ := links (eh e) post |};
  l_new : ns !! x = Some {| key := Some k; next_ := tab h (λ j, if decide (j < i)%nat then Some (next_at j hi) else None) |}
}.

Lemma addr_distinct pre e mid pre' e' mid' : hd :: lo = pre ++ e :: mid → hd :: lo = pre' ++ e' :: mid' →
  ea e = ea e' → pre = pre' ∧ e = e' ∧ mid = mid'.
Proof.
  intros E1 E2 Ee. destruct fresh as [Hn _]. change (hd :: lo ++ hi) with ((hd :: lo) ++ hi) in Hn.
  rewrite fmap_app in Hn. apply NoDup_app in Hn as [Hn _].
  assert (pre ++ e :: mid = pre' ++ e' :: mid') as E by congruence.
  destruct (two_splits _ _ _ _ _ _ E) as [?|[(q & -> & ->)|(q & -> & ->)]]; [done|exfalso..]; rewrite E1 in Hn.
  - rewrite !fmap_app in Hn. apply NoDup_app in Hn as (_ & _ & Hn). rewrite fmap_cons, fmap_app in Hn. apply NoDup_cons in Hn as [Hn _].
    apply Hn. rewrite fmap_cons, Ee. set_solver.
  - rewrite <- app_assoc, !fmap_app in Hn. apply NoDup_app in Hn as (_ & _ & Hn). cbn in Hn. apply NoDup_cons in Hn as [Hn _].
    apply Hn. rewrite Ee. set_solver.
Qed.

Lemma addr_new e : e ∈ hd :: lo ++ hi → ea e ≠ x.
Proof. intros He E. destruct fresh as [_ Hx]. apply Hx. rewrite <- E. by apply list_elem_of_fmap_2. Qed.

Lemma addr_lo_hi e e' : e ∈ hd :: lo → e' ∈ hi → ea e ≠ ea e'.
Proof.
  intros He He' E. destruct fresh as [Hn _]. change (hd :: lo ++ hi) with ((hd :: lo) ++ hi) in Hn. rewrite fmap_app in Hn.
  apply NoDup_app in Hn as (_ & Hn & _). apply (Hn (ea e)); [by apply list_elem_of_fmap_2|]. rewrite E. by apply list_elem_of_fmap_2.
Qed.

Lemma link_step i ns mh rnd : (i < h ≤ kMaxHeight)%nat → linked i ns →
  ∃ sl1 sl2, Next {| nodes := ns; max_height_ := mh; rnd_ := rnd |} (last_at i lo head_) i = Ok (next_at i hi) ∧
    SetNext {| nodes := ns; max_height_ := mh; rnd_ := rnd |} x i (next_at i hi) = Ok sl1 ∧
    SetNext sl1 (last_at i lo head_) i (Some x) = Ok sl2 ∧ linked (S i) (nodes sl2) ∧
    max_height_ sl2 = mh ∧ rnd_ sl2 = rnd ∧ length (nodes sl2) = length ns.
Proof.
  intros Hi L. destruct (last_at_split i lo ltac:(lia)) as (pre & e & mid & E & He & Hm & ->).
  pose proof (l_lo i ns L _ _ _ E) as Le. pose proof (l_new i ns L) as Ln.
  assert (e ∈ hd :: lo) as Hel by (rewrite E; set_solver).
  assert (ea e ≠ x) as Hx by (apply addr_new; change (hd :: lo ++ hi) with ((hd :: lo) ++ hi); set_solver).
  assert (next_at i mid = None) as Hnone.
  { destruct (next_at_cases i mid) as [[? _]|(m1 & e' & m2 & -> & _ & Hl & _)]; [done|]. rewrite Forall_app, Forall_cons in Hm. lia. }
  unfold Next, node. cbn [nodes]. rewrite Le. rbind. cbn [next_]. unfold mixed at 1. rewrite tab_lookup by done.
  rewrite decide_False by lia. rewrite next_at_app, Hnone. unfold SetNext, node. cbn [nodes]. rewrite Ln. rbind. cbn [next_ key].
  rewrite decide_True by (rewrite length_tab; lia). eexists _, _. split; [done|]. split; [done|]. cbn [nodes].
  rewrite list_lookup_insert_ne by done. rewrite Le. rbind. cbn [next_ key]. rewrite decide_True by (unfold mixed; rewrite length_tab; lia).
  split; [done|]. cbn [nodes max_height_ rnd_]. split; [|split; [done|split; [done|by rewrite !length_insert]]].
  assert (ea e < length ns)%nat as Hlen by (apply lookup_lt_is_Some; eauto).
  assert (x < length ns)%nat as Hlx by (apply lookup_lt_is_Some; eauto). split.
  - intros pre' e' mid' E'. destruct (decide (ea e' = ea e)) as [Ee|Ee].
    + destruct (addr_distinct _ _ _ _ _ _ E' E Ee) as (-> & -> & ->). rewrite list_lookup_insert_eq by (by rewrite length_insert).
      do 2 f_equal. apply tab_insert.
      * rewrite decide_True by lia. rewrite next_at_app, Hnone. cbn. by rewrite decide_True by lia.
      * intros j Hj Hn. do 2 f_equal. destruct (decide (j < i)%nat), (decide (j < S i)%nat); done || lia.
    + assert (e' ∈ hd :: lo) as Hel' by (rewrite E'; set_solver).
      assert (ea e' ≠ x) by (apply addr_new; change (hd :: lo ++ hi) with ((hd :: lo) ++ hi); set_solver).
      rewrite !list_lookup_insert_ne by auto. rewrite (l_lo i ns L _ _ _ E'). do 2 f_equal. apply tab_ext. intros j Hj. f_equal.
      destruct (decide (j < i)%nat), (decide (j < S i)%nat); [done|lia| |done]. replace j with i in * by lia.
      rewrite !next_at_app. destruct (next_at_cases i mid') as [[_ Hl]|(m1 & e1 & m2 & -> & -> & _)]; [|done]. exfalso.
      rewrite E in E'. destruct (two_splits _ _ _ _ _ _ E') as [(_ & -> & _)|[(q & -> & ->)|(q & -> & ->)]]; [done| |].
      * rewrite Forall_app, Forall_cons in Hm. lia.
      * rewrite Forall_app, Forall_cons in Hl. lia.
  - intros pre' e' post' E'. assert (e' ∈ hi) by (rewrite E'; set_solver). pose proof (addr_lo_hi e e' Hel).
    assert (ea e' ≠ x) by (apply addr_new; set_solver). rewrite !list_lookup_insert_ne by auto. by apply (l_hi i ns L pre').
  - rewrite list_lookup_insert_ne by done. rewrite list_lookup_insert_eq by done. do 2 f_equal. apply tab_insert.
    + by rewrite decide_True by lia.
    + intros j Hj Hn. destruct (decide (j < i)%nat), (decide (j < S i)%nat); done || lia.
Qed.

Lemma tower_link_ok prev n : ∀ i sl, (i + n = h)%nat → (h ≤ kMaxHeight)%nat → linked i (nodes sl) →
  (∀ j, (j < h)%nat → prev !! j = Some (Some (last_at j lo head_))) →
  ∃ sl', link i n x prev sl = Ok sl' ∧ linked h (nodes sl') ∧ max_height_ sl' = max_height_ sl ∧
    length (nodes sl') = length (nodes sl).
Proof.
  induction n as [|n IH]; intros i [ns mh rnd] Hi Hh L Hp; cbn [link].
  - eexists. split; [done|]. by replace h with i by lia.
  - rewrite Hp by lia. destruct (link_step i ns mh rnd) as (sl1 & sl2 & -> & E1 & E2 & L2 & Hm & _ & Hl); [lia|done|]. rbind.
    rewrite E1. rbind. rewrite E2. rbind. destruct (IH (S i) sl2) as (sl' & -> & L' & Hm' & Hl'); [lia|done..|].
    exists sl'. split; [done|]. split; [done|]. cbn in *. split; congruence.
Qed.

(** When every level is done, the links are those of the longer chain. *)
Lemma linked_nodes ns : linked h ns → nodes_ok ns (hd :: lo ++ nw :: hi).
Proof.
  intros L pre e post E. destruct (two_splits (hd :: lo) pre hi post nw e E) as [(_ & <- & <-)|[(q & Ep & Eh)|(q & El & ->)]].
  - cbn [ea ek eh]. rewrite (l_new h ns L). do 2 f_equal. apply tab_ext. intros j Hj. by rewrite decide_True by done.
  - by apply (l_hi h ns L q).
  - rewrite (l_lo h ns L _ _ _ El). do 2 f_equal. apply tab_ext. intros j Hj. f_equal. destruct (decide (j < h)%nat); [done|].
    rewrite !next_at_app. cbn [next_at eh]. by rewrite (decide_False (P := (j < h)%nat)) by done.
Qed.
End link.

Lemma random_height_ok fuel : ∀ height rnd, (1 ≤ height ≤ kMaxHeight)%nat → (1 ≤ (random_height fuel height rnd).1 ≤ kMaxHeight)%nat.
Proof.
  induction fuel as [|fuel IH]; intros height rnd Hh; cbn [random_height]; [done|]. case_decide; [|done].
  destruct (_ =? 0); [|done]. apply IH. lia.
Qed.

Lemma last_at_none j (lo : list (elem (K := K))) : Forall (λ e, eh e ≤ j)%nat lo → last_at j lo head_ = head_.
Proof. apply last_at_low. Qed.

(** A list of nodes that holds the keys [l], in order. *)
Definition holds (sl : SkipList) (l : list K) : Prop := ∃ full, repr cmp good sl full l.

Lemma new_holds : holds SkipList_new [].
Proof.
  exists [hd]. split; try done.
  - by exists [].
  - intros [|y [|z pre]] e post E; [|discriminate E..]. injection E as <- <-. done.
  - cbn. apply NoDup_singleton.
  - cbn. unfold kMaxHeight. lia.
  - constructor.
Qed.

(** The array [prev], filled up for a node that is higher than the list. *)
Lemma prev_extended (lo : list (elem (K := K))) prev m height j : length prev = kMaxHeight → (m ≤ kMaxHeight)%nat → (height ≤ kMaxHeight)%nat →
  (∀ j, (j < m)%nat → prev !! j = Some (Some (last_at j lo head_))) → Forall (λ e, (1 ≤ eh e ≤ m)%nat) lo → (j < height)%nat →
  (if decide (m < height)%nat then take m prev ++ replicate (height - m) (Some head_) ++ drop height prev else prev) !! j =
    Some (Some (last_at j lo head_)).
Proof.
  intros Hpl Hm Hh Hp Hlo Hj. case_decide; [|apply Hp; lia]. destruct (decide (j < m)%nat).
  - rewrite lookup_app_l, lookup_take_lt by (rewrite ?length_take; lia). by apply Hp.
  - rewrite lookup_app_r by (rewrite length_take; lia). rewrite length_take, lookup_app_l by (rewrite length_replicate; lia).
    rewrite lookup_replicate_2 by lia. rewrite last_at_none; [done|]. eapply Forall_impl; [exact Hlo|]. cbn. lia.
Qed.

Lemma linked_start sl full l lo hi height k : repr cmp good sl full l → full = hd :: lo ++ hi →
  linked lo hi (length (nodes sl)) height k 0 (nodes sl ++ [{| key := Some k; next_ := replicate height None |}]).
Proof.
  intros R Ef. split.
  - intros pre e mid E. assert (full = pre ++ e :: mid ++ hi) as E' by (rewrite Ef, app_comm_cons, E, <- app_assoc; done).
    pose proof (r_nodes _ _ _ _ _ R _ _ _ E') as Hlk. rewrite lookup_app_l by (by eapply lookup_lt_Some). exact Hlk.
  - intros pre e post E. assert (full = (hd :: lo ++ pre) ++ e :: post) as E' by (rewrite Ef, E; cbn; by rewrite <- app_assoc).
    pose proof (r_nodes _ _ _ _ _ R _ _ _ E') as Hlk. rewrite lookup_app_l by (by eapply lookup_lt_Some). exact Hlk.
  - rewrite lookup_app_r, Nat.sub_diag by done. cbn. by rewrite tab_const.
Qed.

(** A new key takes its place in the order. *)
Lemma Insert_ok sl l1 l2 k : holds sl (l1 ++ l2) → good k → Forall (λ y, cmp y k < 0) l1 → Forall (λ y, 0 < cmp y k) l2 →
  ∃ sl', Insert compare_ k sl = Ok sl' ∧ holds sl' (l1 ++ k :: l2).
Proof.
  intros [full R] Hk H1 H2. destruct (full_split cmp good sl full _ R l1 l2 eq_refl) as (lo & hi & Ef & E1 & E2).
  assert (Forall (λ y, 0 ≤ cmp y k) l2) as H2' by (eapply Forall_impl; [exact H2|cbn; lia]).
  unfold Insert. destruct (FindGreaterOrEqual_ok compare_ cmp good compare_ok sl full _ R k l1 l2 lo hi) as (prev & -> & Hpl & Hp); try done. rbind.
  assert (match next_at 0 hi with
          | Some p => kx ← key_of sl p; r ← compare_ k kx; Ok (negb (r =? 0)) | None => Ok true end = Ok true) as ->.
  { destruct (next_at_cases 0 hi) as [[-> _]|(m1 & e & m2 & -> & -> & _)]; [done|].
    destruct (part_key (m1 ++ e :: m2) l2 e E2) as (k' & Ek & Hin); [set_solver|].
    rewrite (key_of_ok cmp good sl full _ R e k') by (done || rewrite Ef; set_solver). rbind.
    pose proof (r_good _ _ _ _ _ R) as Hg. rewrite Forall_forall in Hg, H2. rewrite compare_ok by (done || apply Hg; set_solver). rbind.
    pose proof (H2 k' Hin). rewrite ko_sym. rewrite (proj2 (Z.eqb_neq _ _)) by lia. done. }
  rbind. cbn [negb]. pose proof (random_height_ok kMaxHeight 1 (rnd_ sl)) as Hh. unfold RandomHeight.
  destruct (random_height kMaxHeight 1 (rnd_ sl)) as [height rnd]. cbn [fst] in Hh. specialize (Hh ltac:(unfold kMaxHeight; lia)).
  pose proof (r_max _ _ _ _ _ R) as Hm. pose proof (r_len _ _ _ _ _ R) as Hlen. destruct (r_head _ _ _ _ _ R) as (ch & Ef' & Hht).
  rewrite Ef in Ef'. injection Ef' as <-. set (x := length (nodes sl)) in *. set (m := max_height_ sl) in *.
  set (m' := if decide (m < height)%nat then height else m). set (prev' := if decide (m < height)%nat then _ else _).
  assert (∀ j, (j < height)%nat → prev' !! j = Some (Some (last_at j lo head_))) as Hp'.
  { intros j Hj. apply Forall_app in Hht as [Hht _]. apply prev_extended; done || lia. }
  assert (NoDup (ea <$> (hd :: lo ++ hi)) ∧ x ∉ ea <$> (hd :: lo ++ hi)) as Hfresh.
  { rewrite <- Ef. split; [apply (r_addr _ _ _ _ _ R)|]. intros (e & Ee & (pre & post & E)%list_elem_of_split)%list_elem_of_fmap.
    pose proof (r_nodes _ _ _ _ _ R _ _ _ E) as Hlk. apply lookup_lt_Some in Hlk. subst x. lia. }
  assert (linked lo hi x height k 0 (nodes sl ++ [{| key := Some k; next_ := replicate height None |}])) as L0.
  { by apply (linked_start sl full (l1 ++ l2)). }
  destruct (tower_link_ok lo hi x height k Hfresh prev' height 0 {| nodes := nodes sl ++ [{| key := Some k; next_ := replicate height None |}]; max_height_ := m'; rnd_ := rnd |})
    as (sl' & -> & L & Em & El); [lia|lia|done|done|]. cbn in Em, El.
  exists sl'. split; [done|]. exists (hd :: lo ++ E x (Some k) height :: hi). split.
  - eexists. split; [done|]. rewrite Em. assert (m ≤ m' ∧ height ≤ m')%nat as [? ?] by (subst m'; case_decide; lia).
    apply Forall_app in Hht as [Ha Hb]. apply Forall_app. split; [eapply Forall_impl; [exact Ha|cbn; lia]|].
    constructor; [cbn; lia|]. eapply Forall_impl; [exact Hb|cbn; lia].
  - cbn. rewrite !fmap_app, !fmap_cons, E1, E2. done.
  - by apply linked_nodes.
  - destruct Hfresh as [Hn Hx]. assert (Permutation (hd :: lo ++ E x (Some k) height :: hi) (E x (Some k) height :: hd :: lo ++ hi)) as ->.
    { rewrite <- Permutation_middle. apply Permutation_swap. }
    rewrite fmap_cons. by constructor.
  - rewrite El. subst x. rewrite length_app, Hlen, Ef. cbn. rewrite !length_app. cbn. lia.
  - rewrite Em. subst m'. case_decide; lia.
  - apply sorted_insert; [apply (r_sorted _ _ _ _ _ R)|done..].
  - pose proof (r_good _ _ _ _ _ R) as Hg. rewrite Forall_app in Hg. apply Forall_app. split; [apply Hg|]. constructor; [done|apply Hg].
Qed.

(** ** Iterators *)

Section iter.
Context (sl : SkipList (K := K)) (full : list elem) (l : list K) (R : repr cmp good sl full l).

Definition at_place (it : Iterator) (p : option nat) : Prop :=
  match p with
  | Some i => (i < length l)%nat ∧ it = (ea <$> tail full !! i)
  | None => it = None
  end.

Lemma tail_facts : ∃ ch, full = hd :: ch ∧ ek <$> ch = Some <$> l ∧ Forall (λ e, (1 ≤ eh e)%nat ∧ ea e ≠ head_) ch ∧ length ch = length l.
Proof.
  destruct (r_head _ _ _ _ _ R) as (ch & Ef & Hh). exists ch. pose proof (r_keys _ _ _ _ _ R) as Hk. pose proof (r_addr _ _ _ _ _ R) as Hn.
  rewrite Ef in Hk, Hn. cbn in Hk, Hn. injection Hk as Hk. apply NoDup_cons in Hn as [Hn _]. split; [done|]. split; [done|]. split.
  - rewrite Forall_forall in *. intros e He. split; [apply Hh; done|]. intros E. apply Hn. rewrite <- E. by apply list_elem_of_fmap_2.
  - rewrite <- (length_fmap ek ch), Hk. apply length_fmap.
Qed.

Lemma next_first (m : list (elem (K := K))) : Forall (λ e, (1 ≤ eh e)%nat ∧ ea e ≠ head_) m → next_at 0 m = (ea <$> m !! 0%nat).
Proof. destruct 1 as [|e m [He _] _]; cbn; [done|]. by rewrite decide_True by lia. Qed.

Lemma last_last (m : list (elem (K := K))) : Forall (λ e, (1 ≤ eh e)%nat ∧ ea e ≠ head_) m →
  not_head (last_at 0 m head_) = (ea <$> last m).
Proof.
  intros Hm. destruct m as [|e m] using rev_ind; [done|]. apply Forall_app in Hm as [_ Hm]. apply Forall_cons in Hm as [[He Ha] _].
  rewrite last_at_app, last_snoc. cbn. rewrite decide_True by lia. unfold not_head. by rewrite decide_False.
Qed.

Lemma at_place_next i : at_place (ea <$> tail full !! i) (place (length l) i).
Proof.
  unfold place. case_decide as Hi; cbn; [done|]. destruct tail_facts as (ch & -> & _ & _ & Hl). cbn. by rewrite lookup_ge_None_2 by lia.
Qed.

Lemma iter_key_ok it i : at_place it (Some i) → ∃ k, l !! i = Some k ∧ iter_key sl it = Ok k.
Proof.
  intros [Hi ->]. destruct tail_facts as (ch & Ef & Hk & _ & Hl). destruct (lookup_lt_is_Some_2 l i Hi) as [k Hlk]. exists k. split; [done|].
  rewrite Ef. cbn. assert ((ek <$> ch) !! i = Some (Some k)) as Hc by (rewrite Hk, list_lookup_fmap, Hlk; done).
  rewrite list_lookup_fmap in Hc. destruct (ch !! i) as [e|] eqn:Ec; [|done]. injection Hc as Hc. cbn.
  apply (key_of_ok cmp good sl full l R); [|done]. rewrite Ef. apply elem_of_cons. right. by eapply list_elem_of_lookup_2.
Qed.

Lemma iter_Next_ok it i : at_place it (Some i) → ∃ it', iter_Next sl it = Ok it' ∧ at_place it' (place (length l) (S i)).
Proof.
  intros [Hi ->]. destruct tail_facts as (ch & Ef & Hk & Hc & Hl). rewrite Ef. cbn. destruct (lookup_lt_is_Some_2 ch i) as [e He]; [lia|].
  rewrite He. cbn. apply take_drop_middle in He as Es.
  rewrite (Next_ok cmp good sl full l R (hd :: take i ch) e (drop (S i) ch)).
  - eexists. split; [done|]. rewrite next_first by (by apply Forall_drop). rewrite lookup_drop, Nat.add_0_r.
    pose proof (at_place_next (S i)) as Ha. rewrite Ef in Ha at 1. exact Ha.
  - by rewrite Ef, <- Es at 1.
  - rewrite Forall_forall in Hc. apply Hc. by eapply list_elem_of_lookup_2.
Qed.

Lemma sorted_parts l1 k l2 : l = l1 ++ k :: l2 → good k ∧ Forall (λ x, cmp x k < 0) l1 ∧ Forall (λ x, 0 ≤ cmp x k) (k :: l2).
Proof.
  intros El. pose proof (r_sorted _ _ _ _ _ R) as Hs. pose proof (r_good _ _ _ _ _ R) as Hg. rewrite El in Hs, Hg.
  apply Forall_app in Hg as [_ Hg]. apply Forall_cons in Hg as [Hg _]. split; [done|].
  apply StronglySorted_app in Hs as (H12 & _ & H2). split.
  - apply Forall_forall. intros x Hx. apply H12; set_solver.
  - apply Forall_cons. split; [pose proof (ko_sym (cmp := cmp) k k); lia|]. inversion H2; subst. eapply Forall_impl; [done|]. cbn. intros y Hy.
    rewrite ko_sym. lia.
Qed.

Lemma iter_Prev_ok it i : at_place it (Some i) →
  ∃ it', iter_Prev compare_ sl it = Ok it' ∧ at_place it' (before i).
Proof.
  intros Ha. destruct (iter_key_ok it i Ha) as (k & Hlk & Ek). destruct Ha as [Hi ->]. apply take_drop_middle in Hlk as Es. symmetry in Es.
  destruct (sorted_parts _ _ _ Es) as (Hg & H1 & H2). destruct (full_split cmp good sl full l R _ _ Es) as (lo & hi & Ef & E1 & E2).
  unfold iter_Prev, iter_key in *. destruct (ea <$> tail full !! i) as [p|]; [|done]. rewrite Ek. rbind.
  rewrite (FindLessThan_ok compare_ cmp good compare_ok sl full l R k _ _ lo hi Hg Es H1 H2 Ef E1 E2). rbind. eexists. split; [done|].
  destruct tail_facts as (ch & Ef' & _ & Hc & _). rewrite Ef in Ef'. injection Ef' as <-. apply Forall_app in Hc as [Hc _].
  rewrite last_last by done. assert (length lo = i) as Hll.
  { rewrite <- (length_fmap ek lo), E1, length_fmap, length_take. lia. }
  rewrite last_lookup, Hll. destruct i as [|i]; cbn; [by destruct lo|]. split; [lia|]. rewrite Ef. cbn. by rewrite lookup_app_l by lia.
Qed.

Lemma iter_Seek_ok k l1 l2 : good k → l = l1 ++ l2 → Forall (λ x, cmp x k < 0) l1 → Forall (λ x, 0 ≤ cmp x k) l2 →
  ∃ it', iter_Seek compare_ sl k = Ok it' ∧ at_place it' (place (length l) (length l1)).
Proof.
  intros Hg El H1 H2. destruct (full_split cmp good sl full l R _ _ El) as (lo & hi & Ef & E1 & E2). unfold iter_Seek.
  destruct (FindGreaterOrEqual_ok compare_ cmp good compare_ok sl full l R k l1 l2 lo hi Hg El H1 H2 Ef E1 E2) as (prev & -> & _). rbind.
  eexists. split; [done|]. destruct tail_facts as (ch & Ef' & _ & Hc & _). rewrite Ef in Ef'. injection Ef' as <-. apply Forall_app in Hc as [_ Hc].
  rewrite next_first by done. pose proof (at_place_next (length l1)) as Ha. rewrite Ef in Ha at 1. cbn in Ha.
  assert (length l1 = length lo) as Hll by (rewrite <- (length_fmap ek lo), E1; by rewrite length_fmap). rewrite Hll, lookup_app_r, Nat.sub_diag in Ha by done.
  by rewrite Hll.
Qed.

Lemma iter_SeekToFirst_ok : ∃ it', iter_SeekToFirst sl = Ok it' ∧ at_place it' (place (length l) 0).
Proof.
  destruct tail_facts as (ch & Ef & _ & Hc & _). unfold iter_SeekToFirst. pose proof (Next_ok cmp good sl full l R [] hd ch 0 Ef) as Hn.
  cbn [ea] in Hn. rewrite Hn by (cbn; unfold kMaxHeight; lia). eexists. split; [done|]. rewrite next_first by done.
  pose proof (at_place_next 0) as Ha. rewrite Ef in Ha at 1. exact Ha.
Qed.

Lemma iter_SeekToLast_ok : ∃ it', iter_SeekToLast sl = Ok it' ∧ at_place it' (before (length l)).
Proof.
  destruct tail_facts as (ch & Ef & _ & Hc & Hl). unfold iter_SeekToLast. rewrite (FindLast_ok compare_ cmp good compare_ok sl full l R ch Ef). rbind.
  eexists. split; [done|]. rewrite last_last, last_lookup, Hl by done. destruct (length l) as [|n] eqn:En; cbn.
  - by destruct ch.
  - rewrite En. split; [lia|]. by rewrite Ef.
Qed.
End iter.
End insert.
