(* ===== verification/MemTable.v ===== *)
(** * The memtable of LevelDB (pack/leveldb/db/memtable.h, memtable.cc)

    An entry is one block: the length of the internal key, the key, the length
    of the value, the value. The table is a skip list of such blocks, in the
    order of their internal keys. *)

From stdpp Require Import sorting.
From S2P Require Import Prelude Cstd LevelDb Cmem Coding Status DbFormat Iter SkipList SkipListSpec.

Module MemTable.

(** [GetLengthPrefixedSlice(data)]: the slice, and what follows it. Five bytes
    are enough for the length; NULL is used without a test. *)
Definition prefixed (data : bytes) : result (bytes * bytes) :=
  r ← GetVarint32Ptr data 5;
  match r with
  | Some (len, p) => s ← slice p 0 len; Ok (s, drop (Z.to_nat len) p)
  | None => Fault OutOfBounds
  end.

(** [KeyComparator]. *)
Definition KeyComparator (aptr bptr : bytes) : result Z :=
  '(a, _) ← prefixed aptr;
  '(b, _) ← prefixed bptr;
  InternalCompare a b.

Definition EncodeKey (target : bytes) : bytes := PutVarint32 [] (u32 (zlen target)) ++ target.

Abbreviation table := (SkipList.SkipList (K := bytes)).
Definition MemTable_new : table := SkipList.SkipList_new.

(** [Add]: the entry is written into a block of its length. *)
Definition encode_entry (s : Z) (type : ValueType) (key value : bytes) : result bytes :=
  let internal_key_size := zlen key + 8 in
  let encoded_len := VarintLength internal_key_size + internal_key_size + VarintLength (zlen value) + zlen value in
  let buf := EncodeVarint32 (u32 internal_key_size) ++ key ++ EncodeFixed64 (Z.lor (u64 (Z.shiftl s 8)) (type_num type)) ++
             EncodeVarint32 (u32 (zlen value)) ++ value in
  if zlen buf =? encoded_len then Ok buf else Fault AssertFailed.
Definition Add (s : Z) (type : ValueType) (key value : bytes) (table_ : table) : result table :=
  buf ← encode_entry s type key value;
  SkipList.Insert KeyComparator buf table_.

(** [Get]: [None] is [false]; [Some None] the status NotFound of a deletion;
    [Some (Some v)] the value. *)
Definition Get (key : LookupKey) (table_ : table) : result (option (option bytes)) :=
  it ← SkipList.iter_Seek KeyComparator table_ (memtable_key key);
  match it with
  | None => Ok None
  | Some _ =>
      entry ← SkipList.iter_key table_ it;
      r ← GetVarint32Ptr entry 5;
      match r with
      | None => Fault OutOfBounds
      | Some (key_length, key_ptr) =>
          u ← slice key_ptr 0 (u32 (key_length - 8));
          c ← Slice_compare u (lk_user_key key);
          if c =? 0 then
            tag ← DecodeFixed64 (drop (Z.to_nat (key_length - 8)) key_ptr);
            let t := Z.land tag 255 in
            if t =? type_num kTypeValue then '(v, _) ← prefixed (drop (Z.to_nat key_length) key_ptr); Ok (Some (Some v))
            else if t =? type_num kTypeDeletion then Ok (Some None)
            else Ok None
          else Ok None
      end
  end.

(** [MemTableIterator]. *)
Record MemTableIterator := { table_ : table; iter_ : SkipList.Iterator }.
Definition NewIterator (t : table) : MemTableIterator := {| table_ := t; iter_ := None |}.
Definition move (m : MemTableIterator) (r : result SkipList.Iterator) : result MemTableIterator :=
  it ← r; Ok {| table_ := table_ m; iter_ := it |}.
Definition iterator_key (m : MemTableIterator) : result bytes :=
  e ← SkipList.iter_key (table_ m) (iter_ m); '(k, _) ← prefixed e; Ok k.
Definition iterator_value (m : MemTableIterator) : result bytes :=
  e ← SkipList.iter_key (table_ m) (iter_ m); '(_, rest) ← prefixed e; '(v, _) ← prefixed rest; Ok v.

#[global] Instance MemTable_Iter : Iter MemTableIterator := {
  it_Valid m := bool_decide (is_Some (iter_ m));
  it_key := iterator_key;
  it_value := iterator_value;
  it_Next m := move m (SkipList.iter_Next (table_ m) (iter_ m));
  it_Prev m := move m (SkipList.iter_Prev KeyComparator (table_ m) (iter_ m));
  it_Seek k m := move m (SkipList.iter_Seek KeyComparator (table_ m) (EncodeKey k));
  it_SeekToFirst m := move m (SkipList.iter_SeekToFirst (table_ m));
  it_SeekToLast m := move m (SkipList.iter_SeekToLast (table_ m));
  it_status m := sOK
}.
End MemTable.

(** * What the memtable guarantees

    A memtable holds entries in the order of their internal keys. A lookup at
    a sequence number finds the newest entry of a key that is not newer, and
    the iterator implements the interface of iterators. *)
Import MemTable.

Abbreviation entry := (bytes * Z * bytes)%type.

(** ** Entries *)

(** The block of a key and what follows it; the key of a block. *)
Definition key_block (k : bytes * Z) (rest : bytes) : bytes := EncodeVarint32 (zlen (ikey k)) ++ ikey k ++ rest.
Definition entry_block (e : entry) : bytes := key_block e.1 (EncodeVarint32 (zlen e.2) ++ e.2).
Definition entry_ok (e : entry) : Prop := key_ok e.1 ∧ zlen e.2 < 2 ^ 32.

Definition block_key (b : bytes) : bytes * Z :=
  match prefixed b with
  | Ok (s, _) => (take (length s - 8) s, match DecodeFixed64 (drop (length s - 8) s) with Ok t => t | Fault _ => 0 end)
  | Fault _ => ([], 0)
  end.
Definition block_cmp (a b : bytes) : Z := icmp (block_key a) (block_key b).
Definition block_ok (b : bytes) : Prop := ∃ k rest, b = key_block k rest ∧ key_ok k.

Lemma prefixed_app s rest : zlen s < 2 ^ 32 → prefixed (EncodeVarint32 (zlen s) ++ s ++ rest) = Ok (s, rest).
Proof.
  intros Hs. unfold prefixed. pose proof (Varint32_length (zlen s)). rewrite Varint32_roundtrip by zlia. rbind.
  rewrite slice_prefix by done. rbind. by rewrite to_nat_zlen, drop_app_length.
Qed.

Lemma ikey_short k : key_ok k → zlen (ikey k) < 2 ^ 31.
Proof. intros [H _]. rewrite zlen_ikey. lia. Qed.

Lemma prefixed_block k rest : key_ok k → prefixed (key_block k rest) = Ok (ikey k, rest).
Proof. intros Hk. pose proof (ikey_short k Hk). apply prefixed_app. lia. Qed.

Lemma block_key_ok k rest : key_ok k → block_key (key_block k rest) = k.
Proof.
  intros Hk. unfold block_key. rewrite prefixed_block by done. rewrite ikey_user, DecodeFixed64_ikey by apply Hk. by destruct k.
Qed.

Lemma KeyComparator_ok a b : block_ok a → block_ok b → KeyComparator a b = Ok (block_cmp a b).
Proof.
  intros (k & r & -> & Hk) (k' & r' & -> & Hk'). unfold KeyComparator, block_cmp. rewrite !prefixed_block by done. rbind.
  rewrite InternalCompare_ok by done. by rewrite !block_key_ok.
Qed.

#[global] Instance icmp_order : KeyOrder icmp.
Proof.
  split; [apply icmp_sym|]. intros a b c H1 H2. destruct (Z.eq_dec (icmp b c) 0) as [->%icmp_eq|]; [done|].
  pose proof (icmp_le_trans a b c H1). lia.
Qed.
#[global] Instance block_order : KeyOrder block_cmp.
Proof. unfold block_cmp. split; [intros; apply icmp_sym|intros a b c; apply ko_trans]. Qed.

(** ** The table *)

(** The table holds the entries [L], sorted by their keys. *)
Definition contains (t : table) (L : list entry) : Prop :=
  holds block_cmp block_ok t (entry_block <$> L) ∧ Forall entry_ok L.

Lemma new_contains : contains MemTable_new [].
Proof. split; [apply new_holds|done]. Qed.

Lemma entry_block_ok e : entry_ok e → block_ok (entry_block e) ∧ block_key (entry_block e) = e.1.
Proof. intros [Hk _]. split; [by eexists _, _|by apply block_key_ok]. Qed.

Lemma tag_lor s t : 0 ≤ s < 2 ^ 56 → Z.lor (u64 (Z.shiftl s 8)) (type_num t) = tag s t.
Proof.
  intros Hs. rewrite Z.shiftl_mul_pow2, u64_small by lia. rewrite Z.lor_comm, <- (Z.shiftl_mul_pow2 s 8) by lia.
  rewrite lor_add_shift by (destruct t; cbn; lia). unfold tag. lia.
Qed.

Lemma encode_entry_ok s t u v : 0 ≤ s < 2 ^ 56 → entry_ok ((u, tag s t), v) →
  encode_entry s t u v = Ok (entry_block ((u, tag s t), v)).
Proof.
  intros Hs [[Hu Ht] Hv]. cbn in *. unfold encode_entry. rewrite tag_lor by done. rewrite !u32_small by zlia.
  unfold entry_block, key_block, ikey. cbn [fst snd]. rewrite !zlen_app. change (zlen (EncodeFixed64 (tag s t))) with 8.
  rewrite !VarintLength_groups, <- !EncodeVarint32_groups by zlia. rewrite (proj2 (Z.eqb_eq _ _)) by lia.
  by rewrite <- app_assoc.
Qed.

Lemma sorted_blocks t L : contains t L → StronglySorted (λ a b, icmp a.1 b.1 < 0) L.
Proof.
  intros [[full R] Hok]. pose proof (r_sorted _ _ _ _ _ R) as Hs. unfold sorted in Hs. clear R. induction Hok as [|e L He HL IH]; [constructor|].
  cbn in Hs. inversion Hs as [|? ? Hs' Ha]; subst. constructor; [by apply IH|]. rewrite Forall_fmap, Forall_forall in Ha. rewrite Forall_forall in HL |- *. intros e' He'.
  pose proof (Ha e' He') as Hc. unfold compose, block_cmp in Hc.
  rewrite (proj2 (entry_block_ok e He)), (proj2 (entry_block_ok e' (HL e' He'))) in Hc. done.
Qed.

(** Blocks of entries against the block of a target. *)
Lemma blocks_cmp (P : Z → Prop) (L : list entry) b k : Forall entry_ok L → block_key b = k →
  Forall (λ e, P (icmp e.1 k)) L → Forall (λ x, P (block_cmp x b)) (entry_block <$> L).
Proof.
  intros Hok Hb HL. rewrite Forall_fmap, Forall_forall in *. intros e He. unfold compose, block_cmp.
  rewrite Hb, (proj2 (entry_block_ok e (Hok e He))). by apply HL.
Qed.

Lemma Add_ok t L1 L2 s ty u v : contains t (L1 ++ L2) → 0 ≤ s < 2 ^ 56 → entry_ok ((u, tag s ty), v) →
  Forall (λ e, icmp e.1 (u, tag s ty) < 0) L1 → Forall (λ e, 0 < icmp e.1 (u, tag s ty)) L2 →
  ∃ t', Add s ty u v t = Ok t' ∧ contains t' (L1 ++ ((u, tag s ty), v) :: L2).
Proof.
  intros [Ht Hok] Hs He H1 H2. unfold Add. rewrite encode_entry_ok by done. rbind. rewrite fmap_app in Ht.
  destruct (entry_block_ok _ He) as [Hb Hk]. pose proof Hok as Hok'. apply Forall_app in Hok as [Hok1 Hok2].
  destruct (Insert_ok KeyComparator block_cmp block_ok KeyComparator_ok t _ _ (entry_block ((u, tag s ty), v)) Ht Hb) as (t' & -> & Ht').
  - by apply (blocks_cmp (λ z, z < 0)) with (k := (u, tag s ty)).
  - by apply (blocks_cmp (λ z, 0 < z)) with (k := (u, tag s ty)).
  - exists t'. split; [done|]. split; [by rewrite fmap_app|]. apply Forall_app. split; [done|]. by constructor.
Qed.

(** ** Lookups *)

Lemma LookupKey_ok u s : 0 ≤ s < 2 ^ 56 → zlen u < 2 ^ 31 - 8 →
  ∃ lk, LookupKey_new u s = Ok lk ∧ memtable_key lk = key_block (u, tag s kTypeValue) [] ∧ lk_user_key lk = u ∧
        internal_key lk = ikey (u, tag s kTypeValue).
Proof.
  intros Hs Hu. unfold LookupKey_new. unfold kValueTypeForSeek. rewrite pack_ok by done. rbind. eexists. split; [done|]. split; [|done].
  unfold memtable_key, key_block, ikey. cbn. rewrite app_nil_r, zlen_app. change (zlen (EncodeFixed64 _)) with 8.
  by rewrite u32_small by zlia.
Qed.

(** What a lookup gives where it stops: the rest of the list begins with an
    entry of the key, or the key is not in the table. *)
Definition found (u : bytes) (rest : list entry) : option (option bytes) :=
  match rest with
  | ((u', t), v) :: _ => if bool_decide (u' = u) then Some (if Z.land t 255 =? 1 then Some v else None) else None
  | [] => None
  end.
Definition typed (e : entry) : Prop := ∃ s t, e.1.2 = tag s t ∧ 0 ≤ s < 2 ^ 56.

Lemma tag_type s t : Z.land (tag s t) 255 = type_num t.
Proof. change 255 with (Z.ones 8). rewrite Z.land_ones by lia. unfold tag. symmetry. apply Z.mod_unique with s; destruct t; cbn; lia. Qed.

Lemma ikey_app u t rest : ikey (u, t) ++ rest = u ++ EncodeFixed64 t ++ rest.
Proof. unfold ikey. by rewrite <- app_assoc. Qed.

Lemma Get_ok t L1 L2 u s lk : contains t (L1 ++ L2) → Forall typed (L1 ++ L2) → 0 ≤ s < 2 ^ 56 → zlen u < 2 ^ 31 - 8 →
  Forall (λ e, icmp e.1 (u, tag s kTypeValue) < 0) L1 → Forall (λ e, 0 ≤ icmp e.1 (u, tag s kTypeValue)) L2 →
  LookupKey_new u s = Ok lk → Get lk t = Ok (found u L2).
Proof.
  intros [[full R] Hok] Hty Hs Hu H1 H2 Hlk. destruct (LookupKey_ok u s Hs Hu) as (lk' & E & Hm & Hlu & _).
  rewrite Hlk in E. injection E as <-. unfold Get. rewrite Hm.
  assert (key_ok (u, tag s kTypeValue)) as Hko by (split; [done|by apply tag_range]).
  pose proof Hok as [Hok1 Hok2]%Forall_app. rewrite fmap_app in R.
  destruct (iter_Seek_ok KeyComparator block_cmp block_ok KeyComparator_ok t full _ R (key_block (u, tag s kTypeValue) [])
              (entry_block <$> L1) (entry_block <$> L2)) as (it & -> & Hat).
  { by eexists _, _. }
  { done. }
  { apply (blocks_cmp (λ z, z < 0)) with (k := (u, tag s kTypeValue)); [done|by apply block_key_ok|done]. }
  { apply (blocks_cmp (λ z, 0 ≤ z)) with (k := (u, tag s kTypeValue)); [done|by apply block_key_ok|done]. }
  rbind. unfold Iter.place in Hat. rewrite length_app, !length_fmap in Hat. destruct L2 as [|[[u' t'] v] L2]; cbn [length] in Hat.
  - rewrite decide_False in Hat by lia. by cbn in Hat; subst it.
  - rewrite decide_True in Hat by lia. destruct (iter_key_ok _ _ t full _ R it _ Hat) as (b & Hb & Ek).
    rewrite lookup_app_r, length_fmap, Nat.sub_diag in Hb by (by rewrite length_fmap). cbn in Hb. injection Hb as <-.
    destruct it as [p|]; [|by destruct Hat]. rewrite Ek. rbind. apply Forall_cons in Hok2 as [[Hk Hv] _]. pose proof (ikey_short _ Hk).
    cbn [fst snd] in *. unfold entry_block, key_block. cbn [fst snd]. rewrite Varint32_roundtrip by (pose proof (Varint32_length (zlen (ikey (u', t')))); zlia).
    rbind. rewrite zlen_ikey. cbn [fst]. replace (zlen u' + 8 - 8) with (zlen u') by lia. destruct Hk as [Hu' Ht']. cbn in Hu', Ht'.
    rewrite u32_small by zlia. rewrite (ikey_app u' t') at 1. rewrite slice_prefix by done. rbind.
    rewrite Slice_compare_ok by lia. rbind. rewrite Hlu. cbn [found]. destruct (Z.eqb_spec (bcmp u' u) 0) as [E|E].
    + apply bcmp_eq in E as ->. rewrite bool_decide_true by done. rewrite (ikey_app u t') at 1. rewrite to_nat_zlen, drop_app_length.
      rewrite Fixed64_roundtrip by done. rbind. apply Forall_app in Hty as [_ Hty]. apply Forall_cons in Hty as [(s' & ty & Et & Hs') _].
      cbn [fst snd] in Et. subst t'. rewrite tag_type. replace (zlen u + 8) with (zlen (ikey (u, tag s' ty))) by (by rewrite zlen_ikey).
      rewrite to_nat_zlen, drop_app_length. destruct ty; cbn -[prefixed EncodeVarint32]; [done|].
      pose proof (prefixed_app v [] ltac:(done)) as Hv'. rewrite app_nil_r in Hv'. by rewrite Hv'.
    + rewrite bool_decide_false; [done|]. intros ->. by rewrite bcmp_refl in E.
Qed.

(** ** A history of writes *)

(** A put, or with no value a deletion, under its sequence number. *)
Record write := { w_seq : Z; w_key : bytes; w_val : option bytes }.
Definition w_type (w : write) : ValueType := match w_val w with Some _ => kTypeValue | None => kTypeDeletion end.
Definition entry_of (w : write) : entry := ((w_key w, tag (w_seq w) (w_type w)), default [] (w_val w)).
Definition write_ok (w : write) : Prop :=
  0 ≤ w_seq w < 2 ^ 56 ∧ zlen (w_key w) < 2 ^ 31 - 8 ∧ zlen (default [] (w_val w)) < 2 ^ 32.

Fixpoint fill (H : list write) (t : table) : result table :=
  match H with
  | [] => Ok t
  | w :: H => t ← Add (w_seq w) (w_type w) (w_key w) (default [] (w_val w)) t; fill H t
  end.

(** The last write to a key up to a sequence number: its value, [Some None]
    for a deletion, [None] when there is no such write. *)
Definition recall (H : list write) (u : bytes) (s : Z) : option (option bytes) :=
  w_val <$> last (filter (λ w, w_key w = u ∧ w_seq w ≤ s) H).

Definition increasing (H : list write) : Prop := StronglySorted (λ a b, w_seq a < w_seq b) H.

(** The newest entry of a key up to a sequence number, among entries in any
    order. *)
Definition newest (L : list entry) (u : bytes) (s : Z) (e : entry) : Prop :=
  e ∈ L ∧ e.1.1 = u ∧ e.1.2 ≤ tag s kTypeValue ∧ ∀ e', e' ∈ L → e'.1.1 = u → e'.1.2 ≤ tag s kTypeValue → e'.1.2 ≤ e.1.2.
Definition absent (L : list entry) (u : bytes) (s : Z) : Prop := ∀ e, e ∈ L → e.1.1 = u → tag s kTypeValue < e.1.2.

#[global] Instance entry_order : KeyOrder (λ a b : entry, icmp a.1 b.1).
Proof. split; intros; [apply icmp_sym|by apply (ko_trans (cmp := icmp) _ b.1)]. Qed.

Lemma entry_of_ok w : write_ok w → entry_ok (entry_of w) ∧ typed (entry_of w).
Proof.
  intros (Hs & Hk & Hv). split; [split; [split; [done|by apply tag_range]|done]|]. by exists (w_seq w), (w_type w).
Qed.

Lemma tag_le s t s' : tag s t ≤ tag s' kTypeValue ↔ s ≤ s'.
Proof. unfold tag. destruct t; cbn; lia. Qed.
Lemma tag_lt s t s' t' : s < s' → tag s t < tag s' t'.
Proof. unfold tag. destruct t, t'; cbn; lia. Qed.

(** Where a key with a new tag belongs. *)
Lemma fresh_split t L k : contains t L → (∀ e, e ∈ L → e.1 ≠ k) →
  ∃ L1 L2, L = L1 ++ L2 ∧ Forall (λ e, icmp e.1 k < 0) L1 ∧ Forall (λ e, 0 < icmp e.1 k) L2.
Proof.
  intros Ht Hn. destruct (sorted_split (cmp := λ a b : entry, icmp a.1 b.1) L (k, []) (sorted_blocks t L Ht)) as (L1 & L2 & -> & H1 & H2).
  exists L1, L2. split; [done|]. split; [done|]. rewrite Forall_forall in H2 |- *. intros e He. pose proof (H2 e He) as Hc. cbn in Hc.
  assert (icmp e.1 k ≠ 0); [|lia]. rewrite icmp_eq. apply Hn. set_solver.
Qed.

Lemma fill_ok H : ∀ t L, contains t L → Forall typed L → Forall write_ok H → increasing H →
  (∀ w e, w ∈ H → e ∈ L → e.1.2 < tag (w_seq w) (w_type w)) →
  ∃ t' L', fill H t = Ok t' ∧ contains t' L' ∧ Forall typed L' ∧ L' ≡ₚ (entry_of <$> H) ++ L.
Proof.
  induction H as [|w H IH]; intros t L Ht Hty Hok Hinc Hlt; cbn [fill]; [by exists t, L|].
  apply Forall_cons in Hok as [Hw Hok]. inversion Hinc as [|? ? Hinc' Hafter]; subst. destruct (entry_of_ok w Hw) as [Hew Htw].
  destruct (fresh_split t L (entry_of w).1 Ht) as (L1 & L2 & -> & H1 & H2).
  { intros e He E. pose proof (Hlt w e ltac:(set_solver) He) as Hc. rewrite E in Hc. cbn in Hc. lia. }
  destruct (Add_ok t L1 L2 (w_seq w) (w_type w) (w_key w) (default [] (w_val w))) as (t1 & -> & Ht1); [done|apply Hw|done..|]. rbind.
  destruct (IH t1 (L1 ++ entry_of w :: L2)) as (t' & L' & -> & Ht' & Hty' & HP); [done| |done|done| |].
  - rewrite Forall_app in Hty |- *. destruct Hty. split; [done|]. by constructor.
  - intros w' e Hw' He. rewrite Forall_forall in Hafter. apply elem_of_app in He as [He|[->|He]%elem_of_cons]; [apply Hlt; set_solver| |apply Hlt; set_solver].
    cbn. apply tag_lt. by apply Hafter.
  - exists t', L'. split; [done|]. split; [done|]. split; [done|]. rewrite HP. cbn. rewrite <- !Permutation_middle. done.
Qed.

(** The entry at which a search for a key and a number stops. *)
Lemma found_newest L L1 L2 u s : StronglySorted (λ a b : entry, icmp a.1 b.1 < 0) L → L = L1 ++ L2 →
  Forall (λ e, icmp e.1 (u, tag s kTypeValue) < 0) L1 → Forall (λ e, 0 ≤ icmp e.1 (u, tag s kTypeValue)) L2 →
  (∃ e rest, L2 = e :: rest ∧ newest L u s e) ∨ (absent L u s ∧ ∀ e rest, L2 = e :: rest → e.1.1 ≠ u).
Proof.
  intros Hs -> H1 H2. rewrite Forall_forall in H1, H2.
  assert (∀ e, e ∈ L1 ++ L2 → e.1.1 = u → e.1.2 ≤ tag s kTypeValue → e ∈ L2) as Hin.
  { intros e [He|He]%elem_of_app Hu Ht; [|done]. exfalso. pose proof (H1 e He) as Hc. unfold icmp in Hc. cbn in Hc.
    rewrite Hu, bcmp_refl in Hc. cbn in Hc. destruct (Z.ltb_spec (tag s kTypeValue) e.1.2), (Z.ltb_spec e.1.2 (tag s kTypeValue)); lia. }
  assert (∀ e, e ∈ L2 → e.1.1 = u → e.1.2 ≤ tag s kTypeValue) as Hle.
  { intros e He Hu. pose proof (H2 e He) as Hc. unfold icmp in Hc. cbn in Hc. rewrite Hu, bcmp_refl in Hc. cbn in Hc.
    destruct (Z.ltb_spec (tag s kTypeValue) e.1.2); lia. }
  apply StronglySorted_app in Hs as (_ & _ & Hs2). destruct L2 as [|e rest].
  { right. split; [|done]. intros e He Hu. destruct (Z.lt_ge_cases (tag s kTypeValue) e.1.2); [done|]. pose proof (Hin e He Hu). set_solver. }
  inversion Hs2 as [|? ? _ Hrest]; subst. rewrite Forall_forall in Hrest. destruct (decide (e.1.1 = u)) as [Hu|Hu].
  - left. exists e, rest. split; [done|]. split; [set_solver|]. split; [done|]. split; [apply Hle; set_solver|].
    intros e' He' Hu' Ht'. pose proof (Hin e' He' Hu' Ht') as [->|Hr]%elem_of_cons; [done|]. pose proof (Hrest e' Hr) as Hc.
    unfold icmp in Hc. rewrite Hu, Hu', bcmp_refl in Hc. cbn in Hc. destruct (Z.ltb_spec e'.1.2 e.1.2), (Z.ltb_spec e.1.2 e'.1.2); lia.
  - right. split; [|intros ? ? [= <- <-]; done]. intros e' He' Hu'. destruct (Z.lt_ge_cases (tag s kTypeValue) e'.1.2); [done|]. exfalso.
    pose proof (Hin e' He' Hu' ltac:(lia)) as [->|Hr]%elem_of_cons; [done|]. pose proof (Hrest e' Hr) as Hc. pose proof (H2 e ltac:(set_solver)) as He.
    unfold icmp in Hc, He. rewrite Hu' in Hc. cbn in He. destruct (Z.eqb_spec (bcmp e.1.1 u) 0) as [E%bcmp_eq|]; [done|]. lia.
Qed.


(** A write is the last one of its filtered history when it is the newest. *)
Lemma recall_newest H L u s e : increasing H → L ≡ₚ (entry_of <$> H) → newest L u s e →
  ∃ w, w ∈ H ∧ e = entry_of w ∧ recall H u s = Some (w_val w).
Proof.
  intros Hinc HP (He & Hu & Ht & Hmax). rewrite HP in He. apply list_elem_of_fmap in He as (w & -> & Hw). exists w. split; [done|]. split; [done|].
  unfold recall. cbn in Hu, Ht. apply tag_le in Ht. apply list_elem_of_split in Hw as (H1 & H2 & ->).
  rewrite filter_app, filter_cons_True by done. assert (filter (λ w, w_key w = u ∧ w_seq w ≤ s) H2 = []) as ->.
  - apply filter_none. apply Forall_forall. intros w' Hw' [Hu' Hs']. apply StronglySorted_app in Hinc as (_ & _ & Hinc).
    inversion Hinc as [|? ? _ Ha]; subst. rewrite Forall_forall in Ha. pose proof (Ha w' Hw') as Hlt.
    pose proof (Hmax (entry_of w')) as Hm. cbn in Hm. pose proof (tag_lt (w_seq w) (w_type w) (w_seq w') (w_type w') Hlt).
    assert (entry_of w' ∈ L) by (rewrite HP; apply list_elem_of_fmap_2; set_solver). rewrite tag_le in Hm. lia || (specialize (Hm ltac:(done) Hu' Hs'); lia).
  - by rewrite last_snoc.
Qed.

Lemma recall_absent H L u s : L ≡ₚ (entry_of <$> H) → absent L u s → recall H u s = None.
Proof.
  intros HP Ha. unfold recall. rewrite filter_none; [done|]. apply Forall_forall. intros w Hw [Hu Hs].
  pose proof (Ha (entry_of w)) as Hc. cbn in Hc. rewrite HP in Hc. specialize (Hc ltac:(by apply list_elem_of_fmap_2) Hu).
  apply (tag_le _ (w_type w)) in Hs. lia.
Qed.

(** C14: the memtable remembers. After any history of puts and deletions under
    increasing sequence numbers, a lookup of a key at a sequence number gives
    the last write to the key up to that number: its value, a deletion, or
    nothing when there is none. *)
Theorem memtable_remembers H : Forall write_ok H → increasing H →
  ∃ t, fill H MemTable_new = Ok t ∧
    ∀ u s lk, 0 ≤ s < 2 ^ 56 → zlen u < 2 ^ 31 - 8 → LookupKey_new u s = Ok lk → Get lk t = Ok (recall H u s).
Proof.
  intros Hok Hinc. destruct (fill_ok H MemTable_new []) as (t & L & E & Ht & Hty & HP); [apply new_contains|done..|set_solver|].
  rewrite app_nil_r in HP. exists t. split; [done|]. intros u s lk Hs Hu Hlk. pose proof (sorted_blocks t L Ht) as Hsort.
  destruct (sorted_split (cmp := λ a b : entry, icmp a.1 b.1) L ((u, tag s kTypeValue), []) Hsort) as (L1 & L2 & EL & H1 & H2).
  rewrite EL in Ht, Hty. rewrite (Get_ok t L1 L2 u s lk Ht Hty Hs Hu H1 H2 Hlk). f_equal.
  destruct (found_newest L L1 L2 u s Hsort EL H1 H2) as [(e & rest & -> & Hn)|[Ha Hr]].
  - destruct (recall_newest H L u s e Hinc HP Hn) as (w & Hw & -> & ->). destruct Hn as (_ & Hu' & _). cbn in Hu' |- *.
    rewrite bool_decide_true, tag_type by done. unfold w_type. by destruct (w_val w).
  - rewrite (recall_absent H L u s HP Ha). destruct L2 as [|[[u' t'] v] rest]; [done|]. cbn. rewrite bool_decide_false; [done|]. by apply (Hr _ _ eq_refl).
Qed.

(** ** The iterator *)

Definition mem_at (m : MemTableIterator) (L : list entry) (p : option nat) : Prop :=
  ∃ full, repr block_cmp block_ok (table_ m) full (entry_block <$> L) ∧ Forall entry_ok L ∧
          at_place full (entry_block <$> L) (iter_ m) p.

Lemma NewIterator_at t L : contains t L → mem_at (NewIterator t) L None.
Proof. intros [[full R] Hok]. by exists full. Qed.

(** A step of the skip list's iterator is one of this iterator. *)
Lemma move_at m (L : list entry) full r q : repr block_cmp block_ok (table_ m) full (entry_block <$> L) → Forall entry_ok L →
  (∃ it, r = Ok it ∧ at_place full (entry_block <$> L) it q) → ∃ m', move m r = Ok m' ∧ mem_at m' L q.
Proof. intros R Hok (it & -> & Hat). eexists. split; [done|]. by exists full. Qed.

Lemma block_at m L i k v : mem_at m L (Some i) → L !! i = Some (k, v) →
  entry_ok (k, v) ∧ SkipList.iter_key (table_ m) (iter_ m) = Ok (entry_block (k, v)).
Proof.
  intros (full & R & Hok & Hat) Hi. rewrite Forall_forall in Hok. split; [apply Hok; by eapply list_elem_of_lookup_2|].
  destruct (iter_key_ok _ _ _ _ _ R _ _ Hat) as (b & Hb & ->). rewrite list_lookup_fmap, Hi in Hb. by injection Hb as <-.
Qed.

#[global] Instance mem_laws : IterLaws ikey icmp key_ok MemTableIterator mem_at.
Proof.
  split.
  - intros m L i (full & _ & _ & [Hi _]). by rewrite length_fmap in Hi.
  - intros m L [i|] (full & R & _ & Hat); cbn in *; [|by rewrite Hat]. destruct Hat as [Hi Hat].
    destruct (tail_facts _ _ _ _ _ R) as (ch & -> & _ & _ & Hl). cbn in Hat. destruct (lookup_lt_is_Some_2 ch i) as [e He]; [lia|].
    rewrite Hat, He. by rewrite !bool_decide_true by done.
  - intros m L i k v Hat Hi. destruct (block_at m L i k v Hat Hi) as [[Hk _] E]. cbn. unfold iterator_key. rewrite E. rbind.
    unfold entry_block. by rewrite prefixed_block.
  - intros m L i k v Hat Hi. destruct (block_at m L i k v Hat Hi) as [[Hk Hv] E]. cbn. unfold iterator_value. rewrite E. rbind.
    unfold entry_block. rewrite prefixed_block by done. rbind. cbn [snd]. pose proof (prefixed_app v [] Hv) as Hp. rewrite app_nil_r in Hp. by rewrite Hp.
  - intros m L i (full & R & Hok & Hat). apply (move_at m L full _ _ R Hok). pose proof (iter_Next_ok _ _ _ _ _ R _ _ Hat) as Hn. by rewrite length_fmap in Hn.
  - intros m L i (full & R & Hok & Hat). apply (move_at m L full _ _ R Hok). by apply (iter_Prev_ok _ _ _ KeyComparator_ok _ _ _ R).
  - intros m L p k L1 L2 (full & R & Hok & Hat) Hk -> H1 H2. apply (move_at m _ full _ _ R Hok). pose proof (ikey_short k Hk).
    assert (EncodeKey (ikey k) = key_block k []) as ->.
    { unfold EncodeKey, PutVarint32, key_block. rewrite u32_small by zlia. by rewrite app_nil_r. }
    destruct (iter_Seek_ok _ _ _ KeyComparator_ok _ _ _ R (key_block k []) (entry_block <$> L1) (entry_block <$> L2)) as (it & E & Hit).
    + by eexists _, _.
    + by rewrite fmap_app.
    + apply Forall_app in Hok as [Hok _]. by apply (blocks_cmp (λ z, z < 0)) with (k := k); [|apply block_key_ok|].
    + apply Forall_app in Hok as [_ Hok]. by apply (blocks_cmp (λ z, 0 ≤ z)) with (k := k); [|apply block_key_ok|].
    + exists it. split; [done|]. by rewrite !length_fmap in Hit.
  - intros m L p (full & R & Hok & Hat). apply (move_at m L full _ _ R Hok). pose proof (iter_SeekToFirst_ok _ _ _ _ _ R) as Hn. by rewrite length_fmap in Hn.
  - intros m L p (full & R & Hok & Hat). apply (move_at m L full _ _ R Hok). pose proof (iter_SeekToLast_ok _ _ _ KeyComparator_ok _ _ _ R) as Hn. by rewrite length_fmap in Hn.
  - done.
Qed.
