(* ===== verification/DbIter.v ===== *)
(** * The iterator over user keys (pack/leveldb/db/db_iter.cc)

    [DBIter] runs over the internal entries of a database, through any
    iterator that has the interface, and shows for each user key its newest
    value up to a sequence number. The loops take fuel; more than the number
    of entries is enough. *)

From S2P Require Import Prelude Cstd Cmem LevelDb Coding Status DbFormat Iter.

Module DbIter.

Inductive Direction := kForward | kReverse.
#[global] Instance Direction_eq_dec : EqDecision Direction.
Proof. solve_decision. Defined.

Section dbiter.
Context {I : Type} `{Iter I} (fuel : nat).

Record DBIter := {
  iter_ : I;
  sequence_ : Z;
  status_ : Status;
  saved_key_ : bytes;
  saved_value_ : bytes;
  direction_ : Direction;
  valid_ : bool
}.

Definition NewDBIterator (it : I) (s : Z) : DBIter :=
  {| iter_ := it; sequence_ := s; status_ := sOK; saved_key_ := []; saved_value_ := []; direction_ := kForward; valid_ := false |}.

Definition with_iter (it : I) (d : DBIter) : DBIter :=
  {| iter_ := it; sequence_ := sequence_ d; status_ := status_ d; saved_key_ := saved_key_ d; saved_value_ := saved_value_ d;
     direction_ := direction_ d; valid_ := valid_ d |}.
Definition with_saved (k v : bytes) (d : DBIter) : DBIter :=
  {| iter_ := iter_ d; sequence_ := sequence_ d; status_ := status_ d; saved_key_ := k; saved_value_ := v;
     direction_ := direction_ d; valid_ := valid_ d |}.
Definition SaveKey (k : bytes) (d : DBIter) : DBIter := with_saved k (saved_value_ d) d.
Definition ClearSavedValue (d : DBIter) : DBIter := with_saved (saved_key_ d) [] d.
Definition with_direction (x : Direction) (d : DBIter) : DBIter :=
  {| iter_ := iter_ d; sequence_ := sequence_ d; status_ := status_ d; saved_key_ := saved_key_ d; saved_value_ := saved_value_ d;
     direction_ := x; valid_ := valid_ d |}.
Definition with_valid (v : bool) (d : DBIter) : DBIter :=
  {| iter_ := iter_ d; sequence_ := sequence_ d; status_ := status_ d; saved_key_ := saved_key_ d; saved_value_ := saved_value_ d;
     direction_ := direction_ d; valid_ := v |}.
Definition corrupted (d : DBIter) : DBIter :=
  {| iter_ := iter_ d; sequence_ := sequence_ d; status_ := Corruption (str "corrupted internal key in DBIter"); saved_key_ := saved_key_ d; saved_value_ := saved_value_ d;
     direction_ := direction_ d; valid_ := valid_ d |}.

Definition key (d : DBIter) : result bytes :=
  if valid_ d then match direction_ d with kForward => k ← it_key (iter_ d); ExtractUserKey k | kReverse => Ok (saved_key_ d) end
  else Fault AssertFailed.
Definition value (d : DBIter) : result bytes :=
  if valid_ d then match direction_ d with kForward => it_value (iter_ d) | kReverse => Ok (saved_value_ d) end
  else Fault AssertFailed.

Definition status (d : DBIter) : Status := if ok (status_ d) then it_status (iter_ d) else status_ d.

(** [ParseKey]. *)
Definition ParseKey (d : DBIter) : result (option ParsedInternalKey * DBIter) :=
  k ← it_key (iter_ d);
  p ← ParseInternalKey k;
  Ok (match p with Some ik => (Some ik, d) | None => (None, corrupted d) end).

(** [FindNextUserEntry(skipping, &saved_key_)]. *)
Fixpoint FindNextUserEntry (n : nat) (skipping : bool) (d : DBIter) : result DBIter :=
  match n with
  | O => Fault AssertFailed
  | S n =>
      '(p, d) ← ParseKey d;
      let go_on skipping d :=
        it ← it_Next (iter_ d);
        let d := with_iter it d in
        if it_Valid it then FindNextUserEntry n skipping d else Ok (with_valid false (SaveKey [] d)) in
      match p with
      | None => go_on skipping d
      | Some ikey =>
          if sequence ikey <=? sequence_ d then
            match type ikey with
            | kTypeDeletion => go_on true (SaveKey (user_key ikey) d)
            | kTypeValue =>
                hidden ← (if skipping then r ← Slice_compare (user_key ikey) (saved_key_ d); Ok (r <=? 0) else Ok false);
                if (hidden : bool) then go_on skipping d else Ok (with_valid true (SaveKey [] d))
            end
          else go_on skipping d
      end
  end.

(** The end of [Next]: everything up to the current key is skipped. *)
Definition skip_current (d : DBIter) : result DBIter :=
  k ← it_key (iter_ d);
  u ← ExtractUserKey k;
  FindNextUserEntry fuel true (SaveKey u d).

Definition Next (d : DBIter) : result DBIter :=
  if negb (valid_ d) then Fault AssertFailed
  else
    match direction_ d with
    | kReverse =>
        it ← (if it_Valid (iter_ d) then it_Next (iter_ d) else it_SeekToFirst (iter_ d));
        let d := with_iter it (with_direction kForward d) in
        if negb (it_Valid it) then Ok (SaveKey [] (with_valid false d)) else skip_current d
    | kForward => skip_current d
    end.

(** [FindPrevUserEntry]: the loop, and the last type it saw. *)
Fixpoint prev_loop (n : nat) (value_type : ValueType) (d : DBIter) : result (ValueType * DBIter) :=
  match n with
  | O => Fault AssertFailed
  | S n =>
      '(p, d) ← ParseKey d;
      let go_on value_type d :=
        it ← it_Prev (iter_ d);
        let d := with_iter it d in
        if it_Valid it then prev_loop n value_type d else Ok (value_type, d) in
      match p with
      | None => go_on value_type d
      | Some ikey =>
          if sequence ikey <=? sequence_ d then
            smaller ← (if bool_decide (value_type ≠ kTypeDeletion) then r ← Slice_compare (user_key ikey) (saved_key_ d); Ok (r <? 0) else Ok false);
            if (smaller : bool) then Ok (value_type, d)
            else
              match type ikey with
              | kTypeDeletion => go_on kTypeDeletion (with_saved [] [] d)
              | kTypeValue =>
                  raw_value ← it_value (iter_ d);
                  k ← it_key (iter_ d);
                  u ← ExtractUserKey k;
                  go_on kTypeValue (with_saved u raw_value d)
              end
          else go_on value_type d
      end
  end.

Definition FindPrevUserEntry (d : DBIter) : result DBIter :=
  if bool_decide (direction_ d = kReverse) then
    '(value_type, d) ← (if it_Valid (iter_ d) then prev_loop fuel kTypeDeletion d else Ok (kTypeDeletion, d));
    Ok (match value_type with
        | kTypeDeletion => with_direction kForward (with_saved [] [] (with_valid false d))
        | kTypeValue => with_valid true d
        end)
  else Fault AssertFailed.

(** The loop of [Prev] that leaves the entries of the current key; [false]
    when there is nothing before them. *)
Fixpoint leave_key (n : nat) (d : DBIter) : result (bool * DBIter) :=
  match n with
  | O => Fault AssertFailed
  | S n =>
      it ← it_Prev (iter_ d);
      let d := with_iter it d in
      if negb (it_Valid it) then Ok (false, d)
      else
        k ← it_key it;
        u ← ExtractUserKey k;
        r ← Slice_compare u (saved_key_ d);
        if r <? 0 then Ok (true, d) else leave_key n d
  end.

Definition Prev (d : DBIter) : result DBIter :=
  if negb (valid_ d) then Fault AssertFailed
  else
    match direction_ d with
    | kForward =>
        if negb (it_Valid (iter_ d)) then Fault AssertFailed
        else
          k ← it_key (iter_ d);
          u ← ExtractUserKey k;
          '(more, d) ← leave_key fuel (SaveKey u d);
          if (more : bool) then FindPrevUserEntry (with_direction kReverse d)
          else Ok (ClearSavedValue (SaveKey [] (with_valid false d)))
    | kReverse => FindPrevUserEntry d
    end.

Definition Seek (target : bytes) (d : DBIter) : result DBIter :=
  let d := ClearSavedValue (with_direction kForward d) in
  k ← AppendInternalKey [] {| user_key := target; sequence := sequence_ d; type := kValueTypeForSeek |};
  it ← it_Seek k (iter_ d);
  let d := with_iter it (SaveKey k d) in
  if it_Valid it then FindNextUserEntry fuel false d else Ok (with_valid false d).

Definition SeekToFirst (d : DBIter) : result DBIter :=
  let d := ClearSavedValue (with_direction kForward d) in
  it ← it_SeekToFirst (iter_ d);
  let d := with_iter it d in
  if it_Valid it then FindNextUserEntry fuel false d else Ok (with_valid false d).

Definition SeekToLast (d : DBIter) : result DBIter :=
  let d := ClearSavedValue (with_direction kReverse d) in
  it ← it_SeekToLast (iter_ d);
  FindPrevUserEntry (with_iter it d).

#[global] Instance DBIter_Iter : Iter DBIter := {
  it_Valid := valid_; it_key := key; it_value := value; it_Next := Next; it_Prev := Prev; it_Seek := Seek;
  it_SeekToFirst := SeekToFirst; it_SeekToLast := SeekToLast; it_status := status
}.
End dbiter.
End DbIter.
