(* ===== verification/DbIterSpec.v ===== *)
(** * What the iterator over user keys shows (theorems about DbIter.v)

    Over the internal entries [L], in order, at the sequence number [s], the
    iterator shows the user keys whose newest entry up to [s] is a value, in
    order and with that value. *)

From stdpp Require Import sorting.
From S2P Require Import Prelude Cstd Cmem LevelDb Coding Status DbFormat Iter SkipList SkipListSpec MemTable DbIter.
Import DbIter.

(** ** The visible pairs *)

Definition seen (s : Z) (e : entry) : bool := e.1.2 <=? tag s kTypeValue.
Definition is_value (e : entry) : bool := Z.land e.1.2 255 =? 1.

(** The last user key of which an entry was seen, and what is shown of an
    entry behind it. *)
Definition step (s : Z) (sk : option bytes) (e : entry) : option bytes := if seen s e then Some e.1.1 else sk.
Definition emit (s : Z) (sk : option bytes) (e : entry) : list (bytes * bytes) :=
  if seen s e && negb (bool_decide (sk = Some e.1.1)) && is_value e then [(e.1.1, e.2)] else [].
Fixpoint view (s : Z) (sk : option bytes) (L : list entry) : list (bytes * bytes) :=
  match L with
  | [] => []
  | e :: L => emit s sk e ++ view s (step s sk e) L
  end.
Fixpoint skip_after (s : Z) (sk : option bytes) (L : list entry) : option bytes :=
  match L with [] => sk | e :: L => skip_after s (step s sk e) L end.

Lemma view_app s sk L1 L2 : view s sk (L1 ++ L2) = view s sk L1 ++ view s (skip_after s sk L1) L2.
Proof. revert sk. induction L1 as [|e L1 IH]; intros sk; cbn; [done|]. by rewrite IH, app_assoc. Qed.

Lemma skip_after_app s sk L1 L2 : skip_after s sk (L1 ++ L2) = skip_after s (skip_after s sk L1) L2.
Proof. revert sk. induction L1 as [|e L1 IH]; intros sk; cbn; [done|]. apply IH. Qed.

(** What was seen before is without effect on other keys. *)
Lemma view_skip s sk sk' L : (∀ e, e ∈ L → sk ≠ Some e.1.1 ∧ sk' ≠ Some e.1.1) → view s sk L = view s sk' L.
Proof.
  revert sk sk'. induction L as [|e L IH]; intros sk sk' Hs; cbn; [done|]. destruct (Hs e) as [H1 H2]; [set_solver|].
  unfold emit, step. rewrite !(bool_decide_eq_false_2 (_ = Some e.1.1)) by done. f_equal. destruct (seen s e); [done|]. apply IH. set_solver.
Qed.

Lemma view_in s sk L p : p ∈ view s sk L → ∃ e, e ∈ L ∧ seen s e = true ∧ is_value e = true ∧ p = (e.1.1, e.2).
Proof.
  revert sk. induction L as [|e L IH]; intros sk; cbn; [by intros ?%not_elem_of_nil|]. intros [Hp|Hp]%elem_of_app.
  - unfold emit in Hp. destruct (seen s e) eqn:E1, (is_value e) eqn:E2, (bool_decide _); cbn in Hp; try by apply not_elem_of_nil in Hp.
    apply list_elem_of_singleton in Hp. exists e. split_and!; [set_solver|done..].
  - destruct (IH _ Hp) as (e' & ? & ?). exists e'. split; [set_solver|done].
Qed.

Lemma skip_after_in s sk L k : skip_after s sk L = Some k → sk = Some k ∨ ∃ e, e ∈ L ∧ seen s e = true ∧ e.1.1 = k.
Proof.
  revert sk. induction L as [|e L IH]; intros sk; cbn; [by left|]. intros [Hk|(e' & ? & ?)]%IH; [|right; exists e'; split; [set_solver|done]].
  unfold step in Hk. destruct (seen s e) eqn:E; [|by left]. right. exists e. injection Hk as <-. split; [set_solver|done].
Qed.

(** The entries of a database: sorted, with tags and lengths that fit. *)
Record entries_ok (L : list entry) : Prop := {
  e_sorted : StronglySorted (λ a b : entry, icmp a.1 b.1 < 0) L;
  e_typed : Forall typed L;
  e_keys : Forall (λ e : entry, key_ok e.1) L
}.

Lemma user_le (a b : entry) : icmp a.1 b.1 < 0 → bcmp a.1.1 b.1.1 ≤ 0.
Proof. unfold icmp. destruct (Z.eqb_spec (bcmp a.1.1 b.1.1) 0); lia. Qed.

Lemma sorted_users L1 (e : entry) L2 : StronglySorted (λ a b : entry, icmp a.1 b.1 < 0) (L1 ++ e :: L2) →
  (∀ a, a ∈ L1 → bcmp a.1.1 e.1.1 ≤ 0 ∧ icmp a.1 e.1 < 0) ∧ (∀ b, b ∈ L2 → bcmp e.1.1 b.1.1 ≤ 0 ∧ icmp e.1 b.1 < 0).
Proof.
  intros (H12 & _ & H2)%StronglySorted_app. inversion H2 as [|? ? _ Ha]; subst. rewrite Forall_forall in Ha. split.
  - intros a Hin. assert (icmp a.1 e.1 < 0) as Hc by (apply H12; set_solver). split; [by apply user_le|done].
  - intros b Hin. pose proof (Ha b Hin). split; [by apply user_le|done].
Qed.

(** ** The loops *)

Section dbiter.
Context {I : Type} `{Iter I} {At : I → list entry → option nat → Prop} `{!IterLaws ikey icmp key_ok I At}.
Context (fuel : nat) (s : Z) (L : list entry).
Context (Hs : 0 ≤ s < 2 ^ 56) (HL : entries_ok L) (Hfuel : (length L < fuel)%nat).

Lemma entry_in e : e ∈ L → ∃ s' t, e.1 = (e.1.1, tag s' t) ∧ 0 ≤ s' < 2 ^ 56 ∧ key_ok e.1 ∧ seen s e = (s' <=? s) ∧ is_value e = bool_decide (t = kTypeValue).
Proof.
  intros He. destruct HL as [_ Ht Hk]. rewrite Forall_forall in Ht, Hk. destruct (Ht e He) as (s' & t & Et & Hs'). exists s', t.
  destruct e as [[u g] v]. cbn in *. subst g. split; [done|]. split; [done|]. split; [by apply Hk in He|]. unfold seen, is_value. cbn. split.
  - destruct (Z.leb_spec (tag s' t) (tag s kTypeValue)) as [Hc|Hc], (Z.leb_spec s' s) as [Hd|Hd]; try done; rewrite ?tag_le in Hc; [lia|].
    apply (tag_le s' t s) in Hd. lia.
  - rewrite tag_type. by destruct t.
Qed.

(** The iterator stands at an entry. *)
Lemma parse_at (d : DBIter) L1 e L2 : L = L1 ++ e :: L2 → At (iter_ d) L (Some (length L1)) →
  ∃ s' t, ParseKey d = Ok (Some {| user_key := e.1.1; sequence := s'; type := t |}, d) ∧ it_key (iter_ d) = Ok (ikey e.1) ∧
    it_value (iter_ d) = Ok e.2 ∧ ExtractUserKey (ikey e.1) = Ok e.1.1 ∧ zlen e.1.1 < 2 ^ 31 - 8 ∧
    seen s e = (s' <=? s) ∧ is_value e = bool_decide (t = kTypeValue).
Proof.
  intros EL Hat. destruct (entry_in e) as (s' & t & Ee & Hs' & Hk & H1 & H2); [rewrite EL; set_solver|]. exists s', t.
  assert (L !! length L1 = Some (e.1, e.2)) as Hi by (rewrite EL, list_lookup_middle by done; by destruct e).
  unfold ParseKey. rewrite (at_key _ _ _ _ _ _ _ _ Hat Hi), (at_value _ _ _ _ _ _ _ _ Hat Hi). rbind.
  assert (ParseInternalKey (ikey e.1) = Ok (Some {| user_key := e.1.1; sequence := s'; type := t |})) as ->.
  { rewrite Ee. apply parse_ikey; [done|]. apply Hk. }
  rbind. rewrite ExtractUserKey_ikey. split_and!; try done. apply Hk.
Qed.

Lemma next_at_entry (d : DBIter) L1 e L2 : L = L1 ++ e :: L2 → At (iter_ d) L (Some (length L1)) →
  ∃ it, it_Next (iter_ d) = Ok it ∧ it_Valid it = negb (bool_decide (L2 = [])) ∧
    (L2 = [] → At it L None) ∧ (L2 ≠ [] → At it L (Some (length (L1 ++ [e])))).
Proof.
  intros EL Hat. destruct (at_Next _ _ _ _ _ _ Hat) as (it & E & Hit). exists it. split; [done|].
  unfold place in Hit. rewrite EL, length_app in Hit. cbn in Hit. rewrite <- EL in Hit. rewrite (at_Valid _ _ _ _ _ _ Hit), length_app. cbn.
  destruct L2 as [|e' L2]; cbn in *.
  - rewrite decide_False in * by lia. by split_and!.
  - rewrite decide_True in * by lia. replace (length L1 + 1)%nat with (S (length L1)) by lia. by split_and!.
Qed.

(** The search from behind [L1], with [sk] seen before, ends at the first
    entry of [L2] that is shown, or behind the end. *)
Definition lands (sk : option bytes) (L1 L2 : list entry) (d : DBIter) : Prop :=
  sequence_ d = s ∧ direction_ d = kForward ∧
  ((∃ M1 e M2, L2 = M1 ++ e :: M2 ∧ view s sk M1 = [] ∧ emit s (skip_after s sk M1) e = [(e.1.1, e.2)] ∧ valid_ d = true ∧
      At (iter_ d) L (Some (length (L1 ++ M1)))) ∨
   (view s sk L2 = [] ∧ valid_ d = false ∧ At (iter_ d) L None)).

Lemma lands_cons sk L1 e L2 d : emit s sk e = [] → lands (step s sk e) (L1 ++ [e]) L2 d → lands sk L1 (e :: L2) d.
Proof.
  intros He (H1 & H2 & Hcase). split; [done|]. split; [done|]. destruct Hcase as [(M1 & e1 & M2 & -> & H3 & H4 & H5 & H6)|(H3 & H4 & H5)].
  - left. exists (e :: M1), e1, M2. split; [done|]. cbn. rewrite He, H3. rewrite <- app_assoc in H6. by split_and!.
  - right. cbn. by rewrite He, H3.
Qed.

Lemma lands_here sk L1 e L2 d : emit s sk e = [(e.1.1, e.2)] → sequence_ d = s → direction_ d = kForward →
  At (iter_ d) L (Some (length L1)) → lands sk L1 (e :: L2) (with_valid true (SaveKey [] d)).
Proof.
  intros He H1 H2 H3. split; [done|]. split; [done|]. left. exists [], e, L2. split_and!; try done. by rewrite app_nil_r.
Qed.

Lemma FindNext_ok L2 : ∀ n (skipping : bool) d L1, L = L1 ++ L2 → L2 ≠ [] → (length L2 ≤ n)%nat → At (iter_ d) L (Some (length L1)) →
  sequence_ d = s → direction_ d = kForward →
  (skipping = true → zlen (saved_key_ d) < 2 ^ 31 - 8 ∧ ∀ e, e ∈ L2 → bcmp (saved_key_ d) e.1.1 ≤ 0) →
  ∃ d', FindNextUserEntry n skipping d = Ok d' ∧ status_ d' = status_ d ∧
    lands (if skipping then Some (saved_key_ d) else None) L1 L2 d'.
Proof.
  induction L2 as [|e L2 IH]; intros n skipping d L1 EL Hne Hn Hat Hsq Hdir Hskip; [done|]. set (sk := if skipping then _ else _).
  destruct n as [|n]; [cbn in Hn; lia|]. cbn [FindNextUserEntry]. destruct (parse_at d L1 e L2 EL Hat) as (s' & t & -> & _ & _ & _ & Hlen & Hseen & Hval).
  rbind. cbn [sequence type user_key]. rewrite Hsq, <- Hseen. destruct (next_at_entry d L1 e L2 EL Hat) as (it & En & Ev & Hend & Hmore).
  assert (∀ (skipping' : bool) k' v', emit s sk e = [] → step s sk e = (if skipping' then Some k' else None) →
    (skipping' = true → zlen k' < 2 ^ 31 - 8 ∧ ∀ e, e ∈ L2 → bcmp k' e.1.1 ≤ 0) →
    ∃ d', (if it_Valid it then FindNextUserEntry n skipping' (with_iter it (with_saved k' v' d))
           else Ok (with_valid false (SaveKey [] (with_iter it (with_saved k' v' d))))) = Ok d' ∧ status_ d' = status_ d ∧ lands sk L1 (e :: L2) d') as Hgo.
  { intros skipping' k' v' He Hst Hk'. rewrite Ev. case_bool_decide as Hl; cbn [negb].
    - eexists. split; [done|]. split; [done|]. split; [done|]. split; [done|]. right. subst L2. cbn. rewrite He. auto.
    - destruct (IH n skipping' (with_iter it (with_saved k' v' d)) (L1 ++ [e])) as (d' & E' & Hd & Hlands);
        [by rewrite <- app_assoc|done|cbn in Hn; lia|by apply Hmore|done..|].
      exists d'. split; [exact E'|]. split; [done|]. apply lands_cons; [done|]. by rewrite Hst. }
  assert (with_saved (saved_key_ d) (saved_value_ d) d = d) as Hsame by (by destruct d).
  destruct (seen s e) eqn:Es.
  - destruct t; cbn in Hval.
    + change (iter_ (SaveKey e.1.1 d)) with (iter_ d). rewrite En. rbind. apply (Hgo true); [unfold emit; by rewrite Hval, andb_false_r|unfold step; by rewrite Es|].
      intros _. split; [done|]. intros b Hb. pose proof (e_sorted L HL) as Hso. rewrite EL in Hso. apply (proj2 (sorted_users _ _ _ Hso) b Hb).
    + destruct skipping.
      * destruct (Hskip eq_refl) as [Hkl Hge]. rewrite Slice_compare_ok by lia. rbind. pose proof (Hge e ltac:(set_solver)) as Hle.
        destruct (Z.leb_spec (bcmp e.1.1 (saved_key_ d)) 0) as [Hc|Hc].
        -- assert (saved_key_ d = e.1.1) as Eq. { apply bcmp_eq. rewrite bcmp_sym in Hc. lia. }
           rewrite En. rbind. rewrite <- Hsame. apply (Hgo true).
           ++ unfold emit, sk. rewrite Eq, bool_decide_true by done. by rewrite andb_false_r.
           ++ unfold step. rewrite Es. by rewrite Eq.
           ++ intros _. split; [done|]. set_solver.
        -- eexists. split; [done|]. split; [done|]. apply lands_here; try done. unfold emit. rewrite Es, Hval. cbn. rewrite bool_decide_false; [done|].
           unfold sk. intros [= Eq]. rewrite Eq, bcmp_refl in Hc. lia.
      * rbind. eexists. split; [done|]. split; [done|]. apply lands_here; try done. unfold emit. by rewrite Es, Hval.
  - rewrite En. rbind. rewrite <- Hsame. apply (Hgo skipping).
    + unfold emit. by rewrite Es.
    + unfold step. by rewrite Es.
    + intros Hk. destruct (Hskip Hk) as [? Hge]. split; [done|]. set_solver.
Qed.

(** ** Forward *)

Abbreviation V := (view s None L).

(** The iterator shows the [i]-th visible pair, or none. *)
Definition at_fwd (d : DBIter) (p : option nat) : Prop :=
  sequence_ d = s ∧ direction_ d = kForward ∧
  match p with
  | Some i => valid_ d = true ∧ ∃ L1 e L2, L = L1 ++ e :: L2 ∧ At (iter_ d) L (Some (length L1)) ∧ i = length (view s None L1) ∧
      emit s (skip_after s None L1) e = [(e.1.1, e.2)]
  | None => valid_ d = false ∧ ∃ q, At (iter_ d) L q
  end.

Lemma emit_seen sk e : emit s sk e = [(e.1.1, e.2)] → seen s e = true.
Proof. unfold emit. by destruct (seen s e). Qed.

Lemma at_fwd_pair d i : at_fwd d (Some i) → ∃ e : entry, V !! i = Some (e.1.1, e.2) ∧ key d = Ok e.1.1 ∧ value d = Ok e.2.
Proof.
  intros (_ & Hdir & Hv & L1 & e & L2 & EL & Hat & -> & He). exists e. destruct (parse_at d L1 e L2 EL Hat) as (s' & t & _ & Hk & Hval & Hu & _).
  unfold key, value. rewrite Hv, Hdir, Hk, Hval. rbind. rewrite Hu. split; [|done].
  rewrite EL at 1. rewrite view_app. cbn [view]. rewrite He. cbn [app]. by rewrite list_lookup_middle.
Qed.

(** Where a search lands, as a place among the visible pairs. *)
Lemma lands_fwd sk L1 L2 d : L = L1 ++ L2 → sk = skip_after s None L1 ∨ (∀ e, e ∈ L2 → sk ≠ Some e.1.1 ∧ skip_after s None L1 ≠ Some e.1.1) →
  lands sk L1 L2 d → at_fwd d (place (length V) (length (view s None L1))).
Proof.
  intros EL Hsk (H1 & H2 & Hcase). split; [done|]. split; [done|].
  assert (∀ M M', L2 = M ++ M' → view s sk M = view s (skip_after s None L1) M) as Hview.
  { intros M M' ->. destruct Hsk as [->|Hsk]; [done|]. apply view_skip. set_solver. }
  assert (length V = length (view s None L1) + length (view s sk L2))%nat as ->.
  { rewrite EL at 1. by rewrite view_app, <- (Hview L2 []), length_app by (by rewrite app_nil_r). }
  unfold place.
  destruct Hcase as [(M1 & e & M2 & E & H3 & H4 & H5 & H6)|(H3 & H4 & H5)].
  - assert (view s sk (M1 ++ [e]) = [(e.1.1, e.2)]) as Hone by (rewrite view_app, H3; cbn; by rewrite H4).
    rewrite decide_True. 2: { rewrite E. change (M1 ++ e :: M2) with (M1 ++ [e] ++ M2). rewrite app_assoc, view_app, Hone. cbn. lia. }
    split; [done|]. exists (L1 ++ M1), e, M2. split; [by rewrite EL, E, <- app_assoc|]. split; [done|].
    rewrite view_app, skip_after_app. rewrite <- (Hview M1 (e :: M2) E), H3, app_nil_r. split; [done|].
    rewrite (Hview (M1 ++ [e]) M2) in Hone by (by rewrite <- app_assoc). rewrite view_app, <- (Hview M1 (e :: M2) E), H3 in Hone. cbn in Hone.
    by rewrite app_nil_r in Hone.
  - rewrite H3. cbn. rewrite decide_False by lia. split; [done|]. eauto.
Qed.

Lemma skip_current_ok d L1 e L2 : L = L1 ++ e :: L2 → At (iter_ d) L (Some (length L1)) → sequence_ d = s → direction_ d = kForward → seen s e = true →
  ∃ d', skip_current fuel d = Ok d' ∧ status_ d' = status_ d ∧ at_fwd d' (place (length V) (length (view s None (L1 ++ [e])))).
Proof.
  intros EL Hat Hsq Hdir Hse. destruct (parse_at d L1 e L2 EL Hat) as (s' & t & _ & Hk & _ & Hu & Hlen & _). unfold skip_current. rewrite Hk. rbind.
  rewrite Hu. rbind. destruct (FindNext_ok (e :: L2) fuel true (SaveKey e.1.1 d) L1) as (d' & -> & Hst & Hl); try done.
  - rewrite EL, length_app in Hfuel. lia.
  - intros _. split; [done|]. pose proof (e_sorted L HL) as Hso. rewrite EL in Hso. destruct (sorted_users _ _ _ Hso) as [_ H2]. cbn.
    intros b [->|Hb]%elem_of_cons; [by rewrite bcmp_refl|by apply H2].
  - exists d'. split; [done|]. split; [done|]. cbn [saved_key_ SaveKey with_saved] in Hl. apply (lands_fwd (Some e.1.1) (L1 ++ [e]) L2).
    + by rewrite <- app_assoc.
    + left. rewrite skip_after_app. cbn. unfold step. by rewrite Hse.
    + destruct Hl as (H1 & H2 & Hcase). assert (emit s (Some e.1.1) e = []) as He.
      { unfold emit. rewrite bool_decide_true by done. by rewrite andb_false_r. }
      assert (step s (Some e.1.1) e = Some e.1.1) as Hstep by (unfold step; by destruct (seen s e)).
      split; [done|]. split; [done|]. destruct Hcase as [(M1 & e1 & M2 & E & H3 & H4 & H5 & H6)|(H3 & H4 & H5)].
      * left. destruct M1 as [|x M1]; cbn in E; injection E as <- E; [cbn in H4; by rewrite He in H4|]. exists M1, e1, M2. split; [done|].
        cbn in H3, H4. rewrite Hstep in H3, H4. apply app_nil in H3 as [_ H3]. split_and!; try done. by rewrite <- app_assoc.
      * right. cbn in H3. rewrite He, Hstep in H3. done.
Qed.

Lemma Next_fwd d i : at_fwd d (Some i) → ∃ d', Next fuel d = Ok d' ∧ status_ d' = status_ d ∧ at_fwd d' (place (length V) (S i)).
Proof.
  intros (Hsq & Hdir & Hv & L1 & e & L2 & EL & Hat & -> & He). unfold Next. rewrite Hv, Hdir. cbn [negb].
  destruct (skip_current_ok d L1 e L2) as (d' & -> & Hst & Hd'); try done; [by eapply emit_seen|]. exists d'. split; [done|]. split; [done|].
  rewrite view_app, length_app in Hd'. cbn in Hd'. rewrite He in Hd'. cbn in Hd'. by rewrite Nat.add_1_r in Hd'.
Qed.

Lemma SeekToFirst_ok d q : At (iter_ d) L q → sequence_ d = s →
  ∃ d', SeekToFirst fuel d = Ok d' ∧ status_ d' = status_ d ∧ at_fwd d' (place (length V) 0).
Proof.
  intros Hat Hsq. unfold SeekToFirst. cbn [iter_ ClearSavedValue with_saved with_direction].
  destruct (at_SeekToFirst _ _ _ _ _ _ Hat) as (it & -> & Hit). rbind.
  destruct (place_cases (length L) 0) as [[Hl Ep]|[Hl Ep]]; rewrite Ep in Hit; rewrite (at_Valid _ _ _ _ _ _ Hit).
  - rewrite bool_decide_true by done. destruct (FindNext_ok L fuel false (with_iter it (ClearSavedValue (with_direction kForward d))) []) as (d' & E' & Hst & Hd');
      [done|by intros ->; cbn in Hl; lia|lia|done..|]. exists d'. split; [exact E'|]. split; [done|]. by apply (lands_fwd None [] L); [|left|].
  - rewrite bool_decide_false by (by intros [? ?]). eexists. split; [done|]. split; [done|].
    assert (V = []) as -> by (by destruct L; [|cbn in Hl; lia]). split; [done|]. split; [done|]. split; [done|]. eauto.
Qed.

Lemma seek_parts target L1 L2 : L = L1 ++ L2 → Forall (λ e, icmp e.1 (target, tag s kTypeValue) < 0) L1 →
  Forall (λ e, 0 ≤ icmp e.1 (target, tag s kTypeValue)) L2 →
  (∀ e, e ∈ L1 → seen s e = true → bcmp e.1.1 target < 0) ∧ (∀ e, e ∈ L2 → 0 ≤ bcmp e.1.1 target).
Proof.
  intros EL H1 H2. rewrite Forall_forall in H1, H2. split; intros e He.
  - intros Hse. pose proof (H1 e He) as Hc. unfold seen in Hse. unfold icmp in Hc. cbn in Hc. destruct (Z.eqb_spec (bcmp e.1.1 target) 0); [|done].
    destruct (Z.ltb_spec (tag s kTypeValue) e.1.2), (Z.ltb_spec e.1.2 (tag s kTypeValue)); lia.
  - pose proof (H2 e He) as Hc. unfold icmp in Hc. cbn in Hc. destruct (Z.eqb_spec (bcmp e.1.1 target) 0); lia.
Qed.

Lemma Seek_ok d q target : At (iter_ d) L q → sequence_ d = s → zlen target < 2 ^ 31 - 8 →
  ∃ d' V1 V2, Seek fuel target d = Ok d' ∧ status_ d' = status_ d ∧ V = V1 ++ V2 ∧ Forall (λ p, bcmp p.1 target < 0) V1 ∧
    Forall (λ p, 0 ≤ bcmp p.1 target) V2 ∧ at_fwd d' (place (length V) (length V1)).
Proof.
  intros Hat Hsq Ht. unfold Seek. cbn [sequence_ ClearSavedValue with_saved with_direction]. unfold AppendInternalKey, kValueTypeForSeek.
  cbn [sequence type user_key]. rewrite Hsq, pack_ok by done. rbind. change (PutFixed64 ([] ++ target) (s * 256 + type_num kTypeValue)) with (ikey (target, tag s kTypeValue)).
  assert (key_ok (target, tag s kTypeValue)) as Hk by (split; [done|by apply tag_range]).
  destruct (sorted_split (cmp := λ a b : entry, icmp a.1 b.1) L ((target, tag s kTypeValue), []) (e_sorted L HL)) as (L1 & L2 & EL & H1 & H2). cbn in H1, H2.
  destruct (seek_parts target L1 L2 EL H1 H2) as [Hlo Hhi].
  destruct (at_Seek _ _ _ (iter_ d) L q _ L1 L2 Hat Hk EL H1 H2) as (it & E & Hit). cbn [iter_ ClearSavedValue with_saved with_direction]. rewrite E. rbind.
  assert (∀ e, e ∈ L2 → None ≠ Some e.1.1 ∧ skip_after s None L1 ≠ Some e.1.1) as Hsk.
  { intros e He. split; [done|]. intros Hse. destruct (skip_after_in _ _ _ _ Hse) as [?|(a & Ha & Hsa & Hu)]; [done|].
    pose proof (Hlo a Ha Hsa). pose proof (Hhi e He). rewrite Hu in *. lia. }
  assert (∃ d', (if it_Valid it then FindNextUserEntry fuel false (with_iter it (SaveKey (ikey (target, tag s kTypeValue)) (ClearSavedValue (with_direction kForward d))))
            else Ok (with_valid false (with_iter it (SaveKey (ikey (target, tag s kTypeValue)) (ClearSavedValue (with_direction kForward d)))))) = Ok d' ∧
     status_ d' = status_ d ∧ at_fwd d' (place (length V) (length (view s None L1)))) as (d' & Ed & Hst & Hd').
  { destruct (place_cases (length L) (length L1)) as [[Hl Ep]|[Hl Ep]]; rewrite Ep in Hit; rewrite (at_Valid _ _ _ _ _ _ Hit).
    - rewrite bool_decide_true by done. destruct (FindNext_ok L2 fuel false (with_iter it (SaveKey (ikey (target, tag s kTypeValue))
        (ClearSavedValue (with_direction kForward d)))) L1) as (d' & E' & Hst & Hd'); [done| | |done..|].
      + intros ->. rewrite app_nil_r in EL. rewrite EL in Hl. lia.
      + rewrite EL, length_app in Hfuel. lia.
      + exists d'. split; [exact E'|]. split; [done|]. by apply (lands_fwd None L1 L2); [|right|].
    - rewrite bool_decide_false by (by intros [? ?]). eexists. split; [done|]. split; [done|].
      assert (V = view s None L1) as -> by (rewrite EL, length_app in Hl; destruct L2; [by rewrite EL, app_nil_r|cbn in Hl; lia]).
      unfold place. rewrite decide_False by lia. split; [done|]. split; [done|]. split; [done|]. eauto. }
  exists d', (view s None L1), (view s (skip_after s None L1) L2). split; [exact Ed|]. split; [done|]. split; [by rewrite EL, view_app|]. split_and!.
  - apply Forall_forall. intros p (e & He & Hse & _ & ->)%view_in. by apply Hlo.
  - apply Forall_forall. intros p (e & He & Hse & _ & ->)%view_in. by apply Hhi.
  - done.
Qed.

(** A loop that goes forward visits the visible pairs that are left. *)
Lemma collect_ok n : ∀ d i, (length V - i < n)%nat → (i ≤ length V)%nat → at_fwd d (place (length V) i) →
  collect (I := DBIter) (H := DBIter_Iter fuel) n d = Ok (drop i V).
Proof.
  induction n as [|n IH]; intros d i Hn Hi Hd; [lia|]. cbn [collect]. destruct (place_cases (length V) i) as [[Hl Ep]|[Hl Ep]]; rewrite Ep in Hd.
  - pose proof Hd as (_ & _ & Hv & _). cbn [it_Valid DBIter_Iter]. rewrite Hv. destruct (at_fwd_pair d i Hd) as (e & He & Hk & Hval). cbn [it_key it_value it_Next DBIter_Iter].
    rewrite Hk. rbind. rewrite Hval. rbind. destruct (Next_fwd d i Hd) as (d' & -> & _ & Hd'). rbind. rewrite (IH d' (S i)) by (done || lia). rbind.
    by rewrite (drop_S V _ _ He).
  - destruct Hd as (_ & _ & Hv & _). cbn [it_Valid DBIter_Iter]. rewrite Hv. by rewrite drop_ge.
Qed.

(** ** Backward *)

(** A value that was read going back, and would be shown behind [P]. *)
Abbreviation pending := (option (bytes * bytes)).
Definition view_pending (P : list entry) (acc : pending) : list (bytes * bytes) :=
  view s None P ++ match acc with
                   | Some (u, v) => if bool_decide (skip_after s None P = Some u) then [] else [(u, v)]
                   | None => []
                   end.
Definition pending_of (vt : ValueType) (d : DBIter (I := I)) : pending :=
  match vt with kTypeValue => Some (saved_key_ d, saved_value_ d) | kTypeDeletion => None end.

Lemma pending_unseen P e acc : seen s e = false → view_pending (P ++ [e]) acc = view_pending P acc.
Proof.
  intros He. unfold view_pending. rewrite view_app, skip_after_app. cbn. unfold emit, step. rewrite He. cbn. by rewrite app_nil_r.
Qed.
Lemma pending_seen P e acc : seen s e = true → (∀ u v, acc = Some (u, v) → u = e.1.1) →
  view_pending (P ++ [e]) acc = view_pending P (if is_value e then Some (e.1.1, e.2) else None).
Proof.
  intros He Hacc. unfold view_pending. rewrite view_app, skip_after_app. cbn. unfold step, emit. rewrite He. cbn. rewrite app_nil_r, <- app_assoc. f_equal.
  assert (match acc with Some (u, v) => if bool_decide (Some e.1.1 = Some u) then [] else [(u, v)] | None => [] end = []) as ->.
  { destruct acc as [[u v]|]; [|done]. by rewrite (Hacc u v eq_refl), bool_decide_true. }
  rewrite app_nil_r. by destruct (is_value e), (bool_decide (skip_after s None P = Some e.1.1)).
Qed.

Definition same_rest (d d' : DBIter (I := I)) : Prop :=
  sequence_ d' = sequence_ d ∧ direction_ d' = direction_ d ∧ valid_ d' = valid_ d ∧ status_ d' = status_ d.

Lemma prev_at_entry (d : DBIter) P e Q : L = P ++ e :: Q → At (iter_ d) L (Some (length P)) →
  ∃ it, it_Prev (iter_ d) = Ok it ∧ it_Valid it = negb (bool_decide (P = [])) ∧ At it L (before (length P)).
Proof.
  intros EL Hat. destruct (at_Prev _ _ _ _ _ _ Hat) as (it & E & Hit). exists it. split; [done|]. split; [|done].
  rewrite (at_Valid _ _ _ _ _ _ Hit). by destruct P.
Qed.

(** Reading [P] backward, with [acc] pending, ends with the last visible pair
    pending and the iterator before its entries, or with none. *)
Definition reads (d : DBIter (I := I)) (P : list entry) (acc : pending) (vt : ValueType) (d' : DBIter (I := I)) : Prop :=
  same_rest d d' ∧ ∃ P', P' `prefix_of` P ∧ At (iter_ d') L (before (length P')) ∧
  match pending_of vt d' with
  | Some p => view_pending P acc = view s None P' ++ [p]
  | None => view_pending P acc = []
  end.

Lemma reads_snoc d P e acc acc' k v vt d' : view_pending (P ++ [e]) acc = view_pending P acc' →
  reads (with_saved k v d) P acc' vt d' → reads d (P ++ [e]) acc vt d'.
Proof.
  intros HV (Hsr & P' & Hpre & Hat & Hm). split; [done|]. exists P'. split; [by apply prefix_app_r|]. split; [done|]. by rewrite HV.
Qed.

Lemma reads_end d acc vt it k v : At it L None → acc = pending_of vt (with_saved k v d) → reads d [] acc vt (with_iter it (with_saved k v d)).
Proof. intros Hat ->. split; [by split_and!|]. exists []. split; [done|]. split; [done|]. by destruct vt. Qed.

Definition pending_ok (P : list entry) (acc : pending) : Prop :=
  ∀ u v, acc = Some (u, v) → zlen u < 2 ^ 31 - 8 ∧ ∀ e, e ∈ P → bcmp e.1.1 u ≤ 0.

Lemma prev_loop_ok P : ∀ n vt d Q, L = P ++ Q → P ≠ [] → (length P ≤ n)%nat → At (iter_ d) L (before (length P)) → sequence_ d = s →
  pending_ok P (pending_of vt d) → ∃ vt' d', prev_loop n vt d = Ok (vt', d') ∧ reads d P (pending_of vt d) vt' d'.
Proof.
  induction P as [|e P IH] using rev_ind; intros n vt d Q EL Hne Hn Hat Hsq Hpend; [done|]. clear Hne. rewrite length_app, Nat.add_1_r in Hat, Hn.
  destruct n as [|n]; [lia|]. cbn [prev_loop]. rewrite <- app_assoc in EL. cbn in EL, Hat.
  destruct (parse_at d P e Q EL Hat) as (s' & t & -> & Hk & Hv & Hu & Hlen & Hseen & Hval). rbind. cbn [sequence type user_key]. rewrite Hsq, <- Hseen.
  destruct (prev_at_entry d P e Q EL Hat) as (it & En & Ev & Hit).
  assert (∀ vt1 k1 v1, view_pending (P ++ [e]) (pending_of vt d) = view_pending P (pending_of vt1 (with_saved k1 v1 d)) →
     pending_ok P (pending_of vt1 (with_saved k1 v1 d)) →
     ∃ vt' d', (if it_Valid it then prev_loop n vt1 (with_iter it (with_saved k1 v1 d)) else Ok (vt1, with_iter it (with_saved k1 v1 d))) = Ok (vt', d') ∧
       reads d (P ++ [e]) (pending_of vt d) vt' d') as Hgo.
  { intros vt1 k1 v1 HV Hp1. rewrite Ev. case_bool_decide as HP; cbn [negb].
    - eexists _, _. split; [done|]. apply (reads_snoc _ _ _ _ (pending_of vt1 (with_saved k1 v1 d)) k1 v1); [done|].
      rewrite HP in Hit |- *. by apply (reads_end (with_saved k1 v1 d) _ vt1 it k1 v1).
    - destruct (IH n vt1 (with_iter it (with_saved k1 v1 d)) (e :: Q)) as (vt' & d' & -> & Hr); [done|done|lia|done..|].
      exists vt', d'. split; [done|]. by apply (reads_snoc _ _ _ _ (pending_of vt1 (with_saved k1 v1 d)) k1 v1). }
  assert (with_saved (saved_key_ d) (saved_value_ d) d = d) as Hsame by (by destruct d).
  destruct (seen s e) eqn:Es.
  2: { rewrite En. rbind. specialize (Hgo vt (saved_key_ d) (saved_value_ d)). rewrite Hsame in Hgo. apply Hgo; [by apply pending_unseen|].
       intros u v Hp. destruct (Hpend u v Hp) as [? Hle]. split; [done|]. intros b Hb. apply Hle. set_solver. }
  set (stop := if bool_decide _ then _ else _).
  assert (stop = Ok false ∧ (∀ u v, pending_of vt d = Some (u, v) → u = e.1.1) ∨
          stop = Ok true ∧ ∃ u v, pending_of vt d = Some (u, v) ∧ Some e.1.1 ≠ Some u) as [[-> Hkey]|[-> (u & v & Hp & Hc)]].
  { subst stop. destruct vt; cbn [pending_of] in *; [left; by rewrite bool_decide_false by naive_solver|]. rewrite bool_decide_true by done.
    destruct (Hpend _ _ eq_refl) as [Hul Hle]. rewrite Slice_compare_ok by lia. rbind. pose proof (Hle e ltac:(set_solver)).
    destruct (Z.ltb_spec (bcmp e.1.1 (saved_key_ d)) 0) as [Hc|Hc]; [right|left]; (split; [done|]).
    - eexists _, _. split; [done|]. intros [= Eq]. rewrite Eq, bcmp_refl in Hc. lia.
    - intros u v [= <- <-]. symmetry. apply bcmp_eq. lia. }
  - rbind. pose proof (pending_seen P e (pending_of vt d) Es Hkey) as HV. destruct t; cbn in Hval; rewrite Hval in HV.
    + change (iter_ (with_saved [] [] d)) with (iter_ d). rewrite En. rbind. by apply (Hgo kTypeDeletion [] []).
    + rewrite Hv. rbind. rewrite Hk. rbind. rewrite Hu. rbind. change (iter_ (with_saved e.1.1 e.2 d)) with (iter_ d). rewrite En. rbind.
      apply (Hgo kTypeValue e.1.1 e.2); [done|]. intros u v [= <- <-]. split; [done|]. pose proof (e_sorted L HL) as Hso. rewrite EL in Hso.
      intros b Hb. apply (proj1 (sorted_users _ _ _ Hso) b Hb).
  - rbind. eexists _, _. split; [done|]. split; [by split_and!|]. exists (P ++ [e]). split; [done|]. split; [by rewrite length_app, Nat.add_1_r|].
    rewrite Hp. unfold view_pending. rewrite bool_decide_false; [done|]. rewrite skip_after_app. cbn. unfold step. by rewrite Es.
Qed.

(** The iterator shows the [i]-th visible pair from its copy, and stands
    before the entries of its key. *)
Definition at_rev (d : DBIter (I := I)) (p : option nat) : Prop :=
  sequence_ d = s ∧
  match p with
  | Some i => valid_ d = true ∧ direction_ d = kReverse ∧ V !! i = Some (saved_key_ d, saved_value_ d) ∧
      ∃ P Q, L = P ++ Q ∧ At (iter_ d) L (before (length P)) ∧ view s None P = take i V
  | None => valid_ d = false ∧ direction_ d = kForward ∧ ∃ q, At (iter_ d) L q
  end.

Lemma FindPrev_ok d P Q : L = P ++ Q → At (iter_ d) L (before (length P)) → sequence_ d = s → direction_ d = kReverse →
  ∃ d', FindPrevUserEntry fuel d = Ok d' ∧ status_ d' = status_ d ∧ at_rev d' (before (length (view s None P))).
Proof.
  intros EL Hat Hsq Hdir. unfold FindPrevUserEntry. rewrite bool_decide_true by done. rewrite (at_Valid _ _ _ _ _ _ Hat).
  assert (∃ vt' d', (if bool_decide (is_Some (before (length P))) then prev_loop fuel kTypeDeletion d else Ok (kTypeDeletion, d)) = Ok (vt', d') ∧
     reads d P None vt' d') as (vt' & d' & -> & (Hsq' & Hdir' & _ & Hst') & P' & Hpre & Hat' & Hm).
  { destruct P as [|e P].
    - rewrite bool_decide_false by (by intros [? ?]). eexists _, _. split; [done|]. split; [by split_and!|]. by exists [].
    - rewrite bool_decide_true by done. apply (prev_loop_ok (e :: P) fuel kTypeDeletion d Q); try done. rewrite EL, length_app in Hfuel. lia. }
  rbind. eexists. split; [done|]. unfold view_pending in Hm. rewrite app_nil_r in Hm. destruct vt'; cbn in Hm.
  - split; [done|]. rewrite Hm. split; [cbn; congruence|]. split; [done|]. split; [done|]. eauto.
  - split; [done|]. rewrite Hm, length_app, Nat.add_1_r. cbn [before]. split; [cbn; congruence|]. split; [done|]. split; [cbn; congruence|]. rewrite EL at 1.
    rewrite view_app, Hm, <- app_assoc. cbn [app]. rewrite list_lookup_middle by done. split; [done|]. destruct Hpre as [R ->]. exists P', (R ++ Q).
    split; [by rewrite app_assoc|]. split; [done|]. rewrite EL at 1. by rewrite view_app, Hm, <- app_assoc, take_app_length.
Qed.

Lemma SeekToLast_ok d q : At (iter_ d) L q → sequence_ d = s →
  ∃ d', SeekToLast fuel d = Ok d' ∧ status_ d' = status_ d ∧ at_rev d' (before (length V)).
Proof.
  intros Hat Hsq. unfold SeekToLast. cbn [iter_ ClearSavedValue with_saved with_direction]. destruct (at_SeekToLast _ _ _ _ _ _ Hat) as (it & -> & Hit). rbind.
  destruct (FindPrev_ok (with_iter it (ClearSavedValue (with_direction kReverse d))) L []) as (d' & E & Hst & Hd'); try done; [by rewrite app_nil_r|].
  by exists d'.
Qed.

Lemma Prev_rev d i : at_rev d (Some i) → ∃ d', Prev fuel d = Ok d' ∧ status_ d' = status_ d ∧ at_rev d' (before i).
Proof.
  intros (Hsq & Hv & Hdir & Hi & P & Q & EL & Hat & HP). unfold Prev. rewrite Hv, Hdir. cbn [negb].
  destruct (FindPrev_ok d P Q EL Hat Hsq Hdir) as (d' & -> & Hst & Hd'). exists d'. split; [done|]. split; [done|].
  rewrite HP, length_take in Hd'. apply lookup_lt_Some in Hi. by rewrite Nat.min_l in Hd' by lia.
Qed.

(** Going back over the entries of the current key. *)
Lemma leave_key_ok L1 : ∀ n d R u, L = L1 ++ R → R ≠ [] → (length L1 < n)%nat → At (iter_ d) L (Some (length L1)) → saved_key_ d = u → zlen u < 2 ^ 31 - 8 →
  ∃ more d' P M, leave_key n d = Ok (more, d') ∧ same_rest d d' ∧ L1 = P ++ M ∧ Forall (λ e, 0 ≤ bcmp e.1.1 u) M ∧
    At (iter_ d') L (before (length P)) ∧ more = negb (bool_decide (P = [])).
Proof.
  induction L1 as [|a L1 IH] using rev_ind; intros n d R u EL HR Hn Hat Hu Hul; (destruct n as [|n]; [lia|]); cbn [leave_key].
  - destruct (at_Prev _ _ _ _ _ _ Hat) as (it & -> & Hit). rbind. rewrite (at_Valid _ _ _ _ _ _ Hit). cbn.
    eexists _, _, [], []. split; [done|]. split; [by split_and!|]. by split_and!.
  - destruct (at_Prev _ _ _ _ _ _ Hat) as (it & -> & Hit). rbind. rewrite (at_Valid _ _ _ _ _ _ Hit). rewrite length_app, Nat.add_1_r in Hit, Hn. cbn [before] in Hit |- *.
    rewrite length_app, Nat.add_1_r. cbn [before]. rewrite bool_decide_true by done. cbn [negb]. rewrite <- app_assoc in EL. cbn in EL.
    destruct (parse_at (with_iter it d) L1 a R EL Hit) as (s' & t & _ & Hk & _ & Hua & Hal & _). cbn [iter_ with_iter] in Hk. rewrite Hk. rbind. rewrite Hua. rbind.
    cbn [saved_key_ with_iter]. rewrite Hu, Slice_compare_ok by lia. rbind. destruct (Z.ltb_spec (bcmp a.1.1 u) 0) as [Hc|Hc].
    + eexists _, _, (L1 ++ [a]), []. split; [done|]. split; [by split_and!|]. split; [by rewrite app_nil_r|]. split; [done|].
      split; [by rewrite length_app, Nat.add_1_r|]. by rewrite bool_decide_false by (by destruct L1).
    + destruct (IH n (with_iter it d) (a :: R) u) as (more & d' & P & M & -> & Hsr & -> & HM & Hat' & Hm); [done|done|lia|done..|].
      exists more, d', P, (M ++ [a]). split; [done|]. split; [done|]. split; [by rewrite app_assoc|]. split; [|done]. apply Forall_app. by split; [|constructor].
Qed.

Lemma view_unseen sk M : (∀ e, e ∈ M → seen s e = false) → view s sk M = [] ∧ skip_after s sk M = sk.
Proof.
  revert sk. induction M as [|e M IH]; intros sk HM; cbn; [done|]. unfold emit, step. rewrite (HM e) by set_solver. cbn. apply IH. set_solver.
Qed.

(** Entries of a key whose last visible one follows are not visible. *)
Lemma newer_unseen P M u : Forall (λ e, e.1.1 = u) M → skip_after s None (P ++ M) ≠ Some u → view s None (P ++ M) = view s None P.
Proof.
  intros HM Hsk. assert (∀ e, e ∈ M → seen s e = false) as Hun.
  { intros e He. destruct (seen s e) eqn:E; [|done]. exfalso. apply Hsk. apply list_elem_of_split in He as (M1 & M2 & ->).
    rewrite app_assoc, skip_after_app. apply Forall_app in HM as [_ HM]. apply Forall_cons in HM as [Hu HM]. cbn. unfold step. rewrite E, Hu. clear -HM.
    induction HM as [|b M2 Hb _ IH]; cbn; [done|]. unfold step. rewrite Hb. by destruct (seen s b). }
  rewrite view_app. destruct (view_unseen (skip_after s None P) M Hun) as [-> _]. by rewrite app_nil_r.
Qed.

Lemma Prev_fwd d i : at_fwd d (Some i) → ∃ d', Prev fuel d = Ok d' ∧ status_ d' = status_ d ∧ at_rev d' (before i).
Proof.
  intros (Hsq & Hdir & Hv & L1 & e & L2 & EL & Hat & -> & He). unfold Prev. rewrite Hv, Hdir, (at_Valid _ _ _ _ _ _ Hat). cbn [negb].
  rewrite bool_decide_true by done. cbn [negb]. destruct (parse_at d L1 e L2 EL Hat) as (s' & t & _ & Hk & _ & Hu & Hlen & _). rewrite Hk. rbind. rewrite Hu. rbind.
  destruct (leave_key_ok L1 fuel (SaveKey e.1.1 d) (e :: L2) e.1.1) as (more & d1 & P & M & -> & (Hsq1 & Hdir1 & Hv1 & Hst1) & E1 & HM & Hat1 & ->); try done.
  { rewrite EL, length_app in Hfuel. cbn in Hfuel. lia. }
  rbind. assert (view s None L1 = view s None P) as ->.
  { rewrite E1. apply (newer_unseen P M e.1.1).
    - pose proof (e_sorted L HL) as Hso. rewrite EL in Hso. destruct (sorted_users _ _ _ Hso) as [Hlo _]. rewrite Forall_forall in HM |- *.
      intros a Ha. apply bcmp_eq. pose proof (HM a Ha). destruct (Hlo a) as [? _]; [rewrite E1; set_solver|]. lia.
    - rewrite <- E1. intros Hc. unfold emit in He. rewrite bool_decide_true in He by done. by rewrite andb_false_r in He. }
  case_bool_decide as HP; cbn [negb].
  - rewrite HP. eexists. split; [done|]. split; [done|]. split; [cbn in *; congruence|]. split; [done|]. split; [cbn in *; congruence|]. eauto.
  - destruct (FindPrev_ok (with_direction kReverse d1) P (M ++ e :: L2)) as (d' & -> & Hst & Hd'); [by rewrite EL, E1, <- app_assoc|done|cbn in *; congruence|done|].
    exists d'. split; [done|]. split; [by cbn in *; congruence|done].
Qed.

Lemma collect_back_ok n : ∀ d p, at_rev d p → (match p with Some i => S i | None => 0 end < n)%nat →
  collect_back (I := DBIter) (H := DBIter_Iter fuel) n d = Ok (reverse (take (match p with Some i => S i | None => 0 end) V)).
Proof.
  induction n as [|n IH]; intros d p Hd Hn; [lia|]. cbn [collect_back it_Valid DBIter_Iter]. destruct p as [i|].
  - pose proof Hd as (_ & Hv & Hdir & Hi & _). rewrite Hv. cbn [it_key it_value it_Prev DBIter_Iter]. unfold key, value. rewrite Hv, Hdir. rbind.
    destruct (Prev_rev d i Hd) as (d' & -> & _ & Hd'). rbind. rewrite (IH d' (before i) Hd') by (destruct i; cbn; lia). rbind.
    rewrite (take_S_r _ _ _ Hi), reverse_snoc. by destruct i.
  - destruct Hd as (_ & Hv & _). by rewrite Hv.
Qed.
End dbiter.

(** ** The visible pairs are the newest values *)

Lemma newest_cons_other e L u s x : e.1.1 ≠ u ∨ seen s e = false → newest (e :: L) u s x ↔ newest L u s x.
Proof.
  intros He. unfold newest, seen in *. split.
  - intros (Hx & Hu & Ht & Hm). apply elem_of_cons in Hx as [->|Hx]; [destruct He; [done|lia]|]. split_and!; try done. intros e' He'. apply Hm. set_solver.
  - intros (Hx & Hu & Ht & Hm). split_and!; [set_solver|done..|]. intros e' [->|He']%elem_of_cons Hu' Ht'; [destruct He; [done|lia]|]. by apply Hm.
Qed.

Lemma newest_cons_same (e : entry) L s x : StronglySorted (λ a b : entry, icmp a.1 b.1 < 0) (e :: L) → seen s e = true →
  newest (e :: L) e.1.1 s x ↔ x = e.
Proof.
  intros Hs He. assert (∀ b, b ∈ L → b.1.1 = e.1.1 → b.1.2 < e.1.2) as Hlt.
  { intros b Hb Hu. destruct (proj2 (sorted_users [] e L Hs) b Hb) as [_ Hc]. unfold icmp in Hc. rewrite Hu, bcmp_refl in Hc. cbn in Hc.
    destruct (Z.ltb_spec b.1.2 e.1.2), (Z.ltb_spec e.1.2 b.1.2); lia. }
  unfold seen in He. split.
  - intros ([->|Hx]%elem_of_cons & Hu & Ht & Hm); [done|]. pose proof (Hm e ltac:(set_solver) eq_refl ltac:(lia)). pose proof (Hlt x Hx Hu). lia.
  - intros ->. split; [set_solver|]. split; [done|]. split; [lia|]. intros e' [->|He']%elem_of_cons Hu' _; [done|]. pose proof (Hlt e' He' Hu'). lia.
Qed.

Lemma view_newest_skip s L : ∀ sk u v, StronglySorted (λ a b : entry, icmp a.1 b.1 < 0) L →
  (∀ k, sk = Some k → ∀ e, e ∈ L → bcmp k e.1.1 ≤ 0) →
  (u, v) ∈ view s sk L ↔ sk ≠ Some u ∧ ∃ e, newest L u s e ∧ is_value e = true ∧ e.2 = v.
Proof.
  induction L as [|e L IH]; intros sk u v Hs Hsk; cbn [view].
  { split; [by intros ?%not_elem_of_nil|]. intros (_ & e & (He & _) & _). by apply not_elem_of_nil in He. }
  pose proof Hs as Hs'. inversion Hs' as [|? ? Hs2 Ha]; subst. rewrite elem_of_app, IH; [|done|].
  2: { intros k Hk b Hb. unfold step in Hk. destruct (seen s e); [injection Hk as <-|apply (Hsk k Hk); set_solver].
       by apply (proj2 (sorted_users [] e L Hs) b Hb). }
  unfold step, emit. destruct (seen s e) eqn:Es; cbn [andb].
  - destruct (decide (e.1.1 = u)) as [<-|Hu].
    + setoid_rewrite (newest_cons_same e L s) ; [|done..]. split.
      * intros [Hin|[Hc _]]; [|done]. destruct (bool_decide_reflect (sk = Some e.1.1)); cbn in Hin; [by apply not_elem_of_nil in Hin|]. split; [done|].
        destruct (is_value e) eqn:Ev; [|by apply not_elem_of_nil in Hin]. apply list_elem_of_singleton in Hin as [= ->]. by exists e.
      * intros (Hn & ? & -> & -> & <-). left. rewrite bool_decide_false by done. cbn. apply list_elem_of_singleton. done.
    + setoid_rewrite (newest_cons_other e L u s) ; [|by left]. split.
      * intros [Hin|[_ Hex]].
        -- destruct (negb _ && _); [|by apply not_elem_of_nil in Hin]. apply list_elem_of_singleton in Hin as [= -> _]. done.
        -- split; [|done]. intros ->. destruct Hex as (x & (Hx & Hxu & _) & _). pose proof (Hsk u eq_refl e ltac:(set_solver)) as H1.
           destruct (proj2 (sorted_users [] e L Hs) x Hx) as [H2 _]. rewrite Hxu in H2. apply Hu, bcmp_eq. rewrite bcmp_sym in H1. lia.
      * intros [Hn Hex]. right. split; [congruence|done].
  - setoid_rewrite (newest_cons_other e L u s); [|by right]. cbn. split; [intros [Hin|?]; [by apply not_elem_of_nil in Hin|done]|by right].
Qed.

Lemma view_newest s L u v : StronglySorted (λ a b : entry, icmp a.1 b.1 < 0) L →
  (u, v) ∈ view s None L ↔ ∃ e, newest L u s e ∧ is_value e = true ∧ e.2 = v.
Proof. intros Hs. rewrite view_newest_skip by done. naive_solver. Qed.

Lemma view_sorted s L : ∀ sk, StronglySorted (λ a b : entry, icmp a.1 b.1 < 0) L → (∀ k, sk = Some k → ∀ e, e ∈ L → bcmp k e.1.1 ≤ 0) →
  StronglySorted (λ a b : bytes * bytes, bcmp a.1 b.1 < 0) (view s sk L).
Proof.
  induction L as [|e L IH]; intros sk Hs Hsk; cbn [view]; [constructor|]. pose proof Hs as Hs'. inversion Hs' as [|? ? Hs2 Ha]; subst.
  assert (∀ k, step s sk e = Some k → ∀ b, b ∈ L → bcmp k b.1.1 ≤ 0) as Hk.
  { intros k Hk b Hb. unfold step in Hk. destruct (seen s e); [injection Hk as <-|apply (Hsk k Hk); set_solver]. by apply (proj2 (sorted_users [] e L Hs) b Hb). }
  specialize (IH (step s sk e) Hs2 Hk). unfold emit. destruct (seen s e) eqn:Es, (bool_decide _), (is_value e); cbn; try done.
  constructor; [done|]. apply Forall_forall. intros [u v] Hin. cbn. unfold step in Hin, Hk. rewrite Es in Hin, Hk.
  apply view_newest_skip in Hin as (Hn & x & (Hx & Hu & _) & _); [|done|done]. pose proof (Hk _ eq_refl x Hx) as Hle. rewrite Hu in Hle.
  assert (bcmp e.1.1 u ≠ 0); [|lia]. rewrite bcmp_eq. congruence.
Qed.

Lemma view_length s sk L : (length (view s sk L) ≤ length L)%nat.
Proof.
  revert sk. induction L as [|e L IH]; intros sk; cbn; [done|]. rewrite length_app. specialize (IH (step s sk e)). unfold emit. destruct (_ && _); cbn; lia.
Qed.



Section scans.
Context {I : Type} `{Iter I} {At : I → list entry → option nat → Prop} `{!IterLaws ikey icmp key_ok I At}.

(** C13: an iterator over user keys shows the newest values. Over any internal
    iterator, at any sequence number, a scan from the first key gives the
    user keys whose newest entry up to the number is a value, in order and
    with this value; a scan from the last key backward gives the same in
    reverse; and a scan from a target the part of it that is not smaller. *)
Theorem iterator_shows_newest fuel s L it q : 0 ≤ s < 2 ^ 56 → entries_ok L → (length L < fuel)%nat → At it L q →
  ∃ pairs, StronglySorted (λ a b : bytes * bytes, bcmp a.1 b.1 < 0) pairs ∧
    (∀ u v, (u, v) ∈ pairs ↔ ∃ e, newest L u s e ∧ is_value e = true ∧ e.2 = v) ∧
    (∃ d, SeekToFirst fuel (NewDBIterator it s) = Ok d ∧ collect (H := DBIter_Iter fuel) fuel d = Ok pairs) ∧
    (∃ d, SeekToLast fuel (NewDBIterator it s) = Ok d ∧ collect_back (H := DBIter_Iter fuel) fuel d = Ok (reverse pairs)) ∧
    ∀ target, zlen target < 2 ^ 31 - 8 →
      ∃ d, Seek fuel target (NewDBIterator it s) = Ok d ∧ collect (H := DBIter_Iter fuel) fuel d = Ok (filter (λ p, 0 ≤ bcmp p.1 target) pairs).
Proof.
  intros Hs HL Hf Hat. pose proof (e_sorted L HL) as Hso. exists (view s None L). pose proof (view_length s None L) as Hlen.
  split; [by apply view_sorted|]. split; [intros; by apply view_newest|]. split_and!.
  - destruct (SeekToFirst_ok fuel s L Hs HL Hf (NewDBIterator it s) q Hat eq_refl) as (d & E & _ & Hd). exists d. split; [done|].
    by rewrite (collect_ok fuel s L Hs HL Hf fuel d 0) by (done || lia).
  - destruct (SeekToLast_ok fuel s L Hs HL Hf (NewDBIterator it s) q Hat eq_refl) as (d & E & _ & Hd). exists d. split; [done|].
    rewrite (collect_back_ok fuel s L Hs HL Hf fuel d _ Hd) by (destruct (length (view s None L)); cbn; lia). do 2 f_equal.
    apply take_ge. by destruct (length (view s None L)).
  - intros target Ht. destruct (Seek_ok fuel s L Hs HL Hf (NewDBIterator it s) q target Hat eq_refl Ht) as (d & V1 & V2 & E & _ & EV & H1 & H2 & Hd).
    exists d. split; [done|]. assert (length V1 ≤ length (view s None L))%nat by (rewrite EV, length_app; lia).
    rewrite (collect_ok fuel s L Hs HL Hf fuel d (length V1)) by (done || lia). rewrite EV, drop_app_length. f_equal. symmetry.
    apply filter_split; [|done]. eapply Forall_impl; [exact H1|]. cbn. lia.
Qed.
End scans.

(** A history of writes in a memtable, seen through an iterator. *)
Lemma memtable_entries H : Forall write_ok H → increasing H →
  ∃ t L, fill H MemTable.MemTable_new = Ok t ∧ contains t L ∧ entries_ok L ∧ L ≡ₚ entry_of <$> H ∧ length L = length H.
Proof.
  intros Hok Hinc. destruct (fill_ok H MemTable.MemTable_new []) as (t & L & E & Ht & Hty & HP); [apply new_contains|done..|set_solver|].
  rewrite app_nil_r in HP. exists t, L. split_and!; try done.
  - split; [by eapply sorted_blocks|done|]. destruct Ht as [_ Ht]. eapply Forall_impl; [exact Ht|]. by intros e [? _].
  - apply Permutation_length in HP. by rewrite length_fmap in HP.
Qed.

(** the database remembers. After any history of puts and deletions, an
    iterator at a sequence number visits exactly the keys whose last write up
    to that number put a value, with that value, in the order of the keys. *)
Theorem memtable_scan H s : Forall write_ok H → increasing H → 0 ≤ s < 2 ^ 56 →
  ∃ t d pairs, fill H MemTable.MemTable_new = Ok t ∧
    SeekToFirst (S (length H)) (NewDBIterator (MemTable.NewIterator t) s) = Ok d ∧
    collect (H := DBIter_Iter (S (length H))) (S (length H)) d = Ok pairs ∧
    StronglySorted (λ a b : bytes * bytes, bcmp a.1 b.1 < 0) pairs ∧
    ∀ u v, (u, v) ∈ pairs ↔ recall H u s = Some (Some v).
Proof.
  intros Hok Hinc Hs. destruct (memtable_entries H Hok Hinc) as (t & L & E & Ht & HL & HP & Hlen).
  destruct (SeekToFirst_ok (At := mem_at) (S (length H)) s L Hs HL ltac:(lia) (NewDBIterator (MemTable.NewIterator t) s) None) as (d & Ed & _ & Hd);
    [by apply NewIterator_at|done|]. pose proof (view_length s None L). exists t, d, (view s None L). split; [done|]. split; [done|].
  split; [by rewrite (collect_ok (S (length H)) s L Hs HL ltac:(lia) _ d 0) by (done || lia)|]. pose proof (e_sorted L HL) as Hso.
  split; [by apply view_sorted|]. intros u v. rewrite view_newest by done. split.
  - intros (e & Hn & Hv & <-). destruct (recall_newest H L u s e Hinc HP Hn) as (w & _ & -> & ->). unfold is_value in Hv. cbn in Hv |- *.
    rewrite tag_type in Hv. unfold w_type in Hv. by destruct (w_val w).
  - intros Hr. destruct (sorted_split (cmp := λ a b : entry, icmp a.1 b.1) L ((u, tag s kTypeValue), []) Hso) as (L1 & L2 & EL & H1 & H2).
    destruct (found_newest L L1 L2 u s Hso EL H1 H2) as [(e & rest & _ & Hn)|[Ha _]]; [|by rewrite (recall_absent H L u s HP Ha) in Hr].
    exists e. split; [done|]. destruct (recall_newest H L u s e Hinc HP Hn) as (w & _ & -> & E2). rewrite E2 in Hr. injection Hr as Hr.
    unfold is_value. cbn. rewrite tag_type. unfold w_type. by rewrite Hr.
Qed.

(** ** Witnesses *)

Definition put (s : Z) (k v : string) : write := {| w_seq := s; w_key := str k; w_val := Some (str v) |}.
Definition del (s : Z) (k : string) : write := {| w_seq := s; w_key := str k; w_val := None |}.
Definition demo : list write := [put 1 "a" "1"; put 2 "c" "3"; put 3 "b" "2"; del 4 "a"; put 5 "c" "4"].

Lemma demo_ok : Forall write_ok demo ∧ increasing demo.
Proof. split; repeat constructor; cbn; lia. Qed.

Definition demo_table : MemTable.table := match fill demo MemTable.MemTable_new with Ok t => t | Fault _ => MemTable.MemTable_new end.

Lemma memtable_remembers_witness : ∃ t, fill demo MemTable.MemTable_new = Ok t ∧ ∃ lk, LookupKey_new (str "c") 4 = Ok lk ∧ MemTable.Get lk t = Ok (Some (Some (str "3"))).
Proof.
  destruct (memtable_remembers demo) as (t & E & Hg); [apply demo_ok..|]. exists t. split; [done|].
  destruct (LookupKey_ok (str "c") 4) as (lk & Elk & _); [lia|by vm_compute|]. exists lk. split; [done|]. rewrite (Hg (str "c") 4 lk); [by vm_compute|lia|by vm_compute|done].
Defined.

Lemma memtable_scan_witness : ∃ t d, fill demo MemTable.MemTable_new = Ok t ∧
  collect (H := DBIter_Iter 6) 6 (d : DBIter (I := MemTable.MemTableIterator)) = Ok [(str "b", str "2"); (str "c", str "4")].
Proof.
  destruct (memtable_scan demo 5) as (t & d & pairs & E & Ed & Ec & _ & _); [apply demo_ok..|lia|]. exists t, d. split; [done|].
  vm_compute in E. injection E as <-. vm_compute in Ed. injection Ed as <-. by vm_compute.
Defined.

Lemma iterator_shows_newest_witness : ∃ d pairs, SeekToLast 6 (NewDBIterator (MemTable.NewIterator demo_table) 3) = Ok d ∧
  collect_back (H := DBIter_Iter 6) 6 d = Ok (reverse pairs) ∧ reverse pairs = [(str "c", str "3"); (str "b", str "2"); (str "a", str "1")].
Proof.
  destruct (memtable_entries demo) as (t & L & E & Ht & HL & HP & Hlen); [apply demo_ok..|].
  assert (t = demo_table) as -> by (unfold demo_table; by rewrite E).
  destruct (iterator_shows_newest 6 3 L (MemTable.NewIterator demo_table) None) as (pairs & _ & _ & _ & (d & Ed & Ec) & _); [lia|done|rewrite Hlen; cbn; lia|by apply NewIterator_at|].
  exists d, pairs. split; [done|]. split; [done|]. vm_compute in Ed. injection Ed as <-. assert (Ok (reverse pairs) = Ok [(str "c", str "3"); (str "b", str "2"); (str "a", str "1")]) as [= ->];
    [rewrite <- Ec; by vm_compute|done].
Defined.

(** After going back, [Next] repeats the current key when an entry that is
    newer than the snapshot lies before it: from the last key "c" it comes to
    "c" again. *)
Definition hidden_between : list write := [put 1 "a" "1"; put 2 "c" "3"; put 3 "b" "2"].
Lemma next_after_prev_repeats :
  match (t ← fill hidden_between MemTable.MemTable_new;
         d ← SeekToLast 6 (NewDBIterator (MemTable.NewIterator t) 2); k ← key d;
         d' ← Next 6 d; k' ← key d'; Ok (k, k')) with
  | Ok (k, k') => k = str "c" ∧ k' = str "c"
  | Fault _ => False
  end.
Proof. vm_compute. done. Qed.
