(* ===== verification/WriteBatch.v ===== *)
(** * Batches of writes (pack/leveldb/db/write_batch.cc,
    write_batch_internal.h)

    A batch is one string: a sequence number, a count, and the puts and
    deletions one behind the other. A handler receives them in order; the
    memtable inserter is one. *)

From stdpp Require Import sorting.
From S2P Require Import Prelude Cstd Cmem LevelDb Coding DbFormat Status Iter SkipList SkipListSpec MemTable.

Module WriteBatch.

Abbreviation rep := bytes.
Definition kHeader : Z := 12.

Definition Clear : rep := replicate 12 0.

Definition Count (b : rep) : result Z := n ← DecodeFixed32 (drop 8 b); Ok (i32 n).
Definition SetCount (n : Z) (b : rep) : result rep := blit b 8 (EncodeFixed32 (u32 n)).
Definition Sequence (b : rep) : result Z := DecodeFixed64 b.
Definition SetSequence (seq : Z) (b : rep) : result rep := blit b 0 (EncodeFixed64 seq).

(** The count is an [int]. *)
Definition int_add (a b : Z) : result Z := if a + b <? 2 ^ 31 then Ok (a + b) else Fault IntOverflow.

Definition Put (key value : bytes) (b : rep) : result rep :=
  c ← Count b;
  c ← int_add c 1;
  b ← SetCount c b;
  Ok (PutLengthPrefixedSlice (PutLengthPrefixedSlice (b ++ [type_num kTypeValue]) key) value).
Definition Delete (key : bytes) (b : rep) : result rep :=
  c ← Count b;
  c ← int_add c 1;
  b ← SetCount c b;
  Ok (PutLengthPrefixedSlice (b ++ [type_num kTypeDeletion]) key).

Definition SetContents (contents : bytes) : result rep := if kHeader <=? zlen contents then Ok contents else Fault AssertFailed.
Definition Append (src dst : rep) : result rep :=
  c ← Count dst;
  c' ← Count src;
  c ← int_add c c';
  dst ← SetCount c dst;
  if kHeader <=? zlen src then Ok (dst ++ drop 12 src) else Fault AssertFailed.

(** The operations that a handler is called with: a put, or a deletion. *)
Definition op : Type := bytes * option bytes.

Section iterate.
Context {S : Type} (handler : op → S → result S).

(** The loop of [Iterate]: the number of operations found, or the status of
    a malformed batch. *)
Fixpoint iterate_loop (fuel : nat) (input : bytes) (found : Z) (st : S) : result (Z * Status * S) :=
  match input with
  | [] => Ok (found, sOK, st)
  | t :: input =>
      match fuel with
      | O => Fault AssertFailed
      | Datatypes.S fuel =>
          if t =? type_num kTypeValue then
            k ← GetLengthPrefixedSlice input;
            match k with
            | None => Ok (found + 1, Corruption (str "bad WriteBatch Put"), st)
            | Some (key, input) =>
                v ← GetLengthPrefixedSlice input;
                match v with
                | None => Ok (found + 1, Corruption (str "bad WriteBatch Put"), st)
                | Some (value, input) => st ← handler (key, Some value) st; iterate_loop fuel input (found + 1) st
                end
            end
          else if t =? type_num kTypeDeletion then
            k ← GetLengthPrefixedSlice input;
            match k with
            | None => Ok (found + 1, Corruption (str "bad WriteBatch Delete"), st)
            | Some (key, input) => st ← handler (key, None) st; iterate_loop fuel input (found + 1) st
            end
          else Ok (found + 1, Corruption (str "unknown WriteBatch tag"), st)
      end
  end.

Definition Iterate (b : rep) (st : S) : result (Status * S) :=
  if zlen b <? kHeader then Ok (Corruption (str "malformed WriteBatch (too small)"), st)
  else
    '(found, s, st) ← iterate_loop (length b) (drop 12 b) 0 st;
    if negb (ok s) then Ok (s, st)
    else
      c ← Count b;
      Ok (if negb (found =? c) then Corruption (str "WriteBatch has wrong count") else sOK, st).
End iterate.

(** [MemTableInserter]: the next sequence number and the table. *)
Definition inserter (o : op) (st : Z * MemTable.table) : result (Z * MemTable.table) :=
  let '(sequence_, mem_) := st in
  mem_ ← match o with
         | (key, Some value) => MemTable.Add sequence_ kTypeValue key value mem_
         | (key, None) => MemTable.Add sequence_ kTypeDeletion key [] mem_
         end;
  Ok (u64 (sequence_ + 1), mem_).

Definition InsertInto (b : rep) (memtable : MemTable.table) : result (Status * MemTable.table) :=
  seq ← Sequence b;
  '(s, (_, mem_)) ← Iterate inserter b (seq, memtable);
  Ok (s, mem_).

(** ** Batches of operations *)

Definition encode_op (o : op) : bytes :=
  match o with
  | (key, Some value) => type_num kTypeValue :: PutLengthPrefixedSlice [] key ++ PutLengthPrefixedSlice [] value
  | (key, None) => type_num kTypeDeletion :: PutLengthPrefixedSlice [] key
  end.
Definition op_ok (o : op) : Prop := zlen o.1 < 2 ^ 32 ∧ zlen (default [] o.2) < 2 ^ 32.

(** The batch [b] holds the operations [ops] under the number [seq]. *)
Definition batch (b : rep) (seq : Z) (ops : list op) : Prop :=
  b = EncodeFixed64 seq ++ EncodeFixed32 (zlen ops) ++ concat (encode_op <$> ops) ∧ zlen ops < 2 ^ 31 ∧ 0 ≤ seq < 2 ^ 64.

Lemma Clear_batch : batch Clear 0 [].
Proof. done. Qed.

Lemma zlen_concat_ops ops : zlen ops ≤ zlen (concat (encode_op <$> ops)).
Proof.
  induction ops as [|o ops IH]; cbn; [done|]. rewrite zlen_app, zlen_cons. destruct o as [k [v|]]; cbn; rewrite zlen_cons; zlia.
Qed.

Lemma Count_ok b seq ops : batch b seq ops → Count b = Ok (zlen ops).
Proof.
  intros (-> & Hn & _). unfold Count. rewrite drop_app_length', Fixed32_roundtrip by (done || zlia). rbind. by rewrite i32_small by zlia.
Qed.

Lemma SetCount_ok b seq ops n rest : batch b seq ops → 0 ≤ n < 2 ^ 32 →
  SetCount n (b ++ rest) = Ok (EncodeFixed64 seq ++ EncodeFixed32 n ++ concat (encode_op <$> ops) ++ rest).
Proof.
  intros (-> & _ & _) Hn. unfold SetCount. rewrite u32_small by done. rewrite <- !app_assoc. by rewrite blit_app.
Qed.

Lemma prefixed_dst dst v : PutLengthPrefixedSlice dst v = dst ++ PutLengthPrefixedSlice [] v.
Proof. unfold PutLengthPrefixedSlice, PutVarint32. cbn. by rewrite <- app_assoc. Qed.

Lemma add_op b seq ops o : batch b seq ops → zlen ops + 1 < 2 ^ 31 →
  ∃ b', match o with (k, Some v) => Put k v b | (k, None) => Delete k b end = Ok b' ∧ batch b' seq (ops ++ [o]).
Proof.
  intros Hb Hn. pose proof (SetCount_ok b seq ops (zlen ops + 1) [] Hb ltac:(zlia)) as Hsc. rewrite !app_nil_r in Hsc.
  assert (int_add (zlen ops) 1 = Ok (zlen ops + 1)) as Hadd by (unfold int_add; by rewrite (proj2 (Z.ltb_lt _ _)) by lia).
  exists (EncodeFixed64 seq ++ EncodeFixed32 (zlen ops + 1) ++ concat (encode_op <$> ops) ++ encode_op o). split.
  - destruct o as [k [v|]]; unfold Put, Delete; rewrite (Count_ok b seq ops Hb); rbind; rewrite Hadd; rbind; rewrite Hsc; rbind; f_equal.
    + rewrite (prefixed_dst (PutLengthPrefixedSlice _ k) v), (prefixed_dst (_ ++ [_]) k), <- !app_assoc. done.
    + rewrite (prefixed_dst (_ ++ [_]) k), <- !app_assoc. done.
  - split; [|split; [rewrite zlen_app; unfold zlen at 2; cbn; lia|apply Hb]]. rewrite zlen_app. change (zlen [o]) with 1. rewrite fmap_app, concat_app. cbn. by rewrite app_nil_r.
Qed.

Lemma SetSequence_ok b seq ops seq' : batch b seq ops → 0 ≤ seq' < 2 ^ 64 → ∃ b', SetSequence seq' b = Ok b' ∧ batch b' seq' ops.
Proof. intros (-> & Hn & _) Hs. unfold SetSequence. rewrite blit_prefix by done. by eexists. Qed.

Lemma Append_ok a b sa sb opsa opsb : batch a sa opsa → batch b sb opsb → zlen opsa + zlen opsb < 2 ^ 31 →
  ∃ c, Append b a = Ok c ∧ batch c sa (opsa ++ opsb).
Proof.
  intros Ha Hb Hn. unfold Append. rewrite (Count_ok a sa opsa Ha), (Count_ok b sb opsb Hb). rbind. unfold int_add. rewrite (proj2 (Z.ltb_lt _ _)) by lia. rbind.
  pose proof (SetCount_ok a sa opsa (zlen opsa + zlen opsb) [] Ha ltac:(zlia)) as Hsc. rewrite !app_nil_r in Hsc. rewrite Hsc. rbind.
  destruct Hb as (-> & _ & _). rewrite (proj2 (Z.leb_le _ _)) by (rewrite !zlen_app; change (zlen (EncodeFixed64 sb)) with 8; change (zlen (EncodeFixed32 (zlen opsb))) with 4; unfold kHeader; zlia).
  assert (∀ X : bytes, drop 12 (EncodeFixed64 sb ++ EncodeFixed32 (zlen opsb) ++ X) = X) as -> by done.
  eexists. split; [done|]. split; [|rewrite zlen_app; split; [done|apply Ha]]. rewrite zlen_app, fmap_app, concat_app, <- !app_assoc. done.
Qed.

(** A handler over a list of operations. *)
Fixpoint handle {S} (handler : op → S → result S) (ops : list op) (st : S) : result S :=
  match ops with [] => Ok st | o :: ops => st ← handler o st; handle handler ops st end.

Lemma iterate_ops {S} (handler : op → S → result S) ops : ∀ fuel found st, Forall op_ok ops → (length ops ≤ fuel)%nat →
  iterate_loop handler fuel (concat (encode_op <$> ops)) found st = (st ← handle handler ops st; Ok (found + zlen ops, sOK, st)).
Proof.
  induction ops as [|o ops IH]; intros fuel found st Hok Hf; cbn [fmap list_fmap concat handle].
  { change (zlen []) with 0. rewrite Z.add_0_r. by destruct fuel. }
  apply Forall_cons in Hok as [[Hk Hv] Hok]. cbn in Hf. destruct fuel as [|fuel]; [lia|]. rewrite zlen_cons.
  destruct o as [k [v|]]; cbn [encode_op app]; cbn [iterate_loop]; rewrite <- ?app_assoc, LengthPrefixed_roundtrip by done.
  - cbn [Z.eqb type_num Pos.eqb]. rbind. rewrite LengthPrefixed_roundtrip by done. rbind. destruct (handler _ st); rbind; [|done]. rewrite IH by (done || lia).
    destruct (handle _ _ _); rbind; [|done]. do 3 f_equal. lia.
  - change (type_num kTypeDeletion =? type_num kTypeValue) with false. change (type_num kTypeDeletion =? type_num kTypeDeletion) with true. cbv iota. rbind.
    destruct (handler _ st); rbind; [|done]. rewrite IH by (done || lia). destruct (handle _ _ _); rbind; [|done]. do 3 f_equal. lia.
Qed.

(** A batch gives its operations back, in order. *)
Lemma Iterate_ok {S} (handler : op → S → result S) b seq ops st st' : batch b seq ops → Forall op_ok ops → handle handler ops st = Ok st' →
  Iterate handler b st = Ok (sOK, st').
Proof.
  intros Hb Hok Hh. pose proof (Count_ok b seq ops Hb) as Hc. destruct Hb as (-> & Hn & _). unfold Iterate. set (body := concat _) in *.
  assert (zlen (EncodeFixed64 seq ++ EncodeFixed32 (zlen ops) ++ body) = 12 + zlen body) as Hlen.
  { rewrite !zlen_app. change (zlen (EncodeFixed64 seq)) with 8. change (zlen (EncodeFixed32 (zlen ops))) with 4. lia. }
  rewrite Hlen, (proj2 (Z.ltb_ge _ _)) by (unfold kHeader; zlia). rewrite app_assoc, drop_app_length' by done. rewrite <- app_assoc. subst body.
  rewrite iterate_ops; [|done|pose proof (zlen_concat_ops ops); unfold zlen in *; lia]. rewrite Hh. rbind. cbn [ok negb]. rewrite Hc. rbind.
  by rewrite Z.add_0_l, Z.eqb_refl.
Qed.

(** ** Into a memtable *)

(** The writes of a batch: its operations under consecutive numbers. *)
Fixpoint number (seq : Z) (ops : list op) : list write :=
  match ops with
  | [] => []
  | (k, v) :: ops => {| w_seq := seq; w_key := k; w_val := v |} :: number (seq + 1) ops
  end.

Lemma insert_numbered ops : ∀ seq t, 0 ≤ seq → seq + zlen ops < 2 ^ 64 →
  handle inserter ops (seq, t) = (t ← fill (number seq ops) t; Ok (seq + zlen ops, t)).
Proof.
  induction ops as [|[k v] ops IH]; intros seq t Hs Hb; cbn [handle number fill].
  { change (zlen []) with 0. by rewrite Z.add_0_r. }
  rewrite zlen_cons in *. pose proof (zlen_nonneg ops). set (w := {| w_seq := seq; w_key := k; w_val := v |}).
  assert (inserter (k, v) (seq, t) = (t ← MemTable.Add (w_seq w) (w_type w) (w_key w) (default [] (w_val w)) t; Ok (u64 (seq + 1), t))) as -> by (by destruct v).
  destruct (MemTable.Add _ _ _ _ t); rbind; [|done]. rewrite u64_small, IH by lia. destruct (fill _ _); rbind; [|done]. do 2 f_equal. lia.
Qed.

Lemma InsertInto_fill b seq ops t t' : batch b seq ops → Forall op_ok ops → seq + zlen ops < 2 ^ 64 → fill (number seq ops) t = Ok t' →
  InsertInto b t = Ok (sOK, t').
Proof.
  intros Hb Hok Hn Hf. unfold InsertInto, Sequence. pose proof Hb as (E & _ & Hs). rewrite E at 1. rewrite Fixed64_roundtrip by done. rbind.
  rewrite (Iterate_ok inserter b seq ops (seq, t) (seq + zlen ops, t') Hb Hok); [done|]. rewrite insert_numbered by lia. by rewrite Hf.
Qed.
End WriteBatch.
