(* ===== verification/Env.v ===== *)
(** * Files of LevelDB (pack/leveldb/include/leveldb/env.h)

    The interfaces through which the log, the tables and the manifest reach
    the file system, with what they promise: appended bytes arrive at the end
    of the file in order, a sequential read returns fewer bytes than asked
    for only at the end of the file. *)

From S2P Require Import Prelude Cstd Cmem Status.

Class WritableFile (F : Type) := {
  wf_Append : F → bytes → result (Status * F);
  wf_Close : F → result (Status * F);
  wf_Flush : F → result (Status * F);
  wf_Sync : F → result (Status * F)
}.

Class SequentialFile (F : Type) := {
  sf_Read : F → Z → Status * bytes * F;
  sf_Skip : F → Z → Status * F
}.

Class RandomAccessFile (F : Type) := {
  ra_Read : F → Z → Z → result (Status * bytes);
  (** are the bytes put into the buffer of the caller? *)
  ra_scratch : F → bool
}.

(** A file that takes every write; [written] is what it holds. *)
Class WritableLaws (F : Type) `{WritableFile F} (written : F → bytes → Prop) : Prop := {
  wf_append_law f u d : written f u → ∃ f', wf_Append f d = Ok (sOK, f') ∧ written f' (u ++ d);
  wf_flush_law f u : written f u → ∃ f', wf_Flush f = Ok (sOK, f') ∧ written f' u;
  wf_sync_law f u : written f u → ∃ f', wf_Sync f = Ok (sOK, f') ∧ written f' u;
  wf_close_law f u : written f u → ∃ f', wf_Close f = Ok (sOK, f')
}.

(** A file that reads without errors; [unread] is what is left of it. *)
Class SequentialLaws (F : Type) `{SequentialFile F} (unread : F → bytes → Prop) : Prop := {
  sf_read_law f u n : unread f u → 0 ≤ n →
    ∃ f', sf_Read f n = (sOK, take (Z.to_nat n) u, f') ∧ unread f' (drop (Z.to_nat n) u)
}.

(** A file that reads what it holds at any place. *)
Class RandomLaws (F : Type) `{RandomAccessFile F} (content : F → bytes → Prop) : Prop := {
  ra_read_law f a d b : content f (a ++ d ++ b) → ra_Read f (zlen a) (zlen d) = Ok (sOK, d)
}.

(** Files that are texts in memory. *)
#[export] Instance bytes_Writable : WritableFile bytes := {|
  wf_Append f d := Ok (sOK, f ++ d);
  wf_Close f := Ok (sOK, f);
  wf_Flush f := Ok (sOK, f);
  wf_Sync f := Ok (sOK, f)
|}.
#[export] Instance bytes_Sequential : SequentialFile bytes := {|
  sf_Read f n := (sOK, take (Z.to_nat n) f, drop (Z.to_nat n) f);
  sf_Skip f n := (sOK, drop (Z.to_nat n) f)
|}.
#[export] Instance bytes_RandomAccess : RandomAccessFile bytes := {|
  ra_Read f offset n := Ok (sOK, take (Z.to_nat n) (drop (Z.to_nat offset) f));
  ra_scratch f := true
|}.
#[export] Instance bytes_written : WritableLaws bytes (=).
Proof. split; intros f u **; subst u; eexists; first [done|split; reflexivity]. Qed.
#[export] Instance bytes_unread : SequentialLaws bytes (=).
Proof. split. intros f u n <- _. eexists. split; reflexivity. Qed.
#[export] Instance bytes_random : RandomLaws bytes (=).
Proof. split. intros f a d b ->. cbn. by rewrite !to_nat_zlen, drop_app_length, take_app_length. Qed.
