(* ===== verification/FileSystem.v ===== *)
(** * The environment of LevelDB (pack/leveldb/include/leveldb/env.h,
    util/env.cc)

    Opening, deleting and renaming files as an interface, with what it
    promises also where operations fail, and the helpers that write and read
    a whole file. A file that is being written holds the environment until it
    is deleted: no other file is touched meanwhile. Then the names of the
    files of a database and the file CURRENT (db/filename.cc). *)

From stdpp Require Import gmap.
From S2P Require Import Prelude Cstd Cmem Status Env.

Abbreviation Names := (gmap bytes bytes).

Class Env (E W S R : Type) `{WritableFile W} `{SequentialFile S} `{RandomAccessFile R} := {
  (** the file, or the environment where it cannot be created *)
  env_NewWritableFile : bytes → E → result (Status * (E + W));
  env_NewSequentialFile : bytes → E → result (Status * option S * E);
  env_NewRandomAccessFile : bytes → E → result (Status * option R * E);
  env_DeleteFile : bytes → E → result (Status * E);
  env_RenameFile : bytes → bytes → E → result (Status * E);
  (** [delete file], which closes it *)
  env_done : W → E
}.

(** [holds e m c]: the files are [m]; if [c], no operation fails any more.
    [writing f n m u c]: the file [n] is being written and holds [u];
    [written_out]: it was closed. *)
Class EnvLaws (E W S R : Type) `{Env E W S R} (holds : E → Names → bool → Prop)
  (writing : W → bytes → Names → bytes → bool → Prop) (written_out : W → bytes → Names → bytes → bool → Prop)
  (unread : S → bytes → Prop) (content : R → bytes → Prop) : Prop := {
  env_new_law n e m c : holds e m c →
    (∃ f, env_NewWritableFile n e = Ok (sOK, inr f) ∧ writing f n m [] c) ∨
    (c = false ∧ ∃ s e', env_NewWritableFile n e = Ok (s, inl e') ∧ ok s = false ∧ holds e' m c);
  env_append_law f n m u c d : writing f n m u c →
    ∃ s f' u', wf_Append f d = Ok (s, f') ∧ writing f' n m u' c ∧ (ok s = true → u' = u ++ d) ∧ (c = true → s = sOK);
  env_sync_law f n m u c : writing f n m u c → ∃ s f', wf_Sync f = Ok (s, f') ∧ writing f' n m u c ∧ (c = true → s = sOK);
  env_close_law f n m u c : writing f n m u c →
    ∃ s f' u', wf_Close f = Ok (s, f') ∧ written_out f' n m u' c ∧ (ok s = true → u' = u) ∧ (c = true → s = sOK);
  env_done_law f n m u c : writing f n m u c → ∃ u', holds (env_done f) (<[n := u']> m) c;
  env_closed_law f n m u c : written_out f n m u c → holds (env_done f) (<[n := u]> m) c;
  env_delete_law n e m c : holds e m c → ∃ s e', env_DeleteFile n e = Ok (s, e') ∧ holds e' (if ok s then delete n m else m) c;
  env_rename_law a b e m c u : holds e m c → m !! a = Some u →
    ∃ s e', env_RenameFile a b e = Ok (s, e') ∧ holds e' (if ok s then <[b := u]> (delete a m) else m) c ∧ (c = true → s = sOK);
  env_sequential_law n e m c u : holds e m c → m !! n = Some u →
    (∃ f e', env_NewSequentialFile n e = Ok (sOK, Some f, e') ∧ holds e' m c ∧ unread f u) ∨
    (c = false ∧ ∃ s e', env_NewSequentialFile n e = Ok (s, None, e') ∧ ok s = false ∧ holds e' m c);
  env_random_law n e m c u : holds e m c → m !! n = Some u →
    (∃ f e', env_NewRandomAccessFile n e = Ok (sOK, Some f, e') ∧ holds e' m c ∧ content f u) ∨
    (c = false ∧ ∃ s e', env_NewRandomAccessFile n e = Ok (s, None, e') ∧ ok s = false ∧ holds e' m c)
}.

(** ** Whole files *)
Module Files.
Section files.
Context {E W S R : Type} `{Env E W S R}.

Definition DoWriteStringToFile (data fname : bytes) (should_sync : bool) (e : E) : result (Status * E) :=
  '(s, r) ← env_NewWritableFile fname e;
  match r with
  | inl e => Ok (s, e)
  | inr f =>
      if ok s then
        '(s, f) ← wf_Append f data;
        '(s, f) ← (if ok s && should_sync then wf_Sync f else Ok (s, f));
        '(s, f) ← (if ok s then wf_Close f else Ok (s, f));
        let e := env_done f in
        if ok s then Ok (s, e) else '(_, e) ← env_DeleteFile fname e; Ok (s, e)
      else Ok (s, env_done f)
  end.
Definition WriteStringToFile (data fname : bytes) (e : E) : result (Status * E) := DoWriteStringToFile data fname false e.
Definition WriteStringToFileSync (data fname : bytes) (e : E) : result (Status * E) := DoWriteStringToFile data fname true e.

Definition kBufferSize : Z := 8192.
(** The loop of [ReadFileToString]. *)
Fixpoint read_all (fuel : nat) (f : S) (data : bytes) : result (Status * bytes) :=
  match fuel with
  | O => Fault AssertFailed
  | Datatypes.S fuel =>
      let '(s, fragment, f) := sf_Read f kBufferSize in
      if ok s then
        let data := data ++ fragment in
        if zlen fragment =? 0 then Ok (s, data) else read_all fuel f data
      else Ok (s, data)
  end.
Definition ReadFileToString (fuel : nat) (fname : bytes) (e : E) : result (Status * bytes * E) :=
  '(s, f, e) ← env_NewSequentialFile fname e;
  match f with
  | Some f => if ok s then '(s, d) ← read_all fuel f []; Ok (s, d, e) else Ok (s, [], e)
  | None => if ok s then Fault OutOfBounds else Ok (s, [], e)
  end.
End files.
End Files.
Import Files.

Section laws.
Context {E W S R : Type} `{HE : Env E W S R} {holds : E → Names → bool → Prop} {writing written_out : W → bytes → Names → bytes → bool → Prop}.
Context {unread : S → bytes → Prop} {content : R → bytes → Prop} {HL : EnvLaws E W S R holds writing written_out unread content} {HS : SequentialLaws S unread}.

(** A write of a whole file fails and leaves no other file changed, or
    succeeds. *)
Lemma DoWrite_ok data fname sync e m c : holds e m c →
  ∃ s e' m', DoWriteStringToFile data fname sync e = Ok (s, e') ∧ holds e' m' c ∧ delete fname m' = delete fname m ∧
    (ok s = true → m' = <[fname := data]> m) ∧ (c = true → s = sOK).
Proof.
  intros He. unfold DoWriteStringToFile. destruct (env_new_law fname e m c He) as [(f & -> & Hf)|(-> & s & e' & -> & Hs & He')]; rbind.
  2: { exists s, e', m. split; [done|]. split; [done|]. split; [done|]. split; [congruence|done]. }
  cbn [ok sOK]. destruct (env_append_law f fname m [] c data Hf) as (s1 & f1 & u1 & -> & Hf1 & Hu1 & Hc1). rbind.
  assert (∃ s2 f2, (if ok s1 && sync then wf_Sync f1 else Ok (s1, f1)) = Ok (s2, f2) ∧ writing f2 fname m u1 c ∧ (ok s2 = true → u1 = data) ∧ (c = true → s2 = sOK)) as (s2 & f2 & -> & Hf2 & Hu2 & Hc2).
  { destruct (ok s1) eqn:E1, sync; cbn [andb]; try by exists s1, f1; (split; [done|]); (split; [done|]); rewrite ?E1; (split; [by intros; apply Hu1|done]).
    destruct (env_sync_law f1 fname m u1 c Hf1) as (s2 & f2 & -> & Hf2 & Hc2). exists s2, f2. split; [done|]. split; [done|]. split; [by intros; apply Hu1|done]. }
  rbind. assert (∀ u', delete fname (<[fname := u']> m) = delete fname m) as Hd by (intros; apply delete_insert_eq).
  destruct (ok s2) eqn:E2.
  - destruct (env_close_law f2 fname m u1 c Hf2) as (s3 & f3 & u3 & -> & Hf3 & Hu3 & Hc3). rbind. pose proof (env_closed_law f3 fname m u3 c Hf3) as Hdone.
    destruct (ok s3) eqn:E3; [|destruct (env_delete_law fname _ _ _ Hdone) as (s' & e' & -> & He'); rbind].
    + eexists _, _, _. split; [done|]. split; [exact Hdone|]. split; [apply Hd|]. split; [|done]. intros _. by rewrite Hu3, Hu2.
    + eexists _, _, _. split; [done|]. split; [exact He'|]. split; [destruct (ok s'); rewrite ?delete_delete_eq, ?Hd; done|]. split; [congruence|done].
  - rbind. rewrite E2. destruct (env_done_law f2 fname m u1 c Hf2) as (u' & Hdone). destruct (env_delete_law fname _ _ _ Hdone) as (s' & e' & -> & He'). rbind.
    eexists _, _, _. split; [done|]. split; [exact He'|]. split; [destruct (ok s'); rewrite ?delete_delete_eq, ?Hd; done|]. split; [congruence|done].
Qed.

Lemma read_all_ok fuel : ∀ f u d, unread f u → (length u < fuel)%nat → read_all fuel f d = Ok (sOK, d ++ u).
Proof.
  induction fuel as [|fuel IH]; intros f u d Hf Hn; [lia|]. cbn [read_all]. destruct (sf_read_law f u kBufferSize Hf) as (f' & -> & Hf'); [done|]. cbn [ok sOK].
  destruct u as [|x u]; [by rewrite take_nil|]. assert ((zlen (take (Z.to_nat kBufferSize) (x :: u)) =? 0) = false) as ->.
  { apply Z.eqb_neq. unfold zlen, kBufferSize. rewrite length_take. cbn [length]. lia. }
  rewrite (IH f' (drop (Z.to_nat kBufferSize) (x :: u))); [by rewrite <- app_assoc, take_drop|done|]. rewrite length_drop. unfold kBufferSize. cbn [length] in Hn |- *. lia.
Qed.

Lemma ReadFile_ok fuel fname e m c u : holds e m c → m !! fname = Some u → (length u < fuel)%nat →
  ∃ s d e', ReadFileToString fuel fname e = Ok (s, d, e') ∧ holds e' m c ∧ (ok s = true → d = u) ∧ (c = true → s = sOK).
Proof.
  intros He Hu Hn. unfold ReadFileToString. destruct (env_sequential_law fname e m c u He Hu) as [(f & e' & -> & He' & Hf)|(-> & s & e' & -> & Hs & He')]; rbind; cbn [ok sOK].
  - rewrite (read_all_ok fuel f u [] Hf Hn). rbind. by exists sOK, u, e'.
  - rewrite Hs. exists s, [], e'. split; [done|]. split; [done|]. split; [congruence|done].
Qed.
End laws.

(** ** A disk in memory

    Its operations fail where the list of outcomes says so; a write that
    fails leaves half of its bytes. *)
Record Disk := { files : Names; outcomes : list bool }.
Definition calm (d : Disk) : Prop := Forall (λ b, b = true) (outcomes d).
Definition tick (d : Disk) : bool * Disk :=
  match outcomes d with [] => (true, d) | b :: l => (b, {| files := files d; outcomes := l |}) end.
Definition with_files (m : Names) (d : Disk) : Disk := {| files := m; outcomes := outcomes d |}.
Definition eio : Status := IOError (str "I/O error").
(** An operation that takes effect or fails. *)
Definition attempt {A} (d : Disk) (good bad : Disk → A) : Status * A := let '(b, d) := tick d in if b then (sOK, good d) else (eio, bad d).

Record Writing := { w_disk : Disk; w_name : bytes; w_data : bytes }.
Definition with_data (u : bytes) (f : Writing) (d : Disk) : Writing := {| w_disk := d; w_name := w_name f; w_data := u |}.

#[export] Instance disk_Writable : WritableFile Writing := {|
  wf_Append f d := Ok (attempt (w_disk f) (with_data (w_data f ++ d) f) (with_data (w_data f ++ take (length d / 2) d) f));
  wf_Close f := Ok (attempt (w_disk f) (with_data (w_data f) f) (with_data (w_data f) f));
  wf_Flush f := Ok (sOK, f);
  wf_Sync f := Ok (attempt (w_disk f) (with_data (w_data f) f) (with_data (w_data f) f))
|}.
Definition opened {A} (r : Status * (option A * Disk)) : result (Status * option A * Disk) := Ok (r.1, r.2.1, r.2.2).
#[export] Instance disk_Env : Env Disk Writing bytes bytes := {|
  env_NewWritableFile n d := Ok (attempt d (λ d, inr {| w_disk := d; w_name := n; w_data := [] |}) inl);
  env_NewSequentialFile n d := opened (match files d !! n with Some u => attempt d (λ d, (Some u, d)) (λ d, (None, d)) | None => (eio, (None, d)) end);
  env_NewRandomAccessFile n d := opened (match files d !! n with Some u => attempt d (λ d, (Some u, d)) (λ d, (None, d)) | None => (eio, (None, d)) end);
  env_DeleteFile n d := Ok (match files d !! n with Some _ => attempt d (λ d, with_files (delete n (files d)) d) id | None => (eio, d) end);
  env_RenameFile a b d := Ok (match files d !! a with Some u => attempt d (λ d, with_files (<[b := u]> (delete a (files d))) d) id | None => (eio, d) end);
  env_done f := with_files (<[w_name f := w_data f]> (files (w_disk f))) (w_disk f)
|}.

Definition disk_holds (d : Disk) (m : Names) (c : bool) : Prop := files d = m ∧ (c = true → calm d).
Definition disk_writing (f : Writing) (n : bytes) (m : Names) (u : bytes) (c : bool) : Prop := disk_holds (w_disk f) m c ∧ w_name f = n ∧ w_data f = u.

Lemma tick_ok d m c : disk_holds d m c → ∃ b d', tick d = (b, d') ∧ disk_holds d' m c ∧ (c = true → b = true).
Proof.
  intros [Hm Hc]. unfold tick. destruct (outcomes d) as [|b l] eqn:El.
  - exists true, d. by split.
  - exists b. eexists. split; [done|]. split.
    + split; [done|]. intros Hc'. specialize (Hc Hc'). unfold calm in *. rewrite El in Hc. by apply Forall_cons in Hc as [_ ?].
    + intros Hc'. specialize (Hc Hc'). unfold calm in Hc. rewrite El in Hc. by apply Forall_cons in Hc as [? _].
Qed.

#[export] Instance disk_laws : EnvLaws Disk Writing bytes bytes disk_holds disk_writing disk_writing (=) (=).
Proof.
  split.
  - intros n e m c He. cbn. unfold attempt. destruct (tick_ok e m c He) as ([] & d & -> & Hd & Hc); [left; eexists; by split|right]. split; [by destruct c; [discriminate Hc|]|]. eauto.
  - intros f n m u c d (Hf & Hn & Hu). cbn. unfold attempt. destruct (tick_ok _ m c Hf) as (b & e & -> & He & Hc). destruct b; eexists _, _, _; (split; [done|]); (split; [by split|]); cbn;
      (split; [done || by rewrite Hu|]); [done|by intros Hc'; discriminate (Hc Hc')].
  - intros f n m u c (Hf & Hn & Hu). cbn. unfold attempt. destruct (tick_ok _ m c Hf) as (b & e & -> & He & Hc). destruct b; eexists _, _; (split; [done|]); (split; [by split|]); [done|by intros Hc'; discriminate (Hc Hc')].
  - intros f n m u c (Hf & Hn & Hu). cbn. unfold attempt. destruct (tick_ok _ m c Hf) as (b & e & -> & He & Hc). destruct b; eexists _, _, u; (split; [done|]); (split; [by split|]); (split; [done|]); [done|by intros Hc'; discriminate (Hc Hc')].
  - intros f n m u c ([Hf Hc] & Hn & Hu). exists u. cbn. split; [cbn; by rewrite Hf, Hn, Hu|done].
  - intros f n m u c ([Hf Hc] & Hn & Hu). split; [cbn; by rewrite Hf, Hn, Hu|done].
  - intros n e m c He. cbn. pose proof He as [-> _]. destruct (m !! n) eqn:En; [|by exists eio, e]. unfold attempt. destruct (tick_ok e m c He) as ([] & d & -> & [Hd Hc] & _); eexists _, _; (split; [done|]); cbn; by split; [cbn; rewrite ?Hd|].
  - intros a b e m c u He Hu. cbn. pose proof He as [-> _]. rewrite Hu. unfold attempt. destruct (tick_ok e m c He) as ([] & d & -> & [Hd Hc] & Hb); eexists _, _; (split; [done|]); cbn; (split; [by split; [cbn; rewrite ?Hd|]|]); [done|by intros Hc'; discriminate (Hb Hc')].
  - intros n e m c u He Hu. cbn. pose proof He as [-> _]. rewrite Hu. unfold attempt. destruct (tick_ok e m c He) as ([] & d & -> & Hd & Hc); cbn; [left; by eexists _, _|right]. split; [by destruct c; [discriminate Hc|]|]. eexists _, _. by split.
  - intros n e m c u He Hu. cbn. pose proof He as [-> _]. rewrite Hu. unfold attempt. destruct (tick_ok e m c He) as ([] & d & -> & Hd & Hc); cbn; [left; by eexists _, _|right]. split; [by destruct c; [discriminate Hc|]|]. eexists _, _. by split.
Qed.

(** * File names of LevelDB (pack/leveldb/db/filename.cc, util/logging.cc)

    Names of logs, tables and manifests by number, the parser that recognises
    them in a directory, and the file CURRENT, which names the manifest in
    use and is replaced as a whole. *)
Import Files.

(** ** Numbers in texts (util/logging.cc) *)
Module Logging.
Definition AppendNumberTo (s : bytes) (num : Z) : bytes := s ++ snprintf 30 (udec num).
Definition NumberToString (num : Z) : bytes := AppendNumberTo [] num.

Definition hex_digit (d : Z) : Z := if d <? 10 then 48 + d else 87 + d.
(** A byte is a [char]: from 128 on it is negative, which is not printable. *)
Fixpoint AppendEscapedStringTo (s value : bytes) : bytes :=
  match value with
  | [] => s
  | c :: value =>
      AppendEscapedStringTo (if (32 <=? c) && (c <=? 126) then s ++ [c] else s ++ snprintf 10 (str "\x" ++ [hex_digit (c / 16); hex_digit (c mod 16)])) value
  end.
Definition EscapeString (value : bytes) : bytes := AppendEscapedStringTo [] value.

Definition ConsumeChar (input : bytes) (c : Z) : bool * bytes :=
  match input with d :: rest => if d =? c then (true, rest) else (false, input) | [] => (false, input) end.

Definition kMaxUint64 : Z := 2 ^ 64 - 1.
(** The loop of [ConsumeDecimalNumber]. *)
Fixpoint consume (input : bytes) (v digits : Z) : option (Z * Z * bytes) :=
  match input with
  | c :: rest =>
      if (48 <=? c) && (c <=? 57) then
        let delta := c - 48 in
        if (kMaxUint64 / 10 <? v) || ((v =? kMaxUint64 / 10) && (kMaxUint64 mod 10 <? delta)) then None
        else consume rest (u64 (v * 10 + delta)) (digits + 1)
      else Some (v, digits, input)
  | [] => Some (v, digits, input)
  end.
Definition ConsumeDecimalNumber (input : bytes) : option (Z * bytes) :=
  match consume input 0 0 with Some (v, digits, rest) => if 0 <? digits then Some (v, rest) else None | None => None end.
End Logging.
Import Logging.

(** ** Names *)
Module Filename.
Inductive FileType := kLogFile | kDBLockFile | kTableFile | kDescriptorFile | kCurrentFile | kTempFile | kInfoLogFile.

(** [%06llu]. *)
Definition padded (number : Z) : bytes := replicate (6 - length (udec number)) 48 ++ udec number.

Definition MakeFileName (name : bytes) (number : Z) (suffix : bytes) : bytes := name ++ snprintf 100 (str "/" ++ padded number ++ str "." ++ suffix).
Definition numbered (number : Z) (name : bytes) : result bytes := if 0 <? number then Ok name else Fault AssertFailed.
Definition LogFileName (name : bytes) (number : Z) : result bytes := numbered number (MakeFileName name number (str "log")).
Definition TableFileName (name : bytes) (number : Z) : result bytes := numbered number (MakeFileName name number (str "sst")).
Definition DescriptorFileName (dbname : bytes) (number : Z) : result bytes := numbered number (dbname ++ snprintf 100 (str "/MANIFEST-" ++ padded number)).
Definition CurrentFileName (dbname : bytes) : bytes := dbname ++ str "/CURRENT".
Definition LockFileName (dbname : bytes) : bytes := dbname ++ str "/LOCK".
Definition TempFileName (dbname : bytes) (number : Z) : result bytes := numbered number (MakeFileName dbname number (str "dbtmp")).
Definition InfoLogFileName (dbname : bytes) : bytes := dbname ++ str "/LOG".
Definition OldInfoLogFileName (dbname : bytes) : bytes := dbname ++ str "/LOG.old".

Definition starts_with (s x : bytes) : bool := bool_decide (take (length x) s = x).

Definition ParseFileName (fname : bytes) : option (Z * FileType) :=
  if bool_decide (fname = str "CURRENT") then Some (0, kCurrentFile)
  else if bool_decide (fname = str "LOCK") then Some (0, kDBLockFile)
  else if bool_decide (fname = str "LOG") || bool_decide (fname = str "LOG.old") then Some (0, kInfoLogFile)
  else if starts_with fname (str "MANIFEST-") then
    match ConsumeDecimalNumber (drop 9 fname) with
    | Some (num, rest) => if zlen rest =? 0 then Some (num, kDescriptorFile) else None
    | None => None
    end
  else
    match ConsumeDecimalNumber fname with
    | Some (num, suffix) =>
        if bool_decide (suffix = str ".log") then Some (num, kLogFile)
        else if bool_decide (suffix = str ".sst") then Some (num, kTableFile)
        else if bool_decide (suffix = str ".dbtmp") then Some (num, kTempFile)
        else None
    | None => None
    end.

Section current.
Context {E W S R : Type} `{Env E W S R}.

Definition SetCurrentFile (dbname : bytes) (descriptor_number : Z) (e : E) : result (Status * E) :=
  manifest ← DescriptorFileName dbname descriptor_number;
  if starts_with manifest (dbname ++ str "/") then
    let contents := drop (length dbname + 1) manifest in
    tmp ← TempFileName dbname descriptor_number;
    '(s, e) ← WriteStringToFileSync (contents ++ [10]) tmp e;
    '(s, e) ← (if ok s then env_RenameFile tmp (CurrentFileName dbname) e else Ok (s, e));
    if ok s then Ok (s, e) else '(_, e) ← env_DeleteFile tmp e; Ok (s, e)
  else Fault AssertFailed.

(** The beginning of [VersionSet::Recover]: the name of the manifest. *)
Definition current_descriptor (fuel : nat) (dbname : bytes) (e : E) : result (Status * bytes * E) :=
  '(s, current, e) ← ReadFileToString fuel (CurrentFileName dbname) e;
  if negb (ok s) then Ok (s, [], e)
  else
    match last current with
    | Some 10 => Ok (sOK, dbname ++ str "/" ++ take (length current - 1) current, e)
    | _ => Ok (Corruption (str "CURRENT file does not end with newline"), [], e)
    end.
End current.
End Filename.
Import Filename.

(** ** A number is read as it was printed *)
Lemma digits_value_ge s : ∀ acc, Forall (λ c, isdigit c = true) s → 0 ≤ acc → acc ≤ digits_value s acc.
Proof.
  induction s as [|c s IH]; intros acc Hs Ha; [by cbn|]. apply Forall_cons in Hs as [Hc Hs]. unfold isdigit in Hc. cbn. fold (digits_value s (10 * acc + (c - 48))).
  specialize (IH (10 * acc + (c - 48)) Hs). lia.
Qed.

Lemma consume_digits s t : ∀ v n, Forall (λ c, isdigit c = true) s → 0 ≤ v → digits_value s v < 2 ^ 64 → consume (s ++ t) v n = consume t (digits_value s v) (n + zlen s).
Proof.
  induction s as [|c s IH]; intros v n Hs Hv Hb; [cbn; f_equal; zlia|]. apply Forall_cons in Hs as [Hc Hs]. cbn [app consume]. unfold isdigit in Hc. rewrite Hc.
  cbn in Hb. fold (digits_value s (10 * v + (c - 48))) in Hb. pose proof (digits_value_ge s (10 * v + (c - 48)) Hs ltac:(lia)) as Hge.
  change (kMaxUint64 / 10) with 1844674407370955161. change (kMaxUint64 mod 10) with 5.
  assert ((1844674407370955161 <? v) || ((v =? 1844674407370955161) && (5 <? c - 48)) = false) as -> by lia.
  rewrite u64_small by lia. replace (v * 10 + (c - 48)) with (10 * v + (c - 48)) by lia. rewrite IH by (done || lia). rewrite zlen_cons. cbn. f_equal. lia.
Qed.

Lemma consume_stop t v n : not_digit_first t → consume t v n = Some (v, n, t).
Proof. destruct t as [|c t]; [done|]. cbn. unfold isdigit. by intros ->. Qed.

Lemma zeros_value k s : digits_value (replicate k 48 ++ s) 0 = digits_value s 0.
Proof. unfold digits_value. induction k as [|k IH]; [done|exact IH]. Qed.

Lemma padded_digits n : 0 ≤ n → Forall (λ c, isdigit c = true) (padded n) ∧ digits_value (padded n) 0 = n ∧ 0 < zlen (padded n).
Proof.
  intros Hn. unfold padded. split; [|split].
  - apply Forall_app. split; [by apply Forall_replicate|by apply udec_digits].
  - rewrite zeros_value. by apply udec_value.
  - rewrite zlen_app. pose proof (zlen_udec_pos n). zlia.
Qed.

Lemma consume_padded n t : 0 ≤ n < 2 ^ 64 → not_digit_first t → ConsumeDecimalNumber (padded n ++ t) = Some (n, t).
Proof.
  intros Hn Ht. destruct (padded_digits n ltac:(lia)) as (Hd & Hv & Hp). unfold ConsumeDecimalNumber. rewrite consume_digits by (done || lia). rewrite consume_stop by done.
  rewrite Hv, (proj2 (Z.ltb_lt _ _)) by lia. done.
Qed.

Lemma padded_length n : 0 ≤ n < 2 ^ 64 → (length (padded n) ≤ 20)%nat.
Proof. intros Hn. unfold padded. rewrite length_app, length_replicate. pose proof (udec_len_le n 20 ltac:(lia) ltac:(lia)). lia. Qed.

Lemma MakeFileName_eq name n suffix : 0 ≤ n < 2 ^ 64 → (length suffix ≤ 5)%nat → MakeFileName name n suffix = name ++ str "/" ++ padded n ++ str "." ++ suffix.
Proof.
  intros Hn Hs. unfold MakeFileName, snprintf. rewrite take_ge; [done|]. pose proof (padded_length n Hn). rewrite !length_app. cbn [length str]. change (length (str "/")) with 1%nat. change (length (str ".")) with 1%nat. lia.
Qed.
Lemma Descriptor_eq name n : 0 < n < 2 ^ 64 → DescriptorFileName name n = Ok (name ++ str "/" ++ str "MANIFEST-" ++ padded n).
Proof.
  intros Hn. unfold DescriptorFileName, numbered, snprintf. rewrite (proj2 (Z.ltb_lt _ _)) by lia. rewrite take_ge; [done|]. pose proof (padded_length n ltac:(lia)). rewrite length_app. change (length (str "/MANIFEST-")) with 10%nat. lia.
Qed.

(** A name that begins with a digit is none of the fixed names. *)
Lemma parse_number n suffix : 0 ≤ n < 2 ^ 64 → not_digit_first suffix →
  ParseFileName (padded n ++ suffix) = if bool_decide (suffix = str ".log") then Some (n, kLogFile)
    else if bool_decide (suffix = str ".sst") then Some (n, kTableFile) else if bool_decide (suffix = str ".dbtmp") then Some (n, kTempFile) else None.
Proof.
  intros Hn Hs. destruct (padded_digits n ltac:(lia)) as (Hd & _ & Hp). unfold ParseFileName. rewrite consume_padded by done.
  destruct (padded n) as [|c p]; [by cbn in Hp|]. apply Forall_cons in Hd as [Hc _]. unfold isdigit in Hc.
  assert (48 ≤ c ≤ 57) by lia. assert (∀ x l, 57 < x → (c :: p) ++ suffix ≠ x :: l) as Hne by (intros x l Hx [= ->]; lia).
  rewrite !(bool_decide_false ((c :: p) ++ suffix = _)) by (apply Hne; reflexivity). unfold starts_with. rewrite bool_decide_false; [done|]. cbn. intros [= -> _]. lia.
Qed.

(** C20: Every name the database makes for a log, a table, a temporary file
    or a manifest with a 64-bit number lies in its directory and is
    recognised there with the same kind and number, and so are the names of
    the lock, of CURRENT and of the logs of messages: no live file is taken
    for another one. *)
Theorem file_names_parse dbname number : 0 < number < 2 ^ 64 →
  ∃ l t d tmp,
    LogFileName dbname number = Ok (dbname ++ str "/" ++ l) ∧ ParseFileName l = Some (number, kLogFile) ∧
    TableFileName dbname number = Ok (dbname ++ str "/" ++ t) ∧ ParseFileName t = Some (number, kTableFile) ∧
    DescriptorFileName dbname number = Ok (dbname ++ str "/" ++ d) ∧ ParseFileName d = Some (number, kDescriptorFile) ∧
    TempFileName dbname number = Ok (dbname ++ str "/" ++ tmp) ∧ ParseFileName tmp = Some (number, kTempFile) ∧
    (∀ f k, (f, k) ∈ [(CurrentFileName, kCurrentFile); (LockFileName, kDBLockFile); (InfoLogFileName, kInfoLogFile); (OldInfoLogFileName, kInfoLogFile)] →
      ∃ b, f dbname = dbname ++ str "/" ++ b ∧ ParseFileName b = Some (0, k)).
Proof.
  intros Hn. exists (padded number ++ str ".log"), (padded number ++ str ".sst"), (str "MANIFEST-" ++ padded number), (padded number ++ str ".dbtmp").
  unfold LogFileName, TableFileName, TempFileName, numbered. rewrite (proj2 (Z.ltb_lt _ _)) by lia. rewrite !MakeFileName_eq by (lia || (cbn; lia)). rewrite Descriptor_eq by done.
  rewrite !parse_number by (lia || done). repeat (split; [done|]). split; [|split; [done|split; [done|]]].
  - unfold ParseFileName. change (bool_decide (str "MANIFEST-" ++ padded number = _)) with false. cbn [orb].
    assert (starts_with (str "MANIFEST-" ++ padded number) (str "MANIFEST-") = true) as -> by (apply bool_decide_true; by rewrite take_app_length).
    change 9%nat with (length (str "MANIFEST-")). rewrite drop_app_length, <- (app_nil_r (padded number)), consume_padded by (lia || done). done.
  - intros f k. rewrite !elem_of_cons. intros [[= -> ->]|[[= -> ->]|[[= -> ->]|[[= -> ->]|Hin]]]]; [eexists; split; [reflexivity|done]..|]. by apply elem_of_nil in Hin.
Qed.

Lemma file_names_parse_witness : ∃ l, LogFileName (str "db") 7 = Ok (str "db" ++ str "/" ++ l) ∧ l = str "000007.log" ∧ ParseFileName l = Some (7, kLogFile).
Proof.
  destruct (file_names_parse (str "db") 7 ltac:(lia)) as (l & t & d & tmp & H1 & H2 & _). exists l. split; [exact H1|]. split; [|exact H2].
  vm_compute in H1. injection H1 as H1. symmetry. exact H1.
Defined.

(** ** CURRENT is replaced as a whole *)
Section current.
Context {E W S R : Type} `{HE : Env E W S R} {holds : E → Names → bool → Prop} {writing written_out : W → bytes → Names → bytes → bool → Prop}.
Context {unread : S → bytes → Prop} {content : R → bytes → Prop} {HL : EnvLaws E W S R holds writing written_out unread content} {HS : SequentialLaws S unread}.

Lemma temp_not_current dbname n : 0 ≤ n < 2 ^ 64 → dbname ++ str "/" ++ padded n ++ str "." ++ str "dbtmp" ≠ CurrentFileName dbname.
Proof.
  intros Hn Heq. apply app_inv_head in Heq. injection Heq as Heq. destruct (padded_digits n ltac:(lia)) as (Hd & _ & Hp).
  destruct (padded n) as [|c p]; [by cbn in Hp|]. apply Forall_cons in Hd as [Hc _]. injection Heq as -> _. done.
Qed.

Lemma delete_lookup_same (t n : bytes) (m m' : Names) : delete t m' = delete t m → n ≠ t → m' !! n = m !! n.
Proof. intros Hd Hn. rewrite <- (lookup_delete_ne m t n), <- (lookup_delete_ne m' t n) by done. by rewrite Hd. Qed.

(** C19: Replacing CURRENT, whatever fails on the way, leaves CURRENT as it
    was and says so, or makes it name the new manifest; no other file but the
    temporary one is touched; what was written is read back as the name of
    the manifest; and where nothing fails it succeeds. *)
Theorem current_file_atomic dbname number e m c fuel : holds e m c → 0 < number < 2 ^ 64 → (40 ≤ fuel)%nat →
  ∃ s e' m' tmp, SetCurrentFile dbname number e = Ok (s, e') ∧ holds e' m' c ∧ (c = true → s = sOK) ∧ TempFileName dbname number = Ok tmp ∧
    (∀ n, n ≠ tmp → n ≠ CurrentFileName dbname → m' !! n = m !! n) ∧
    (ok s = false → m' !! CurrentFileName dbname = m !! CurrentFileName dbname) ∧
    (ok s = true → ∃ s2 d e2, current_descriptor fuel dbname e' = Ok (s2, d, e2) ∧ (ok s2 = true → DescriptorFileName dbname number = Ok d) ∧ (c = true → s2 = sOK)).
Proof.
  intros He Hn Hfuel. unfold SetCurrentFile. rewrite Descriptor_eq by done. rbind. set (text := str "MANIFEST-" ++ padded number).
  assert (starts_with (dbname ++ str "/" ++ text) (dbname ++ str "/") = true) as -> by (apply bool_decide_true; by rewrite app_assoc, take_app_length).
  replace (drop (length dbname + 1) (dbname ++ str "/" ++ text)) with text by (rewrite app_assoc, drop_app_length'; [done|by rewrite length_app]).
  unfold TempFileName, numbered. rewrite (proj2 (Z.ltb_lt _ _)) by lia. rbind. rewrite MakeFileName_eq by (lia || (cbn; lia)). set (tmp := dbname ++ str "/" ++ padded number ++ str "." ++ str "dbtmp").
  assert (CurrentFileName dbname ≠ tmp) as Hct by (intros Heq; eapply temp_not_current; [|by symmetry]; lia).
  destruct (DoWrite_ok (text ++ [10]) tmp true e m c He) as (s1 & e1 & m1 & E1 & He1 & Hd1 & Hok1 & Hc1). unfold WriteStringToFileSync. rewrite E1. rbind.
  assert (∀ n, n ≠ tmp → m1 !! n = m !! n) as Hm1 by (intros n; by apply delete_lookup_same).
  destruct (ok s1) eqn:Es1; [rewrite (Hok1 eq_refl) in *; destruct (env_rename_law tmp (CurrentFileName dbname) e1 _ c (text ++ [10]) He1) as (s2 & e2 & -> & He2 & Hc2); [by rewrite lookup_insert_eq|]; rbind; destruct (ok s2) eqn:Es2|rbind; rewrite Es1].
  - eexists _, _, _, tmp. split; [done|]. split; [exact He2|]. split; [done|]. split; [done|]. split; [|split; [by rewrite Es2|]].
    + intros n Hnt Hnc. rewrite lookup_insert_ne by done. rewrite lookup_delete_ne by done. by apply Hm1.
    + intros _. unfold current_descriptor. destruct (ReadFile_ok fuel (CurrentFileName dbname) e2 _ c (text ++ [10]) He2) as (s3 & d & e3 & -> & _ & Hd & Hc3); [by rewrite lookup_insert_eq| |].
      { unfold text. rewrite !length_app. pose proof (padded_length number ltac:(lia)). change (length (str "MANIFEST-")) with 9%nat. cbn [length]. lia. }
      rbind. destruct (ok s3) eqn:Es3; cbn [negb].
      * rewrite (Hd eq_refl), last_snoc. eexists _, _, _. split; [done|]. split; [|done]. intros _. rewrite length_app. cbn [length]. replace (length text + 1 - 1)%nat with (length text) by lia. by rewrite take_app_length.
      * eexists _, _, _. split; [done|]. split; [congruence|done].
  - destruct (env_delete_law tmp e2 _ c He2) as (s3 & e3 & -> & He3). rbind. eexists _, _, _, tmp. split; [done|]. split; [exact He3|]. split; [done|]. split; [done|].
    assert (∀ n, n ≠ tmp → (if ok s3 then delete tmp (<[tmp := text ++ [10]]> m) else <[tmp := text ++ [10]]> m) !! n = m !! n) as Hrest.
    { intros n Hnt. destruct (ok s3); rewrite ?lookup_delete_ne by done; by apply Hm1. }
    split; [intros n Hnt _; by apply Hrest|]. split; [intros _; by apply Hrest|]. by rewrite Es2.
  - destruct (env_delete_law tmp e1 _ c He1) as (s3 & e3 & -> & He3). rbind. eexists _, _, _, tmp. split; [done|]. split; [exact He3|]. split; [done|]. split; [done|].
    assert (∀ n, n ≠ tmp → (if ok s3 then delete tmp m1 else m1) !! n = m !! n) as Hrest.
    { intros n Hnt. destruct (ok s3); rewrite ?lookup_delete_ne by done; by apply Hm1. }
    split; [intros n Hnt _; by apply Hrest|]. split; [intros _; by apply Hrest|]. by rewrite Es1.
Qed.
End current.

(** The write succeeds, the rename fails. *)
Lemma current_file_atomic_witness : let e := {| files := {[ str "db/CURRENT" := str "old" ]}; outcomes := [true; true; true; true; false] |} in
  disk_holds e {[ str "db/CURRENT" := str "old" ]} false ∧
  ∃ s e' m' tmp, SetCurrentFile (str "db") 5 e = Ok (s, e') ∧ disk_holds e' m' false ∧ (false = true → s = sOK) ∧ TempFileName (str "db") 5 = Ok tmp ∧
    (∀ n, n ≠ tmp → n ≠ CurrentFileName (str "db") → m' !! n = ({[ str "db/CURRENT" := str "old" ]} : Names) !! n) ∧
    (ok s = false → m' !! CurrentFileName (str "db") = ({[ str "db/CURRENT" := str "old" ]} : Names) !! CurrentFileName (str "db")) ∧
    (ok s = true → ∃ s2 d e2, current_descriptor 40 (str "db") e' = Ok (s2, d, e2) ∧ (ok s2 = true → DescriptorFileName (str "db") 5 = Ok d) ∧ (false = true → s2 = sOK)).
Proof.
  intros e. assert (disk_holds e {[ str "db/CURRENT" := str "old" ]} false) as He by (by split). split; [exact He|].
  apply (current_file_atomic (holds := disk_holds) (writing := disk_writing) (written_out := disk_writing) (unread := eq) (content := eq) (str "db") 5 e _ false 40 He); lia.
Defined.
