(* ===== verification/VersionEdit.v ===== *)
(** * Version edits of LevelDB (pack/leveldb/db/version_edit.cc)

    A change of the set of tables, as the manifest records it: numbers of
    logs and files, the last sequence number, files that are new and files
    that are deleted, by level. *)

From stdpp Require Import sorting.
From S2P Require Import Prelude Cstd Cmem Coding Status DbFormat.

Module VersionEdit.
Definition kNumLevels : Z := 7.

(** [InternalKey]: the text [rep_], which is empty where it is not valid. *)
Definition InternalKey_Encode (rep_ : bytes) : result bytes := if zlen rep_ =? 0 then Fault AssertFailed else Ok rep_.

(** The number of references, which frees the object, is left out. *)
Record FileMetaData := { allowed_seeks : Z; number : Z; file_size : Z; smallest : bytes; largest : bytes }.
#[global] Instance FileMetaData_eq_dec : EqDecision FileMetaData.
Proof. solve_decision. Defined.
Definition FileMetaData_new (number file_size : Z) (smallest largest : bytes) : FileMetaData :=
  {| allowed_seeks := Z.shiftl 1 30; number := number; file_size := file_size; smallest := smallest; largest := largest |}.

(** A field with its flag [has_...] is an option. [deleted_files_] is a
    [std::set]: sorted, without duplicates. *)
Record VersionEdit := {
  comparator_ : option bytes;
  log_number_ : option Z;
  prev_log_number_ : option Z;
  next_file_number_ : option Z;
  last_sequence_ : option Z;
  compact_pointers_ : list (Z * bytes);
  deleted_files_ : list (Z * Z);
  new_files_ : list (Z * FileMetaData)
}.

Definition Clear (e : VersionEdit) : VersionEdit :=
  {| comparator_ := None; log_number_ := None; prev_log_number_ := None; next_file_number_ := None; last_sequence_ := None;
     compact_pointers_ := compact_pointers_ e; deleted_files_ := []; new_files_ := [] |}.
Definition VersionEdit_new : VersionEdit :=
  Clear {| comparator_ := None; log_number_ := None; prev_log_number_ := None; next_file_number_ := None; last_sequence_ := None;
           compact_pointers_ := []; deleted_files_ := []; new_files_ := [] |}.

Definition SetComparatorName (name : bytes) (e : VersionEdit) : VersionEdit :=
  {| comparator_ := Some name; log_number_ := log_number_ e; prev_log_number_ := prev_log_number_ e; next_file_number_ := next_file_number_ e;
     last_sequence_ := last_sequence_ e; compact_pointers_ := compact_pointers_ e; deleted_files_ := deleted_files_ e; new_files_ := new_files_ e |}.
Definition SetLogNumber (num : Z) (e : VersionEdit) : VersionEdit :=
  {| comparator_ := comparator_ e; log_number_ := Some num; prev_log_number_ := prev_log_number_ e; next_file_number_ := next_file_number_ e;
     last_sequence_ := last_sequence_ e; compact_pointers_ := compact_pointers_ e; deleted_files_ := deleted_files_ e; new_files_ := new_files_ e |}.
Definition SetPrevLogNumber (num : Z) (e : VersionEdit) : VersionEdit :=
  {| comparator_ := comparator_ e; log_number_ := log_number_ e; prev_log_number_ := Some num; next_file_number_ := next_file_number_ e;
     last_sequence_ := last_sequence_ e; compact_pointers_ := compact_pointers_ e; deleted_files_ := deleted_files_ e; new_files_ := new_files_ e |}.
Definition SetNextFile (num : Z) (e : VersionEdit) : VersionEdit :=
  {| comparator_ := comparator_ e; log_number_ := log_number_ e; prev_log_number_ := prev_log_number_ e; next_file_number_ := Some num;
     last_sequence_ := last_sequence_ e; compact_pointers_ := compact_pointers_ e; deleted_files_ := deleted_files_ e; new_files_ := new_files_ e |}.
Definition SetLastSequence (seq : Z) (e : VersionEdit) : VersionEdit :=
  {| comparator_ := comparator_ e; log_number_ := log_number_ e; prev_log_number_ := prev_log_number_ e; next_file_number_ := next_file_number_ e;
     last_sequence_ := Some seq; compact_pointers_ := compact_pointers_ e; deleted_files_ := deleted_files_ e; new_files_ := new_files_ e |}.
Definition SetCompactPointer (level : Z) (key : bytes) (e : VersionEdit) : VersionEdit :=
  {| comparator_ := comparator_ e; log_number_ := log_number_ e; prev_log_number_ := prev_log_number_ e; next_file_number_ := next_file_number_ e;
     last_sequence_ := last_sequence_ e; compact_pointers_ := compact_pointers_ e ++ [(level, key)]; deleted_files_ := deleted_files_ e; new_files_ := new_files_ e |}.
Definition push_file (level : Z) (f : FileMetaData) (e : VersionEdit) : VersionEdit :=
  {| comparator_ := comparator_ e; log_number_ := log_number_ e; prev_log_number_ := prev_log_number_ e; next_file_number_ := next_file_number_ e;
     last_sequence_ := last_sequence_ e; compact_pointers_ := compact_pointers_ e; deleted_files_ := deleted_files_ e; new_files_ := new_files_ e ++ [(level, f)] |}.
Definition AddFile (level file file_size : Z) (smallest largest : bytes) (e : VersionEdit) : VersionEdit :=
  push_file level (FileMetaData_new file file_size smallest largest) e.

(** [std::set::insert]. *)
Definition pair_lt (a b : Z * Z) : bool := (a.1 <? b.1) || ((a.1 =? b.1) && (a.2 <? b.2)).
Fixpoint set_insert (x : Z * Z) (l : list (Z * Z)) : list (Z * Z) :=
  match l with [] => [x] | y :: r => if pair_lt x y then x :: l else if pair_lt y x then y :: set_insert x r else l end.
Definition DeleteFile (level file : Z) (e : VersionEdit) : VersionEdit :=
  {| comparator_ := comparator_ e; log_number_ := log_number_ e; prev_log_number_ := prev_log_number_ e; next_file_number_ := next_file_number_ e;
     last_sequence_ := last_sequence_ e; compact_pointers_ := compact_pointers_ e; deleted_files_ := set_insert (level, file) (deleted_files_ e); new_files_ := new_files_ e |}.

(** ** The encoding *)
Definition kComparator : Z := 1.
Definition kLogNumber : Z := 2.
Definition kNextFileNumber : Z := 3.
Definition kLastSequence : Z := 4.
Definition kCompactPointer : Z := 5.
Definition kDeletedFile : Z := 6.
Definition kNewFile : Z := 7.
Definition kPrevLogNumber : Z := 9.

Definition put_number (tag : Z) (n : option Z) (dst : bytes) : bytes :=
  match n with Some n => PutVarint64 (PutVarint32 dst tag) n | None => dst end.
Fixpoint put_pointers (l : list (Z * bytes)) (dst : bytes) : result bytes :=
  match l with
  | [] => Ok dst
  | (level, key) :: l => k ← InternalKey_Encode key; put_pointers l (PutLengthPrefixedSlice (PutVarint32 (PutVarint32 dst kCompactPointer) (u32 level)) k)
  end.
Fixpoint put_deleted (l : list (Z * Z)) (dst : bytes) : bytes :=
  match l with [] => dst | (level, n) :: l => put_deleted l (PutVarint64 (PutVarint32 (PutVarint32 dst kDeletedFile) (u32 level)) n) end.
Fixpoint put_files (l : list (Z * FileMetaData)) (dst : bytes) : result bytes :=
  match l with
  | [] => Ok dst
  | (level, f) :: l =>
      a ← InternalKey_Encode (smallest f);
      b ← InternalKey_Encode (largest f);
      put_files l (PutLengthPrefixedSlice (PutLengthPrefixedSlice (PutVarint64 (PutVarint64 (PutVarint32 (PutVarint32 dst kNewFile) (u32 level)) (number f)) (file_size f)) a) b)
  end.

Definition EncodeTo (e : VersionEdit) (dst : bytes) : result bytes :=
  let dst := match comparator_ e with Some c => PutLengthPrefixedSlice (PutVarint32 dst kComparator) c | None => dst end in
  let dst := put_number kLogNumber (log_number_ e) dst in
  let dst := put_number kPrevLogNumber (prev_log_number_ e) dst in
  let dst := put_number kNextFileNumber (next_file_number_ e) dst in
  let dst := put_number kLastSequence (last_sequence_ e) dst in
  dst ← put_pointers (compact_pointers_ e) dst;
  put_files (new_files_ e) (put_deleted (deleted_files_ e) dst).

(** ** The decoder *)

(** A field that is read, or not. *)
Abbreviation parser A := (bytes → result (option (A * bytes))).
Definition GetInternalKey : parser bytes := GetLengthPrefixedSlice.
Definition GetLevel : parser Z := λ input,
  r ← GetVarint32 input;
  match r with Some (v, rest) => if v <? kNumLevels then Ok (Some (v, rest)) else Ok None | None => Ok None end.
(** [p && q]. *)
Definition andthen {A B} (p : parser A) (q : A → parser B) : parser B := λ input,
  r ← p input; match r with Some (a, rest) => q a rest | None => Ok None end.
Definition accept {A} (a : A) : parser A := λ input, Ok (Some (a, input)).

(** The case of a tag: what is added to the edit, or the name of what is
    wrong. *)
Definition case_of (tag : Z) : (parser (VersionEdit → VersionEdit)) * bytes :=
  if tag =? kComparator then (andthen GetLengthPrefixedSlice (λ s, accept (SetComparatorName s)), str "comparator name")
  else if tag =? kLogNumber then (andthen GetVarint64 (λ n, accept (SetLogNumber n)), str "log number")
  else if tag =? kPrevLogNumber then (andthen GetVarint64 (λ n, accept (SetPrevLogNumber n)), str "previous log number")
  else if tag =? kNextFileNumber then (andthen GetVarint64 (λ n, accept (SetNextFile n)), str "next file number")
  else if tag =? kLastSequence then (andthen GetVarint64 (λ n, accept (SetLastSequence n)), str "last sequence number")
  else if tag =? kCompactPointer then (andthen GetLevel (λ level, andthen GetInternalKey (λ key, accept (SetCompactPointer level key))), str "compaction pointer")
  else if tag =? kDeletedFile then (andthen GetLevel (λ level, andthen GetVarint64 (λ n, accept (DeleteFile level n))), str "deleted file")
  else if tag =? kNewFile then
    (andthen GetLevel (λ level, andthen GetVarint64 (λ n, andthen GetVarint64 (λ size, andthen GetInternalKey (λ a, andthen GetInternalKey (λ b,
       accept (push_file level (FileMetaData_new n size a b))))))), str "new-file entry")
  else ((λ _, Ok None), str "unknown tag").

Fixpoint decode (fuel : nat) (input : bytes) (e : VersionEdit) : result (option bytes * bytes * VersionEdit) :=
  match fuel with
  | O => Fault AssertFailed
  | S fuel =>
      t ← GetVarint32 input;
      match t with
      | None => Ok (None, input, e)
      | Some (tag, rest) =>
          let '(p, msg) := case_of tag in
          r ← p rest;
          match r with Some (f, rest) => decode fuel rest (f e) | None => Ok (Some msg, rest, e) end
      end
  end.

Definition DecodeFrom (src : bytes) (e : VersionEdit) : result (Status * VersionEdit) :=
  '(msg, input, e) ← decode (S (length src)) src (Clear e);
  let msg := match msg with None => if zlen input =? 0 then None else Some (str "invalid tag") | Some m => Some m end in
  Ok (match msg with None => sOK | Some m => Corruption2 (str "VersionEdit") m end, e).
End VersionEdit.
Import VersionEdit.

(** ** The round trip

    An edit is a list of items, each written behind its tag. *)
Inductive item :=
  | IComparator (name : bytes) | INumber (tag : Z) (n : Z) | IPointer (level : Z) (key : bytes)
  | IDeleted (level n : Z) | INew (level : Z) (f : FileMetaData).

Definition number_tags : list (Z * (Z → VersionEdit → VersionEdit)) :=
  [(kLogNumber, SetLogNumber); (kPrevLogNumber, SetPrevLogNumber); (kNextFileNumber, SetNextFile); (kLastSequence, SetLastSequence)].

Definition text (s : bytes) : bytes := PutLengthPrefixedSlice [] s.
Definition item_text (i : item) : bytes :=
  match i with
  | IComparator name => EncodeVarint32 kComparator ++ text name
  | INumber tag n => EncodeVarint32 tag ++ EncodeVarint64 n
  | IPointer level key => EncodeVarint32 kCompactPointer ++ EncodeVarint32 level ++ text key
  | IDeleted level n => EncodeVarint32 kDeletedFile ++ EncodeVarint32 level ++ EncodeVarint64 n
  | INew level f => EncodeVarint32 kNewFile ++ EncodeVarint32 level ++ EncodeVarint64 (number f) ++ EncodeVarint64 (file_size f) ++ text (smallest f) ++ text (largest f)
  end.
Definition item_edit (i : item) : VersionEdit → VersionEdit :=
  match i with
  | IComparator name => SetComparatorName name
  | INumber tag n => if tag =? kLogNumber then SetLogNumber n else if tag =? kPrevLogNumber then SetPrevLogNumber n else if tag =? kNextFileNumber then SetNextFile n else SetLastSequence n
  | IPointer level key => SetCompactPointer level key
  | IDeleted level n => DeleteFile level n
  | INew level f => push_file level f
  end.

Definition level_ok (level : Z) : Prop := 0 ≤ level < kNumLevels.
Definition key_text (k : bytes) : Prop := 0 < zlen k < 2 ^ 32.
Definition u64_ok (n : Z) : Prop := 0 ≤ n < 2 ^ 64.
Definition file_ok (f : FileMetaData) : Prop := u64_ok (number f) ∧ u64_ok (file_size f) ∧ key_text (smallest f) ∧ key_text (largest f) ∧ allowed_seeks f = Z.shiftl 1 30.
Definition item_ok (i : item) : Prop :=
  match i with
  | IComparator name => zlen name < 2 ^ 32
  | INumber tag n => tag ∈ number_tags.*1 ∧ u64_ok n
  | IPointer level key => level_ok level ∧ key_text key
  | IDeleted level n => level_ok level ∧ u64_ok n
  | INew level f => level_ok level ∧ file_ok f
  end.

Lemma get_varint32 v rest : 0 ≤ v < 2 ^ 32 → GetVarint32 (EncodeVarint32 v ++ rest) = Ok (Some (v, rest)).
Proof. intros Hv. unfold GetVarint32. apply Varint32_roundtrip; [done|]. zlia. Qed.
Lemma get_varint64 v rest : u64_ok v → GetVarint64 (EncodeVarint64 v ++ rest) = Ok (Some (v, rest)).
Proof. intros Hv. unfold GetVarint64. apply Varint64_roundtrip; [done|]. zlia. Qed.
Lemma get_level v rest : level_ok v → GetLevel (EncodeVarint32 v ++ rest) = Ok (Some (v, rest)).
Proof. intros Hv. unfold level_ok, kNumLevels in Hv. unfold GetLevel. rewrite get_varint32 by lia. rbind. unfold kNumLevels. by rewrite (proj2 (Z.ltb_lt _ _)) by lia. Qed.
Lemma get_text s rest : zlen s < 2 ^ 32 → GetLengthPrefixedSlice (text s ++ rest) = Ok (Some (s, rest)).
Proof. apply LengthPrefixed_roundtrip. Qed.

Lemma decode_tag fuel tag rest e : 0 ≤ tag < 2 ^ 32 →
  decode (S fuel) (EncodeVarint32 tag ++ rest) e = (r ← (case_of tag).1 rest; match r with Some (f, rest) => decode fuel rest (f e) | None => Ok (Some (case_of tag).2, rest, e) end).
Proof. intros Ht. cbn [decode]. rewrite get_varint32 by done. rbind. by destruct (case_of tag). Qed.

Ltac at_tag := rewrite decode_tag by done; unfold case_of, kComparator, kLogNumber, kPrevLogNumber, kNextFileNumber, kLastSequence, kCompactPointer, kDeletedFile, kNewFile; cbn [Z.eqb Pos.eqb fst snd]; unfold andthen.

(** One item is read. *)
Lemma decode_item fuel i rest e : item_ok i → decode (S fuel) (item_text i ++ rest) e = decode fuel rest (item_edit i e).
Proof.
  intros Hi. destruct i as [name|tag n|level key|level n|level f]; cbn [item_text item_ok] in *; rewrite <- ?app_assoc.
  - at_tag. rewrite get_text by done. by rbind.
  - destruct Hi as [Ht Hn]. cbn in Ht. rewrite !elem_of_cons, elem_of_nil in Ht. destruct Ht as [->|[->|[->|[->|[]]]]];
      at_tag; rewrite get_varint64 by done; by rbind.
  - destruct Hi as [Hl Hk]. at_tag. rewrite get_level by done. rbind. unfold GetInternalKey. rewrite get_text by apply Hk. by rbind.
  - destruct Hi as [Hl Hk]. at_tag. rewrite get_level by done. rbind. rewrite get_varint64 by done. by rbind.
  - destruct Hi as [Hl (H1 & H2 & H3 & H4 & H5)]. at_tag. rewrite get_level by done. rbind. rewrite get_varint64 by done. rbind. rewrite get_varint64 by done. rbind.
    unfold GetInternalKey. rewrite get_text by apply H3. rbind. rewrite get_text by apply H4. rbind. cbn [item_edit]. destruct f; cbn in *. by subst.
Qed.

Definition opt_item {A} (f : A → item) (o : option A) : list item := match o with Some a => [f a] | None => [] end.
Definition items (e : VersionEdit) : list item :=
  opt_item IComparator (comparator_ e) ++ opt_item (INumber kLogNumber) (log_number_ e) ++ opt_item (INumber kPrevLogNumber) (prev_log_number_ e) ++
  opt_item (INumber kNextFileNumber) (next_file_number_ e) ++ opt_item (INumber kLastSequence) (last_sequence_ e) ++
  (uncurry IPointer <$> compact_pointers_ e) ++ (uncurry IDeleted <$> deleted_files_ e) ++ (uncurry INew <$> new_files_ e).

Record edit_ok (e : VersionEdit) : Prop := {
  e_items : Forall item_ok (items e);
  e_deleted : StronglySorted (λ a b, pair_lt a b = true) (deleted_files_ e)
}.

Definition texts (l : list item) : bytes := concat (item_text <$> l).
Lemma texts_app l1 l2 : texts (l1 ++ l2) = texts l1 ++ texts l2.
Proof. unfold texts. by rewrite fmap_app, concat_app. Qed.

Lemma put_pointers_eq l : ∀ dst, Forall item_ok (uncurry IPointer <$> l) → put_pointers l dst = Ok (dst ++ texts (uncurry IPointer <$> l)).
Proof.
  induction l as [|[level key] l IH]; intros dst Hl; [cbn; by rewrite app_nil_r|]. apply Forall_cons in Hl as [[Hlv Hk] Hl]. cbn [put_pointers]. unfold InternalKey_Encode, key_text, level_ok, kNumLevels in *.
  rewrite (proj2 (Z.eqb_neq _ _)) by lia. rbind. rewrite IH by done. unfold texts. cbn. unfold text, PutLengthPrefixedSlice, PutVarint32. rewrite (u32_small level) by lia. by rewrite <- ?app_assoc.
Qed.
Lemma put_deleted_eq l : ∀ dst, Forall item_ok (uncurry IDeleted <$> l) → put_deleted l dst = dst ++ texts (uncurry IDeleted <$> l).
Proof.
  induction l as [|[level n] l IH]; intros dst Hl; [cbn; by rewrite app_nil_r|]. apply Forall_cons in Hl as [[Hlv Hk] Hl]. cbn [put_deleted]. unfold level_ok, kNumLevels in *.
  rewrite IH by done. unfold texts. cbn. unfold PutVarint64, PutVarint32. rewrite u32_small by lia. by rewrite <- ?app_assoc.
Qed.
Lemma put_files_eq l : ∀ dst, Forall item_ok (uncurry INew <$> l) → put_files l dst = Ok (dst ++ texts (uncurry INew <$> l)).
Proof.
  induction l as [|[level f] l IH]; intros dst Hl; [cbn; by rewrite app_nil_r|]. apply Forall_cons in Hl as [[Hlv (H1 & H2 & H3 & H4 & _)] Hl]. cbn [put_files]. unfold InternalKey_Encode, key_text, level_ok, kNumLevels in *.
  rewrite !(proj2 (Z.eqb_neq _ _)) by lia. rbind. rewrite IH by done. unfold texts. cbn. unfold text, PutLengthPrefixedSlice, PutVarint32, PutVarint64. rewrite (u32_small level) by lia. by rewrite <- ?app_assoc.
Qed.

Lemma EncodeTo_items e dst : Forall item_ok (items e) → EncodeTo e dst = Ok (dst ++ texts (items e)).
Proof.
  unfold items. rewrite !Forall_app. intros (Hc & _ & _ & _ & _ & Hp & Hd & Hn). unfold EncodeTo. rewrite put_pointers_eq by done. rbind. rewrite put_deleted_eq by done. rewrite put_files_eq by done.
  rewrite !texts_app. destruct (comparator_ e), (log_number_ e), (prev_log_number_ e), (next_file_number_ e), (last_sequence_ e); cbn [opt_item put_number]; unfold texts; cbn [fmap list_fmap concat item_text];
    unfold PutVarint64, PutVarint32, text, PutLengthPrefixedSlice, PutVarint32; rewrite <- ?app_assoc; cbn [app]; done.
Qed.

Lemma item_text_pos i : item_ok i → (0 < length (item_text i))%nat.
Proof.
  assert (∀ t, 0 ≤ t < 2 ^ 32 → (0 < length (EncodeVarint32 t))%nat) as Hp by (intros t Ht; pose proof (Varint32_length t Ht); unfold zlen in *; lia).
  destruct i; cbn [item_text item_ok]; intros Hi; rewrite length_app.
  1, 3, 4, 5: match goal with |- context [EncodeVarint32 ?k ++ _] => specialize (Hp k ltac:(done)) | |- context [length (EncodeVarint32 ?k)] => specialize (Hp k ltac:(done)) end; lia.
  destruct Hi as [Ht _]. cbn in Ht. rewrite !elem_of_cons, elem_of_nil in Ht. specialize (Hp tag). destruct Ht as [->|[->|[->|[->|[]]]]]; specialize (Hp ltac:(done)); lia.
Qed.

Lemma decode_items l : ∀ fuel e, Forall item_ok l → (length l < fuel)%nat → decode fuel (texts l) e = Ok (None, [], foldl (λ e i, item_edit i e) e l).
Proof.
  induction l as [|i l IH]; intros [|fuel] e Hl Hf; cbn in Hf; try lia; [done|]. apply Forall_cons in Hl as [Hi Hl].
  unfold texts. cbn [fmap list_fmap concat foldl]. rewrite decode_item by done. apply IH; [done|lia].
Qed.

Lemma pair_lt_sym a b : pair_lt a b = true → pair_lt b a = false.
Proof. unfold pair_lt. destruct a, b. cbn. lia. Qed.
Lemma set_insert_last l x : Forall (λ y, pair_lt y x = true) l → set_insert x l = l ++ [x].
Proof. induction 1 as [|y l Hy _ IH]; [done|]. cbn. rewrite (pair_lt_sym y x Hy), Hy, IH. done. Qed.

Lemma foldl_pointers l : ∀ e, foldl (λ e i, item_edit i e) e (uncurry IPointer <$> l) =
  {| comparator_ := comparator_ e; log_number_ := log_number_ e; prev_log_number_ := prev_log_number_ e; next_file_number_ := next_file_number_ e; last_sequence_ := last_sequence_ e;
     compact_pointers_ := compact_pointers_ e ++ l; deleted_files_ := deleted_files_ e; new_files_ := new_files_ e |}.
Proof. induction l as [|[a b] l IH]; intros e; cbn; [destruct e; cbn; by rewrite app_nil_r|]. rewrite IH. cbn. by rewrite <- app_assoc. Qed.
Lemma foldl_new l : ∀ e, foldl (λ e i, item_edit i e) e (uncurry INew <$> l) =
  {| comparator_ := comparator_ e; log_number_ := log_number_ e; prev_log_number_ := prev_log_number_ e; next_file_number_ := next_file_number_ e; last_sequence_ := last_sequence_ e;
     compact_pointers_ := compact_pointers_ e; deleted_files_ := deleted_files_ e; new_files_ := new_files_ e ++ l |}.
Proof. induction l as [|[a b] l IH]; intros e; cbn; [destruct e; cbn; by rewrite app_nil_r|]. rewrite IH. cbn. by rewrite <- app_assoc. Qed.
Lemma foldl_deleted l : ∀ e, StronglySorted (λ a b, pair_lt a b = true) (deleted_files_ e ++ l) → foldl (λ e i, item_edit i e) e (uncurry IDeleted <$> l) =
  {| comparator_ := comparator_ e; log_number_ := log_number_ e; prev_log_number_ := prev_log_number_ e; next_file_number_ := next_file_number_ e; last_sequence_ := last_sequence_ e;
     compact_pointers_ := compact_pointers_ e; deleted_files_ := deleted_files_ e ++ l; new_files_ := new_files_ e |}.
Proof.
  induction l as [|[a b] l IH]; intros e Hs; cbn; [destruct e; cbn; by rewrite app_nil_r|]. assert (set_insert (a, b) (deleted_files_ e) = deleted_files_ e ++ [(a, b)]) as Ei.
  { apply set_insert_last. apply StronglySorted_app in Hs as (Hx & _ & _). apply Forall_forall. intros y Hy. apply Hx; [done|set_solver]. }
  rewrite IH; cbn; rewrite Ei, <- app_assoc; done.
Qed.

Lemma foldl_items e e0 : StronglySorted (λ a b, pair_lt a b = true) (deleted_files_ e) →
  foldl (λ e i, item_edit i e) (Clear e0) (items e) =
  {| comparator_ := comparator_ e; log_number_ := log_number_ e; prev_log_number_ := prev_log_number_ e; next_file_number_ := next_file_number_ e; last_sequence_ := last_sequence_ e;
     compact_pointers_ := compact_pointers_ e0 ++ compact_pointers_ e; deleted_files_ := deleted_files_ e; new_files_ := new_files_ e |}.
Proof.
  intros Hs. unfold items. rewrite !foldl_app, foldl_pointers, foldl_new. rewrite foldl_deleted.
  - destruct (comparator_ e), (log_number_ e), (prev_log_number_ e), (next_file_number_ e), (last_sequence_ e); done.
  - destruct (comparator_ e), (log_number_ e), (prev_log_number_ e), (next_file_number_ e), (last_sequence_ e); exact Hs.
Qed.

Lemma decode_encoded e e0 : edit_ok e → DecodeFrom (texts (items e)) e0 =
  Ok (sOK, {| comparator_ := comparator_ e; log_number_ := log_number_ e; prev_log_number_ := prev_log_number_ e; next_file_number_ := next_file_number_ e; last_sequence_ := last_sequence_ e;
     compact_pointers_ := compact_pointers_ e0 ++ compact_pointers_ e; deleted_files_ := deleted_files_ e; new_files_ := new_files_ e |}).
Proof.
  intros [Hi Hd]. unfold DecodeFrom. rewrite decode_items; [|done|]. { rbind. cbn. by rewrite foldl_items. }
  assert (length (items e) ≤ length (texts (items e)))%nat; [|lia]. clear Hd. unfold texts. induction Hi as [|i l Hi _ IH]; [done|]. cbn. rewrite length_app. pose proof (item_text_pos i Hi). lia.
Qed.

(** A version edit that is written to the manifest is read back exactly
    into a new edit, whatever fields it has. *)
Theorem edit_roundtrip e : edit_ok e → ∃ r, EncodeTo e [] = Ok r ∧ DecodeFrom r VersionEdit_new = Ok (sOK, e).
Proof.
  intros He. exists (texts (items e)). split; [by rewrite EncodeTo_items by apply He|]. rewrite decode_encoded by done. by destruct e.
Qed.

Definition sample_edit : VersionEdit :=
  AddFile 2 9 1000 (ikey (str "a", 300)) (ikey (str "z", 301)) (DeleteFile 1 4 (DeleteFile 0 7 (SetCompactPointer 1 (ikey (str "m", 257)) (SetLastSequence 77 (SetLogNumber 8 VersionEdit_new))))).
Lemma edit_roundtrip_witness : edit_ok sample_edit ∧ ∃ r, EncodeTo sample_edit [] = Ok r ∧ DecodeFrom r VersionEdit_new = Ok (sOK, sample_edit).
Proof.
  assert (edit_ok sample_edit) as He.
  { split; [|repeat constructor]. change (items sample_edit) with [INumber kLogNumber 8; INumber kLastSequence 77; IPointer 1 (ikey (str "m", 257)); IDeleted 0 7; IDeleted 1 4; INew 2 (FileMetaData_new 9 1000 (ikey (str "a", 300)) (ikey (str "z", 301)))].
    unfold u64_ok, level_ok, key_text in *. repeat apply Forall_cons_2; try apply Forall_nil_2; cbn [item_ok]; unfold file_ok, u64_ok, level_ok, key_text, kNumLevels, FileMetaData_new; cbn [number file_size smallest largest allowed_seeks]; rewrite ?zlen_ikey;
      repeat split; try lia; try (vm_compute; reflexivity); cbn; rewrite !elem_of_cons; tauto. }
  split; [exact He|]. apply (edit_roundtrip sample_edit He).
Defined.

(** An edit that is used again for decoding keeps the compaction pointers it
    had. *)
Lemma decode_keeps_pointers : let e := SetCompactPointer 1 (str "old-key!") VersionEdit_new in
  ∃ r e', EncodeTo VersionEdit_new [] = Ok r ∧ DecodeFrom r e = Ok (sOK, e') ∧ compact_pointers_ e' = [(1, str "old-key!")].
Proof. intros e. eexists _, _. split; [vm_compute; reflexivity|]. split; vm_compute; reflexivity. Qed.
