(* ===== verification/Version.v ===== *)
(** * Versions of LevelDB (pack/leveldb/db/version_set.cc)

    A version is the set of tables by level. Level 0 holds tables that may
    overlap; the tables of a deeper level are sorted and disjoint. A lookup
    asks the tables that may hold the key, the newest first. *)

From stdpp Require Import sorting.
From S2P Require Import Prelude Cstd Cmem Coding Status DbFormat Iter VersionEdit.
Import VersionEdit.

(** What a version needs of the cache of tables: a lookup gives the pair that
    is handed to the caller's function. *)
Class Tables (T : Type) := { tc_Get : Z → Z → bytes → T → result (Status * option (bytes * bytes) * T) }.

Module Version.
(** [FindFile]: the first file whose largest key is not below the key. *)
Fixpoint find_loop (fuel : nat) (files : list FileMetaData) (key : bytes) (left right : Z) : result Z :=
  match fuel with
  | O => Fault AssertFailed
  | S fuel =>
      if left <? right then
        let mid := u32 (left + right) / 2 in
        match files !! Z.to_nat mid with
        | None => Fault OutOfBounds
        | Some f =>
            k ← InternalKey_Encode (largest f);
            c ← InternalCompare k key;
            if c <? 0 then find_loop fuel files key (u32 (mid + 1)) right else find_loop fuel files key left mid
        end
      else Ok right
  end.
Definition FindFile (files : list FileMetaData) (key : bytes) : result Z := find_loop (S (length files)) files key 0 (u32 (zlen files)).

(** A bound that is NULL lies before, or behind, everything. *)
Definition AfterFile (user_key : option bytes) (f : FileMetaData) : result bool :=
  match user_key with None => Ok false | Some u => l ← ExtractUserKey (largest f); c ← Slice_compare u l; Ok (0 <? c) end.
Definition BeforeFile (user_key : option bytes) (f : FileMetaData) : result bool :=
  match user_key with None => Ok false | Some u => s ← ExtractUserKey (smallest f); c ← Slice_compare u s; Ok (c <? 0) end.

Fixpoint any_overlap (files : list FileMetaData) (small large : option bytes) : result bool :=
  match files with
  | [] => Ok false
  | f :: files =>
      a ← AfterFile small f;
      b ← (if a : bool then Ok true else BeforeFile large f);
      if b : bool then any_overlap files small large else Ok true
  end.
Definition SomeFileOverlapsRange (disjoint_sorted_files : bool) (files : list FileMetaData) (smallest_user_key largest_user_key : option bytes) : result bool :=
  if negb disjoint_sorted_files then any_overlap files smallest_user_key largest_user_key
  else
    index ← (match smallest_user_key with
             | Some u => small ← AppendInternalKey [] {| user_key := u; sequence := kMaxSequenceNumber; type := kValueTypeForSeek |}; FindFile files small
             | None => Ok 0
             end);
    if zlen files <=? index then Ok false
    else match files !! Z.to_nat index with None => Fault OutOfBounds | Some f => b ← BeforeFile largest_user_key f; Ok (negb b) end.

(** ** The iterator over the files of a level *)
Record LevelFileNumIterator := { flist_ : list FileMetaData; index_ : Z }.
Definition LevelFileNumIterator_new (flist : list FileMetaData) : LevelFileNumIterator := {| flist_ := flist; index_ := u32 (zlen flist) |}.
Definition at_index (it : LevelFileNumIterator) (i : Z) : LevelFileNumIterator := {| flist_ := flist_ it; index_ := i |}.
Definition Valid (it : LevelFileNumIterator) : bool := index_ it <? zlen (flist_ it).
Definition on_file {A} (it : LevelFileNumIterator) (f : FileMetaData → result A) : result A :=
  if Valid it then match flist_ it !! Z.to_nat (index_ it) with Some m => f m | None => Fault OutOfBounds end else Fault AssertFailed.
#[global] Instance LevelFile_Iter : Iter LevelFileNumIterator := {
  it_Valid := Valid;
  it_Seek target it := i ← FindFile (flist_ it) target; Ok (at_index it i);
  it_SeekToFirst it := Ok (at_index it 0);
  it_SeekToLast it := Ok (at_index it (if zlen (flist_ it) =? 0 then 0 else u32 (zlen (flist_ it) - 1)));
  it_Next it := if Valid it then Ok (at_index it (u32 (index_ it + 1))) else Fault AssertFailed;
  it_Prev it := if Valid it then Ok (at_index it (if index_ it =? 0 then u32 (zlen (flist_ it)) else index_ it - 1)) else Fault AssertFailed;
  it_key it := on_file it (λ f, InternalKey_Encode (largest f));
  it_value it := on_file it (λ f, Ok (EncodeFixed64 (number f) ++ EncodeFixed64 (file_size f)));
  it_status it := sOK
}.

(** ** Lookups *)
Inductive SaverState := kNotFound | kFound | kDeleted | kCorrupt.

(** [SaveValue] on the pair a table gives: the state, and the value. *)
Definition SaveValue (u ikey v : bytes) : result (SaverState * option bytes) :=
  p ← ParseInternalKey ikey;
  match p with
  | None => Ok (kCorrupt, None)
  | Some p =>
      c ← Slice_compare (user_key p) u;
      if c =? 0 then match type p with kTypeValue => Ok (kFound, Some v) | kTypeDeletion => Ok (kDeleted, None) end
      else Ok (kNotFound, None)
  end.

Definition NewestFirst (a b : FileMetaData) : Prop := number b < number a.
(** The order by which [std::sort] arranges the files. *)
Definition newer (a b : FileMetaData) : Prop := ¬ NewestFirst b a.
#[global] Instance newer_dec a b : Decision (newer a b).
Proof. unfold newer, NewestFirst. apply _. Defined.

(** The files of level 0 whose range contains the key. *)
Fixpoint overlapping (u : bytes) (files : list FileMetaData) : result (list FileMetaData) :=
  match files with
  | [] => Ok []
  | f :: files =>
      s ← ExtractUserKey (smallest f);
      c ← Slice_compare u s;
      b ← (if 0 <=? c then l ← ExtractUserKey (largest f); c ← Slice_compare u l; Ok (c <=? 0) else Ok false);
      r ← overlapping u files;
      Ok (if b : bool then f :: r else r)
  end.

(** The files of a level that a lookup asks, in order. *)
Definition to_search (level : nat) (files : list FileMetaData) (ikey u : bytes) : result (list FileMetaData) :=
  match level with
  | O => r ← overlapping u files; Ok (merge_sort newer r)
  | S _ =>
      if zlen files =? 0 then Ok []
      else
        index ← FindFile files ikey;
        if zlen files <=? index then Ok []
        else match files !! Z.to_nat index with
             | None => Fault OutOfBounds
             | Some f => s ← ExtractUserKey (smallest f); c ← Slice_compare u s; Ok (if c <? 0 then [] else [f])
             end
  end.

(** The file a lookup charges for its seek: the first one, if it asked more. *)
Record GetState := { last_file_read : option (FileMetaData * nat); seek_file : option (FileMetaData * nat) }.
Definition charge (level : nat) (f : FileMetaData) (s : GetState) : GetState :=
  {| last_file_read := Some (f, level); seek_file := match last_file_read s, seek_file s with Some l, None => Some l | _, r => r end |}.

Section get.
Context {T : Type} `{Tables T}.

(** A level: the answer, if it has one. *)
Fixpoint search_files (u ikey : bytes) (level : nat) (files : list FileMetaData) (st : GetState) (w : T) : result (option (Status * option bytes) * GetState * T) :=
  match files with
  | [] => Ok (None, st, w)
  | f :: files =>
      let st := charge level f st in
      '(s, a, w) ← tc_Get (number f) (file_size f) ikey w;
      '(state, v) ← (match a with Some (k, v) => SaveValue u k v | None => Ok (kNotFound, None) end);
      if negb (ok s) then Ok (Some (s, v), st, w)
      else match state with
           | kNotFound => search_files u ikey level files st w
           | kFound => Ok (Some (s, v), st, w)
           | kDeleted => Ok (Some (NotFound [], None), st, w)
           | kCorrupt => Ok (Some (Corruption2 (str "corrupted key for ") u, None), st, w)
           end
  end.

Fixpoint search_levels (u ikey : bytes) (level : nat) (levels : list (list FileMetaData)) (st : GetState) (w : T) : result (Status * option bytes * GetState * T) :=
  match levels with
  | [] => Ok (NotFound [], None, st, w)
  | files :: levels =>
      fs ← to_search level files ikey u;
      '(r, st, w) ← search_files u ikey level fs st w;
      match r with Some (s, v) => Ok (s, v, st, w) | None => search_levels u ikey (S level) levels st w end
  end.

Definition Get (files_ : list (list FileMetaData)) (k : LookupKey) (w : T) : result (Status * option bytes * GetState * T) :=
  search_levels (lk_user_key k) (internal_key k) 0 files_ {| last_file_read := None; seek_file := None |} w.
End get.

(** A version: its files by level, and the file that asks to be compacted. *)
Record Version := { files_ : list (list FileMetaData); file_to_compact_ : option (FileMetaData * nat) }.

(** [f->allowed_seeks--]. *)
Definition seek_once (f : FileMetaData) : FileMetaData :=
  {| allowed_seeks := i32 (allowed_seeks f - 1); number := number f; file_size := file_size f; smallest := smallest f; largest := largest f |}.
Definition UpdateStats (stats : GetState) (v : Version) : bool * Version :=
  match seek_file stats with
  | None => (false, v)
  | Some (f, level) =>
      let fs := alter (fmap (λ g, if decide (g = f) then seek_once f else g)) level (files_ v) in
      if (allowed_seeks (seek_once f) <=? 0) && bool_decide (file_to_compact_ v = None)
      then (true, {| files_ := fs; file_to_compact_ := Some (seek_once f, level) |})
      else (false, {| files_ := fs; file_to_compact_ := file_to_compact_ v |})
  end.

(** ** Ranges *)
Definition TotalFileSize (files : list FileMetaData) : Z := foldl (λ sum f, i64 (sum + file_size f)) 0 files.

Definition OverlapInLevel (files_ : list (list FileMetaData)) (level : nat) (small large : option bytes) : result bool :=
  match files_ !! level with
  | Some files => SomeFileOverlapsRange (match level with O => false | S _ => true end) files small large
  | None => Fault OutOfBounds
  end.

(** The loop of [GetOverlappingInputs] from the file [i] on, with the range so
    far and the inputs found since the last restart. *)
Fixpoint inputs_loop (fuel : nat) (level : nat) (files : list FileMetaData) (i : nat) (ubegin uend : option bytes) (inputs : list FileMetaData) : result (list FileMetaData) :=
  match fuel with
  | O => Fault AssertFailed
  | S fuel =>
      match files !! i with
      | None => Ok inputs
      | Some f =>
          file_start ← ExtractUserKey (smallest f);
          file_limit ← ExtractUserKey (largest f);
          below ← (match ubegin with Some b => c ← Slice_compare file_limit b; Ok (c <? 0) | None => Ok false end);
          above ← (if below : bool then Ok false else match uend with Some e => c ← Slice_compare file_start e; Ok (0 <? c) | None => Ok false end);
          if (below : bool) || (above : bool) then inputs_loop fuel level files (S i) ubegin uend inputs
          else
            match level with
            | S _ => inputs_loop fuel level files (S i) ubegin uend (inputs ++ [f])
            | O =>
                lower ← (match ubegin with Some b => c ← Slice_compare file_start b; Ok (c <? 0) | None => Ok false end);
                if lower : bool then inputs_loop fuel level files 0 (Some file_start) uend []
                else
                  higher ← (match uend with Some e => c ← Slice_compare file_limit e; Ok (0 <? c) | None => Ok false end);
                  if higher : bool then inputs_loop fuel level files 0 ubegin (Some file_limit) []
                  else inputs_loop fuel level files (S i) ubegin uend (inputs ++ [f])
            end
      end
  end.
Definition inputs_fuel (n : nat) : nat := S ((2 * n + 1) * (n + 1)).
Definition optional {A B} (f : A → result B) (o : option A) : result (option B) := match o with Some a => b ← f a; Ok (Some b) | None => Ok None end.
Definition GetOverlappingInputs (files_ : list (list FileMetaData)) (level : nat) (begin end_ : option bytes) : result (list FileMetaData) :=
  b ← optional ExtractUserKey begin;
  e ← optional ExtractUserKey end_;
  match files_ !! level with
  | Some files => inputs_loop (inputs_fuel (length files)) level files 0 b e []
  | None => Fault OutOfBounds
  end.

Definition kMaxMemCompactLevel : nat := 2.
(** The loop of [PickLevelForMemTableOutput]. *)
Fixpoint pick_level (n level : nat) (files_ : list (list FileMetaData)) (small large start limit : bytes) (max_overlap : Z) : result nat :=
  match n with
  | O => Ok level
  | S n =>
      o ← OverlapInLevel files_ (S level) (Some small) (Some large);
      if o : bool then Ok level
      else
        overlaps ← GetOverlappingInputs files_ (level + 2) (Some start) (Some limit);
        if max_overlap <? TotalFileSize overlaps then Ok level else pick_level n (S level) files_ small large start limit max_overlap
  end.
Definition PickLevelForMemTableOutput (max_overlap : Z) (files_ : list (list FileMetaData)) (small large : bytes) : result nat :=
  o ← OverlapInLevel files_ 0 (Some small) (Some large);
  if o : bool then Ok 0%nat
  else
    start ← AppendInternalKey [] {| user_key := small; sequence := kMaxSequenceNumber; type := kValueTypeForSeek |};
    limit ← AppendInternalKey [] {| user_key := large; sequence := 0; type := kTypeDeletion |};
    pick_level kMaxMemCompactLevel 0 files_ small large start limit max_overlap.
End Version.
