(* ===== verification/Table.v ===== *)
(** * Tables of LevelDB (pack/leveldb/table/format.cc, table_builder.cc,
    table.cc)

    A table file is a sequence of blocks, each with its type and checksum:
    the data blocks, the filter block, the index of the meta blocks and the
    index of the data blocks, whose values are handles of blocks; then a
    footer with the handles of the two indexes. *)

From S2P Require Import Prelude Cstd Cmem Coding Status DbFormat Iter Comparator Filter Block FilterBlock TwoLevel Crc32c Env.
Import Crc32c.

(** Snappy, which is linked in where it is installed. *)
Class Snappy := {
  sn_Compress : bytes → option bytes;
  sn_GetUncompressedLength : bytes → option Z;
  sn_Uncompress : bytes → option bytes
}.
Class SnappyLaws `{Snappy} : Prop := {
  sn_bytes d c : Forall is_byte d → sn_Compress d = Some c → Forall is_byte c;
  sn_length d c : sn_Compress d = Some c → sn_GetUncompressedLength c = Some (zlen d);
  sn_roundtrip d c : sn_Compress d = Some c → sn_Uncompress c = Some d
}.
(** A build without it. *)
Definition no_snappy : Snappy := {| sn_Compress _ := None; sn_GetUncompressedLength _ := None; sn_Uncompress _ := None |}.
#[export] Instance no_snappy_laws : SnappyLaws (H := no_snappy).
Proof. split; done. Qed.

(** ** Handles, the footer and reading a block *)
Module Format.

Definition kMaxEncodedLength : Z := 20.
Definition kEncodedLength : Z := 2 * kMaxEncodedLength + 8.
Definition kTableMagicNumber : Z := 0xdb4775248b80fb57.
Definition kBlockTrailerSize : Z := 5.
Definition kNoCompression : Z := 0.
Definition kSnappyCompression : Z := 1.

Record BlockHandle := { offset_ : Z; size_ : Z }.
Definition BlockHandle_new : BlockHandle := {| offset_ := 2 ^ 64 - 1; size_ := 2 ^ 64 - 1 |}.

Definition handle_EncodeTo (h : BlockHandle) (dst : bytes) : result bytes :=
  if (offset_ h =? 2 ^ 64 - 1) || (size_ h =? 2 ^ 64 - 1) then Fault AssertFailed
  else Ok (PutVarint64 (PutVarint64 dst (offset_ h)) (size_ h)).

(** The status, the handle and the rest of the input. *)
Definition handle_DecodeFrom (input : bytes) : result (Status * BlockHandle * bytes) :=
  let bad := Corruption (str "bad block handle") in
  r ← GetVarint64 input;
  match r with
  | None => Ok (bad, BlockHandle_new, input)
  | Some (o, input) =>
      r ← GetVarint64 input;
      Ok (match r with
          | None => (bad, {| offset_ := o; size_ := 2 ^ 64 - 1 |}, input)
          | Some (n, input) => (sOK, {| offset_ := o; size_ := n |}, input)
          end)
  end.

Record Footer := { metaindex_handle_ : BlockHandle; index_handle_ : BlockHandle }.

(** [resize] cuts or pads with zeros. *)
Definition footer_EncodeTo (f : Footer) (dst : bytes) : result bytes :=
  d ← handle_EncodeTo (metaindex_handle_ f) dst;
  d ← handle_EncodeTo (index_handle_ f) d;
  let n := Z.to_nat (2 * kMaxEncodedLength) in
  let d := take n d ++ replicate (n - length d) 0 in
  let d := PutFixed32 d (Z.land kTableMagicNumber 0xffffffff) in
  let d := PutFixed32 d (Z.shiftr kTableMagicNumber 32) in
  if zlen d =? zlen dst + kEncodedLength then Ok d else Fault AssertFailed.

Definition footer_DecodeFrom (input : bytes) : result (Status * Footer) :=
  p ← Block.bytes_at input (kEncodedLength - 8);
  lo ← DecodeFixed32 p;
  hi ← DecodeFixed32 (drop 4 p);
  let none := {| metaindex_handle_ := BlockHandle_new; index_handle_ := BlockHandle_new |} in
  if negb (Z.lor (Z.shiftl hi 32) lo =? kTableMagicNumber)
  then Ok (Status_new kInvalidArgument (str "not an sstable (bad magic number)") [], none)
  else
    '(s, m, input) ← handle_DecodeFrom input;
    if ok s then '(s, i, _) ← handle_DecodeFrom input; Ok (s, {| metaindex_handle_ := m; index_handle_ := i |})
    else Ok (s, {| metaindex_handle_ := m; index_handle_ := BlockHandle_new |}).

Section read.
Context (addr : bytes → Z) {F : Type} `{RandomAccessFile F} `{Snappy}.

Record BlockContents := { contents : bytes; cachable : bool; heap_allocated : bool }.

Definition ReadBlock (file : F) (verify_checksums : bool) (handle : BlockHandle) : result (Status * option BlockContents) :=
  let n := size_ handle in
  '(s, c) ← ra_Read file (offset_ handle) (u64 (n + kBlockTrailerSize));
  if negb (ok s) then Ok (s, None)
  else if negb (zlen c =? u64 (n + kBlockTrailerSize)) then Ok (Corruption (str "truncated block read"), None)
  else
    good ← (if verify_checksums then
              p ← Block.bytes_at c (n + 1);
              w ← DecodeFixed32 p;
              text ← slice c 0 (n + 1);
              actual ← Value (addr text) text;
              Ok (actual =? Unmask w)
            else Ok true);
    if negb good then Ok (Corruption (str "block checksum mismatch"), None)
    else
      type ← load c n;
      if type =? kNoCompression then
        d ← slice c 0 n;
        Ok (sOK, Some {| contents := d; cachable := ra_scratch file; heap_allocated := ra_scratch file |})
      else if type =? kSnappyCompression then
        d ← slice c 0 n;
        match sn_GetUncompressedLength d with
        | None => Ok (Corruption (str "corrupted compressed block contents"), None)
        | Some _ =>
            match sn_Uncompress d with
            | None => Ok (Corruption (str "corrupted compressed block contents"), None)
            | Some u => Ok (sOK, Some {| contents := u; cachable := true; heap_allocated := true |})
            end
        end
      else Ok (Corruption (str "bad block type"), None).
End read.
End Format.

(** ** Building a table *)
Module TableBuilder.
Import Format.
Section builder.
Context (addr : bytes → Z) `{Comparator} `{Snappy} {F : Type} `{WritableFile F}.
Context (filter_policy : option FilterPolicy) (block_size block_restart_interval : Z) (compress : bool).

Record Rep := {
  file : F;
  offset : Z;
  status : Status;
  data_block : BlockBuilder.BlockBuilder;
  index_block : BlockBuilder.BlockBuilder;
  last_key : bytes;
  num_entries : Z;
  closed : bool;
  filter_block : option FilterBlock.FilterBlockBuilder;
  (** [pending_handle], where [pending_index_entry] is set *)
  pending : option BlockHandle
}.

(** A step of the filter block, where there is one. *)
Definition on_filter (f : FilterPolicy → FilterBlock.FilterBlockBuilder → result FilterBlock.FilterBlockBuilder)
    (b : option FilterBlock.FilterBlockBuilder) : result (option FilterBlock.FilterBlockBuilder) :=
  match filter_policy, b with Some P, Some b => b ← f P b; Ok (Some b) | _, _ => Ok b end.

Definition TableBuilder_new (f : F) : result Rep :=
  d ← BlockBuilder.BlockBuilder_new block_restart_interval;
  i ← BlockBuilder.BlockBuilder_new 1;
  fb ← on_filter (λ P, FilterBlock.StartBlock 0) (match filter_policy with Some _ => Some FilterBlock.FilterBlockBuilder_new | None => None end);
  Ok {| file := f; offset := 0; status := sOK; data_block := d; index_block := i; last_key := []; num_entries := 0; closed := false;
        filter_block := fb; pending := None |}.

Definition with_file (f : F) (o : Z) (s : Status) (r : Rep) : Rep :=
  {| file := f; offset := o; status := s; data_block := data_block r; index_block := index_block r; last_key := last_key r;
     num_entries := num_entries r; closed := closed r; filter_block := filter_block r; pending := pending r |}.
Definition with_blocks (d i : BlockBuilder.BlockBuilder) (k : bytes) (n : Z) (fb : option FilterBlock.FilterBlockBuilder) (p : option BlockHandle) (r : Rep) : Rep :=
  {| file := file r; offset := offset r; status := status r; data_block := d; index_block := i; last_key := k; num_entries := n;
     closed := closed r; filter_block := fb; pending := p |}.
Definition close (r : Rep) : Rep :=
  {| file := file r; offset := offset r; status := status r; data_block := data_block r; index_block := index_block r; last_key := last_key r;
     num_entries := num_entries r; closed := true; filter_block := filter_block r; pending := pending r |}.

Definition WriteRawBlock (block_contents : bytes) (type : Z) (r : Rep) : result (BlockHandle * Rep) :=
  let handle := {| offset_ := offset r; size_ := zlen block_contents |} in
  '(s, f) ← wf_Append (file r) block_contents;
  if ok s then
    crc ← Value (addr block_contents) block_contents;
    crc ← Extend (addr [type]) crc [type];
    '(s, f) ← wf_Append f (type :: EncodeFixed32 (Mask crc));
    Ok (handle, with_file f (if ok s then u64 (offset r + (zlen block_contents + kBlockTrailerSize)) else offset r) s r)
  else Ok (handle, with_file f (offset r) s r).

(** The block, which the caller resets, goes to the file. *)
Definition WriteBlock (block : BlockBuilder.BlockBuilder) (r : Rep) : result (BlockHandle * Rep) :=
  if negb (ok (status r)) then Fault AssertFailed
  else
    let raw := (BlockBuilder.Finish block).1 in
    let '(c, type) :=
      if compress then
        match sn_Compress raw with
        | Some c => if zlen c <? zlen raw - zlen raw / 8 then (c, kSnappyCompression) else (raw, kNoCompression)
        | None => (raw, kNoCompression)
        end
      else (raw, kNoCompression) in
    WriteRawBlock c type r.

Definition Flush (r : Rep) : result Rep :=
  if closed r then Fault AssertFailed
  else if negb (ok (status r)) then Ok r
  else if BlockBuilder.empty (data_block r) then Ok r
  else if bool_decide (is_Some (pending r)) then Fault AssertFailed
  else
    '(h, r) ← WriteBlock (data_block r) r;
    let r := with_blocks (BlockBuilder.Reset (data_block r)) (index_block r) (last_key r) (num_entries r) (filter_block r) (pending r) r in
    r ← (if ok (status r) then
           '(s, f) ← wf_Flush (file r);
           Ok (with_blocks (data_block r) (index_block r) (last_key r) (num_entries r) (filter_block r) (Some h) (with_file f (offset r) s r))
         else Ok r);
    fb ← on_filter (λ P, FilterBlock.StartBlock (offset r)) (filter_block r);
    Ok (with_blocks (data_block r) (index_block r) (last_key r) (num_entries r) fb (pending r) r).

(** The index entry of the pending block, with the key [k]. *)
Definition add_index (k : bytes) (r : Rep) : result BlockBuilder.BlockBuilder :=
  match pending r with
  | None => Ok (index_block r)
  | Some h => e ← handle_EncodeTo h []; BlockBuilder.Add 1 k e (index_block r)
  end.

Definition Add (key value : bytes) (r : Rep) : result Rep :=
  if closed r then Fault AssertFailed
  else if negb (ok (status r)) then Ok r
  else
    ordered ← (if 0 <? num_entries r then c ← cp_Compare key (last_key r); Ok (0 <? c) else Ok true);
    if negb ordered then Fault AssertFailed
    else
      i ← (match pending r with
           | None => Ok (index_block r)
           | Some _ =>
               if BlockBuilder.empty (data_block r) then k ← cp_FindShortestSeparator (last_key r) key; add_index k r else Fault AssertFailed
           end);
      fb ← on_filter (λ P b, Ok (FilterBlock.AddKey key b)) (filter_block r);
      d ← BlockBuilder.Add block_restart_interval key value (data_block r);
      let r := with_blocks d i key (i64 (num_entries r + 1)) fb None r in
      if block_size <=? BlockBuilder.CurrentSizeEstimate d then Flush r else Ok r.

(** The block of the handles of meta blocks. *)
Definition meta_block (fh : BlockHandle) : result BlockBuilder.BlockBuilder :=
  b ← BlockBuilder.BlockBuilder_new block_restart_interval;
  match filter_policy with
  | None => Ok b
  | Some P => e ← handle_EncodeTo fh []; BlockBuilder.Add block_restart_interval (str "filter." ++ @fp_Name P) e b
  end.

(** The filter block, where there is one, goes to the file. *)
Definition write_filter (r : Rep) : result (BlockHandle * Rep) :=
  match filter_policy, filter_block r with
  | Some P, Some b => if ok (status r) then '(d, _) ← @FilterBlock.Finish P b; WriteRawBlock d kNoCompression r else Ok (BlockHandle_new, r)
  | _, _ => Ok (BlockHandle_new, r)
  end.

(** The index with the entry of the last block. *)
Definition last_index (r : Rep) : result BlockBuilder.BlockBuilder :=
  match pending r with None => Ok (index_block r) | Some _ => k ← cp_FindShortSuccessor (last_key r); add_index k r end.

Definition Finish (r : Rep) : result (Status * Rep) :=
  r ← Flush r;
  if closed r then Fault AssertFailed
  else
    let r := close r in
    '(fh, r) ← write_filter r;
    '(mh, r) ← (if ok (status r) then b ← meta_block fh; WriteBlock b r else Ok (BlockHandle_new, r));
    '(ih, r) ← (if ok (status r) then
                  i ← last_index r;
                  WriteBlock i (with_blocks (data_block r) i (last_key r) (num_entries r) (filter_block r) None r)
                else Ok (BlockHandle_new, r));
    if ok (status r) then
      d ← footer_EncodeTo {| metaindex_handle_ := mh; index_handle_ := ih |} [];
      '(s, f) ← wf_Append (file r) d;
      Ok (s, with_file f (if ok s then u64 (offset r + zlen d) else offset r) s r)
    else Ok (status r, r).

Definition Abandon (r : Rep) : result Rep := if closed r then Fault AssertFailed else Ok (close r).
Definition FileSize (r : Rep) : Z := offset r.
Definition NumEntries (r : Rep) : Z := u64 (num_entries r).
End builder.
Arguments Rep F : clear implicits.
End TableBuilder.

(** ** Reading a table *)

(** The cache of blocks (include/leveldb/cache.h). The handles that keep an
    entry alive while it is used are left out: they decide when memory is
    freed, not what a lookup finds. *)
Class Cache (C V : Type) := {
  ca_Lookup : bytes → C → result (option V * C);
  ca_Insert : bytes → V → Z → C → result C;
  ca_NewId : C → Z * C
}.
(** Whatever is found was inserted under its key; [ca_ok P] says that [P]
    holds of every entry. *)
Class CacheLaws (C V : Type) `{Cache C V} (ca_ok : (bytes → V → Prop) → C → Prop) : Prop := {
  ca_mono P Q c : ca_ok P c → (∀ k v, P k v → Q k v) → ca_ok Q c;
  ca_lookup_law P k c : ca_ok P c → ∃ r c', ca_Lookup k c = Ok (r, c') ∧ ca_ok P c' ∧ ∀ v, r = Some v → P k v;
  ca_insert_law P k v n c : ca_ok P c → P k v → 0 < n < 2 ^ 62 → ∃ c', ca_Insert k v n c = Ok c' ∧ ca_ok P c';
  ca_id_law P c : ca_ok P c → ca_ok P (ca_NewId c).2
}.

Module Table.
Import Format.
Section table.
Context (addr : bytes → Z) `{HC : Comparator} `{Snappy} {F : Type} `{RandomAccessFile F} {C : Type} `{Cache C Block.Block}.
Context (filter_policy : option FilterPolicy) (has_cache : bool) (fuel : nat).

Record Table := {
  file : F;
  cache_id : Z;
  filter : option FilterBlock.FilterBlockReader;
  metaindex_handle : BlockHandle;
  index_block : Block.Block
}.

Definition ReadFilter (f : F) (v : bytes) : result (option FilterBlock.FilterBlockReader) :=
  '(s, h, _) ← handle_DecodeFrom v;
  if negb (ok s) then Ok None
  else
    '(s, c) ← ReadBlock addr f false h;
    match c with
    | Some c => if ok s then r ← FilterBlock.FilterBlockReader_new (contents c); Ok (Some r) else Ok None
    | None => Ok None
    end.

Definition ReadMeta (f : F) (footer : Footer) : result (option FilterBlock.FilterBlockReader) :=
  match filter_policy with
  | None => Ok None
  | Some P =>
      '(s, c) ← ReadBlock addr f false (metaindex_handle_ footer);
      match c with
      | Some c =>
          if ok s then
            meta ← Block.Block_new (contents c);
            iter ← Block.NewIterator meta;
            let key := str "filter." ++ @fp_Name P in
            iter ← @it_Seek _ (Block.Block_Iter (H := Bytewise)) key iter;
            if @it_Valid _ (Block.Block_Iter (H := Bytewise)) iter then
              k ← @it_key _ (Block.Block_Iter (H := Bytewise)) iter;
              if bool_decide (k = key) then v ← @it_value _ (Block.Block_Iter (H := Bytewise)) iter; ReadFilter f v else Ok None
            else Ok None
          else Ok None
      | None => Ok None
      end
  end.

Definition Open (f : F) (size : Z) (w : C) : result (Status * option Table * C) :=
  if size <? kEncodedLength then Ok (Status_new kInvalidArgument (str "file is too short to be an sstable") [], None, w)
  else
    '(s, footer_input) ← ra_Read f (size - kEncodedLength) kEncodedLength;
    if negb (ok s) then Ok (s, None, w)
    else
      '(s, footer) ← footer_DecodeFrom footer_input;
      if negb (ok s) then Ok (s, None, w)
      else
        '(s, c) ← ReadBlock addr f false (index_handle_ footer);
        match c with
        | Some c =>
            if ok s then
              b ← Block.Block_new (contents c);
              let '(id, w) := if has_cache then ca_NewId w else (0, w) in
              fl ← ReadMeta f footer;
              Ok (s, Some {| file := f; cache_id := id; filter := fl; metaindex_handle := metaindex_handle_ footer; index_block := b |}, w)
            else Ok (s, None, w)
        | None => Ok (s, None, w)
        end.

Definition cache_key (t : Table) (h : BlockHandle) : bytes := EncodeFixed64 (cache_id t) ++ EncodeFixed64 (offset_ h).

(** The block of a handle, from the cache or the file. *)
Definition fetch (verify fill : bool) (t : Table) (h : BlockHandle) (w : C) : result (Status * option Block.Block * C) :=
  let read := '(s, c) ← ReadBlock addr (file t) verify h;
              match c with
              | Some c => if ok s then b ← Block.Block_new (contents c); Ok (s, Some (b, cachable c)) else Ok (s, None)
              | None => Ok (s, None)
              end in
  if has_cache then
    '(r, w) ← ca_Lookup (cache_key t h) w;
    match r with
    | Some b => Ok (sOK, Some b, w)
    | None =>
        '(s, r) ← read;
        match r with
        | None => Ok (s, None, w)
        | Some (b, c) => w ← (if c && fill then ca_Insert (cache_key t h) b (Block.size_ b) w else Ok w); Ok (s, Some b, w)
        end
    end
  else '(s, r) ← read; Ok (s, fst <$> r, w).

Definition BlockReader (verify fill : bool) (t : Table) (index_value : bytes) (w : C) : result (Block.BlockIterator * C) :=
  '(s, h, _) ← handle_DecodeFrom index_value;
  if negb (ok s) then Ok (Block.EmptyIterator s, w)
  else
    '(s, b, w) ← fetch verify fill t h w;
    match b with
    | Some b => it ← Block.NewIterator b; Ok (it, w)
    | None => Ok (Block.EmptyIterator s, w)
    end.

Abbreviation TableIterator := (TwoLevel.TwoLevelIterator Block.BlockIterator Block.BlockIterator C).
Definition NewIterator (t : Table) (w : C) : result TableIterator :=
  it ← Block.NewIterator (index_block t);
  TwoLevel.NewTwoLevelIterator it w.

Definition Table_Iter (verify fill : bool) (t : Table) : Iter TableIterator := TwoLevel.TwoLevel_Iter (BlockReader verify fill t) fuel.

(** [InternalGet]: the status, and the pair that is given to [saver]. *)
Definition InternalGet (verify fill : bool) (t : Table) (k : bytes) (w : C) : result (Status * option (bytes * bytes) * C) :=
  iiter ← Block.NewIterator (index_block t);
  iiter ← it_Seek k iiter;
  '(s, r, w) ← (if it_Valid iiter then
                  v ← it_value iiter;
                  skip ← (match filter_policy, filter t with
                          | Some P, Some fl =>
                              '(s, h, _) ← handle_DecodeFrom v;
                              if ok s then m ← FilterBlock.KeyMayMatch (offset_ h) k fl; Ok (negb m) else Ok false
                          | _, _ => Ok false
                          end);
                  if (skip : bool) then Ok (sOK, None, w)
                  else
                    '(b, w) ← BlockReader verify fill t v w;
                    b ← it_Seek k b;
                    r ← (if it_Valid b then bk ← it_key b; bv ← it_value b; Ok (Some (bk, bv)) else Ok None);
                    Ok (it_status b, r, w)
                else Ok (sOK, None, w));
  Ok (if ok s then it_status iiter else s, r, w).

Definition ApproximateOffsetOf (t : Table) (key : bytes) : result Z :=
  iiter ← Block.NewIterator (index_block t);
  iiter ← it_Seek key iiter;
  if it_Valid iiter then
    v ← it_value iiter;
    '(s, h, _) ← handle_DecodeFrom v;
    Ok (if ok s then offset_ h else offset_ (metaindex_handle t))
  else Ok (offset_ (metaindex_handle t)).
End table.
Arguments Table F : clear implicits.
End Table.
