(* ===== verification/TableBuildSpec.v ===== *)
(** * What a table builder writes (theorems about Table.v)

    Handles and the footer are read back, and a block that was written is read
    back from any file that holds what was written. The invariant of a
    builder: the blocks it has written hold the pairs that were added, the
    keys of the index separate them, and the filters have their keys; and what
    is in the file at the end. *)

From stdpp Require Import sorting.
From S2P Require Import Prelude Cstd LevelDb Cmem Coding Status DbFormat Iter Comparator Filter Block BlockSpec FilterBlock TwoLevel Crc32c Env Table.
Import Crc32c Format.

(** ** Handles and the footer *)

Definition henc (h : BlockHandle) : bytes := EncodeVarint64 (offset_ h) ++ EncodeVarint64 (size_ h).
Definition handle_ok (h : BlockHandle) : Prop := 0 ≤ offset_ h < 2 ^ 63 ∧ 0 ≤ size_ h < 2 ^ 63.

Lemma handle_encode h dst : handle_ok h → handle_EncodeTo h dst = Ok (dst ++ henc h).
Proof.
  intros [Ho Hs]. unfold handle_EncodeTo. rewrite !(proj2 (Z.eqb_neq _ _)) by lia. cbn [orb]. unfold PutVarint64, henc. by rewrite <- app_assoc.
Qed.

Lemma varint64_length v : 1 ≤ zlen (EncodeVarint64 v) ≤ 10.
Proof. unfold EncodeVarint64, zlen. pose proof (groups_length 9 v). lia. Qed.

Lemma zlen_henc h : 2 ≤ zlen (henc h) ≤ 20.
Proof. unfold henc. rewrite zlen_app. pose proof (varint64_length (offset_ h)). pose proof (varint64_length (size_ h)). lia. Qed.

Lemma handle_decode h rest : handle_ok h → handle_DecodeFrom (henc h ++ rest) = Ok (sOK, h, rest).
Proof.
  intros [Ho Hs]. unfold handle_DecodeFrom, GetVarint64, henc. rewrite <- app_assoc, Varint64_roundtrip by (rewrite ?zlen_app; lia || zlia). rbind.
  rewrite Varint64_roundtrip by (rewrite ?zlen_app; lia || zlia). rbind. by destruct h.
Qed.

Lemma henc_inj h h' : handle_ok h → handle_ok h' → henc h = henc h' → h = h'.
Proof. intros Hh Hh' E. pose proof (handle_decode h [] Hh) as D. rewrite E, handle_decode in D by done. by injection D as ->. Qed.

Lemma henc_bytes h : handle_ok h → Forall is_byte (henc h).
Proof. intros [Ho Hs]. apply Forall_app. split; apply varint64_bytes; lia. Qed.

Lemma footer_roundtrip f : handle_ok (metaindex_handle_ f) → handle_ok (index_handle_ f) →
  ∃ d, footer_EncodeTo f [] = Ok d ∧ zlen d = kEncodedLength ∧ footer_DecodeFrom d = Ok (sOK, f).
Proof.
  intros Hm Hi. unfold footer_EncodeTo. rewrite (handle_encode (metaindex_handle_ f)) by done. rbind. rewrite (handle_encode (index_handle_ f)) by done. rbind. cbn [app].
  set (e := henc (metaindex_handle_ f) ++ henc (index_handle_ f)). pose proof (zlen_henc (metaindex_handle_ f)) as L1. pose proof (zlen_henc (index_handle_ f)) as L2.
  change (Z.to_nat (2 * kMaxEncodedLength)) with 40%nat. assert (length e ≤ 40)%nat as Hle by (unfold e, zlen in *; rewrite length_app; lia).
  rewrite take_ge by lia. unfold PutFixed32. set (pad := replicate (40 - length e) 0).
  assert (length (e ++ pad) = 40%nat) as Hl by (unfold pad; rewrite length_app, length_replicate; lia).
  assert (zlen (((e ++ pad) ++ EncodeFixed32 (Z.land kTableMagicNumber 0xffffffff)) ++ EncodeFixed32 (Z.shiftr kTableMagicNumber 32)) = 48) as Hz.
  { rewrite !zlen_app. change (zlen (EncodeFixed32 _)) with 4. unfold zlen in *. rewrite length_app in Hl. lia. }
  rewrite Hz. change (zlen []) with 0. change (0 + kEncodedLength) with 48. cbn [Z.eqb Pos.eqb]. eexists. split; [done|]. split; [exact Hz|].
  unfold footer_DecodeFrom, Block.bytes_at. rewrite Hz. change (kEncodedLength - 8 <=? 48) with true. cbn iota. rbind. change (Z.to_nat (kEncodedLength - 8)) with 40%nat.
  rewrite <- app_assoc, drop_app_length' by done. rewrite Fixed32_roundtrip by done. rbind.
  rewrite drop_app_length' by done. rewrite <- (app_nil_r (EncodeFixed32 (Z.shiftr _ _))) at 1. rewrite Fixed32_roundtrip by done. rbind.
  change (negb _) with false at 1. cbn iota. unfold e. rewrite <- !app_assoc. rewrite handle_decode by done. rbind. cbn [ok].
  rewrite handle_decode by done. rbind. by destruct f.
Qed.

(** ** Blocks in a file *)
Section stored.
Context `{SnappyLaws}.

Definition trailer (ty : Z) (c : bytes) : bytes := ty :: EncodeFixed32 (Mask (crc_ref 0 (c ++ [ty]))).

(** The bytes [c] of the type [ty] stand for the block [raw]. *)
Definition packs (ty : Z) (c raw : bytes) : Prop :=
  (ty = kNoCompression ∧ c = raw) ∨ (ty = kSnappyCompression ∧ sn_GetUncompressedLength c ≠ None ∧ sn_Uncompress c = Some raw).

(** The file [u] holds the block [raw] at the handle. *)
Definition stored (u : bytes) (h : BlockHandle) (raw : bytes) : Prop :=
  ∃ a c ty b, u = a ++ (c ++ trailer ty c) ++ b ∧ h = {| offset_ := zlen a; size_ := zlen c |} ∧ packs ty c raw ∧ Forall is_byte c ∧ zlen u < 2 ^ 62.

Lemma zlen_trailer ty c : zlen (trailer ty c) = 5.
Proof. done. Qed.

Lemma stored_app u h raw d : stored u h raw → zlen (u ++ d) < 2 ^ 62 → stored (u ++ d) h raw.
Proof. intros (a & c & ty & b & -> & -> & Hp & Hb & _) Hz. exists a, c, ty, (b ++ d). split; [by rewrite <- !app_assoc|]. done. Qed.

Lemma stored_handle u h raw : stored u h raw → handle_ok h ∧ offset_ h + size_ h + 5 ≤ zlen u.
Proof.
  intros (a & c & ty & b & -> & -> & _ & _ & Hz). rewrite !zlen_app, zlen_trailer in *. pose proof (zlen_nonneg a). pose proof (zlen_nonneg b). pose proof (zlen_nonneg c).
  unfold handle_ok. cbn. lia.
Qed.

Context (addr : bytes → Z) {F : Type} (content : F → bytes → Prop) `{RandomLaws F content}.

Lemma ReadBlock_ok f u h raw verify : content f u → stored u h raw →
  ∃ bc, ReadBlock addr f verify h = Ok (sOK, Some bc) ∧ contents bc = raw.
Proof.
  intros Hf (a & c & ty & b & Eu & -> & Hp & Hb & Hz). unfold ReadBlock. cbn [offset_ size_]. pose proof (zlen_nonneg c). rewrite Eu in Hf.
  assert (zlen (c ++ trailer ty c) = zlen c + 5) as Ez by by rewrite zlen_app, zlen_trailer.
  assert (zlen c + 5 ≤ zlen u) by (rewrite Eu, !zlen_app, zlen_trailer; pose proof (zlen_nonneg a); pose proof (zlen_nonneg b); lia).
  rewrite u64_small by (unfold kBlockTrailerSize; lia). change kBlockTrailerSize with 5. rewrite <- Ez, (ra_read_law f a _ b Hf). rbind. cbn [ok negb].
  rewrite Z.eqb_refl. cbn [negb]. assert (is_byte ty) as Hty by (destruct Hp as [[-> _]|[-> _]]; done).
  assert ((if verify then p ← Block.bytes_at (c ++ trailer ty c) (zlen c + 1); w ← DecodeFixed32 p; text ← slice (c ++ trailer ty c) 0 (zlen c + 1);
            actual ← Value (addr text) text; Ok (actual =? Unmask w) else Ok true) = Ok true) as ->.
  { destruct verify; [|done]. unfold Block.bytes_at. rewrite (proj2 (Z.leb_le _ _)) by lia. rbind. unfold trailer. rewrite cons_middle, app_assoc.
    assert (zlen (c ++ [ty]) = zlen c + 1) as E1 by by rewrite zlen_app. rewrite drop_app_length' by (unfold zlen in *; lia).
    rewrite <- (app_nil_r (EncodeFixed32 _)), Fixed32_roundtrip by apply Mask_range. rbind. rewrite slice_prefix by done. rbind.
    assert (Forall is_byte (c ++ [ty])) as Hct by (apply Forall_app; split; [done|by apply Forall_singleton]).
    unfold Value. rewrite Extend_ref by done. rbind. rewrite Unmask_Mask by (by apply crc_ref_range). by rewrite Z.eqb_refl. }
  rbind. cbn [negb]. assert (load (c ++ trailer ty c) (zlen c) = Ok ty) as -> by by apply load_app. rbind. rewrite (slice_prefix c (trailer ty c)) by done. rbind.
  destruct Hp as [[-> ->]|(-> & Hl & Hu)]; cbn [Z.eqb Pos.eqb kNoCompression kSnappyCompression].
  - by eexists.
  - destruct (sn_GetUncompressedLength c); [|done]. rewrite Hu. by eexists.
Qed.
End stored.

(** ** Writing blocks *)
Section writing.
Import TableBuilder.
Context (addr : bytes → Z) `{Comparator} `{HSn : SnappyLaws} {F : Type} (written : F → bytes → Prop) `{WritableLaws F written} (compress : bool).

(** The builder has written [u] without an error. *)
Definition wrote (r : Rep F) (u : bytes) : Prop := written (file r) u ∧ offset r = zlen u ∧ status r = sOK.

Lemma WriteRawBlock_ok r u c ty raw : wrote r u → packs ty c raw → Forall is_byte c → zlen u + zlen c + 5 < 2 ^ 62 →
  ∃ h f, WriteRawBlock addr c ty r = Ok (h, with_file f (zlen (u ++ c ++ trailer ty c)) sOK r) ∧ written f (u ++ c ++ trailer ty c) ∧
    stored (u ++ c ++ trailer ty c) h raw ∧ offset_ h = zlen u.
Proof.
  intros (Hw & Ho & Hs) Hp Hb Hz. unfold WriteRawBlock. assert (is_byte ty) as Hty by (destruct Hp as [[-> _]|[-> _]]; done). rewrite Ho.
  destruct (wf_append_law (file r) u c Hw) as (f1 & -> & Hw1). rbind. change (ok sOK) with true; cbn iota. unfold Value. rewrite Extend_ref by done. rbind.
  assert (Forall is_byte [ty]) as Ht by by apply Forall_singleton.
  rewrite Extend_ref by (try done; by apply crc_ref_range). rbind. rewrite <- crc_ref_app. fold (trailer ty c).
  destruct (wf_append_law f1 _ (trailer ty c) Hw1) as (f2 & -> & Hw2). rbind. change (ok sOK) with true; cbn iota. pose proof (zlen_nonneg u). pose proof (zlen_nonneg c).
  rewrite u64_small by (unfold kBlockTrailerSize; lia). exists {| offset_ := zlen u; size_ := zlen c |}, f2. split.
  - do 3 f_equal. rewrite !zlen_app, zlen_trailer. unfold kBlockTrailerSize. lia.
  - rewrite <- app_assoc in Hw2. split; [done|]. split; [|done]. exists u, c, ty, []. rewrite app_nil_r. split; [done|]. split; [done|]. split; [done|]. split; [done|].
    rewrite !zlen_app, zlen_trailer. lia.
Qed.

Lemma WriteBlock_ok r u b : wrote r u → Forall is_byte (BlockBuilder.Finish b).1 → zlen u + zlen (BlockBuilder.Finish b).1 + 5 < 2 ^ 62 →
  ∃ h f d, WriteBlock addr compress b r = Ok (h, with_file f (zlen (u ++ d)) sOK r) ∧ written f (u ++ d) ∧ stored (u ++ d) h (BlockBuilder.Finish b).1 ∧
    offset_ h = zlen u ∧ 5 ≤ zlen d ≤ zlen (BlockBuilder.Finish b).1 + 5.
Proof.
  intros Hw Hb Hz. unfold WriteBlock. pose proof Hw as (_ & _ & ->). cbn [ok negb]. set (raw := (BlockBuilder.Finish b).1) in *.
  assert (∃ c ty, (if compress then match sn_Compress raw with Some c => if zlen c <? zlen raw - zlen raw / 8 then (c, kSnappyCompression) else (raw, kNoCompression)
      | None => (raw, kNoCompression) end else (raw, kNoCompression)) = (c, ty) ∧ packs ty c raw ∧ Forall is_byte c ∧ zlen c ≤ zlen raw) as (c & ty & -> & Hp & Hbc & Hlc).
  { assert (packs kNoCompression raw raw) by by left. destruct compress; [|by exists raw, kNoCompression].
    destruct (sn_Compress raw) as [c|] eqn:Ec; [|by exists raw, kNoCompression]. destruct (Z.ltb_spec (zlen c) (zlen raw - zlen raw / 8)); [|by exists raw, kNoCompression].
    exists c, kSnappyCompression. split; [done|]. pose proof (zlen_nonneg raw). pose proof (Z.div_pos (zlen raw) 8). split; [|split; [by eapply sn_bytes|lia]].
    right. split; [done|]. split; [by rewrite (sn_length raw c)|by apply sn_roundtrip]. }
  destruct (WriteRawBlock_ok r u c ty raw Hw Hp Hbc) as (h & f & -> & Hf & Hst & Ho); [lia|]. exists h, f, (c ++ trailer ty c). repeat (split; [done|]).
  rewrite zlen_app, zlen_trailer. pose proof (zlen_nonneg c). lia.
Qed.
End writing.

(** * The invariant of a builder *)
Import Crc32c Format TableBuilder FilterSpec.

Section building.
Context {A : Type} {enc : A → bytes} {cmp : A → A → Z} {good : A → Prop} {same : A → A → Prop} {cost : Z}.
Context `{HC : Comparator} `{!ComparatorLaws enc cmp good} `{!SameLaws enc cmp good same}.
Context (Hbytes : ∀ a, good a → Forall is_byte (enc a)).
Context (addr : bytes → Z) `{HSn : SnappyLaws} {F : Type} {written : F → bytes → Prop} `{HW : WritableLaws F written}.
Context (filter_policy : option FilterPolicy) (block_size interval : Z) (compress : bool) (Hint : 1 ≤ interval).
Context (Hfp : ∀ P, filter_policy = Some P → FilterLaws (H := P) enc good same cost) (Hcost : 0 ≤ cost).

Abbreviation pair := (A * bytes)%type.
Definition pair_ok (e : pair) : Prop := good e.1 ∧ zlen e.2 < 2 ^ 31 ∧ Forall is_byte e.2.

(** What an entry may take in the file. *)
Definition wt (e : pair) : Z := 100 + 2 * zlen (enc e.1) + zlen e.2 + cost.
Definition total (L : list pair) : Z := foldr (λ e n, wt e + n) 0 L.

Definition holds_block (raw : bytes) (B : list pair) : Prop := ∃ r n E idx, block_of (enc := enc) (good := good) raw r n E idx B.

(** ** Sums *)
Lemma wt_pos e : 100 ≤ wt e.
Proof. unfold wt. pose proof (zlen_nonneg (enc e.1)). pose proof (zlen_nonneg e.2). lia. Qed.
Lemma total_nonneg L : 0 ≤ total L.
Proof. induction L as [|e L IH]; cbn; [done|]. pose proof (wt_pos e). unfold total in IH. lia. Qed.
Lemma total_app L L' : total (L ++ L') = total L + total L'.
Proof. induction L as [|e L IH]; cbn; [done|]. unfold total in *. lia. Qed.
Lemma total_one e : total [e] = wt e.
Proof. cbn. lia. Qed.
Lemma total_elem e L : e ∈ L → wt e ≤ total L.
Proof. intros (L1 & L2 & ->)%list_elem_of_split. rewrite total_app. change (e :: L2) with ([e] ++ L2). rewrite total_app, total_one. pose proof (total_nonneg L1). pose proof (total_nonneg L2). lia. Qed.
Lemma total_length L : 100 * zlen L ≤ total L.
Proof. induction L as [|e L IH]; [done|]. rewrite zlen_cons. cbn. fold (total L). pose proof (wt_pos e). lia. Qed.

Lemma total_cost L : cost * zlen L ≤ total L.
Proof. induction L as [|e L IH]; [cbn; change (zlen []) with 0; lia|]. rewrite zlen_cons. cbn. fold (total L). pose proof (wt_pos e). unfold wt. pose proof (zlen_nonneg (enc e.1)). pose proof (zlen_nonneg e.2). lia. Qed.

(** ** The filters *)
Definition filter_inv (fb : option FilterBlock.FilterBlockBuilder) (o : Z) (Bs : list (list pair)) (hs : list BlockHandle) (cur : list pair) : Prop :=
  match filter_policy, fb with
  | Some P, Some fb => ∃ G K, filled (HP := P) (enc := enc) (good := good) (same := same) (cost := cost) fb G K ∧ zlen G = o / FilterBlock.kFilterBase ∧
      Forall (λ e, e.1 ∈ K) cur ∧ zlen (concat G) + zlen K = zlen (concat Bs ++ cur) ∧ zlen (flat (enc := enc) K) ≤ total (concat Bs ++ cur) ∧
      ∀ i h B e, hs !! i = Some h → Bs !! i = Some B → e ∈ B → recorded G K (Z.to_nat (offset_ h / FilterBlock.kFilterBase)) e.1
  | None, None => True
  | _, _ => False
  end.

Lemma filter_start fb o o' Bs hs cur h : filter_inv fb o Bs hs cur → 0 ≤ o ≤ o' → offset_ h = o → length hs = length Bs →
  ∃ fb', on_filter filter_policy (λ P, FilterBlock.StartBlock o') fb = Ok fb' ∧ filter_inv fb' o' (Bs ++ [cur]) (hs ++ [h]) [].
Proof.
  unfold filter_inv, on_filter. intros Hf Ho Eh Hlen. destruct filter_policy as [P|] eqn:EP, fb as [fb|]; try done; [|by exists None]. pose proof (Hfp P eq_refl) as HP.
  destruct Hf as (G & K & Hfill & HG & Hcur & Hn & Hk & Hrec). unfold FilterBlock.kFilterBase in *. change (Z.shiftl 1 FilterBlock.kFilterBaseLg) with 2048 in *.
  assert (o / 2048 ≤ o' / 2048) by (apply Z.div_le_mono; lia). assert (0 ≤ o / 2048) by (apply Z.div_pos; lia).
  destruct (StartBlock_ok (HP := P) o' fb G K Hfill) as (fb' & -> & Hfill'); [change FilterBlock.kFilterBase with 2048; lia|]. change FilterBlock.kFilterBase with 2048 in Hfill'. rbind.
  exists (Some fb'). split; [done|]. set (n := Z.to_nat (o' / 2048)) in *. eexists _, _. split; [exact Hfill'|].
  assert (concat (Bs ++ [cur]) ++ [] = concat Bs ++ cur) as EB by (rewrite concat_app; cbn [concat]; by rewrite !app_nil_r). rewrite EB.
  split; [|split; [constructor|split; [|split]]].
  - unfold advance. destruct (decide _); cbn [fst]; unfold zlen in *; rewrite ?length_app; cbn [length]; rewrite ?length_replicate; lia.
  - unfold advance. destruct (decide _); cbn [fst snd]; [|done]. rewrite concat_app. cbn [concat]. rewrite <- Hn, !zlen_app.
    assert (concat (replicate (n - length G - 1) ([] : list A)) = []) as -> by (generalize (n - length G - 1)%nat; intros m; induction m; done). change (zlen []) with 0. lia.
  - unfold advance. destruct (decide _); cbn [snd]; [|done]. etransitivity; [|exact Hk]. unfold flat. cbn. pose proof (zlen_nonneg (concat (enc <$> K))). change (zlen []) with 0. lia.
  - intros i h' B e Hh HB He. apply recorded_advance. apply lookup_snoc_Some in Hh as [[Hi Hh]|[-> ->]].
    + rewrite lookup_app_l in HB by lia. by eapply Hrec.
    + rewrite Hlen, lookup_app_r, Nat.sub_diag in HB by lia. cbn in HB. injection HB as <-. rewrite Eh, <- HG. unfold zlen. rewrite Nat2Z.id. apply recorded_here.
      rewrite Forall_forall in Hcur. by apply Hcur.
Qed.

Lemma filter_add fb o Bs hs cur k v : filter_inv fb o Bs hs cur → good k → total ((concat Bs ++ cur) ++ [(k, v)]) < 2 ^ 31 →
  ∃ fb', on_filter filter_policy (λ P b, Ok (FilterBlock.AddKey (enc k) b)) fb = Ok fb' ∧ filter_inv fb' o Bs hs (cur ++ [(k, v)]).
Proof.
  unfold filter_inv, on_filter. intros Hf Hg Hw. destruct filter_policy as [P|] eqn:EP, fb as [fb|]; try done; [|by exists None]. pose proof (Hfp P eq_refl) as HP.
  destruct Hf as (G & K & Hfill & HG & Hcur & Hn & Hk & Hrec). rbind. eexists. split; [done|]. rewrite app_assoc. rewrite (total_app (concat Bs ++ cur)), total_one in *. unfold wt in *. cbn [fst snd] in *.
  pose proof (total_length (concat Bs ++ cur)). pose proof (zlen_nonneg (concat G)). pose proof (zlen_nonneg (enc k)). pose proof (zlen_nonneg v).
  exists G, (K ++ [k]). split; [apply AddKey_ok; [done|done|lia|lia]|]. split; [done|]. split; [|split; [|split]].
  - apply Forall_app. split; [|repeat constructor; cbn; set_solver]. eapply Forall_impl; [exact Hcur|]. cbn. set_solver.
  - rewrite !zlen_app in *. change (zlen [k]) with 1. change (zlen [(k, v)]) with 1. lia.
  - unfold flat in *. rewrite fmap_app, concat_app, zlen_app. cbn [fmap list_fmap concat]. rewrite app_nil_r. lia.
  - intros i h B e Hh HB He. apply recorded_add. by eapply Hrec.
Qed.

(** ** The invariant *)

(** The key [s] is at or behind the block [i] and before what follows; no key
    up to [s] is for the key that follows. *)
Definition separates (Bs : list (list pair)) (cur : list pair) (i : nat) (s : A) : Prop :=
  good s ∧ ∃ B a b, Bs !! i = Some B ∧ last B = Some a ∧ head (concat (drop (S i) Bs) ++ cur) = Some b ∧
    cmp a.1 s ≤ 0 ∧ cmp s b.1 < 0 ∧ ∀ t, good t → cmp a.1 t < 0 → cmp t s ≤ 0 → ¬ same t b.1.

Record progress (r : Rep F) (u : bytes) (Bs : list (list pair)) (hs : list BlockHandle) (seps : list A) (cur : list pair) : Prop := {
  p_wrote : wrote written r u;
  p_closed : closed r = false;
  p_stored : Forall2 (λ h B, ∃ raw, stored u h raw ∧ holds_block raw B) hs Bs;
  p_offsets : StronglySorted (λ h h', offset_ h < offset_ h') hs;
  p_data : built (enc := enc) (good := good) interval (data_block r) cur;
  p_index : built (enc := enc) (good := good) 1 (index_block r) (zip seps (henc <$> hs));
  p_pending : (pending r = None ∧ length seps = length hs) ∨
              (∃ h, pending r = Some h ∧ last hs = Some h ∧ length hs = S (length seps) ∧ cur = []);
  p_last : last_key r = default [] (enc ∘ fst <$> last (concat Bs ++ cur));
  p_num : num_entries r = zlen (concat Bs ++ cur);
  p_nonempty : Forall (λ B, B ≠ []) Bs;
  p_pairs : Forall pair_ok (concat Bs ++ cur);
  p_sorted : sorted (cmp := cmp) (concat Bs ++ cur).*1;
  p_seps i s : seps !! i = Some s → separates Bs cur i s;
  p_filter : filter_inv (filter_block r) (zlen u) Bs hs cur;
  p_size : zlen u + zlen (BlockBuilder.buffer_ (data_block r)) + 4 * zlen (BlockBuilder.restarts_ (data_block r)) + (if decide (cur = []) then 0 else 13) ≤ 4 + total (concat Bs ++ cur);
  p_isize : zlen (BlockBuilder.buffer_ (index_block r)) + 4 * zlen (BlockBuilder.restarts_ (index_block r)) ≤ 4 + total (concat (take (length seps) Bs))
}.

Lemma new_progress f : written f [] → ∃ r, TableBuilder_new filter_policy interval f = Ok r ∧ progress r [] [] [] [] [].
Proof.
  intros Hf. unfold TableBuilder_new. destruct (new_built (enc := enc) (good := good) interval Hint) as (d & Ed & Hd). rewrite Ed. rbind.
  destruct (new_built (enc := enc) (good := good) 1 ltac:(lia)) as (i & Ei & Hi). rewrite Ei. rbind.
  assert (∀ n b, BlockBuilder.BlockBuilder_new n = Ok b → zlen (BlockBuilder.buffer_ b) + 4 * zlen (BlockBuilder.restarts_ b) = 4) as Hsz.
  { intros n b Eb. unfold BlockBuilder.BlockBuilder_new in Eb. destruct (1 <=? n); [|done]. by injection Eb as <-. }
  set (fb0 := match filter_policy with Some _ => Some FilterBlock.FilterBlockBuilder_new | None => None end).
  assert (∃ fb, on_filter filter_policy (λ P, FilterBlock.StartBlock 0) fb0 = Ok fb ∧ filter_inv fb 0 [] [] []) as (fb & -> & Hfb).
  { unfold on_filter, filter_inv, fb0. destruct filter_policy as [P|] eqn:EP; [|by exists None]. pose proof (Hfp P eq_refl) as HP. cbn [FilterBlock.StartBlock]. unfold FilterBlock.StartBlock.
    cbn. eexists. split; [done|]. exists [], []. split; [apply (new_filled (HP := P))|]. repeat (split; [done|]). done. }
  rbind. eexists. split; [done|]. split; cbn [file offset status data_block index_block last_key num_entries closed filter_block pending]; try done.
  - constructor.
  - by left.
  - constructor.
  - rewrite decide_True by done. pose proof (Hsz _ _ Ed). change (zlen []) with 0. cbn. lia.
  - pose proof (Hsz _ _ Ei). cbn. lia.
Qed.

(** ** Flushing the data block *)

Ltac rep_cbn := cbn [file offset status data_block index_block last_key num_entries closed filter_block pending with_file with_blocks close].

Lemma built_nonempty n b (L : list pair) : built (enc := enc) (good := good) n b L → L ≠ [] → BlockBuilder.empty b = false.
Proof.
  intros (E & idx & Hb & _ & _ & _ & _ & HE & _ & Hc & _) HL. unfold BlockBuilder.empty. rewrite Hb. destruct E as [|[s [k v]] E]; [by destruct L|].
  destruct Hc as (_ & _ & H3 & H4 & H5 & _). rewrite bool_decide_false; [done|]. intros En. apply (f_equal zlen) in En. rewrite body_cons, zlen_app in En.
  pose proof (header_length (s, (k, v))) as Hh. unfold packed in En. rewrite zlen_app in En. change (zlen []) with 0 in En.
  pose proof (zlen_nonneg (drop s k ++ v)). pose proof (zlen_nonneg (body E)). cbn [fst snd] in *. unfold lengths_ok in Hh. cbn [fst snd] in Hh. lia.
Qed.

Lemma finished_block n b (L : list pair) : built (enc := enc) (good := good) n b L → Forall pair_ok L → zlen (BlockBuilder.Finish b).1 < 2 ^ 32 →
  holds_block (BlockBuilder.Finish b).1 L ∧ Forall is_byte (BlockBuilder.Finish b).1.
Proof.
  intros Hb Hp Hz. destruct (block_Finish_ok n b L Hb Hz) as (r & m & E & idx & HB). split; [by exists r, m, E, idx|].
  eapply block_bytes; [exact HB|]. eapply Forall_impl; [exact Hp|]. intros e (H1 & _ & H3). split; [by apply Hbytes|done].
Qed.

Lemma last_nonempty {X} (l : list X) : l ≠ [] → ∃ x, last l = Some x.
Proof. intros Hl. destruct (last l) eqn:E; [by eexists|]. by apply last_None in E. Qed.

Lemma stored_grow u d hs Bs : Forall2 (λ h (B : list pair), ∃ raw, stored u h raw ∧ holds_block raw B) hs Bs → zlen (u ++ d) < 2 ^ 62 →
  Forall2 (λ h B, ∃ raw, stored (u ++ d) h raw ∧ holds_block raw B) hs Bs.
Proof. intros Hs Hz. eapply Forall2_impl; [exact Hs|]. intros h B (raw & Hst & Hb). exists raw. split; [by apply stored_app|done]. Qed.

(** Handles of blocks in [u] lie before the next block. *)
Lemma stored_before u hs Bs : Forall2 (λ h (B : list pair), ∃ raw, stored u h raw ∧ holds_block raw B) hs Bs → Forall (λ h, offset_ h < zlen u) hs.
Proof.
  intros Hs. apply Forall_lookup. intros i h Hi. destruct (Forall2_lookup_l _ _ _ _ _ Hs Hi) as (B & _ & raw & Hst & _).
  destruct (stored_handle _ _ _ Hst) as [[Ho Hz] Hle]. lia.
Qed.

Lemma zlen_data_Finish b : zlen (BlockBuilder.Finish b).1 = zlen (BlockBuilder.buffer_ b) + 4 * zlen (BlockBuilder.restarts_ b) + 4.
Proof. apply zlen_Finish. Qed.

Lemma Flush_ok r u Bs hs seps cur : progress r u Bs hs seps cur → cur ≠ [] → total (concat Bs ++ cur) < 2 ^ 31 →
  ∃ r' u' h, Flush addr filter_policy compress r = Ok r' ∧ progress r' u' (Bs ++ [cur]) (hs ++ [h]) seps [].
Proof.
  intros Hp Hcur Htot. pose proof Hp as [Hwr Hcl Hst Hoff Hd Hi Hpend Hlast Hnum Hne Hpair Hsort Hseps Hfil Hsz Hisz]. unfold Flush.
  assert (pending r = None ∧ length seps = length hs) as [Hpn Hsl] by (destruct Hpend as [|(? & _ & _ & _ & ?)]; [done|congruence]).
  pose proof Hwr as (Hw & Hwo & Hws). rewrite Hcl, Hws, (built_nonempty _ _ _ Hd Hcur), Hpn. change (ok sOK) with true. rewrite bool_decide_false by (by intros []). cbn [negb].
  rewrite decide_False in Hsz by done. pose proof (zlen_nonneg u). pose proof (zlen_nonneg (BlockBuilder.buffer_ (data_block r))). pose proof (zlen_nonneg (BlockBuilder.restarts_ (data_block r))).
  pose proof (zlen_data_Finish (data_block r)) as HF. pose proof Hpair as Hpair'. apply Forall_app in Hpair' as [_ Hpc].
  destruct (finished_block _ _ _ Hd Hpc) as [Hhold Hby]; [lia|].
  destruct (WriteBlock_ok addr written compress r u (data_block r) Hwr Hby) as (h & f & d & -> & Hf & Hsto & Hho & Hd5); [lia|]. rbind.
  rep_cbn. change (ok sOK) with true. cbn iota.
  destruct (wf_flush_law f (u ++ d) Hf) as (f' & Ef' & Hf'). rewrite Ef'. rbind. rep_cbn.
  assert (zlen u ≤ zlen (u ++ d)) by (rewrite zlen_app; lia).
  destruct (filter_start (filter_block r) (zlen u) (zlen (u ++ d)) Bs hs cur h Hfil) as (fb & Efb & Hfb); [lia|done|by eapply Forall2_length|].
  rewrite Efb. rbind. eexists _, (u ++ d), h. split; [done|].
  assert (concat (Bs ++ [cur]) ++ [] = concat Bs ++ cur) as EB by (rewrite concat_app; cbn [concat]; by rewrite !app_nil_r).
  assert (zlen (u ++ d) < 2 ^ 62) by (rewrite zlen_app; lia).
  split; rewrite ?EB; rep_cbn; try done.
  - apply Forall2_app; [by apply stored_grow|]. repeat constructor. by exists (BlockBuilder.Finish (data_block r)).1.
  - apply StronglySorted_app. split; [|split; [done|by repeat constructor]]. intros h1 h2 Hin ->%list_elem_of_singleton. rewrite Hho.
    pose proof (stored_before _ _ _ Hst) as Hb. rewrite Forall_forall in Hb. by apply Hb.
  - apply (reset_built interval Hint).
  - rewrite fmap_app, zip_with_app_r. rewrite drop_ge by (rewrite length_fmap; lia). rewrite take_ge by (rewrite length_fmap; lia). cbn [zip_with]. by rewrite app_nil_r.
  - right. exists h. rewrite last_snoc, length_app, Hsl. cbn. split; [done|]. split; [done|]. split; [lia|done].
  - apply Forall_app. split; [done|]. by repeat constructor.
  - intros i s Hs. destruct (Hseps i s Hs) as (Hgs & B & a & b & HB & Ha & Hb & Hrest). split; [done|]. exists B, a, b.
    split; [by apply lookup_app_l_Some|]. split; [done|]. split; [|done]. pose proof (lookup_lt_Some _ _ _ HB). rewrite drop_app_le by lia.
    rewrite concat_app, app_nil_r. cbn [concat]. by rewrite app_nil_r.
  - rewrite decide_True by done. rewrite zlen_app. cbn [BlockBuilder.Reset BlockBuilder.buffer_ BlockBuilder.restarts_]. change (zlen (A:=Z) []) with 0. change (zlen [0]) with 1. lia.
  - pose proof (Forall2_length _ _ _ Hst). rewrite take_app_le by lia. done.
Qed.

(** ** The index entry of a block *)

(** The last written block, where its index entry is pending. *)
Lemma pending_block r u Bs hs seps cur h : progress r u Bs hs seps cur → pending r = Some h →
  ∃ hs0 Bs0 B a, hs = hs0 ++ [h] ∧ Bs = Bs0 ++ [B] ∧ length hs0 = length seps ∧ length Bs0 = length seps ∧ last B = Some a ∧ cur = [] ∧
    last (concat Bs ++ cur) = Some a ∧ handle_ok h.
Proof.
  intros Hp Hpd. destruct (p_pending _ _ _ _ _ _ Hp) as [[? _]|(h' & E & Hl & Hn & ->)]; [congruence|]. rewrite Hpd in E. injection E as <-.
  apply last_Some in Hl as [hs0 ->]. pose proof (p_stored _ _ _ _ _ _ Hp) as Hs. apply Forall2_app_inv_l in Hs as (Bs0 & Bs1 & HF0 & HF1 & ->).
  apply Forall2_cons_inv_l in HF1 as (B & Bs2 & (raw & Hst & _) & HF2 & ->). apply Forall2_nil_inv_l in HF2 as ->.
  pose proof (p_nonempty _ _ _ _ _ _ Hp) as Hne. apply Forall_app in Hne as [_ Hne]. apply Forall_cons in Hne as [HB _].
  destruct (last_nonempty B HB) as [a Ha]. exists hs0, Bs0, B, a. rewrite length_app in Hn. cbn in Hn. pose proof (Forall2_length _ _ _ HF0).
  repeat (split; [done || lia|]). split; [|by apply stored_handle in Hst as [? _]]. rewrite concat_app, app_nil_r. cbn [concat]. rewrite app_nil_r, last_app, Ha. done.
Qed.

(** Each separator is before the keys of later blocks. *)
Lemma sep_before r u Bs hs seps cur i s a : progress r u Bs hs seps cur → seps !! i = Some s → last (concat Bs ++ cur) = Some a → cmp s a.1 < 0.
Proof.
  intros Hp Hs Ha. destruct (p_seps _ _ _ _ _ _ Hp i s Hs) as (_ & B & a0 & b & HB & _ & Hb & _ & Hsb & _).
  destruct (concat (drop (S i) Bs) ++ cur) as [|b' l] eqn:El; [done|]. injection Hb as ->.
  pose proof (p_sorted _ _ _ _ _ _ Hp) as Hso. rewrite (concat_split Bs i B HB), <- !app_assoc, El, app_assoc in Hso, Ha.
  rewrite last_app_cons in Ha. rewrite fmap_app in Hso. unfold sorted in Hso. apply StronglySorted_app in Hso as (_ & _ & Hso). cbn in Hso. inversion Hso as [|? ? _ Hall]; subst.
  destruct l as [|c l]; [cbn in Ha; congruence|]. rewrite last_cons_cons in Ha. apply last_Some_elem_of in Ha.
  rewrite Forall_fmap, Forall_forall in Hall. eapply ko_lt_le; [exact Hsb|]. specialize (Hall a Ha). cbn in Hall. lia.
Qed.

Lemma head_app_l {X} (l l' : list X) x : head l = Some x → head (l ++ l') = Some x.
Proof. by destruct l. Qed.

(** The index with the entry of the pending block, for a key [s] at or behind
    the last one. *)
Lemma add_index_ok r u Bs hs seps cur h a s : progress r u Bs hs seps cur → pending r = Some h → last (concat Bs ++ cur) = Some a →
  good s → cmp a.1 s ≤ 0 → zlen (enc s) ≤ zlen (enc a.1) → total (concat Bs ++ cur) < 2 ^ 31 →
  ∃ i, add_index (enc s) r = Ok i ∧ built (enc := enc) (good := good) 1 i (zip (seps ++ [s]) (henc <$> hs)) ∧
    zlen (BlockBuilder.buffer_ i) + 4 * zlen (BlockBuilder.restarts_ i) ≤ 4 + total (concat (take (length (seps ++ [s])) Bs)).
Proof.
  intros Hp Hpd Ha Hs Has Hle Htot. destruct (pending_block _ _ _ _ _ _ _ Hp Hpd) as (hs0 & Bs0 & B & a' & -> & -> & Hl1 & Hl2 & HaB & -> & Ha' & Hh).
  rewrite Ha in Ha'. injection Ha' as <-. unfold add_index. rewrite Hpd, handle_encode by done. rbind. cbn [app].
  pose proof (p_index _ _ _ _ _ _ Hp) as Hi. pose proof (p_isize _ _ _ _ _ _ Hp) as Hsz. rewrite <- Hl2, take_app_length in Hsz.
  pose proof (zlen_henc h) as Hhl. assert (zip seps (henc <$> hs0 ++ [h]) = zip seps (henc <$> hs0)) as Ez.
  { rewrite fmap_app, zip_with_app_r. rewrite length_fmap, drop_ge, take_ge by lia. cbn [zip_with]. by rewrite app_nil_r. }
  rewrite Ez in Hi. assert (a ∈ B) as HaIn by by apply last_Some_elem_of. pose proof (total_elem a B HaIn) as Hwa. unfold wt in Hwa.
  rewrite concat_app, app_nil_r, total_app in Htot. cbn [concat] in Htot. rewrite app_nil_r in Htot.
  pose proof (zlen_nonneg (BlockBuilder.restarts_ (index_block r))). pose proof (zlen_nonneg a.2). pose proof (zlen_nonneg (enc a.1)). pose proof (total_nonneg B).
  destruct (block_Add_ok (enc := enc) (cmp := cmp) (good := good) 1 ltac:(lia) (index_block r) (zip seps (henc <$> hs0)) s (henc h) Hi Hs) as (i & Ei & Hib & Hz & Hr & _); [lia|lia| |].
  - intros e He. apply last_Some in He as [l El]. destruct (last seps) as [s0|] eqn:Els.
    + apply last_Some in Els as [seps0 Eseps]. assert (e.1 = s0) as ->.
      { apply (f_equal (fmap fst)) in El. rewrite fst_zip in El by (rewrite length_fmap; lia). rewrite Eseps, fmap_app in El. by apply app_inj_tail in El as [_ ->]. }
      eapply ko_lt_le; [|exact Has]. eapply (sep_before _ _ _ _ _ _ (length seps0)); [exact Hp|rewrite Eseps; by apply list_lookup_middle|done].
    + apply last_None in Els as ->. destruct hs0; [|done]. by destruct l.
  - exists i. split; [done|]. split.
    + rewrite fmap_app, zip_with_app by (by rewrite length_fmap). exact Hib.
    + rewrite length_app. cbn [length]. rewrite take_ge by (rewrite length_app; cbn; lia). rewrite concat_app, total_app. cbn [concat]. rewrite app_nil_r. lia.
Qed.

(** The index and its separators when the key [k] is added. *)
Lemma index_step r u Bs hs seps cur k v : progress r u Bs hs seps cur → good k → (∀ e, last (concat Bs ++ cur) = Some e → cmp e.1 k < 0) →
  total (concat Bs ++ cur) < 2 ^ 31 →
  ∃ i seps', (match pending r with None => Ok (index_block r) | Some _ =>
      if BlockBuilder.empty (data_block r) then s ← cp_FindShortestSeparator (last_key r) (enc k); add_index s r else Fault AssertFailed end) = Ok i ∧
    built (enc := enc) (good := good) 1 i (zip seps' (henc <$> hs)) ∧ length seps' = length hs ∧
    zlen (BlockBuilder.buffer_ i) + 4 * zlen (BlockBuilder.restarts_ i) ≤ 4 + total (concat (take (length seps') Bs)) ∧
    ∀ j s, seps' !! j = Some s → separates Bs (cur ++ [(k, v)]) j s.
Proof.
  intros Hp Hk Hlt Htot.
  assert (∀ j s, seps !! j = Some s → separates Bs (cur ++ [(k, v)]) j s) as Hold.
  { intros j s Hs. destruct (p_seps _ _ _ _ _ _ Hp j s Hs) as (Hg & B & a & b & HB & Ha & Hb & Hrest). split; [done|]. exists B, a, b. split; [done|]. split; [done|].
    split; [|done]. rewrite app_assoc. by apply head_app_l. }
  destruct (pending r) as [h|] eqn:Hpd.
  - destruct (pending_block _ _ _ _ _ _ _ Hp Hpd) as (hs0 & Bs0 & B & a & Ehs & EBs & Hl1 & Hl2 & HaB & Ecur & Ha & Hh).
    assert (BlockBuilder.empty (data_block r) = true) as ->.
    { pose proof (p_data _ _ _ _ _ _ Hp) as (E & idx & Hb & _ & _ & _ & _ & HE & _). rewrite Ecur in HE. apply fmap_nil_inv in HE as ->. unfold BlockBuilder.empty. by rewrite Hb. }
    rewrite (p_last _ _ _ _ _ _ Hp), Ha. cbn [fmap option_fmap option_map default compose].
    assert (good a.1) as Hga.
    { pose proof (p_pairs _ _ _ _ _ _ Hp) as Hpo. rewrite Forall_forall in Hpo. destruct (Hpo a) as [? _]; [by apply last_Some_elem_of|done]. }
    destruct (cp_separator (enc := enc) (cmp := cmp) a.1 k Hga Hk (Hlt a Ha)) as (s & Es & Hgs & Has & Hsk & Hsl). unfold compose, id. rewrite Es. rbind.
    destruct (add_index_ok _ _ _ _ _ _ h a s Hp Hpd Ha Hgs Has Hsl Htot) as (i & -> & Hi & Hiz). exists i, (seps ++ [s]). split; [done|]. split; [done|].
    split; [rewrite Ehs, !length_app; cbn; lia|]. split; [done|]. intros j s' Hs'. apply lookup_snoc_Some in Hs' as [[_ Hs']|[-> <-]]; [by apply Hold|].
    split; [done|]. exists B, a, (k, v). rewrite EBs, Ecur. split; [rewrite <- Hl2; by apply list_lookup_middle|]. split; [done|].
    split; [rewrite drop_ge by (rewrite length_app; cbn; lia); done|]. split; [done|]. split; [done|]. intros t Ht Hat Hts. cbn.
    exact (same_separator (enc := enc) (cmp := cmp) (good := good) a.1 k s t Hga Hk Hgs Ht (Hlt a Ha) Es Hat Hts).
  - exists (index_block r), seps. split; [done|]. split; [by apply Hp|].
    split; [by destruct (p_pending _ _ _ _ _ _ Hp) as [[_ ?]|(? & ? & _)]; [done|congruence]|]. split; [by apply Hp|done].
Qed.

(** ** Adding a pair *)
Lemma sorted_snoc (l : list A) k : sorted (cmp := cmp) l → (∀ x, last l = Some x → cmp x k < 0) → sorted (cmp := cmp) (l ++ [k]).
Proof.
  intros Hs Hl. unfold sorted in *. apply StronglySorted_app. split; [|split; [done|by repeat constructor]]. intros x y Hx ->%list_elem_of_singleton.
  destruct (last_nonempty l) as [z Hz]; [by destruct l; [set_solver|]|]. specialize (Hl z Hz). apply last_Some in Hz as [l0 ->]. apply elem_of_app in Hx as [Hx| ->%list_elem_of_singleton]; [|done].
  apply StronglySorted_app in Hs as (Hlt & _ & _). apply (ko_lt_le x z k); [apply Hlt; [done|set_solver]|lia].
Qed.

Lemma table_Add_ok r u Bs hs seps cur k v : progress r u Bs hs seps cur → pair_ok (k, v) → (∀ e, last (concat Bs ++ cur) = Some e → cmp e.1 k < 0) →
  total ((concat Bs ++ cur) ++ [(k, v)]) < 2 ^ 31 →
  ∃ r' u' Bs' hs' seps' cur', Add addr filter_policy block_size interval compress (enc k) v r = Ok r' ∧ progress r' u' Bs' hs' seps' cur' ∧
    concat Bs' ++ cur' = (concat Bs ++ cur) ++ [(k, v)].
Proof.
  intros Hp Hk Hlt Htot. pose proof Hp as [Hwr Hcl Hst Hoff Hd Hi Hpend Hlast Hnum Hne Hpair Hsort Hseps Hfil Hsz Hisz]. unfold Add.
  destruct Hk as (Hkg & Hv & Hvb). cbn [fst snd] in *. pose proof Hwr as (Hw & Hwo & Hws). rewrite Hcl, Hws. change (ok sOK) with true. cbn [negb].
  pose proof (total_app (concat Bs ++ cur) [(k, v)]) as Ht. rewrite total_one in Ht. pose proof (wt_pos (k, v)). pose proof (total_length (concat Bs ++ cur)). pose proof (zlen_nonneg (concat Bs ++ cur)).
  assert ((if 0 <? num_entries r then c ← cp_Compare (enc k) (last_key r); Ok (0 <? c) else Ok true) = Ok true) as ->.
  { rewrite Hlast. destruct (last (concat Bs ++ cur)) as [e|] eqn:El; cbn [fmap option_fmap option_map default compose].
    - unfold compose, id. rewrite cp_compare; [rbind|done|]. 2:{ rewrite Forall_forall in Hpair. destruct (Hpair e) as [? _]; [by apply last_Some_elem_of|done]. }
      specialize (Hlt e eq_refl). pose proof (ko_sym (cmp := cmp) e.1 k). assert ((0 <? cmp k e.1) = true) as -> by (apply Z.ltb_lt; lia). by destruct (0 <? _).
    - apply last_None in El. rewrite Hnum, El. done. }
  rbind. cbn [negb]. destruct (index_step _ _ _ _ _ _ k v Hp Hkg Hlt) as (i & seps' & -> & Hi' & Hl' & Hiz & Hs'); [lia|]. rbind.
  destruct (filter_add _ _ _ _ _ k v Hfil Hkg Htot) as (fb & -> & Hfb). rbind.
  pose proof (zlen_nonneg u). pose proof (zlen_nonneg (BlockBuilder.restarts_ (data_block r))). unfold wt in *. cbn [fst snd] in *. pose proof (zlen_nonneg (enc k)). pose proof (zlen_nonneg v).
  destruct (block_Add_ok (enc := enc) (cmp := cmp) (good := good) interval Hint (data_block r) cur k v Hd Hkg Hv) as (d & -> & Hd' & Hdz & Hdr & _); [destruct (decide _); lia| |].
  { intros e He. apply Hlt. by rewrite last_app, He. }
  rbind. assert (progress (with_blocks d i (enc k) (i64 (num_entries r + 1)) fb None r) u Bs hs seps' (cur ++ [(k, v)])) as Hp'.
  { split; rep_cbn; rewrite ?app_assoc; try done.
    - by left.
    - rewrite last_snoc. done.
    - rewrite Hnum, (zlen_app _ [(k, v)]). change (zlen [(k, v)]) with 1. by rewrite i64_small by lia.
    - apply Forall_app. split; [done|]. by repeat constructor.
    - rewrite fmap_app. apply sorted_snoc; [done|]. intros x Hx. rewrite fmap_last in Hx. destruct (last _) as [e|] eqn:El; [|done]. injection Hx as <-. by apply Hlt.
    - rewrite decide_False by (by destruct cur). destruct (decide _); lia. }
  destruct (Z.leb_spec block_size (BlockBuilder.CurrentSizeEstimate d)).
  - destruct (Flush_ok _ _ _ _ _ _ Hp') as (r' & u' & h & -> & Hp''); [by destruct cur|by rewrite app_assoc|]. eexists _, _, _, _, _, _. split; [done|]. split; [exact Hp''|].
    rewrite concat_app, app_nil_r. cbn [concat]. by rewrite app_nil_r, app_assoc.
  - eexists _, _, _, _, _, _. split; [done|]. split; [exact Hp'|]. by rewrite app_assoc.
Qed.

(** ** The end of a table *)
Lemma Flush_any r u Bs hs seps cur : progress r u Bs hs seps cur → total (concat Bs ++ cur) < 2 ^ 31 →
  ∃ r' u' Bs' hs', Flush addr filter_policy compress r = Ok r' ∧ progress r' u' Bs' hs' seps [] ∧ concat Bs' = concat Bs ++ cur.
Proof.
  intros Hp Ht. destruct (decide (cur = [])) as [->|Hne].
  - exists r, u, Bs, hs. split; [|by rewrite app_nil_r]. unfold Flush. rewrite (p_closed _ _ _ _ _ _ Hp). destruct (p_wrote _ _ _ _ _ _ Hp) as (_ & _ & ->). change (ok sOK) with true. cbn [negb].
    pose proof (p_data _ _ _ _ _ _ Hp) as (E & idx & Hb & _ & _ & _ & _ & HE & _). apply fmap_nil_inv in HE as ->. unfold BlockBuilder.empty. by rewrite Hb.
  - destruct (Flush_ok _ _ _ _ _ _ Hp Hne Ht) as (r' & u' & h & E & Hp'). exists r', u', (Bs ++ [cur]), (hs ++ [h]). split; [done|]. split; [done|].
    rewrite concat_app. cbn [concat]. by rewrite app_nil_r.
Qed.

(** The filters [fr] match what is in the blocks. *)
Definition filters (P : FilterPolicy) (fr : FilterBlock.FilterBlockReader) (hs : list BlockHandle) (Bs : list (list pair)) : Prop :=
  ∀ i h B e t, hs !! i = Some h → Bs !! i = Some B → e ∈ B → good t →
    ∃ b, FilterBlock.KeyMayMatch (offset_ h) (enc t) fr = Ok b ∧ (same e.1 t → b = true).

Lemma write_filter_ok r u Bs hs : wrote written r u → filter_inv (filter_block r) (zlen u) Bs hs [] →
  Forall2 (λ h (B : list pair), ∃ raw, stored u h raw ∧ holds_block raw B) hs Bs → zlen u ≤ 4 + total (concat Bs) → total (concat Bs) < 2 ^ 31 →
  ∃ fh f d, write_filter addr filter_policy r = Ok (fh, with_file f (zlen (u ++ d)) sOK r) ∧ written f (u ++ d) ∧ zlen (u ++ d) < 2 ^ 33 ∧
    ∀ P, filter_policy = Some P → ∃ raw fr, stored (u ++ d) fh raw ∧ FilterBlock.FilterBlockReader_new raw = Ok fr ∧ filters P fr hs Bs.
Proof.
  intros Hw Hf Hst Hu Ht. unfold write_filter. unfold filter_inv in Hf. destruct filter_policy as [P|] eqn:EP.
  - destruct (filter_block r) as [fb|]; [|done]. destruct Hf as (G & K & Hfill & HG & _ & Hn & _ & Hrec). rewrite app_nil_r in Hn. pose proof (Hfp P eq_refl) as HP.
    pose proof Hw as (_ & _ & ->). change (ok sOK) with true. cbn iota. pose proof (zlen_nonneg u). pose proof (total_cost (concat Bs)) as Hc.
    assert (zlen G ≤ 2 ^ 20 + 1) as HG1. { rewrite HG. change FilterBlock.kFilterBase with 2048. apply Z.lt_succ_r, Z.div_lt_upper_bound; lia. }
    rewrite <- Hn in Hc. destruct (FilterFinish_ok (HP := P) fb G K Hfill) as (d & b' & fr & -> & Hd & Hfr & Hby & Hm); [lia|]. rbind.
    destruct (WriteRawBlock_ok addr written r u d kNoCompression d Hw) as (h & f & -> & Hwf & Hs & _); [by left|done|lia|].
    exists h, f, (d ++ trailer kNoCompression d). split; [done|]. split; [done|]. split; [rewrite !zlen_app, zlen_trailer; lia|]. intros ? [= <-]. exists d, fr. split; [done|]. split; [done|].
    intros i h' B e t Hh HB He Hgt. destruct (Forall2_lookup_l _ _ _ _ _ Hst Hh) as (B' & _ & raw & Hsto & _). destruct (stored_handle _ _ _ Hsto) as [[Ho _] _].
    apply (Hm (offset_ h') (Z.to_nat (offset_ h' / FilterBlock.kFilterBase)) e.1 t); [lia| |by eapply Hrec|done].
    change FilterBlock.kFilterBase with 2048. rewrite Z2Nat.id; [done|]. apply Z.div_pos; lia.
  - exists BlockHandle_new, (file r), []. rewrite app_nil_r. destruct Hw as (Hw & Ho & Hs). split; [|split; [done|]; split; [lia|done]].
    destruct r. cbn in *. by subst.
Qed.

(** The block of the handles of meta blocks. *)
Lemma meta_ok fh : (∀ P, filter_policy = Some P → handle_ok fh) →
  ∃ b, meta_block filter_policy interval fh = Ok b ∧ Forall is_byte (BlockBuilder.Finish b).1 ∧ zlen (BlockBuilder.Finish b).1 < 2 ^ 17 ∧
    ∀ P, filter_policy = Some P → ∃ r n E idx, block_of (enc := id) (good := λ k, zlen k < 2 ^ 31 - 8) (BlockBuilder.Finish b).1 r n E idx [(str "filter." ++ @fp_Name P, henc fh)].
Proof.
  intros Hh. unfold meta_block. destruct (new_built (enc := id) (good := λ k : bytes, zlen k < 2 ^ 31 - 8) interval Hint) as (b & Eb & Hb). rewrite Eb. rbind.
  assert (zlen (BlockBuilder.buffer_ b) + 4 * zlen (BlockBuilder.restarts_ b) = 4 ∧ BlockBuilder.buffer_ b = []) as [Hz Hemp].
  { unfold BlockBuilder.BlockBuilder_new in Eb. destruct (1 <=? interval); [|done]. by injection Eb as <-. }
  destruct filter_policy as [P|] eqn:EP.
  - rewrite handle_encode by (by apply (Hh P)). rbind. cbn [app]. pose proof (Hfp P eq_refl) as HP. pose proof (fl_name (enc := enc) (good := good) (same := same) (cost := cost)) as [Hnb Hnl].
    set (k := str "filter." ++ fp_Name) in *. assert (zlen k = 7 + zlen (fp_Name (FilterPolicy := P))) as Hk by (unfold k; by rewrite zlen_app).
    pose proof (zlen_henc fh) as Hhl. pose proof (zlen_nonneg (BlockBuilder.restarts_ b)). pose proof (zlen_nonneg (BlockBuilder.buffer_ b)).
    destruct (block_Add_ok (HC := Bytewise) (enc := id) (cmp := bcmp) (good := λ k : bytes, zlen k < 2 ^ 31 - 8) interval Hint b [] k (henc fh) Hb) as (b' & Eb' & Hb' & Hz' & Hr' & _); [lia|lia|lia|done|].
    assert (BlockBuilder.Add interval k (henc fh) b = Ok b') as ->. { rewrite <- Eb'. unfold BlockBuilder.Add, BlockBuilder.empty, id. by rewrite Hemp. }
    unfold id in Hz'. exists b'. split; [done|]. pose proof (zlen_Finish b') as HF. assert (zlen (BlockBuilder.Finish b').1 < 2 ^ 17) as Hlt by lia.
    destruct (block_Finish_ok interval b' _ Hb') as (r & n & E & idx & HB); [lia|]. split; [|split; [done|]; intros ? [= <-]; by exists r, n, E, idx].
    eapply block_bytes; [exact HB|]. apply Forall_singleton. split; [|apply henc_bytes; by apply (Hh P)]. unfold k, id. cbn [fst]. apply Forall_app. split; [by repeat constructor|done].
  - exists b. split; [done|]. pose proof (zlen_Finish b) as HF. assert (zlen (BlockBuilder.Finish b).1 < 2 ^ 17) as Hlt by lia. split; [|by split].
    destruct (block_Finish_ok interval b _ Hb) as (r & n & E & idx & HB); [lia|]. eapply block_bytes; [exact HB|constructor].
Qed.

(** The keys of the index of a finished table. *)
Definition delimits (Bs : list (list pair)) (i : nat) (s : A) : Prop :=
  good s ∧ ∃ B a, Bs !! i = Some B ∧ last B = Some a ∧ cmp a.1 s ≤ 0 ∧
    ∀ b, head (concat (drop (S i) Bs)) = Some b → cmp s b.1 < 0 ∧ ∀ t, good t → cmp a.1 t < 0 → cmp t s ≤ 0 → ¬ same t b.1.

Lemma last_index_ok r u Bs hs seps : progress r u Bs hs seps [] → total (concat Bs) < 2 ^ 31 →
  ∃ i seps', last_index r = Ok i ∧ built (enc := enc) (good := good) 1 i (zip seps' (henc <$> hs)) ∧ length seps' = length hs ∧
    zlen (BlockBuilder.buffer_ i) + 4 * zlen (BlockBuilder.restarts_ i) ≤ 4 + total (concat Bs) ∧ ∀ j s, seps' !! j = Some s → delimits Bs j s.
Proof.
  intros Hp Htot. assert (∀ j s, seps !! j = Some s → delimits Bs j s) as Hold.
  { intros j s Hs. destruct (p_seps _ _ _ _ _ _ Hp j s Hs) as (Hg & B & a & b & HB & Ha & Hb & H1 & H2 & H3). rewrite app_nil_r in Hb. split; [done|]. exists B, a.
    repeat (split; [done|]). rewrite Hb. by intros ? [= <-]. }
  assert (∀ n, total (concat (take n Bs)) ≤ total (concat Bs)) as Hmono.
  { intros n. rewrite <- (take_drop n Bs) at 2. rewrite concat_app, total_app. pose proof (total_nonneg (concat (drop n Bs))). lia. }
  unfold last_index. destruct (pending r) as [h|] eqn:Hpd.
  - destruct (pending_block _ _ _ _ _ _ _ Hp Hpd) as (hs0 & Bs0 & B & a & Ehs & EBs & Hl1 & Hl2 & HaB & _ & Ha & Hh).
    rewrite (p_last _ _ _ _ _ _ Hp), Ha. cbn [fmap option_fmap option_map default compose].
    assert (good a.1) as Hga.
    { pose proof (p_pairs _ _ _ _ _ _ Hp) as Hpo. rewrite Forall_forall in Hpo. destruct (Hpo a) as [? _]; [by apply last_Some_elem_of|done]. }
    destruct (cp_successor (enc := enc) (cmp := cmp) a.1 Hga) as (s & Es & Hgs & Has & Hsl). unfold compose, id. rewrite Es. rbind.
    destruct (add_index_ok _ _ _ _ _ _ h a s Hp Hpd Ha Hgs Has Hsl) as (i & -> & Hi & Hiz); [by rewrite app_nil_r|]. exists i, (seps ++ [s]). split; [done|]. split; [done|].
    split; [rewrite Ehs, !length_app; cbn; lia|]. split; [pose proof (Hmono (length (seps ++ [s]))); lia|].
    intros j s' Hs'. apply lookup_snoc_Some in Hs' as [[_ Hs']|[-> <-]]; [by apply Hold|].
    split; [done|]. exists B, a. rewrite EBs. split; [rewrite <- Hl2; by apply list_lookup_middle|]. split; [done|]. split; [done|].
    rewrite drop_ge by (rewrite length_app; cbn; lia). done.
  - exists (index_block r), seps. split; [done|]. split; [by apply Hp|].
    split; [by destruct (p_pending _ _ _ _ _ _ Hp) as [[_ ?]|(? & ? & _)]; [done|congruence]|]. split; [|done].
    pose proof (p_isize _ _ _ _ _ _ Hp). pose proof (Hmono (length seps)). lia.
Qed.

(** The file [u] is a table of the blocks [Bs]. *)
Record table_of (u : bytes) (Bs : list (list pair)) (hs : list BlockHandle) (seps : list A) (ft : Footer) : Prop := {
  t_size : zlen u < 2 ^ 62;
  t_footer : ∃ v d, u = v ++ d ∧ zlen d = kEncodedLength ∧ footer_DecodeFrom d = Ok (sOK, ft);
  t_index : ∃ raw, stored u (index_handle_ ft) raw ∧ holds_block raw (zip seps (henc <$> hs));
  t_blocks : Forall2 (λ h B, ∃ raw, stored u h raw ∧ holds_block raw B) hs Bs;
  t_offsets : StronglySorted (λ h h', offset_ h < offset_ h') hs;
  t_length : length seps = length hs;
  t_nonempty : Forall (λ B, B ≠ []) Bs;
  t_pairs : Forall pair_ok (concat Bs);
  t_sorted : sorted (cmp := cmp) (concat Bs).*1;
  t_seps i s : seps !! i = Some s → delimits Bs i s;
  t_filter P : filter_policy = Some P → ∃ mraw r n E idx fh raw fr, stored u (metaindex_handle_ ft) mraw ∧
    block_of (enc := id) (good := λ k, zlen k < 2 ^ 31 - 8) mraw r n E idx [(str "filter." ++ @fp_Name P, henc fh)] ∧
    stored u fh raw ∧ FilterBlock.FilterBlockReader_new raw = Ok fr ∧ filters P fr hs Bs
}.

Lemma index_pairs hs seps Bs : Forall handle_ok hs → (∀ j s, seps !! j = Some s → delimits Bs j s) → Forall pair_ok (zip seps (henc <$> hs)).
Proof.
  intros Hh Hs. apply Forall_lookup. intros i p Hi. apply lookup_zip_with_Some in Hi as (s & v & -> & Es & Ev). apply list_lookup_fmap_Some in Ev as (h & -> & Eh).
  rewrite Forall_lookup in Hh. specialize (Hh _ _ Eh).
  split; [by apply (Hs i s Es)|]. cbn [snd]. pose proof (zlen_henc h). split; [lia|by apply henc_bytes].
Qed.

Lemma stored_handles u hs Bs : Forall2 (λ h (B : list pair), ∃ raw, stored u h raw ∧ holds_block raw B) hs Bs → Forall handle_ok hs.
Proof.
  intros Hs. apply Forall_lookup. intros i h Hi. destruct (Forall2_lookup_l _ _ _ _ _ Hs Hi) as (B & _ & raw & Hst & _). by destruct (stored_handle _ _ _ Hst).
Qed.

Lemma table_Finish_ok r u Bs hs seps cur : progress r u Bs hs seps cur → total (concat Bs ++ cur) < 2 ^ 31 →
  ∃ r' u' Bs' hs' seps' ft, Finish addr filter_policy interval compress r = Ok (sOK, r') ∧ written (file r') u' ∧ FileSize r' = zlen u' ∧
    table_of u' Bs' hs' seps' ft ∧ concat Bs' = concat Bs ++ cur.
Proof.
  intros Hp0 Htot. unfold Finish. destruct (Flush_any _ _ _ _ _ _ Hp0 Htot) as (r1 & u1 & Bs1 & hs1 & -> & Hp & EB). rbind. rewrite <- EB in Htot. clear Hp0.
  pose proof Hp as [Hwr Hcl Hst Hoff _ _ _ _ _ Hne Hpair Hsort _ Hfil Hsz _]. rewrite Hcl. rewrite app_nil_r in Hpair, Hsort, Hsz. rewrite decide_True in Hsz by done.
  pose proof (zlen_nonneg (BlockBuilder.buffer_ (data_block r1))). pose proof (zlen_nonneg (BlockBuilder.restarts_ (data_block r1))).
  destruct (write_filter_ok (close r1) u1 Bs1 hs1 Hwr Hfil Hst) as (fh & f2 & d2 & -> & Hw2 & Hu2 & Hflt); [lia|done|]. rbind. set (u2 := u1 ++ d2) in *. rep_cbn. change (ok sOK) with true. cbn iota.
  destruct (meta_ok fh) as (mb & -> & Hmb & Hmz & Hmeta). { intros P EP. destruct (Hflt P EP) as (raw & fr & Hs & _). by apply stored_handle in Hs as [? _]. }
  rbind. pose proof (zlen_nonneg u2). destruct (WriteBlock_ok addr written compress (with_file f2 (zlen u2) sOK (close r1)) u2 mb) as (mh & f3 & d3 & -> & Hw3 & Hs3 & _ & Hd3); [done|done|lia|]. rbind.
  rep_cbn. change (ok sOK) with true. cbn iota. set (u3 := u2 ++ d3) in *. assert (zlen u3 = zlen u2 + zlen d3) as Eu3 by apply zlen_app.
  destruct (last_index_ok r1 u1 Bs1 hs1 seps Hp Htot) as (ib & seps' & Ei & Hib & Hl & Hiz & Hdel).
  change (last_index (with_file f3 (zlen u3) sOK (with_file f2 (zlen u2) sOK (close r1)))) with (last_index r1). rewrite Ei. rbind.
  pose proof (stored_handles _ _ _ Hst) as Hhok. pose proof (zlen_data_Finish ib) as HF.
  destruct (finished_block 1 ib _ Hib (index_pairs _ _ _ Hhok Hdel)) as [Hihold Hib8]; [lia|].
  match goal with |- context [WriteBlock addr compress ib ?R] => destruct (WriteBlock_ok addr written compress R u3 ib) as (ih & f4 & d4 & E4 & Hw4 & Hs4 & _ & Hd4); [done|done|lia|] end.
  rewrite E4. rbind. rep_cbn. change (ok sOK) with true. cbn iota. set (u4 := u3 ++ d4) in *. assert (zlen u4 = zlen u3 + zlen d4) as Eu4 by apply zlen_app. clear E4.
  set (ft := {| metaindex_handle_ := mh; index_handle_ := ih |}).
  destruct (footer_roundtrip ft) as (d5 & -> & Hd5 & Hdec); [by apply stored_handle in Hs3 as [? _]|by apply stored_handle in Hs4 as [? _]|]. rbind.
  destruct (wf_append_law f4 u4 d5 Hw4) as (f5 & -> & Hw5). rbind. change (ok sOK) with true. cbn iota.
  assert (zlen (u4 ++ d5) = zlen u4 + 48) as Eu5 by (rewrite zlen_app, Hd5; done).
  eexists _, (u4 ++ d5), Bs1, hs1, seps', ft. split; [done|]. split; [done|]. unfold FileSize. rep_cbn. split; [rewrite u64_small by (rewrite Hd5; change kEncodedLength with 48; lia); by rewrite Hd5, Eu5|].
  split; [|done]. assert (∀ h raw, stored u2 h raw → stored (u4 ++ d5) h raw) as Hup.
  { intros h raw Hs. unfold u4, u3. rewrite <- !app_assoc. apply stored_app; [done|]. rewrite !app_assoc. fold u3. fold u4. lia. }
  split; try done.
  - lia.
  - by exists u4, d5.
  - exists (BlockBuilder.Finish ib).1. split; [|done]. apply stored_app; [done|lia].
  - eapply Forall2_impl; [exact Hst|]. intros h B (raw & Hs & Hb). exists raw. split; [|done]. apply Hup. apply stored_app; [done|]. fold u2. lia.
  - intros P EP. destruct (Hflt P EP) as (raw & fr & Hs & Hfr & Hfm). destruct (Hmeta P EP) as (rs & n & E & idx & HB).
    exists (BlockBuilder.Finish mb).1, rs, n, E, idx, fh, raw, fr. split; [|split; [done|]; split; [by apply Hup|done]].
    unfold u4. rewrite <- app_assoc. apply stored_app; [done|]. rewrite app_assoc. fold u4. lia.
Qed.

(** All pairs added, one after the other. *)
Fixpoint add_all (L : list pair) (r : Rep F) : result (Rep F) :=
  match L with [] => Ok r | (k, v) :: L => r ← Add addr filter_policy block_size interval compress (enc k) v r; add_all L r end.

(** A table of the pairs [L]. *)
Definition make_table (f : F) (L : list pair) : result (Status * Rep F) :=
  r ← TableBuilder_new filter_policy interval f; r ← add_all L r; Finish addr filter_policy interval compress r.

Lemma table_add_all_ok L : ∀ r u Bs hs seps cur, progress r u Bs hs seps cur → Forall pair_ok L → sorted (cmp := cmp) ((concat Bs ++ cur) ++ L).*1 → total ((concat Bs ++ cur) ++ L) < 2 ^ 31 →
  ∃ r' u' Bs' hs' seps' cur', add_all L r = Ok r' ∧ progress r' u' Bs' hs' seps' cur' ∧ concat Bs' ++ cur' = (concat Bs ++ cur) ++ L.
Proof.
  induction L as [|[k v] L IH]; intros r u Bs hs seps cur Hp Hg Hs Ht.
  - eexists _, _, _, _, _, _. split; [done|]. split; [done|]. by rewrite app_nil_r.
  - apply Forall_cons in Hg as [Hk Hg]. cbn [add_all]. assert ((concat Bs ++ cur) ++ (k, v) :: L = ((concat Bs ++ cur) ++ [(k, v)]) ++ L) as E by (rewrite <- (app_assoc (concat Bs ++ cur)); done). rewrite E in *.
    rewrite total_app in Ht. pose proof (total_nonneg L).
    destruct (table_Add_ok _ _ _ _ _ _ k v Hp Hk) as (r1 & u1 & Bs1 & hs1 & seps1 & cur1 & -> & Hp1 & E1).
    + intros e He. rewrite !fmap_app in Hs. apply StronglySorted_app in Hs as (_ & Hs & _). apply StronglySorted_app in Hs as (Hs & _ & _). apply Hs; [|cbn; set_solver].
      rewrite <- fmap_app. apply list_elem_of_fmap. exists e. split; [done|]. by apply last_Some_elem_of.
    + lia.
    + rbind. rewrite <- E1 in *. destruct (IH r1 u1 Bs1 hs1 seps1 cur1 Hp1 Hg Hs) as (r' & u' & Bs' & hs' & seps' & cur' & E' & Hp' & Ec); [by rewrite total_app|].
      eexists _, _, _, _, _, _. split; [exact E'|]. split; [exact Hp'|]. done.
Qed.

Lemma make_table_ok f L : written f [] → Forall pair_ok L → sorted (cmp := cmp) L.*1 → total L < 2 ^ 31 →
  ∃ r u Bs hs seps ft, make_table f L = Ok (sOK, r) ∧ written (file r) u ∧ FileSize r = zlen u ∧ table_of u Bs hs seps ft ∧ concat Bs = L.
Proof.
  intros Hf Hp Hs Ht. unfold make_table. destruct (new_progress f Hf) as (r0 & -> & H0'). rbind.
  destruct (table_add_all_ok L r0 [] [] [] [] [] H0' Hp Hs Ht) as (r1 & u1 & Bs1 & hs1 & seps1 & cur1 & -> & Hp1 & E1). rbind. cbn [concat app] in E1. rewrite <- E1 in Ht.
  destruct (table_Finish_ok _ _ _ _ _ _ Hp1 Ht) as (r & u & Bs & hs & seps & ft & E & Hw & Hz & Htab & EB). rewrite E1 in EB. eauto 12.
Qed.
End building.
