(* ===== verification/LruCache.v ===== *)
(** * The LRU cache of LevelDB (pack/leveldb/util/cache.cc)

    Sixteen shards, each a hash table of entries with a list by age. Entries
    are counted by references: one of the cache and one of every handle that
    a client holds; an entry is deleted with its last reference. *)

From stdpp Require Import gmap sorting.
From S2P Require Import Prelude Cstd Cmem Coding Status DbFormat Iter Comparator Filter Block TwoLevel Table.

Module LruCache.
Section cache.
Context {V : Type}.

(** [LRUHandle]; its links are in the lists that hold it. *)
Record LRUHandle := { value : V; charge : Z; key : bytes; hash : Z; refs : Z }.
Abbreviation Heap := (gmap Z LRUHandle).

Definition deref (m : Heap) (p : Z) : result LRUHandle := match m !! p with Some e => Ok e | None => Fault OutOfBounds end.

(** ** The hash table: buckets are chains of entries *)
Record HandleTable := { length_ : Z; elems_ : Z; list_ : list (list Z) }.

(** [FindPointer]: the chain before the slot, and from it on. *)
Fixpoint find_in (m : Heap) (k : bytes) (h : Z) (chain : list Z) : result (list Z * list Z) :=
  match chain with
  | [] => Ok ([], [])
  | p :: rest =>
      e ← deref m p;
      if negb (hash e =? h) || negb (bool_decide (k = key e)) then '(a, b) ← find_in m k h rest; Ok (p :: a, b) else Ok ([], chain)
  end.

Definition bucket (t : HandleTable) (h : Z) : nat := Z.to_nat (Z.land h (u32 (length_ t - 1))).

Definition FindPointer (m : Heap) (k : bytes) (h : Z) (t : HandleTable) : result (list Z * list Z) :=
  match list_ t !! bucket t h with Some chain => find_in m k h chain | None => Fault OutOfBounds end.

(** [while (new_length < elems_) new_length *= 2]. *)
Fixpoint grow (fuel : nat) (n elems : Z) : result Z :=
  match fuel with
  | O => Fault AssertFailed
  | S fuel => if n <? elems then grow fuel (u32 (n * 2)) elems else Ok n
  end.

(** The entries of the old table, each put in front of its new chain. *)
Fixpoint rehash (m : Heap) (new_length : Z) (ps : list Z) (l : list (list Z)) : result (list (list Z)) :=
  match ps with
  | [] => Ok l
  | p :: ps =>
      e ← deref m p;
      let i := Z.to_nat (Z.land (hash e) (u32 (new_length - 1))) in
      match l !! i with
      | Some chain => rehash m new_length ps (<[i := p :: chain]> l)
      | None => Fault OutOfBounds
      end
  end.

Definition Resize (m : Heap) (t : HandleTable) : result HandleTable :=
  n ← grow 33 4 (elems_ t);
  l ← rehash m n (concat (list_ t)) (replicate (Z.to_nat n) []);
  if elems_ t =? u32 (zlen (concat (list_ t))) then Ok {| length_ := n; elems_ := elems_ t; list_ := l |} else Fault AssertFailed.

Definition HandleTable_new : result HandleTable := Resize ∅ {| length_ := 0; elems_ := 0; list_ := [] |}.

Definition table_Lookup (m : Heap) (k : bytes) (h : Z) (t : HandleTable) : result (option Z) :=
  '(_, b) ← FindPointer m k h t; Ok (head b).

Definition set_chain (t : HandleTable) (h : Z) (chain : list Z) (n : Z) : HandleTable :=
  {| length_ := length_ t; elems_ := n; list_ := <[bucket t h := chain]> (list_ t) |}.

Definition table_Insert (m : Heap) (p : Z) (t : HandleTable) : result (option Z * HandleTable) :=
  e ← deref m p;
  '(a, b) ← FindPointer m (key e) (hash e) t;
  let chain := a ++ p :: tail b in
  match head b with
  | Some old => Ok (Some old, set_chain t (hash e) chain (elems_ t))
  | None =>
      let t' := set_chain t (hash e) chain (u32 (elems_ t + 1)) in
      if length_ t' <? elems_ t' then t' ← Resize m t'; Ok (None, t') else Ok (None, t')
  end.

Definition table_Remove (m : Heap) (k : bytes) (h : Z) (t : HandleTable) : result (option Z * HandleTable) :=
  '(a, b) ← FindPointer m k h t;
  match head b with
  | None => Ok (None, t)
  | Some old => Ok (Some old, set_chain t h (a ++ tail b) (u32 (elems_ t - 1)))
  end.

(** ** A shard *)

(** [lru_] is the circular list from the oldest entry to the newest;
    [deleted] are the calls of the deleters so far. *)
Record LRUCache := {
  capacity_ : Z;
  usage_ : Z;
  lru_ : list Z;
  table_ : HandleTable;
  heap : Heap;
  next : Z;
  deleted : list (bytes * V)
}.

Definition LRUCache_new (capacity : Z) : result LRUCache :=
  t ← HandleTable_new;
  Ok {| capacity_ := capacity; usage_ := 0; lru_ := []; table_ := t; heap := ∅; next := 0; deleted := [] |}.

Definition with_lists (l : list Z) (t : HandleTable) (c : LRUCache) : LRUCache :=
  {| capacity_ := capacity_ c; usage_ := usage_ c; lru_ := l; table_ := t; heap := heap c; next := next c; deleted := deleted c |}.
Definition with_heap (m : Heap) (usage : Z) (d : list (bytes * V)) (c : LRUCache) : LRUCache :=
  {| capacity_ := capacity_ c; usage_ := usage; lru_ := lru_ c; table_ := table_ c; heap := m; next := next c; deleted := d |}.

Definition with_refs (n : Z) (e : LRUHandle) : LRUHandle := {| value := value e; charge := charge e; key := key e; hash := hash e; refs := n |}.

Definition Unref (p : Z) (c : LRUCache) : result LRUCache :=
  e ← deref (heap c) p;
  if 0 <? refs e then
    let n := refs e - 1 in
    if n <=? 0 then Ok (with_heap (delete p (heap c)) (u64 (usage_ c - charge e)) (deleted c ++ [(key e, value e)]) c)
    else Ok (with_heap (<[p := with_refs n e]> (heap c)) (usage_ c) (deleted c) c)
  else Fault AssertFailed.

(** An entry that is in no list has no neighbours to be linked. *)
Definition LRU_Remove (p : Z) (c : LRUCache) : result LRUCache :=
  if decide (p ∈ lru_ c) then Ok (with_lists (filter (λ q, q ≠ p) (lru_ c)) (table_ c) c) else Fault OutOfBounds.
Definition LRU_Append (p : Z) (c : LRUCache) : LRUCache := with_lists (lru_ c ++ [p]) (table_ c) c.

Definition Lookup (k : bytes) (h : Z) (c : LRUCache) : result (option Z * LRUCache) :=
  r ← table_Lookup (heap c) k h (table_ c);
  match r with
  | None => Ok (None, c)
  | Some p =>
      e ← deref (heap c) p;
      let c := with_heap (<[p := with_refs (u32 (refs e + 1)) e]> (heap c)) (usage_ c) (deleted c) c in
      c ← LRU_Remove p c;
      Ok (Some p, LRU_Append p c)
  end.

Definition Release (p : Z) (c : LRUCache) : result LRUCache := Unref p c.

(** The loop of [Insert] that makes room. *)
Fixpoint evict (fuel : nat) (c : LRUCache) : result LRUCache :=
  match fuel with
  | O => Fault AssertFailed
  | S fuel =>
      match lru_ c with
      | old :: _ =>
          if capacity_ c <? usage_ c then
            c ← LRU_Remove old c;
            e ← deref (heap c) old;
            '(_, t) ← table_Remove (heap c) (key e) (hash e) (table_ c);
            c ← Unref old (with_lists (lru_ c) t c);
            evict fuel c
          else Ok c
      | [] => Ok c
      end
  end.

Definition Insert (k : bytes) (h : Z) (v : V) (n : Z) (c : LRUCache) : result (Z * LRUCache) :=
  let p := next c in
  let e := {| value := v; charge := n; key := k; hash := h; refs := 2 |} in
  let c := {| capacity_ := capacity_ c; usage_ := u64 (usage_ c + n); lru_ := lru_ c ++ [p]; table_ := table_ c;
              heap := <[p := e]> (heap c); next := next c + 1; deleted := deleted c |} in
  '(old, t) ← table_Insert (heap c) p (table_ c);
  let c := with_lists (lru_ c) t c in
  c ← (match old with Some q => c ← LRU_Remove q c; Unref q c | None => Ok c end);
  c ← evict (S (length (lru_ c))) c;
  Ok (p, c).

Definition Erase (k : bytes) (h : Z) (c : LRUCache) : result LRUCache :=
  '(r, t) ← table_Remove (heap c) k h (table_ c);
  let c := with_lists (lru_ c) t c in
  match r with
  | Some p => c ← LRU_Remove p c; Unref p c
  | None => Ok c
  end.

(** The destructor: every entry must have no handle left. *)
Fixpoint destroy (ps : list Z) (c : LRUCache) : result LRUCache :=
  match ps with
  | [] => Ok c
  | p :: ps => e ← deref (heap c) p; if refs e =? 1 then c ← Unref p c; destroy ps c else Fault AssertFailed
  end.
Definition LRUCache_destroy (c : LRUCache) : result LRUCache := destroy (lru_ c) c.

(** ** The sharded cache *)
Definition kNumShardBits : Z := 4.
Definition kNumShards : Z := Z.shiftl 1 kNumShardBits.

Record ShardedLRUCache := { shard_ : list LRUCache; last_id_ : Z }.

Definition HashSlice (s : bytes) : result Z := Hash s 0.
Definition Shard (h : Z) : nat := Z.to_nat (Z.shiftr h (32 - kNumShardBits)).

Fixpoint new_shards (n : nat) (per_shard : Z) : result (list LRUCache) :=
  match n with O => Ok [] | S n => c ← LRUCache_new per_shard; l ← new_shards n per_shard; Ok (c :: l) end.
Definition NewLRUCache (capacity : Z) : result ShardedLRUCache :=
  l ← new_shards (Z.to_nat kNumShards) (u64 (capacity + (kNumShards - 1)) / kNumShards);
  Ok {| shard_ := l; last_id_ := 0 |}.

(** An operation of the shard of a hash. *)
Definition on_shard {A} (h : Z) (f : LRUCache → result (A * LRUCache)) (s : ShardedLRUCache) : result (A * ShardedLRUCache) :=
  match shard_ s !! Shard h with
  | Some c => '(a, c) ← f c; Ok (a, {| shard_ := <[Shard h := c]> (shard_ s); last_id_ := last_id_ s |})
  | None => Fault OutOfBounds
  end.

(** A handle is the hash of its entry, which names the shard, and the entry. *)
Abbreviation Handle := (Z * Z)%type.

Definition sharded_Insert (k : bytes) (v : V) (n : Z) (s : ShardedLRUCache) : result (Handle * ShardedLRUCache) :=
  h ← HashSlice k; on_shard (A := Handle) h (λ c, '(p, c) ← Insert k h v n c; Ok ((h, p), c)) s.
Definition sharded_Lookup (k : bytes) (s : ShardedLRUCache) : result (option Handle * ShardedLRUCache) :=
  h ← HashSlice k; on_shard (A := option Handle) h (λ c, '(r, c) ← Lookup k h c; Ok (match r with Some p => Some (h, p) | None => None end, c)) s.
Definition sharded_Release (p : Handle) (s : ShardedLRUCache) : result ShardedLRUCache :=
  '(_, s) ← on_shard p.1 (λ c, c ← Release p.2 c; Ok (tt, c)) s; Ok s.
Definition sharded_Erase (k : bytes) (s : ShardedLRUCache) : result ShardedLRUCache :=
  h ← HashSlice k; '(_, s) ← on_shard h (λ c, c ← Erase k h c; Ok (tt, c)) s; Ok s.
Definition sharded_Value (p : Handle) (s : ShardedLRUCache) : result V :=
  match shard_ s !! Shard p.1 with Some c => e ← deref (heap c) p.2; Ok (value e) | None => Fault OutOfBounds end.
Definition NewId (s : ShardedLRUCache) : Z * ShardedLRUCache :=
  (u64 (last_id_ s + 1), {| shard_ := shard_ s; last_id_ := u64 (last_id_ s + 1) |}).

(** What a table uses: each handle is released after its value was taken. *)
#[global] Instance lru_Cache : Cache ShardedLRUCache V := {
  ca_Lookup k s :=
    '(r, s) ← sharded_Lookup k s;
    match r with
    | Some p => v ← sharded_Value p s; s ← sharded_Release p s; Ok (Some v, s)
    | None => Ok (None, s)
    end;
  ca_Insert k v n s := '(p, s) ← sharded_Insert k v n s; sharded_Release p s;
  ca_NewId := NewId
}.
End cache.
Arguments LRUHandle V : clear implicits.
Arguments LRUCache V : clear implicits.
Arguments ShardedLRUCache V : clear implicits.
End LruCache.

(** * The LRU cache is a cache

    An invariant ties the chains of the hash table, the list by age, the
    reference counts and the charges together. Over any use of the handles
    that clients hold no entry is used after it was freed, a lookup never
    finds an old value, the charges stay within the capacity, and every value
    is deleted once, when nothing refers to it any more. *)
Import LruCache.

(** Replacing one of the lists of a concatenation. *)
Lemma concat_replace {X} (L : list (list X)) i ch ch' : L !! i = Some ch → concat (<[i := ch']> L) ++ ch ≡ₚ concat L ++ ch'.
Proof.
  intros Hi. pose proof (lookup_lt_Some _ _ _ Hi). rewrite (concat_split L i ch Hi), (concat_split (<[i := ch']> L) i ch') by (by rewrite list_lookup_insert_eq).
  rewrite take_insert_ge, drop_insert_lt by lia. solve_Permutation.
Qed.

Lemma filter_remove l (p : Z) : p ∈ l → NoDup l → l ≡ₚ p :: filter (λ q, q ≠ p) l.
Proof.
  intros Hp Hnd. induction Hnd as [|x l Hx Hnd IH]; [by apply elem_of_nil in Hp|]. destruct (decide (x = p)) as [->|Hne].
  - rewrite filter_cons_False by (intros H; by apply H). f_equiv. clear - Hx. induction l as [|y l IH]; [done|]. rewrite filter_cons_True by set_solver. f_equiv. apply IH. set_solver.
  - rewrite filter_cons_True by done. rewrite IH at 1 by set_solver. solve_Permutation.
Qed.

Section spec.
Context {V : Type} (hashf : bytes → Z) (lo : Z) (Hlo : 0 ≤ lo).
Abbreviation Heap := (gmap Z (LRUHandle V)).
Implicit Types (m : Heap) (l : list Z) (c : LRUCache V).

(** ** The hash table *)

(** The entries [l] are live, and have different keys. *)
Record entries_ok m l : Prop := {
  eo_live p : p ∈ l → ∃ e, m !! p = Some e ∧ hash e = hashf (key e);
  eo_keys p q e e' : p ∈ l → q ∈ l → m !! p = Some e → m !! q = Some e' → key e = key e' → p = q
}.

(** Every entry is in the chain of its hash. *)
Definition placed m (j : Z) (L : list (list Z)) : Prop :=
  Z.of_nat (length L) = 2 ^ j ∧ ∀ i ch p e, L !! i = Some ch → p ∈ ch → m !! p = Some e → i = Z.to_nat (hash e mod 2 ^ j).

Record table_ok m (t : HandleTable) l : Prop := {
  to_size : ∃ j, 2 ≤ j ≤ 31 ∧ length_ t = 2 ^ j ∧ placed m j (list_ t);
  to_elems : elems_ t = zlen l;
  to_perm : concat (list_ t) ≡ₚ l
}.

Lemma mask_mod j h : 2 ≤ j ≤ 31 → Z.land h (u32 (2 ^ j - 1)) = h mod 2 ^ j.
Proof.
  intros Hj. assert (2 ^ j ≤ 2 ^ 31) by (apply Z.pow_le_mono_r; lia). assert (0 < 2 ^ j) by (apply Z.pow_pos_nonneg; lia). rewrite u32_small by lia.
  rewrite <- Z.land_ones by lia. f_equal. rewrite Z.ones_equiv. lia.
Qed.

Lemma find_in_ok m k ch : (∀ p, p ∈ ch → ∃ e, m !! p = Some e ∧ hash e = hashf (key e)) →
  ∃ a b, find_in m k (hashf k) ch = Ok (a, b) ∧ ch = a ++ b ∧ (∀ p e, p ∈ a → m !! p = Some e → key e ≠ k) ∧
    ∀ p, head b = Some p → ∃ e, m !! p = Some e ∧ key e = k.
Proof.
  induction ch as [|p ch IH]; intros Hl; cbn [find_in]; [exists [], []; split; [done|]; split; [done|]; split; [set_solver|done]|].
  destruct (Hl p ltac:(set_solver)) as (e & He & Eh). unfold deref. rewrite He. rbind. destruct (decide (key e = k)) as [<-|Hne].
  - rewrite Eh, Z.eqb_refl, bool_decide_true by done. exists [], (p :: ch). split; [done|]. split; [done|]. split; [set_solver|]. intros q [= <-]. by exists e.
  - assert (negb (hash e =? hashf k) || negb (bool_decide (k = key e)) = true) as -> by (rewrite (bool_decide_false (k = key e)) by congruence; by rewrite orb_true_r).
    destruct IH as (a & b & -> & -> & Ha & Hb); [set_solver|]. rbind. exists (p :: a), b. split; [done|]. split; [done|]. split; [|done].
    intros q e' [->|Hq]%elem_of_cons Hq'; [congruence|by eapply Ha].
Qed.

Lemma placed_in m t l p : table_ok m t l → p ∈ l → ∃ i ch, list_ t !! i = Some ch ∧ p ∈ ch.
Proof.
  intros Ht Hp. rewrite <- (to_perm _ _ _ Ht) in Hp. apply list_elem_of_In, in_concat in Hp as (ch & Hch & Hp). apply list_elem_of_In in Hch, Hp.
  apply list_elem_of_lookup in Hch as [i Hi]. eauto.
Qed.

Lemma chain_in m t l i ch p : table_ok m t l → list_ t !! i = Some ch → p ∈ ch → p ∈ l.
Proof.
  intros Ht Hi Hp. rewrite <- (to_perm _ _ _ Ht). apply list_elem_of_In, in_concat. exists ch. split; apply list_elem_of_In; [by eapply list_elem_of_lookup_2|done].
Qed.

Lemma bucket_lookup m t l k : table_ok m t l → ∃ ch, list_ t !! bucket t (hashf k) = Some ch.
Proof.
  intros [(j & Hj & El & Hlen & _) _ _]. unfold bucket. rewrite El, mask_mod by done. apply lookup_lt_is_Some_2.
  pose proof (Z.mod_pos_bound (hashf k) (2 ^ j) ltac:(apply Z.pow_pos_nonneg; lia)). lia.
Qed.

Lemma FindPointer_ok m t l k : entries_ok m l → table_ok m t l →
  ∃ a b, FindPointer m k (hashf k) t = Ok (a, b) ∧ list_ t !! bucket t (hashf k) = Some (a ++ b) ∧
    (∀ p, head b = Some p → p ∈ l ∧ ∃ e, m !! p = Some e ∧ key e = k) ∧ (head b = None → ∀ p e, p ∈ l → m !! p = Some e → key e ≠ k).
Proof.
  intros He Ht. unfold FindPointer. destruct (bucket_lookup m t l k Ht) as [ch Hch]. rewrite Hch.
  destruct (find_in_ok m k ch) as (a & b & -> & -> & Ha & Hb); [intros p Hp; apply (eo_live _ _ He); by eapply chain_in|].
  exists a, b. split; [done|]. split; [done|]. split.
  - intros p Hp. split; [|by apply Hb]. eapply chain_in; [exact Ht|exact Hch|]. apply elem_of_app. right. destruct b; [done|]. injection Hp as ->. set_solver.
  - intros Hn p e Hp Hpe Hk. destruct b as [|]; [|done]. rewrite app_nil_r in Hch. destruct (placed_in m t l p Ht Hp) as (i & ch & Hi & Hin).
    pose proof (to_size _ _ _ Ht) as (j & Hj & El & Hlen & Hpl). pose proof (Hpl i ch p e Hi Hin Hpe) as Ei.
    destruct (eo_live _ _ He p Hp) as (e' & Hpe' & Eh). rewrite Hpe in Hpe'. injection Hpe' as <-. rewrite Eh, Hk in Ei.
    assert (bucket t (hashf k) = i) as Eb by (unfold bucket; by rewrite El, mask_mod). rewrite Eb, Hi in Hch. injection Hch as ->. by eapply Ha.
Qed.

(** Putting another chain in the place of one. *)
Lemma set_chain_ok m t l k a b new n l' : table_ok m t l → list_ t !! bucket t (hashf k) = Some (a ++ b) →
  (∀ p e, p ∈ new → m !! p = Some e → p ∈ b ∨ hash e = hashf k) → l ++ new ≡ₚ l' ++ b → n = zlen l' → table_ok m (set_chain t (hashf k) (a ++ new) n) l'.
Proof.
  intros [(j & Hj & El & Hlen & Hpl) _ Hp] Hb Hnew Hl Hn. assert (bucket t (hashf k) = Z.to_nat (hashf k mod 2 ^ j)) as Eb by (unfold bucket; by rewrite El, mask_mod). split.
  - exists j. split; [done|]. split; [done|]. cbn [list_ set_chain]. split; [by rewrite length_insert|]. intros i ch p e Hi Hin He.
    apply list_lookup_insert_Some in Hi as [(<- & <- & _)|(Hne & Hi)]; [|by eapply Hpl]. apply elem_of_app in Hin as [Hin|Hin].
    + eapply Hpl; [exact Hb|apply elem_of_app; by left|done].
    + destruct (Hnew p e Hin He) as [Hpb|Eh]; [|by rewrite Eb, Eh]. eapply Hpl; [exact Hb|apply elem_of_app; by right|done].
  - done.
  - cbn [list_ set_chain]. pose proof (concat_replace _ _ _ (a ++ new) Hb) as Hc. rewrite Hp in Hc.
    apply (Permutation_app_inv_r (a ++ b)). rewrite Hc. rewrite (Permutation_app_comm a new), (Permutation_app_comm a b), !app_assoc. by rewrite Hl.
Qed.

Lemma grow_ok fuel : ∀ i n, 2 ≤ i ≤ 31 → n ≤ 2 ^ 31 → (Z.to_nat (31 - i) < fuel)%nat → ∃ j, 2 ≤ j ≤ 31 ∧ grow fuel (2 ^ i) n = Ok (2 ^ j).
Proof.
  induction fuel as [|fuel IH]; intros i n Hi Hn Hf; [lia|]. cbn [grow]. destruct (Z.ltb_spec (2 ^ i) n) as [Hlt|]; [|by exists i].
  assert (i < 31) by (destruct (Z.eq_dec i 31) as [->|]; lia). assert (2 ^ i * 2 = 2 ^ (i + 1)) as E by (rewrite Z.pow_add_r by lia; lia).
  assert (2 ^ (i + 1) ≤ 2 ^ 31) by (apply Z.pow_le_mono_r; lia). assert (0 < 2 ^ (i + 1)) by (apply Z.pow_pos_nonneg; lia).
  rewrite E, u32_small by lia. apply IH; lia.
Qed.

Lemma rehash_ok m j ps : 2 ≤ j ≤ 31 → (∀ p, p ∈ ps → is_Some (m !! p)) → ∀ L, placed m j L →
  ∃ L', rehash m (2 ^ j) ps L = Ok L' ∧ placed m j L' ∧ concat L' ≡ₚ ps ++ concat L.
Proof.
  intros Hj. induction ps as [|p ps IH]; intros Hl L HL; cbn [rehash]; [by exists L|]. destruct (Hl p ltac:(set_solver)) as [e He]. unfold deref. rewrite He. rbind.
  rewrite mask_mod by done. set (i := Z.to_nat (hash e mod 2 ^ j)). pose proof HL as [Hlen Hpl]. pose proof (Z.mod_pos_bound (hash e) (2 ^ j) ltac:(apply Z.pow_pos_nonneg; lia)).
  destruct (lookup_lt_is_Some_2 L i) as [ch Hch]; [lia|]. rewrite Hch. destruct (IH ltac:(set_solver) (<[i := p :: ch]> L)) as (L' & -> & HL' & Hp).
  - split; [by rewrite length_insert|]. intros i' ch' q e' Hi' Hin Hq. apply list_lookup_insert_Some in Hi' as [(<- & <- & _)|(Hne & Hi')]; [|by eapply Hpl].
    apply elem_of_cons in Hin as [->|Hin]; [rewrite He in Hq; by injection Hq as <-|by eapply Hpl].
  - exists L'. split; [done|]. split; [done|]. rewrite Hp. pose proof (concat_replace L i ch (p :: ch) Hch) as Hc.
    assert (concat (<[i := p :: ch]> L) ≡ₚ p :: concat L) as ->; [|solve_Permutation]. apply (Permutation_app_inv_r ch). rewrite Hc. solve_Permutation.
Qed.

Lemma Resize_ok m t l : concat (list_ t) ≡ₚ l → (∀ p, p ∈ l → is_Some (m !! p)) → elems_ t = zlen l → zlen l ≤ 2 ^ 31 →
  ∃ t', Resize m t = Ok t' ∧ table_ok m t' l.
Proof.
  intros Hp Hl He Hz. unfold Resize. pose proof (zlen_nonneg l). destruct (grow_ok 33 2 (elems_ t)) as (j & Hj & Eg); [lia|lia|lia|]. change (2 ^ 2) with 4 in Eg. rewrite Eg. rbind.
  assert (0 < 2 ^ j) by (apply Z.pow_pos_nonneg; lia). destruct (rehash_ok m j (concat (list_ t)) Hj) with (L := replicate (Z.to_nat (2 ^ j)) ([] : list Z)) as (L' & -> & HL' & Hp').
  - intros p Hin. apply Hl. by rewrite <- Hp.
  - split; [rewrite length_replicate; lia|]. intros i ch p e Hi Hin. apply lookup_replicate in Hi as [-> _]. by apply elem_of_nil in Hin.
  - rbind. assert (zlen (concat (list_ t)) = zlen l) as -> by (unfold zlen; by rewrite Hp). rewrite u32_small, He, Z.eqb_refl by lia. eexists. split; [done|].
    split; [by exists j|done|]. cbn [list_]. rewrite Hp', Hp.
    assert (concat (replicate (Z.to_nat (2 ^ j)) ([] : list Z)) = []) as -> by (generalize (Z.to_nat (2 ^ j)); intros n; induction n; done). by rewrite app_nil_r.
Qed.

Lemma table_Remove_ok m t l k : entries_ok m l → table_ok m t l → NoDup l → zlen l < 2 ^ 31 →
  ∃ r t', table_Remove m k (hashf k) t = Ok (r, t') ∧
    match r with
    | Some p => p ∈ l ∧ (∃ e, m !! p = Some e ∧ key e = k) ∧ table_ok m t' (filter (λ q, q ≠ p) l)
    | None => t' = t ∧ ∀ p e, p ∈ l → m !! p = Some e → key e ≠ k
    end.
Proof.
  intros He Ht Hnd Hz. unfold table_Remove. destruct (FindPointer_ok m t l k He Ht) as (a & b & -> & Hb & Hsome & Hnone). rbind. destruct b as [|p b].
  - exists None, t. split; [done|]. split; [done|]. by apply Hnone.
  - destruct (Hsome p eq_refl) as [Hp Hk]. exists (Some p). eexists. split; [done|]. split; [done|]. split; [done|]. cbn [head tail].
    pose proof (filter_remove l p Hp Hnd) as El. eapply (set_chain_ok m t l k a (p :: b) b); [exact Ht|exact Hb|set_solver| |].
    + rewrite El at 1. solve_Permutation.
    + rewrite (to_elems _ _ _ Ht). assert (zlen l = 1 + zlen (filter (λ q, q ≠ p) l)) as E by (unfold zlen; rewrite El at 1; cbn; lia). rewrite u32_small by zlia. lia.
Qed.
Lemma table_Insert_ok m t l p e : entries_ok m l → table_ok m t l → NoDup l → p ∉ l → m !! p = Some e → hash e = hashf (key e) → zlen l + 1 < 2 ^ 31 →
  ∃ r t', table_Insert m p t = Ok (r, t') ∧
    match r with
    | Some q => q ∈ l ∧ (∃ e', m !! q = Some e' ∧ key e' = key e) ∧ table_ok m t' (filter (λ x, x ≠ q) (l ++ [p]))
    | None => (∀ q e', q ∈ l → m !! q = Some e' → key e' ≠ key e) ∧ table_ok m t' (l ++ [p])
    end.
Proof.
  intros He Ht Hnd Hp Hpe Eh Hz. unfold table_Insert, deref. rewrite Hpe. rbind. rewrite Eh.
  destruct (FindPointer_ok m t l (key e) He Ht) as (a & b & -> & Hb & Hsome & Hnone). rbind. assert (zlen (l ++ [p]) = zlen l + 1) as Ez by by rewrite zlen_app.
  pose proof (zlen_nonneg l). destruct b as [|q b]; cbn [head tail].
  - specialize (Hnone eq_refl). set (t' := set_chain t (hashf (key e)) (a ++ [p]) (u32 (elems_ t + 1))). assert (table_ok m t' (l ++ [p])) as Ht'.
    { eapply (set_chain_ok m t l (key e) a [] [p]); [exact Ht|exact Hb| |by rewrite app_nil_r|].
      - intros x e' ->%list_elem_of_singleton Hx. right. rewrite Hpe in Hx. by injection Hx as <-.
      - rewrite (to_elems _ _ _ Ht), u32_small by lia. by rewrite Ez. }
    destruct (length_ t' <? elems_ t'); [|by exists None, t']. destruct (Resize_ok m t' (l ++ [p])) as (t2 & -> & Ht2); [apply Ht'| |apply Ht'|lia|rbind; by exists None, t2].
    intros x [Hx| ->%list_elem_of_singleton]%elem_of_app; [destruct (eo_live _ _ He x Hx) as (e' & -> & _); by eexists|by rewrite Hpe].
  - destruct (Hsome q eq_refl) as [Hq Hk]. exists (Some q). eexists. split; [done|]. split; [done|]. split; [done|].
    assert (q ≠ p) as Hqp by (by intros ->). assert (filter (λ x, x ≠ q) [p] = [p]) as Ef by (by rewrite filter_cons_True). rewrite filter_app, Ef. pose proof (filter_remove l q Hq Hnd) as El.
    eapply (set_chain_ok m t l (key e) a (q :: b) (p :: b)); [exact Ht|exact Hb| | |].
    + intros x e' [->|Hx]%elem_of_cons Hxe; [|left; set_solver]. right. rewrite Hpe in Hxe. by injection Hxe as <-.
    + rewrite El at 1. solve_Permutation.
    + rewrite (to_elems _ _ _ Ht). unfold zlen. rewrite El at 1. rewrite length_app. cbn. lia.
Qed.

(** ** A shard *)

Definition cnt (p : Z) (hs : list Z) : Z := Z.of_nat (count_occ Z.eq_dec hs p).
Definition own (p : Z) (l : list Z) : Z := if decide (p ∈ l) then 1 else 0.
Definition charges m : Z := map_fold (λ _ (e : LRUHandle V) s, charge e + s) 0 m.
Definition entry (e : LRUHandle V) : bytes * V := (key e, value e).
Definition lives m : list (bytes * V) := entry <$> (map_to_list m).*2.

(** The clients hold the handles [hs], and have inserted [ins]. *)
Record inv c (hs : list Z) (ins : list (bytes * V)) : Prop := {
  i_nodup : NoDup (lru_ c);
  i_entries : entries_ok (heap c) (lru_ c);
  i_table : table_ok (heap c) (table_ c) (lru_ c);
  i_refs p e : heap c !! p = Some e → refs e = own p (lru_ c) + cnt p hs ∧ 0 < refs e;
  i_handles p : p ∈ hs → is_Some (heap c !! p);
  i_next p : is_Some (heap c !! p) → p < next c;
  i_usage : usage_ c = charges (heap c) ∧ usage_ c < 2 ^ 64;
  i_charge p e : heap c !! p = Some e → lo ≤ charge e;
  i_values : deleted c ++ lives (heap c) ≡ₚ ins
}.

Lemma cnt_cons p q hs : cnt p (q :: hs) = cnt p hs + (if decide (p = q) then 1 else 0).
Proof. unfold cnt. cbn [count_occ]. destruct (Z.eq_dec q p) as [->|Hne]; [rewrite decide_True by done; lia|rewrite decide_False by congruence; lia]. Qed.
Lemma cnt_perm p hs hs' : hs ≡ₚ hs' → cnt p hs = cnt p hs'.
Proof. intros H. unfold cnt. f_equal. by apply Permutation_count_occ. Qed.
Lemma cnt_elem p hs : p ∈ hs → 0 < cnt p hs.
Proof. intros H%list_elem_of_In. unfold cnt. pose proof (proj1 (count_occ_In Z.eq_dec hs p) H). lia. Qed.
Lemma occ_nonneg p hs : 0 ≤ cnt p hs.
Proof. unfold cnt. lia. Qed.

Lemma inv_perm c hs hs' ins : inv c hs ins → hs ≡ₚ hs' → inv c hs' ins.
Proof.
  intros [] Hp. split; try done.
  - intros p e He. rewrite <- (cnt_perm p hs hs' Hp). by apply i_refs0.
  - intros p Hin. apply i_handles0. by rewrite Hp.
Qed.

Lemma inv_ins c hs ins ins' : inv c hs ins → ins ≡ₚ ins' → inv c hs ins'.
Proof. intros [] Hp. split; try done. by rewrite <- Hp. Qed.

Lemma charges_insert m p e : m !! p = None → charges (<[p := e]> m) = charge e + charges m.
Proof. intros Hp. unfold charges. rewrite map_fold_insert_L; [done|intros; lia|done]. Qed.
Lemma charges_delete m p e : m !! p = Some e → charges m = charge e + charges (delete p m).
Proof. intros Hp. rewrite <- (insert_delete_id m p e Hp) at 1. apply charges_insert, lookup_delete_eq. Qed.
Lemma lives_insert m p e : m !! p = None → lives (<[p := e]> m) ≡ₚ entry e :: lives m.
Proof. intros Hp. unfold lives. by rewrite map_to_list_insert. Qed.
Lemma lives_delete m p e : m !! p = Some e → lives m ≡ₚ entry e :: lives (delete p m).
Proof. intros Hp. rewrite <- (insert_delete_id m p e Hp) at 1. apply lives_insert, lookup_delete_eq. Qed.

(** Another count of references changes nothing else. *)
Lemma charges_refs m p e n : m !! p = Some e → charges (<[p := with_refs n e]> m) = charges m.
Proof.
  intros Hp. rewrite (charges_delete m p e Hp), (charges_delete (<[p := with_refs n e]> m) p (with_refs n e)) by apply lookup_insert_eq. by rewrite delete_insert_eq.
Qed.
Lemma lives_refs m p e n : m !! p = Some e → lives (<[p := with_refs n e]> m) ≡ₚ lives m.
Proof.
  intros Hp. rewrite (lives_delete m p e Hp), (lives_delete (<[p := with_refs n e]> m) p (with_refs n e)) by apply lookup_insert_eq. by rewrite delete_insert_eq.
Qed.

(** Entries keep their keys and values. *)
Definition keeps m m' (l : list Z) : Prop := ∀ p, p ∈ l → ∃ e e', m !! p = Some e ∧ m' !! p = Some e' ∧ key e' = key e ∧ value e' = value e ∧ hash e' = hash e.

Lemma keeps_entries m m' l : keeps m m' l → entries_ok m l → entries_ok m' l.
Proof.
  intros Hk [Hl Hd]. split.
  - intros p Hp. destruct (Hl p Hp) as (e & He & Eh). destruct (Hk p Hp) as (e0 & e' & E0 & E' & K & _ & H'). rewrite He in E0. injection E0 as <-. exists e'. split; [done|]. congruence.
  - intros p q e1 e2 Hp Hq E1 E2 Ek. destruct (Hk p Hp) as (p0 & p1 & P0 & P1 & PK & _). destruct (Hk q Hq) as (q0 & q1 & Q0 & Q1 & QK & _).
    apply (Hd p q p0 q0 Hp Hq P0 Q0). rewrite P1 in E1. rewrite Q1 in E2. simplify_eq. congruence.
Qed.
Lemma keeps_table m m' t l : keeps m m' l → table_ok m t l → table_ok m' t l.
Proof.
  intros Hk Ht. pose proof Ht as [(j & Hj & El & Hlen & Hpl) Hn Hp]. split; [|done|done]. exists j. split; [done|]. split; [done|]. split; [done|].
  intros i ch p e Hi Hin He. destruct (Hk p) as (e0 & e1 & E0 & E1 & _ & _ & Eh); [by eapply chain_in|]. rewrite He in E1. injection E1 as <-. rewrite Eh. by eapply Hpl.
Qed.
Lemma charges_nonneg m : (∀ p e, m !! p = Some e → lo ≤ charge e) → 0 ≤ charges m.
Proof.
  induction m as [|p e m Hp IH] using map_ind; intros Hc; [done|]. rewrite charges_insert by done. pose proof (Hc p e (lookup_insert_eq _ _ _)).
  assert (0 ≤ charges m); [|lia]. apply IH. intros q e' Hq. apply (Hc q e'). rewrite lookup_insert_ne; [done|]. intros ->. congruence.
Qed.

Lemma keeps_refl m l : entries_ok m l → keeps m m l.
Proof. intros He p Hp. destruct (eo_live _ _ He p Hp) as (e & E & _). by exists e, e. Qed.
Lemma keeps_trans m1 m2 m3 l : keeps m1 m2 l → keeps m2 m3 l → keeps m1 m3 l.
Proof.
  intros K1 K2 p Hp. destruct (K1 p Hp) as (e1 & e2 & E1 & E2 & ? & ? & ?). destruct (K2 p Hp) as (e2' & e3 & E2' & E3 & ? & ? & ?). rewrite E2 in E2'. injection E2' as <-.
  exists e1, e3. split; [done|]. split; [done|]. split; [congruence|]. split; congruence.
Qed.
Lemma keeps_sub m m' l l' : keeps m m' l → (∀ p, p ∈ l' → p ∈ l) → keeps m m' l'.
Proof. intros K Hs p Hp. apply K, Hs, Hp. Qed.
Lemma keeps_refs m p e n l : m !! p = Some e → entries_ok m l → keeps m (<[p := with_refs n e]> m) l.
Proof.
  intros Hp He q Hq. destruct (eo_live _ _ He q Hq) as (e' & E' & _). destruct (decide (q = p)) as [->|Hne].
  - rewrite Hp in E'. injection E' as <-. exists e, (with_refs n e). by rewrite lookup_insert_eq.
  - exists e', e'. by rewrite lookup_insert_ne by done.
Qed.

(** Giving a reference back. *)
Lemma Unref_ok c p hs ins : inv c (p :: hs) ins →
  ∃ c', Unref p c = Ok c' ∧ inv c' hs ins ∧ lru_ c' = lru_ c ∧ capacity_ c' = capacity_ c ∧ keeps (heap c) (heap c') (lru_ c) ∧ usage_ c' ≤ usage_ c.
Proof.
  intros Hi. destruct (i_handles _ _ _ Hi p ltac:(set_solver)) as [e He]. destruct (i_refs _ _ _ Hi p e He) as [Er Hpos]. rewrite cnt_cons, decide_True in Er by done.
  pose proof (occ_nonneg p hs) as Hc. assert (0 ≤ own p (lru_ c)) as Ho by (unfold own; destruct (decide _); lia).
  pose proof Hi as [Hnd Hent Htab Hrefs Hhand Hnext [Hus Hlt] Hch Hval]. pose proof (charges_delete _ _ _ He) as Ed. pose proof (Hch p e He).
  unfold Unref, deref. rewrite He. rbind. rewrite (proj2 (Z.ltb_lt _ _)) by lia. destruct (Z.leb_spec (refs e - 1) 0) as [Hz|Hz].
  - assert (p ∉ lru_ c) as Hnl by (unfold own in Er; destruct (decide (p ∈ lru_ c)); [lia|done]). assert (p ∉ hs) as Hnh by (intros Hin%cnt_elem; lia).
    assert (keeps (heap c) (delete p (heap c)) (lru_ c)) as Hk.
    { intros q Hq. destruct (eo_live _ _ Hent q Hq) as (e' & E' & _). exists e', e'. rewrite lookup_delete_ne by (intros ->; done). done. }
    assert (0 ≤ charges (delete p (heap c))). { apply charges_nonneg. intros q e' Hq. apply lookup_delete_Some in Hq as [_ Hq]. by eapply Hch. }
    assert (u64 (usage_ c - charge e) = charges (delete p (heap c))) as Eu by (rewrite u64_small by lia; lia).
    eexists. split; [done|]. split; [|split; [done|]; split; [done|]; split; [done|cbn; lia]]. split; cbn; try done.
    + by eapply keeps_entries.
    + by eapply keeps_table.
    + intros q e' Hq. apply lookup_delete_Some in Hq as [Hne Hq]. destruct (Hrefs q e' Hq) as [E1 E2]. rewrite cnt_cons, decide_False in E1 by congruence. lia.
    + intros q Hq. rewrite lookup_delete_ne by (intros ->; done). apply Hhand. set_solver.
    + intros q [e' Hq]. apply lookup_delete_Some in Hq as [_ Hq]. apply Hnext. by rewrite Hq.
    + lia.
    + intros q e' Hq. apply lookup_delete_Some in Hq as [_ Hq]. by eapply Hch.
    + rewrite <- Hval, (lives_delete _ _ _ He). unfold entry. solve_Permutation.
  - pose proof (keeps_refs _ _ _ (refs e - 1) _ He Hent) as Hk.
    eexists. split; [done|]. split; [|split; [done|]; split; [done|]; split; [done|cbn; lia]]. split; cbn; try done.
    + by eapply keeps_entries.
    + by eapply keeps_table.
    + intros q e' Hq. apply lookup_insert_Some in Hq as [[<- <-]|[Hne Hq]]; [cbn; lia|]. destruct (Hrefs q e' Hq) as [E1 E2]. rewrite cnt_cons, decide_False in E1 by congruence. lia.
    + intros q Hq. apply lookup_insert_is_Some'. right. apply Hhand. set_solver.
    + intros q Hq. apply lookup_insert_is_Some' in Hq as [<-|Hq]; apply Hnext; [by rewrite He|done].
    + by rewrite charges_refs.
    + intros q e' Hq. apply lookup_insert_Some in Hq as [[<- <-]|[Hne Hq]]; [done|by eapply Hch].
    + by rewrite lives_refs.
Qed.

(** An entry that leaves the lists: the reference of the cache becomes one
    that somebody holds. *)
Lemma remove_inv c p t hs ins : inv c hs ins → p ∈ lru_ c → table_ok (heap c) t (filter (λ q, q ≠ p) (lru_ c)) →
  inv (with_lists (filter (λ q, q ≠ p) (lru_ c)) t c) (p :: hs) ins.
Proof.
  intros [Hnd Hent Htab Hrefs Hhand Hnext Hus Hch Hval] Hp Ht. assert (∀ q, q ∈ filter (λ q, q ≠ p) (lru_ c) ↔ q ≠ p ∧ q ∈ lru_ c) as Hin by (intros q; by rewrite list_elem_of_filter).
  split; cbn; try done.
  - by apply NoDup_filter.
  - destruct Hent as [Hl Hd]. split; [intros q Hq; apply Hl; by apply Hin|]. intros x y e e' Hx Hy. apply Hd; by apply Hin.
  - intros q e He. destruct (Hrefs q e He) as [E1 E2]. split; [|done]. rewrite cnt_cons, E1. unfold own. destruct (decide (q = p)) as [->|Hne].
    + rewrite decide_True by done. rewrite decide_False by (rewrite Hin; by intros []). lia.
    + destruct (decide (q ∈ lru_ c)); [rewrite decide_True by (by apply Hin)|rewrite decide_False by (rewrite Hin; by intros [])]; lia.
  - intros q [->|Hq]%elem_of_cons; [|by apply Hhand]. destruct (eo_live _ _ Hent p Hp) as (e & -> & _). by eexists.
Qed.
(** What a lookup can find. *)
Definition holds c (k : bytes) (v : V) : Prop := ∃ p e, p ∈ lru_ c ∧ heap c !! p = Some e ∧ key e = k ∧ value e = v.

Lemma holds_sub c c' k v : (∀ p, p ∈ lru_ c' → p ∈ lru_ c) → keeps (heap c) (heap c') (lru_ c') → holds c' k v → holds c k v.
Proof.
  intros Hs Hk (p & e & Hp & He & <- & <-). destruct (Hk p Hp) as (e0 & e1 & E0 & E1 & K & W & _). rewrite He in E1. injection E1 as <-. exists p, e0. by eauto.
Qed.

Lemma cnt_le p hs : cnt p hs ≤ zlen hs.
Proof. unfold cnt, zlen. pose proof (count_occ_bound Z.eq_dec p hs). lia. Qed.

(** Another order of the list by age. *)
Lemma reorder_inv c l hs ins : inv c hs ins → l ≡ₚ lru_ c → inv (with_lists l (table_ c) c) hs ins.
Proof.
  intros [Hnd [Hl Hd] [Hs He Hp] Hrefs Hhand Hnext Hus Hch Hval] Hperm. assert (∀ p, p ∈ l ↔ p ∈ lru_ c) as Hin by (intros p; by rewrite Hperm). split; cbn; try done.
  - by rewrite Hperm.
  - split; [intros p Hq; apply Hl; by apply Hin|]. intros x y e e' Hx Hy. apply Hd; by apply Hin.
  - split; [done| |by rewrite Hperm]. rewrite He. unfold zlen. by rewrite Hperm.
  - intros p e Hq. destruct (Hrefs p e Hq) as [E1 E2]. split; [|done]. rewrite E1. unfold own. destruct (decide (p ∈ lru_ c)); [rewrite decide_True by (by apply Hin)|rewrite decide_False by (by rewrite Hin)]; done.
Qed.

(** One more handle of an entry. *)
Lemma ref_inv c p e hs ins : inv c hs ins → heap c !! p = Some e → inv (with_heap (<[p := with_refs (refs e + 1) e]> (heap c)) (usage_ c) (deleted c) c) (p :: hs) ins.
Proof.
  intros [Hnd Hent Htab Hrefs Hhand Hnext Hus Hch Hval] He. pose proof (keeps_refs _ _ _ (refs e + 1) _ He Hent) as Hk. split; cbn; try done.
  - by eapply keeps_entries.
  - by eapply keeps_table.
  - intros q e' Hq. rewrite cnt_cons. apply lookup_insert_Some in Hq as [[<- <-]|[Hne Hq]]; [rewrite decide_True by done; destruct (Hrefs p e He); cbn; lia|].
    rewrite decide_False by congruence. destruct (Hrefs q e' Hq). lia.
  - intros q Hq. apply lookup_insert_is_Some'. apply elem_of_cons in Hq as [->|Hq]; [by left|right; by apply Hhand].
  - intros q Hq. apply lookup_insert_is_Some' in Hq as [<-|Hq]; apply Hnext; [by rewrite He|done].
  - by rewrite charges_refs.
  - intros q e' Hq. apply lookup_insert_Some in Hq as [[<- <-]|[Hne Hq]]; [cbn; by eapply Hch|by eapply Hch].
  - by rewrite lives_refs.
Qed.

Lemma Lookup_ok c k hs ins : inv c hs ins → zlen hs < 2 ^ 31 →
  ∃ r c', Lookup k (hashf k) c = Ok (r, c') ∧ (∀ k v, holds c' k v → holds c k v) ∧ usage_ c' = usage_ c ∧ capacity_ c' = capacity_ c ∧ lru_ c' ≡ₚ lru_ c ∧
    match r with
    | Some p => inv c' (p :: hs) ins ∧ ∃ e, heap c' !! p = Some e ∧ holds c k (value e)
    | None => inv c' hs ins ∧ ∀ v, ¬ holds c k v
    end.
Proof.
  intros Hi Hz. unfold Lookup, table_Lookup. destruct (FindPointer_ok (heap c) (table_ c) (lru_ c) k (i_entries _ _ _ Hi) (i_table _ _ _ Hi)) as (a & b & -> & _ & Hsome & Hnone). rbind.
  destruct (head b) as [p|] eqn:Eb.
  - destruct (Hsome p eq_refl) as (Hp & e & He & Hk). unfold deref. rewrite He. rbind. destruct (i_refs _ _ _ Hi p e He) as [Er Hpos]. pose proof (cnt_le p hs).
    assert (own p (lru_ c) = 1) as Eo by (unfold own; by rewrite decide_True). rewrite u32_small by lia.
    unfold LRU_Remove. cbn [lru_ with_heap]. rewrite decide_True by done. rbind. pose proof (filter_remove (lru_ c) p Hp (i_nodup _ _ _ Hi)) as El.
    assert (filter (λ q, q ≠ p) (lru_ c) ++ [p] ≡ₚ lru_ c) as El' by (rewrite El at 2; solve_Permutation).
    eexists (Some p), _. split; [done|]. unfold LRU_Append. cbn [lru_ table_ with_lists usage_ capacity_ with_heap]. split; [|split; [done|]; split; [done|]; split; [done|]; split].
    + intros k' v' Hh'. eapply (holds_sub c); [| |exact Hh']; cbn; [intros q Hq; by rewrite <- El'|]. eapply keeps_sub; [apply keeps_refs; [done|apply (i_entries _ _ _ Hi)]|]. intros q Hq. by rewrite <- El'.
    + exact (reorder_inv _ _ _ _ (ref_inv c p e hs ins Hi He) El').
    + exists (with_refs (refs e + 1) e). cbn. rewrite lookup_insert_eq. split; [done|]. by exists p, e.
  - exists None, c. split; [done|]. repeat (split; [done|]). intros v (p & e & Hp & He & Hk & _). by eapply (Hnone eq_refl).
Qed.

(** Making room. *)
Lemma evict_ok fuel : ∀ c hs ins, inv c hs ins → zlen (lru_ c) < 2 ^ 31 → (length (lru_ c) < fuel)%nat →
  ∃ c', evict fuel c = Ok c' ∧ inv c' hs ins ∧ capacity_ c' = capacity_ c ∧ (∃ n, lru_ c' = drop n (lru_ c)) ∧ keeps (heap c) (heap c') (lru_ c') ∧
    (usage_ c' ≤ capacity_ c' ∨ lru_ c' = []) ∧ usage_ c' ≤ usage_ c.
Proof.
  induction fuel as [|fuel IH]; intros c hs ins Hi Hz Hf; [lia|]. cbn [evict]. destruct (lru_ c) as [|old l] eqn:El.
  - exists c. rewrite El. split; [done|]. split; [done|]. split; [done|]. split; [by exists 0%nat|]. split; [intros p Hp; by apply elem_of_nil in Hp|]. split; [by right|lia].
  - destruct (Z.ltb_spec (capacity_ c) (usage_ c)) as [Hlt|Hge].
    2:{ exists c. rewrite El. split; [done|]. split; [done|]. split; [done|]. split; [by exists 0%nat|]. split; [rewrite <- El; apply keeps_refl, (i_entries _ _ _ Hi)|]. split; [by left|lia]. }
    assert (old ∈ lru_ c) as Hin by (rewrite El; set_solver). pose proof (i_nodup _ _ _ Hi) as Hnd. rewrite El in Hnd. apply NoDup_cons in Hnd as [Hno Hnd].
    assert (filter (λ q, q ≠ old) (lru_ c) = l) as Ef.
    { rewrite El. rewrite filter_cons_False by (intros H; by apply H). clear - Hno. induction l as [|y l IHl]; [done|]. rewrite filter_cons_True by set_solver. f_equal. apply IHl. set_solver. }
    unfold LRU_Remove. rewrite decide_True by done. rbind. cbn [heap with_lists]. destruct (eo_live _ _ (i_entries _ _ _ Hi) old Hin) as (e & He & Eh). unfold deref. rewrite He. rbind. rewrite Eh.
    destruct (table_Remove_ok (heap c) (table_ c) (lru_ c) (key e) (i_entries _ _ _ Hi) (i_table _ _ _ Hi) (i_nodup _ _ _ Hi)) as (r & t & Er & Hr); [by rewrite El|].
    cbn [table_ with_lists]. rewrite Er. rbind. cbn [lru_ with_lists].
    assert (r = Some old ∧ table_ok (heap c) t (filter (λ q, q ≠ old) (lru_ c))) as [-> Ht].
    { destruct r as [q|]; [|destruct Hr as [_ Hr]; by destruct (Hr old e Hin He)]. destruct Hr as (Hq & (e' & He' & Ek) & Ht).
      assert (q = old) as -> by (by apply (eo_keys _ _ (i_entries _ _ _ Hi) q old e' e)). done. }
    destruct (Unref_ok _ _ _ _ (remove_inv c old t hs ins Hi Hin Ht)) as (c1 & E1 & Hi1 & Hl1 & Hc1 & Hk1 & Hu1). unfold with_lists in E1 |- *. cbn in E1 |- *. rewrite E1. rbind.
    cbn in Hl1, Hc1, Hk1, Hu1. rewrite Ef in *. destruct (IH c1 hs ins Hi1) as (c2 & -> & Hi2 & Hc2 & (n & Hl2) & Hk2 & Hcap & Hu2).
    { rewrite Hl1. rewrite zlen_cons in Hz. zlia. } { rewrite Hl1. cbn in Hf. lia. }
    exists c2. split; [done|]. split; [done|]. split; [congruence|]. split; [exists (S n); by rewrite Hl2, Hl1|]. split; [|split; [done|lia]].
    eapply keeps_trans; [|exact Hk2]. eapply keeps_sub; [exact Hk1|]. intros p Hp. rewrite Hl2, Hl1 in Hp. rewrite <- (take_drop n l). apply elem_of_app. by right.
Qed.
(** A new entry, which leaves out the entries [ex] of the list. *)
Lemma alloc_inv c k v n t l' ex hs ins : let p := next c in let e := {| value := v; charge := n; key := k; hash := hashf k; refs := 2 |} in let m := <[p := e]> (heap c) in
  inv c hs ins → lo ≤ n → usage_ c + n < 2 ^ 64 → NoDup l' → entries_ok m l' → table_ok m t l' → p ∈ l' → p ∉ ex →
  (∀ x, x ≠ p → own x l' + cnt x ex = own x (lru_ c)) → (∀ x, x ∈ ex → x ∈ lru_ c) →
  inv {| capacity_ := capacity_ c; usage_ := usage_ c + n; lru_ := l'; table_ := t; heap := m; next := next c + 1; deleted := deleted c |} (p :: ex ++ hs) ((k, v) :: ins).
Proof.
  intros p e m [Hnd Hent Htab Hrefs Hhand Hnext Hus Hch Hval] Hn Hlt Hnd' Hent' Htab' Hp Hpex Hown Hex.
  assert (heap c !! p = None) as Hfresh. { destruct (heap c !! p) eqn:E; [|done]. pose proof (Hnext p ltac:(by rewrite E)). unfold p in *. lia. }
  assert (p ∉ hs) as Hph by (intros Hin%Hhand; rewrite Hfresh in Hin; by destruct Hin).
  assert (∀ x, cnt x (p :: ex ++ hs) = cnt x ex + cnt x hs + if decide (x = p) then 1 else 0) as Ec by (intros x; rewrite cnt_cons; unfold cnt; rewrite count_occ_app; lia).
  assert (∀ l, p ∉ l → cnt p l = 0) as Hc0 by (intros l Hl; unfold cnt; by rewrite (proj1 (count_occ_not_In Z.eq_dec l p)) by (by rewrite <- list_elem_of_In)).
  split; cbn; try done.
  - intros x e' Hx. rewrite Ec. apply lookup_insert_Some in Hx as [[<- <-]|[Hne Hx]].
    + rewrite (Hc0 ex Hpex), (Hc0 hs Hph), decide_True by done. unfold own. rewrite decide_True by done. cbn. lia.
    + rewrite decide_False by congruence. destruct (Hrefs x e' Hx) as [-> Hpos]. rewrite <- (Hown x) in Hpos |- * by done. lia.
  - intros x Hx. apply lookup_insert_is_Some'. rewrite elem_of_cons, elem_of_app in Hx. destruct Hx as [->|[Hx|Hx]]; [by left|right|right; by apply Hhand].
    destruct (eo_live _ _ Hent x (Hex x Hx)) as (e' & -> & _). by eexists.
  - intros x Hx. apply lookup_insert_is_Some' in Hx as [<-|Hx%Hnext]; unfold p; lia.
  - unfold m. rewrite charges_insert by done. cbn. lia.
  - intros x e' Hx. apply lookup_insert_Some in Hx as [[<- <-]|[_ Hx]]; [done|by eapply Hch].
  - unfold m. rewrite <- Hval, lives_insert by done. unfold entry. cbn. solve_Permutation.
Qed.

Lemma cache_Insert_ok c k v n hs ins : inv c hs ins → lo ≤ n → usage_ c + n < 2 ^ 64 → zlen (lru_ c) + 1 < 2 ^ 31 →
  ∃ p c', Insert k (hashf k) v n c = Ok (p, c') ∧ inv c' (p :: hs) ((k, v) :: ins) ∧ capacity_ c' = capacity_ c ∧ zlen (lru_ c') ≤ zlen (lru_ c) + 1 ∧
    (usage_ c' ≤ capacity_ c' ∨ lru_ c' = []) ∧ usage_ c' ≤ usage_ c + n ∧ ∀ k' v', holds c' k' v' → (k' = k ∧ v' = v) ∨ (k' ≠ k ∧ holds c k' v').
Proof.
  intros Hi Hn Hu Hz. unfold Insert. set (p := next c). set (e := {| value := v; charge := n; key := k; hash := hashf k; refs := 2 |}). set (m := <[p := e]> (heap c)).
  pose proof Hi as [Hnd Hent Htab Hrefs Hhand Hnext [Hus Hlt] Hch Hval]. pose proof (charges_nonneg _ Hch). rewrite u64_small by lia.
  assert (heap c !! p = None) as Hfresh. { destruct (heap c !! p) eqn:E; [|done]. pose proof (Hnext p ltac:(by rewrite E)). unfold p in *. lia. }
  assert (p ∉ lru_ c) as Hpl. { intros Hin. destruct (eo_live _ _ Hent p Hin) as (e' & E' & _). congruence. }
  assert (keeps (heap c) m (lru_ c)) as Hk.
  { intros q Hq. destruct (eo_live _ _ Hent q Hq) as (e' & E' & _). exists e', e'. unfold m. rewrite lookup_insert_ne by (intros <-; done). done. }
  assert (m !! p = Some e) as Hme by apply lookup_insert_eq. pose proof (keeps_entries _ _ _ Hk Hent) as Hent'.
  destruct (table_Insert_ok m (table_ c) (lru_ c) p e Hent' (keeps_table _ _ _ _ Hk Htab) Hnd Hpl Hme eq_refl Hz) as (r & t & Et & Hr). cbn [heap table_ lru_]. rewrite Et. rbind.
  assert (∃ c1, (match r with Some q => c ← LRU_Remove q (with_lists (lru_ c ++ [p]) t
        {| capacity_ := capacity_ c; usage_ := usage_ c + n; lru_ := lru_ c ++ [p]; table_ := table_ c; heap := m; next := p + 1; deleted := deleted c |}); Unref q c
      | None => Ok (with_lists (lru_ c ++ [p]) t {| capacity_ := capacity_ c; usage_ := usage_ c + n; lru_ := lru_ c ++ [p]; table_ := table_ c; heap := m; next := p + 1; deleted := deleted c |}) end) = Ok c1 ∧
    inv c1 (p :: hs) ((k, v) :: ins) ∧ capacity_ c1 = capacity_ c ∧ zlen (lru_ c1) ≤ zlen (lru_ c) + 1 ∧ usage_ c1 ≤ usage_ c + n ∧
    ∀ k' v', holds c1 k' v' → (k' = k ∧ v' = v) ∨ (k' ≠ k ∧ holds c k' v')) as (c1 & E1 & Hi1 & Hc1 & Hz1 & Hu1 & Hh1).
  { assert (∀ l', (∀ x, x ∈ l' ↔ x = p ∨ (x ∈ lru_ c ∧ ∀ e', m !! x = Some e' → key e' ≠ k)) → entries_ok m l') as Hents.
    { intros l' Hl'. split.
      - intros x [->|[Hx _]]%Hl'; [by exists e|by apply (eo_live _ _ Hent')].
      - intros x y e1 e2 [->|[Hx Hx']]%Hl' [->|[Hy Hy']]%Hl' E1 E2 Ek; [done| | |by eapply (eo_keys _ _ Hent')]; rewrite Hme in *; simplify_eq; [by destruct (Hy' e2 E2)|by destruct (Hx' e1 E1)]. }
    assert (∀ c', (∀ x, x ∈ lru_ c' → x = p ∨ (x ∈ lru_ c ∧ ∀ e', m !! x = Some e' → key e' ≠ k)) → keeps m (heap c') (lru_ c') →
      ∀ k' v', holds c' k' v' → (k' = k ∧ v' = v) ∨ (k' ≠ k ∧ holds c k' v')) as Hhold.
    { intros c' Hl' Hkc k' v' (x & e' & Hx & He' & <- & <-). destruct (Hkc x Hx) as (e0 & e1 & E0 & E1 & K & W & _). rewrite He' in E1. injection E1 as <-. rewrite K, W.
      destruct (Hl' x Hx) as [->|[Hxl Hxk]]; [rewrite Hme in E0; injection E0 as <-; by left|]. right. split; [by apply Hxk|].
      destruct (Hk x Hxl) as (e2 & e3 & E2 & E3 & K2 & W2 & _). rewrite E0 in E3. injection E3 as <-. rewrite K2, W2. by exists x, e2. }
    assert (NoDup (lru_ c ++ [p])) as Hnd2 by (apply NoDup_app; split; [done|]; split; [set_solver|apply NoDup_singleton]). assert (zlen (lru_ c ++ [p]) = zlen (lru_ c) + 1) as Ez by by rewrite zlen_app.
    destruct r as [q|].
    - destruct Hr as (Hq & (e' & Eq & Ekq) & Ht). cbn [key e] in Ekq. unfold LRU_Remove. cbn [lru_ with_lists]. rewrite decide_True by set_solver. rbind. set (l' := filter (λ x, x ≠ q) (lru_ c ++ [p])) in *.
      assert (p ≠ q) as Hpq by (intros E; rewrite E in Hpl; done).
      assert (∀ x, x ∈ l' ↔ x = p ∨ (x ∈ lru_ c ∧ x ≠ q)) as Hin by (intros x; unfold l'; rewrite list_elem_of_filter, elem_of_app, list_elem_of_singleton; naive_solver).
      assert (∀ x, x ∈ lru_ c → x ≠ q ↔ ∀ e', m !! x = Some e' → key e' ≠ k) as Hkey.
      { intros x Hx. split; [intros Hne e2 E2 Ek; apply Hne; by eapply (eo_keys _ _ Hent' x q e2 e' Hx Hq E2 Eq); congruence|]. intros Hx2 ->. by destruct (Hx2 e' Eq). }
      assert (∀ x, x ∈ l' ↔ x = p ∨ (x ∈ lru_ c ∧ ∀ e', m !! x = Some e' → key e' ≠ k)) as Hin2 by (intros x; rewrite Hin; split; (intros [->|[Hx Hx2]]; [by left|right; split; [done|]; by apply Hkey])).
      destruct (Unref_ok {| capacity_ := capacity_ c; usage_ := usage_ c + n; lru_ := l'; table_ := t; heap := m; next := next c + 1; deleted := deleted c |} q (p :: hs) ((k, v) :: ins)) as (c2 & E2 & Hi2 & Hl2 & Hc2 & Hk2 & Hu2).
      { eapply inv_perm; [apply (alloc_inv c k v n t l' [q] hs ins Hi Hn Hu); [by apply NoDup_filter|by apply Hents|done|by apply Hin; left|set_solver| |set_solver]|solve_Permutation].
        intros x Hx. rewrite cnt_cons. unfold own, cnt. cbn. destruct (decide (x = q)) as [->|Hne].
        - rewrite decide_False by (rewrite Hin; naive_solver). by rewrite decide_True.
        - destruct (decide (x ∈ lru_ c)); [rewrite decide_True by (rewrite Hin; auto)|rewrite decide_False by (rewrite Hin; naive_solver)]; lia. }
      exists c2. split; [exact E2|]. split; [done|]. cbn in Hl2, Hc2, Hk2, Hu2. split; [done|]. split; [rewrite Hl2; unfold l'; pose proof (length_filter (λ x, x ≠ q) (lru_ c ++ [p])); unfold zlen in *; lia|].
      split; [done|]. apply Hhold; [intros x Hx; apply Hin2; by rewrite <- Hl2|by rewrite Hl2].
    - destruct Hr as [Hno Ht]. assert (∀ x, x ∈ lru_ c ++ [p] ↔ x = p ∨ (x ∈ lru_ c ∧ ∀ e', m !! x = Some e' → key e' ≠ k)) as Hin2.
      { intros x. rewrite elem_of_app, list_elem_of_singleton. split; [intros [Hx|Hx]; [right; split; [done|]; intros e' E'; by apply (Hno x e')|by left]|naive_solver]. }
      eexists. split; [done|]. split; [|split; [done|]; split; [cbn; lia|]; split; [cbn; lia|apply Hhold; cbn; [by intros x; apply Hin2|]]].
      + apply (alloc_inv c k v n t (lru_ c ++ [p]) [] hs ins Hi Hn Hu); [done|by apply Hents|done|set_solver|set_solver| |set_solver].
        intros x Hx. unfold own, cnt. cbn. destruct (decide (x ∈ lru_ c)); [rewrite decide_True by set_solver|rewrite decide_False by set_solver]; lia.
      + apply keeps_refl. by apply Hents. }
  cbn [lru_] in *. rewrite E1. rbind. destruct (evict_ok (S (length (lru_ c1))) c1 _ _ Hi1) as (c2 & -> & Hi2 & Hc2 & (d & Hl2) & Hk2 & Hcap & Hu2); [lia|lia|]. rbind.
  assert (∀ x, x ∈ lru_ c2 → x ∈ lru_ c1) as Hsub by (intros x Hx; rewrite Hl2 in Hx; rewrite <- (take_drop d (lru_ c1)); apply elem_of_app; by right).
  exists p, c2. split; [done|]. split; [done|]. split; [congruence|]. split; [rewrite Hl2; unfold zlen in *; rewrite length_drop; lia|]. split; [done|]. split; [lia|].
  intros k' v' Hh'. apply Hh1. by eapply holds_sub.
Qed.
Lemma Erase_ok c k hs ins : inv c hs ins → zlen (lru_ c) < 2 ^ 31 →
  ∃ c', Erase k (hashf k) c = Ok c' ∧ inv c' hs ins ∧ capacity_ c' = capacity_ c ∧ usage_ c' ≤ usage_ c ∧ zlen (lru_ c') ≤ zlen (lru_ c) ∧
    ∀ k' v', holds c' k' v' → k' ≠ k ∧ holds c k' v'.
Proof.
  intros Hi Hz. unfold Erase. destruct (table_Remove_ok (heap c) (table_ c) (lru_ c) k (i_entries _ _ _ Hi) (i_table _ _ _ Hi) (i_nodup _ _ _ Hi) Hz) as (r & t & -> & Hr). rbind.
  destruct r as [p|].
  - destruct Hr as (Hp & (e & He & Ek) & Ht). unfold LRU_Remove. cbn [lru_ with_lists]. rewrite decide_True by done. rbind.
    destruct (Unref_ok _ _ _ _ (remove_inv c p t hs ins Hi Hp Ht)) as (c1 & E1 & Hi1 & Hl1 & Hc1 & Hk1 & Hu1). exists c1. split; [exact E1|]. cbn in Hl1, Hc1, Hk1, Hu1.
    assert (∀ x, x ∈ lru_ c1 → x ≠ p ∧ x ∈ lru_ c) as Hin by (intros x; by rewrite Hl1, list_elem_of_filter). rewrite <- Hl1 in Hk1.
    split; [done|]. split; [done|]. split; [done|]. split; [rewrite Hl1; unfold zlen; apply inj_le, length_filter|].
    intros k' v' Hh. pose proof (holds_sub c c1 k' v' (λ x Hx, proj2 (Hin x Hx)) Hk1 Hh) as Hh'. split; [|done]. intros ->.
    destruct Hh as (x & e' & Hx & He' & Ek' & _). destruct (Hin x Hx) as [Hne Hxl]. apply Hne. destruct (Hk1 x Hx) as (e0 & e1 & E0 & E1' & K & _).
    apply (eo_keys _ _ (i_entries _ _ _ Hi) x p e0 e Hxl Hp E0 He). rewrite He' in E1'. injection E1' as <-. congruence.
  - destruct Hr as [-> Hno]. exists c. split; [by destruct c|]. split; [done|]. split; [done|]. split; [lia|]. split; [lia|].
    intros k' v' Hh. split; [|done]. intros ->. destruct Hh as (x & e' & Hx & He' & Ek' & _). by eapply Hno.
Qed.

Lemma new_ok capacity : ∃ c, LRUCache_new (V := V) capacity = Ok c ∧ inv c [] [] ∧ capacity_ c = capacity ∧ lru_ c = [] ∧ usage_ c = 0.
Proof.
  unfold LRUCache_new, HandleTable_new. destruct (Resize_ok (∅ : Heap) {| length_ := 0; elems_ := 0; list_ := [] |} []) as (t & -> & Ht); [done|set_solver|done|done|]. rbind.
  eexists. split; [done|]. split; [|done]. split; cbn; try done; [constructor|split; set_solver|set_solver|by intros p []].
Qed.

(** ** Any use of a shard *)
Inductive op := OInsert (k : bytes) (v : V) (n : Z) | OLookup (k : bytes) | ORelease (i : nat) | OErase (k : bytes).

(** Clients insert, look up, give back the [i]-th handle they hold, and
    erase; a lookup answers with the value behind the handle. *)
Definition step (o : op) (s : LRUCache V * list Z) : result (option V * (LRUCache V * list Z)) :=
  let '(c, hs) := s in
  match o with
  | OInsert k v n => '(p, c) ← Insert k (hashf k) v n c; Ok (None, (c, p :: hs))
  | OLookup k =>
      '(r, c) ← Lookup k (hashf k) c;
      match r with Some p => e ← deref (heap c) p; Ok (Some (value e), (c, p :: hs)) | None => Ok (None, (c, hs)) end
  | ORelease i => match hs !! i with Some p => c ← Release p c; Ok (None, (c, delete i hs)) | None => Ok (None, s) end
  | OErase k => c ← Erase k (hashf k) c; Ok (None, (c, hs))
  end.
Fixpoint run (ops : list op) (s : LRUCache V * list Z) : result (list (option V) * (LRUCache V * list Z)) :=
  match ops with [] => Ok ([], s) | o :: ops => '(a, s) ← step o s; '(l, s) ← run ops s; Ok (a :: l, s) end.

(** What a map without a limit answers. *)
Definition remember (o : op) (M : gmap bytes V) : gmap bytes V :=
  match o with OInsert k v _ => <[k := v]> M | OErase k => delete k M | _ => M end.
Fixpoint expected (ops : list op) (M : gmap bytes V) : list (option V) :=
  match ops with [] => [] | o :: ops => (match o with OLookup k => M !! k | _ => None end) :: expected ops (remember o M) end.

Definition inserted (ops : list op) : list (bytes * V) := omap (λ o, match o with OInsert k v _ => Some (k, v) | _ => None end) ops.
Definition op_charge (o : op) : Z := match o with OInsert _ _ n => n | _ => 0 end.
Definition op_charges (ops : list op) : Z := foldr (λ o n, op_charge o + n) 0 ops.
Definition op_ok (o : op) : Prop := match o with OInsert _ _ n => lo ≤ n | _ => True end.
Definition within c : Prop := usage_ c ≤ capacity_ c ∨ lru_ c = [].

Lemma cache_step_ok (o : op) c (hs : list Z) (ins : list (bytes * V)) (M : gmap bytes V) : inv c hs ins → within c → (∀ k v, holds c k v → M !! k = Some v) → op_ok o → usage_ c + op_charge o < 2 ^ 64 →
  zlen (lru_ c) + 1 < 2 ^ 31 → zlen hs < 2 ^ 31 →
  ∃ a c' hs', step o (c, hs) = Ok (a, (c', hs')) ∧ inv c' hs' (inserted [o] ++ ins) ∧ within c' ∧ capacity_ c' = capacity_ c ∧ (∀ k v, holds c' k v → remember o M !! k = Some v) ∧
    (a = None ∨ ∃ k, o = OLookup k ∧ a = M !! k) ∧ usage_ c' ≤ usage_ c + op_charge o ∧ zlen (lru_ c') ≤ zlen (lru_ c) + 1 ∧ zlen hs' ≤ zlen hs + 1.
Proof.
  intros Hi Hw HM Hn Hu Hz Hzh. destruct o as [k v n|k|i|k]; cbn [step op_charge remember inserted omap list_omap app] in *.
  - destruct (cache_Insert_ok c k v n hs ins Hi Hn Hu Hz) as (p & c' & -> & Hi' & Hc & Hl & Hcap & Hu' & Hh). rbind. eexists _, _, _. split; [done|]. split; [done|]. split; [done|]. split; [done|].
    split; [|split; [by left|]; split; [done|]; split; [done|rewrite zlen_cons; lia]]. intros k' v' [[-> ->]|[Hne Hh']]%Hh; [apply lookup_insert_eq|]. rewrite lookup_insert_ne by done. by apply HM.
  - destruct (Lookup_ok c k hs ins Hi Hzh) as (r & c' & -> & Hh & Hu' & Hc & Hl & Hr). rbind. assert (zlen (lru_ c') = zlen (lru_ c)) as El by (unfold zlen; by rewrite Hl).
    assert (within c') as Hw'. { destruct Hw as [?|E]; [left; congruence|right]. rewrite E in Hl. by apply Permutation_nil. }
    destruct r as [p|].
    + destruct Hr as (Hi' & e & He & Hhe). unfold deref. rewrite He. rbind. eexists _, _, _. split; [done|]. split; [done|]. split; [done|]. split; [done|].
      split; [intros k' v' Hk'; by apply HM, Hh|]. split; [right; exists k; split; [done|]; symmetry; by apply HM|]. split; [lia|]. split; [lia|rewrite zlen_cons; lia].
    + destruct Hr as [Hi' _]. eexists _, _, _. split; [done|]. split; [done|]. split; [done|]. split; [done|]. split; [intros k' v' Hk'; by apply HM, Hh|]. split; [by left|]. lia.
  - destruct (hs !! i) as [p|] eqn:Ei; [|eexists _, _, _; split; [done|]; split; [done|]; split; [done|]; split; [done|]; split; [done|]; split; [by left|lia]].
    pose proof (delete_Permutation hs i p Ei) as Hp. destruct (Unref_ok c p (delete i hs) ins (inv_perm _ _ _ _ Hi Hp)) as (c' & E & Hi' & Hl & Hc & Hk & Hu'). unfold Release. rewrite E. rbind.
    eexists _, _, _. split; [done|]. split; [done|]. split; [destruct Hw as [?|?]; [left; lia|right; congruence]|]. split; [done|]. split; [|split; [by left|]].
    + intros k' v' Hk'. apply HM. eapply holds_sub; [|by rewrite Hl|exact Hk']. by rewrite Hl.
    + rewrite Hl. assert (zlen (delete i hs) ≤ zlen hs) by (unfold zlen; rewrite Hp at 2; cbn; lia). lia.
  - destruct (Erase_ok c k hs ins Hi) as (c' & -> & Hi' & Hc & Hu' & Hl & Hh); [lia|]. rbind. eexists _, _, _. split; [done|]. split; [done|]. split; [|split; [done|]; split; [|split; [by left|lia]]].
    + destruct Hw as [?|E]; [left; lia|right]. rewrite E in Hl. destruct (lru_ c'); [done|]. rewrite zlen_cons in Hl. change (zlen []) with 0 in Hl. zlia.
    + intros k' v' [Hne Hk']%Hh. rewrite lookup_delete_ne by done. by apply HM.
Qed.

Lemma run_ok ops : ∀ c (hs : list Z) (ins : list (bytes * V)) (M : gmap bytes V), inv c hs ins → within c → (∀ k v, holds c k v → M !! k = Some v) → Forall op_ok ops → usage_ c + op_charges ops < 2 ^ 64 →
  zlen (lru_ c) + zlen ops + 1 < 2 ^ 31 → zlen hs + zlen ops + 1 < 2 ^ 31 →
  ∃ (out : list (option V)) c' hs', run ops (c, hs) = Ok (out, (c', hs')) ∧ inv c' hs' (inserted ops ++ ins) ∧ within c' ∧ capacity_ c' = capacity_ c ∧ Forall2 (λ a b, a = None ∨ a = b) out (expected ops M).
Proof.
  induction ops as [|o ops IH]; intros c hs ins M Hi Hw HM Hn Hu Hz Hzh; [by eexists [], _, _|]. apply Forall_cons in Hn as [Ho Hn]. cbn [op_charges foldr] in Hu. fold (op_charges ops) in Hu.
  assert (0 ≤ op_charges ops). { clear - Hn Hlo. induction Hn as [|o ops Ho _ IH]; [done|]. cbn. unfold op_charges in IH. destruct o; cbn in *; lia. }
  assert (0 ≤ op_charge o) by (destruct o; cbn in *; lia).
  rewrite zlen_cons in *. pose proof (zlen_nonneg ops).
  destruct (cache_step_ok o c hs ins M Hi Hw HM Ho) as (a & c1 & hs1 & E1 & Hi1 & Hw1 & Hc1 & HM1 & Ha & Hu1 & Hz1 & Hh1); [lia..|].
  destruct (IH c1 hs1 _ _ Hi1 Hw1 HM1 Hn) as (l & c' & hs' & E & Hi' & Hw' & Hc' & Hl); [lia..|]. cbn [run]. rewrite E1. rbind. rewrite E. rbind.
  eexists _, _, _. split; [done|]. split; [|split; [done|]; split; [congruence|]; cbn [expected]; constructor; [|done]].
  - eapply inv_ins; [exact Hi'|]. rewrite (Permutation_app_comm (inserted [o]) ins), app_assoc, Permutation_app_comm, app_assoc. by destruct o.
  - destruct Ha as [->|(k & -> & ->)]; [by left|by right].
Qed.
(** Entries that have a charge are no more than the charges. *)
Lemma charges_count l : ∀ m, NoDup l → (∀ p, p ∈ l → is_Some (m !! p)) → (∀ p e, m !! p = Some e → lo ≤ charge e) → lo * zlen l ≤ charges m.
Proof.
  induction l as [|p l IH]; intros m Hnd Hl Hc; [change (zlen []) with 0; pose proof (charges_nonneg m Hc); lia|]. apply NoDup_cons in Hnd as [Hp Hnd].
  destruct (Hl p ltac:(set_solver)) as [e He]. rewrite zlen_cons, (charges_delete m p e He). pose proof (Hc p e He). specialize (IH (delete p m) Hnd).
  assert (lo * zlen l ≤ charges (delete p m)); [apply IH|lia].
  - intros q Hq. rewrite lookup_delete_ne by set_solver. apply Hl. set_solver.
  - intros q e' Hq. apply lookup_delete_Some in Hq as [_ Hq]. by eapply Hc.
Qed.
End spec.

(** ** The shard keeps its promises *)
Section sound.
Context {V : Type} (hashf : bytes → Z).

(** C9: In any sequence of insertions, lookups, releases and erasures on one
    shard of the cache, whatever the hash function, nothing is used after it
    was freed; a lookup finds nothing or the value that was inserted last and
    not erased; the charges are within the capacity unless all that is left
    is behind handles; an entry is kept as long as the cache or a client
    refers to it; and every value inserted is either kept or was given to its
    deleter once. *)
Theorem lru_cache_sound capacity (ops : list (op (V := V))) : Forall (op_ok 0) ops → op_charges ops < 2 ^ 64 → zlen ops + 1 < 2 ^ 31 →
  ∃ c0 out c hs, LRUCache_new capacity = Ok c0 ∧ run hashf ops (c0, []) = Ok (out, (c, hs)) ∧ Forall2 (λ a b, a = None ∨ a = b) out (expected ops ∅) ∧
    (usage_ c ≤ Z.max 0 capacity ∨ lru_ c = []) ∧ (∀ p, is_Some (heap c !! p) ↔ p ∈ lru_ c ∨ p ∈ hs) ∧ deleted c ++ lives (heap c) ≡ₚ inserted ops.
Proof.
  intros Hn Hu Hz. destruct (new_ok (V := V) hashf 0 ltac:(lia) capacity) as (c0 & E0 & H0 & Hc0 & Hl0 & Hu0). exists c0.
  destruct (run_ok hashf 0 ltac:(lia) ops c0 [] [] ∅ H0) as (out & c & hs & E & Hi & Hw & Hc & Hout); [by right| |done|lia|rewrite Hl0; change (zlen []) with 0; lia|change (zlen []) with 0; lia|].
  - intros k v (p & e & Hp & _). rewrite Hl0 in Hp. by apply elem_of_nil in Hp.
  - exists out, c, hs. split; [done|]. split; [done|]. split; [done|]. split; [destruct Hw as [?|?]; [left; lia|by right]|]. split.
    + intros p. split.
      * intros [e He]. destruct (i_refs _ _ _ _ _ Hi p e He) as [Er Hpos]. unfold own in Er. destruct (decide (p ∈ lru_ c)); [by left|right].
        destruct (decide (p ∈ hs)) as [|Hn']; [done|]. unfold cnt in Er. rewrite (proj1 (count_occ_not_In Z.eq_dec hs p)) in Er by (by rewrite <- list_elem_of_In). lia.
      * intros [Hp|Hp]; [|by apply (i_handles _ _ _ _ _ Hi)]. destruct (eo_live _ _ _ (i_entries _ _ _ _ _ Hi) p Hp) as (e & -> & _). by eexists.
    + pose proof (i_values _ _ _ _ _ Hi) as Hv. by rewrite app_nil_r in Hv.
Qed.
End sound.

Lemma lru_cache_sound_witness :
  let ops := [OInsert (str "a") 1 1; OInsert (str "b") 2 1; OLookup (str "a"); OInsert (str "c") 3 1; ORelease 1; OErase (str "c"); OLookup (str "c")] in
  Forall (op_ok 0) ops ∧
  ∃ c0 out c hs, LRUCache_new 2 = Ok c0 ∧ run zlen ops (c0, []) = Ok (out, (c, hs)) ∧ Forall2 (λ a b, a = None ∨ a = b) out (expected ops ∅) ∧
    (usage_ c ≤ Z.max 0 2 ∨ lru_ c = []) ∧ (∀ p, is_Some (heap c !! p) ↔ p ∈ lru_ c ∨ p ∈ hs) ∧ deleted c ++ lives (heap c) ≡ₚ inserted ops.
Proof.
  intros ops. assert (Forall (op_ok 0) ops) as Hn by (repeat constructor; cbn; lia). split; [exact Hn|].
  apply (lru_cache_sound zlen 2 ops Hn); vm_compute; reflexivity.
Defined.

(** ** The sharded cache keeps the laws of caches *)
Section laws.
Context {V : Type}.
Definition slice_hash (k : bytes) : Z := match HashSlice k with Ok h => h | Fault _ => 0 end.

Lemma HashSlice_ok k : HashSlice k = Ok (slice_hash k) ∧ (Shard (slice_hash k) < 16)%nat.
Proof.
  unfold slice_hash, HashSlice, Shard. destruct (Hash_u32 k 0 ltac:(lia)) as (h & -> & Hh). split; [done|]. change (32 - kNumShardBits) with 28.
  rewrite Z.shiftr_div_pow2 by lia. assert (0 ≤ h / 2 ^ 28 < 16); [|lia]. split; [apply Z.div_pos; lia|apply Z.div_lt_upper_bound; lia].
Qed.

(** Without handles a shard is within its capacity. *)
Definition shard_ok (P : bytes → V → Prop) (c : LRUCache V) : Prop :=
  (∃ ins, inv slice_hash 1 c [] ins) ∧ usage_ c ≤ capacity_ c ∧ 0 ≤ capacity_ c < 2 ^ 31 - 2 ∧ ∀ k v, holds c k v → P k v.
Definition lru_ok (P : bytes → V → Prop) (s : ShardedLRUCache V) : Prop := length (shard_ s) = 16%nat ∧ Forall (shard_ok P) (shard_ s).

Lemma shard_count P c : shard_ok P c → zlen (lru_ c) + 1 < 2 ^ 31.
Proof.
  intros ((ins & Hi) & Hu & Hc & _). pose proof (charges_count slice_hash 1 ltac:(lia) (lru_ c) (heap c) (i_nodup _ _ _ _ _ Hi)) as Hn.
  destruct (i_usage _ _ _ _ _ Hi) as [Eu _]. assert (1 * zlen (lru_ c) ≤ charges (heap c)); [apply Hn|lia].
  - intros p Hp. destruct (eo_live _ _ _ (i_entries _ _ _ _ _ Hi) p Hp) as (e & -> & _). by eexists.
  - apply (i_charge _ _ _ _ _ Hi).
Qed.

(** Nothing is kept without a reference. *)
Lemma no_refs (c : LRUCache V) ins : inv slice_hash 1 c [] ins → lru_ c = [] → usage_ c = 0.
Proof.
  intros Hi Hl. destruct (i_usage _ _ _ _ _ Hi) as [-> _]. assert (heap c = ∅) as ->; [|done]. apply map_empty. intros p. destruct (heap c !! p) as [e|] eqn:He; [|done].
  destruct (i_refs _ _ _ _ _ Hi p e He) as [Er Hpos]. unfold own in Er. rewrite Hl, decide_False in Er by set_solver. unfold cnt in Er. cbn in Er. lia.
Qed.

Lemma shard_at P s k : lru_ok P s → ∃ c, shard_ s !! Shard (slice_hash k) = Some c ∧ shard_ok P c.
Proof.
  intros [Hl Hs]. destruct (HashSlice_ok k) as [_ Hlt]. destruct (lookup_lt_is_Some_2 (shard_ s) (Shard (slice_hash k))) as [c Hc]; [lia|]. exists c. split; [done|].
  rewrite Forall_lookup in Hs. by eapply Hs.
Qed.
Lemma shard_put P s i c n : lru_ok P s → shard_ok P c → lru_ok P {| shard_ := <[i := c]> (shard_ s); last_id_ := n |}.
Proof. intros [Hl Hs] Hc. split; cbn; [by rewrite length_insert|]. by apply Forall_insert. Qed.

#[export] Instance lru_laws : CacheLaws (ShardedLRUCache V) V lru_ok.
Proof.
  split.
  - intros P Q s [Hl Hs] HPQ. split; [done|]. eapply Forall_impl; [exact Hs|]. intros c (H1 & H2 & H3 & H4). split; [done|]. split; [done|]. split; [done|]. auto.
  - intros P k s Hs. destruct (shard_at P s k Hs) as (c & Hc & Hok). pose proof Hok as ((ins & Hi) & Hu & Hcap & HP). destruct (HashSlice_ok k) as [Eh Hlt]. pose proof Hs as [Hl _].
    cbn [ca_Lookup lru_Cache]. unfold sharded_Lookup. rewrite Eh. rbind. unfold on_shard. rewrite Hc. destruct (Lookup_ok slice_hash 1 ltac:(lia) c k [] ins Hi) as (r & c1 & -> & Hh & Hu1 & Hc1 & Hl1 & Hr); [done|]. rbind.
    destruct r as [p|].
    + destruct Hr as (Hi1 & e & He & Hhe). unfold sharded_Value, sharded_Release, on_shard. cbn [shard_ fst snd]. rewrite list_lookup_insert_eq by lia. unfold deref. rewrite He. rbind.
      destruct (Unref_ok slice_hash 1 ltac:(lia) c1 p [] ins Hi1) as (c2 & E2 & Hi2 & Hl2 & Hc2 & Hk2 & Hu2). unfold Release. rewrite E2. rbind. cbn [last_id_].
      rewrite list_insert_insert_eq. eexists _, _. split; [done|]. split; [|intros v [= <-]; by apply HP]. apply shard_put; [done|]. split; [by exists ins|]. split; [lia|]. split; [congruence|].
      intros k' v' Hk'. apply HP, Hh. eapply holds_sub; [|by rewrite Hl2|exact Hk']. by rewrite Hl2.
    + destruct Hr as [Hi1 _]. eexists _, _. split; [done|]. split; [|done]. apply shard_put; [done|]. split; [by exists ins|]. split; [lia|]. split; [congruence|]. intros k' v' Hk'. by apply HP, Hh.
  - intros P k v n s Hs Hkv Hn. destruct (shard_at P s k Hs) as (c & Hc & Hok). pose proof (shard_count P c Hok) as Hz. pose proof Hok as ((ins & Hi) & Hu & Hcap & HP). destruct (HashSlice_ok k) as [Eh Hlt].
    pose proof Hs as [Hl _]. cbn [ca_Insert lru_Cache]. unfold sharded_Insert. rewrite Eh. rbind. unfold on_shard. rewrite Hc.
    destruct (cache_Insert_ok slice_hash 1 ltac:(lia) c k v n [] ins Hi) as (p & c1 & -> & Hi1 & Hc1 & Hl1 & Hw1 & Hu1 & Hh1); [lia|lia|lia|]. rbind.
    unfold sharded_Release, on_shard. cbn [shard_ fst snd]. rewrite list_lookup_insert_eq by lia.
    destruct (Unref_ok slice_hash 1 ltac:(lia) c1 p [] _ Hi1) as (c2 & E2 & Hi2 & Hl2 & Hc2 & Hk2 & Hu2). unfold Release. rewrite E2. rbind. cbn [last_id_]. rewrite list_insert_insert_eq.
    eexists. split; [done|]. apply shard_put; [done|]. split; [by eexists|]. split; [|split; [congruence|]].
    + destruct Hw1 as [?|E]; [lia|]. rewrite <- Hl2 in E. rewrite (no_refs c2 _ Hi2 E). lia.
    + intros k' v' Hk'. destruct (Hh1 k' v') as [[-> ->]|[_ Hh']]; [|done|by apply HP]. eapply holds_sub; [|by rewrite Hl2|exact Hk']. by rewrite Hl2.
  - done.
Qed.

(** A new cache keeps nothing. *)
Lemma NewLRUCache_ok capacity : 0 ≤ capacity < 2 ^ 34 → ∃ s, NewLRUCache (V := V) capacity = Ok s ∧ last_id_ s = 0 ∧ ∀ P, lru_ok P s.
Proof.
  intros Hc. unfold NewLRUCache. change (kNumShards - 1) with 15. change kNumShards with 16. rewrite u64_small by lia. set (n := (capacity + 15) / 16).
  assert (0 ≤ n < 2 ^ 31 - 2) as Hn by (subst n; split; [apply Z.div_pos; lia|apply Z.div_lt_upper_bound; lia]).
  assert (∀ m, ∃ l, new_shards (V := V) m n = Ok l ∧ length l = m ∧ ∀ P, Forall (shard_ok P) l) as Hnew.
  { induction m as [|m (l & El & Hl & Hall)]; [by exists []|]. cbn [new_shards]. destruct (new_ok (V := V) slice_hash 1 ltac:(lia) n) as (c & -> & Hi & Hcap & Hlru & Hu). rbind. rewrite El. rbind.
    eexists. split; [done|]. split; [cbn; congruence|]. intros P. constructor; [|done]. split; [by eexists|]. split; [lia|]. split; [lia|]. intros k v (p & e & Hp & _). rewrite Hlru in Hp. by apply elem_of_nil in Hp. }
  destruct (Hnew (Z.to_nat 16)) as (l & -> & Hl & Hall). rbind. eexists. split; [done|]. split; [done|]. intros P. split; [exact Hl|apply Hall].
Qed.
End laws.
