(* ===== verification/TableReadSpec.v ===== *)
(** * What a reader finds in a table (theorems about Table.v)

    A table that was built from sorted pairs is opened, with or without a
    cache of blocks; its iterator shows these pairs, and a lookup finds the
    first pair at or behind a key, unless no pair is for the key. *)

From stdpp Require Import sorting.
From S2P Require Import Prelude Cstd Cmem LevelDb Coding Status DbFormat Iter Comparator Filter Block BlockSpec FilterBlock TwoLevel Crc32c Env Table TableBuildSpec LruCache.
Import Format Table.

Section reading.
Context {A : Type} {enc : A → bytes} {cmp : A → A → Z} {good : A → Prop} {same : A → A → Prop}.
Context {HC : Comparator} {HL : ComparatorLaws enc cmp good} {HS : SameLaws enc cmp good same}.
Context (addr : bytes → Z) {HSn : Snappy} {F : Type} {content : F → bytes → Prop} {HF : RandomAccessFile F} {HFL : RandomLaws F content}.
Context {C : Type} {HCa : Cache C Block.Block} {ca_ok : (bytes → Block.Block → Prop) → C → Prop} {HCL : CacheLaws C Block.Block ca_ok}.
Context (filter_policy : option FilterPolicy) (has_cache : bool) (fuel : nat).

Abbreviation pair := (A * bytes)%type.
Abbreviation BAt := (BlockAt (enc := enc) (good := good)).
Abbreviation TableOf := (table_of (enc := enc) (cmp := cmp) (good := good) (same := same) filter_policy).

(** ** Blocks *)

(** The block [b] is over the pairs [B]. *)
Definition opens (b : Block.Block) (B : list pair) : Prop := ∃ it, Block.NewIterator b = Ok it ∧ BAt it B None.

Lemma block_opens raw B : holds_block (enc := enc) (good := good) raw B → ∃ b, Block.Block_new raw = Ok b ∧ opens b B ∧ 0 < Block.size_ b < 2 ^ 62.
Proof.
  intros (r & n & E & idx & HB). destruct (open_block _ _ _ _ _ _ HB) as (b & it & Eb & Ei & Hat). exists b. split; [done|]. split; [by exists it|]. split.
  - unfold Block.NewIterator in Ei. destruct (Z.ltb_spec (Block.size_ b) 8); [|lia]. injection Ei as <-. by destruct Hat as (? & ? & ? & ? & ? & ? & ? & _).
  - destruct HB as (HLay & _). pose proof (l_size _ _ _ _ _ HLay). unfold Block.Block_new in Eb. destruct (zlen raw <? 4); [by injection Eb as <-|].
    apply result_bind_Ok in Eb as (k & _ & Eb). injection Eb as <-. cbn [Block.size_]. destruct (_ <? _); lia.
Qed.

Section over.
Context (u : bytes) (Bs : list (list pair)) (hs : list BlockHandle) (seps : list A) (ft : Footer) (HT : TableOf u Bs hs seps ft).

(** What the cache may hold under the keys of the table [id]. *)
Definition cached (id : Z) (k : bytes) (b : Block.Block) : Prop :=
  ∀ i h B, hs !! i = Some h → Bs !! i = Some B → k = EncodeFixed64 id ++ EncodeFixed64 (offset_ h) → opens b B.
Definition wok (id : Z) (w : C) : Prop := has_cache = true → ca_ok (cached id) w.

(** The table that reads [u]. *)
Record reads (t : Table F) : Prop := {
  r_file : content (file t) u;
  r_index : opens (index_block t) (zip seps (henc <$> hs));
  r_filter P : filter_policy = Some P → ∃ fr, filter t = Some fr ∧ filters (enc := enc) (good := good) (same := same) P fr hs Bs
}.

Lemma offsets_inj i j h h' : hs !! i = Some h → hs !! j = Some h' → offset_ h = offset_ h' → i = j.
Proof.
  intros Hi Hj E. pose proof (proj1 (strongly_sorted_lookup _ _) (t_offsets _ _ _ _ _ _ HT)) as Ho. cbn in Ho.
  destruct (lt_eq_lt_dec i j) as [[Hlt|]|Hgt]; [|done|]; [specialize (Ho i j h h' Hlt Hi Hj)|specialize (Ho j i h' h Hgt Hj Hi)]; lia.
Qed.

Lemma block_stored i h : hs !! i = Some h → ∃ B raw, Bs !! i = Some B ∧ stored u h raw ∧ holds_block (enc := enc) (good := good) raw B ∧ handle_ok h.
Proof.
  intros Hi. destruct (Forall2_lookup_l _ _ _ _ _ (t_blocks _ _ _ _ _ _ HT) Hi) as (B & HB & raw & Hs & Hb). exists B, raw.
  destruct (stored_handle _ _ _ Hs). done.
Qed.

Lemma fixed64_inj x y : 0 ≤ x < 2 ^ 64 → 0 ≤ y < 2 ^ 64 → EncodeFixed64 x = EncodeFixed64 y → x = y.
Proof. intros Hx Hy E. pose proof (Fixed64_roundtrip x [] Hx) as D. rewrite E, (Fixed64_roundtrip y [] Hy) in D. by injection D. Qed.

Lemma fetch_ok t verify fill i h B w : reads t → hs !! i = Some h → Bs !! i = Some B → wok (cache_id t) w →
  ∃ b w', fetch addr has_cache verify fill t h w = Ok (sOK, Some b, w') ∧ wok (cache_id t) w' ∧ opens b B.
Proof.
  intros Hr Hi HB Hw. destruct (block_stored i h Hi) as (B' & raw & HB' & Hs & Hb & Hh). rewrite HB in HB'. injection HB' as <-.
  destruct (ReadBlock_ok addr content (file t) u h raw verify (r_file _ Hr) Hs) as (bc & ER & Ec). destruct (block_opens raw B Hb) as (b & Eb & Hop & Hsize).
  unfold fetch, wok in *. rewrite ER. rbind. change (ok sOK) with true. cbn iota. rewrite Ec, Eb. rbind. destruct has_cache; [|exists b, w; by rbind].
  specialize (Hw eq_refl). destruct (ca_lookup_law (cached (cache_id t)) (cache_key t h) w Hw) as (r & w1 & -> & Hw1 & Hfound). rbind.
  destruct r as [b0|]; [exists b0, w1; split; [done|]; split; [done|]; by eapply (Hfound b0 eq_refl)|]. rbind.
  destruct (cachable bc && fill); rbind; [|by exists b, w1].
  destruct (ca_insert_law (cached (cache_id t)) (cache_key t h) b (Block.size_ b) w1 Hw1) as (w2 & -> & Hw2); [|done|rbind; by exists b, w2].
  intros j h' B0 Hj HB0 Ek. apply app_inj_1 in Ek as [_ Ek]; [|done]. destruct (block_stored j h' Hj) as (_ & _ & _ & _ & _ & Hh').
  apply fixed64_inj in Ek; [|destruct Hh; lia|destruct Hh'; lia]. pose proof (offsets_inj i j h h' Hi Hj Ek) as ->. congruence.
Qed.

Lemma BlockReader_ok t verify fill i h B w : reads t → hs !! i = Some h → Bs !! i = Some B → wok (cache_id t) w →
  ∃ it w', BlockReader addr has_cache verify fill t (henc h) w = Ok (it, w') ∧ wok (cache_id t) w' ∧ BAt it B None.
Proof.
  intros Hr Hi HB Hw. unfold BlockReader. destruct (block_stored i h Hi) as (_ & _ & _ & _ & _ & Hh).
  rewrite <- (app_nil_r (henc h)), handle_decode by done. rbind. change (ok sOK) with true. cbn [negb].
  destruct (fetch_ok t verify fill i h B w Hr Hi HB Hw) as (b & w' & -> & Hw' & it & Eit & Hit). rbind. rewrite Eit. rbind. by exists it, w'.
Qed.

(** ** The index *)
Abbreviation XI := (zip seps (henc <$> hs)).

Lemma index_lookup i s v : XI !! i = Some (s, v) → seps !! i = Some s ∧ ∃ h, hs !! i = Some h ∧ v = henc h.
Proof. intros Hi. apply lookup_zip_with_Some in Hi as (s' & v' & [= -> ->] & Hs & Hv). split; [done|]. apply list_lookup_fmap_Some in Hv as (h & -> & Hh). eauto. Qed.

Lemma blocks_length : length hs = length Bs.
Proof. by eapply Forall2_length, (t_blocks _ _ _ _ _ _ HT). Qed.

Lemma block_order (a b : pair) l1 l2 : (∃ l, concat Bs = l1 ++ l2 ++ l) → a ∈ l1 → b ∈ l2 → cmp a.1 b.1 < 0.
Proof.
  intros [l E] Ha Hb. pose proof (t_sorted _ _ _ _ _ _ HT) as Hs. rewrite E, !fmap_app in Hs. unfold sorted in Hs. apply StronglySorted_app in Hs as (Hs & _ & _).
  apply Hs; [by apply (list_elem_of_fmap_2 fst)|]. apply elem_of_app. left. by apply (list_elem_of_fmap_2 fst).
Qed.

Lemma below_sep i s B e : seps !! i = Some s → Bs !! i = Some B → e ∈ B → cmp e.1 s ≤ 0.
Proof.
  intros Hs HB He. destruct (t_seps _ _ _ _ _ _ HT i s Hs) as (_ & B' & a & HB' & Ha & Has & _). rewrite HB in HB'. injection HB' as <-.
  apply last_Some in Ha as [l ->]. apply elem_of_app in He as [He| ->%list_elem_of_singleton]; [|done].
  pose proof (concat_split _ _ _ HB) as Ec. pose proof (t_sorted _ _ _ _ _ _ HT) as Hso. rewrite Ec, !fmap_app in Hso. unfold sorted in Hso.
  rewrite !StronglySorted_app in Hso. destruct Hso as (_ & _ & _ & (Hla & _ & _) & _). apply (ko_trans e.1 a.1 s); [|done].
  specialize (Hla e.1 a.1). cbn in Hla. assert (cmp e.1 a.1 < 0); [|lia]. apply Hla; [by apply (list_elem_of_fmap_2 fst)|set_solver].
Qed.

(** What follows the block [i] begins behind its key of the index. *)
Lemma after_sep i s e : seps !! i = Some s → e ∈ concat (drop (S i) Bs) → ∃ b, head (concat (drop (S i) Bs)) = Some b ∧ cmp s b.1 < 0 ∧ cmp b.1 e.1 ≤ 0.
Proof.
  intros Hs He. destruct (t_seps _ _ _ _ _ _ HT i s Hs) as (_ & B & a & HB & _ & _ & Hn). pose proof (concat_split _ _ _ HB) as Ec.
  destruct (concat (drop (S i) Bs)) as [|b l] eqn:El; [by apply elem_of_nil in He|]. exists b. split; [done|]. destruct (Hn b eq_refl) as [Hsb _]. split; [done|].
  apply elem_of_cons in He as [->|He]; [pose proof (ko_sym (cmp := cmp) b.1 b.1); lia|]. pose proof (t_sorted _ _ _ _ _ _ HT) as Hso. rewrite Ec, !fmap_app in Hso. unfold sorted in Hso.
  rewrite !StronglySorted_app in Hso. destruct Hso as (_ & _ & _ & _ & Hbl). cbn in Hbl. inversion Hbl as [|? ? _ Hall]; subst. rewrite Forall_forall in Hall.
  specialize (Hall e.1). cbn in Hall. assert (cmp b.1 e.1 < 0); [|lia]. apply Hall. by apply (list_elem_of_fmap_2 fst).
Qed.

Lemma above_sep i j s B e : (i < j)%nat → seps !! i = Some s → Bs !! j = Some B → e ∈ B → cmp s e.1 < 0.
Proof.
  intros Hij Hs HB He. destruct (after_sep i s e Hs) as (b & _ & Hsb & Hbe); [|by eapply ko_lt_le].
  apply list_elem_of_In, in_concat. exists B. split; apply list_elem_of_In; [|done]. apply (list_elem_of_lookup_2 _ (j - S i)). rewrite lookup_drop. by replace (S i + (j - S i))%nat with j by lia.
Qed.

Lemma table_indexes t verify fill : reads t → indexes (cmp := cmp) (AtJ := BAt) (BlockReader addr has_cache verify fill t) (wok (cache_id t)) XI Bs.
Proof.
  intros Hr. pose proof blocks_length as Hlen. pose proof (t_length _ _ _ _ _ _ HT) as Hlen'.
  assert (XI.*1 = seps) as E1 by (apply fst_zip; rewrite length_fmap; lia). assert (XI.*2 = henc <$> hs) as E2 by (apply snd_zip; rewrite length_fmap; lia). split.
  - rewrite length_zip_with, length_fmap. lia.
  - intros i [s v] B w Hi HB Hw. destruct (index_lookup i s v Hi) as (_ & h & Hh & ->). by eapply BlockReader_ok.
  - rewrite E2. apply NoDup_alt. intros i j x Hi Hj. apply list_lookup_fmap_Some in Hi as (h & -> & Hi), Hj as (h' & Eh & Hj).
    destruct (block_stored i h Hi) as (_ & _ & _ & _ & _ & Hh). destruct (block_stored j h' Hj) as (_ & _ & _ & _ & _ & Hh').
    apply henc_inj in Eh as <-; [|done..]. by eapply offsets_inj.
  - intros [s v] Hi. apply list_elem_of_lookup in Hi as [i Hi]. destruct (index_lookup i s v Hi) as (_ & h & _ & ->). cbn [snd]. pose proof (zlen_henc h). lia.
  - rewrite E1. apply strongly_sorted_lookup. intros i j s s' Hij Hi Hj. destruct (t_seps _ _ _ _ _ _ HT j s' Hj) as (_ & B & a & HB & Ha & Has & _).
    eapply ko_lt_le; [|exact Has]. eapply (above_sep i j); [done|done|exact HB|by apply last_Some_elem_of].
  - exact (t_sorted _ _ _ _ _ _ HT).
  - intros i [s v] B Hi HB. destruct (index_lookup i s v Hi) as (Hs & _). apply Forall_forall. intros e He. by eapply below_sep.
  - intros i j [s v] B Hij Hi HB. destruct (index_lookup i s v Hi) as (Hs & _). apply Forall_forall. intros e He.
    pose proof (above_sep i j s B e Hij Hs HB He). rewrite ko_sym. cbn. lia.
Qed.

(** The iterator of the table. *)
Lemma NewIterator_ok t verify fill w : reads t → wok (cache_id t) w → (length Bs + 1 < fuel)%nat →
  ∃ it, NewIterator t w = Ok it ∧ shows (HI := Table_Iter addr has_cache fuel verify fill t) enc cmp good it (concat Bs).
Proof.
  intros Hr Hw Hf. unfold NewIterator. destruct (r_index _ Hr) as (ii & -> & Hii). rbind.
  destruct (new_flat (HAI := block_laws (enc := enc) (cmp := cmp) (good := good)) (AtJ := BAt) (wok (cache_id t)) XI Bs ii w None Hii eq_refl Hw) as (tl & E & Hat).
  exists tl. split; [exact E|]. pose proof (two_level_laws (HAI := block_laws) (HAJ := block_laws) _ fuel _ _ _ (table_indexes t verify fill Hr) Hf) as HTL.
  apply (at_shows (HA := HTL) tl (concat Bs) None); [split; [done|exact Hat]|exact (t_sorted _ _ _ _ _ _ HT)].
Qed.

(** ** Opening *)
Lemma ReadMeta_ok f : content f u → ∃ fl, ReadMeta addr filter_policy f ft = Ok fl ∧
  ∀ P, filter_policy = Some P → ∃ fr, fl = Some fr ∧ filters (enc := enc) (good := good) (same := same) P fr hs Bs.
Proof.
  intros Hf. unfold ReadMeta. destruct filter_policy as [P|] eqn:EP; [|by exists None].
  destruct (t_filter _ _ _ _ _ _ HT P eq_refl) as (mraw & r & n & E & idx & fh & raw & fr & Hm & HB & Hs & Hfr & Hfil).
  destruct (ReadBlock_ok addr content f u _ _ false Hf Hm) as (bc & -> & Ec). rbind. change (ok sOK) with true. cbn iota. rewrite Ec.
  destruct (open_block _ _ _ _ _ _ HB) as (b & it & -> & Ei & Hat). rbind. rewrite Ei. rbind. set (key := str "filter." ++ fp_Name) in *.
  set (HBI := Block.Block_Iter (H := Bytewise)). set (g := λ k : bytes, zlen k < 2 ^ 31 - 8) in *.
  pose proof (block_laws (HC := Bytewise) (enc := id) (cmp := bcmp) (good := g)) as HBL. fold HBI in HBL.
  assert (g key) as Hg. { destruct HB as (_ & _ & HB). apply Forall_cons in HB as [HB _]. exact HB. }
  destruct (at_Seek id bcmp g it _ None key [] [(key, henc fh)] Hat Hg eq_refl) as (it' & Es & Hat').
  { constructor. } { repeat constructor. cbn. by rewrite bcmp_refl. }
  unfold id in Es. rewrite Es. rbind. change (place _ _) with (Some 0%nat) in Hat'. rewrite (at_Valid id bcmp g it' _ _ Hat'), bool_decide_true by done.
  rewrite (at_key id bcmp g it' _ 0 key (henc fh) Hat' eq_refl). rbind. rewrite bool_decide_true by done. rewrite (at_value id bcmp g it' _ 0 key (henc fh) Hat' eq_refl). rbind.
  unfold ReadFilter. destruct (stored_handle _ _ _ Hs) as [Hh _]. rewrite <- (app_nil_r (henc fh)), handle_decode by done. rbind. change (ok sOK) with true. cbn [negb].
  destruct (ReadBlock_ok addr content f u _ _ false Hf Hs) as (bc' & -> & Ec'). rbind. change (ok sOK) with true. cbn iota. rewrite Ec', Hfr. rbind.
  exists (Some fr). split; [done|]. intros P' [= <-]. by exists fr.
Qed.

(** The cache has nothing under the id that it gives next. *)
Definition fresh_id (w : C) : Prop := has_cache = true → ca_ok (λ k _, ∀ o, k ≠ EncodeFixed64 (ca_NewId w).1 ++ o) w.

Lemma Open_ok f w : content f u → fresh_id w →
  ∃ t w', Open addr filter_policy has_cache f (zlen u) w = Ok (sOK, Some t, w') ∧ reads t ∧ wok (cache_id t) w'.
Proof.
  intros Hf Hw. unfold Open. destruct (t_footer _ _ _ _ _ _ HT) as (v & d & Eu & Hd & Hdec). assert (zlen u = zlen v + kEncodedLength) as Ez by by rewrite Eu, zlen_app, Hd.
  pose proof (zlen_nonneg v). rewrite (proj2 (Z.ltb_ge _ _)) by lia. replace (zlen u - kEncodedLength) with (zlen v) by lia. rewrite <- Hd.
  rewrite (ra_read_law f v d []) by (by rewrite app_nil_r, <- Eu). rbind. change (ok sOK) with true. cbn [negb]. rewrite Hdec. rbind. change (ok sOK) with true. cbn [negb].
  destruct (t_index _ _ _ _ _ _ HT) as (raw & Hs & Hb). destruct (ReadBlock_ok addr content f u _ _ false Hf Hs) as (bc & -> & Ec). rbind. change (ok sOK) with true. cbn iota.
  destruct (block_opens raw XI Hb) as (b & Eb & Hop & _). rewrite Ec, Eb. rbind. destruct (ReadMeta_ok f Hf) as (fl & Efl & Hfl).
  destruct (if has_cache then ca_NewId w else (0, w)) as [id w'] eqn:Eid. rewrite Efl. rbind. eexists _, w'. split; [done|]. split; [by split|].
  cbn [cache_id]. intros Ecache. unfold fresh_id in Hw. rewrite Ecache in Eid. specialize (Hw Ecache). rewrite Eid in Hw. cbn [fst] in Hw.
  pose proof (ca_id_law _ w Hw) as Hw'. rewrite Eid in Hw'. cbn [snd] in Hw'. eapply ca_mono; [exact Hw'|]. intros k b' Hk i h B _ _ ->. by destruct (Hk (EncodeFixed64 (offset_ h))).
Qed.

(** ** Lookups *)

(** Behind the block [i], whose index key is at or behind [k], nothing is for
    [k] unless something of the block is at or behind [k] and for it. *)
Lemma behind_block i s B k e : seps !! i = Some s → Bs !! i = Some B → good k → cmp k s ≤ 0 → e ∈ concat (drop (S i) Bs) → same k e.1 →
  ∃ a, a ∈ B ∧ cmp k a.1 ≤ 0 ∧ same k a.1.
Proof.
  intros Hs HB Hk Hks He Hsame. destruct (t_seps _ _ _ _ _ _ HT i s Hs) as (Hg & B' & a & HB' & Ha & Has & Hn). rewrite HB in HB'. injection HB' as <-.
  destruct (after_sep i s e Hs He) as (b & Hb & Hsb & Hbe). destruct (Hn b Hb) as [_ Hno]. pose proof (ko_sym (cmp := cmp) a.1 k).
  assert (cmp k b.1 ≤ 0) as Hkb by (pose proof (ko_le_lt k s b.1 Hks Hsb); lia). pose proof (same_convex (cmp := cmp) k b.1 e.1 Hkb Hbe Hsame) as Hkb'.
  destruct (Z.lt_ge_cases (cmp a.1 k) 0) as [Hlt|Hge]; [by destruct (Hno k Hk Hlt Hks)|]. exists a. split; [by apply last_Some_elem_of|]. split; [lia|].
  apply (same_convex (cmp := cmp) k a.1 b.1); [lia| |done]. pose proof (ko_le_lt a.1 s b.1 Has Hsb). lia.
Qed.

(** What a lookup of [k] may answer. *)
Definition answers (L : list pair) (k : A) (r : option (bytes * bytes)) : Prop :=
  match r with
  | Some (bk, bv) => ∃ e, head (base.filter (λ e : pair, 0 ≤ cmp e.1 k) L) = Some e ∧ bk = enc e.1 ∧ bv = e.2
  | None => ∀ e, e ∈ L → 0 ≤ cmp e.1 k → ¬ same k e.1
  end.

(** The step of a lookup that asks the filter. *)
Lemma skip_ok t i h B k : reads t → hs !! i = Some h → Bs !! i = Some B → good k →
  ∃ skip, (match filter_policy, filter t with
           | Some P, Some fl =>
               '(s, h, _) ← handle_DecodeFrom (henc h);
               if ok s then m ← FilterBlock.KeyMayMatch (offset_ h) (enc k) fl; Ok (negb m) else Ok false
           | _, _ => Ok false
           end) = Ok skip ∧ (skip = true → ∀ e, e ∈ B → ¬ same k e.1).
Proof.
  intros Hr Hi HB Hk. destruct (block_stored i h Hi) as (B' & raw & HB' & _ & _ & Hh). rewrite HB in HB'. injection HB' as <-.
  destruct (last_nonempty B) as [a Ha]; [by apply (proj1 (Forall_lookup _ _) (t_nonempty _ _ _ _ _ _ HT) i B HB)|]. pose proof (r_filter _ Hr) as Hrf. clear HT Hr.
  destruct filter_policy as [P|] eqn:EP; [|exists false; by destruct (filter t)]. destruct (Hrf P eq_refl) as (fr & -> & Hf).
  rewrite <- (app_nil_r (henc h)), handle_decode by done. rbind. change (ok sOK) with true. cbn iota.
  destruct (Hf i h B a k Hi HB (last_Some_elem_of _ _ Ha) Hk) as (b & Eb & _). rewrite Eb. rbind. exists (negb b). split; [done|]. intros Hb e He Hs.
  destruct (Hf i h B e k Hi HB He Hk) as (b' & Eb' & Ht). rewrite Eb in Eb'. injection Eb' as <-. by rewrite Ht in Hb by (by eapply same_sym).
Qed.

Lemma InternalGet_ok t verify fill k w : reads t → wok (cache_id t) w → good k →
  ∃ r w', InternalGet addr filter_policy has_cache verify fill t (enc k) w = Ok (sOK, r, w') ∧ wok (cache_id t) w' ∧ answers (concat Bs) k r.
Proof.
  intros Hr Hw Hk. pose proof (table_indexes t verify fill Hr) as HX. pose proof (block_laws (enc := enc) (cmp := cmp) (good := good)) as HBL.
  unfold InternalGet. destruct (r_index _ Hr) as (ii & -> & Hii). rbind. destruct (key_sort XI k (x_sorted _ _ _ _ HX)) as (X1 & X2 & EX & H1 & H2).
  destruct (at_Seek enc cmp good ii XI None k X1 X2 Hii Hk EX H1 H2) as (ij & -> & Hij). rbind.
  rewrite (at_status enc cmp good ij _ _ Hij), (at_Valid enc cmp good ij _ _ Hij). pose proof (blocks_below _ _ XI Bs HX X1 X2 k EX H1) as Hbelow.
  assert (length XI = length Bs) as Elen by apply (x_length _ _ _ _ HX).
  destruct X2 as [|[s v] X2].
  - rewrite app_nil_r in EX. rewrite <- EX in *. destruct (place_cases (length XI) (length XI)) as [[]|[_ ->]]; [lia|]. rewrite bool_decide_false by (by intros []). rbind.
    exists None, w. split; [done|]. split; [done|]. rewrite take_ge in Hbelow by lia. intros e He Hge. rewrite Forall_forall in Hbelow. specialize (Hbelow e He). lia.
  - set (i := length X1) in *. assert (XI !! i = Some (s, v)) as Hi by (rewrite EX; by apply list_lookup_middle). destruct (index_lookup i s v Hi) as (Hs & h & Hh & ->).
    destruct (place_cases (length XI) i) as [[_ Ep]|[Hge _]]; [|apply lookup_lt_Some in Hi; lia]. rewrite Ep in *. rewrite bool_decide_true by done.
    rewrite (at_value enc cmp good ij _ i s (henc h) Hij Hi). rbind. destruct (block_stored i h Hh) as (B & _ & HB & _ & _ & _).
    apply Forall_cons in H2 as [Hsk _]. cbn [fst] in Hsk. assert (cmp k s ≤ 0) as Hks by (rewrite ko_sym; lia). pose proof (concat_split _ _ _ HB) as Ec.
    assert (∀ e, e ∈ concat (take i Bs) → cmp e.1 k < 0) as Hb1 by (by apply Forall_forall).
    destruct (skip_ok t i h B k Hr Hh HB Hk) as (skip & -> & Hskip). rbind. destruct skip; rbind.
    + exists None, w. split; [done|]. split; [done|]. intros e He Hge Hsame. rewrite Ec, !elem_of_app in He. destruct He as [He|[He|He]].
      * specialize (Hb1 e He). lia.
      * by apply (Hskip eq_refl e He).
      * destruct (behind_block i s B k e Hs HB Hk Hks He Hsame) as (a & Ha & _ & Hsa). by apply (Hskip eq_refl a Ha).
    + destruct (BlockReader_ok t verify fill i h B w Hr Hh HB Hw) as (b & w' & -> & Hw' & Hb). rbind.
      assert (sorted (cmp := cmp) B.*1) as HsB.
      { pose proof (t_sorted _ _ _ _ _ _ HT) as Hso. rewrite Ec, !fmap_app in Hso. unfold sorted in Hso. rewrite !StronglySorted_app in Hso. naive_solver. }
      destruct (key_sort B k HsB) as (B1 & B2 & EB & HB1 & HB2). destruct (at_Seek enc cmp good b B None k B1 B2 Hb Hk EB HB1 HB2) as (b' & -> & Hb'). rbind.
      rewrite (at_Valid enc cmp good b' _ _ Hb'), (at_status enc cmp good b' _ _ Hb'). destruct B2 as [|[ek ev] B2].
      * rewrite app_nil_r in EB. rewrite <- EB in *. destruct (place_cases (length B) (length B)) as [[]|[_ ->]]; [lia|]. rewrite bool_decide_false by (by intros []). rbind.
        exists None, w'. split; [done|]. split; [done|]. intros e He Hge Hsame. rewrite Forall_forall in HB1. rewrite Ec, !elem_of_app in He. destruct He as [He|[He|He]].
        -- specialize (Hb1 e He). lia.
        -- specialize (HB1 e He). lia.
        -- destruct (behind_block i s B k e Hs HB Hk Hks He Hsame) as (a & Ha & Hka & _). specialize (HB1 a Ha). rewrite ko_sym in Hka. lia.
      * assert (B !! length B1 = Some (ek, ev)) as Hlk by (rewrite EB; by apply list_lookup_middle).
        destruct (place_cases (length B) (length B1)) as [[_ Ep']|[Hge _]]; [|apply lookup_lt_Some in Hlk; lia]. rewrite Ep' in *. rewrite bool_decide_true by done.
        rewrite (at_key enc cmp good b' _ _ ek ev Hb' Hlk), (at_value enc cmp good b' _ _ ek ev Hb' Hlk). rbind.
        exists (Some (enc ek, ev)), w'. split; [done|]. split; [done|]. exists (ek, ev). split; [|done].
        apply Forall_cons in HB2 as [Hek HB2]. rewrite Ec, EB, <- app_assoc, app_assoc, filter_app, filter_none; [cbn [app]; by rewrite filter_cons_True|].
        apply Forall_app. split; (eapply Forall_impl; [eassumption|]); cbn; lia.
Qed.
End over.
End reading.

(** ** Tables give back what they were built from *)
Section tables.
Context {A : Type} {enc : A → bytes} {cmp : A → A → Z} {good : A → Prop} {same : A → A → Prop} {cost : Z}.
Context {HC : Comparator} {HL : ComparatorLaws enc cmp good} {HS : SameLaws enc cmp good same} (Hbytes : ∀ a, good a → Forall is_byte (enc a)).
Context (addr : bytes → Z) {HSn : Snappy} {HSL : SnappyLaws}.
Context {F : Type} {written : F → bytes → Prop} {HW : WritableFile F} {HWL : WritableLaws F written}.
Context {G : Type} {content : G → bytes → Prop} {HR : RandomAccessFile G} {HRL : RandomLaws G content}.
Context {C : Type} {HCa : Cache C Block.Block} {ca_ok : (bytes → Block.Block → Prop) → C → Prop} {HCL : CacheLaws C Block.Block ca_ok}.
Context (filter_policy : option FilterPolicy) (block_size interval : Z) (compress has_cache verify fill : bool) (fuel : nat) (Hint : 1 ≤ interval).
Context (Hfp : ∀ P, filter_policy = Some P → FilterLaws (H := P) enc good same cost) (Hcost : 0 ≤ cost).

Abbreviation make := (make_table (enc := enc) addr filter_policy block_size interval compress).
Abbreviation open := (Open addr filter_policy has_cache).
Abbreviation fresh := (fresh_id (ca_ok := ca_ok) has_cache).

Lemma blocks_le (Bs : list (list (A * bytes))) : Forall (λ B, B ≠ []) Bs → (length Bs ≤ length (concat Bs))%nat.
Proof. induction 1 as [|B Bs HB _ IH]; cbn; [lia|]. rewrite length_app. destruct B; [done|]. cbn. lia. Qed.

(** C6: A table that was built from sorted pairs, whatever the size of its
    blocks, its compression and its filter, is opened from the file, with or
    without a cache of blocks, and its iterator shows exactly these pairs, in
    order, backwards, and from any key that is sought. *)
Theorem table_roundtrip f L : written f [] → Forall (pair_ok (good := good)) L → sorted (cmp := cmp) L.*1 → total (enc := enc) (cost := cost) L < 2 ^ 31 →
  (length L + 1 < fuel)%nat →
  ∃ r u, make f L = Ok (sOK, r) ∧ written (TableBuilder.file r) u ∧ TableBuilder.FileSize r = zlen u ∧
    ∀ g w, content g u → fresh w →
      ∃ t w' it, open g (TableBuilder.FileSize r) w = Ok (sOK, Some t, w') ∧ NewIterator t w' = Ok it ∧
        shows (HI := Table_Iter addr has_cache fuel verify fill t) enc cmp good it L.
Proof.
  intros Hf Hp Hs Ht Hfuel. destruct (make_table_ok Hbytes addr filter_policy block_size interval compress Hint Hfp Hcost f L Hf Hp Hs Ht) as (r & u & Bs & hs & seps & ft & E & Hw & Hz & HT & EL).
  exists r, u. split; [done|]. split; [done|]. split; [done|]. intros g w Hg Hfr. rewrite Hz.
  destruct (Open_ok addr filter_policy has_cache u Bs hs seps ft HT g w Hg Hfr) as (t & w' & Eo & Hr & Hw'). exists t, w'.
  destruct (NewIterator_ok addr filter_policy has_cache fuel u Bs hs seps ft HT t verify fill w' Hr Hw') as (it & Ei & Hsh).
  - pose proof (blocks_le Bs (t_nonempty _ _ _ _ _ _ HT)). rewrite EL in *. lia.
  - exists it. rewrite EL in Hsh. done.
Qed.

End tables.

(** ** Examples *)
Section examples.

Definition good_key : bytes * Z → Prop := byte_key ikey key_ok.
#[local] Instance key_laws : ComparatorLaws (H := InternalKeys) ikey icmp good_key := byte_laws (H := InternalKeys) internal_laws internal_bytes.
#[local] Instance key_same : SameLaws (H := InternalKeys) ikey icmp good_key (λ a b, a.1 = b.1) := byte_same (H := InternalKeys) internal_same.

(** A new cache gives its first id to nothing it holds. *)
Lemma new_cache_fresh capacity : 0 ≤ capacity < 2 ^ 34 → ∃ w, LruCache.NewLRUCache capacity = Ok w ∧ fresh_id (ca_ok := lru_ok) true w.
Proof. intros Hc. destruct (NewLRUCache_ok (V := Block.Block) capacity Hc) as (w & E & _ & Hw). exists w. split; [done|]. intros _. apply Hw. Qed.

Definition bloom : FilterPolicy := InternalPolicy (BloomFilter.Policy 10).
Lemma bloom_good P : Some bloom = Some P → FilterLaws (H := P) ikey good_key (λ a b, a.1 = b.1) 10.
Proof.
  intros [= <-]. unfold bloom. pose proof (BloomSpec.bloom_laws 10 ltac:(lia)) as HB. pose proof (internal_policy_laws (BloomFilter.Policy 10) (λ _, True) 10) as HI.
  eapply filter_restrict; [exact HI|]. intros a [? _]. by split.
Qed.

Definition versions : list ((bytes * Z) * bytes) :=
  [((str "apple", tag 7 kTypeValue), str "new"); ((str "apple", tag 3 kTypeValue), str "old"); ((str "bat", tag 5 kTypeDeletion), [])].
Lemma versions_ok : Forall (pair_ok (good := good_key)) versions ∧ sorted (cmp := icmp) versions.*1.
Proof. split; repeat constructor; vm_compute; done. Qed.

Lemma table_roundtrip_witness : sorted (cmp := icmp) versions.*1 ∧
  ∃ r u, make_table (HC := InternalKeys) (H := no_snappy) (enc := ikey) (λ _, 0) (Some bloom) 20 2 true ([] : bytes) versions = Ok (sOK, r) ∧ TableBuilder.file r = u ∧ TableBuilder.FileSize r = zlen u ∧
    ∀ g w, g = u → fresh_id (ca_ok := lru_ok) true w →
      ∃ t w' it, Open (H := no_snappy) (λ _, 0) (Some bloom) true g (TableBuilder.FileSize r) w = Ok (sOK, Some t, w') ∧ NewIterator (HC := InternalKeys) t w' = Ok it ∧
        shows (HI := Table_Iter (HC := InternalKeys) (H := no_snappy) (λ _, 0) true 10 true true t) ikey icmp good_key it versions.
Proof.
  destruct versions_ok as [Hp Hs]. split; [exact Hs|].
  apply (table_roundtrip (HC := InternalKeys) (HSn := no_snappy) (written := eq) (content := eq) (ca_ok := lru_ok) (cost := 10) (λ a H, proj2 H) (λ _, 0) (Some bloom) 20 2 true true true true 10
    ltac:(lia) bloom_good ltac:(lia) [] versions eq_refl Hp Hs); [vm_compute; reflexivity|cbn; lia].
Defined.


(** The size of a block in a damaged handle wraps around when the trailer is
    added: the read of no bytes is taken for complete, and the type of the
    block is read far outside. *)
Lemma block_size_wraps (f : bytes) : ReadBlock (H0 := no_snappy) (λ _, 0) f false {| offset_ := 0; size_ := 2 ^ 64 - 5 |} = Fault OutOfBounds.
Proof. unfold ReadBlock. cbn [ra_Read bytes_RandomAccess offset_ size_]. change (u64 (2 ^ 64 - 5 + kBlockTrailerSize)) with 0. reflexivity. Qed.

(** A file that is shorter than its recorded size gives a short footer, whose
    magic number is read behind its end. *)
Lemma short_footer_unchecked : (w ← LruCache.NewLRUCache 1024; Open (H := no_snappy) (λ _, 0) None false (str "short") 48 w) = Fault OutOfBounds.
Proof. vm_compute. reflexivity. Qed.
End examples.
