(* ===== verification/DbRead.v ===== *)
(** * The read path of LevelDB (theorems about Version.v; [DBImpl::Get] of
    pack/leveldb/db/db_impl.cc)

    A lookup asks the memtable, the memtable that is being written out, and
    the tables of the current version, in this order, at a snapshot.
    Over tables that hold what their metadata says, a lookup in a version
    gives the newest entry of a key up to a sequence number, as long as newer
    entries lie in earlier levels and, in level 0, in files with larger
    numbers. *)

From stdpp Require Import sorting.
From S2P Require Import Prelude Cstd Cmem Coding Status DbFormat Iter Comparator SkipList MemTable VersionEdit Version.
Import VersionEdit Version.

Lemma elem_of_concat {X} (x : X) (LL : list (list X)) : x ∈ concat LL ↔ ∃ l, l ∈ LL ∧ x ∈ l.
Proof. rewrite list_elem_of_In, in_concat. split; intros (l & H1 & H2); exists l; by rewrite ?list_elem_of_In in *. Qed.

Implicit Types (L : list entry) (u : bytes) (s : Z) (e : entry).

(** ** Layers

    Lists of entries, the newer ones first. *)
Definition above L L' : Prop := ∀ e e', e ∈ L → e' ∈ L' → e.1.1 = e'.1.1 → e'.1.2 < e.1.2.
Definition layered (LL : list (list entry)) : Prop := StronglySorted above LL.

(** The entry of the first layer that has one for the key. *)
Definition first_found (LL : list (list entry)) u s (r : option entry) : Prop :=
  match r with
  | Some e => ∃ A L B, LL = A ++ L :: B ∧ Forall (λ L, absent L u s) A ∧ newest L u s e
  | None => Forall (λ L, absent L u s) LL
  end.

Lemma first_newest LL u s e : layered LL → first_found LL u s (Some e) → newest (concat LL) u s e.
Proof.
  intros Hl (A & L & B & -> & HA & (He & Hu & Ht & Hmax)). apply StronglySorted_app in Hl as (_ & _ & Hl). apply StronglySorted_cons in Hl as [Hab _]. rewrite Forall_forall in HA, Hab.
  split; [apply elem_of_concat; exists L; split; [set_solver|done]|]. split; [done|]. split; [done|]. intros e' He' Hu' Ht'. apply elem_of_concat in He' as (L' & HL' & He').
  apply elem_of_app in HL' as [HL'|[->|HL']%elem_of_cons]; [|by apply Hmax|].
  - specialize (HA L' HL' e' He' Hu'). lia.
  - specialize (Hab L' HL' e e' He He' ltac:(congruence)). lia.
Qed.
Lemma first_absent LL u s : first_found LL u s None → absent (concat LL) u s.
Proof. intros H e He Hu. apply elem_of_concat in He as (L & HL & He). unfold first_found in H. rewrite Forall_forall in H. by apply (H L HL). Qed.

Lemma first_single L u s e : first_found [L] u s (Some e) ↔ newest L u s e.
Proof.
  split; [|intros Hn; by exists [], L, []]. intros (A & L0 & B & E & _ & Hn). destruct A as [|x A]; [by injection E as <- <-|]. injection E as _ E. by destruct A.
Qed.
Lemma first_none L u s : first_found [L] u s None ↔ absent L u s.
Proof. unfold first_found. by rewrite Forall_singleton. Qed.
Lemma first_nil u s e : ¬ first_found [] u s (Some e).
Proof. intros (A & L & B & E & _). by destruct A. Qed.
Lemma absent_nil u s : absent [] u s.
Proof. by intros e ?%elem_of_nil. Qed.

(** What a lookup answers for an entry. *)
Definition entry_type (e : entry) : bool := Z.odd e.1.2.
Definition answer (r : option entry) : Status * option bytes :=
  match r with Some e => if entry_type e then (sOK, Some e.2) else (NotFound [], None) | None => (NotFound [], None) end.

Lemma tag_odd s t : Z.odd (tag s t) = match t with kTypeValue => true | kTypeDeletion => false end.
Proof.
  unfold tag. rewrite Z.odd_add, Z.odd_mul. change (Z.odd 256) with false. rewrite andb_false_r. by destruct t.
Qed.

(** ** Files *)
Record file_of (f : FileMetaData) L : Prop := {
  fo_sorted : sorted (cmp := icmp) L.*1;
  fo_ok : Forall (λ e, key_ok e.1 ∧ typed e) L;
  fo_ends : ∃ a b, head L = Some a ∧ last L = Some b ∧ smallest f = ikey a.1 ∧ largest f = ikey b.1
}.

(** What a table answers to a lookup: the first entry at or behind the key,
    or nothing where no such entry is for it. *)
Definition table_answers L (k : bytes * Z) (r : option (bytes * bytes)) : Prop :=
  match r with
  | Some (bk, bv) => ∃ e, head (filter (λ e : entry, 0 ≤ icmp e.1 k) L) = Some e ∧ bk = ikey e.1 ∧ bv = e.2
  | None => ∀ e, e ∈ L → 0 ≤ icmp e.1 k → k.1 ≠ e.1.1
  end.

(** [table_at w n size L]: the file [n] of [size] bytes is a table of [L]. *)
Class TablesLaws (T : Type) `{Tables T} (table_at : T → Z → Z → list entry → Prop) : Prop := {
  tc_get_law w n size L k : table_at w n size L → key_ok k →
    ∃ a w', tc_Get n size (ikey k) w = Ok (sOK, a, w') ∧ table_answers L k a ∧ ∀ n' size' L', table_at w n' size' L' → table_at w' n' size' L'
}.

Lemma icmp_user a b : icmp a b ≤ 0 → bcmp a.1 b.1 ≤ 0.
Proof. unfold icmp. destruct (Z.eqb_spec (bcmp a.1 b.1) 0); lia. Qed.

Lemma ends_bound L a b e : sorted (cmp := icmp) L.*1 → head L = Some a → last L = Some b → e ∈ L → icmp a.1 e.1 ≤ 0 ∧ icmp e.1 b.1 ≤ 0.
Proof.
  intros Hs Ha Hb He. assert (∀ x, icmp x x = 0) as Hr by (intros x; by apply icmp_eq). unfold sorted in Hs. split.
  - destruct L as [|x L]; [done|]. injection Ha as ->. cbn in Hs. apply StronglySorted_cons in Hs as [Hall _]. apply elem_of_cons in He as [->|He]; [by rewrite Hr|].
    rewrite Forall_fmap, Forall_forall in Hall. specialize (Hall e He). cbn in Hall. lia.
  - apply last_Some in Hb as [L' ->]. rewrite fmap_app in Hs. apply StronglySorted_app in Hs as (Hx & _). apply elem_of_app in He as [He|He%list_elem_of_singleton]; [|subst; by rewrite Hr].
    specialize (Hx e.1 b.1 (list_elem_of_fmap_2 fst _ _ He) ltac:(cbn; set_solver)). cbn in Hx. lia.
Qed.

Section file.
Context (f : FileMetaData) L (Hf : file_of f L).

Lemma file_user e : e ∈ L → ∃ a b, ExtractUserKey (smallest f) = Ok a ∧ ExtractUserKey (largest f) = Ok b ∧ bcmp a e.1.1 ≤ 0 ∧ bcmp e.1.1 b ≤ 0.
Proof.
  intros He. destruct (fo_ends _ _ Hf) as (a & b & Ha & Hb & -> & ->). destruct (ends_bound L a b e (fo_sorted _ _ Hf) Ha Hb He) as [H1 H2]. exists a.1.1, b.1.1.
  rewrite !ExtractUserKey_ikey. split; [done|]. split; [done|]. split; by apply icmp_user.
Qed.

Lemma file_ends : ∃ a b, a ∈ L ∧ b ∈ L ∧ smallest f = ikey a.1 ∧ largest f = ikey b.1 ∧ key_ok a.1 ∧ key_ok b.1 ∧ ∀ e, e ∈ L → icmp a.1 e.1 ≤ 0 ∧ icmp e.1 b.1 ≤ 0.
Proof.
  destruct (fo_ends _ _ Hf) as (a & b & Ha & Hb & E1 & E2). exists a, b. assert (a ∈ L) as Hin by (destruct L; [done|injection Ha as ->; set_solver]).
  assert (b ∈ L) as Hin' by (apply last_Some in Hb as [L' ->]; set_solver). pose proof (fo_ok _ _ Hf) as Hok. rewrite Forall_forall in Hok.
  repeat (split; [done|]). split; [by apply Hok|]. split; [by apply Hok|]. intros e He. by apply (ends_bound L a b e (fo_sorted _ _ Hf)).
Qed.
End file.

(** ** One table *)
Section lookup.
Context u s (Hu : zlen u < 2 ^ 31 - 8) (Hs : 0 ≤ s < 2 ^ 56).
Abbreviation target := (u, tag s kTypeValue).

Lemma target_ok : key_ok target.
Proof. split; [done|by apply tag_range]. Qed.

Lemma SaveValue_ok e : key_ok e.1 → typed e → SaveValue u (ikey e.1) e.2 =
  Ok (if bool_decide (e.1.1 = u) then if entry_type e then (kFound, Some e.2) else (kDeleted, None) else (kNotFound, None)).
Proof.
  intros [Hk _] (s' & t & Et & Hs'). destruct e as [[k n] v]. cbn [fst snd] in *. subst n. unfold SaveValue, entry_type. rewrite parse_ikey by done. rbind. cbn [user_key type fst snd].
  rewrite Slice_compare_ok by lia. rbind. rewrite tag_odd. destruct (Z.eqb_spec (bcmp k u) 0) as [E%bcmp_eq|E]; [rewrite bool_decide_true by done|rewrite bool_decide_false by (by intros ->; rewrite bcmp_refl in E)]; by destruct t.
Qed.

Definition saved (a : option (bytes * bytes)) : result (SaverState * option bytes) := match a with Some (k, v) => SaveValue u k v | None => Ok (kNotFound, None) end.

Lemma table_lookup_cases L a : sorted (cmp := icmp) L.*1 → Forall (λ e, key_ok e.1 ∧ typed e) L → table_answers L target a →
  (∃ e, newest L u s e ∧ saved a = Ok (if entry_type e then (kFound, Some e.2) else (kDeleted, None))) ∨ (absent L u s ∧ saved a = Ok (kNotFound, None)).
Proof.
  intros Hsort Hok Ha. assert (StronglySorted (λ a b : entry, icmp a.1 b.1 < 0) L) as Hss.
  { unfold sorted in Hsort. apply strongly_sorted_lookup. intros i j x y Hij Hx Hy. eapply (proj1 (strongly_sorted_lookup _ _) Hsort i j); [done|by rewrite list_lookup_fmap, Hx|by rewrite list_lookup_fmap, Hy]. }
  destruct (sorted_split (cmp := λ a b : entry, icmp a.1 b.1) L (target, []) Hss) as (L1 & L2 & EL & H1 & H2). cbn in H1, H2.
  destruct (found_newest L L1 L2 u s Hss EL H1 H2) as [(e & rest & -> & Hn)|[Habs Hne]]; rewrite Forall_forall in Hok.
  - left. exists e. split; [done|]. destruct Hn as (He & Eu & _). destruct (Hok e He) as [Hk Ht]. apply Forall_cons in H2 as [Hge H2]. cbn in Hge. destruct a as [[bk bv]|]; [|by destruct (Ha e He Hge)].
    destruct Ha as (x & Hx & -> & ->). rewrite EL, filter_split in Hx; [|eapply Forall_impl; [exact H1|]; cbn; lia|by constructor]. injection Hx as <-. cbn [saved]. rewrite SaveValue_ok by done. by rewrite bool_decide_true.
  - right. split; [done|]. destruct a as [[bk bv]|]; [|done]. destruct Ha as (x & Hx & -> & ->). rewrite EL, filter_split in Hx; [|eapply Forall_impl; [exact H1|]; cbn; lia|done].
    destruct L2 as [|y L2]; [done|]. injection Hx as ->. destruct (Hok x) as [Hk Ht]; [rewrite EL; set_solver|]. cbn [saved]. rewrite SaveValue_ok by done. rewrite bool_decide_false by (by eapply Hne). done.
Qed.

Context {T : Type} `{HT : Tables T} {table_at : T → Z → Z → list entry → Prop} {HTL : TablesLaws T table_at}.

Definition tables_in (w : T) (fs : list FileMetaData) (LL : list (list entry)) : Prop := Forall2 (λ f L, file_of f L ∧ table_at w (number f) (file_size f) L) fs LL.
Definition kept (w w' : T) : Prop := ∀ n size L, table_at w n size L → table_at w' n size L.
Lemma tables_kept w w' fs LL : kept w w' → tables_in w fs LL → tables_in w' fs LL.
Proof. intros Hk H. eapply Forall2_impl; [exact H|]. cbn. intros f L [? ?]. split; [done|by apply Hk]. Qed.

Lemma search_files_ok level fs LL : ∀ st w, tables_in w fs LL →
  ∃ r st' w' o, search_files u (ikey target) level fs st w = Ok (r, st', w') ∧ kept w w' ∧ first_found LL u s o ∧ r = match o with Some _ => Some (answer o) | None => None end.
Proof.
  intros st w H. revert st w H. revert LL. induction fs as [|f fs IH]; intros LL st w H.
  - apply Forall2_nil_inv_l in H as ->. exists None, st, w, None. split; [done|]. split; [by intros n size L|]. split; [apply Forall_nil_2|done].
  - apply Forall2_cons_inv_l in H as (L & LL' & [Hf Ht] & H & ->). cbn [search_files]. destruct (tc_get_law w (number f) (file_size f) L target Ht target_ok) as (a & w1 & -> & Ha & Hk). rbind.
    change (match a with Some (k, v) => SaveValue u k v | None => Ok (kNotFound, None) end) with (saved a).
    destruct (table_lookup_cases L a (fo_sorted _ _ Hf) (fo_ok _ _ Hf) Ha) as [(e & Hn & ->)|[Habs ->]]; rbind; cbn [ok sOK negb].
    + exists (Some (answer (Some e))). eexists _, w1, (Some e). split; [unfold answer; by destruct (entry_type e)|]. split; [done|]. split; [|done]. by exists [], L, LL'.
    + destruct (IH LL' (charge level f st) w1) as (r & st' & w' & o & -> & Hk' & Ho & ->); [by eapply tables_kept|]. eexists _, st', w', o. split; [done|]. split; [by intros n size L0 ?; apply Hk', Hk|]. split; [|done].
      destruct o as [e|]; [|by constructor]. destruct Ho as (A & L0 & B & -> & HA & Hn). exists (L :: A), L0, B. split; [done|]. split; [by constructor|done].
Qed.

(** ** The file of a sorted level *)
Lemma find_loop_ok fuel : ∀ fs B1 B2 (k : bytes * Z) l r, Forall2 (λ f b, largest f = ikey b ∧ key_ok b) fs (B1 ++ B2) → key_ok k → zlen fs < 2 ^ 31 →
  Forall (λ b, icmp b k < 0) B1 → Forall (λ b, 0 ≤ icmp b k) B2 → 0 ≤ l ≤ zlen B1 → zlen B1 ≤ r ≤ zlen fs → r - l < Z.of_nat fuel →
  find_loop fuel fs (ikey k) l r = Ok (zlen B1).
Proof.
  induction fuel as [|fuel IH]; intros fs B1 B2 k l r HB Hk Hz H1 H2 Hl Hr Hf; [lia|]. cbn [find_loop]. destruct (Z.ltb_spec l r) as [Hlt|Hge]; [|f_equal; lia].
  rewrite u32_small by lia. assert (l ≤ (l + r) / 2 < r) as Hm by (split; [apply Z.div_le_lower_bound; lia|apply Z.div_lt_upper_bound; lia]). set (mid := (l + r) / 2) in *.
  destruct (lookup_lt_is_Some_2 fs (Z.to_nat mid)) as [f Ef]; [unfold zlen in *; lia|]. rewrite Ef. destruct (Forall2_lookup_l _ _ _ _ _ HB Ef) as (b & Eb & El & Hb).
  unfold InternalKey_Encode. rewrite El, zlen_ikey, (proj2 (Z.eqb_neq _ _)) by zlia. rbind. rewrite InternalCompare_ok by done. rbind.
  apply lookup_app_Some in Eb as [Eb|[Hge Eb]].
  - pose proof (proj1 (Forall_lookup _ _) H1 _ _ Eb) as Hc. cbn in Hc. apply lookup_lt_Some in Eb. rewrite (proj2 (Z.ltb_lt _ _)) by done. rewrite u32_small by lia. apply (IH fs B1 B2); try done; unfold zlen in *; lia.
  - pose proof (proj1 (Forall_lookup _ _) H2 _ _ Eb) as Hc. cbn in Hc. rewrite (proj2 (Z.ltb_ge _ _)) by done. apply (IH fs B1 B2); try done; unfold zlen in *; lia.
Qed.

Definition largest_keys (fs : list FileMetaData) (LL : list (list entry)) (B : list (bytes * Z)) : Prop :=
  Forall2 (λ f b, largest f = ikey b ∧ key_ok b) fs B ∧ Forall2 (λ L b, ∃ e, e ∈ L ∧ e.1 = b ∧ ∀ x, x ∈ L → icmp x.1 b ≤ 0) LL B.

Lemma level_keys fs LL : Forall2 file_of fs LL → ∃ B, largest_keys fs LL B.
Proof.
  induction 1 as [|f L fs LL Hf _ [B [H1 H2]]]; [exists []; split; constructor|]. destruct (file_ends f L Hf) as (a & b & _ & Hb & _ & El & _ & Hkb & Hall).
  exists (b.1 :: B). split; constructor; [done|done| |done]. exists b. split; [done|]. split; [done|]. intros x Hx. by apply Hall.
Qed.

Lemma later_files (LL : list (list entry)) i j L L' e e' : sorted (cmp := icmp) (concat LL).*1 → LL !! i = Some L → LL !! j = Some L' → (i < j)%nat → e ∈ L → e' ∈ L' → icmp e.1 e'.1 < 0.
Proof.
  intros Hso Hi Hj Hij He He'. rewrite <- (take_drop_middle LL i L Hi), concat_app, fmap_app in Hso. cbn in Hso. rewrite fmap_app in Hso. unfold sorted in Hso.
  apply StronglySorted_app in Hso as (_ & _ & Hso). apply StronglySorted_app in Hso as (Hx & _ & _). apply Hx; [by apply (list_elem_of_fmap_2 fst)|]. apply (list_elem_of_fmap_2 fst), elem_of_concat. exists L'. split; [|done].
  apply (list_elem_of_lookup_2 _ (j - S i)). rewrite lookup_drop. by replace (S i + (j - S i))%nat with j by lia.
Qed.

Lemma keys_sorted fs LL B : largest_keys fs LL B → sorted (cmp := icmp) (concat LL).*1 → sorted (cmp := icmp) B.
Proof.
  intros [_ HB] Hso. apply strongly_sorted_lookup. intros i j x y Hij Hi Hj. destruct (Forall2_lookup_r _ _ _ _ _ HB Hi) as (L & HL & e & He & <- & _), (Forall2_lookup_r _ _ _ _ _ HB Hj) as (L' & HL' & e' & He' & <- & _).
  by eapply (later_files LL i j).
Qed.

(** An entry for the key below the target is none that is looked for. *)
Lemma below_absent L : (∀ e, e ∈ L → icmp e.1 target < 0) → absent L u s.
Proof.
  intros H e He Eu. specialize (H e He). unfold icmp in H. cbn in H. rewrite Eu, bcmp_refl in H. cbn in H. destruct (Z.ltb_spec (tag s kTypeValue) e.1.2); [done|]. destruct (Z.ltb_spec e.1.2 (tag s kTypeValue)); lia.
Qed.
Lemma behind_absent L : (∀ e, e ∈ L → bcmp u e.1.1 < 0) → absent L u s.
Proof. intros H e He Eu. specialize (H e He). rewrite Eu, bcmp_refl in H. lia. Qed.

(** The one file that may hold the key decides for the level. *)
Lemma FindFile_ok fs LL : Forall2 file_of fs LL → sorted (cmp := icmp) (concat LL).*1 → zlen fs < 2 ^ 31 →
  ∃ i, FindFile fs (ikey target) = Ok (Z.of_nat i) ∧ (i ≤ length fs)%nat ∧
    (∀ j L, LL !! j = Some L → (j < i)%nat → absent L u s) ∧ (∀ L, LL !! i = Some L → ∃ e, e ∈ L ∧ 0 ≤ icmp e.1 target).
Proof.
  intros Hf Hso Hz. destruct (level_keys fs LL Hf) as [B HB]. pose proof (keys_sorted fs LL B HB Hso) as HBs. destruct HB as [HB1 HB2].
  destruct (sorted_split B target HBs) as (B1 & B2 & -> & H1 & H2). exists (length B1). pose proof (Forall2_length _ _ _ HB1) as Hlen. rewrite length_app in Hlen.
  unfold FindFile. rewrite u32_small by zlia. rewrite (find_loop_ok _ fs B1 B2); try done; [|apply target_ok|unfold zlen; lia|unfold zlen; lia|unfold zlen; lia].
  split; [done|]. split; [lia|]. split.
  - intros j L HL Hj. apply below_absent. intros e He. destruct (Forall2_lookup_l _ _ _ _ _ HB2 HL) as (b & Hb & x & Hx & <- & Hall). rewrite lookup_app_l in Hb by lia. rewrite Forall_lookup in H1. specialize (H1 _ _ Hb). cbn in H1.
    exact (ko_le_lt (cmp := icmp) e.1 x.1 target (Hall e He) H1).
  - intros L HL. destruct (Forall2_lookup_l _ _ _ _ _ HB2 HL) as (b & Hb & x & Hx & <- & Hall). exists x. split; [done|]. rewrite lookup_app_r, Nat.sub_diag in Hb by done. destruct B2; [done|]. injection Hb as ->. by apply Forall_cons in H2 as [? _].
Qed.

(** What is searched in a level decides for the level. *)
Definition decides (w : T) (fs : list FileMetaData) (LL : list (list entry)) (L : list entry) : Prop := tables_in w fs LL ∧ ∀ o, first_found LL u s o → first_found [L] u s o.

Lemma tables_files w fs LL : tables_in w fs LL → Forall2 file_of fs LL.
Proof. intros H. eapply Forall2_impl; [exact H|]. by intros f L [? _]. Qed.

Lemma deep_ok level w fs LL : tables_in w fs LL → sorted (cmp := icmp) (concat LL).*1 → zlen fs < 2 ^ 31 →
  ∃ fs' LL', to_search (S level) fs (ikey target) u = Ok fs' ∧ decides w fs' LL' (concat LL).
Proof.
  intros Ht Hso Hz. pose proof (tables_files _ _ _ Ht) as Hf. cbn [to_search]. destruct (Z.eqb_spec (zlen fs) 0) as [E|E].
  { apply zlen_0_inv in E as ->. apply Forall2_nil_inv_l in Hf as ->. exists [], []. split; [done|]. split; [constructor|]. intros [e|] Ho; [by apply first_nil in Ho|]. apply first_none, absent_nil. }
  destruct (FindFile_ok fs LL Hf Hso Hz) as (i & -> & Hi & Hbefore & Hat). rbind. destruct (Z.leb_spec (zlen fs) (Z.of_nat i)) as [Hge|Hlt].
  - exists [], []. split; [done|]. split; [constructor|]. intros [e|] Ho; [by apply first_nil in Ho|]. apply first_none. intros e He. apply elem_of_concat in He as (L & HL & He). apply list_elem_of_lookup in HL as [j Hj].
    eapply (Hbefore j); [done| |done]. apply lookup_lt_Some in Hj. rewrite <- (Forall2_length _ _ _ Hf) in Hj. unfold zlen in Hge. lia.
  - destruct (lookup_lt_is_Some_2 fs i) as [f Ef]; [unfold zlen in Hlt; lia|]. rewrite Nat2Z.id, Ef. destruct (Forall2_lookup_l _ _ _ _ _ Ht Ef) as (L & HL & Hfile & Htab).
    destruct (Hat L HL) as (b & Hb & Hbt). assert (∀ o, first_found [L] u s o → first_found [concat LL] u s o) as Hone.
    { intros [e|] Ho.
      - apply first_single in Ho as (He & Eu & Et & Hmax). apply first_single. split; [apply elem_of_concat; exists L; split; [by eapply list_elem_of_lookup_2|done]|]. split; [done|]. split; [done|]. intros e' He' Eu' Et'.
        apply elem_of_concat in He' as (L' & HL' & He'). apply list_elem_of_lookup in HL' as [j Hj]. destruct (lt_eq_lt_dec j i) as [[Hji| ->]|Hji].
        + specialize (Hbefore j L' Hj Hji e' He' Eu'). lia.
        + rewrite HL in Hj. injection Hj as <-. by apply Hmax.
        + pose proof (later_files LL i j L L' e e' Hso HL Hj Hji He He') as Hc. unfold icmp in Hc. rewrite Eu, Eu', bcmp_refl in Hc. cbn in Hc. destruct (Z.ltb_spec e'.1.2 e.1.2); [lia|]. destruct (Z.ltb_spec e.1.2 e'.1.2); lia.
      - rewrite first_none in Ho |- *. intros e' He' Eu'. apply elem_of_concat in He' as (L' & HL' & He'). apply list_elem_of_lookup in HL' as [j Hj]. destruct (lt_eq_lt_dec j i) as [[Hji| ->]|Hji].
        + by eapply (Hbefore j).
        + rewrite HL in Hj. injection Hj as <-. by apply Ho.
        + exfalso. pose proof (later_files LL i j L L' b e' Hso HL Hj Hji Hb He') as Hc. destruct (decide (b.1.1 = u)) as [Ebu|Ebu].
          * specialize (Ho b Hb Ebu). unfold icmp in Hbt. cbn in Hbt. rewrite Ebu, bcmp_refl in Hbt. cbn in Hbt. destruct (Z.ltb_spec (tag s kTypeValue) b.1.2); lia.
          * assert (bcmp u b.1.1 ≤ 0) as H1 by (apply (icmp_user target b.1); rewrite icmp_sym; lia). assert (bcmp b.1.1 u ≤ 0) as H2 by (rewrite <- Eu'; apply icmp_user; lia).
            apply Ebu, bcmp_eq. pose proof (bcmp_sym u b.1.1). lia. }
    destruct (file_ends f L Hfile) as (a & b0 & Ha & _ & -> & _ & Hka & _ & Hall). rewrite ExtractUserKey_ikey. rbind. rewrite Slice_compare_ok by (destruct Hka; lia). rbind. destruct (Z.ltb_spec (bcmp u a.1.1) 0) as [Hlow|_].
    + exists [], []. split; [done|]. split; [constructor|]. intros [e|] Ho; [by apply first_nil in Ho|]. apply Hone, first_none, behind_absent. intros e He.
      apply (ko_lt_le (cmp := bcmp) u a.1.1 e.1.1); [done|]. apply icmp_user. by apply Hall.
    + exists [f], [L]. split; [done|]. split; [apply Forall2_cons; split; [done|apply Forall2_nil; done]|]. exact Hone.
Qed.

(** ** Level 0 *)
Record newest_last (fs : list FileMetaData) (LL : list (list entry)) : Prop := {
  n_numbers : NoDup (number <$> fs);
  n_above : ∀ i j f g L L', fs !! i = Some f → fs !! j = Some g → LL !! i = Some L → LL !! j = Some L' → number g < number f → above L L'
}.

Lemma overlapping_ok fs LL : Forall2 file_of fs LL → ∃ r, overlapping u fs = Ok r ∧ r `sublist_of` fs ∧
  ∀ i f L, fs !! i = Some f → LL !! i = Some L → f ∈ r ∨ ∀ e, e ∈ L → e.1.1 ≠ u.
Proof.
  induction 1 as [|f L fs LL Hf _ (r & E & Hsub & Hr)]; [by exists []|]. cbn [overlapping]. destruct (file_ends f L Hf) as (a & b & Ha & Hb & E1 & E2 & Hka & Hkb & Hall).
  rewrite E1, E2, !ExtractUserKey_ikey. rbind. rewrite (Slice_compare_ok u a.1.1) by (destruct Hka; lia). rbind. rewrite (Slice_compare_ok u b.1.1) by (destruct Hkb; lia). rbind.
  assert (∃ x : bool, (if 0 <=? bcmp u a.1.1 then Ok (bcmp u b.1.1 <=? 0) else Ok false) = Ok x ∧ (x = false → ∀ e, e ∈ L → e.1.1 ≠ u)) as (x & -> & Hx).
  { destruct (Z.leb_spec 0 (bcmp u a.1.1)) as [H1|H1].
    - eexists. split; [done|]. intros H2%Z.leb_gt e He <-. destruct (Hall e He) as [_ Hle%icmp_user]. lia.
    - eexists. split; [done|]. intros _ e He <-. destruct (Hall e He) as [Hge%icmp_user _]. pose proof (bcmp_sym a.1.1 e.1.1). lia. }
  rbind. rewrite E. rbind. eexists. split; [done|]. split; [destruct x; by constructor|]. intros [|i] g L' Hi Hi'; cbn in Hi, Hi'.
  - injection Hi as <-. injection Hi' as <-. destruct x; [left; set_solver|right; by apply Hx].
  - destruct (Hr i g L' Hi Hi') as [Hin|Hno]; [left; destruct x; set_solver|by right].
Qed.

#[local] Instance newer_total : Total newer.
Proof. intros a b. unfold newer, NewestFirst. lia. Qed.
#[local] Instance newer_trans : Transitive newer.
Proof. intros a b c. unfold newer, NewestFirst. lia. Qed.

Lemma lists_of (r fs : list FileMetaData) (LL : list (list entry)) : length fs = length LL → Forall (λ f, f ∈ fs) r →
  ∃ RR, Forall2 (λ f L, ∃ i, fs !! i = Some f ∧ LL !! i = Some L) r RR.
Proof.
  intros Hlen. induction 1 as [|f r Hf _ [RR IH]]; [exists []; constructor|]. apply list_elem_of_lookup in Hf as [i Hi]. destruct (lookup_lt_is_Some_2 LL i) as [L HL]; [apply lookup_lt_Some in Hi; lia|].
  exists (L :: RR). constructor; [eauto|done].
Qed.

Lemma flat_ok w fs LL : tables_in w fs LL → newest_last fs LL → ∃ fs' LL', to_search 0 fs (ikey target) u = Ok fs' ∧ decides w fs' LL' (concat LL).
Proof.
  intros Ht [Hnd Hab]. destruct (overlapping_ok fs LL (tables_files _ _ _ Ht)) as (r & E & Hsub & Hr). cbn [to_search]. rewrite E. rbind.
  pose proof (merge_sort_Permutation newer r) as Hp. pose proof (StronglySorted_merge_sort newer r) as Hsort. set (r' := merge_sort newer r) in *.
  destruct (lists_of r' fs LL (Forall2_length _ _ _ Ht)) as [RR HR]. { apply Forall_forall. intros f Hf. rewrite Hp in Hf. by eapply elem_of_sublist. }
  assert (∀ i j f, fs !! i = Some f → fs !! j = Some f → i = j) as Huniq.
  { intros i j f Hi Hj. eapply (NoDup_lookup _ _ _ (number f) Hnd); by rewrite list_lookup_fmap, ?Hi, ?Hj. }
  exists r', RR. split; [done|]. split.
  { apply Forall2_same_length_lookup. split; [by eapply Forall2_length|]. intros n f L Hn HL. destruct (Forall2_lookup_lr _ _ _ _ _ _ HR Hn HL) as (i & Hi & Hi'). exact (Forall2_lookup_lr _ _ _ _ _ _ Ht Hi Hi'). }
  assert (∀ e, e ∈ concat LL → e.1.1 = u → ∃ n f L, r' !! n = Some f ∧ RR !! n = Some L ∧ e ∈ L) as Hin.
  { intros e He Eu. apply elem_of_concat in He as (L & HL & He). apply list_elem_of_lookup in HL as [i HL]. destruct (lookup_lt_is_Some_2 fs i) as [f Hf]; [apply lookup_lt_Some in HL; rewrite (Forall2_length _ _ _ Ht); lia|].
    destruct (Hr i f L Hf HL) as [Hfr|Hno]; [|by destruct (Hno e He)]. rewrite <- Hp in Hfr. apply list_elem_of_lookup in Hfr as [n Hn]. destruct (Forall2_lookup_l _ _ _ _ _ HR Hn) as (L' & HL' & i' & Hi & Hi').
    rewrite (Huniq i' i f Hi Hf) in Hi'. exists n, f, L'. assert (L' = L) as -> by congruence. done. }
  intros [e|] Ho.
  - apply first_single. destruct Ho as (A & L & B & ER & HA & (He & Eu & Et & Hmax)). assert (RR !! length A = Some L) as HL by (rewrite ER; by apply list_lookup_middle).
    destruct (Forall2_lookup_r _ _ _ _ _ HR HL) as (f & Hf & i & Hi & Hi'). split; [apply elem_of_concat; exists L; split; [by eapply list_elem_of_lookup_2|done]|]. split; [done|]. split; [done|]. intros e' He' Eu' Et'.
    destruct (Hin e' He' Eu') as (n & g & L' & Hn & HL' & Hel). destruct (lt_eq_lt_dec n (length A)) as [[Hlt| ->]|Hgt].
    + rewrite ER, lookup_app_l in HL' by done. rewrite Forall_lookup in HA. specialize (HA n L' HL' e' Hel Eu'). lia.
    + rewrite HL in HL'. injection HL' as <-. by apply Hmax.
    + assert (newer f g) as Hfg by (eapply (proj1 (strongly_sorted_lookup _ _) Hsort (length A) n); done). destruct (Forall2_lookup_lr _ _ _ _ _ _ HR Hn HL') as (j & Hj & Hj').
      destruct (decide (number f = number g)) as [Enum|Hne].
      * assert (i = j) as <- by (eapply (NoDup_lookup _ _ _ (number f) Hnd); rewrite list_lookup_fmap, ?Hi, ?Hj; cbn; congruence). assert (L' = L) as -> by congruence. by apply Hmax.
      * specialize (Hab i j f g L L' Hi Hj Hi' Hj'). unfold newer, NewestFirst in Hfg. specialize (Hab ltac:(lia) e e' He Hel ltac:(congruence)). lia.
  - apply first_none. intros e He Eu. destruct (Hin e He Eu) as (n & f & L & _ & HL & Hel). unfold first_found in Ho. rewrite Forall_lookup in Ho. by apply (Ho n L HL).
Qed.

(** ** All levels *)
Definition level_ok (level : nat) (fs : list FileMetaData) (LL : list (list entry)) : Prop :=
  match level with O => newest_last fs LL | S _ => sorted (cmp := icmp) (concat LL).*1 ∧ zlen fs < 2 ^ 31 end.
Fixpoint levels_ok (level : nat) (files : list (list FileMetaData)) (data : list (list (list entry))) : Prop :=
  match files, data with
  | [], [] => True
  | fs :: files, LL :: data => level_ok level fs LL ∧ levels_ok (S level) files data
  | _, _ => False
  end.

Definition flat (data : list (list (list entry))) : list (list entry) := (λ LL, concat LL) <$> data.

Lemma to_search_ok level w fs LL : tables_in w fs LL → level_ok level fs LL → ∃ fs' LL', to_search level fs (ikey target) u = Ok fs' ∧ decides w fs' LL' (concat LL).
Proof. intros Ht Hl. destruct level as [|level]; [by apply flat_ok|]. destruct Hl. by apply deep_ok. Qed.

Lemma search_levels_ok files : ∀ level data st w, Forall2 (tables_in w) files data → levels_ok level files data →
  ∃ st' w' o, search_levels u (ikey target) level files st w = Ok ((answer o).1, (answer o).2, st', w') ∧ kept w w' ∧ first_found (flat data) u s o.
Proof.
  induction files as [|fs files IH]; intros level data st w Ht Hl; destruct data as [|LL data]; try done.
  - exists st, w, None. split; [done|]. split; [by intros n size L|]. apply Forall_nil_2.
  - apply Forall2_cons in Ht as [Ht Hts]. destruct Hl as [Hl Hls]. cbn [search_levels]. destruct (to_search_ok level w fs LL Ht Hl) as (fs' & LL' & -> & Ht' & Hdec). rbind.
    destruct (search_files_ok level fs' LL' st w Ht') as (r & st1 & w1 & o & -> & Hk & Ho & ->). rbind. apply Hdec in Ho. destruct o as [e|].
    + exists st1, w1, (Some e). destruct (answer (Some e)) eqn:Ea. split; [done|]. split; [done|]. apply first_single in Ho. by exists [], (concat LL), (flat data).
    + destruct (IH (S level) data st1 w1) as (st' & w' & o & -> & Hk' & Ho'); [eapply Forall2_impl; [exact Hts|]; intros; by eapply tables_kept|done|]. exists st', w', o. split; [done|]. split; [by intros n size L ?; apply Hk', Hk|].
      apply first_none in Ho. destruct o as [e|]; [|by constructor]. destruct Ho' as (A & L & B & EA & HA & Hn). exists (concat LL :: A), L, B. split; [change (flat (LL :: data)) with (concat LL :: flat data); by rewrite EA|]. split; [by constructor|done].
Qed.

Lemma version_Get_ok files data lk w : LookupKey_new u s = Ok lk → Forall2 (tables_in w) files data → levels_ok 0 files data →
  ∃ st' w' o, Version.Get files lk w = Ok ((answer o).1, (answer o).2, st', w') ∧ kept w w' ∧ first_found (flat data) u s o.
Proof.
  intros Hlk Ht Hl. destruct (LookupKey_ok u s Hs Hu) as (lk' & E & _ & Elu & Eik). rewrite Hlk in E. injection E as <-. unfold Version.Get. rewrite Elu, Eik. by apply search_levels_ok.
Qed.
End lookup.

(** ** Tables in memory *)
Fixpoint list_get (L : list entry) (k : bytes) : result (option (bytes * bytes)) :=
  match L with [] => Ok None | e :: L => c ← InternalCompare (ikey e.1) k; if 0 <=? c then Ok (Some (ikey e.1, e.2)) else list_get L k end.
(** Files that hold the entries themselves, by number. *)
Definition Shelf : Type := Z → list entry.
#[export] Instance shelf_Tables : Tables Shelf := { tc_Get n size k w := a ← list_get (w n) k; Ok (sOK, a, w) }.
Definition on_shelf (w : Shelf) (n size : Z) (L : list entry) : Prop := w n = L ∧ Forall (λ e, key_ok e.1) L.

#[export] Instance shelf_laws : TablesLaws Shelf on_shelf.
Proof.
  split. intros w n size L k [Hw Hok] Hk. cbn. rewrite Hw. assert (∃ a, list_get L (ikey k) = Ok a ∧ table_answers L k a) as (a & -> & Ha); [|rbind; by exists a, w].
  clear Hw. induction L as [|e L IH]; [exists None; split; [done|by intros e ?%elem_of_nil]|]. apply Forall_cons in Hok as [He Hok]. cbn [list_get]. rewrite InternalCompare_ok by done. rbind.
  destruct (Z.leb_spec 0 (icmp e.1 k)) as [Hge|Hlt]; [eexists; split; [done|]; exists e; by rewrite filter_cons_True|]. destruct (IH Hok) as (a & -> & Ha). exists a. split; [done|].
  destruct a as [[bk bv]|]; unfold table_answers in *; [rewrite filter_cons_False by lia; done|]. intros x [->|Hx]%elem_of_cons Hge; [lia|by apply Ha].
Qed.

(** * The lookup of the database *)
Import MemTable VersionEdit Version.

Module DbRead.
Section get.
Context {T : Type} `{Tables T}.

(** What a lookup reads: the state under the mutex when it begins. *)
Record ReadState := { mem_ : table; imm_ : option table; current_ : Version; last_sequence : Z; tables : T }.

Definition mem_answer (r : option bytes) : Status * option bytes := match r with Some v => (sOK, Some v) | None => (NotFound [], None) end.

(** The status and the value, whether a compaction is asked for, and the
    state behind. *)
Definition Get (snapshot : option Z) (key : bytes) (d : ReadState) : result (Status * option bytes * bool * ReadState) :=
  let snapshot := match snapshot with Some n => n | None => last_sequence d end in
  lkey ← LookupKey_new key snapshot;
  r ← MemTable.Get lkey (mem_ d);
  match r with
  | Some v => Ok (mem_answer v, false, d)
  | None =>
      r ← (match imm_ d with Some imm => MemTable.Get lkey imm | None => Ok None end);
      match r with
      | Some v => Ok (mem_answer v, false, d)
      | None =>
          '(s, v, stats, w) ← Version.Get (files_ (current_ d)) lkey (tables d);
          let '(compact, c) := UpdateStats stats (current_ d) in
          Ok ((s, v), compact, {| mem_ := mem_ d; imm_ := imm_ d; current_ := c; last_sequence := last_sequence d; tables := w |})
      end
  end.
End get.
Arguments ReadState T : clear implicits.
End DbRead.
Import DbRead.

(** ** A lookup sees the last write *)
Section spec.
Context {T : Type} `{HT : Tables T} {table_at : T → Z → Z → list entry → Prop} {HTL : TablesLaws T table_at}.

(** The entries of a memtable that may be missing. *)
Definition holds_table (t : option table) (L : list entry) : Prop := match t with Some t => contains t L | None => L = [] end.

(** The state of the database after the writes [H], wherever their entries
    lie: newer writes of a key are in earlier layers. *)
Record db_holds (d : ReadState T) (L1 L2 : list entry) (data : list (list (list entry))) (H : list write) : Prop := {
  h_mem : contains (mem_ d) L1;
  h_imm : holds_table (imm_ d) L2;
  h_typed : Forall typed L1 ∧ Forall typed L2;
  h_tables : Forall2 (tables_in (table_at := table_at) (tables d)) (files_ (current_ d)) data;
  h_levels : levels_ok 0 (files_ (current_ d)) data;
  h_layers : layered (L1 :: L2 :: flat data);
  h_history : L1 ++ L2 ++ concat (flat data) ≡ₚ (entry_of <$> H);
  h_increasing : increasing H
}.

Lemma mem_Get_ok t L u s lk : contains t L → Forall typed L → 0 ≤ s < 2 ^ 56 → zlen u < 2 ^ 31 - 8 → LookupKey_new u s = Ok lk →
  (∃ e, newest L u s e ∧ MemTable.Get lk t = Ok (Some (if entry_type e then Some e.2 else None))) ∨ (absent L u s ∧ MemTable.Get lk t = Ok None).
Proof.
  intros Ht Hty Hs Hu Hlk. pose proof (sorted_blocks t L Ht) as Hsort. destruct (sorted_split (cmp := λ a b : entry, icmp a.1 b.1) L ((u, tag s kTypeValue), []) Hsort) as (L1 & L2 & EL & H1 & H2).
  rewrite EL in Ht, Hty. rewrite (Get_ok t L1 L2 u s lk Ht Hty Hs Hu H1 H2 Hlk). destruct (found_newest L L1 L2 u s Hsort EL H1 H2) as [(e & rest & -> & Hn)|[Ha Hr]].
  - left. exists e. split; [done|]. apply Forall_app in Hty as [_ Hty]. apply Forall_cons in Hty as [(s' & t' & Et & _) _]. destruct e as [[k n] v]. cbn in Et. subst n. destruct Hn as (_ & Eu & _). cbn in Eu |- *.
    unfold entry_type. cbn. rewrite bool_decide_true, tag_type, tag_odd by done. by destruct t'.
  - right. split; [done|]. destruct L2 as [|[[k n] v] rest]; [done|]. cbn. rewrite bool_decide_false; [done|]. by apply (Hr _ _ eq_refl).
Qed.

Lemma mem_answer_eq e : mem_answer (if entry_type e then Some e.2 else None) = answer (Some e).
Proof. unfold answer. by destruct (entry_type e). Qed.

(** What the history says of an entry that was found, or of none. *)
Definition recalled (H : list write) u s : Status * option bytes := match recall H u s with Some (Some v) => (sOK, Some v) | _ => (NotFound [], None) end.
Lemma recalled_answer H LL u s o : increasing H → layered LL → concat LL ≡ₚ (entry_of <$> H) → first_found LL u s o → answer o = recalled H u s.
Proof.
  intros Hi Hl HP Ho. unfold recalled. destruct o as [e|].
  - destruct (recall_newest H (concat LL) u s e Hi HP (first_newest LL u s e Hl Ho)) as (w & _ & -> & ->). unfold answer, entry_type. cbn. rewrite tag_odd. unfold w_type. by destruct (w_val w).
  - by rewrite (recall_absent H (concat LL) u s HP (first_absent LL u s Ho)).
Qed.

(** C4: A lookup in the database gives the last write to the key up to the
    snapshot: its value, or that there is none when the key was deleted or
    never written; whether the write is in the memtable, in the one being
    written out, or in a table of any level. *)
Theorem get_remembers d L1 L2 data H u snapshot :
  db_holds d L1 L2 data H → 0 ≤ default (last_sequence d) snapshot < 2 ^ 56 → zlen u < 2 ^ 31 - 8 →
  ∃ compact d', Get snapshot u d = Ok (recalled H u (default (last_sequence d) snapshot), compact, d').
Proof.
  intros [Hm Hi [Hty1 Hty2] Ht Hl Hlay HP Hinc] Hs Hu. assert (concat (L1 :: L2 :: flat data) ≡ₚ (entry_of <$> H)) as HP' by done.
  assert ((match snapshot with Some n => n | None => last_sequence d end) = default (last_sequence d) snapshot) as Esn by (by destruct snapshot). unfold Get. rewrite Esn. set (s := default (last_sequence d) snapshot) in *.
  destruct (LookupKey_ok u s Hs Hu) as (lk & Elk & _). rewrite Elk. rbind.
  destruct (mem_Get_ok (mem_ d) L1 u s lk Hm Hty1 Hs Hu Elk) as [(e & Hn & ->)|[Habs ->]]; rbind.
  - eexists _, _. rewrite mem_answer_eq. rewrite (recalled_answer H (L1 :: L2 :: flat data) u s (Some e) Hinc Hlay HP'); [done|]. by exists [], L1, (L2 :: flat data).
  - assert ((∃ e, newest L2 u s e ∧ (match imm_ d with Some imm => MemTable.Get lk imm | None => Ok None end) = Ok (Some (if entry_type e then Some e.2 else None))) ∨
      (absent L2 u s ∧ (match imm_ d with Some imm => MemTable.Get lk imm | None => Ok None end) = Ok None)) as Himm.
    { destruct (imm_ d) as [imm|]; [by apply (mem_Get_ok imm L2 u s lk)|]. right. cbn in Hi. subst L2. split; [apply absent_nil|done]. }
    destruct Himm as [(e & Hn & ->)|[Habs2 ->]]; rbind.
    + eexists _, _. rewrite mem_answer_eq. rewrite (recalled_answer H (L1 :: L2 :: flat data) u s (Some e) Hinc Hlay HP'); [done|]. exists [L1], L2, (flat data). split; [done|]. split; [by repeat constructor|done].
    + destruct (version_Get_ok u s Hu Hs (files_ (current_ d)) data lk (tables d) Elk Ht Hl) as (st & w & o & -> & _ & Ho). rbind. destruct (UpdateStats st (current_ d)) as [compact c].
      eexists _, _. rewrite <- (recalled_answer H (L1 :: L2 :: flat data) u s o Hinc Hlay HP'); [by destruct (answer o)|]. destruct o as [e|]; [|by repeat constructor].
      destruct Ho as (A & L & B & E & HA & Hn). exists (L1 :: L2 :: A), L, B. split; [by rewrite E|]. split; [by repeat constructor|done].
Qed.
End spec.

(** A key that was deleted long ago and written again, and one that lies in a
    table. *)
Definition past : list write :=
  [{| w_seq := 1; w_key := str "a"; w_val := None |}; {| w_seq := 3; w_key := str "b"; w_val := Some (str "old") |}; {| w_seq := 5; w_key := str "a"; w_val := Some (str "new") |}].
Definition deleted_a : entry := ((str "a", tag 1 kTypeDeletion), []).
Definition old_b : entry := ((str "b", tag 3 kTypeValue), str "old").
Definition new_a : entry := ((str "a", tag 5 kTypeValue), str "new").
Definition file_7 : FileMetaData := FileMetaData_new 7 100 (ikey old_b.1) (ikey old_b.1).
Definition file_4 : FileMetaData := FileMetaData_new 4 100 (ikey deleted_a.1) (ikey deleted_a.1).
Definition small_db (mem : table) : ReadState Shelf :=
  {| mem_ := mem; imm_ := None; current_ := {| files_ := [[file_7]; [file_4]]; file_to_compact_ := None |}; last_sequence := 5; tables := λ n, if n =? 7 then [old_b] else if n =? 4 then [deleted_a] else [] |}.

Lemma file_of_one e n : key_ok e.1 → typed e → file_of (FileMetaData_new n 100 (ikey e.1) (ikey e.1)) [e].
Proof. intros Hk Ht. split; [constructor; constructor|by apply Forall_singleton|by exists e, e]. Qed.
Lemma above_one e e' : (e.1.1 = e'.1.1 → e'.1.2 < e.1.2) → above [e] [e'].
Proof. intros H x y Hx Hy. apply list_elem_of_singleton in Hx as ->, Hy as ->. exact H. Qed.
Lemma above_none L : above L [] ∧ above [] L.
Proof. split; intros x y Hx Hy; [by apply elem_of_nil in Hy|by apply elem_of_nil in Hx]. Qed.
Lemma sample_ok : (key_ok deleted_a.1 ∧ typed deleted_a) ∧ (key_ok old_b.1 ∧ typed old_b) ∧ (key_ok new_a.1 ∧ typed new_a).
Proof. split; [|split]; (split; [split; vm_compute; done|]); [by exists 1, kTypeDeletion|by exists 3, kTypeValue|by exists 5, kTypeValue]. Qed.
Lemma file_on_shelf mem n e : (n = 7 ∧ e = old_b) ∨ (n = 4 ∧ e = deleted_a) → tables_in (table_at := on_shelf) (tables (small_db mem)) [FileMetaData_new n 100 (ikey e.1) (ikey e.1)] [[e]].
Proof.
  intros Hn. assert (key_ok e.1 ∧ typed e) as [Hk Ht] by (destruct sample_ok as (H1 & H2 & _); by destruct Hn as [[_ ->]|[_ ->]]). apply Forall2_cons. split; [|by apply Forall2_nil].
  split; [by apply file_of_one|]. split; [by destruct Hn as [[-> ->]|[-> ->]]|by apply Forall_singleton].
Qed.

Lemma small_db_holds mem : contains mem [new_a] → db_holds (table_at := on_shelf) (small_db mem) [new_a] [] [[[old_b]]; [[deleted_a]]] past.
Proof.
  intros Hmem. destruct sample_ok as ((Hk1 & Ht1) & (Hk2 & Ht2) & (Hk3 & Ht3)). split.
  - exact Hmem.
  - reflexivity.
  - split; [by apply Forall_singleton|apply Forall_nil_2].
  - apply Forall2_cons. split; [apply file_on_shelf; by left|]. apply Forall2_cons. split; [apply file_on_shelf; by right|]. by apply Forall2_nil.
  - split; [split|split; [split|exact I]]; [apply NoDup_singleton| |repeat constructor|vm_compute; reflexivity]. intros [|i] [|j] f g L L' Hf Hg HL HL' Hlt; [|discriminate Hg|discriminate Hf|discriminate Hf].
    injection Hf as <-. injection Hg as <-. lia.
  - unfold layered, flat. apply StronglySorted_cons. split; [|apply StronglySorted_cons; split; [|apply StronglySorted_cons; split; [|apply StronglySorted_cons; split; [by apply Forall_nil_2|constructor]]]].
    + apply Forall_cons_2; [apply above_none|]. apply Forall_cons_2; [apply above_one; by vm_compute|]. apply Forall_singleton, above_one. by vm_compute.
    + apply Forall_cons_2; [apply above_none|]. apply Forall_singleton, above_none.
    + apply Forall_singleton, above_one. by vm_compute.
  - apply (Permutation_rev [new_a; old_b; deleted_a]).
  - repeat constructor.
Qed.

Lemma get_remembers_witness : ∃ mem, Add 5 kTypeValue (str "a") (str "new") MemTable_new = Ok mem ∧
  db_holds (table_at := on_shelf) (small_db mem) [new_a] [] [[[old_b]]; [[deleted_a]]] past ∧
  ∃ compact d', Get None (str "b") (small_db mem) = Ok (recalled past (str "b") 5, compact, d').
Proof.
  destruct (Add_ok MemTable_new [] [] 5 kTypeValue (str "a") (str "new") new_contains) as (mem & E & Hmem); [lia|split; [apply sample_ok|vm_compute; reflexivity]|apply Forall_nil_2|apply Forall_nil_2|]. exists mem. split; [exact E|].
  split; [exact (small_db_holds mem Hmem)|]. apply (get_remembers (small_db mem) [new_a] [] [[[old_b]]; [[deleted_a]]] past (str "b") None (small_db_holds mem Hmem)); [split; vm_compute; congruence|vm_compute; reflexivity].
Defined.
