(* ===== verification/Log.v ===== *)
(** * The log of LevelDB (pack/leveldb/db/log_format.h, log_writer.cc,
    log_reader.h, log_reader.cc)

    A log is a sequence of blocks of 32 kB. A record is cut into fragments,
    each with a checksum, a length and a type; no fragment crosses the end of
    a block, and a tail too short for a header is filled with zeros. *)

From S2P Require Import Prelude Cstd Cmem Coding Status Env Crc32c.

Module Log.
Import Crc32c.

Definition kZeroType : Z := 0.
Definition kFullType : Z := 1.
Definition kFirstType : Z := 2.
Definition kMiddleType : Z := 3.
Definition kLastType : Z := 4.
Definition kMaxRecordType : Z := kLastType.
Definition kBlockSize : Z := 32768.
Definition kHeaderSize : Z := 4 + 1 + 2.

Section log.
(** The address at which a text happens to lie: the checksum looks at its
    alignment. *)
Context (addr : bytes → Z).

(** ** The writer *)

Section writer.
Context {F : Type} `{WritableFile F}.

Record Writer := { dest_ : F; block_offset_ : Z; type_crc_ : list Z }.

Definition Writer_new (dest : F) : result Writer :=
  crcs ← mapM (λ t, Value (addr [t]) [t]) [0; 1; 2; 3; 4];
  Ok {| dest_ := dest; block_offset_ := 0; type_crc_ := crcs |}.

Definition with_dest (f : F) (b : Z) (w : Writer) : Writer := {| dest_ := f; block_offset_ := b; type_crc_ := type_crc_ w |}.

Definition EmitPhysicalRecord (t : Z) (data : bytes) (w : Writer) : result (Status * Writer) :=
  let n := zlen data in
  if negb ((n <=? 65535) && (block_offset_ w + kHeaderSize + n <=? kBlockSize)) then Fault AssertFailed
  else
    tc ← vec_at (type_crc_ w) t;
    crc ← Extend (addr data) tc data;
    let buf := EncodeFixed32 (Mask crc) ++ [u8 (Z.land n 255); u8 (Z.shiftr n 8); u8 t] in
    '(s, f) ← wf_Append (dest_ w) buf;
    '(s, f) ← (if ok s then
                 '(s, f) ← wf_Append f data;
                 if ok s then wf_Flush f else Ok (s, f)
               else Ok (s, f));
    Ok (s, with_dest f (block_offset_ w + (kHeaderSize + n)) w).

(** The loop of [AddRecord]; every round but the first takes at least a byte
    of what is left. *)
Fixpoint add_loop (fuel : nat) (begin : bool) (ptr : bytes) (w : Writer) : result (Status * Writer) :=
  match fuel with
  | O => Fault AssertFailed
  | S fuel =>
      let leftover := kBlockSize - block_offset_ w in
      if leftover <? 0 then Fault AssertFailed
      else
        w ← (if leftover <? kHeaderSize then
               f ← (if 0 <? leftover then
                      r ← wf_Append (dest_ w) (replicate (Z.to_nat leftover) 0); Ok r.2
                    else Ok (dest_ w));
               Ok (with_dest f 0 w)
             else Ok w);
        if kBlockSize - block_offset_ w - kHeaderSize <? 0 then Fault AssertFailed
        else
          let avail := kBlockSize - block_offset_ w - kHeaderSize in
          let left := zlen ptr in
          let fragment_length := if left <? avail then left else avail in
          let end_ := left =? fragment_length in
          let type :=
            if begin && end_ then kFullType
            else if begin then kFirstType
            else if end_ then kLastType
            else kMiddleType in
          '(s, w) ← EmitPhysicalRecord type (take (Z.to_nat fragment_length) ptr) w;
          let ptr := drop (Z.to_nat fragment_length) ptr in
          if ok s && (0 <? zlen ptr) then add_loop fuel false ptr w else Ok (s, w)
  end.
Definition AddRecord (slice : bytes) (w : Writer) : result (Status * Writer) := add_loop (length slice + 2) true slice w.
End writer.

(** ** The reader *)

Section reader.
Context {F : Type} `{SequentialFile F}.

(** [reports] are the calls of the reporter, the last one first. *)
Record Reader := {
  file_ : F; reporter_ : bool; checksum_ : bool; buffer_ : bytes; eof_ : bool; last_record_offset_ : Z;
  end_of_buffer_offset_ : Z; initial_offset_ : Z; reports : list (Z * Status)
}.

Definition Reader_new (file : F) (reporter checksum : bool) (initial_offset : Z) : Reader :=
  {| file_ := file; reporter_ := reporter; checksum_ := checksum; buffer_ := []; eof_ := false; last_record_offset_ := 0;
     end_of_buffer_offset_ := 0; initial_offset_ := initial_offset; reports := [] |}.

Definition with_buffer (b : bytes) (r : Reader) : Reader :=
  {| file_ := file_ r; reporter_ := reporter_ r; checksum_ := checksum_ r; buffer_ := b; eof_ := eof_ r;
     last_record_offset_ := last_record_offset_ r; end_of_buffer_offset_ := end_of_buffer_offset_ r;
     initial_offset_ := initial_offset_ r; reports := reports r |}.
Definition with_file (f : F) (e : bool) (o : Z) (r : Reader) : Reader :=
  {| file_ := f; reporter_ := reporter_ r; checksum_ := checksum_ r; buffer_ := buffer_ r; eof_ := e;
     last_record_offset_ := last_record_offset_ r; end_of_buffer_offset_ := o;
     initial_offset_ := initial_offset_ r; reports := reports r |}.
Definition with_last (o : Z) (r : Reader) : Reader :=
  {| file_ := file_ r; reporter_ := reporter_ r; checksum_ := checksum_ r; buffer_ := buffer_ r; eof_ := eof_ r;
     last_record_offset_ := o; end_of_buffer_offset_ := end_of_buffer_offset_ r;
     initial_offset_ := initial_offset_ r; reports := reports r |}.
Definition with_report (m : Z * Status) (r : Reader) : Reader :=
  {| file_ := file_ r; reporter_ := reporter_ r; checksum_ := checksum_ r; buffer_ := buffer_ r; eof_ := eof_ r;
     last_record_offset_ := last_record_offset_ r; end_of_buffer_offset_ := end_of_buffer_offset_ r;
     initial_offset_ := initial_offset_ r; reports := m :: reports r |}.

Definition kEof : Z := kMaxRecordType + 1.
Definition kBadRecord : Z := kMaxRecordType + 2.

Definition LastRecordOffset (r : Reader) : Z := last_record_offset_ r.

Definition ReportDrop (n : Z) (reason : Status) (r : Reader) : Reader :=
  if reporter_ r && (initial_offset_ r <=? u64 (end_of_buffer_offset_ r - zlen (buffer_ r) - n)) then with_report (n, reason) r else r.
Definition ReportCorruption (n : Z) (reason : bytes) (r : Reader) : Reader := ReportDrop n (Corruption reason) r.

Definition SkipToInitialBlock (r : Reader) : bool * Reader :=
  let offset_in_block := initial_offset_ r `mod` kBlockSize in
  let block_start_location := initial_offset_ r - offset_in_block in
  let block_start_location := if kBlockSize - 6 <? offset_in_block then u64 (block_start_location + kBlockSize) else block_start_location in
  let r := with_file (file_ r) (eof_ r) block_start_location r in
  if 0 <? block_start_location then
    let '(s, f) := sf_Skip (file_ r) block_start_location in
    let r := with_file f (eof_ r) (end_of_buffer_offset_ r) r in
    if ok s then (true, r) else (false, ReportDrop block_start_location s r)
  else (true, r).

(** [ReadPhysicalRecord(result)]: the type and the new content of [result].
    After one refill the loop returns. *)
Fixpoint ReadPhysicalRecord (fuel : nat) (res : bytes) (r : Reader) : result (Z * bytes * Reader) :=
  match fuel with
  | O => Fault AssertFailed
  | S fuel =>
      if zlen (buffer_ r) <? kHeaderSize then
        if negb (eof_ r) then
          let '(status, data, f) := sf_Read (file_ r) kBlockSize in
          let r := with_buffer data (with_file f (eof_ r) (u64 (end_of_buffer_offset_ r + zlen data)) r) in
          if negb (ok status) then
            let r := ReportDrop kBlockSize status (with_buffer [] r) in
            Ok (kEof, res, with_file (file_ r) true (end_of_buffer_offset_ r) r)
          else
            let r := if zlen (buffer_ r) <? kBlockSize then with_file (file_ r) true (end_of_buffer_offset_ r) r else r in
            ReadPhysicalRecord fuel res r
        else if zlen (buffer_ r) =? 0 then Ok (kEof, res, r)
        else
          let drop_size := zlen (buffer_ r) in
          Ok (kEof, res, ReportCorruption drop_size (str "truncated record at end of file") (with_buffer [] r))
      else
        let header := buffer_ r in
        c4 ← load header 4;
        c5 ← load header 5;
        c6 ← load header 6;
        let a := Z.land (u32 (schar c4)) 255 in
        let b := Z.land (u32 (schar c5)) 255 in
        let type := u32 (schar c6) in
        let length := Z.lor a (Z.shiftl b 8) in
        if zlen (buffer_ r) <? kHeaderSize + length then
          let drop_size := zlen (buffer_ r) in
          Ok (kBadRecord, res, ReportCorruption drop_size (str "bad record length") (with_buffer [] r))
        else if (type =? kZeroType) && (length =? 0) then Ok (kBadRecord, res, with_buffer [] r)
        else
          good ← (if checksum_ r then
                    masked ← DecodeFixed32 header;
                    text ← slice header 6 (1 + length);
                    actual_crc ← Value (addr text) text;
                    Ok (actual_crc =? Unmask masked)
                  else Ok true);
          if negb good then
            let drop_size := zlen (buffer_ r) in
            Ok (kBadRecord, res, ReportCorruption drop_size (str "checksum mismatch") (with_buffer [] r))
          else
            let r := with_buffer (drop (Z.to_nat (kHeaderSize + length)) header) r in
            if u64 (end_of_buffer_offset_ r - zlen (buffer_ r) - kHeaderSize - length) <? initial_offset_ r then Ok (kBadRecord, [], r)
            else
              data ← slice header kHeaderSize length;
              Ok (type, data, r)
  end.

(** What [ReadRecord] keeps from one physical record to the next. *)
Record Scan := { in_fragmented_record : bool; prospective_record_offset : Z; scratch : bytes; fragment : bytes }.

Definition partial_record (msg : bytes) (s : Scan) (r : Reader) : Reader :=
  if in_fragmented_record s && negb (zlen (scratch s) =? 0) then ReportCorruption (zlen (scratch s)) msg r else r.

Fixpoint read_loop (fuel : nat) (s : Scan) (r : Reader) : result (option bytes * Reader) :=
  match fuel with
  | O => Fault AssertFailed
  | S fuel =>
      let physical_record_offset := u64 (end_of_buffer_offset_ r - zlen (buffer_ r)) in
      '(record_type, fr, r) ← ReadPhysicalRecord 3 (fragment s) r;
      if record_type =? kFullType then
        let r := partial_record (str "partial record without end(1)") s r in
        Ok (Some fr, with_last physical_record_offset r)
      else if record_type =? kFirstType then
        let r := partial_record (str "partial record without end(2)") s r in
        read_loop fuel {| in_fragmented_record := true; prospective_record_offset := physical_record_offset; scratch := fr; fragment := fr |} r
      else if record_type =? kMiddleType then
        if negb (in_fragmented_record s) then
          read_loop fuel {| in_fragmented_record := false; prospective_record_offset := prospective_record_offset s; scratch := scratch s; fragment := fr |}
            (ReportCorruption (zlen fr) (str "missing start of fragmented record(1)") r)
        else
          read_loop fuel {| in_fragmented_record := true; prospective_record_offset := prospective_record_offset s; scratch := scratch s ++ fr; fragment := fr |} r
      else if record_type =? kLastType then
        if negb (in_fragmented_record s) then
          read_loop fuel {| in_fragmented_record := false; prospective_record_offset := prospective_record_offset s; scratch := scratch s; fragment := fr |}
            (ReportCorruption (zlen fr) (str "missing start of fragmented record(2)") r)
        else Ok (Some (scratch s ++ fr), with_last (prospective_record_offset s) r)
      else if record_type =? kEof then
        Ok (None, if in_fragmented_record s then ReportCorruption (zlen (scratch s)) (str "partial record without end(3)") r else r)
      else if record_type =? kBadRecord then
        if in_fragmented_record s then
          read_loop fuel {| in_fragmented_record := false; prospective_record_offset := prospective_record_offset s; scratch := []; fragment := fr |}
            (ReportCorruption (zlen (scratch s)) (str "error in middle of record") r)
        else
          read_loop fuel {| in_fragmented_record := false; prospective_record_offset := prospective_record_offset s; scratch := scratch s; fragment := fr |} r
      else
        read_loop fuel {| in_fragmented_record := false; prospective_record_offset := prospective_record_offset s; scratch := []; fragment := fr |}
          (ReportCorruption (zlen fr + (if in_fragmented_record s then zlen (scratch s) else 0))
             (snprintf 40 (str "unknown record type " ++ udec record_type)) r)
  end.

(** [ReadRecord]: the record, if the end was not hit first. *)
Definition ReadRecord (fuel : nat) (r : Reader) : result (option bytes * Reader) :=
  let '(go, r) := if last_record_offset_ r <? initial_offset_ r then SkipToInitialBlock r else (true, r) in
  if go then read_loop fuel {| in_fragmented_record := false; prospective_record_offset := 0; scratch := []; fragment := [] |} r
  else Ok (None, r).
End reader.
End log.
Arguments Writer : clear implicits.
Arguments Reader : clear implicits.
End Log.
