(* ===== verification/LogSpec.v ===== *)
(** * What the log keeps

    The bytes of a sequence of records, and what a reader finds in them: all
    the records of a complete file, a prefix of them in a file that was cut
    anywhere, and nothing more behind the zeros that a preallocated file ends
    with. *)

From S2P Require Import Prelude Cstd Cmem Coding Status Env Crc32c Log.

Module LogSpec.
Import Crc32c Log.

Lemma block_size : kBlockSize = 32768.
Proof. done. Qed.
#[local] Opaque kBlockSize.
Ltac klia := pose proof block_size; unfold kHeaderSize in *; lia.

(** ** The format *)

Definition phys (t : Z) (d : bytes) : bytes :=
  EncodeFixed32 (Mask (crc_ref 0 (t :: d))) ++ [u8 (Z.land (zlen d) 255); u8 (Z.shiftr (zlen d) 8); u8 t] ++ d.

Definition pad (b : Z) : bytes := if kBlockSize - b <? kHeaderSize then replicate (Z.to_nat (kBlockSize - b)) 0 else [].
Definition start (b : Z) : Z := if kBlockSize - b <? kHeaderSize then 0 else b.
Definition room (b : Z) : Z := kBlockSize - start b - kHeaderSize.
Definition kind (begin end_ : bool) : Z :=
  if begin && end_ then kFullType else if begin then kFirstType else if end_ then kLastType else kMiddleType.

(** A record written at offset [b] of a block, and the offset behind it. *)
Fixpoint enc (fuel : nat) (b : Z) (begin : bool) (d : bytes) : bytes * Z :=
  match fuel with
  | O => ([], b)
  | S fuel =>
      let n := if zlen d <? room b then zlen d else room b in
      let fr := take (Z.to_nat n) d in
      let d' := drop (Z.to_nat n) d in
      let b' := start b + (kHeaderSize + zlen fr) in
      let more := if 0 <? zlen d' then enc fuel b' false d' else ([], b') in
      (pad b ++ phys (kind begin (zlen d =? n)) fr ++ more.1, more.2)
  end.
Definition encode (b : Z) (d : bytes) : bytes * Z := enc (length d + 2) b true d.
Fixpoint encodes (b : Z) (rs : list bytes) : bytes * Z :=
  match rs with
  | [] => ([], b)
  | d :: rs => let e := encode b d in let es := encodes e.2 rs in (e.1 ++ es.1, es.2)
  end.

(** Rounds that are enough: one a byte, one for an empty record and one for
    a block without room. *)
Definition rounds (begin : bool) (b : Z) (d : bytes) : nat :=
  (length d + if begin then 2 else if bool_decide (room b = 0%Z) then 2 else 1)%nat.

Lemma encodes_cons b d rs : (encodes b (d :: rs)).1 = (encode b d).1 ++ (encodes (encode b d).2 rs).1.
Proof. done. Qed.

Lemma zlen_phys t d : zlen (phys t d) = 7 + zlen d.
Proof. unfold phys. rewrite !zlen_app. change (zlen (EncodeFixed32 _)) with 4. change (zlen [_; _; _]) with 3. lia. Qed.

Lemma start_range b : 0 ≤ b ≤ kBlockSize → 0 ≤ start b ≤ kBlockSize - kHeaderSize.
Proof. unfold start. intros Hb. destruct (Z.ltb_spec (kBlockSize - b) kHeaderSize); klia. Qed.
Lemma room_range b : 0 ≤ b ≤ kBlockSize → 0 ≤ room b ≤ kBlockSize - kHeaderSize - start b.
Proof. intros Hb. pose proof (start_range b Hb). unfold room. lia. Qed.
Lemma kind_range begin end_ : 1 ≤ kind begin end_ ≤ 4.
Proof. by destruct begin, end_. Qed.

(** One round: the fragment fits, and what is left is shorter unless there
    was no room. *)
Lemma fragment_fits b (d : bytes) (n := if zlen d <? room b then zlen d else room b) :
  0 ≤ b ≤ kBlockSize → 0 ≤ n ≤ zlen d ∧ zlen (take (Z.to_nat n) d) = n ∧ start b + (kHeaderSize + n) ≤ kBlockSize ∧ n ≤ room b.
Proof.
  intros Hb. pose proof (room_range b Hb) as Hr. pose proof (zlen_nonneg d). assert (0 ≤ n ≤ zlen d ∧ n ≤ room b) as [Hn Hnr].
  { subst n. destruct (Z.ltb_spec (zlen d) (room b)); lia. }
  split; [done|]. split; [unfold zlen in *; rewrite length_take; lia|]. unfold room in *. lia.
Qed.

Lemma rounds_pos begin b d : (rounds begin b d ≤ 0)%nat → False.
Proof. unfold rounds. destruct begin; [|destruct (bool_decide _)]; lia. Qed.

Lemma rounds_step begin b d fuel (n := if zlen d <? room b then zlen d else room b) :
  0 ≤ b ≤ kBlockSize → 0 < zlen (drop (Z.to_nat n) d) → (rounds begin b d ≤ S fuel)%nat →
  (rounds false (start b + (kHeaderSize + n)) (drop (Z.to_nat n) d) ≤ fuel)%nat.
Proof.
  intros Hb Hmore Hfuel. pose proof (fragment_fits b d Hb) as (Hn & _ & Hfit & _). fold n in Hn, Hfit. set (b' := start b + (kHeaderSize + n)) in *.
  assert (zlen (drop (Z.to_nat n) d) = zlen d - n) as Hzd by (unfold zlen in *; rewrite length_drop; lia).
  assert (n = room b) as En by (subst n; destruct (Z.ltb_spec (zlen d) (room b)); lia).
  assert (room b' = kBlockSize - kHeaderSize) as Hb'.
  { unfold room, b', start at 1. unfold room in En. rewrite (proj2 (Z.ltb_lt _ _)) by klia. lia. }
  unfold rounds in *. rewrite bool_decide_false by klia. unfold zlen in *. destruct begin; [lia|]. destruct (bool_decide_reflect (room b = 0)); lia.
Qed.

(** ** The writer *)

Section writer.
Context (addr : bytes → Z) {F : Type} (written : F → bytes → Prop) `{WritableLaws F written}.

Definition tagged (w : Writer F) (u : bytes) (b : Z) : Prop :=
  written (dest_ w) u ∧ block_offset_ w = b ∧ type_crc_ w = map (λ t, crc_ref 0 [t]) [0; 1; 2; 3; 4].

Lemma Writer_new_ok f : written f [] → ∃ w, Writer_new addr f = Ok w ∧ tagged w [] 0.
Proof.
  intros Hf. unfold Writer_new, Value. cbn [mapM].
  rewrite !Extend_ref by first [lia|repeat constructor; lia]. rbind. eexists. split; [done|]. by split.
Qed.

Lemma EmitPhysicalRecord_ok t d w u b : tagged w u b → 0 ≤ b → b + (kHeaderSize + zlen d) ≤ kBlockSize → 1 ≤ t ≤ 4 → Forall is_byte d →
  ∃ w', EmitPhysicalRecord addr t d w = Ok (sOK, w') ∧ tagged w' (u ++ phys t d) (b + (kHeaderSize + zlen d)).
Proof.
  intros (Hw & Hb & Ht) Hb0 Hfit Htr Hd. unfold EmitPhysicalRecord. rewrite Hb, Ht. pose proof (zlen_nonneg d) as Hz.
  rewrite (proj2 (Z.leb_le _ _)), (proj2 (Z.leb_le _ _)) by klia. cbn [andb negb].
  assert (vec_at (map (λ t, crc_ref 0 [t]) [0; 1; 2; 3; 4]) t = Ok (crc_ref 0 [t])) as ->.
  { assert (t = 1 ∨ t = 2 ∨ t = 3 ∨ t = 4) as Hc by lia. by destruct Hc as [->|[->|[->| ->]]]. }
  rbind. rewrite Extend_ref; [|apply crc_ref_range; [lia|repeat constructor; unfold is_byte; lia]|done]. rbind. rewrite <- crc_ref_app. cbn [app].
  set (hdr := EncodeFixed32 _ ++ _). destruct (wf_append_law (dest_ w) u hdr Hw) as (f1 & -> & Hf1). rbind. cbn [ok sOK].
  destruct (wf_append_law f1 _ d Hf1) as (f2 & -> & Hf2). rbind. cbn [ok sOK].
  destruct (wf_flush_law f2 _ Hf2) as (f3 & -> & Hf3). rbind. eexists. split; [done|]. split; [|by split].
  cbn [dest_ with_dest]. subst hdr. unfold phys. by rewrite <- !app_assoc in Hf3.
Qed.

Lemma add_loop_ok fuel : ∀ begin (d : bytes) w u b, tagged w u b → 0 ≤ b ≤ kBlockSize → Forall is_byte d → (rounds begin b d ≤ fuel)%nat →
  ∃ w', add_loop addr fuel begin d w = Ok (sOK, w') ∧ tagged w' (u ++ (enc fuel b begin d).1) (enc fuel b begin d).2 ∧
    0 ≤ (enc fuel b begin d).2 ≤ kBlockSize.
Proof.
  induction fuel as [|fuel IH]; intros begin d w u b Hw Hb Hd Hfuel; [by apply rounds_pos in Hfuel|]. cbn [add_loop enc].
  destruct Hw as (Hw & Ho & Ht). rewrite Ho. rewrite (proj2 (Z.ltb_ge (kBlockSize - b) 0)) by lia.
  set (w1 := if kBlockSize - b <? kHeaderSize then _ else _). assert (∃ w2, w1 = Ok w2 ∧ tagged w2 (u ++ pad b) (start b)) as (w2 & -> & Hw2).
  { subst w1. unfold pad, start. destruct (Z.ltb_spec (kBlockSize - b) kHeaderSize) as [Hl|Hl]; [|eexists; rewrite app_nil_r; by split].
    destruct (Z.ltb_spec 0 (kBlockSize - b)) as [Hp|Hp].
    - destruct (wf_append_law (dest_ w) u (replicate (Z.to_nat (kBlockSize - b)) 0) Hw) as (f & -> & Hf). rbind. eexists. split; [done|]. by split.
    - rbind. replace (kBlockSize - b) with 0 by lia. cbn [Z.to_nat replicate]. rewrite app_nil_r. eexists. split; [done|]. by split. }
  rbind. pose proof Hw2 as (_ & Hb2 & _). rewrite Hb2. pose proof (start_range b Hb) as Hs. pose proof (room_range b Hb) as Hr.
  rewrite (proj2 (Z.ltb_ge (kBlockSize - start b - kHeaderSize) 0)) by lia. fold (room b).
  pose proof (fragment_fits b d Hb) as (Hn & Hnl & Hfit & Hnr). set (n := if zlen d <? room b then zlen d else room b) in *. fold (kind begin (zlen d =? n)).
  destruct (EmitPhysicalRecord_ok (kind begin (zlen d =? n)) (take (Z.to_nat n) d) w2 _ _ Hw2) as (w3 & -> & Hw3);
    [lia|rewrite Hnl; lia|apply kind_range|by apply Forall_take|]. rbind. cbn [ok sOK andb]. rewrite Hnl in *. set (b' := start b + (kHeaderSize + n)) in *.
  destruct (Z.ltb_spec 0 (zlen (drop (Z.to_nat n) d))) as [Hmore|Hdone].
  - destruct (IH false (drop (Z.to_nat n) d) w3 _ b' Hw3) as (w4 & -> & Hw4 & Hr4); [unfold b'; klia|by apply Forall_drop|by apply (rounds_step begin)|].
    eexists. split; [done|]. cbn [fst snd]. by rewrite <- !app_assoc in *.
  - eexists. split; [done|]. cbn [fst snd]. rewrite app_nil_r, app_assoc. split; [done|]. unfold b'; klia.
Qed.

Lemma AddRecord_ok d w u b : tagged w u b → 0 ≤ b ≤ kBlockSize → Forall is_byte d →
  ∃ w', AddRecord addr d w = Ok (sOK, w') ∧ tagged w' (u ++ (encode b d).1) (encode b d).2 ∧ 0 ≤ (encode b d).2 ≤ kBlockSize.
Proof. intros. by apply add_loop_ok. Qed.

Fixpoint write_all (rs : list bytes) (w : Writer F) : result (Status * Writer F) :=
  match rs with
  | [] => Ok (sOK, w)
  | d :: rs => '(s, w) ← AddRecord addr d w; if ok s then write_all rs w else Ok (s, w)
  end.
Lemma write_all_ok rs : ∀ w u b, tagged w u b → 0 ≤ b ≤ kBlockSize → Forall (Forall is_byte) rs →
  ∃ w', write_all rs w = Ok (sOK, w') ∧ tagged w' (u ++ (encodes b rs).1) (encodes b rs).2.
Proof.
  induction rs as [|d rs IH]; intros w u b Hw Hb Hrs; cbn [write_all encodes]; [eexists; rewrite app_nil_r; by split|].
  apply Forall_cons in Hrs as [Hd Hrs]. destruct (AddRecord_ok d w u b Hw Hb Hd) as (w1 & -> & Hw1 & Hb1). rbind. cbn [ok sOK].
  destruct (IH w1 _ _ Hw1 Hb1 Hrs) as (w2 & -> & Hw2). eexists. split; [done|]. cbn [fst snd]. by rewrite app_assoc.
Qed.
End writer.

(** ** The reader *)

Section reader.
Context (addr : bytes → Z) {F : Type} (unread : F → bytes → Prop) `{SequentialLaws F unread}.

(** The reader has [u] before it, and stands at [b] of a block whose bytes
    it holds in its buffer. *)
Definition ready (r : Reader F) (u : bytes) (b : Z) : Prop :=
  ∃ rest, unread (file_ r) rest ∧ u = buffer_ r ++ rest ∧ initial_offset_ r = 0 ∧ 0 ≤ b ≤ kBlockSize ∧
    (if eof_ r then rest = [] ∧ zlen (buffer_ r) < kBlockSize - b else zlen (buffer_ r) = kBlockSize - b).
(** The same, but the first block may not have been read yet. *)
Definition at_ (r : Reader F) (u : bytes) (b : Z) : Prop := ready r u b ∨ b = 0 ∧ ready r u kBlockSize.

Lemma Reader_new_at f u reporter checksum : unread f u → at_ (Reader_new f reporter checksum 0) u 0.
Proof. intros Hf. right. split; [done|]. by exists u. Qed.

(** A read of the next block. *)
Lemma refill k res r u b : ready r u b → eof_ r = false → zlen (buffer_ r) < kHeaderSize →
  ∃ r', ReadPhysicalRecord addr (S k) res r = ReadPhysicalRecord addr k res r' ∧
    ready r' (drop (length (buffer_ r)) u) 0 ∧ reports r' = reports r.
Proof.
  intros (rest & Hf & -> & Hi & Hb & Hbuf) He Hl. cbn [ReadPhysicalRecord]. rewrite (proj2 (Z.ltb_lt _ _) Hl), He. cbn [negb].
  destruct (sf_read_law (file_ r) rest kBlockSize Hf) as (f & -> & Hf'); [done|]. cbn [ok sOK negb]. eexists. split; [done|].
  rewrite drop_app_length. set (blk := take _ rest) in *. cbn [buffer_ with_buffer]. destruct (Z.ltb_spec (zlen blk) kBlockSize) as [Hs|Hs]; (split; [|done]).
  - assert (length rest < Z.to_nat kBlockSize)%nat by (unfold blk, zlen in Hs; rewrite length_take in Hs; lia).
    subst blk. rewrite take_ge in * by lia. rewrite drop_ge in Hf' by lia. exists []. cbn. rewrite app_nil_r. repeat split; try done; klia.
  - exists (drop (Z.to_nat kBlockSize) rest). cbn. subst blk. rewrite take_drop. split; [done|]. split; [done|]. split; [done|]. split; [done|].
    unfold zlen in *. rewrite length_take in *. lia.
Qed.

Lemma drop_buffer r u b : ready r u b → eof_ r = false → drop (length (buffer_ r)) u = drop (Z.to_nat (kBlockSize - b)) u.
Proof. intros (rest & _ & _ & _ & _ & Hbuf) He. rewrite He in Hbuf. f_equal. unfold zlen in Hbuf. lia. Qed.

(** Fewer bytes than a header are the end. *)
Lemma short_eof k res r u b : at_ r u b → zlen u < kHeaderSize →
  ∃ r', ReadPhysicalRecord addr (S (S k)) res r = Ok (kEof, res, r') ∧
    (u = [] ∨ (b + zlen u) `mod` kBlockSize = 0 → reports r' = reports r).
Proof.
  intros Hat Hu. assert (∀ k r v b, ready r v b → eof_ r = true → zlen v < kHeaderSize →
    ∃ r', ReadPhysicalRecord addr (S k) res r = Ok (kEof, res, r') ∧ (v = [] ∨ (b + zlen v) `mod` kBlockSize = 0 → reports r' = reports r)) as Hend.
  { clear. intros k r v b (rest & _ & -> & _ & Hb & Hbuf) He Hv. rewrite He in Hbuf. destruct Hbuf as [-> Hbuf]. rewrite app_nil_r in *.
    cbn [ReadPhysicalRecord]. rewrite (proj2 (Z.ltb_lt _ _) Hv), He. cbn [negb]. destruct (Z.eqb_spec (zlen (buffer_ r)) 0) as [Hz|Hz]; [by eexists|].
    eexists. split; [done|]. intros [Hn|Hm]; [by rewrite Hn in Hz|]. rewrite Z.mod_small in Hm; pose proof (zlen_nonneg (buffer_ r)); lia. }
  assert (∃ b', ready r u b' ∧ (b' = b ∨ b = 0 ∧ b' = kBlockSize)) as (b' & Hr & Hb') by (destruct Hat as [?|[-> ?]]; eauto).
  assert ((u = [] ∨ (b + zlen u) `mod` kBlockSize = 0) → u = [] ∨ (b' + zlen u) `mod` kBlockSize = 0) as Hm.
  { destruct Hb' as [->|[-> ->]]; [done|]. intros [?|Hm]; [by left|right]. rewrite <- Hm. rewrite Z.add_comm, <- (Z.mul_1_l kBlockSize) at 1. apply Z_mod_plus_full. }
  destruct (eof_ r) eqn:He; [destruct (Hend (S k) r u b' Hr He Hu) as (r' & -> & Hrep); exists r'; split; [done|tauto]|].
  pose proof Hr as (rest & _ & Eu & _ & Hb & Hbuf). rewrite He in Hbuf. assert (zlen u = zlen (buffer_ r) + zlen rest) as Hlu by (by rewrite Eu, zlen_app).
  pose proof (zlen_nonneg rest). destruct (refill (S k) res r u b' Hr He ltac:(lia)) as (r1 & -> & Hr1 & Hrep1). rewrite Eu, drop_app_length in Hr1.
  destruct (eof_ r1) eqn:He1; [|destruct Hr1 as (rest1 & _ & Erest & _ & _ & Hbuf1); rewrite He1 in Hbuf1; rewrite Erest, zlen_app in *;
    pose proof (zlen_nonneg rest1); klia].
  destruct (Hend k r1 rest 0 Hr1 He1) as (r2 & -> & Hrep2); [lia|]. exists r2. split; [done|]. intros Hc. rewrite Hrep2; [done|].
  apply Hm in Hc as [->|Hc]; [left; symmetry in Eu; by apply app_eq_nil in Eu as [_ ?]|]. rewrite Hlu, Hbuf in Hc.
  replace (b' + (kBlockSize - b' + zlen rest)) with (zlen rest + 1 * kBlockSize) in Hc by lia. rewrite Z_mod_plus_full in Hc. by right.
Qed.

(** Over the filling at the end of a block. *)
Lemma over_pad res r u b : at_ r (pad b ++ u) b → kHeaderSize ≤ zlen (pad b ++ u) →
  ∃ k r', ReadPhysicalRecord addr 3 res r = ReadPhysicalRecord addr (S (S k)) res r' ∧ ready r' u (start b) ∧ reports r' = reports r.
Proof.
  intros Hat Hl. destruct Hat as [Hr|[-> Hr]].
  - unfold pad, start in *. destruct (Z.ltb_spec (kBlockSize - b) kHeaderSize) as [Hp|Hp]; [|exists 1%nat, r; by repeat split].
    pose proof Hr as (rest & _ & Eu & _ & Hb & Hbuf). destruct (eof_ r) eqn:He.
    { destruct Hbuf as [-> Hbuf]. rewrite app_nil_r in Eu. rewrite Eu in Hl. lia. }
    destruct (refill 2 res r _ b Hr He ltac:(lia)) as (r1 & E1 & Hr1 & Hrep1). rewrite (drop_buffer r _ b Hr He) in Hr1.
    rewrite drop_app_length' in Hr1 by (by rewrite length_replicate). by exists 0%nat, r1.
  - change (pad 0) with (@nil Z) in *. change (start 0) with 0. cbn [app] in *. pose proof Hr as (rest & _ & Eu & _ & Hb & Hbuf). destruct (eof_ r) eqn:He.
    { destruct Hbuf as [-> Hbuf]. rewrite app_nil_r in Eu. rewrite Eu in Hl. klia. }
    destruct (refill 2 res r _ _ Hr He) as (r1 & E1 & Hr1 & Hrep1); [klia|].
    rewrite (drop_buffer r _ _ Hr He) in Hr1. rewrite Z.sub_diag in Hr1. by exists 0%nat, r1.
Qed.

(** ** One physical record *)

Lemma byte_field v : 0 ≤ v < 256 → Z.land (u32 (schar v)) 255 = v.
Proof.
  intros Hv. change 255 with (Z.ones 8). rewrite Z.land_ones by lia. unfold u32, schar.
  rewrite Z.mod_mod_divide by (by exists (2 ^ 24)). destruct (v <? 128); [by apply Z.mod_small|].
  replace (v - 256) with (v + -1 * 2 ^ 8) by lia. rewrite Z_mod_plus_full. by apply Z.mod_small.
Qed.

(** The header of a fragment, as the reader takes it apart. *)
Lemma header_fields t (d bt : bytes) : zlen d < 65536 → 1 ≤ t ≤ 4 →
  ∃ c4 c5, phys t d = EncodeFixed32 (Mask (crc_ref 0 (t :: d))) ++ [c4; c5; t] ++ d ∧
    Z.lor (Z.land (u32 (schar c4)) 255) (Z.shiftl (Z.land (u32 (schar c5)) 255) 8) = zlen d ∧ u32 (schar t) = t.
Proof.
  intros Hd Ht. pose proof (zlen_nonneg d). exists (u8 (Z.land (zlen d) 255)), (u8 (Z.shiftr (zlen d) 8)).
  assert (u8 t = t) as Et by (apply u8_small; lia). split; [unfold phys; by rewrite Et|].
  rewrite !byte_field by apply u8_range. change 255 with (Z.ones 8). rewrite Z.land_ones, shiftr_div by lia. unfold u8. rewrite Z.mod_mod by lia.
  rewrite (Z.mod_small (zlen d `div` 2 ^ 8)) by (split; [apply Z.div_pos; lia|apply Z.div_lt_upper_bound; lia]).
  rewrite lor_add_shift by first [lia|apply Z.mod_pos_bound; lia]. split; [pose proof (Z.div_mod (zlen d) (2 ^ 8)); lia|].
  unfold schar. rewrite (proj2 (Z.ltb_lt t 128)) by lia. apply u32_small. lia.
Qed.

Section header.
Context (h : bytes) (c4 c5 c6 : Z) (tl : bytes) (Hh : length h = 4%nat).
Lemma load_header : load (h ++ [c4; c5; c6] ++ tl) 4 = Ok c4 ∧ load (h ++ [c4; c5; c6] ++ tl) 5 = Ok c5 ∧ load (h ++ [c4; c5; c6] ++ tl) 6 = Ok c6.
Proof.
  cbn [app]. split; [apply load_app; unfold zlen; lia|]. split.
  - rewrite (cons_middle c4), app_assoc. apply load_app. unfold zlen. rewrite length_app. cbn. lia.
  - rewrite (cons_middle c4), (cons_middle c5), !app_assoc. apply load_app. unfold zlen. rewrite !length_app. cbn. lia.
Qed.
End header.

(** A fragment with its checksum is taken off the buffer. *)
Lemma parse_phys k res r t d bt : buffer_ r = phys t d ++ bt → initial_offset_ r = 0 → zlen d < 65536 → 1 ≤ t ≤ 4 → Forall is_byte d →
  ReadPhysicalRecord addr (S k) res r = Ok (t, d, with_buffer bt r).
Proof.
  intros Hbuf Hi Hd Ht Hb. pose proof (zlen_nonneg bt). pose proof (zlen_nonneg d). cbn [ReadPhysicalRecord]. rewrite Hbuf.
  rewrite (proj2 (Z.ltb_ge _ _)) by (rewrite zlen_app, zlen_phys; klia).
  destruct (header_fields t d bt Hd Ht) as (c4 & c5 & Ep & Elen & Et). set (crc := EncodeFixed32 _) in *.
  assert (phys t d ++ bt = crc ++ [c4; c5; t] ++ (d ++ bt)) as E by (rewrite Ep; by rewrite <- !app_assoc).
  destruct (load_header crc c4 c5 t (d ++ bt) eq_refl) as (L4 & L5 & L6). rewrite E, L4, L5, L6. rbind. rewrite Elen, Et.
  rewrite <- E, (proj2 (Z.ltb_ge _ _)) by (rewrite zlen_app, zlen_phys; klia).
  rewrite (proj2 (Z.eqb_neq t kZeroType)) by (unfold kZeroType; lia). cbn [andb].
  assert (slice (phys t d ++ bt) 6 (1 + zlen d) = Ok (t :: d)) as Esl.
  { rewrite E. pose proof (slice_app (crc ++ [c4; c5]) (t :: d) bt 6 (1 + zlen d) eq_refl) as Hs. rewrite <- !app_assoc in Hs. apply Hs. by rewrite zlen_cons, Z.add_comm. }
  assert (slice (phys t d ++ bt) kHeaderSize (zlen d) = Ok d) as Esl2.
  { rewrite E. pose proof (slice_app (crc ++ [c4; c5; t]) d bt 7 (zlen d) eq_refl eq_refl) as Hs. by rewrite <- !app_assoc in Hs. }
  set (good := if checksum_ r then _ else _). assert (good = Ok true) as ->.
  { subst good. destruct (checksum_ r); [|done]. rewrite Esl, E. subst crc. rewrite Fixed32_roundtrip by apply u32_range. rbind. unfold Value.
    assert (Forall is_byte (t :: d)) by (constructor; [unfold is_byte; lia|done]). rewrite Extend_ref by first [lia|done]. rbind.
    rewrite Unmask_Mask, Z.eqb_refl by (apply crc_ref_range; [lia|done]). done. }
  rbind. cbn [negb]. cbn [initial_offset_ with_buffer]. rewrite Hi, (proj2 (Z.ltb_ge _ _)) by apply u64_range. rewrite Esl2. rbind. do 3 f_equal.
  apply drop_app_length'. pose proof (zlen_phys t d) as Hz. unfold zlen in *. klia.
Qed.

Lemma split_at (u x y rest : bytes) : x ++ u = y ++ rest → zlen x ≤ zlen y → ∃ z, y = x ++ z ∧ u = z ++ rest.
Proof.
  intros E Hl. exists (drop (length x) y). assert (x = take (length x) y) as Ex.
  { apply (f_equal (take (length x))) in E. rewrite take_app_length, take_app_le in E by (unfold zlen in Hl; lia). done. }
  rewrite Ex at 1. split; [by rewrite take_drop|]. apply (f_equal (drop (length x))) in E.
  by rewrite drop_app_length, drop_app_le in E by (unfold zlen in Hl; lia).
Qed.

Lemma phys_ready k res r t d u b : ready r (phys t d ++ u) b → b + (kHeaderSize + zlen d) ≤ kBlockSize → 1 ≤ t ≤ 4 → Forall is_byte d →
  ∃ r', ReadPhysicalRecord addr (S k) res r = Ok (t, d, r') ∧ ready r' u (b + (kHeaderSize + zlen d)) ∧ reports r' = reports r.
Proof.
  intros (rest & Hf & Eu & Hi & Hb & Hbuf) Hfit Ht Hd. pose proof (zlen_nonneg d). pose proof (zlen_phys t d) as Hz. pose proof (zlen_nonneg u).
  assert (zlen (phys t d) ≤ zlen (buffer_ r)) as Hle.
  { destruct (eof_ r); [destruct Hbuf as [-> _]; rewrite app_nil_r in Eu; rewrite <- Eu, zlen_app; lia|]. klia. }
  destruct (split_at u _ _ rest Eu Hle) as (bt & Ebt & ->). rewrite (parse_phys k res r t d bt) by first [done|klia]. eexists. split; [done|]. split; [|done].
  exists rest. cbn. rewrite Ebt, zlen_app, Hz in Hbuf. split; [done|]. split; [done|]. split; [done|]. split; [klia|].
  destruct (eof_ r); [split; [tauto|klia]|klia].
Qed.

(** The beginning of a fragment at the end of the file. *)
Lemma cut_ready k res r t d n b : ready r (take n (phys t d)) b → (n < length (phys t d))%nat → b + (kHeaderSize + zlen d) ≤ kBlockSize → 1 ≤ t ≤ 4 →
  kHeaderSize ≤ zlen (take n (phys t d)) →
  ∃ r', ReadPhysicalRecord addr (S k) res r = Ok (kBadRecord, res, r') ∧ ready r' [] b.
Proof.
  intros (rest & Hf & Eu & Hi & Hb & Hbuf) Hn Hfit Ht H7. pose proof (zlen_phys t d) as Hz. pose proof (zlen_nonneg d).
  assert (zlen (take n (phys t d)) < 7 + zlen d) as Hlt by (unfold zlen in *; rewrite length_take; lia).
  destruct (eof_ r) eqn:He; [|rewrite Eu, zlen_app in Hlt; pose proof (zlen_nonneg rest); klia]. destruct Hbuf as [-> Hbuf]. rewrite app_nil_r in Eu.
  destruct (header_fields t d [] ltac:(klia) Ht) as (c4 & c5 & Ep & Elen & Et). set (crc := EncodeFixed32 _) in *.
  assert (take n (phys t d) = crc ++ [c4; c5; t] ++ take (n - 7) d) as E.
  { rewrite Ep. unfold zlen in H7. rewrite length_take in H7. rewrite app_assoc, take_app_ge by (change (length (crc ++ [c4; c5; t])) with 7%nat; klia).
    by rewrite <- app_assoc. }
  destruct (load_header crc c4 c5 t (take (n - 7) d) eq_refl) as (L4 & L5 & L6). cbn [ReadPhysicalRecord]. rewrite <- Eu.
  rewrite (proj2 (Z.ltb_ge _ _) H7). rewrite E, L4, L5, L6. rbind. rewrite Elen, Et, <- E. rewrite (proj2 (Z.ltb_lt _ _)) by klia.
  eexists. split; [done|]. unfold ReportCorruption, ReportDrop. destruct (_ && _); exists []; cbn; rewrite He; (repeat split; try done; change (zlen (@nil Z)) with 0; klia).
Qed.

Lemma zeros_ready k res r n b : ready r (replicate n 0) b → b + kHeaderSize ≤ kBlockSize → kHeaderSize ≤ Z.of_nat n →
  ∃ r' m, ReadPhysicalRecord addr (S k) res r = Ok (kBadRecord, res, r') ∧ ready r' (replicate (n - m) 0) (b + Z.of_nat m) ∧ (0 < m ≤ n)%nat ∧ reports r' = reports r.
Proof.
  intros (rest & Hf & Eu & Hi & Hb & Hbuf) Hfit Hn. assert (n = length (buffer_ r) + length rest)%nat as Hl by (by rewrite <- length_app, <- Eu, length_replicate).
  rewrite Hl, replicate_add in Eu. apply app_inj_1 in Eu as [Eb Er]; [|by rewrite length_replicate]. set (m := length (buffer_ r)) in *.
  assert (7 ≤ m)%nat as Hm by (destruct (eof_ r); [destruct Hbuf as [-> _]; cbn in Hl; klia|unfold zlen in Hbuf; fold m in Hbuf; klia]).
  cbn [ReadPhysicalRecord]. rewrite <- Eb. assert (m = 7 + (m - 7))%nat as E7 by lia. rewrite E7, replicate_add. change (replicate 7 0) with ([0; 0; 0; 0] ++ [0; 0; 0]).
  rewrite <- app_assoc. destruct (load_header [0; 0; 0; 0] 0 0 0 (replicate (m - 7) 0) eq_refl) as (-> & -> & ->).
  assert (kHeaderSize ≤ zlen ([0; 0; 0; 0] ++ [0; 0; 0] ++ replicate (m - 7) 0)) as Hz by (unfold zlen; rewrite !length_app, length_replicate; cbn; klia).
  rewrite (proj2 (Z.ltb_ge _ _) Hz). rbind. change (Z.lor _ _) with 0. change (kHeaderSize + 0) with kHeaderSize. rewrite (proj2 (Z.ltb_ge _ _) Hz).
  change ((u32 (schar 0) =? kZeroType) && (0 =? 0)) with true. cbn iota. exists (with_buffer [] r), m. split; [done|]. split; [|split; [lia|done]].
  exists rest. cbn. rewrite Hl. replace (m + length rest - m)%nat with (length rest) by lia. unfold zlen in Hbuf. fold m in Hbuf.
  split; [done|]. split; [done|]. split; [done|]. split; [destruct (eof_ r); klia|]. destruct (eof_ r); [split; [tauto|change (zlen (@nil Z)) with 0; klia]|]. change (zlen (@nil Z)) with 0. klia.
Qed.

(** ** Whole records *)

Lemma ready_at r u b : ready r u b → at_ r u b.
Proof. by left. Qed.
Lemma at_range r u b : at_ r u b → 0 ≤ b ≤ kBlockSize.
Proof. intros [(? & ? & ? & ? & ? & ?)|[-> ?]]; [done|]. klia. Qed.

Lemma read_enc fuel : ∀ N begin d s r u b, at_ r ((enc fuel b begin d).1 ++ u) b → (rounds begin b d ≤ fuel ≤ N)%nat → Forall is_byte d →
  in_fragmented_record s = negb begin → 0 ≤ prospective_record_offset s →
  ∃ r', read_loop addr N s r = Ok (Some ((if begin then [] else scratch s) ++ d), r') ∧ at_ r' u (enc fuel b begin d).2 ∧
    reports r' = reports r ∧ 0 ≤ last_record_offset_ r'.
Proof.
  induction fuel as [|fuel IH]; intros N begin d s r u b Hat HN Hd Hs Hpo; [exfalso; apply (rounds_pos begin b d); lia|]. destruct N as [|N]; [lia|].
  pose proof (at_range _ _ _ Hat) as Hb. pose proof (fragment_fits b d Hb) as (Hn & Hnl & Hfit & Hnr). pose proof (start_range b Hb) as Hst.
  cbn [enc fst snd] in *. set (n := if zlen d <? room b then zlen d else room b) in *. rewrite Hnl in *.
  pose proof (rounds_step begin b d fuel Hb) as Hstep. fold n in Hstep. set (b' := start b + (kHeaderSize + n)) in *.
  set (more := if 0 <? zlen (drop (Z.to_nat n) d) then _ else _) in *. rewrite <- !app_assoc in Hat.
  set (t := kind begin (zlen d =? n)) in *. set (fr := take (Z.to_nat n) d) in *.
  destruct (over_pad (fragment s) r _ b Hat) as (k & r1 & E1 & Hr1 & Hrep1).
  { rewrite !zlen_app, zlen_phys. pose proof (zlen_nonneg (pad b)). pose proof (zlen_nonneg fr). pose proof (zlen_nonneg more.1). pose proof (zlen_nonneg u). klia. }
  destruct (phys_ready (S k) (fragment s) r1 t fr _ _ Hr1) as (r2 & E2 & Hr2 & Hrep2); [rewrite Hnl; lia|apply kind_range|by apply Forall_take|]. rewrite Hnl in Hr2.
  cbn [read_loop]. rewrite E1, E2. rbind. unfold partial_record. rewrite Hs. destruct (Z.ltb_spec 0 (zlen (drop (Z.to_nat n) d))) as [Hmore|Hdone].
  - assert (zlen d ≠ n) as Hne by (unfold zlen in Hmore; rewrite length_drop in Hmore; unfold zlen in *; lia). assert (t = if begin then kFirstType else kMiddleType) as -> by
      (unfold t, kind; rewrite (proj2 (Z.eqb_neq _ _) Hne); by destruct begin). subst more. destruct begin; cbn.
    + destruct (IH N false (drop (Z.to_nat n) d) {| in_fragmented_record := true; prospective_record_offset := u64 (end_of_buffer_offset_ r - zlen (buffer_ r));
        scratch := fr; fragment := fr |} r2 u b') as (r3 & E3 & Hat3 & Hrep3 & Hlo); [by apply ready_at|split; [apply Hstep; [done|lia]|lia]|by apply Forall_drop|done|done || apply u64_range|].
      exists r3. cbn [scratch] in E3. unfold fr in E3 at 3. rewrite take_drop in E3. split; [exact E3|]. split; [done|]. split; [congruence|done].
    + destruct (IH N false (drop (Z.to_nat n) d) {| in_fragmented_record := true; prospective_record_offset := prospective_record_offset s;
        scratch := scratch s ++ fr; fragment := fr |} r2 u b') as (r3 & E3 & Hat3 & Hrep3 & Hlo); [by apply ready_at|split; [apply Hstep; [done|lia]|lia]|by apply Forall_drop|done|done || apply u64_range|].
      exists r3. cbn [scratch] in E3. unfold fr in E3 at 3. rewrite <- app_assoc, take_drop in E3. split; [exact E3|]. split; [done|]. split; [congruence|done].
  - assert (zlen d = n) as Hne by (unfold zlen in Hdone; rewrite length_drop in Hdone; unfold zlen in *; lia). assert (t = if begin then kFullType else kLastType) as -> by
      (unfold t, kind; rewrite (proj2 (Z.eqb_eq _ _) Hne); by destruct begin). subst more. cbn [fst snd] in *.
    assert (fr = d) as -> by (unfold fr; rewrite <- Hne, to_nat_zlen; apply firstn_all). destruct begin; cbn; (eexists; split; [done|]; split; [|split; [cbn; congruence|cbn; done || apply u64_range]]).
    all: left; destruct Hr2 as (rest & ?); by exists rest.
Qed.

(** Nothing but the end. *)
Lemma loop_eof N s r res r' : ReadPhysicalRecord addr 3 (fragment s) r = Ok (kEof, res, r') →
  ∃ r'', read_loop addr (S N) s r = Ok (None, r'') ∧ (in_fragmented_record s = false → reports r'' = reports r').
Proof. intros E. cbn [read_loop]. rewrite E. rbind. cbn. eexists. split; [done|]. by intros ->. Qed.
Lemma loop_bad N s r res r' : ReadPhysicalRecord addr 3 (fragment s) r = Ok (kBadRecord, res, r') →
  ∃ s' r'', read_loop addr (S N) s r = read_loop addr N s' r'' ∧ in_fragmented_record s' = false ∧
    (∀ u b, ready r' u b → ready r'' u b) ∧ (in_fragmented_record s = false → reports r'' = reports r').
Proof.
  intros E. cbn [read_loop]. rewrite E. rbind. cbn. destruct (in_fragmented_record s); (eexists _, _; split; [done|]); cbn; [|done].
  split; [done|]. split; [|done]. unfold ReportCorruption, ReportDrop. by destruct (_ && _).
Qed.

Lemma read_short N s r u b : at_ r u b → zlen u < kHeaderSize →
  ∃ r', read_loop addr (S N) s r = Ok (None, r') ∧
    (in_fragmented_record s = false → u = [] ∨ (b + zlen u) `mod` kBlockSize = 0 → reports r' = reports r).
Proof.
  intros Hat Hu. destruct (short_eof 1 (fragment s) r u b Hat Hu) as (r1 & E1 & Hrep1). destruct (loop_eof N s r _ r1 E1) as (r2 & E2 & Hrep2).
  exists r2. split; [done|]. intros Hf Hc. rewrite Hrep2 by done. by apply Hrep1.
Qed.

Lemma take_app_cases (n : nat) (x y : bytes) : (n < length (x ++ y))%nat →
  (n < length x)%nat ∧ take n (x ++ y) = take n x ∨ ∃ m, (m < length y)%nat ∧ take n (x ++ y) = x ++ take m y.
Proof.
  rewrite length_app. intros Hn. destruct (Nat.lt_ge_cases n (length x)); [left; split; [done|]; rewrite take_app_le by lia; done|].
  right. exists (n - length x)%nat. split; [lia|]. by rewrite take_app_ge by lia.
Qed.

Lemma read_cut fuel : ∀ N begin d s r n b, at_ r (take n (enc fuel b begin d).1) b → (n < length (enc fuel b begin d).1)%nat →
  (rounds begin b d ≤ fuel < N)%nat → Forall is_byte d → in_fragmented_record s = negb begin →
  ∃ r', read_loop addr N s r = Ok (None, r').
Proof.
  induction fuel as [|fuel IH]; intros N begin d s r n b Hat Hcut HN Hd Hs; [exfalso; apply (rounds_pos begin b d); lia|]. destruct N as [|[|N]]; [lia|lia|].
  destruct (Z.lt_ge_cases (zlen (take n (enc (S fuel) b begin d).1)) kHeaderSize) as [H7|H7].
  { destruct (read_short (S N) s r _ b Hat H7) as (r' & E & _). by exists r'. }
  pose proof (at_range _ _ _ Hat) as Hb. pose proof (fragment_fits b d Hb) as (Hn & Hnl & Hfit & Hnr). pose proof (start_range b Hb) as Hst.
  cbn [enc fst snd] in *. set (f := if zlen d <? room b then zlen d else room b) in *. rewrite Hnl in *.
  pose proof (rounds_step begin b d fuel Hb) as Hstep. fold f in Hstep. set (b' := start b + (kHeaderSize + f)) in *.
  set (t := kind begin (zlen d =? f)) in *. set (fr := take (Z.to_nat f) d) in *. apply take_app_cases in Hcut as [[Hcut Ec]|(m & Hcut & Ec)]; rewrite Ec in *.
  { exfalso. assert (length (pad b) ≤ 6)%nat by (unfold pad; destruct (Z.ltb_spec (kBlockSize - b) kHeaderSize); [rewrite length_replicate; klia|cbn; lia]).
    unfold zlen in H7. rewrite length_take in H7. klia. }
  destruct (over_pad (fragment s) r _ b Hat H7) as (k & r1 & E1 & Hr1 & Hrep1). apply take_app_cases in Hcut as [[Hcut Ec2]|(m' & Hcut & Ec2)]; rewrite Ec2 in *.
  - destruct (Z.lt_ge_cases (zlen (take m (phys t fr))) kHeaderSize) as [H7'|H7'].
    { destruct (short_eof k (fragment s) r1 _ _ (ready_at _ _ _ Hr1) H7') as (r2 & E2 & _). rewrite <- E1 in E2.
      destruct (loop_eof (S N) s r _ r2 E2) as (r3 & -> & _). by exists r3. }
    destruct (cut_ready (S k) (fragment s) r1 t fr m _ Hr1) as (r2 & E2 & Hr2); [done|rewrite Hnl; lia|apply kind_range|done|]. rewrite <- E1 in E2.
    destruct (loop_bad (S N) s r _ r2 E2) as (s' & r3 & -> & Hs' & Hr3 & _).
    destruct (read_short N s' r3 [] (start b) (ready_at _ _ _ (Hr3 _ _ Hr2))) as (r4 & -> & _); [change (zlen (@nil Z)) with 0; klia|]. by exists r4.
  - destruct (phys_ready (S k) (fragment s) r1 t fr _ _ Hr1) as (r2 & E2 & Hr2 & _); [rewrite Hnl; lia|apply kind_range|by apply Forall_take|]. rewrite Hnl in Hr2.
    destruct (Z.ltb_spec 0 (zlen (drop (Z.to_nat f) d))) as [Hmore|Hdone]; [|cbn in Hcut; lia].
    assert (zlen d ≠ f) as Hne by (unfold zlen in Hmore; rewrite length_drop in Hmore; unfold zlen in *; lia). assert (t = if begin then kFirstType else kMiddleType) as Et by
      (unfold t, kind; rewrite (proj2 (Z.eqb_neq _ _) Hne); by destruct begin).
    assert (fuel < S N ∧ rounds begin b d ≤ S fuel)%nat as [HN1 HR] by lia. generalize dependent (S N). intros N1 _ HN1. cbn [read_loop]. rewrite E1, E2. rbind. unfold partial_record. rewrite Hs, Et.
    destruct begin; cbn; (eapply IH; [by apply ready_at|done|split; [by apply Hstep|done]|by apply Forall_drop|done]).
Qed.

Lemma mod_shift a c : (c + kBlockSize * a) `mod` kBlockSize = c `mod` kBlockSize.
Proof. rewrite Z.mul_comm. apply Z_mod_plus_full. Qed.

Lemma read_zeros n : ∀ N s r b, at_ r (replicate n 0) b → (n < N)%nat → in_fragmented_record s = false →
  ∃ r', read_loop addr N s r = Ok (None, r') ∧ (n = 0%nat ∨ (b + Z.of_nat n) `mod` kBlockSize = 0 → reports r' = reports r).
Proof.
  induction (lt_wf n) as [n _ IH]. intros N s r b Hat HN Hs. destruct N as [|N]; [lia|].
  assert (∀ m, zlen (replicate m 0) = Z.of_nat m) as Hz by (intros; unfold zlen; by rewrite length_replicate).
  destruct (Z.lt_ge_cases (Z.of_nat n) kHeaderSize) as [H7|H7].
  { destruct (read_short N s r _ b Hat) as (r' & E & Hrep); [by rewrite Hz|]. exists r'. split; [done|]. intros Hc. apply Hrep; [done|]. rewrite Hz. destruct Hc as [->|Hc]; auto. }
  pose proof (at_range _ _ _ Hat) as Hb. pose proof (start_range b Hb) as Hst.
  assert (∃ n', (n' ≤ n)%nat ∧ replicate n 0 = pad b ++ replicate n' 0 ∧ ((b + Z.of_nat n) `mod` kBlockSize = (start b + Z.of_nat n') `mod` kBlockSize)) as (n' & Hn' & Ep & Em).
  { unfold pad, start. destruct (Z.ltb_spec (kBlockSize - b) kHeaderSize) as [Hp|Hp]; [|by exists n]. exists (n - Z.to_nat (kBlockSize - b))%nat. split; [lia|].
    split; [rewrite <- replicate_add; f_equal; klia|]. rewrite <- (mod_shift 1 (0 + _)). f_equal. klia. }
  rewrite Ep in Hat. destruct (over_pad (fragment s) r _ b Hat) as (k & r1 & E1 & Hr1 & Hrep1); [by rewrite <- Ep, Hz|].
  destruct (Z.lt_ge_cases (Z.of_nat n') kHeaderSize) as [H7'|H7'].
  - destruct (short_eof k (fragment s) r1 _ _ (ready_at _ _ _ Hr1)) as (r2 & E2 & Hrep2); [by rewrite Hz|]. rewrite <- E1 in E2.
    destruct (loop_eof N s r _ r2 E2) as (r3 & -> & Hrep3). exists r3. split; [done|]. intros [?|Hc]; [klia|]. rewrite Hrep3, Hrep2, Hrep1; [done|right; rewrite Hz; congruence|done].
  - destruct (zeros_ready (S k) (fragment s) r1 n' _ Hr1) as (r2 & m & E2 & Hr2 & Hm & Hrep2); [lia|done|]. rewrite <- E1 in E2.
    destruct (loop_bad N s r _ r2 E2) as (s' & r3 & -> & Hs' & Hr3 & Hrep3).
    destruct (IH (n' - m)%nat ltac:(lia) N s' r3 (start b + Z.of_nat m) (ready_at _ _ _ (Hr3 _ _ Hr2))) as (r4 & -> & Hrep4); [lia|done|].
    exists r4. split; [done|]. intros [?|Hc]; [klia|]. rewrite Hrep4, Hrep3, Hrep2, Hrep1; [done|done|]. right. rewrite Nat2Z.inj_sub by lia.
    replace (start b + Z.of_nat m + (Z.of_nat n' - Z.of_nat m)) with (start b + Z.of_nat n') by lia. congruence.
Qed.

(** ** All records *)

(** The loop that recovers a log: records until there is none. *)
Fixpoint read_all (n fuel : nat) (r : Reader F) : result (list bytes * Reader F) :=
  match n with
  | O => Fault AssertFailed
  | S n =>
      '(rec, r) ← ReadRecord addr fuel r;
      match rec with
      | Some d => '(ds, r) ← read_all n fuel r; Ok (d :: ds, r)
      | None => Ok ([], r)
      end
  end.

Definition good (r : Reader F) (u : bytes) (b : Z) : Prop := at_ r u b ∧ 0 ≤ last_record_offset_ r.
Lemma ReadRecord_loop fuel r u b : good r u b →
  ReadRecord addr fuel r = read_loop addr fuel {| in_fragmented_record := false; prospective_record_offset := 0; scratch := []; fragment := [] |} r.
Proof.
  intros [Hat Hl]. unfold ReadRecord. assert (initial_offset_ r = 0) as -> by (destruct Hat as [(? & ?)|[_ (? & ?)]]; tauto).
  by rewrite (proj2 (Z.ltb_ge _ _) Hl).
Qed.
Lemma encode_length b d : 0 ≤ b ≤ kBlockSize → (length d + 7 ≤ length (encode b d).1)%nat.
Proof.
  unfold encode. assert (∀ fuel b begin d, 0 ≤ b ≤ kBlockSize → (rounds begin b d ≤ fuel)%nat → (length d + 7 ≤ length (enc fuel b begin d).1)%nat) as Hall; [|intros; by apply Hall].
  induction fuel as [|fuel IH]; intros b' begin d' Hb Hf; [by apply rounds_pos in Hf|]. cbn [enc fst].
  pose proof (fragment_fits b' d' Hb) as (Hn & Hnl & Hfit & _). pose proof (rounds_step begin b' d' fuel Hb) as Hstep. pose proof (start_range b' Hb) as Hst.
  set (f := if zlen d' <? room b' then zlen d' else room b') in *. rewrite Hnl in *. set (fr := take (Z.to_nat f) d') in *. rewrite !length_app.
  pose proof (zlen_phys (kind begin (zlen d' =? f)) fr) as Hp. rewrite Hnl in Hp. unfold zlen in Hp at 1.
  assert (length (drop (Z.to_nat f) d') = length d' - Z.to_nat f)%nat as Hdr by apply length_drop.
  destruct (Z.ltb_spec 0 (zlen (drop (Z.to_nat f) d'))) as [Hmore|Hdone]; [|unfold zlen in *; cbn; lia].
  pose proof (IH (start b' + (kHeaderSize + f)) false (drop (Z.to_nat f) d') ltac:(klia) (Hstep Hmore Hf)). unfold zlen in *. lia.
Qed.
Lemma encode_range b d : 0 ≤ b ≤ kBlockSize → 0 ≤ (encode b d).2 ≤ kBlockSize.
Proof.
  unfold encode. assert (∀ fuel b begin d, 0 ≤ b ≤ kBlockSize → 0 ≤ (enc fuel b begin d).2 ≤ kBlockSize) as Hall; [|intros; by apply Hall].
  induction fuel as [|fuel IH]; intros b' begin d' Hb; [done|]. cbn [enc snd].
  pose proof (fragment_fits b' d' Hb) as (Hn & Hnl & Hfit & _). pose proof (start_range b' Hb) as Hst. rewrite Hnl in *.
  destruct (0 <? _); [apply IH; klia|cbn; klia].
Qed.

Lemma read_encode fuel d r u b : good r ((encode b d).1 ++ u) b → (length d + 2 ≤ fuel)%nat → Forall is_byte d →
  ∃ r', ReadRecord addr fuel r = Ok (Some d, r') ∧ good r' u (encode b d).2 ∧ reports r' = reports r.
Proof.
  intros Hg Hf Hd. rewrite (ReadRecord_loop fuel r _ b Hg). destruct Hg as [Hat _].
  destruct (read_enc _ fuel true d {| in_fragmented_record := false; prospective_record_offset := 0; scratch := []; fragment := [] |} r u b Hat)
    as (r' & E & Hat' & Hrep & Hl); [unfold rounds; lia|done|done|done|]. exists r'. by split.
Qed.

Lemma read_encode_cut fuel d r c b : good r (take c (encode b d).1) b → (c < length (encode b d).1)%nat → (length d + 2 < fuel)%nat → Forall is_byte d →
  ∃ r', ReadRecord addr fuel r = Ok (None, r').
Proof.
  intros Hg Hc Hf Hd. rewrite (ReadRecord_loop fuel r _ b Hg). destruct Hg as [Hat _].
  eapply (read_cut _ fuel true d _ r c b Hat Hc); [unfold rounds; lia|done|done].
Qed.

Lemma read_all_encodes fuel rs : ∀ r u b, good r ((encodes b rs).1 ++ u) b → (length (encodes b rs).1 ≤ fuel)%nat → Forall (Forall is_byte) rs →
  ∃ r', good r' u (encodes b rs).2 ∧ reports r' = reports r ∧
    ∀ n, read_all (length rs + n) fuel r = '(l, r'') ← read_all n fuel r'; Ok (rs ++ l, r'').
Proof.
  induction rs as [|d rs IH]; intros r u b Hg Hf Hrs; cbn [encodes fst snd] in *.
  - exists r. split; [done|]. split; [done|]. intros n. cbn. by destruct (read_all n fuel r) as [[? ?]|].
  - apply Forall_cons in Hrs as [Hd Hrs]. rewrite <- app_assoc in Hg. rewrite length_app in Hf.
    assert (0 ≤ b ≤ kBlockSize) as Hb by (destruct Hg as [Hat _]; by apply at_range in Hat). pose proof (encode_length b d Hb).
    destruct (read_encode fuel d r _ b Hg) as (r1 & E1 & Hg1 & Hrep1); [lia|done|]. destruct (IH r1 u _ Hg1) as (r2 & Hg2 & Hrep2 & E2); [lia|done|].
    exists r2. split; [done|]. split; [congruence|]. intros n. cbn [length Nat.add read_all]. rewrite E1. rbind. rewrite E2. by destruct (read_all n fuel r2) as [[? ?]|].
Qed.

Lemma read_all_cut fuel rs : ∀ r b c, good r (take c (encodes b rs).1) b → (length (encodes b rs).1 + 2 ≤ fuel)%nat → Forall (Forall is_byte) rs →
  ∃ k r', ∀ n, (length rs < n)%nat → read_all n fuel r = Ok (take k rs, r').
Proof.
  assert (∀ r b n, good r [] b → (0 < n)%nat → (0 < fuel)%nat → ∃ r', read_all n fuel r = Ok ([], r')) as Hend.
  { intros r b [|n] Hg Hn Hf; [lia|]. cbn [read_all]. rewrite (ReadRecord_loop fuel r _ b Hg). destruct Hg as [Hat _]. destruct fuel as [|fuel']; [lia|].
    destruct (read_short fuel' {| in_fragmented_record := false; prospective_record_offset := 0; scratch := []; fragment := [] |} r [] b Hat) as (r' & -> & _); [change (zlen (@nil Z)) with 0; klia|]. by exists r'. }
  induction rs as [|d rs IH]; intros r b c Hg Hf Hrs; cbn [encodes fst snd] in *.
  - rewrite take_nil in Hg. destruct (Hend r b 1%nat Hg) as (r' & E); [lia|lia|]. exists 0%nat, r'. intros [|n] Hn; [cbn in Hn; lia|].
    cbn [read_all] in *. destruct (ReadRecord addr fuel r) as [[[d|] r1]|]; cbn in *; congruence.
  - apply Forall_cons in Hrs as [Hd Hrs]. rewrite length_app in Hf. assert (0 ≤ b ≤ kBlockSize) as Hb by (destruct Hg as [Hat _]; by apply at_range in Hat).
    pose proof (encode_length b d Hb) as Hel. destruct (Nat.lt_ge_cases c (length (encode b d).1)) as [Hc|Hc].
    + rewrite take_app_le in Hg by lia. exists 0%nat. assert (∃ r', ReadRecord addr fuel r = Ok (None, r')) as (r' & E).
      { by apply (read_encode_cut fuel d r c b Hg Hc); [lia|]. }
      exists r'. intros [|n] Hn; [lia|]. cbn [read_all]. by rewrite E.
    + rewrite take_app_ge in Hg by lia. destruct (read_encode fuel d r _ b Hg) as (r1 & E1 & Hg1 & _); [lia|done|].
      destruct (IH r1 _ _ Hg1) as (k & r2 & E2); [lia|done|]. exists (S k), r2. intros [|n] Hn; [lia|]. cbn [read_all]. rewrite E1. rbind.
      rewrite E2 by (cbn in Hn; lia). done.
Qed.
End reader.

(** ** The promise of the log *)

Section log.
Context (addr : bytes → Z) {W R : Type} (written : W → bytes → Prop) (unread : R → bytes → Prop) `{WritableLaws W written} `{SequentialLaws R unread}.

Lemma encodes_range rs : ∀ b, 0 ≤ b ≤ kBlockSize → 0 ≤ (encodes b rs).2 ≤ kBlockSize.
Proof. induction rs as [|d rs IH]; intros b Hb; cbn [encodes snd]; [done|]. by apply IH, encode_range. Qed.
Lemma encodes_app rs1 : ∀ b rs2, (encodes b (rs1 ++ rs2)).1 = (encodes b rs1).1 ++ (encodes (encodes b rs1).2 rs2).1.
Proof. induction rs1 as [|d rs1 IH]; intros b rs2; cbn [encodes fst snd app]; [done|]. by rewrite IH, app_assoc. Qed.
Lemma encodes_zlen rs : ∀ b, 0 ≤ b ≤ kBlockSize → (b + zlen (encodes b rs).1) `mod` kBlockSize = (encodes b rs).2 `mod` kBlockSize.
Proof.
  assert (∀ fuel b begin d, 0 ≤ b ≤ kBlockSize → (b + zlen (enc fuel b begin d).1) `mod` kBlockSize = (enc fuel b begin d).2 `mod` kBlockSize) as Henc.
  { induction fuel as [|fuel IH]; intros b begin d Hb; cbn [enc fst snd]; [f_equal; unfold zlen; cbn; lia|].
    pose proof (fragment_fits b d Hb) as (Hn & Hnl & Hfit & _). pose proof (start_range b Hb) as Hst. set (f := if zlen d <? room b then zlen d else room b) in *.
    rewrite !zlen_app, zlen_phys, Hnl. set (more := if 0 <? _ then _ else _).
    assert (((start b + (kHeaderSize + f)) + zlen more.1) `mod` kBlockSize = more.2 `mod` kBlockSize) as <-.
    { subst more. destruct (0 <? _); [apply IH; klia|]. cbn. f_equal. change (zlen (@nil Z)) with 0. lia. }
    unfold pad, start. destruct (Z.ltb_spec (kBlockSize - b) kHeaderSize) as [Hp|Hp]; [|f_equal; change (zlen (@nil Z)) with 0; klia].
    rewrite <- (mod_shift 1 (0 + _ + _)). f_equal. unfold zlen at 1. rewrite length_replicate. klia. }
  induction rs as [|d rs IH]; intros b Hb; cbn [encodes fst snd]; [f_equal; unfold zlen; cbn; lia|]. rewrite <- IH by (by apply encode_range). rewrite zlen_app, Z.add_assoc.
  rewrite <- Z.add_mod_idemp_l by klia. unfold encode. rewrite Henc by done. by rewrite Z.add_mod_idemp_l by klia.
Qed.

(** A reader of the records, and of zeros behind them. *)
Lemma read_back rs g z reporter checksum fuel n (u := (encodes 0 rs).1) : Forall (Forall is_byte) rs → unread g (u ++ replicate z 0) →
  (length u + z < fuel)%nat → (length rs < n)%nat →
  ∃ r, read_all addr n fuel (Reader_new g reporter checksum 0) = Ok (rs, r) ∧
    (z = 0%nat ∨ (zlen u + Z.of_nat z) `mod` kBlockSize = 0 → reports r = []).
Proof.
  intros Hrs Hg Hfuel Hn.
  assert (good unread (Reader_new g reporter checksum 0) ((encodes 0 rs).1 ++ replicate z 0) 0) as Hgood by (split; [by apply Reader_new_at|done]).
  destruct (read_all_encodes addr unread fuel rs _ _ 0 Hgood) as (r & Hr & Hrep & Eall); [unfold u in *; lia|done|].
  replace n with (length rs + S (n - length rs - 1))%nat by lia. rewrite Eall. cbn [read_all]. rewrite (ReadRecord_loop addr unread fuel r _ _ Hr). destruct Hr as [Hat _].
  destruct (read_zeros addr unread z fuel {| in_fragmented_record := false; prospective_record_offset := 0; scratch := []; fragment := [] |} r _ Hat) as (r' & -> & Hrep');
    [lia|done|]. rbind. exists r'. rewrite app_nil_r. split; [done|]. intros Hz. rewrite Hrep', Hrep; [done|]. destruct Hz as [->|Hz]; [by left|right].
  pose proof (encodes_zlen rs 0 ltac:(klia)) as E. rewrite Z.add_0_l in E. by rewrite <- Z.add_mod_idemp_l, <- E, Z.add_mod_idemp_l by klia.
Qed.

(** C15: every record comes back. Whatever records are appended to a new
    log through files that take every write, a reader of the file finds
    exactly those records in that order and reports no corruption, whether
    the file ends behind the last record or is followed by the zeros of a
    preallocated region up to the end of a block; a tail of zeros of any
    other length adds no record. *)
Theorem log_roundtrip f rs : written f [] → Forall (Forall is_byte) rs →
  ∃ w w' u, Writer_new addr f = Ok w ∧ write_all addr rs w = Ok (sOK, w') ∧ written (dest_ w') u ∧
    ∀ g z reporter checksum fuel n, unread g (u ++ replicate z 0) → (length u + z < fuel)%nat → (length rs < n)%nat →
      ∃ r, read_all addr n fuel (Reader_new g reporter checksum 0) = Ok (rs, r) ∧
        (z = 0%nat ∨ (zlen u + Z.of_nat z) `mod` kBlockSize = 0 → reports r = []).
Proof.
  intros Hf Hrs. destruct (Writer_new_ok addr written f Hf) as (w & Ew & Hw). destruct (write_all_ok addr written rs w [] 0 Hw) as (w' & Ew' & Hw'); [klia|done|].
  exists w, w', (encodes 0 rs).1. split; [done|]. split; [done|]. destruct Hw' as (Hw' & _). split; [done|]. intros g z reporter checksum fuel n. by apply read_back.
Qed.

(** a crash loses only the end. When the file of a log is cut at any
    byte, the reader returns a prefix of the records, and every record whose
    append had been completed before the cut is in it. *)
Theorem log_survives_cut f rs1 rs2 : written f [] → Forall (Forall is_byte) (rs1 ++ rs2) →
  ∃ w w1 w2 u1 u2, Writer_new addr f = Ok w ∧ write_all addr rs1 w = Ok (sOK, w1) ∧ written (dest_ w1) u1 ∧
    write_all addr rs2 w1 = Ok (sOK, w2) ∧ written (dest_ w2) u2 ∧
    ∀ g c reporter checksum fuel n, unread g (take c u2) → (length u1 ≤ c)%nat → (length u2 + 2 ≤ fuel)%nat → (length (rs1 ++ rs2) < n)%nat →
      ∃ k r, read_all addr n fuel (Reader_new g reporter checksum 0) = Ok (rs1 ++ take k rs2, r).
Proof.
  intros Hf Hrs. apply Forall_app in Hrs as [Hrs1 Hrs2].
  destruct (Writer_new_ok addr written f Hf) as (w & Ew & Hw). destruct (write_all_ok addr written rs1 w [] 0 Hw) as (w1 & Ew1 & Hw1); [klia|done|].
  destruct (write_all_ok addr written rs2 w1 _ _ Hw1) as (w2 & Ew2 & Hw2); [by apply encodes_range; klia|done|]. set (b := (encodes 0 rs1).2) in *.
  exists w, w1, w2, (encodes 0 rs1).1, ((encodes 0 rs1).1 ++ (encodes b rs2).1). destruct Hw1 as (Hw1 & _), Hw2 as (Hw2 & _). do 5 (split; [done|]).
  intros g c reporter checksum fuel n Hg Hc Hfuel Hn. rewrite length_app in Hfuel, Hn. rewrite take_app_ge in Hg by done.
  assert (good unread (Reader_new g reporter checksum 0) ((encodes 0 rs1).1 ++ take (c - length (encodes 0 rs1).1) (encodes b rs2).1) 0) as Hgood by (split; [by apply Reader_new_at|done]).
  destruct (read_all_encodes addr unread fuel rs1 _ _ 0 Hgood) as (r & Hr & _ & Eall); [lia|done|].
  destruct (read_all_cut addr unread fuel rs2 r _ _ Hr) as (k & r' & E); [lia|done|]. exists k, r'.
  replace n with (length rs1 + (n - length rs1))%nat by lia. rewrite Eall, E by lia. done.
Qed.
End log.

(** ** A damaged record *)


(** ** A disk that fails once *)

(** A file that refuses the next append when the flag is set. *)
Definition flaky : Type := bool * bytes.
#[local] Instance flaky_Writable : WritableFile flaky := {|
  wf_Append (f : flaky) d := if f.1 then Ok (Status.IOError (str "no space"), (false, f.2)) else Ok (sOK, (false, f.2 ++ d));
  wf_Close f := Ok (sOK, f);
  wf_Flush f := Ok (sOK, f);
  wf_Sync f := Ok (sOK, f)
|}.
#[local] Instance flaky_laws : WritableLaws flaky (λ f u, f = (false, u)).
Proof. split; intros f u **; subst f; eexists; first [done|split; reflexivity]. Qed.

(** The status of the filling at the end of a block is not looked at: when
    only that append fails, the record is reported as written although it
    begins inside the old block, where the reader does not look for it. *)
Lemma filling_error_ignored addr d (w : Writer flaky) u b : dest_ w = (true, u) → block_offset_ w = b → kBlockSize - 7 < b < kBlockSize →
  type_crc_ w = map (λ t, crc_ref 0 [t]) [0; 1; 2; 3; 4] → Forall is_byte d → zlen d ≤ 1000 →
  ∃ w', AddRecord addr d w = Ok (sOK, w') ∧ dest_ w' = (false, u ++ phys kFullType d) ∧ block_offset_ w' = 7 + zlen d.
Proof.
  intros Hw Hb Hrange Ht Hd Hl. unfold AddRecord. rewrite Nat.add_comm. cbn [Nat.add]. generalize (S (length d)). intros fuel. cbn [add_loop]. rewrite Hb, Hw. rewrite (proj2 (Z.ltb_ge _ 0)) by lia.
  rewrite (proj2 (Z.ltb_lt _ kHeaderSize)), (proj2 (Z.ltb_lt 0 _)) by klia. cbn [wf_Append flaky_Writable fst snd]. rbind. cbn [block_offset_ with_dest snd].
  rewrite (proj2 (Z.ltb_ge _ 0)) by klia. rewrite (proj2 (Z.ltb_lt (zlen d) _)) by klia. rewrite Z.eqb_refl, to_nat_zlen, firstn_all. cbn [andb].
  destruct (EmitPhysicalRecord_ok addr (F := flaky) (λ f u, f = (false, u)) kFullType d (with_dest (F := flaky) (false, u) 0 w) u 0) as (w' & -> & Hw' & Hb' & _);
    [by split|done|klia|unfold kFullType; lia|done|]. rbind. rewrite skipn_all. change (zlen (@nil Z)) with 0. cbn [ok sOK andb Z.ltb]. exists w'. split; [done|]. split; [done|klia].
Qed.

(** ** Witnesses *)

Definition sample : list bytes := [str "first"; []; str "second"].
Lemma sample_bytes : Forall (Forall is_byte) sample.
Proof. repeat constructor; lia. Qed.

Lemma log_roundtrip_witness : ∃ w w' u r, Writer_new (λ _, 0) ([] : bytes) = Ok w ∧ write_all (λ _, 0) sample w = Ok (sOK, w') ∧ dest_ w' = u ∧
  read_all (λ _, 0) 4 (S (length u)) (Reader_new u true true 0) = Ok (sample, r) ∧ reports r = [].
Proof.
  destruct (log_roundtrip (λ _, 0) (W := bytes) (R := bytes) (=) (=) [] sample eq_refl sample_bytes) as (w & w' & u & E1 & E2 & E3 & Hread).
  destruct (Hread u 0%nat true true (S (length u)) 4%nat) as (r & E4 & E5); [by rewrite app_nil_r|lia|cbn; lia|].
  exists w, w', u, r. split; [done|]. split; [done|]. split; [done|]. split; [done|]. apply E5. by left.
Defined.

Lemma log_survives_cut_witness : ∃ w w1 w2 u1 u2, Writer_new (λ _, 0) ([] : bytes) = Ok w ∧ write_all (λ _, 0) [str "first"] w = Ok (sOK, w1) ∧
  dest_ w1 = u1 ∧ write_all (λ _, 0) [str "second"] w1 = Ok (sOK, w2) ∧ dest_ w2 = u2 ∧
  ∃ k r, read_all (λ _, 0) 3 (length u2 + 2) (Reader_new (take (length u1 + 3) u2) true true 0) = Ok ([str "first"] ++ take k [str "second"], r).
Proof.
  destruct (log_survives_cut (λ _, 0) (W := bytes) (R := bytes) (=) (=) [] [str "first"] [str "second"] eq_refl) as (w & w1 & w2 & u1 & u2 & E1 & E2 & E3 & E4 & E5 & Hread).
  { repeat constructor; lia. }
  exists w, w1, w2, u1, u2. do 5 (split; [done|]). apply (Hread (take (length u1 + 3) u2) (length u1 + 3)%nat true true (length u2 + 2)%nat 3%nat); [done|lia|lia|cbn; lia].
Defined.

Definition damaged : Reader bytes := with_buffer (take 7 (phys 1 (str "a" ++ 98 :: str "c")) ++ (str "a" ++ 99 :: str "c") ++ []) (Reader_new [] true true 0).
End LogSpec.
