(* ===== verification/VersionSet.v ===== *)
(** * The set of versions of LevelDB and its manifest
    (pack/leveldb/db/version_set.cc)

    The current version changes by edits. Each edit is applied to the files of
    the current version, appended to the manifest, and installed; recovery
    applies all edits of the manifest to an empty version. *)

From stdpp Require Import sorting.
From S2P Require Import Prelude Cstd Cmem Coding Status DbFormat Iter Comparator Crc32c Env VersionEdit Version Log LogSpec.
Import VersionEdit.

Module VersionSet.

(** ** [VersionSet::Builder] *)

(** [BySmallestKey]. *)
Definition BySmallestKey (f1 f2 : FileMetaData) : result bool :=
  a ← InternalKey_Encode (smallest f1);
  b ← InternalKey_Encode (smallest f2);
  r ← InternalCompare a b;
  Ok (if negb (r =? 0) then r <? 0 else number f1 <? number f2).

(** Insertion into a [std::set] by this order, which keeps the element that is
    there. *)
Fixpoint file_insert (f : FileMetaData) (l : list FileMetaData) : result (list FileMetaData) :=
  match l with
  | [] => Ok [f]
  | g :: r =>
      b ← BySmallestKey f g;
      if b : bool then Ok (f :: l)
      else c ← BySmallestKey g f; if c : bool then r ← file_insert f r; Ok (g :: r) else Ok l
  end.

Record LevelState := { deleted_files : list Z; added_files : list FileMetaData }.
Record Builder := { base_ : list (list FileMetaData); levels_ : list LevelState }.
Definition Builder_new (base : list (list FileMetaData)) : Builder :=
  {| base_ := base; levels_ := replicate (Z.to_nat kNumLevels) {| deleted_files := []; added_files := [] |} |}.

(** A change of one level. *)
Definition on_level (level : Z) (f : LevelState → result LevelState) (b : Builder) : result Builder :=
  match levels_ b !! Z.to_nat level with
  | Some l => l ← f l; Ok {| base_ := base_ b; levels_ := <[Z.to_nat level := l]> (levels_ b) |}
  | None => Fault OutOfBounds
  end.

Fixpoint apply_deleted (l : list (Z * Z)) (b : Builder) : result Builder :=
  match l with
  | [] => Ok b
  | (level, n) :: l => b ← on_level level (λ s, Ok {| deleted_files := n :: deleted_files s; added_files := added_files s |}) b; apply_deleted l b
  end.

(** A new file may be sought once per 16 KB, and at least 100 times. *)
Definition seeks_for (file_size : Z) : Z := let n := i32 (file_size / 16384) in if n <? 100 then 100 else n.
Definition file_for (f : FileMetaData) : FileMetaData :=
  {| allowed_seeks := seeks_for (file_size f); number := number f; file_size := file_size f; smallest := smallest f; largest := largest f |}.
Fixpoint apply_new (l : list (Z * FileMetaData)) (b : Builder) : result Builder :=
  match l with
  | [] => Ok b
  | (level, f) :: l =>
      b ← on_level level (λ s, a ← file_insert (file_for f) (added_files s); Ok {| deleted_files := filter (λ n, n ≠ number f) (deleted_files s); added_files := a |}) b;
      apply_new l b
  end.

(** The compaction pointers are those of the set of versions. *)
Fixpoint apply_pointers (l : list (Z * bytes)) (p : list bytes) : result (list bytes) :=
  match l with
  | [] => Ok p
  | (level, key) :: l =>
      k ← InternalKey_Encode key;
      if Z.to_nat level <? length p then apply_pointers l (<[Z.to_nat level := k]> p) else Fault OutOfBounds
  end%nat.

Definition Apply (edit : VersionEdit) (b : Builder) (p : list bytes) : result (Builder * list bytes) :=
  p ← apply_pointers (compact_pointers_ edit) p;
  b ← apply_deleted (deleted_files_ edit) b;
  b ← apply_new (new_files_ edit) b;
  Ok (b, p).

Definition Compare_keys (a b : bytes) : result Z := a ← InternalKey_Encode a; b ← InternalKey_Encode b; InternalCompare a b.

Definition MaybeAddFile (level : nat) (deleted : list Z) (f : FileMetaData) (files : list FileMetaData) : result (list FileMetaData) :=
  if decide (number f ∈ deleted) then Ok files
  else
    match level, last files with
    | S _, Some g => c ← Compare_keys (largest g) (smallest f); if c <? 0 then Ok (files ++ [f]) else Fault AssertFailed
    | _, _ => Ok (files ++ [f])
    end.
Fixpoint add_files (level : nat) (deleted : list Z) (fs files : list FileMetaData) : result (list FileMetaData) :=
  match fs with [] => Ok files | f :: fs => files ← MaybeAddFile level deleted f files; add_files level deleted fs files end.

(** [std::upper_bound] in a sorted list: what is not above the file, and the
    rest. *)
Fixpoint upper_bound (f : FileMetaData) (base : list FileMetaData) : result (list FileMetaData * list FileMetaData) :=
  match base with
  | [] => Ok ([], [])
  | g :: r => b ← BySmallestKey f g; if b : bool then Ok ([], base) else '(x, y) ← upper_bound f r; Ok (g :: x, y)
  end.

Fixpoint merge_files (level : nat) (deleted : list Z) (added base files : list FileMetaData) : result (list FileMetaData) :=
  match added with
  | [] => add_files level deleted base files
  | f :: added =>
      '(before, base) ← upper_bound f base;
      files ← add_files level deleted before files;
      files ← MaybeAddFile level deleted f files;
      merge_files level deleted added base files
  end.

(** The check of the levels above 0 that aborts. *)
Fixpoint check_disjoint (fs : list FileMetaData) : result () :=
  match fs with
  | f :: (g :: _) as fs => c ← Compare_keys (largest f) (smallest g); if 0 <=? c then Fault AssertFailed else check_disjoint fs
  | _ => Ok ()
  end.

Fixpoint save_levels (level : nat) (base : list (list FileMetaData)) (ls : list LevelState) : result (list (list FileMetaData)) :=
  match ls with
  | [] => Ok []
  | l :: ls =>
      match base with
      | [] => Fault OutOfBounds
      | fs :: base =>
          files ← merge_files level (deleted_files l) (added_files l) fs [];
          _ ← (match level with O => Ok () | S _ => check_disjoint files end);
          rest ← save_levels (S level) base ls;
          Ok (files :: rest)
      end
  end.
Definition SaveTo (b : Builder) : result (list (list FileMetaData)) := save_levels 0 (base_ b) (levels_ b).

(** ** The set of versions *)
Section set.
Context (addr : bytes → Z) {F S : Type} `{WritableFile F} `{SequentialFile S}.

(** [current_] is given by its files; the older versions, which readers keep
    alive, are left out. *)
Record VersionSet := {
  vs_next_file : Z;
  vs_manifest : Z;
  vs_last_sequence : Z;
  vs_log : Z;
  vs_prev_log : Z;
  descriptor_log_ : option (Log.Writer F);
  vs_current : list (list FileMetaData);
  compact_pointer_ : list bytes
}.

Definition no_files : list (list FileMetaData) := replicate (Z.to_nat kNumLevels) [].
Definition VersionSet_new : VersionSet :=
  {| vs_next_file := 2; vs_manifest := 0; vs_last_sequence := 0; vs_log := 0; vs_prev_log := 0; descriptor_log_ := None;
     vs_current := no_files; compact_pointer_ := replicate (Z.to_nat kNumLevels) [] |}.

Definition with_next (n : Z) (v : VersionSet) : VersionSet :=
  {| vs_next_file := n; vs_manifest := vs_manifest v; vs_last_sequence := vs_last_sequence v; vs_log := vs_log v; vs_prev_log := vs_prev_log v;
     descriptor_log_ := descriptor_log_ v; vs_current := vs_current v; compact_pointer_ := compact_pointer_ v |}.
Definition NewFileNumber (v : VersionSet) : Z * VersionSet := (vs_next_file v, with_next (u64 (vs_next_file v + 1)) v).
Definition ReuseFileNumber (n : Z) (v : VersionSet) : VersionSet := if vs_next_file v =? u64 (n + 1) then with_next n v else v.
Definition MarkFileNumberUsed (n : Z) (v : VersionSet) : VersionSet := if vs_next_file v <=? n then with_next (u64 (n + 1)) v else v.
Definition SetLastSequence (s : Z) (v : VersionSet) : result VersionSet :=
  if vs_last_sequence v <=? s then
    Ok {| vs_next_file := vs_next_file v; vs_manifest := vs_manifest v; vs_last_sequence := s; vs_log := vs_log v; vs_prev_log := vs_prev_log v;
          descriptor_log_ := descriptor_log_ v; vs_current := vs_current v; compact_pointer_ := compact_pointer_ v |}
  else Fault AssertFailed.

Definition comparator_name : bytes := str "leveldb.BytewiseComparator".

(** [WriteSnapshot]: the edit that makes the current version. *)
Fixpoint save_pointers (level : Z) (p : list bytes) (e : VersionEdit) : VersionEdit :=
  match p with [] => e | k :: p => save_pointers (level + 1) p (if zlen k =? 0 then e else SetCompactPointer level k e) end.
Fixpoint save_files (level : Z) (fs : list FileMetaData) (e : VersionEdit) : VersionEdit :=
  match fs with [] => e | f :: fs => save_files level fs (AddFile level (number f) (file_size f) (smallest f) (largest f) e) end.
Fixpoint save_all (level : Z) (files : list (list FileMetaData)) (e : VersionEdit) : VersionEdit :=
  match files with [] => e | fs :: files => save_all (level + 1) files (save_files level fs e) end.
Definition snapshot_edit (files : list (list FileMetaData)) (p : list bytes) : VersionEdit :=
  save_all 0 files (save_pointers 0 p (SetComparatorName comparator_name VersionEdit_new)).
Definition WriteSnapshot (files : list (list FileMetaData)) (p : list bytes) (log : Log.Writer F) : result (Status * Log.Writer F) :=
  record ← EncodeTo (snapshot_edit files p) [];
  Log.AddRecord addr record log.

(** [DBImpl::NewDB]: the first manifest, with what the environment answers
    when it is created and when CURRENT is set; the file, unless it is deleted
    again. *)
Definition new_db_edit : VersionEdit := VersionEdit.SetLastSequence 0 (SetNextFile 2 (SetLogNumber 0 (SetComparatorName comparator_name VersionEdit_new))).
Definition NewDB (created : Status * option F) (current : Status) : result (Status * option F) :=
  match created with
  | (s, Some file) =>
      if negb (ok s) then Ok (s, None)
      else
        log ← Log.Writer_new addr file;
        record ← EncodeTo new_db_edit [];
        '(s, log) ← Log.AddRecord addr record log;
        '(s, file) ← (if ok s then wf_Close (Log.dest_ log) else Ok (s, Log.dest_ log));
        if ok s then Ok (current, Some file) else Ok (s, None)
  | (s, None) => if negb (ok s) then Ok (s, None) else Fault OutOfBounds
  end.

(** [ManifestContains] on the file of the manifest, if it opens. *)
Fixpoint contains_loop (n fuel : nat) (record : bytes) (r : Log.Reader S) : result bool :=
  match n with
  | O => Fault AssertFailed
  | Datatypes.S n =>
      '(rec, r) ← Log.ReadRecord addr fuel r;
      match rec with Some d => if decide (d = record) then Ok true else contains_loop n fuel record r | None => Ok false end
  end.
Definition ManifestContains (n fuel : nat) (record : bytes) (file : option S) : result bool :=
  match file with Some f => contains_loop n fuel record (Log.Reader_new f false true 0) | None => Ok false end.

(** What the environment answers while an edit is written: the new manifest
    file, the manifest opened for reading, and the result of
    [SetCurrentFile]. *)
Record Outcome := { o_file : Status * option F; o_manifest : option S; o_current : Status }.

Definition LogAndApply (n fuel : nat) (o : Outcome) (edit : VersionEdit) (v : VersionSet) : result (Status * VersionSet) :=
  edit ← (match log_number_ edit with
          | Some l => if (vs_log v <=? l) && (l <? vs_next_file v) then Ok edit else Fault AssertFailed
          | None => Ok (SetLogNumber (vs_log v) edit)
          end);
  let edit := match prev_log_number_ edit with Some _ => edit | None => SetPrevLogNumber (vs_prev_log v) edit end in
  let edit := VersionEdit.SetLastSequence (vs_last_sequence v) (SetNextFile (vs_next_file v) edit) in
  '(b, p) ← Apply edit (Builder_new (vs_current v)) (compact_pointer_ v);
  files ← SaveTo b;
  '(s, log) ← (match descriptor_log_ v with
               | Some log => Ok (sOK, Some log)
               | None =>
                   if vs_manifest v <=? 0 then Fault AssertFailed
                   else match o_file o with
                        | (s, Some f) =>
                            if ok s then log ← Log.Writer_new addr f; '(s, log) ← WriteSnapshot (vs_current v) p log; Ok (s, Some log) else Ok (s, None)
                        | (s, None) => if ok s then Fault OutOfBounds else Ok (s, None)
                        end
               end);
  '(s, log) ← (match log with
               | Some log =>
                   if ok s then
                     record ← EncodeTo edit [];
                     '(s, log) ← Log.AddRecord addr record log;
                     '(s, log) ← (if ok s then '(s, f) ← wf_Sync (Log.dest_ log); Ok (s, Log.with_dest f (Log.block_offset_ log) log) else Ok (s, log));
                     s ← (if ok s then Ok s else c ← ManifestContains n fuel record (o_manifest o); Ok (if c : bool then sOK else s));
                     Ok (s, Some log)
                   else Ok (s, Some log)
               | None => Ok (s, None)
               end);
  let created := bool_decide (descriptor_log_ v = None) in
  let s := if ok s && created then o_current o else s in
  if ok s then
    Ok (s, {| vs_next_file := vs_next_file v; vs_manifest := vs_manifest v; vs_last_sequence := vs_last_sequence v; vs_log := default (vs_log v) (log_number_ edit);
              vs_prev_log := default (vs_prev_log v) (prev_log_number_ edit); descriptor_log_ := log; vs_current := files; compact_pointer_ := p |})
  else
    Ok (s, {| vs_next_file := vs_next_file v; vs_manifest := vs_manifest v; vs_last_sequence := vs_last_sequence v; vs_log := vs_log v; vs_prev_log := vs_prev_log v;
              descriptor_log_ := if created then None else log; vs_current := vs_current v; compact_pointer_ := p |}).

(** ** Recovery *)
Record Recovery := {
  r_status : Status; r_builder : Builder; r_pointers : list bytes;
  r_log : option Z; r_prev_log : option Z; r_next_file : option Z; r_last_sequence : option Z
}.
(** [LogReporter] keeps the first report. *)
Definition noted (s : Status) (r : Log.Reader S) : Status := if ok s then match last (Log.reports r) with Some (_, e) => e | None => s end else s.
Definition later {A} (new old : option A) : option A := match new with Some a => Some a | None => old end.

Definition recover_edit (record : bytes) (v : Recovery) : result Recovery :=
  '(s, edit) ← DecodeFrom record VersionEdit_new;
  let s := if ok s then match comparator_ edit with
                        | Some c => if decide (c = comparator_name) then s else InvalidArgument2 (c ++ str " does not match existing comparator ") comparator_name
                        | None => s
                        end else s in
  '(b, p) ← (if ok s then Apply edit (r_builder v) (r_pointers v) else Ok (r_builder v, r_pointers v));
  Ok {| r_status := s; r_builder := b; r_pointers := p; r_log := later (log_number_ edit) (r_log v); r_prev_log := later (prev_log_number_ edit) (r_prev_log v);
        r_next_file := later (next_file_number_ edit) (r_next_file v); r_last_sequence := later (last_sequence_ edit) (r_last_sequence v) |}.

Definition with_status (s : Status) (v : Recovery) : Recovery :=
  {| r_status := s; r_builder := r_builder v; r_pointers := r_pointers v; r_log := r_log v; r_prev_log := r_prev_log v; r_next_file := r_next_file v; r_last_sequence := r_last_sequence v |}.

Fixpoint recover_loop (n fuel : nat) (r : Log.Reader S) (v : Recovery) : result Recovery :=
  match n with
  | O => Fault AssertFailed
  | Datatypes.S n =>
      '(rec, r) ← Log.ReadRecord addr fuel r;
      let v := with_status (noted (r_status v) r) v in
      match rec with
      | Some record => if ok (r_status v) then v ← recover_edit record v; recover_loop n fuel r v else Ok v
      | None => Ok v
      end
  end.

(** [Recover] from the manifest that CURRENT names. *)
Definition Recover (n fuel : nat) (file : S) (v : VersionSet) : result (Status * VersionSet) :=
  r ← recover_loop n fuel (Log.Reader_new file true true 0)
        {| r_status := sOK; r_builder := Builder_new (vs_current v); r_pointers := compact_pointer_ v; r_log := None; r_prev_log := None; r_next_file := None; r_last_sequence := None |};
  let v := {| vs_next_file := vs_next_file v; vs_manifest := vs_manifest v; vs_last_sequence := vs_last_sequence v; vs_log := vs_log v; vs_prev_log := vs_prev_log v;
              descriptor_log_ := descriptor_log_ v; vs_current := vs_current v; compact_pointer_ := r_pointers r |} in
  if negb (ok (r_status r)) then Ok (r_status r, v)
  else
    let s := match r_next_file r, r_log r, r_last_sequence r with
             | None, _, _ => Corruption (str "no meta-nextfile entry in descriptor")
             | _, None, _ => Corruption (str "no meta-lognumber entry in descriptor")
             | _, _, None => Corruption (str "no last-sequence-number entry in descriptor")
             | _, _, _ => sOK
             end in
    let prev := default 0 (r_prev_log r) in
    let v := MarkFileNumberUsed (default 0 (r_log r)) (MarkFileNumberUsed prev v) in
    if negb (ok s) then Ok (s, v)
    else
      files ← SaveTo (r_builder r);
      let next := default 0 (r_next_file r) in
      Ok (s, {| vs_next_file := u64 (next + 1); vs_manifest := next; vs_last_sequence := default 0 (r_last_sequence r); vs_log := default 0 (r_log r); vs_prev_log := prev;
                descriptor_log_ := descriptor_log_ v; vs_current := files; compact_pointer_ := compact_pointer_ v |}).
End set.
Arguments VersionSet F : clear implicits.
Arguments Outcome F S : clear implicits.
End VersionSet.

(** * The manifest restores the version

    Whatever edits are applied and logged, recovery from the manifest gives
    the files of every level, the numbers and the compaction pointers that
    were current. *)
Import VersionEdit VersionSet.

(** ** Files in order *)
Definition decoded_key (r : bytes) : bytes * Z := (take (length r - 8) r, match DecodeFixed64 (drop (length r - 8) r) with Ok t => t | _ => 0 end).
Definition skey (f : FileMetaData) : bytes * Z := decoded_key (smallest f).
Definition lkey (f : FileMetaData) : bytes * Z := decoded_key (largest f).

Lemma decoded_ikey k : key_ok k → decoded_key (ikey k) = k.
Proof. intros [_ Ht]. unfold decoded_key. rewrite ikey_user, DecodeFixed64_ikey by done. by destruct k. Qed.

(** A file as [Apply] makes it. *)
Record good_file (f : FileMetaData) : Prop := {
  gf_smallest : smallest f = ikey (skey f) ∧ key_ok (skey f);
  gf_largest : largest f = ikey (lkey f) ∧ key_ok (lkey f);
  gf_bytes : Forall is_byte (smallest f) ∧ Forall is_byte (largest f);
  gf_numbers : u64_ok (number f) ∧ u64_ok (file_size f);
  gf_seeks : file_for f = f
}.

Definition fcmp (f g : FileMetaData) : Z := let r := icmp (skey f) (skey g) in if r =? 0 then number f - number g else r.

#[export] Instance fcmp_order : KeyOrder fcmp.
Proof.
  split.
  - intros f g. unfold fcmp. cbv zeta. pose proof (icmp_sym (skey f) (skey g)). destruct (Z.eqb_spec (icmp (skey f) (skey g)) 0), (Z.eqb_spec (icmp (skey g) (skey f)) 0); lia.
  - intros a b c. unfold fcmp. cbv zeta. destruct (Z.eqb_spec (icmp (skey a) (skey b)) 0) as [E1|N1], (Z.eqb_spec (icmp (skey b) (skey c)) 0) as [E2|N2]; intros H1 H2.
    + apply icmp_eq in E1, E2. rewrite E1, E2, (proj2 (icmp_eq _ _) eq_refl). cbn. lia.
    + apply icmp_eq in E1. rewrite E1. rewrite (proj2 (Z.eqb_neq _ _)) by done. done.
    + apply icmp_eq in E2. rewrite <- E2. rewrite (proj2 (Z.eqb_neq _ _)) by done. done.
    + pose proof (ko_lt_le (cmp := icmp) (skey a) (skey b) (skey c) ltac:(lia) ltac:(lia)). rewrite (proj2 (Z.eqb_neq _ _)) by lia. lia.
Qed.

Lemma encode_key k : key_ok k → InternalKey_Encode (ikey k) = Ok (ikey k).
Proof. intros _. unfold InternalKey_Encode. rewrite (proj2 (Z.eqb_neq _ _)); [done|]. rewrite zlen_ikey. zlia. Qed.

Lemma BySmallestKey_ok f g : good_file f → good_file g → BySmallestKey f g = Ok (fcmp f g <? 0).
Proof.
  intros [[Ef Hf] _ _ _ _] [[Eg Hg] _ _ _ _]. unfold BySmallestKey. rewrite Ef, Eg, !encode_key by done. rbind. rewrite InternalCompare_ok by done. rbind. unfold fcmp.
  destruct (Z.eqb_spec (icmp (skey f) (skey g)) 0); cbn [negb]; [|done]. f_equal. apply eq_true_iff_eq. rewrite !Z.ltb_lt. lia.
Qed.

Lemma Compare_ok f g : good_file f → good_file g → Compare_keys (largest f) (smallest g) = Ok (icmp (lkey f) (skey g)).
Proof. intros [_ [Ef Hf] _ _ _] [[Eg Hg] _ _ _ _]. unfold Compare_keys. rewrite Ef, Eg, !encode_key by done. rbind. by rewrite InternalCompare_ok. Qed.

Section named.
(** Every number is the number of one file. *)
Context (ids : Z → FileMetaData).
Definition fgood (f : FileMetaData) : Prop := good_file f ∧ ids (number f) = f.

Lemma fcmp_eq f g : fgood f → fgood g → fcmp f g = 0 → f = g.
Proof. intros [_ Hf] [_ Hg]. unfold fcmp. destruct (Z.eqb_spec (icmp (skey f) (skey g)) 0); intros E; [|done]. assert (number f = number g) as En by lia. rewrite En in Hf. congruence. Qed.
Lemma fcmp_refl f : fcmp f f = 0.
Proof. pose proof (ko_sym (cmp := fcmp) f f). lia. Qed.

Abbreviation fsorted := (sorted (cmp := fcmp)).

(** A sorted list is given by its elements. *)
Lemma sorted_elements l l' : fsorted l → fsorted l' → (∀ f, f ∈ l ↔ f ∈ l') → l = l'.
Proof.
  unfold sorted. revert l'. induction l as [|x l IH]; intros l' Hl Hl' He.
  - destruct l' as [|y l']; [done|]. specialize (He y). set_solver.
  - destruct l' as [|y l']; [specialize (He x); set_solver|]. apply StronglySorted_cons in Hl as [Hx Hl], Hl' as [Hy Hl']. rewrite Forall_forall in Hx, Hy.
    assert (x = y) as <-.
    { assert (x ∈ y :: l') as [|Hin]%elem_of_cons by (apply He; set_solver); [done|]. assert (y ∈ x :: l) as [|Hin']%elem_of_cons by (apply He; set_solver); [done|].
      specialize (Hx y Hin'). specialize (Hy x Hin). rewrite ko_sym in Hx. lia. }
    f_equal. apply IH; [done..|]. intros f. specialize (He f). rewrite !elem_of_cons in He. split; intros Hf.
    + destruct (proj1 He (or_intror Hf)) as [->|]; [|done]. specialize (Hx _ Hf). rewrite fcmp_refl in Hx. lia.
    + destruct (proj2 He (or_intror Hf)) as [->|]; [|done]. specialize (Hy _ Hf). rewrite fcmp_refl in Hy. lia.
Qed.

Lemma file_insert_ok f l : fsorted l → Forall fgood l → fgood f →
  ∃ l', file_insert f l = Ok l' ∧ fsorted l' ∧ Forall fgood l' ∧ ∀ x, x ∈ l' ↔ x = f ∨ x ∈ l.
Proof.
  unfold sorted. intros Hs Hl Hf. induction l as [|g l IH]; cbn [file_insert].
  - exists [f]. split; [done|]. split; [constructor; constructor|]. split; [by apply Forall_singleton|]. intros x. rewrite elem_of_cons. done.
  - apply StronglySorted_cons in Hs as [Hg Hs]. apply Forall_cons in Hl as [Hgg Hl]. rewrite !BySmallestKey_ok by (apply Hf || apply Hgg). rbind. destruct (Z.ltb_spec (fcmp f g) 0) as [Hlt|Hge].
    + exists (f :: g :: l). split; [done|]. split; [|split; [by apply Forall_cons_2; [|apply Forall_cons_2]|intros x; by rewrite elem_of_cons]]. apply StronglySorted_cons. split; [|by apply StronglySorted_cons].
      constructor; [done|]. rewrite Forall_forall in Hg |- *. intros x Hx. specialize (Hg x Hx). apply (ko_lt_le (cmp := fcmp) f g x); lia.
    + rbind. destruct (Z.ltb_spec (fcmp g f) 0) as [Hlt'|Hge'].
      * destruct (IH Hs Hl) as (l' & -> & Hs' & Hl' & He). rbind. exists (g :: l'). split; [done|]. split; [|split; [by constructor|]].
        -- apply StronglySorted_cons. split; [|done]. apply Forall_forall. intros x Hx. apply He in Hx as [->|Hx]; [done|]. rewrite Forall_forall in Hg. by apply Hg.
        -- intros x. rewrite elem_of_cons, He, elem_of_cons. tauto.
      * assert (f = g) as <- by (apply fcmp_eq; [done..|rewrite ko_sym in Hge'; lia]). exists (f :: l). split; [done|]. split; [by apply StronglySorted_cons|]. split; [by constructor|]. intros x. rewrite elem_of_cons. tauto.
Qed.

(** ** Merging a level *)
Fixpoint above_split (f : FileMetaData) (base : list FileMetaData) : list FileMetaData * list FileMetaData :=
  match base with [] => ([], []) | g :: r => if fcmp f g <? 0 then ([], base) else let '(x, y) := above_split f r in (g :: x, y) end.
Fixpoint visits (added base : list FileMetaData) : list FileMetaData :=
  match added with [] => base | f :: added => (above_split f base).1 ++ f :: visits added (above_split f base).2 end.

Lemma above_split_app f base : base = (above_split f base).1 ++ (above_split f base).2.
Proof. induction base as [|g r IH]; [done|]. cbn. destruct (fcmp f g <? 0); [done|]. destruct (above_split f r). cbn in *. by rewrite <- IH. Qed.
Lemma above_split_ok f base : fsorted base → Forall (λ g, fcmp f g ≠ 0) base →
  Forall (λ g, fcmp g f < 0) (above_split f base).1 ∧ Forall (λ g, fcmp f g < 0) (above_split f base).2.
Proof.
  unfold sorted. induction base as [|g r IH]; intros Hs Hne; [done|]. apply StronglySorted_cons in Hs as [Hg Hs]. apply Forall_cons in Hne as [Hn Hne]. cbn. destruct (Z.ltb_spec (fcmp f g) 0) as [Hlt|Hge].
  - split; [done|]. constructor; [done|]. rewrite Forall_forall in Hg |- *. intros x Hx. specialize (Hg x Hx). apply (ko_lt_le (cmp := fcmp) f g x); lia.
  - destruct (IH Hs Hne) as [H1 H2]. destruct (above_split f r). cbn in *. split; [|done]. constructor; [|done]. rewrite ko_sym. lia.
Qed.

Lemma upper_bound_ok f base : good_file f → Forall good_file base → upper_bound f base = Ok (above_split f base).
Proof.
  intros Hf. induction 1 as [|g r Hg _ IH]; [done|]. cbn [upper_bound above_split]. rewrite BySmallestKey_ok by done. rbind. destruct (fcmp f g <? 0); [done|]. rewrite IH. rbind. by destruct (above_split f r).
Qed.

Lemma visits_elem added base x : x ∈ visits added base ↔ x ∈ added ∨ x ∈ base.
Proof.
  revert base. induction added as [|f added IH]; intros base; cbn; [set_solver|]. rewrite elem_of_app, !elem_of_cons, IH. rewrite (above_split_app f base) at 3. rewrite elem_of_app. tauto.
Qed.

Lemma visits_sorted added : ∀ base, fsorted added → fsorted base → (∀ f g, f ∈ added → g ∈ base → fcmp f g ≠ 0) → fsorted (visits added base).
Proof.
  unfold sorted. induction added as [|f added IH]; intros base Ha Hb Hne; [done|]. cbn. apply StronglySorted_cons in Ha as [Hf Ha]. rewrite Forall_forall in Hf.
  destruct (above_split_ok f base Hb) as [H1 H2]; [apply Forall_forall; intros g Hg; apply Hne; set_solver|]. pose proof (above_split_app f base) as E. destruct (above_split f base) as [x y]. cbn in *. subst base.
  apply StronglySorted_app in Hb as (Hxy & Hx & Hy). rewrite Forall_forall in H1, H2.
  apply StronglySorted_app. split; [|split; [done|]].
  - intros a b Haa Hbb. apply elem_of_cons in Hbb as [->|Hbb]; [by apply H1|]. apply visits_elem in Hbb as [Hbb|Hbb]; [|by apply Hxy]. specialize (H1 a Haa). specialize (Hf b Hbb). apply (ko_lt_le (cmp := fcmp) a f b); lia.
  - apply StronglySorted_cons. split; [|apply IH; [done|done|]; intros; apply Hne; set_solver]. apply Forall_forall. intros b Hb. apply visits_elem in Hb as [Hb|Hb]; [by apply Hf|by apply H2].
Qed.

Lemma filter_good (Q P : FileMetaData → Prop) `{∀ f, Decision (P f)} l : Forall Q l → Forall Q (filter P l).
Proof. rewrite !Forall_forall. intros Hl f Hf. apply list_elem_of_filter in Hf as [_ Hf]. by apply Hl. Qed.
Lemma filter_sorted (P : FileMetaData → Prop) `{∀ f, Decision (P f)} l : fsorted l → fsorted (filter P l).
Proof.
  unfold sorted. induction 1 as [|f l Hs IH Hf]; [constructor|]. rewrite filter_cons. destruct (decide (P f)); [|done]. constructor; [done|]. by apply filter_good.
Qed.

(** Files of a level above 0 do not overlap. *)
Definition disjoint (level : nat) (fs : list FileMetaData) : Prop :=
  match level with O => True | S _ => ∀ i f g, fs !! i = Some f → fs !! S i = Some g → icmp (lkey f) (skey g) < 0 end.

Lemma disjoint_prefix level a b : disjoint level (a ++ b) → disjoint level a.
Proof.
  destruct level; [done|]. cbn. intros H i f g Hf Hg. apply (H i); by apply lookup_app_l_Some.
Qed.

Lemma MaybeAdd_ok level D f files : fgood f → Forall fgood files → disjoint level (files ++ filter (λ g, number g ∉ D) [f]) →
  MaybeAddFile level D f files = Ok (files ++ filter (λ g, number g ∉ D) [f]).
Proof.
  intros Hf Hfs Hd. unfold MaybeAddFile. destruct (decide (number f ∈ D)) as [Hin|Hin].
  { assert (filter (λ g, number g ∉ D) [f] = []) as ->; [|by rewrite app_nil_r]. rewrite filter_cons_False; [done|]. intros Hn. by apply Hn. }
  assert (filter (λ g, number g ∉ D) [f] = [f]) as E by (by rewrite filter_cons_True). rewrite E in *. clear E.
  destruct level as [|level]; [done|]. destruct (last files) as [g|] eqn:El; [|done]. pose proof El as El'. apply last_Some in El' as [l' E']. assert (fgood g) as Hg by (rewrite E' in Hfs; apply Forall_app in Hfs as [_ Hfs]; by apply Forall_cons in Hfs as [? _]).
  rewrite Compare_ok by (apply Hf || apply Hg). rbind. assert (icmp (lkey g) (skey f) < 0) as Hc; [|by rewrite (proj2 (Z.ltb_lt _ _) Hc)].
  apply (Hd (length l') g f); rewrite E', <- app_assoc; [by apply list_lookup_middle|]. rewrite lookup_app_r by lia. by replace (S (length l') - length l')%nat with 1%nat by lia.
Qed.

Lemma add_files_ok level D fs : ∀ files, Forall fgood fs → Forall fgood files → disjoint level (files ++ filter (λ g, number g ∉ D) fs) →
  add_files level D fs files = Ok (files ++ filter (λ g, number g ∉ D) fs).
Proof.
  induction fs as [|f fs IH]; intros files Hfs Hfiles Hd; [cbn; by rewrite app_nil_r|]. apply Forall_cons in Hfs as [Hf Hfs]. cbn [add_files].
  assert (filter (λ g, number g ∉ D) (f :: fs) = filter (λ g, number g ∉ D) [f] ++ filter (λ g, number g ∉ D) fs) as E by (by rewrite <- filter_app).
  rewrite E, app_assoc in *. rewrite MaybeAdd_ok; [|done|done|by eapply disjoint_prefix]. rbind. apply IH; [done| |done]. apply Forall_app. split; [done|]. by apply filter_good, Forall_singleton.
Qed.

Lemma add_files_app level D a b files : add_files level D (a ++ b) files = (x ← add_files level D a files; add_files level D b x).
Proof. revert files. induction a as [|f a IH]; intros files; [done|]. cbn [app add_files]. destruct (MaybeAddFile level D f files) as [x|]; rbind; [apply IH|done]. Qed.

Lemma merge_files_visits level D added : ∀ base files, Forall good_file added → Forall good_file base → merge_files level D added base files = add_files level D (visits added base) files.
Proof.
  induction added as [|f added IH]; intros base files Ha Hb; [done|]. apply Forall_cons in Ha as [Hf Ha]. cbn [merge_files visits]. rewrite upper_bound_ok by done. rewrite (above_split_app f base) in Hb. apply Forall_app in Hb as [_ Hb].
  destruct (above_split f base) as [x y]. cbn in *. rewrite add_files_app. destruct (add_files level D x files) as [z|]; rbind; [|done]. cbn [add_files]. destruct (MaybeAddFile level D f z) as [w|]; rbind; [|done]. by apply IH.
Qed.

Lemma check_disjoint_ok level fs : Forall fgood fs → disjoint level fs → (match level with O => Ok () | S _ => check_disjoint fs end) = Ok ().
Proof.
  destruct level as [|level]; [done|]. cbn [disjoint]. induction fs as [|f fs IH]; intros Hg Hd; [done|]. apply Forall_cons in Hg as [Hf Hg]. destruct fs as [|g fs]; [done|]. cbn [check_disjoint]. pose proof Hg as [Hgg _]%Forall_cons.
  rewrite Compare_ok by (apply Hf || apply Hgg). rbind. specialize (Hd 0%nat f g eq_refl eq_refl) as Hc. rewrite (proj2 (Z.leb_gt _ _)) by done. apply IH; [done|]. intros i a b Ha Hb. by apply (Hd (S i)).
Qed.

(** A level of the builder, and what it saves. *)
Record level_inv (s : LevelState) : Prop := { li_sorted : fsorted (added_files s); li_good : Forall fgood (added_files s) }.
Record saves (level : nat) (base : list FileMetaData) (s : LevelState) (m : list FileMetaData) : Prop := {
  sv_sorted : fsorted m;
  sv_disjoint : disjoint level m;
  sv_elem f : f ∈ m ↔ (f ∈ added_files s ∨ f ∈ base) ∧ number f ∉ deleted_files s;
  sv_fresh f g : f ∈ added_files s → g ∈ base → f ≠ g
}.

Lemma save_level_ok level base s m : level_inv s → fsorted base → Forall fgood base → saves level base s m →
  merge_files level (deleted_files s) (added_files s) base [] = Ok m ∧ Forall fgood m.
Proof.
  intros [Hs Hg] Hb Hgb [Hm Hd He Hne]. assert (Forall fgood (visits (added_files s) base)) as Hgv. { apply Forall_forall. intros f Hf. apply visits_elem in Hf as [Hf|Hf]; [rewrite Forall_forall in Hg; by apply Hg|rewrite Forall_forall in Hgb; by apply Hgb]. }
  assert (m = filter (λ g, number g ∉ deleted_files s) (visits (added_files s) base)) as Em.
  { apply sorted_elements; [done| |].
    - apply filter_sorted, visits_sorted; [done..|]. intros f g Hf Hgb' E. rewrite Forall_forall in Hg, Hgb. apply (Hne f g Hf Hgb'). apply fcmp_eq; [by apply Hg|by apply Hgb|done].
    - intros f. rewrite He, list_elem_of_filter, visits_elem. tauto. }
  assert (∀ l, Forall fgood l → Forall good_file l) as Hw by (intros l H; eapply Forall_impl; [exact H|]; by intros ? []).
  rewrite merge_files_visits by (by apply Hw). rewrite add_files_ok; [by rewrite <- Em; split; [|rewrite Em; by apply filter_good]|done|done|]. by rewrite <- Em.
Qed.

Lemma save_levels_ok level ls : ∀ base ms, Forall2 (λ b m, True) base ms → length ls = length ms →
  (∀ i s b m, ls !! i = Some s → base !! i = Some b → ms !! i = Some m → level_inv s ∧ fsorted b ∧ Forall fgood b ∧ saves (level + i) b s m) →
  save_levels level base ls = Ok ms ∧ Forall (Forall fgood) ms.
Proof.
  revert level. induction ls as [|s ls IH]; intros level base ms Hlen Hl H.
  { destruct ms; [|discriminate Hl]. apply Forall2_nil_inv_r in Hlen as ->. split; [reflexivity|constructor]. }
  destruct ms as [|m ms]; [discriminate Hl|]. apply Forall2_cons_inv_r in Hlen as (b & base' & _ & Hlen & ->). cbn [save_levels].
  destruct (H 0%nat s b m eq_refl eq_refl eq_refl) as (Hi & Hb & Hgb & Hsv). rewrite Nat.add_0_r in Hsv. destruct (save_level_ok level b s m Hi Hb Hgb Hsv) as [-> Hgm]. rbind. rewrite check_disjoint_ok by (done || apply Hsv). rbind.
  destruct (IH (S level) base' ms Hlen) as [-> Hgms]; [by injection Hl| |rbind; split; [done|by constructor]]. intros i s' b' m' H1 H2 H3. specialize (H (S i) s' b' m' H1 H2 H3). by rewrite Nat.add_succ_r in H.
Qed.

(** ** Applying an edit *)
Definition news (i : nat) (l : list (Z * FileMetaData)) : list FileMetaData := (λ p, file_for p.2) <$> filter (λ p, Z.to_nat p.1 = i) l.
Definition dels (i : nat) (l : list (Z * Z)) : list Z := snd <$> filter (λ p, Z.to_nat p.1 = i) l.

Lemma on_level_ok level f b s s' : levels_ b !! Z.to_nat level = Some s → f s = Ok s' →
  on_level level f b = Ok {| base_ := base_ b; levels_ := <[Z.to_nat level := s']> (levels_ b) |}.
Proof. intros Hl Hf. unfold on_level. rewrite Hl, Hf. by rbind. Qed.

Lemma apply_deleted_ok l : ∀ b, length (levels_ b) = 7%nat → Forall (λ p, level_ok p.1) l →
  ∃ b', apply_deleted l b = Ok b' ∧ base_ b' = base_ b ∧ length (levels_ b') = 7%nat ∧
    ∀ i s, levels_ b !! i = Some s → ∃ s', levels_ b' !! i = Some s' ∧ added_files s' = added_files s ∧ ∀ n, n ∈ deleted_files s' ↔ n ∈ deleted_files s ∨ n ∈ dels i l.
Proof.
  induction l as [|[level n] l IH]; intros b Hlen Hl; cbn [apply_deleted].
  - exists b. repeat (split; [done|]). intros i s Hs. exists s. split; [done|]. split; [done|]. intros n. unfold dels. cbn. set_solver.
  - apply Forall_cons in Hl as [Hlv Hl]. unfold level_ok, kNumLevels in Hlv. cbn in Hlv. destruct (lookup_lt_is_Some_2 (levels_ b) (Z.to_nat level)) as [s0 Hs0]; [lia|]. erewrite on_level_ok by done. rbind.
    destruct (IH {| base_ := base_ b; levels_ := <[Z.to_nat level := {| deleted_files := n :: deleted_files s0; added_files := added_files s0 |}]> (levels_ b) |}) as (b' & -> & Hb & Hlen' & H); [cbn; by rewrite length_insert|done|].
    exists b'. split; [done|]. split; [done|]. split; [done|]. intros i s Hs. cbn in H. unfold dels in *. destruct (decide (Z.to_nat level = i)) as [<-|Hne].
    + rewrite Hs0 in Hs. injection Hs as <-. destruct (H (Z.to_nat level) {| deleted_files := n :: deleted_files s0; added_files := added_files s0 |}) as (s' & Hs' & Ha & Hd); [apply list_lookup_insert_eq; lia|].
      exists s'. split; [done|]. split; [done|]. intros x. rewrite Hd. rewrite filter_cons_True by done. cbn. rewrite !elem_of_cons. tauto.
    + destruct (H i s) as (s' & Hs' & Ha & Hd); [by rewrite list_lookup_insert_ne|]. exists s'. split; [done|]. split; [done|]. intros x. rewrite Hd. by rewrite filter_cons_False by done.
Qed.

Lemma apply_new_ok l : ∀ b, length (levels_ b) = 7%nat → Forall (λ p, level_ok p.1 ∧ fgood (file_for p.2)) l → Forall level_inv (levels_ b) →
  ∃ b', apply_new l b = Ok b' ∧ base_ b' = base_ b ∧ length (levels_ b') = 7%nat ∧ Forall level_inv (levels_ b') ∧
    ∀ i s, levels_ b !! i = Some s → ∃ s', levels_ b' !! i = Some s' ∧ (∀ f, f ∈ added_files s' ↔ f ∈ added_files s ∨ f ∈ news i l) ∧ (∀ n, n ∈ deleted_files s' ↔ n ∈ deleted_files s ∧ n ∉ number <$> news i l).
Proof.
  induction l as [|[level f] l IH]; intros b Hlen Hl Hinv; cbn [apply_new].
  - exists b. repeat (split; [done|]). intros i s Hs. exists s. split; [done|]. unfold news. cbn. split; intros; set_solver.
  - apply Forall_cons in Hl as [[Hlv Hf] Hl]. unfold level_ok, kNumLevels in Hlv. cbn in Hlv, Hf. destruct (lookup_lt_is_Some_2 (levels_ b) (Z.to_nat level)) as [s0 Hs0]; [lia|].
    pose proof (proj1 (Forall_lookup _ _) Hinv _ _ Hs0) as [Hso Hgo]. destruct (file_insert_ok (file_for f) (added_files s0) Hso Hgo Hf) as (a & Ea & Hsa & Hga & Hea). set (s1 := {| deleted_files := filter (λ n, n ≠ number f) (deleted_files s0); added_files := a |}).
    rewrite (on_level_ok level _ b s0 s1 Hs0) by (by rewrite Ea; rbind). rbind. destruct (IH {| base_ := base_ b; levels_ := <[Z.to_nat level := s1]> (levels_ b) |}) as (b' & -> & Hb & Hlen' & Hinv' & H);
      [cbn; by rewrite length_insert|done|cbn; by apply Forall_insert|]. exists b'. repeat (split; [done|]). intros i s Hs. cbn in H. unfold news in *. destruct (decide (Z.to_nat level = i)) as [<-|Hne].
    + rewrite Hs0 in Hs. injection Hs as <-. destruct (H (Z.to_nat level) s1) as (s' & Hs' & Ha & Hd); [apply list_lookup_insert_eq; lia|]. exists s'. split; [done|]. rewrite filter_cons_True by done. cbn. split.
      * intros x. rewrite Ha, elem_of_cons. unfold s1. cbn. rewrite Hea. tauto.
      * intros x. rewrite Hd. unfold s1. cbn. rewrite list_elem_of_filter, elem_of_cons. change (number (file_for f)) with (number f). tauto.
    + destruct (H i s) as (s' & Hs' & Ha & Hd); [by rewrite list_lookup_insert_ne|]. exists s'. split; [done|]. by rewrite filter_cons_False by done.
Qed.

Fixpoint pointers (l : list (Z * bytes)) (p : list bytes) : list bytes :=
  match l with [] => p | (level, k) :: l => pointers l (<[Z.to_nat level := k]> p) end.
Lemma apply_pointers_ok l : ∀ p, length p = 7%nat → Forall (λ q, level_ok q.1 ∧ key_text q.2) l → apply_pointers l p = Ok (pointers l p) ∧ length (pointers l p) = 7%nat.
Proof.
  induction l as [|[level k] l IH]; intros p Hp Hl; [done|]. apply Forall_cons in Hl as [[Hlv Hk] Hl]. unfold level_ok, kNumLevels, key_text in *. cbn in Hlv, Hk. cbn [apply_pointers pointers]. unfold InternalKey_Encode.
  rewrite (proj2 (Z.eqb_neq _ _)) by lia. rbind. rewrite (proj2 (Nat.ltb_lt _ _)) by lia. apply IH; [by rewrite length_insert|done].
Qed.

(** An edit that can be applied. *)
Record ready_edit (e : VersionEdit) : Prop := {
  re_new : Forall (λ p, level_ok p.1 ∧ fgood (file_for p.2)) (new_files_ e);
  re_deleted : Forall (λ p, level_ok p.1) (deleted_files_ e);
  re_pointers : Forall (λ q, level_ok q.1 ∧ key_text q.2) (compact_pointers_ e)
}.

Lemma Apply_ok e b p : ready_edit e → length (levels_ b) = 7%nat → length p = 7%nat → Forall level_inv (levels_ b) →
  ∃ b', Apply e b p = Ok (b', pointers (compact_pointers_ e) p) ∧ base_ b' = base_ b ∧ length (levels_ b') = 7%nat ∧ Forall level_inv (levels_ b') ∧
    ∀ i s, levels_ b !! i = Some s → ∃ s', levels_ b' !! i = Some s' ∧ (∀ f, f ∈ added_files s' ↔ f ∈ added_files s ∨ f ∈ news i (new_files_ e)) ∧
      (∀ n, n ∈ deleted_files s' ↔ (n ∈ deleted_files s ∨ n ∈ dels i (deleted_files_ e)) ∧ n ∉ number <$> news i (new_files_ e)).
Proof.
  intros [Hn Hd Hp] Hlen Hlp Hinv. unfold Apply. rewrite (proj1 (apply_pointers_ok _ p Hlp Hp)). rbind. destruct (apply_deleted_ok (deleted_files_ e) b Hlen Hd) as (b1 & -> & Hb1 & Hlen1 & H1). rbind.
  assert (Forall level_inv (levels_ b1)) as Hinv1.
  { apply Forall_lookup. intros i s Hs. destruct (lookup_lt_is_Some_2 (levels_ b) i) as [s0 Hs0]; [apply lookup_lt_Some in Hs; lia|]. destruct (H1 i s0 Hs0) as (s' & Hs' & Ha & _). rewrite Hs in Hs'. injection Hs' as <-.
    destruct (proj1 (Forall_lookup _ _) Hinv i s0 Hs0). split; by rewrite Ha. }
  destruct (apply_new_ok (new_files_ e) b1 Hlen1 Hn Hinv1) as (b2 & -> & Hb2 & Hlen2 & Hinv2 & H2). rbind. exists b2. split; [done|]. split; [congruence|]. split; [done|]. split; [done|]. intros i s Hs.
  destruct (H1 i s Hs) as (s1 & Hs1 & Ha1 & Hd1). destruct (H2 i s1 Hs1) as (s2 & Hs2 & Ha2 & Hd2). exists s2. split; [done|]. split; [intros f; by rewrite Ha2, Ha1|]. intros n. by rewrite Hd2, Hd1.
Qed.

(** What an edit makes of the files: the new ones, and the old ones that it
    does not delete. *)
Record steps (cur : list (list FileMetaData)) (e : VersionEdit) (cur' : list (list FileMetaData)) : Prop := {
  st_length : length cur' = 7%nat;
  st_level i c c' : cur !! i = Some c → cur' !! i = Some c' → fsorted c' ∧ disjoint i c' ∧ (∀ f, f ∈ news i (new_files_ e) → f ∉ c) ∧
    ∀ f, f ∈ c' ↔ f ∈ news i (new_files_ e) ∨ (f ∈ c ∧ number f ∉ dels i (deleted_files_ e))
}.

Definition files_ok (cur : list (list FileMetaData)) : Prop := length cur = 7%nat ∧ ∀ i c, cur !! i = Some c → fsorted c ∧ Forall fgood c ∧ disjoint i c.

Lemma news_good i e f : ready_edit e → f ∈ news i (new_files_ e) → fgood f.
Proof. intros He Hf. unfold news in Hf. apply list_elem_of_fmap in Hf as (p & -> & Hp). apply list_elem_of_filter in Hp as [_ Hp]. pose proof (re_new _ He) as Hn. rewrite Forall_forall in Hn. by apply (Hn p). Qed.

Lemma same_number i e f : ready_edit e → fgood f → number f ∈ number <$> news i (new_files_ e) → f ∈ news i (new_files_ e).
Proof.
  intros He [_ Hf] Hin. apply list_elem_of_fmap in Hin as (g & En & Hg). destruct (news_good i e g He Hg) as [_ Hg']. rewrite En in Hf. by rewrite <- Hf, Hg'.
Qed.

Lemma steps_ok cur e cur' : files_ok cur → ready_edit e → steps cur e cur' → files_ok cur'.
Proof.
  intros [Hlen Hc] He [Hlen' Hst]. split; [done|]. intros i c' Hc'. destruct (lookup_lt_is_Some_2 cur i) as [c Hci]; [apply lookup_lt_Some in Hc'; lia|]. destruct (Hst i c c' Hci Hc') as (H1 & H2 & _ & H3).
  split; [done|]. split; [|done]. apply Forall_forall. intros f Hf. apply H3 in Hf as [Hf|[Hf _]]; [by eapply news_good|]. destruct (Hc i c Hci) as (_ & Hg & _). rewrite Forall_forall in Hg. by apply Hg.
Qed.

Lemma fresh_levels : Forall level_inv (levels_ (Builder_new [])).
Proof. apply Forall_replicate. split; constructor. Qed.

(** The version that [LogAndApply] builds. *)
Lemma save_step cur e cur' p : files_ok cur → ready_edit e → steps cur e cur' → length p = 7%nat →
  ∃ b, Apply e (Builder_new cur) p = Ok (b, pointers (compact_pointers_ e) p) ∧ SaveTo b = Ok cur'.
Proof.
  intros [Hlen Hc] He [Hlen' Hst] Hp. destruct (Apply_ok e (Builder_new cur) p He) as (b & -> & Hb & Hlb & Hinv & H); [done|done|apply fresh_levels|]. exists b. split; [done|]. unfold SaveTo. rewrite Hb. cbn [Builder_new base_].
  apply (save_levels_ok 0 (levels_ b) cur cur'); [apply Forall2_true; [done|congruence]|congruence|]. intros i s c c' Hs Hci Hci'. destruct (Hc i c Hci) as (Hcs & Hcg & _). destruct (Hst i c c' Hci Hci') as (H1 & H2 & Hfr & H3).
  split; [by apply (proj1 (Forall_lookup _ _) Hinv i)|]. split; [done|]. split; [done|]. destruct (H i {| deleted_files := []; added_files := [] |}) as (s' & Hs' & Ha & Hd).
  { apply lookup_replicate. split; [done|]. apply lookup_lt_Some in Hs. change (Z.to_nat kNumLevels) with 7%nat. lia. }
  rewrite Hs in Hs'. injection Hs' as <-. cbn in Ha, Hd. split; [done|done| |].
  - intros f. rewrite H3, Hd, Ha. split.
    + intros [Hf|[Hf Hn]]; [|split; [by right|]; intros [[?%elem_of_nil|?] _]; done]. split; [by left; right|]. intros [_ Hno]. apply Hno. by apply list_elem_of_fmap_2.
    + intros [[[?%elem_of_nil|Hf]|Hf] Hn]; [done|by left|]. destruct (decide (number f ∈ number <$> news i (new_files_ e))) as [Hin|Hin].
      * left. apply same_number; [done| |done]. rewrite Forall_forall in Hcg. by apply Hcg.
      * right. split; [done|]. intros Hde. apply Hn. split; [by right|done].
  - intros f g Hf Hg ->. apply Ha in Hf as [?%elem_of_nil|Hf]; [done|]. by apply (Hfr g).
Qed.

(** ** Replaying edits on an empty version *)
Record replayed (b : Builder) (cur : list (list FileMetaData)) : Prop := {
  rp_base : base_ b = no_files;
  rp_length : length (levels_ b) = 7%nat;
  rp_inv : Forall level_inv (levels_ b);
  rp_elem i s c f : levels_ b !! i = Some s → cur !! i = Some c → f ∈ c ↔ f ∈ added_files s ∧ number f ∉ deleted_files s
}.

Lemma replay_start : replayed (Builder_new no_files) no_files.
Proof.
  split; [done|done|apply fresh_levels|]. intros i s c f Hs Hc. apply lookup_replicate in Hs as [-> _], Hc as [-> _]. cbn. set_solver.
Qed.

Lemma replay_step b cur e cur' p : replayed b cur → files_ok cur → ready_edit e → steps cur e cur' → length p = 7%nat →
  ∃ b', Apply e b p = Ok (b', pointers (compact_pointers_ e) p) ∧ replayed b' cur'.
Proof.
  intros [Hb Hl Hi Hel] [Hlen Hc] He [Hlen' Hst] Hp. destruct (Apply_ok e b p He Hl Hp Hi) as (b' & -> & Hb' & Hl' & Hi' & H). exists b'. split; [done|]. split; [congruence|done|done|]. intros i s' c' f Hs' Hc'.
  destruct (lookup_lt_is_Some_2 cur i) as [c Hci]; [apply lookup_lt_Some in Hc'; lia|]. destruct (lookup_lt_is_Some_2 (levels_ b) i) as [s Hs]; [apply lookup_lt_Some in Hs'; lia|]. destruct (H i s Hs) as (s1 & Hs1 & Ha & Hd).
  rewrite Hs' in Hs1. injection Hs1 as <-. destruct (Hst i c c' Hci Hc') as (_ & _ & _ & H3). rewrite H3, Ha, Hd, (Hel i s c f Hs Hci). split.
  - intros [Hf|[[Hf Hn] Hn']]; [|split; [by left|]; tauto]. split; [by right|]. intros [_ Hno]. apply Hno. by apply list_elem_of_fmap_2.
  - intros [[Hf|Hf] Hn]; [|by left]. destruct (decide (number f ∈ number <$> news i (new_files_ e))) as [Hin|Hin]; [|right; tauto].
    left. apply same_number; [done| |done]. pose proof (proj1 (Forall_lookup _ _) Hi i s Hs) as [_ Hg]. rewrite Forall_forall in Hg. by apply Hg.
Qed.

Lemma replay_save b cur : replayed b cur → files_ok cur → SaveTo b = Ok cur.
Proof.
  intros [Hb Hl Hi Hel] [Hlen Hc]. unfold SaveTo. rewrite Hb. apply (save_levels_ok 0 (levels_ b) no_files cur); [apply Forall2_true; [done|by rewrite Hlen]|congruence|]. intros i s c0 c Hs Hc0 Hci.
  apply lookup_replicate in Hc0 as [-> _]. destruct (Hc i c Hci) as (H1 & H2 & H3). split; [by apply (proj1 (Forall_lookup _ _) Hi i)|]. split; [constructor|]. split; [constructor|]. split; [done|done| |].
  - intros f. rewrite (Hel i s c f Hs Hci). set_solver.
  - intros f g _ Hg. by apply elem_of_nil in Hg.
Qed.

(** ** The snapshot of a version *)
Definition plain (f : FileMetaData) : FileMetaData := FileMetaData_new (number f) (file_size f) (smallest f) (largest f).
Fixpoint numbered_files (level : Z) (files : list (list FileMetaData)) : list (Z * FileMetaData) :=
  match files with [] => [] | fs :: files => ((λ f, (level, plain f)) <$> fs) ++ numbered_files (level + 1) files end.
Fixpoint numbered_pointers (level : Z) (p : list bytes) : list (Z * bytes) :=
  match p with [] => [] | k :: p => (if zlen k =? 0 then [] else [(level, k)]) ++ numbered_pointers (level + 1) p end.

Definition with_lists (e : VersionEdit) (p : list (Z * bytes)) (l : list (Z * FileMetaData)) : VersionEdit :=
  {| comparator_ := comparator_ e; log_number_ := log_number_ e; prev_log_number_ := prev_log_number_ e; next_file_number_ := next_file_number_ e;
     last_sequence_ := last_sequence_ e; compact_pointers_ := compact_pointers_ e ++ p; deleted_files_ := deleted_files_ e; new_files_ := new_files_ e ++ l |}.

Lemma save_files_eq level fs : ∀ e, save_files level fs e = with_lists e [] ((λ f, (level, plain f)) <$> fs).
Proof. induction fs as [|f fs IH]; intros e; cbn [save_files]; [destruct e; unfold with_lists; cbn; by rewrite !app_nil_r|]. rewrite IH. unfold with_lists. cbn. by rewrite !app_nil_r, <- ?app_assoc. Qed.
Lemma save_all_eq files : ∀ level e, save_all level files e = with_lists e [] (numbered_files level files).
Proof.
  induction files as [|fs files IH]; intros level e; cbn [save_all]; [destruct e; unfold with_lists; cbn; by rewrite !app_nil_r|]. rewrite IH, save_files_eq. unfold with_lists. cbn. by rewrite !app_nil_r, <- ?app_assoc.
Qed.
Lemma save_pointers_eq p : ∀ level e, save_pointers level p e = with_lists e (numbered_pointers level p) [].
Proof.
  induction p as [|k p IH]; intros level e; cbn [save_pointers numbered_pointers]; [destruct e; unfold with_lists; cbn; by rewrite !app_nil_r|]. rewrite IH. unfold with_lists. destruct (zlen k =? 0); [done|]. cbn. by rewrite <- !app_assoc.
Qed.
Lemma snapshot_eq files p : snapshot_edit files p =
  {| comparator_ := Some comparator_name; log_number_ := None; prev_log_number_ := None; next_file_number_ := None; last_sequence_ := None;
     compact_pointers_ := numbered_pointers 0 p; deleted_files_ := []; new_files_ := numbered_files 0 files |}.
Proof. unfold snapshot_edit. rewrite save_all_eq, save_pointers_eq. unfold with_lists. cbn. by rewrite app_nil_r. Qed.

Lemma news_app i l l' : news i (l ++ l') = news i l ++ news i l'.
Proof. unfold news. by rewrite filter_app, fmap_app. Qed.
Lemma plain_file f : good_file f → file_for (plain f) = f.
Proof. intros Hf. exact (gf_seeks f Hf). Qed.

Lemma news_level i (level : nat) fs : Forall good_file fs → news i ((λ f, (Z.of_nat level, plain f)) <$> fs) = if decide (level = i) then fs else [].
Proof.
  intros Hg. unfold news. induction Hg as [|f fs Hf _ IH]; [by destruct (decide _)|]. cbn [fmap list_fmap]. destruct (decide (level = i)) as [Hl|Hl].
  - rewrite filter_cons_True by (cbn; lia). cbn [fmap list_fmap snd]. rewrite plain_file by done. f_equal. exact IH.
  - rewrite filter_cons_False by (cbn; lia). exact IH.
Qed.
Lemma news_numbered files : ∀ (level i : nat), Forall (Forall good_file) files → news i (numbered_files (Z.of_nat level) files) = if decide (level ≤ i)%nat then default [] (files !! (i - level)%nat) else [].
Proof.
  induction files as [|fs files IH]; intros level i Hg; cbn [numbered_files]; [by destruct (decide _)|]. apply Forall_cons in Hg as [Hf Hg]. rewrite news_app, news_level by done.
  replace (Z.of_nat level + 1) with (Z.of_nat (S level)) by lia. rewrite IH by done. destruct (decide (level = i)) as [->|Hl].
  - rewrite decide_False, decide_True by lia. rewrite Nat.sub_diag. cbn. by rewrite app_nil_r.
  - destruct (decide (S level ≤ i)%nat) as [H1|H1]; [rewrite (decide_True _ _ (P := (level ≤ i)%nat)) by lia; cbn; by replace (i - level)%nat with (S (i - S level)) by lia|]. by rewrite decide_False by lia.
Qed.

Lemma pointers_numbered p : ∀ a, pointers (numbered_pointers (Z.of_nat (length a)) p) (a ++ replicate (length p) []) = a ++ p.
Proof.
  induction p as [|k p IH]; intros a; cbn [numbered_pointers length replicate]; [done|]. replace (Z.of_nat (length a) + 1) with (Z.of_nat (length (a ++ [k]))) by (rewrite length_app; cbn; lia).
  destruct (Z.eqb_spec (zlen k) 0) as [E|E].
  - apply zlen_0_inv in E as ->. cbn [app]. rewrite (app_assoc a [[]] (replicate _ _)) || change (a ++ [] :: replicate (length p) []) with (a ++ [[]] ++ replicate (length p) []). rewrite app_assoc, IH, <- app_assoc. done.
  - cbn [app pointers]. rewrite Nat2Z.id, insert_app_r_alt, Nat.sub_diag by lia. cbn. change (a ++ k :: replicate (length p) []) with (a ++ [k] ++ replicate (length p) []). rewrite app_assoc, IH, <- app_assoc. done.
Qed.

(** ** Edits that are logged *)
Definition opt_ok (P : Z → Prop) (o : option Z) : Prop := match o with Some n => P n | None => True end.
Record loggable (e : VersionEdit) : Prop := {
  lg_ready : ready_edit e;
  lg_comparator : comparator_ e = None ∨ comparator_ e = Some comparator_name;
  lg_numbers : opt_ok u64_ok (log_number_ e) ∧ opt_ok u64_ok (prev_log_number_ e) ∧ opt_ok u64_ok (next_file_number_ e) ∧ opt_ok u64_ok (last_sequence_ e);
  lg_sorted : StronglySorted (λ a b, pair_lt a b = true) (deleted_files_ e);
  lg_deleted : Forall (λ p, u64_ok p.2) (deleted_files_ e);
  lg_plain : Forall (λ p, allowed_seeks p.2 = Z.shiftl 1 30) (new_files_ e);
  lg_bytes : Forall (λ q, Forall is_byte q.2) (compact_pointers_ e)
}.

Lemma good_key_text r k : r = ikey k → key_ok k → key_text r.
Proof. intros -> [Hk _]. unfold key_text. rewrite zlen_ikey. zlia. Qed.

Lemma item_bytes_ok e i : loggable e → i ∈ items e → item_ok i ∧ Forall is_byte (item_text i).
Proof.
  intros [[Hn Hd Hp] Hc (N1 & N2 & N3 & N4) _ Hdn Hpl Hpb] Hi. assert (∀ t, 0 ≤ t < 2 ^ 32 → Forall is_byte (EncodeVarint32 t)) as Hv by (intros; by apply varint32_bytes).
  assert (∀ l, level_ok l → 0 ≤ l < 2 ^ 32) as Hlv by (unfold level_ok, kNumLevels; intros; lia). assert (∀ s, zlen s < 2 ^ 32 → Forall is_byte s → Forall is_byte (text s)) as Ht by (intros; by apply prefixed_bytes).
  assert (∀ t n, t ∈ number_tags.*1 → u64_ok n → item_ok (INumber t n) ∧ Forall is_byte (item_text (INumber t n))) as Hnum.
  { intros t n Ht' Hn'. split; [done|]. cbn. apply Forall_app. split; [apply Hv; cbn in Ht'; rewrite !elem_of_cons, elem_of_nil in Ht'; destruct Ht' as [->|[->|[->|[->|[]]]]]; done|by apply varint64_bytes]. }
  unfold items in Hi. rewrite !elem_of_app in Hi. destruct Hi as [Hi|[Hi|[Hi|[Hi|[Hi|[Hi|[Hi|Hi]]]]]]].
  - destruct Hc as [Hc|Hc]; rewrite Hc in Hi; [by apply elem_of_nil in Hi|]. apply list_elem_of_singleton in Hi as ->. split; [done|]. cbn. apply Forall_app. split; [by apply Hv|]. apply Ht; [done|]. apply (bool_decide_unpack _). by vm_compute.
  - revert Hi N1. destruct (log_number_ e); intros Hi N1; [|by apply elem_of_nil in Hi]. apply list_elem_of_singleton in Hi as ->. apply Hnum; [cbn; set_solver|done].
  - revert Hi N2. destruct (prev_log_number_ e); intros Hi N2; [|by apply elem_of_nil in Hi]. apply list_elem_of_singleton in Hi as ->. apply Hnum; [cbn; set_solver|done].
  - revert Hi N3. destruct (next_file_number_ e); intros Hi N3; [|by apply elem_of_nil in Hi]. apply list_elem_of_singleton in Hi as ->. apply Hnum; [cbn; set_solver|done].
  - revert Hi N4. destruct (last_sequence_ e); intros Hi N4; [|by apply elem_of_nil in Hi]. apply list_elem_of_singleton in Hi as ->. apply Hnum; [cbn; set_solver|done].
  - apply list_elem_of_fmap in Hi as ([level k] & -> & Hi). rewrite Forall_forall in Hp, Hpb. destruct (Hp _ Hi) as [Hl Hk]. specialize (Hpb _ Hi). cbn [item_text item_ok fst snd] in *. split; [done|]. apply Forall_app. split; [by apply Hv|]. apply Forall_app. split; [by apply Hv, Hlv|]. apply Ht; [apply Hk|done].
  - apply list_elem_of_fmap in Hi as ([level n] & -> & Hi). rewrite Forall_forall in Hd, Hdn. specialize (Hd _ Hi). specialize (Hdn _ Hi). cbn [item_text item_ok fst snd] in *. split; [done|]. apply Forall_app. split; [by apply Hv|]. apply Forall_app. split; [by apply Hv, Hlv|by apply varint64_bytes].
  - apply list_elem_of_fmap in Hi as ([level f] & -> & Hi). rewrite Forall_forall in Hn, Hpl. destruct (Hn _ Hi) as [Hl [[[E1 K1] [E2 K2] [B1 B2] [M1 M2] _] _]]. specialize (Hpl _ Hi). cbn [item_text item_ok fst snd] in *.
    pose proof (good_key_text _ _ E1 K1) as T1. pose proof (good_key_text _ _ E2 K2) as T2. split; [by repeat split; try apply T1; try apply T2; try apply M1; try apply M2; try apply Hl|].
    apply Forall_app; split; [by apply Hv|]. apply Forall_app; split; [by apply Hv, Hlv|]. apply Forall_app; split; [by apply varint64_bytes|]. apply Forall_app; split; [by apply varint64_bytes|]. apply Forall_app; split; [apply Ht; [apply T1|done]|apply Ht; [apply T2|done]].
Qed.

Lemma loggable_ok e : loggable e → edit_ok e ∧ Forall is_byte (texts (items e)).
Proof.
  intros He. split; [split; [|apply He]|]; [apply Forall_forall; intros i Hi; by apply (item_bytes_ok e)|]. unfold texts. apply Forall_forall. intros b Hb. apply list_elem_of_In, in_concat in Hb as (t & Ht & Hb).
  apply list_elem_of_In in Ht, Hb. apply list_elem_of_fmap in Ht as (i & -> & Hi). destruct (item_bytes_ok e i He Hi) as [_ Hf]. rewrite Forall_forall in Hf. by apply Hf.
Qed.

Lemma decode_logged e : loggable e → DecodeFrom (texts (items e)) VersionEdit_new = Ok (sOK, e).
Proof. intros He. rewrite decode_encoded by (by apply loggable_ok). by destruct e. Qed.

(** ** The snapshot restores the version *)
Definition pointer_ok (k : bytes) : Prop := k = [] ∨ key_text k ∧ Forall is_byte k.

Lemma numbered_pointers_elem p : ∀ (level : nat) q, q ∈ numbered_pointers (Z.of_nat level) p → Z.of_nat level ≤ q.1 < Z.of_nat level + zlen p ∧ q.2 ∈ p ∧ q.2 ≠ [].
Proof.
  induction p as [|k p IH]; intros level q Hq; cbn [numbered_pointers] in Hq; [by apply elem_of_nil in Hq|]. apply elem_of_app in Hq as [Hq|Hq].
  - destruct (Z.eqb_spec (zlen k) 0) as [E|E]; [by apply elem_of_nil in Hq|]. apply list_elem_of_singleton in Hq as ->. cbn. split; [unfold zlen; cbn; lia|]. split; [by left|]. by intros ->.
  - replace (Z.of_nat level + 1) with (Z.of_nat (S level)) in Hq by lia. destruct (IH (S level) q Hq) as (H1 & H2 & H3). split; [unfold zlen in *; cbn; lia|]. split; [by right|done].
Qed.
Lemma numbered_files_elem files : ∀ (level : nat) q, q ∈ numbered_files (Z.of_nat level) files → Z.of_nat level ≤ q.1 < Z.of_nat (level + length files) ∧ ∃ c f, c ∈ files ∧ f ∈ c ∧ q.2 = plain f.
Proof.
  induction files as [|fs files IH]; intros level q Hq; cbn [numbered_files] in Hq; [by apply elem_of_nil in Hq|]. apply elem_of_app in Hq as [Hq|Hq].
  - apply list_elem_of_fmap in Hq as (f & -> & Hf). cbn. split; [lia|]. exists fs, f. split; [by left|by split].
  - replace (Z.of_nat level + 1) with (Z.of_nat (S level)) in Hq by lia. destruct (IH (S level) q Hq) as (H1 & c & f & H2 & H3). split; [cbn; lia|]. exists c, f. split; [by right|done].
Qed.

Lemma files_fgood cur c f : files_ok cur → c ∈ cur → f ∈ c → fgood f.
Proof. intros [_ Hc] Hin Hf. apply list_elem_of_lookup in Hin as [i Hi]. destruct (Hc i c Hi) as (_ & Hg & _). rewrite Forall_forall in Hg. by apply Hg. Qed.

Lemma snapshot_loggable cur p : files_ok cur → length p = 7%nat → Forall pointer_ok p → loggable (snapshot_edit cur p).
Proof.
  intros Hc Hp Hpk. rewrite snapshot_eq. rewrite Forall_forall in Hpk.
  assert (∀ q, q ∈ numbered_pointers 0 p → level_ok q.1 ∧ key_text q.2 ∧ Forall is_byte q.2) as Hq.
  { intros q Hq. destruct (numbered_pointers_elem p 0 q Hq) as (H1 & H2 & H3). unfold level_ok, kNumLevels. split; [unfold zlen in *; lia|]. by destruct (Hpk _ H2). }
  assert (∀ q, q ∈ numbered_files 0 cur → level_ok q.1 ∧ ∃ f, fgood f ∧ q.2 = plain f) as Hf.
  { intros q Hin. destruct (numbered_files_elem cur 0 q Hin) as (H1 & c & f & H2 & H3 & E). unfold level_ok, kNumLevels. split; [rewrite (proj1 Hc) in H1; lia|]. exists f. split; [by eapply files_fgood|done]. }
  split; cbn; [split; cbn|by right|done|constructor|constructor| |].
  - apply Forall_forall. intros q Hin. destruct (Hf q Hin) as (Hl & f & Hg & ->). split; [done|]. rewrite plain_file by apply Hg. done.
  - constructor.
  - apply Forall_forall. intros q Hin. destruct (Hq q Hin) as (H1 & H2 & _). done.
  - apply Forall_forall. intros q Hin. by destruct (Hf q Hin) as (_ & f & _ & ->).
  - apply Forall_forall. intros q Hin. by destruct (Hq q Hin) as (_ & _ & H3).
Qed.

Lemma no_files_ok : files_ok no_files.
Proof. split; [done|]. intros i c Hc. apply lookup_replicate in Hc as [-> _]. split; [constructor|]. split; [constructor|]. by destruct i. Qed.

Lemma snapshot_steps cur p : files_ok cur → steps no_files (snapshot_edit cur p) cur.
Proof.
  intros Hc. pose proof Hc as [Hlen Hl]. rewrite snapshot_eq. split; [done|]. cbn [new_files_ deleted_files_]. intros i c c' H0 Hci. apply lookup_replicate in H0 as [-> _]. destruct (Hl i c' Hci) as (H1 & Hg & H2).
  split; [done|]. split; [done|]. split; [set_solver|]. intros f. change (numbered_files 0 cur) with (numbered_files (Z.of_nat 0) cur). rewrite (news_numbered cur 0 i).
  - rewrite decide_True by lia. rewrite Nat.sub_0_r, Hci. cbn. set_solver.
  - apply Forall_forall. intros c Hin. apply Forall_forall. intros g Hgin. by eapply files_fgood.
Qed.

(** ** Replaying a list of edits *)

(** What recovery has read so far. *)
Record Kept := { k_files : list (list FileMetaData); k_pointers : list bytes; k_log : option Z; k_prev : option Z; k_next : option Z; k_last : option Z }.
Definition kept_none : Kept := {| k_files := no_files; k_pointers := replicate 7 []; k_log := None; k_prev := None; k_next := None; k_last := None |}.
Definition kept_by (e : VersionEdit) (cur : list (list FileMetaData)) (k : Kept) : Kept :=
  {| k_files := cur; k_pointers := pointers (compact_pointers_ e) (k_pointers k); k_log := later (log_number_ e) (k_log k); k_prev := later (prev_log_number_ e) (k_prev k);
     k_next := later (next_file_number_ e) (k_next k); k_last := later (last_sequence_ e) (k_last k) |}.
Inductive replays : Kept → list VersionEdit → Kept → Prop :=
| replays_nil k : replays k [] k
| replays_cons k e cur es k' : loggable e → steps (k_files k) e cur → replays (kept_by e cur k) es k' → replays k (e :: es) k'.

Lemma replays_snoc k es k' e cur : replays k es k' → loggable e → steps (k_files k') e cur → replays k (es ++ [e]) (kept_by e cur k').
Proof. induction 1 as [k|k e' cur' es k' He' Hs _ IH]; intros He Hst; cbn; [by eapply replays_cons, replays_nil|]. eapply replays_cons; [done|done|]. by apply IH. Qed.
Lemma replays_loggable k es k' : replays k es k' → Forall loggable es.
Proof. induction 1; by constructor. Qed.

Record kept (k : Kept) (r : Recovery) : Prop := {
  kp_status : r_status r = sOK;
  kp_builder : replayed (r_builder r) (k_files k);
  kp_files : files_ok (k_files k);
  kp_pointers : r_pointers r = k_pointers k ∧ length (k_pointers k) = 7%nat;
  kp_numbers : r_log r = k_log k ∧ r_prev_log r = k_prev k ∧ r_next_file r = k_next k ∧ r_last_sequence r = k_last k
}.

Lemma recover_edit_ok e k r cur : loggable e → steps (k_files k) e cur → kept k r → ∃ r', recover_edit (texts (items e)) r = Ok r' ∧ kept (kept_by e cur k) r'.
Proof.
  intros He Hst [Hs Hb Hf [Hp Hlp] (N1 & N2 & N3 & N4)]. unfold recover_edit. rewrite decode_logged by done. rbind. set (s := if ok sOK then _ else _).
  assert (s = sOK) as -> by (subst s; cbn; destruct (lg_comparator _ He) as [-> | ->]; [done|by rewrite decide_True]). cbn [ok sOK]. rewrite Hp.
  destruct (replay_step (r_builder r) (k_files k) e cur (k_pointers k) Hb Hf (lg_ready _ He) Hst Hlp) as (b' & -> & Hb'). rbind. eexists. split; [done|]. split; cbn; [done|done| | |].
  - apply (steps_ok (k_files k) e); [done|apply He|done].
  - split; [done|]. apply apply_pointers_ok; [done|]. apply He.
  - by rewrite N1, N2, N3, N4.
Qed.

(** ** Recovery of a manifest *)
Section manifest.
Context (addr : bytes → Z) {F S : Type} (written : F → bytes → Prop) (unread : S → bytes → Prop) `{WritableLaws F written} `{SequentialLaws S unread}.
Definition records (es : list VersionEdit) : list bytes := (λ e, texts (items e)) <$> es.

Lemma noted_ok (R : Log.Reader S) : Log.reports R = [] → noted sOK R = sOK.
Proof. unfold noted. by intros ->. Qed.
Lemma with_status_kept k r : kept k r → kept k (with_status sOK r).
Proof. by intros []. Qed.

Lemma recover_loop_ok fuel es : ∀ n k k' b r (R : Log.Reader S), replays k es k' → kept k r → LogSpec.good unread R (LogSpec.encodes b (records es)).1 b → Log.reports R = [] →
  (length (LogSpec.encodes b (records es)).1 < fuel)%nat → (length es < n)%nat → ∃ r', recover_loop addr n fuel R r = Ok r' ∧ kept k' r'.
Proof.
  induction es as [|e es IH]; intros [|n] k k' b r R Hrep Hk Hg HR Hf Hn; try (cbn in Hn; lia); inversion Hrep as [|? ? cur ? ? He Hst Hrep']; subst; clear Hrep; cbn [recover_loop].
  - rewrite (LogSpec.ReadRecord_loop addr unread fuel R _ _ Hg). destruct Hg as [Hat _]. cbn in Hat, Hf. change (@nil Z) with (replicate 0 0) in Hat.
    destruct (LogSpec.read_zeros addr unread 0 fuel {| Log.in_fragmented_record := false; Log.prospective_record_offset := 0; Log.scratch := []; Log.fragment := [] |} R _ Hat) as (R' & -> & HR'); [lia|done|].
    rbind. eexists. split; [done|]. rewrite (kp_status _ _ Hk), noted_ok; [by apply with_status_kept|]. rewrite HR' by (by left). done.
  - cbn [records fmap list_fmap] in Hg, Hf. fold (records es) in Hg, Hf. rewrite LogSpec.encodes_cons in Hg, Hf. rewrite length_app in Hf. pose proof (loggable_ok e He) as [_ Hby].
    assert (0 ≤ b ≤ Log.kBlockSize) as Hb by (destruct Hg as [Hat _]; by apply LogSpec.at_range in Hat). pose proof (LogSpec.encode_length b (texts (items e)) Hb).
    destruct (LogSpec.read_encode addr unread fuel _ R _ b Hg) as (R' & -> & Hg' & HR'); [lia|done|]. rbind. rewrite (kp_status _ _ Hk), noted_ok by congruence. cbn [r_status with_status ok sOK].
    destruct (recover_edit_ok e k (with_status sOK r) cur He Hst (with_status_kept _ _ Hk)) as (r' & -> & Hk'). rbind.
    eapply IH; [done|done|done|congruence|lia|cbn in Hn; lia].
Qed.

(** What a manifest restores. *)
Lemma Recover_ok es k g n fuel next log last : replays kept_none es k → unread g (LogSpec.encodes 0 (records es)).1 →
  k_next k = Some next → k_log k = Some log → k_last k = Some last → (length (LogSpec.encodes 0 (records es)).1 < fuel)%nat → (length es < n)%nat →
  Recover addr n fuel g (VersionSet_new (F := F)) = Ok (sOK, {| vs_next_file := u64 (next + 1); vs_manifest := next; vs_last_sequence := last; vs_log := log; vs_prev_log := default 0 (k_prev k);
    descriptor_log_ := None; vs_current := k_files k; compact_pointer_ := k_pointers k |}).
Proof.
  intros Hrep Hg E1 E2 E3 Hf Hn. unfold Recover. set (r0 := {| r_status := sOK; r_builder := _; r_pointers := _; r_log := _; r_prev_log := _; r_next_file := _; r_last_sequence := _ |}).
  assert (kept kept_none r0) as Hk0 by (split; [done|apply replay_start|apply no_files_ok|done|done]).
  destruct (recover_loop_ok fuel es n kept_none k 0 r0 (Log.Reader_new g true true 0) Hrep Hk0) as (r & -> & [Hs Hb Hfi [Hp _] (N1 & N2 & N3 & N4)]); [split; [by apply LogSpec.Reader_new_at|done]|done|done|done|].
  rbind. rewrite Hs. cbn [ok sOK negb]. rewrite N1, N2, N3, N4, E1, E2, E3. cbn [ok sOK negb]. rewrite (replay_save _ _ Hb Hfi). rbind. cbn [default]. f_equal. f_equal.
  unfold MarkFileNumberUsed. cbn. f_equal; repeat case_match; done.
Qed.

(** ** Logging an edit *)
Definition holds_log (w : Log.Writer F) (es : list VersionEdit) : Prop :=
  LogSpec.tagged written w (LogSpec.encodes 0 (records es)).1 (LogSpec.encodes 0 (records es)).2.

Lemma encodes_snoc rs d : LogSpec.encodes 0 (rs ++ [d]) =
  ((LogSpec.encodes 0 rs).1 ++ (LogSpec.encode (LogSpec.encodes 0 rs).2 d).1, (LogSpec.encode (LogSpec.encodes 0 rs).2 d).2).
Proof.
  generalize 0. induction rs as [|x rs IH]; intros b; cbn [app LogSpec.encodes fst snd]; [by rewrite app_nil_r|]. rewrite IH. cbn [fst snd]. by rewrite app_assoc.
Qed.

Lemma add_edit w es e : holds_log w es → loggable e → ∃ w', Log.AddRecord addr (texts (items e)) w = Ok (sOK, w') ∧ holds_log w' (es ++ [e]).
Proof.
  intros Hw He. destruct (LogSpec.AddRecord_ok addr written (texts (items e)) w _ _ Hw) as (w' & E & Hw' & _); [apply LogSpec.encodes_range; done|by apply loggable_ok|].
  exists w'. split; [done|]. unfold holds_log, records. rewrite fmap_app. cbn [fmap list_fmap]. by rewrite encodes_snoc.
Qed.
Lemma sync_log w es : holds_log w es → ∃ f, wf_Sync (Log.dest_ w) = Ok (sOK, f) ∧ holds_log (Log.with_dest f (Log.block_offset_ w) w) es.
Proof. intros (Hw & Hb & Ht). destruct (wf_sync_law _ _ Hw) as (f & -> & Hf). exists f. split; [done|]. by split. Qed.
Lemma encode_logged e : loggable e → EncodeTo e [] = Ok (texts (items e)).
Proof. intros He. rewrite EncodeTo_items; [done|]. apply loggable_ok in He as [[]]. done. Qed.

Record vs_ok (v : VersionSet F) : Prop := {
  vo_files : files_ok (vs_current v);
  vo_pointers : length (compact_pointer_ v) = 7%nat ∧ Forall pointer_ok (compact_pointer_ v);
  vo_numbers : u64_ok (vs_next_file v) ∧ u64_ok (vs_last_sequence v) ∧ u64_ok (vs_log v) ∧ u64_ok (vs_prev_log v);
  vo_manifest : 0 < vs_manifest v
}.
(** The manifest holds the version, and these two numbers. *)
Record logged (next last : Z) (v : VersionSet F) : Prop := {
  lo_log : ∃ w es k, descriptor_log_ v = Some w ∧ holds_log w es ∧ replays kept_none es k ∧
    k = {| k_files := vs_current v; k_pointers := compact_pointer_ v; k_log := Some (vs_log v); k_prev := Some (vs_prev_log v); k_next := Some next; k_last := Some last |}
}.
Definition log_ok (v : VersionSet F) : Prop := descriptor_log_ v = None ∨ ∃ next last, logged next last v.

(** An edit that the set may take, and the files it leads to. *)
Record takes (v : VersionSet F) (e : VersionEdit) (cur : list (list FileMetaData)) : Prop := {
  tk_edit : loggable e;
  tk_steps : steps (vs_current v) e cur;
  tk_log l : log_number_ e = Some l → vs_log v ≤ l < vs_next_file v
}.
Definition completed (e : VersionEdit) (v : VersionSet F) : VersionEdit :=
  VersionEdit.SetLastSequence (vs_last_sequence v) (SetNextFile (vs_next_file v) (SetPrevLogNumber (default (vs_prev_log v) (prev_log_number_ e)) (SetLogNumber (default (vs_log v) (log_number_ e)) e))).

Lemma completed_loggable e v : loggable e → vs_ok v → loggable (completed e v).
Proof.
  intros [[R1 R2 R3] Hc (N1 & N2 & _ & _) Hs Hd Hp Hb] [_ _ (V1 & V2 & V3 & V4) _]. split; cbn; [by split|done| |done|done|done|done].
  split; [by destruct (log_number_ e)|]. split; [by destruct (prev_log_number_ e)|]. done.
Qed.

Lemma completed_steps cur e v cur' : steps cur e cur' → steps cur (completed e v) cur'.
Proof. intros [H3 H4]. split; [done|]. exact H4. Qed.

Lemma pointers_same l : ∀ p q, length p = length q → (∀ i, p !! i = q !! i ∨ i ∈ (λ x, Z.to_nat x.1) <$> l) → pointers l p = pointers l q.
Proof.
  induction l as [|[level k] l IH]; intros p q Hlen Hpq; cbn [pointers].
  - apply list_eq. intros i. destruct (Hpq i) as [|Hi]; [done|]. by apply elem_of_nil in Hi.
  - apply IH; [by rewrite !length_insert|]. intros i. destruct (decide (Z.to_nat level = i)) as [<-|Hi].
    + left. destruct (decide (Z.to_nat level < length p)%nat); [rewrite !list_lookup_insert_eq by lia; done|]. rewrite !list_insert_ge by lia. by rewrite !lookup_ge_None_2 by lia.
    + rewrite !list_lookup_insert_ne by done. destruct (Hpq i) as [|Hin]; [by left|]. cbn in Hin. apply elem_of_cons in Hin as [->|]; [done|by right].
Qed.
Lemma pointers_other l i : ∀ p, i ∉ (λ x, Z.to_nat x.1) <$> l → pointers l p !! i = p !! i.
Proof.
  induction l as [|[level k] l IH]; intros p Hi; [done|]. cbn [pointers]. cbn in Hi. apply not_elem_of_cons in Hi as [Hn Hi]. rewrite IH by done. by rewrite list_lookup_insert_ne.
Qed.
Lemma pointers_length l : ∀ p, length (pointers l p) = length p.
Proof. induction l as [|[level k] l IH]; intros p; [done|]. cbn. by rewrite IH, length_insert. Qed.
Lemma pointers_twice l p : pointers l (pointers l p) = pointers l p.
Proof. apply pointers_same; [apply pointers_length|]. intros i. destruct (decide (i ∈ (λ x, Z.to_nat x.1) <$> l)); [by right|left]. by apply pointers_other. Qed.
Lemma pointers_ok l : ∀ p, Forall pointer_ok p → Forall (λ q, key_text q.2 ∧ Forall is_byte q.2) l → Forall pointer_ok (pointers l p).
Proof. induction l as [|[level k] l IH]; intros p Hp Hl; [done|]. apply Forall_cons in Hl as [Hk Hl]. cbn. apply IH; [|done]. apply Forall_insert; [done|]. by right. Qed.

Lemma takes_pointers v e cur : takes v e cur → vs_ok v → Forall pointer_ok (pointers (compact_pointers_ e) (compact_pointer_ v)).
Proof.
  intros [[[_ _ Hp] _ _ _ _ _ Hb] _ _] [_ [_ Hk] _ _]. apply pointers_ok; [done|]. rewrite !Forall_forall in *. intros q Hq. split; [by apply Hp|by apply Hb].
Qed.

(** The snapshot at the head of a new manifest. *)
Lemma new_manifest f cur p : written f [] → files_ok cur → length p = 7%nat → Forall pointer_ok p →
  ∃ w w' k, Log.Writer_new addr f = Ok w ∧ WriteSnapshot addr cur p w = Ok (sOK, w') ∧ holds_log w' [snapshot_edit cur p] ∧
    replays kept_none [snapshot_edit cur p] k ∧ k_files k = cur ∧ k_pointers k = p.
Proof.
  intros Hf Hc Hlp Hp. pose proof (snapshot_loggable cur p Hc Hlp Hp) as Hl. destruct (LogSpec.Writer_new_ok addr written f Hf) as (w & Ew & Hw).
  destruct (add_edit w [] (snapshot_edit cur p) Hw Hl) as (w' & Ew' & Hw'). exists w, w', (kept_by (snapshot_edit cur p) cur kept_none). split; [done|]. unfold WriteSnapshot. rewrite encode_logged by done. rbind.
  split; [done|]. split; [done|]. split; [eapply replays_cons, replays_nil; [done|by apply snapshot_steps]|]. split; [done|]. rewrite snapshot_eq. cbn [kept_by k_pointers compact_pointers_ kept_none].
  rewrite <- Hlp. apply (pointers_numbered p []).
Qed.

Record granted (o : Outcome F S) (v : VersionSet F) : Prop := {
  gr_new : descriptor_log_ v = None → ∃ f, o_file o = (sOK, Some f) ∧ written f [] ∧ o_current o = sOK
}.

(** The manifest that an edit is appended to: the open one, or a new one with
    a snapshot. *)
Lemma manifest_open o v p' : vs_ok v → log_ok v → granted o v → length p' = 7%nat → Forall pointer_ok p' →
  ∃ w es k, (match descriptor_log_ v with
             | Some log => Ok (sOK, Some log)
             | None =>
                 if vs_manifest v <=? 0 then Fault AssertFailed
                 else match o_file o with
                      | (s, Some f) => if ok s then log ← Log.Writer_new addr f; '(s, log) ← WriteSnapshot addr (vs_current v) p' log; Ok (s, Some log) else Ok (s, None)
                      | (s, None) => if ok s then Fault OutOfBounds else Ok (s, None)
                      end
             end) = Ok (sOK, Some w) ∧ holds_log w es ∧ replays kept_none es k ∧ k_files k = vs_current v ∧
    (k_pointers k = compact_pointer_ v ∨ k_pointers k = p').
Proof.
  intros Hv [Hn|(next & last & [(w & es & k & Ew & Hw & Hr & Ek)])] [Ho] Hlp Hp.
  - rewrite Hn in *. destruct (Ho eq_refl) as (f & -> & Hf & _). rewrite (proj2 (Z.leb_gt _ _)) by apply Hv. cbn [ok sOK].
    destruct (new_manifest f (vs_current v) p' Hf (vo_files _ Hv) Hlp Hp) as (w & w' & k & -> & E & Hw & Hr & Hk & Hkp). rbind. rewrite E. rbind. exists w', [snapshot_edit (vs_current v) p'], k. split; [done|]. split; [done|]. split; [done|]. split; [done|by right].
  - rewrite Ew. exists w, es, k. split; [done|]. split; [done|]. split; [done|]. subst k. split; [done|by left].
Qed.

Lemma LogAndApply_ok n fuel o e v cur : vs_ok v → log_ok v → takes v e cur → granted o v →
  ∃ w, LogAndApply addr n fuel o e v = Ok (sOK, {| vs_next_file := vs_next_file v; vs_manifest := vs_manifest v; vs_last_sequence := vs_last_sequence v;
      vs_log := default (vs_log v) (log_number_ e); vs_prev_log := default (vs_prev_log v) (prev_log_number_ e); descriptor_log_ := Some w; vs_current := cur;
      compact_pointer_ := pointers (compact_pointers_ e) (compact_pointer_ v) |}) ∧
    ∃ es, holds_log w es ∧ replays kept_none es {| k_files := cur; k_pointers := pointers (compact_pointers_ e) (compact_pointer_ v); k_log := Some (default (vs_log v) (log_number_ e));
      k_prev := Some (default (vs_prev_log v) (prev_log_number_ e)); k_next := Some (vs_next_file v); k_last := Some (vs_last_sequence v) |}.
Proof.
  intros Hv Hlog Ht Hg. pose proof (completed_loggable e v (tk_edit _ _ _ Ht) Hv) as Hl. pose proof Hv as [Hf [Hlp Hp] _ _]. pose proof (takes_pointers v e cur Ht Hv) as Hp'.
  destruct (manifest_open o v (pointers (compact_pointers_ e) (compact_pointer_ v)) Hv Hlog Hg) as (w & es & k & Ew & Hw & Hr & Hkf & Hkp); [by rewrite pointers_length|done|].
  destruct (save_step (vs_current v) (completed e v) cur (compact_pointer_ v) Hf (lg_ready _ Hl) (completed_steps _ _ v _ (tk_steps _ _ _ Ht)) Hlp) as (b & Ea & Es).
  destruct (add_edit w es (completed e v) Hw Hl) as (w1 & Ew1 & Hw1). destruct (sync_log w1 _ Hw1) as (f & Ef & Hw2).
  unfold LogAndApply. set (x := match log_number_ e with Some _ => _ | None => _ end). assert (x = Ok (SetLogNumber (default (vs_log v) (log_number_ e)) e)) as ->.
  { subst x. destruct (log_number_ e) as [l|] eqn:El; [|done]. destruct (tk_log _ _ _ Ht l El). rewrite (proj2 (Z.leb_le _ _)), (proj2 (Z.ltb_lt _ _)) by lia. cbn. f_equal. destruct e; cbn in *. by subst. }
  rbind. set (e2 := VersionEdit.SetLastSequence _ _). assert (e2 = completed e v) as -> by (subst e2; unfold completed; cbn; destruct (prev_log_number_ e) eqn:Ep; [f_equal; f_equal; destruct e; cbn in *; by subst|done]).
  rewrite Ea. rbind. rewrite Es. rbind. change (compact_pointers_ (completed e v)) with (compact_pointers_ e). rewrite Ew. rbind. cbn [ok sOK]. rewrite encode_logged by done. rbind. rewrite Ew1. rbind. cbn [ok sOK]. rewrite Ef. rbind. cbn [ok sOK]. rbind.
  exists (Log.with_dest f (Log.block_offset_ w1) w1). set (s := if _ && _ then _ else _). assert (s = sOK) as ->.
  { subst s. cbn [ok sOK andb]. case_bool_decide as Hn; [|done]. by destruct (gr_new _ _ Hg Hn) as (? & _ & _ & ->). }
  cbn [ok sOK]. split; [done|]. exists (es ++ [completed e v]). split; [done|]. pose proof (replays_snoc _ _ _ (completed e v) cur Hr Hl) as Hr'. unfold kept_by in Hr'. cbn in Hr'. rewrite Hkf in Hr'.
  assert (pointers (compact_pointers_ e) (k_pointers k) = pointers (compact_pointers_ e) (compact_pointer_ v)) as Ep by (destruct Hkp as [-> | ->]; [done|apply pointers_twice]). rewrite Ep in Hr'. apply Hr'.
  by apply completed_steps, (tk_steps _ _ _ Ht).
Qed.

(** ** Any use of the set *)
Inductive op :=
| ONew
| OReuse (n : Z)
| OMark (n : Z)
| OLast (s : Z)
| OEdit (o : Outcome F S) (e : VersionEdit).
Definition perform (n fuel : nat) (a : op) (v : VersionSet F) : result (Status * VersionSet F) :=
  match a with
  | ONew => Ok (sOK, (NewFileNumber v).2)
  | OReuse m => Ok (sOK, ReuseFileNumber m v)
  | OMark m => Ok (sOK, MarkFileNumberUsed m v)
  | OLast s => v ← SetLastSequence s v; Ok (sOK, v)
  | OEdit o e => LogAndApply addr n fuel o e v
  end.
Fixpoint run (n fuel : nat) (ops : list op) (v : VersionSet F) : result (Status * VersionSet F) :=
  match ops with [] => Ok (sOK, v) | a :: ops => '(s, v) ← perform n fuel a v; if ok s then run n fuel ops v else Ok (s, v) end.

(** Numbers stay within 64 bits, sequence numbers do not go back, and an edit
    is one that the set may take, on files that take every write. *)
Definition allowed (a : op) (v : VersionSet F) : Prop :=
  match a with
  | ONew => vs_next_file v + 1 < 2 ^ 64
  | OReuse m => 0 < m < 2 ^ 64
  | OMark m => 0 ≤ m < 2 ^ 64 - 1
  | OLast s => vs_last_sequence v ≤ s < 2 ^ 64
  | OEdit o e => granted o v ∧ ∃ cur, takes v e cur
  end.
Fixpoint allowed_run (n fuel : nat) (ops : list op) (v : VersionSet F) : Prop :=
  match ops with [] => True | a :: ops => allowed a v ∧ ∀ v', perform n fuel a v = Ok (sOK, v') → allowed_run n fuel ops v' end.

Definition live (v : VersionSet F) : Prop := vs_ok v ∧ 0 < vs_next_file v ∧ log_ok v.

Lemma with_next_live m v : 0 < m < 2 ^ 64 → live v → live (with_next m v).
Proof.
  intros Hm ([Hf Hp (N1 & N2 & N3 & N4) Hman] & Hn & Hl). split; [|split; [cbn; lia|]].
  - split; cbn; [done|done| |done]. split; [unfold u64_ok; lia|done].
  - destruct Hl as [Hl|(next & last & [(w & es & k & Ew & Hw & Hr & Ek)])]; [by left|right]. exists next, last. split. by exists w, es, k.
Qed.

Lemma edit_live n fuel o e v : live v → allowed (OEdit o e) v →
  ∃ v' cur, LogAndApply addr n fuel o e v = Ok (sOK, v') ∧ takes v e cur ∧ vs_current v' = cur ∧ live v' ∧ logged (vs_next_file v') (vs_last_sequence v') v'.
Proof.
  intros (Hv & Hn & Hl) (Hg & cur & Ht). destruct (LogAndApply_ok n fuel o e v cur Hv Hl Ht Hg) as (w & -> & es & Hw & Hr). eexists _, cur. split; [done|]. split; [done|]. split; [done|].
  match goal with |- live ?x ∧ _ => assert (logged (vs_next_file x) (vs_last_sequence x) x) as Hlo by (split; by eexists _, _, _) end. split; [|done]. split; [|split; [done|right; by eexists _, _]].
  pose proof Hv as [Hf [Hlp Hp] (N1 & N2 & N3 & N4) Hm]. split; cbn; [| | |done].
  - apply (steps_ok (vs_current v) e); [done|apply (tk_edit _ _ _ Ht)|apply (tk_steps _ _ _ Ht)].
  - split; [by rewrite pointers_length|]. by apply (takes_pointers v e cur).
  - pose proof (lg_numbers _ (tk_edit _ _ _ Ht)) as (M1 & M2 & _). split; [done|]. split; [done|]. split; [by destruct (log_number_ e)|by destruct (prev_log_number_ e)].
Qed.

Lemma perform_live n fuel a v : live v → allowed a v → ∃ v', perform n fuel a v = Ok (sOK, v') ∧ live v'.
Proof.
  intros Hv Ha. pose proof Hv as ([Hf Hp (N1 & N2 & N3 & N4) Hman] & Hn & Hl). unfold u64_ok in *. destruct a as [|m|m|s|o e]; cbn [perform allowed] in *.
  - eexists. split; [done|]. cbn. apply with_next_live; [rewrite u64_small by lia; lia|done].
  - eexists. split; [done|]. unfold ReuseFileNumber. destruct (_ =? _); [|done]. by apply with_next_live.
  - eexists. split; [done|]. unfold MarkFileNumberUsed. destruct (_ <=? _); [|done]. apply with_next_live; [rewrite u64_small by lia; lia|done].
  - unfold SetLastSequence. rewrite (proj2 (Z.leb_le _ _)) by lia. rbind. eexists. split; [done|]. split; [split; cbn; [done|done|unfold u64_ok; lia|done]|split; [done|]].
    destruct Hl as [Hl|(next & last & [(w & es & k & Ew & Hw & Hr & Ek)])]; [by left|right]. exists next, last. split. by exists w, es, k.
  - destruct (edit_live n fuel o e v Hv Ha) as (v' & cur & -> & _ & _ & Hv' & _). by exists v'.
Qed.

Lemma run_live n fuel ops : ∀ v o e, live v → allowed_run n fuel (ops ++ [OEdit o e]) v →
  ∃ v1 v' cur, run n fuel ops v = Ok (sOK, v1) ∧ run n fuel (ops ++ [OEdit o e]) v = Ok (sOK, v') ∧ takes v1 e cur ∧ vs_current v' = cur ∧ live v' ∧ logged (vs_next_file v') (vs_last_sequence v') v'.
Proof.
  induction ops as [|a ops IH]; intros v o e Hv [Ha Hr].
  - destruct (edit_live n fuel o e v Hv Ha) as (v' & cur & E & H3). exists v, v', cur. split; [done|]. cbn [app run perform]. rewrite E. by rbind.
  - cbn [app run]. destruct (perform_live n fuel a v Hv Ha) as (v' & E & Hv'). rewrite E. rbind. cbn [ok sOK]. by apply IH, Hr.
Qed.

Lemma records_length es : (length es ≤ length (LogSpec.encodes 0 (records es)).1)%nat.
Proof.
  assert (∀ b, 0 ≤ b ≤ Log.kBlockSize → (length es ≤ length (LogSpec.encodes b (records es)).1)%nat) as Hall; [|by apply Hall]. induction es as [|e es IH]; intros b Hb; [cbn; lia|].
  cbn [records fmap list_fmap]. fold (records es). rewrite LogSpec.encodes_cons, length_app. pose proof (LogSpec.encode_length b (texts (items e)) Hb). specialize (IH _ (LogSpec.encode_range b (texts (items e)) Hb)). cbn. lia.
Qed.

(** C5: The manifest restores the version. Start with any set of versions that
    has no manifest open, such as a recovered one; take, reuse and mark file
    numbers, advance the sequence number and apply edits in any order, the
    last an edit. Every edit succeeds, the current version is what the edits
    say (the new files, and the old ones that are not deleted, in order), and
    recovery from the manifest file into a new set succeeds and gives the same
    files in every level, the same compaction pointers, log numbers and last
    sequence number, and as the number of the next manifest the next file
    number; it leaves a set that can go on in the same way. Reads, which count
    down the seeks a file is allowed, are not among the operations: the files
    of a recovered version have their full number of seeks. *)
Theorem manifest_recovers n fuel ops o e v0 : vs_ok v0 → 0 < vs_next_file v0 → descriptor_log_ v0 = None → allowed_run n fuel (ops ++ [OEdit o e]) v0 →
  ∃ v1 v w u cur, run n fuel ops v0 = Ok (sOK, v1) ∧ takes v1 e cur ∧ run n fuel (ops ++ [OEdit o e]) v0 = Ok (sOK, v) ∧ vs_current v = cur ∧ descriptor_log_ v = Some w ∧ written (Log.dest_ w) u ∧
    ∀ g n' fuel', unread g u → (length u < n')%nat → (length u < fuel')%nat →
      ∃ r : VersionSet F, Recover addr n' fuel' g VersionSet_new = Ok (sOK, r) ∧
        r = {| vs_next_file := u64 (vs_next_file v + 1); vs_manifest := vs_next_file v; vs_last_sequence := vs_last_sequence v; vs_log := vs_log v; vs_prev_log := vs_prev_log v;
               descriptor_log_ := None; vs_current := cur; compact_pointer_ := compact_pointer_ v |} ∧
        (vs_next_file v + 1 < 2 ^ 64 → vs_ok r).
Proof.
  intros Hv Hn Hd Ha. destruct (run_live n fuel ops v0 o e) as (v1 & v & cur & E1 & E2 & Ht & Ec & (Hv' & Hn' & _) & [(w & es & k & Ew & Hw & Hr & Ek)]); [split; [done|]; split; [done|by left]|done|].
  exists v1, v, w, (LogSpec.encodes 0 (records es)).1, cur. split; [done|]. split; [done|]. split; [done|]. split; [done|]. split; [done|]. split; [apply Hw|]. intros g n' fuel' Hg Hn2 Hf2.
  pose proof (records_length es). eexists. split; [apply (Recover_ok es k g n' fuel' (vs_next_file v) (vs_log v) (vs_last_sequence v)); [done|done|by rewrite Ek..|lia|lia]|]. rewrite Ek. cbn. rewrite Ec. split; [done|]. intros Hmax.
  destruct Hv' as [Hfi Hp (N1 & N2 & N3 & N4) Hm]. split; cbn; [by rewrite <- Ec|done| |done]. unfold u64_ok in *. rewrite u64_small by lia. repeat split; lia.
Qed.
End manifest.
End named.

(** ** A concrete run *)

(** The manifest of a new database, and what recovery makes of it. *)
Definition first_manifest : bytes := match NewDB (λ _, 0) (sOK, Some ([] : bytes)) sOK with Ok (_, Some u) => u | _ => [] end.
Definition opened (u : bytes) : VersionSet bytes := match Recover (λ _, 0) 10 200 u VersionSet_new with Ok (_, v) => v | _ => VersionSet_new end.
Lemma new_database_opens : NewDB (λ _, 0) (sOK, Some ([] : bytes)) sOK = Ok (sOK, Some first_manifest) ∧
  Recover (λ _, 0) 10 200 first_manifest VersionSet_new = Ok (sOK, {| vs_next_file := 3; vs_manifest := 2; vs_last_sequence := 0; vs_log := 0; vs_prev_log := 0;
    descriptor_log_ := (None : option (Log.Writer bytes)); vs_current := no_files; compact_pointer_ := replicate 7 [] |}).
Proof. split; vm_compute; reflexivity. Qed.

Definition table4 : FileMetaData := file_for (FileMetaData_new 4 1000 (ikey (str "a", 257)) (ikey (str "m", 513))).
Definition table5 : FileMetaData := file_for (FileMetaData_new 5 4000000 (ikey (str "b", 769)) (ikey (str "k", 1025))).
Definition named_files (n : Z) : FileMetaData := if n =? 4 then table4 else table5.
Definition add_table4 : VersionEdit := SetLogNumber 3 (AddFile 0 4 1000 (smallest table4) (largest table4) VersionEdit_new).
Definition move_to_table5 : VersionEdit := SetCompactPointer 1 (ikey (str "k", 1025)) (DeleteFile 0 4 (AddFile 1 5 4000000 (smallest table5) (largest table5) VersionEdit_new)).
Definition granting : Outcome bytes bytes := {| o_file := (sOK, Some []); o_manifest := None; o_current := sOK |}.
Definition with_table4 : list (list FileMetaData) := [table4] :: replicate 6 [].
Definition with_table5 : list (list FileMetaData) := [] :: [table5] :: replicate 5 [].

Lemma table_good f : f = table4 ∨ f = table5 → fgood named_files f.
Proof.
  intros Hf. destruct Hf as [-> | ->]; split; try reflexivity; split; try reflexivity;
    repeat split; try reflexivity; try (vm_compute; reflexivity); try (intros Hx; vm_compute in Hx; discriminate Hx); apply (bool_decide_unpack _); vm_compute; exact I.
Qed.

Lemma add_table4_loggable : loggable named_files add_table4.
Proof.
  split; [split|left; reflexivity|repeat split; unfold u64_ok; cbn; lia|constructor|constructor|repeat constructor|constructor].
  - constructor; [|constructor]. split; [unfold level_ok, kNumLevels; cbn; lia|]. apply (table_good table4). by left.
  - constructor.
  - constructor.
Qed.
Lemma move_loggable : loggable named_files move_to_table5.
Proof.
  split; [split|left; reflexivity|done|repeat constructor|repeat constructor; unfold u64_ok; cbn; lia|repeat constructor|].
  - constructor; [|constructor]. split; [unfold level_ok, kNumLevels; cbn; lia|]. apply (table_good table5). by right.
  - repeat constructor; unfold level_ok, kNumLevels; cbn; lia.
  - repeat constructor; unfold level_ok, kNumLevels; try (cbn; lia); vm_compute; congruence.
  - constructor; [|constructor]. apply (bool_decide_unpack _). vm_compute. exact I.
Qed.

Lemma singleton_level i f : sorted (cmp := fcmp) [f] ∧ disjoint i [f].
Proof. split; [repeat constructor|]. destruct i; [done|]. intros j x y _ Hy. done. Qed.
Lemma empty_level i : sorted (cmp := fcmp) [] ∧ disjoint i [].
Proof. split; [constructor|]. by destruct i. Qed.

Lemma table4_steps : steps no_files add_table4 with_table4.
Proof.
  split; [done|]. intros i c c' Hc Hc'. apply lookup_replicate in Hc as [-> _]. destruct i as [|i].
  - injection Hc' as <-. destruct (singleton_level 0 table4) as [H1 H2]. split; [done|]. split; [done|]. split; [set_solver|]. intros f. change (news 0 (new_files_ add_table4)) with [table4]. set_solver.
  - apply lookup_replicate in Hc' as [-> _]. destruct (empty_level (S i)) as [H1 H2]. split; [done|]. split; [done|]. split; [set_solver|]. intros f. change (news (S i) (new_files_ add_table4)) with (@nil FileMetaData). set_solver.
Qed.
Lemma table5_steps : steps with_table4 move_to_table5 with_table5.
Proof.
  split; [done|]. intros i c c' Hc Hc'. destruct i as [|[|i]].
  - injection Hc as <-. injection Hc' as <-. destruct (empty_level 0) as [H1 H2]. split; [done|]. split; [done|]. change (news 0 (new_files_ move_to_table5)) with (@nil FileMetaData). split; [set_solver|]. intros f.
    change (dels 0 (deleted_files_ move_to_table5)) with [4]. split; [set_solver|]. intros [Hf|[Hf Hn]]; [done|]. apply list_elem_of_singleton in Hf as ->. exfalso. apply Hn. by left.
  - injection Hc as <-. injection Hc' as <-. destruct (singleton_level 1 table5) as [H1 H2]. split; [done|]. split; [done|]. change (news 1 (new_files_ move_to_table5)) with [table5]. split; [set_solver|]. intros f. set_solver.
  - change (replicate 5 [] !! i = Some c) in Hc. apply lookup_replicate in Hc' as [-> _], Hc as [-> _]. destruct (empty_level (S (S i))) as [H1 H2]. split; [done|]. split; [done|].
    change (news (S (S i)) (new_files_ move_to_table5)) with (@nil FileMetaData). split; [set_solver|]. intros f. set_solver.
Qed.

Lemma opened_ok : vs_ok named_files (opened first_manifest).
Proof.
  unfold opened. rewrite (proj2 new_database_opens).
  split; cbn; [apply no_files_ok|split; [done|]|unfold u64_ok; lia|lia]. repeat constructor; by left.
Qed.

(** The first edit creates a manifest behind the one of the new database. *)
Definition demo_ops : list op := [ONew; ONew; OEdit granting add_table4; ONew; OLast 9].
Lemma manifest_recovers_witness : ∃ v w u r, run (λ _, 0) 10 500 (demo_ops ++ [OEdit granting move_to_table5]) (opened first_manifest) = Ok (sOK, v) ∧ descriptor_log_ v = Some w ∧ Log.dest_ w = u ∧
  Recover (λ _, 0) (S (length u)) (S (length u)) u (VersionSet_new (F := bytes)) = Ok (sOK, r) ∧ vs_current r = with_table5 ∧ vs_last_sequence r = 9 ∧ vs_log r = 3 ∧ vs_manifest r = 6.
Proof.
  destruct (manifest_recovers named_files (λ _, 0) (F := bytes) (S := bytes) (=) (=) 10 500 demo_ops granting move_to_table5 (opened first_manifest)) as (v1 & v & w & u & cur & E1 & _ & E & Ec & Ew & Hu & Hrec).
  - apply opened_ok.
  - vm_compute. reflexivity.
  - vm_compute. reflexivity.
  - cbn [app demo_ops allowed_run]. split; [vm_compute; reflexivity|]. intros va Ea. vm_compute in Ea. injection Ea as <-. split; [vm_compute; reflexivity|]. intros vb Eb. vm_compute in Eb. injection Eb as <-.
    split; [split; [split; intros _; by eexists|]; exists with_table4; split; [apply add_table4_loggable|exact table4_steps|intros l [= <-]; cbn; lia]|]. intros vc Evc. vm_compute in Evc. injection Evc as <-.
    split; [vm_compute; reflexivity|]. intros vd Ed. vm_compute in Ed. injection Ed as <-. split; [cbn; lia|]. intros ve Ee. vm_compute in Ee. injection Ee as <-.
    split; [|done]. split; [split; intros Hx; discriminate Hx|]. exists with_table5. split; [apply move_loggable|exact table5_steps|intros l Hx; discriminate Hx].
  - destruct (Hrec u (S (length u)) (S (length u)) eq_refl) as (r & Er & Hr & _); [lia|lia|]. exists v, w, u, r. split; [exact E|]. split; [exact Ew|]. split; [exact Hu|]. split; [exact Er|].
    vm_compute in E. injection E as <-. subst r. cbn in Ec. subst cur. repeat split.
Defined.

(** A crash while an edit is appended leaves a manifest from which recovery
    refuses to start, although every edit that was acknowledged is complete in
    it. *)
Lemma cut_manifest_refused : ∃ v w, run (λ _, 0) 10 500 (demo_ops ++ [OEdit granting move_to_table5]) (opened first_manifest) = Ok (sOK, v) ∧ descriptor_log_ v = Some w ∧
  ∃ r, Recover (λ _, 0) 10 500 (take (length (Log.dest_ w) - 1) (Log.dest_ w)) (VersionSet_new (F := bytes)) = Ok (Corruption (str "bad record length"), r).
Proof. eexists _, _. split; [vm_compute; reflexivity|]. split; [reflexivity|]. eexists. vm_compute. reflexivity. Qed.
