(* ===== verification/Arena.v ===== *)
(** * The arena of LevelDB (pack/leveldb/util/arena.h, arena.cc)

    Memory for a memtable is cut from blocks of 4 kB that are freed together.
    A pointer is a block and an offset into it; the blocks come from [new],
    whose addresses are multiples of the pointer size, so that an address is
    aligned when its offset is. *)

From S2P Require Import Prelude Cstd Cmem.

Module Arena.

Definition kBlockSize : Z := 4096.
Definition align : Z := 8.

Abbreviation pointer := (nat * Z)%type.
Record Arena := {
  alloc_ptr_ : option pointer; alloc_bytes_remaining_ : Z;
  blocks_ : list Z;        (** the sizes of the blocks *)
  blocks_memory_ : Z
}.

Definition Arena_new : Arena := {| alloc_ptr_ := None; alloc_bytes_remaining_ := 0; blocks_ := []; blocks_memory_ := 0 |}.

Definition AllocateNewBlock (block_bytes : Z) (a : Arena) : pointer * Arena :=
  ((length (blocks_ a), 0),
   {| alloc_ptr_ := alloc_ptr_ a; alloc_bytes_remaining_ := alloc_bytes_remaining_ a;
      blocks_ := blocks_ a ++ [block_bytes]; blocks_memory_ := u64 (blocks_memory_ a + block_bytes) |}).

(** [alloc_ptr_ += n; alloc_bytes_remaining_ -= n]. *)
Definition bump (p : pointer) (n : Z) (a : Arena) : Arena :=
  {| alloc_ptr_ := Some (p.1, p.2 + n); alloc_bytes_remaining_ := alloc_bytes_remaining_ a - n;
     blocks_ := blocks_ a; blocks_memory_ := blocks_memory_ a |}.

Definition AllocateFallback (bytes : Z) (a : Arena) : pointer * Arena :=
  if kBlockSize / 4 <? bytes then AllocateNewBlock bytes a
  else
    let '(p, a) := AllocateNewBlock kBlockSize a in
    let a := {| alloc_ptr_ := Some p; alloc_bytes_remaining_ := kBlockSize; blocks_ := blocks_ a; blocks_memory_ := blocks_memory_ a |} in
    (p, bump p bytes a).

(** A NULL pointer is never handed out: there are no bytes behind it. *)
Definition Allocate (bytes : Z) (a : Arena) : result (pointer * Arena) :=
  if bytes <=? 0 then Fault AssertFailed
  else if bytes <=? alloc_bytes_remaining_ a then
    match alloc_ptr_ a with Some p => Ok (p, bump p bytes a) | None => Fault OutOfBounds end
  else Ok (AllocateFallback bytes a).

Definition AllocateAligned (bytes : Z) (a : Arena) : result (pointer * Arena) :=
  let current_mod := match alloc_ptr_ a with Some p => Z.land p.2 (align - 1) | None => 0 end in
  let slop := if current_mod =? 0 then 0 else align - current_mod in
  let needed := bytes + slop in
  '(r, a) ← (if needed <=? alloc_bytes_remaining_ a then
               match alloc_ptr_ a with Some p => Ok ((p.1, p.2 + slop), bump p needed a) | None => Fault OutOfBounds end
             else Ok (AllocateFallback bytes a));
  if Z.land r.2 (align - 1) =? 0 then Ok (r, a) else Fault AssertFailed.

(** [MemoryUsage]; the vector of blocks has room for [capacity] of them. *)
Definition MemoryUsage (capacity : nat → Z) (a : Arena) : Z := u64 (blocks_memory_ a + capacity (length (blocks_ a)) * 8).

(** ** What the arena promises *)

(** A request, and a region that was handed out. *)
Inductive request := Plain (n : Z) | Aligned (n : Z).
Definition req_size (q : request) : Z := match q with Plain n | Aligned n => n end.
Definition serve (q : request) (a : Arena) : result (pointer * Arena) :=
  match q with Plain n => Allocate n a | Aligned n => AllocateAligned n a end.
Fixpoint serve_all (qs : list request) (a : Arena) : result (list (pointer * Z) * Arena) :=
  match qs with
  | [] => Ok ([], a)
  | q :: qs => '(p, a) ← serve q a; '(rs, a) ← serve_all qs a; Ok ((p, req_size q) :: rs, a)
  end.

Abbreviation region := (nat * Z * Z)%type.
Definition inside (blocks : list Z) (r : region) : Prop := ∃ size, blocks !! r.1.1 = Some size ∧ 0 ≤ r.1.2 ∧ r.1.2 + r.2 ≤ size.
Definition disjoint (r s : region) : Prop := r.1.1 ≠ s.1.1 ∨ r.1.2 + r.2 ≤ s.1.2 ∨ s.1.2 + s.2 ≤ r.1.2.

(** The free part of the current block lies behind everything that was
    handed out. *)
Record arena_ok (a : Arena) (out : list region) : Prop := {
  ao_free : match alloc_ptr_ a with
            | Some p => blocks_ a !! p.1 = Some (p.2 + alloc_bytes_remaining_ a) ∧ 0 ≤ p.2 ∧ 0 ≤ alloc_bytes_remaining_ a ∧
                        Forall (λ r, r.1.1 ≠ p.1 ∨ r.1.2 + r.2 ≤ p.2) out
            | None => alloc_bytes_remaining_ a = 0
            end;
  ao_inside : Forall (inside (blocks_ a)) out
}.

Lemma inside_more blocks x r : inside blocks r → inside (blocks ++ [x]) r.
Proof. intros (size & Hl & H). exists size. split; [by apply lookup_app_l_Some|done]. Qed.
Lemma inside_fresh blocks r p q : inside blocks r → disjoint ((length blocks, p), q) r.
Proof. intros (size & Hl & _). left. cbn. apply lookup_lt_Some in Hl. lia. Qed.

(** A new region beside the old ones. *)
Definition extends (a : Arena) (out : list region) (r : region) (a' : Arena) : Prop :=
  arena_ok a' (r :: out) ∧ Forall (disjoint r) out ∧ inside (blocks_ a') r.

Lemma bump_ok p k n a out : alloc_ptr_ a = Some p → arena_ok a out → 0 ≤ k → 0 < n → k + n ≤ alloc_bytes_remaining_ a →
  extends a out ((p.1, p.2 + k), n) (bump p (k + n) a).
Proof.
  intros Hp [Hf Hi] Hk Hn Hr. rewrite Hp in Hf. destruct Hf as (Hb & H0 & Hrem & Hall). assert (inside (blocks_ a) ((p.1, p.2 + k), n)) as Hin.
  { exists (p.2 + alloc_bytes_remaining_ a). cbn. split; [done|lia]. }
  split; [|split; [|done]].
  - split; cbn; [|by constructor]. rewrite Hb. split; [f_equal; lia|]. split; [lia|]. split; [lia|]. constructor; [right; cbn; lia|].
    eapply Forall_impl; [exact Hall|]. cbn. intros r [?|?]; [by left|right; lia].
  - eapply Forall_impl; [exact Hall|]. cbn. intros r [?|?]; [left; by apply not_eq_sym|right; right; cbn; lia].
Qed.

Lemma AllocateFallback_ok n a out p a' : arena_ok a out → 0 < n → AllocateFallback n a = (p, a') → extends a out (p, n) a' ∧ p.2 = 0.
Proof.
  intros [Hf Hi] Hn. unfold AllocateFallback, AllocateNewBlock. destruct (Z.ltb_spec (kBlockSize / 4) n) as [Hbig|Hsmall]; intros [= <- <-]; (split; [|done]).
  - split; [|split].
    + split; cbn; [|constructor; [exists n; cbn; split; [by rewrite lookup_app_r, Nat.sub_diag by lia|lia]|eapply Forall_impl; [exact Hi|]; intros r; apply inside_more]].
      destruct (alloc_ptr_ a) as [q|]; [|done]. destruct Hf as (Hb & H0 & Hrem & Hall). split; [by apply lookup_app_l_Some|]. split; [done|]. split; [done|].
      constructor; [|done]. left. cbn. apply lookup_lt_Some in Hb. lia.
    + eapply Forall_impl; [exact Hi|]. intros r. apply inside_fresh.
    + exists n. cbn. split; [by rewrite lookup_app_r, Nat.sub_diag by lia|lia].
  - unfold kBlockSize in *. change (4096 / 4) with 1024 in Hsmall. assert (inside (blocks_ a ++ [4096]) ((length (blocks_ a), 0), n)) as Hin.
    { exists 4096. cbn. split; [by rewrite lookup_app_r, Nat.sub_diag by lia|lia]. }
    split; [|split; [|done]].
    + split; cbn; [|constructor; [done|eapply Forall_impl; [exact Hi|]; intros r; apply inside_more]].
      split; [rewrite lookup_app_r, Nat.sub_diag by lia; cbn; f_equal; lia|]. split; [lia|]. split; [lia|]. constructor; [right; cbn; lia|].
      eapply Forall_impl; [exact Hi|]. intros r (size & Hl & _). left. apply lookup_lt_Some in Hl. lia.
    + eapply Forall_impl; [exact Hi|]. intros r. apply inside_fresh.
Qed.

Lemma land7 x : Z.land x (align - 1) = x `mod` 8.
Proof. change (align - 1) with (Z.ones 3). by rewrite Z.land_ones by lia. Qed.

Lemma serve_ok q a out : arena_ok a out → 0 < req_size q → ∃ p a', serve q a = Ok (p, a') ∧ extends a out (p, req_size q) a' ∧
  match q with Plain _ => True | Aligned _ => p.2 `mod` 8 = 0 end.
Proof.
  intros Ha Hn. pose proof (ao_free _ _ Ha) as Hf. destruct q as [n|n]; cbn [serve req_size] in *.
  - unfold Allocate. rewrite (proj2 (Z.leb_gt n 0)) by lia. destruct (Z.leb_spec n (alloc_bytes_remaining_ a)) as [Hr|Hr].
    + destruct (alloc_ptr_ a) as [p|] eqn:Hp; [|lia]. eexists _, _. split; [done|]. split; [|done].
      pose proof (bump_ok p 0 n a out Hp Ha ltac:(lia) Hn ltac:(lia)) as H. rewrite Z.add_0_r, Z.add_0_l in H. by destruct p.
    + destruct (AllocateFallback n a) as [p a'] eqn:E. eexists _, _. split; [done|]. split; [|done]. by eapply AllocateFallback_ok.
  - unfold AllocateAligned. set (slop := if _ =? 0 then 0 else _). assert (0 ≤ slop) as Hs.
    { subst slop. destruct (alloc_ptr_ a) as [p|]; [|done]. rewrite land7. destruct (p.2 `mod` 8 =? 0); [done|].
      unfold align. pose proof (Z.mod_pos_bound p.2 8). lia. }
    destruct (Z.leb_spec (n + slop) (alloc_bytes_remaining_ a)) as [Hr|Hr].
    + destruct (alloc_ptr_ a) as [p|] eqn:Hp; [|lia]. rbind. cbn [fst snd]. assert ((p.2 + slop) `mod` 8 = 0) as Hm.
      { subst slop. rewrite land7. destruct (Z.eqb_spec (p.2 `mod` 8) 0) as [Hz|Hz]; [by rewrite Z.add_0_r|]. unfold align. Z.to_euclidean_division_equations. lia. }
      rewrite land7, Hm. cbn [Z.eqb]. eexists _, _. split; [done|]. split; [|done]. rewrite (Z.add_comm n). apply bump_ok; [done|done|done|done|lia].
    + destruct (AllocateFallback n a) as [p a'] eqn:E. destruct (AllocateFallback_ok n a out p a' Ha Hn E) as [He Hz]. rbind. rewrite Hz. cbn [Z.land Z.eqb].
      eexists _, _. split; [done|]. split; [done|]. by rewrite Hz.
Qed.

Lemma serve_blocks q a p a' : serve q a = Ok (p, a') → ∃ l, blocks_ a' = blocks_ a ++ l.
Proof.
  assert (∀ n p a', AllocateFallback n a = (p, a') → ∃ l, blocks_ a' = blocks_ a ++ l) as Hfb.
  { intros n p' a''. unfold AllocateFallback, AllocateNewBlock. destruct (_ <? _); intros [= <- <-]; by eexists. }
  destruct q as [n|n]; cbn [serve]; unfold Allocate, AllocateAligned; intros E.
  - destruct (n <=? 0); [done|]. destruct (n <=? _); [|injection E as E; by eapply Hfb]. destruct (alloc_ptr_ a); [|done]. injection E as <- <-. exists []. cbn. by rewrite app_nil_r.
  - apply result_bind_Ok in E as ([r a1] & E1 & E2). destruct (Z.land r.2 _ =? 0); [|done]. injection E2 as <- <-.
    destruct (_ <=? _); [|injection E1 as E1; by eapply Hfb]. destruct (alloc_ptr_ a); [|done]. injection E1 as <- <-. exists []. cbn. by rewrite app_nil_r.
Qed.

Lemma inside_app blocks l r : inside blocks r → inside (blocks ++ l) r.
Proof. intros (size & Hl & H). exists size. split; [by apply lookup_app_l_Some|done]. Qed.

Definition aligned (q : request) (r : region) : Prop := match q with Plain _ => True | Aligned _ => r.1.2 `mod` 8 = 0 end.

Lemma serve_all_ok qs : ∀ a out, arena_ok a out → Forall (λ q, 0 < req_size q) qs →
  ∃ rs a', serve_all qs a = Ok (rs, a') ∧ Forall (inside (blocks_ a')) rs ∧ ForallOrdPairs disjoint rs ∧
    Forall (λ r, Forall (disjoint r) out) rs ∧ Forall2 aligned qs rs ∧ ∃ l, blocks_ a' = blocks_ a ++ l.
Proof.
  induction qs as [|q qs IH]; intros a out Ha Hqs; cbn [serve_all].
  { exists [], a. split; [done|]. do 4 (split; [constructor|]). exists []. by rewrite app_nil_r. }
  apply Forall_cons in Hqs as [Hq Hqs]. destruct (serve_ok q a out Ha Hq) as (p & a1 & E & (Ha1 & Hd & Hin) & Hal). rewrite E. rbind.
  destruct (IH a1 _ Ha1 Hqs) as (rs & a2 & E2 & Hin2 & Hd2 & Ho2 & Hal2 & l2 & Hl2). rewrite E2. rbind. exists ((p, req_size q) :: rs), a2. split; [done|].
  destruct (serve_blocks _ _ _ _ E) as [l1 Hl1]. split; [constructor; [rewrite Hl2; by apply inside_app|done]|]. split.
  { constructor; [|done]. eapply Forall_impl; [exact Ho2|]. cbn. intros r Hr. apply Forall_cons in Hr as [[?|[?|?]] _]; [left; by apply not_eq_sym|right; by right|right; by left]. }
  split; [constructor; [done|eapply Forall_impl; [exact Ho2|]; cbn; intros r Hr; by apply Forall_cons in Hr as [_ ?]]|].
  split; [by constructor; [destruct q|]|]. exists (l1 ++ l2). by rewrite Hl2, Hl1, app_assoc.
Qed.


End Arena.
