(* ===== verification/DbWrite.v ===== *)
(** * Writing to LevelDB, and recovering (pack/leveldb/db/db_impl.cc)

    Threads that write queue up; the one at the front becomes the leader,
    makes room, joins the batches behind its own into a group, appends the
    group to the log, applies it to the memtable and answers for all of the
    group. The mutex is held except while the log is written and while the
    leader sleeps or waits; a step below is what a thread does between two
    points at which others can run. Compactions run in other threads; what
    the writers see of them is that the immutable memtable goes away, that
    the number of tables at level 0 changes, and that an error is recorded.
    Recovery reads a log back into memtables. *)

From stdpp Require Import sorting.
From S2P Require Import Prelude Cstd Cmem LevelDb Coding DbFormat Status Iter SkipList SkipListSpec MemTable WriteBatch Env Crc32c Log Arena.

Module DbImpl.

Definition kL0_SlowdownWritesTrigger : Z := 12.
Definition kL0_StopWritesTrigger : Z := 20.

(** ** The memory of a memtable *)

(** [NewNode] and the buffer of an entry, in the order they were made. *)
Definition node_request (n : SkipList.Node (K := bytes)) : Arena.request := Arena.Aligned (8 + 8 * zlen (SkipList.next_ n)).
Definition memtable_requests (t : MemTable.table) : list Arena.request :=
  concat ((λ n, match SkipList.key n with Some k => [Arena.Plain (zlen k); node_request n] | None => [node_request n] end) <$> SkipList.nodes t).

Definition ApproximateMemoryUsage (capacity : nat → Z) (t : MemTable.table) : result Z :=
  '(_, a) ← Arena.serve_all (memtable_requests t) Arena.Arena_new;
  Ok (Arena.MemoryUsage capacity a).

Section db.
Context (addr : bytes → Z) (capacity : nat → Z) (write_buffer_size : Z).

(** ** The write path *)

Section writes.
Context {F : Type} `{WritableFile F}.
(** [env_->NewWritableFile] of the log with a number. *)
Context (NewWritableFile : Z → Status * F).

Record Writer := { batch : option bytes; sync : bool; done : bool; status : Status }.

(** Where the leader, the front of the queue, is. *)
Inductive phase := Room (force allow_delay : bool) | Logging (last_writer : nat) (updates : bytes) (in_tmp : bool) (last_sequence : Z).

(** [waiting] holds the writers that are inside [Write], [answers] what
    [Write] has returned, [disk] the log files that were closed. *)
Record DBImpl := {
  mem_ : MemTable.table; imm_ : option MemTable.table; log_ : Log.Writer F; logfile_number_ : Z;
  writers_ : list nat; waiting : gmap nat Writer; tmp_batch_ : bytes; leader : option phase; answers : gmap nat Status;
  last_sequence_ : Z; next_file_number_ : Z; level0 : Z; bg_error_ : Status; disk : list (Z * F)
}.

Definition with_queue (ws : list nat) (w : gmap nat Writer) (p : option phase) (a : gmap nat Status) (d : DBImpl) : DBImpl :=
  {| mem_ := mem_ d; imm_ := imm_ d; log_ := log_ d; logfile_number_ := logfile_number_ d; writers_ := ws; waiting := w;
     tmp_batch_ := tmp_batch_ d; leader := p; answers := a; last_sequence_ := last_sequence_ d;
     next_file_number_ := next_file_number_ d; level0 := level0 d; bg_error_ := bg_error_ d; disk := disk d |}.
Definition with_leader (p : option phase) (d : DBImpl) : DBImpl := with_queue (writers_ d) (waiting d) p (answers d) d.
Definition with_tmp (b : bytes) (d : DBImpl) : DBImpl :=
  {| mem_ := mem_ d; imm_ := imm_ d; log_ := log_ d; logfile_number_ := logfile_number_ d; writers_ := writers_ d; waiting := waiting d;
     tmp_batch_ := b; leader := leader d; answers := answers d; last_sequence_ := last_sequence_ d;
     next_file_number_ := next_file_number_ d; level0 := level0 d; bg_error_ := bg_error_ d; disk := disk d |}.
Definition with_log (m : MemTable.table) (l : Log.Writer F) (s : Z) (d : DBImpl) : DBImpl :=
  {| mem_ := m; imm_ := imm_ d; log_ := l; logfile_number_ := logfile_number_ d; writers_ := writers_ d; waiting := waiting d;
     tmp_batch_ := tmp_batch_ d; leader := leader d; answers := answers d; last_sequence_ := s;
     next_file_number_ := next_file_number_ d; level0 := level0 d; bg_error_ := bg_error_ d; disk := disk d |}.
Definition with_next_file (n : Z) (d : DBImpl) : DBImpl :=
  {| mem_ := mem_ d; imm_ := imm_ d; log_ := log_ d; logfile_number_ := logfile_number_ d; writers_ := writers_ d; waiting := waiting d;
     tmp_batch_ := tmp_batch_ d; leader := leader d; answers := answers d; last_sequence_ := last_sequence_ d;
     next_file_number_ := n; level0 := level0 d; bg_error_ := bg_error_ d; disk := disk d |}.
Definition with_background (i : option MemTable.table) (l0 : Z) (e : Status) (d : DBImpl) : DBImpl :=
  {| mem_ := mem_ d; imm_ := i; log_ := log_ d; logfile_number_ := logfile_number_ d; writers_ := writers_ d; waiting := waiting d;
     tmp_batch_ := tmp_batch_ d; leader := leader d; answers := answers d; last_sequence_ := last_sequence_ d;
     next_file_number_ := next_file_number_ d; level0 := l0; bg_error_ := e; disk := disk d |}.

Definition writer (d : DBImpl) (i : nat) : result Writer :=
  match waiting d !! i with Some w => Ok w | None => Fault OutOfBounds end.

(** [Write], up to the wait for the front of the queue. *)
Definition arrive (i : nat) (b : option bytes) (s : bool) (d : DBImpl) : DBImpl :=
  with_queue (writers_ d ++ [i]) (<[i := {| batch := b; sync := s; done := false; status := sOK |}]> (waiting d)) (leader d) (answers d) d.

(** A round of the loop of [MakeRoomForWrite]: the status it breaks with, or
    the flags of the next round. *)
Definition switch_memtable (d : DBImpl) : result (option Status * DBImpl) :=
  let new_log_number := next_file_number_ d in
  let d := with_next_file (new_log_number + 1) d in
  let '(s, lfile) := NewWritableFile new_log_number in
  if negb (ok s) then
    Ok (Some s, if next_file_number_ d =? new_log_number + 1 then with_next_file new_log_number d else d)
  else
    '(_, old) ← wf_Close (Log.dest_ (log_ d));
    l ← Log.Writer_new addr lfile;
    Ok (None, {| mem_ := MemTable.MemTable_new; imm_ := Some (mem_ d); log_ := l; logfile_number_ := new_log_number;
                 writers_ := writers_ d; waiting := waiting d; tmp_batch_ := tmp_batch_ d; leader := leader d; answers := answers d;
                 last_sequence_ := last_sequence_ d; next_file_number_ := next_file_number_ d; level0 := level0 d;
                 bg_error_ := bg_error_ d; disk := (logfile_number_ d, old) :: disk d |}).
Definition MakeRoomForWrite (force allow_delay : bool) (d : DBImpl) : result (option Status * bool * bool * DBImpl) :=
  if negb (ok (bg_error_ d)) then Ok (Some (bg_error_ d), force, allow_delay, d)
  else if allow_delay && (kL0_SlowdownWritesTrigger <=? level0 d) then Ok (None, force, false, d)
  else
    usage ← ApproximateMemoryUsage capacity (mem_ d);
    if negb force && (usage <=? write_buffer_size) then Ok (Some sOK, force, allow_delay, d)
    else if bool_decide (is_Some (imm_ d)) then Ok (None, force, allow_delay, d)
    else if kL0_StopWritesTrigger <=? level0 d then Ok (None, force, allow_delay, d)
    else '(s, d) ← switch_memtable d; Ok (s, match s with None => false | Some _ => force end, allow_delay, d).

(** [BuildBatchGroup]: the batch, whether it is [tmp_batch_], and the last
    writer of the group. *)
Fixpoint group_loop (d : DBImpl) (first : Writer) (first_batch : bytes) (max_size size : Z) (res : bytes) (in_tmp : bool) (last : nat)
    (rest : list nat) : result (bytes * bool * nat) :=
  match rest with
  | [] => Ok (res, in_tmp, last)
  | i :: rest =>
      w ← writer d i;
      if sync w && negb (sync first) then Ok (res, in_tmp, last)
      else
        match batch w with
        | None => group_loop d first first_batch max_size size res in_tmp i rest
        | Some b =>
            let size := u64 (size + zlen b) in
            if max_size <? size then Ok (res, in_tmp, last)
            else
              res ← (if in_tmp then Ok res
                     else
                       c ← WriteBatch.Count (tmp_batch_ d);
                       if c =? 0 then WriteBatch.Append first_batch (tmp_batch_ d) else Fault AssertFailed);
              res ← WriteBatch.Append b res;
              group_loop d first first_batch max_size size res true i rest
        end
  end.
Definition BuildBatchGroup (d : DBImpl) : result (bytes * bool * nat) :=
  match writers_ d with
  | [] => Fault AssertFailed
  | i :: rest =>
      first ← writer d i;
      match batch first with
      | None => Fault AssertFailed
      | Some b =>
          let size := zlen b in
          let max_size := if size <=? 131072 then size + 131072 else 1048576 in
          group_loop d first b max_size size b false i rest
      end
  end.

(** The answers to the group: [done] and [status] of every writer up to the
    last one; the leader [me] returns its status itself. *)
Fixpoint pop_writers (me last : nat) (s : Status) (ws : list nat) (m : gmap nat Writer) : result (list nat * gmap nat Writer) :=
  match ws with
  | [] => Fault OutOfBounds
  | r :: ws =>
      m ← (if decide (r = me) then Ok m
           else match m !! r with
                | Some w => Ok (<[r := {| batch := batch w; sync := sync w; done := true; status := s |}]> m)
                | None => Fault OutOfBounds
                end);
      if decide (r = last) then Ok (ws, m) else pop_writers me last s ws m
  end.
Definition finish (me last : nat) (s : Status) (d : DBImpl) : result DBImpl :=
  '(ws, m) ← pop_writers me last s (writers_ d) (waiting d);
  Ok (with_queue ws (delete me m) None (<[me := s]> (answers d)) d).

(** The leader after a round of [MakeRoomForWrite]: again, or with room to
    the group and its number, or straight to the answer. *)
Definition room (me : nat) (force allow_delay : bool) (d : DBImpl) : result DBImpl :=
  '(s, force, allow_delay, d) ← MakeRoomForWrite force allow_delay d;
  match s with
  | None => Ok (with_leader (Some (Room force allow_delay)) d)
  | Some s =>
      w ← writer d me;
      if ok s && bool_decide (is_Some (batch w)) then
        '(updates, in_tmp, last_writer) ← BuildBatchGroup d;
        updates ← WriteBatch.SetSequence (u64 (last_sequence_ d + 1)) updates;
        c ← WriteBatch.Count updates;
        let d := if (in_tmp : bool) then with_tmp updates d
                 else with_queue (writers_ d) (<[me := {| batch := Some updates; sync := sync w; done := done w; status := status w |}]> (waiting d))
                        (leader d) (answers d) d in
        Ok (with_leader (Some (Logging last_writer updates in_tmp (u64 (last_sequence_ d + c)))) d)
      else finish me me s d
  end.

(** The leader without the mutex, and back with it. *)
Definition commit (me last_writer : nat) (updates : bytes) (in_tmp : bool) (last_sequence : Z) (d : DBImpl) : result DBImpl :=
  w ← writer d me;
  '(s, l) ← Log.AddRecord addr updates (log_ d);
  '(s, l) ← (if ok s && sync w then '(s, f) ← wf_Sync (Log.dest_ l); Ok (s, Log.with_dest f (Log.block_offset_ l) l) else Ok (s, l));
  '(s, m) ← (if ok s then WriteBatch.InsertInto updates (mem_ d) else Ok (s, mem_ d));
  if last_sequence <? last_sequence_ d then Fault AssertFailed
  else
    let d := with_log m l last_sequence d in
    let d := if in_tmp then with_tmp WriteBatch.Clear d else d in
    finish me last_writer s d.

(** What can be observed: calls and returns of [Write]. *)
Inductive label := Call (i : nat) (b : option bytes) (s : bool) | Return (i : nat) (s : Status) | Tau.

Inductive step : DBImpl → label → DBImpl → Prop :=
| step_arrive d i b s : waiting d !! i = None → answers d !! i = None → step d (Call i b s) (arrive i b s d)
| step_lead d i ws w : leader d = None → writers_ d = i :: ws → waiting d !! i = Some w → done w = false →
    step d Tau (with_leader (Some (Room (bool_decide (batch w = None)) (bool_decide (batch w ≠ None)))) d)
| step_room d i ws f a d' : leader d = Some (Room f a) → writers_ d = i :: ws → room i f a d = Ok d' →
    step d (if leader d' is Some _ then Tau else Return i (default sOK (answers d' !! i))) d'
| step_commit d i ws l u t s d' : leader d = Some (Logging l u t s) → writers_ d = i :: ws → commit i l u t s d = Ok d' →
    step d (Return i (default sOK (answers d' !! i))) d'
| step_wake d i w : waiting d !! i = Some w → done w = true →
    step d (Return i (status w)) (with_queue (writers_ d) (delete i (waiting d)) (leader d) (<[i := status w]> (answers d)) d)
| step_background d i l0 e : i = None ∨ i = imm_ d → step d Tau (with_background i l0 e d).

Inductive run : DBImpl → list label → DBImpl → Prop :=
| run_nil d : run d [] d
| run_snoc d es d1 e d2 : run d es d1 → step d1 e d2 → run d (es ++ [e]) d2.

(** A database whose first log was just created by [DB::Open]. *)
Definition Open (lfile : F) (log_number last_sequence : Z) : result DBImpl :=
  l ← Log.Writer_new addr lfile;
  Ok {| mem_ := MemTable.MemTable_new; imm_ := None; log_ := l; logfile_number_ := log_number; writers_ := []; waiting := ∅;
        tmp_batch_ := WriteBatch.Clear; leader := None; answers := ∅; last_sequence_ := last_sequence; next_file_number_ := log_number + 1;
        level0 := 0; bg_error_ := sOK; disk := [] |}.
End writes.

(** ** Recovery *)

Section recovery.
Context {R : Type} `{SequentialFile R}.
(** [WriteLevel0Table] makes a table of a memtable; [S] is what it changes. *)
Context {S : Type} (WriteLevel0Table : MemTable.table → S → result (Status * S)).
Context (paranoid_checks : bool).

Definition MaybeIgnoreError (s : Status) : Status := if ok s || paranoid_checks then s else sOK.

(** The reporter keeps the first error, if it is asked to. *)
Definition noted (s : Status) (r : Log.Reader R) : Status :=
  if paranoid_checks && ok s then match last (Log.reports r) with Some (_, e) => e | None => s end else s.

Record Recovery := { mem : option MemTable.table; max_sequence : Z; tables : S; rstatus : Status }.

Definition recover_record (record : bytes) (v : Recovery) : result (bool * Recovery) :=
  if zlen record <? 12 then
    Ok (true, {| mem := mem v; max_sequence := max_sequence v; tables := tables v;
                 rstatus := if paranoid_checks && ok (rstatus v) then Corruption (str "log record too small") else rstatus v |})
  else
    b ← WriteBatch.SetContents record;
    let m := default MemTable.MemTable_new (mem v) in
    '(s, m) ← WriteBatch.InsertInto b m;
    let s := MaybeIgnoreError s in
    if negb (ok s) then Ok (false, {| mem := Some m; max_sequence := max_sequence v; tables := tables v; rstatus := s |})
    else
      seq ← WriteBatch.Sequence b;
      c ← WriteBatch.Count b;
      let last_seq := u64 (seq + c - 1) in
      let mx := if max_sequence v <? last_seq then last_seq else max_sequence v in
      usage ← ApproximateMemoryUsage capacity m;
      if write_buffer_size <? usage then
        '(s, t) ← WriteLevel0Table m (tables v);
        Ok (ok s, {| mem := if ok s then None else Some m; max_sequence := mx; tables := t; rstatus := s |})
      else Ok (true, {| mem := Some m; max_sequence := mx; tables := tables v; rstatus := s |}).

Fixpoint recover_loop (n fuel : nat) (r : Log.Reader R) (v : Recovery) : result (Log.Reader R * Recovery) :=
  match n with
  | O => Fault AssertFailed
  | Datatypes.S n =>
      '(rec, r) ← Log.ReadRecord addr fuel r;
      let v := {| mem := mem v; max_sequence := max_sequence v; tables := tables v; rstatus := noted (rstatus v) r |} in
      match rec with
      | Some record =>
          if ok (rstatus v) then '(more, v) ← recover_record record v; if (more : bool) then recover_loop n fuel r v else Ok (r, v)
          else Ok (r, v)
      | None => Ok (r, v)
      end
  end.

Definition RecoverLogFile (n fuel : nat) (file : R) (max0 : Z) (st : S) : result (Status * Z * S) :=
  '(_, v) ← recover_loop n fuel (Log.Reader_new file true true 0) {| mem := None; max_sequence := max0; tables := st; rstatus := sOK |};
  match mem v with
  | Some m =>
      if ok (rstatus v) then '(s, st) ← WriteLevel0Table m (tables v); Ok (s, max_sequence v, st)
      else Ok (rstatus v, max_sequence v, tables v)
  | None => Ok (rstatus v, max_sequence v, tables v)
  end.
End recovery.
End db.
End DbImpl.
