(* ===== verification/DbWriteSpec.v ===== *)
(** * What writing to LevelDB guarantees

    The writers of a run are answered in the order in which they queued up;
    the groups the leaders form are in the log and in the memtable, under
    consecutive sequence numbers; and reading the log back, as recovery does,
    rebuilds the memtable. *)

From stdpp Require Import sorting.
From S2P Require Import Prelude Cstd Cmem LevelDb Coding DbFormat Status Iter SkipList SkipListSpec MemTable WriteBatch Env Crc32c Log LogSpec Arena DbWrite.

Module DbWriteSpec.
Import DbImpl.
#[local] Opaque Log.kBlockSize.

Abbreviation op := WriteBatch.op.

(** ** Batches as bytes *)

Definition rep_of (seq : Z) (ops : list op) : bytes :=
  EncodeFixed64 seq ++ EncodeFixed32 (zlen ops) ++ concat (WriteBatch.encode_op <$> ops).
Lemma batch_rep b seq ops : WriteBatch.batch b seq ops → b = rep_of seq ops.
Proof. by intros (-> & _). Qed.

(** Operations that a memtable takes. *)
Definition op_good (o : op) : Prop :=
  zlen o.1 < 2 ^ 31 - 8 ∧ zlen (default [] o.2) < 2 ^ 32 ∧ Forall is_byte o.1 ∧ Forall is_byte (default [] o.2).
Lemma op_good_ok o : op_good o → WriteBatch.op_ok o.
Proof. intros (Hk & Hv & _). split; lia. Qed.

Lemma rep_bytes seq ops : Forall op_good ops → Forall is_byte (rep_of seq ops).
Proof.
  intros Hops. unfold rep_of. rewrite Fixed64_halves. rewrite !Forall_app. repeat split; [apply fixed32_bytes..|].
  induction Hops as [|o ops (Hk & Hv & Hbk & Hbv) Hops IH]; cbn [fmap list_fmap concat]; [constructor|]. apply Forall_app. split; [|done].
  assert (zlen o.1 < 2 ^ 32) as Hk' by lia. pose proof (prefixed_bytes _ Hk' Hbk) as Pk. pose proof (prefixed_bytes _ Hv Hbv) as Pv.
  destruct o as [k [v|]]; cbn [WriteBatch.encode_op]; (constructor; [by vm_compute|]); [apply Forall_app; by split|done].
Qed.

(** The records of groups of operations, numbered from [s + 1]. *)
Fixpoint contents (s : Z) (groups : list (list op)) : list bytes :=
  match groups with
  | [] => []
  | g :: groups => rep_of (s + 1) g :: contents (s + zlen g) groups
  end.
Lemma contents_cons s g groups : contents s (g :: groups) = rep_of (s + 1) g :: contents (s + zlen g) groups.
Proof. done. Qed.
Lemma contents_app s g1 : ∀ g2, contents s (g1 ++ g2) = contents s g1 ++ contents (s + zlen (concat g1)) g2.
Proof.
  revert s. induction g1 as [|g g1 IH]; intros s g2; cbn [contents app concat]; [by rewrite Z.add_0_r|]. by rewrite IH, zlen_app, Z.add_assoc.
Qed.
Lemma contents_bytes groups : ∀ s, Forall (Forall op_good) groups → Forall (Forall is_byte) (contents s groups).
Proof. induction groups as [|g groups IH]; intros s Hg; cbn; [constructor|]. apply Forall_cons in Hg as [Hg1 Hg2]. constructor; [by apply rep_bytes|by apply IH]. Qed.
Lemma contents_length groups : ∀ s, length (contents s groups) = length groups.
Proof. induction groups as [|g groups IH]; intros s; cbn; [done|]. by rewrite IH. Qed.
Lemma contents_take k groups : ∀ s, take k (contents s groups) = contents s (take k groups).
Proof. revert groups. induction k as [|k IH]; intros [|g groups] s; cbn; try done. by rewrite IH. Qed.

Lemma groups_shorter groups : ∀ b s, 0 ≤ b ≤ Log.kBlockSize → (length groups ≤ length (LogSpec.encodes b (contents s groups)).1)%nat.
Proof.
  induction groups as [|g groups IH]; intros b s Hb; [cbn; lia|]. rewrite contents_cons, LogSpec.encodes_cons, length_app. cbn [length].
  pose proof (LogSpec.encode_length b (rep_of (s + 1) g) Hb). pose proof (IH (LogSpec.encode b (rep_of (s + 1) g)).2 (s + zlen g) (LogSpec.encode_range b _ Hb)). lia.
Qed.

(** ** Numbered operations in a memtable *)

Lemma number_app ops1 : ∀ s ops2, WriteBatch.number s (ops1 ++ ops2) = WriteBatch.number s ops1 ++ WriteBatch.number (s + zlen ops1) ops2.
Proof.
  induction ops1 as [|[k v] ops1 IH]; intros s ops2; cbn [WriteBatch.number app]; [by rewrite Z.add_0_r|]. by rewrite IH, zlen_cons, Z.add_assoc.
Qed.
Lemma fill_app H1 : ∀ t H2, fill (H1 ++ H2) t = (t ← fill H1 t; fill H2 t).
Proof. induction H1 as [|w H1 IH]; intros t H2; cbn [fill app]; [done|]. destruct (MemTable.Add _ _ _ _ _); rbind; [apply IH|done]. Qed.

Lemma number_ok ops : ∀ s, 0 ≤ s → s + zlen ops ≤ 2 ^ 56 → Forall op_good ops → Forall write_ok (WriteBatch.number s ops).
Proof.
  induction ops as [|[k v] ops IH]; intros s Hs Hb Hops; cbn [WriteBatch.number]; [constructor|]. apply Forall_cons in Hops as [(Hk & Hv & _) Hops]. rewrite zlen_cons in Hb.
  pose proof (zlen_nonneg ops). constructor; [|apply IH; [lia|lia|done]]. split; [cbn; lia|]. by split.
Qed.
Lemma number_seqs ops : ∀ s w, w ∈ WriteBatch.number s ops → s ≤ w_seq w < s + zlen ops.
Proof.
  induction ops as [|[k v] ops IH]; intros s w; cbn [WriteBatch.number]; [set_solver|]. rewrite zlen_cons. pose proof (zlen_nonneg ops).
  intros [->|Hw]%elem_of_cons; cbn; [lia|]. apply IH in Hw. lia.
Qed.
Lemma number_increasing ops : ∀ s, increasing (WriteBatch.number s ops).
Proof.
  induction ops as [|[k v] ops IH]; intros s; cbn [WriteBatch.number]; constructor; [apply IH|]. apply Forall_forall. intros w Hw. apply number_seqs in Hw. cbn. lia.
Qed.

(** A memtable that holds the operations [ops] from the number [s + 1] on. *)
Definition holds (s : Z) (ops : list op) (t : MemTable.table) : Prop := fill (WriteBatch.number (s + 1) ops) MemTable.MemTable_new = Ok t.

Lemma holds_total s ops : 0 ≤ s → s + zlen ops < 2 ^ 56 → Forall op_good ops → ∃ t, holds s ops t.
Proof.
  intros Hs Hb Hops. destruct (fill_ok (WriteBatch.number (s + 1) ops) MemTable.MemTable_new []) as (t & L & E & _);
    [apply new_contains|constructor|apply number_ok; [lia|lia|done]|apply number_increasing|set_solver|]. by exists t.
Qed.
Lemma holds_insert s ops g t : 0 ≤ s → s + zlen (ops ++ g) < 2 ^ 56 → zlen g < 2 ^ 31 → Forall op_good (ops ++ g) → holds s ops t →
  ∃ t', WriteBatch.InsertInto (rep_of (s + zlen ops + 1) g) t = Ok (sOK, t') ∧ holds s (ops ++ g) t'.
Proof.
  intros Hs Hb Hg Hops Ht. pose proof (zlen_nonneg ops). pose proof (zlen_nonneg g). destruct (holds_total s (ops ++ g) Hs Hb Hops) as [t' Ht']. exists t'. split; [|done].
  unfold holds in *. rewrite number_app, fill_app, Ht in Ht'. rbind. cbn [mbind result_bind] in Ht'. replace (s + 1 + zlen ops) with (s + zlen ops + 1) in Ht' by lia.
  rewrite zlen_app in Hb. apply (WriteBatch.InsertInto_fill _ (s + zlen ops + 1) g); [|apply Forall_app in Hops as [_ Hops]; eapply Forall_impl; [exact Hops|]; apply op_good_ok|lia|done].
  split; [done|]. split; [done|lia].
Qed.

(** ** The memory of a memtable *)

Definition keys_pos (t : MemTable.table) : Prop :=
  Forall (λ n, match SkipList.key n with Some k => 0 < zlen k | None => True end) (SkipList.nodes t).

Lemma SetNext_keys t p n q t' : SkipList.SetNext t p n q = Ok t' → keys_pos t → keys_pos t'.
Proof.
  unfold SkipList.SetNext, SkipList.node. destruct (SkipList.nodes t !! p) as [x|] eqn:E; [|done]. rbind. destruct (decide _); [|done]. intros [= <-] Hk.
  unfold keys_pos in *. cbn. apply Forall_insert; [done|]. cbn. by apply (Forall_lookup_1 _ _ _ _ Hk E).
Qed.
Lemma link_keys n : ∀ i x prev t t', SkipList.link i n x prev t = Ok t' → keys_pos t → keys_pos t'.
Proof.
  induction n as [|n IH]; intros i x prev t t' E Hk; cbn [SkipList.link] in E; [by injection E as <-|]. destruct (prev !! i) as [[p|]|]; try done.
  apply result_bind_Ok in E as (q & _ & E). apply result_bind_Ok in E as (t1 & E1 & E). apply result_bind_Ok in E as (t2 & E2 & E).
  apply (IH _ _ _ _ _ E). eapply SetNext_keys; [done|]. by eapply SetNext_keys.
Qed.
Lemma Add_keys s ty k v t t' : MemTable.Add s ty k v t = Ok t' → keys_pos t → keys_pos t'.
Proof.
  unfold MemTable.Add, MemTable.encode_entry. set (buf := EncodeVarint32 _ ++ _). destruct (_ =? _); [|done]. rbind. unfold SkipList.Insert. intros E Hk.
  apply result_bind_Ok in E as ([x prev] & _ & E). apply result_bind_Ok in E as (fresh & _ & E). destruct fresh; [|done]. cbn [negb] in E.
  destruct (SkipList.RandomHeight _) as [height rnd]. eapply link_keys; [done|]. unfold keys_pos in *. cbn. apply Forall_app. split; [done|]. constructor; [|constructor].
  cbn. unfold buf. rewrite !zlen_app. change (zlen (EncodeFixed64 _)) with 8. pose proof (zlen_nonneg k). pose proof (zlen_nonneg v).
  pose proof (zlen_nonneg (EncodeVarint32 (u32 (zlen k + 8)))). pose proof (zlen_nonneg (EncodeVarint32 (u32 (zlen v)))). lia.
Qed.
Lemma fill_keys H : ∀ t t', fill H t = Ok t' → keys_pos t → keys_pos t'.
Proof.
  induction H as [|w H IH]; intros t t' E Hk; cbn [fill] in E; [by injection E as <-|]. apply result_bind_Ok in E as (t1 & E1 & E). eapply IH; [done|]. by eapply Add_keys.
Qed.
Lemma usage_total capacity s ops t : holds s ops t → ∃ u, ApproximateMemoryUsage capacity t = Ok u.
Proof.
  intros Ht. assert (keys_pos t) as Hk by (eapply fill_keys; [exact Ht|]; by repeat constructor). unfold ApproximateMemoryUsage.
  destruct (Arena.serve_all_ok (memtable_requests t) Arena.Arena_new []) as (rs & a & -> & _); [by split; cbn| |rbind; by eexists].
  unfold memtable_requests. apply Forall_concat, Forall_fmap. eapply Forall_impl; [exact Hk|]. intros n Hn. cbn in Hn |- *. pose proof (zlen_nonneg (SkipList.next_ n)).
  assert (0 < Arena.req_size (node_request n)) by (cbn; lia). destruct (SkipList.key n); rewrite !Forall_cons, Forall_nil; auto.
Qed.

(** ** Groups *)

(** What the writers asked for: [Some None] for a compaction request. *)
Abbreviation asked := (gmap nat (option (list op))).
Definition gids (A : asked) (grp : list nat) : list (nat * list op) :=
  omap (λ i, match A !! i with Some (Some ops) => Some (i, ops) | _ => None end) grp.
Definition gops (A : asked) (grp : list nat) : list op := concat (gids A grp).*2.

Lemma gids_app A g1 g2 : gids A (g1 ++ g2) = gids A g1 ++ gids A g2.
Proof. apply omap_app. Qed.
Lemma gops_app A g1 g2 : gops A (g1 ++ g2) = gops A g1 ++ gops A g2.
Proof. unfold gops. by rewrite gids_app, fmap_app, concat_app. Qed.
Lemma gops_one A i : gops A [i] = match A !! i with Some (Some ops) => ops | _ => [] end.
Proof. unfold gops. cbn. destruct (A !! i) as [[ops|]|]; cbn; [apply app_nil_r|done|done]. Qed.
Lemma gids_sublist A grp : (gids A grp).*1 `sublist_of` grp.
Proof.
  induction grp as [|i grp IH]; cbn; [constructor|]. fold (gids A grp). destruct (A !! i) as [[ops|]|]; cbn; by constructor.
Qed.
Lemma gids_in A grp i ops : (i, ops) ∈ gids A grp ↔ i ∈ grp ∧ A !! i = Some (Some ops).
Proof.
  unfold gids. rewrite list_elem_of_omap. split.
  - intros (j & Hj & E). destruct (A !! j) as [[o|]|] eqn:EA; simplify_eq. by split.
  - intros [Hi E]. exists i. by rewrite E.
Qed.

(** A batch in memory with the operations its writer asked for. *)
Definition matches (A : asked) (i : nat) (b : option bytes) : Prop :=
  match b with
  | None => A !! i = Some None
  | Some b => ∃ seq ops, WriteBatch.batch b seq ops ∧ A !! i = Some (Some ops) ∧ zlen b < 2 ^ 63
  end.

Lemma batch_size b seq ops : WriteBatch.batch b seq ops → zlen ops + 12 ≤ zlen b.
Proof.
  intros (-> & _). rewrite !zlen_app. change (zlen (EncodeFixed64 seq)) with 8. change (zlen (EncodeFixed32 (zlen ops))) with 4.
  pose proof (WriteBatch.zlen_concat_ops ops). lia.
Qed.

Section groups.
Context {F : Type} (A : asked) (d : DBImpl (F := F)).
Context (Hq : ∀ i, i ∈ writers_ d → ∃ w, waiting d !! i = Some w ∧ matches A i (batch w)) (Htmp : tmp_batch_ d = WriteBatch.Clear).

Lemma group_loop_ok first fb fops fseq max_size : WriteBatch.batch fb fseq fops → 0 ≤ max_size ≤ 2 ^ 20 →
  ∀ rest grp size res (in_tmp : bool) last_, grp ++ rest = writers_ d → last grp = Some last_ →
  (∃ seq, WriteBatch.batch res seq (gops A grp)) → zlen (gops A grp) ≤ size < 2 ^ 63 →
  (if in_tmp then size ≤ max_size else res = fb ∧ gops A grp = fops) →
  ∃ upd tmp l grp' rest', group_loop d first fb max_size size res in_tmp last_ rest = Ok (upd, tmp, l) ∧ grp' ++ rest' = writers_ d ∧
    last grp' = Some l ∧ grp `prefix_of` grp' ∧ (∃ seq, WriteBatch.batch upd seq (gops A grp')) ∧ zlen (gops A grp') < 2 ^ 63 ∧
    (tmp = false → upd = fb ∧ gops A grp' = fops).
Proof.
  intros Hfb Hmax. induction rest as [|i rest IH]; intros grp size res in_tmp last_ Hw Hl Hres Hsize Htm; cbn [group_loop].
  { exists res, in_tmp, last_, grp, []. split; [done|]. do 3 (split; [done|]). split; [done|]. split; [lia|]. by intros ->. }
  assert (grp ++ i :: rest = (grp ++ [i]) ++ rest) as Hsnoc by (by rewrite <- app_assoc). destruct (Hq i) as (w & Hw1 & Hm); [rewrite <- Hw; set_solver|].
  unfold writer. rewrite Hw1. rbind.
  assert (∃ upd tmp l grp' rest', Ok (res, in_tmp, last_) = Ok (upd, tmp, l) ∧ grp' ++ rest' = writers_ d ∧ last grp' = Some l ∧ grp `prefix_of` grp' ∧
    (∃ seq, WriteBatch.batch upd seq (gops A grp')) ∧ zlen (gops A grp') < 2 ^ 63 ∧ (tmp = false → upd = fb ∧ gops A grp' = fops)) as Hstop.
  { exists res, in_tmp, last_, grp, (i :: rest). split; [done|]. do 3 (split; [done|]). split; [done|]. split; [lia|]. by intros ->. }
  destruct (sync w && negb (sync first)); [done|]. rewrite Hsnoc in Hw. destruct (batch w) as [b|]; cbn in Hm.
  - destruct Hm as (seq & ops & Hb & HA & Hlen). pose proof (batch_size b seq ops Hb) as Hbs. pose proof (zlen_nonneg (gops A grp)) as Hg0. pose proof (zlen_nonneg ops) as Ho0.
    rewrite u64_small by lia. destruct (Z.ltb_spec max_size (size + zlen b)) as [Hbig|Hfit]; [done|].
    assert (gops A (grp ++ [i]) = gops A grp ++ ops) as Hgo by (by rewrite gops_app, gops_one, HA).
    set (res1 := if in_tmp then _ else _). assert (∃ r1 seq1, res1 = Ok r1 ∧ WriteBatch.batch r1 seq1 (gops A grp)) as (r1 & seq1 & -> & Hr1).
    { subst res1. destruct in_tmp; [destruct Hres as [sq Hres]; by exists res, sq|]. destruct Htm as [-> Hgf]. rewrite Htmp.
      change (WriteBatch.Count WriteBatch.Clear) with (Ok (A := Z) 0). rbind. cbn [Z.eqb].
      destruct (WriteBatch.Append_ok _ _ _ _ _ _ WriteBatch.Clear_batch Hfb) as (c & -> & Hc); [rewrite <- Hgf; change (zlen (@nil op)) with 0; lia|]. exists c, 0. by rewrite Hgf. }
    rbind. destruct (WriteBatch.Append_ok _ _ _ _ _ _ Hr1 Hb) as (c & -> & Hc); [lia|]. rbind.
    destruct (IH (grp ++ [i]) (size + zlen b) c true i) as (upd & tmp & l & grp' & rest' & E & H1 & H2 & H3 & H4 & H5 & H6);
      [done|by rewrite last_snoc|rewrite Hgo; by eexists|rewrite Hgo, zlen_app; lia|done|].
    exists upd, tmp, l, grp', rest'. do 3 (split; [done|]). split; [by eapply prefix_app_l|done].
  - assert (gops A (grp ++ [i]) = gops A grp) as Hgo by (by rewrite gops_app, gops_one, Hm, app_nil_r).
    destruct (IH (grp ++ [i]) size res in_tmp i) as (upd & tmp & l & grp' & rest' & E & H1 & H2 & H3 & H4 & H5 & H6);
      [done|by rewrite last_snoc|by rewrite Hgo|by rewrite Hgo|by rewrite Hgo|].
    exists upd, tmp, l, grp', rest'. do 3 (split; [done|]). split; [by eapply prefix_app_l|done].
Qed.

Lemma BuildBatchGroup_ok me ws w b : writers_ d = me :: ws → waiting d !! me = Some w → batch w = Some b →
  ∃ upd tmp l grp rest seq ops, BuildBatchGroup d = Ok (upd, tmp, l) ∧ writers_ d = (me :: grp) ++ rest ∧ last (me :: grp) = Some l ∧
    WriteBatch.batch upd seq (gops A (me :: grp)) ∧ WriteBatch.batch b ops.1 ops.2 ∧ A !! me = Some (Some ops.2) ∧
    (tmp = false → upd = b ∧ gops A (me :: grp) = ops.2) ∧ zlen b < 2 ^ 63.
Proof.
  intros Hws Hw Hb. unfold BuildBatchGroup, writer. rewrite Hws, Hw. rbind. rewrite Hb. destruct (Hq me) as (w' & Hw' & Hm); [rewrite Hws; set_solver|].
  assert (w' = w) as -> by congruence. rewrite Hb in Hm. destruct Hm as (seq & ops & Hbatch & HA & Hlen). pose proof (batch_size b seq ops Hbatch) as Hbs.
  assert (gops A [me] = ops) as Hgo by (by rewrite gops_one, HA). pose proof (zlen_nonneg ops).
  destruct (group_loop_ok w b ops seq (if zlen b <=? 131072 then zlen b + 131072 else 1048576) Hbatch) with (rest := ws) (grp := [me]) (size := zlen b) (res := b) (in_tmp := false) (last_ := me)
    as (upd & tmp & l & grp' & rest' & E & H1 & H2 & [k ->] & [sq H4] & H5 & H6); [destruct (Z.leb_spec (zlen b) 131072); lia|done|done|rewrite Hgo; by eexists|rewrite Hgo; lia|done|].
  exists upd, tmp, l, k, rest', sq, (seq, ops). cbn [app] in *. rewrite E, <- H1, <- Hws in *. repeat (split; [done|]). done.
Qed.
End groups.

(** ** The queue *)

Definition calls (es : list label) : list nat := omap (λ e, match e with Call i _ _ => Some i | _ => None end) es.
Lemma calls_snoc es e : calls (es ++ [e]) = calls es ++ match e with Call i _ _ => [i] | _ => [] end.
Proof. unfold calls. rewrite omap_app. by destruct e. Qed.

(** Calls with batches that were put together by [Put] and [Delete]. *)
Definition call_ok (e : label) : Prop :=
  match e with Call _ (Some b) _ => zlen b < 2 ^ 63 ∧ ∃ seq ops, WriteBatch.batch b seq ops ∧ Forall op_good ops | _ => True end.

(** An acknowledged batch was committed, a refused one was not. *)
Definition answered (A : asked) (order : list (nat * list op)) (i : nat) (s : Status) : Prop :=
  if ok s then ∀ ops, A !! i = Some (Some ops) → (i, ops) ∈ order else i ∉ order.*1.

Section queue.
Context {F : Type}.
Implicit Types d : DBImpl (F := F).

Record qinv (es : list label) (A : asked) (gone : list nat) (order : list (nat * list op)) d : Prop := {
  q_calls : calls es = gone ++ writers_ d;
  q_nodup : NoDup (gone ++ writers_ d);
  q_asked i b s : Call i b s ∈ es → match b with None => A !! i = Some None | Some b => ∃ seq ops, WriteBatch.batch b seq ops ∧ A !! i = Some (Some ops) end;
  q_good i ops : A !! i = Some (Some ops) → Forall op_good ops ∧ ∃ b s seq, Call i (Some b) s ∈ es ∧ WriteBatch.batch b seq ops;
  q_wait i : i ∈ writers_ d → ∃ w, waiting d !! i = Some w ∧ done w = false ∧ matches A i (batch w);
  q_gone i : i ∈ gone → (∃ w, waiting d !! i = Some w ∧ done w = true ∧ answered A order i (status w)) ∨
                        (waiting d !! i = None ∧ ∃ s, answers d !! i = Some s ∧ answered A order i s);
  q_known i : is_Some (waiting d !! i) → i ∈ gone ++ writers_ d;
  q_answers i s : answers d !! i = Some s → i ∈ gone ∧ waiting d !! i = None;
  q_returns i s : Return i s ∈ es → answers d !! i = Some s;
  q_order : order.*1 `sublist_of` gone;
  q_orders i ops : (i, ops) ∈ order → A !! i = Some (Some ops)
}.

(** The queue does not look at the rest of the database. *)
Definition same_queue d d' : Prop := writers_ d' = writers_ d ∧ waiting d' = waiting d ∧ answers d' = answers d.
Lemma qinv_same es A gone order d d' : same_queue d d' → qinv es A gone order d → qinv es A gone order d'.
Proof. intros (E1 & E2 & E3) []. split; rewrite ?E1, ?E2, ?E3; done. Qed.

Lemma calls_in es i b s : Call i b s ∈ es → i ∈ calls es.
Proof. intros Hi. apply list_elem_of_omap. by exists (Call i b s). Qed.

Lemma qinv_tau es A gone order d : qinv es A gone order d → qinv (es ++ [Tau]) A gone order d.
Proof.
  intros []. split; try done.
  - by rewrite calls_snoc, app_nil_r.
  - intros i b s Hi. apply q_asked0 with (s := s). set_solver.
  - intros i ops Hi. destruct (q_good0 i ops Hi) as (Hg & b & s & seq & Hc & Hb). split; [done|]. exists b, s, seq. set_solver.
  - intros i s Hi. apply q_returns0. set_solver.
Qed.

Lemma qinv_fresh es A gone order d i : qinv es A gone order d → waiting d !! i = None → answers d !! i = None → i ∉ gone ++ writers_ d.
Proof.
  intros Q Hw Ha [Hi|Hi]%elem_of_app; [destruct (q_gone _ _ _ _ _ Q i Hi) as [(w & ? & _)|(_ & s & ? & _)]; congruence|].
  destruct (q_wait _ _ _ _ _ Q i Hi) as (w & ? & _). congruence.
Qed.

Lemma qinv_arrive es A gone order d i b s : qinv es A gone order d → call_ok (Call i b s) → waiting d !! i = None → answers d !! i = None →
  ∃ A', qinv (es ++ [Call i b s]) A' gone order (arrive i b s d) ∧ ∀ j, j ∈ gone ++ writers_ d → A' !! j = A !! j.
Proof.
  intros Q Hok Hw Ha. pose proof (qinv_fresh _ _ _ _ _ i Q Hw Ha) as Hfresh.
  assert (∃ v, match b with None => v = None | Some b => zlen b < 2 ^ 63 ∧ ∃ seq ops, WriteBatch.batch b seq ops ∧ v = Some ops ∧ Forall op_good ops end) as (v & Hv).
  { destruct b as [b|]; [|by exists None]. destruct Hok as (Hl & seq & ops & Hb & Hg). exists (Some ops). eauto 7. }
  assert (∀ j, j ∈ gone ++ writers_ d → <[i := v]> A !! j = A !! j) as Hsame by (intros j Hj; apply lookup_insert_ne; set_solver).
  exists (<[i := v]> A). split; [|done]. destruct Q. split; cbn.
  - rewrite calls_snoc, q_calls0. by rewrite <- app_assoc.
  - rewrite app_assoc. apply NoDup_app. split; [done|]. split; [set_solver|apply NoDup_singleton].
  - intros j b' s' [Hj|Hj]%elem_of_app.
    + rewrite Hsame by (rewrite <- q_calls0; by eapply calls_in). by eapply q_asked0.
    + apply list_elem_of_singleton in Hj. injection Hj as -> -> ->. rewrite lookup_insert_eq. destruct b as [b|]; [|by subst v].
      destruct Hv as (_ & seq & ops & Hb & -> & _). by exists seq, ops.
  - intros j ops Hj. destruct (decide (j = i)) as [->|Hne].
    + rewrite lookup_insert_eq in Hj. injection Hj as ->. destruct b as [b|]; [|done]. destruct Hv as (_ & seq & ops' & Hb & [= ->] & Hg). split; [done|].
      exists b, s, seq. split; [set_solver|done].
    + rewrite lookup_insert_ne in Hj by done. destruct (q_good0 j ops Hj) as (Hg & b' & s' & seq & Hc & Hb). split; [done|]. exists b', s', seq. set_solver.
  - intros j [Hj|Hj]%elem_of_app.
    + destruct (q_wait0 j Hj) as (w & Hwj & Hd & Hm). exists w. rewrite lookup_insert_ne by set_solver. split; [done|]. split; [done|].
      unfold matches in *. by rewrite Hsame by set_solver.
    + apply list_elem_of_singleton in Hj as ->. eexists. rewrite lookup_insert_eq. split; [done|]. split; [done|]. cbn. unfold matches. rewrite lookup_insert_eq.
      destruct b as [b|]; [|by subst v]. destruct Hv as (Hl & seq & ops & Hb & -> & _). by exists seq, ops.
  - intros j Hj. rewrite lookup_insert_ne by set_solver. assert (∀ s, answered A order j s → answered (<[i := v]> A) order j s) as Hans.
    { intros s'. unfold answered. by rewrite Hsame by set_solver. }
    destruct (q_gone0 j Hj) as [(w & ? & ? & ?)|(? & s' & ? & ?)]; [left; exists w; auto|right; split; [done|exists s'; auto]].
  - intros j Hj. destruct (decide (j = i)) as [->|Hne]; [set_solver|]. rewrite lookup_insert_ne in Hj by done. apply q_known0 in Hj. set_solver.
  - intros j s' Hj. destruct (q_answers0 j s' Hj) as [Hg Hn]. split; [done|]. rewrite lookup_insert_ne by set_solver. done.
  - intros j s' Hj. apply q_returns0. set_solver.
  - done.
  - intros j ops Hj. rewrite Hsame; [by apply q_orders0|]. apply elem_of_app. left. eapply elem_of_sublist; [|exact q_order0].
    apply (list_elem_of_fmap_2 fst) in Hj. done.
Qed.

Lemma qinv_wake es A gone order d i w : qinv es A gone order d → waiting d !! i = Some w → done w = true →
  qinv (es ++ [Return i (status w)]) A gone order (with_queue (writers_ d) (delete i (waiting d)) (leader d) (<[i := status w]> (answers d)) d).
Proof.
  intros Q Hw Hd. assert (i ∉ writers_ d) as Hnw by (intros Hi; destruct (q_wait _ _ _ _ _ Q i Hi) as (w' & ? & ? & _); congruence).
  assert (i ∈ gone) as Hg by (pose proof (q_known _ _ _ _ _ Q i ltac:(eauto)); set_solver). destruct Q. split; cbn; try done.
  - by rewrite calls_snoc, app_nil_r.
  - intros j b s Hj. apply q_asked0 with (s := s). set_solver.
  - intros j ops Hj. destruct (q_good0 j ops Hj) as (Hgd & b & s & seq & Hc & Hb). split; [done|]. exists b, s, seq. set_solver.
  - intros j Hj. rewrite lookup_delete_ne by set_solver. by apply q_wait0.
  - intros j Hj. destruct (decide (j = i)) as [->|Hne].
    + right. rewrite lookup_delete_eq, lookup_insert_eq. split; [done|]. exists (status w). split; [done|].
      destruct (q_gone0 i Hg) as [(w' & E & _ & Ha)|[E _]]; [|congruence]. by replace w with w' by congruence.
    + rewrite lookup_delete_ne, lookup_insert_ne by done. by apply q_gone0.
  - intros j Hj. apply q_known0. destruct (decide (j = i)) as [->|Hne]; [by rewrite lookup_delete_eq in Hj; destruct Hj|by rewrite lookup_delete_ne in Hj].
  - intros j s Hj. destruct (decide (j = i)) as [->|Hne]; [by rewrite lookup_delete_eq|]. rewrite lookup_insert_ne in Hj by done. rewrite lookup_delete_ne by done. by eapply q_answers0.
  - intros j s [Hj|Hj]%elem_of_app; [|apply list_elem_of_singleton in Hj; injection Hj as -> ->; by rewrite lookup_insert_eq].
    pose proof (q_returns0 j s Hj) as Hr. destruct (decide (j = i)) as [->|Hne]; [|by rewrite lookup_insert_ne]. apply q_answers0 in Hr as [_ ?]. congruence.
Qed.

(** The answers to a group. *)
Definition set_done (s : Status) (w : Writer) : Writer := {| batch := batch w; sync := sync w; done := true; status := s |}.
Lemma pop_writers_ok me l s rest : ∀ grp m, last grp = Some l → NoDup grp → (∀ i, i ∈ grp → is_Some (m !! i)) →
  ∃ m', pop_writers me l s (grp ++ rest) m = Ok (rest, m') ∧
    ∀ i, m' !! i = if bool_decide (i ∈ grp ∧ i ≠ me) then set_done s <$> m !! i else m !! i.
Proof.
  induction grp as [|r grp IH]; intros m Hl Hnd Hin; [done|]. cbn [app pop_writers]. apply NoDup_cons in Hnd as [Hr Hnd].
  set (m1 := if decide (r = me) then _ else _). assert (∃ m2, m1 = Ok m2 ∧ ∀ i, m2 !! i = if bool_decide (i = r ∧ i ≠ me) then set_done s <$> m !! i else m !! i) as (m2 & -> & Hm2).
  { subst m1. destruct (Hin r ltac:(set_solver)) as [w Hw]. destruct (decide (r = me)) as [->|Hne].
    - exists m. split; [done|]. intros i. rewrite bool_decide_false by naive_solver. done.
    - rewrite Hw. eexists. split; [done|]. intros i. destruct (decide (i = r)) as [->|Hir]; [rewrite lookup_insert_eq, bool_decide_true, Hw by done; done|].
      rewrite lookup_insert_ne, bool_decide_false by naive_solver. done. }
  rbind. destruct (decide (r = l)) as [->|Hrl].
  - destruct grp as [|x grp]; [|exfalso; apply Hr; rewrite last_cons_cons in Hl; by apply last_Some_elem_of]. exists m2. split; [done|]. intros i. rewrite Hm2.
    rewrite (bool_decide_ext (i = l ∧ i ≠ me) (i ∈ [l] ∧ i ≠ me)) by (by rewrite list_elem_of_singleton). done.
  - destruct grp as [|x grp]; [cbn in Hl; congruence|]. rewrite last_cons_cons in Hl. destruct (IH m2 Hl Hnd) as (m' & E & Hm').
    { intros i Hi. rewrite Hm2. destruct (Hin i ltac:(set_solver)) as [w ->]. by destruct (bool_decide _). }
    exists m'. split; [done|]. intros i. rewrite Hm', !Hm2. destruct (decide (i = r)) as [->|Hir].
    + rewrite (bool_decide_false (r ∈ x :: grp ∧ _)) by tauto. destruct (decide (r = me)); [rewrite !bool_decide_false by tauto; done|rewrite !bool_decide_true by (split; [set_solver|done]); done].
    + rewrite (bool_decide_false (i = r ∧ _)) by tauto.
      rewrite (bool_decide_ext (i ∈ r :: x :: grp ∧ i ≠ me) (i ∈ x :: grp ∧ i ≠ me)) by set_solver. done.
Qed.

Lemma qinv_finish es A gone order d me grp rest l s : qinv es A gone order d → writers_ d = (me :: grp) ++ rest → last (me :: grp) = Some l →
  ∃ m a, finish me l s d = Ok (with_queue rest m None a d) ∧ a !! me = Some s ∧
    qinv (es ++ [Return me s]) A (gone ++ me :: grp) (if ok s then order ++ gids A (me :: grp) else order) (with_queue rest m None a d).
Proof.
  intros Q Hws Hl. set (G := me :: grp) in *. pose proof (q_nodup _ _ _ _ _ Q) as Hnd. rewrite Hws, app_assoc in Hnd.
  apply NoDup_app in Hnd as (HndG & Hdis & _). apply NoDup_app in HndG as (Hndg & Hgg & HndG).
  assert (∀ i, i ∈ G → ∃ w, waiting d !! i = Some w ∧ done w = false ∧ matches A i (batch w)) as HG by (intros i Hi; apply (q_wait _ _ _ _ _ Q); rewrite Hws; set_solver).
  destruct (pop_writers_ok me l s rest G (waiting d) Hl HndG) as (m' & E & Hm'); [intros i Hi; destruct (HG i Hi) as (w & ? & _); eauto|].
  unfold finish. rewrite Hws, E. rbind. exists (delete me m'), (<[me := s]> (answers d)). split; [done|]. split; [by rewrite lookup_insert_eq|].
  set (order' := if ok s then _ else _). assert (∀ x, x ∈ order → x ∈ order') as Hmono by (intros x; subst order'; destruct (ok s); set_solver).
  assert (∀ i, i ∉ G → i ∈ order'.*1 → i ∈ order.*1) as Hback.
  { intros i Hi. subst order'. destruct (ok s); [|done]. rewrite fmap_app. intros [?|Hg]%elem_of_app; [done|]. eapply elem_of_sublist in Hg; [|apply gids_sublist]. done. }
  assert (∀ i, i ∈ G → answered A order' i s) as HansG.
  { intros i Hi. unfold answered. subst order'. destruct (ok s) eqn:Hs; [intros ops HA; apply elem_of_app; right; by apply gids_in|].
    intros Ho. eapply elem_of_sublist in Ho; [|exact (q_order _ _ _ _ _ Q)]. set_solver. }
  assert (∀ i x, i ∉ G → answered A order i x → answered A order' i x) as HansO.
  { intros i x Hi. unfold answered. destruct (ok x); [intros Ha ops HA; by apply Hmono, Ha|]. intros Ha Ho. by apply Ha, Hback. }
  assert (∀ i, i ∉ G → m' !! i = waiting d !! i) as Hout by (intros i Hi; rewrite Hm', bool_decide_false by tauto; done).
  destruct Q. split; cbn.
  - by rewrite calls_snoc, app_nil_r, q_calls0, Hws, app_assoc.
  - by rewrite <- app_assoc, <- Hws.
  - intros j b s' Hj. apply q_asked0 with (s := s'). set_solver.
  - intros j ops Hj. destruct (q_good0 j ops Hj) as (Hgd & b & s' & seq & Hc & Hb). split; [done|]. exists b, s', seq. set_solver.
  - intros j Hj. assert (j ∉ G) as Hn by set_solver. rewrite lookup_delete_ne by set_solver. rewrite Hout by done. apply q_wait0. rewrite Hws. set_solver.
  - intros j [Hj|Hj]%elem_of_app.
    + assert (j ∉ G) as Hn by set_solver. rewrite lookup_delete_ne, lookup_insert_ne by set_solver. rewrite Hout by done.
      destruct (q_gone0 j Hj) as [(w & ? & ? & ?)|(? & s' & ? & ?)]; [left; exists w; auto|right; split; [done|exists s'; auto]].
    + destruct (decide (j = me)) as [->|Hne]; [right; rewrite lookup_delete_eq, lookup_insert_eq; split; [done|]; exists s; auto|].
      left. destruct (HG j Hj) as (w & Hw & _). exists (set_done s w). rewrite lookup_delete_ne by done. rewrite Hm', bool_decide_true, Hw by done. auto.
  - intros j Hj. rewrite <- app_assoc, <- Hws. apply q_known0. destruct (decide (j = me)) as [->|Hne]; [by rewrite lookup_delete_eq in Hj; destruct Hj|].
    rewrite lookup_delete_ne, Hm' in Hj by done. destruct (bool_decide _); [by apply fmap_is_Some in Hj|done].
  - intros j s' Hj. destruct (decide (j = me)) as [->|Hne]; [split; [set_solver|by rewrite lookup_delete_eq]|]. rewrite lookup_insert_ne in Hj by done.
    destruct (q_answers0 j s' Hj) as [Hg Hn]. split; [set_solver|]. rewrite lookup_delete_ne by done. rewrite Hout; [done|]. set_solver.
  - intros j s' [Hj|Hj]%elem_of_app; [|apply list_elem_of_singleton in Hj; injection Hj as -> ->; by rewrite lookup_insert_eq].
    pose proof (q_returns0 j s' Hj) as Hr. rewrite lookup_insert_ne; [done|]. intros <-. apply q_answers0 in Hr as [_ Hn]. destruct (HG me) as (w & ? & _); [set_solver|congruence].
  - subst order'. destruct (ok s); [rewrite fmap_app; apply sublist_app; [done|apply gids_sublist]|]. by apply sublist_inserts_r.
  - intros j ops Hj. subst order'. destruct (ok s); [|by apply q_orders0]. apply elem_of_app in Hj as [Hj|Hj]; [by apply q_orders0|]. by apply gids_in in Hj as [_ ?].
Qed.

Lemma qinv_rebatch es A gone order d me w b : qinv es A gone order d → me ∈ writers_ d → waiting d !! me = Some w → matches A me (Some b) →
  qinv es A gone order (with_queue (writers_ d) (<[me := {| batch := Some b; sync := sync w; done := done w; status := status w |}]> (waiting d)) (leader d) (answers d) d).
Proof.
  intros Q Hin Hw Hm. assert (me ∉ gone) as Hng by (pose proof (q_nodup _ _ _ _ _ Q) as Hn; apply NoDup_app in Hn as (_ & Hd & _); set_solver).
  destruct Q. split; cbn; try done.
  - intros j Hj. destruct (decide (j = me)) as [->|Hne]; [|rewrite lookup_insert_ne by done; by apply q_wait0]. rewrite lookup_insert_eq. eexists. split; [done|].
    split; [|done]. destruct (q_wait0 me Hin) as (w' & ? & ? & _). cbn. congruence.
  - intros j Hj. rewrite lookup_insert_ne by set_solver. by apply q_gone0.
  - intros j Hj. destruct (decide (j = me)) as [->|Hne]; [set_solver|]. rewrite lookup_insert_ne in Hj by done. by apply q_known0.
  - intros j s Hj. destruct (q_answers0 j s Hj) as [Hg Hn]. split; [done|]. rewrite lookup_insert_ne by set_solver. done.
Qed.
End queue.

(** ** Memtable and log *)

Section run.
Context (addr : bytes → Z) (capacity : nat → Z) (write_buffer_size : Z) {F : Type} (written : F → bytes → Prop) `{WritableLaws F written}.
Context (NewWritableFile : Z → Status * F) (new_empty : ∀ n, ok (NewWritableFile n).1 = true → written (NewWritableFile n).2 []).
Context (s_init : Z) (s_init_pos : 0 ≤ s_init).
Implicit Types d : DBImpl (F := F).

Definition usage_ok (t : MemTable.table) : Prop := ∃ u, ApproximateMemoryUsage capacity t = Ok u ∧ u ≤ write_buffer_size.

(** [old] are the operations of memtables that were switched out, [cur] the
    groups in the current one and its log. *)
Record dinv (order : list (nat * list op)) (old : list op) (cur : list (list op)) d : Prop := {
  v_ops : concat order.*2 = old ++ concat cur;
  v_seq : last_sequence_ d = s_init + zlen old + zlen (concat cur);
  v_mem : holds (s_init + zlen old) (concat cur) (mem_ d);
  v_log : LogSpec.tagged written (log_ d) (LogSpec.encodes 0 (contents (s_init + zlen old) cur)).1 (LogSpec.encodes 0 (contents (s_init + zlen old) cur)).2;
  v_good : Forall (Forall op_good) cur;
  v_short : Forall (λ g, zlen g < 2 ^ 31) cur;
  v_usage c1 c2 t : cur = c1 ++ c2 → c1 ≠ [] → c2 ≠ [] → holds (s_init + zlen old) (concat c1) t → usage_ok t
}.

Definition phase_ok (A : asked) d : Prop :=
  match leader d with
  | Some (Logging l u tmp sq) => ∃ me grp rest, writers_ d = (me :: grp) ++ rest ∧ last (me :: grp) = Some l ∧
      u = rep_of (last_sequence_ d + 1) (gops A (me :: grp)) ∧ zlen (gops A (me :: grp)) < 2 ^ 31 ∧
      sq = u64 (last_sequence_ d + zlen (gops A (me :: grp))) ∧ usage_ok (mem_ d) ∧ (tmp = false → tmp_batch_ d = WriteBatch.Clear)
  | _ => tmp_batch_ d = WriteBatch.Clear
  end.

Definition inv (es : list label) d : Prop := ∃ A gone order old cur, qinv es A gone order d ∧ dinv order old cur d ∧ phase_ok A d.

Definition same_data d d' : Prop := mem_ d' = mem_ d ∧ log_ d' = log_ d ∧ last_sequence_ d' = last_sequence_ d.
Lemma dinv_same order old cur d d' : same_data d d' → dinv order old cur d → dinv order old cur d'.
Proof. intros (E1 & E2 & E3) []. by split; rewrite ?E1, ?E2, ?E3. Qed.

Lemma MakeRoomForWrite_ok order old cur d f a s f' a' d1 : dinv order old cur d → MakeRoomForWrite addr capacity write_buffer_size NewWritableFile f a d = Ok (s, f', a', d1) →
  same_queue d d1 ∧ last_sequence_ d1 = last_sequence_ d ∧ tmp_batch_ d1 = tmp_batch_ d ∧ (∃ old' cur', dinv order old' cur' d1) ∧ (s = Some sOK → usage_ok (mem_ d1)).
Proof.
  intros V. unfold MakeRoomForWrite. destruct (ok (bg_error_ d)) eqn:Hbg; cbn [negb].
  2:{ intros [= <- <- <- <-]. split; [done|]. split; [done|]. split; [done|]. split; [by exists old, cur|]. intros [= E]. by rewrite E in Hbg. }
  destruct (a && _); [intros [= <- <- <- <-]; split; [done|]; split; [done|]; split; [done|]; split; [by exists old, cur|done]|].
  destruct (usage_total capacity _ _ _ (v_mem _ _ _ _ V)) as [u Hu]. rewrite Hu. rbind.
  destruct (negb f && (u <=? write_buffer_size)) eqn:Hroom.
  { intros [= <- <- <- <-]. split; [done|]. split; [done|]. split; [done|]. split; [by exists old, cur|]. intros _. exists u. split; [done|].
    apply andb_true_iff in Hroom as [_ Hroom]. lia. }
  destruct (bool_decide _); [intros [= <- <- <- <-]; split; [done|]; split; [done|]; split; [done|]; split; [by exists old, cur|done]|].
  destruct (kL0_StopWritesTrigger <=? level0 d); [intros [= <- <- <- <-]; split; [done|]; split; [done|]; split; [done|]; split; [by exists old, cur|done]|].
  unfold switch_memtable. pose proof (new_empty (next_file_number_ d)) as Hnew. destruct (NewWritableFile (next_file_number_ d)) as [st lfile]. cbn [fst snd] in Hnew.
  destruct (ok st) eqn:Hst; cbn [negb].
  2:{ rbind. intros [= <- <- <- <-]. assert (same_data d (if next_file_number_ (with_next_file (next_file_number_ d + 1) d) =? next_file_number_ d + 1
        then with_next_file (next_file_number_ d) (with_next_file (next_file_number_ d + 1) d) else with_next_file (next_file_number_ d + 1) d)) as Hsame by (by destruct (_ =? _)).
      split; [by destruct (_ =? _)|]. split; [by destruct (_ =? _)|]. split; [by destruct (_ =? _)|]. split; [exists old, cur; by apply (dinv_same _ _ _ d)|]. intros [= ->]. done. }
  pose proof (v_log _ _ _ _ V) as (Hw & _). cbn [log_ with_next_file]. destruct (wf_close_law _ _ Hw) as (fc & ->). rbind.
  destruct (LogSpec.Writer_new_ok addr written lfile (Hnew eq_refl)) as (lw & -> & Hlw). rbind. intros [= <- <- <- <-]. do 3 (split; [done|]). split; [|done].
  exists (old ++ concat cur), []. destruct V. split; cbn; try done.
  - by rewrite app_nil_r.
  - rewrite zlen_app. change (zlen (@nil op)) with 0. lia.
  - by intros [|? ?].
Qed.

Lemma step_last d e d' : step addr capacity write_buffer_size NewWritableFile d e d' → last_sequence_ d ≤ last_sequence_ d'.
Proof.
  assert (∀ me l s d d', finish me l s d = Ok d' → last_sequence_ d' = last_sequence_ d) as Hfin.
  { clear. intros me l s d d' E. unfold finish in E. apply result_bind_Ok in E as ([ws m] & _ & E). by injection E as <-. }
  intros Hs. destruct Hs as [| |d i ws f a d' Hl Hws E|d i ws l u t s d' Hl Hws E| |]; cbn; try lia.
  - unfold room in E. apply result_bind_Ok in E as ([[[s f'] a'] d1] & E1 & E). assert (last_sequence_ d1 = last_sequence_ d) as Hd1.
    { unfold MakeRoomForWrite in E1. destruct (negb _); [by injection E1 as _ _ _ <-|]. destruct (a && _); [by injection E1 as _ _ _ <-|]. apply result_bind_Ok in E1 as (us & _ & E1).
      destruct (_ && _); [by injection E1 as _ _ _ <-|]. destruct (bool_decide _); [by injection E1 as _ _ _ <-|]. destruct (_ <=? _); [by injection E1 as _ _ _ <-|].
      apply result_bind_Ok in E1 as ([s1 d2] & E2 & E1). injection E1 as _ _ _ <-. unfold switch_memtable in E2. destruct (NewWritableFile _) as [st lf]. destruct (negb (ok st)).
      - injection E2 as _ <-. by destruct (_ =? _).
      - apply result_bind_Ok in E2 as ([? ?] & _ & E2). apply result_bind_Ok in E2 as (? & _ & E2). by injection E2 as _ <-. }
    destruct s as [s|]; [|injection E as <-; cbn; lia]. apply result_bind_Ok in E as (w & _ & E). destruct (_ && _); [|apply Hfin in E; lia].
    apply result_bind_Ok in E as ([[u t] l] & _ & E). apply result_bind_Ok in E as (u' & _ & E). apply result_bind_Ok in E as (c & _ & E). injection E as <-. destruct t; cbn; lia.
  - unfold commit in E. apply result_bind_Ok in E as (w & _ & E). apply result_bind_Ok in E as ([s1 l1] & _ & E). apply result_bind_Ok in E as ([s2 l2] & _ & E).
    apply result_bind_Ok in E as ([s3 m] & _ & E). destruct (Z.ltb_spec s (last_sequence_ d)); [done|]. apply Hfin in E. rewrite E. destruct t; cbn; lia.
Qed.

Lemma room_step es d me ws f a d' : inv es d → leader d = Some (Room f a) → writers_ d = me :: ws →
  room addr capacity write_buffer_size NewWritableFile me f a d = Ok d' → last_sequence_ d < 2 ^ 56 →
  inv (es ++ [if leader d' is Some _ then Tau else Return me (default sOK (answers d' !! me))]) d'.
Proof.
  intros (A & gone & order & old & cur & Q & V & P) Hl Hws E Hlast. unfold phase_ok in P. rewrite Hl in P. unfold room in E.
  apply result_bind_Ok in E as ([[[s f'] a'] d1] & E1 & E). destruct (MakeRoomForWrite_ok _ _ _ _ _ _ _ _ _ _ V E1) as (Hsq & Hls & Htmp & (old1 & cur1 & V1) & Hus).
  pose proof (qinv_same _ _ _ _ _ _ Hsq Q) as Q1. destruct Hsq as (Hw1 & Hw2 & Hw3). rewrite P in Htmp. rewrite <- Hw1 in Hws.
  assert (0 ≤ last_sequence_ d1) as Hpos by (rewrite (v_seq _ _ _ _ V1); pose proof (zlen_nonneg old1); pose proof (zlen_nonneg (concat cur1)); lia).
  destruct s as [s|]; [|injection E as <-; cbn; exists A, gone, order, old1, cur1; split; [by apply (qinv_same _ _ _ _ d1), qinv_tau|]; by split; [apply (dinv_same _ _ _ d1)|]].
  destruct (q_wait _ _ _ _ _ Q1 me) as (w & Hwm & Hdone & Hm); [rewrite Hws; set_solver|]. unfold writer in E at 1. rewrite Hwm in E. cbn [mbind result_bind] in E.
  destruct (ok s && bool_decide (is_Some (batch w))) eqn:Hgo.
  - apply andb_true_iff in Hgo as [Hs [b Hb]%bool_decide_eq_true]. destruct s; [done|].
    destruct (BuildBatchGroup_ok A d1) with (me := me) (ws := ws) (w := w) (b := b) as (upd & tmp & l & grp & rest & seq & ops & EB & Hgrp & Hlg & Hupd & Hbb & HA & Hnt & Hlen); [|done|done|done|done|].
    { intros i Hi. destruct (q_wait _ _ _ _ _ Q1 i Hi) as (w' & ? & _ & ?). by exists w'. }
    rewrite EB in E. cbn [mbind result_bind] in E. rewrite u64_small in E by lia.
    destruct (WriteBatch.SetSequence_ok upd seq _ (last_sequence_ d1 + 1) Hupd) as (upd' & ES & Hupd'); [lia|]. rewrite ES in E. cbn [mbind result_bind] in E.
    rewrite (WriteBatch.Count_ok _ _ _ Hupd') in E. cbn [mbind result_bind] in E. injection E as <-. cbn [leader with_leader with_queue].
    assert (∀ d2, qinv es A gone order d2 → same_data d1 d2 → writers_ d2 = writers_ d1 → (tmp = false → tmp_batch_ d2 = WriteBatch.Clear) →
      inv (es ++ [Tau]) (with_leader (Some (Logging l upd' tmp (u64 (last_sequence_ d2 + zlen (gops A (me :: grp)))))) d2)) as Hfin.
    { intros d2 Q2 (S1 & S2 & S3) W2 T2. exists A, gone, order, old1, cur1. split; [by apply (qinv_same _ _ _ _ d2), qinv_tau|]. split; [by apply (dinv_same _ _ _ d1)|].
      exists me, grp, rest. cbn. rewrite W2, S1, S3. split; [done|]. split; [done|]. split; [by apply batch_rep|]. split; [by destruct Hupd' as (_ & ? & _)|]. split; [done|]. split; [by apply Hus|done]. }
    destruct tmp; [apply (Hfin (with_tmp upd' d1)); [by eapply qinv_same|done..]|]. destruct (Hnt eq_refl) as [-> Hgf].
    apply (Hfin (with_queue (writers_ d1) (<[me := {| batch := Some upd'; sync := sync w; done := done w; status := status w |}]> (waiting d1)) (leader d1) (answers d1) d1)); [|done..].
    apply qinv_rebatch; [done|rewrite Hws; set_solver|done|]. exists (last_sequence_ d1 + 1), ops.2. rewrite <- Hgf at 1. split; [done|]. split; [done|].
    rewrite (batch_rep _ _ _ Hupd'), Hgf. rewrite (batch_rep _ _ _ Hbb) in Hlen. unfold rep_of in *. rewrite !zlen_app in *. exact Hlen.
  - destruct (qinv_finish es A gone order d1 me [] ws me s Q1 Hws eq_refl) as (m & an & EF & Han & QF). rewrite EF in E. injection E as <-. cbn [leader with_queue answers]. rewrite Han. cbn [default].
    eexists A, _, _, old1, cur1. split; [exact QF|]. split; [|done]. destruct (ok s) eqn:Hs; [|by apply (dinv_same _ _ _ d1)].
    cbn [andb] in Hgo. apply bool_decide_eq_false in Hgo. destruct (batch w) as [b|]; [by destruct Hgo|]. cbn in Hm. unfold gids. cbn. rewrite Hm, app_nil_r. by apply (dinv_same _ _ _ d1).
Qed.

Lemma concat_snoc {B} (l : list (list B)) x : concat (l ++ [x]) = concat l ++ x.
Proof. rewrite concat_app. cbn. by rewrite app_nil_r. Qed.

Lemma gops_good es A gone order d grp : qinv es A gone order d → Forall op_good (gops A grp).
Proof.
  intros Q. unfold gops. apply Forall_concat, Forall_fmap, Forall_forall. intros [i ops] Hi. apply gids_in in Hi as [_ Hi]. cbn. by apply (q_good _ _ _ _ _ Q i).
Qed.

Lemma commit_step es d me ws l u t sq d' : inv es d → leader d = Some (Logging l u t sq) → writers_ d = me :: ws →
  commit addr me l u t sq d = Ok d' → last_sequence_ d' < 2 ^ 56 → inv (es ++ [Return me (default sOK (answers d' !! me))]) d' ∧ leader d' = None.
Proof.
  intros (A & gone & order & old & cur & Q & V & P) Hl Hws E Hlast. unfold phase_ok in P. rewrite Hl in P.
  destruct P as (me' & grp & rest & Hgrp & Hlg & -> & Hshort & -> & Hus & Htmp). assert (me' = me) as -> by (rewrite Hws in Hgrp; cbn in Hgrp; congruence).
  set (G := me :: grp) in *. set (g := gops A G) in *. destruct (q_wait _ _ _ _ _ Q me) as (w & Hwm & _); [rewrite Hws; set_solver|].
  pose proof (v_seq _ _ _ _ V) as Hseq. pose proof (zlen_nonneg old). pose proof (zlen_nonneg (concat cur)). pose proof (zlen_nonneg g).
  pose proof (gops_good _ _ _ _ _ G Q) as Hgood. fold g in Hgood. set (base := s_init + zlen old) in *.
  assert (last_sequence_ d' = u64 (last_sequence_ d + zlen g) ∧ last_sequence_ d ≤ u64 (last_sequence_ d + zlen g)) as [Hd' Hle].
  { unfold commit in E. apply result_bind_Ok in E as (w0 & _ & E). apply result_bind_Ok in E as ([s1 l1] & _ & E). apply result_bind_Ok in E as ([s2 l2] & _ & E).
    apply result_bind_Ok in E as ([s3 m] & _ & E). destruct (Z.ltb_spec (u64 (last_sequence_ d + zlen g)) (last_sequence_ d)); [done|]. unfold finish in E.
    apply result_bind_Ok in E as ([ws' m'] & _ & E). injection E as <-. by destruct t. }
  assert (u64 (last_sequence_ d + zlen g) = last_sequence_ d + zlen g) as Eu by (apply u64_small; lia). rewrite Eu in *. clear Hle.
  unfold commit, writer in E. rewrite Hwm in E. cbn [mbind result_bind] in E.
  destruct (LogSpec.AddRecord_ok addr written (rep_of (last_sequence_ d + 1) g) (log_ d) _ _ (v_log _ _ _ _ V)) as (l1 & EA & Hl1 & _);
    [by apply LogSpec.encodes_range|by apply rep_bytes|]. rewrite EA in E. cbn [mbind result_bind ok sOK andb] in E.
  set (lr := if sync w then _ else _) in E. assert (∃ l2, lr = Ok (sOK, l2) ∧ LogSpec.tagged written l2 (LogSpec.encodes 0 (contents base (cur ++ [g]))).1 (LogSpec.encodes 0 (contents base (cur ++ [g]))).2) as (l2 & Elr & Hl2).
  { assert (contents base (cur ++ [g]) = contents base cur ++ [rep_of (last_sequence_ d + 1) g]) as Ec by (rewrite contents_app; cbn; by rewrite Hseq).
    rewrite Ec, LogSpec.encodes_app. assert (∀ b rs x, (LogSpec.encodes b (rs ++ [x])).2 = (LogSpec.encode (LogSpec.encodes b rs).2 x).2) as E2.
    { clear. intros b rs x. revert b. induction rs as [|r rs IH]; intros b; cbn; [done|]. apply IH. }
    rewrite E2. cbn [LogSpec.encodes fst snd]. rewrite app_nil_r. subst lr. destruct (sync w); [|by exists l1].
    pose proof Hl1 as (Hw1 & Hb1 & Ht1). destruct (wf_sync_law _ _ Hw1) as (fs & -> & Hfs). rbind. eexists. split; [done|]. by split. }
  rewrite Elr in E. cbn [mbind result_bind ok sOK] in E. clear Elr lr. pose proof (v_mem _ _ _ _ V) as Hmem. fold base in Hmem.
  destruct (holds_insert base (concat cur) g (mem_ d)) as (m' & EI & Hm'); [lia|rewrite zlen_app; lia|done|apply Forall_app; split; [apply Forall_concat, V|done]|done|].
  rewrite Hseq in E. rewrite EI in E. cbn [mbind result_bind] in E. rewrite (proj2 (Z.ltb_ge _ _)) in E by lia.
  set (d2 := if t then _ else _) in E. assert (qinv es A gone order d2) as Q2 by (eapply qinv_same; [|exact Q]; by destruct t).
  assert (writers_ d2 = G ++ rest) as Hg2 by (by destruct t). destruct (qinv_finish es A gone order d2 me grp rest l sOK Q2 Hg2 Hlg) as (m & an & EF & Han & QF).
  rewrite EF in E. injection E as <-. cbn [answers with_queue]. rewrite Han. cbn [default]. split; [|done]. eexists A, _, _, old, (cur ++ [g]). split; [exact QF|]. split; [|unfold phase_ok; cbn; destruct t; [done|by apply Htmp]].
  destruct V. split; cbn [ok sOK].
  - rewrite fmap_app, concat_app, v_ops0, concat_snoc. unfold g, gops, G. by rewrite <- app_assoc.
  - rewrite concat_snoc, zlen_app. transitivity (last_sequence_ d2); [done|]. subst d2. destruct t; cbn; lia.
  - rewrite concat_snoc. by destruct t.
  - by destruct t.
  - apply Forall_app. by split; [|constructor].
  - apply Forall_app. by split; [|constructor].
  - intros c1 c2 tt Hc Hc1 Hc2 Hh. destruct c2 as [|x c2 _] using rev_ind; [done|]. rewrite app_assoc in Hc. apply app_inj_tail in Hc as [-> ->]. destruct c2 as [|y c2].
    + rewrite app_nil_r in *. unfold holds in Hh, Hmem. assert (tt = mem_ d) as -> by congruence. done.
    + by eapply v_usage0.
Qed.

Lemma write_inv_step es d e d' : inv es d → step addr capacity write_buffer_size NewWritableFile d e d' → call_ok e → last_sequence_ d' < 2 ^ 56 → inv (es ++ [e]) d'.
Proof.
  intros Hinv Hstep Hok Hlast. pose proof (step_last _ _ _ Hstep) as Hmono. destruct Hstep as [d i b s Hw Ha|d i ws w Hl Hws Hw Hd|d i ws f a d' Hl Hws E|d i ws l u t s d' Hl Hws E|d i w Hw Hd|d i l0 e Hi].
  - destruct Hinv as (A & gone & order & old & cur & Q & V & P). destruct (qinv_arrive _ _ _ _ _ i b s Q Hok Hw Ha) as (A' & Q' & Hsame).
    exists A', gone, order, old, cur. split; [done|]. split; [by apply (dinv_same _ _ _ d)|]. unfold phase_ok in *. cbn [leader arrive with_queue]. destruct (leader d) as [[|l u t sq]|]; [done| |done].
    destruct P as (me & grp & rest & Hg & Hl & Hu & Hs & Hsq & Hus & Ht). assert (gops A' (me :: grp) = gops A (me :: grp)) as Hgo.
    { unfold gops, gids. do 2 f_equal. apply list_omap_ext, Forall_Forall2_diag, Forall_forall. intros j Hj. rewrite Hsame; [done|]. rewrite Hg. set_solver. }
    exists me, grp, (rest ++ [i]). rewrite Hgo. split; [by rewrite app_assoc, <- Hg|done].
  - destruct Hinv as (A & gone & order & old & cur & Q & V & P). exists A, gone, order, old, cur. split; [by apply (qinv_same _ _ _ _ d), qinv_tau|]. split; [by apply (dinv_same _ _ _ d)|].
    unfold phase_ok in *. by rewrite Hl in P.
  - eapply room_step; try done. lia.
  - by eapply commit_step.
  - destruct Hinv as (A & gone & order & old & cur & Q & V & P). exists A, gone, order, old, cur. split; [by apply qinv_wake|]. split; [by apply (dinv_same _ _ _ d)|done].
  - destruct Hinv as (A & gone & order & old & cur & Q & V & P). exists A, gone, order, old, cur. split; [by apply (qinv_same _ _ _ _ d), qinv_tau|]. split; [by apply (dinv_same _ _ _ d)|done].
Qed.

Lemma inv_open f n d0 : written f [] → Open addr f n s_init = Ok d0 → inv [] d0.
Proof.
  intros Hf E. unfold Open in E. destruct (LogSpec.Writer_new_ok addr written f Hf) as (w & Ew & Hw). rewrite Ew in E. cbn in E. injection E as <-.
  exists ∅, [], [], [], []. split; [|split; [|done]].
  - split; cbn; try done; [constructor|..].
    all: intros i **; repeat match goal with
      | Hs : _ ∈ [] |- _ => by apply not_elem_of_nil in Hs
      | Hs : is_Some (∅ !! _) |- _ => destruct Hs as [? Hs]
      | Hs : ∅ !! _ = Some _ |- _ => by rewrite lookup_empty in Hs
      end.
  - split; cbn; try done; [change (zlen (@nil op)) with 0; lia|]. by intros [|? ?].
Qed.

Lemma inv_run f n d0 es d : written f [] → Open addr f n s_init = Ok d0 → run addr capacity write_buffer_size NewWritableFile d0 es d → Forall call_ok es → last_sequence_ d < 2 ^ 56 → inv es d.
Proof.
  intros Hf Ho Hrun. induction Hrun as [d|d es d1 e d2 Hrun IH Hstep]; intros Hok Hlast; [by eapply inv_open|]. apply Forall_app in Hok as [Hok He]. apply Forall_cons in He as [He _].
  pose proof (step_last _ _ _ Hstep) as Hmono. apply (write_inv_step es d1 e d2); [apply IH; [done|done|lia]|exact Hstep|exact He|done].
Qed.

(** ** Recovery *)

Section recovery.
Context {R : Type} (unread : R → bytes → Prop) `{SequentialLaws R unread} (paranoid_checks : bool).

(** The tables that recovery makes, in order. *)
Definition keep (m : MemTable.table) (ts : list MemTable.table) : result (Status * list MemTable.table) := Ok (sOK, ts ++ [m]).

Context (s0 : Z) (max0 : Z) (s0_pos : 0 ≤ s0).

(** Recovery after the groups [c1]: they are in a memtable, or already in a
    table when there was no room for more. *)
Definition recovered (c1 : list (list op)) (v : Recovery (S := list MemTable.table)) : Prop :=
  rstatus v = sOK ∧ max_sequence v = (if bool_decide (c1 = []) then max0 else Z.max max0 (s0 + zlen (concat c1))) ∧
  if bool_decide (c1 = []) then mem v = None ∧ tables v = []
  else ∃ t, holds s0 (concat c1) t ∧ (mem v = Some t ∧ tables v = [] ∨ mem v = None ∧ tables v = [t] ∧ ¬ usage_ok t).

Lemma recover_record_ok c1 g v : recovered c1 v → (c1 ≠ [] → ∀ t, holds s0 (concat c1) t → usage_ok t) →
  zlen g < 2 ^ 31 → Forall op_good (concat c1 ++ g) → s0 + zlen (concat c1 ++ g) < 2 ^ 56 → 0 ≤ max0 →
  ∃ v', recover_record capacity write_buffer_size keep paranoid_checks (rep_of (s0 + zlen (concat c1) + 1) g) v = Ok (true, v') ∧ recovered (c1 ++ [g]) v'.
Proof.
  intros (Hs & Hmx & Hm) Hus Hg Hgood Hb Hmax0. pose proof (zlen_nonneg (concat c1)) as Hc0. pose proof (zlen_nonneg g) as Hg0. rewrite zlen_app in Hb. unfold recover_record.
  assert (∃ m, default MemTable.MemTable_new (mem v) = m ∧ holds s0 (concat c1) m ∧ tables v = []) as (m & -> & Hmem & Ht).
  { destruct (bool_decide_reflect (c1 = [])) as [->|Hne]; [destruct Hm as [-> ->]; by eexists|]. destruct Hm as (t & Ht & [[-> ->]|(_ & _ & Hn)]); [by exists t|]. by destruct (Hn (Hus Hne t Ht)). }
  assert (WriteBatch.batch (rep_of (s0 + zlen (concat c1) + 1) g) (s0 + zlen (concat c1) + 1) g) as Hbatch by (split; [done|split; [done|lia]]).
  pose proof (batch_size _ _ _ Hbatch) as Hbs. rewrite (proj2 (Z.ltb_ge _ _)) by lia. unfold WriteBatch.SetContents. rewrite (proj2 (Z.leb_le _ _)) by (unfold WriteBatch.kHeader; lia). rbind.
  destruct (holds_insert s0 (concat c1) g m) as (m' & -> & Hm'); [done|rewrite zlen_app; lia|done|done|done|]. rbind.
  change (MaybeIgnoreError paranoid_checks sOK) with sOK. cbn [ok sOK negb]. assert (WriteBatch.Sequence (rep_of (s0 + zlen (concat c1) + 1) g) = Ok (s0 + zlen (concat c1) + 1)) as -> by (apply Fixed64_roundtrip; lia). rbind.
  rewrite (WriteBatch.Count_ok _ _ _ Hbatch). rbind. replace (s0 + zlen (concat c1) + 1 + zlen g - 1) with (s0 + zlen (concat c1) + zlen g) by lia. rewrite u64_small by lia.
  destruct (usage_total capacity s0 _ m' Hm') as [u Hu]. rewrite Hu. rbind. set (mx := if max_sequence v <? _ then _ else _).
  assert (mx = (if bool_decide (c1 ++ [g] = []) then max0 else Z.max max0 (s0 + zlen (concat (c1 ++ [g]))))) as Emx.
  { rewrite bool_decide_false by (by destruct c1). rewrite concat_snoc, zlen_app. subst mx. rewrite Hmx. destruct (bool_decide_reflect (c1 = [])) as [->|_]; cbn [concat];
      change (zlen (@nil op)) with 0 in *; match goal with |- context [?a <? ?b] => destruct (Z.ltb_spec a b) end; lia. }
  destruct (Z.ltb_spec write_buffer_size u) as [Hbig|Hfit]; [unfold keep; rbind; cbn [ok sOK]|]; (eexists; split; [done|]); (split; [done|]; split; [exact Emx|]);
    rewrite bool_decide_false by (by destruct c1); exists m'; rewrite concat_snoc; (split; [done|]); cbn.
  - right. rewrite Ht. split; [done|]. split; [done|]. intros (u' & Hu' & Hle). assert (u' = u) by congruence. lia.
  - by left.
Qed.

Lemma recover_eof fuel n r r' v c1 : recovered c1 v → Log.ReadRecord addr fuel r = Ok (None, r') → (paranoid_checks = true → Log.reports r' = []) →
  ∃ v', recover_loop addr capacity write_buffer_size keep paranoid_checks (S n) fuel r v = Ok (r', v') ∧ recovered c1 v'.
Proof.
  intros (Hs & Hv) E Hrep. cbn [recover_loop]. rewrite E. rbind. eexists. split; [done|]. split; [|exact Hv]. cbn. unfold noted. rewrite Hs. cbn.
  destruct paranoid_checks; [|done]. by rewrite Hrep.
Qed.

Lemma recover_stop fuel r r' v c1 : recovered c1 v → Log.ReadRecord addr fuel r = Ok (None, r') → (paranoid_checks = true → Log.reports r' = []) →
  ∃ v', (∀ n, (0 < n)%nat → recover_loop addr capacity write_buffer_size keep paranoid_checks n fuel r v = Ok (r', v')) ∧ recovered c1 v'.
Proof.
  intros Hrec E Hrep. destruct (recover_eof fuel 0 r r' v c1 Hrec E Hrep) as (v' & E' & Hv'). exists v'. split; [|done].
  intros [|n] Hn; [lia|]. cbn [recover_loop] in *. rewrite E in *. exact E'.
Qed.

Lemma recover_end fuel r b : LogSpec.good unread r [] b → Log.reports r = [] → (0 < fuel)%nat → ∃ r', Log.ReadRecord addr fuel r = Ok (None, r') ∧ Log.reports r' = [].
Proof.
  intros Hg Hrep Hf. rewrite (LogSpec.ReadRecord_loop addr unread fuel r _ b Hg). destruct Hg as [Hat _]. destruct fuel as [|fuel']; [lia|].
  destruct (LogSpec.read_short addr unread fuel' {| Log.in_fragmented_record := false; Log.prospective_record_offset := 0; Log.scratch := []; Log.fragment := [] |} r [] b Hat) as (r' & -> & Hr);
    [done|]. exists r'. split; [done|]. rewrite Hr; auto.
Qed.

Lemma recover_next fuel n r r1 rec v v1 c1 : recovered c1 v → Log.ReadRecord addr fuel r = Ok (Some rec, r1) → Log.reports r1 = [] →
  recover_record capacity write_buffer_size keep paranoid_checks rec v = Ok (true, v1) →
  recover_loop addr capacity write_buffer_size keep paranoid_checks (S n) fuel r v = recover_loop addr capacity write_buffer_size keep paranoid_checks n fuel r1 v1.
Proof.
  intros (Hs & _) E Hrep Ev. cbn [recover_loop]. rewrite E. rbind. unfold noted. rewrite Hs, Hrep. cbn [last].
  replace (if paranoid_checks && ok sOK then sOK else sOK) with sOK by (by destruct (_ && _)). cbn [ok sOK rstatus].
  assert ({| mem := mem v; max_sequence := max_sequence v; tables := tables v; rstatus := sOK |} = v) as -> by (rewrite <- Hs; by destruct v). by rewrite Ev.
Qed.

Lemma recover_groups fuel gs : ∀ c1 r b c v, recovered c1 v → LogSpec.good unread r (take c (LogSpec.encodes b (contents (s0 + zlen (concat c1)) gs)).1) b → Log.reports r = [] →
  (∀ c1' c2' t, c1 ++ gs = c1' ++ c2' → c1' ≠ [] → c2' ≠ [] → holds s0 (concat c1') t → usage_ok t) →
  Forall (Forall op_good) (c1 ++ gs) → Forall (λ g, zlen g < 2 ^ 31) gs → s0 + zlen (concat (c1 ++ gs)) < 2 ^ 56 → 0 ≤ max0 →
  (length (LogSpec.encodes b (contents (s0 + zlen (concat c1)) gs)).1 + 2 ≤ fuel)%nat →
  ((length (LogSpec.encodes b (contents (s0 + zlen (concat c1)) gs)).1 ≤ c)%nat ∨ paranoid_checks = false) →
  ∃ k r' v', (∀ n, (length gs < n)%nat → recover_loop addr capacity write_buffer_size keep paranoid_checks n fuel r v = Ok (r', v')) ∧ recovered (c1 ++ take k gs) v' ∧ (k ≤ length gs)%nat ∧
    ∀ j, (j ≤ length gs)%nat → (length (LogSpec.encodes b (contents (s0 + zlen (concat c1)) (take j gs))).1 ≤ c)%nat → (j ≤ k)%nat.
Proof.
  induction gs as [|g gs IH]; intros c1 r b c v Hrec Hg Hrep Hus Hgood Hshort Hb Hmax0 Hfuel Hc.
  - cbn [contents LogSpec.encodes fst snd] in *. rewrite take_nil in Hg. destruct (recover_end fuel r b Hg Hrep) as (r' & E & Hr'); [lia|].
    destruct (recover_stop fuel r r' v c1 Hrec E) as (v' & E' & Hv'); [done|]. exists 0%nat, r', v'. split; [intros n Hn; apply E'; cbn in Hn; lia|].
    split; [by rewrite app_nil_r|]. split; [lia|]. cbn. lia.
  - rewrite contents_cons, LogSpec.encodes_cons in Hg, Hfuel, Hc. set (s := s0 + zlen (concat c1)) in *. remember (rep_of (s + 1) g) as rec eqn:Erec. assert (0 ≤ b ≤ Log.kBlockSize) as Hbr by (destruct Hg as [Hat _]; by apply LogSpec.at_range in Hat).
    pose proof (LogSpec.encode_length b rec Hbr) as Hel. rewrite length_app in *. apply Forall_app in Hgood as Hgood2. destruct Hgood2 as [Hgood1 Hgood2]. apply Forall_cons in Hgood2 as [Hgg Hgs].
    assert (Forall is_byte rec) as Hrb by (rewrite Erec; by apply rep_bytes).
    apply Forall_cons in Hshort as [Hsg Hshort]. assert (s + zlen g = s0 + zlen (concat (c1 ++ [g]))) as Esn by (rewrite concat_snoc, zlen_app; unfold s; lia).
    assert (zlen (concat (c1 ++ g :: gs)) = zlen (concat c1 ++ g) + zlen (concat gs)) as Elen by (rewrite concat_app, !zlen_app; cbn; rewrite zlen_app; lia). pose proof (zlen_nonneg (concat gs)).
    destruct (Nat.lt_ge_cases c (length (LogSpec.encode b rec).1)) as [Hcut|Hin].
    + assert (paranoid_checks = false) as Hpar by (destruct Hc; [lia|done]). rewrite take_app_le in Hg by lia. assert (∃ r', Log.ReadRecord addr fuel r = Ok (None, r')) as (r' & E).
      { apply (LogSpec.read_encode_cut addr unread fuel rec r c b Hg Hcut); [lia|done]. }
      destruct (recover_stop fuel r r' v c1 Hrec E) as (v' & E' & Hv'); [congruence|]. exists 0%nat, r', v'. split; [intros n Hn; apply E'; lia|].
      split; [by rewrite app_nil_r|]. split; [lia|]. intros [|j] Hj Hle; [lia|]. cbn [take firstn] in Hle. rewrite contents_cons, LogSpec.encodes_cons, <- Erec in Hle. rewrite length_app in Hle. lia.
    + rewrite take_app_ge in Hg by lia. destruct (LogSpec.read_encode addr unread fuel rec r _ b Hg) as (r1 & E1 & Hg1 & Hrep1); [lia|done|].
      destruct (recover_record_ok c1 g v Hrec) as (v1 & Ev1 & Hrec1); [intros Hne t Ht; by apply (Hus c1 (g :: gs))|done|apply Forall_app; split; [by apply Forall_concat|done]|lia|done|]. fold s in Ev1. rewrite <- Erec in Ev1.
      assert (c1 ++ g :: gs = (c1 ++ [g]) ++ gs) as Eapp by (by rewrite <- app_assoc). rewrite Esn, Eapp in *.
      destruct (IH (c1 ++ [g]) r1 _ _ v1 Hrec1 Hg1) as (k & r2 & v2 & E2 & Hrec2 & Hk & Hall); [congruence|done|done|done|lia|done|lia|destruct Hc; [left; lia|by right]|].
      exists (S k), r2, v2. split; [|split; [cbn; by rewrite <- app_assoc in Hrec2|split; [cbn; lia|]]].
      * intros [|n] Hn; [lia|]. rewrite (recover_next fuel n r r1 rec v v1 c1 Hrec E1) by congruence. apply E2. cbn in Hn. lia.
      * intros [|j] Hj Hle; [lia|]. cbn [take firstn] in Hle. rewrite contents_cons, LogSpec.encodes_cons, <- Erec in Hle. rewrite length_app, Esn in Hle. cbn in Hj. specialize (Hall j ltac:(lia)). lia.
Qed.
End recovery.


(** C2: a crash loses no acknowledged group. At any moment of any run the
    current log holds a record for each group since the memtable was
    switched. When the file is cut anywhere, recovery succeeds and makes one
    table, of the operations of a prefix of the groups that contains every
    group whose record lies before the cut, under the numbers they had; when
    the file is complete the table is made of a memtable equal to the current
    one, and the sequence numbers go on from where they were. *)
Theorem crash_recovery {R} (unread : R → bytes → Prop) `{SequentialLaws R unread} f n d0 es d max0 : written f [] → Open addr f n s_init = Ok d0 →
  run addr capacity write_buffer_size NewWritableFile d0 es d → Forall call_ok es → last_sequence_ d < 2 ^ 56 → 0 ≤ max0 →
  ∃ base cur u, written (Log.dest_ (log_ d)) u ∧ u = (LogSpec.encodes 0 (contents base cur)).1 ∧ last_sequence_ d = base + zlen (concat cur) ∧
    ∀ g c paranoid fuel m, unread g (take c u) → (length u ≤ c)%nat ∨ paranoid = false → (length u + 2 ≤ fuel)%nat → (length cur < m)%nat →
      ∃ k mx ts, RecoverLogFile addr capacity write_buffer_size keep paranoid m fuel g max0 [] = Ok (sOK, mx, ts) ∧
        (∀ j, (j ≤ length cur)%nat → (length (LogSpec.encodes 0 (contents base (take j cur))).1 ≤ c)%nat → (j ≤ k)%nat) ∧
        (if bool_decide (take k cur = []) then ts = [] else ∃ t, ts = [t] ∧ fill (WriteBatch.number (base + 1) (concat (take k cur))) MemTable.MemTable_new = Ok t) ∧
        ((length u ≤ c)%nat → cur ≠ [] → ts = [mem_ d] ∧ mx = Z.max max0 (last_sequence_ d)).
Proof.
  intros Hf Ho Hrun Hok Hlast Hmax0. destruct (inv_run _ _ _ _ _ Hf Ho Hrun Hok Hlast) as (A & gone & order & old & cur & _ & V & _).
  pose proof (zlen_nonneg old). set (base := s_init + zlen old). exists base, cur, (LogSpec.encodes 0 (contents base cur)).1. pose proof (v_log _ _ _ _ V) as (Hw & _). split; [exact Hw|]. split; [done|].
  pose proof (v_seq _ _ _ _ V) as Hseq. fold base in Hseq. split; [done|]. intros g c paranoid fuel m Hg Hc Hfuel Hm.
  assert (LogSpec.good unread (Log.Reader_new g true true 0) (take c (LogSpec.encodes 0 (contents (base + zlen (concat (@nil (list op)))) cur)).1) 0) as Hgood.
  { change (zlen (concat (@nil (list op)))) with 0. rewrite Z.add_0_r. split; [by apply LogSpec.Reader_new_at|done]. }
  destruct (recover_groups unread paranoid base max0 ltac:(lia) fuel cur [] (Log.Reader_new g true true 0) 0 c {| mem := None; max_sequence := max0; tables := []; rstatus := sOK |}) with (2 := Hgood)
    as (k & r' & v' & E & Hrec & Hk & Hall); [done|done| |apply V|apply V| |done| | |].
  { intros c1 c2 t Hc1. by apply (v_usage _ _ _ _ V). }
  { cbn [app]. lia. }
  { change (zlen (concat (@nil (list op)))) with 0. by rewrite Z.add_0_r. }
  { change (zlen (concat (@nil (list op)))) with 0. by rewrite Z.add_0_r. }
  change (zlen (concat (@nil (list op)))) with 0 in Hall. rewrite Z.add_0_r in Hall. cbn [app] in Hrec. unfold RecoverLogFile. rewrite E by done. rbind.
  destruct Hrec as (Hs & Hmx & Hm'). set (out := match mem v' with Some _ => _ | None => _ end). assert (∃ ts, out = Ok (sOK, max_sequence v', ts) ∧
    if bool_decide (take k cur = []) then ts = [] else ∃ t, ts = [t] ∧ holds base (concat (take k cur)) t) as (ts & -> & Hts).
  { subst out. rewrite Hs. cbn [ok sOK]. destruct (bool_decide_reflect (take k cur = [])) as [_|_].
    - destruct Hm' as [-> ->]. by eexists.
    - destruct Hm' as (t & Ht & [[-> ->]|(-> & -> & _)]); [unfold keep; rbind|]; eexists; split; [done|eauto|done|eauto]. }
  exists k, (max_sequence v'), ts. split; [done|]. split; [done|]. split; [exact Hts|]. intros Hfull Hne.
  assert (take k cur = cur) as Ek by (apply take_ge, (Hall (length cur)); [done|by rewrite firstn_all]). rewrite Ek in *. rewrite bool_decide_false in * by done.
  destruct Hts as (t & -> & Ht). split; [|by rewrite Hmx, Hseq]. f_equal. pose proof (v_mem _ _ _ _ V) as Hmem. fold base in Hmem. unfold holds in *. congruence.
Qed.
End run.

(** ** A run *)

Section demo.
#[local] Abbreviation db := (DBImpl (F := bytes)).
Definition fine {X} (r : result X) (x : X) : X := match r with Ok y => y | Fault _ => x end.
Definition demo_new (n : Z) : Status * bytes := (sOK, []).
Definition demo_open : db := Eval vm_compute in
  fine (Open (λ _, 0) [] 7 0) {| mem_ := MemTable.MemTable_new; imm_ := None; log_ := {| Log.dest_ := []; Log.block_offset_ := 0; Log.type_crc_ := [] |};
    logfile_number_ := 0; writers_ := []; waiting := ∅; tmp_batch_ := []; leader := None; answers := ∅; last_sequence_ := 0; next_file_number_ := 0; level0 := 0;
    bg_error_ := sOK; disk := [] |}.
Definition batch_a : bytes := Eval vm_compute in rep_of 0 [(str "a", Some (str "1"))].
Definition batch_b : bytes := Eval vm_compute in rep_of 0 [(str "b", Some (str "2")); (str "a", None)].
Definition demo_calls : db := Eval vm_compute in arrive 2 (Some batch_b) false (arrive 1 (Some batch_a) true demo_open).
Definition demo_lead : db := Eval vm_compute in with_leader (Some (Room false true)) demo_calls.
Definition demo_room : db := Eval vm_compute in fine (room (λ _, 0) Z.of_nat 4194304 demo_new 1 false true demo_lead) demo_lead.
Definition demo_group : bytes := Eval vm_compute in rep_of 1 [(str "a", Some (str "1")); (str "b", Some (str "2")); (str "a", None)].
Definition demo_commit : db := Eval vm_compute in fine (commit (λ _, 0) 1 2 demo_group true 3 demo_room) demo_room.
Definition demo_end : db := Eval vm_compute in
  with_queue (writers_ demo_commit) (delete 2%nat (waiting demo_commit)) (leader demo_commit) (<[2%nat := sOK]> (answers demo_commit)) demo_commit.
Definition demo_labels : list label := [Call 1 (Some batch_a) true; Call 2 (Some batch_b) false; Tau; Tau; Return 1 sOK; Return 2 sOK].

Lemma demo_run : run (λ _, 0) Z.of_nat 4194304 demo_new demo_open demo_labels demo_end.
Proof.
  apply (run_snoc _ _ _ _ _ (take 5 demo_labels) demo_commit).
  2:{ apply (step_wake _ _ _ _ demo_commit 2 {| batch := Some batch_b; sync := false; done := true; status := sOK |}); vm_compute; reflexivity. }
  apply (run_snoc _ _ _ _ _ (take 4 demo_labels) demo_room).
  2:{ apply (step_commit _ _ _ _ demo_room 1 [2%nat] 2 demo_group true 3 demo_commit); vm_compute; reflexivity. }
  apply (run_snoc _ _ _ _ _ (take 3 demo_labels) demo_lead).
  2:{ apply (step_room _ _ _ _ demo_lead 1 [2%nat] false true demo_room); vm_compute; reflexivity. }
  apply (run_snoc _ _ _ _ _ (take 2 demo_labels) demo_calls).
  2:{ apply (step_lead _ _ _ _ demo_calls 1 [2%nat] {| batch := Some batch_a; sync := true; done := false; status := sOK |}); vm_compute; reflexivity. }
  apply (run_snoc _ _ _ _ _ (take 1 demo_labels) (arrive 1 (Some batch_a) true demo_open)).
  2:{ apply step_arrive; vm_compute; reflexivity. }
  apply (run_snoc _ _ _ _ _ [] demo_open); [constructor|]. apply step_arrive; vm_compute; reflexivity.
Qed.

Lemma demo_calls_ok : Forall call_ok demo_labels.
Proof.
  assert (∀ c v, is_byte c → is_byte v → op_good ([c], Some [v]) ∧ op_good ([c], None)) as Hone.
  { intros c v Hc Hv. split; (split; [by vm_compute|split; [by vm_compute|split; [by constructor|by repeat constructor; destruct Hv]]]). }
  unfold demo_labels. rewrite !Forall_cons, Forall_nil. split; [|split; [|by vm_compute]]; (split; [by vm_compute|]).
  - exists 0, [(str "a", Some (str "1"))]. split; [by vm_compute|]. constructor; [|constructor]. by apply (Hone 97 49).
  - exists 0, [(str "b", Some (str "2")); (str "a", None)]. split; [by vm_compute|]. constructor; [by apply (Hone 98 50)|]. constructor; [|constructor]. by apply (Hone 97 0).
Qed.


Lemma crash_recovery_witness : ∃ u ts mx, Log.dest_ (log_ demo_end) = u ∧
  RecoverLogFile (λ _, 0) Z.of_nat 4194304 keep true (S (length u)) (length u + 2) u 0 [] = Ok (sOK, mx, ts) ∧ ts = [mem_ demo_end] ∧ mx = 3.
Proof.
  destruct (crash_recovery (λ _, 0) Z.of_nat 4194304 (F := bytes) (=) demo_new (λ n _, eq_refl) 0 (Z.le_refl 0) (R := bytes) (=) [] 7 demo_open demo_labels demo_end 0 eq_refl eq_refl demo_run demo_calls_ok)
    as (base & cur & u & Hw & Hu & Hseq & Hrec); [vm_compute; reflexivity|lia|]. exists u.
  assert (cur ≠ []) as Hne by (intros ->; rewrite Hu in Hw; by vm_compute in Hw).
  assert (length cur ≤ length u)%nat as Hlen by (rewrite Hu; apply groups_shorter; by vm_compute).
  destruct (Hrec u (length u) true (length u + 2)%nat (S (length u))) as (k & mx & ts & E & _ & _ & Hfull); [by rewrite firstn_all|by left|lia|lia|].
  destruct (Hfull (Nat.le_refl _) Hne) as [-> ->]. exists [mem_ demo_end], (Z.max 0 3). split; [exact Hw|]. split; [exact E|]. by split.
Defined.

(** A compaction request, a [Write] without a batch, that queues behind an
    ordinary write is answered with the group of that write: no memtable was
    switched for it. *)
Definition absorbed_room : db := Eval vm_compute in
  fine (room (λ _, 0) Z.of_nat 4194304 demo_new 1 false true (with_leader (Some (Room false true)) (arrive 2 None false (arrive 1 (Some batch_a) false demo_open)))) demo_open.
Definition absorbed_end : db := Eval vm_compute in
  fine (commit (λ _, 0) 1 2 (fine (WriteBatch.SetSequence 1 batch_a) []) false 1 absorbed_room) demo_open.
Lemma compaction_request_absorbed : ∃ d w, run (λ _, 0) Z.of_nat 4194304 demo_new demo_open [Call 1 (Some batch_a) false; Call 2 None false; Tau; Tau; Return 1 sOK] d ∧
  waiting d !! 2%nat = Some w ∧ done w = true ∧ status w = sOK ∧ imm_ d = None ∧ mem_ d ≠ MemTable.MemTable_new ∧ writers_ d = [].
Proof.
  exists absorbed_end, {| batch := None; sync := false; done := true; status := sOK |}. split; [|by vm_compute].
  set (lead := with_leader (Some (Room false true)) (arrive 2 None false (arrive 1 (Some batch_a) false demo_open))).
  apply (run_snoc _ _ _ _ _ [Call 1 (Some batch_a) false; Call 2 None false; Tau; Tau] absorbed_room (Return 1 sOK)).
  2:{ apply (step_commit _ _ _ _ absorbed_room 1 [2%nat] 2 (fine (WriteBatch.SetSequence 1 batch_a) []) false 1 absorbed_end); vm_compute; reflexivity. }
  apply (run_snoc _ _ _ _ _ [Call 1 (Some batch_a) false; Call 2 None false; Tau] lead Tau).
  2:{ apply (step_room _ _ _ _ lead 1 [2%nat] false true absorbed_room); vm_compute; reflexivity. }
  apply (run_snoc _ _ _ _ _ [Call 1 (Some batch_a) false; Call 2 None false] (arrive 2 None false (arrive 1 (Some batch_a) false demo_open)) Tau).
  2:{ apply (step_lead _ _ _ _ _ 1 [2%nat] {| batch := Some batch_a; sync := false; done := false; status := sOK |}); vm_compute; reflexivity. }
  apply (run_snoc _ _ _ _ _ [Call 1 (Some batch_a) false] (arrive 1 (Some batch_a) false demo_open)); [|apply step_arrive; vm_compute; reflexivity].
  apply (run_snoc _ _ _ _ _ [] demo_open); [constructor|]. apply step_arrive; vm_compute; reflexivity.
Qed.

(** A write whose sync fails is refused, and no read sees it; but its record
    is in the log, and it is there again after a restart. *)
Definition unsynced : Type := bytes.
#[local] Instance unsynced_Writable : WritableFile unsynced := {|
  wf_Append (f : unsynced) d := Ok (sOK, f ++ d);
  wf_Close f := Ok (sOK, f);
  wf_Flush f := Ok (sOK, f);
  wf_Sync f := Ok (Status.IOError (str "fdatasync"), f)
|}.
Definition unsynced_end : result (DBImpl (F := unsynced)) :=
  d ← Open (F := unsynced) (λ _, 0) [] 7 0;
  d ← room (F := unsynced) (λ _, 0) Z.of_nat 4194304 demo_new 1 false true (with_leader (Some (Room false true)) (arrive 1 (Some batch_a) true d));
  match leader d with Some (Logging l u t s) => commit (F := unsynced) (λ _, 0) 1 l u t s d | _ => Fault AssertFailed end.
Definition unsynced_db : DBImpl (F := unsynced) := Eval vm_compute in fine unsynced_end demo_open.
Definition unsynced_table : MemTable.table := Eval vm_compute in
  match RecoverLogFile (R := bytes) (λ _, 0) Z.of_nat 4194304 keep true 9 99 (Log.dest_ (log_ unsynced_db)) 0 [] with
  | Ok (_, _, [t]) => t
  | _ => MemTable.MemTable_new
  end.
Lemma failed_sync_survives : unsynced_end = Ok unsynced_db ∧ (ok <$> answers unsynced_db !! 1%nat) = Some false ∧ mem_ unsynced_db = MemTable.MemTable_new ∧
  RecoverLogFile (R := bytes) (λ _, 0) Z.of_nat 4194304 keep true 9 99 (Log.dest_ (log_ unsynced_db)) 0 [] = Ok (sOK, 1, [unsynced_table]) ∧
  (lk ← LookupKey_new (str "a") 1; MemTable.Get lk unsynced_table) = Ok (Some (Some (str "1"))).
Proof. split; [|split; [|split; [|split]]]; vm_compute; reflexivity. Qed.
End demo.
End DbWriteSpec.
