(* ===== verification/PosixEnv.v ===== *)
(** * Files of LevelDB on POSIX (pack/leveldb/util/env_posix.cc)

    A writable file is written through a mapped region at its end: the file
    is extended by whole regions, and closing it cuts the part that was not
    used. The system calls that can fail are the fields of a class; a mapped
    region is shared with the file, so a store into it is a store into the
    file. *)

From S2P Require Import Prelude Cstd Cmem Coding Status Env Log LogSpec.

Module PosixEnv.

(** Which calls succeed: [ftruncate] to a size, [mmap] of a length at an
    offset, [munmap], [fdatasync], [msync], [close], [fseek] and [pread]; the
    number of bytes after which an [fread] at an offset fails; [strerror] of
    the error. *)
Class Os := {
  ftruncate_ok : Z → bool; mmap_ok : Z → Z → bool; munmap_ok : Z → bool; fdatasync_ok : bool; msync_ok : Z → Z → bool;
  close_ok : bool; fread_fails : Z → option Z; fseek_ok : Z → bool; pread_ok : Z → bool; strerror : bytes
}.

Section posix.
Context `{Os}.

Definition IOError (context : bytes) : Status := Status_new kIOError context strerror.

(** ** Sequential reading *)

Record PosixSequentialFile := { sq_name : bytes; sq_data : bytes; sq_pos : Z }.

(** [fread] stops early at the end of the file or at an error. *)
Definition sq_Read (f : PosixSequentialFile) (n : Z) : Status * bytes * PosixSequentialFile :=
  let all := take (Z.to_nat n) (drop (Z.to_nat (sq_pos f)) (sq_data f)) in
  let read := match fread_fails (sq_pos f) with None => all | Some k => take (Z.to_nat k) all end in
  let f' := {| sq_name := sq_name f; sq_data := sq_data f; sq_pos := sq_pos f + zlen read |} in
  let feof := bool_decide (fread_fails (sq_pos f) = None) in
  (if (zlen read <? n) && negb feof then IOError (sq_name f) else sOK, read, f').
Definition sq_Skip (f : PosixSequentialFile) (n : Z) : Status * PosixSequentialFile :=
  if fseek_ok n then (sOK, {| sq_name := sq_name f; sq_data := sq_data f; sq_pos := sq_pos f + n |}) else (IOError (sq_name f), f).

#[export] Instance posix_Sequential : SequentialFile PosixSequentialFile := {| sf_Read := sq_Read; sf_Skip := sq_Skip |}.

(** ** Random access *)

Record PosixRandomAccessFile := { ra_name : bytes; ra_data : bytes }.
Definition pread_Read (f : PosixRandomAccessFile) (offset n : Z) : Status * bytes :=
  if pread_ok offset then (sOK, take (Z.to_nat n) (drop (Z.to_nat offset) (ra_data f))) else (IOError (ra_name f), []).

Record PosixMmapReadableFile := { mr_name : bytes; mmapped_region_ : bytes; length_ : Z }.
Definition mmap_Read (f : PosixMmapReadableFile) (offset n : Z) : result (Status * bytes) :=
  if length_ f <? u64 (offset + n) then Ok (IOError (mr_name f), [])
  else d ← slice (mmapped_region_ f) offset n; Ok (sOK, d).

#[export] Instance posix_RandomAccess : RandomAccessFile PosixRandomAccessFile := {| ra_Read f o n := Ok (pread_Read f o n); ra_scratch _ := true |}.
#[export] Instance posix_Mapped : RandomAccessFile PosixMmapReadableFile := {| ra_Read := mmap_Read; ra_scratch _ := false |}.

(** [MmapLimiter]: the number of maps that are still allowed. *)
Definition MmapLimiter_new : Z := 1000.
Definition Acquire (allowed : Z) : bool * Z := if allowed <=? 0 then (false, allowed) else (true, allowed - 1).
Definition Release (allowed : Z) : Z := allowed + 1.

(** ** Writing *)

(** [region] is the mapped region, with its length, the position of [dst_]
    and that of [last_sync_] in it. *)
Record PosixMmapFile := {
  filename_ : bytes; fd_open : bool; page_size_ : Z; map_size_ : Z; region : option (Z * Z * Z); file_offset_ : Z;
  pending_sync_ : bool; data : bytes
}.

Definition Roundup (x y : Z) : Z := (x + y - 1) / y * y.
Definition TruncateToPageBoundary (f : PosixMmapFile) (s : Z) : result Z :=
  let s := s - Z.land s (page_size_ f - 1) in
  if s `mod` page_size_ f =? 0 then Ok s else Fault AssertFailed.

Definition PosixMmapFile_new (fname : bytes) (page_size : Z) : result PosixMmapFile :=
  if Z.land page_size (page_size - 1) =? 0 then
    Ok {| filename_ := fname; fd_open := true; page_size_ := page_size; map_size_ := Roundup 65536 page_size; region := None;
          file_offset_ := 0; pending_sync_ := false; data := [] |}
  else Fault AssertFailed.

Definition UnmapCurrentRegion (f : PosixMmapFile) : bool * PosixMmapFile :=
  match region f with
  | None => (true, f)
  | Some (limit, dst, last_sync) =>
      (munmap_ok limit,
       {| filename_ := filename_ f; fd_open := fd_open f; page_size_ := page_size_ f;
          map_size_ := if map_size_ f <? 1048576 then map_size_ f * 2 else map_size_ f; region := None;
          file_offset_ := file_offset_ f + limit; pending_sync_ := if last_sync <? limit then true else pending_sync_ f; data := data f |})
  end.

(** [ftruncate]: cut, or extended by zeros. *)
Definition ftruncate (d : bytes) (n : Z) : bytes := take (Z.to_nat n) d ++ replicate (Z.to_nat n - length d) 0.

Definition MapNewRegion (f : PosixMmapFile) : result (bool * PosixMmapFile) :=
  if bool_decide (is_Some (region f)) then Fault AssertFailed
  else if negb (ftruncate_ok (file_offset_ f + map_size_ f)) then Ok (false, f)
  else
    let grown := {| filename_ := filename_ f; fd_open := fd_open f; page_size_ := page_size_ f; map_size_ := map_size_ f; region := None;
                    file_offset_ := file_offset_ f; pending_sync_ := pending_sync_ f; data := ftruncate (data f) (file_offset_ f + map_size_ f) |} in
    if negb (mmap_ok (map_size_ f) (file_offset_ f)) then Ok (false, grown)
    else Ok (true, {| filename_ := filename_ f; fd_open := fd_open f; page_size_ := page_size_ f; map_size_ := map_size_ f;
                      region := Some (map_size_ f, 0, 0); file_offset_ := file_offset_ f; pending_sync_ := pending_sync_ f; data := data grown |}).

(** [memcpy(dst_, src, n)] and the new [dst_]. *)
Definition put (src : bytes) (f : PosixMmapFile) : result PosixMmapFile :=
  match region f with
  | None => match src with [] => Ok f | _ => Fault OutOfBounds end
  | Some (limit, dst, last_sync) =>
      if dst + zlen src <=? limit then
        d ← blit (data f) (file_offset_ f + dst) src;
        Ok {| filename_ := filename_ f; fd_open := fd_open f; page_size_ := page_size_ f; map_size_ := map_size_ f;
              region := Some (limit, dst + zlen src, last_sync); file_offset_ := file_offset_ f; pending_sync_ := pending_sync_ f; data := d |}
      else Fault OutOfBounds
  end.

Definition avail (f : PosixMmapFile) : Z := match region f with Some (limit, dst, _) => limit - dst | None => 0 end.

(** The loop of [Append]: a round either writes or maps a new region. *)
Fixpoint append_loop (fuel : nat) (src : bytes) (f : PosixMmapFile) : result (Status * PosixMmapFile) :=
  if zlen src =? 0 then Ok (sOK, f)
  else
    match fuel with
    | O => Fault AssertFailed
    | S fuel =>
        let av := avail f in
        '(fine, f) ← (if av =? 0 then
                        let '(a, f) := UnmapCurrentRegion f in
                        if a then MapNewRegion f else Ok (false, f)
                      else Ok (true, f));
        if negb fine then Ok (IOError (filename_ f), f)
        else
          let n := if zlen src <=? av then zlen src else av in
          f ← put (take (Z.to_nat n) src) f;
          append_loop fuel (drop (Z.to_nat n) src) f
    end.
Definition Append (src : bytes) (f : PosixMmapFile) : result (Status * PosixMmapFile) := append_loop (2 * length src) src f.

Definition Close (f : PosixMmapFile) : Status * PosixMmapFile :=
  let unused := avail f in
  let '(a, f) := UnmapCurrentRegion f in
  let '(s, d) :=
    if negb a then (IOError (filename_ f), data f)
    else if 0 <? unused then
      if ftruncate_ok (file_offset_ f - unused) then (sOK, ftruncate (data f) (file_offset_ f - unused)) else (IOError (filename_ f), data f)
    else (sOK, data f) in
  let s := if close_ok then s else if ok s then IOError (filename_ f) else s in
  (s, {| filename_ := filename_ f; fd_open := false; page_size_ := page_size_ f; map_size_ := map_size_ f; region := None;
         file_offset_ := file_offset_ f; pending_sync_ := pending_sync_ f; data := d |}).

Definition Flush (f : PosixMmapFile) : Status * PosixMmapFile := (sOK, f).

Definition Sync (f : PosixMmapFile) : result (Status * PosixMmapFile) :=
  let s := if pending_sync_ f && negb fdatasync_ok then IOError (filename_ f) else sOK in
  match region f with
  | Some (limit, dst, last_sync) =>
      if last_sync <? dst then
        p1 ← TruncateToPageBoundary f last_sync;
        p2 ← TruncateToPageBoundary f (dst - 1);
        Ok (if msync_ok p1 (p2 - p1 + page_size_ f) then s else IOError (filename_ f),
            {| filename_ := filename_ f; fd_open := fd_open f; page_size_ := page_size_ f; map_size_ := map_size_ f;
               region := Some (limit, dst, dst); file_offset_ := file_offset_ f; pending_sync_ := false; data := data f |})
      else Ok (s, {| filename_ := filename_ f; fd_open := fd_open f; page_size_ := page_size_ f; map_size_ := map_size_ f;
                     region := region f; file_offset_ := file_offset_ f; pending_sync_ := false; data := data f |})
  | None => Ok (s, {| filename_ := filename_ f; fd_open := fd_open f; page_size_ := page_size_ f; map_size_ := map_size_ f;
                      region := None; file_offset_ := file_offset_ f; pending_sync_ := false; data := data f |})
  end.

#[export] Instance posix_Writable : WritableFile PosixMmapFile := {|
  wf_Append f d := Append d f;
  wf_Close f := Ok (Close f);
  wf_Flush f := Ok (Flush f);
  wf_Sync f := Sync f
|}.
End posix.

(** ** A system whose calls succeed *)

Section laws.
Context `{Os} (Hft : ∀ n, ftruncate_ok n = true) (Hmm : ∀ n o, mmap_ok n o = true) (Hmu : ∀ n, munmap_ok n = true) (Hfd : fdatasync_ok = true)
  (Hms : ∀ a b, msync_ok a b = true) (Hcl : close_ok = true) (Hfr : ∀ o, fread_fails o = None).

(** The file holds [u], and behind it the zeros of the rest of the mapped
    region; its size is a multiple of 64 kB. *)
Record posix_written (f : PosixMmapFile) (u : bytes) : Prop := {
  pw_page : ∃ k, 0 ≤ k ∧ page_size_ f = 2 ^ k;
  pw_map : 0 < map_size_ f ∧ map_size_ f `mod` 65536 = 0;
  pw_offset : 0 ≤ file_offset_ f ∧ file_offset_ f `mod` 65536 = 0;
  pw_region : match region f with
              | Some (limit, dst, last_sync) => 0 ≤ last_sync ≤ dst ∧ dst ≤ limit ∧ limit `mod` 65536 = 0 ∧ zlen u = file_offset_ f + dst ∧
                                                data f = u ++ replicate (Z.to_nat (limit - dst)) 0
              | None => zlen u = file_offset_ f ∧ data f = u
              end
}.

Lemma mod_add a b m : a `mod` m = 0 → b `mod` m = 0 → (a + b) `mod` m = 0.
Proof. intros Ha Hb. by rewrite Zplus_mod, Ha, Hb. Qed.

Lemma new_written fname k : 0 ≤ k → ∃ f, PosixMmapFile_new fname (2 ^ k) = Ok f ∧ posix_written f [].
Proof.
  intros Hk. unfold PosixMmapFile_new. assert (2 ^ k - 1 = Z.ones k) as E1 by (by rewrite Z.ones_equiv, <- Z.sub_1_r). rewrite E1, Z.land_ones, Z.mod_same by lia. cbn [Z.eqb].
  eexists. split; [done|]. assert (0 < 2 ^ k) as H2 by lia. split; cbn; [by exists k| |done|done]. unfold Roundup. destruct (Z.le_gt_cases k 16) as [Hs|Hl].
  - assert ((65536 + 2 ^ k - 1) / 2 ^ k * 2 ^ k = 65536) as ->; [|done]. assert (65536 = 2 ^ (16 - k) * 2 ^ k) as E by (rewrite <- Z.pow_add_r by lia; by replace (16 - k + k) with 16 by lia).
    rewrite E. replace (2 ^ (16 - k) * 2 ^ k + 2 ^ k - 1) with ((2 ^ k - 1) + 2 ^ (16 - k) * 2 ^ k) by lia. rewrite Z.div_add by lia. rewrite Z.div_small by lia. lia.
  - assert ((65536 + 2 ^ k - 1) / 2 ^ k * 2 ^ k = 2 ^ k) as ->.
    { assert (65536 ≤ 2 ^ k) by (change 65536 with (2 ^ 16); apply Z.pow_le_mono_r; lia). replace (65536 + 2 ^ k - 1) with (65535 + 1 * 2 ^ k) by lia. rewrite Z.div_add by lia.
      rewrite Z.div_small by lia. lia. }
    split; [lia|]. replace k with ((k - 16) + 16) by lia. rewrite Z.pow_add_r by lia. apply Z.mod_mul. done.
Qed.

(** A new region behind a full one. *)
Lemma remap f u : posix_written f u → avail f = 0 → ∃ f', (let '(a, f) := UnmapCurrentRegion f in if a then MapNewRegion f else Ok (false, f)) = Ok (true, f') ∧ posix_written f' u ∧ 0 < avail f'.
Proof.
  intros [Hp Hm Ho Hr] Ha. assert (∃ f1, UnmapCurrentRegion f = (true, f1) ∧ region f1 = None ∧ page_size_ f1 = page_size_ f ∧ 0 < map_size_ f1 ∧ map_size_ f1 `mod` 65536 = 0 ∧
    0 ≤ file_offset_ f1 ∧ file_offset_ f1 `mod` 65536 = 0 ∧ zlen u = file_offset_ f1 ∧ data f1 = u) as (f1 & -> & R1 & P1 & M1 & M2 & O1 & O2 & Z1 & D1).
  { unfold UnmapCurrentRegion, avail in *. destruct (region f) as [[[limit dst] ls]|] eqn:Er; [|exists f; naive_solver]. destruct Hr as (Hls & Hd & Hl & Hz & Hdat).
    rewrite Hmu. eexists. split; [done|]. cbn. split; [done|]. split; [done|]. assert (limit = dst) as -> by lia. rewrite Z.sub_diag in Hdat. cbn in Hdat. rewrite app_nil_r in Hdat.
    destruct Hm as [Hm1 Hm2], Ho as [Ho1 Ho2]. split; [destruct (_ <? _); lia|]. split; [destruct (_ <? _); [by rewrite Z.mul_comm, Zmult_mod, Hm2|done]|]. split; [lia|].
    split; [by apply mod_add|]. by split. }
  unfold MapNewRegion. rewrite R1, bool_decide_false by (by intros []). rewrite Hft, Hmm. cbn [negb]. eexists. split; [done|]. split; [|cbn; lia].
  split; cbn; [by rewrite P1|done|done|]. split; [lia|]. split; [lia|]. split; [done|]. split; [lia|]. unfold ftruncate. rewrite D1, Z.sub_0_r.
  rewrite take_ge by (unfold zlen in Z1; lia). f_equal. f_equal. unfold zlen in Z1. lia.
Qed.

Lemma put_ok f u src : posix_written f u → zlen src ≤ avail f → ∃ f', put src f = Ok f' ∧ posix_written f' (u ++ src) ∧ avail f' = avail f - zlen src.
Proof.
  intros [Hp Hm Ho Hr] Ha. pose proof (zlen_nonneg src). unfold put, avail in *. destruct (region f) as [[[limit dst] ls]|] eqn:Er.
  - destruct Hr as (Hls & Hd & Hl & Hz & Hdat). rewrite (proj2 (Z.leb_le _ _)) by lia. rewrite Hdat, <- Hz.
    assert (Z.to_nat (limit - dst) = length src + Z.to_nat (limit - dst - zlen src))%nat as -> by (unfold zlen in *; lia). rewrite replicate_add.
    rewrite blit_app by (unfold zlen; by rewrite ?length_replicate). rbind. eexists. split; [done|]. split; [|cbn; lia]. split; cbn; [done..|]. split; [lia|]. split; [lia|]. split; [done|].
    split; [rewrite zlen_app; lia|]. rewrite <- app_assoc. do 3 f_equal. lia.
  - assert (src = []) as -> by (destruct src; [done|rewrite zlen_cons in Ha; pose proof (zlen_nonneg src); lia]). exists f. rewrite app_nil_r, Er. split; [done|]. split; [|done]. split; [done..|]. by rewrite Er.
Qed.

Lemma append_loop_ok fuel : ∀ src f u, posix_written f u → (2 * length src ≤ fuel)%nat ∨ (2 * length src ≤ S fuel)%nat ∧ 0 < avail f →
  ∃ f', append_loop fuel src f = Ok (sOK, f') ∧ posix_written f' (u ++ src).
Proof.
  induction fuel as [|fuel IH]; intros src f u Hf Hfuel; cbn [append_loop]; (destruct (Z.eqb_spec (zlen src) 0) as [Hz|Hz];
    [assert (src = []) as -> by (destruct src; [done|rewrite zlen_cons in Hz; pose proof (zlen_nonneg src); lia]); exists f; by rewrite app_nil_r|]).
  { unfold zlen in Hz. exfalso. destruct Hfuel as [|[]]; lia. }
  destruct (Z.eqb_spec (avail f) 0) as [Ha|Ha].
  - destruct (remap f u Hf Ha) as (f1 & -> & Hf1 & Ha1). rbind. cbn [negb]. rewrite Ha, (proj2 (Z.leb_gt _ _)) by (unfold zlen in *; lia). change (Z.to_nat 0) with 0%nat. rewrite take_0, drop_0.
    destruct (put_ok f1 u [] Hf1) as (f2 & E2 & Hf2 & Ha2); [change (zlen (@nil Z)) with 0; lia|]. rewrite E2. rbind. rewrite app_nil_r in Hf2. change (zlen (@nil Z)) with 0 in Ha2.
    apply IH; [done|]. right. split; [|lia]. unfold zlen in Hz. destruct Hfuel as [|[]]; lia.
  - assert (0 < avail f) as Hpos.
    { pose proof (pw_region _ _ Hf) as Hr. unfold avail in *. destruct (region f) as [[[? ?] ?]|]; lia. }
    rbind. cbn [negb]. set (n := if zlen src <=? avail f then zlen src else avail f). pose proof (zlen_nonneg src). assert (0 < n ≤ zlen src ∧ n ≤ avail f) as [Hn Hna].
    { subst n. destruct (Z.leb_spec (zlen src) (avail f)); lia. }
    destruct (put_ok f u (take (Z.to_nat n) src) Hf) as (f2 & -> & Hf2 & _); [unfold zlen; rewrite length_take; lia|]. rbind.
    destruct (IH (drop (Z.to_nat n) src) f2 _ Hf2) as (f3 & -> & Hf3); [left; rewrite length_drop; unfold zlen in *; destruct Hfuel as [|[]]; lia|].
    exists f3. split; [done|]. by rewrite <- app_assoc, take_drop in Hf3.
Qed.

Lemma page_boundary f u s : posix_written f u → 0 ≤ s → ∃ p, TruncateToPageBoundary f s = Ok p.
Proof.
  intros Hf Hs. destruct (pw_page _ _ Hf) as (k & Hk & Ep). unfold TruncateToPageBoundary. rewrite Ep. assert (2 ^ k - 1 = Z.ones k) as E1 by (by rewrite Z.ones_equiv, <- Z.sub_1_r).
  rewrite E1, Z.land_ones by lia. rewrite Zminus_mod_idemp_r, Z.sub_diag, Zmod_0_l. by eexists.
Qed.

#[export] Instance posix_laws : WritableLaws PosixMmapFile posix_written.
Proof.
  split.
  - intros f u d Hf. apply append_loop_ok; [done|by left].
  - intros f u Hf. by exists f.
  - intros f u Hf. cbn [wf_Sync posix_Writable]. unfold Sync. rewrite Hfd, andb_false_r. pose proof Hf as [Hp Hm Ho Hr]. destruct (region f) as [[[limit dst] ls]|] eqn:Er.
    + destruct Hr as (Hls & Hd & Hrest). destruct (Z.ltb_spec ls dst).
      * destruct (page_boundary f u ls Hf) as [p1 ->]; [lia|]. rbind. destruct (page_boundary f u (dst - 1) Hf) as [p2 ->]; [lia|]. rbind. rewrite Hms.
        eexists. split; [done|]. split; cbn; [done..|]. split; [lia|]. by split.
      * eexists. split; [done|]. split; cbn; [done..|]. by split.
    + eexists. split; [done|]. split; cbn; done.
  - intros f u Hf. cbn [wf_Close posix_Writable]. unfold Close. destruct (UnmapCurrentRegion f) as [a f1] eqn:E. assert (a = true) as -> by (unfold UnmapCurrentRegion in E; destruct (region f) as [[[? ?] ?]|]; by injection E as <- _).
    cbn [negb]. destruct (0 <? avail f); rewrite ?Hft, Hcl; by eexists.
Qed.

(** After [Close] the file is what was written. *)
Lemma Close_exact f u : posix_written f u → ∃ f', Close f = (sOK, f') ∧ data f' = u.
Proof.
  intros [Hp Hm Ho Hr]. unfold Close, UnmapCurrentRegion, avail. destruct (region f) as [[[limit dst] ls]|].
  - destruct Hr as (Hls & Hd & Hl & Hz & Hdat). rewrite Hmu. cbn [negb data file_offset_]. rewrite Hcl. destruct (Z.ltb_spec 0 (limit - dst)) as [Hu|Hu].
    + rewrite Hft. eexists. split; [done|]. cbn. unfold ftruncate. rewrite Hdat. replace (file_offset_ f + limit - (limit - dst)) with (zlen u) by lia.
      rewrite to_nat_zlen, take_app_length, length_app. rewrite (proj2 (Nat.sub_0_le _ _)) by lia. apply app_nil_r.
    + eexists. split; [done|]. cbn. rewrite Hdat. replace (limit - dst) with 0 by lia. apply app_nil_r.
  - destruct Hr as [Hz Hdat]. cbn [negb Z.ltb]. rewrite Hcl. by eexists.
Qed.

(** Sequential reading of such a file. *)
Definition posix_unread (f : PosixSequentialFile) (u : bytes) : Prop := 0 ≤ sq_pos f ≤ zlen (sq_data f) ∧ u = drop (Z.to_nat (sq_pos f)) (sq_data f).
#[export] Instance posix_reads : SequentialLaws PosixSequentialFile posix_unread.
Proof.
  split. intros f u n [Hpos ->] Hn. cbn [sf_Read posix_Sequential]. unfold sq_Read. rewrite Hfr, bool_decide_true, andb_false_r by done. eexists. split; [done|].
  set (rest := drop (Z.to_nat (sq_pos f)) (sq_data f)). assert (zlen rest = zlen (sq_data f) - sq_pos f) as Hrest by (unfold rest, zlen; rewrite length_drop; unfold zlen in *; lia).
  assert (zlen (take (Z.to_nat n) rest) = Z.min n (zlen rest)) as Ht by (unfold zlen in *; rewrite length_take; lia). split; cbn; [rewrite Ht; lia|].
  rewrite Ht. unfold rest at 1. rewrite drop_drop. rewrite Hrest. destruct (Z.le_gt_cases n (zlen (sq_data f) - sq_pos f)).
  - f_equal. lia.
  - rewrite !drop_ge; [done|unfold zlen in *; lia..].
Qed.

(** C16: a log in a mapped file survives the loss of the process. Records are
    appended through the log writer to a file written through mapped regions;
    the process dies without closing the file, so that the file ends with the
    unused zeros of its last region. Reading the file sequentially gives back
    every record, in order, and nothing is reported as corrupt. *)
Theorem mapped_log_survives addr fname rname k rs : 0 ≤ k → Forall (Forall is_byte) rs →
  ∃ f w w', PosixMmapFile_new fname (2 ^ k) = Ok f ∧ Log.Writer_new addr f = Ok w ∧ LogSpec.write_all addr rs w = Ok (sOK, w') ∧
    ∀ fuel n, (length (data (Log.dest_ w')) < fuel)%nat → (length rs < n)%nat →
      ∃ r, LogSpec.read_all addr n fuel (Log.Reader_new {| sq_name := rname; sq_data := data (Log.dest_ w'); sq_pos := 0 |} true true 0) = Ok (rs, r) ∧ Log.reports r = [].
Proof.
  intros Hk Hrs. destruct (new_written fname k Hk) as (f & Ef & Hf). destruct (LogSpec.Writer_new_ok addr posix_written f Hf) as (w & Ew & Hw).
  destruct (LogSpec.write_all_ok addr posix_written rs w [] 0 Hw) as (w' & Ew' & Hw' & _); [by vm_compute|done|]. exists f, w, w'. do 3 (split; [done|]). intros fuel n Hfuel Hn.
  set (u := [] ++ (LogSpec.encodes 0 rs).1) in Hw'. assert (∃ z, data (Log.dest_ w') = u ++ replicate z 0 ∧ (zlen u + Z.of_nat z) `mod` Log.kBlockSize = 0) as (z & Ez & Hz).
  { assert (∀ x, x `mod` 65536 = 0 → x `mod` Log.kBlockSize = 0) as H64.
    { intros x Hx. rewrite <- (Z.mod_mod_divide x 65536) by (by exists 2). by rewrite Hx. }
    destruct Hw' as [_ _ [Ho1 Ho2] Hr]. destruct (region (Log.dest_ w')) as [[[limit dst] ls]|].
    - destruct Hr as (Hls & Hd & Hl & Hz & Hdat). eexists. split; [exact Hdat|]. apply H64. rewrite Z2Nat.id by lia. replace (zlen u + (limit - dst)) with (file_offset_ (Log.dest_ w') + limit) by lia.
      by apply mod_add.
    - destruct Hr as [Hz Hdat]. exists 0%nat. rewrite app_nil_r. split; [done|]. apply H64. rewrite Z.add_0_r, Hz. done. }
  rewrite Ez in *. rewrite length_app, length_replicate in Hfuel.
  destruct (LogSpec.read_back addr posix_unread rs {| sq_name := rname; sq_data := u ++ replicate z 0; sq_pos := 0 |} z true true fuel n Hrs) as (r & E & Hrep); [by split; [split; [done|apply zlen_nonneg]|]|done|done|].
  exists r. split; [done|]. apply Hrep. by right.
Qed.
End laws.

Definition calm : Os := {| ftruncate_ok _ := true; mmap_ok _ _ := true; munmap_ok _ := true; fdatasync_ok := true; msync_ok _ _ := true; close_ok := true;
  fread_fails _ := None; fseek_ok _ := true; pread_ok _ := true; strerror := [] |}.
Lemma mapped_log_survives_witness : let H := calm in ∃ f w w', PosixMmapFile_new (str "000003.log") (2 ^ 12) = Ok f ∧ Log.Writer_new (λ _, 0) f = Ok w ∧
  LogSpec.write_all (λ _, 0) LogSpec.sample w = Ok (sOK, w') ∧
  ∃ r, LogSpec.read_all (λ _, 0) 4 (S (length (data (Log.dest_ w')))) (Log.Reader_new {| sq_name := []; sq_data := data (Log.dest_ w'); sq_pos := 0 |} true true 0) = Ok (LogSpec.sample, r).
Proof.
  intros H. destruct (mapped_log_survives (H := calm) (λ _, eq_refl) (λ _ _, eq_refl) (λ _, eq_refl) eq_refl (λ _ _, eq_refl) eq_refl (λ _, eq_refl)
    (λ _, 0) (str "000003.log") [] 12 LogSpec.sample) as (f & w & w' & E1 & E2 & E3 & Hread); [lia|apply LogSpec.sample_bytes|].
  exists f, w, w'. do 3 (split; [done|]). destruct (Hread (S (length (data (Log.dest_ w')))) 4%nat) as (r & E & _); [lia|cbn; lia|]. by exists r.
Defined.
End PosixEnv.
